(* ===== verification/_CoqProject ===== *)
-Q . S2P
Prelude.v
Status.v
Coding.v
Crc32c.v
Env.v
Logging.v
Log.v
LogProofs.v
Comparator.v
DbFormat.v
WriteBatch.v
Random.v
Arena.v
SkipList.v
SkipListProofs.v
MemTable.v
ModUtil.v
Plr.v
PlrProofs.v
VersionEdit.v
LearnedIndex.v
LearnedIndexProofs.v
Version.v
VersionGet.v
VersionGetProofs.v
VersionBuilder.v
VersionBuilderProofs.v
Compaction.v
CompactionProofs.v
VLog.v
Filename.v
Bloom.v
FilterBlock.v
Iterator.v
Format.v
Block.v
BlockProofs.v
TwoLevel.v
Merger.v
MergerProofs.v
DbIter.v
DbIterProofs.v
TableBuilder.v
Table.v
TableProofs.v
TableGet.v
CompactionWork.v
CompactionDrop.v
CompactionWorkProofs.v
VersionSet.v
ManifestProofs.v
VersionGc.v
DbWrite.v
DbWriteProofs.v
MemIter.v
Builder.v
DbOpen.v
DbOpenProofs.v
DbGet.v
DbScan.v
Cache.v
CacheProofs.v
CacheClient.v
TableCache.v
LevelReadProofs.v
TableCacheProofs.v
MemEnv.v
MemEnvProofs.v
CompactionInstall.v
CompactionInput.v
Background.v
BackgroundProofs.v
TrivialMove.v
PosixFile.v
PosixFileProofs.v
PosixEnv.v
PosixEnvProofs.v
LearnScheduler.v
ModelFile.v
Repair.v
