(* ===== verification/Prelude.v ===== *)
(** * Bourbon: a verification of the storage engine and its learned indexes

    The program is LevelDB extended with learned indexes (Bourbon): a
    log-structured merge tree whose tables and levels are searched, when a model
    has been trained for them, through a piecewise linear function from keys to
    positions.  A write goes to a log and to a memtable; full memtables become
    tables of level 0; compactions merge tables into the next level; the set of
    tables is a version, and every change of it is a record of the MANIFEST.  A
    read asks the memtables and then the version, level by level; a scan merges
    iterators over all of them.

    ** Files and sources

    Foundations:
    - Prelude (this file): notations, tactics, hints, lemmas on lists, integers
      and machine words;
    - Status (include/leveldb/status.h, util/status.cc); Coding
      (util/coding.cc); Crc32c (util/crc32c.cc); Logging (util/logging.cc);
      Random (util/random.h); Arena (util/arena.cc);
    - Env (include/leveldb/env.h): files as type classes, with the laws of files
      whose operations succeed; [flat_file] implements them.

    Environments:
    - MemEnv, MemEnvProofs (helpers/memenv/memenv.cc): the file system in memory;
    - PosixFile, PosixFileProofs, PosixEnv, PosixEnvProofs (util/env_posix.cc):
      files, limiters, names, locks and the background thread over an interface of
      the system calls.

    Keys and writes:
    - Comparator (util/comparator.cc), DbFormat (db/dbformat.cc): keys, internal
      keys and their order;
    - Log, LogProofs (db/log_writer.cc, db/log_reader.cc): the log;
    - WriteBatch (db/write_batch.cc): batches;
    - SkipList, SkipListProofs (db/skiplist.h), MemTable, MemIter
      (db/memtable.cc);
    - VLog (mod/Vlog.cpp and the pointers of [DBImpl::Put] and [DBImpl::Get]);
    - DbWrite, DbWriteProofs (db/db_impl.cc): the queue of writers, group commit
      and [MakeRoomForWrite].

    Tables:
    - Bloom (util/hash.cc, util/bloom.cc), FilterBlock (table/filter_block.cc);
    - Iterator (include/leveldb/iterator.h), TwoLevel
      (table/two_level_iterator.cc), Merger, MergerProofs (table/merger.cc);
    - Format (table/format.cc), Block, BlockProofs (table/block.cc,
      table/block_builder.cc), TableBuilder (table/table_builder.cc), Table,
      TableProofs, TableGet (table/table.cc);
    - Cache, CacheProofs, CacheClient (util/cache.cc); TableCache,
      LevelReadProofs, TableCacheProofs (db/table_cache.cc): the
      table cache over the sharded cache, with the lookups through models.

    Learned indexes:
    - ModUtil (mod/util.cpp), Plr, PlrProofs (mod/plr.cpp), LearnedIndex,
      LearnedIndexProofs (mod/learned_index.cpp), LearnScheduler
      (mod/CBMode_Learn.cpp and the queue of util/env_posix.cc): which files are
      learned when; ModelFile: the text files of models ([WriteModel],
      [ReadModel], and [WriteLevelModel], [ReadLevelModel] of db/version_set.cc).

    The tree:
    - VersionEdit (db/version_edit.cc), Version, VersionGet, VersionGetProofs,
      VersionBuilder, VersionBuilderProofs, Compaction, CompactionProofs,
      CompactionInput, VersionSet, ManifestProofs, VersionGc
      (db/version_set.cc), Filename (db/filename.cc);
    - CompactionWork, CompactionDrop, CompactionWorkProofs, CompactionInstall
      (db/db_impl.cc, [DoCompactionWork], [InstallCompactionResults]);
    - Builder (db/builder.cc and the flush of a memtable).

    The database (db/db_impl.cc):
    - DbOpen, DbOpenProofs: opening, the replay of logs, removing a database and
      the limits of options;
    - DbGet (and db/snapshot.h): reads at snapshots; DbIter, DbIterProofs
      (db/db_iter.cc): the iterator of the database; DbScan:
      [NewInternalIterator] and [NewIterator];
    - Background, BackgroundProofs, TrivialMove: the scheduling of compactions,
      manual compactions and closing;
    - Repair (db/repair.cc): rebuilding a database whose MANIFEST is lost.

    Where components meet, the client is written against a class and the
    implementation is an instance: [Comparator], [WritableFile],
    [SequentialFile], [RandomAccessFile], [FileSystem], [Checksum], [Snappy],
    [FilterPolicy], [Iterator], [BlockCache], [TableReader], [TableIterators],
    [Arith] and the system calls of PosixFile and PosixEnv.  A class whose name
    ends in [Ok] states what the client relies on.

    ** How the code is read

    Machine integers are numbers with the wrap-around written out ([u32],
    [u64], [i32], [i64]).  Slices and strings are lists of bytes; pointers into a buffer are
    the rest of the buffer or an offset.  Heap structures that are shared and
    changed in place (the nodes of the skip list, the arena, the entries of the
    cache) are kept as heaps with addresses; objects with one owner are values.
    A failed assertion, undefined behaviour or exhausted fuel is [None], so a
    theorem that gives [Some] says that none of them happens (the assertions of
    [TableBuilder::Add] and [Flush] are in [Add_asserted] and [Flush_asserted], and
    [asserts_hold] says that they hold).  Errors of the
    environment are values of [Status] and are followed on every path.
    [double] is the interface [Arith]: exact rationals for the error bounds, IEEE
    binary64 to run the code and for the findings about rounding.  What threads
    do between the points where a mutex is held, and the atomic pointers of the
    skip list, are single steps of transition systems.

    ** What the theorems show

    - Durability: a log cut at any byte yields the records that are complete
      ([log_crash_roundtrip]), the reader ends on any input
      ([log_reader_total]), a reopened writer goes on at the right offset
      ([log_writer_offset]); a MANIFEST cut by a crash is recovered to a state
      that holds at least what was synced ([manifest_crash_recovery]); opening
      replays what was complete in a cut log ([log_recovery_correct]); edits
      survive their encoding ([version_edit_roundtrip]) and any bytes decode to a
      well-formed edit ([version_edit_decode_safe]); CURRENT is switched
      atomically ([set_current_file_atomic]); values are read back from the
      value log, on files that show what is appended only once it is flushed
      ([value_log_roundtrip]).
    - Repair: logs become tables ([repair_converts_log]), damaged tables keep what
      can be read ([repair_salvages_table]), and the database opens with exactly
      its tables ([repair_then_recover]; but see [repair_returns_old_value]).
      Removing a database deletes its files and no others ([destroy_db_exact]).
    - Writes, while nothing fails: a group commit applies the batches of the queue in
      order, and logs them in the modes below 7 ([group_commit_correct]), every writer is served ([every_writer_served]),
      and what [Write] committed is read ([committed_write_is_read]); a flush turns
      a memtable into one table with the same entries ([flush_memtable_correct]).
    - Reads: memtables, versions and the database answer with the newest visible
      entry ([memtable_get_newest], [batch_read_your_writes],
      [version_get_newest], [db_get_newest], in the modes other than 9 and for any
      reader of tables that meets [TableReaderOk], as the tables on disk do:
      [disk_reader_ok]); a table finds what it was built from
      ([table_lookup_correct], [table_iterator_refines],
      [block_iterator_refines]), also through the caches and, where the prediction
      holds the position, the models ([cache_contract], [table_cache_get_correct];
      but see [level_read_ignores_snapshot]) and through filters without
      false negatives ([bloom_no_false_negatives],
      [filter_block_no_false_negatives]).
    - Scans: the iterators refine walks over sorted lists
      ([two_level_iterator_refines], [merging_iterator_refines],
      [db_iterator_refines]), and a scan of the database shows what reads find
      ([scan_agrees_with_get]).
    - Learned search: the error bound of the regression ([plr_error_bound]), the
      interval predicted for a key holds its position
      ([file_model_finds_every_key]), a level model chooses the file the binary
      search would ([level_model_same_file]) and stays in step with its level
      ([level_models_in_step]); what is learned and when
      ([cb_learns_iff_beneficial], [prepare_turn_correct]); models are read back from
      their files ([models_survive_reopening]; but see [saved_model_loses_keys] and
      [nan_model_unreadable]).
    - Compaction: the inputs of the level are chosen so that no older entry of theirs
      stays behind, and those of the next level so that they cover them
      ([pick_compaction_safe], [compact_range_safe]); they are read through their
      merge ([input_iterator_correct]), the outputs answer as the inputs did
      ([compaction_preserves_reads]), installing them keeps the tree, and every read
      if the inputs of the next level leave no older entry behind either
      ([compaction_install_correct], [trivial_move_correct]; the code does not see to
      that: [deleted_key_returns]), and the builder of versions implements maps from
      numbers to files ([builder_refines_map], [builder_batch_equiv]); files are
      deleted exactly when no version needs them ([obsolete_files_exact]).
    - Concurrency: a reader of the skip list during an insertion sees the old or
      the new list ([skiplist_concurrent_read]); at most one background call is
      scheduled, and one whenever the work that the code schedules is there
      ([background_schedule_invariant]; but see [abandoned_manual_crashes]); the background thread runs what is scheduled
      ([scheduled_work_runs]).
    - Environments: [memenv_refines], [posix_writable_file_correct],
      [mmap_read_bounds], [second_lock_unlocks].
    - Formats and arithmetic: internal keys, batches, varints, checksums, the
      generator, the arena, approximate sizes ([approximate_sizes_add]).

    ** Fuel

    Loops that are not structural take fuel; the theorems say how much is
    enough.  The log reader, the replay of a log, the loop of [Recover] and
    [ReadFileToString] need more than the bytes of the file (each turn consumes a
    byte); [MakeRoomForWrite] four turns more than it waits; the loop of a
    compaction more than the entries of its inputs; the searches of the skip list
    more than its nodes; the iterators of blocks, tables, levels and the database
    more than the entries or files they pass; the binary search of a level read
    the length of the interval; the eviction loop of the cache the length of
    its list; the files in memory the blocks they touch; the system calls of
    PosixFile the interruptions and bytes; the loop over learned files their
    number; a repair needs more than
    the bytes of a log and the entries of a table; the file of a model more than its
    segments and its lines.

    ** Not modelled

    - DBImpl: properties and statistics.  The references that an iterator gives
      back when it is deleted are a step of VersionGc.  The destructor of
      [VersionSet::Builder], which gives back references to files.
    - util/env_windows.cc and the loggers: system calls of another platform;
      port/: locks; db/c.cc: bindings; db/dumpfile.cc, db/leveldbutil.cc: tools;
      util/options.cc: settings, which are arguments of the operations that read
      them (the limits of sizes are in DbOpen); benchmarks, tests and
      mod/cxxopts.hpp.
    - Statistics of mod/ (stats, timer, histograms): measurements of time.
    - Rounding of [double] in the error bounds: the theorems on predictions are
      over exact arithmetic, with counterexamples in binary64. *)

From Stdlib Require Import ZArith Lia Sorting.Sorted.
From Stdlib Require Strings.Byte.
From stdpp Require Import base numbers list strings.
From stdpp Require countable.

#[local] Open Scope Z_scope.

(** * Notations *)

Abbreviation byte := Byte.byte.
Abbreviation bytes := (list Byte.byte).

#[export] Instance byte_eq_decision : EqDecision byte := Byte.byte_eq_dec.
#[export] Instance byte_countable : countable.Countable byte := countable.inj_countable Byte.to_N Byte.of_N Byte.of_to_N.

(** Length of a buffer as the machine sees it ([size_t]). *)
Definition blen {A} (l : list A) : Z := Z.of_nat (length l).

(** A C string literal as bytes. *)
Definition str (s : string) : bytes := String.list_byte_of_string s.

(** * Machine integers

    A [w]-bit unsigned integer is a [Z] in [0, 2^w); every arithmetic
    operation of the source that can leave the range is followed by [wrap]. *)

Definition wrap (w z : Z) : Z := z mod 2 ^ w.
Definition u32 (z : Z) : Z := wrap 32 z.
Definition u64 (z : Z) : Z := wrap 64 z.

(** [int] of 32 bits and [int64_t]: the conversion from a wider or unsigned integer
    keeps the low bits, read in two's complement. *)
Definition i32 (z : Z) : Z := (z + 2 ^ 31) mod 2 ^ 32 - 2 ^ 31.
Definition i64 (z : Z) : Z := (z + 2 ^ 63) mod 2 ^ 64 - 2 ^ 63.

(** [unsigned char] value of a byte, [signed char] value of a byte (plain
    [char] is signed on the platforms the code is built for), and the
    conversion of an integer to [char], which keeps the low eight bits. *)
Definition bz (b : byte) : Z := Z.of_N (Byte.to_N b).
Definition sz (b : byte) : Z := if bz b <? 128 then bz b else bz b - 256.
Definition zb (z : Z) : byte :=
  match Byte.of_N (Z.to_N (z mod 256)) with Some b => b | None => Byte.x00 end.

(** [ptr[i]] on a buffer.  Reading past the end is undefined in C++; the model
    reads a zero byte there, and the theorems that depend on such a read carry
    a bound on the index. *)
Definition byte_at (l : bytes) (i : Z) : byte := nth (Z.to_nat i) l Byte.x00.

(** [data + n] and [Slice(data, n)] on buffers. *)
Definition bdrop {A} (n : Z) (l : list A) : list A := drop (Z.to_nat n) l.
Definition btake {A} (n : Z) (l : list A) : list A := take (Z.to_nat n) l.

(** [std::string::resize(n)]: cuts, or extends with zero bytes. *)
Definition bresize (n : Z) (l : bytes) : bytes :=
  btake n l ++ replicate (Z.to_nat n - length l)%nat Byte.x00.

Arguments bz _ : simpl never.
Arguments sz _ : simpl never.
Arguments zb _ : simpl never.
Arguments wrap _ _ : simpl never.
Arguments blen {A} _ : simpl never.
Arguments btake {A} _ _ : simpl never.
Arguments bdrop {A} _ _ : simpl never.
Arguments byte_at _ _ : simpl never.

(** * Automation *)

Create HintDb bourbon discriminated.
Create Rewrite HintDb blen.

(** Case analysis on the boolean tests the executable definitions branch on. *)
Ltac bcase :=
  match goal with
  | |- context [Z.ltb ?a ?b] => destruct (Z.ltb_spec a b)
  | |- context [Z.leb ?a ?b] => destruct (Z.leb_spec a b)
  | |- context [Z.gtb ?a ?b] => rewrite (Z.gtb_ltb a b)
  | |- context [Z.geb ?a ?b] => rewrite (Z.geb_leb a b)
  | |- context [Z.eqb ?a ?b] => destruct (Z.eqb_spec a b)
  | |- context [Nat.ltb ?a ?b] => destruct (Nat.ltb_spec a b)
  | |- context [Nat.leb ?a ?b] => destruct (Nat.leb_spec a b)
  | |- context [Nat.eqb ?a ?b] => destruct (Nat.eqb_spec a b)
  end.

Ltac bcase_in H :=
  match type of H with
  | context [Z.ltb ?a ?b] => destruct (Z.ltb_spec a b)
  | context [Z.leb ?a ?b] => destruct (Z.leb_spec a b)
  | context [Z.gtb ?a ?b] => rewrite (Z.gtb_ltb a b) in H
  | context [Z.geb ?a ?b] => rewrite (Z.geb_leb a b) in H
  | context [Z.eqb ?a ?b] => destruct (Z.eqb_spec a b)
  | context [Nat.ltb ?a ?b] => destruct (Nat.ltb_spec a b)
  | context [Nat.leb ?a ?b] => destruct (Nat.leb_spec a b)
  | context [Nat.eqb ?a ?b] => destruct (Nat.eqb_spec a b)
  end.

(** [destruct] the scrutinee of a match in the goal, keeping the equation. *)
Ltac mcase :=
  match goal with
  | |- context [match ?x with _ => _ end] => destruct x eqn:?
  end.

(** * Lemmas on bytes and words *)

Lemma bz_range b : 0 <= bz b < 256.
Proof.
  unfold bz. pose proof (Byte.to_N_bounded b).
  split; [apply N2Z.is_nonneg|]. change 256 with (Z.of_N 256).
  apply N2Z.inj_lt. lia.
Qed.

Lemma zb_bz b : zb (bz b) = b.
Proof. by destruct b. Qed.

Lemma bz_zb z : bz (zb z) = z mod 256.
Proof.
  unfold bz, zb. pose proof (Z.mod_pos_bound z 256 eq_refl) as Hr.
  destruct (Byte.of_N _) as [b|] eqn:E.
  - apply Byte.to_of_N in E. rewrite E. lia.
  - apply Byte.of_N_None_iff in E. lia.
Qed.

Lemma bz_zb_small z : 0 <= z < 256 -> bz (zb z) = z.
Proof. intros. rewrite bz_zb. by apply Z.mod_small. Qed.

Lemma bz_inj b1 b2 : bz b1 = bz b2 -> b1 = b2.
Proof. intros H. rewrite <- (zb_bz b1), <- (zb_bz b2). by rewrite H. Qed.

Lemma wrap_range w z : 0 <= w -> 0 <= wrap w z < 2 ^ w.
Proof. intros. apply Z.mod_pos_bound. lia. Qed.

Lemma wrap_small w z : 0 <= z < 2 ^ w -> wrap w z = z.
Proof. apply Z.mod_small. Qed.

Lemma u32_small z : 0 <= z < 2 ^ 32 -> u32 z = z.
Proof. apply wrap_small. Qed.

Lemma u64_small z : 0 <= z < 2 ^ 64 -> u64 z = z.
Proof. apply wrap_small. Qed.

Lemma u32_range z : 0 <= u32 z < 2 ^ 32.
Proof. by apply wrap_range. Qed.

Lemma u64_range z : 0 <= u64 z < 2 ^ 64.
Proof. by apply wrap_range. Qed.

Lemma i32_small z : 0 <= z < 2 ^ 31 -> i32 z = z.
Proof. intros. unfold i32. rewrite Z.mod_small by lia. lia. Qed.

#[export] Hint Resolve bz_range u32_range u64_range : bourbon.

(** Bitwise or of numbers with disjoint bits is addition. *)
Lemma lor_disjoint_add a b n :
  0 <= n -> 0 <= a < 2 ^ n -> Z.lor a (Z.shiftl b n) = a + b * 2 ^ n.
Proof.
  intros Hn Ha. rewrite <- Z.shiftl_mul_pow2 by lia.
  assert (Hl : Z.land a (Z.shiftl b n) = 0).
  { apply Z.bits_inj'. intros i Hi. rewrite Z.land_spec, Z.bits_0.
    destruct (Z.lt_ge_cases i n).
    - rewrite (Z.shiftl_spec_low b n i) by lia. apply andb_false_r.
    - destruct (Z.eq_dec a 0) as [->|]; [by rewrite Z.bits_0|].
      rewrite (Z.bits_above_log2 a i); [done|lia|].
      apply Z.lt_le_trans with n; [apply Z.log2_lt_pow2; lia|lia]. }
  rewrite <- Z.lxor_lor by done. by rewrite <- Z.add_nocarry_lxor.
Qed.

Lemma lor_range w a b : 0 <= w -> 0 <= a < 2 ^ w -> 0 <= b < 2 ^ w -> 0 <= Z.lor a b < 2 ^ w.
Proof.
  intros Hw Ha Hb.
  replace (Z.lor a b) with (Z.lor a b mod 2 ^ w) by
    (rewrite <- Z.land_ones, Z.land_lor_distr_l, !Z.land_ones, !Z.mod_small by lia; done).
  apply Z.mod_pos_bound. lia.
Qed.

Lemma land_lxor_distr_l a b c : Z.land (Z.lxor a b) c = Z.lxor (Z.land a c) (Z.land b c).
Proof.
  apply Z.bits_inj'. intros i Hi. rewrite Z.land_spec, !Z.lxor_spec, !Z.land_spec.
  by destruct (Z.testbit a i), (Z.testbit b i), (Z.testbit c i).
Qed.

Lemma lxor_range w a b : 0 <= w -> 0 <= a < 2 ^ w -> 0 <= b < 2 ^ w -> 0 <= Z.lxor a b < 2 ^ w.
Proof.
  intros Hw Ha Hb.
  replace (Z.lxor a b) with (Z.lxor a b mod 2 ^ w) by
    (rewrite <- Z.land_ones, land_lxor_distr_l, !Z.land_ones, !Z.mod_small by lia; done).
  apply Z.mod_pos_bound. lia.
Qed.

(** Or-ing the continuation bit into a varint byte sets bit 7 and keeps the
    low seven bits. *)
Lemma byte_lor_128 v : 0 <= v -> Z.lor v 128 mod 256 = v mod 128 + 128.
Proof.
  intros Hv. change 256 with (2 ^ 8). change 128 with (2 ^ 7) at 2.
  rewrite <- !Z.land_ones by lia. rewrite Z.land_lor_distr_l.
  change (Z.land 128 (Z.ones 8)) with (Z.shiftl 1 7).
  replace (Z.lor (Z.land v (Z.ones 8)) (Z.shiftl 1 7))
    with (Z.lor (Z.land v (Z.ones 7)) (Z.shiftl 1 7)).
  { rewrite lor_disjoint_add; [done|lia|].
    rewrite Z.land_ones by lia. apply Z.mod_pos_bound. lia. }
  apply Z.bits_inj'. intros i Hi.
  rewrite !Z.lor_spec, !Z.land_spec, !Z.shiftl_spec by lia.
  destruct (Z.eq_dec i 7) as [->|Hne].
  { by rewrite !orb_true_r. }
  destruct (Z.lt_ge_cases i 7).
  - by rewrite !Z.ones_spec_low by lia.
  - by rewrite !Z.ones_spec_high by lia.
Qed.

Lemma land_127 v : Z.land v 127 = v mod 128.
Proof. change 127 with (Z.ones 7). by rewrite Z.land_ones. Qed.

Lemma land_255 v : Z.land v 255 = v mod 256.
Proof. change 255 with (Z.ones 8). by rewrite Z.land_ones. Qed.

(** Testing bit 7 of a byte. *)
Lemma land_128_lt b : 0 <= b < 128 -> Z.land b 128 = 0.
Proof.
  intros. apply Z.bits_inj'. intros i Hi. rewrite Z.land_spec, Z.bits_0.
  change 128 with (2 ^ 7). destruct (Z.eq_dec i 7) as [->|Hne].
  - replace (Z.testbit b 7) with false; [done|].
    symmetry. destruct (Z.eq_dec b 0) as [->|]; [by rewrite Z.bits_0|].
    apply Z.bits_above_log2; [lia|].
    apply Z.log2_lt_pow2; lia.
  - by rewrite Z.pow2_bits_false, andb_false_r by lia.
Qed.

Lemma land_128_ge b : 0 <= b < 128 -> Z.land (b + 128) 128 = 128.
Proof.
  intros. replace (b + 128) with (Z.lor b (Z.shiftl 1 7)).
  2: { by rewrite lor_disjoint_add by lia. }
  rewrite Z.land_lor_distr_l, land_128_lt by lia. done.
Qed.

(** * Lemmas on buffers *)

Lemma blen_nonneg {A} (l : list A) : 0 <= blen l.
Proof. unfold blen. lia. Qed.

Lemma blen_app {A} (l k : list A) : blen (l ++ k) = blen l + blen k.
Proof. unfold blen. rewrite length_app. lia. Qed.

Lemma blen_cons {A} (x : A) l : blen (x :: l) = 1 + blen l.
Proof. unfold blen. simpl. lia. Qed.

Lemma blen_nil {A} : blen (@nil A) = 0.
Proof. done. Qed.

Lemma blen_zero_inv {A} (l : list A) : blen l = 0 -> l = [].
Proof. unfold blen. destruct l; simpl; [done|lia]. Qed.

#[export] Hint Rewrite @blen_app @blen_cons @blen_nil : blen.
#[export] Hint Resolve blen_nonneg : bourbon.

Lemma btake_app {A} (l k : list A) : btake (blen l) (l ++ k) = l.
Proof. unfold btake, blen. rewrite Nat2Z.id. apply take_app_length. Qed.

Lemma bdrop_app {A} (l k : list A) : bdrop (blen l) (l ++ k) = k.
Proof. unfold bdrop, blen. rewrite Nat2Z.id. apply drop_app_length. Qed.

Lemma btake_app_n {A} n (l k : list A) : blen l = n -> btake n (l ++ k) = l.
Proof. intros <-. apply btake_app. Qed.

Lemma bdrop_app_n {A} n (l k : list A) : blen l = n -> bdrop n (l ++ k) = k.
Proof. intros <-. apply bdrop_app. Qed.

Lemma btake_all {A} n (l : list A) : blen l <= n -> btake n l = l.
Proof. unfold btake, blen. intros. apply take_ge. lia. Qed.

Lemma bdrop_0 {A} (l : list A) : bdrop 0 l = l.
Proof. done. Qed.

Lemma btake_bdrop {A} n (l : list A) : btake n l ++ bdrop n l = l.
Proof. apply take_drop. Qed.

Lemma blen_btake {A} n (l : list A) :
  0 <= n <= blen l -> blen (btake n l) = n.
Proof. unfold blen, btake. intros. rewrite length_take. lia. Qed.

Lemma blen_bdrop {A} n (l : list A) :
  0 <= n <= blen l -> blen (bdrop n l) = blen l - n.
Proof. unfold blen, bdrop. intros. rewrite length_drop. lia. Qed.

Lemma btake_app_ge {A} n (l k : list A) :
  blen l <= n -> btake n (l ++ k) = l ++ btake (n - blen l) k.
Proof.
  unfold btake, blen. intros. rewrite take_app_ge by lia. do 2 f_equal. lia.
Qed.

Lemma bdrop_app_ge {A} n (l k : list A) :
  blen l <= n -> bdrop n (l ++ k) = bdrop (n - blen l) k.
Proof.
  unfold bdrop, blen. intros. rewrite drop_app_ge by lia. f_equal. lia.
Qed.

Lemma bdrop_app_le {A} n (l k : list A) :
  n <= blen l -> bdrop n (l ++ k) = bdrop n l ++ k.
Proof. unfold bdrop, blen. intros. apply drop_app_le. lia. Qed.

Lemma btake_app_le {A} n (l k : list A) : n <= blen l -> btake n (l ++ k) = btake n l.
Proof. unfold btake, blen. intros. apply take_app_le. lia. Qed.

Lemma bdrop_btake {A} n m (l : list A) :
  0 <= n -> bdrop n (btake m l) = btake (m - n) (bdrop n l).
Proof.
  unfold bdrop, btake. intros. destruct (decide (n <= m)).
  - replace (Z.to_nat m) with (Z.to_nat n + Z.to_nat (m - n))%nat by lia.
    symmetry. apply take_drop_commute.
  - rewrite drop_ge by (rewrite length_take; lia).
    by replace (Z.to_nat (m - n)) with 0%nat by lia.
Qed.

Lemma bdrop_bdrop {A} n m (l : list A) : 0 <= n -> 0 <= m -> bdrop n (bdrop m l) = bdrop (m + n) l.
Proof. intros. unfold bdrop. rewrite drop_drop. f_equal. lia. Qed.

Lemma btake_btake {A} n m (l : list A) : n <= m -> btake n (btake m l) = btake n l.
Proof. unfold btake. intros. rewrite take_take. f_equal. lia. Qed.

Lemma blen_btake_min {A} n (l : list A) : 0 <= n -> blen (btake n l) = Z.min n (blen l).
Proof. unfold blen, btake. intros. rewrite length_take. lia. Qed.

Lemma btake_prefix {A} (b x l : list A) m : b ++ x = btake m l -> b = btake (blen b) l.
Proof.
  intros Hb. rewrite <- (btake_app b x) at 1. rewrite Hb.
  unfold btake, blen. rewrite take_take. f_equal.
  assert (length b <= length (btake m l))%nat by (rewrite <- Hb, length_app; lia).
  unfold btake in *. rewrite length_take in *. lia.
Qed.

Lemma byte_at_app_l l k i : 0 <= i < blen l -> byte_at (l ++ k) i = byte_at l i.
Proof. unfold byte_at, blen. intros. apply app_nth1. lia. Qed.

Lemma byte_at_app_r l k i :
  blen l <= i -> byte_at (l ++ k) i = byte_at k (i - blen l).
Proof.
  unfold byte_at, blen. intros. rewrite app_nth2 by lia. f_equal. lia.
Qed.

Lemma fold_left_ext {A B} (f g : A -> B -> A) l : forall a,
  (forall a b, f a b = g a b) -> fold_left f l a = fold_left g l a.
Proof.
  induction l as [|b l IH]; intros a H; simpl; [done|]. rewrite H. by apply IH.
Qed.

(** * Sorted lists *)

Lemma sorted_lookup {A} (R : A -> A -> Prop) l i j x y :
  StronglySorted R l -> l !! i = Some x -> l !! j = Some y -> (i < j)%nat -> R x y.
Proof.
  intros Hs. revert i j. induction Hs as [|a l Hs IH Ha]; intros i j Hx Hy Hlt; [done|].
  destruct j as [|j]; [lia|]. simpl in Hy. destruct i as [|i]; simpl in Hx.
  - injection Hx as <-. rewrite Forall_forall in Ha. by apply Ha, list_elem_of_lookup_2 with j.
  - eapply IH; [done|done|lia].
Qed.

Lemma sorted_app {A} (R : A -> A -> Prop) l k :
  StronglySorted R (l ++ k) <->
  StronglySorted R l /\ StronglySorted R k /\ forall x y, x ∈ l -> y ∈ k -> R x y.
Proof.
  induction l as [|a l IH]; simpl.
  - split; [intros H; repeat split; [constructor|done|]|tauto]. intros x y Hx. by apply elem_of_nil in Hx.
  - split.
    + intros H. inversion H as [|? ? Hs Hf]; subst. apply IH in Hs as (Hl & Hk & Hx).
      rewrite Forall_app in Hf. destruct Hf as [Hfl Hfk].
      split; [by constructor|]. split; [done|]. intros x y [->|Hin]%elem_of_cons Hy; [|by apply Hx].
      rewrite Forall_forall in Hfk. by apply Hfk.
    + intros (Hl & Hk & Hx). inversion Hl as [|? ? Hs Hf]; subst. constructor.
      * apply IH. split; [done|]. split; [done|]. intros x y ? ?. apply Hx; [by right|done].
      * apply Forall_app. split; [done|]. apply Forall_forall. intros y Hy. apply Hx; [by left|done].
Qed.

(** * Three-way comparisons

    [cmp a b] is negative, zero or positive; equal elements need not be
    identical. *)
Class TotalCompare {A} (cmp : A -> A -> Z) := {
  tc_antisym a b : cmp a b < 0 <-> 0 < cmp b a;
  tc_le_trans a b c : cmp a b <= 0 -> cmp b c <= 0 -> cmp a c <= 0;
}.

Section TotalCompare.
Context {A} (cmp : A -> A -> Z) `{!TotalCompare cmp}.

Lemma tc_refl a : cmp a a = 0.
Proof. pose proof (tc_antisym (cmp := cmp) a a). lia. Qed.

Lemma tc_eq_sym a b : cmp a b = 0 -> cmp b a = 0.
Proof.
  pose proof (tc_antisym (cmp := cmp) a b). pose proof (tc_antisym (cmp := cmp) b a). lia.
Qed.

Lemma tc_flip_le a b : cmp a b <= 0 <-> 0 <= cmp b a.
Proof.
  pose proof (tc_antisym (cmp := cmp) a b). pose proof (tc_antisym (cmp := cmp) b a). lia.
Qed.

Lemma tc_lt_le_trans a b c : cmp a b < 0 -> cmp b c <= 0 -> cmp a c < 0.
Proof.
  intros Hab Hbc. destruct (Z.lt_ge_cases (cmp a c) 0) as [|Hac]; [done|].
  apply tc_flip_le in Hac. pose proof (tc_le_trans (cmp := cmp) b c a Hbc Hac) as Hba.
  apply tc_flip_le in Hba. lia.
Qed.

Lemma tc_le_lt_trans a b c : cmp a b <= 0 -> cmp b c < 0 -> cmp a c < 0.
Proof.
  intros Hab Hbc. destruct (Z.lt_ge_cases (cmp a c) 0) as [|Hac]; [done|].
  apply tc_flip_le in Hac. pose proof (tc_le_trans (cmp := cmp) c a b Hac Hab) as Hba.
  apply tc_flip_le in Hba. lia.
Qed.

Lemma tc_lt_trans a b c : cmp a b < 0 -> cmp b c < 0 -> cmp a c < 0.
Proof. intros Hab Hbc. apply (tc_lt_le_trans a b c); lia. Qed.

Lemma tc_eq_trans a b c : cmp a b = 0 -> cmp b c = 0 -> cmp a c = 0.
Proof.
  intros Hab Hbc. assert (cmp a c <= 0) by (apply (tc_le_trans a b c); lia).
  apply tc_eq_sym in Hab, Hbc.
  assert (Hca : cmp c a <= 0) by (apply (tc_le_trans c b a); lia).
  apply tc_flip_le in Hca. lia.
Qed.
End TotalCompare.
