(* ===== verification/Status.v ===== *)
(** The result type of the storage engine, [leveldb::Status]
    (include/leveldb/status.h, util/status.cc): success, or an error code with
    a message built from two slices. *)

From S2P Require Import Prelude.
From stdpp Require Import base list strings.

#[local] Open Scope Z_scope.

Inductive Code :=
  | kOk | kNotFound | kCorruption | kNotSupported | kInvalidArgument | kIOError.

#[export] Instance Code_eq_dec : EqDecision Code.
Proof. solve_decision. Defined.

(** [state_ == nullptr] is [OK]; otherwise [state_] holds the code and the
    message bytes. *)
Inductive Status :=
  | OK
  | Err (c : Code) (msg : bytes).

#[export] Instance Status_eq_dec : EqDecision Status.
Proof. solve_decision. Defined.

(** [Status::Status(Code, msg, msg2)]: "msg" or "msg: msg2". *)
Definition mkStatus (c : Code) (msg msg2 : bytes) : Status :=
  Err c (msg ++ (if blen msg2 =? 0 then [] else str ": " ++ msg2)).

Definition NotFound (msg msg2 : bytes) : Status := mkStatus kNotFound msg msg2.
Definition Corruption (msg msg2 : bytes) : Status := mkStatus kCorruption msg msg2.
Definition InvalidArgument (msg msg2 : bytes) : Status := mkStatus kInvalidArgument msg msg2.
Definition IOError (msg msg2 : bytes) : Status := mkStatus kIOError msg msg2.

Definition ok (s : Status) : bool := match s with OK => true | Err _ _ => false end.

Definition code (s : Status) : Code := match s with OK => kOk | Err c _ => c end.

Definition IsNotFound (s : Status) : bool := bool_decide (code s = kNotFound).
Definition IsCorruption (s : Status) : bool := bool_decide (code s = kCorruption).
Definition IsIOError (s : Status) : bool := bool_decide (code s = kIOError).

(** [Status::ToString]; the [default] arm of the source's switch is not
    reachable from a [Code]. *)
Definition ToString (s : Status) : bytes :=
  match s with
  | OK => str "OK"
  | Err c msg =>
      match c with
      | kOk => str "OK"
      | kNotFound => str "NotFound: "
      | kCorruption => str "Corruption: "
      | kNotSupported => str "Not implemented: "
      | kInvalidArgument => str "Invalid argument: "
      | kIOError => str "IO error: "
      end ++ msg
  end.

Lemma ok_OK s : ok s = true <-> s = OK.
Proof. by destruct s. Qed.
