(* ===== verification/Coding.v ===== *)
(** util/coding.{h,cc}: fixed-width little-endian and varint encodings, and
    length-prefixed slices, with the round trips every on-disk format of the
    program rests on.  A [Slice* input] in/out parameter with a [bool] result
    is an [option] of the parsed value and the advanced slice (no caller looks
    at the slice after a failure); a pair [p], [limit] of pointers is the list
    of bytes between them. *)

From S2P Require Import Prelude.
From stdpp Require Import base list.

#[local] Open Scope Z_scope.

(** * Fixed-width integers *)

Definition EncodeFixed32 (value : Z) : bytes :=
  [zb (Z.land value 255);
   zb (Z.land (Z.shiftr value 8) 255);
   zb (Z.land (Z.shiftr value 16) 255);
   zb (Z.land (Z.shiftr value 24) 255)].

Definition EncodeFixed64 (value : Z) : bytes :=
  [zb (Z.land value 255);
   zb (Z.land (Z.shiftr value 8) 255);
   zb (Z.land (Z.shiftr value 16) 255);
   zb (Z.land (Z.shiftr value 24) 255);
   zb (Z.land (Z.shiftr value 32) 255);
   zb (Z.land (Z.shiftr value 40) 255);
   zb (Z.land (Z.shiftr value 48) 255);
   zb (Z.land (Z.shiftr value 56) 255)].

Definition PutFixed32 (dst : bytes) (value : Z) : bytes := dst ++ EncodeFixed32 value.
Definition PutFixed64 (dst : bytes) (value : Z) : bytes := dst ++ EncodeFixed64 value.

Definition DecodeFixed32 (ptr : bytes) : Z :=
  Z.lor (Z.lor (Z.lor (bz (byte_at ptr 0))
    (Z.shiftl (bz (byte_at ptr 1)) 8))
    (Z.shiftl (bz (byte_at ptr 2)) 16))
    (Z.shiftl (bz (byte_at ptr 3)) 24).

Definition DecodeFixed64 (ptr : bytes) : Z :=
  let lo := DecodeFixed32 ptr in
  let hi := DecodeFixed32 (bdrop 4 ptr) in
  Z.lor (u64 (Z.shiftl hi 32)) lo.

(** * Varints *)

Definition EncodeVarint32 (v : Z) : bytes :=
  let B := 128 in
  if v <? Z.shiftl 1 7 then [zb v]
  else if v <? Z.shiftl 1 14 then
    [zb (Z.lor v B); zb (Z.shiftr v 7)]
  else if v <? Z.shiftl 1 21 then
    [zb (Z.lor v B); zb (Z.lor (Z.shiftr v 7) B); zb (Z.shiftr v 14)]
  else if v <? Z.shiftl 1 28 then
    [zb (Z.lor v B); zb (Z.lor (Z.shiftr v 7) B); zb (Z.lor (Z.shiftr v 14) B);
     zb (Z.shiftr v 21)]
  else
    [zb (Z.lor v B); zb (Z.lor (Z.shiftr v 7) B); zb (Z.lor (Z.shiftr v 14) B);
     zb (Z.lor (Z.shiftr v 21) B); zb (Z.shiftr v 28)].

(** The [while (v >= B)] loop, with the number of iterations it may still
    make; ten are enough for a 64-bit value ([EncodeVarint64_unfold]). *)
Fixpoint EncodeVarint64_loop (fuel : nat) (v : Z) : bytes :=
  match fuel with
  | O => [zb v]
  | S fuel' =>
      if 128 <=? v then zb (Z.lor v 128) :: EncodeVarint64_loop fuel' (Z.shiftr v 7)
      else [zb v]
  end.

Definition EncodeVarint64 (v : Z) : bytes := EncodeVarint64_loop 10 v.

Definition PutVarint32 (dst : bytes) (v : Z) : bytes := dst ++ EncodeVarint32 v.
Definition PutVarint64 (dst : bytes) (v : Z) : bytes := dst ++ EncodeVarint64 v.

(** [value.size()] is a [size_t] passed as a [uint32_t]. *)
Definition PutLengthPrefixedSlice (dst value : bytes) : bytes :=
  PutVarint32 dst (u32 (blen value)) ++ value.

Fixpoint VarintLength_loop (fuel : nat) (v l : Z) : Z :=
  match fuel with
  | O => l
  | S fuel' => if 128 <=? v then VarintLength_loop fuel' (Z.shiftr v 7) (l + 1) else l
  end.

Definition VarintLength (v : Z) : Z := VarintLength_loop 10 v 1.

(** The decoding loop over [p .. limit-1] at word width [w], reading a byte
    while [shift <= last]. *)
Fixpoint GetVarint_loop (w last shift result : Z) (p : bytes) : option (Z * bytes) :=
  match p with
  | [] => None
  | b :: p' =>
      if shift <=? last then
        let byte := bz b in
        if negb (Z.land byte 128 =? 0) then
          GetVarint_loop w last (shift + 7)
            (Z.lor result (wrap w (Z.shiftl (Z.land byte 127) shift))) p'
        else Some (Z.lor result (wrap w (Z.shiftl byte shift)), p')
      else None
  end.

Definition GetVarint32PtrFallback (p : bytes) : option (Z * bytes) :=
  GetVarint_loop 32 28 0 0 p.

Definition GetVarint32Ptr (p : bytes) : option (Z * bytes) :=
  match p with
  | b :: p' => if Z.land (bz b) 128 =? 0 then Some (bz b, p') else GetVarint32PtrFallback p
  | [] => GetVarint32PtrFallback p
  end.

Definition GetVarint64Ptr (p : bytes) : option (Z * bytes) :=
  GetVarint_loop 64 63 0 0 p.

Definition GetVarint32 (input : bytes) : option (Z * bytes) := GetVarint32Ptr input.
Definition GetVarint64 (input : bytes) : option (Z * bytes) := GetVarint64Ptr input.

(** [bool GetLengthPrefixedSlice(Slice* input, Slice* result)]. *)
Definition GetLengthPrefixedSlice (input : bytes) : option (bytes * bytes) :=
  match GetVarint32 input with
  | Some (len, input) =>
      if len <=? blen input then Some (btake len input, bdrop len input) else None
  | None => None
  end.

(** * Round trips *)

Lemma EncodeFixed32_length v : blen (EncodeFixed32 v) = 4.
Proof. done. Qed.

Lemma EncodeFixed64_length v : blen (EncodeFixed64 v) = 8.
Proof. done. Qed.

Lemma DecodeFixed32_sum ptr :
  DecodeFixed32 ptr =
    bz (byte_at ptr 0) + bz (byte_at ptr 1) * 2 ^ 8 +
    bz (byte_at ptr 2) * 2 ^ 16 + bz (byte_at ptr 3) * 2 ^ 24.
Proof.
  unfold DecodeFixed32.
  pose proof (bz_range (byte_at ptr 0)). pose proof (bz_range (byte_at ptr 1)).
  pose proof (bz_range (byte_at ptr 2)). pose proof (bz_range (byte_at ptr 3)).
  rewrite (lor_disjoint_add (bz (byte_at ptr 0))) by lia.
  rewrite (lor_disjoint_add (bz (byte_at ptr 0) + _)) by lia.
  rewrite lor_disjoint_add by lia. lia.
Qed.

Lemma DecodeFixed32_range ptr : 0 <= DecodeFixed32 ptr < 2 ^ 32.
Proof.
  rewrite DecodeFixed32_sum.
  pose proof (bz_range (byte_at ptr 0)). pose proof (bz_range (byte_at ptr 1)).
  pose proof (bz_range (byte_at ptr 2)). pose proof (bz_range (byte_at ptr 3)). lia.
Qed.

Lemma DecodeFixed64_sum ptr :
  DecodeFixed64 ptr = DecodeFixed32 ptr + DecodeFixed32 (bdrop 4 ptr) * 2 ^ 32.
Proof.
  unfold DecodeFixed64. cbv zeta.
  pose proof (DecodeFixed32_range ptr). pose proof (DecodeFixed32_range (bdrop 4 ptr)).
  rewrite u64_small.
  - rewrite Z.lor_comm. apply lor_disjoint_add; lia.
  - rewrite Z.shiftl_mul_pow2 by lia. lia.
Qed.

Lemma DecodeFixed64_range ptr : 0 <= DecodeFixed64 ptr < 2 ^ 64.
Proof.
  rewrite DecodeFixed64_sum.
  pose proof (DecodeFixed32_range ptr). pose proof (DecodeFixed32_range (bdrop 4 ptr)). lia.
Qed.

(** The low [n] bytes of a number, summed back, give the number modulo
    [2^(8n)]. *)
Lemma fixed_byte v i : 0 <= i -> bz (zb (Z.land (Z.shiftr v i) 255)) = (v / 2 ^ i) mod 256.
Proof.
  intros. rewrite land_255, bz_zb_small, Z.shiftr_div_pow2 by (try apply Z.mod_pos_bound; lia).
  done.
Qed.

Lemma DecodeFixed32_app v rest : DecodeFixed32 (EncodeFixed32 v ++ rest) = v mod 2 ^ 32.
Proof.
  rewrite DecodeFixed32_sum. unfold EncodeFixed32, byte_at. simpl nth.
  rewrite <- (Z.shiftr_0_r v) at 1. rewrite !fixed_byte by lia.
  rewrite Z.pow_0_r, Z.div_1_r. Z.div_mod_to_equations. lia.
Qed.

Lemma DecodeFixed64_app v rest : DecodeFixed64 (EncodeFixed64 v ++ rest) = v mod 2 ^ 64.
Proof.
  rewrite DecodeFixed64_sum, !DecodeFixed32_sum.
  unfold EncodeFixed64, byte_at, bdrop. simpl nth.
  rewrite <- (Z.shiftr_0_r v) at 1. rewrite !fixed_byte by lia.
  rewrite Z.pow_0_r, Z.div_1_r. Z.div_mod_to_equations. lia.
Qed.

(** Re-encoding what was decoded gives the bytes back. *)
Lemma zb_fixed v i b : 0 <= i -> (v / 2 ^ i) mod 256 = bz b ->
  zb (Z.land (Z.shiftr v i) 255) = b.
Proof. intros Hi Hb. apply bz_inj. by rewrite fixed_byte. Qed.

Lemma EncodeFixed32_Decode ptr : blen ptr = 4 -> EncodeFixed32 (DecodeFixed32 ptr) = ptr.
Proof.
  intros Hl. destruct ptr as [|b0 [|b1 [|b2 [|b3 [|]]]]]; try (unfold blen in Hl; simpl in Hl; lia).
  rewrite DecodeFixed32_sum. unfold byte_at. simpl nth.
  pose proof (bz_range b0). pose proof (bz_range b1). pose proof (bz_range b2).
  pose proof (bz_range b3). unfold EncodeFixed32.
  rewrite <- (Z.shiftr_0_r (bz b0 + _ + _ + _)) at 1.
  repeat (apply (f_equal2 cons); [apply zb_fixed; [lia|]; try rewrite Z.pow_0_r;
    Z.div_mod_to_equations; lia|]). done.
Qed.

Lemma EncodeFixed64_split v : EncodeFixed64 v = EncodeFixed32 v ++ EncodeFixed32 (v / 2 ^ 32).
Proof.
  unfold EncodeFixed64, EncodeFixed32. rewrite <- !(Z.shiftr_div_pow2 v 32) by lia.
  rewrite !Z.shiftr_shiftr by lia. done.
Qed.

Lemma EncodeFixed32_mod v : EncodeFixed32 (v mod 2 ^ 32) = EncodeFixed32 v.
Proof.
  unfold EncodeFixed32. rewrite <- (Z.shiftr_0_r (v mod _)) at 1. rewrite <- (Z.shiftr_0_r v) at 5.
  repeat (apply (f_equal2 cons); [apply bz_inj; rewrite !fixed_byte by lia; try rewrite !Z.pow_0_r;
    Z.div_mod_to_equations; lia|]). done.
Qed.

Lemma EncodeFixed64_Decode ptr : blen ptr = 8 -> EncodeFixed64 (DecodeFixed64 ptr) = ptr.
Proof.
  intros Hl. rewrite EncodeFixed64_split, DecodeFixed64_sum.
  pose proof (DecodeFixed32_range ptr). pose proof (DecodeFixed32_range (bdrop 4 ptr)).
  rewrite <- EncodeFixed32_mod, Z_mod_plus_full, Z.mod_small by lia.
  rewrite Z.div_add, Z.div_small, Z.add_0_l by lia.
  rewrite (EncodeFixed32_Decode (bdrop 4 ptr)) by (rewrite blen_bdrop; lia).
  rewrite <- (btake_bdrop 4 ptr) at 3. f_equal.
  rewrite <- (EncodeFixed32_Decode (btake 4 ptr)) by (rewrite blen_btake; lia).
  f_equal. rewrite !DecodeFixed32_sum.
  rewrite <- (btake_bdrop 4 ptr) at 1 2 3 4.
  rewrite !byte_at_app_l by (rewrite blen_btake; lia). done.
Qed.

(** ** Varints *)

Lemma cont_byte v : 0 <= v -> bz (zb (Z.lor v 128)) = v mod 128 + 128.
Proof. intros. by rewrite bz_zb, byte_lor_128. Qed.

(** One decoding step over a continuation byte and over a final byte. *)
Lemma GetVarint_loop_cont w last shift r v p :
  0 <= shift <= last -> 0 <= v -> 0 <= r < 2 ^ shift ->
  v mod 128 * 2 ^ shift < 2 ^ w ->
  GetVarint_loop w last shift r (zb (Z.lor v 128) :: p) =
  GetVarint_loop w last (shift + 7) (r + v mod 128 * 2 ^ shift) p.
Proof.
  intros Hs Hv Hr Hw. simpl. pose proof (Z.mod_pos_bound v 128 eq_refl).
  rewrite cont_byte, land_128_ge, land_127 by lia. bcase; [|lia]. simpl.
  replace ((v mod 128 + 128) mod 128) with (v mod 128).
  2: { replace (v mod 128 + 128) with (v mod 128 + 1 * 128) by lia.
       rewrite Z.mod_add, Zmod_mod by lia. done. }
  rewrite wrap_small.
  - by rewrite lor_disjoint_add by lia.
  - rewrite Z.shiftl_mul_pow2 by lia. split; [|lia].
    apply Z.mul_nonneg_nonneg; [lia|]. apply Z.pow_nonneg. lia.
Qed.

Lemma GetVarint_loop_last w last shift r v p :
  0 <= shift <= last -> 0 <= v < 128 -> 0 <= r < 2 ^ shift ->
  v * 2 ^ shift < 2 ^ w ->
  GetVarint_loop w last shift r (zb v :: p) = Some (r + v * 2 ^ shift, p).
Proof.
  intros Hs Hv Hr Hw. simpl. rewrite bz_zb_small, land_128_lt by lia.
  bcase; [|lia]. simpl. rewrite wrap_small.
  - by rewrite lor_disjoint_add by lia.
  - rewrite Z.shiftl_mul_pow2 by lia. split; [|lia].
    apply Z.mul_nonneg_nonneg; [lia|]. apply Z.pow_nonneg. lia.
Qed.

(** Decoding the output of the encoding loop, at any position of the word. *)
Lemma GetVarint_loop_encode fuel : forall w last shift r v rest,
  0 <= shift -> shift + 7 * Z.of_nat fuel <= last -> 0 <= r < 2 ^ shift ->
  0 <= v < 128 * 2 ^ (7 * Z.of_nat fuel) -> v * 2 ^ shift < 2 ^ w ->
  GetVarint_loop w last shift r (EncodeVarint64_loop fuel v ++ rest) =
  Some (r + v * 2 ^ shift, rest).
Proof.
  induction fuel as [|fuel IH]; intros w last shift r v rest Hs Hl Hr Hv Hw.
  - apply GetVarint_loop_last; lia.
  - simpl EncodeVarint64_loop. bcase; [|apply GetVarint_loop_last; lia].
    assert (0 < 2 ^ shift) by (apply Z.pow_pos_nonneg; lia).
    pose proof (Z.div_mod v 128 ltac:(lia)). pose proof (Z.mod_pos_bound v 128 eq_refl).
    rewrite <- app_comm_cons, GetVarint_loop_cont; [|lia..|nia].
    rewrite Z.shiftr_div_pow2 by lia. change (2 ^ 7) with 128.
    assert (E : 2 ^ (shift + 7) = 2 ^ shift * 128) by (rewrite Z.pow_add_r; lia).
    replace (7 * Z.of_nat (S fuel)) with (7 * Z.of_nat fuel + 7) in * by lia.
    rewrite Z.pow_add_r in Hv by lia. change (2 ^ 7) with 128 in Hv.
    rewrite IH; [|lia|lia|rewrite E; nia|..].
    + f_equal. f_equal. rewrite E. nia.
    + split; [apply Z.div_pos; lia|]. apply Z.div_lt_upper_bound; lia.
    + rewrite E. nia.
Qed.

(** The unrolled 32-bit encoder computes what the 64-bit loop computes. *)
Lemma leb_div a v c : 0 < c -> (a <=? v / c) = (a * c <=? v).
Proof.
  intros Hc. pose proof (Z.div_mod v c ltac:(lia)). pose proof (Z.mod_pos_bound v c Hc).
  repeat bcase; try done; exfalso; nia.
Qed.

Lemma EncodeVarint32_loop v : 0 <= v < 2 ^ 32 -> EncodeVarint32 v = EncodeVarint64_loop 4 v.
Proof.
  intros Hv. unfold EncodeVarint32. cbv zeta. cbn [EncodeVarint64_loop].
  rewrite !Z.shiftr_shiftr by lia. simpl (7 + 7). simpl (14 + 7). simpl (21 + 7).
  rewrite !(Z.shiftr_div_pow2 v) by lia. rewrite !Z.shiftl_mul_pow2 by lia.
  rewrite !leb_div by lia.
  change (1 * 2 ^ 7) with 128. change (1 * 2 ^ 14) with 16384.
  change (1 * 2 ^ 21) with 2097152. change (1 * 2 ^ 28) with 268435456.
  change (128 * 2 ^ 7) with 16384. change (128 * 2 ^ 14) with 2097152.
  change (128 * 2 ^ 21) with 268435456.
  repeat bcase; try done; lia.
Qed.

(** Nothing is lost by bounding the encoding loops at ten iterations: on a
    64-bit value more fuel changes nothing. *)
Lemma EncodeVarint64_loop_fuel f1 : forall f2 v,
  0 <= v < 128 * 2 ^ (7 * Z.of_nat f1) -> (f1 <= f2)%nat ->
  EncodeVarint64_loop f2 v = EncodeVarint64_loop f1 v.
Proof.
  induction f1 as [|f1 IH]; intros f2 v Hv Hf.
  - destruct f2; simpl; [done|]. bcase; [|done]. simpl in Hv. lia.
  - destruct f2 as [|f2]; [lia|]. simpl. bcase; [|done]. f_equal. apply IH; [|lia].
    rewrite Z.shiftr_div_pow2 by lia. change (2 ^ 7) with 128.
    replace (7 * Z.of_nat (S f1)) with (7 * Z.of_nat f1 + 7) in Hv by lia.
    rewrite Z.pow_add_r in Hv by lia. change (2 ^ 7) with 128 in Hv.
    split; [apply Z.div_pos; lia|]. apply Z.div_lt_upper_bound; lia.
Qed.

Lemma EncodeVarint64_9 v : 0 <= v < 2 ^ 64 -> EncodeVarint64 v = EncodeVarint64_loop 9 v.
Proof. intros. apply EncodeVarint64_loop_fuel; simpl; lia. Qed.

Lemma EncodeVarint64_unfold v :
  0 <= v < 2 ^ 64 ->
  EncodeVarint64 v =
    if 128 <=? v then zb (Z.lor v 128) :: EncodeVarint64 (Z.shiftr v 7) else [zb v].
Proof.
  intros Hv.
  change (EncodeVarint64 v) with
    (if 128 <=? v then zb (Z.lor v 128) :: EncodeVarint64_loop 9 (Z.shiftr v 7) else [zb v]).
  rewrite EncodeVarint64_9; [done|]. rewrite Z.shiftr_div_pow2 by lia.
  split; [apply Z.div_pos; lia|]. apply Z.div_lt_upper_bound; lia.
Qed.

Lemma GetVarint32Ptr_fallback p : GetVarint32Ptr p = GetVarint32PtrFallback p.
Proof.
  destruct p as [|b p]; [done|]. unfold GetVarint32Ptr, GetVarint32PtrFallback.
  destruct (Z.eqb_spec (Z.land (bz b) 128) 0) as [E|E]; [|done].
  simpl. rewrite E, !Z.shiftl_0_r. simpl.
  rewrite wrap_small; [done|]. pose proof (bz_range b). lia.
Qed.

Lemma GetVarint32_encode v rest :
  0 <= v < 2 ^ 32 -> GetVarint32 (EncodeVarint32 v ++ rest) = Some (v, rest).
Proof.
  intros Hv. unfold GetVarint32. rewrite GetVarint32Ptr_fallback, EncodeVarint32_loop by lia.
  unfold GetVarint32PtrFallback. rewrite GetVarint_loop_encode by (simpl; lia).
  f_equal. f_equal. lia.
Qed.

Lemma GetVarint64_encode v rest :
  0 <= v < 2 ^ 64 -> GetVarint64 (EncodeVarint64 v ++ rest) = Some (v, rest).
Proof.
  intros Hv. unfold GetVarint64, GetVarint64Ptr. rewrite EncodeVarint64_9 by lia.
  rewrite GetVarint_loop_encode by (simpl; lia). f_equal. f_equal. lia.
Qed.

Lemma GetLengthPrefixedSlice_put s rest :
  blen s < 2 ^ 32 ->
  GetLengthPrefixedSlice (PutLengthPrefixedSlice [] s ++ rest) = Some (s, rest).
Proof.
  intros Hs. pose proof (blen_nonneg s). unfold PutLengthPrefixedSlice, PutVarint32.
  rewrite app_nil_l, u32_small, <- app_assoc by lia. unfold GetLengthPrefixedSlice.
  rewrite GetVarint32_encode by lia. rewrite blen_app. pose proof (blen_nonneg rest).
  bcase; [|lia]. by rewrite btake_app, bdrop_app.
Qed.

Lemma PutLengthPrefixedSlice_app dst s :
  PutLengthPrefixedSlice dst s = dst ++ PutLengthPrefixedSlice [] s.
Proof. unfold PutLengthPrefixedSlice, PutVarint32. by rewrite <- app_assoc. Qed.

(** ** Lengths *)

Lemma VarintLength_loop_spec fuel : forall v l,
  VarintLength_loop fuel v l = l + blen (EncodeVarint64_loop fuel v) - 1.
Proof.
  induction fuel as [|fuel IH]; intros v l; simpl.
  - unfold blen. simpl. lia.
  - bcase; [rewrite IH, blen_cons|unfold blen; simpl]; lia.
Qed.

Lemma EncodeVarint64_loop_length fuel : forall v,
  1 <= blen (EncodeVarint64_loop fuel v) <= Z.of_nat fuel + 1.
Proof.
  induction fuel as [|fuel IH]; intros v; simpl.
  - unfold blen. simpl. lia.
  - bcase; [rewrite blen_cons; specialize (IH (Z.shiftr v 7))|unfold blen; simpl]; lia.
Qed.

(** ** What a decoder can return *)

Lemma GetVarint_loop_suffix w last p : forall shift r v rest,
  GetVarint_loop w last shift r p = Some (v, rest) ->
  exists used, p = used ++ rest /\ (1 <= length used)%nat.
Proof.
  induction p as [|b p IH]; intros shift r v rest; simpl; [done|].
  bcase; [|done]. destruct (negb _).
  - intros (used & -> & ?)%IH. exists (b :: used). simpl. split; [done|lia].
  - intros [= <- <-]. exists [b]. split; [done|simpl; lia].
Qed.

Lemma GetVarint_loop_range w last p : forall shift r v rest,
  0 <= w -> 0 <= r < 2 ^ w ->
  GetVarint_loop w last shift r p = Some (v, rest) -> 0 <= v < 2 ^ w.
Proof.
  induction p as [|b p IH]; intros shift r v rest Hw Hr; simpl; [done|].
  bcase; [|done]. destruct (negb _).
  - apply IH; [done|]. apply lor_range; auto using wrap_range.
  - intros [= <- <-]. apply lor_range; auto using wrap_range.
Qed.

Lemma GetVarint32_range p v rest : GetVarint32 p = Some (v, rest) -> 0 <= v < 2 ^ 32.
Proof.
  unfold GetVarint32. rewrite GetVarint32Ptr_fallback. unfold GetVarint32PtrFallback.
  apply GetVarint_loop_range; lia.
Qed.

Lemma GetVarint32_suffix p v rest :
  GetVarint32 p = Some (v, rest) -> exists used, p = used ++ rest /\ (1 <= length used)%nat.
Proof. unfold GetVarint32. rewrite GetVarint32Ptr_fallback. apply GetVarint_loop_suffix. Qed.

Lemma GetVarint64_range p v rest : GetVarint64 p = Some (v, rest) -> 0 <= v < 2 ^ 64.
Proof. apply GetVarint_loop_range; lia. Qed.

Lemma GetVarint64_suffix p v rest :
  GetVarint64 p = Some (v, rest) -> exists used, p = used ++ rest /\ (1 <= length used)%nat.
Proof. apply GetVarint_loop_suffix. Qed.

Lemma GetLengthPrefixedSlice_suffix p s rest :
  GetLengthPrefixedSlice p = Some (s, rest) ->
  exists used, p = used ++ s ++ rest /\ (1 <= length used)%nat.
Proof.
  unfold GetLengthPrefixedSlice. destruct (GetVarint32 p) as [[v q]|] eqn:E; [|done].
  apply GetVarint32_suffix in E as (used & -> & ?). bcase; [|done]. intros [= <- <-].
  exists used. by rewrite btake_bdrop.
Qed.

(** * Arrays of 32-bit integers *)

Lemma fold_PutFixed32 l : forall dst,
  fold_left PutFixed32 (map u32 l) dst = dst ++ concat (map EncodeFixed32 l).
Proof.
  induction l as [|x l IH]; intros dst; simpl; [by rewrite app_nil_r|].
  rewrite IH. unfold PutFixed32, u32, wrap. by rewrite EncodeFixed32_mod, <- app_assoc.
Qed.

Lemma read_fixed32 l : forall i v rest, l !! i = Some v -> 0 <= v < 2 ^ 32 ->
  DecodeFixed32 (bdrop (Z.of_nat i * 4) (concat (map EncodeFixed32 l) ++ rest)) = v.
Proof.
  induction l as [|x l IH]; intros i v rest Hi Hv; [done|]. destruct i as [|i]; simpl in Hi.
  - injection Hi as ->. cbn [map concat]. change (Z.of_nat 0 * 4) with 0.
    rewrite <- app_assoc, bdrop_0, DecodeFixed32_app. by apply Z.mod_small.
  - rewrite <- (IH i v rest Hi Hv). cbn [map concat]. rewrite <- app_assoc, bdrop_app_ge.
    + do 2 f_equal. rewrite EncodeFixed32_length. lia.
    + rewrite EncodeFixed32_length. lia.
Qed.

Lemma blen_fixed32s l : blen (concat (map EncodeFixed32 l)) = 4 * blen l.
Proof.
  induction l as [|x l IH]; [done|]. cbn [map concat].
  rewrite blen_app, IH, EncodeFixed32_length, blen_cons. lia.
Qed.

(** * Properties *)

(** Varints are read back exactly.  A 64-bit value followed by any bytes
    decodes to the value and leaves those bytes; the encoding takes
    [VarintLength v <= 10] bytes; and for a value that fits 32 bits the
    unrolled 32-bit encoder writes the same bytes (at most five), which the
    32-bit decoder, with its one-byte fast path, reads back. *)
Theorem varint_roundtrip (v : Z) (rest : bytes) (Hv : 0 <= v < 2 ^ 64) :
  GetVarint64 (PutVarint64 [] v ++ rest) = Some (v, rest) /\
  blen (PutVarint64 [] v) = VarintLength v /\ 1 <= VarintLength v <= 10 /\
  (v < 2 ^ 32 ->
   PutVarint32 [] v = PutVarint64 [] v /\
   GetVarint32 (PutVarint32 [] v ++ rest) = Some (v, rest) /\ VarintLength v <= 5).
Proof.
  assert (E : blen (EncodeVarint64 v) = VarintLength v).
  { unfold VarintLength. rewrite VarintLength_loop_spec. unfold EncodeVarint64. lia. }
  split; [by apply GetVarint64_encode|]. split; [done|].
  pose proof (EncodeVarint64_loop_length 9 v) as Hl. rewrite <- EncodeVarint64_9 in Hl by lia.
  split; [lia|]. intros H32.
  assert (E32 : EncodeVarint32 v = EncodeVarint64 v).
  { rewrite EncodeVarint32_loop by lia. symmetry. apply EncodeVarint64_loop_fuel; simpl; lia. }
  split; [done|]. split; [apply GetVarint32_encode; lia|].
  rewrite <- E, <- E32, EncodeVarint32_loop by lia.
  pose proof (EncodeVarint64_loop_length 4 v). lia.
Qed.

Lemma varint_roundtrip_witness :
  GetVarint32 (PutVarint32 [] 300 ++ [Byte.x2a]) = Some (300, [Byte.x2a]) /\
  VarintLength 300 = 2.
Proof.
  split; [|reflexivity].
  destruct (varint_roundtrip 300 [Byte.x2a] ltac:(lia)) as (_ & _ & _ & H).
  apply H. lia.
Defined.

(** Fixed-width integers and length-prefixed slices are read back exactly
    from the front of a buffer. *)
Theorem fixed_and_slice_roundtrip (v : Z) (s rest : bytes)
    (Hv : 0 <= v < 2 ^ 64) (Hs : blen s < 2 ^ 32) :
  DecodeFixed64 (PutFixed64 [] v ++ rest) = v /\
  DecodeFixed32 (PutFixed32 [] (u32 v) ++ rest) = u32 v /\
  GetLengthPrefixedSlice (PutLengthPrefixedSlice [] s ++ rest) = Some (s, rest).
Proof.
  unfold PutFixed64, PutFixed32. rewrite !app_nil_l.
  rewrite DecodeFixed64_app, DecodeFixed32_app, GetLengthPrefixedSlice_put by done.
  rewrite !Z.mod_small; [done| |done]. apply u32_range.
Qed.

Lemma fixed_and_slice_roundtrip_witness :
  DecodeFixed64 (PutFixed64 [] 258 ++ [Byte.x2a]) = 258.
Proof. apply (fixed_and_slice_roundtrip 258 [] [Byte.x2a]); [lia|reflexivity]. Defined.
