(* ===== verification/Crc32c.v ===== *)
(** util/crc32c.{h,cc}: the checksum of the log and table formats.  [Extend]
    is translated with its four-lane, 16-bytes-at-a-time fast path and the
    tables of the source; the main theorem is that it computes the CRC-32C of
    the bit-by-bit definition, whatever the alignment of the buffer.  The
    processor's accelerated routine ([port::AcceleratedCRC32C], provided by a
    library outside the repository when the build finds it) is a parameter. *)

From S2P Require Import Prelude Coding.
From Stdlib Require Import Ring.
From stdpp Require Import base list strings.

#[local] Open Scope Z_scope.

(** * Tables *)

Definition kByteExtensionTable : list Z := [
   0x00000000; 0xf26b8303; 0xe13b70f7; 0x1350f3f4; 0xc79a971f; 0x35f1141c;
   0x26a1e7e8; 0xd4ca64eb; 0x8ad958cf; 0x78b2dbcc; 0x6be22838; 0x9989ab3b;
   0x4d43cfd0; 0xbf284cd3; 0xac78bf27; 0x5e133c24; 0x105ec76f; 0xe235446c;
   0xf165b798; 0x030e349b; 0xd7c45070; 0x25afd373; 0x36ff2087; 0xc494a384;
   0x9a879fa0; 0x68ec1ca3; 0x7bbcef57; 0x89d76c54; 0x5d1d08bf; 0xaf768bbc;
   0xbc267848; 0x4e4dfb4b; 0x20bd8ede; 0xd2d60ddd; 0xc186fe29; 0x33ed7d2a;
   0xe72719c1; 0x154c9ac2; 0x061c6936; 0xf477ea35; 0xaa64d611; 0x580f5512;
   0x4b5fa6e6; 0xb93425e5; 0x6dfe410e; 0x9f95c20d; 0x8cc531f9; 0x7eaeb2fa;
   0x30e349b1; 0xc288cab2; 0xd1d83946; 0x23b3ba45; 0xf779deae; 0x05125dad;
   0x1642ae59; 0xe4292d5a; 0xba3a117e; 0x4851927d; 0x5b016189; 0xa96ae28a;
   0x7da08661; 0x8fcb0562; 0x9c9bf696; 0x6ef07595; 0x417b1dbc; 0xb3109ebf;
   0xa0406d4b; 0x522bee48; 0x86e18aa3; 0x748a09a0; 0x67dafa54; 0x95b17957;
   0xcba24573; 0x39c9c670; 0x2a993584; 0xd8f2b687; 0x0c38d26c; 0xfe53516f;
   0xed03a29b; 0x1f682198; 0x5125dad3; 0xa34e59d0; 0xb01eaa24; 0x42752927;
   0x96bf4dcc; 0x64d4cecf; 0x77843d3b; 0x85efbe38; 0xdbfc821c; 0x2997011f;
   0x3ac7f2eb; 0xc8ac71e8; 0x1c661503; 0xee0d9600; 0xfd5d65f4; 0x0f36e6f7;
   0x61c69362; 0x93ad1061; 0x80fde395; 0x72966096; 0xa65c047d; 0x5437877e;
   0x4767748a; 0xb50cf789; 0xeb1fcbad; 0x197448ae; 0x0a24bb5a; 0xf84f3859;
   0x2c855cb2; 0xdeeedfb1; 0xcdbe2c45; 0x3fd5af46; 0x7198540d; 0x83f3d70e;
   0x90a324fa; 0x62c8a7f9; 0xb602c312; 0x44694011; 0x5739b3e5; 0xa55230e6;
   0xfb410cc2; 0x092a8fc1; 0x1a7a7c35; 0xe811ff36; 0x3cdb9bdd; 0xceb018de;
   0xdde0eb2a; 0x2f8b6829; 0x82f63b78; 0x709db87b; 0x63cd4b8f; 0x91a6c88c;
   0x456cac67; 0xb7072f64; 0xa457dc90; 0x563c5f93; 0x082f63b7; 0xfa44e0b4;
   0xe9141340; 0x1b7f9043; 0xcfb5f4a8; 0x3dde77ab; 0x2e8e845f; 0xdce5075c;
   0x92a8fc17; 0x60c37f14; 0x73938ce0; 0x81f80fe3; 0x55326b08; 0xa759e80b;
   0xb4091bff; 0x466298fc; 0x1871a4d8; 0xea1a27db; 0xf94ad42f; 0x0b21572c;
   0xdfeb33c7; 0x2d80b0c4; 0x3ed04330; 0xccbbc033; 0xa24bb5a6; 0x502036a5;
   0x4370c551; 0xb11b4652; 0x65d122b9; 0x97baa1ba; 0x84ea524e; 0x7681d14d;
   0x2892ed69; 0xdaf96e6a; 0xc9a99d9e; 0x3bc21e9d; 0xef087a76; 0x1d63f975;
   0x0e330a81; 0xfc588982; 0xb21572c9; 0x407ef1ca; 0x532e023e; 0xa145813d;
   0x758fe5d6; 0x87e466d5; 0x94b49521; 0x66df1622; 0x38cc2a06; 0xcaa7a905;
   0xd9f75af1; 0x2b9cd9f2; 0xff56bd19; 0x0d3d3e1a; 0x1e6dcdee; 0xec064eed;
   0xc38d26c4; 0x31e6a5c7; 0x22b65633; 0xd0ddd530; 0x0417b1db; 0xf67c32d8;
   0xe52cc12c; 0x1747422f; 0x49547e0b; 0xbb3ffd08; 0xa86f0efc; 0x5a048dff;
   0x8ecee914; 0x7ca56a17; 0x6ff599e3; 0x9d9e1ae0; 0xd3d3e1ab; 0x21b862a8;
   0x32e8915c; 0xc083125f; 0x144976b4; 0xe622f5b7; 0xf5720643; 0x07198540;
   0x590ab964; 0xab613a67; 0xb831c993; 0x4a5a4a90; 0x9e902e7b; 0x6cfbad78;
   0x7fab5e8c; 0x8dc0dd8f; 0xe330a81a; 0x115b2b19; 0x020bd8ed; 0xf0605bee;
   0x24aa3f05; 0xd6c1bc06; 0xc5914ff2; 0x37faccf1; 0x69e9f0d5; 0x9b8273d6;
   0x88d28022; 0x7ab90321; 0xae7367ca; 0x5c18e4c9; 0x4f48173d; 0xbd23943e;
   0xf36e6f75; 0x0105ec76; 0x12551f82; 0xe03e9c81; 0x34f4f86a; 0xc69f7b69;
   0xd5cf889d; 0x27a40b9e; 0x79b737ba; 0x8bdcb4b9; 0x988c474d; 0x6ae7c44e;
   0xbe2da0a5; 0x4c4623a6; 0x5f16d052; 0xad7d5351].

Definition kStrideExtensionTable0 : list Z := [
   0x00000000; 0x30d23865; 0x61a470ca; 0x517648af; 0xc348e194; 0xf39ad9f1;
   0xa2ec915e; 0x923ea93b; 0x837db5d9; 0xb3af8dbc; 0xe2d9c513; 0xd20bfd76;
   0x4035544d; 0x70e76c28; 0x21912487; 0x11431ce2; 0x03171d43; 0x33c52526;
   0x62b36d89; 0x526155ec; 0xc05ffcd7; 0xf08dc4b2; 0xa1fb8c1d; 0x9129b478;
   0x806aa89a; 0xb0b890ff; 0xe1ced850; 0xd11ce035; 0x4322490e; 0x73f0716b;
   0x228639c4; 0x125401a1; 0x062e3a86; 0x36fc02e3; 0x678a4a4c; 0x57587229;
   0xc566db12; 0xf5b4e377; 0xa4c2abd8; 0x941093bd; 0x85538f5f; 0xb581b73a;
   0xe4f7ff95; 0xd425c7f0; 0x461b6ecb; 0x76c956ae; 0x27bf1e01; 0x176d2664;
   0x053927c5; 0x35eb1fa0; 0x649d570f; 0x544f6f6a; 0xc671c651; 0xf6a3fe34;
   0xa7d5b69b; 0x97078efe; 0x8644921c; 0xb696aa79; 0xe7e0e2d6; 0xd732dab3;
   0x450c7388; 0x75de4bed; 0x24a80342; 0x147a3b27; 0x0c5c750c; 0x3c8e4d69;
   0x6df805c6; 0x5d2a3da3; 0xcf149498; 0xffc6acfd; 0xaeb0e452; 0x9e62dc37;
   0x8f21c0d5; 0xbff3f8b0; 0xee85b01f; 0xde57887a; 0x4c692141; 0x7cbb1924;
   0x2dcd518b; 0x1d1f69ee; 0x0f4b684f; 0x3f99502a; 0x6eef1885; 0x5e3d20e0;
   0xcc0389db; 0xfcd1b1be; 0xada7f911; 0x9d75c174; 0x8c36dd96; 0xbce4e5f3;
   0xed92ad5c; 0xdd409539; 0x4f7e3c02; 0x7fac0467; 0x2eda4cc8; 0x1e0874ad;
   0x0a724f8a; 0x3aa077ef; 0x6bd63f40; 0x5b040725; 0xc93aae1e; 0xf9e8967b;
   0xa89eded4; 0x984ce6b1; 0x890ffa53; 0xb9ddc236; 0xe8ab8a99; 0xd879b2fc;
   0x4a471bc7; 0x7a9523a2; 0x2be36b0d; 0x1b315368; 0x096552c9; 0x39b76aac;
   0x68c12203; 0x58131a66; 0xca2db35d; 0xfaff8b38; 0xab89c397; 0x9b5bfbf2;
   0x8a18e710; 0xbacadf75; 0xebbc97da; 0xdb6eafbf; 0x49500684; 0x79823ee1;
   0x28f4764e; 0x18264e2b; 0x18b8ea18; 0x286ad27d; 0x791c9ad2; 0x49cea2b7;
   0xdbf00b8c; 0xeb2233e9; 0xba547b46; 0x8a864323; 0x9bc55fc1; 0xab1767a4;
   0xfa612f0b; 0xcab3176e; 0x588dbe55; 0x685f8630; 0x3929ce9f; 0x09fbf6fa;
   0x1baff75b; 0x2b7dcf3e; 0x7a0b8791; 0x4ad9bff4; 0xd8e716cf; 0xe8352eaa;
   0xb9436605; 0x89915e60; 0x98d24282; 0xa8007ae7; 0xf9763248; 0xc9a40a2d;
   0x5b9aa316; 0x6b489b73; 0x3a3ed3dc; 0x0aecebb9; 0x1e96d09e; 0x2e44e8fb;
   0x7f32a054; 0x4fe09831; 0xddde310a; 0xed0c096f; 0xbc7a41c0; 0x8ca879a5;
   0x9deb6547; 0xad395d22; 0xfc4f158d; 0xcc9d2de8; 0x5ea384d3; 0x6e71bcb6;
   0x3f07f419; 0x0fd5cc7c; 0x1d81cddd; 0x2d53f5b8; 0x7c25bd17; 0x4cf78572;
   0xdec92c49; 0xee1b142c; 0xbf6d5c83; 0x8fbf64e6; 0x9efc7804; 0xae2e4061;
   0xff5808ce; 0xcf8a30ab; 0x5db49990; 0x6d66a1f5; 0x3c10e95a; 0x0cc2d13f;
   0x14e49f14; 0x2436a771; 0x7540efde; 0x4592d7bb; 0xd7ac7e80; 0xe77e46e5;
   0xb6080e4a; 0x86da362f; 0x97992acd; 0xa74b12a8; 0xf63d5a07; 0xc6ef6262;
   0x54d1cb59; 0x6403f33c; 0x3575bb93; 0x05a783f6; 0x17f38257; 0x2721ba32;
   0x7657f29d; 0x4685caf8; 0xd4bb63c3; 0xe4695ba6; 0xb51f1309; 0x85cd2b6c;
   0x948e378e; 0xa45c0feb; 0xf52a4744; 0xc5f87f21; 0x57c6d61a; 0x6714ee7f;
   0x3662a6d0; 0x06b09eb5; 0x12caa592; 0x22189df7; 0x736ed558; 0x43bced3d;
   0xd1824406; 0xe1507c63; 0xb02634cc; 0x80f40ca9; 0x91b7104b; 0xa165282e;
   0xf0136081; 0xc0c158e4; 0x52fff1df; 0x622dc9ba; 0x335b8115; 0x0389b970;
   0x11ddb8d1; 0x210f80b4; 0x7079c81b; 0x40abf07e; 0xd2955945; 0xe2476120;
   0xb331298f; 0x83e311ea; 0x92a00d08; 0xa272356d; 0xf3047dc2; 0xc3d645a7;
   0x51e8ec9c; 0x613ad4f9; 0x304c9c56; 0x009ea433].

Definition kStrideExtensionTable1 : list Z := [
   0x00000000; 0x54075546; 0xa80eaa8c; 0xfc09ffca; 0x55f123e9; 0x01f676af;
   0xfdff8965; 0xa9f8dc23; 0xabe247d2; 0xffe51294; 0x03eced5e; 0x57ebb818;
   0xfe13643b; 0xaa14317d; 0x561dceb7; 0x021a9bf1; 0x5228f955; 0x062fac13;
   0xfa2653d9; 0xae21069f; 0x07d9dabc; 0x53de8ffa; 0xafd77030; 0xfbd02576;
   0xf9cabe87; 0xadcdebc1; 0x51c4140b; 0x05c3414d; 0xac3b9d6e; 0xf83cc828;
   0x043537e2; 0x503262a4; 0xa451f2aa; 0xf056a7ec; 0x0c5f5826; 0x58580d60;
   0xf1a0d143; 0xa5a78405; 0x59ae7bcf; 0x0da92e89; 0x0fb3b578; 0x5bb4e03e;
   0xa7bd1ff4; 0xf3ba4ab2; 0x5a429691; 0x0e45c3d7; 0xf24c3c1d; 0xa64b695b;
   0xf6790bff; 0xa27e5eb9; 0x5e77a173; 0x0a70f435; 0xa3882816; 0xf78f7d50;
   0x0b86829a; 0x5f81d7dc; 0x5d9b4c2d; 0x099c196b; 0xf595e6a1; 0xa192b3e7;
   0x086a6fc4; 0x5c6d3a82; 0xa064c548; 0xf463900e; 0x4d4f93a5; 0x1948c6e3;
   0xe5413929; 0xb1466c6f; 0x18beb04c; 0x4cb9e50a; 0xb0b01ac0; 0xe4b74f86;
   0xe6add477; 0xb2aa8131; 0x4ea37efb; 0x1aa42bbd; 0xb35cf79e; 0xe75ba2d8;
   0x1b525d12; 0x4f550854; 0x1f676af0; 0x4b603fb6; 0xb769c07c; 0xe36e953a;
   0x4a964919; 0x1e911c5f; 0xe298e395; 0xb69fb6d3; 0xb4852d22; 0xe0827864;
   0x1c8b87ae; 0x488cd2e8; 0xe1740ecb; 0xb5735b8d; 0x497aa447; 0x1d7df101;
   0xe91e610f; 0xbd193449; 0x4110cb83; 0x15179ec5; 0xbcef42e6; 0xe8e817a0;
   0x14e1e86a; 0x40e6bd2c; 0x42fc26dd; 0x16fb739b; 0xeaf28c51; 0xbef5d917;
   0x170d0534; 0x430a5072; 0xbf03afb8; 0xeb04fafe; 0xbb36985a; 0xef31cd1c;
   0x133832d6; 0x473f6790; 0xeec7bbb3; 0xbac0eef5; 0x46c9113f; 0x12ce4479;
   0x10d4df88; 0x44d38ace; 0xb8da7504; 0xecdd2042; 0x4525fc61; 0x1122a927;
   0xed2b56ed; 0xb92c03ab; 0x9a9f274a; 0xce98720c; 0x32918dc6; 0x6696d880;
   0xcf6e04a3; 0x9b6951e5; 0x6760ae2f; 0x3367fb69; 0x317d6098; 0x657a35de;
   0x9973ca14; 0xcd749f52; 0x648c4371; 0x308b1637; 0xcc82e9fd; 0x9885bcbb;
   0xc8b7de1f; 0x9cb08b59; 0x60b97493; 0x34be21d5; 0x9d46fdf6; 0xc941a8b0;
   0x3548577a; 0x614f023c; 0x635599cd; 0x3752cc8b; 0xcb5b3341; 0x9f5c6607;
   0x36a4ba24; 0x62a3ef62; 0x9eaa10a8; 0xcaad45ee; 0x3eced5e0; 0x6ac980a6;
   0x96c07f6c; 0xc2c72a2a; 0x6b3ff609; 0x3f38a34f; 0xc3315c85; 0x973609c3;
   0x952c9232; 0xc12bc774; 0x3d2238be; 0x69256df8; 0xc0ddb1db; 0x94dae49d;
   0x68d31b57; 0x3cd44e11; 0x6ce62cb5; 0x38e179f3; 0xc4e88639; 0x90efd37f;
   0x39170f5c; 0x6d105a1a; 0x9119a5d0; 0xc51ef096; 0xc7046b67; 0x93033e21;
   0x6f0ac1eb; 0x3b0d94ad; 0x92f5488e; 0xc6f21dc8; 0x3afbe202; 0x6efcb744;
   0xd7d0b4ef; 0x83d7e1a9; 0x7fde1e63; 0x2bd94b25; 0x82219706; 0xd626c240;
   0x2a2f3d8a; 0x7e2868cc; 0x7c32f33d; 0x2835a67b; 0xd43c59b1; 0x803b0cf7;
   0x29c3d0d4; 0x7dc48592; 0x81cd7a58; 0xd5ca2f1e; 0x85f84dba; 0xd1ff18fc;
   0x2df6e736; 0x79f1b270; 0xd0096e53; 0x840e3b15; 0x7807c4df; 0x2c009199;
   0x2e1a0a68; 0x7a1d5f2e; 0x8614a0e4; 0xd213f5a2; 0x7beb2981; 0x2fec7cc7;
   0xd3e5830d; 0x87e2d64b; 0x73814645; 0x27861303; 0xdb8fecc9; 0x8f88b98f;
   0x267065ac; 0x727730ea; 0x8e7ecf20; 0xda799a66; 0xd8630197; 0x8c6454d1;
   0x706dab1b; 0x246afe5d; 0x8d92227e; 0xd9957738; 0x259c88f2; 0x719bddb4;
   0x21a9bf10; 0x75aeea56; 0x89a7159c; 0xdda040da; 0x74589cf9; 0x205fc9bf;
   0xdc563675; 0x88516333; 0x8a4bf8c2; 0xde4cad84; 0x2245524e; 0x76420708;
   0xdfbadb2b; 0x8bbd8e6d; 0x77b471a7; 0x23b324e1].

Definition kStrideExtensionTable2 : list Z := [
   0x00000000; 0x678efd01; 0xcf1dfa02; 0xa8930703; 0x9bd782f5; 0xfc597ff4;
   0x54ca78f7; 0x334485f6; 0x3243731b; 0x55cd8e1a; 0xfd5e8919; 0x9ad07418;
   0xa994f1ee; 0xce1a0cef; 0x66890bec; 0x0107f6ed; 0x6486e636; 0x03081b37;
   0xab9b1c34; 0xcc15e135; 0xff5164c3; 0x98df99c2; 0x304c9ec1; 0x57c263c0;
   0x56c5952d; 0x314b682c; 0x99d86f2f; 0xfe56922e; 0xcd1217d8; 0xaa9cead9;
   0x020fedda; 0x658110db; 0xc90dcc6c; 0xae83316d; 0x0610366e; 0x619ecb6f;
   0x52da4e99; 0x3554b398; 0x9dc7b49b; 0xfa49499a; 0xfb4ebf77; 0x9cc04276;
   0x34534575; 0x53ddb874; 0x60993d82; 0x0717c083; 0xaf84c780; 0xc80a3a81;
   0xad8b2a5a; 0xca05d75b; 0x6296d058; 0x05182d59; 0x365ca8af; 0x51d255ae;
   0xf94152ad; 0x9ecfafac; 0x9fc85941; 0xf846a440; 0x50d5a343; 0x375b5e42;
   0x041fdbb4; 0x639126b5; 0xcb0221b6; 0xac8cdcb7; 0x97f7ee29; 0xf0791328;
   0x58ea142b; 0x3f64e92a; 0x0c206cdc; 0x6bae91dd; 0xc33d96de; 0xa4b36bdf;
   0xa5b49d32; 0xc23a6033; 0x6aa96730; 0x0d279a31; 0x3e631fc7; 0x59ede2c6;
   0xf17ee5c5; 0x96f018c4; 0xf371081f; 0x94fff51e; 0x3c6cf21d; 0x5be20f1c;
   0x68a68aea; 0x0f2877eb; 0xa7bb70e8; 0xc0358de9; 0xc1327b04; 0xa6bc8605;
   0x0e2f8106; 0x69a17c07; 0x5ae5f9f1; 0x3d6b04f0; 0x95f803f3; 0xf276fef2;
   0x5efa2245; 0x3974df44; 0x91e7d847; 0xf6692546; 0xc52da0b0; 0xa2a35db1;
   0x0a305ab2; 0x6dbea7b3; 0x6cb9515e; 0x0b37ac5f; 0xa3a4ab5c; 0xc42a565d;
   0xf76ed3ab; 0x90e02eaa; 0x387329a9; 0x5ffdd4a8; 0x3a7cc473; 0x5df23972;
   0xf5613e71; 0x92efc370; 0xa1ab4686; 0xc625bb87; 0x6eb6bc84; 0x09384185;
   0x083fb768; 0x6fb14a69; 0xc7224d6a; 0xa0acb06b; 0x93e8359d; 0xf466c89c;
   0x5cf5cf9f; 0x3b7b329e; 0x2a03aaa3; 0x4d8d57a2; 0xe51e50a1; 0x8290ada0;
   0xb1d42856; 0xd65ad557; 0x7ec9d254; 0x19472f55; 0x1840d9b8; 0x7fce24b9;
   0xd75d23ba; 0xb0d3debb; 0x83975b4d; 0xe419a64c; 0x4c8aa14f; 0x2b045c4e;
   0x4e854c95; 0x290bb194; 0x8198b697; 0xe6164b96; 0xd552ce60; 0xb2dc3361;
   0x1a4f3462; 0x7dc1c963; 0x7cc63f8e; 0x1b48c28f; 0xb3dbc58c; 0xd455388d;
   0xe711bd7b; 0x809f407a; 0x280c4779; 0x4f82ba78; 0xe30e66cf; 0x84809bce;
   0x2c139ccd; 0x4b9d61cc; 0x78d9e43a; 0x1f57193b; 0xb7c41e38; 0xd04ae339;
   0xd14d15d4; 0xb6c3e8d5; 0x1e50efd6; 0x79de12d7; 0x4a9a9721; 0x2d146a20;
   0x85876d23; 0xe2099022; 0x878880f9; 0xe0067df8; 0x48957afb; 0x2f1b87fa;
   0x1c5f020c; 0x7bd1ff0d; 0xd342f80e; 0xb4cc050f; 0xb5cbf3e2; 0xd2450ee3;
   0x7ad609e0; 0x1d58f4e1; 0x2e1c7117; 0x49928c16; 0xe1018b15; 0x868f7614;
   0xbdf4448a; 0xda7ab98b; 0x72e9be88; 0x15674389; 0x2623c67f; 0x41ad3b7e;
   0xe93e3c7d; 0x8eb0c17c; 0x8fb73791; 0xe839ca90; 0x40aacd93; 0x27243092;
   0x1460b564; 0x73ee4865; 0xdb7d4f66; 0xbcf3b267; 0xd972a2bc; 0xbefc5fbd;
   0x166f58be; 0x71e1a5bf; 0x42a52049; 0x252bdd48; 0x8db8da4b; 0xea36274a;
   0xeb31d1a7; 0x8cbf2ca6; 0x242c2ba5; 0x43a2d6a4; 0x70e65352; 0x1768ae53;
   0xbffba950; 0xd8755451; 0x74f988e6; 0x137775e7; 0xbbe472e4; 0xdc6a8fe5;
   0xef2e0a13; 0x88a0f712; 0x2033f011; 0x47bd0d10; 0x46bafbfd; 0x213406fc;
   0x89a701ff; 0xee29fcfe; 0xdd6d7908; 0xbae38409; 0x1270830a; 0x75fe7e0b;
   0x107f6ed0; 0x77f193d1; 0xdf6294d2; 0xb8ec69d3; 0x8ba8ec25; 0xec261124;
   0x44b51627; 0x233beb26; 0x223c1dcb; 0x45b2e0ca; 0xed21e7c9; 0x8aaf1ac8;
   0xb9eb9f3e; 0xde65623f; 0x76f6653c; 0x1178983d].

Definition kStrideExtensionTable3 : list Z := [
   0x00000000; 0xf20c0dfe; 0xe1f46d0d; 0x13f860f3; 0xc604aceb; 0x3408a115;
   0x27f0c1e6; 0xd5fccc18; 0x89e52f27; 0x7be922d9; 0x6811422a; 0x9a1d4fd4;
   0x4fe183cc; 0xbded8e32; 0xae15eec1; 0x5c19e33f; 0x162628bf; 0xe42a2541;
   0xf7d245b2; 0x05de484c; 0xd0228454; 0x222e89aa; 0x31d6e959; 0xc3dae4a7;
   0x9fc30798; 0x6dcf0a66; 0x7e376a95; 0x8c3b676b; 0x59c7ab73; 0xabcba68d;
   0xb833c67e; 0x4a3fcb80; 0x2c4c517e; 0xde405c80; 0xcdb83c73; 0x3fb4318d;
   0xea48fd95; 0x1844f06b; 0x0bbc9098; 0xf9b09d66; 0xa5a97e59; 0x57a573a7;
   0x445d1354; 0xb6511eaa; 0x63add2b2; 0x91a1df4c; 0x8259bfbf; 0x7055b241;
   0x3a6a79c1; 0xc866743f; 0xdb9e14cc; 0x29921932; 0xfc6ed52a; 0x0e62d8d4;
   0x1d9ab827; 0xef96b5d9; 0xb38f56e6; 0x41835b18; 0x527b3beb; 0xa0773615;
   0x758bfa0d; 0x8787f7f3; 0x947f9700; 0x66739afe; 0x5898a2fc; 0xaa94af02;
   0xb96ccff1; 0x4b60c20f; 0x9e9c0e17; 0x6c9003e9; 0x7f68631a; 0x8d646ee4;
   0xd17d8ddb; 0x23718025; 0x3089e0d6; 0xc285ed28; 0x17792130; 0xe5752cce;
   0xf68d4c3d; 0x048141c3; 0x4ebe8a43; 0xbcb287bd; 0xaf4ae74e; 0x5d46eab0;
   0x88ba26a8; 0x7ab62b56; 0x694e4ba5; 0x9b42465b; 0xc75ba564; 0x3557a89a;
   0x26afc869; 0xd4a3c597; 0x015f098f; 0xf3530471; 0xe0ab6482; 0x12a7697c;
   0x74d4f382; 0x86d8fe7c; 0x95209e8f; 0x672c9371; 0xb2d05f69; 0x40dc5297;
   0x53243264; 0xa1283f9a; 0xfd31dca5; 0x0f3dd15b; 0x1cc5b1a8; 0xeec9bc56;
   0x3b35704e; 0xc9397db0; 0xdac11d43; 0x28cd10bd; 0x62f2db3d; 0x90fed6c3;
   0x8306b630; 0x710abbce; 0xa4f677d6; 0x56fa7a28; 0x45021adb; 0xb70e1725;
   0xeb17f41a; 0x191bf9e4; 0x0ae39917; 0xf8ef94e9; 0x2d1358f1; 0xdf1f550f;
   0xcce735fc; 0x3eeb3802; 0xb13145f8; 0x433d4806; 0x50c528f5; 0xa2c9250b;
   0x7735e913; 0x8539e4ed; 0x96c1841e; 0x64cd89e0; 0x38d46adf; 0xcad86721;
   0xd92007d2; 0x2b2c0a2c; 0xfed0c634; 0x0cdccbca; 0x1f24ab39; 0xed28a6c7;
   0xa7176d47; 0x551b60b9; 0x46e3004a; 0xb4ef0db4; 0x6113c1ac; 0x931fcc52;
   0x80e7aca1; 0x72eba15f; 0x2ef24260; 0xdcfe4f9e; 0xcf062f6d; 0x3d0a2293;
   0xe8f6ee8b; 0x1afae375; 0x09028386; 0xfb0e8e78; 0x9d7d1486; 0x6f711978;
   0x7c89798b; 0x8e857475; 0x5b79b86d; 0xa975b593; 0xba8dd560; 0x4881d89e;
   0x14983ba1; 0xe694365f; 0xf56c56ac; 0x07605b52; 0xd29c974a; 0x20909ab4;
   0x3368fa47; 0xc164f7b9; 0x8b5b3c39; 0x795731c7; 0x6aaf5134; 0x98a35cca;
   0x4d5f90d2; 0xbf539d2c; 0xacabfddf; 0x5ea7f021; 0x02be131e; 0xf0b21ee0;
   0xe34a7e13; 0x114673ed; 0xc4babff5; 0x36b6b20b; 0x254ed2f8; 0xd742df06;
   0xe9a9e704; 0x1ba5eafa; 0x085d8a09; 0xfa5187f7; 0x2fad4bef; 0xdda14611;
   0xce5926e2; 0x3c552b1c; 0x604cc823; 0x9240c5dd; 0x81b8a52e; 0x73b4a8d0;
   0xa64864c8; 0x54446936; 0x47bc09c5; 0xb5b0043b; 0xff8fcfbb; 0x0d83c245;
   0x1e7ba2b6; 0xec77af48; 0x398b6350; 0xcb876eae; 0xd87f0e5d; 0x2a7303a3;
   0x766ae09c; 0x8466ed62; 0x979e8d91; 0x6592806f; 0xb06e4c77; 0x42624189;
   0x519a217a; 0xa3962c84; 0xc5e5b67a; 0x37e9bb84; 0x2411db77; 0xd61dd689;
   0x03e11a91; 0xf1ed176f; 0xe215779c; 0x10197a62; 0x4c00995d; 0xbe0c94a3;
   0xadf4f450; 0x5ff8f9ae; 0x8a0435b6; 0x78083848; 0x6bf058bb; 0x99fc5545;
   0xd3c39ec5; 0x21cf933b; 0x3237f3c8; 0xc03bfe36; 0x15c7322e; 0xe7cb3fd0;
   0xf4335f23; 0x063f52dd; 0x5a26b1e2; 0xa82abc1c; 0xbbd2dcef; 0x49ded111;
   0x9c221d09; 0x6e2e10f7; 0x7dd67004; 0x8fda7dfa].

Definition kCRC32Xor : Z := 0xffffffff.

Definition ReadUint32LE (buffer : bytes) : Z := DecodeFixed32 buffer.

(** [kXxxTable[i]]. *)
Definition tbl (t : list Z) (i : Z) : Z := nth (Z.to_nat i) t 0.

(** * The portable computation *)

(** [STEP1]. *)
Definition STEP1 (l : Z) (b : byte) : Z :=
  let c := Z.lxor (Z.land l 0xff) (bz b) in
  Z.lxor (tbl kByteExtensionTable c) (Z.shiftr l 8).

(** [STEP4(s)] on lane value [crc] with the word at [p + s * 4]. *)
Definition STEP4 (crc w : Z) : Z :=
  Z.lxor (Z.lxor (Z.lxor (Z.lxor w
    (tbl kStrideExtensionTable3 (Z.land crc 0xff)))
    (tbl kStrideExtensionTable2 (Z.land (Z.shiftr crc 8) 0xff)))
    (tbl kStrideExtensionTable1 (Z.land (Z.shiftr crc 16) 0xff)))
    (tbl kStrideExtensionTable0 (Z.shiftr crc 24)).

(** The four partial stride results [crc0 .. crc3]. *)
Record Lanes := mkLanes { crc0 : Z; crc1 : Z; crc2 : Z; crc3 : Z }.

(** [STEP16]. *)
Definition STEP16 (c : Lanes) (p : bytes) : Lanes :=
  mkLanes (STEP4 (crc0 c) (ReadUint32LE (bdrop 0 p)))
          (STEP4 (crc1 c) (ReadUint32LE (bdrop 4 p)))
          (STEP4 (crc2 c) (ReadUint32LE (bdrop 8 p)))
          (STEP4 (crc3 c) (ReadUint32LE (bdrop 12 p))).

(** [STEP4W(w)]. *)
Definition STEP4W (l w : Z) : Z :=
  let step w := Z.lxor (Z.shiftr w 8) (tbl kByteExtensionTable (Z.land w 0xff)) in
  step (step (step (step (Z.lxor w l)))).

(** [while ((e - p) >= 16) STEP16]; the fuel is the length of the buffer. *)
Fixpoint swath_loop (fuel : nat) (c : Lanes) (p : bytes) : Lanes * bytes :=
  match fuel with
  | O => (c, p)
  | S f => if 16 <=? blen p then swath_loop f (STEP16 c p) (bdrop 16 p) else (c, p)
  end.

(** [while ((e - p) >= 4)], with the rotation of the lanes. *)
Fixpoint word_loop (fuel : nat) (c : Lanes) (p : bytes) : Lanes * bytes :=
  match fuel with
  | O => (c, p)
  | S f =>
      if 4 <=? blen p then
        word_loop f
          (mkLanes (crc1 c) (crc2 c) (crc3 c) (STEP4 (crc0 c) (ReadUint32LE p)))
          (bdrop 4 p)
      else (c, p)
  end.

(** [RoundUp<4>(p) - p] for a buffer whose address is [addr]. *)
Definition RoundUp4 (addr : Z) : Z := Z.land (addr + 3) (Z.lnot 3).

(** The part of [Extend] after the test for hardware support, for a buffer at
    address [addr]. *)
Definition Extend_portable (addr crc : Z) (data : bytes) : Z :=
  let l := Z.lxor crc kCRC32Xor in
  let x := RoundUp4 addr - addr in
  let '(l, p) :=
    if x <=? blen data then (fold_left STEP1 (btake x data) l, bdrop x data)
    else (l, data) in
  let '(l, p) :=
    if 16 <=? blen p then
      let c := mkLanes (Z.lxor (ReadUint32LE (bdrop 0 p)) l) (ReadUint32LE (bdrop 4 p))
                       (ReadUint32LE (bdrop 8 p)) (ReadUint32LE (bdrop 12 p)) in
      let p := bdrop 16 p in
      let '(c, p) := swath_loop (length p) c p in
      let '(c, p) := word_loop (length p) c p in
      let l := STEP4W 0 (crc0 c) in
      let l := STEP4W l (crc1 c) in
      let l := STEP4W l (crc2 c) in
      (STEP4W l (crc3 c), p)
    else (l, p) in
  Z.lxor (fold_left STEP1 p l) kCRC32Xor.

Definition kTestCRCValue : Z := 0xdcbc59fa.

Section Extend.
  (** [port::AcceleratedCRC32C(crc, buf, size)]. *)
  Variable AcceleratedCRC32C : Z -> bytes -> Z.

Definition CanAccelerateCRC32C : bool :=
  AcceleratedCRC32C 0 (str "TestCRCBuffer") =? kTestCRCValue.

Definition Extend (addr crc : Z) (data : bytes) : Z :=
  if CanAccelerateCRC32C then AcceleratedCRC32C crc data
  else Extend_portable addr crc data.
End Extend.

Definition kMaskDelta : Z := 0xa282ead8.

Definition Mask (crc : Z) : Z :=
  u32 (Z.lor (Z.shiftr crc 15) (u32 (Z.shiftl crc 17)) + kMaskDelta).

Definition Unmask (masked_crc : Z) : Z :=
  let rot := u32 (masked_crc - kMaskDelta) in
  Z.lor (Z.shiftr rot 17) (u32 (Z.shiftl rot 15)).

(** * The reference: CRC-32C one bit at a time

    The reflected Castagnoli polynomial, the register initialised and the
    result complemented with all ones. *)

Definition kPoly : Z := 0x82f63b78.

Definition bit_step (x : Z) : Z :=
  Z.lxor (Z.shiftr x 1) (if Z.testbit x 0 then kPoly else 0).

(** Advance the register over [n] zero bytes. *)
Definition adv (n : nat) (x : Z) : Z := Nat.iter (8 * n) bit_step x.

Definition crc_byte (l : Z) (b : byte) : Z := adv 1 (Z.lxor l (bz b)).

Definition crc_spec (crc : Z) (data : bytes) : Z :=
  Z.lxor (fold_left crc_byte data (Z.lxor crc kCRC32Xor)) kCRC32Xor.

(** * Linearity *)

Lemma bit_step_lxor x y : bit_step (Z.lxor x y) = Z.lxor (bit_step x) (bit_step y).
Proof.
  unfold bit_step. rewrite Z.shiftr_lxor, Z.lxor_spec.
  rewrite !Z.lxor_assoc. f_equal. rewrite (Z.lxor_comm _ (Z.lxor (Z.shiftr y 1) _)).
  rewrite Z.lxor_assoc. f_equal.
  by destruct (Z.testbit x 0), (Z.testbit y 0).
Qed.

Lemma adv_lxor n x y : adv n (Z.lxor x y) = Z.lxor (adv n x) (adv n y).
Proof.
  unfold adv. induction (8 * n)%nat as [|k IH]; simpl; [done|].
  by rewrite IH, bit_step_lxor.
Qed.

Lemma adv_add n m x : adv (n + m) x = adv n (adv m x).
Proof. unfold adv. rewrite Nat.mul_add_distr_l. apply Nat.iter_add. Qed.

Lemma bit_step_nonneg x : 0 <= x -> 0 <= bit_step x.
Proof.
  intros. unfold bit_step. apply Z.lxor_nonneg. split; intros.
  - by destruct (Z.testbit x 0).
  - by apply Z.shiftr_nonneg.
Qed.

Lemma adv_nonneg n x : 0 <= x -> 0 <= adv n x.
Proof.
  intros. unfold adv. induction (8 * n)%nat; simpl; [done|]. by apply bit_step_nonneg.
Qed.

Lemma bit_step_double x : bit_step (Z.shiftl x 1) = x.
Proof.
  unfold bit_step. rewrite Z.shiftl_spec_low, Z.lxor_0_r by lia.
  by rewrite Z.shiftr_shiftl_l, Z.shiftl_0_r by lia.
Qed.

Lemma adv_shiftl x : adv 1 (Z.shiftl x 8) = x.
Proof.
  unfold adv. change (8 * 1)%nat with 8%nat.
  replace (Z.shiftl x 8) with (Z.shiftl (Z.shiftl (Z.shiftl (Z.shiftl (Z.shiftl
    (Z.shiftl (Z.shiftl (Z.shiftl x 1) 1) 1) 1) 1) 1) 1) 1)
    by (by rewrite !Z.shiftl_shiftl by lia).
  simpl Nat.iter. by rewrite !bit_step_double.
Qed.

Lemma bit_step_range x : 0 <= x < 2 ^ 32 -> 0 <= bit_step x < 2 ^ 32.
Proof.
  intros Hx. unfold bit_step. apply lxor_range; [lia| |destruct (Z.testbit x 0); unfold kPoly; lia].
  rewrite Z.shiftr_div_pow2 by lia.
  split; [apply Z.div_pos; lia|apply Z.div_lt_upper_bound; lia].
Qed.

Lemma adv_range n x : 0 <= x < 2 ^ 32 -> 0 <= adv n x < 2 ^ 32.
Proof.
  intros Hx. unfold adv. induction (8 * n)%nat; simpl; [done|]. by apply bit_step_range.
Qed.
(** A number is its low byte xor the rest. *)
Lemma split_low_byte x : x = Z.lxor (Z.land x 255) (Z.shiftl (Z.shiftr x 8) 8).
Proof.
  apply Z.bits_inj'. intros i Hi. rewrite Z.lxor_spec, Z.land_spec.
  change 255 with (Z.ones 8). destruct (Z.lt_ge_cases i 8).
  - rewrite Z.ones_spec_low, Z.shiftl_spec_low by lia.
    by rewrite andb_true_r, xorb_false_r.
  - rewrite Z.ones_spec_high, Z.shiftl_spec, Z.shiftr_spec by lia.
    rewrite andb_false_r, xorb_false_l. f_equal. lia.
Qed.

Lemma adv_split x : adv 1 x = Z.lxor (adv 1 (Z.land x 255)) (Z.shiftr x 8).
Proof. rewrite (split_low_byte x) at 1. by rewrite adv_lxor, adv_shiftl. Qed.

(** ** The tables are what they should be, entry by entry *)

Definition table_ok (t : list Z) (n : nat) : bool :=
  forallb (fun v => tbl t (Z.of_nat v) =? adv n (Z.of_nat v)) (seq 0 256).

Lemma table_ok_lookup t n v : table_ok t n = true -> 0 <= v < 256 -> tbl t v = adv n v.
Proof.
  intros H Hv. unfold table_ok in H. rewrite forallb_forall in H.
  specialize (H (Z.to_nat v)). rewrite Z2Nat.id in H by lia.
  apply Z.eqb_eq, H. apply in_seq. lia.
Qed.

Lemma tables_ok :
  table_ok kByteExtensionTable 1 = true /\ table_ok kStrideExtensionTable0 13 = true /\
  table_ok kStrideExtensionTable1 14 = true /\ table_ok kStrideExtensionTable2 15 = true /\
  table_ok kStrideExtensionTable3 16 = true.
Proof. repeat split; vm_compute; reflexivity. Qed.

#[local] Opaque adv tbl.

Lemma land_255_range x : 0 <= Z.land x 255 < 256.
Proof. rewrite land_255. apply Z.mod_pos_bound. lia. Qed.

Lemma byte_table x : tbl kByteExtensionTable (Z.land x 255) = adv 1 (Z.land x 255).
Proof. apply table_ok_lookup; [apply tables_ok|apply land_255_range]. Qed.

(** ** Each step advances the register *)

Lemma STEP1_index l b :
  Z.lxor (Z.land l 255) (bz b) = Z.land (Z.lxor l (bz b)) 255.
Proof.
  pose proof (bz_range b).
  assert (Hb : Z.land (bz b) 255 = bz b) by (rewrite land_255; apply Z.mod_small; lia).
  rewrite <- Hb at 1. symmetry. apply land_lxor_distr_l.
Qed.

Lemma byte_shiftr8 b : Z.shiftr (bz b) 8 = 0.
Proof.
  pose proof (bz_range b). rewrite Z.shiftr_div_pow2 by lia. apply Z.div_small. lia.
Qed.

Lemma STEP1_unfold l b :
  STEP1 l b =
  Z.lxor (tbl kByteExtensionTable (Z.lxor (Z.land l 255) (bz b))) (Z.shiftr l 8).
Proof. reflexivity. Qed.

Lemma STEP1_spec l b : STEP1 l b = crc_byte l b.
Proof.
  rewrite STEP1_unfold, STEP1_index, byte_table. unfold crc_byte.
  rewrite (adv_split (Z.lxor l (bz b))).
  by rewrite Z.shiftr_lxor, byte_shiftr8, Z.lxor_0_r.
Qed.

Lemma STEP4W_spec l w : STEP4W l w = adv 4 (Z.lxor w l).
Proof.
  unfold STEP4W. cbv zeta. rewrite !byte_table.
  assert (E : forall x, Z.lxor (Z.shiftr x 8) (adv 1 (Z.land x 255)) = adv 1 x).
  { intros x. by rewrite (adv_split x), Z.lxor_comm. }
  rewrite !E. rewrite <- !adv_add. done.
Qed.

(** A 32-bit register splits into its four bytes. *)
Lemma adv_split4 x n :
  adv (16 + n) x =
  Z.lxor (Z.lxor (Z.lxor (adv (16 + n) (Z.land x 255))
    (adv (15 + n) (Z.land (Z.shiftr x 8) 255)))
    (adv (14 + n) (Z.land (Z.shiftr x 16) 255)))
    (adv (13 + n) (Z.shiftr x 24)).
Proof.
  assert (E : forall k y, adv (S k) y = Z.lxor (adv (S k) (Z.land y 255)) (adv k (Z.shiftr y 8))).
  { intros k y. replace (S k) with (k + 1)%nat by lia.
    rewrite !adv_add, (adv_split y), adv_lxor. done. }
  change (16 + n)%nat with (S (15 + n)). rewrite (E _ x).
  change (15 + n)%nat with (S (14 + n)). rewrite (E (14 + n)%nat (Z.shiftr x 8)).
  change (14 + n)%nat with (S (13 + n)). rewrite (E (13 + n)%nat (Z.shiftr (Z.shiftr x 8) 8)).
  rewrite !Z.shiftr_shiftr by lia. rewrite !Z.lxor_assoc. done.
Qed.

Lemma STEP4_spec crc w : 0 <= crc < 2 ^ 32 -> STEP4 crc w = Z.lxor w (adv 16 crc).
Proof.
  intros Hc. unfold STEP4. destruct tables_ok as (_ & H0 & H1 & H2 & H3).
  rewrite !(table_ok_lookup _ _ _ H3), !(table_ok_lookup _ _ _ H2),
    !(table_ok_lookup _ _ _ H1), !(table_ok_lookup _ _ _ H0) by
    (apply land_255_range || (rewrite Z.shiftr_div_pow2 by lia;
      split; [apply Z.div_pos; lia|apply Z.div_lt_upper_bound; lia])).
  pose proof (adv_split4 crc 0) as E. rewrite !Nat.add_0_r in E. rewrite E.
  by rewrite !Z.lxor_assoc.
Qed.

(** ** Words *)

Lemma DecodeFixed32_lxor p :
  DecodeFixed32 p =
  Z.lxor (Z.lxor (Z.lxor (bz (byte_at p 0)) (Z.shiftl (bz (byte_at p 1)) 8))
    (Z.shiftl (bz (byte_at p 2)) 16)) (Z.shiftl (bz (byte_at p 3)) 24).
Proof.
  assert (E : forall a b n, 0 <= n -> 0 <= a < 2 ^ n ->
    Z.lxor a (Z.shiftl b n) = a + b * 2 ^ n).
  { intros a b n Hn Ha. rewrite <- lor_disjoint_add by lia. apply Z.lxor_lor.
    apply Z.bits_inj'. intros i Hi. rewrite Z.land_spec, Z.bits_0.
    destruct (Z.lt_ge_cases i n).
    - by rewrite Z.shiftl_spec_low, andb_false_r by lia.
    - rewrite <- (Z.mod_small a (2 ^ n)), Z.mod_pow2_bits_high by lia. done. }
  rewrite DecodeFixed32_sum.
  pose proof (bz_range (byte_at p 0)). pose proof (bz_range (byte_at p 1)).
  pose proof (bz_range (byte_at p 2)). pose proof (bz_range (byte_at p 3)).
  rewrite (E (bz (byte_at p 0))), (E (_ + _)), E by lia. lia.
Qed.

(** Equations between xors of the same registers: [Z] with [lxor] and [land]
    is a ring, so [ring] reorders the terms; the registers are generalised
    first. *)
Lemma lxor_ring_theory :
  ring_theory 0 (-1) Z.lxor Z.land (fun x y => Z.lxor x y) (fun x => x) eq.
Proof.
  constructor; intros.
  - apply Z.lxor_0_l.
  - apply Z.lxor_comm.
  - symmetry. apply Z.lxor_assoc.
  - apply Z.land_m1_l.
  - apply Z.land_comm.
  - apply Z.land_assoc.
  - apply land_lxor_distr_l.
  - reflexivity.
  - apply Z.lxor_nilpotent.
Qed.
Add Ring lxor_ring : lxor_ring_theory.

(** ** The lanes

    The argument needs of the register advance only that it is linear,
    additive and within 32 bits, and that the three steps of the source are
    such advances; the section states it over these facts. *)
Section Lanes.
  Variable adv : nat -> Z -> Z.
  Variable crc_byte : Z -> byte -> Z.
  Hypothesis adv_lxor : forall n x y, adv n (Z.lxor x y) = Z.lxor (adv n x) (adv n y).
  Hypothesis adv_add : forall n m x, adv (n + m) x = adv n (adv m x).
  Hypothesis adv_shiftl : forall x, adv 1 (Z.shiftl x 8) = x.
  Hypothesis adv_range : forall n x, 0 <= x < 2 ^ 32 -> 0 <= adv n x < 2 ^ 32.
  Hypothesis crc_byte_eq : forall l b, crc_byte l b = adv 1 (Z.lxor l (bz b)).
  Hypothesis STEP1_adv : forall l b, STEP1 l b = crc_byte l b.
  Hypothesis STEP4_adv : forall crc w,
    0 <= crc < 2 ^ 32 -> STEP4 crc w = Z.lxor w (adv 16 crc).
  Hypothesis STEP4W_adv : forall l w, STEP4W l w = adv 4 (Z.lxor w l).

Ltac lxor_solve :=
  repeat match goal with |- context [adv ?n ?x] => generalize (adv n x); intro end; ring.

Lemma adv_4 x : adv 4 x = adv 1 (adv 1 (adv 1 (adv 1 x))).
Proof. rewrite <- !adv_add. reflexivity. Qed.

Lemma fold_STEP1 p l : fold_left STEP1 p l = fold_left crc_byte p l.
Proof. apply fold_left_ext, STEP1_adv. Qed.

(** Four bytes at once. *)
Lemma fold_word l b0 b1 b2 b3 p :
  fold_left crc_byte (b0 :: b1 :: b2 :: b3 :: p) l =
  fold_left crc_byte p (adv 4 (Z.lxor (ReadUint32LE (b0 :: b1 :: b2 :: b3 :: p)) l)).
Proof.
  cbn [fold_left]. apply (f_equal (fold_left crc_byte p)). rewrite !crc_byte_eq.
  unfold ReadUint32LE. rewrite DecodeFixed32_lxor, adv_4. unfold byte_at. simpl nth.
  generalize (bz b0) (bz b1) (bz b2) (bz b3). intros x0 x1 x2 x3.
  change 16 with (8 + 8). change 24 with (8 + 8 + 8).
  rewrite <- !Z.shiftl_shiftl by lia.
  repeat rewrite ?adv_lxor, ?adv_shiftl. lxor_solve.
Qed.

Lemma length_ge_4 (p : bytes) : 4 <= blen p ->
  exists b0 b1 b2 b3 q, p = b0 :: b1 :: b2 :: b3 :: q.
Proof.
  unfold blen. destruct p as [|b0 [|b1 [|b2 [|b3 q]]]]; simpl; try lia. intros _.
  by exists b0, b1, b2, b3, q.
Qed.

Lemma fold_word' l p : 4 <= blen p ->
  fold_left crc_byte p l =
  fold_left crc_byte (bdrop 4 p) (adv 4 (Z.lxor (ReadUint32LE p) l)).
Proof. intros (b0 & b1 & b2 & b3 & q & ->)%length_ge_4. by rewrite fold_word. Qed.

(** The register value the four lanes stand for. *)
Definition comb (c : Lanes) : Z :=
  adv 4 (Z.lxor (adv 4 (Z.lxor (adv 4 (Z.lxor (adv 4 (crc0 c)) (crc1 c))) (crc2 c))) (crc3 c)).

Definition lanes_ok (c : Lanes) : Prop :=
  0 <= crc0 c < 2 ^ 32 /\ 0 <= crc1 c < 2 ^ 32 /\ 0 <= crc2 c < 2 ^ 32 /\ 0 <= crc3 c < 2 ^ 32.

Lemma STEP4_range crc w : 0 <= crc < 2 ^ 32 -> 0 <= w < 2 ^ 32 -> 0 <= STEP4 crc w < 2 ^ 32.
Proof. intros. rewrite STEP4_adv by done. apply lxor_range; auto using adv_range; lia. Qed.

Lemma comb_expand c :
  comb c = Z.lxor (Z.lxor (Z.lxor (adv 16 (crc0 c)) (adv 12 (crc1 c))) (adv 8 (crc2 c)))
             (adv 4 (crc3 c)).
Proof.
  unfold comb. change (adv 16) with (adv (4 + (4 + (4 + 4)))).
  change (adv 12) with (adv (4 + (4 + 4))). change (adv 8) with (adv (4 + 4)).
  rewrite !adv_add. by rewrite !adv_lxor.
Qed.

(** One word more: rotating the lanes keeps their meaning. *)
Lemma comb_rotate c w : 0 <= crc0 c < 2 ^ 32 ->
  comb (mkLanes (crc1 c) (crc2 c) (crc3 c) (STEP4 (crc0 c) w)) = adv 4 (Z.lxor w (comb c)).
Proof.
  intros Hc. rewrite !comb_expand. simpl. rewrite STEP4_adv by done.
  change (adv 16) with (adv (4 + (4 + (4 + 4)))). change (adv 12) with (adv (4 + (4 + 4))).
  change (adv 8) with (adv (4 + 4)).
  repeat rewrite ?adv_add, ?adv_lxor. lxor_solve.
Qed.

(** A swath is four words. *)
Lemma comb_STEP16 c p : lanes_ok c ->
  comb (STEP16 c p) =
  adv 4 (Z.lxor (ReadUint32LE (bdrop 12 p)) (adv 4 (Z.lxor (ReadUint32LE (bdrop 8 p))
    (adv 4 (Z.lxor (ReadUint32LE (bdrop 4 p))
      (adv 4 (Z.lxor (ReadUint32LE (bdrop 0 p)) (comb c)))))))).
Proof.
  intros (H0 & H1 & H2 & H3). rewrite !comb_expand. unfold STEP16. simpl.
  rewrite !STEP4_adv by done.
  change (adv 16) with (adv (4 + (4 + (4 + 4)))). change (adv 12) with (adv (4 + (4 + 4))).
  change (adv 8) with (adv (4 + 4)). repeat rewrite ?adv_add, ?adv_lxor. lxor_solve.
Qed.

Lemma lanes_ok_STEP16 c p : lanes_ok c -> lanes_ok (STEP16 c p).
Proof.
  intros (H0 & H1 & H2 & H3). unfold STEP16, lanes_ok, ReadUint32LE. simpl.
  repeat split; apply STEP4_range; auto using DecodeFixed32_range.
Qed.

Lemma fold_swath l p : 16 <= blen p ->
  fold_left crc_byte p l =
  fold_left crc_byte (bdrop 16 p)
    (adv 4 (Z.lxor (ReadUint32LE (bdrop 12 p)) (adv 4 (Z.lxor (ReadUint32LE (bdrop 8 p))
      (adv 4 (Z.lxor (ReadUint32LE (bdrop 4 p))
        (adv 4 (Z.lxor (ReadUint32LE (bdrop 0 p)) l)))))))).
Proof.
  intros Hp. rewrite (fold_word' l), (fold_word' _ (bdrop 4 p)), (fold_word' _ (bdrop 4 (bdrop 4 p))),
    (fold_word' _ (bdrop 4 (bdrop 4 (bdrop 4 p)))); rewrite ?bdrop_bdrop by lia;
    rewrite ?blen_bdrop by lia; try lia. done.
Qed.

Lemma swath_loop_spec fuel : forall c p, lanes_ok c ->
  lanes_ok (fst (swath_loop fuel c p)) /\
  fold_left crc_byte (snd (swath_loop fuel c p)) (comb (fst (swath_loop fuel c p))) =
  fold_left crc_byte p (comb c).
Proof.
  induction fuel as [|fuel IH]; intros c p Hc; simpl; [done|]. bcase; [|done].
  destruct (IH (STEP16 c p) (bdrop 16 p)) as [H1 H2]; [by apply lanes_ok_STEP16|].
  split; [done|]. by rewrite H2, comb_STEP16, <- fold_swath by done.
Qed.

Lemma word_loop_spec fuel : forall c p, lanes_ok c ->
  fold_left crc_byte (snd (word_loop fuel c p)) (comb (fst (word_loop fuel c p))) =
  fold_left crc_byte p (comb c).
Proof.
  induction fuel as [|fuel IH]; intros c p Hc; simpl; [done|]. bcase; [|done].
  destruct Hc as (H0 & H1 & H2 & H3). rewrite IH.
  - by rewrite comb_rotate, <- fold_word' by done.
  - unfold lanes_ok. simpl. split_and!; try lia; apply STEP4_range; auto;
      unfold ReadUint32LE; apply DecodeFixed32_range.
Qed.

(** The fuel of both loops, the length of what is left, is enough: they stop
    only when fewer than 16, respectively 4, bytes remain. *)
Lemma swath_loop_done fuel : forall c p, (length p <= fuel)%nat ->
  blen (snd (swath_loop fuel c p)) < 16.
Proof.
  induction fuel as [|fuel IH]; intros c p Hf; simpl; [unfold blen; lia|].
  bcase; [|done]. apply IH. unfold bdrop, blen in *. rewrite length_drop. lia.
Qed.

Lemma word_loop_done fuel : forall c p, (length p <= fuel)%nat ->
  blen (snd (word_loop fuel c p)) < 4.
Proof.
  induction fuel as [|fuel IH]; intros c p Hf; simpl; [unfold blen; lia|].
  bcase; [|done]. apply IH. unfold bdrop, blen in *. rewrite length_drop. lia.
Qed.

Lemma STEP4W_comb c :
  STEP4W (STEP4W (STEP4W (STEP4W 0 (crc0 c)) (crc1 c)) (crc2 c)) (crc3 c) = comb c.
Proof.
  rewrite !STEP4W_adv, Z.lxor_0_r. unfold comb.
  by rewrite !(Z.lxor_comm (adv _ _)).
Qed.

Lemma Extend_portable_adv addr crc data :
  0 <= crc < 2 ^ 32 ->
  Extend_portable addr crc data =
  Z.lxor (fold_left crc_byte data (Z.lxor crc kCRC32Xor)) kCRC32Xor.
Proof.
  intros Hc. unfold Extend_portable. cbv zeta.
  assert (Hl0 : 0 <= Z.lxor crc kCRC32Xor < 2 ^ 32).
  { apply lxor_range; unfold kCRC32Xor; lia. }
  set (l0 := Z.lxor crc kCRC32Xor) in *. set (x := RoundUp4 addr - addr).
  assert (Hr : forall p l, 0 <= l < 2 ^ 32 -> 0 <= fold_left crc_byte p l < 2 ^ 32).
  { intros p. induction p as [|b p IH]; intros l Hl; simpl; [done|].
    apply IH. rewrite crc_byte_eq. apply adv_range.
    apply lxor_range; [lia|done|]. pose proof (bz_range b). lia. }
  assert (exists l p, (if x <=? blen data
     then (fold_left STEP1 (btake x data) l0, bdrop x data) else (l0, data)) = (l, p) /\
     0 <= l < 2 ^ 32 /\ fold_left crc_byte p l = fold_left crc_byte data l0)
    as (l & p & -> & Hl & <-).
  { bcase; [|by eauto]. do 2 eexists. split; [done|]. rewrite fold_STEP1.
    split; [by apply Hr|]. rewrite <- fold_left_app. by rewrite btake_bdrop. }
  f_equal. destruct (Z.leb_spec 16 (blen p)); [|by rewrite fold_STEP1].
  set (c := mkLanes _ _ _ _).
  assert (Hlanes : lanes_ok c).
  { unfold c, lanes_ok, ReadUint32LE. simpl. split; [|auto using DecodeFixed32_range].
    apply lxor_range; auto using DecodeFixed32_range; lia. }
  assert (E : fold_left crc_byte (bdrop 16 p) (comb c) = fold_left crc_byte p l).
  { rewrite (fold_swath l p) by done. f_equal. unfold c, comb. simpl.
    by rewrite !(Z.lxor_comm (adv _ _)). }
  destruct (swath_loop_spec (length (bdrop 16 p)) c (bdrop 16 p) Hlanes) as [Hs1 Hs2].
  destruct (swath_loop _ c _) as [c1 p1]. simpl in *.
  pose proof (word_loop_spec (length p1) c1 p1 Hs1) as Hw.
  destruct (word_loop _ c1 _) as [c2 p2]. simpl in *.
  rewrite STEP4W_comb, fold_STEP1. congruence.
Qed.
End Lanes.

Lemma Extend_portable_spec addr crc data :
  0 <= crc < 2 ^ 32 -> Extend_portable addr crc data = crc_spec crc data.
Proof.
  apply (Extend_portable_adv adv crc_byte); auto using adv_lxor, adv_add, adv_shiftl,
    adv_range, STEP1_spec, STEP4_spec, STEP4W_spec.
Qed.

Lemma fold_crc_byte_range p : forall l,
  0 <= l < 2 ^ 32 -> 0 <= fold_left crc_byte p l < 2 ^ 32.
Proof.
  induction p as [|b p IH]; intros l Hl; [exact Hl|]. cbn [fold_left]. apply IH, adv_range.
  apply lxor_range; [lia|done|]. pose proof (bz_range b). lia.
Qed.

Lemma lxor_xor_range crc : 0 <= crc < 2 ^ 32 -> 0 <= Z.lxor crc kCRC32Xor < 2 ^ 32.
Proof. intros. apply lxor_range; unfold kCRC32Xor; lia. Qed.

Lemma crc_spec_range crc data : 0 <= crc < 2 ^ 32 -> 0 <= crc_spec crc data < 2 ^ 32.
Proof. intros. apply lxor_xor_range, fold_crc_byte_range, lxor_xor_range. done. Qed.

Lemma crc_spec_app crc a b : crc_spec crc (a ++ b) = crc_spec (crc_spec crc a) b.
Proof.
  unfold crc_spec. rewrite fold_left_app, (Z.lxor_assoc _ kCRC32Xor kCRC32Xor).
  by rewrite Z.lxor_nilpotent, Z.lxor_0_r.
Qed.

(** ** Masking *)

Lemma Mask_rot crc : 0 <= crc < 2 ^ 32 ->
  Z.lor (Z.shiftr crc 15) (u32 (Z.shiftl crc 17)) = crc / 2 ^ 15 + crc mod 2 ^ 15 * 2 ^ 17.
Proof.
  intros Hc. rewrite Z.shiftr_div_pow2, Z.shiftl_mul_pow2 by lia. unfold u32, wrap.
  change (2 ^ 32) with (2 ^ 15 * 2 ^ 17). rewrite Z.mul_mod_distr_r by lia.
  rewrite <- lor_disjoint_add; [by rewrite Z.shiftl_mul_pow2 by lia|lia|].
  split; [apply Z.div_pos; lia|apply Z.div_lt_upper_bound; lia].
Qed.

Lemma Unmask_rot rot : 0 <= rot < 2 ^ 32 ->
  Z.lor (Z.shiftr rot 17) (u32 (Z.shiftl rot 15)) = rot / 2 ^ 17 + rot mod 2 ^ 17 * 2 ^ 15.
Proof.
  intros Hc. rewrite Z.shiftr_div_pow2, Z.shiftl_mul_pow2 by lia. unfold u32, wrap.
  change (2 ^ 32) with (2 ^ 17 * 2 ^ 15). rewrite Z.mul_mod_distr_r by lia.
  rewrite <- lor_disjoint_add; [by rewrite Z.shiftl_mul_pow2 by lia|lia|].
  split; [apply Z.div_pos; lia|apply Z.div_lt_upper_bound; lia].
Qed.

Lemma Unmask_Mask crc : 0 <= crc < 2 ^ 32 -> Unmask (Mask crc) = crc.
Proof.
  intros Hc. unfold Unmask, Mask. cbv zeta. rewrite Mask_rot by done.
  set (hi := crc / 2 ^ 15). set (lo := crc mod 2 ^ 15).
  assert (E : crc = 2 ^ 15 * hi + lo) by (apply Z.div_mod; lia).
  assert (Hlo : 0 <= lo < 2 ^ 15) by (apply Z.mod_pos_bound; lia).
  assert (Hhi : 0 <= hi < 2 ^ 17) by
    (split; [apply Z.div_pos; lia|apply Z.div_lt_upper_bound; lia]).
  replace (u32 (u32 (hi + lo * 2 ^ 17 + kMaskDelta) - kMaskDelta)) with (hi + lo * 2 ^ 17).
  2: { unfold u32, wrap. rewrite Zminus_mod_idemp_l.
       replace (hi + lo * 2 ^ 17 + kMaskDelta - kMaskDelta) with (hi + lo * 2 ^ 17) by lia.
       symmetry. apply Z.mod_small. lia. }
  rewrite Unmask_rot by lia.
  rewrite Z.div_add, Z.div_small, Z.mod_add, Z.mod_small by lia. lia.
Qed.

Lemma Mask_range crc : 0 <= Mask crc < 2 ^ 32.
Proof. apply u32_range. Qed.

(** * What the formats rely on *)

(** A checksum that can be extended over a concatenation; the log and table
    formats are verified against this interface. *)
Class Checksum := {
  crc32c_Extend : Z -> bytes -> Z;
  crc32c_Extend_range crc data :
    0 <= crc < 2 ^ 32 -> 0 <= crc32c_Extend crc data < 2 ^ 32;
  crc32c_Extend_app crc a b :
    0 <= crc < 2 ^ 32 ->
    crc32c_Extend crc (a ++ b) = crc32c_Extend (crc32c_Extend crc a) b;
}.

(** [crc32c::Value]. *)
Definition crc32c_Value `{Checksum} (data : bytes) : Z := crc32c_Extend 0 data.

(** [port::AcceleratedCRC32C] in a build without the crc32c library. *)
Definition AcceleratedCRC32C_none (crc : Z) (buf : bytes) : Z := 0.

Lemma Extend_none addr crc data :
  Extend AcceleratedCRC32C_none addr crc data = Extend_portable addr crc data.
Proof. reflexivity. Qed.

Lemma Extend_none_spec addr crc data : 0 <= crc < 2 ^ 32 ->
  Extend AcceleratedCRC32C_none addr crc data = crc_spec crc data.
Proof. intros. rewrite Extend_none. by apply Extend_portable_spec. Qed.

Lemma Extend_none_range addr crc data : 0 <= crc < 2 ^ 32 ->
  0 <= Extend AcceleratedCRC32C_none addr crc data < 2 ^ 32.
Proof. intros. rewrite Extend_none_spec by done. by apply crc_spec_range. Qed.

Lemma Extend_none_app addr addr' crc a b : 0 <= crc < 2 ^ 32 ->
  Extend AcceleratedCRC32C_none addr crc (a ++ b) =
  Extend AcceleratedCRC32C_none addr' (Extend AcceleratedCRC32C_none addr crc a) b.
Proof.
  intros Hc. rewrite (Extend_none_spec addr' _ b) by (by apply Extend_none_range).
  rewrite (Extend_none_spec addr crc (a ++ b)), (Extend_none_spec addr crc a) by done.
  apply crc_spec_app.
Qed.

(** The implementation discharges the interface, at any buffer address. *)
#[export] Instance crc32c_checksum (addr : Z) : Checksum := {|
  crc32c_Extend := Extend AcceleratedCRC32C_none addr;
  crc32c_Extend_range := Extend_none_range addr;
  crc32c_Extend_app := Extend_none_app addr addr;
|}.

(** * Properties *)

(** C39: The table-driven, four-lane [Extend] equals the bit-by-bit CRC-32C for
    every buffer, every initial value and every alignment of the buffer, and
    extending over two pieces is extending over their concatenation. *)
Theorem crc_extend_correct (addr addr' crc : Z) (a b : bytes) (Hc : 0 <= crc < 2 ^ 32) :
  Extend AcceleratedCRC32C_none addr crc a = crc_spec crc a /\
  Extend AcceleratedCRC32C_none addr' (Extend AcceleratedCRC32C_none addr crc a) b =
  crc_spec crc (a ++ b).
Proof.
  split; [by apply Extend_none_spec|].
  rewrite <- Extend_none_app by done. by apply Extend_none_spec.
Qed.

Lemma crc_extend_correct_witness :
  Extend AcceleratedCRC32C_none 3 0 (replicate 32 Byte.x00) =
  crc_spec 0 (replicate 32 Byte.x00) /\
  Extend AcceleratedCRC32C_none 3 0 (replicate 32 Byte.x00) = 0x8a9136aa.
Proof.
  split; [|vm_compute; reflexivity].
  apply (crc_extend_correct 3 3 0 (replicate 32 Byte.x00) []). lia.
Defined.

(** A masked checksum is unmasked to itself, and stays within 32 bits. *)
Theorem mask_roundtrip (crc : Z) (Hc : 0 <= crc < 2 ^ 32) :
  Unmask (Mask crc) = crc /\ 0 <= Mask crc < 2 ^ 32.
Proof. split; [by apply Unmask_Mask|apply Mask_range]. Qed.

Lemma mask_roundtrip_witness : Unmask (Mask 0xdcbc59fa) = 0xdcbc59fa.
Proof. apply mask_roundtrip. lia. Defined.
