(* ===== verification/Env.v ===== *)
(** The file interfaces of include/leveldb/env.h that the storage formats are
    written against: what a [WritableFile], a [SequentialFile] and a
    [RandomAccessFile] offer, and, as separate classes, what a file promises
    when no I/O error happens.  [flat_file] and [buffered_file] are implementations
    that meet them. *)

From S2P Require Import Prelude Status.
From stdpp Require Import base list.

#[local] Open Scope Z_scope.

Class WritableFile (F : Type) := {
  wAppend : F -> bytes -> Status * F;
  wFlush : F -> Status * F;
  wSync : F -> Status * F;
}.

Class SequentialFile (F : Type) := {
  (** [Read(n, &result, scratch)]: the bytes read and the file after. *)
  sRead : F -> Z -> Status * bytes * F;
  sSkip : F -> Z -> Status * F;
}.

Class RandomAccessFile (F : Type) := {
  rRead : F -> Z -> Z -> Status * bytes;
}.

(** A file whose writes succeed: appending extends the contents. *)
Class WritableFileOk (F : Type) `{WritableFile F} := {
  wcontents : F -> bytes;
  wAppend_ok f d : exists f', wAppend f d = (OK, f') /\ wcontents f' = wcontents f ++ d;
  wFlush_ok f : exists f', wFlush f = (OK, f') /\ wcontents f' = wcontents f;
  wSync_ok f : exists f', wSync f = (OK, f') /\ wcontents f' = wcontents f;
}.

(** A file whose reads succeed: "Read up to n bytes", all of them unless the
    file ends. *)
Class SequentialFileOk (F : Type) `{SequentialFile F} := {
  scontents : F -> bytes;
  sRead_ok f n : 0 <= n ->
    exists f', sRead f n = (OK, btake n (scontents f), f') /\
      scontents f' = bdrop n (scontents f);
  sSkip_ok f n : 0 <= n ->
    exists f', sSkip f n = (OK, f') /\ scontents f' = bdrop n (scontents f);
}.

Class RandomAccessFileOk (F : Type) `{RandomAccessFile F} := {
  rcontents : F -> bytes;
  rRead_ok f off n : 0 <= off <= blen (rcontents f) -> 0 <= n ->
    rRead f off n = (OK, btake n (bdrop off (rcontents f)));
}.

(** One file open both for appending and for random reads.  A [WritableFile]
    "must provide buffering" (env.h), so that what was appended need not be
    readable: it is after [Flush], which hands the buffer to the system, and
    after [Sync]. *)
Class SharedFileOk (F : Type) `{WritableFileOk F} `{RandomAccessFileOk F} := {
  Flush_visible (f : F) : rcontents (wFlush f).2 = wcontents (wFlush f).2;
  Sync_visible (f : F) : rcontents (wSync f).2 = wcontents (wSync f).2;
}.

(** * The reference file: its bytes *)

Definition flat_file : Type := bytes.

#[export] Instance flat_writable : WritableFile flat_file := {|
  wAppend f d := (OK, f ++ d); wFlush f := (OK, f); wSync f := (OK, f) |}.

#[export] Instance flat_sequential : SequentialFile flat_file := {|
  sRead f n := (OK, btake n f, bdrop n f); sSkip f n := (OK, bdrop n f) |}.

#[export] Instance flat_random : RandomAccessFile flat_file := {|
  rRead f off n := (OK, btake n (bdrop off f)) |}.

#[export] Program Instance flat_writable_ok : WritableFileOk flat_file :=
  {| wcontents f := f |}.
Next Obligation. eauto. Qed.
Next Obligation. eauto. Qed.
Next Obligation. eauto. Qed.

#[export] Program Instance flat_sequential_ok : SequentialFileOk flat_file :=
  {| scontents f := f |}.
Next Obligation. eauto. Qed.
Next Obligation. eauto. Qed.

#[export] Program Instance flat_random_ok : RandomAccessFileOk flat_file :=
  {| rcontents f := f |}.
Next Obligation. eauto. Qed.

#[export] Program Instance flat_shared_ok : SharedFileOk flat_file.
Next Obligation. done. Qed.
Next Obligation. done. Qed.

(** * A file with a buffer: the bytes the system has and the bytes still in the
    buffer of the writer, which readers do not see *)

Record buffered_file := mkBufferedFile { flushed : bytes; pending_bytes : bytes }.

Definition flush_pending (f : buffered_file) : buffered_file :=
  mkBufferedFile (flushed f ++ pending_bytes f) [].

#[export] Instance buffered_writable : WritableFile buffered_file := {|
  wAppend f d := (OK, mkBufferedFile (flushed f) (pending_bytes f ++ d));
  wFlush f := (OK, flush_pending f);
  wSync f := (OK, flush_pending f) |}.

#[export] Instance buffered_random : RandomAccessFile buffered_file := {|
  rRead f off n := (OK, btake n (bdrop off (flushed f))) |}.

#[export] Program Instance buffered_writable_ok : WritableFileOk buffered_file :=
  {| wcontents f := flushed f ++ pending_bytes f |}.
Next Obligation. intros f d. eexists. split; [done|]. simpl. by rewrite app_assoc. Qed.
Next Obligation. intros f. eexists. split; [done|]. apply app_nil_r. Qed.
Next Obligation. intros f. eexists. split; [done|]. apply app_nil_r. Qed.

#[export] Program Instance buffered_random_ok : RandomAccessFileOk buffered_file :=
  {| rcontents f := flushed f |}.
Next Obligation. eauto. Qed.

#[export] Program Instance buffered_shared_ok : SharedFileOk buffered_file.
Next Obligation. intros f. simpl. by rewrite app_nil_r. Qed.
Next Obligation. intros f. simpl. by rewrite app_nil_r. Qed.
