(* ===== verification/Logging.v ===== *)
(** util/logging.cc: the textual form of numbers and keys, used in file names,
    in the MANIFEST's error messages and in the info log.  The parser of decimal
    numbers is proved to compute the value of the digits it consumes and to
    fail exactly when that value does not fit in 64 bits. *)

From S2P Require Import Prelude.
From Stdlib Require Import Strings.Byte.
From stdpp Require Import base list strings.

#[local] Open Scope Z_scope.

(** * Printing *)

(** The digits [snprintf("%llu")] writes. *)
Fixpoint decimal_loop (fuel : nat) (num : Z) (acc : bytes) : bytes :=
  match fuel with
  | O => acc
  | S fuel' =>
      let acc := zb (48 + num mod 10) :: acc in
      if num / 10 =? 0 then acc else decimal_loop fuel' (num / 10) acc
  end.

(** A 64-bit number has at most twenty digits, within [buf[30]]. *)
Definition decimal (num : Z) : bytes := decimal_loop 20 num [].

Definition AppendNumberTo (s : bytes) (num : Z) : bytes := s ++ decimal num.

Definition NumberToString (num : Z) : bytes := AppendNumberTo [] num.

(** One digit of ["%02x"]. *)
Definition hex_digit (z : Z) : byte := if z <? 10 then zb (48 + z) else zb (97 + z - 10).

Fixpoint AppendEscapedStringTo (s value : bytes) : bytes :=
  match value with
  | [] => s
  | c :: value' =>
      AppendEscapedStringTo
        (if (32 <=? sz c) && (sz c <=? 126) then s ++ [c]
         else s ++ str "\x" ++
                [hex_digit (Z.land (sz c) 255 / 16); hex_digit (Z.land (sz c) 255 mod 16)])
        value'
  end.

Definition EscapeString (value : bytes) : bytes := AppendEscapedStringTo [] value.

(** * Parsing *)

Definition kMaxUint64 : Z := 2 ^ 64 - 1.
Definition kLastDigitOfMaxUint64 : Z := 48 + kMaxUint64 mod 10.

(** The [for] loop: [None] is the overflow return; otherwise the value, the
    digits consumed and what is left. *)
Fixpoint ConsumeDecimalNumber_loop (value consumed : Z) (cur : bytes)
    : option (Z * Z * bytes) :=
  match cur with
  | [] => Some (value, consumed, [])
  | c :: cur' =>
      let ch := bz c in
      if (ch <? 48) || (57 <? ch) then Some (value, consumed, cur)
      else if (kMaxUint64 / 10 <? value) ||
              ((value =? kMaxUint64 / 10) && (kLastDigitOfMaxUint64 <? ch)) then None
      else ConsumeDecimalNumber_loop (u64 (value * 10 + (ch - 48))) (consumed + 1) cur'
  end.

(** [Some (val, rest)] when the function returns true. *)
Definition ConsumeDecimalNumber (inp : bytes) : option (Z * bytes) :=
  match ConsumeDecimalNumber_loop 0 0 inp with
  | None => None
  | Some (value, digits_consumed, rest) =>
      if digits_consumed =? 0 then None else Some (value, rest)
  end.

(** * The reference reading of a decimal number *)

Definition is_digit (b : byte) : bool := (48 <=? bz b) && (bz b <=? 57).

Fixpoint digits_of (l : bytes) : bytes :=
  match l with
  | b :: l' => if is_digit b then b :: digits_of l' else []
  | [] => []
  end.

Definition digits_value_from (v : Z) (ds : bytes) : Z :=
  fold_left (fun v d => v * 10 + (bz d - 48)) ds v.
Definition digits_value : bytes -> Z := digits_value_from 0.

Lemma is_digit_spec b : is_digit b = true <-> 48 <= bz b <= 57.
Proof. unfold is_digit. lia. Qed.

Lemma digits_value_from_mono ds v :
  0 <= v -> Forall (fun d => is_digit d = true) ds -> v <= digits_value_from v ds.
Proof.
  intros Hv Hd. revert v Hv. induction Hd as [|d ds Hd _ IH]; intros v Hv; [done|].
  apply is_digit_spec in Hd. unfold digits_value_from in *. simpl.
  etrans; [|apply IH]; lia.
Qed.

Lemma digits_of_digits l : Forall (fun d => is_digit d = true) (digits_of l).
Proof.
  induction l as [|b l IH]; simpl; [constructor|]. destruct (is_digit b) eqn:?; by constructor.
Qed.

Lemma ConsumeDecimalNumber_loop_spec l : forall v n,
  0 <= v < 2 ^ 64 ->
  ConsumeDecimalNumber_loop v n l =
    if digits_value_from v (digits_of l) <? 2 ^ 64
    then Some (digits_value_from v (digits_of l), n + blen (digits_of l),
               bdrop (blen (digits_of l)) l)
    else None.
Proof.
  induction l as [|c l IH]; intros v n Hv; simpl.
  { replace (v <? 2 ^ 64) with true by lia. by rewrite blen_nil, Z.add_0_r. }
  unfold is_digit.
  destruct (Z.ltb_spec (bz c) 48); simpl.
  { replace (48 <=? bz c) with false by lia. simpl.
    replace (v <? 2 ^ 64) with true by lia. by rewrite blen_nil, Z.add_0_r. }
  destruct (Z.ltb_spec 57 (bz c)); simpl.
  { replace (48 <=? bz c) with true by lia. replace (bz c <=? 57) with false by lia. simpl.
    replace (v <? 2 ^ 64) with true by lia. by rewrite blen_nil, Z.add_0_r. }
  replace (48 <=? bz c) with true by lia. replace (bz c <=? 57) with true by lia. simpl.
  change (kMaxUint64 / 10) with 1844674407370955161. change kLastDigitOfMaxUint64 with 53.
  unfold digits_value_from. simpl. fold (digits_value_from (v * 10 + (bz c - 48)) (digits_of l)).
  destruct (Z.lt_ge_cases (v * 10 + (bz c - 48)) (2 ^ 64)) as [Hs|Hb].
  - replace ((_ <? v) || _) with false by lia.
    rewrite u64_small by lia. rewrite IH by lia.
    rewrite blen_cons. bcase; [|done].
    do 2 f_equal; [f_equal; lia|].
    unfold bdrop. rewrite Z2Nat.inj_add by (unfold blen; lia). done.
  - replace ((_ <? v) || _) with true by lia.
    pose proof (digits_value_from_mono (digits_of l) (v * 10 + (bz c - 48))
      ltac:(lia) (digits_of_digits l)).
    by replace (_ <? 2 ^ 64) with false by lia.
Qed.

(** [ConsumeDecimalNumber] computes the value of the longest prefix of
    decimal digits and removes exactly that prefix from the input; it fails
    exactly when there is no digit or the value does not fit in 64 bits (the
    overflow test of the loop is neither too strict nor too lax). *)
Theorem consume_decimal_correct l :
  ConsumeDecimalNumber l =
    if (blen (digits_of l) =? 0) || (2 ^ 64 <=? digits_value (digits_of l)) then None
    else Some (digits_value (digits_of l), bdrop (blen (digits_of l)) l).
Proof.
  unfold ConsumeDecimalNumber, digits_value. rewrite ConsumeDecimalNumber_loop_spec by lia.
  rewrite (Z.leb_antisym _ (2 ^ 64)). pose proof (blen_nonneg (digits_of l)).
  destruct (_ <? 2 ^ 64); simpl; [|by rewrite orb_true_r].
  by rewrite orb_false_r.
Qed.

(** * Printing then parsing *)

Lemma digits_value_from_app a b v :
  digits_value_from v (a ++ b) = digits_value_from (digits_value_from v a) b.
Proof. unfold digits_value_from. apply fold_left_app. Qed.

Lemma bz_digit n : bz (zb (48 + n mod 10)) = 48 + n mod 10.
Proof. pose proof (Z.mod_pos_bound n 10). apply bz_zb_small. lia. Qed.

Lemma decimal_loop_app fuel : forall n acc,
  decimal_loop fuel n acc = decimal_loop fuel n [] ++ acc.
Proof.
  induction fuel as [|f IH]; intros n acc; simpl; [done|].
  destruct (n / 10 =? 0); [done|].
  rewrite (IH _ (_ :: acc)), (IH _ [_]), <- app_assoc. done.
Qed.

Lemma decimal_loop_spec fuel : forall n,
  (0 < fuel)%nat -> 0 <= n < 10 ^ Z.of_nat fuel ->
  Forall (fun d => is_digit d = true) (decimal_loop fuel n []) /\
  digits_value (decimal_loop fuel n []) = n /\
  0 < blen (decimal_loop fuel n []) <= Z.of_nat fuel.
Proof.
  induction fuel as [|f IH]; intros n Hf Hn; [lia|]. simpl.
  pose proof (Z.div_mod n 10 ltac:(lia)). pose proof (Z.mod_pos_bound n 10 ltac:(lia)).
  assert (Hdig : is_digit (zb (48 + n mod 10)) = true).
  { apply is_digit_spec. rewrite bz_digit. lia. }
  destruct (Z.eqb_spec (n / 10) 0) as [E|E].
  - split; [by repeat constructor|]. split; [|unfold blen; simpl; lia].
    unfold digits_value, digits_value_from. simpl. rewrite bz_digit. lia.
  - rewrite Nat2Z.inj_succ, Z.pow_succ_r in Hn by lia.
    destruct f as [|f]; [simpl in Hn; lia|].
    destruct (IH (n / 10)) as (IH1 & IH2 & IH3); [lia|lia|].
    rewrite decimal_loop_app. split; [apply Forall_app; by repeat constructor|].
    split; [|rewrite blen_app; unfold blen in *; simpl in *; lia].
    unfold digits_value in *. rewrite digits_value_from_app, IH2.
    unfold digits_value_from. simpl. rewrite bz_digit. lia.
Qed.

Lemma decimal_spec n : 0 <= n < 2 ^ 64 ->
  Forall (fun d => is_digit d = true) (decimal n) /\
  digits_value (decimal n) = n /\ 0 < blen (decimal n) <= 20.
Proof. intros. apply (decimal_loop_spec 20 n); lia. Qed.

Lemma digits_of_app ds rest :
  Forall (fun d => is_digit d = true) ds ->
  digits_of rest = [] -> digits_of (ds ++ rest) = ds.
Proof. intros H Hr. induction H as [|d ds Hd _ IH]; simpl; [done|]. by rewrite Hd, IH. Qed.

(** Leading zeros (the ["%06llu"] of file names) do not change the value. *)
Lemma digits_value_zeros k ds : digits_value (replicate k "0"%byte ++ ds) = digits_value ds.
Proof. induction k as [|k IH]; [done|]. exact IH. Qed.

Lemma ConsumeDecimalNumber_print k n rest :
  0 <= n < 2 ^ 64 -> digits_of rest = [] ->
  ConsumeDecimalNumber (replicate k "0"%byte ++ decimal n ++ rest) = Some (n, rest).
Proof.
  intros Hn Hr. destruct (decimal_spec n Hn) as (Hd & Hv & Hl).
  assert (Hall : Forall (fun d => is_digit d = true) (replicate k "0"%byte ++ decimal n)).
  { apply Forall_app. split; [by apply Forall_replicate|done]. }
  unfold ConsumeDecimalNumber. rewrite ConsumeDecimalNumber_loop_spec by lia.
  rewrite app_assoc, digits_of_app by done.
  change (digits_value_from 0) with digits_value. rewrite digits_value_zeros, Hv.
  replace (n <? 2 ^ 64) with true by lia. rewrite bdrop_app, blen_app.
  pose proof (blen_nonneg (replicate k "0"%byte)).
  by replace (_ =? 0) with false by lia.
Qed.
