(* ===== verification/Log.v ===== *)
(** db/log_format.h, db/log_writer.{h,cc} and db/log_reader.{h,cc}: the
    write-ahead log (also the format of the MANIFEST).  The writer and the
    reader are translated whole, over the file interfaces of Env and the
    checksum interface of Crc32c.  The theorems are in LogProofs. *)

From S2P Require Import Prelude Status Coding Crc32c Env Logging.
From stdpp Require Import base list strings.

#[local] Open Scope Z_scope.

(** * Format *)

Definition kZeroType : Z := 0.
Definition kFullType : Z := 1.
Definition kFirstType : Z := 2.
Definition kMiddleType : Z := 3.
Definition kLastType : Z := 4.
Definition kMaxRecordType : Z := kLastType.
Definition kBlockSize : Z := 32768.
Definition kHeaderSize : Z := 4 + 2 + 1.
(** The two special values of [log::Reader]. *)
Definition kEof : Z := kMaxRecordType + 1.
Definition kBadRecord : Z := kMaxRecordType + 2.

(** * Writer *)

Section Writer.
Context {F : Type} `{WritableFile F} `{Checksum}.

Record Writer := mkWriter { dest_ : F; block_offset_ : Z }.

(** [Writer::Writer(dest)] and [Writer::Writer(dest, dest_length)]. *)
Definition newWriter (dest : F) : Writer := mkWriter dest 0.
Definition newWriterAt (dest : F) (dest_length : Z) : Writer :=
  mkWriter dest (dest_length mod kBlockSize).

(** [type_crc_[t]], filled by [InitTypeCrc]. *)
Definition type_crc (t : Z) : Z := crc32c_Value [zb t].

(** The seven header bytes [buf]. *)
Definition header (t : Z) (ptr : bytes) : bytes :=
  let length := blen ptr in
  let crc := Mask (crc32c_Extend (type_crc t) ptr) in
  EncodeFixed32 crc ++ [zb (Z.land length 255); zb (Z.shiftr length 8); zb t].

Definition EmitPhysicalRecord (w : Writer) (t : Z) (ptr : bytes) : Status * Writer :=
  let '(s, dest) := wAppend (dest_ w) (header t ptr) in
  let '(s, dest) :=
    if ok s then
      let '(s, dest) := wAppend dest ptr in
      if ok s then wFlush dest else (s, dest)
    else (s, dest) in
  (s, mkWriter dest (block_offset_ w + (kHeaderSize + blen ptr))).

(** The head of the loop body of [AddRecord]: switch to a new block when the
    header does not fit; the status of that append is dropped. *)
Definition switch_block (w : Writer) : Writer :=
  let leftover := kBlockSize - block_offset_ w in
  if leftover <? kHeaderSize then
    let dest :=
      if 0 <? leftover then
        snd (wAppend (dest_ w) (replicate (Z.to_nat leftover) Byte.x00))
      else dest_ w in
    mkWriter dest 0
  else w.

Definition record_type (begin end_ : bool) : Z :=
  if begin && end_ then kFullType
  else if begin then kFirstType
  else if end_ then kLastType
  else kMiddleType.

(** The [do .. while (s.ok() && left > 0)] loop; [ptr] is what is left. *)
Fixpoint AddRecord_loop (fuel : nat) (w : Writer) (begin : bool) (ptr : bytes)
    : Status * Writer :=
  match fuel with
  | O => (OK, w)
  | S fuel' =>
      let w := switch_block w in
      let avail := kBlockSize - block_offset_ w - kHeaderSize in
      let left := blen ptr in
      let fragment_length := if left <? avail then left else avail in
      let end_ := left =? fragment_length in
      let type := record_type begin end_ in
      let '(s, w) := EmitPhysicalRecord w type (btake fragment_length ptr) in
      let ptr := bdrop fragment_length ptr in
      if ok s && (0 <? blen ptr) then AddRecord_loop fuel' w false ptr else (s, w)
  end.

(** At most one iteration writes no payload (when exactly the header fits), so
    the length of the record plus two bounds the iterations. *)
Definition AddRecord (w : Writer) (slice : bytes) : Status * Writer :=
  AddRecord_loop (S (S (length slice))) w true slice.

(** Appending a list of records, ignoring the statuses. *)
Definition AddRecords (w : Writer) (recs : list bytes) : Writer :=
  fold_left (fun w r => snd (AddRecord w r)) recs w.
End Writer.
Arguments Writer F : clear implicits.
Arguments mkWriter {F} _ _.
Arguments header {_} _ _ : simpl never.

(** * Reader *)

Section Reader.
Context {F : Type} `{SequentialFile F} `{Checksum}.

(** The state of [log::Reader]; [reports] is what [reporter_->Corruption] has
    been called with, and [reporter_] whether there is a reporter. *)
Record Reader := mkReader {
  file_ : F;
  reporter_ : bool;
  checksum_ : bool;
  buffer_ : bytes;
  eof_ : bool;
  last_record_offset_ : Z;
  end_of_buffer_offset_ : Z;
  initial_offset_ : Z;
  resyncing_ : bool;
  reports : list (Z * Status);
}.

Definition newReader (file : F) (reporter checksum : bool) (initial_offset : Z) : Reader :=
  mkReader file reporter checksum [] false 0 0 initial_offset (0 <? initial_offset) [].

Definition set_buffer (b : bytes) (r : Reader) : Reader :=
  mkReader (file_ r) (reporter_ r) (checksum_ r) b (eof_ r) (last_record_offset_ r)
    (end_of_buffer_offset_ r) (initial_offset_ r) (resyncing_ r) (reports r).
Definition set_eof (e : bool) (r : Reader) : Reader :=
  mkReader (file_ r) (reporter_ r) (checksum_ r) (buffer_ r) e (last_record_offset_ r)
    (end_of_buffer_offset_ r) (initial_offset_ r) (resyncing_ r) (reports r).
Definition set_file (f : F) (r : Reader) : Reader :=
  mkReader f (reporter_ r) (checksum_ r) (buffer_ r) (eof_ r) (last_record_offset_ r)
    (end_of_buffer_offset_ r) (initial_offset_ r) (resyncing_ r) (reports r).
Definition set_end_of_buffer (z : Z) (r : Reader) : Reader :=
  mkReader (file_ r) (reporter_ r) (checksum_ r) (buffer_ r) (eof_ r) (last_record_offset_ r)
    z (initial_offset_ r) (resyncing_ r) (reports r).
Definition set_last_record (z : Z) (r : Reader) : Reader :=
  mkReader (file_ r) (reporter_ r) (checksum_ r) (buffer_ r) (eof_ r) z
    (end_of_buffer_offset_ r) (initial_offset_ r) (resyncing_ r) (reports r).
Definition set_resyncing (b : bool) (r : Reader) : Reader :=
  mkReader (file_ r) (reporter_ r) (checksum_ r) (buffer_ r) (eof_ r) (last_record_offset_ r)
    (end_of_buffer_offset_ r) (initial_offset_ r) b (reports r).
Definition add_report (bytes_ : Z) (reason : Status) (r : Reader) : Reader :=
  mkReader (file_ r) (reporter_ r) (checksum_ r) (buffer_ r) (eof_ r) (last_record_offset_ r)
    (end_of_buffer_offset_ r) (initial_offset_ r) (resyncing_ r)
    (reports r ++ [(bytes_, reason)]).

Definition ReportDrop (r : Reader) (bytes_ : Z) (reason : Status) : Reader :=
  if reporter_ r &&
     (initial_offset_ r <=? u64 (end_of_buffer_offset_ r - blen (buffer_ r) - bytes_))
  then add_report bytes_ reason r else r.

Definition ReportCorruption (r : Reader) (bytes_ : Z) (reason : bytes) : Reader :=
  ReportDrop r bytes_ (Corruption reason []).

Definition SkipToInitialBlock (r : Reader) : bool * Reader :=
  let offset_in_block := initial_offset_ r mod kBlockSize in
  let block_start_location := initial_offset_ r - offset_in_block in
  let block_start_location :=
    if kBlockSize - 6 <? offset_in_block then u64 (block_start_location + kBlockSize)
    else block_start_location in
  let r := set_end_of_buffer block_start_location r in
  if 0 <? block_start_location then
    let '(skip_status, f) := sSkip (file_ r) block_start_location in
    let r := set_file f r in
    if negb (ok skip_status) then
      (false, ReportDrop r block_start_location skip_status)
    else (true, r)
  else (true, r).

(** The part of [ReadPhysicalRecord] that fills the buffer: a read error is
    reported and ends the file. *)
Definition FillBuffer (r : Reader) : bool * Reader :=
  let r := set_buffer [] r in
  let '(status, buf, f) := sRead (file_ r) kBlockSize in
  let r := set_file f (set_buffer buf r) in
  let r := set_end_of_buffer (u64 (end_of_buffer_offset_ r + blen (buffer_ r))) r in
  if negb (ok status) then
    (false, set_eof true (ReportDrop (set_buffer [] r) kBlockSize status))
  else (true, if blen (buffer_ r) <? kBlockSize then set_eof true r else r).

(** The part that parses the header at the front of the buffer.  [result] is
    the slice passed in, returned unchanged by the branches that do not assign
    it. *)
Definition ParsePhysicalRecord (r : Reader) (result : bytes) : Z * bytes * Reader :=
  let hdr := buffer_ r in
  let a := bz (byte_at hdr 4) in
  let b := bz (byte_at hdr 5) in
  let type := u32 (sz (byte_at hdr 6)) in
  let length := Z.lor a (Z.shiftl b 8) in
  if blen (buffer_ r) <? kHeaderSize + length then
    let drop_size := blen (buffer_ r) in
    let r := set_buffer [] r in
    if negb (eof_ r) then
      (kBadRecord, result, ReportCorruption r drop_size (str "bad record length"))
    else (kEof, result, r)
  else if (type =? kZeroType) && (length =? 0) then
    (kBadRecord, result, set_buffer [] r)
  else if checksum_ r &&
          negb (crc32c_Value (btake (1 + length) (bdrop 6 hdr)) =?
                Unmask (DecodeFixed32 hdr)) then
    let drop_size := blen (buffer_ r) in
    let r := set_buffer [] r in
    (kBadRecord, result, ReportCorruption r drop_size (str "checksum mismatch"))
  else
    let r := set_buffer (bdrop (kHeaderSize + length) (buffer_ r)) r in
    if u64 (end_of_buffer_offset_ r - blen (buffer_ r) - kHeaderSize - length)
       <? initial_offset_ r then (kBadRecord, [], r)
    else (type, btake length (bdrop kHeaderSize hdr), r).

(** The [while (true)] of [ReadPhysicalRecord(&result)].  The loop runs again
    only after reading a block, and a read that leaves less than a header sets
    [eof_], so three iterations are more than enough
    ([ReadPhysicalRecord_loop_fuel]). *)
Fixpoint ReadPhysicalRecord_loop (fuel : nat) (r : Reader) (result : bytes)
    : Z * bytes * Reader :=
  match fuel with
  | O => (kEof, result, r)
  | S fuel' =>
      if blen (buffer_ r) <? kHeaderSize then
        if negb (eof_ r) then
          let '(go_on, r) := FillBuffer r in
          if go_on then ReadPhysicalRecord_loop fuel' r result else (kEof, result, r)
        else (kEof, result, set_buffer [] r)
      else ParsePhysicalRecord r result
  end.

Definition ReadPhysicalRecord (r : Reader) (result : bytes) : Z * bytes * Reader :=
  ReadPhysicalRecord_loop 3 r result.

(** The local variables of [ReadRecord]. *)
Record Locals := mkLocals {
  scratch : bytes;
  in_fragmented_record : bool;
  prospective_record_offset : Z;
  fragment : bytes;
}.

(** One pass of the [while (true)] loop: [inl] is a [return], with the record
    when it is [return true]; [inr] goes round again. *)
Definition ReadRecord_step (r : Reader) (v : Locals)
    : (option bytes * Reader) + (Reader * Locals) :=
  let '(record_type, frag, r) := ReadPhysicalRecord r (fragment v) in
  let v := mkLocals (scratch v) (in_fragmented_record v) (prospective_record_offset v) frag in
  let physical_record_offset :=
    u64 (end_of_buffer_offset_ r - blen (buffer_ r) - kHeaderSize - blen frag) in
  let skip := resyncing_ r &&
    ((record_type =? kMiddleType) || (record_type =? kLastType)) in
  let r := if resyncing_ r && negb (record_type =? kMiddleType)
           then set_resyncing false r else r in
  if skip then inr (r, v)
  else if record_type =? kFullType then
    let r := if in_fragmented_record v && negb (blen (scratch v) =? 0)
             then ReportCorruption r (blen (scratch v)) (str "partial record without end(1)")
             else r in
    inl (Some frag, set_last_record physical_record_offset r)
  else if record_type =? kFirstType then
    let r := if in_fragmented_record v && negb (blen (scratch v) =? 0)
             then ReportCorruption r (blen (scratch v)) (str "partial record without end(2)")
             else r in
    inr (r, mkLocals frag true physical_record_offset frag)
  else if record_type =? kMiddleType then
    if negb (in_fragmented_record v) then
      inr (ReportCorruption r (blen frag) (str "missing start of fragmented record(1)"), v)
    else
      inr (r, mkLocals (scratch v ++ frag) true (prospective_record_offset v) frag)
  else if record_type =? kLastType then
    if negb (in_fragmented_record v) then
      inr (ReportCorruption r (blen frag) (str "missing start of fragmented record(2)"), v)
    else
      inl (Some (scratch v ++ frag), set_last_record (prospective_record_offset v) r)
  else if record_type =? kEof then inl (None, r)
  else if record_type =? kBadRecord then
    if in_fragmented_record v then
      inr (ReportCorruption r (blen (scratch v)) (str "error in middle of record"),
           mkLocals [] false (prospective_record_offset v) frag)
    else inr (r, v)
  else
    inr (ReportCorruption r
           (blen frag + (if in_fragmented_record v then blen (scratch v) else 0))
           (str "unknown record type " ++ decimal record_type),
         mkLocals [] false (prospective_record_offset v) frag).

(** The outer result is [None] when the fuel runs out. *)
Fixpoint ReadRecord_loop (fuel : nat) (r : Reader) (v : Locals)
    : option (option bytes * Reader) :=
  match fuel with
  | O => None
  | S fuel' =>
      match ReadRecord_step r v with
      | inl res => Some res
      | inr (r, v) => ReadRecord_loop fuel' r v
      end
  end.

Definition ReadRecord (fuel : nat) (r : Reader) : option (option bytes * Reader) :=
  let '(go, r) :=
    if last_record_offset_ r <? initial_offset_ r then SkipToInitialBlock r else (true, r) in
  if negb go then Some (None, r)
  else ReadRecord_loop fuel r (mkLocals [] false 0 []).

(** [while (reader.ReadRecord(&record, &scratch))], as [VersionSet::Recover]
    and [DBImpl::RecoverLogFile] call it: the records and the final reader. *)
Fixpoint ReadAll (fuel : nat) (r : Reader) : option (list bytes * Reader) :=
  match fuel with
  | O => None
  | S fuel' =>
      match ReadRecord fuel r with
      | None => None
      | Some (None, r) => Some ([], r)
      | Some (Some rec, r) =>
          match ReadAll fuel' r with
          | None => None
          | Some (recs, r) => Some (rec :: recs, r)
          end
      end
  end.
End Reader.
Arguments Reader F : clear implicits.
