(* ===== verification/LogProofs.v ===== *)
(** Correctness of the write-ahead log (Log): the writer keeps its block offset
    in step with the file, a log is read back record for record, a log cut at
    any byte by a crash yields exactly the records whose bytes are complete,
    without a corruption report, and the reader terminates on any file.  At the
    end, a log file described by the records it holds. *)

From stdpp Require Import base list strings.
From S2P Require Import Prelude Status Coding Crc32c Env Logging Log.

#[local] Open Scope Z_scope.

Ltac log_consts := unfold kHeaderSize, kBlockSize in *.

(** * Reading back a header *)

Section Header.
Context `{Checksum}.

Lemma header_length t pl : blen (header t pl) = kHeaderSize.
Proof. unfold header. by rewrite blen_app, EncodeFixed32_length. Qed.

(** The length, type and checksum fields, as [ReadPhysicalRecord] reads them. *)
Lemma header_fields t pl rest : 0 <= t < 128 -> blen pl < 65536 ->
  Z.lor (bz (byte_at (header t pl ++ rest) 4))
        (Z.shiftl (bz (byte_at (header t pl ++ rest) 5)) 8) = blen pl /\
  u32 (sz (byte_at (header t pl ++ rest) 6)) = t /\
  Unmask (DecodeFixed32 (header t pl ++ rest)) = crc32c_Extend (type_crc t) pl /\
  bdrop 6 (header t pl ++ rest) = zb t :: rest.
Proof.
  intros Ht Hl. pose proof (blen_nonneg pl) as Hp.
  assert (Hcrc : 0 <= crc32c_Extend (type_crc t) pl < 2 ^ 32).
  { apply crc32c_Extend_range. by apply crc32c_Extend_range. }
  set (m := Mask (crc32c_Extend (type_crc t) pl)).
  change (header t pl ++ rest) with
    (EncodeFixed32 m ++ zb (Z.land (blen pl) 255) :: zb (Z.shiftr (blen pl) 8) :: zb t :: rest).
  repeat split.
  - rewrite !byte_at_app_r by (rewrite EncodeFixed32_length; lia).
    rewrite EncodeFixed32_length. unfold byte_at. simpl.
    rewrite land_255, !bz_zb, Z.shiftr_div_pow2, Z.mod_mod by lia.
    pose proof (Z.mod_pos_bound (blen pl) 256 ltac:(lia)).
    pose proof (Z.div_mod (blen pl) 256 ltac:(lia)).
    rewrite lor_disjoint_add by lia. change (2 ^ 8) with 256.
    rewrite (Z.mod_small (blen pl / 256)) by lia. lia.
  - rewrite byte_at_app_r by (rewrite EncodeFixed32_length; lia).
    rewrite EncodeFixed32_length. unfold byte_at. simpl.
    unfold sz. rewrite bz_zb_small by lia.
    replace (t <? 128) with true by lia. apply u32_small. lia.
  - rewrite DecodeFixed32_app. pose proof (Mask_range (crc32c_Extend (type_crc t) pl)).
    rewrite Z.mod_small by done. by apply Unmask_Mask.
Qed.
End Header.

#[local] Opaque header.

(** * The layout of a log, from the fragments it is made of *)

Section Layout.
Context `{Checksum}.

(** Where the next header goes when the block offset is [o], and the zero
    bytes before it. *)
Definition base (o : Z) : Z := if kBlockSize - o <? kHeaderSize then 0 else o.
Definition pad (o : Z) : bytes :=
  if kBlockSize - o <? kHeaderSize then replicate (Z.to_nat (kBlockSize - o)) Byte.x00 else [].

Fixpoint stream (o : Z) (frs : list (Z * bytes)) : bytes :=
  match frs with
  | [] => []
  | (t, pl) :: frs => pad o ++ header t pl ++ pl ++ stream (base o + kHeaderSize + blen pl) frs
  end.

Fixpoint end_off (o : Z) (frs : list (Z * bytes)) : Z :=
  match frs with
  | [] => o
  | (t, pl) :: frs => end_off (base o + kHeaderSize + blen pl) frs
  end.

(** Every fragment is of a known type and ends inside its block. *)
Fixpoint fits (o : Z) (frs : list (Z * bytes)) : Prop :=
  match frs with
  | [] => True
  | (t, pl) :: frs =>
      kFullType <= t <= kLastType /\ base o + kHeaderSize + blen pl <= kBlockSize /\
      fits (base o + kHeaderSize + blen pl) frs
  end.

(** The fragments of the tail of a record, and of a record. *)
Inductive tail_of : bytes -> list (Z * bytes) -> Prop :=
  | tail_last p : tail_of p [(kLastType, p)]
  | tail_middle p rest frs : tail_of rest frs -> tail_of (p ++ rest) ((kMiddleType, p) :: frs).

Inductive record_of : bytes -> list (Z * bytes) -> Prop :=
  | record_full p : record_of p [(kFullType, p)]
  | record_first p rest frs : tail_of rest frs -> record_of (p ++ rest) ((kFirstType, p) :: frs).

Lemma stream_app a : forall o b, stream o (a ++ b) = stream o a ++ stream (end_off o a) b.
Proof.
  induction a as [|[t pl] a IH]; intros o b; [done|]. simpl. by rewrite IH, <- !app_assoc.
Qed.

Lemma end_off_app a : forall o b, end_off o (a ++ b) = end_off (end_off o a) b.
Proof. induction a as [|[t pl] a IH]; intros o b; simpl; [done|]. apply IH. Qed.

Lemma fits_app a : forall o b, fits o (a ++ b) <-> fits o a /\ fits (end_off o a) b.
Proof.
  induction a as [|[t pl] a IH]; intros o b; simpl; [tauto|]. rewrite IH. tauto.
Qed.

Lemma base_range o : 0 <= o <= kBlockSize -> 0 <= base o <= kBlockSize - kHeaderSize.
Proof. unfold base. log_consts. bcase; lia. Qed.

Lemma end_off_range frs : forall o,
  0 <= o <= kBlockSize -> fits o frs -> 0 <= end_off o frs <= kBlockSize.
Proof.
  induction frs as [|[t pl] frs IH]; intros o Ho Hf; simpl in *; [done|].
  destruct Hf as (_ & Hl & Hf). apply IH; [|done].
  pose proof (base_range o Ho). pose proof (blen_nonneg pl). log_consts. lia.
Qed.

Lemma pad_length o : 0 <= o <= kBlockSize ->
  blen (pad o) = if kBlockSize - o <? kHeaderSize then kBlockSize - o else 0.
Proof.
  intros. unfold pad. bcase; [|done]. unfold blen. rewrite length_replicate. lia.
Qed.

(** A full block and an empty one give the same stream. *)
Lemma stream_full frs : stream kBlockSize frs = stream 0 frs.
Proof. by destruct frs as [|[t pl] frs]. Qed.

(** The bytes written keep the file's length and the block offset in step. *)
Lemma stream_length_mod frs : forall o, 0 <= o <= kBlockSize -> fits o frs ->
  (o + blen (stream o frs)) mod kBlockSize = end_off o frs mod kBlockSize.
Proof.
  induction frs as [|[t pl] frs IH]; intros o Ho Hf; simpl.
  { by rewrite blen_nil, Z.add_0_r. }
  simpl in Hf. destruct Hf as (_ & Hl & Hf).
  pose proof (base_range o Ho). pose proof (blen_nonneg pl).
  rewrite <- IH by (log_consts; first [lia | done]).
  rewrite !blen_app, header_length, pad_length by done.
  unfold base in *. bcase.
  - rewrite <- (Z_mod_plus_full (0 + _ + _ + _) 1 kBlockSize). f_equal. log_consts. lia.
  - f_equal. lia.
Qed.

Lemma tail_of_nonempty s frs : tail_of s frs -> frs <> [].
Proof. by destruct 1. Qed.

Lemma record_of_nonempty s frs : record_of s frs -> frs <> [].
Proof. by destruct 1. Qed.

Lemma stream_nonempty_length frs o : 0 <= o <= kBlockSize -> frs <> [] -> 0 < blen (stream o frs).
Proof.
  intros Ho Hne. destruct frs as [|[t pl] frs]; [done|]. simpl.
  rewrite !blen_app, header_length.
  pose proof (blen_nonneg (pad o)). pose proof (blen_nonneg pl).
  pose proof (blen_nonneg (stream (base o + kHeaderSize + blen pl) frs)). log_consts. lia.
Qed.
End Layout.

(** * The writer *)

Section WriterProofs.
Context {F : Type} `{WritableFileOk F} `{Checksum}.
Implicit Types w : Writer F.

Lemma EmitPhysicalRecord_ok w t ptr :
  exists dest, EmitPhysicalRecord w t ptr =
      (OK, mkWriter dest (block_offset_ w + (kHeaderSize + blen ptr))) /\
    wcontents dest = wcontents (dest_ w) ++ header t ptr ++ ptr.
Proof.
  unfold EmitPhysicalRecord.
  destruct (wAppend_ok (dest_ w) (header t ptr)) as (d1 & E1 & C1). rewrite E1. simpl.
  destruct (wAppend_ok d1 ptr) as (d2 & E2 & C2). rewrite E2. simpl.
  destruct (wFlush_ok d2) as (d3 & E3 & C3). rewrite E3.
  exists d3. by rewrite C3, C2, C1, <- app_assoc.
Qed.

Lemma switch_block_ok w : 0 <= block_offset_ w <= kBlockSize ->
  block_offset_ (switch_block w) = base (block_offset_ w) /\
  wcontents (dest_ (switch_block w)) = wcontents (dest_ w) ++ pad (block_offset_ w).
Proof.
  intros Ho. unfold switch_block, base, pad.
  destruct (Z.ltb_spec (kBlockSize - block_offset_ w) kHeaderSize).
  2: { by rewrite app_nil_r. }
  split; [done|]. simpl. bcase.
  - destruct (wAppend_ok (dest_ w)
      (replicate (Z.to_nat (kBlockSize - block_offset_ w)) Byte.x00)) as (d & E & C).
    by rewrite E.
  - replace (kBlockSize - block_offset_ w) with 0 by lia. simpl. by rewrite app_nil_r.
Qed.

Definition frags_of (begin : bool) : bytes -> list (Z * bytes) -> Prop :=
  if begin then record_of else tail_of.

(** The fuel an iteration needs: an empty fragment is only written when the
    first block has room for a header and nothing more. *)
Definition loop_need (w : Writer F) (ptr : bytes) : Z :=
  blen ptr + (if kBlockSize - base (block_offset_ w) =? kHeaderSize then 2 else 1).

Lemma AddRecord_loop_ok fuel : forall w begin ptr,
  0 <= block_offset_ w <= kBlockSize -> loop_need w ptr <= Z.of_nat fuel ->
  exists frs w', AddRecord_loop fuel w begin ptr = (OK, w') /\ frags_of begin ptr frs /\
    fits (block_offset_ w) frs /\ block_offset_ w' = end_off (block_offset_ w) frs /\
    wcontents (dest_ w') = wcontents (dest_ w) ++ stream (block_offset_ w) frs.
Proof.
  induction fuel as [|fuel IH]; intros w begin ptr Ho Hfuel;
    unfold loop_need in Hfuel; pose proof (blen_nonneg ptr) as Hp.
  { bcase_in Hfuel; lia. }
  simpl. destruct (switch_block_ok w Ho) as (Hb & Hc).
  set (w1 := switch_block w) in *. pose proof (base_range _ Ho) as Hbr.
  set (avail := kBlockSize - block_offset_ w1 - kHeaderSize).
  set (fl := if blen ptr <? avail then blen ptr else avail).
  assert (Hfl : 0 <= fl <= blen ptr /\ fl <= avail /\ (fl = blen ptr \/ fl = avail)).
  { unfold fl, avail in *. bcase; log_consts; lia. }
  destruct (EmitPhysicalRecord_ok w1 (record_type begin (blen ptr =? fl)) (btake fl ptr))
    as (d & E & Cd). rewrite E. simpl.
  rewrite (blen_btake fl ptr), (blen_bdrop fl ptr) by lia.
  set (w2 := mkWriter d (block_offset_ w1 + (kHeaderSize + fl))).
  destruct (Z.ltb_spec 0 (blen ptr - fl)).
  - (* another fragment *)
    assert (fl = avail) as Hav by lia.
    replace (blen ptr =? fl) with false in * by lia.
    destruct (IH w2 false (bdrop fl ptr)) as (frs & w' & E' & Hfr & Hfit & Hoff & Cw').
    { unfold w2. simpl. unfold avail in *. log_consts. lia. }
    { unfold loop_need. rewrite blen_bdrop by lia. unfold w2. simpl block_offset_.
      replace (block_offset_ w1 + (kHeaderSize + fl)) with kBlockSize by (unfold avail in *; lia).
      change (kBlockSize - base kBlockSize =? kHeaderSize) with false.
      cbv iota. rewrite <- Hb in Hfuel. unfold avail in *. bcase_in Hfuel; log_consts; lia. }
    exists ((record_type begin false, btake fl ptr) :: frs), w'.
    simpl. rewrite (blen_btake fl ptr) by lia.
    rewrite <- !Hb, <- !Z.add_assoc. unfold w2 in Hfit, Hoff, Cw'. simpl in Hfit, Hoff, Cw'.
    split; [done|]. split.
    { unfold frags_of, record_type. rewrite <- (btake_bdrop fl ptr) at 1.
      destruct begin; simpl; by constructor. }
    split; [split; [by destruct begin|split; [unfold avail in *; lia|done]]|].
    split; [done|]. rewrite Cw', Cd, Hc. by rewrite <- !app_assoc.
  - (* the last fragment *)
    assert (fl = blen ptr) as Hav by lia.
    replace (blen ptr =? fl) with true in * by lia.
    rewrite Hav in *. rewrite btake_all in * by lia.
    exists [(record_type begin true, ptr)], w2. unfold w2. simpl. rewrite <- !Hb, <- !Z.add_assoc.
    split; [done|]. split; [destruct begin; constructor|].
    split; [split; [by destruct begin|split; [unfold avail in *; lia|done]]|].
    split; [by rewrite Hav|]. by rewrite Cd, Hc, app_nil_r, <- !app_assoc.
Qed.

Lemma AddRecord_ok w slice : 0 <= block_offset_ w <= kBlockSize ->
  exists frs w', AddRecord w slice = (OK, w') /\ record_of slice frs /\
    fits (block_offset_ w) frs /\ block_offset_ w' = end_off (block_offset_ w) frs /\
    wcontents (dest_ w') = wcontents (dest_ w) ++ stream (block_offset_ w) frs.
Proof.
  intros Ho. apply (AddRecord_loop_ok _ w true slice Ho).
  unfold loop_need, blen. bcase; lia.
Qed.
End WriterProofs.

(** The fragments of a list of records, record by record. *)
Definition log_of (recs : list bytes) (frss : list (list (Z * bytes))) : Prop :=
  Forall2 record_of recs frss.

Section WriterLists.
Context {F : Type} `{WritableFileOk F} `{Checksum}.
Implicit Types w : Writer F.

(** Appending records appends a stream whose shape does not depend on how far
    the list goes: the first [j] records are laid out the same way. *)
Lemma AddRecords_ok recs : forall w, 0 <= block_offset_ w <= kBlockSize ->
  exists frss, log_of recs frss /\ fits (block_offset_ w) (concat frss) /\
    forall j,
      block_offset_ (AddRecords w (take j recs)) = end_off (block_offset_ w) (concat (take j frss)) /\
      wcontents (dest_ (AddRecords w (take j recs))) =
        wcontents (dest_ w) ++ stream (block_offset_ w) (concat (take j frss)).
Proof.
  induction recs as [|rec recs IH]; intros w Ho.
  { exists []. split; [constructor|]. split; [done|]. intros j. rewrite !take_nil. simpl.
    by rewrite app_nil_r. }
  destruct (AddRecord_ok w rec Ho) as (frs & w1 & E & Hr & Hf & Hoff & Hc).
  destruct (IH w1) as (frss & Hrs & Hfs & Hj).
  { rewrite Hoff. by apply end_off_range. }
  exists (frs :: frss). split; [by constructor|]. simpl.
  split; [apply fits_app; rewrite <- Hoff; done|].
  intros [|j]; [by rewrite app_nil_r|].
  assert (AddRecords w (take (S j) (rec :: recs)) = AddRecords w1 (take j recs)) as ->.
  { unfold AddRecords. simpl. by rewrite E. }
  simpl. destruct (Hj j) as (-> & ->). rewrite end_off_app, stream_app, <- Hoff, Hc.
  by rewrite <- app_assoc.
Qed.

(** A writer at the end of a block is a writer at the start of the next. *)
Lemma AddRecord_block_end (d : F) s :
  AddRecord (mkWriter d kBlockSize) s = AddRecord (mkWriter d 0) s.
Proof. done. Qed.

Lemma AddRecords_reopen w more : 0 <= block_offset_ w <= kBlockSize ->
  dest_ (AddRecords (mkWriter (dest_ w) (block_offset_ w mod kBlockSize)) more) =
  dest_ (AddRecords w more).
Proof.
  intros Ho. destruct w as [d o]. simpl in *. destruct (decide (o = kBlockSize)) as [->|].
  - rewrite Z.mod_same by done. destruct more as [|s more]; [done|].
    unfold AddRecords. simpl. by rewrite AddRecord_block_end.
  - by rewrite Z.mod_small by lia.
Qed.

Lemma newWriter_range (f : F) : 0 <= block_offset_ (newWriter f) <= kBlockSize.
Proof. simpl. log_consts. lia. Qed.

Lemma newWriterAt_range (f : F) n : 0 <= block_offset_ (newWriterAt f n) <= kBlockSize.
Proof. simpl. pose proof (Z.mod_pos_bound n kBlockSize). log_consts. lia. Qed.
End WriterLists.

(** * The reader *)

Section ReaderProofs.
Context {F : Type} `{SequentialFileOk F} `{Checksum}.
Implicit Types r : Reader F.

(** What is still to be read, counting the end of the file as [c]: the bytes for
    [c = 0]; for [c = 1] every read that meets the end makes it smaller. *)
Definition unread (c : Z) r : Z :=
  blen (buffer_ r) + (if eof_ r then 0 else blen (scontents (file_ r)) + c).

#[local] Abbreviation pending := (unread 1).

Lemma pending_nonneg r : 0 <= pending r.
Proof.
  unfold unread. pose proof (blen_nonneg (buffer_ r)).
  pose proof (blen_nonneg (scontents (file_ r))). destruct (eof_ r); lia.
Qed.

Lemma ReportDrop_frame r n s :
  buffer_ (ReportDrop r n s) = buffer_ r /\ eof_ (ReportDrop r n s) = eof_ r /\
  file_ (ReportDrop r n s) = file_ r.
Proof. unfold ReportDrop. by destruct (_ && _). Qed.

Lemma pending_ReportDrop c r n s : unread c (ReportDrop r n s) = unread c r.
Proof. unfold unread. by destruct (ReportDrop_frame r n s) as (-> & -> & ->). Qed.

Lemma pending_ReportCorruption c r n m : unread c (ReportCorruption r n m) = unread c r.
Proof. apply pending_ReportDrop. Qed.

Lemma pending_set_buffer c b r : unread c (set_buffer b r) = unread c r - blen (buffer_ r) + blen b.
Proof. unfold unread. simpl. lia. Qed.

Lemma pending_clear c r : unread c (set_buffer [] r) = unread c r - blen (buffer_ r).
Proof. rewrite pending_set_buffer. unfold blen at 2. simpl. lia. Qed.

(** The loop of [ReadPhysicalRecord] runs at most twice, on any file. *)
Lemma ReadPhysicalRecord_loop_fuel {F'} `{SequentialFile F'} (r : Reader F') res n :
  ReadPhysicalRecord_loop (S (S n)) r res = ReadPhysicalRecord_loop 2 r res.
Proof.
  assert (Hstep : forall n (r : Reader F'),
    (blen (buffer_ r) <? kHeaderSize) && negb (eof_ r) = false ->
    ReadPhysicalRecord_loop (S n) r res = ReadPhysicalRecord_loop 1 r res).
  { intros m r' Hs. simpl. destruct (blen (buffer_ r') <? kHeaderSize); [|done].
    by destruct (eof_ r'). }
  assert (Hfill : (blen (buffer_ (snd (FillBuffer r))) <? kHeaderSize) &&
                  negb (eof_ (snd (FillBuffer r))) = false).
  { unfold FillBuffer. destruct (sRead _ _) as [[s buf] f]. destruct (ok s); simpl.
    - destruct (Z.ltb_spec (blen buf) kBlockSize); simpl; [apply andb_false_r|].
      by replace (blen buf <? kHeaderSize) with false by (log_consts; lia).
    - apply andb_false_r. }
  change (ReadPhysicalRecord_loop (S (S n)) r res) with
    (let k := S n in ReadPhysicalRecord_loop (S k) r res).
  change (ReadPhysicalRecord_loop 2 r res) with
    (let k := 1%nat in ReadPhysicalRecord_loop (S k) r res).
  cbn zeta. specialize (Hstep n _ Hfill). revert Hstep. generalize (S n). intros k Hk.
  simpl. destruct (blen (buffer_ r) <? kHeaderSize); [|done].
  destruct (eof_ r); [done|]. simpl. destruct (FillBuffer r) as [[] r']; [exact Hk|done].
Qed.

Lemma FillBuffer_ok r :
  exists r', FillBuffer r = (true, r') /\
    buffer_ r' = btake kBlockSize (scontents (file_ r)) /\
    (eof_ r' = if blen (scontents (file_ r)) <? kBlockSize then true else eof_ r) /\
    scontents (file_ r') = bdrop kBlockSize (scontents (file_ r)) /\
    checksum_ r' = checksum_ r /\ initial_offset_ r' = initial_offset_ r /\
    last_record_offset_ r' = last_record_offset_ r /\ resyncing_ r' = resyncing_ r /\
    reports r' = reports r.
Proof.
  unfold FillBuffer. simpl.
  destruct (sRead_ok (file_ r) kBlockSize) as (f & E & Hf); [log_consts; lia|].
  rewrite E. simpl. eexists. split; [done|].
  assert (Hl : (blen (btake kBlockSize (scontents (file_ r))) <? kBlockSize) =
               (blen (scontents (file_ r)) <? kBlockSize)).
  { destruct (Z.ltb_spec (blen (scontents (file_ r))) kBlockSize).
    - rewrite btake_all by lia. lia.
    - rewrite blen_btake by (log_consts; lia). lia. }
  rewrite Hl. destruct (blen (scontents (file_ r)) <? kBlockSize); simpl; repeat split; done.
Qed.

Lemma FillBuffer_pending c r r' b : 0 <= c -> eof_ r = false ->
  FillBuffer r = (b, r') -> unread c r' <= unread c r.
Proof.
  intros Hc0 He E. destruct (FillBuffer_ok r) as (r1 & E1 & Hb & He1 & Hf & _).
  rewrite E in E1. injection E1 as -> ->. unfold unread. rewrite Hb, He1, Hf, He.
  pose proof (blen_nonneg (buffer_ r)).
  pose proof (blen_nonneg (bdrop kBlockSize (scontents (file_ r)))).
  assert (Hs : blen (btake kBlockSize (scontents (file_ r))) +
               blen (bdrop kBlockSize (scontents (file_ r))) = blen (scontents (file_ r))).
  { by rewrite <- blen_app, btake_bdrop. }
  bcase; lia.
Qed.

Lemma ParsePhysicalRecord_pending c r res t fr r' :
  kHeaderSize <= blen (buffer_ r) ->
  ParsePhysicalRecord r res = (t, fr, r') -> unread c r' + kHeaderSize <= unread c r.
Proof.
  intros Hs. unfold ParsePhysicalRecord. cbv zeta.
  set (len := Z.lor _ _).
  assert (Hlen : 0 <= len).
  { apply Z.lor_nonneg. split; [apply bz_range|apply Z.shiftl_nonneg, bz_range]. }
  clearbody len.
  assert (Hcl : unread c (set_buffer [] r) + kHeaderSize <= unread c r).
  { rewrite pending_clear. log_consts. lia. }
  destruct (Z.ltb_spec (blen (buffer_ r)) (kHeaderSize + len)).
  { destruct (negb _); intros [= <- <- <-]; by rewrite ?pending_ReportCorruption. }
  destruct (_ && _); [by intros [= <- <- <-]|].
  destruct (_ && _); [intros [= <- <- <-]; by rewrite pending_ReportCorruption|].
  assert (Hd : unread c (set_buffer (bdrop (kHeaderSize + len) (buffer_ r)) r) + kHeaderSize <= unread c r).
  { rewrite pending_set_buffer, blen_bdrop by (log_consts; lia). log_consts. lia. }
  destruct (_ <? _); by intros [= <- <- <-].
Qed.

(** A physical record, or a bad one, consumes input: only [kEof] need not. *)
Lemma ReadPhysicalRecord_pending c r res t fr r' : 0 <= c ->
  ReadPhysicalRecord r res = (t, fr, r') ->
  unread c r' <= unread c r /\ (t = kEof \/ unread c r' + kHeaderSize <= unread c r).
Proof.
  intros Hc0. unfold ReadPhysicalRecord. generalize 3%nat. intros fuel. revert r.
  induction fuel as [|fuel IH]; intros r; simpl.
  { intros [= <- <- <-]. split; [done|by left]. }
  destruct (Z.ltb_spec (blen (buffer_ r)) kHeaderSize) as [Hs|Hs].
  - destruct (eof_ r) eqn:He; simpl.
    + intros [= <- <- <-]. split; [|by left]. rewrite pending_clear.
      pose proof (blen_nonneg (buffer_ r)). lia.
    + destruct (FillBuffer r) as [b r1] eqn:E. pose proof (FillBuffer_pending c _ _ _ Hc0 He E).
      destruct b; [|intros [= <- <- <-]; split; [done|by left]].
      intros Hr. apply IH in Hr. log_consts. lia.
  - intros Hr. apply ParsePhysicalRecord_pending with (c := c) in Hr; [|done]. log_consts. lia.
Qed.

Lemma ReadPhysicalRecord_less r res t fr r' :
  ReadPhysicalRecord r res = (t, fr, r') -> t = kEof \/ pending r' < pending r.
Proof.
  intros E. destruct (ReadPhysicalRecord_pending 1 _ _ _ _ _ ltac:(lia) E) as [_ [|Hp]]; [by left|].
  right. log_consts. lia.
Qed.

(** ** Reading an undamaged, possibly cut, log *)

(** The reader is [o] bytes into a block and [D] is what is left to read. *)
Definition reading r (o : Z) (D : bytes) : Prop :=
  initial_offset_ r = 0 /\ resyncing_ r = false /\ 0 <= last_record_offset_ r /\
  0 <= o <= kBlockSize /\
  if eof_ r then D = buffer_ r /\ blen D <= kBlockSize - o
  else D = buffer_ r ++ scontents (file_ r) /\ blen (buffer_ r) = kBlockSize - o.

Lemma reading_fill r o D : reading r o D -> eof_ r = false ->
  exists r', FillBuffer r = (true, r') /\ reading r' 0 (bdrop (kBlockSize - o) D) /\
    reports r' = reports r /\
    (blen (buffer_ r') <? kHeaderSize) && negb (eof_ r') = false.
Proof.
  intros (Hi & Hr & Hl & Ho & He) Heof. rewrite Heof in He. destruct He as [HD Hb].
  destruct (FillBuffer_ok r) as (r' & E & Hb' & He' & Hf' & _ & Hi' & Hl' & Hr' & Hp').
  exists r'. split; [done|]. rewrite Hp'.
  assert (bdrop (kBlockSize - o) D = scontents (file_ r)) as ->.
  { rewrite HD. by apply bdrop_app_n. }
  unfold reading. rewrite Hi', Hr', Hl', He', Hb', Hf', Heof.
  assert (HB : 0 < kBlockSize) by done.
  destruct (Z.ltb_spec (blen (scontents (file_ r))) kBlockSize).
  - rewrite btake_all by lia. repeat split; try done; try lia.
  - rewrite btake_bdrop, blen_btake by lia. repeat split; try done; try lia.
Qed.

(** [t], [pl] at the front of what is left: the fragment when it is complete,
    otherwise the end of the file. *)
Lemma reading_parse r o m t pl rest res :
  reading r o (btake m (header t pl ++ pl ++ rest)) ->
  kFullType <= t <= kLastType -> o + kHeaderSize + blen pl <= kBlockSize ->
  kHeaderSize <= blen (buffer_ r) -> 0 <= m ->
  if kHeaderSize + blen pl <=? m then
    ParsePhysicalRecord r res =
      (t, pl, set_buffer (bdrop (kHeaderSize + blen pl) (buffer_ r)) r) /\
    reading (set_buffer (bdrop (kHeaderSize + blen pl) (buffer_ r)) r)
      (o + kHeaderSize + blen pl) (btake (m - (kHeaderSize + blen pl)) rest)
  else ParsePhysicalRecord r res = (kEof, res, set_buffer [] r).
Proof.
  intros (Hi & Hr & Hl & Ho & He) Ht Hfit Hb Hm. pose proof (blen_nonneg pl) as Hpl.
  set (H' := header t pl ++ pl ++ rest) in *. set (n := blen (buffer_ r)) in *.
  assert (Hbuf : buffer_ r = header t pl ++ btake (n - kHeaderSize) (pl ++ rest)).
  { rewrite <- (header_length t pl), <- btake_app_ge by (rewrite header_length; lia).
    destruct (eof_ r); destruct He as [He _].
    - apply (btake_prefix _ [] _ m). by rewrite app_nil_r.
    - eapply btake_prefix. by rewrite <- He. }
  assert (HH : blen H' = kHeaderSize + blen pl + blen rest).
  { unfold H'. rewrite !blen_app, header_length. lia. }
  pose proof (blen_btake_min m H' Hm) as HDlen. pose proof (blen_nonneg rest).
  assert (Ht' : 0 <= t < 128) by (unfold kFullType, kLastType in *; lia).
  pose proof (header_fields t pl (btake (n - kHeaderSize) (pl ++ rest)) Ht'
    ltac:(log_consts; lia)) as Hfields. rewrite <- Hbuf in Hfields.
  unfold ParsePhysicalRecord. cbv zeta. destruct Hfields as (-> & -> & Hcrc & Hd6).
  fold n. destruct (Z.leb_spec (kHeaderSize + blen pl) m) as [Hc|Hc].
  - assert (Hn : kHeaderSize + blen pl <= n).
    { destruct (eof_ r); destruct He as [He Hbl]; [|unfold n; lia].
      unfold n. rewrite <- He. lia. }
    replace (n <? kHeaderSize + blen pl) with false by lia.
    replace (t =? kZeroType) with false by (unfold kFullType, kZeroType in *; lia). simpl.
    assert (Hpl' : btake (n - kHeaderSize) (pl ++ rest) =
                   pl ++ btake (n - kHeaderSize - blen pl) rest).
    { by rewrite btake_app_ge by lia. }
    assert (crc32c_Value (btake (1 + blen pl) (bdrop 6 (buffer_ r))) =
            Unmask (DecodeFixed32 (buffer_ r))) as ->.
    { rewrite Hd6, Hcrc, Hpl'.
      change (zb t :: ?x) with ([zb t] ++ x).
      rewrite app_assoc, (btake_app_n _ ([zb t] ++ pl)) by by rewrite blen_app.
      unfold crc32c_Value, type_crc. by rewrite crc32c_Extend_app. }
    rewrite Z.eqb_refl, andb_false_r, Hi.
    match goal with |- context [u64 ?x <? 0] =>
      replace (u64 x <? 0) with false by (pose proof (u64_range x); lia) end.
    split.
    { assert (btake (blen pl) (bdrop kHeaderSize (buffer_ r)) = pl) as ->; [|done].
      rewrite Hbuf, (bdrop_app_n _ (header t pl)) by apply header_length.
      by rewrite Hpl', btake_app. }
    unfold reading. simpl. rewrite Hi, Hr. repeat split; [lia|log_consts; lia|lia|].
    assert (HDr : btake (m - (kHeaderSize + blen pl)) rest =
                  bdrop (kHeaderSize + blen pl) (btake m H')).
    { rewrite bdrop_btake by (log_consts; lia). unfold H'.
      rewrite app_assoc, (bdrop_app_n _ (header t pl ++ pl));
        [done|by rewrite blen_app, header_length]. }
    rewrite HDr. destruct (eof_ r); destruct He as [He Hbl].
    + rewrite He. split; [done|]. rewrite blen_bdrop; [|fold n; log_consts; lia].
      rewrite <- He. lia.
    + rewrite He, bdrop_app_le by (fold n; lia). split; [done|].
      rewrite blen_bdrop by (fold n; log_consts; lia). lia.
  - destruct (eof_ r) eqn:Heof; destruct He as [He Hbl].
    + replace (n <? kHeaderSize + blen pl) with true by (unfold n; rewrite <- He; lia).
      simpl. by rewrite Heof.
    + assert (n <= blen (btake m H')); [|unfold n in *; lia].
      rewrite He, blen_app. pose proof (blen_nonneg (scontents (file_ r))). fold n. lia.
Qed.

(** The outcome of reading a physical record [t], [pl] of [len] bytes, of which
    [m] are in the file: the record, leaving [rest] at offset [o], or [kEof];
    nothing is reported. *)
Definition front_result r (res : bytes) (k : Z * bytes * Reader F) (len m t : Z) (pl : bytes)
    (o : Z) (rest : bytes) : Prop :=
  exists t' pl' r', k = (t', pl', r') /\ reports r' = reports r /\
    if len <=? m then t' = t /\ pl' = pl /\ reading r' o (btake (m - len) rest)
    else t' = kEof.

Lemma reading_front fuel r o m t pl rest res :
  reading r o (btake m (header t pl ++ pl ++ rest)) ->
  kFullType <= t <= kLastType -> o + kHeaderSize + blen pl <= kBlockSize -> 0 <= m ->
  (blen (buffer_ r) <? kHeaderSize) && negb (eof_ r) = false ->
  front_result r res (ReadPhysicalRecord_loop (S fuel) r res) (kHeaderSize + blen pl) m t pl
    (o + kHeaderSize + blen pl) rest.
Proof.
  intros Hr Ht Hfit Hm Hnf. pose proof (blen_nonneg pl). simpl.
  destruct (Z.ltb_spec (blen (buffer_ r)) kHeaderSize) as [Hs|Hs].
  - destruct (eof_ r) eqn:He; [|done]. simpl. unfold front_result. do 3 eexists.
    split; [done|]. split; [done|].
    destruct Hr as (_ & _ & _ & _ & Hr). rewrite He in Hr. destruct Hr as [Hr _].
    apply (f_equal blen) in Hr. rewrite blen_btake_min, !blen_app, header_length in Hr by done.
    pose proof (blen_nonneg rest). by replace (_ <=? m) with false by lia.
  - pose proof (reading_parse r o m t pl rest res Hr Ht Hfit Hs Hm) as Hp.
    unfold front_result. destruct (_ <=? m).
    + destruct Hp as [Hp Hr']. by do 3 eexists.
    + by do 3 eexists.
Qed.

Lemma read_fragment r o m t pl frs res :
  reading r o (btake m (stream o ((t, pl) :: frs))) -> fits o ((t, pl) :: frs) -> 0 <= m ->
  front_result r res (ReadPhysicalRecord r res) (blen (pad o) + kHeaderSize + blen pl) m t pl
    (base o + kHeaderSize + blen pl) (stream (base o + kHeaderSize + blen pl) frs).
Proof.
  intros Hr (Ht & Hfit & _) Hm. simpl in Hr. pose proof (blen_nonneg pl).
  pose proof Hr as (_ & _ & _ & Ho & He).
  pose proof (pad_length o Ho) as Hpad. unfold ReadPhysicalRecord.
  destruct ((blen (buffer_ r) <? kHeaderSize) && negb (eof_ r)) eqn:Hfill.
  - apply andb_prop in Hfill as [Hs Heof]. apply Z.ltb_lt in Hs. apply negb_true_iff in Heof.
    rewrite Heof in He. destruct He as [HD Hb].
    assert (Hlt : (kBlockSize - o <? kHeaderSize) = true) by lia. rewrite Hlt in Hpad.
    destruct (reading_fill _ _ _ Hr Heof) as (r1 & E & Hr1 & Hrep & Hnf).
    assert (Hmo : kBlockSize - o <= m).
    { apply (f_equal blen) in HD. rewrite blen_btake_min, (blen_app (buffer_ r)) in HD by done.
      pose proof (blen_nonneg (scontents (file_ r))). lia. }
    rewrite bdrop_btake, bdrop_app_n in Hr1 by lia.
    cbn [ReadPhysicalRecord_loop]. rewrite (proj2 (Z.ltb_lt _ _) Hs), Heof. cbn [negb].
    rewrite E. unfold base in *. rewrite Hlt in *.
    destruct (reading_front 1 r1 0 _ t pl _ res Hr1 Ht Hfit ltac:(lia) Hnf)
      as (t' & pl' & r' & E' & Hrep' & Hres).
    exists t', pl', r'. split; [done|]. split; [congruence|].
    rewrite Hpad. destruct (Z.leb_spec (kHeaderSize + blen pl) (m - (kBlockSize - o))).
    + replace (_ <=? m) with true by lia. destruct Hres as (-> & -> & Hres).
      repeat split; [apply Hres..|]. destruct Hres as (_ & _ & _ & _ & Hres).
      replace (m - (kBlockSize - o + kHeaderSize + blen pl)) with
        (m - (kBlockSize - o) - (kHeaderSize + blen pl)) by lia. done.
    + by replace (_ <=? m) with false by lia.
  - unfold base, pad in *. destruct (Z.ltb_spec (kBlockSize - o) kHeaderSize) as [Hs|Hs].
    + (* less than a header left, and the file ends here *)
      assert (Heof : eof_ r = true /\ blen (buffer_ r) < kHeaderSize).
      { destruct (eof_ r); destruct He as [He1 He2].
        - split; [done|]. rewrite <- He1. lia.
        - rewrite He2 in Hfill. lia. }
      destruct Heof as [Heof Hsb]. rewrite Heof in He. destruct He as [He1 He2].
      simpl. rewrite (proj2 (Z.ltb_lt _ _) Hsb), Heof. simpl.
      do 3 eexists. split; [done|]. split; [done|]. rewrite Hpad.
      assert (m < kBlockSize - o + kHeaderSize + blen pl).
      { rewrite blen_btake_min, !blen_app, header_length in He2 by done.
        pose proof (blen_nonneg (stream (0 + kHeaderSize + blen pl) frs)). log_consts. lia. }
      by replace (_ <=? m) with false by lia.
    + rewrite blen_nil, Z.add_0_l. by apply reading_front.
Qed.

(** At the end of what was written, the end of the file. *)
Lemma read_end r o res : reading r o [] ->
  exists r', ReadPhysicalRecord r res = (kEof, res, r') /\ reports r' = reports r.
Proof.
  intros Hr. pose proof Hr as (_ & _ & _ & _ & He). unfold ReadPhysicalRecord.
  destruct (eof_ r) eqn:Heof.
  - destruct He as [He _]. cbn [ReadPhysicalRecord_loop]. rewrite <- He, Heof. simpl. eauto.
  - destruct He as [HD Hb]. symmetry in HD. apply app_nil in HD as [HD1 HD2].
    destruct (FillBuffer_ok r) as (r1 & E & Hb1 & He1 & _ & _ & _ & _ & _ & Hrep).
    cbn [ReadPhysicalRecord_loop]. rewrite HD1, Heof. simpl. rewrite E.
    rewrite HD2 in Hb1, He1. rewrite Hb1, He1. simpl. eauto.
Qed.

(** ** Whole records *)

Lemma reading_set_last r o D z : reading r o D -> 0 <= z -> reading (set_last_record z r) o D.
Proof. unfold reading. simpl. tauto. Qed.

(** The outcome of [ReadRecord] on a record of [len] bytes of which [m] are in
    the file. *)
Definition record_result r (k : option (option bytes * Reader F)) (len m : Z) (rec : bytes)
    (o : Z) (rest : bytes) : Prop :=
  exists res r', k = Some (res, r') /\ reports r' = reports r /\
    if len <=? m then
      res = Some rec /\ reading r' o (btake (m - len) rest) /\ pending r' < pending r
    else res = None.

Lemma ReadRecord_step_eof r v fr r' :
  ReadPhysicalRecord r (fragment v) = (kEof, fr, r') ->
  exists r'', ReadRecord_step r v = inl (None, r'') /\ reports r'' = reports r'.
Proof.
  intros E. unfold ReadRecord_step. rewrite E. simpl.
  destruct (resyncing_ r'); simpl; eauto.
Qed.

Lemma stream_cons_length o t pl frs :
  blen (stream o ((t, pl) :: frs)) =
    blen (pad o) + kHeaderSize + blen pl + blen (stream (base o + kHeaderSize + blen pl) frs).
Proof. simpl. rewrite !blen_app, header_length. lia. Qed.

(** Shifting what is left past a fragment of [a] bytes. *)
Lemma record_result_shift r r1 k a len m rec o rest :
  0 <= len -> reports r1 = reports r -> pending r1 < pending r -> a <= m ->
  record_result r1 k len (m - a) rec o rest -> record_result r k (a + len) m rec o rest.
Proof.
  intros Hl Hrep Hp Ha (res & r' & E & Hrep' & Hres). exists res, r'.
  split; [done|]. split; [congruence|].
  replace (a + len <=? m) with (len <=? m - a) by lia.
  destruct (len <=? m - a); [|done]. destruct Hres as (-> & Hr & Hp').
  split; [done|]. split; [|lia]. by replace (m - (a + len)) with (m - a - len) by lia.
Qed.

(** The file ends inside the fragment of [a] bytes that comes next. *)
Lemma record_result_eof fuel r v a len m rec o rest fr r' :
  (0 < fuel)%nat -> m < a -> 0 <= len ->
  ReadPhysicalRecord r (fragment v) = (kEof, fr, r') -> reports r' = reports r ->
  record_result r (ReadRecord_loop fuel r v) (a + len) m rec o rest.
Proof.
  intros Hf Ha Hl E Hrep. destruct fuel as [|fuel]; [lia|]. simpl.
  destruct (ReadRecord_step_eof _ _ _ _ E) as (r2 & E2 & Hrep2). rewrite E2.
  exists None, r2. split; [done|]. split; [congruence|].
  by replace (a + len <=? m) with false by lia.
Qed.

Lemma read_tail rest frs : tail_of rest frs -> forall more fuel r v o m,
  reading r o (btake m (stream o (frs ++ more))) -> fits o (frs ++ more) -> 0 <= m ->
  in_fragmented_record v = true -> 0 <= prospective_record_offset v ->
  pending r < Z.of_nat fuel ->
  record_result r (ReadRecord_loop fuel r v) (blen (stream o frs)) m (scratch v ++ rest)
    (end_off o frs) (stream (end_off o frs) more).
Proof.
  induction 1 as [p|p rest frs Ht IH]; intros more fuel r v o m Hr Hfit Hm Hv Hpo Hfuel;
    pose proof (pending_nonneg r); (destruct fuel as [|fuel]; [lia|]);
    rewrite <- app_comm_cons in Hr, Hfit;
    rewrite stream_cons_length;
    destruct (read_fragment _ _ _ _ _ _ (fragment v) Hr Hfit Hm)
      as (t' & fr & r1 & E & Hrep & Hres);
    set (a := blen (pad o) + kHeaderSize + blen p) in *;
    (destruct (Z.leb_spec a m) as [Ha|Ha];
      [destruct Hres as (-> & -> & Hr1)
      |subst t'; eapply record_result_eof; [lia|lia|apply blen_nonneg|done|done]]);
    pose proof Hr1 as (_ & Hsync & _);
    destruct (ReadPhysicalRecord_less _ _ _ _ _ E) as [|Hp]; try done.
  - simpl. unfold ReadRecord_step. rewrite E, Hsync, Hv. simpl. rewrite blen_nil, Z.add_0_r.
    do 2 eexists. split; [done|]. split; [done|].
    replace (a <=? m) with true by lia. split; [done|].
    split; [by apply reading_set_last|exact Hp].
  - simpl. unfold ReadRecord_step. rewrite E, Hsync, Hv. simpl.
    apply (record_result_shift r r1); [apply blen_nonneg|done|done|done|].
    rewrite app_assoc.
    apply (IH more fuel r1 (mkLocals (scratch v ++ p) true (prospective_record_offset v) p));
      [done|apply Hfit|lia|done|done|lia].
Qed.

Lemma read_record rec frs more fuel r o m :
  record_of rec frs ->
  reading r o (btake m (stream o (frs ++ more))) -> fits o (frs ++ more) -> 0 <= m ->
  pending r < Z.of_nat fuel ->
  record_result r (ReadRecord fuel r) (blen (stream o frs)) m rec
    (end_off o frs) (stream (end_off o frs) more).
Proof.
  intros Hrec Hr Hfit Hm Hfuel. pose proof (pending_nonneg r).
  unfold ReadRecord. pose proof Hr as (Hi & _ & Hl & _).
  rewrite Hi. replace (last_record_offset_ r <? 0) with false by lia. simpl.
  set (v := mkLocals [] false 0 []). destruct fuel as [|fuel]; [lia|].
  destruct Hrec as [p|p rest frs Ht]; rewrite <- app_comm_cons in Hr, Hfit;
    rewrite stream_cons_length;
    destruct (read_fragment _ _ _ _ _ _ (fragment v) Hr Hfit Hm)
      as (t' & fr & r1 & E & Hrep & Hres);
    set (a := blen (pad o) + kHeaderSize + blen p) in *;
    (destruct (Z.leb_spec a m) as [Ha|Ha];
      [destruct Hres as (-> & -> & Hr1)
      |subst t'; eapply record_result_eof; [lia|lia|apply blen_nonneg|done|done]]);
    pose proof Hr1 as (_ & Hsync & _);
    destruct (ReadPhysicalRecord_less _ _ _ _ _ E) as [|Hp]; try done.
  - cbn [ReadRecord_loop]. unfold ReadRecord_step. rewrite E, Hsync. simpl.
    rewrite blen_nil, Z.add_0_r. do 2 eexists. split; [done|]. split; [done|].
    replace (a <=? m) with true by lia. split; [done|].
    split; [apply reading_set_last; [done|apply u64_range]|exact Hp].
  - cbn [ReadRecord_loop]. unfold ReadRecord_step. rewrite E, Hsync. simpl.
    apply (record_result_shift r r1); [apply blen_nonneg|done|done|done|].
    eapply (read_tail rest frs Ht more fuel r1 (mkLocals p true _ p));
      [done|apply Hfit|lia|done|apply u64_range|lia].
Qed.

(** Reading record after record, with nothing reported on the way. *)
Inductive ReadSteps : nat -> Reader F -> list bytes -> Reader F -> Prop :=
  | RS_end fuel r r' : ReadRecord (S fuel) r = Some (None, r') -> reports r' = reports r ->
      ReadSteps (S fuel) r [] r'
  | RS_step fuel r rec r1 recs r' : ReadRecord (S fuel) r = Some (Some rec, r1) ->
      reports r1 = reports r -> ReadSteps fuel r1 recs r' -> ReadSteps (S fuel) r (rec :: recs) r'.

Lemma ReadSteps_ReadAll fuel r recs r' : ReadSteps fuel r recs r' ->
  ReadAll fuel r = Some (recs, r') /\ reports r' = reports r.
Proof.
  induction 1 as [fuel r r' E Hr|fuel r rec r1 recs r' E Hr _ [IH1 IH2]]; cbn [ReadAll]; rewrite E.
  - done.
  - rewrite IH1. split; [done|congruence].
Qed.

Lemma read_steps recs frss : log_of recs frss -> forall fuel r o m,
  reading r o (btake m (stream o (concat frss))) -> fits o (concat frss) -> 0 <= m ->
  pending r < Z.of_nat fuel ->
  exists k r', ReadSteps fuel r (take k recs) r' /\
    (k <= length recs)%nat /\ blen (stream o (concat (take k frss))) <= m /\
    ((k < length recs)%nat -> m < blen (stream o (concat (take (S k) frss)))).
Proof.
  induction 1 as [|rec frs recs frss Hrec Hrecs IH]; intros fuel r o m Hr Hfit Hm Hfuel;
    pose proof (pending_nonneg r); (destruct fuel as [|fuel]; [lia|]).
  - simpl in Hr. unfold btake in Hr. rewrite take_nil in Hr.
    destruct (read_end r o [] Hr) as (r1 & E & Hrep).
    destruct (ReadRecord_step_eof r (mkLocals [] false 0 []) _ _ E) as (r2 & E2 & Hrep2).
    pose proof Hr as (Hi & _ & Hl & _).
    exists 0%nat, r2. split; [|simpl; rewrite blen_nil; lia]. apply RS_end; [|congruence].
    unfold ReadRecord. rewrite Hi.
    replace (last_record_offset_ r <? 0) with false by lia. simpl. by rewrite E2.
  - simpl in Hr, Hfit.
    destruct (read_record rec frs (concat frss) (S fuel) r o m Hrec Hr Hfit Hm Hfuel)
      as (res & r1 & E & Hrep & Hres).
    apply fits_app in Hfit as [Hf1 Hf2].
    destruct (Z.leb_spec (blen (stream o frs)) m) as [Ha|Ha].
    + destruct Hres as (-> & Hr1 & Hp).
      destruct (IH fuel r1 (end_off o frs) (m - blen (stream o frs)) Hr1 Hf2 ltac:(lia) ltac:(lia))
        as (k & r2 & E2 & Hk & Hlo & Hhi).
      exists (S k), r2. split; [by eapply RS_step|].
      split; [simpl; lia|]. rewrite !firstn_cons. cbn [concat length].
      rewrite !stream_app, !blen_app. split; lia.
    + subst res. exists 0%nat, r1. split; [by apply RS_end|].
      simpl. rewrite app_nil_r. rewrite (@blen_nil byte). lia.
Qed.

Lemma read_all recs frss : log_of recs frss -> forall fuel r o m,
  reading r o (btake m (stream o (concat frss))) -> fits o (concat frss) -> 0 <= m ->
  pending r < Z.of_nat fuel ->
  exists k r', ReadAll fuel r = Some (take k recs, r') /\ reports r' = reports r /\
    (k <= length recs)%nat /\ blen (stream o (concat (take k frss))) <= m /\
    ((k < length recs)%nat -> m < blen (stream o (concat (take (S k) frss)))).
Proof.
  intros Hl fuel r o m Hr Hf Hm Hfuel.
  destruct (read_steps recs frss Hl fuel r o m Hr Hf Hm Hfuel) as (k & r' & Hs & Hrest).
  apply ReadSteps_ReadAll in Hs as [E Hrep]. eauto 7.
Qed.

(** ** Termination on any file *)

Lemma pending_set_resyncing c b r : unread c (set_resyncing b r) = unread c r.
Proof. done. Qed.

Lemma pending_set_last c z r : unread c (set_last_record z r) = unread c r.
Proof. done. Qed.

Lemma ReadRecord_step_pending c r v : 0 <= c ->
  match ReadRecord_step r v with
  | inl (None, r') => unread c r' <= unread c r
  | inl (Some _, r') | inr (r', _) => unread c r' + kHeaderSize <= unread c r
  end.
Proof.
  intros Hc0. unfold ReadRecord_step.
  destruct (ReadPhysicalRecord r (fragment v)) as [[t fr] r1] eqn:E.
  apply (ReadPhysicalRecord_pending c) in E as [Hle Hlt]; [|done].
  cbv zeta. set (r2 := if resyncing_ r1 && negb (t =? kMiddleType) then _ else r1).
  assert (Hr2 : unread c r2 = unread c r1) by (unfold r2; by destruct (_ && _)).
  clearbody r2. destruct Hlt as [->|Hlt].
  - simpl. rewrite andb_false_r. simpl. lia.
  - repeat match goal with
    | |- context [if ?b then _ else _] => destruct b
    end; rewrite ?pending_set_last, ?pending_ReportCorruption, ?Hr2; lia.
Qed.

(** A call for a record ends, and a record takes the bytes of a header at least. *)
Definition consumes (res : option bytes) r r' : Prop :=
  forall c, 0 <= c -> unread c r' <= unread c r /\ (res = None \/ unread c r' + kHeaderSize <= unread c r).

Lemma ReadRecord_loop_total fuel : forall r v, pending r < Z.of_nat fuel ->
  exists res r', ReadRecord_loop fuel r v = Some (res, r') /\ consumes res r r'.
Proof.
  induction fuel as [|fuel IH]; intros r v Hf; pose proof (pending_nonneg r); [lia|].
  simpl. pose proof (fun c => ReadRecord_step_pending c r v) as Hs.
  destruct (ReadRecord_step r v) as [[[rec|] r1]|[r1 v1]].
  - exists (Some rec), r1. split; [done|]. intros c Hc. specialize (Hs c Hc). log_consts. lia.
  - exists None, r1. split; [done|]. intros c Hc. auto.
  - destruct (IH r1 v1) as (res & r2 & E & Hc); [specialize (Hs 1); log_consts; lia|].
    exists res, r2. split; [done|]. intros c Hc0. specialize (Hs c Hc0). specialize (Hc c Hc0). log_consts. lia.
Qed.

Lemma SkipToInitialBlock_pending c r : unread c (snd (SkipToInitialBlock r)) <= unread c r.
Proof.
  unfold SkipToInitialBlock. cbv zeta.
  match goal with |- context [set_end_of_buffer ?x _] => set (b := x) end. clearbody b.
  destruct (Z.ltb_spec 0 b); [|done]. simpl.
  destruct (sSkip_ok (file_ r) b) as (f & E & Hf); [lia|].
  rewrite E. simpl. unfold unread. simpl. rewrite Hf. destruct (eof_ r); [done|].
  rewrite <- (btake_bdrop b (scontents (file_ r))) at 2. rewrite blen_app.
  pose proof (blen_nonneg (btake b (scontents (file_ r)))). lia.
Qed.

Lemma ReadRecord_total fuel r : pending r < Z.of_nat fuel ->
  exists res r', ReadRecord fuel r = Some (res, r') /\ consumes res r r'.
Proof.
  intros Hf. unfold ReadRecord.
  assert (Hskip : forall b r1,
    (if last_record_offset_ r <? initial_offset_ r then SkipToInitialBlock r else (true, r)) =
      (b, r1) -> forall c, unread c r1 <= unread c r).
  { intros b r1. pose proof (fun c => SkipToInitialBlock_pending c r) as Hp. destruct (_ <? _).
    - intros E. by rewrite E in Hp.
    - intros [= <- <-]. done. }
  destruct (if _ <? _ then _ else _) as [b r1]. specialize (Hskip b r1 eq_refl).
  destruct b; simpl.
  - destruct (ReadRecord_loop_total fuel r1 (mkLocals [] false 0 [])) as (res & r2 & E & Hc);
      [specialize (Hskip 1); lia|]. exists res, r2. split; [done|]. intros c Hc0. specialize (Hskip c). specialize (Hc c Hc0). intuition lia.
  - exists None, r1. split; [done|]. intros c _. split; [apply Hskip|by left].
Qed.

Lemma ReadAll_total fuel : forall r, pending r < Z.of_nat fuel ->
  exists recs r', ReadAll fuel r = Some (recs, r') /\ kHeaderSize * blen recs <= unread 0 r.
Proof.
  induction fuel as [|fuel IH]; intros r Hf; pose proof (pending_nonneg r); [lia|].
  destruct (ReadRecord_total _ _ Hf) as (res & r1 & E & Hc).
  destruct (Hc 1) as [Hle Hlt]; [lia|]. destruct (Hc 0) as [Hle0 Hlt0]; [lia|].
  cbn [ReadAll]. rewrite E. destruct res as [rec|].
  2: { exists [], r1. split; [done|]. change (kHeaderSize * blen (@nil bytes)) with 0. unfold unread. pose proof (blen_nonneg (buffer_ r)).
       pose proof (blen_nonneg (scontents (file_ r))). destruct (eof_ r); lia. }
  destruct Hlt as [|Hlt]; [done|]. destruct Hlt0 as [|Hlt0]; [done|]. destruct (IH r1) as (recs & r2 & E2 & Hb); [log_consts; lia|].
  rewrite E2. exists (rec :: recs), r2. split; [done|]. rewrite blen_cons. lia.
Qed.

Lemma newReader_pending c f rep ck off :
  unread c (newReader f rep ck off) = blen (scontents f) + c.
Proof. unfold unread. simpl. by rewrite blen_nil. Qed.

Lemma newReader_reading f rep ck : reading (newReader f rep ck 0) kBlockSize (scontents f).
Proof.
  unfold reading. simpl. rewrite Z.sub_diag. log_consts. by repeat split.
Qed.
End ReaderProofs.

(** * The properties *)

(** The writer's block offset follows the file.  After any list of records
    appended to an empty file, the file's length and [block_offset_] agree
    modulo the block size and the offset is within a block, so that a writer
    reopened on that file with [newWriterAt] (the [reuse_logs] path) lays out
    any further records [more] exactly as the first writer would have. *)
Theorem log_writer_offset {F : Type} `{WritableFileOk F} `{Checksum}
    (f : F) (recs more : list bytes) (Hf : wcontents f = []) :
  let w := AddRecords (newWriter f) recs in
  let len := blen (wcontents (dest_ w)) in
  0 <= block_offset_ w <= kBlockSize /\
  block_offset_ w mod kBlockSize = len mod kBlockSize /\
  wcontents (dest_ (AddRecords (newWriterAt (dest_ w) len) more)) =
    wcontents (dest_ (AddRecords w more)).
Proof.
  cbv zeta.
  destruct (AddRecords_ok recs (newWriter f) (newWriter_range f)) as (frss & _ & Hfit & Hj).
  destruct (Hj (length recs)) as [Hoff Hc]. rewrite firstn_all in Hoff, Hc.
  set (w := AddRecords (newWriter f) recs) in *. simpl in Hoff, Hc, Hfit.
  set (frs := concat (take (length recs) frss)) in *.
  assert (Hfit' : fits 0 frs).
  { rewrite <- (take_drop (length recs) frss), concat_app in Hfit.
    by apply fits_app in Hfit as [? _]. }
  assert (Hz : 0 <= 0 <= kBlockSize) by done.
  assert (Ho : 0 <= block_offset_ w <= kBlockSize) by (rewrite Hoff; by apply end_off_range).
  assert (Hm : block_offset_ w mod kBlockSize = blen (wcontents (dest_ w)) mod kBlockSize).
  { rewrite Hc, Hf, Hoff. simpl. by rewrite <- stream_length_mod by done. }
  split; [done|]. split; [done|].
  unfold newWriterAt. rewrite <- Hm. by rewrite AddRecords_reopen.
Qed.

(** The witnesses run the translated CRC on buffers at address 0. *)
#[local] Instance sample_checksum : Checksum := crc32c_checksum 0.

(** A 40000-byte record, which spans two blocks, between two short ones. *)
Definition sample_records : list bytes :=
  [str "foo"; replicate (Z.to_nat 40000) Byte.x61; str "bar"].

Lemma log_writer_offset_witness :
  let w := AddRecords (newWriter (F := flat_file) []) sample_records in
  block_offset_ w = 40034 - kBlockSize /\
  block_offset_ w mod kBlockSize = blen (wcontents (dest_ w)) mod kBlockSize.
Proof.
  cbv zeta. split; [vm_compute; reflexivity|].
  exact (proj1 (proj2 (log_writer_offset (F := flat_file) [] sample_records [] eq_refl))).
Defined.

(** C1: crash consistency of the log.  Write any records to an empty file, keep
    only the first [n] bytes of it (a crash may lose any suffix), and read the
    result with [log::Reader] through any file that returns those bytes: the
    reader stops after exactly the records whose bytes are all among the first
    [n] (the longest such prefix), and reports no corruption.  With [n] at least
    the file's length this is the round trip: every record is read back. *)
Theorem log_crash_roundtrip {F R : Type} `{WritableFileOk F} `{SequentialFileOk R} `{Checksum}
    (f : F) (recs : list bytes) (n : Z) (g : R) (reporter checksum : bool) (fuel : nat)
    (Hf : wcontents f = [])
    (Hn : 0 <= n)
    (Hg : scontents g = btake n (wcontents (dest_ (AddRecords (newWriter f) recs))))
    (Hfuel : blen (scontents g) + 1 < Z.of_nat fuel) :
  let written j := blen (wcontents (dest_ (AddRecords (newWriter f) (take j recs)))) in
  exists k r, ReadAll fuel (newReader g reporter checksum 0) = Some (take k recs, r) /\
    reports r = [] /\ (k <= length recs)%nat /\ written k <= n /\
    ((k < length recs)%nat -> n < written (S k)).
Proof.
  cbv zeta.
  destruct (AddRecords_ok recs (newWriter f) (newWriter_range f)) as (frss & Hlog & Hfit & Hj).
  assert (Hlen : length frss = length recs) by (symmetry; by eapply Forall2_length).
  simpl in Hfit.
  assert (Hall : wcontents (dest_ (AddRecords (newWriter f) recs)) = stream 0 (concat frss)).
  { destruct (Hj (length recs)) as [_ Hc]. rewrite firstn_all, <- Hlen, firstn_all in Hc. simpl in Hc. by rewrite Hf in Hc. }
  destruct (read_all recs frss Hlog fuel (newReader g reporter checksum 0) kBlockSize n)
    as (k & r & E & Hrep & Hk & Hlo & Hhi).
  - rewrite stream_full, <- Hall, <- Hg. apply newReader_reading.
  - destruct (concat frss) as [|[t pl] ?]; done.
  - done.
  - by rewrite newReader_pending.
  - exists k, r. split; [done|]. split; [done|]. split; [done|].
    rewrite !stream_full in *.
    destruct (Hj k) as [_ ->]. destruct (Hj (S k)) as [_ ->]. simpl. by rewrite Hf.
Qed.

(** Two records, the second cut one byte short: the first is read. *)
Lemma log_crash_roundtrip_witness :
  let recs := [str "foo"; str "barbaz"] in
  let w := dest_ (AddRecords (newWriter (F := flat_file) []) recs) in
  exists k r,
    ReadAll 30 (newReader (F := flat_file) (btake 22 w) true true 0) = Some (take k recs, r) /\
    k = 1%nat /\ reports r = [].
Proof.
  cbv zeta.
  destruct (log_crash_roundtrip (F := flat_file) (R := flat_file)
    (H0 := flat_writable_ok) (H2 := flat_sequential_ok) [] [str "foo"; str "barbaz"] 22
    (btake 22 (dest_ (AddRecords (newWriter (F := flat_file) []) [str "foo"; str "barbaz"])))
    true true 30) as (k & r & E & Hrep & Hk & Hlo & Hhi);
    [reflexivity|lia|reflexivity|vm_compute; reflexivity|].
  exists k, r. split; [exact E|]. split; [|exact Hrep].
  destruct k as [|[|k]]; [|done|].
  - exfalso. specialize (Hhi ltac:(vm_compute; lia)). revert Hhi. vm_compute. discriminate.
  - exfalso. simpl in Hk. destruct k as [|k]; [|lia].
    revert Hlo; vm_compute; by intros Hlo; apply Hlo.
Defined.

(** C38: the reader terminates on any file, whatever bytes it holds (corrupted
    headers and lengths included) and from any initial offset: once the fuel
    exceeds the file's length, [ReadAll] returns, with at most one record per
    [kHeaderSize] (seven) bytes of the file, the size of the header that every
    record has. *)
Theorem log_reader_total {R : Type} `{SequentialFileOk R} `{Checksum}
    (g : R) (reporter checksum : bool) (initial_offset : Z) (fuel : nat)
    (Hfuel : blen (scontents g) + 1 < Z.of_nat fuel) :
  exists recs r, ReadAll fuel (newReader g reporter checksum initial_offset) = Some (recs, r) /\
    kHeaderSize * blen recs <= blen (scontents g).
Proof.
  destruct (ReadAll_total fuel (newReader g reporter checksum initial_offset))
    as (recs & r & E & Hb); rewrite newReader_pending in *; [done|]. rewrite Z.add_0_r in Hb. eauto.
Qed.

Lemma log_reader_total_witness :
  exists recs r, ReadAll 12 (newReader (F := flat_file) (str "not a log!") true true 0) =
    Some (recs, r) /\ kHeaderSize * blen recs <= 10.
Proof. exact (log_reader_total (R := flat_file) (str "not a log!") true true 0 12 eq_refl). Defined.

(** * The records of a log file *)

Section LogFile.
Context {F : Type} `{HF : WritableFileOk F} `{Hck : !Checksum}.

(** The file of the writer holds the records [recs], laid out as [frss]. *)
Record log_holds (w : Writer F) (frss : list (list (Z * bytes))) (recs : list bytes) : Prop := {
  lh_log : log_of recs frss;
  lh_fits : fits 0 (concat frss);
  lh_offset : block_offset_ w = end_off 0 (concat frss);
  lh_contents : wcontents (dest_ w) = stream 0 (concat frss);
}.

Lemma log_holds_new (f : F) : wcontents f = [] -> log_holds (newWriter f) [] [].
Proof. intros E. split; [constructor|done|done|exact E]. Qed.

Lemma log_holds_add w frss recs rec : log_holds w frss recs ->
  exists frs w', AddRecord w rec = (OK, w') /\ log_holds w' (frss ++ [frs]) (recs ++ [rec]).
Proof.
  intros [Hl Hf Ho Hc].
  assert (Hr : 0 <= block_offset_ w <= kBlockSize).
  { rewrite Ho. apply end_off_range; [unfold kBlockSize; lia|done]. }
  destruct (AddRecord_ok w rec Hr) as (frs & w' & E & Hrec & Hfr & Hoff & Hcon).
  exists frs, w'. split; [done|]. rewrite Ho in *. split.
  - apply Forall2_app; [done|]. by constructor.
  - rewrite concat_app. simpl. rewrite app_nil_r. by apply fits_app.
  - rewrite concat_app. simpl. rewrite app_nil_r, end_off_app. done.
  - rewrite concat_app. simpl. rewrite app_nil_r, stream_app, <- Hc. done.
Qed.

(** A file that was cut after the first [length frss1] records gives these
    records back, and perhaps some of those after them. *)
Lemma log_holds_read_with {R} `{HR : SequentialFileOk R} reporter checksum w frss1 frss2 recs1 recs2 n (g : R) fuel :
  log_holds w (frss1 ++ frss2) (recs1 ++ recs2) -> length recs1 = length frss1 ->
  blen (stream 0 (concat frss1)) <= n ->
  scontents g = btake n (wcontents (dest_ w)) -> blen (scontents g) + 1 < Z.of_nat fuel ->
  exists k r, (k <= length recs2)%nat /\
    ReadSteps fuel (newReader g reporter checksum 0) (recs1 ++ take k recs2) r.
Proof.
  intros [Hl Hf _ Hc] Hlen Hn Hg Hfuel.
  pose proof (blen_nonneg (stream 0 (concat frss1))) as Hpos.
  destruct (read_steps _ _ Hl fuel (newReader g reporter checksum 0) kBlockSize n) as (k & r & Hs & Hk & _ & Hhi).
  - rewrite stream_full, <- Hc, <- Hg. apply newReader_reading.
  - destruct (concat (frss1 ++ frss2)) as [|[t pl] ?]; done.
  - lia.
  - by rewrite newReader_pending.
  - assert (Hk1 : (length recs1 <= k)%nat).
    { destruct (Nat.le_gt_cases (length recs1) k) as [|Hlt]; [done|]. exfalso.
      assert (Hk2 : (k < length (recs1 ++ recs2))%nat) by (rewrite length_app; lia).
      specialize (Hhi Hk2). rewrite stream_full, take_app_le in Hhi by lia.
      rewrite <- (take_drop (S k) frss1), concat_app, stream_app, blen_app in Hn.
      pose proof (blen_nonneg (stream (end_off 0 (concat (take (S k) frss1))) (concat (drop (S k) frss1)))). lia. }
    rewrite length_app in Hk. rewrite take_app_ge in Hs by done.
    exists (k - length recs1)%nat, r. split; [lia|done].
Qed.

Lemma log_holds_read {R} `{HR : SequentialFileOk R} w frss1 frss2 recs1 recs2 n (g : R) fuel :
  log_holds w (frss1 ++ frss2) (recs1 ++ recs2) -> length recs1 = length frss1 ->
  blen (stream 0 (concat frss1)) <= n ->
  scontents g = btake n (wcontents (dest_ w)) -> blen (scontents g) + 1 < Z.of_nat fuel ->
  exists k r, (k <= length recs2)%nat /\
    ReadSteps fuel (newReader g true true 0) (recs1 ++ take k recs2) r.
Proof. apply log_holds_read_with. Qed.
End LogFile.
