(* ===== verification/Comparator.v ===== *)
(** include/leveldb/slice.h (comparison), include/leveldb/comparator.h and
    util/comparator.cc: the ordering of keys.  [Comparator] is the interface;
    [ComparatorOk] states what its clients (internal keys, memtables, tables,
    the version set) rely on; the bytewise comparator is proved to meet it. *)

From S2P Require Import Prelude.
From Stdlib Require Import Strings.Byte.
From stdpp Require Import base list.

#[local] Open Scope Z_scope.

(** * Slices *)

(** [memcmp] on two buffers of the same length: only the sign of the result is
    specified, here it is the difference of the first bytes that differ. *)
Fixpoint memcmp (a b : bytes) : Z :=
  match a, b with
  | x :: a', y :: b' => if bz x =? bz y then memcmp a' b' else bz x - bz y
  | _, _ => 0
  end.

(** [Slice::compare]. *)
Definition slice_compare (a b : bytes) : Z :=
  let min_len := if blen a <? blen b then blen a else blen b in
  let r := memcmp (btake min_len a) (btake min_len b) in
  if r =? 0 then
    if blen a <? blen b then -1 else if blen b <? blen a then 1 else r
  else r.

(** [operator==] on slices and [Slice::starts_with]. *)
Definition slice_eqb (a b : bytes) : bool := (blen a =? blen b) && (memcmp a b =? 0).
Definition starts_with (a x : bytes) : bool :=
  (blen x <=? blen a) && (memcmp (btake (blen x) a) x =? 0).

(** * The interface *)

Class Comparator := {
  Compare : bytes -> bytes -> Z;
  FindShortestSeparator : bytes -> bytes -> bytes;
  FindShortSuccessor : bytes -> bytes;
}.

(** A total order (up to keys that compare equal), and the two shortening
    operations return a key of the documented interval. *)
Class ComparatorOk `{Comparator} := {
  cmp_antisym a b : Compare a b < 0 <-> 0 < Compare b a;
  cmp_le_trans a b c : Compare a b <= 0 -> Compare b c <= 0 -> Compare a c <= 0;
  separator_ok start limit : Compare start limit < 0 ->
    Compare start (FindShortestSeparator start limit) <= 0 /\
    Compare (FindShortestSeparator start limit) limit < 0;
  separator_noop start limit : 0 <= Compare start limit ->
    FindShortestSeparator start limit = start;
  successor_ok key : Compare key (FindShortSuccessor key) <= 0;
}.

Section Order.
Context `{ComparatorOk}.

#[export] Instance Compare_total : TotalCompare Compare.
Proof. split; [apply cmp_antisym|apply cmp_le_trans]. Qed.

Lemma cmp_refl a : Compare a a = 0.
Proof. exact (tc_refl Compare a). Qed.

Lemma cmp_eq_sym a b : Compare a b = 0 -> Compare b a = 0.
Proof. exact (tc_eq_sym Compare a b). Qed.

Lemma cmp_flip_le a b : Compare a b <= 0 <-> 0 <= Compare b a.
Proof. exact (tc_flip_le Compare a b). Qed.

Lemma cmp_lt_le_trans a b c : Compare a b < 0 -> Compare b c <= 0 -> Compare a c < 0.
Proof. exact (tc_lt_le_trans Compare a b c). Qed.

Lemma cmp_le_lt_trans a b c : Compare a b <= 0 -> Compare b c < 0 -> Compare a c < 0.
Proof. exact (tc_le_lt_trans Compare a b c). Qed.

Lemma cmp_lt_trans a b c : Compare a b < 0 -> Compare b c < 0 -> Compare a c < 0.
Proof. exact (tc_lt_trans Compare a b c). Qed.

Lemma cmp_eq_trans a b c : Compare a b = 0 -> Compare b c = 0 -> Compare a c = 0.
Proof. exact (tc_eq_trans Compare a b c). Qed.

Lemma cmp_nlt a b : ~ Compare a b < 0 <-> Compare b a <= 0.
Proof. rewrite cmp_flip_le. lia. Qed.

Lemma cmp_gt a b : 0 < Compare a b <-> Compare b a < 0.
Proof. by rewrite cmp_antisym. Qed.
End Order.

(** * [BytewiseComparatorImpl] *)

(** The [while] loop that finds the length of the common prefix. *)
Fixpoint diff_index_loop (start limit : bytes) : nat :=
  match start, limit with
  | x :: start', y :: limit' =>
      if bool_decide (x = y) then S (diff_index_loop start' limit') else O
  | _, _ => O
  end.

Definition bytewise_separator (start limit : bytes) : bytes :=
  let min_length := Z.min (blen start) (blen limit) in
  let diff_index := Z.of_nat (diff_index_loop start limit) in
  if min_length <=? diff_index then start
  else
    let diff_byte := bz (byte_at start diff_index) in
    if (diff_byte <? 255) && (diff_byte + 1 <? bz (byte_at limit diff_index)) then
      bresize (diff_index + 1)
        (btake diff_index start ++ [zb (diff_byte + 1)] ++ bdrop (diff_index + 1) start)
    else start.

(** The [for] loop over the bytes; [done_] is the part already passed. *)
Fixpoint successor_loop (done_ rest key : bytes) : bytes :=
  match rest with
  | [] => key
  | b :: rest' =>
      if negb (bz b =? 255) then bresize (blen done_ + 1) (done_ ++ zb (bz b + 1) :: rest')
      else successor_loop (done_ ++ [b]) rest' key
  end.

Definition bytewise_successor (key : bytes) : bytes := successor_loop [] key key.

#[export] Instance BytewiseComparator : Comparator := {|
  Compare := slice_compare;
  FindShortestSeparator := bytewise_separator;
  FindShortSuccessor := bytewise_successor;
|}.

(** ** The bytewise order is lexicographic *)

Fixpoint lex (a b : bytes) : Z :=
  match a, b with
  | [], [] => 0
  | [], _ => -1
  | _, [] => 1
  | x :: a', y :: b' => if bz x =? bz y then lex a' b' else bz x - bz y
  end.

Lemma slice_compare_nil_l b : slice_compare [] b = match b with [] => 0 | _ => -1 end.
Proof. unfold slice_compare. destruct b as [|y b]; [done|]. rewrite (@blen_nil byte), blen_cons.
  pose proof (blen_nonneg b). by replace (0 <? 1 + blen b) with true by lia. Qed.

Lemma slice_compare_nil_r a : slice_compare a [] = match a with [] => 0 | _ => 1 end.
Proof. unfold slice_compare. destruct a; [done|]. rewrite (@blen_nil byte), blen_cons.
  pose proof (blen_nonneg a). replace (1 + blen a <? 0) with false by lia.
  by replace (0 <? 1 + blen a) with true by lia. Qed.

Lemma btake_succ {A} n (x : A) l : 0 <= n -> btake (1 + n) (x :: l) = x :: btake n l.
Proof. intros. unfold btake. by rewrite Z2Nat.inj_add by lia. Qed.

Lemma slice_compare_cons x y a b :
  slice_compare (x :: a) (y :: b) = if bz x =? bz y then slice_compare a b else bz x - bz y.
Proof.
  unfold slice_compare. rewrite !blen_cons.
  pose proof (blen_nonneg a). pose proof (blen_nonneg b).
  replace (1 + blen a <? 1 + blen b) with (blen a <? blen b) by lia.
  replace (1 + blen b <? 1 + blen a) with (blen b <? blen a) by lia.
  assert (Hm : (if blen a <? blen b then 1 + blen a else 1 + blen b) =
               1 + (if blen a <? blen b then blen a else blen b)) by (bcase; done).
  rewrite Hm, !btake_succ by (bcase; lia). cbn [memcmp].
  destruct (Z.eqb_spec (bz x) (bz y)); [done|]. by replace (bz x - bz y =? 0) with false by lia.
Qed.

Lemma slice_compare_lex a : forall b, slice_compare a b = lex a b.
Proof.
  induction a as [|x a IH]; intros b; [by rewrite slice_compare_nil_l; destruct b|].
  destruct b as [|y b]; [by rewrite slice_compare_nil_r|].
  rewrite slice_compare_cons, IH. done.
Qed.

Lemma lex_antisym a : forall b, lex a b < 0 <-> 0 < lex b a.
Proof.
  induction a as [|x a IH]; intros [|y b]; simpl; [lia..|].
  rewrite (Z.eqb_sym (bz y)). bcase; [apply IH|lia].
Qed.

Lemma lex_le_trans a : forall b c, lex a b <= 0 -> lex b c <= 0 -> lex a c <= 0.
Proof.
  induction a as [|x a IH]; intros [|y b] [|z c]; simpl; try lia.
  destruct (Z.eqb_spec (bz x) (bz y)), (Z.eqb_spec (bz y) (bz z)), (Z.eqb_spec (bz x) (bz z));
    try lia. apply IH.
Qed.

Lemma lex_zero a : forall b, lex a b = 0 <-> a = b.
Proof.
  induction a as [|x a IH]; intros [|y b]; simpl; [done..|]. destruct (Z.eqb_spec (bz x) (bz y)) as [E|E].
  - rewrite IH. apply bz_inj in E. subst y. split; [by intros ->|by intros [= ->]].
  - split; [lia|]. intros [= -> ->]. done.
Qed.

(** ** Shortening *)

Lemma lex_app p a b : lex (p ++ a) (p ++ b) = lex a b.
Proof. induction p as [|x p IH]; simpl; [done|]. by rewrite Z.eqb_refl. Qed.

Lemma bresize_le n l : 0 <= n <= blen l -> bresize n l = btake n l.
Proof.
  intros. unfold bresize, blen in *.
  replace (Z.to_nat n - length l)%nat with 0%nat by lia. apply app_nil_r.
Qed.

(** Cutting after the byte that follows a prefix. *)
Lemma bresize_after p z l : bresize (blen p + 1) (p ++ z :: l) = p ++ [z].
Proof.
  pose proof (blen_nonneg p). pose proof (blen_nonneg l).
  rewrite bresize_le by (rewrite blen_app, blen_cons; lia).
  change (p ++ z :: l) with (p ++ [z] ++ l). rewrite app_assoc.
  apply btake_app_n. by rewrite blen_app.
Qed.

Lemma diff_index_spec start : forall limit,
  Z.min (blen start) (blen limit) <= Z.of_nat (diff_index_loop start limit) \/
  exists p x s y l, start = p ++ x :: s /\ limit = p ++ y :: l /\ bz x <> bz y /\
    diff_index_loop start limit = length p.
Proof.
  induction start as [|x start IH]; intros [|y limit]; simpl;
    [left; rewrite ?(@blen_nil byte); unfold blen; lia..|].
  case_bool_decide as E.
  - subst y. destruct (IH limit) as [Hl|(p & x' & s & y' & l & -> & -> & Hne & Hp)].
    + left. rewrite !blen_cons. lia.
    + right. exists (x :: p), x', s, y', l. rewrite Hp. done.
  - right. exists [], x, start, y, limit. repeat split.
    intros Hb. by apply bz_inj in Hb.
Qed.

Lemma bytewise_separator_cases start limit :
  bytewise_separator start limit = start \/
  exists p x s y l, start = p ++ x :: s /\ limit = p ++ y :: l /\ bz x + 1 < bz y /\
    bytewise_separator start limit = p ++ [zb (bz x + 1)].
Proof.
  unfold bytewise_separator. cbv zeta. destruct (Z.leb_spec (Z.min (blen start) (blen limit)) (Z.of_nat (diff_index_loop start limit)));
    [by left|].
  destruct (diff_index_spec start limit) as [Hl|(p & x & s & y & l & -> & -> & Hne & Hp)];
    [lia|]. rewrite Hp in *. fold (blen p).
  assert (Hat : forall z k, byte_at (p ++ z :: k) (blen p) = z).
  { intros z k. rewrite byte_at_app_r, Z.sub_diag by lia. done. }
  rewrite !Hat. destruct (_ && _) eqn:E; [|by left]. apply andb_prop in E as [_ E].
  right. exists p, x, s, y, l. repeat split; [lia|].
  rewrite btake_app. change ([?a] ++ ?b) with (a :: b). apply bresize_after.
Qed.

Lemma successor_loop_spec rest : forall done_,
  lex (done_ ++ rest) (successor_loop done_ rest (done_ ++ rest)) <= 0.
Proof.
  induction rest as [|b rest IH]; intros done_; simpl.
  { rewrite (proj2 (lex_zero _ _)); done. }
  destruct (Z.eqb_spec (bz b) 255) as [E|E]; simpl.
  - specialize (IH (done_ ++ [b])). rewrite <- !app_assoc in IH. exact IH.
  - rewrite bresize_after, lex_app. simpl. pose proof (bz_range b).
    rewrite bz_zb_small by lia. replace (bz b =? bz b + 1) with false by lia. lia.
Qed.

#[export] Instance BytewiseComparator_ok : ComparatorOk.
Proof.
  split; simpl.
  - intros a b. rewrite !slice_compare_lex. apply lex_antisym.
  - intros a b c. rewrite !slice_compare_lex. apply lex_le_trans.
  - intros a l. rewrite !slice_compare_lex. intros Hlt.
    destruct (bytewise_separator_cases a l) as [->|(p & x & s & y & k & -> & -> & Hb & ->)].
    + rewrite (proj2 (lex_zero a a)) by done. lia.
    + rewrite !lex_app. simpl. pose proof (bz_range x). pose proof (bz_range y).
      rewrite bz_zb_small by lia. replace (bz x =? bz x + 1) with false by lia.
      replace (bz x + 1 =? bz y) with false by lia. lia.
  - intros a l. rewrite slice_compare_lex. intros Hge.
    destruct (bytewise_separator_cases a l) as [->|(p & x & s & y & k & -> & -> & Hb & _)]; [done|].
    rewrite lex_app in Hge. simpl in Hge. destruct (Z.eqb_spec (bz x) (bz y)); lia.
  - intros k. rewrite slice_compare_lex. apply (successor_loop_spec k []).
Qed.

Lemma slice_compare_zero a b : slice_compare a b = 0 <-> a = b.
Proof. rewrite slice_compare_lex. apply lex_zero. Qed.

(** The bytewise comparator is the lexicographic total order on bytes read
    as unsigned (comparing equal only to itself), and its two shortening
    operations stay in the documented intervals: a separator of [a < b] is in
    [a, b) and no longer than [a], a successor of [a] is at least [a]. *)
Theorem bytewise_comparator_correct (a b c : bytes) :
  (slice_compare a b < 0 <-> 0 < slice_compare b a) /\
  (slice_compare a b = 0 <-> a = b) /\
  (slice_compare a b < 0 -> slice_compare b c < 0 -> slice_compare a c < 0) /\
  (slice_compare a b < 0 ->
     slice_compare a (bytewise_separator a b) <= 0 /\
     slice_compare (bytewise_separator a b) b < 0) /\
  slice_compare a (bytewise_successor a) <= 0 /\
  blen (bytewise_separator a b) <= blen a.
Proof.
  change slice_compare with (@Compare BytewiseComparator).
  split; [apply cmp_antisym|]. split; [apply slice_compare_zero|].
  split; [apply cmp_lt_trans|]. split; [apply (separator_ok (H := BytewiseComparator) a b)|].
  split; [apply (successor_ok (H := BytewiseComparator) a)|].
  destruct (bytewise_separator_cases a b) as [->|(p & x & s & y & k & -> & -> & _ & ->)]; [lia|].
  rewrite !blen_app, !blen_cons. pose proof (blen_nonneg s). rewrite (@blen_nil byte). lia.
Qed.

(** * Equality tests *)

Lemma memcmp_refl a : memcmp a a = 0.
Proof. induction a as [|x a IH]; simpl; [done|]. by rewrite Z.eqb_refl. Qed.

Lemma memcmp_zero a : forall b, length a = length b -> memcmp a b = 0 -> a = b.
Proof.
  induction a as [|x a IH]; intros [|y b]; simpl; try done.
  intros [= Hl]. destruct (Z.eqb_spec (bz x) (bz y)) as [E|E]; [|lia].
  intros Hm. apply bz_inj in E. by rewrite E, (IH b).
Qed.

Lemma slice_eqb_spec a b : slice_eqb a b = true <-> a = b.
Proof.
  unfold slice_eqb. rewrite andb_true_iff, !Z.eqb_eq. unfold blen. split.
  - intros [Hl Hm]. apply memcmp_zero; [lia|done].
  - intros ->. by rewrite memcmp_refl.
Qed.

Lemma starts_with_spec a x : starts_with a x = true <-> exists k, a = x ++ k.
Proof.
  unfold starts_with. rewrite andb_true_iff, Z.leb_le, Z.eqb_eq. split.
  - intros [Hl Hm]. exists (bdrop (blen x) a). rewrite <- (btake_bdrop (blen x) a) at 1.
    f_equal. apply memcmp_zero; [|done]. pose proof (blen_btake (blen x) a) as Hb.
    pose proof (blen_nonneg x). unfold blen in *. lia.
  - intros [k ->]. rewrite btake_app, memcmp_refl, blen_app. pose proof (blen_nonneg k). lia.
Qed.
