(* ===== verification/DbFormat.v ===== *)
(** db/dbformat.{h,cc}: internal keys.  A user key is stored with an eight-byte
    tag packing a 56-bit sequence number and a value type; internal keys are
    ordered by user key, then by decreasing tag, so that the newest entry of a
    user key comes first and a lookup at a snapshot is one seek. *)

From S2P Require Import Prelude Coding Logging Comparator.
From Stdlib Require Import Strings.Byte.
From stdpp Require Import base list strings.

#[local] Open Scope Z_scope.

(** * Constants ([namespace config]) *)

Definition kNumLevels : Z := 7.
Definition kL0_CompactionTrigger : Z := 4.
Definition kL0_SlowdownWritesTrigger : Z := 8.
Definition kL0_StopWritesTrigger : Z := 12.
Definition kMaxMemCompactLevel : Z := 2.
Definition kReadBytesPeriod : Z := 1048576.

(** * Value types and tags *)

Inductive ValueType := kTypeDeletion | kTypeValue.

#[export] Instance ValueType_eq_dec : EqDecision ValueType.
Proof. solve_decision. Defined.

(** The enumerator's value, and [static_cast<ValueType>] where it names one. *)
Definition vt_num (t : ValueType) : Z := match t with kTypeDeletion => 0 | kTypeValue => 1 end.
Definition vt_of (c : Z) : option ValueType :=
  if c =? 0 then Some kTypeDeletion else if c =? 1 then Some kTypeValue else None.

Definition kValueTypeForSeek : ValueType := kTypeValue.
Definition kMaxSequenceNumber : Z := Z.shiftl 1 56 - 1.

Definition PackSequenceAndType (seq : Z) (t : ValueType) : Z :=
  Z.lor (u64 (Z.shiftl seq 8)) (vt_num t).

(** * Internal keys *)

Record ParsedInternalKey := mkParsed { user_key : bytes; sequence : Z; type : ValueType }.

#[export] Instance ParsedInternalKey_eq_dec : EqDecision ParsedInternalKey.
Proof. solve_decision. Defined.

Definition InternalKeyEncodingLength (key : ParsedInternalKey) : Z := blen (user_key key) + 8.

Definition AppendInternalKey (result : bytes) (key : ParsedInternalKey) : bytes :=
  PutFixed64 (result ++ user_key key) (PackSequenceAndType (sequence key) (type key)).

(** [InternalKey(user_key, s, t)]: its [rep_]. *)
Definition mkInternalKey (user_key : bytes) (s : Z) (t : ValueType) : bytes :=
  AppendInternalKey [] (mkParsed user_key s t).

Definition ExtractUserKey (internal_key : bytes) : bytes :=
  btake (blen internal_key - 8) internal_key.

(** The tag, as [DecodeFixed64(data + size - 8)]. *)
Definition ExtractTag (internal_key : bytes) : Z :=
  DecodeFixed64 (bdrop (blen internal_key - 8) internal_key).

(** [None] is [return false], after which the result is undefined. *)
Definition ParseInternalKey (internal_key : bytes) : option ParsedInternalKey :=
  let n := blen internal_key in
  if n <? 8 then None
  else
    let num := DecodeFixed64 (bdrop (n - 8) internal_key) in
    let c := Z.land num 255 in
    match vt_of c with
    | Some t => Some (mkParsed (btake (n - 8) internal_key) (Z.shiftr num 8) t)
    | None => None
    end.

Definition ParsedInternalKey_DebugString (k : ParsedInternalKey) : bytes :=
  str "'" ++ EscapeString (user_key k) ++ str "' @ " ++ decimal (sequence k) ++
  str " : " ++ decimal (vt_num (type k)).

Definition InternalKey_DebugString (rep : bytes) : bytes :=
  match ParseInternalKey rep with
  | Some parsed => ParsedInternalKey_DebugString parsed
  | None => str "(bad)" ++ EscapeString rep
  end.

(** * [InternalKeyComparator]

    The model is total: on a key of less than eight bytes, which the source
    excludes by an assertion, it compares the empty user key and whatever tag
    the bytes give. *)

Section InternalKeyComparator.
Variable user_comparator_ : Comparator.

Definition InternalKey_Compare (akey bkey : bytes) : Z :=
  let r := Compare (ExtractUserKey akey) (ExtractUserKey bkey) in
  if r =? 0 then
    let anum := ExtractTag akey in
    let bnum := ExtractTag bkey in
    if bnum <? anum then -1 else if anum <? bnum then 1 else r
  else r.

Definition InternalKey_FindShortestSeparator (start limit : bytes) : bytes :=
  let user_start := ExtractUserKey start in
  let user_limit := ExtractUserKey limit in
  let tmp := FindShortestSeparator user_start user_limit in
  if (blen tmp <? blen user_start) && (Compare user_start tmp <? 0) then
    PutFixed64 tmp (PackSequenceAndType kMaxSequenceNumber kValueTypeForSeek)
  else start.

Definition InternalKey_FindShortSuccessor (key : bytes) : bytes :=
  let user_key := ExtractUserKey key in
  let tmp := FindShortSuccessor user_key in
  if (blen tmp <? blen user_key) && (Compare user_key tmp <? 0) then
    PutFixed64 tmp (PackSequenceAndType kMaxSequenceNumber kValueTypeForSeek)
  else key.

Definition InternalKeyComparator : Comparator := {|
  Compare := InternalKey_Compare;
  FindShortestSeparator := InternalKey_FindShortestSeparator;
  FindShortSuccessor := InternalKey_FindShortSuccessor;
|}.
End InternalKeyComparator.

(** * [LookupKey]: the buffer and where the internal key starts in it *)

Record LookupKey := mkLookupKey { start_ : bytes; kstart_ : Z }.

Definition newLookupKey (user_key : bytes) (s : Z) : LookupKey :=
  let usize := blen user_key in
  let len := EncodeVarint32 (u32 (usize + 8)) in
  mkLookupKey (len ++ user_key ++ EncodeFixed64 (PackSequenceAndType s kValueTypeForSeek))
    (blen len).

Definition memtable_key (k : LookupKey) : bytes := start_ k.
Definition lookup_internal_key (k : LookupKey) : bytes := bdrop (kstart_ k) (start_ k).
Definition lookup_user_key (k : LookupKey) : bytes :=
  btake (blen (start_ k) - kstart_ k - 8) (bdrop (kstart_ k) (start_ k)).

(** * Tags *)

Lemma vt_num_range t : 0 <= vt_num t <= 1.
Proof. destruct t; simpl; lia. Qed.

Lemma vt_of_num t : vt_of (vt_num t) = Some t.
Proof. by destruct t. Qed.

Lemma vt_of_Some c t : vt_of c = Some t -> c = vt_num t.
Proof.
  unfold vt_of. destruct (Z.eqb_spec c 0); [by intros [= <-]|].
  destruct (Z.eqb_spec c 1); [by intros [= <-]|done].
Qed.

Lemma PackSequenceAndType_sum seq t : 0 <= seq <= kMaxSequenceNumber ->
  PackSequenceAndType seq t = seq * 256 + vt_num t.
Proof.
  intros Hs. unfold PackSequenceAndType, kMaxSequenceNumber in *. pose proof (vt_num_range t).
  rewrite Z.lor_comm, u64_small; rewrite Z.shiftl_mul_pow2 in * by lia; [|lia].
  rewrite <- Z.shiftl_mul_pow2 by lia. rewrite lor_disjoint_add; lia.
Qed.

Lemma PackSequenceAndType_range seq t : 0 <= seq <= kMaxSequenceNumber ->
  0 <= PackSequenceAndType seq t < 2 ^ 64.
Proof.
  intros Hs. rewrite PackSequenceAndType_sum by done. pose proof (vt_num_range t).
  unfold kMaxSequenceNumber in *. rewrite Z.shiftl_mul_pow2 in Hs by lia. lia.
Qed.

(** The tag of the highest sequence number bounds every tag an encoded key can
    have. *)
Lemma PackSequenceAndType_max seq t : 0 <= seq <= kMaxSequenceNumber ->
  PackSequenceAndType seq t <= PackSequenceAndType kMaxSequenceNumber kValueTypeForSeek.
Proof.
  intros Hs. rewrite !PackSequenceAndType_sum by (unfold kMaxSequenceNumber in *; lia).
  pose proof (vt_num_range t). simpl. lia.
Qed.

Lemma ExtractUserKey_app u tag : ExtractUserKey (u ++ EncodeFixed64 tag) = u.
Proof.
  unfold ExtractUserKey. rewrite blen_app, EncodeFixed64_length. apply btake_app_n. lia.
Qed.

Lemma ExtractTag_app u tag : ExtractTag (u ++ EncodeFixed64 tag) = tag mod 2 ^ 64.
Proof.
  unfold ExtractTag. rewrite blen_app, EncodeFixed64_length.
  rewrite bdrop_app_n by lia. rewrite <- (app_nil_r (EncodeFixed64 tag)). apply DecodeFixed64_app.
Qed.

Lemma mkInternalKey_eq u s t :
  mkInternalKey u s t = u ++ EncodeFixed64 (PackSequenceAndType s t).
Proof. done. Qed.

Lemma ExtractUserKey_mk u s t : ExtractUserKey (mkInternalKey u s t) = u.
Proof. apply ExtractUserKey_app. Qed.

Lemma ExtractTag_mk u s t : 0 <= s <= kMaxSequenceNumber ->
  ExtractTag (mkInternalKey u s t) = PackSequenceAndType s t.
Proof.
  intros Hs. rewrite mkInternalKey_eq, ExtractTag_app.
  apply Z.mod_small. by apply PackSequenceAndType_range.
Qed.

Lemma ExtractTag_range k : 0 <= ExtractTag k < 2 ^ 64.
Proof. apply DecodeFixed64_range. Qed.

(** * The order of internal keys *)

Section Order.
Context (user_comparator_ : Comparator) `{!@ComparatorOk user_comparator_}.
#[local] Abbreviation icmp := (InternalKey_Compare user_comparator_).

Lemma icmp_le a b : icmp a b <= 0 <->
  Compare (ExtractUserKey a) (ExtractUserKey b) < 0 \/
  (Compare (ExtractUserKey a) (ExtractUserKey b) = 0 /\ ExtractTag b <= ExtractTag a).
Proof.
  unfold InternalKey_Compare.
  destruct (Z.eqb_spec (Compare (ExtractUserKey a) (ExtractUserKey b)) 0); [|lia].
  destruct (Z.ltb_spec (ExtractTag b) (ExtractTag a)); [lia|].
  destruct (Z.ltb_spec (ExtractTag a) (ExtractTag b)); lia.
Qed.

Lemma icmp_lt a b : icmp a b < 0 <->
  Compare (ExtractUserKey a) (ExtractUserKey b) < 0 \/
  (Compare (ExtractUserKey a) (ExtractUserKey b) = 0 /\ ExtractTag b < ExtractTag a).
Proof.
  unfold InternalKey_Compare.
  destruct (Z.eqb_spec (Compare (ExtractUserKey a) (ExtractUserKey b)) 0); [|lia].
  destruct (Z.ltb_spec (ExtractTag b) (ExtractTag a)); [lia|].
  destruct (Z.ltb_spec (ExtractTag a) (ExtractTag b)); lia.
Qed.

Lemma icmp_eq a b : icmp a b = 0 <->
  Compare (ExtractUserKey a) (ExtractUserKey b) = 0 /\ ExtractTag b = ExtractTag a.
Proof.
  unfold InternalKey_Compare.
  destruct (Z.eqb_spec (Compare (ExtractUserKey a) (ExtractUserKey b)) 0); [|lia].
  destruct (Z.ltb_spec (ExtractTag b) (ExtractTag a)); [lia|].
  destruct (Z.ltb_spec (ExtractTag a) (ExtractTag b)); lia.
Qed.

Lemma icmp_antisym a b : icmp a b < 0 <-> 0 < icmp b a.
Proof.
  assert (Hgt : 0 < icmp b a <-> ~ icmp b a <= 0) by lia.
  rewrite Hgt, icmp_lt, icmp_le.
  pose proof (cmp_antisym (ExtractUserKey a) (ExtractUserKey b)).
  pose proof (cmp_antisym (ExtractUserKey b) (ExtractUserKey a)). lia.
Qed.

Lemma icmp_le_trans a b c : icmp a b <= 0 -> icmp b c <= 0 -> icmp a c <= 0.
Proof.
  rewrite !icmp_le. intros [Hab|[Hab Hta]] [Hbc|[Hbc Htb]].
  - left. by eapply cmp_lt_trans.
  - left. eapply cmp_lt_le_trans; [done|lia].
  - left. eapply cmp_le_lt_trans; [|done]. lia.
  - right. split; [by eapply cmp_eq_trans|lia].
Qed.

Lemma InternalKey_separator_cases start limit :
  InternalKey_FindShortestSeparator user_comparator_ start limit = start \/
  exists tmp, InternalKey_FindShortestSeparator user_comparator_ start limit =
      tmp ++ EncodeFixed64 (PackSequenceAndType kMaxSequenceNumber kValueTypeForSeek) /\
    tmp = FindShortestSeparator (ExtractUserKey start) (ExtractUserKey limit) /\
    blen tmp < blen (ExtractUserKey start) /\ Compare (ExtractUserKey start) tmp < 0.
Proof.
  unfold InternalKey_FindShortestSeparator.
  destruct (_ && _) eqn:E; [|by left]. right. eexists. split; [done|]. split; [done|]. lia.
Qed.

Lemma InternalKeyComparator_ok_aux : @ComparatorOk (InternalKeyComparator user_comparator_).
Proof.
  split; simpl.
  - apply icmp_antisym.
  - apply icmp_le_trans.
  - intros start limit Hlt.
    destruct (InternalKey_separator_cases start limit) as [->|(tmp & -> & Htmp & Hlen & Hcmp)].
    { split; [apply icmp_le; right; split; [apply cmp_refl|lia]|done]. }
    assert (Hu : Compare (ExtractUserKey start) (ExtractUserKey limit) < 0).
    { destruct (Z.lt_ge_cases (Compare (ExtractUserKey start) (ExtractUserKey limit)) 0); [done|].
      rewrite (separator_noop _ _) in Htmp by lia. rewrite Htmp in Hlen. lia. }
    pose proof (separator_ok _ _ Hu) as [_ Hsep]. rewrite <- Htmp in Hsep.
    rewrite icmp_le, icmp_lt, ExtractUserKey_app. auto.
  - intros start limit Hge.
    destruct (InternalKey_separator_cases start limit) as [->|(tmp & _ & Htmp & Hlen & Hcmp)];
      [done|].
    destruct (Z.lt_ge_cases (Compare (ExtractUserKey start) (ExtractUserKey limit)) 0) as [Hu|Hu].
    + assert (icmp start limit < 0) by (apply icmp_lt; auto). lia.
    + rewrite (separator_noop _ _) in Htmp by lia. rewrite Htmp in Hlen. lia.
  - intros key. unfold InternalKey_FindShortSuccessor.
    destruct (_ && _) eqn:E; [|apply icmp_le; right; split; [apply cmp_refl|lia]].
    apply icmp_le. unfold PutFixed64. rewrite ExtractUserKey_app. lia.
Qed.
End Order.

#[export] Instance InternalKeyComparator_ok (c : Comparator) `{!@ComparatorOk c} :
  @ComparatorOk (InternalKeyComparator c).
Proof. by apply InternalKeyComparator_ok_aux. Qed.

(** * Parsing *)

Lemma ParseInternalKey_inv raw k :
  ParseInternalKey raw = Some k -> raw = AppendInternalKey [] k.
Proof.
  unfold ParseInternalKey. cbv zeta. destruct (Z.ltb_spec (blen raw) 8); [done|].
  set (num := DecodeFixed64 _). destruct (vt_of _) as [t|] eqn:E; [|done]. intros [= <-].
  apply vt_of_Some in E. unfold AppendInternalKey, PutFixed64. simpl.
  pose proof (DecodeFixed64_range (bdrop (blen raw - 8) raw)) as Hr. fold num in Hr.
  rewrite PackSequenceAndType_sum, <- E, land_255, Z.shiftr_div_pow2 by
    (unfold kMaxSequenceNumber; rewrite ?Z.shiftr_div_pow2, ?Z.shiftl_mul_pow2 by lia;
     change (2 ^ 8) with 256; Z.div_mod_to_equations; lia).
  replace (num / 2 ^ 8 * 256 + num mod 256) with num by
    (change (2 ^ 8) with 256; pose proof (Z.div_mod num 256); lia).
  unfold num. rewrite EncodeFixed64_Decode by (rewrite blen_bdrop; lia).
  by rewrite btake_bdrop.
Qed.

Lemma ParseInternalKey_parts raw k : ParseInternalKey raw = Some k ->
  ExtractUserKey raw = user_key k /\ ExtractTag raw = sequence k * 256 + vt_num (type k).
Proof.
  unfold ParseInternalKey, ExtractUserKey, ExtractTag. cbv zeta. destruct (_ <? 8); [done|].
  set (num := DecodeFixed64 _). destruct (vt_of _) as [t|] eqn:E; [|done]. intros [= <-]. split; [done|].
  apply vt_of_Some in E. rewrite land_255 in E. simpl. rewrite <- E, Z.shiftr_div_pow2 by lia.
  change (2 ^ 8) with 256. pose proof (Z.div_mod num 256). lia.
Qed.

Lemma ParseInternalKey_Append k : 0 <= sequence k <= kMaxSequenceNumber ->
  ParseInternalKey (AppendInternalKey [] k) = Some k.
Proof.
  intros Hs. unfold ParseInternalKey. cbv zeta.
  change (AppendInternalKey [] k) with (mkInternalKey (user_key k) (sequence k) (type k)).
  rewrite mkInternalKey_eq, blen_app, EncodeFixed64_length.
  pose proof (blen_nonneg (user_key k)). replace (_ <? 8) with false by lia.
  rewrite bdrop_app_n, btake_app_n by lia.
  rewrite <- (app_nil_r (EncodeFixed64 _)), DecodeFixed64_app, Z.mod_small
    by by apply PackSequenceAndType_range.
  rewrite PackSequenceAndType_sum, land_255, Z.shiftr_div_pow2 by done.
  pose proof (vt_num_range (type k)).
  rewrite Z.add_comm, Z_mod_plus_full, Z.mod_small, vt_of_num by lia.
  rewrite Z.div_add, Z.div_small, Z.add_0_l by lia. by destruct k.
Qed.

Lemma ParseInternalKey_None raw :
  ParseInternalKey raw = None <-> blen raw < 8 \/ 1 < ExtractTag raw mod 256.
Proof.
  unfold ParseInternalKey, ExtractTag. cbv zeta.
  destruct (Z.ltb_spec (blen raw) 8) as [H8|H8]; [tauto|]. rewrite land_255.
  set (c := _ mod 256). assert (0 <= c) by (apply Z.mod_pos_bound; lia).
  unfold vt_of. destruct (Z.eqb_spec c 0); [split; [done|lia]|].
  destruct (Z.eqb_spec c 1); [split; [done|lia]|]. split; [right; lia|done].
Qed.

(** * Properties *)

(** Internal keys round trip.  Encoding then parsing returns the user key,
    sequence number and type; parsing succeeds only on the encoding of what it
    returns, and it fails exactly on keys shorter than eight bytes or whose
    type byte names no value type. *)
Theorem internal_key_roundtrip (k : ParsedInternalKey) (raw : bytes)
    (Hs : 0 <= sequence k <= kMaxSequenceNumber) :
  ParseInternalKey (AppendInternalKey [] k) = Some k /\
  blen (AppendInternalKey [] k) = InternalKeyEncodingLength k /\
  (ParseInternalKey raw = Some k -> raw = AppendInternalKey [] k) /\
  (ParseInternalKey raw = None <-> blen raw < 8 \/ 1 < ExtractTag raw mod 256).
Proof.
  split; [|split; [|split]].
  - by apply ParseInternalKey_Append.
  - unfold AppendInternalKey, PutFixed64. by rewrite blen_app, EncodeFixed64_length.
  - by apply ParseInternalKey_inv.
  - apply ParseInternalKey_None.
Qed.

Lemma internal_key_roundtrip_witness :
  let k := mkParsed (str "key") 77 kTypeValue in
  ParseInternalKey (AppendInternalKey [] k) = Some k.
Proof.
  exact (proj1 (internal_key_roundtrip (mkParsed (str "key") 77 kTypeValue) []
    ltac:(vm_compute; split; discriminate))).
Defined.

(** The order of internal keys, for any user comparator that is a total
    order.  Keys are ordered by user key; entries of the same user key come
    newest first (higher sequence number, then value before deletion); the
    order is antisymmetric and transitive, and shortened index keys still
    separate: the separator of [a < b] is in [a, b) and the successor of [a] is
    at least [a] (the assertions of dbformat.cc). *)
Theorem internal_key_order (user : Comparator) (Huser : @ComparatorOk user)
    (u1 u2 a b c : bytes) (s1 s2 : Z) (t1 t2 : ValueType)
    (H1 : 0 <= s1 <= kMaxSequenceNumber) (H2 : 0 <= s2 <= kMaxSequenceNumber) :
  let icmp := InternalKey_Compare user in
  let sep := InternalKey_FindShortestSeparator user a b in
  (icmp (mkInternalKey u1 s1 t1) (mkInternalKey u2 s2 t2) < 0 <->
     Compare u1 u2 < 0 \/
     (Compare u1 u2 = 0 /\ (s2 < s1 \/ (s1 = s2 /\ vt_num t2 < vt_num t1)))) /\
  (icmp a b < 0 <-> 0 < icmp b a) /\
  (icmp a b <= 0 -> icmp b c <= 0 -> icmp a c <= 0) /\
  (icmp a b < 0 -> icmp a sep <= 0 /\ icmp sep b < 0) /\
  icmp a (InternalKey_FindShortSuccessor user a) <= 0.
Proof.
  cbv zeta. pose proof (InternalKeyComparator_ok user) as Hok.
  split; [|split; [|split; [|split]]].
  - rewrite icmp_lt, !ExtractUserKey_mk, !ExtractTag_mk, !PackSequenceAndType_sum by done.
    pose proof (vt_num_range t1). pose proof (vt_num_range t2). lia.
  - apply (cmp_antisym (ComparatorOk := Hok)).
  - apply (cmp_le_trans (ComparatorOk := Hok)).
  - apply (separator_ok (ComparatorOk := Hok)).
  - apply (successor_ok (ComparatorOk := Hok)).
Qed.

Lemma internal_key_order_witness :
  InternalKey_Compare BytewiseComparator
    (mkInternalKey (str "k") 7 kTypeValue) (mkInternalKey (str "k") 5 kTypeValue) < 0.
Proof.
  apply (internal_key_order BytewiseComparator BytewiseComparator_ok
    (str "k") (str "k") [] [] [] 7 5 kTypeValue kTypeValue);
    [vm_compute; split; discriminate..|].
  right. split; [reflexivity|left; reflexivity].
Defined.

(** A lookup key is the seek target of its snapshot.  Its three views are
    consistent with its buffer, and among the entries of its user key exactly
    those with a sequence number at most the snapshot's are at or after it, so a
    seek lands on the newest visible entry. *)
Theorem lookup_key_seek (user : Comparator) (Huser : @ComparatorOk user)
    (u : bytes) (snap s : Z) (t : ValueType)
    (Hlen : blen u + 8 < 2 ^ 32)
    (Hsnap : 0 <= snap <= kMaxSequenceNumber) (Hs : 0 <= s <= kMaxSequenceNumber) :
  let k := newLookupKey u snap in
  lookup_user_key k = u /\
  lookup_internal_key k = mkInternalKey u snap kTypeValue /\
  GetLengthPrefixedSlice (memtable_key k) = Some (lookup_internal_key k, []) /\
  (InternalKey_Compare user (lookup_internal_key k) (mkInternalKey u s t) <= 0 <-> s <= snap).
Proof.
  cbv zeta.
  assert (Hik : lookup_internal_key (newLookupKey u snap) = mkInternalKey u snap kTypeValue).
  { unfold lookup_internal_key, newLookupKey. simpl. apply bdrop_app. }
  assert (Hlenk : blen (mkInternalKey u snap kTypeValue) = blen u + 8).
  { rewrite mkInternalKey_eq, blen_app, EncodeFixed64_length. done. }
  pose proof (blen_nonneg u). rewrite Hik. split; [|split; [|split]].
  - unfold lookup_user_key. fold (lookup_internal_key (newLookupKey u snap)). rewrite Hik.
    unfold newLookupKey. cbn [start_ kstart_].
    change (u ++ EncodeFixed64 ?x) with (u ++ EncodeFixed64 x).
    rewrite !blen_app, EncodeFixed64_length, mkInternalKey_eq. apply btake_app_n. lia.
  - done.
  - rewrite <- (app_nil_r (memtable_key _)).
    rewrite <- (GetLengthPrefixedSlice_put (mkInternalKey u snap kTypeValue) []) by lia.
    f_equal. f_equal. unfold memtable_key, newLookupKey, PutLengthPrefixedSlice, PutVarint32.
    cbn [start_]. rewrite Hlenk, u32_small by lia. done.
  - rewrite icmp_le, !ExtractUserKey_mk, !ExtractTag_mk, !PackSequenceAndType_sum by done.
    rewrite cmp_refl. pose proof (vt_num_range t). simpl. lia.
Qed.

Lemma lookup_key_seek_witness :
  InternalKey_Compare BytewiseComparator (lookup_internal_key (newLookupKey (str "k") 9))
    (mkInternalKey (str "k") 9 kTypeDeletion) <= 0.
Proof.
  apply (lookup_key_seek BytewiseComparator BytewiseComparator_ok (str "k") 9 9 kTypeDeletion);
    [vm_compute; reflexivity|vm_compute; split; discriminate..|lia].
Defined.
