(* ===== verification/WriteBatch.v ===== *)
(** db/write_batch.cc, include/leveldb/write_batch.h, db/write_batch_internal.h:
    the atomic unit of update and the payload of a log record.  A batch is a
    byte string [rep_]: eight bytes of sequence number, four of count, then the
    tagged operations. *)

From S2P Require Import Prelude Status Coding DbFormat.
From Stdlib Require Import Strings.Byte.
From stdpp Require Import base list strings.

#[local] Open Scope Z_scope.

Definition kHeader : Z := 12.

(** * Representation *)

Definition Clear : bytes := bresize kHeader [].

Definition Count (rep : bytes) : Z := i32 (DecodeFixed32 (bdrop 8 rep)).

(** [EncodeFixed32(&rep_[8], n)] and [EncodeFixed64(&rep_[0], seq)] overwrite
    bytes of the header. *)
Definition SetCount (rep : bytes) (n : Z) : bytes :=
  btake 8 rep ++ EncodeFixed32 (u32 n) ++ bdrop 12 rep.

Definition Sequence (rep : bytes) : Z := DecodeFixed64 rep.

Definition SetSequence (rep : bytes) (seq : Z) : bytes := EncodeFixed64 seq ++ bdrop 8 rep.

Definition Put (rep key value : bytes) : bytes :=
  let rep := SetCount rep (Count rep + 1) in
  let rep := rep ++ [zb (vt_num kTypeValue)] in
  let rep := PutLengthPrefixedSlice rep key in
  PutLengthPrefixedSlice rep value.

Definition Delete (rep key : bytes) : bytes :=
  let rep := SetCount rep (Count rep + 1) in
  let rep := rep ++ [zb (vt_num kTypeDeletion)] in
  PutLengthPrefixedSlice rep key.

Definition Append (dst src : bytes) : bytes :=
  SetCount dst (Count dst + Count src) ++ btake (blen src - kHeader) (bdrop kHeader src).

Definition SetContents (contents : bytes) : bytes := contents.

Definition ApproximateSize (rep : bytes) : Z := blen rep.

(** * Iteration *)

(** [WriteBatch::Handler] over a state [S]. *)
Class Handler (S : Type) := {
  hPut : S -> bytes -> bytes -> S;
  hDelete : S -> bytes -> S;
}.

Section Iterate.
Context {S : Type} `{Handler S}.

(** The [while (!input.empty())] loop.  Each pass consumes the tag at least, so
    the length of the input bounds the passes ([Iterate_loop_fuel]).  The
    result is the error of an early return or [OK], with [found] and the
    handler's state. *)
Fixpoint Iterate_loop (fuel : nat) (input : bytes) (found : Z) (s : S) : Status * Z * S :=
  match fuel, input with
  | _, [] => (OK, found, s)
  | O, _ => (OK, found, s)
  | Datatypes.S fuel', tag :: input =>
      let found := found + 1 in
      if bz tag =? vt_num kTypeValue then
        match GetLengthPrefixedSlice input with
        | Some (key, input) =>
            match GetLengthPrefixedSlice input with
            | Some (value, input) => Iterate_loop fuel' input found (hPut s key value)
            | None => (Corruption (str "bad WriteBatch Put") [], found, s)
            end
        | None => (Corruption (str "bad WriteBatch Put") [], found, s)
        end
      else if bz tag =? vt_num kTypeDeletion then
        match GetLengthPrefixedSlice input with
        | Some (key, input) => Iterate_loop fuel' input found (hDelete s key)
        | None => (Corruption (str "bad WriteBatch Delete") [], found, s)
        end
      else (Corruption (str "unknown WriteBatch tag") [], found, s)
  end.

Definition Iterate (rep : bytes) (s : S) : Status * S :=
  if blen rep <? kHeader then (Corruption (str "malformed WriteBatch (too small)") [], s)
  else
    let input := bdrop kHeader rep in
    let '(st, found, s) := Iterate_loop (length input) input 0 s in
    if negb (ok st) then (st, s)
    else if negb (found =? Count rep) then (Corruption (str "WriteBatch has wrong count") [], s)
    else (OK, s).
End Iterate.

(** * Insertion into a memtable *)

(** What the inserter needs of [MemTable]. *)
Class MemTableAdd (M : Type) := mem_Add : M -> Z -> ValueType -> bytes -> bytes -> M.

Section Inserter.
Context {M : Type} `{MemTableAdd M}.

(** [MemTableInserter]: its [sequence_] and the table. *)
Record MemTableInserter := mkInserter { sequence_ : Z; mem_ : M }.

#[export] Instance MemTableInserter_handler : Handler MemTableInserter := {|
  hPut h key value :=
    mkInserter (u64 (sequence_ h + 1)) (mem_Add (mem_ h) (sequence_ h) kTypeValue key value);
  hDelete h key :=
    mkInserter (u64 (sequence_ h + 1)) (mem_Add (mem_ h) (sequence_ h) kTypeDeletion key []);
|}.

Definition InsertInto (b : bytes) (memtable : M) : Status * M :=
  let '(s, h) := Iterate b (mkInserter (Sequence b) memtable) in
  (s, mem_ h).
End Inserter.
Arguments MemTableInserter M : clear implicits.
Arguments mkInserter {M} _ _.

(** * Batches as lists of operations *)

Inductive BatchOp :=
  | OpPut (key value : bytes)
  | OpDelete (key : bytes).

Definition apply_op (rep : bytes) (op : BatchOp) : bytes :=
  match op with OpPut k v => Put rep k v | OpDelete k => Delete rep k end.
Definition batch_of (ops : list BatchOp) : bytes := fold_left apply_op ops Clear.

Definition handle {S} `{Handler S} (s : S) (op : BatchOp) : S :=
  match op with OpPut k v => hPut s k v | OpDelete k => hDelete s k end.

(** The bytes of one operation. *)
Definition op_bytes (op : BatchOp) : bytes :=
  match op with
  | OpPut k v => zb 1 :: PutLengthPrefixedSlice (PutLengthPrefixedSlice [] k) v
  | OpDelete k => zb 0 :: PutLengthPrefixedSlice [] k
  end.

Definition op_small (op : BatchOp) : Prop :=
  match op with
  | OpPut k v => blen k < 2 ^ 32 /\ blen v < 2 ^ 32
  | OpDelete k => blen k < 2 ^ 32
  end.

(** The layout: header, then the operations. *)
Definition layout (seq : Z) (count : Z) (ops : list BatchOp) : bytes :=
  EncodeFixed64 seq ++ EncodeFixed32 count ++ concat (map op_bytes ops).

Lemma header_fixed_length seq n : blen (EncodeFixed64 seq ++ EncodeFixed32 n) = kHeader.
Proof. by rewrite blen_app. Qed.

Lemma Clear_layout : Clear = layout 0 0 [].
Proof. done. Qed.

Lemma Count_layout seq n ops : 0 <= n < 2 ^ 31 -> Count (layout seq n ops) = n.
Proof.
  intros. unfold Count, layout. rewrite bdrop_app_n by apply EncodeFixed64_length.
  rewrite DecodeFixed32_app, Z.mod_small by lia. by apply i32_small.
Qed.

Lemma Sequence_layout seq n ops : 0 <= seq < 2 ^ 64 -> Sequence (layout seq n ops) = seq.
Proof. intros. unfold Sequence, layout. rewrite DecodeFixed64_app. by apply Z.mod_small. Qed.

Lemma SetCount_layout seq n m ops : 0 <= m < 2 ^ 31 ->
  SetCount (layout seq n ops) m = layout seq m ops.
Proof.
  intros. unfold SetCount, layout. rewrite btake_app_n by apply EncodeFixed64_length.
  rewrite (app_assoc (EncodeFixed64 seq) (EncodeFixed32 n)), (bdrop_app_n 12) by apply header_fixed_length. by rewrite u32_small by lia.
Qed.

Lemma SetSequence_layout seq seq' n ops : SetSequence (layout seq n ops) seq' = layout seq' n ops.
Proof. unfold SetSequence, layout. by rewrite bdrop_app_n by apply EncodeFixed64_length. Qed.

Lemma bdrop_layout seq n ops : bdrop kHeader (layout seq n ops) = concat (map op_bytes ops).
Proof. unfold layout. by rewrite app_assoc, bdrop_app_n by apply header_fixed_length. Qed.

Lemma layout_length seq n ops : blen (layout seq n ops) = kHeader + blen (concat (map op_bytes ops)).
Proof. unfold layout. by rewrite app_assoc, blen_app, header_fixed_length. Qed.

Lemma apply_op_layout seq n ops op : 0 <= n < 2 ^ 31 - 1 ->
  apply_op (layout seq n ops) op = layout seq (n + 1) (ops ++ [op]).
Proof.
  intros Hn. assert (Hl : layout seq (n + 1) (ops ++ [op]) = layout seq (n + 1) ops ++ op_bytes op).
  { unfold layout. rewrite map_app, concat_app. cbn [map concat]. by rewrite app_nil_r, <- !app_assoc. }
  rewrite Hl. destruct op as [k v|k]; simpl; unfold Put, Delete; cbv zeta;
    rewrite Count_layout, SetCount_layout by lia.
  - rewrite (PutLengthPrefixedSlice_app (PutLengthPrefixedSlice _ k)).
    rewrite (PutLengthPrefixedSlice_app (_ ++ [_])).
    rewrite (PutLengthPrefixedSlice_app (PutLengthPrefixedSlice [] k)). simpl.
    by rewrite <- !app_assoc.
  - rewrite (PutLengthPrefixedSlice_app (_ ++ [_])). by rewrite <- !app_assoc.
Qed.

Lemma fold_apply_layout ops : forall seq n ops0, 0 <= n -> n + blen ops < 2 ^ 31 ->
  fold_left apply_op ops (layout seq n ops0) = layout seq (n + blen ops) (ops0 ++ ops).
Proof.
  induction ops as [|op ops IH]; intros seq n ops0 Hn Hl; simpl.
  { by rewrite (@blen_nil BatchOp), Z.add_0_r, app_nil_r. }
  rewrite blen_cons in *. pose proof (blen_nonneg ops).
  rewrite apply_op_layout by lia. rewrite IH by lia. rewrite <- app_assoc. f_equal. lia.
Qed.

Lemma batch_of_layout ops : blen ops < 2 ^ 31 -> batch_of ops = layout 0 (blen ops) ops.
Proof. intros. unfold batch_of. rewrite Clear_layout. by rewrite fold_apply_layout. Qed.

Lemma Append_layout seq1 n1 ops1 seq2 n2 ops2 :
  0 <= n1 -> 0 <= n2 -> n1 + n2 < 2 ^ 31 ->
  Append (layout seq1 n1 ops1) (layout seq2 n2 ops2) = layout seq1 (n1 + n2) (ops1 ++ ops2).
Proof.
  intros. unfold Append. rewrite !Count_layout, SetCount_layout, bdrop_layout by lia.
  rewrite layout_length, btake_all by lia.
  unfold layout. by rewrite map_app, concat_app, <- !app_assoc.
Qed.

(** ** Iterating over a layout *)

Section IterateProofs.
Context {S : Type} `{Handler S}.

Lemma op_bytes_nonempty op : exists b l, op_bytes op = b :: l.
Proof. destruct op; simpl; eauto. Qed.

Lemma Iterate_loop_layout ops : forall fuel found s,
  Forall op_small ops -> (length (concat (map op_bytes ops)) <= fuel)%nat ->
  Iterate_loop fuel (concat (map op_bytes ops)) found s =
    (OK, found + blen ops, fold_left handle ops s).
Proof.
  induction ops as [|op ops IH]; intros fuel found s Hs Hf.
  { destruct fuel; simpl; by rewrite (@blen_nil BatchOp), Z.add_0_r. }
  inversion Hs as [|? ? Hop Hops]; subst. rewrite blen_cons, Z.add_assoc.
  cbn [map concat] in *. destruct op as [k v|k]; cbn [op_bytes op_small] in *;
    cbn [app length] in Hf; rewrite length_app in Hf; (destruct fuel as [|fuel]; [lia|]).
  - rewrite (PutLengthPrefixedSlice_app (PutLengthPrefixedSlice [] k)) in *.
    rewrite <- app_comm_cons, <- !app_assoc. rewrite length_app in Hf.
    cbn [Iterate_loop]. rewrite bz_zb_small by lia. cbn [vt_num Z.eqb Pos.eqb].
    rewrite !GetLengthPrefixedSlice_put by lia. apply IH; [done|]. lia.
  - rewrite <- app_comm_cons. cbn [Iterate_loop]. rewrite bz_zb_small by lia.
    cbn [vt_num Z.eqb Pos.eqb]. rewrite GetLengthPrefixedSlice_put by lia. apply IH; [done|]. lia.
Qed.

Lemma Iterate_layout seq ops s : Forall op_small ops -> blen ops < 2 ^ 31 ->
  Iterate (layout seq (blen ops) ops) s = (OK, fold_left handle ops s).
Proof.
  intros Hs Hl. pose proof (blen_nonneg ops). unfold Iterate.
  rewrite bdrop_layout, layout_length, Count_layout by lia.
  pose proof (blen_nonneg (concat (map op_bytes ops))).
  replace (_ <? kHeader) with false by lia.
  rewrite Iterate_loop_layout by done. simpl. by rewrite Z.eqb_refl.
Qed.

(** The handler only sees a list of operations, whatever the bytes. *)
Lemma Iterate_loop_trace fuel : forall input found,
  exists ops st, forall s, Iterate_loop fuel input found s =
    (st, found + (if ok st then blen ops else blen ops + 1), fold_left handle ops s).
Proof.
  induction fuel as [|fuel IH]; intros input found.
  { exists [], OK. intros s. destruct input; simpl; by rewrite (@blen_nil BatchOp), Z.add_0_r. }
  destruct input as [|tag input].
  { exists [], OK. intros s. simpl. by rewrite (@blen_nil BatchOp), Z.add_0_r. }
  assert (Herr : forall m, exists ops st, forall s : S,
    (Corruption m [], found + 1, s) =
    (st, found + (if ok st then blen ops else blen ops + 1), fold_left handle ops s)).
  { intros m. exists [], (Corruption m []). done. }
  assert (Hcons : forall op ops st (s : S),
    (st, found + 1 + (if ok st then blen ops else blen ops + 1), fold_left handle ops (handle s op)) =
    (st, found + (if ok st then blen (op :: ops) else blen (op :: ops) + 1),
     fold_left handle (op :: ops) s)).
  { intros op ops st s. rewrite blen_cons. simpl. destruct (ok st); do 2 f_equal; lia. }
  cbn [Iterate_loop]. destruct (_ =? vt_num kTypeValue).
  - destruct (GetLengthPrefixedSlice input) as [[k r1]|]; [|apply Herr].
    destruct (GetLengthPrefixedSlice r1) as [[v r2]|]; [|apply Herr].
    destruct (IH r2 (found + 1)) as (ops & st & E). exists (OpPut k v :: ops), st.
    intros s. rewrite <- Hcons. apply E.
  - destruct (_ =? vt_num kTypeDeletion); [|apply Herr].
    destruct (GetLengthPrefixedSlice input) as [[k r1]|]; [|apply Herr].
    destruct (IH r1 (found + 1)) as (ops & st & E). exists (OpDelete k :: ops), st.
    intros s. rewrite <- Hcons. apply E.
Qed.
End IterateProofs.

(** * Properties *)

(** A batch replays the operations it was built from.  Build two batches by
    [Put] and [Delete], append one to the other as the group commit of
    [BuildBatchGroup] does, stamp a sequence number: [Iterate] calls the handler
    with exactly the operations of both, in order, and returns [OK]; the header
    fields read back. *)
Theorem write_batch_roundtrip {S : Type} `{Handler S} (ops1 ops2 : list BatchOp) (seq : Z) (s : S)
    (Hsmall : Forall op_small (ops1 ++ ops2))
    (Hcount : blen (ops1 ++ ops2) < 2 ^ 31) (Hseq : 0 <= seq < 2 ^ 64) :
  let b := SetSequence (Append (batch_of ops1) (batch_of ops2)) seq in
  Iterate b s = (OK, fold_left handle (ops1 ++ ops2) s) /\
  Sequence b = seq /\ Count b = blen (ops1 ++ ops2).
Proof.
  cbv zeta. rewrite blen_app in Hcount.
  pose proof (blen_nonneg ops1). pose proof (blen_nonneg ops2).
  rewrite !batch_of_layout, Append_layout, SetSequence_layout, <- blen_app by lia.
  rewrite Sequence_layout, Count_layout by (rewrite ?blen_app; lia).
  split; [apply Iterate_layout; [done|rewrite blen_app; lia]|done].
Qed.

#[local] Instance list_handler : Handler (list BatchOp) := {|
  hPut l k v := l ++ [OpPut k v]; hDelete l k := l ++ [OpDelete k] |}.

Lemma write_batch_roundtrip_witness :
  let ops := [OpPut (str "a") (str "1"); OpDelete (str "b")] in
  Iterate (SetSequence (Append (batch_of ops) (batch_of [OpDelete (str "c")])) 100) [] =
    (OK, ops ++ [OpDelete (str "c")]).
Proof.
  refine (proj1 (write_batch_roundtrip (S := list BatchOp)
    [OpPut (str "a") (str "1"); OpDelete (str "b")] [OpDelete (str "c")] 100 [] _ _ _)).
  - repeat constructor; vm_compute; reflexivity.
  - vm_compute; reflexivity.
  - lia.
Defined.

(** The operations of a batch entered one by one, with consecutive sequence
    numbers. *)
Fixpoint insert_ops {M} `{MemTableAdd M} (seq : Z) (ops : list BatchOp) (m : M) : M :=
  match ops with
  | [] => m
  | OpPut k v :: ops => insert_ops (seq + 1) ops (mem_Add m seq kTypeValue k v)
  | OpDelete k :: ops => insert_ops (seq + 1) ops (mem_Add m seq kTypeDeletion k [])
  end.

Lemma fold_inserter {M} `{MemTableAdd M} ops : forall seq (m : M),
  0 <= seq -> seq + blen ops < 2 ^ 64 ->
  fold_left handle ops (mkInserter seq m) = mkInserter (seq + blen ops) (insert_ops seq ops m).
Proof.
  induction ops as [|op ops IH]; intros seq m Hs Hl.
  { simpl. by rewrite (@blen_nil BatchOp), Z.add_0_r. }
  rewrite blen_cons in *. pose proof (blen_nonneg ops).
  destruct op; simpl; rewrite u64_small by lia; rewrite IH by lia; f_equal; lia.
Qed.

(** Replaying a batch into a memtable gives its operations consecutive
    sequence numbers starting at the batch's, in order, for any memtable. *)
Theorem insert_into_numbers {M : Type} `{MemTableAdd M} (ops : list BatchOp) (seq : Z) (m : M)
    (Hsmall : Forall op_small ops) (Hcount : blen ops < 2 ^ 31)
    (Hseq : 0 <= seq <= kMaxSequenceNumber) :
  InsertInto (SetSequence (batch_of ops) seq) m = (OK, insert_ops seq ops m).
Proof.
  pose proof (blen_nonneg ops). unfold kMaxSequenceNumber in Hseq.
  change (Z.shiftl 1 56 - 1) with (2 ^ 56 - 1) in Hseq.
  rewrite batch_of_layout, SetSequence_layout by lia. unfold InsertInto.
  rewrite Sequence_layout, Iterate_layout by (done || lia).
  by rewrite fold_inserter by lia.
Qed.

#[local] Instance list_memtable : MemTableAdd (list (Z * ValueType * bytes * bytes)) :=
  fun m s t k v => m ++ [(s, t, k, v)].

Lemma insert_into_numbers_witness :
  InsertInto (SetSequence (batch_of [OpPut (str "a") (str "1"); OpDelete (str "b")]) 7) [] =
    (OK, [(7, kTypeValue, str "a", str "1"); (8, kTypeDeletion, str "b", [])]).
Proof.
  refine (insert_into_numbers (M := list (Z * ValueType * bytes * bytes))
    [OpPut (str "a") (str "1"); OpDelete (str "b")] 7 [] _ _ _).
  - repeat constructor; vm_compute; reflexivity.
  - vm_compute; reflexivity.
  - vm_compute; split; discriminate.
Defined.

(** On arbitrary bytes (a damaged log record) [Iterate] still terminates,
    what it does to the handler is a list of operations decoded from the bytes,
    independent of the handler's state, and it returns [OK] only when the number
    of operations is the count stored in the header. *)
Theorem iterate_any_bytes {S : Type} `{Handler S} (rep : bytes) :
  exists ops st, (forall s : S, Iterate rep s = (st, fold_left handle ops s)) /\
    (st = OK -> kHeader <= blen rep /\ Count rep = blen ops).
Proof.
  unfold Iterate. destruct (Z.ltb_spec (blen rep) kHeader) as [|Hk].
  { eexists [], _. split; [done|]. done. }
  destruct (Iterate_loop_trace (length (bdrop kHeader rep)) (bdrop kHeader rep) 0) as (ops & st & E).
  exists ops.
  destruct st as [|c m].
  - cbn [ok] in E. destruct (Z.eqb_spec (blen ops) (Count rep)) as [Ec|Ec].
    + exists OK. split; [|auto]. intros s. rewrite E. cbn [ok negb]. by rewrite Z.add_0_l, (proj2 (Z.eqb_eq _ _) Ec).
    + eexists. split; [intros s; rewrite E; cbn [ok negb]; by rewrite Z.add_0_l, (proj2 (Z.eqb_neq _ _) Ec)|done].
  - exists (Err c m). split; [intros s; by rewrite E|done].
Qed.
