(* ===== verification/Random.v ===== *)
(** util/random.h: the Park-Miller generator that draws the heights of skip
    list nodes.  Its reduction by shifts is proved equal to the modular
    definition it implements, and the state never reaches the two fixed
    points. *)

From S2P Require Import Prelude.
From stdpp Require Import base list.

#[local] Open Scope Z_scope.

Definition rnd_M : Z := 2147483647.
Definition rnd_A : Z := 16807.

(** [Random(s)]: the seed. *)
Definition newRandom (s : Z) : Z :=
  let seed_ := Z.land s 0x7fffffff in
  if (seed_ =? 0) || (seed_ =? 2147483647) then 1 else seed_.

(** [Next()]: the value returned is the new seed. *)
Definition Random_Next (seed_ : Z) : Z :=
  let product := u64 (seed_ * rnd_A) in
  let seed_ := u32 (Z.shiftr product 31 + Z.land product rnd_M) in
  if rnd_M <? seed_ then u32 (seed_ - rnd_M) else seed_.

Arguments Random_Next _ : simpl never.
Arguments newRandom _ : simpl never.

(** [Uniform(n)] and [OneIn(n)], with the new seed. *)
Definition Uniform (seed_ n : Z) : Z * Z := let s := Random_Next seed_ in (s mod n, s).
Definition OneIn (seed_ n : Z) : bool * Z := let s := Random_Next seed_ in (s mod n =? 0, s).
Definition Skewed (seed_ max_log : Z) : Z * Z :=
  let '(base, s) := Uniform seed_ (max_log + 1) in Uniform s (Z.shiftl 1 base).

Lemma newRandom_range s : 0 < newRandom s < rnd_M.
Proof.
  unfold newRandom, rnd_M. cbv zeta.
  change (Z.land s 0x7fffffff) with (Z.land s (Z.ones 31)).
  rewrite Z.land_ones by lia. pose proof (Z.mod_pos_bound s (2 ^ 31) ltac:(lia)).
  destruct (_ || _) eqn:E; [lia|]. apply orb_false_iff in E. lia.
Qed.

Lemma rnd_product_nonzero seed : 0 < seed < rnd_M -> (seed * rnd_A) mod rnd_M <> 0.
Proof.
  intros Hs H0. apply Z.mod_divide in H0; [|done].
  rewrite Z.mul_comm in H0. apply Z.gauss in H0; [|reflexivity].
  apply Z.divide_pos_le in H0; lia.
Qed.

(** [Random::Next] computes [seed * 16807 mod (2^31 - 1)] with shifts and
    one conditional subtraction, and from a seed in [1, 2^31 - 2] stays in that
    range: the generator never gets stuck on zero or on the modulus. *)
Theorem random_next_correct (seed : Z) (Hs : 0 < seed < rnd_M) :
  Random_Next seed = (seed * rnd_A) mod rnd_M /\ 0 < Random_Next seed < rnd_M.
Proof.
  pose proof (rnd_product_nonzero seed Hs) as Hnz.
  assert (E : Random_Next seed = (seed * rnd_A) mod rnd_M).
  { unfold Random_Next. unfold rnd_M, rnd_A in *. rewrite u64_small by lia. cbv zeta.
    change (Z.land (seed * 16807) 2147483647) with (Z.land (seed * 16807) (Z.ones 31)).
    rewrite Z.land_ones, Z.shiftr_div_pow2 by lia.
    rewrite u32_small by (Z.div_mod_to_equations; lia).
    destruct (Z.ltb_spec 2147483647
      (seed * 16807 / 2 ^ 31 + (seed * 16807) mod 2 ^ 31)).
    - rewrite u32_small by (Z.div_mod_to_equations; lia). Z.div_mod_to_equations. lia.
    - Z.div_mod_to_equations. lia. }
  split; [done|]. rewrite E. pose proof (Z.mod_pos_bound (seed * rnd_A) rnd_M ltac:(done)). lia.
Qed.

Lemma random_next_correct_witness : 0 < Random_Next (newRandom 0xdeadbeef) < rnd_M.
Proof.
  apply (random_next_correct (newRandom 0xdeadbeef)). vm_compute. split; reflexivity.
Defined.
