(* ===== verification/Arena.v ===== *)
(** util/arena.{h,cc}: the bump allocator of memtables.  Addresses are numbers;
    the address [operator new] returns is an argument of the operations that
    may call it, and what is relied on (a fresh, aligned block) is a hypothesis
    of the theorem. *)

From S2P Require Import Prelude.
From stdpp Require Import base list sets.

#[local] Open Scope Z_scope.

Definition Arena_kBlockSize : Z := 4096.

(** [blocks_] keeps the size of each block beside its address. *)
Record Arena := mkArena {
  alloc_ptr_ : Z;
  alloc_bytes_remaining_ : Z;
  blocks_ : list (Z * Z);
  memory_usage_ : Z;
}.

Definition newArena : Arena := mkArena 0 0 [] 0.

(** [AllocateNewBlock(block_bytes)] when [new] returns [addr]. *)
Definition AllocateNewBlock (a : Arena) (addr block_bytes : Z) : Z * Arena :=
  (addr, mkArena (alloc_ptr_ a) (alloc_bytes_remaining_ a) (blocks_ a ++ [(addr, block_bytes)])
           (memory_usage_ a + (block_bytes + 8))).

Definition AllocateFallback (a : Arena) (addr n : Z) : Z * Arena :=
  if Arena_kBlockSize / 4 <? n then AllocateNewBlock a addr n
  else
    let '(p, a) := AllocateNewBlock a addr Arena_kBlockSize in
    (p, mkArena (p + n) (Arena_kBlockSize - n) (blocks_ a) (memory_usage_ a)).

Definition Allocate (a : Arena) (addr n : Z) : Z * Arena :=
  if n <=? alloc_bytes_remaining_ a then
    (alloc_ptr_ a, mkArena (alloc_ptr_ a + n) (alloc_bytes_remaining_ a - n)
                     (blocks_ a) (memory_usage_ a))
  else AllocateFallback a addr n.

Definition AllocateAligned (a : Arena) (addr n : Z) : Z * Arena :=
  let align := 8 in
  let current_mod := Z.land (alloc_ptr_ a) (align - 1) in
  let slop := if current_mod =? 0 then 0 else align - current_mod in
  let needed := n + slop in
  if needed <=? alloc_bytes_remaining_ a then
    (alloc_ptr_ a + slop, mkArena (alloc_ptr_ a + needed) (alloc_bytes_remaining_ a - needed)
                            (blocks_ a) (memory_usage_ a))
  else AllocateFallback a addr n.

Definition MemoryUsage (a : Arena) : Z := memory_usage_ a.

(** * A run of requests *)

(** One request: its size, whether it must be aligned, and the address [new]
    returns if it is called. *)
Record Request := mkRequest { req_bytes : Z; req_aligned : bool; req_new : Z }.

Definition serve (a : Arena) (q : Request) : Z * Arena :=
  if req_aligned q then AllocateAligned a (req_new q) (req_bytes q)
  else Allocate a (req_new q) (req_bytes q).

(** The regions handed out, newest first, and the arena. *)
Fixpoint run (a : Arena) (given : list (Z * Z)) (qs : list Request) : list (Z * Z) * Arena :=
  match qs with
  | [] => (given, a)
  | q :: qs => let '(p, a) := serve a q in run a ((p, req_bytes q) :: given) qs
  end.

Definition apart (r1 r2 : Z * Z) : Prop := r1.1 + r1.2 <= r2.1 \/ r2.1 + r2.2 <= r1.1.
Definition inside (r b : Z * Z) : Prop := b.1 <= r.1 /\ r.1 + r.2 <= b.1 + b.2.

(** What [new] promises at each request: memory that overlaps no block in use,
    aligned to eight bytes.  It is asked of the block the request would get. *)
Definition new_size (n : Z) : Z := if Arena_kBlockSize / 4 <? n then n else Arena_kBlockSize.

Fixpoint new_ok (a : Arena) (qs : list Request) : Prop :=
  match qs with
  | [] => True
  | q :: qs =>
      0 < req_bytes q /\ req_new q mod 8 = 0 /\
      Forall (apart (req_new q, new_size (req_bytes q))) (blocks_ a) /\
      new_ok (serve a q).2 qs
  end.

(** * The invariant *)

(** What [memory_usage_] should be: each block and its pointer. *)
Definition usage (blocks : list (Z * Z)) : Z :=
  fold_right (fun b u => b.2 + 8 + u) 0 blocks.

Record arena_inv (a : Arena) (given : list (Z * Z)) : Prop := {
  inv_given : Forall (fun r => exists b, b ∈ blocks_ a /\ inside r b) given;
  inv_apart : forall r1 r2 l1 l2 l3, given = l1 ++ r1 :: l2 ++ r2 :: l3 -> apart r1 r2;
  inv_rem : 0 <= alloc_bytes_remaining_ a;
  inv_free : 0 < alloc_bytes_remaining_ a ->
    (exists b, b ∈ blocks_ a /\ inside (alloc_ptr_ a, alloc_bytes_remaining_ a) b) /\
    Forall (apart (alloc_ptr_ a, alloc_bytes_remaining_ a)) given;
  inv_positive : Forall (fun r => 0 < r.2) given;
  inv_usage : memory_usage_ a = usage (blocks_ a);
}.
Arguments inv_given {a given} _.
Arguments inv_apart {a given} _.
Arguments inv_rem {a given} _.
Arguments inv_free {a given} _.
Arguments inv_positive {a given} _.
Arguments inv_usage {a given} _.

Lemma elem_of_snoc {A} (x y : A) l : x ∈ l ++ [y] <-> x ∈ l \/ x = y.
Proof. by rewrite elem_of_app, list_elem_of_singleton. Qed.

Lemma apart_sym r1 r2 : apart r1 r2 -> apart r2 r1.
Proof. unfold apart. tauto. Qed.

Lemma apart_inside r r' b : apart b r -> inside r' b -> apart r' r.
Proof. unfold apart, inside. lia. Qed.

(** A new region keeps the list pairwise apart. *)
Lemma apart_cons r given :
  (forall r1 r2 l1 l2 l3, given = l1 ++ r1 :: l2 ++ r2 :: l3 -> apart r1 r2) ->
  Forall (apart r) given ->
  forall r1 r2 l1 l2 l3, r :: given = l1 ++ r1 :: l2 ++ r2 :: l3 -> apart r1 r2.
Proof.
  intros Hp Hr r1 r2 l1 l2 l3 E. destruct l1 as [|x l1]; simplify_eq/=.
  - rewrite Forall_forall in Hr. apply Hr. set_solver.
  - by eapply Hp.
Qed.

(** Carving [slop + n] bytes off the front of the free space. *)
Lemma bump_inv a given n slop : arena_inv a given -> 0 < n -> 0 <= slop ->
  n + slop <= alloc_bytes_remaining_ a ->
  arena_inv (mkArena (alloc_ptr_ a + (n + slop)) (alloc_bytes_remaining_ a - (n + slop))
               (blocks_ a) (memory_usage_ a)) ((alloc_ptr_ a + slop, n) :: given).
Proof.
  intros [Hg Ha Hr Hf Hp Hu] Hn Hs Hle. destruct Hf as [(b & Hb & Hin) Hap]; [lia|].
  rewrite Forall_forall in Hap. unfold inside, apart in *. simpl in *.
  split; simpl; [|apply apart_cons; [done|]|lia| |by constructor|done].
  - constructor; [|done]. exists b. split; [done|]. unfold inside. simpl. lia.
  - apply Forall_forall. intros r Hr'. specialize (Hap r Hr'). unfold apart. simpl. lia.
  - intros Hpos. split; [exists b; split; [done|]; unfold inside; simpl; lia|].
    constructor; [unfold apart; simpl; lia|].
    apply Forall_forall. intros r Hr'. specialize (Hap r Hr'). unfold apart. simpl. lia.
Qed.

Lemma usage_app l b : usage (l ++ [b]) = usage l + (b.2 + 8).
Proof. unfold usage. induction l as [|x l IH]; simpl; lia. Qed.

(** A region inside a block apart from all blocks is apart from what they
    hold. *)
Lemma fresh_apart (r : Z * Z) (blocks given : list (Z * Z)) :
  Forall (apart r) blocks -> Forall (fun r => exists b, b ∈ blocks /\ inside r b) given ->
  Forall (apart r) given.
Proof.
  intros Hb Hg. rewrite Forall_forall in Hb. apply Forall_forall. intros g Hg'.
  rewrite Forall_forall in Hg. destruct (Hg g Hg') as (b & Hbin & Hin).
  apply apart_sym. eapply apart_inside; [|done]. by apply apart_sym, Hb.
Qed.

Lemma given_weaken blocks b given :
  Forall (fun r => exists b, b ∈ blocks /\ inside r b) given ->
  Forall (fun r => exists b', b' ∈ blocks ++ [b] /\ inside r b') given.
Proof. intros H. eapply Forall_impl; [done|]. simpl. intros r (b' & ? & ?). set_solver. Qed.

Lemma fallback_inv a given addr n : arena_inv a given -> 0 < n ->
  Forall (apart (addr, new_size n)) (blocks_ a) ->
  let '(p, a') := AllocateFallback a addr n in arena_inv a' ((p, n) :: given) /\ p = addr.
Proof.
  intros [Hg Ha Hr Hf Hp Hu] Hn Hfresh. unfold AllocateFallback, new_size in *.
  pose proof (fresh_apart _ _ _ Hfresh Hg) as Hap.
  destruct (Z.ltb_spec (Arena_kBlockSize / 4) n); simpl; (split; [|done]).
  - split; simpl; [|by apply apart_cons|done| |by constructor|].
    + constructor; [|by apply given_weaken]. exists (addr, n).
      split; [apply elem_of_snoc; by right|unfold inside; simpl; lia].
    + intros Hpos. destruct (Hf Hpos) as [(b & Hb & Hin) Hap'].
      split; [exists b; rewrite elem_of_snoc; auto|]. constructor; [|done].
      eapply apart_inside; [|done]. rewrite Forall_forall in Hfresh. by apply apart_sym, Hfresh.
    + rewrite usage_app, Hu. simpl. lia.
  - change (Arena_kBlockSize / 4) with 1024 in *. unfold Arena_kBlockSize in *.
    rewrite Forall_forall in Hap.
    split; simpl; [|apply apart_cons; [done|]|lia| |by constructor|].
    + constructor; [|by apply given_weaken]. exists (addr, 4096). unfold inside. simpl.
      split; [apply elem_of_snoc; by right|lia].
    + apply Forall_forall. intros r Hr'. specialize (Hap r Hr'). unfold apart in *. simpl in *. lia.
    + intros Hpos. split; [exists (addr, 4096); split; [apply elem_of_snoc; by right|]; unfold inside; simpl; lia|].
      constructor; [unfold apart; simpl; lia|].
      apply Forall_forall. intros r Hr'. specialize (Hap r Hr'). unfold apart in *. simpl in *. lia.
    + rewrite usage_app, Hu. simpl. lia.
Qed.

Lemma slop_spec p : let slop := if Z.land p 7 =? 0 then 0 else 8 - Z.land p 7 in
  0 <= slop < 8 /\ (p + slop) mod 8 = 0.
Proof.
  cbv zeta. change 7 with (Z.ones 3). rewrite Z.land_ones by lia. change (2 ^ 3) with 8.
  pose proof (Z.div_mod p 8 ltac:(lia)). pose proof (Z.mod_pos_bound p 8 ltac:(lia)).
  destruct (Z.eqb_spec (p mod 8) 0) as [E|E]; [rewrite Z.add_0_r; lia|]. split; [lia|].
  replace (p + (8 - p mod 8)) with ((p / 8 + 1) * 8) by lia. apply Z.mod_mul. lia.
Qed.

Lemma serve_inv a given q : arena_inv a given -> 0 < req_bytes q -> req_new q mod 8 = 0 ->
  Forall (apart (req_new q, new_size (req_bytes q))) (blocks_ a) ->
  let '(p, a') := serve a q in
  arena_inv a' ((p, req_bytes q) :: given) /\ (req_aligned q = true -> p mod 8 = 0).
Proof.
  intros Hinv Hn Hal Hfresh. unfold serve.
  pose proof (fallback_inv a given (req_new q) (req_bytes q) Hinv Hn Hfresh) as Hfb.
  destruct (req_aligned q).
  - unfold AllocateAligned. cbv zeta. change (8 - 1) with 7.
    pose proof (slop_spec (alloc_ptr_ a)) as Hslop. cbv zeta in Hslop.
    set (slop := if _ =? 0 then _ else _) in *. destruct Hslop as [Hr Hm].
    destruct (Z.leb_spec (req_bytes q + slop) (alloc_bytes_remaining_ a)).
    + split; [|done]. apply bump_inv; [done|lia..].
    + destruct (AllocateFallback _ _ _) as [p a']. destruct Hfb as [Hfb ->]. done.
  - unfold Allocate. destruct (Z.leb_spec (req_bytes q) (alloc_bytes_remaining_ a)).
    + split; [|done]. pose proof (bump_inv a given (req_bytes q) 0 Hinv Hn) as Hb.
      rewrite !Z.add_0_r in Hb. apply Hb; lia.
    + destruct (AllocateFallback _ _ _) as [p a']. destruct Hfb as [Hfb ->]. done.
Qed.

Lemma run_inv qs : forall a given, arena_inv a given -> new_ok a qs ->
  let '(regions, a') := run a given qs in arena_inv a' regions.
Proof.
  induction qs as [|q qs IH]; intros a given Hinv Hok; simpl; [done|].
  destruct Hok as (Hn & Hal & Hfresh & Hok).
  pose proof (serve_inv a given q Hinv Hn Hal Hfresh) as Hs.
  destruct (serve a q) as [p a']. apply IH; [apply Hs|done].
Qed.

Lemma newArena_inv : arena_inv newArena [].
Proof.
  split; simpl; [constructor| |lia|lia|constructor|done].
  intros r1 r2 l1 l2 l3 E. by destruct l1.
Qed.

(** Memory handed out by the arena never overlaps.  For any sequence of
    requests of at least one byte, when every block obtained from [new] is
    aligned and overlaps no block in use, the regions returned are pairwise
    disjoint and each lies inside one block of the arena, and [MemoryUsage] is
    the total size of the blocks with one pointer each. *)
Theorem arena_regions_disjoint (qs : list Request) (Hok : new_ok newArena qs)
    (regions : list (Z * Z)) (a : Arena) (Hrun : run newArena [] qs = (regions, a)) :
  (forall r1 r2 l1 l2 l3, regions = l1 ++ r1 :: l2 ++ r2 :: l3 -> apart r1 r2) /\
  Forall (fun r => exists b, b ∈ blocks_ a /\ inside r b) regions /\
  MemoryUsage a = usage (blocks_ a).
Proof.
  pose proof (run_inv qs newArena [] newArena_inv Hok) as Hinv. rewrite Hrun in Hinv.
  split; [apply (inv_apart Hinv)|]. split; [apply (inv_given Hinv)|apply (inv_usage Hinv)].
Qed.

(** Three requests: two share a block, the third is too large for one. *)
Lemma arena_regions_disjoint_witness :
  let qs := [mkRequest 5 false 8192; mkRequest 16 true 20000; mkRequest 5000 false 20000] in
  Forall (fun r => exists b, b ∈ blocks_ (run newArena [] qs).2 /\ inside r b)
    [(20000, 5000); (8200, 16); (8192, 5)].
Proof.
  cbv zeta.
  refine (proj1 (proj2 (arena_regions_disjoint
    [mkRequest 5 false 8192; mkRequest 16 true 20000; mkRequest 5000 false 20000] _ _ _ _))).
  - cbn. unfold Arena_kBlockSize.
    split; [lia|]. split; [reflexivity|]. split; [apply Forall_nil_2|].
    split; [lia|]. split; [reflexivity|].
    split; [apply Forall_singleton; right; vm_compute; discriminate|].
    split; [lia|]. split; [reflexivity|].
    split; [apply Forall_singleton; right; vm_compute; discriminate|exact I].
  - vm_compute. reflexivity.
Defined.
