(* ===== verification/SkipList.v ===== *)
(** db/skiplist.h: the ordered set behind a memtable, as a heap of nodes with
    arrays of links.  A pointer is a number, [head_] is node 0, and the memory a
    node gets is fresh (Arena).  The searches follow links until a null pointer,
    so they are given fuel; every lookup of a node or of a link that does not
    exist (a wild pointer in the source) makes them [None]. *)

From S2P Require Import Prelude Random.
From stdpp Require Import base list gmap sorting.

#[local] Open Scope Z_scope.

Definition kMaxHeight : nat := 12.
Definition kBranching : Z := 4.

Section SkipList.
(** [Key], [Comparator] and the key of [head_] ("any key will do"). *)
Context {K : Type} (compare_ : K -> K -> Z) (any_key : K).

Record Node := mkNode { key : K; next_ : list (option nat) }.

Record SkipList := mkSkipList {
  nodes : gmap nat Node;
  free_ : nat;
  max_height_ : nat;
  rnd_ : Z;
}.

Definition head_ : nat := 0.

(** * Nodes *)

Definition Next (s : SkipList) (x : nat) (n : nat) : option (option nat) :=
  nd ← nodes s !! x; next_ nd !! n.

Definition SetNext (s : SkipList) (x : nat) (n : nat) (v : option nat) : SkipList :=
  mkSkipList (alter (fun nd => mkNode (key nd) (<[n := v]> (next_ nd))) x (nodes s))
    (free_ s) (max_height_ s) (rnd_ s).

(** [NewNode(key, height)]; the links are not initialised by the source. *)
Definition NewNode (s : SkipList) (k : K) (height : nat) : nat * SkipList :=
  (free_ s, mkSkipList (<[free_ s := mkNode k (replicate height None)]> (nodes s))
              (S (free_ s)) (max_height_ s) (rnd_ s)).

Definition newSkipList : SkipList :=
  let s := mkSkipList ∅ 0 1 (newRandom 0xdeadbeef) in
  let '(h, s) := NewNode s any_key kMaxHeight in
  foldl (fun s i => SetNext s h i None) s (seq 0 kMaxHeight).

(** * Searching *)

(** [KeyIsAfterNode(key, n)]: [None] for a node that does not exist. *)
Definition KeyIsAfterNode (s : SkipList) (k : K) (n : option nat) : option bool :=
  match n with
  | None => Some false
  | Some a => nd ← nodes s !! a; Some (compare_ (key nd) k <? 0)
  end.

Fixpoint FindGreaterOrEqual_loop (fuel : nat) (s : SkipList) (k : K) (x level : nat)
    (prev : list nat) : option (option nat * list nat) :=
  match fuel with
  | O => None
  | S fuel' =>
      next ← Next s x level;
      after ← KeyIsAfterNode s k next;
      match after, next with
      | true, Some n => FindGreaterOrEqual_loop fuel' s k n level prev
      | _, _ =>
          let prev := <[level := x]> prev in
          match level with
          | O => Some (next, prev)
          | S level' => FindGreaterOrEqual_loop fuel' s k x level' prev
          end
      end
  end.

(** A search moves along each level at most once past every node. *)
Definition search_fuel (s : SkipList) : nat := free_ s + kMaxHeight.

(** [FindGreaterOrEqual(key, prev)]; the array [prev] starts uninitialised. *)
Definition FindGreaterOrEqual (s : SkipList) (k : K) : option (option nat * list nat) :=
  FindGreaterOrEqual_loop (search_fuel s) s k head_ (max_height_ s - 1)
    (replicate kMaxHeight head_).

Fixpoint FindLessThan_loop (fuel : nat) (s : SkipList) (k : K) (x level : nat) : option nat :=
  match fuel with
  | O => None
  | S fuel' =>
      next ← Next s x level;
      stop ← match next with
             | None => Some true
             | Some n => nd ← nodes s !! n; Some (0 <=? compare_ (key nd) k)
             end;
      match stop, next with
      | false, Some n => FindLessThan_loop fuel' s k n level
      | _, _ =>
          match level with
          | O => Some x
          | S level' => FindLessThan_loop fuel' s k x level'
          end
      end
  end.

Definition FindLessThan (s : SkipList) (k : K) : option nat :=
  FindLessThan_loop (search_fuel s) s k head_ (max_height_ s - 1).

Fixpoint FindLast_loop (fuel : nat) (s : SkipList) (x level : nat) : option nat :=
  match fuel with
  | O => None
  | S fuel' =>
      next ← Next s x level;
      match next with
      | None =>
          match level with
          | O => Some x
          | S level' => FindLast_loop fuel' s x level'
          end
      | Some n => FindLast_loop fuel' s n level
      end
  end.

Definition FindLast (s : SkipList) : option nat :=
  FindLast_loop (search_fuel s) s head_ (max_height_ s - 1).

(** * Insertion *)

(** The [while] loop of [RandomHeight]: the height and the new seed. *)
Fixpoint RandomHeight_loop (fuel : nat) (height : nat) (seed : Z) : nat * Z :=
  match fuel with
  | O => (height, seed)
  | S fuel' =>
      if (height <? kMaxHeight)%nat then
        let seed := Random_Next seed in
        if seed mod kBranching =? 0 then RandomHeight_loop fuel' (S height) seed
        else (height, seed)
      else (height, seed)
  end.

Definition RandomHeight (seed : Z) : nat * Z := RandomHeight_loop kMaxHeight 1 seed.

(** One pass of the linking loop: two stores. *)
Definition link_level (s : SkipList) (x : nat) (prev : list nat) (i : nat) : option SkipList :=
  p ← prev !! i;
  n ← Next s p i;
  Some (SetNext (SetNext s x i n) p i (Some x)).

Fixpoint link_loop (fuel : nat) (s : SkipList) (x : nat) (prev : list nat) (i : nat)
    : option SkipList :=
  match fuel with
  | O => Some s
  | S fuel' => s ← link_level s x prev i; link_loop fuel' s x prev (S i)
  end.

Definition set_rnd (r : Z) (s : SkipList) : SkipList :=
  mkSkipList (nodes s) (free_ s) (max_height_ s) r.
Definition set_max_height (h : nat) (s : SkipList) : SkipList :=
  mkSkipList (nodes s) (free_ s) h (rnd_ s).

(** [prev[i] = head_] for [i] in [from, to). *)
Definition fill_prev (prev : list nat) (from to : nat) : list nat :=
  foldl (fun prev i => <[i := head_]> prev) prev (seq from (to - from)).

(** [assert(x == nullptr || !Equal(key, x->key))]: no duplicate insertion. *)
Definition assert_new (s : SkipList) (k : K) (x : option nat) : option unit :=
  match x with
  | None => Some tt
  | Some n => nd ← nodes s !! n; if compare_ k (key nd) =? 0 then None else Some tt
  end.

(** [None] is a failed assertion (or a wild pointer). *)
Definition Insert (s : SkipList) (k : K) : option SkipList :=
  '(x, prev) ← FindGreaterOrEqual s k;
  _ ← assert_new s k x;
  let '(height, seed) := RandomHeight (rnd_ s) in
  let s := set_rnd seed s in
  let '(prev, s) :=
    if (max_height_ s <? height)%nat
    then (fill_prev prev (max_height_ s) height, set_max_height height s)
    else (prev, s) in
  let '(x, s) := NewNode s k height in
  link_loop height s x prev 0.

Definition Contains (s : SkipList) (k : K) : option bool :=
  '(x, _) ← FindGreaterOrEqual s k;
  match x with
  | None => Some false
  | Some n => nd ← nodes s !! n; Some (compare_ k (key nd) =? 0)
  end.

(** * Iterators: the node, null when invalid *)

Definition iter_Valid (node_ : option nat) : bool := bool_decide (node_ <> None).
Definition iter_key (s : SkipList) (node_ : option nat) : option K :=
  a ← node_; nd ← nodes s !! a; Some (key nd).
Definition iter_Next (s : SkipList) (node_ : option nat) : option (option nat) :=
  a ← node_; Next s a 0.
Definition iter_Prev (s : SkipList) (node_ : option nat) : option (option nat) :=
  a ← node_; nd ← nodes s !! a; x ← FindLessThan s (key nd);
  Some (if (x =? head_)%nat then None else Some x).
Definition iter_Seek (s : SkipList) (target : K) : option (option nat) :=
  fst <$> FindGreaterOrEqual s target.
Definition iter_SeekToFirst (s : SkipList) : option (option nat) := Next s head_ 0.
Definition iter_SeekToLast (s : SkipList) : option (option nat) :=
  x ← FindLast s; Some (if (x =? head_)%nat then None else Some x).
End SkipList.
Arguments Node K : clear implicits.
Arguments SkipList K : clear implicits.
Arguments mkNode {K} _ _.
Arguments mkSkipList {K} _ _ _ _.
Arguments RandomHeight _ : simpl never.
