(* ===== verification/SkipListProofs.v ===== *)
(** Correctness of the skip list (SkipList).  The abstraction of a heap is the
    list of its nodes in order, each with the number of levels at which it is
    linked; a node being inserted is linked at its lower levels only.  Searches
    return the lower bound of the target in that list, insertion adds the key at
    its place, and a reader running between the stores of a writer sees either
    the old or the new list. *)

From stdpp Require Import base list gmap sorting.
From S2P Require Import Prelude Random SkipList.

#[local] Open Scope Z_scope.

Section Proofs.
Context {K : Type} (compare_ : K -> K -> Z) (any_key : K).
Implicit Types s : SkipList K.

(** * The abstraction *)

(** A node: its address, key, and the levels at which it is linked. *)
Record Ent := mkEnt { eaddr : nat; ekey : K; eh : nat }.
Definition hd_ent : Ent := mkEnt head_ any_key kMaxHeight.

(** The entries of a level, and the first and last of them. *)
Definition at_level (i : nat) (l : list Ent) : list Ent := filter (fun e => (i < eh e)%nat) l.
Definition nxt (i : nat) (post : list Ent) : option nat := eaddr <$> head (at_level i post).
Definition last_at (i : nat) (l : list Ent) : option nat := eaddr <$> last (at_level i l).

Definition node_ok s (e : Ent) (post : list Ent) : Prop :=
  exists nd, nodes s !! eaddr e = Some nd /\ key nd = ekey e /\
    (eh e <= length (next_ nd))%nat /\
    forall i, (i < eh e)%nat -> next_ nd !! i = Some (nxt i post).

Fixpoint linked s (l : list Ent) : Prop :=
  match l with
  | [] => True
  | e :: post => node_ok s e post /\ linked s post
  end.

Definition before (k : K) (e : Ent) : Prop := compare_ (ekey e) k < 0.
Definition ent_lt (a b : Ent) : Prop := compare_ (ekey a) (ekey b) < 0.

Lemma at_level_app i a b : at_level i (a ++ b) = at_level i a ++ at_level i b.
Proof. apply filter_app. Qed.

Lemma at_level_cons_in i e l : (i < eh e)%nat -> at_level i (e :: l) = e :: at_level i l.
Proof. intros. by apply filter_cons_True. Qed.

Lemma at_level_cons_out i e l : ~ (i < eh e)%nat -> at_level i (e :: l) = at_level i l.
Proof. intros. by apply filter_cons_False. Qed.

Lemma at_level_none n j l : Forall (fun e => (eh e <= n)%nat) l -> (n <= j)%nat -> at_level j l = [].
Proof.
  intros Hl Hj. induction Hl as [|e l He _ IH]; [done|]. by rewrite at_level_cons_out by lia.
Qed.

Lemma at_level_split i l e r : at_level i l = e :: r ->
  exists l1 l2, l = l1 ++ e :: l2 /\ at_level i l1 = [] /\ (i < eh e)%nat.
Proof.
  induction l as [|x l IH]; [done|].
  destruct (decide (i < eh x)%nat) as [Hx|Hx].
  - rewrite at_level_cons_in by done. intros [= -> _]. by exists [], l.
  - rewrite at_level_cons_out by done. intros E.
    destruct (IH E) as (l1 & l2 & -> & Hl1 & He). exists (x :: l1), l2.
    by rewrite at_level_cons_out.
Qed.

Lemma nxt_app_nil i a b : at_level i a = [] -> nxt i (a ++ b) = nxt i b.
Proof. intros E. unfold nxt. by rewrite at_level_app, E. Qed.

Lemma nxt_app_cons i a b e r : at_level i a = e :: r -> nxt i (a ++ b) = Some (eaddr e).
Proof. intros E. unfold nxt. by rewrite at_level_app, E. Qed.

Lemma last_at_app i a b : at_level i b <> [] -> last_at i (a ++ b) = last_at i b.
Proof.
  intros Hb. unfold last_at. rewrite at_level_app. f_equal.
  destruct (at_level i b) as [|e r]; [done|]. clear. induction (at_level i a) as [|x l IH]; [done|].
  simpl. rewrite <- IH. by destruct l.
Qed.

Lemma last_at_single i e l : (i < eh e)%nat -> at_level i l = [] -> last_at i (e :: l) = Some (eaddr e).
Proof. intros He Hl. unfold last_at. by rewrite at_level_cons_in, Hl. Qed.

Lemma linked_app s a b : linked s (a ++ b) -> linked s b.
Proof. induction a as [|e a IH]; simpl; [done|]. intros [_ H]. by apply IH. Qed.

Lemma linked_at s a e b : linked s (a ++ e :: b) -> node_ok s e b.
Proof. intros H. by apply linked_app in H as [H _]. Qed.

Lemma node_ok_Next s e post i : node_ok s e post -> (i < eh e)%nat ->
  Next s (eaddr e) i = Some (nxt i post).
Proof. intros (nd & E & _ & _ & Hn) Hi. unfold Next. rewrite E. simpl. by apply Hn. Qed.

Lemma node_ok_key s e post : node_ok s e post ->
  exists nd, nodes s !! eaddr e = Some nd /\ key nd = ekey e.
Proof. intros (nd & E & Hk & _). eauto. Qed.

(** * The search shared by the three lookup loops *)

(** Move right while [go] holds of the next node, otherwise down. *)
Fixpoint search_loop (go : K -> bool) (fuel : nat) s (x level : nat) (prev : list nat)
    : option (option nat * nat * list nat) :=
  match fuel with
  | O => None
  | S fuel' =>
      next ← Next s x level;
      after ← match next with
              | None => Some false
              | Some a => nd ← nodes s !! a; Some (go (key nd))
              end;
      match after, next with
      | true, Some n => search_loop go fuel' s n level prev
      | _, _ =>
          match level with
          | O => Some (next, x, <[level := x]> prev)
          | S level' => search_loop go fuel' s x level' (<[level := x]> prev)
          end
      end
  end.

Lemma FindGreaterOrEqual_search fuel s k : forall x level prev,
  FindGreaterOrEqual_loop compare_ fuel s k x level prev =
    (fun r => (r.1.1, r.2)) <$> search_loop (fun k' => compare_ k' k <? 0) fuel s x level prev.
Proof.
  induction fuel as [|fuel IH]; intros x level prev; simpl; [done|].
  destruct (Next s x level) as [[n|]|]; simpl; [|by destruct level; simpl|done].
  destruct (nodes s !! n) as [nd|]; simpl; [|done].
  destruct (_ <? 0); [apply IH|]. destruct level; [done|apply IH].
Qed.

Lemma FindLessThan_search fuel s k : forall x level prev,
  FindLessThan_loop compare_ fuel s k x level =
    (fun r => r.1.2) <$> search_loop (fun k' => compare_ k' k <? 0) fuel s x level prev.
Proof.
  induction fuel as [|fuel IH]; intros x level prev; simpl; [done|].
  destruct (Next s x level) as [[n|]|]; simpl; [|by destruct level; simpl; try apply IH|done].
  destruct (nodes s !! n) as [nd|]; simpl; [|done].
  rewrite (Z.leb_antisym _ 0). destruct (_ <? 0); simpl; [apply IH|].
  destruct level; [done|apply IH].
Qed.

(** From [ex], with [go] true of exactly [mid] among what follows: the search
    ends before [hi], leaving in [prev] the last node of each level. *)
Lemma search_loop_spec go s hi : (forall e, e ∈ hi -> go (ekey e) = false) ->
  forall fuel pre ex mid level prev,
  linked s (pre ++ ex :: mid ++ hi) -> (level < eh ex)%nat ->
  (forall e, e ∈ mid -> go (ekey e) = true) ->
  (length mid + level < fuel)%nat -> (level < length prev)%nat ->
  exists x prev', search_loop go fuel s (eaddr ex) level prev = Some (nxt 0 hi, x, prev') /\
    last_at 0 (ex :: mid) = Some x /\ length prev' = length prev /\
    (forall i, (i <= level)%nat -> prev' !! i = last_at i (ex :: mid)) /\
    (forall i, (level < i)%nat -> prev' !! i = prev !! i).
Proof.
  intros Hhi. induction fuel as [|fuel IH]; intros pre ex mid level prev Hl Hlev Hmid Hf Hp; [lia|].
  pose proof (linked_at _ _ _ _ Hl) as Hex. simpl.
  rewrite (node_ok_Next _ _ _ _ Hex Hlev). simpl.
  destruct (at_level level mid) as [|e r] eqn:E.
  - (* nothing left of the target at this level: down *)
    rewrite (nxt_app_nil _ _ _ E).
    assert (Hafter : match nxt level hi with
              | None => Some false
              | Some a => nd ← nodes s !! a; Some (go (key nd)) end = Some false).
    { destruct (at_level level hi) as [|e r] eqn:Eh; unfold nxt; rewrite Eh; simpl; [done|].
      destruct (at_level_split _ _ _ _ Eh) as (h1 & h2 & -> & _ & _).
      rewrite app_comm_cons, app_assoc, app_assoc in Hl.
      destruct (node_ok_key _ _ _ (linked_at _ _ _ _ Hl)) as (nd & -> & Hk). simpl.
      rewrite Hk, Hhi by set_solver. done. }
    rewrite Hafter. simpl.
    assert (Hx : last_at level (ex :: mid) = Some (eaddr ex)) by by apply last_at_single.
    destruct level as [|level].
    + exists (eaddr ex), (<[0%nat := eaddr ex]> prev). rewrite length_insert.
      repeat split; [done| |].
      * intros i Hi. replace i with 0%nat by lia. by rewrite list_lookup_insert_eq.
      * intros i Hi. by rewrite list_lookup_insert_ne by lia.
    + destruct (IH pre ex mid level (<[S level := eaddr ex]> prev)) as
        (x & prev' & -> & Hlast & Hlen & Hlo & Hhi'); [done|lia|done|lia|rewrite length_insert; lia|].
      rewrite length_insert in Hlen. exists x, prev'. repeat split; [done|done| |].
      * intros i Hi. destruct (decide (i = S level)) as [->|]; [|apply Hlo; lia].
        rewrite Hhi' by lia. by rewrite list_lookup_insert_eq by lia.
      * intros i Hi. rewrite Hhi' by lia. by rewrite list_lookup_insert_ne by lia.
  - (* the next node is still left of the target: right *)
    rewrite (nxt_app_cons _ _ _ _ _ E).
    destruct (at_level_split _ _ _ _ E) as (m1 & m2 & -> & _ & He).
    assert (Hl' : linked s ((pre ++ ex :: m1) ++ e :: m2 ++ hi)).
    { by rewrite <- !app_assoc in *. }
    destruct (node_ok_key _ _ _ (linked_at _ _ _ _ Hl')) as (nd & -> & Hk). simpl.
    rewrite Hk, Hmid by set_solver.
    destruct (IH (pre ++ ex :: m1) e m2 level prev) as
      (x & prev' & -> & Hlast & Hlen & Hlo & Hhi'); [done|done|set_solver| |done|].
    { rewrite length_app in Hf. simpl in Hf. lia. }
    assert (Hl1 : forall i, (i <= level)%nat ->
      last_at i (ex :: m1 ++ e :: m2) = last_at i (e :: m2)).
    { intros i Hi. rewrite app_comm_cons. apply last_at_app.
      by rewrite at_level_cons_in by lia. }
    exists x, prev'. repeat split; [by rewrite Hl1 by lia|done| |done].
    intros i Hi. rewrite Hl1 by done. by apply Hlo.
Qed.

(** * Updating the heap *)

Lemma SetNext_lookup s x n v y : nodes (SetNext s x n v) !! y =
  if decide (y = x) then (fun nd => mkNode (key nd) (<[n := v]> (next_ nd))) <$> nodes s !! x
  else nodes s !! y.
Proof.
  unfold SetNext. simpl. case_decide as E; [subst; by rewrite lookup_alter_eq|].
  by rewrite lookup_alter_ne.
Qed.

(** Changing the tail of the list, when the nodes before it are untouched and
    their successors are the same. *)
Lemma linked_update s s' l tl tl' :
  (forall e, e ∈ l -> nodes s' !! eaddr e = nodes s !! eaddr e) ->
  (forall l1 e l2 j, l = l1 ++ e :: l2 -> (j < eh e)%nat -> nxt j (l2 ++ tl) = nxt j (l2 ++ tl')) ->
  linked s (l ++ tl) -> linked s' tl' -> linked s' (l ++ tl').
Proof.
  induction l as [|e l IH]; intros Hn Hnxt Hl Htl; simpl in *; [done|].
  destruct Hl as [(nd & E & Hk & Hlen & Hi) Hl]. split.
  - exists nd. rewrite Hn by set_solver. repeat split; try done.
    intros i Hlt. rewrite Hi by done. f_equal. by apply (Hnxt [] e l i).
  - apply IH; [set_solver| |done|done]. intros l1 x l2 j -> Hj. by apply (Hnxt (e :: l1) x l2).
Qed.

Lemma linked_frame s s' l :
  (forall e, e ∈ l -> nodes s' !! eaddr e = nodes s !! eaddr e) -> linked s l -> linked s' l.
Proof.
  intros Hn Hl. rewrite <- (app_nil_r l). eapply linked_update; [done|done| |done].
  by rewrite app_nil_r.
Qed.

(** Raising an entry from level [i] to level [S i] only matters at level [i]. *)
Lemma nxt_raise j i a k l hi : j <> i ->
  nxt j (l ++ mkEnt a k i :: hi) = nxt j (l ++ mkEnt a k (S i) :: hi).
Proof.
  intros Hj. unfold nxt. rewrite !at_level_app. destruct (at_level j l); [|done]. simpl.
  destruct (decide (j < i)%nat).
  - by rewrite !at_level_cons_in by (simpl; lia).
  - by rewrite !at_level_cons_out by (simpl; lia).
Qed.

Lemma nxt_before j l tl tl' : at_level j l <> [] -> nxt j (l ++ tl) = nxt j (l ++ tl').
Proof.
  intros Hl. destruct (at_level j l) as [|e r] eqn:E; [done|].
  by rewrite !(nxt_app_cons _ _ _ _ _ E).
Qed.

Lemma last_at_split i l p : last_at i l = Some p ->
  exists l1 e l2, l = l1 ++ e :: l2 /\ eaddr e = p /\ (i < eh e)%nat /\ at_level i l2 = [].
Proof.
  induction l as [|x l IH]; [done|]. intros E.
  destruct (at_level i l) as [|y r] eqn:El.
  - destruct (decide (i < eh x)%nat) as [Hx|Hx].
    + rewrite last_at_single in E by done. simplify_eq. by exists [], x, l.
    + unfold last_at in E. by rewrite at_level_cons_out, El in E.
  - change (x :: l) with ([x] ++ l) in E. rewrite last_at_app in E by by rewrite El.
    destruct (IH E) as (l1 & e & l2 & -> & He & Hi & Hl2). by exists (x :: l1), e, l2.
Qed.

(** One pass of the linking loop raises the new node by one level. *)
Lemma link_level_spec s lo hi a k i p prev nd :
  linked s (hd_ent :: lo ++ mkEnt a k i :: hi) ->
  NoDup (eaddr <$> hd_ent :: lo ++ mkEnt a k i :: hi) ->
  prev !! i = Some p -> last_at i (hd_ent :: lo) = Some p ->
  nodes s !! a = Some nd -> (i < length (next_ nd))%nat ->
  exists s', link_level s a prev i = Some s' /\
    linked s' (hd_ent :: lo ++ mkEnt a k (S i) :: hi) /\
    (exists nd', nodes s' !! a = Some nd' /\ length (next_ nd') = length (next_ nd)) /\
    free_ s' = free_ s /\ max_height_ s' = max_height_ s /\ rnd_ s' = rnd_ s.
Proof.
  intros Hl Hnd Hp Hlast Ha Hlen. unfold link_level. rewrite Hp. simpl.
  destruct (last_at_split _ _ _ Hlast) as (l1 & e & l2 & Hsplit & He & Hi & Hl2).
  rewrite app_comm_cons, Hsplit in Hl, Hnd. rewrite <- app_assoc in Hl, Hnd. simpl in Hl, Hnd.
  assert (HNext : Next s p i = Some (nxt i hi)).
  { rewrite <- He. rewrite (node_ok_Next s e (l2 ++ mkEnt a k i :: hi) i);
      [|by apply linked_at in Hl|done].
    rewrite nxt_app_nil by done. unfold nxt. rewrite at_level_cons_out by (simpl; lia). done. }
  rewrite HNext. simpl. eexists. split; [done|].
  set (s1 := SetNext s a i (nxt i hi)). set (s2 := SetNext s1 p i (Some a)).
  rewrite fmap_app, fmap_cons, fmap_app, fmap_cons in Hnd. simpl in Hnd.
  apply NoDup_app in Hnd as (Hnd1 & Hnd12 & Hnd2).
  apply NoDup_cons in Hnd2 as [Hpe Hnd2]. apply NoDup_app in Hnd2 as (Hnd3 & Hnd34 & Hnd4).
  apply NoDup_cons in Hnd4 as [Hahi Hnd4].
  assert (Hap : a <> p) by set_solver.
  assert (Hother : forall y, y <> a -> y <> p -> nodes s2 !! y = nodes s !! y).
  { intros y H1 H2. unfold s2, s1. rewrite !SetNext_lookup. by rewrite !decide_False. }
  assert (Hna : nodes s2 !! a = Some (mkNode (key nd) (<[i := nxt i hi]> (next_ nd)))).
  { unfold s2, s1. rewrite !SetNext_lookup. rewrite decide_False by done.
    rewrite decide_True by done. by rewrite Ha. }
  split; [|split; [|done]].
  2: { eexists. split; [done|]. simpl. by rewrite length_insert. }
  change (linked s2 (hd_ent :: lo ++ mkEnt a k (S i) :: hi)).
  rewrite app_comm_cons, Hsplit, <- app_assoc. cbn [app].
  assert (Hin : forall x l, x ∈ l -> eaddr x ∈ eaddr <$> l) by (intros; by apply list_elem_of_fmap_2).
  (* the entries before the predecessor *)
  eapply linked_update; [| |exact Hl|].
  { intros x Hx. apply Hin in Hx. apply Hother; intros Heq; rewrite Heq in Hx; set_solver. }
  { intros m1 x m2 j _ Hj. destruct (decide (j = i)) as [->|Hji].
    - change (e :: l2 ++ ?t) with ((e :: l2) ++ t). rewrite !app_assoc. apply nxt_before.
      rewrite at_level_app, at_level_cons_in by done. by destruct (at_level i m2).
    - change (e :: l2 ++ ?t) with ((e :: l2) ++ t). rewrite !app_assoc. by apply nxt_raise. }
  apply linked_app in Hl. simpl in Hl. destruct Hl as [(ne & Ee & Hke & Hle & Hie) Hl].
  simpl. split.
  { (* the predecessor *)
    rewrite He in Ee.
    exists (mkNode (key ne) (<[i := Some a]> (next_ ne))). rewrite He. split.
    { unfold s2, s1. rewrite !SetNext_lookup, decide_True by done.
      rewrite decide_False by done. by rewrite Ee. }
    simpl. rewrite length_insert. repeat split; [done|done|]. intros j Hj.
    destruct (decide (j = i)) as [->|Hji].
    - rewrite list_lookup_insert_eq by lia. rewrite nxt_app_nil by done. unfold nxt.
      by rewrite at_level_cons_in by (simpl; lia).
    - rewrite list_lookup_insert_ne by done. rewrite Hie by done. f_equal. by apply nxt_raise. }
  (* the entries between the predecessor and the new node *)
  eapply linked_update; [| |exact Hl|].
  { intros x Hx. apply Hin in Hx. apply Hother; intros Heq; rewrite Heq in Hx; set_solver. }
  { intros m1 x m2 j -> Hj. apply nxt_raise. intros ->.
    rewrite at_level_app, at_level_cons_in in Hl2 by done. by destruct (at_level i m1). }
  apply linked_app in Hl. simpl in Hl. destruct Hl as [(na & Ea & Hka & Hla & Hia) Hl].
  simpl in *. simplify_eq. split.
  { (* the new node *)
    eexists. split; [done|]. simpl. rewrite length_insert. split; [done|]. split; [lia|].
    intros j Hj. destruct (decide (j = i)) as [->|Hji].
    - by rewrite list_lookup_insert_eq.
    - rewrite list_lookup_insert_ne by done. apply Hia. lia. }
  eapply linked_frame; [|done]. intros x Hx. apply Hin in Hx. apply Hother; intros Heq; rewrite Heq in Hx; set_solver.
Qed.

(** * The invariant *)

Record inv s (ns : list Ent) : Prop := mk_inv {
  inv_linked : linked s (hd_ent :: ns);
  inv_nodup : NoDup (eaddr <$> hd_ent :: ns);
  inv_sorted : StronglySorted ent_lt ns;
  inv_fresh : Forall (fun e => (eaddr e < free_ s)%nat) (hd_ent :: ns);
  inv_count : (length ns < free_ s)%nat;
  inv_heights : Forall (fun e => (eh e <= max_height_ s)%nat) ns;
  inv_max : (1 <= max_height_ s <= kMaxHeight)%nat;
}.

Context `{!TotalCompare compare_}.

(** Sorted entries split around any key. *)
Lemma sorted_partition k ns : StronglySorted ent_lt ns ->
  exists lo hi, ns = lo ++ hi /\ Forall (before k) lo /\ Forall (fun e => ~ before k e) hi.
Proof.
  induction 1 as [|e ns Hs IH Hlt]; [by exists [], []|].
  destruct (decide (compare_ (ekey e) k < 0)) as [Hb|Hb].
  - destruct IH as (lo & hi & -> & Hlo & Hhi). exists (e :: lo), hi. by repeat constructor.
  - exists [], (e :: ns). split; [done|]. split; [constructor|]. constructor; [done|].
    eapply Forall_impl; [done|]. simpl. intros e' Hee' Hb'. unfold before, ent_lt in *.
    apply Hb. by apply (tc_lt_trans compare_ _ (ekey e')).
Qed.

Lemma go_before k e : before k e -> (compare_ (ekey e) k <? 0) = true.
Proof. unfold before. lia. Qed.

Lemma go_not_before k e : ~ before k e -> (compare_ (ekey e) k <? 0) = false.
Proof. unfold before. lia. Qed.

Lemma last_at_hd i lo : (i < kMaxHeight)%nat -> exists p, last_at i (hd_ent :: lo) = Some p.
Proof.
  intros Hi. unfold last_at. rewrite at_level_cons_in by done.
  destruct (at_level i lo) as [|e r] using rev_ind; [by eexists|].
  rewrite app_comm_cons, last_snoc. by eexists.
Qed.

(** All three searches, from the invariant. *)
Lemma search_spec s lo hi go :
  linked s (hd_ent :: lo ++ hi) -> (length (lo ++ hi) < free_ s)%nat ->
  (1 <= max_height_ s <= kMaxHeight)%nat ->
  Forall (fun e => go (ekey e) = true) lo -> Forall (fun e => go (ekey e) = false) hi ->
  exists x prev,
    search_loop go (search_fuel s) s head_ (max_height_ s - 1) (replicate kMaxHeight head_) =
      Some (nxt 0 hi, x, prev) /\ last_at 0 (hd_ent :: lo) = Some x /\
    length prev = kMaxHeight /\
    forall i, (i < max_height_ s)%nat -> prev !! i = last_at i (hd_ent :: lo).
Proof.
  intros Hl Hc Hm Hlo Hhi. rewrite Forall_forall in Hlo, Hhi.
  destruct (search_loop_spec go s hi Hhi (search_fuel s) [] hd_ent lo (max_height_ s - 1)
    (replicate kMaxHeight head_)) as (x & prev & E & Hx & Hlen & Hp & _).
  - done.
  - simpl. lia.
  - done.
  - unfold search_fuel. rewrite length_app in Hc. lia.
  - rewrite length_replicate. lia.
  - exists x, prev. rewrite length_replicate in Hlen. repeat split; [done|done|done|].
    intros i Hi. apply Hp. lia.
Qed.

Lemma FindGreaterOrEqual_spec s lo hi k : inv s (lo ++ hi) ->
  Forall (before k) lo -> Forall (fun e => ~ before k e) hi ->
  exists prev, FindGreaterOrEqual compare_ s k = Some (nxt 0 hi, prev) /\
    length prev = kMaxHeight /\
    forall i, (i < max_height_ s)%nat -> prev !! i = last_at i (hd_ent :: lo).
Proof.
  intros [Hl _ _ _ Hc _ Hm] Hlo Hhi.
  destruct (search_spec s lo hi (fun k' => compare_ k' k <? 0) Hl Hc Hm)
    as (x & prev & E & _ & Hlen & Hp).
  { eapply Forall_impl; [done|]. apply go_before. }
  { eapply Forall_impl; [done|]. apply go_not_before. }
  exists prev. unfold FindGreaterOrEqual. rewrite FindGreaterOrEqual_search, E. done.
Qed.

Lemma FindLessThan_spec s lo hi k : inv s (lo ++ hi) ->
  Forall (before k) lo -> Forall (fun e => ~ before k e) hi ->
  FindLessThan compare_ s k = last_at 0 (hd_ent :: lo).
Proof.
  intros [Hl _ _ _ Hc _ Hm] Hlo Hhi.
  destruct (search_spec s lo hi (fun k' => compare_ k' k <? 0) Hl Hc Hm)
    as (x & prev & E & Hx & _).
  { eapply Forall_impl; [done|]. apply go_before. }
  { eapply Forall_impl; [done|]. apply go_not_before. }
  unfold FindLessThan. rewrite (FindLessThan_search _ _ _ _ _ (replicate kMaxHeight head_)), E.
  by rewrite Hx.
Qed.

(** [FindLast]: the same walk with nothing to stop it. *)
Lemma FindLast_loop_spec s : forall fuel pre ex mid level,
  linked s (pre ++ ex :: mid) -> (level < eh ex)%nat -> (length mid + level < fuel)%nat ->
  FindLast_loop fuel s (eaddr ex) level = last_at 0 (ex :: mid).
Proof.
  induction fuel as [|fuel IH]; intros pre ex mid level Hl Hlev Hf; [lia|].
  simpl. rewrite (node_ok_Next _ _ _ _ (linked_at _ _ _ _ Hl) Hlev). simpl.
  destruct (at_level level mid) as [|e r] eqn:E.
  - unfold nxt. rewrite E. simpl. destruct level as [|level].
    + by rewrite last_at_single.
    + apply (IH pre ex mid); [done|lia|lia].
  - destruct (at_level_split _ _ _ _ E) as (m1 & m2 & -> & _ & He).
    unfold nxt. rewrite E. simpl. rewrite length_app in Hf. simpl in Hf.
    rewrite (IH (pre ++ ex :: m1) e m2); [|by rewrite <- app_assoc|done|lia].
    rewrite app_comm_cons, last_at_app; [done|]. by rewrite at_level_cons_in by lia.
Qed.

Lemma FindLast_spec s ns : inv s ns -> FindLast s = last_at 0 (hd_ent :: ns).
Proof.
  intros [Hl _ _ _ Hc _ Hm]. unfold FindLast. apply (FindLast_loop_spec s _ [] hd_ent ns); [done| |].
  - simpl. lia.
  - unfold search_fuel. lia.
Qed.

(** * Insertion *)

Lemma RandomHeight_loop_range fuel : forall h seed, (1 <= h <= kMaxHeight)%nat ->
  (1 <= (RandomHeight_loop fuel h seed).1 <= kMaxHeight)%nat.
Proof.
  induction fuel as [|fuel IH]; intros h seed Hh; cbn [RandomHeight_loop]; [exact Hh|].
  destruct (Nat.ltb_spec h kMaxHeight); [|exact Hh].
  destruct (_ =? 0); [apply IH; lia|exact Hh].
Qed.

Lemma RandomHeight_range seed : (1 <= (RandomHeight seed).1 <= kMaxHeight)%nat.
Proof. apply RandomHeight_loop_range. unfold kMaxHeight. lia. Qed.

Lemma fill_prev_length prev from to : length (fill_prev prev from to) = length prev.
Proof.
  unfold fill_prev. generalize (seq from (to - from)). intros l. revert prev.
  induction l as [|i l IH]; intros prev; simpl; [done|]. by rewrite IH, length_insert.
Qed.

Lemma fill_prev_lookup prev from to i : (to <= length prev)%nat ->
  fill_prev prev from to !! i =
    if decide (from <= i < to)%nat then Some head_ else prev !! i.
Proof.
  unfold fill_prev. intros Hto. remember (to - from)%nat as n eqn:En.
  revert prev from to Hto En. induction n as [|n IH]; intros prev from to Hto En; simpl.
  { by rewrite decide_False by lia. }
  rewrite (IH _ _ to) by (rewrite ?length_insert; lia). repeat case_decide; try done; try lia.
  - assert (i = from) as -> by lia. by rewrite list_lookup_insert_eq by lia.
  - by rewrite list_lookup_insert_ne by lia.
Qed.

Lemma link_loop_spec fuel : forall s lo hi a k i prev nd,
  linked s (hd_ent :: lo ++ mkEnt a k i :: hi) ->
  NoDup (eaddr <$> hd_ent :: lo ++ mkEnt a k i :: hi) ->
  (forall j, (i <= j < i + fuel)%nat -> prev !! j = last_at j (hd_ent :: lo)) ->
  nodes s !! a = Some nd -> (i + fuel <= length (next_ nd))%nat -> (i + fuel <= kMaxHeight)%nat ->
  exists s', link_loop fuel s a prev i = Some s' /\
    linked s' (hd_ent :: lo ++ mkEnt a k (i + fuel) :: hi) /\
    free_ s' = free_ s /\ max_height_ s' = max_height_ s /\ rnd_ s' = rnd_ s.
Proof.
  induction fuel as [|fuel IH]; intros s lo hi a k i prev nd Hl Hnd Hp Ha Hlen Hmax.
  { exists s. rewrite Nat.add_0_r. done. }
  destruct (last_at_hd i lo) as [p Hlast]; [lia|].
  destruct (link_level_spec s lo hi a k i p prev nd) as
    (s1 & E & Hl1 & (nd' & Ha' & Hlen') & Hf & Hm & Hr);
    [done|done|rewrite Hp by lia; done|done|done|lia|].
  destruct (IH s1 lo hi a k (S i) prev nd') as (s' & E' & Hl' & Hf' & Hm' & Hr');
    [done| |intros j Hj; apply Hp; lia|done|lia|lia|].
  { rewrite fmap_cons, fmap_app, fmap_cons in *. done. }
  exists s'. replace (i + S fuel)%nat with (S i + fuel)%nat by lia.
  cbn [link_loop]. rewrite E. cbn [mbind option_bind]. rewrite Hf', Hm', Hr'. done.
Qed.

(** Entries not linked anywhere are invisible. *)
Lemma nxt_unlinked j a k l hi : nxt j (l ++ hi) = nxt j (l ++ mkEnt a k 0 :: hi).
Proof.
  unfold nxt. rewrite !at_level_app. by rewrite (at_level_cons_out j (mkEnt a k 0)) by (simpl; lia).
Qed.

Lemma NewNode_linked s lo hi k h : linked s (hd_ent :: lo ++ hi) ->
  Forall (fun e => (eaddr e < free_ s)%nat) (hd_ent :: lo ++ hi) ->
  linked (NewNode s k h).2 (hd_ent :: lo ++ mkEnt (free_ s) k 0 :: hi).
Proof.
  intros Hl Hfr. unfold NewNode. simpl snd. set (s' := mkSkipList _ _ _ _).
  assert (Hn : forall e, e ∈ hd_ent :: lo ++ hi -> nodes s' !! eaddr e = nodes s !! eaddr e).
  { intros e He. rewrite Forall_forall in Hfr. specialize (Hfr e He). unfold s'. simpl.
    by rewrite lookup_insert_ne by lia. }
  change (linked s' ((hd_ent :: lo) ++ mkEnt (free_ s) k 0 :: hi)).
  apply (linked_update s s' (hd_ent :: lo) hi).
  - intros e He. apply Hn. rewrite app_comm_cons, elem_of_app. by left.
  - intros l1 e l2 j _ _. apply nxt_unlinked.
  - done.
  - split.
    + exists (mkNode k (replicate h None)). unfold s'. simpl. rewrite lookup_insert_eq.
      split; [done|]. split; [done|]. split; [simpl; lia|]. simpl. lia.
    + apply (linked_frame s); [|by apply (linked_app s (hd_ent :: lo) hi)].
      intros e He. apply Hn. rewrite app_comm_cons, elem_of_app. by right.
Qed.

Lemma sorted_insert lo hi a k h : StronglySorted ent_lt (lo ++ hi) ->
  Forall (before k) lo -> Forall (fun e => ~ before k e) hi ->
  Forall (fun e => compare_ (ekey e) k <> 0) (lo ++ hi) ->
  StronglySorted ent_lt (lo ++ mkEnt a k h :: hi).
Proof.
  intros Hs Hlo Hhi Hne. apply Forall_app in Hne as [_ Hne].
  assert (Hk : Forall (ent_lt (mkEnt a k h)) hi).
  { rewrite Forall_forall in *. intros e He. specialize (Hhi e He). specialize (Hne e He).
    unfold ent_lt, before in *. simpl. apply (tc_antisym (cmp := compare_)). lia. }
  induction lo as [|e lo IH]; simpl in *.
  - by constructor.
  - apply StronglySorted_inv in Hs as [Hs He]. apply Forall_app in He as [He1 He2].
    apply Forall_cons in Hlo as [Hb Hlo]. constructor; [by apply IH|].
    apply Forall_app. split; [done|]. by constructor.
Qed.

Lemma linked_node s l e : linked s l -> e ∈ l -> exists nd, nodes s !! eaddr e = Some nd /\ key nd = ekey e.
Proof.
  induction l as [|e' l IH]; intros Hl He; [by apply elem_of_nil in He|]. destruct Hl as [Hn Hl].
  apply elem_of_cons in He as [-> |He]; [by eapply node_ok_key|by apply IH].
Qed.

(** The assertion of [Insert] holds when no key of the list is equal to the new one. *)
Lemma assert_new_ok s lo hi k : linked s (hd_ent :: lo ++ hi) ->
  Forall (fun e => compare_ (ekey e) k <> 0) (lo ++ hi) -> assert_new compare_ s k (nxt 0 hi) = Some tt.
Proof.
  intros Hl Hne. unfold nxt, assert_new. destruct (at_level 0 hi) as [|e rest] eqn:E; [done|].
  assert (He : e ∈ lo ++ hi).
  { apply elem_of_app. right. assert (He : e ∈ at_level 0 hi) by (rewrite E; by left).
    unfold at_level in He. by apply list_elem_of_filter in He as [_ He]. }
  destruct (linked_node s _ e Hl) as (nd & En & Hk); [by right|]. cbn [head fmap option_fmap option_map]. rewrite En. cbn [mbind option_bind].
  rewrite Hk. rewrite Forall_forall in Hne. specialize (Hne e He).
  destruct (Z.eqb_spec (compare_ k (ekey e)) 0) as [Hz|]; [|done]. by apply (tc_eq_sym compare_) in Hz.
Qed.

(** C-level statement of [Insert]: its assertion holds, it never fails, and adds the
    key at its place. *)
Lemma Insert_spec s lo hi k : inv s (lo ++ hi) ->
  Forall (before k) lo -> Forall (fun e => ~ before k e) hi ->
  Forall (fun e => compare_ (ekey e) k <> 0) (lo ++ hi) ->
  exists s' h, Insert compare_ s k = Some s' /\ (1 <= h <= kMaxHeight)%nat /\
    inv s' (lo ++ mkEnt (free_ s) k h :: hi).
Proof.
  intros Hinv Hlo Hhi Hne.
  destruct (FindGreaterOrEqual_spec s lo hi k Hinv Hlo Hhi) as (prev & E & Hplen & Hprev).
  destruct Hinv as [Hl Hnd Hs Hfr Hc Hh Hm].
  unfold Insert. rewrite E. cbn [mbind option_bind]. rewrite (assert_new_ok s lo hi k Hl Hne). cbn [mbind option_bind].
  pose proof (RandomHeight_range (rnd_ s)) as Hr.
  destruct (RandomHeight (rnd_ s)) as [h seed]. cbn [fst] in Hr. cbn [max_height_ set_rnd].
  (* the heights above the old maximum start at the head *)
  assert (Hcase : exists prev' mh,
    (if (max_height_ s <? h)%nat
     then (fill_prev prev (max_height_ s) h, set_max_height h (set_rnd seed s))
     else (prev, set_rnd seed s)) =
    (prev', mkSkipList (nodes s) (free_ s) mh seed) /\
    mh = Nat.max (max_height_ s) h /\
    forall j, (j < h)%nat -> prev' !! j = last_at j (hd_ent :: lo)).
  { destruct (Nat.ltb_spec (max_height_ s) h).
    - eexists _, _. split; [done|]. split; [lia|]. intros j Hj.
      rewrite fill_prev_lookup by lia. case_decide; [|apply Hprev; lia].
      rewrite last_at_single; [done|simpl; lia|].
      apply Forall_app in Hh as [Hh _]. by apply (at_level_none (max_height_ s)); [|lia].
    - eexists _, _. split; [done|]. split; [lia|]. intros j Hj. apply Hprev. lia. }
  destruct Hcase as (prev' & mh & -> & Hmh & Hprev'). simpl.
  set (s0 := mkSkipList (nodes s) (free_ s) mh seed).
  assert (Hl0 : linked s0 (hd_ent :: lo ++ hi)) by (by apply (linked_frame s)).
  pose proof (NewNode_linked s0 lo hi k h Hl0 Hfr) as Hl1.
  assert (Hnd' : NoDup (eaddr <$> hd_ent :: lo ++ mkEnt (free_ s) k 0 :: hi)).
  { assert (Hp : hd_ent :: lo ++ mkEnt (free_ s) k 0 :: hi ≡ₚ mkEnt (free_ s) k 0 :: hd_ent :: lo ++ hi)
      by solve_Permutation.
    rewrite Hp. simpl. constructor; [|done]. intros Hin.
    apply (list_elem_of_fmap_1 eaddr (hd_ent :: lo ++ hi)) in Hin as (e & He & Hin).
    rewrite Forall_forall in Hfr. specialize (Hfr e Hin). lia. }
  destruct (link_loop_spec h _ lo hi (free_ s) k 0 prev' (mkNode k (replicate h None)) Hl1 Hnd')
    as (s' & E' & Hl' & Hf' & Hm' & Hr').
  - intros j Hj. apply Hprev'. lia.
  - simpl. by rewrite lookup_insert_eq.
  - simpl. rewrite length_replicate. lia.
  - lia.
  - exists s', h. split; [exact E'|]. split; [done|]. simpl in *.
    split; rewrite ?Hf', ?Hm'; [done| |by apply sorted_insert| | | |lia].
    + rewrite fmap_cons, fmap_app, fmap_cons in *. done.
    + inversion Hfr as [|? ? H0 Hfr']; subst. constructor; [lia|].
      apply Forall_app in Hfr' as [Hf1 Hf2]. apply Forall_app. split.
      * eapply Forall_impl; [exact Hf1|]. simpl. lia.
      * constructor; [simpl; lia|]. eapply Forall_impl; [exact Hf2|]. simpl. lia.
    + rewrite length_app in *. simpl. lia.
    + apply Forall_app in Hh as [Hh1 Hh2]. apply Forall_app. split.
      * eapply Forall_impl; [exact Hh1|]. simpl. lia.
      * constructor; [simpl; lia|]. eapply Forall_impl; [exact Hh2|]. simpl. lia.
Qed.

(** * Between operations every node is linked at level 0 *)

Record quiet s (ns : list Ent) : Prop := mk_quiet {
  quiet_inv : inv s ns;
  quiet_linked : Forall (fun e => (1 <= eh e)%nat) ns;
}.

Lemma newSkipList_quiet : quiet (newSkipList any_key) [].
Proof.
  assert (Hn : nodes (newSkipList any_key) !! head_ = Some (mkNode any_key (replicate 12 None)))
    by reflexivity.
  split; [|constructor]. split.
  - split; [|done]. exists (mkNode any_key (replicate 12 None)). split; [exact Hn|].
    split; [done|]. split; [done|]. intros i Hi. cbn [next_]. by apply lookup_replicate_2.
  - apply NoDup_singleton.
  - constructor.
  - repeat constructor.
  - cbn. lia.
  - constructor.
  - cbn. unfold kMaxHeight. lia.
Qed.

Lemma at_level_0 l : Forall (fun e => (1 <= eh e)%nat) l -> at_level 0 l = l.
Proof.
  induction 1 as [|e l He _ IH]; [done|]. by rewrite at_level_cons_in, IH by lia.
Qed.

Lemma nxt_0 l : Forall (fun e => (1 <= eh e)%nat) l -> nxt 0 l = eaddr <$> head l.
Proof. intros. unfold nxt. by rewrite at_level_0. Qed.

Lemma last_at_0 l : Forall (fun e => (1 <= eh e)%nat) l ->
  last_at 0 (hd_ent :: l) = eaddr <$> last (hd_ent :: l).
Proof.
  intros. unfold last_at. rewrite at_level_0; [done|]. constructor; [|done].
  simpl. unfold kMaxHeight. lia.
Qed.

(** The key under an iterator, for an entry of the list. *)
Lemma iter_key_entry s l1 l2 : linked s (l1 ++ l2) ->
  iter_key s (eaddr <$> head l2) = ekey <$> head l2.
Proof.
  destruct l2 as [|e l2]; [done|]. intros Hl. simpl.
  destruct (node_ok_key _ _ _ (linked_at _ _ _ _ Hl)) as (nd & E & Hk).
  unfold iter_key. simpl. rewrite E. simpl. by rewrite Hk.
Qed.

Lemma quiet_Seek s lo hi k : quiet s (lo ++ hi) ->
  Forall (before k) lo -> Forall (fun e => ~ before k e) hi ->
  iter_Seek compare_ s k = Some (eaddr <$> head hi) /\
  iter_key s (eaddr <$> head hi) = ekey <$> head hi.
Proof.
  intros [Hinv H1] Hlo Hhi. apply Forall_app in H1 as [_ H1].
  destruct (FindGreaterOrEqual_spec s lo hi k Hinv Hlo Hhi) as (prev & E & _).
  split.
  - unfold iter_Seek. rewrite E. simpl. by rewrite nxt_0.
  - apply (iter_key_entry s (hd_ent :: lo)). apply (inv_linked _ _ Hinv).
Qed.

(** The node of an entry. *)
Lemma quiet_node s l1 e l2 : quiet s (l1 ++ e :: l2) ->
  exists nd, nodes s !! eaddr e = Some nd /\ key nd = ekey e /\
    Next s (eaddr e) 0 = Some (eaddr <$> head l2).
Proof.
  intros [Hinv H1]. apply Forall_app in H1 as [_ H1]. apply Forall_cons in H1 as [He H1].
  pose proof (inv_linked _ _ Hinv) as Hl.
  assert (Hok : node_ok s e l2) by (by apply (linked_at s (hd_ent :: l1))).
  rewrite (node_ok_Next s e l2) by (done || lia).
  destruct Hok as (nd & E & Hk & _). exists nd. by rewrite nxt_0.
Qed.

Lemma sorted_around l1 e l2 : StronglySorted ent_lt (l1 ++ e :: l2) ->
  Forall (before (ekey e)) l1 /\ Forall (fun x => ~ before (ekey e) x) (e :: l2).
Proof.
  induction l1 as [|x l1 IH]; simpl; intros Hs; apply StronglySorted_inv in Hs as [Hs Hx].
  - split; [done|]. constructor.
    + unfold before. rewrite tc_refl by done. lia.
    + eapply Forall_impl; [done|]. simpl. unfold ent_lt, before. intros y Hy Hc.
      apply (tc_antisym (cmp := compare_)) in Hy. lia.
  - destruct (IH Hs) as [H1 H2]. split; [|done]. constructor; [|done].
    apply Forall_app in Hx as [_ Hx]. by apply Forall_cons in Hx as [Hx _].
Qed.

(** Stepping forwards and backwards from an entry. *)
Lemma quiet_Next s l1 e l2 : quiet s (l1 ++ e :: l2) ->
  exists n, iter_Next s (Some (eaddr e)) = Some n /\ iter_key s n = ekey <$> head l2.
Proof.
  intros Hq. destruct (quiet_node _ _ _ _ Hq) as (nd & E & Hk & Hn).
  exists (eaddr <$> head l2). unfold iter_Next. cbn [mbind option_bind]. split; [done|].
  apply (iter_key_entry s ((hd_ent :: l1) ++ [e])). rewrite <- app_assoc.
  apply (inv_linked _ _ (quiet_inv _ _ Hq)).
Qed.

Lemma quiet_last_node s l1 l2 : quiet s (l1 ++ l2) ->
  exists n, last_at 0 (hd_ent :: l1) = Some n /\
    iter_key s (if (n =? head_)%nat then None else Some n) = ekey <$> last l1.
Proof.
  intros Hq. pose proof Hq as [Hinv H1]. apply Forall_app in H1 as [H1 _].
  rewrite last_at_0 by done. destruct l1 as [|e l1 _] using rev_ind.
  { exists head_. done. }
  rewrite app_comm_cons, !last_snoc. exists (eaddr e). split; [done|].
  rewrite <- app_assoc in Hq. destruct (quiet_node _ _ _ _ Hq) as (nd & E & Hk & _).
  assert (Hne : eaddr e <> head_).
  { pose proof (inv_nodup _ _ Hinv) as Hnd. simpl in Hnd. apply NoDup_cons in Hnd as [Hnd _].
    intros Heq. apply Hnd. simpl. rewrite <- Heq. apply (list_elem_of_fmap_2 eaddr).
    apply elem_of_app. left. apply elem_of_app. right. by apply list_elem_of_singleton. }
  rewrite (proj2 (Nat.eqb_neq _ _) Hne). unfold iter_key. simpl. rewrite E. simpl. by rewrite Hk.
Qed.

Lemma quiet_Prev s l1 e l2 : quiet s (l1 ++ e :: l2) ->
  exists n, iter_Prev compare_ s (Some (eaddr e)) = Some n /\ iter_key s n = ekey <$> last l1.
Proof.
  intros Hq. pose proof Hq as [Hinv H1].
  destruct (quiet_node _ _ _ _ Hq) as (nd & E & Hk & _).
  destruct (sorted_around _ _ _ (inv_sorted _ _ Hinv)) as [Hlo Hhi].
  destruct (quiet_last_node s l1 (e :: l2) Hq) as (n & Hn & Hkey).
  eexists. split; [|exact Hkey]. unfold iter_Prev. cbn [mbind option_bind]. rewrite E.
  cbn [mbind option_bind]. rewrite Hk, (FindLessThan_spec s l1 (e :: l2)), Hn by done. done.
Qed.

Lemma quiet_Last s ns : quiet s ns ->
  exists n, iter_SeekToLast s = Some n /\ iter_key s n = ekey <$> last ns.
Proof.
  intros Hq. rewrite <- (app_nil_r ns) in Hq.
  destruct (quiet_last_node s ns [] Hq) as (n & Hn & Hkey). rewrite app_nil_r in Hq.
  eexists. split; [|exact Hkey]. unfold iter_SeekToLast.
  by rewrite (FindLast_spec s ns (quiet_inv _ _ Hq)), Hn.
Qed.

Lemma quiet_First s ns : quiet s ns ->
  exists n, iter_SeekToFirst s = Some n /\ n = eaddr <$> head ns /\ iter_key s n = ekey <$> head ns.
Proof.
  intros Hq. pose proof Hq as [Hinv H1]. pose proof (inv_linked _ _ Hinv) as Hl.
  exists (eaddr <$> head ns). split; [|split; [done|]].
  - unfold iter_SeekToFirst. destruct Hl as [Hh _]. rewrite <- nxt_0 by done.
    apply (node_ok_Next s hd_ent ns 0 Hh). simpl. unfold kMaxHeight. lia.
  - by apply (iter_key_entry s [hd_ent]).
Qed.

(** The nodes that these steps reach. *)
Lemma quiet_Next_node s l1 e l2 : quiet s (l1 ++ e :: l2) ->
  iter_Next s (Some (eaddr e)) = Some (eaddr <$> head l2).
Proof. intros Hq. by destruct (quiet_node _ _ _ _ Hq) as (nd & E & Hk & Hn). Qed.

Lemma quiet_First_node s ns : quiet s ns -> iter_SeekToFirst s = Some (eaddr <$> head ns).
Proof. intros Hq. by destruct (quiet_First s ns Hq) as (n & E & -> & _). Qed.

Lemma quiet_key s l1 e l2 : quiet s (l1 ++ e :: l2) -> iter_key s (Some (eaddr e)) = Some (ekey e).
Proof.
  intros Hq. destruct (quiet_node _ _ _ _ Hq) as (nd & E & Hk & _). unfold iter_key. simpl. rewrite E. simpl. by rewrite Hk.
Qed.

Lemma quiet_last_addr s l1 l2 : quiet s (l1 ++ l2) ->
  exists n, last_at 0 (hd_ent :: l1) = Some n /\ (if (n =? head_)%nat then None else Some n) = eaddr <$> last l1.
Proof.
  intros [Hinv H1]. apply Forall_app in H1 as [H1 _]. rewrite last_at_0 by done.
  destruct l1 as [|e l1 _] using rev_ind; [by exists head_|]. rewrite app_comm_cons, !last_snoc. exists (eaddr e). split; [done|].
  assert (Hne : eaddr e <> head_).
  { pose proof (inv_nodup _ _ Hinv) as Hnd. simpl in Hnd. apply NoDup_cons in Hnd as [Hnd _].
    intros Heq. apply Hnd. simpl. rewrite <- Heq. apply (list_elem_of_fmap_2 eaddr).
    apply elem_of_app. left. apply elem_of_app. right. by apply list_elem_of_singleton. }
  by rewrite (proj2 (Nat.eqb_neq _ _) Hne).
Qed.

Lemma quiet_Prev_node s l1 e l2 : quiet s (l1 ++ e :: l2) -> iter_Prev compare_ s (Some (eaddr e)) = Some (eaddr <$> last l1).
Proof.
  intros Hq. pose proof Hq as [Hinv _]. destruct (quiet_node _ _ _ _ Hq) as (nd & E & Hk & _).
  destruct (sorted_around _ _ _ (inv_sorted _ _ Hinv)) as [Hlo Hhi]. destruct (quiet_last_addr s l1 (e :: l2) Hq) as (n & Hn & <-).
  unfold iter_Prev. cbn [mbind option_bind]. rewrite E. cbn [mbind option_bind]. by rewrite Hk, (FindLessThan_spec s l1 (e :: l2)), Hn.
Qed.

Lemma quiet_Last_node s ns : quiet s ns -> iter_SeekToLast s = Some (eaddr <$> last ns).
Proof.
  intros Hq. destruct (quiet_last_addr s ns []) as (n & Hn & <-); [by rewrite app_nil_r|].
  unfold iter_SeekToLast. by rewrite (FindLast_spec s ns (quiet_inv _ _ Hq)), Hn.
Qed.

(** The keys met by a forward walk. *)
Fixpoint walk (fuel : nat) s (n : option nat) : option (list K) :=
  match n with
  | None => Some []
  | Some _ =>
      match fuel with
      | O => None
      | S fuel' =>
          k ← iter_key s n; n' ← iter_Next s n; l ← walk fuel' s n'; Some (k :: l)
      end
  end.

Lemma walk_visible s : forall fuel l1 l2, linked s (l1 ++ l2) -> (length l2 <= fuel)%nat ->
  walk fuel s (nxt 0 l2) = Some (ekey <$> at_level 0 l2).
Proof.
  induction fuel as [|fuel IH]; intros l1 l2 Hl Hf.
  { destruct l2; simpl in Hf; [done|lia]. }
  destruct (at_level 0 l2) as [|e r] eqn:E; [unfold nxt; rewrite E; done|].
  destruct (at_level_split _ _ _ _ E) as (a & b & -> & Ha & He).
  rewrite at_level_app, Ha, at_level_cons_in in E by done. simplify_eq/=.
  rewrite nxt_app_nil by done. unfold nxt. rewrite at_level_cons_in by done.
  rewrite app_assoc in Hl. pose proof (linked_at _ _ _ _ Hl) as Hok.
  cbn [walk head fmap option_fmap option_map].
  unfold iter_Next. cbn [mbind option_bind]. rewrite (node_ok_Next _ _ _ _ Hok He).
  destruct Hok as (nd & En & Hk & _). unfold iter_key. cbn [mbind option_bind]. rewrite En.
  cbn [mbind option_bind]. rewrite (IH ((l1 ++ a) ++ [e])).
  - cbn [mbind option_bind]. by rewrite Hk.
  - by rewrite <- app_assoc.
  - rewrite length_app in Hf. simpl in Hf. lia.
Qed.

(** What a forward scan of the whole list yields. *)
Definition contents s : option (list K) :=
  n ← iter_SeekToFirst s; walk (free_ s) s n.

Lemma contents_visible s ns : inv s ns -> contents s = Some (ekey <$> at_level 0 ns).
Proof.
  intros Hinv. pose proof (inv_linked _ _ Hinv) as Hl. unfold contents, iter_SeekToFirst.
  change head_ with (eaddr hd_ent). rewrite (node_ok_Next s hd_ent ns 0 (proj1 Hl)) by (simpl; unfold kMaxHeight; lia).
  cbn [mbind option_bind]. apply (walk_visible s _ [hd_ent]); [done|].
  pose proof (inv_count _ _ Hinv). lia.
Qed.

Lemma contents_quiet s ns : quiet s ns -> contents s = Some (ekey <$> ns).
Proof. intros [Hinv H1]. rewrite (contents_visible s ns Hinv). by rewrite at_level_0. Qed.

(** * Sequences of insertions *)

Definition inserts (ks : list K) : option (SkipList K) :=
  foldl (fun os k => s ← os; Insert compare_ s k) (Some (newSkipList any_key)) ks.

Lemma Insert_quiet s ns k : quiet s ns -> Forall (fun e => compare_ (ekey e) k <> 0) ns ->
  exists s' ns', Insert compare_ s k = Some s' /\ quiet s' ns' /\
    (ekey <$> ns') ≡ₚ (ekey <$> ns) ++ [k].
Proof.
  intros [Hinv H1] Hne.
  destruct (sorted_partition k ns (inv_sorted _ _ Hinv)) as (lo & hi & -> & Hlo & Hhi).
  destruct (Insert_spec s lo hi k Hinv Hlo Hhi Hne) as (s' & h & E & Hh & Hinv').
  exists s', (lo ++ mkEnt (free_ s) k h :: hi). split; [done|]. split.
  - split; [done|]. apply Forall_app in H1 as [H1 H2]. apply Forall_app. split; [done|].
    constructor; [simpl; lia|done].
  - rewrite !fmap_app, fmap_cons. simpl. solve_Permutation.
Qed.

Lemma inserts_spec ks : StronglySorted (fun a b => compare_ a b <> 0) ks ->
  exists s ns, inserts ks = Some s /\ quiet s ns /\ (ekey <$> ns) ≡ₚ ks.
Proof.
  induction ks as [|k ks IH] using rev_ind; intros Hd.
  { exists (newSkipList any_key), []. split; [done|]. split; [apply newSkipList_quiet|done]. }
  assert (Hd' : StronglySorted (fun a b => compare_ a b <> 0) ks /\
                Forall (fun a => compare_ a k <> 0) ks).
  { clear IH. induction ks as [|a ks IH]; simpl in *; [by split; constructor|].
    apply StronglySorted_inv in Hd as [Hd Ha]. destruct (IH Hd) as [H1 H2].
    apply Forall_app in Ha as [Ha Hk]. split; constructor; try done.
    by inversion Hk. }
  destruct Hd' as [Hd1 Hd2]. destruct (IH Hd1) as (s & ns & E & Hq & Hp).
  assert (Hne : Forall (fun e => compare_ (ekey e) k <> 0) ns).
  { rewrite <- Hp in Hd2. rewrite Forall_fmap in Hd2. exact Hd2. }
  destruct (Insert_quiet s ns k Hq Hne) as (s' & ns' & E' & Hq' & Hp').
  exists s', ns'. split; [|split; [done|by rewrite Hp', Hp]].
  unfold inserts in *. rewrite foldl_app, E. done.
Qed.

Lemma find_partition k lo hi : Forall (before k) lo -> Forall (fun e => ~ before k e) hi ->
  List.find (fun x => negb (compare_ x k <? 0)) (ekey <$> lo ++ hi) = ekey <$> head hi.
Proof.
  intros Hlo Hhi. induction Hlo as [|e lo He _ IH]; simpl.
  - destruct Hhi as [|e hi He _]; [done|]. simpl. by rewrite (go_not_before k e He).
  - by rewrite (go_before k e He).
Qed.

Lemma Contains_quiet s ns k : quiet s ns ->
  Contains compare_ s k = Some (existsb (fun x => compare_ x k =? 0) (ekey <$> ns)).
Proof.
  intros Hq. pose proof Hq as [Hinv H1].
  destruct (sorted_partition k ns (inv_sorted _ _ Hinv)) as (lo & hi & -> & Hlo & Hhi).
  destruct (FindGreaterOrEqual_spec s lo hi k Hinv Hlo Hhi) as (prev & E & _).
  unfold Contains. rewrite E. cbn [mbind option_bind].
  rewrite nxt_0 by (by apply Forall_app in H1 as [_ ?]).
  rewrite fmap_app, existsb_app.
  assert (Hex : existsb (fun x => compare_ x k =? 0) (ekey <$> lo) = false).
  { clear -Hlo. induction Hlo as [|e lo He _ IH]; [done|]. rewrite fmap_cons. cbn [existsb]. rewrite IH.
    unfold before in He. by replace (_ =? 0) with false by lia. }
  rewrite Hex. simpl. destruct hi as [|e hi]; [done|]. cbn [head fmap option_fmap option_map].
  destruct (quiet_node _ _ _ _ Hq) as (nd & En & Hk & _). rewrite En. cbn [mbind option_bind].
  rewrite Hk, fmap_cons. cbn [existsb]. f_equal. apply Forall_cons in Hhi as [He _].
  pose proof (inv_sorted _ _ Hinv) as Hs. apply StronglySorted_app in Hs as (_ & _ & Hs).
  apply StronglySorted_inv in Hs as [_ Hs].
  assert (Hrest : existsb (fun x => compare_ x k =? 0) (ekey <$> hi) = false).
  { clear -Hs He TotalCompare0. unfold before in He.
    induction Hs as [|y hi Hy _ IH]; [done|]. rewrite fmap_cons. cbn [existsb]. rewrite IH. unfold ent_lt in Hy.
    replace (_ =? 0) with false; [done|]. symmetry. apply Z.eqb_neq. intros Hz.
    apply He. apply (tc_lt_le_trans compare_ _ (ekey y)); [done|lia]. }
  rewrite Hrest, orb_false_r.
  destruct (Z.eqb_spec (compare_ (ekey e) k) 0) as [Hz|Hz].
  - apply (tc_eq_sym compare_) in Hz. by rewrite Hz.
  - apply Z.eqb_neq. intros Hc. by apply (tc_eq_sym compare_) in Hc.
Qed.

(** * A writer and a reader, interleaved store by store

    Insertions are externally synchronised, readers are not: between any two
    stores of [Insert] a reader may execute one iteration of
    [FindGreaterOrEqual]. *)

Inductive Writer :=
  | W_idle
  | W_height (k : K) (prev : list nat) (h : nat)       (* about to store [max_height_] *)
  | W_new (k : K) (prev : list nat) (h : nat)          (* about to allocate the node *)
  | W_link (x : nat) (prev : list nat) (h i : nat)     (* about to store [x->next_[i]] *)
  | W_publish (x : nat) (prev : list nat) (h i : nat). (* about to store [prev[i]->next_[i]] *)

Inductive writer_step : SkipList K * Writer -> SkipList K * Writer -> Prop :=
  | ws_find s k r prev h seed : FindGreaterOrEqual compare_ s k = Some (r, prev) ->
      Contains compare_ s k = Some false -> RandomHeight (rnd_ s) = (h, seed) ->
      writer_step (s, W_idle) (set_rnd seed s, W_height k prev h)
  | ws_height s k prev h : (max_height_ s < h)%nat ->
      writer_step (s, W_height k prev h)
        (set_max_height h s, W_new k (fill_prev prev (max_height_ s) h) h)
  | ws_low s k prev h : (h <= max_height_ s)%nat ->
      writer_step (s, W_height k prev h) (s, W_new k prev h)
  | ws_new s k prev h x s' : NewNode s k h = (x, s') ->
      writer_step (s, W_new k prev h) (s', W_link x prev h 0)
  | ws_link s x prev h i p n : (i < h)%nat -> prev !! i = Some p -> Next s p i = Some n ->
      writer_step (s, W_link x prev h i) (SetNext s x i n, W_publish x prev h i)
  | ws_publish s x prev h i p : prev !! i = Some p ->
      writer_step (s, W_publish x prev h i) (SetNext s p i (Some x), W_link x prev h (S i))
  | ws_done s x prev h :
      writer_step (s, W_link x prev h h) (s, W_idle).

(** One iteration of the loop of [FindGreaterOrEqual]: [inl] goes on, [inr]
    returns. *)
Definition reader_step s (k : K) (x level : nat) : option ((nat * nat) + option nat) :=
  next ← Next s x level;
  after ← KeyIsAfterNode compare_ s k next;
  match after, next with
  | true, Some n => Some (inl (n, level))
  | _, _ => match level with O => Some (inr next) | S level' => Some (inl (x, level')) end
  end.

(** The reader: not started, or at [x], [level] in its search for [k]. *)
Inductive cstep : SkipList K * Writer * option (K * nat * nat) ->
    SkipList K * Writer * option (K * nat * nat) -> Prop :=
  | cs_writer s w s' w' r : writer_step (s, w) (s', w') -> cstep (s, w, r) (s', w', r)
  | cs_start s w k : cstep (s, w, None) (s, w, Some (k, head_, (max_height_ s - 1)%nat))
  | cs_read s w k x level x' level' : reader_step s k x level = Some (inl (x', level')) ->
      cstep (s, w, Some (k, x, level)) (s, w, Some (k, x', level'))
  | cs_return s w k x level res : reader_step s k x level = Some (inr res) ->
      cstep (s, w, Some (k, x, level)) (s, w, None).

(** ** The invariant of the machine *)

Definition prev_ok (prev : list nat) (lo : list Ent) (n : nat) : Prop :=
  length prev = kMaxHeight /\ forall j, (j < n)%nat -> prev !! j = last_at j (hd_ent :: lo).

Definition splits (k : K) (lo hi : list Ent) : Prop :=
  Forall (before k) lo /\ Forall (fun e => ~ before k e) hi /\
  Forall (fun e => compare_ (ekey e) k <> 0) (lo ++ hi).

Definition linking s (x : nat) (k : K) (prev : list nat) (h i : nat) (lo hi : list Ent) : Prop :=
  inv s (lo ++ mkEnt x k i :: hi) /\ Forall (fun e => (1 <= eh e)%nat) (lo ++ hi) /\
  prev_ok prev lo h /\ (1 <= h <= max_height_ s)%nat /\
  exists nd, nodes s !! x = Some nd /\ length (next_ nd) = h.

Definition winv s (w : Writer) (ns : list Ent) : Prop :=
  match w with
  | W_idle => quiet s ns
  | W_height k prev h => quiet s ns /\ (1 <= h <= kMaxHeight)%nat /\
      exists lo hi, ns = lo ++ hi /\ splits k lo hi /\ prev_ok prev lo (max_height_ s)
  | W_new k prev h => quiet s ns /\ (1 <= h <= max_height_ s)%nat /\
      exists lo hi, ns = lo ++ hi /\ splits k lo hi /\ prev_ok prev lo h
  | W_link x prev h i => (i <= h)%nat /\
      exists k lo hi, ns = lo ++ mkEnt x k i :: hi /\ linking s x k prev h i lo hi
  | W_publish x prev h i => (i < h)%nat /\
      exists k lo hi, ns = lo ++ mkEnt x k i :: hi /\ linking s x k prev h i lo hi /\
        exists nd, nodes s !! x = Some nd /\ next_ nd !! i = Some (nxt i hi)
  end.

Lemma winv_inv s w ns : winv s w ns -> inv s ns.
Proof.
  destruct w; simpl.
  - by intros [].
  - by intros [[] _].
  - by intros [[] _].
  - intros (_ & k & lo & hi & -> & Hl). apply Hl.
  - intros (_ & k & lo & hi & -> & Hl & _). apply Hl.
Qed.

(** Nodes never move, and only gain levels. *)
Definition one_more (l l' : list K) : Prop :=
  l' = l \/ exists l1 k l2, l = l1 ++ l2 /\ l' = l1 ++ k :: l2.

Definition grows (ns ns' : list Ent) : Prop :=
  one_more (ekey <$> at_level 0 ns) (ekey <$> at_level 0 ns') /\
  forall e, e ∈ hd_ent :: ns -> exists e', e' ∈ hd_ent :: ns' /\
    eaddr e' = eaddr e /\ ekey e' = ekey e /\ (eh e <= eh e')%nat /\ (e = hd_ent -> e' = hd_ent).

Lemma grows_refl ns : grows ns ns.
Proof. split; [by left|]. intros e He. exists e. done. Qed.

Lemma grows_insert lo hi a k : grows (lo ++ hi) (lo ++ mkEnt a k 0 :: hi).
Proof.
  split.
  - left. by rewrite !at_level_app, (at_level_cons_out 0 (mkEnt a k 0)) by (simpl; lia).
  - intros e He. exists e. split; [|done]. set_solver.
Qed.

Lemma grows_raise lo hi a k i : a <> head_ ->
  grows (lo ++ mkEnt a k i :: hi) (lo ++ mkEnt a k (S i) :: hi).
Proof.
  intros Ha. split.
  { rewrite !at_level_app. destruct i as [|i].
    - right. rewrite at_level_cons_out, at_level_cons_in by (simpl; lia).
      rewrite !fmap_app, fmap_cons. eauto.
    - left. rewrite !at_level_cons_in by (simpl; lia). by rewrite !fmap_app, !fmap_cons. }
  intros e He.
  assert (He' : e ∈ hd_ent :: lo ++ hi \/ e = mkEnt a k i) by set_solver.
  destruct He' as [He'| ->].
  - exists e. split; [set_solver|done].
  - exists (mkEnt a k (S i)). simpl. split; [set_solver|]. repeat split; [lia|].
    intros Heq. exfalso. apply Ha. by injection Heq.
Qed.

Definition rinv (ns : list Ent) (r : option (K * nat * nat)) : Prop :=
  match r with
  | None => True
  | Some (k, x, level) =>
      exists ex, ex ∈ hd_ent :: ns /\ eaddr ex = x /\ (level < eh ex)%nat /\
        (ex = hd_ent \/ before k ex)
  end.

Lemma rinv_grows ns ns' r : grows ns ns' -> rinv ns r -> rinv ns' r.
Proof.
  intros [_ Hg]. destruct r as [[[k x] level]|]; [|done].
  intros (ex & Hin & Hx & Hl & Hb). destruct (Hg ex Hin) as (e' & Hin' & Ha & Hk & Hh & Hhd).
  exists e'. split; [done|]. split; [congruence|]. split; [lia|].
  destruct Hb as [Hb|Hb]; [left; auto|right]. unfold before in *. by rewrite Hk.
Qed.

(** Filling a link above the levels at which a node is linked is invisible. *)
Lemma linked_private s lo hi a k i v :
  linked s (hd_ent :: lo ++ mkEnt a k i :: hi) ->
  NoDup (eaddr <$> hd_ent :: lo ++ mkEnt a k i :: hi) ->
  linked (SetNext s a i v) (hd_ent :: lo ++ mkEnt a k i :: hi).
Proof.
  intros Hl Hnd. set (s' := SetNext s a i v).
  assert (Hn : forall e, e ∈ (hd_ent :: lo) ++ hi -> nodes s' !! eaddr e = nodes s !! eaddr e).
  { intros e He. unfold s'. rewrite SetNext_lookup, decide_False; [done|]. intros Heq.
    rewrite app_comm_cons, fmap_app, fmap_cons in Hnd. apply NoDup_app in Hnd as (_ & H1 & H2).
    apply NoDup_cons in H2 as [H2 _]. apply elem_of_app in He as [He|He].
    - apply (list_elem_of_fmap_2 eaddr) in He. apply (H1 _ He). rewrite Heq. simpl. set_solver.
    - apply (list_elem_of_fmap_2 eaddr) in He. apply H2. simpl. by rewrite <- Heq. }
  change (linked s' ((hd_ent :: lo) ++ mkEnt a k i :: hi)).
  eapply linked_update; [|done|exact Hl|].
  { intros e He. apply Hn. apply elem_of_app. by left. }
  apply (linked_app s (hd_ent :: lo)) in Hl. simpl in Hl.
  destruct Hl as [(nd & E & Hk & Hlen & Hi) Hl]. simpl in *. split.
  - eexists. unfold s'. rewrite SetNext_lookup, decide_True by done. simpl. rewrite E.
    split; [done|]. simpl. rewrite length_insert. split; [done|]. split; [done|].
    intros j Hj. rewrite list_lookup_insert_ne by lia. by apply Hi.
  - eapply linked_frame; [|exact Hl]. intros e He. apply Hn.
    rewrite elem_of_cons, elem_of_app. by right; right.
Qed.

(** The invariant only looks at the nodes and the two counters. *)
Lemma inv_nodes s s' ns : inv s ns -> linked s' (hd_ent :: ns) -> free_ s' = free_ s ->
  (max_height_ s <= max_height_ s' <= kMaxHeight)%nat -> inv s' ns.
Proof.
  intros [Hl Hnd Hs Hfr Hc Hh Hm] Hl' Hf Hmh. split; try done; rewrite ?Hf; try done.
  - eapply Forall_impl; [exact Hh|]. simpl. lia.
  - lia.
Qed.

Lemma SetNext_same s x i v nd : nodes s !! x = Some nd -> next_ nd !! i = Some v ->
  SetNext s x i v = s.
Proof.
  intros E Ei. unfold SetNext. destruct s as [ns f mh r]. simpl in *. f_equal.
  apply map_eq. intros y. destruct (decide (y = x)) as [->|Hne].
  - rewrite lookup_alter_eq, E. simpl. rewrite list_insert_id by done. by destruct nd.
  - by rewrite lookup_alter_ne.
Qed.

Lemma linking_addr s x k prev h i lo hi : linking s x k prev h i lo hi -> x <> head_.
Proof.
  intros (Hinv & _) ->. pose proof (inv_nodup _ _ Hinv) as Hnd. rewrite fmap_cons in Hnd.
  apply NoDup_cons in Hnd as [Hnd _]. apply Hnd. rewrite fmap_app, fmap_cons. simpl. set_solver.
Qed.

(** Publishing at one level. *)
Lemma publish_step s x k prev h i lo hi p nd :
  linking s x k prev h i lo hi -> (i < h)%nat -> prev !! i = Some p ->
  nodes s !! x = Some nd -> next_ nd !! i = Some (nxt i hi) ->
  linking (SetNext s p i (Some x)) x k prev h (S i) lo hi.
Proof.
  intros (Hinv & H1 & [Hplen Hp] & Hh & nd' & Hx & Hlen) Hi Hpi En Ei.
  assert (nd' = nd) as -> by congruence.
  pose proof (inv_linked _ _ Hinv) as Hl. pose proof (inv_nodup _ _ Hinv) as Hnd.
  pose proof (inv_max _ _ Hinv) as Hm.
  assert (Hlast : last_at i (hd_ent :: lo) = Some p) by (rewrite <- Hp by lia; done).
  destruct (link_level_spec s lo hi x k i p prev nd Hl Hnd Hpi Hlast Hx ltac:(lia))
    as (s' & E & Hl' & (nd' & Hx' & Hlen') & Hf & Hmh & _).
  assert (s' = SetNext s p i (Some x)) as ->.
  { unfold link_level in E. rewrite Hpi in E. simpl in E.
    destruct (Next s p i) as [n|] eqn:En'; [|done]. simpl in E. injection E as <-.
    destruct (last_at_split _ _ _ Hlast) as (l1 & e & l2 & Hsp & <- & Hie & Hl2).
    rewrite app_comm_cons, Hsp, <- app_assoc in Hl. simpl in Hl.
    rewrite (node_ok_Next _ _ _ _ (linked_at _ _ _ _ Hl) Hie) in En'.
    rewrite nxt_app_nil in En' by done. unfold nxt in En'.
    rewrite at_level_cons_out in En' by (simpl; lia). fold (nxt i hi) in En'.
    injection En' as <-.
    by rewrite (SetNext_same s x i _ nd Hx Ei). }
  split; [|split; [done|split; [done|split; [done|]]]].
  - destruct Hinv as [_ _ Hs Hfr Hc Hhs _]. split; try done.
    + rewrite fmap_cons, fmap_app, fmap_cons in *. done.
    + clear -Hs. induction lo as [|e lo IH]; simpl in *; apply StronglySorted_inv in Hs as [Hs He].
      * by constructor.
      * constructor; [by apply IH|]. apply Forall_app in He as [He1 He2].
        apply Forall_app. split; [done|]. inversion He2; subst. by constructor.
    + inversion Hfr as [|? ? H0 Hfr']; subst. constructor; [done|].
      apply Forall_app in Hfr' as [Hf1 Hf2]. apply Forall_app. split; [done|].
      inversion Hf2; subst. by constructor.
    + rewrite length_app in *. done.
    + apply Forall_app in Hhs as [Hf1 Hf2]. apply Forall_app. split; [done|].
      inversion Hf2; subst. constructor; [simpl; lia|done].
  - exists nd'. split; [done|lia].
Qed.

Lemma Contains_false_splits s ns k : quiet s ns -> Contains compare_ s k = Some false ->
  exists lo hi, ns = lo ++ hi /\ splits k lo hi.
Proof.
  intros Hq Hc. pose proof Hq as [Hinv _]. rewrite (Contains_quiet s ns k Hq) in Hc.
  injection Hc as Hc.
  destruct (sorted_partition k ns (inv_sorted _ _ Hinv)) as (lo & hi & -> & Hlo & Hhi).
  exists lo, hi. split; [done|]. split; [done|]. split; [done|].
  clear -Hc. induction (lo ++ hi) as [|e l IH]; [constructor|].
  rewrite fmap_cons in Hc. cbn [existsb] in Hc. apply orb_false_iff in Hc as [He Hc].
  constructor; [lia|by apply IH].
Qed.

Lemma winv_step s w s' w' ns : winv s w ns -> writer_step (s, w) (s', w') ->
  exists ns', winv s' w' ns' /\ grows ns ns'.
Proof.
  intros Hw Hstep.
  inversion Hstep as [? k r prev h seed Hfind Hfree Hrand|? k prev h Hlt|? k prev h Hge
    |? k prev h x ? Hnew|? x prev h i p n Hlt Hp0 Hn0|? x prev h i p Hp0|? x prev h];
    subst; cbn [winv] in Hw.
  - (* search *)
    exists ns. split; [|apply grows_refl]. cbn [winv].
    destruct (Contains_false_splits s ns k Hw Hfree) as (lo & hi & -> & Hsp).
    pose proof (RandomHeight_range (rnd_ s)) as Hr. rewrite Hrand in Hr. cbn [fst] in Hr.
    pose proof Hw as [Hinv H1]. destruct Hsp as (Hlo & Hhi & Hne).
    destruct (FindGreaterOrEqual_spec s lo hi k Hinv Hlo Hhi) as (prev' & E & Hpl & Hp).
    simplify_eq. split.
    { split; [|done]. apply (inv_nodes s); [done| |done|].
      - apply (linked_frame s); [done|apply (inv_linked _ _ Hinv)].
      - pose proof (inv_max _ _ Hinv). simpl. lia. }
    split; [done|]. exists lo, hi. done.
  - (* max_height_ *)
    destruct Hw as (Hq & Hh & lo & hi & -> & Hsp & Hpl & Hp).
    exists (lo ++ hi). split; [|apply grows_refl]. pose proof Hq as [Hinv H1].
    pose proof (inv_max _ _ Hinv) as Hm.
    cbn [winv]. split.
    { split; [|done]. apply (inv_nodes s); [done| |done|simpl; lia].
      apply (linked_frame s); [done|apply (inv_linked _ _ Hinv)]. }
    split; [simpl; lia|]. exists lo, hi. split; [done|]. split; [done|].
    split; [by rewrite fill_prev_length|]. intros j Hj.
    rewrite fill_prev_lookup by lia. case_decide; [|apply Hp; lia].
    rewrite last_at_single; [done|simpl; lia|].
    pose proof (inv_heights _ _ Hinv) as Hhs. apply Forall_app in Hhs as [Hhs _].
    by apply (at_level_none (max_height_ s)); [|lia].
  - (* low enough *)
    destruct Hw as (Hq & Hh & lo & hi & -> & Hsp & Hpl & Hp).
    exists (lo ++ hi). split; [|apply grows_refl]. cbn [winv].
    split; [done|]. split; [lia|]. exists lo, hi. split; [done|]. split; [done|].
    split; [done|]. intros j Hj. apply Hp. lia.
  - (* the new node *)
    unfold NewNode in Hnew. injection Hnew as <- <-. destruct Hw as (Hq & Hh & lo & hi & -> & (Hlo & Hhi & Hne) & Hpl).
    pose proof Hq as [Hinv H1]. pose proof Hinv as [Hl Hnd Hs Hfr Hc Hhs Hm].
    exists (lo ++ mkEnt (free_ s) k 0 :: hi). split; [|apply grows_insert].
    split; [lia|]. exists k, lo, hi. split; [done|].
    split; [|split; [done|split; [done|split; [done|]]]].
    2: { eexists. simpl. rewrite lookup_insert_eq. split; [done|]. simpl. by rewrite length_replicate. }
    split; simpl.
    + by apply (NewNode_linked s lo hi k h).
    + assert (Hp : hd_ent :: lo ++ mkEnt (free_ s) k 0 :: hi ≡ₚ
                   mkEnt (free_ s) k 0 :: hd_ent :: lo ++ hi) by solve_Permutation.
      change (NoDup (eaddr <$> hd_ent :: lo ++ mkEnt (free_ s) k 0 :: hi)).
      rewrite Hp. simpl. constructor; [|done]. intros Hin.
      apply (list_elem_of_fmap_1 eaddr (hd_ent :: lo ++ hi)) in Hin as (e & He & Hin).
      rewrite Forall_forall in Hfr. specialize (Hfr e Hin). lia.
    + by apply sorted_insert.
    + inversion Hfr as [|? ? H0 Hfr']; subst. constructor; [lia|].
      apply Forall_app in Hfr' as [Hf1 Hf2]. apply Forall_app. split.
      * eapply Forall_impl; [exact Hf1|]. simpl. lia.
      * constructor; [simpl; lia|]. eapply Forall_impl; [exact Hf2|]. simpl. lia.
    + rewrite length_app in *. simpl. lia.
    + apply Forall_app in Hhs as [Hf1 Hf2]. apply Forall_app. split; [done|].
      constructor; [simpl; lia|done].
    + done.
  - (* the link out of the new node *)
    destruct Hw as (Hi & k & lo & hi & -> & Hlk).
    exists (lo ++ mkEnt x k i :: hi). split; [|apply grows_refl].
    pose proof Hlk as (Hinv & H1 & (Hpl & Hp) & Hh & nd & Hx & Hlen).
    split; [done|]. exists k, lo, hi. split; [done|].
    assert (n = nxt i hi) as ->.
    { assert (Hlast : last_at i (hd_ent :: lo) = Some p) by (rewrite <- Hp by lia; done).
      destruct (last_at_split _ _ _ Hlast) as (l1 & e & l2 & Hsp & <- & Hie & Hl2).
      pose proof (inv_linked _ _ Hinv) as Hl.
      rewrite app_comm_cons, Hsp, <- app_assoc in Hl. simpl in Hl.
      rewrite (node_ok_Next _ _ _ _ (linked_at _ _ _ _ Hl) Hie) in *.
      rewrite nxt_app_nil in * by done. unfold nxt in *.
      rewrite at_level_cons_out in * by (simpl; lia). congruence. }
    assert (Hx' : nodes (SetNext s x i (nxt i hi)) !! x =
      Some (mkNode (key nd) (<[i := nxt i hi]> (next_ nd)))).
    { rewrite SetNext_lookup, decide_True by done. by rewrite Hx. }
    split.
    { split; [|split; [done|split; [done|split; [done|]]]].
      - apply (inv_nodes s); [done| |done|].
        + apply linked_private; [apply (inv_linked _ _ Hinv)|apply (inv_nodup _ _ Hinv)].
        + pose proof (inv_max _ _ Hinv). simpl. lia.
      - eexists. split; [exact Hx'|]. simpl. by rewrite length_insert. }
    eexists. split; [exact Hx'|]. simpl. by rewrite list_lookup_insert_eq by lia.
  - (* the link to the new node *)
    destruct Hw as (Hi & k & lo & hi & -> & Hlk & nd & Hx & Hn).
    exists (lo ++ mkEnt x k (S i) :: hi). split; [|apply grows_raise; by eapply linking_addr].
    split; [lia|]. exists k, lo, hi. split; [done|]. by eapply publish_step.
  - (* done *)
    destruct Hw as (Hi & k & lo & hi & -> & Hlk). eexists. split; [|apply grows_refl].
    destruct Hlk as (Hinv & H1 & _ & Hh & _). simpl. split; [done|].
    apply Forall_app in H1 as [H1 H2]. apply Forall_app. split; [done|].
    constructor; [simpl; lia|done].
Qed.

(** ** The reader *)

Lemma find_skip k l1 l2 : Forall (before k) l1 ->
  List.find (fun x => negb (compare_ x k <? 0)) (ekey <$> l1 ++ l2) =
  List.find (fun x => negb (compare_ x k <? 0)) (ekey <$> l2).
Proof.
  induction 1 as [|e l1 He _ IH]; [done|]. simpl. by rewrite (go_before k e He).
Qed.

Lemma at_level_Forall P i l : Forall P l -> Forall P (at_level i l).
Proof.
  rewrite !Forall_forall. intros H e He. apply list_elem_of_filter in He as [_ He]. by apply H.
Qed.

(** Where the reader stands: everything up to it is left of the target. *)
Lemma rinv_split s ns k x level : inv s ns -> rinv ns (Some (k, x, level)) ->
  exists pre ex l1 post, hd_ent :: ns = pre ++ ex :: post /\ ns = l1 ++ post /\
    Forall (before k) l1 /\ eaddr ex = x /\ (level < eh ex)%nat /\
    (ex = hd_ent \/ before k ex).
Proof.
  intros Hinv (ex & Hin & Hx & Hl & Hb). apply elem_of_cons in Hin as [->|Hin].
  - exists [], hd_ent, [], ns. by repeat split.
  - apply list_elem_of_split in Hin as (l1 & l2 & ->).
    destruct Hb as [->|Hb].
    { pose proof (inv_nodup _ _ Hinv) as Hnd. rewrite fmap_cons in Hnd.
      apply NoDup_cons in Hnd as [Hnd _]. exfalso. apply Hnd.
      rewrite fmap_app, fmap_cons. set_solver. }
    exists (hd_ent :: l1), ex, (l1 ++ [ex]), l2. rewrite <- app_assoc.
    repeat split; try done; [|by right]. apply Forall_app. split; [|by constructor].
    destruct (sorted_around _ _ _ (inv_sorted _ _ Hinv)) as [Hlo _].
    eapply Forall_impl; [exact Hlo|]. simpl. unfold before. intros e He.
    by apply (tc_lt_trans compare_ _ (ekey ex)).
Qed.

Lemma reader_step_spec s ns k x level : inv s ns -> rinv ns (Some (k, x, level)) ->
  exists o, reader_step s k x level = Some o /\
    match o with
    | inl (x', level') => rinv ns (Some (k, x', level'))
    | inr res => iter_key s res =
        List.find (fun x => negb (compare_ x k <? 0)) (ekey <$> at_level 0 ns)
    end.
Proof.
  intros Hinv Hr. destruct (rinv_split _ _ _ _ _ Hinv Hr) as
    (pre & ex & l1 & post & Hsp & -> & Hlo & <- & Hlev & Hex).
  pose proof (inv_linked _ _ Hinv) as Hl. rewrite Hsp in Hl.
  unfold reader_step. rewrite (node_ok_Next _ _ _ _ (linked_at _ _ _ _ Hl) Hlev).
  cbn [mbind option_bind].
  assert (Hdown : forall level', level = S level' ->
    rinv (l1 ++ post) (Some (k, eaddr ex, level'))).
  { intros level' ->. exists ex. split; [rewrite Hsp; set_solver|]. split; [done|]. split; [lia|done]. }
  destruct (at_level level post) as [|e r] eqn:E.
  - unfold nxt. rewrite E. simpl. destruct level as [|level]; eexists; (split; [done|]); [|by apply Hdown].
    rewrite at_level_app, E, app_nil_r. simpl. symmetry.
    rewrite <- (app_nil_r (at_level 0 l1)), find_skip by by apply at_level_Forall. done.
  - destruct (at_level_split _ _ _ _ E) as (p1 & p2 & Hp & Hp1 & He). 
    assert (Hl' : linked s ((pre ++ ex :: p1) ++ e :: p2)) by (rewrite <- app_assoc; by rewrite Hp in Hl).
    destruct (node_ok_key _ _ _ (linked_at _ _ _ _ Hl')) as (nd & En & Hk).
    unfold nxt. rewrite E. simpl. rewrite En. simpl. rewrite Hk.
    destruct (Z.ltb_spec (compare_ (ekey e) k) 0) as [Hb|Hb].
    + eexists. split; [done|]. exists e. rewrite Hsp. split; [rewrite Hp; set_solver|].
      split; [done|]. split; [done|]. by right.
    + destruct level as [|level]; eexists; (split; [done|]); [|by apply Hdown].
      rewrite at_level_app, E, find_skip by by apply at_level_Forall. simpl.
      replace (compare_ (ekey e) k <? 0) with false by lia. simpl.
      unfold iter_key. simpl. rewrite En. simpl. by rewrite Hk.
Qed.

Lemma creachable_inv c c' : rtc cstep c c' -> forall ns,
  winv c.1.1 c.1.2 ns -> rinv ns c.2 -> exists ns', winv c'.1.1 c'.1.2 ns' /\ rinv ns' c'.2.
Proof.
  induction 1 as [c|c c1 c2 Hstep _ IH]; intros ns Hw Hr; [eauto|].
  inversion Hstep as [s w s' w' r Hws|s w k|s w k x l x' l' Hrd|s w k x l res Hrd]; subst;
    cbn [fst snd] in *.
  - destruct (winv_step _ _ _ _ _ Hw Hws) as (ns' & Hw' & Hg).
    apply (IH ns'); [done|]. by eapply rinv_grows.
  - apply (IH ns); [done|]. exists hd_ent. split; [set_solver|]. split; [done|].
    pose proof (inv_max _ _ (winv_inv _ _ _ Hw)). simpl. split; [lia|by left].
  - apply (IH ns); [done|].
    destruct (reader_step_spec s ns k x l (winv_inv _ _ _ Hw) Hr) as (o & E & Ho).
    rewrite Hrd in E. by injection E as <-.
  - by apply (IH ns).
Qed.

Lemma sorted_keys ns : StronglySorted ent_lt ns ->
  StronglySorted (fun a b => compare_ a b < 0) (ekey <$> ns).
Proof.
  induction 1 as [|e ns Hs IH He]; [constructor|]. rewrite fmap_cons.
  constructor; [done|]. apply Forall_fmap. exact He.
Qed.

Lemma sorted_at_level i ns : StronglySorted ent_lt ns -> StronglySorted ent_lt (at_level i ns).
Proof.
  induction 1 as [|e ns Hs IH He]; [constructor|]. destruct (decide (i < eh e)%nat).
  - rewrite at_level_cons_in by done. constructor; [done|]. by apply at_level_Forall.
  - by rewrite at_level_cons_out.
Qed.
End Proofs.

(** * The properties *)

(** C37: the skip list implements a sorted set.  Insert any keys that compare
    different, in any order: every insertion succeeds (no wild pointer, no
    missing link), a forward scan yields exactly those keys in increasing order,
    [Seek] lands on the first key not less than its target, [Contains] tells
    whether an equal key was inserted, [SeekToLast] finds the greatest key, and
    from any key [Next] and [Prev] move to its neighbours. *)
Theorem skiplist_refines_sorted_list {K} (compare_ : K -> K -> Z) (any_key : K)
    (Hcmp : TotalCompare compare_) (ks : list K)
    (Hdistinct : StronglySorted (fun a b => compare_ a b <> 0) ks) :
  exists s l, inserts compare_ any_key ks = Some s /\ l ≡ₚ ks /\
    StronglySorted (fun a b => compare_ a b < 0) l /\ contents s = Some l /\
    (n ← iter_SeekToLast s; Some (iter_key s n)) = Some (last l) /\
    (forall k,
      (n ← iter_Seek compare_ s k; Some (iter_key s n)) =
        Some (List.find (fun x => negb (compare_ x k <? 0)) l) /\
      Contains compare_ s k = Some (existsb (fun x => compare_ x k =? 0) l)) /\
    (forall l1 x l2, l = l1 ++ x :: l2 ->
      (n ← iter_Seek compare_ s x; m ← iter_Next s n; Some (iter_key s m)) = Some (head l2) /\
      (n ← iter_Seek compare_ s x; m ← iter_Prev compare_ s n; Some (iter_key s m)) =
        Some (last l1)).
Proof.
  destruct (inserts_spec compare_ any_key ks Hdistinct) as (s & ns & E & Hq & Hp).
  pose proof (quiet_inv _ _ _ _ Hq) as Hinv. pose proof (inv_sorted _ _ _ _ Hinv) as Hs.
  exists s, (ekey <$> ns). split; [done|]. split; [done|]. split; [by apply sorted_keys|].
  split; [by eapply contents_quiet|]. split; [|split].
  - destruct (quiet_Last _ _ s ns Hq) as (n & -> & Hk). simpl. by rewrite Hk, fmap_last.
  - intros k. split; [|by eapply Contains_quiet].
    destruct (sorted_partition compare_ k ns Hs) as (lo & hi & -> & Hlo & Hhi).
    destruct (quiet_Seek _ _ s lo hi k Hq Hlo Hhi) as [-> Hk]. cbn [mbind option_bind].
    by rewrite Hk, find_partition.
  - intros l1 x l2 Hsp. apply fmap_app_inv in Hsp as (m1 & m2 & -> & Hm2 & ->).
    symmetry in Hm2. apply fmap_cons_inv in Hm2 as (e & m2' & -> & -> & ->).
    destruct (sorted_around compare_ _ _ _ Hs) as [Hlo Hhi].
    destruct (quiet_Seek _ _ s m1 (e :: m2') (ekey e) Hq Hlo Hhi) as [-> _].
    cbn [mbind option_bind head fmap option_fmap option_map].
    destruct (quiet_Next _ _ s m1 e m2' Hq) as (n & -> & Hn).
    destruct (quiet_Prev _ _ s m1 e m2' Hq) as (p & -> & Hpv). cbn [mbind option_bind].
    rewrite Hn, Hpv, fmap_last. by destruct m2'.
Qed.

(** Comparing integers, for the witnesses. *)
Lemma Zsub_total : TotalCompare Z.sub.
Proof. split; lia. Qed.

Lemma skiplist_refines_sorted_list_witness :
  exists s, inserts Z.sub 0 [5; 1; 9; 3] = Some s /\ contents s = Some [1; 3; 5; 9] /\
    Contains Z.sub s 3 = Some true.
Proof.
  destruct (skiplist_refines_sorted_list Z.sub 0 Zsub_total [5; 1; 9; 3]) as (s & l & E & _ & _ & Hc & _).
  - repeat constructor; simpl; lia.
  - exists s. split; [exact E|]. revert E. vm_compute. intros [= <-]. split; reflexivity.
Defined.

(** C36: readers need no lock.  Let one writer run insertions store by store
    (search, [max_height_], node, and for each level the two link stores) while
    a reader executes [FindGreaterOrEqual] one load at a time, in any
    interleaving, from an empty list.  In every state reached: a scan of the
    list is defined and sorted; the reader's next load never follows a wild
    pointer; if that load makes the lookup return, the node returned holds the
    first key not less than the target in the list as it is at that instant; and
    the writer's next store changes what a scan sees by at most one inserted
    key. *)
Theorem skiplist_concurrent_read {K} (compare_ : K -> K -> Z) (any_key : K)
    (Hcmp : TotalCompare compare_) (s : SkipList K) (w : Writer)
    (r : option (K * nat * nat))
    (Hreach : rtc (cstep compare_) (newSkipList any_key, W_idle, None) (s, w, r)) :
  exists l, contents s = Some l /\ StronglySorted (fun a b => compare_ a b < 0) l /\
    (forall k x level, r = Some (k, x, level) ->
      is_Some (reader_step compare_ s k x level) /\
      forall res, reader_step compare_ s k x level = Some (inr res) ->
        iter_key s res = List.find (fun y => negb (compare_ y k <? 0)) l) /\
    (forall s' w', writer_step compare_ (s, w) (s', w') ->
      exists l', contents s' = Some l' /\ one_more l l').
Proof.
  destruct (creachable_inv compare_ any_key _ _ Hreach []) as (ns & Hw & Hr);
    [apply newSkipList_quiet|done|]. cbn [fst snd] in *.
  pose proof (winv_inv _ _ _ _ _ Hw) as Hinv.
  exists (ekey <$> at_level 0 ns). split; [by eapply contents_visible|].
  split; [apply sorted_keys, sorted_at_level; apply (inv_sorted _ _ _ _ Hinv)|]. split.
  - intros k x level ->. destruct (reader_step_spec _ _ s ns k x level Hinv Hr) as (o & -> & Ho).
    split; [done|]. intros res [= ->]. exact Ho.
  - intros s' w' Hstep. destruct (winv_step _ _ _ _ _ _ _ Hw Hstep) as (ns' & Hw' & Hg & _).
    exists (ekey <$> at_level 0 ns'). split; [|done].
    eapply contents_visible. by eapply winv_inv.
Qed.

(** The writer has published the first key of an empty list at level 0 when the
    reader's only load finds it. *)
Lemma skiplist_concurrent_read_witness :
  exists (s : SkipList Z) w l,
    rtc (cstep Z.sub) (newSkipList 0, W_idle, None) (s, w, Some (4, head_, 0%nat)) /\
    contents s = Some l /\ l = [7].
Proof.
  set (s0 := newSkipList 0).
  destruct (RandomHeight (rnd_ s0)) as [h seed] eqn:Eh.
  assert (h = 2%nat) as -> by (vm_compute in Eh; congruence).
  set (s1 := set_max_height 2 (set_rnd seed s0)). set (s2 := (NewNode s1 7 2).2).
  set (s3 := SetNext s2 1 0 None). set (s4 := SetNext s3 head_ 0 (Some 1%nat)).
  assert (Hreach : rtc (cstep Z.sub) (s0, W_idle, None)
    (s4, W_link 1 (replicate 12 head_) 2 1, Some (4, head_, 0%nat))).
  { eapply rtc_l; [apply cs_start with (k := 4)|].
    eapply rtc_l; [apply cs_writer; eapply (ws_find _ _ 7 _ (replicate 12 head_) _ _);
      [vm_compute; reflexivity|vm_compute; reflexivity|exact Eh]|].
    eapply rtc_l; [apply cs_writer, ws_height; vm_compute; lia|].
    eapply rtc_l; [apply cs_writer; eapply ws_new; reflexivity|].
    eapply rtc_l; [apply cs_writer; eapply ws_link with (p := head_) (n := None);
      [lia|vm_compute; reflexivity|vm_compute; reflexivity]|].
    eapply rtc_l; [apply cs_writer; eapply ws_publish with (p := head_); vm_compute; reflexivity|].
    apply rtc_refl. }
  destruct (skiplist_concurrent_read Z.sub 0 Zsub_total _ _ _ Hreach) as (l & Hl & _).
  exists s4, (W_link 1 (replicate 12 head_) 2 1), l. split; [exact Hreach|]. split; [exact Hl|].
  revert Hl. vm_compute. congruence.
Defined.
