(* ===== verification/MemTable.v ===== *)
(** db/memtable.{h,cc}: the in-memory table of recent updates, a skip list of
    encoded entries ordered by internal key.  A [const char*] key of the list is
    the buffer it points to.  Memory accounting (the arena) is in Arena. *)

From Stdlib Require Import Strings.Byte.
From stdpp Require Import base list gmap sorting strings.
From S2P Require Import Prelude Status Coding Comparator DbFormat WriteBatch Random SkipList SkipListProofs.

#[local] Open Scope Z_scope.

(** [GetLengthPrefixedSlice(data)] of memtable.cc, and the pointer past the
    slice.  "We assume p is not corrupted": where the varint is invalid the
    source dereferences null; the model returns empty buffers. *)
Definition mem_split (data : bytes) : bytes * bytes :=
  match GetVarint32Ptr (btake 5 data) with
  | Some (len, rest) =>
      let p := bdrop (blen (btake 5 data) - blen rest) data in
      (btake len p, bdrop len p)
  | None => ([], [])
  end.

Definition mem_GetLengthPrefixedSlice (data : bytes) : bytes := (mem_split data).1.

(** [MemTable::KeyComparator::operator()]. *)
Definition KeyComparator (user : Comparator) (aptr bptr : bytes) : Z :=
  InternalKey_Compare user (mem_GetLengthPrefixedSlice aptr) (mem_GetLengthPrefixedSlice bptr).

Definition EncodeKey (target : bytes) : bytes := PutVarint32 [] (u32 (blen target)) ++ target.

Section MemTable.
Context (user : Comparator).

(** The reference count and the table; [0] is the null key of [head_]. *)
Record MemTable := mkMemTable { refs_ : Z; table_ : SkipList bytes }.

Definition newMemTable : MemTable := mkMemTable 0 (newSkipList []).

Definition Ref (m : MemTable) : MemTable := mkMemTable (refs_ m + 1) (table_ m).
(** [None] when the table is deleted. *)
Definition Unref (m : MemTable) : option MemTable :=
  let refs := refs_ m - 1 in
  if refs <=? 0 then None else Some (mkMemTable refs (table_ m)).

(** The entry buffer [Add] builds. *)
Definition entry (s : Z) (type : ValueType) (key value : bytes) : bytes :=
  let key_size := blen key in
  let val_size := blen value in
  let internal_key_size := key_size + 8 in
  EncodeVarint32 (u32 internal_key_size) ++ key ++
  EncodeFixed64 (Z.lor (u64 (Z.shiftl s 8)) (vt_num type)) ++
  EncodeVarint32 (u32 val_size) ++ value.

Definition encoded_len (key value : bytes) : Z :=
  VarintLength (blen key + 8) + (blen key + 8) + VarintLength (blen value) + blen value.

(** [None] if the skip list is broken (SkipList). *)
Definition Add (m : MemTable) (s : Z) (type : ValueType) (key value : bytes) : option MemTable :=
  t ← SkipList.Insert (KeyComparator user) (table_ m) (entry s type key value);
  Some (mkMemTable (refs_ m) t).

(** What [Get] reports: [return false], or [return true] with a value or with
    the status it stores. *)
Inductive GetResult := Absent | Found (value : bytes) | Failed (s : Status).

Definition Get (m : MemTable) (k : LookupKey) : option GetResult :=
  n ← iter_Seek (KeyComparator user) (table_ m) (memtable_key k);
  if iter_Valid n then
    e ← iter_key (table_ m) n;
    match GetVarint32Ptr (btake 5 e) with
    | None => None
    | Some (key_length, rest) =>
        let key_ptr := bdrop (blen (btake 5 e) - blen rest) e in
        if Compare (btake (key_length - 8) key_ptr) (lookup_user_key k) =? 0 then
          let tag := DecodeFixed64 (bdrop (key_length - 8) key_ptr) in
          match vt_of (Z.land tag 255) with
          | Some kTypeValue =>
              Some (Found (mem_GetLengthPrefixedSlice (bdrop key_length key_ptr)))
          | Some kTypeDeletion => Some (Failed (NotFound [] []))
          | None => Some Absent
          end
        else Some Absent
    end
  else Some Absent.

(** * [MemTableIterator] *)

Definition mem_Seek (m : MemTable) (k : bytes) : option (option nat) :=
  iter_Seek (KeyComparator user) (table_ m) (EncodeKey k).
Definition mem_SeekToFirst (m : MemTable) : option (option nat) := iter_SeekToFirst (table_ m).
Definition mem_SeekToLast (m : MemTable) : option (option nat) := iter_SeekToLast (table_ m).
Definition mem_Next (m : MemTable) (n : option nat) : option (option nat) := iter_Next (table_ m) n.
Definition mem_Prev (m : MemTable) (n : option nat) : option (option nat) :=
  iter_Prev (KeyComparator user) (table_ m) n.
Definition mem_key (m : MemTable) (n : option nat) : option bytes :=
  mem_GetLengthPrefixedSlice <$> iter_key (table_ m) n.
Definition mem_value (m : MemTable) (n : option nat) : option bytes :=
  (fun e => mem_GetLengthPrefixedSlice (mem_split e).2) <$> iter_key (table_ m) n.

(** The memtable as the target of [WriteBatchInternal::InsertInto]. *)
#[export] Instance memtable_add : MemTableAdd (option MemTable) :=
  fun om s t k v => m ← om; Add m s t k v.
End MemTable.
Arguments newMemTable : simpl never.

(** * Entries *)

Lemma GetVarint32Ptr_take v rest : 0 <= v < 2 ^ 32 ->
  exists rest', GetVarint32Ptr (btake 5 (EncodeVarint32 v ++ rest)) = Some (v, rest') /\
    blen (btake 5 (EncodeVarint32 v ++ rest)) - blen rest' = blen (EncodeVarint32 v).
Proof.
  intros Hv. assert (Hl : blen (EncodeVarint32 v) <= 5).
  { unfold EncodeVarint32. repeat bcase; unfold blen; simpl; lia. }
  rewrite btake_app_ge by done. eexists. split.
  - apply GetVarint32_encode. done.
  - rewrite blen_app. lia.
Qed.

Lemma mem_split_put s rest : blen s < 2 ^ 32 ->
  mem_split (EncodeVarint32 (u32 (blen s)) ++ s ++ rest) = (s, rest).
Proof.
  intros Hs. pose proof (blen_nonneg s). rewrite u32_small by lia. unfold mem_split.
  destruct (GetVarint32Ptr_take (blen s) (s ++ rest)) as (rest' & -> & ->); [lia|].
  by rewrite bdrop_app, btake_app, bdrop_app.
Qed.

(** [entry] is the internal key and the value, both length-prefixed. *)
Lemma entry_eq s t k v :
  entry s t k v = EncodeVarint32 (u32 (blen (mkInternalKey k s t))) ++ mkInternalKey k s t ++
                  EncodeVarint32 (u32 (blen v)) ++ v.
Proof.
  unfold entry. rewrite mkInternalKey_eq, blen_app, EncodeFixed64_length.
  by rewrite <- !app_assoc.
Qed.

Lemma mkInternalKey_length k s t : blen (mkInternalKey k s t) = blen k + 8.
Proof. by rewrite mkInternalKey_eq, blen_app, EncodeFixed64_length. Qed.

Lemma mem_key_entry s t k v : blen k + 8 < 2 ^ 32 ->
  mem_GetLengthPrefixedSlice (entry s t k v) = mkInternalKey k s t.
Proof.
  intros Hk. unfold mem_GetLengthPrefixedSlice. rewrite entry_eq, mem_split_put; [done|].
  by rewrite mkInternalKey_length.
Qed.

Lemma mem_value_entry s t k v : blen k + 8 < 2 ^ 32 -> blen v < 2 ^ 32 ->
  mem_GetLengthPrefixedSlice (mem_split (entry s t k v)).2 = v.
Proof.
  intros Hk Hv. rewrite entry_eq, mem_split_put by (by rewrite mkInternalKey_length).
  unfold mem_GetLengthPrefixedSlice. simpl.
  rewrite <- (app_nil_r v) at 2. by rewrite mem_split_put.
Qed.

Lemma memtable_key_slice u s : blen u + 8 < 2 ^ 32 ->
  mem_GetLengthPrefixedSlice (memtable_key (newLookupKey u s)) = mkInternalKey u s kTypeValue.
Proof.
  intros Hu. unfold mem_GetLengthPrefixedSlice, memtable_key, newLookupKey. cbn [start_].
  change (u ++ EncodeFixed64 _) with (mkInternalKey u s kTypeValue).
  rewrite <- (mkInternalKey_length u s kTypeValue).
  rewrite <- (app_nil_r (mkInternalKey u s kTypeValue)) at 2.
  rewrite mem_split_put; [done|]. by rewrite mkInternalKey_length.
Qed.

#[export] Instance KeyComparator_total (user : Comparator) `{!@ComparatorOk user} :
  TotalCompare (KeyComparator user).
Proof.
  pose proof (Compare_total (H := InternalKeyComparator user)) as Hc.
  split; unfold KeyComparator.
  - intros a b. apply (tc_antisym (cmp := InternalKey_Compare user)).
  - intros a b c. apply (tc_le_trans (cmp := InternalKey_Compare user)).
Qed.

(** * Lookups *)

(** An update as the memtable receives it. *)
Record Update := mkUpdate { up_seq : Z; up_type : ValueType; up_key : bytes; up_value : bytes }.

Definition up_entry (x : Update) : bytes :=
  entry (up_seq x) (up_type x) (up_key x) (up_value x).
Definition up_ikey (x : Update) : bytes := mkInternalKey (up_key x) (up_seq x) (up_type x).
Definition up_tag (x : Update) : Z := PackSequenceAndType (up_seq x) (up_type x).

Definition up_small (x : Update) : Prop :=
  0 <= up_seq x <= kMaxSequenceNumber /\ blen (up_key x) + 8 < 2 ^ 32 /\ blen (up_value x) < 2 ^ 32.

Definition up_result (x : Update) : GetResult :=
  match up_type x with
  | kTypeValue => Found (up_value x)
  | kTypeDeletion => Failed (NotFound [] [])
  end.

Section Lookup.
Context (user : Comparator) `{!@ComparatorOk user}.

Definition add_all (ups : list Update) : option MemTable :=
  foldl (fun om x => m ← om; Add user m (up_seq x) (up_type x) (up_key x) (up_value x))
    (Some newMemTable) ups.

(** No two updates of the same key have the same sequence number. *)
Definition distinct_updates (ups : list Update) : Prop :=
  StronglySorted (fun a b => Compare (up_key a) (up_key b) <> 0 \/ up_seq a <> up_seq b) ups.

(** The updates of [u] a snapshot sees, and the newest of them. *)
Definition visible (u : bytes) (snap : Z) (x : Update) : Prop :=
  Compare (up_key x) u = 0 /\ up_seq x <= snap.
Definition newest (u : bytes) (snap : Z) (ups : list Update) (x : Update) : Prop :=
  x ∈ ups /\ visible u snap x /\ forall y, y ∈ ups -> visible u snap y -> up_tag y <= up_tag x.

Lemma up_compare a b : up_small a -> up_small b ->
  KeyComparator user (up_entry a) (up_entry b) = InternalKey_Compare user (up_ikey a) (up_ikey b).
Proof.
  intros (_ & Ha & _) (_ & Hb & _). unfold KeyComparator, up_entry.
  by rewrite !mem_key_entry.
Qed.

Lemma up_ikey_user x : ExtractUserKey (up_ikey x) = up_key x.
Proof. apply ExtractUserKey_mk. Qed.

Lemma up_ikey_tag x : up_small x -> ExtractTag (up_ikey x) = up_tag x.
Proof. intros (Hs & _). by apply ExtractTag_mk. Qed.

Lemma entries_distinct ups : Forall up_small ups -> distinct_updates ups ->
  StronglySorted (fun a b => KeyComparator user a b <> 0) (up_entry <$> ups).
Proof.
  intros Hs. induction 1 as [|x ups Hd IH Hx]; [constructor|].
  apply Forall_cons in Hs as [Hsx Hs]. rewrite fmap_cons. constructor; [by apply IH|].
  apply Forall_fmap. rewrite Forall_forall in *. intros y Hy Hc. simpl in Hc.
  specialize (Hs y Hy). specialize (Hx y Hy). simpl in Hx.
  rewrite up_compare in Hc by done. apply icmp_eq in Hc as [Hc1 Hc2].
  rewrite !up_ikey_user in Hc1. rewrite !up_ikey_tag in Hc2 by done.
  unfold up_tag in Hc2. destruct Hsx as [Hsx _], Hs as [Hs _].
  rewrite !PackSequenceAndType_sum in Hc2 by done.
  pose proof (vt_num_range (up_type x)). pose proof (vt_num_range (up_type y)). lia.
Qed.

Lemma add_all_inserts ups :
  add_all ups = mkMemTable 0 <$> inserts (KeyComparator user) [] (up_entry <$> ups).
Proof.
  unfold add_all, inserts. induction ups as [|x ups IH] using rev_ind; [done|].
  rewrite fmap_app, !foldl_app, IH. cbn [foldl fmap list_fmap].
  change (list_fmap _ _ up_entry) with (fmap (M := list) up_entry).
  destruct (foldl _ _ (up_entry <$> ups)) as [s|]; [|done]. cbn [mbind option_bind fmap option_fmap option_map].
  unfold Add, up_entry. cbn [table_ refs_].
  by destruct (SkipList.Insert _ _ _).
Qed.

(** An entry at or after the lookup key of [u], [snap]. *)
Lemma not_before_lookup u snap x : blen u + 8 < 2 ^ 32 -> 0 <= snap <= kMaxSequenceNumber ->
  up_small x ->
  ~ KeyComparator user (up_entry x) (memtable_key (newLookupKey u snap)) < 0 <->
  Compare u (up_key x) < 0 \/ (Compare u (up_key x) = 0 /\ up_seq x <= snap).
Proof.
  intros Hu Hsnap Hx. pose proof Hx as (Hs & Hk & _). unfold KeyComparator, up_entry.
  rewrite mem_key_entry, memtable_key_slice by done. fold (up_ikey x).
  pose proof (Compare_total (H := InternalKeyComparator user)) as Ht.
  assert (Hflip : ~ InternalKey_Compare user (up_ikey x) (mkInternalKey u snap kTypeValue) < 0 <->
                  InternalKey_Compare user (mkInternalKey u snap kTypeValue) (up_ikey x) <= 0).
  { rewrite (tc_flip_le (InternalKey_Compare user)). lia. }
  rewrite Hflip, icmp_le, ExtractUserKey_mk, up_ikey_user, ExtractTag_mk, up_ikey_tag by done.
  unfold up_tag. rewrite !PackSequenceAndType_sum by done.
  pose proof (vt_num_range (up_type x)). simpl. lia.
Qed.

(** [Get] on the entry a seek lands on. *)
Lemma Get_entry m x u snap n : up_small x -> blen u + 8 < 2 ^ 32 ->
  iter_Seek (KeyComparator user) (table_ m) (memtable_key (newLookupKey u snap)) = Some (Some n) ->
  iter_key (table_ m) (Some n) = Some (up_entry x) ->
  lookup_user_key (newLookupKey u snap) = u ->
  Get user m (newLookupKey u snap) =
    Some (if Compare (up_key x) u =? 0 then up_result x else Absent).
Proof.
  intros Hx Hu Hseek Hkey Huk. pose proof Hx as (Hs & Hk & Hv).
  unfold Get. rewrite Hseek. cbn [mbind option_bind iter_Valid].
  change (iter_Valid (Some n)) with true. cbv iota. rewrite Hkey. cbn [mbind option_bind].
  pose proof (blen_nonneg (up_key x)).
  unfold up_entry. rewrite entry_eq. fold (up_ikey x).
  assert (Hlen : blen (up_ikey x) = blen (up_key x) + 8) by apply mkInternalKey_length.
  rewrite (u32_small (blen (up_ikey x))) by lia.
  destruct (GetVarint32Ptr_take (blen (up_ikey x))
    (up_ikey x ++ EncodeVarint32 (u32 (blen (up_value x))) ++ up_value x)) as (rest & -> & ->); [lia|].
  rewrite bdrop_app.
  set (tl := EncodeVarint32 _ ++ up_value x).
  assert (Hsplit : up_ikey x ++ tl = up_key x ++ EncodeFixed64 (up_tag x) ++ tl).
  { unfold up_ikey. rewrite mkInternalKey_eq. by rewrite <- app_assoc. }
  assert (Hval : mem_GetLengthPrefixedSlice
    (bdrop (blen (up_ikey x)) (up_key x ++ EncodeFixed64 (up_tag x) ++ tl)) = up_value x).
  { rewrite <- Hsplit, bdrop_app. unfold mem_GetLengthPrefixedSlice, tl.
    rewrite <- (app_nil_r (up_value x)) at 2. by rewrite mem_split_put. }
  rewrite Hsplit, Hval, btake_app_n by lia. rewrite (bdrop_app_n (blen (up_ikey x) - 8)) by lia.
  rewrite Huk. destruct (Compare (up_key x) u =? 0); [|done].
  rewrite DecodeFixed64_app, Z.mod_small by by apply PackSequenceAndType_range.
  unfold up_tag. rewrite PackSequenceAndType_sum, land_255 by done.
  pose proof (vt_num_range (up_type x)).
  rewrite Z.add_comm, Z_mod_plus_full, Z.mod_small, vt_of_num by lia.
  unfold up_result. by destruct (up_type x).
Qed.

Lemma lookup_user_key_new u snap : lookup_user_key (newLookupKey u snap) = u.
Proof.
  unfold lookup_user_key, newLookupKey. cbn [start_ kstart_].
  rewrite bdrop_app, !blen_app, EncodeFixed64_length. apply btake_app_n. lia.
Qed.

Lemma visible_after u snap x : blen u + 8 < 2 ^ 32 -> 0 <= snap <= kMaxSequenceNumber ->
  up_small x -> visible u snap x ->
  ~ KeyComparator user (up_entry x) (memtable_key (newLookupKey u snap)) < 0.
Proof.
  intros Hu Hsnap Hx [Hc Hs]. apply not_before_lookup; [done..|].
  right. split; [|done]. by apply cmp_eq_sym.
Qed.

(** The heart of [Get]: the entry sought is the newest visible one. *)
Lemma sought_newest ups u snap lo hi :
  Forall up_small ups -> blen u + 8 < 2 ^ 32 -> 0 <= snap <= kMaxSequenceNumber ->
  (ekey <$> lo ++ hi) ≡ₚ (up_entry <$> ups) ->
  StronglySorted (ent_lt (KeyComparator user)) (lo ++ hi) ->
  Forall (before (KeyComparator user) (memtable_key (newLookupKey u snap))) lo ->
  Forall (fun e => ~ before (KeyComparator user) (memtable_key (newLookupKey u snap)) e) hi ->
  match hi with
  | [] => forall y, y ∈ ups -> ~ visible u snap y
  | e :: _ => exists x, x ∈ ups /\ ekey e = up_entry x /\
      if Compare (up_key x) u =? 0 then newest u snap ups x
      else forall y, y ∈ ups -> ~ visible u snap y
  end.
Proof.
  intros Hsm Hu Hsnap Hperm Hsort Hlo Hhi. rewrite Forall_forall in Hsm. rewrite Forall_forall in Hlo. rewrite Forall_forall in Hhi.
  (* a visible update is in [hi] *)
  assert (Hin : forall y, y ∈ ups -> visible u snap y -> exists e, e ∈ hi /\ ekey e = up_entry y).
  { intros y Hy Hvis. assert (Hy' : up_entry y ∈ ekey <$> lo ++ hi).
    { rewrite Hperm. by apply list_elem_of_fmap_2. }
    apply list_elem_of_fmap_1 in Hy' as (e & He & Hel). exists e. split; [|done].
    apply elem_of_app in Hel as [Hel|Hel]; [|done]. exfalso. specialize (Hlo e Hel).
    unfold before in Hlo. rewrite <- He in Hlo.
    by apply (visible_after u snap y Hu Hsnap (Hsm y Hy) Hvis). }
  destruct hi as [|e hi].
  { intros y Hy Hvis. destruct (Hin y Hy Hvis) as (e & He & _). by apply not_elem_of_nil in He. }
  assert (Hx : ekey e ∈ up_entry <$> ups).
  { rewrite <- Hperm. apply list_elem_of_fmap_2. set_solver. }
  apply list_elem_of_fmap_1 in Hx as (x & He & Hxin). exists x. split; [done|]. split; [done|].
  assert (Hxa : ~ before (KeyComparator user) (memtable_key (newLookupKey u snap)) e)
    by (apply Hhi; set_solver).
  unfold before in Hxa. rewrite He in Hxa.
  apply not_before_lookup in Hxa; [|done|done|by apply Hsm].
  (* [e] comes first among the visible ones *)
  assert (Hfirst : forall y, y ∈ ups -> visible u snap y ->
    InternalKey_Compare user (up_ikey x) (up_ikey y) <= 0).
  { intros y Hy Hvis. destruct (Hin y Hy Hvis) as (e' & He' & Hek).
    rewrite <- up_compare, <- He, <- Hek by by apply Hsm.
    apply elem_of_cons in He' as [->|He']; [by rewrite tc_refl by apply _|].
    apply StronglySorted_app in Hsort as (_ & _ & Hsort).
    apply StronglySorted_inv in Hsort as [_ Hsort]. rewrite Forall_forall in Hsort.
    specialize (Hsort e' He'). unfold ent_lt in Hsort. lia. }
  destruct (Z.eqb_spec (Compare (up_key x) u) 0) as [Hc|Hc].
  - assert (Hxv : visible u snap x).
    { split; [done|]. apply cmp_eq_sym in Hc. lia. }
    split; [done|]. split; [done|]. intros y Hy Hvis. specialize (Hfirst y Hy Hvis).
    apply icmp_le in Hfirst. rewrite !up_ikey_user, !up_ikey_tag in Hfirst by by apply Hsm.
    destruct Hfirst as [Hlt|[_ Htag]]; [|done]. destruct Hvis as [Hyc _].
    apply cmp_eq_sym in Hyc. assert (Hcc := cmp_eq_trans _ _ _ Hc Hyc). lia.
  - intros y Hy Hvis. specialize (Hfirst y Hy Hvis). apply icmp_le in Hfirst.
    rewrite !up_ikey_user in Hfirst. destruct Hvis as [Hyc _].
    assert (Hle1 : Compare u (up_key x) <= 0) by lia.
    assert (Hle2 : Compare (up_key x) u <= 0).
    { apply (cmp_le_trans _ (up_key y)); lia. }
    apply cmp_flip_le in Hle1. lia.
Qed.

Lemma Get_spec ups u snap :
  Forall up_small ups -> distinct_updates ups -> blen u + 8 < 2 ^ 32 ->
  0 <= snap <= kMaxSequenceNumber ->
  exists m, add_all ups = Some m /\
    ((exists x, newest u snap ups x /\ Get user m (newLookupKey u snap) = Some (up_result x)) \/
     ((forall y, y ∈ ups -> ~ visible u snap y) /\
      Get user m (newLookupKey u snap) = Some Absent)).
Proof.
  intros Hsm Hd Hu Hsnap.
  destruct (inserts_spec (KeyComparator user) [] _ (entries_distinct ups Hsm Hd))
    as (s & ns & E & Hq & Hp).
  exists (mkMemTable 0 s). rewrite add_all_inserts, E. split; [done|].
  pose proof (inv_sorted _ _ _ _ (quiet_inv _ _ _ _ Hq)) as Hsort.
  destruct (sorted_partition (KeyComparator user) (memtable_key (newLookupKey u snap)) ns Hsort)
    as (lo & hi & -> & Hlo & Hhi).
  pose proof (sought_newest ups u snap lo hi Hsm Hu Hsnap Hp Hsort Hlo Hhi) as Hnew.
  destruct (quiet_Seek _ _ s lo hi _ Hq Hlo Hhi) as [Hseek Hkey].
  destruct hi as [|e hi].
  - right. split; [done|]. unfold Get. cbn [table_]. by rewrite Hseek.
  - destruct Hnew as (x & Hx & He & Hnew). rewrite Forall_forall in Hsm.
    cbn [head fmap option_fmap option_map] in Hseek, Hkey. rewrite He in Hkey.
    pose proof (Get_entry (mkMemTable 0 s) x u snap (eaddr e) (Hsm x Hx) Hu Hseek Hkey
      (lookup_user_key_new u snap)) as HG.
    rewrite HG. destruct (_ =? 0); [left; by exists x|by right].
Qed.
End Lookup.

(** * The updates of a batch *)

Definition op_key (op : BatchOp) : bytes := match op with OpPut k _ => k | OpDelete k => k end.
Definition op_update (seq : Z) (op : BatchOp) : Update :=
  match op with
  | OpPut k v => mkUpdate seq kTypeValue k v
  | OpDelete k => mkUpdate seq kTypeDeletion k []
  end.

Fixpoint batch_updates (seq : Z) (ops : list BatchOp) : list Update :=
  match ops with
  | [] => []
  | op :: ops => op_update seq op :: batch_updates (seq + 1) ops
  end.

(** What a reader should see of an operation. *)
Definition op_result (op : BatchOp) : GetResult :=
  match op with OpPut _ v => Found v | OpDelete _ => Failed (NotFound [] []) end.

Lemma op_update_key seq op : up_key (op_update seq op) = op_key op.
Proof. by destruct op. Qed.
Lemma op_update_seq seq op : up_seq (op_update seq op) = seq.
Proof. by destruct op. Qed.
Lemma op_update_result seq op : up_result (op_update seq op) = op_result op.
Proof. by destruct op. Qed.

(** The last operation on a key. *)
Definition last_op (user : Comparator) (u : bytes) (ops : list BatchOp) : option BatchOp :=
  List.find (fun op => Compare (op_key op) u =? 0) (rev ops).

Lemma batch_updates_in ops : forall seq x, x ∈ batch_updates seq ops ->
  exists i op, ops !! i = Some op /\ x = op_update (seq + Z.of_nat i) op.
Proof.
  induction ops as [|op ops IH]; intros seq x; simpl; [by intros ?%not_elem_of_nil|].
  intros [->|Hx]%elem_of_cons.
  - exists 0%nat, op. by rewrite Z.add_0_r.
  - destruct (IH _ _ Hx) as (i & op' & Hi & ->). exists (S i), op'. split; [done|]. f_equal. lia.
Qed.

Lemma batch_updates_lookup ops : forall seq i op, ops !! i = Some op ->
  op_update (seq + Z.of_nat i) op ∈ batch_updates seq ops.
Proof.
  induction ops as [|op0 ops IH]; intros seq i op; [done|]. destruct i as [|i]; simpl.
  - intros [= ->]. rewrite Z.add_0_r. set_solver.
  - intros Hi. apply elem_of_cons. right.
    replace (seq + Z.of_nat (S i)) with (seq + 1 + Z.of_nat i) by lia. by apply IH.
Qed.

Definition op_fits (op : BatchOp) : Prop :=
  match op with
  | OpPut k v => blen k + 8 < 2 ^ 32 /\ blen v < 2 ^ 32
  | OpDelete k => blen k + 8 < 2 ^ 32
  end.

Lemma batch_updates_small ops seq : Forall op_fits ops -> 0 <= seq ->
  seq + blen ops <= kMaxSequenceNumber + 1 -> Forall up_small (batch_updates seq ops).
Proof.
  intros Hf Hs Hmax. rewrite Forall_forall in Hf. apply Forall_forall. intros x Hx.
  apply batch_updates_in in Hx as (i & op & Hi & ->).
  specialize (Hf op (list_elem_of_lookup_2 _ _ _ Hi)). apply lookup_lt_Some in Hi.
  unfold blen in Hmax. unfold up_small. rewrite op_update_seq, op_update_key.
  destruct op as [k v|k]; simpl in *; (split; [lia|]); [done|]. split; [done|]. by vm_compute.
Qed.

(** The newest update of a key in a batch is its last operation. *)
Lemma find_rev_last {A} (p : A -> bool) l x : List.find p (rev l) = Some x ->
  exists i, l !! i = Some x /\ p x = true /\
    forall j y, l !! j = Some y -> p y = true -> (j <= i)%nat.
Proof.
  induction l as [|a l IH] using rev_ind; [done|]. rewrite rev_unit. simpl.
  destruct (p a) eqn:Ea.
  - intros [= ->]. exists (length l). split; [by apply list_lookup_middle|]. split; [done|].
    intros j y Hj _. apply lookup_lt_Some in Hj. rewrite length_app in Hj. simpl in Hj. lia.
  - intros Hf. destruct (IH Hf) as (i & Hi & Hp & Hmax). exists i.
    split; [by apply lookup_app_l_Some|]. split; [done|]. intros j y Hj Hy.
    apply lookup_app_Some in Hj as [Hj|[Hj1 Hj2]]; [by eapply Hmax|].
    destruct (j - length l)%nat; [|done]. simpl in Hj2. congruence.
Qed.

Lemma find_rev_none {A} (p : A -> bool) l : List.find p (rev l) = None ->
  forall x, x ∈ l -> p x = false.
Proof.
  intros Hf x Hx. apply (List.find_none p (rev l)); [done|]. apply -> List.in_rev.
  by apply list_elem_of_In.
Qed.

Lemma insert_ops_add_all (user : Comparator) ops : forall seq ups,
  insert_ops (M := option MemTable) (H := memtable_add user) seq ops (add_all user ups) =
  add_all user (ups ++ batch_updates seq ops).
Proof.
  induction ops as [|op ops IH]; intros seq ups; simpl; [by rewrite app_nil_r|].
  replace (ups ++ op_update seq op :: batch_updates (seq + 1) ops) with
    ((ups ++ [op_update seq op]) ++ batch_updates (seq + 1) ops) by by rewrite <- app_assoc.
  rewrite <- IH. destruct op; (f_equal; unfold add_all; rewrite foldl_app; done).
Qed.

Lemma batch_updates_distinct (user : Comparator) ops : forall seq, distinct_updates user (batch_updates seq ops).
Proof.
  induction ops as [|op ops IH]; intros seq; simpl; [constructor|]. constructor; [apply IH|].
  apply Forall_forall. intros x Hx. apply batch_updates_in in Hx as (i & op' & _ & ->).
  right. rewrite !op_update_seq. lia.
Qed.

(** * Properties *)

(** A memtable answers reads at a snapshot.  Add any updates of which no two
    share both key and sequence number, in any order; then every [Add] succeeds,
    and looking up a user key at a snapshot returns the value (or the deletion)
    of the update with the highest sequence number not above the snapshot, and
    reports absence exactly when there is none. *)
Theorem memtable_get_newest (user : Comparator) (Huser : @ComparatorOk user)
    (ups : list Update) (u : bytes) (snap : Z)
    (Hsmall : Forall up_small ups) (Hdistinct : distinct_updates user ups)
    (Hu : blen u + 8 < 2 ^ 32) (Hsnap : 0 <= snap <= kMaxSequenceNumber) :
  exists m, add_all user ups = Some m /\
    ((exists x, newest user u snap ups x /\
        Get user m (newLookupKey u snap) = Some (up_result x)) \/
     ((forall y, y ∈ ups -> ~ visible user u snap y) /\
        Get user m (newLookupKey u snap) = Some Absent)).
Proof. by apply Get_spec. Qed.

Lemma memtable_get_newest_witness :
  let ups := [mkUpdate 3 kTypeValue (str "k") (str "new"); mkUpdate 1 kTypeValue (str "k") (str "old")] in
  exists m, add_all BytewiseComparator ups = Some m /\
    Get BytewiseComparator m (newLookupKey (str "k") 2) = Some (Found (str "old")).
Proof.
  cbv zeta.
  destruct (memtable_get_newest BytewiseComparator BytewiseComparator_ok
    [mkUpdate 3 kTypeValue (str "k") (str "new"); mkUpdate 1 kTypeValue (str "k") (str "old")]
    (str "k") 2) as (m & E & Hget).
  - repeat constructor; vm_compute; congruence.
  - apply SSorted_cons; [apply SSorted_cons; [apply SSorted_nil|apply Forall_nil_2]|].
    apply Forall_cons_2; [right; vm_compute; congruence|apply Forall_nil_2].
  - vm_compute. reflexivity.
  - vm_compute. split; congruence.
  - exists m. split; [exact E|].
    destruct Hget as [(x & (Hx & [_ Hs] & _) & ->)|[Hno _]].
    + apply elem_of_cons in Hx as [->|Hx]; [cbn in Hs; lia|].
      apply list_elem_of_singleton in Hx as ->. reflexivity.
    + exfalso. eapply Hno; [apply elem_of_cons; right; apply list_elem_of_singleton; reflexivity|].
      split; [reflexivity|cbn; lia].
Defined.

(** Read your writes.  Replay a write batch, stamped with a sequence number,
    into an empty memtable with [InsertInto]: it succeeds, and looking up any key
    at a snapshot that covers the batch returns what the last operation of the
    batch on that key did, or absence if the batch does not mention the key. *)
Theorem batch_read_your_writes (user : Comparator) (Huser : @ComparatorOk user)
    (ops : list BatchOp) (seq snap : Z) (u : bytes)
    (Hops : Forall op_fits ops) (Hcount : blen ops < 2 ^ 31)
    (Hseq : 0 <= seq) (Hmax : seq + blen ops <= snap + 1) (Hsnap : 0 <= snap <= kMaxSequenceNumber)
    (Hu : blen u + 8 < 2 ^ 32) :
  exists m,
    InsertInto (M := option MemTable) (H := memtable_add user)
      (SetSequence (batch_of ops) seq) (Some newMemTable) = (OK, Some m) /\
    Get user m (newLookupKey u snap) =
      Some (match last_op user u ops with Some op => op_result op | None => Absent end).
Proof.
  pose proof (blen_nonneg ops) as Hn.
  destruct (Get_spec user (batch_updates seq ops) u snap) as (m & Em & Hget);
    [apply batch_updates_small; [done|done|lia]|apply batch_updates_distinct|done|lia|].
  exists m. split.
  { assert (Hso : Forall op_small ops).
    { eapply Forall_impl; [exact Hops|]. intros [k v|k]; simpl; lia. }
    assert (Hs64 : 0 <= seq < 2 ^ 64 - 2 ^ 31).
    { unfold kMaxSequenceNumber in Hsnap. change (Z.shiftl 1 56) with (2 ^ 56) in Hsnap. lia. }
    rewrite batch_of_layout, SetSequence_layout by lia. unfold InsertInto.
    rewrite Sequence_layout, Iterate_layout by (done || lia).
    rewrite fold_inserter by lia. cbn [mem_]. f_equal.
    etrans; [exact (insert_ops_add_all user ops seq [])|]. by rewrite <- Em. }
  unfold last_op. destruct (List.find _ (rev ops)) as [op|] eqn:Ef.
  - destruct (find_rev_last _ _ _ Ef) as (i & Hi & Hp & Hlast). apply Z.eqb_eq in Hp.
    pose proof (batch_updates_lookup ops seq i op Hi) as Hin.
    pose proof (lookup_lt_Some _ _ _ Hi) as Hlt. unfold blen in Hmax.
    assert (Hvis : visible user u snap (op_update (seq + Z.of_nat i) op)).
    { split; rewrite ?op_update_key, ?op_update_seq; [done|lia]. }
    destruct Hget as [(x & (Hx & [Hxk Hxs] & Hbest) & ->)|[Hno _]]; [|by destruct (Hno _ Hin)].
    f_equal. apply batch_updates_in in Hx as (j & op' & Hj & ->).
    rewrite op_update_key in Hxk. rewrite op_update_result.
    assert (j <= i)%nat by (eapply Hlast; [done|by apply Z.eqb_eq]).
    specialize (Hbest _ Hin Hvis). pose proof (lookup_lt_Some _ _ _ Hj).
    unfold up_tag in Hbest. rewrite !op_update_seq, !PackSequenceAndType_sum in Hbest by lia.
    pose proof (vt_num_range (up_type (op_update (seq + Z.of_nat j) op'))).
    pose proof (vt_num_range (up_type (op_update (seq + Z.of_nat i) op))).
    assert (i = j) as -> by lia. congruence.
  - destruct Hget as [(x & (Hx & [Hxk Hxs] & _) & _)|[_ ->]]; [|done].
    apply batch_updates_in in Hx as (j & op' & Hj & ->). rewrite op_update_key in Hxk.
    pose proof (find_rev_none _ _ Ef op' (list_elem_of_lookup_2 _ _ _ Hj)) as Hf. simpl in Hf. lia.
Qed.

Lemma batch_read_your_writes_witness :
  exists m,
    InsertInto (M := option MemTable) (H := memtable_add BytewiseComparator)
      (SetSequence (batch_of [OpPut (str "a") (str "1"); OpDelete (str "b"); OpPut (str "a") (str "2")]) 10)
      (Some newMemTable) = (OK, Some m) /\
    Get BytewiseComparator m (newLookupKey (str "a") 12) = Some (Found (str "2")).
Proof.
  apply (batch_read_your_writes BytewiseComparator BytewiseComparator_ok
    [OpPut (str "a") (str "1"); OpDelete (str "b"); OpPut (str "a") (str "2")] 10 12 (str "a")).
  - repeat constructor; vm_compute; reflexivity.
  - vm_compute. reflexivity.
  - lia.
  - vm_compute. congruence.
  - vm_compute. split; congruence.
  - vm_compute. reflexivity.
Defined.
