(* ===== verification/ModUtil.v ===== *)
(** mod/util.cpp: the numeric reading of keys that the learned models work on.
    The models are trained on [stoull]/[atoll] of the key text and queried
    with [SliceToInteger] of the key slice, while the files that hold the keys
    are sorted by the bytewise comparator: the models make sense because the
    four agree on the keys the system generates ([generate_key]). *)

From S2P Require Import Prelude Comparator Logging.
From Stdlib Require Import Strings.Byte.
From stdpp Require Import base list strings.

#[local] Open Scope Z_scope.

(** * The numeric conversions of the C and C++ libraries *)

(** [isspace] in the "C" locale. *)
Definition isspace (b : byte) : bool := (bz b =? 32) || ((9 <=? bz b) && (bz b <=? 13)).

Fixpoint skip_space (s : bytes) : bytes :=
  match s with
  | b :: s' => if isspace b then skip_space s' else s
  | [] => []
  end.

(** The subject sequence of [strtoull]/[strtoll] in base ten: white space, an
    optional sign, digits. *)
Definition number_text (s : bytes) : bool * bytes :=
  match skip_space s with
  | b :: s' =>
      if bz b =? 45 then (true, digits_of s')
      else if bz b =? 43 then (false, digits_of s')
      else (false, digits_of (b :: s'))
  | [] => (false, [])
  end.

(** [std::stoull]: [None] when it throws ([invalid_argument] without digits,
    [out_of_range] when the number needs more than 64 bits). *)
Definition stoull (s : bytes) : option Z :=
  let '(neg, ds) := number_text s in
  if blen ds =? 0 then None
  else if 2 ^ 64 <=? digits_value ds then None
  else Some (if neg then u64 (- digits_value ds) else digits_value ds).

(** [atoll]: 0 without digits; [None] when the value does not fit in a
    [long long], which the standard leaves undefined. *)
Definition atoll (s : bytes) : option Z :=
  let '(neg, ds) := number_text s in
  let v := if neg then - digits_value ds else digits_value ds in
  if (- 2 ^ 63 <=? v) && (v <? 2 ^ 63) then Some v else None.

(** * mod/util.cpp *)

(** [(uint64_t) atol(temp)] on a NUL-terminated copy of the [size] bytes at
    [pos]. *)
Definition ExtractInteger (pos : bytes) (size : Z) : option Z :=
  match atoll (btake size pos ++ [x00]) with
  | Some v => Some (u64 v)
  | None => None
  end.

(** [string(key_size - key.length(), '0') + key]; the count is a [size_t], so
    that a key longer than [key_size] asks for an impossible length and the
    constructor throws. *)
Definition generate_key (key_size : Z) (key : bytes) : option bytes :=
  if key_size <? blen key then None
  else Some (replicate (Z.to_nat (key_size - blen key)) "0"%byte ++ key).

Definition generate_value (value_size : Z) (value : Z) : option bytes :=
  let value_string := decimal value in
  if value_size <? blen value_string then None
  else Some (replicate (Z.to_nat (value_size - blen value_string)) "0"%byte ++ value_string).

Fixpoint SliceToInteger_loop (data : bytes) (leading_zeros : bool) (num : Z) : Z :=
  match data with
  | [] => num
  | b :: data' =>
      let temp := sz b in
      if leading_zeros && (temp =? 48) then SliceToInteger_loop data' leading_zeros num
      else SliceToInteger_loop data' false
             (u64 (u64 (Z.shiftl num 3) + u64 (Z.shiftl num 1) + temp - 48))
  end.

Definition SliceToInteger (slice : bytes) : Z := SliceToInteger_loop slice true 0.

(** [compare] and the comparison operators of a slice with a string look at
    [slice.size()] bytes of the string ([c_str] ends it with a zero byte). *)
Definition compare (slice string : bytes) : Z :=
  memcmp slice (bresize (blen slice) string).
Definition op_lt (slice string : bytes) : bool := compare slice string <? 0.
Definition op_gt (slice string : bytes) : bool := 0 <? compare slice string.
Definition op_le (slice string : bytes) : bool := compare slice string <=? 0.
Definition op_ge (slice string : bytes) : bool := 0 <=? compare slice string.

(** [timespec] as its two fields. *)
Definition get_time_difference (start stop : Z * Z) : Z :=
  u64 ((stop.1 - start.1) * 1000000000 + stop.2 - start.2).

(** * Decimal keys *)

(** A key the system generates: decimal digits only. *)
Definition decimal_key (k : bytes) : Prop := Forall (fun d => is_digit d = true) k.

Lemma digit_not_space b : is_digit b = true -> isspace b = false.
Proof. rewrite is_digit_spec. unfold isspace. lia. Qed.

Lemma digits_value_nonneg k : decimal_key k -> 0 <= digits_value k.
Proof. intros Hk. by apply digits_value_from_mono. Qed.

Lemma number_text_decimal k : decimal_key k -> number_text k = (false, k).
Proof.
  intros Hk. unfold number_text. destruct k as [|b k]; [done|].
  pose proof Hk as Hk'. apply Forall_cons_1 in Hk' as [Hb _].
  cbn [skip_space]. rewrite digit_not_space by done.
  pose proof (digits_of_app (b :: k) [] Hk eq_refl) as E. rewrite app_nil_r in E.
  apply is_digit_spec in Hb.
  replace (bz b =? 45) with false by lia. replace (bz b =? 43) with false by lia.
  by rewrite E.
Qed.

Lemma stoull_decimal k :
  decimal_key k -> k <> [] -> digits_value k < 2 ^ 64 -> stoull k = Some (digits_value k).
Proof.
  intros Hk Hne Hv. unfold stoull. rewrite number_text_decimal by done.
  destruct (Z.eqb_spec (blen k) 0) as [E|_]; [by apply blen_zero_inv in E|].
  by replace (2 ^ 64 <=? digits_value k) with false by lia.
Qed.

Lemma atoll_decimal k :
  decimal_key k -> digits_value k < 2 ^ 63 -> atoll k = Some (digits_value k).
Proof.
  intros Hk Hv. unfold atoll. rewrite number_text_decimal by done.
  pose proof (digits_value_nonneg k Hk).
  by replace ((_ <=? _) && (_ <? _)) with true by lia.
Qed.

Lemma sz_digit b : is_digit b = true -> sz b = bz b.
Proof. rewrite is_digit_spec. unfold sz. intros. by replace (bz b <? 128) with true by lia. Qed.

Lemma SliceToInteger_step num t :
  u64 (u64 (Z.shiftl num 3) + u64 (Z.shiftl num 1) + t - 48) = u64 (num * 10 + (t - 48)).
Proof.
  rewrite !Z.shiftl_mul_pow2 by lia. unfold u64, wrap.
  rewrite <- Z.add_sub_assoc.
  pose proof (Z.div_mod (num * 2 ^ 3) (2 ^ 64) ltac:(lia)) as E1.
  pose proof (Z.div_mod (num * 2 ^ 1) (2 ^ 64) ltac:(lia)) as E2.
  replace ((num * 2 ^ 3) mod 2 ^ 64 + (num * 2 ^ 1) mod 2 ^ 64 + (t - 48))
    with (num * 10 + (t - 48) + - (num * 2 ^ 3 / 2 ^ 64 + num * 2 ^ 1 / 2 ^ 64) * 2 ^ 64) by lia.
  by rewrite Z.mod_add by lia.
Qed.

Lemma digits_value_from_u64 ds : forall v,
  u64 (digits_value_from (u64 v) ds) = u64 (digits_value_from v ds).
Proof.
  induction ds as [|d ds IH]; intros v; simpl.
  - unfold u64, wrap. apply Z.mod_mod. lia.
  - unfold digits_value_from in *. simpl. rewrite <- IH, <- (IH (v * 10 + _)).
    do 2 f_equal. unfold u64, wrap.
    by rewrite <- Z.add_mod_idemp_l, Z.mul_mod_idemp_l, Z.add_mod_idemp_l by lia.
Qed.

Lemma SliceToInteger_loop_spec k : forall lz num,
  decimal_key k -> 0 <= num < 2 ^ 64 -> (lz = true -> num = 0) ->
  SliceToInteger_loop k lz num = u64 (digits_value_from num k).
Proof.
  induction k as [|b k IH]; intros lz num Hk Hn Hz; simpl; [by rewrite u64_small|].
  apply Forall_cons_1 in Hk as [Hb Hk]. rewrite (sz_digit b) by done.
  unfold digits_value_from. simpl. fold (digits_value_from (num * 10 + (bz b - 48)) k).
  destruct (lz && (bz b =? 48)) eqn:E.
  - apply andb_true_iff in E as [-> E]. rewrite Hz in * by done. rewrite IH by (done || lia).
    by replace (0 * 10 + (bz b - 48)) with 0 by lia.
  - rewrite SliceToInteger_step, IH by (done || apply u64_range). apply digits_value_from_u64.
Qed.

Lemma SliceToInteger_decimal k :
  decimal_key k -> SliceToInteger k = u64 (digits_value k).
Proof. intros. by apply SliceToInteger_loop_spec. Qed.

(** On digit strings of one length the bytewise order is the numeric order. *)
Lemma digits_value_from_lt a : forall b va vb,
  length a = length b -> decimal_key a -> decimal_key b -> va < vb ->
  digits_value_from va a < digits_value_from vb b.
Proof.
  unfold digits_value_from.
  induction a as [|x a IH]; intros [|y b] va vb Hl Ha Hb Hv; simpl; [done..|].
  apply Forall_cons_1 in Ha as [Hx Ha]. apply Forall_cons_1 in Hb as [Hy Hb].
  apply is_digit_spec in Hx. apply is_digit_spec in Hy.
  apply IH; [by injection Hl|done..|lia].
Qed.

Lemma lex_digits a : forall b v,
  length a = length b -> decimal_key a -> decimal_key b ->
  Z.sgn (lex a b) = Z.sgn (digits_value_from v a - digits_value_from v b).
Proof.
  induction a as [|x a IH]; intros [|y b] v Hl Ha Hb; [by rewrite Z.sub_diag|done..|].
  apply Forall_cons_1 in Ha as [Hx Ha]. apply Forall_cons_1 in Hb as [Hy Hb].
  apply is_digit_spec in Hx. apply is_digit_spec in Hy. injection Hl as Hl.
  unfold digits_value_from. cbn [lex fold_left].
  fold (digits_value_from (v * 10 + (bz x - 48)) a).
  fold (digits_value_from (v * 10 + (bz y - 48)) b).
  destruct (Z.eqb_spec (bz x) (bz y)) as [->|Hne]; [by apply IH|].
  destruct (Z.lt_gt_cases (bz x) (bz y)) as [Hc _]. destruct (Hc Hne) as [Hlt|Hgt].
  - pose proof (digits_value_from_lt a b (v * 10 + (bz x - 48)) (v * 10 + (bz y - 48))
      Hl Ha Hb ltac:(lia)). lia.
  - pose proof (digits_value_from_lt b a (v * 10 + (bz y - 48)) (v * 10 + (bz x - 48))
      (eq_sym Hl) Hb Ha ltac:(lia)). lia.
Qed.

Lemma slice_compare_digits a b :
  length a = length b -> decimal_key a -> decimal_key b ->
  Z.sgn (slice_compare a b) = Z.sgn (digits_value a - digits_value b).
Proof. intros. rewrite slice_compare_lex. by apply lex_digits. Qed.

Lemma generate_key_spec key_size n k :
  0 <= n < 2 ^ 64 -> generate_key key_size (decimal n) = Some k ->
  decimal_key k /\ digits_value k = n /\ blen k = key_size /\ k <> [].
Proof.
  intros Hn. unfold generate_key. bcase; [done|]. intros [= <-].
  destruct (decimal_spec n Hn) as (Hd & Hv & Hl).
  split; [apply Forall_app; split; [by apply Forall_replicate|done]|].
  split; [by rewrite digits_value_zeros|].
  split; [rewrite blen_app; unfold blen in *; rewrite length_replicate; lia|].
  intros E. apply (f_equal blen) in E. rewrite blen_app, (@blen_nil byte) in E.
  pose proof (blen_nonneg (replicate (Z.to_nat (key_size - blen (decimal n))) "0"%byte)). lia.
Qed.

(** The keys the system generates can be indexed by their numeric value.
    For two numbers below 2^63 padded to the same [key_size], the bytewise
    comparator that sorts the files orders the keys as the numbers, and the
    three ways the code reads a number from a key ([SliceToInteger] at lookup,
    [stoull] in training, [atoll] for the bounds of a model) all give back the
    number the key was generated from. *)
Theorem generated_keys_numeric key_size a b ka kb :
  0 <= a < 2 ^ 63 -> 0 <= b < 2 ^ 63 ->
  generate_key key_size (decimal a) = Some ka ->
  generate_key key_size (decimal b) = Some kb ->
  Z.sgn (slice_compare ka kb) = Z.sgn (a - b) /\
  SliceToInteger ka = a /\ stoull ka = Some a /\ atoll ka = Some a.
Proof.
  intros Ha Hb Eka Ekb.
  destruct (generate_key_spec _ a ka ltac:(lia) Eka) as (Da & Va & La & Na).
  destruct (generate_key_spec _ b kb ltac:(lia) Ekb) as (Db & Vb & Lb & Nb).
  split; [rewrite slice_compare_digits by (done || unfold blen in *; lia); by rewrite Va, Vb|].
  rewrite SliceToInteger_decimal, stoull_decimal, atoll_decimal by (done || lia).
  by rewrite Va, u64_small by lia.
Qed.

Lemma generated_keys_numeric_witness :
  Z.sgn (slice_compare (str "00000042"%string) (str "00000107"%string)) = Z.sgn (42 - 107) /\
  SliceToInteger (str "00000042"%string) = 42 /\ stoull (str "00000042"%string) = Some 42 /\
  atoll (str "00000042"%string) = Some 42.
Proof.
  apply (generated_keys_numeric 8 42 107 (str "00000042"%string) (str "00000107"%string));
    [lia|lia|vm_compute; reflexivity|vm_compute; reflexivity].
Defined.
