(* ===== verification/Plr.v ===== *)
(** mod/plr.h and mod/plr.cpp: greedy piecewise linear regression, the learning
    algorithm of the index models.  The code computes in [double]; it is
    written here once over the operations it uses ([Arith]), and read in two
    ways: over exact rationals ([exact]), where the error bound of the
    algorithm is a theorem (file PlrProofs), and over IEEE binary64
    ([binary64], the standard's own definitions), which is what runs. *)

From S2P Require Import Prelude ModUtil.
From Stdlib Require Import QArith Qround SpecFloat.
From stdpp Require Import base list.

#[local] Open Scope Z_scope.

(** * Arithmetic *)

Class Arith (T : Type) := {
  aadd : T -> T -> T; asub : T -> T -> T; amul : T -> T -> T; adiv : T -> T -> T;
  aopp : T -> T;
  altb : T -> T -> bool;
  aeqb : T -> T -> bool;
  aisnan : T -> bool;
  afloor : T -> T; aceil : T -> T;
  (** Conversion from an integer type. *)
  ofZ : Z -> T;
  (** Conversion to an unsigned type of [w] bits: truncation, [None] where the
      truncated value does not fit, which C++ leaves undefined. *)
  to_uint : Z -> T -> option Z;
}.

Definition in_uint (w z : Z) : option Z := if (0 <=? z) && (z <? 2 ^ w) then Some z else None.

#[export] Instance exact : Arith Q := {|
  aadd := Qplus; asub := Qminus; amul := Qmult; adiv := Qdiv; aopp := Qopp;
  altb a b := negb (Qle_bool b a);
  aeqb := Qeq_bool;
  aisnan _ := false;
  afloor q := inject_Z (Qfloor q); aceil q := inject_Z (Qceiling q);
  ofZ := inject_Z;
  to_uint w q := in_uint w (Z.quot (Qnum q) (QDen q)) |}.

Definition double : Type := spec_float.
Definition double_ofZ (z : Z) : double := binary_normalize 53 1024 z 0 false.

(** [std::floor] and [std::ceil]: a [double] with a non-negative exponent is an
    integer already; the sign of a zero result is kept. *)
Definition double_round (dir : Z -> Z -> Z) (x : double) : double :=
  match x with
  | S754_finite s m e =>
      if 0 <=? e then x
      else binary_normalize 53 1024 (dir (if s then - Zpos m else Zpos m) (2 ^ (- e))) 0 s
  | _ => x
  end.

Definition double_to_uint (w : Z) (x : double) : option Z :=
  match x with
  | S754_zero _ => Some 0
  | S754_finite s m e =>
      let v := if 0 <=? e then Zpos m * 2 ^ e else Zpos m / 2 ^ (- e) in
      in_uint w (if s then - v else v)
  | _ => None
  end.

#[export] Instance binary64 : Arith double := {|
  aadd := SFadd 53 1024; asub := SFsub 53 1024; amul := SFmul 53 1024; adiv := SFdiv 53 1024;
  aopp := SFopp;
  altb := SFltb; aeqb := SFeqb;
  aisnan x := match x with S754_nan => true | _ => false end;
  afloor := double_round Z.div; aceil := double_round (fun a b => - ((- a) / b));
  ofZ := double_ofZ;
  to_uint := double_to_uint |}.

(** * Points, lines and segments *)

Record point {T} := Point { x : T; y : T }.
Record line {T} := Line { a : T; b : T }.
Record Segment {T} := mkSegment { seg_x : Z; seg_k : T; seg_b : T }.
Arguments point : clear implicits.
Arguments line : clear implicits.
Arguments Segment : clear implicits.

Section Plr.
Context {T : Type} `{Arith T}.

Definition LineCheck (l : line T) : bool := negb (aisnan (a l)) && negb (aisnan (b l)).

Definition get_slope (p1 p2 : point T) : T :=
  adiv (asub (y p2) (y p1)) (asub (x p2) (x p1)).

Definition get_line (p1 p2 : point T) : line T :=
  let a := get_slope p1 p2 in
  Line T a (aadd (amul (aopp a) (x p1)) (y p1)).

Definition get_intersetction (l1 l2 : line T) : point T :=
  let '(a, b, c, d) := (Plr.a l1, Plr.a l2, Plr.b l1, Plr.b l2) in
  Point T (adiv (asub d c) (asub a b)) (adiv (asub (amul a d) (amul b c)) (asub a b)).

(** The line at an abscissa: [l.a * pt.x + l.b]. *)
Definition at_ (l : line T) (v : T) : T := aadd (amul (a l) v) (b l).

Definition is_above (pt : point T) (l : line T) : bool := altb (at_ l (x pt)) (y pt).
Definition is_below (pt : point T) (l : line T) : bool := altb (y pt) (at_ l (x pt)).

Definition get_upper_bound (pt : point T) (gamma : T) : point T :=
  Point T (x pt) (aadd (y pt) gamma).
Definition get_lower_bound (pt : point T) (gamma : T) : point T :=
  Point T (x pt) (asub (y pt) gamma).

(** * GreedyPLR *)

(** The values of the string [state]. *)
Inductive plr_state := need2 | need1 | ready | finished.

Record GreedyPLR := mkGreedy {
  state : plr_state;
  gamma : T;
  last_pt : point T;
  s0 : point T;
  s1 : point T;
  rho_lower : line T;
  rho_upper : line T;
  sint : point T;
}.

Definition set_state (g : GreedyPLR) s :=
  mkGreedy s (gamma g) (last_pt g) (s0 g) (s1 g) (rho_lower g) (rho_upper g) (sint g).
Definition set_last_pt (g : GreedyPLR) p :=
  mkGreedy (state g) (gamma g) p (s0 g) (s1 g) (rho_lower g) (rho_upper g) (sint g).
Definition set_s0 (g : GreedyPLR) p :=
  mkGreedy (state g) (gamma g) (last_pt g) p (s1 g) (rho_lower g) (rho_upper g) (sint g).
Definition set_s1 (g : GreedyPLR) p :=
  mkGreedy (state g) (gamma g) (last_pt g) (s0 g) p (rho_lower g) (rho_upper g) (sint g).
Definition set_rho_lower (g : GreedyPLR) l :=
  mkGreedy (state g) (gamma g) (last_pt g) (s0 g) (s1 g) l (rho_upper g) (sint g).
Definition set_rho_upper (g : GreedyPLR) l :=
  mkGreedy (state g) (gamma g) (last_pt g) (s0 g) (s1 g) (rho_lower g) l (sint g).
Definition set_sint (g : GreedyPLR) p :=
  mkGreedy (state g) (gamma g) (last_pt g) (s0 g) (s1 g) (rho_lower g) (rho_upper g) p.

(** The constructor leaves the points and lines uninitialised; each is written
    before it is read, and zero stands for the unspecified value. *)
Definition zero_pt : point T := Point T (ofZ 0) (ofZ 0).
Definition zero_line : line T := Line T (ofZ 0) (ofZ 0).
Definition zero_segment : Segment T := mkSegment T 0 (ofZ 0) (ofZ 0).

Definition newGreedyPLR (gamma : T) : GreedyPLR :=
  mkGreedy need2 gamma zero_pt zero_pt zero_pt zero_line zero_line zero_pt.

(** The returned [bool] and the object after the call. *)
Definition setup (g : GreedyPLR) : bool * GreedyPLR :=
  let g := set_rho_lower g (get_line (get_upper_bound (s0 g) (gamma g))
                                     (get_lower_bound (s1 g) (gamma g))) in
  if negb (LineCheck (rho_lower g)) then (false, g)
  else
    let g := set_rho_upper g (get_line (get_lower_bound (s0 g) (gamma g))
                                       (get_upper_bound (s1 g) (gamma g))) in
    if negb (LineCheck (rho_upper g)) then (false, g)
    else (true, set_sint g (get_intersetction (rho_upper g) (rho_lower g))).

Definition current_segment (g : GreedyPLR) : option (Segment T) :=
  match to_uint 64 (x (s0 g)) with
  | None => None
  | Some segment_start =>
      let avg_slope := adiv (aadd (a (rho_lower g)) (a (rho_upper g))) (ofZ 2) in
      let intercept := aadd (amul (aopp avg_slope) (x (sint g))) (y (sint g)) in
      Some (mkSegment T segment_start avg_slope intercept)
  end.

(** [(u_int32_t) pt.y % 2 == 1] *)
Definition odd_position (pt : point T) : option bool :=
  match to_uint 32 (y pt) with
  | Some v => Some (v mod 2 =? 1)
  | None => None
  end.

Definition process__ (g : GreedyPLR) (pt : point T) (file : bool)
  : option (Segment T * GreedyPLR) :=
  if negb (is_above pt (rho_lower g) && is_below pt (rho_upper g)) then
    match current_segment g, (if file then Some false else odd_position pt) with
    | Some prev_segment, Some true =>
        let g := set_s1 (set_s0 g (last_pt g)) pt in
        Some (prev_segment, set_state (setup g).2 ready)
    | Some prev_segment, Some false =>
        Some (prev_segment, set_state (set_s0 g pt) need1)
    | _, _ => None
    end
  else
    let s_upper := get_upper_bound pt (gamma g) in
    let s_lower := get_lower_bound pt (gamma g) in
    let g := if is_below s_upper (rho_upper g)
             then set_rho_upper g (get_line (sint g) s_upper) else g in
    let g := if is_above s_lower (rho_lower g)
             then set_rho_lower g (get_line (sint g) s_lower) else g in
    Some (zero_segment, g).

Definition process (g : GreedyPLR) (pt : point T) (file : bool)
  : option (Segment T * GreedyPLR) :=
  match
    match state g with
    | need2 => Some (zero_segment, set_state (set_s0 g pt) need1)
    | need1 =>
        let '(ok, g) := setup (set_s1 g pt) in
        Some (zero_segment, if ok then set_state g ready else g)
    | ready => process__ g pt file
    | finished => Some (zero_segment, g)
    end
  with
  | Some (s, g) => Some (s, set_last_pt g pt)
  | None => None
  end.

Definition finish (g : GreedyPLR) : option (Segment T * GreedyPLR) :=
  match state g with
  | need2 => Some (zero_segment, set_state g finished)
  | need1 =>
      match to_uint 64 (x (s0 g)) with
      | Some sx => Some (mkSegment T sx (ofZ 0) (y (s0 g)), set_state g finished)
      | None => None
      end
  | ready =>
      match current_segment g with
      | Some s => Some (s, set_state g finished)
      | None => None
      end
  | finished => Some (zero_segment, g)
  end.

(** * PLR *)

Record PLR := mkPLR { plr_gamma : T; segments : list (Segment T) }.
Definition newPLR (gamma : T) : PLR := mkPLR gamma [].

(** [if (seg.x != 0 || seg.k != 0 || seg.b != 0) segments.push_back(seg)] *)
Definition push_segment (segs : list (Segment T)) (s : Segment T) : list (Segment T) :=
  if negb (seg_x s =? 0) || negb (aeqb (seg_k s) (ofZ 0)) || negb (aeqb (seg_b s) (ofZ 0))
  then segs ++ [s] else segs.

(** Every tenth point of a level model, training gives up when a compaction
    waits: [awaiting c] is [compaction_awaiting.load() != 0] after the [c]-th
    point.  [None] when [stoull] throws or a conversion is undefined. *)
Fixpoint train_loop (awaiting : Z -> bool) (file : bool) (keys : list bytes) (i count : Z)
    (g : GreedyPLR) (segs : list (Segment T)) : option (list (Segment T)) :=
  match keys with
  | [] =>
      match finish g with
      | Some (last, _) => Some (push_segment segs last)
      | None => None
      end
  | key :: keys' =>
      match stoull key with
      | None => None
      | Some v =>
          match process g (Point T (ofZ v) (ofZ i)) file with
          | None => None
          | Some (seg, g) =>
              let segs := push_segment segs seg in
              let count := if file then count else count + 1 in
              if negb file && (count mod 10 =? 0) && awaiting count then Some []
              else train_loop awaiting file keys' (i + 1) count g segs
          end
      end
  end.

Definition train (awaiting : Z -> bool) (p : PLR) (keys : list bytes) (file : bool)
  : option (list (Segment T)) :=
  train_loop awaiting file keys 0 0 (newGreedyPLR (plr_gamma p)) (segments p).

End Plr.
Arguments GreedyPLR : clear implicits.
Arguments PLR : clear implicits.
