(* ===== verification/PlrProofs.v ===== *)
(** The error bound of greedy piecewise linear regression, in exact arithmetic:
    every training point lies within [gamma] of the segment that covers it,
    and the segments are laid out so that a search by start key finds the
    covering one. *)

From S2P Require Import Prelude ModUtil Plr.
From Stdlib Require Import QArith Qround Lqa.
From stdpp Require Import base list sorting strings.

#[local] Open Scope Z_scope.

(** * Rationals *)

Lemma altb_exact p q : altb p q = true <-> (p < q)%Q.
Proof.
  simpl. rewrite negb_true_iff. split.
  - intros E. apply Qnot_le_lt. intros L. apply Qle_bool_iff in L. congruence.
  - intros L. destruct (Qle_bool q p) eqn:E; [|done].
    apply Qle_bool_iff in E. apply Qlt_not_le in L. done.
Qed.

Lemma altb_exact_false p q : altb p q = false <-> (q <= p)%Q.
Proof. simpl. rewrite negb_false_iff. apply Qle_bool_iff. Qed.

Lemma inject_lt m n : m < n -> (inject_Z m + 1 <= inject_Z n)%Q.
Proof. intros. change 1%Q with (inject_Z 1). rewrite <- inject_Z_plus, <- Zle_Qle. lia. Qed.

Lemma Qdiv_mult n d : (0 < d)%Q -> ((n / d) * d == n)%Q.
Proof. intros. field. lra. Qed.

Lemma to_uint_inject w z : 0 <= z < 2 ^ w -> to_uint w (inject_Z z) = Some z.
Proof.
  intros. simpl. change (QDen (inject_Z z)) with 1. rewrite Z.quot_1_r. unfold in_uint.
  by replace ((0 <=? z) && (z <? 2 ^ w)) with true by lia.
Qed.

Lemma odd_of_nat n : Z.odd (Z.of_nat n) = Nat.odd n.
Proof.
  induction n as [|n IH]; [done|].
  by rewrite Nat2Z.inj_succ, Z.odd_succ, <- Z.negb_odd, IH, Nat.odd_succ, Nat.negb_odd.
Qed.

(** * The cone of admissible lines *)

Section Cone.
Variable g0 : Q.
Hypothesis g0_pos : (0 < g0)%Q.

(** A training point: key and position. *)
Definition qpt (p : Z * Z) : point Q := Point Q (inject_Z p.1) (inject_Z p.2).

Definition within (k b : Q) (p : Z * Z) : Prop :=
  (inject_Z p.2 - g0 <= k * inject_Z p.1 + b <= inject_Z p.2 + g0)%Q.

(** The lines through the apex [s] with slopes between those of [lo] and [up]
    pass within [g0] of the first point (left of the apex) and of all the
    other points (right of it). *)
Record cone (p0 : Z * Z) (rest : list (Z * Z)) (lo up : line Q) (s : point Q) : Prop := {
  cone_lo : (at_ lo (x s) == y s)%Q;
  cone_up : (at_ up (x s) == y s)%Q;
  cone_slopes : (a lo <= a up)%Q;
  cone_left : (inject_Z p0.1 < x s)%Q;
  cone_apex : (0 < y s)%Q;
  cone_lo0 : (at_ lo (inject_Z p0.1) <= inject_Z p0.2 + g0)%Q;
  cone_up0 : (inject_Z p0.2 - g0 <= at_ up (inject_Z p0.1))%Q;
  cone_rest : Forall (fun q => (x s < inject_Z q.1)%Q /\
    (inject_Z q.2 - g0 <= at_ lo (inject_Z q.1))%Q /\
    (at_ up (inject_Z q.1) <= inject_Z q.2 + g0)%Q) rest;
}.

(** Two lines through the apex compare as their slopes do, right of it, and
    the other way round left of it. *)
Lemma lines_right (l1 l2 : line Q) s v :
  (at_ l1 (x s) == y s)%Q -> (at_ l2 (x s) == y s)%Q -> (a l1 <= a l2)%Q -> (x s <= v)%Q ->
  (at_ l1 v <= at_ l2 v)%Q.
Proof. unfold at_. simpl. intros. nra. Qed.

Lemma lines_left (l1 l2 : line Q) s v :
  (at_ l1 (x s) == y s)%Q -> (at_ l2 (x s) == y s)%Q -> (a l1 <= a l2)%Q -> (v <= x s)%Q ->
  (at_ l2 v <= at_ l1 v)%Q.
Proof. unfold at_. simpl. intros. nra. Qed.

Lemma slopes_le (l1 l2 : line Q) s v :
  (at_ l1 (x s) == y s)%Q -> (at_ l2 (x s) == y s)%Q -> (x s < v)%Q ->
  (at_ l1 v <= at_ l2 v)%Q -> (a l1 <= a l2)%Q.
Proof.
  unfold at_. simpl. intros E1 E2 Hv Hle.
  assert ((a l1 * (v - x s) <= a l2 * (v - x s))%Q) by lra.
  apply (Qmult_le_r _ _ (v - x s)); lra.
Qed.

(** [get_line] passes through its two points. *)
Lemma get_line_l (p q : point Q) : (at_ (get_line p q) (x p) == y p)%Q.
Proof. unfold at_, get_line. simpl. ring. Qed.

Lemma get_line_r (p q : point Q) : (x p < x q)%Q -> (at_ (get_line p q) (x q) == y q)%Q.
Proof.
  intros. unfold at_, get_line, get_slope. simpl. field. lra.
Qed.

(** The line of slope [k] through the apex, written as the code does. *)
Definition apex_line (k : Q) (s : point Q) : line Q := Line Q k (- k * x s + y s)%Q.

Lemma cone_within p0 rest lo up s k :
  cone p0 rest lo up s -> (a lo <= k <= a up)%Q ->
  Forall (within k (b (apex_line k s))) (p0 :: rest).
Proof.
  intros C [Hk1 Hk2]. destruct C.
  assert (Ha : (at_ (apex_line k s) (x s) == y s)%Q) by (unfold at_; simpl; ring).
  constructor.
  - pose proof (lines_left lo (apex_line k s) s (inject_Z p0.1) cone_lo1 Ha Hk1 ltac:(lra)).
    pose proof (lines_left (apex_line k s) up s (inject_Z p0.1) Ha cone_up1 Hk2 ltac:(lra)).
    unfold within, at_ in *. simpl in *. lra.
  - eapply Forall_impl; [exact cone_rest0|]. intros q (Hx & Hl & Hu). simpl.
    pose proof (lines_right lo (apex_line k s) s (inject_Z q.1) cone_lo1 Ha Hk1 ltac:(lra)).
    pose proof (lines_right (apex_line k s) up s (inject_Z q.1) Ha cone_up1 Hk2 ltac:(lra)).
    unfold within, at_ in *. simpl in *. lra.
Qed.

(** [setup]: the two extreme lines through the error bars of the first two
    points. *)
Lemma cone_setup p0 p1 :
  p0.1 < p1.1 -> 0 <= p0.2 < p1.2 ->
  let lo := get_line (get_upper_bound (qpt p0) g0) (get_lower_bound (qpt p1) g0) in
  let up := get_line (get_lower_bound (qpt p0) g0) (get_upper_bound (qpt p1) g0) in
  cone p0 [p1] lo up (get_intersetction up lo).
Proof.
  intros Hx [Hy0 Hy]. apply inject_lt in Hx. apply inject_lt in Hy. intros lo up.
  rewrite Zle_Qle in Hy0. change (inject_Z 0) with 0%Q in Hy0.
  pose proof (get_line_l (get_upper_bound (qpt p0) g0) (get_lower_bound (qpt p1) g0)) as L0.
  pose proof (get_line_r (get_upper_bound (qpt p0) g0) (get_lower_bound (qpt p1) g0)
                ltac:(simpl; lra)) as L1.
  pose proof (get_line_l (get_lower_bound (qpt p0) g0) (get_upper_bound (qpt p1) g0)) as U0.
  pose proof (get_line_r (get_lower_bound (qpt p0) g0) (get_upper_bound (qpt p1) g0)
                ltac:(simpl; lra)) as U1.
  fold lo in L0, L1. fold up in U0, U1. clearbody lo up.
  destruct lo as [la lb], up as [ua ub]. unfold at_ in *. simpl in *.
  set (D := (inject_Z p1.1 - inject_Z p0.1)%Q).
  assert (HD : (1 <= D)%Q) by (unfold D; lra).
  assert (Hs : ((ua - la) * D == 4 * g0)%Q) by (unfold D; lra).
  assert (Hpos : (0 < ua - la)%Q) by nra.
  set (sx := ((lb - ub) / (ua - la))%Q).
  assert (Esx : (sx * (ua - la) == lb - ub)%Q) by (apply Qdiv_mult; lra).
  assert (Em : (2 * sx == inject_Z p0.1 + inject_Z p1.1)%Q).
  { apply (Qmult_inj_r _ _ (ua - la)); [lra|]. lra. }
  set (sy := ((ua * lb - la * ub) / (ua - la))%Q).
  assert (Esy : (sy * (ua - la) == ua * lb - la * ub)%Q) by (apply Qdiv_mult; lra).
  assert (Ey : (sy == la * sx + lb)%Q).
  { assert (la * (sx * (ua - la)) == la * (lb - ub))%Q by (rewrite Esx; reflexivity).
    apply (Qmult_inj_r _ _ (ua - la)); lra. }
  assert (Eu : (sy == ua * sx + ub)%Q) by lra.
  assert (Hmid : (2 * sy == inject_Z p0.2 + inject_Z p1.2)%Q).
  { assert ((2 * sy == la * (2 * sx) + 2 * lb)%Q) as -> by lra. rewrite Em. lra. }
  change (get_intersetction (Line Q ua ub) (Line Q la lb)) with (Point Q sx sy).
  clearbody sx sy. unfold D in *.
  constructor; unfold at_; simpl; try lra. apply Forall_singleton. lra.
Qed.

(** Narrowing the cone at a point between its two lines: each of the two
    tests replaces a line by one through the apex and the end of the error
    bar. *)
Definition narrow_up (up : line Q) (s : point Q) (p : Z * Z) : line Q :=
  if is_below (get_upper_bound (qpt p) g0) up
  then get_line s (get_upper_bound (qpt p) g0) else up.
Definition narrow_lo (lo : line Q) (s : point Q) (p : Z * Z) : line Q :=
  if is_above (get_lower_bound (qpt p) g0) lo
  then get_line s (get_lower_bound (qpt p) g0) else lo.

Lemma narrow_up_spec up s p :
  (at_ up (x s) == y s)%Q -> (x s < inject_Z p.1)%Q ->
  let v := inject_Z p.1 in
  (at_ (narrow_up up s p) (x s) == y s)%Q /\
  (at_ (narrow_up up s p) v <= inject_Z p.2 + g0)%Q /\
  (at_ (narrow_up up s p) v <= at_ up v)%Q /\
  ((at_ (narrow_up up s p) v == inject_Z p.2 + g0)%Q \/ narrow_up up s p = up).
Proof.
  intros Hs Hx v. unfold narrow_up, is_below.
  pose proof (get_line_l s (get_upper_bound (qpt p) g0)) as E0.
  pose proof (get_line_r s (get_upper_bound (qpt p) g0) Hx) as E1.
  cbn [x y get_upper_bound qpt aadd exact] in *. fold v in E1 |- *.
  destruct (altb _ _) eqn:E; [apply altb_exact in E|apply altb_exact_false in E].
  - split; [done|]. split; [lra|]. split; [lra|]. left. exact E1.
  - split; [done|]. split; [lra|]. split; [lra|]. by right.
Qed.

Lemma narrow_lo_spec lo s p :
  (at_ lo (x s) == y s)%Q -> (x s < inject_Z p.1)%Q ->
  let v := inject_Z p.1 in
  (at_ (narrow_lo lo s p) (x s) == y s)%Q /\
  (inject_Z p.2 - g0 <= at_ (narrow_lo lo s p) v)%Q /\
  (at_ lo v <= at_ (narrow_lo lo s p) v)%Q /\
  ((at_ (narrow_lo lo s p) v == inject_Z p.2 - g0)%Q \/ narrow_lo lo s p = lo).
Proof.
  intros Hs Hx v. unfold narrow_lo, is_above.
  pose proof (get_line_l s (get_lower_bound (qpt p) g0)) as E0.
  pose proof (get_line_r s (get_lower_bound (qpt p) g0) Hx) as E1.
  cbn [x y get_lower_bound qpt asub exact] in *. fold v in E1 |- *.
  destruct (altb _ _) eqn:E; [apply altb_exact in E|apply altb_exact_false in E].
  - split; [done|]. split; [lra|]. split; [lra|]. left. exact E1.
  - split; [done|]. split; [lra|]. split; [lra|]. by right.
Qed.

Lemma cone_narrow p0 rest lo up s p :
  cone p0 rest lo up s -> (x s < inject_Z p.1)%Q ->
  is_above (qpt p) lo = true -> is_below (qpt p) up = true ->
  cone p0 (rest ++ [p]) (narrow_lo lo s p) (narrow_up up s p) s.
Proof.
  intros [Elo Eup Hsl Hl Hap H0l H0u Hr] Hx Hab Hbe.
  apply altb_exact in Hab. apply altb_exact in Hbe. cbn [x y qpt] in Hab, Hbe.
  destruct (narrow_lo_spec lo s p Elo Hx) as (Nl1 & Nl2 & Nl3 & Nl4).
  destruct (narrow_up_spec up s p Eup Hx) as (Nu1 & Nu2 & Nu3 & Nu4).
  set (lo' := narrow_lo lo s p) in *. set (up' := narrow_up up s p) in *.
  assert (Sl : (a lo <= a lo')%Q) by (by eapply slopes_le).
  assert (Su : (a up' <= a up)%Q) by (by eapply slopes_le).
  assert (S : (a lo' <= a up')%Q).
  { eapply slopes_le; [exact Nl1|exact Nu1|exact Hx|].
    destruct Nl4 as [E1|E1], Nu4 as [E2|E2]; rewrite ?E1, ?E2; lra. }
  clearbody lo' up'. clear Nl4 Nu4.
  constructor; [done..| | |].
  - pose proof (lines_left lo lo' s (inject_Z p0.1) Elo Nl1 Sl ltac:(lra)). lra.
  - pose proof (lines_left up' up s (inject_Z p0.1) Nu1 Eup Su ltac:(lra)). lra.
  - apply Forall_app. split; [|apply Forall_singleton; tauto].
    eapply Forall_impl; [exact Hr|]. intros q (Hq & Hql & Hqu).
    pose proof (lines_right lo lo' s (inject_Z q.1) Elo Nl1 Sl ltac:(lra)).
    pose proof (lines_right up' up s (inject_Z q.1) Nu1 Eup Su ltac:(lra)).
    split; [done|]. split; lra.
Qed.

(** * The state machine *)

(** A segment that covers a run of training points: it starts at the first one
    and its line passes within [g0] of all of them. *)
Definition covers (grp : list (Z * Z)) (s : Segment Q) : Prop :=
  (exists p0 rest, grp = p0 :: rest /\ seg_x s = p0.1) /\
  Forall (within (seg_k s) (seg_b s)) grp.

Definition nonzero (s : Segment Q) : Prop :=
  seg_x s <> 0 \/ ~ (seg_k s == 0)%Q \/ ~ (seg_b s == 0)%Q.

Lemma push_nonzero segs s : nonzero s -> push_segment segs s = segs ++ [s].
Proof.
  intros Hn. unfold push_segment. cbn [aeqb exact ofZ].
  replace (_ || _ || _) with true; [done|]. symmetry. rewrite !orb_true_iff, !negb_true_iff.
  destruct Hn as [Hn|[Hn|Hn]].
  - left. left. lia.
  - left. right. apply not_true_iff_false. by rewrite Qeq_bool_iff.
  - right. apply not_true_iff_false. by rewrite Qeq_bool_iff.
Qed.

Lemma push_zero segs : push_segment segs (zero_segment (T := Q)) = segs.
Proof. done. Qed.

(** What the machine knows of the points [cur] of the segment being built. *)
Definition current (g : GreedyPLR Q) (cur : list (Z * Z)) : Prop :=
  gamma g = g0 /\
  match state g with
  | need2 => cur = []
  | need1 => exists p, cur = [p] /\ s0 g = qpt p /\ last_pt g = qpt p
  | ready => exists p0 rest pl, cur = p0 :: rest ++ [pl] /\ s0 g = qpt p0 /\
      last_pt g = qpt pl /\ cone p0 (rest ++ [pl]) (rho_lower g) (rho_upper g) (sint g)
  | finished => False
  end.

Definition before (q p : Z * Z) : Prop := 0 <= q.1 < p.1 /\ 0 <= q.2 < p.2.

Lemma setup_exact g p0 p1 :
  gamma g = g0 -> s0 g = qpt p0 -> s1 g = qpt p1 -> before p0 p1 ->
  exists g', setup g = (true, g') /\ gamma g' = g0 /\ s0 g' = qpt p0 /\
    cone p0 [p1] (rho_lower g') (rho_upper g') (sint g').
Proof.
  intros Hg H0 H1 Hb. eexists. split; [reflexivity|]. simpl. rewrite Hg, H0, H1.
  split; [done|]. split; [done|]. apply cone_setup; unfold before in Hb; lia.
Qed.

Lemma current_segment_exact g p0 rest :
  s0 g = qpt p0 -> 0 <= p0.1 < 2 ^ 64 -> cone p0 rest (rho_lower g) (rho_upper g) (sint g) ->
  exists s, current_segment g = Some s /\ covers (p0 :: rest) s /\ nonzero s.
Proof.
  intros H0 Hr C. unfold current_segment. rewrite H0. cbn [x qpt].
  rewrite to_uint_inject by done. eexists. split; [reflexivity|].
  set (k := adiv _ _). pose proof (cone_slopes _ _ _ _ _ C) as Hs.
  assert (Hk : (k * 2 == a (rho_lower g) + a (rho_upper g))%Q) by (by apply Qdiv_mult).
  split; [split; [by eauto|]|].
  - apply (cone_within _ _ _ _ _ k C). lra.
  - right. pose proof (cone_apex _ _ _ _ _ C). cbn [seg_k seg_b aadd amul aopp exact].
    destruct (Qeq_dec k 0) as [E|E]; [right|by left]. intros E'. rewrite E in E'. lra.
Qed.

Lemma covers_prefix grp p s : grp <> [] -> covers (grp ++ [p]) s -> covers grp s.
Proof.
  intros Hne [(p0 & rest & E & Ex) F]. apply Forall_app in F as [F _].
  split; [|done]. destruct grp as [|q grp]; [done|]. injection E as -> _. eauto.
Qed.

(** The two ways one call of [process] acts on the points. *)
Definition step_result (file : bool) (cur : list (Z * Z)) (p : Z * Z)
    (s : Segment Q) (g' : GreedyPLR Q) : Prop :=
  (s = zero_segment /\ current g' (cur ++ [p])) \/
  (nonzero s /\ (file = true \/ Z.odd p.2 = false) /\ covers cur s /\ current g' [p]) \/
  (nonzero s /\ file = false /\ Z.odd p.2 = true /\
   exists grp pl, cur = grp ++ [pl] /\ covers grp s /\ current g' [pl; p]).

Lemma odd_position_exact p : 0 <= p.2 < 2 ^ 32 -> odd_position (qpt p) = Some (Z.odd p.2).
Proof.
  intros. unfold odd_position. cbn [y qpt]. rewrite to_uint_inject by done.
  rewrite Zmod_odd. by destruct (Z.odd p.2).
Qed.

Lemma process__exact g p0 rest pl p file :
  gamma g = g0 -> state g = ready -> s0 g = qpt p0 -> last_pt g = qpt pl ->
  cone p0 (rest ++ [pl]) (rho_lower g) (rho_upper g) (sint g) ->
  Forall (fun q => before q p) (p0 :: rest ++ [pl]) -> p.1 < 2 ^ 64 -> p.2 < 2 ^ 32 ->
  exists s g', process__ g (qpt p) file = Some (s, g') /\
    step_result file (p0 :: rest ++ [pl]) p s (set_last_pt g' (qpt p)).
Proof.
  intros Hg Hst H0 Hl C Hb Hp1 Hp2.
  pose proof (Forall_inv Hb) as Hb0. unfold before in Hb0.
  assert (Hbl : before pl p).
  { apply Forall_inv_tail, Forall_app in Hb as [_ Hb]. by apply Forall_inv in Hb. }
  unfold process__. destruct (negb _) eqn:Etest.
  - destruct (current_segment_exact g p0 (rest ++ [pl]) H0 ltac:(lia) C) as (s & Es & Hc & Hn).
    rewrite Es. rewrite odd_position_exact by (unfold before in Hbl; lia).
    destruct (if file then Some false else Some (Z.odd p.2)) as [[]|] eqn:Eo; [| |by destruct file].
    + destruct file; [done|]. injection Eo as Eo.
      destruct (setup_exact (set_s1 (set_s0 g (last_pt g)) (qpt p)) pl p Hg Hl eq_refl Hbl)
        as (g' & Eg & Hg' & H0' & C').
      do 2 eexists. split; [reflexivity|]. right. right. do 3 (split; [done|]).
      exists (p0 :: rest), pl. split; [done|]. split; [eapply covers_prefix; [done|exact Hc]|].
      rewrite Eg. split; [done|]. simpl. by exists pl, [], p.
    + do 2 eexists. split; [reflexivity|]. right. left. split; [done|].
      split; [destruct file; [by left|right; congruence]|]. split; [done|].
      split; [done|]. simpl. by exists p.
  - apply negb_false_iff, andb_true_iff in Etest as [Ea Eb].
    assert (Hx : (x (sint g) < inject_Z p.1)%Q).
    { pose proof (cone_rest _ _ _ _ _ C) as Fr. apply Forall_app in Fr as [_ Fr].
      apply Forall_inv in Fr as (Hx & _ & _). unfold before in Hbl.
      pose proof (inject_lt pl.1 p.1 ltac:(lia)). lra. }
    pose proof (cone_narrow _ _ _ _ _ p C Hx Ea Eb) as C'. unfold narrow_lo, narrow_up in C'.
    rewrite Hg. do 2 eexists. split; [reflexivity|]. left. split; [done|].
    destruct (is_below (get_upper_bound (qpt p) g0) (rho_upper g));
      cbn [rho_lower sint set_rho_upper];
      destruct (is_above (get_lower_bound (qpt p) g0) (rho_lower g));
      (split; [exact Hg|]; simpl; rewrite Hst; exists p0, (rest ++ [pl]), p; simpl;
       by rewrite <- app_assoc in *).
Qed.

Lemma process_exact g cur p file :
  current g cur -> Forall (fun q => before q p) cur ->
  0 <= p.1 < 2 ^ 64 -> 0 <= p.2 < 2 ^ 32 ->
  exists s g', process g (qpt p) file = Some (s, g') /\ step_result file cur p s g'.
Proof.
  intros [Hg Hc] Hb Hp1 Hp2. unfold process. destruct (state g) eqn:Est.
  - subst cur. do 2 eexists. split; [reflexivity|]. left. split; [done|].
    split; [done|]. by exists p.
  - destruct Hc as (p0 & -> & H0 & _). apply Forall_inv in Hb.
    destruct (setup_exact (set_s1 g (qpt p)) p0 p Hg H0 eq_refl Hb) as (g' & Eg & Hg' & H0' & C').
    rewrite Eg. do 2 eexists. split; [reflexivity|]. left. split; [done|].
    split; [done|]. by exists p0, [], p.
  - destruct Hc as (p0 & rest & pl & -> & H0 & Hl & C).
    destruct (process__exact g p0 rest pl p file Hg Est H0 Hl C Hb) as (s & g' & E & Hs); [lia..|].
    rewrite E. eauto.
  - done.
Qed.

Lemma finish_exact g cur :
  current g cur -> Forall (fun q => 0 <= q.1 < 2 ^ 64) cur -> cur <> [] -> cur <> [(0, 0)] ->
  exists s g', finish g = Some (s, g') /\ covers cur s /\ nonzero s.
Proof.
  intros [Hg Hc] Hr Hne Hz. unfold finish. destruct (state g) eqn:Est; [done| | |done].
  - destruct Hc as (p & -> & H0 & _). apply Forall_inv in Hr. rewrite H0. cbn [x qpt].
    rewrite to_uint_inject by done. do 2 eexists. split; [reflexivity|].
    split; [split; [by eauto|]|].
    + apply Forall_singleton. unfold within. cbn [seg_k seg_b ofZ exact y qpt].
      change (inject_Z 0) with 0%Q. lra.
    + destruct (decide (p.1 = 0)); [right; right|by left]. simpl. intros E.
      apply (proj1 (inject_Z_injective p.2 0)) in E. destruct p. simpl in *. subst. by apply Hz.
  - destruct Hc as (p0 & rest & pl & -> & H0 & Hl & C).
    apply Forall_inv in Hr.
    destruct (current_segment_exact g _ _ H0 Hr C) as (s & -> & Hs & Hn). eauto.
Qed.

(** * Training *)

(** The training points: the keys with their positions. *)
Fixpoint numbered (i : Z) (vs : list Z) : list (Z * Z) :=
  match vs with
  | [] => []
  | v :: vs' => (v, i) :: numbered (i + 1) vs'
  end.

Lemma numbered_app vs ws : forall i, numbered i (vs ++ ws) = numbered i vs ++ numbered (i + blen vs) ws.
Proof.
  induction vs as [|v vs IH]; intros i; simpl; [by rewrite blen_nil, Z.add_0_r|].
  rewrite IH, blen_cons. do 3 f_equal. lia.
Qed.

Lemma length_numbered vs : forall i, length (numbered i vs) = length vs.
Proof. induction vs; intros; simpl; [done|]. by rewrite IHvs. Qed.

Lemma numbered_range vs : forall i q, q ∈ numbered i vs -> q.1 ∈ vs /\ i <= q.2 < i + blen vs.
Proof.
  induction vs as [|v vs IH]; intros i q; simpl; [by intros ?%elem_of_nil|].
  rewrite elem_of_cons, blen_cons. pose proof (blen_nonneg vs). intros [->|Hq]; simpl.
  - split; [left|lia].
  - apply IH in Hq as [Hq Hi]. split; [by right|lia].
Qed.

(** Level models are trained on pairs of points (first and last key of a
    file): every segment then covers whole pairs. *)
Definition pairs_kept (file : bool) (groups : list (list (Z * Z))) : Prop :=
  file = false -> Forall (fun grp => Nat.even (length grp) = true) groups.

Lemma pairs_concat groups :
  Forall (fun grp : list (Z * Z) => Nat.even (length grp) = true) groups ->
  Nat.even (length (concat groups)) = true.
Proof.
  induction 1 as [|grp groups Hg _ IH]; simpl; [done|].
  by rewrite length_app, Nat.even_add, Hg, IH.
Qed.

Definition trained (file : bool) (vs : list Z) (groups : list (list (Z * Z)))
    (segs : list (Segment Q)) : Prop :=
  Forall2 covers groups segs /\ concat groups = numbered 0 vs /\ pairs_kept file groups.

(** One more point: the segments emitted so far and the points of the current
    one always make up the points seen. *)
Definition progress (file : bool) (vd : list Z) (g : GreedyPLR Q) (segs : list (Segment Q)) : Prop :=
  exists groups cur, Forall2 covers groups segs /\ concat groups ++ cur = numbered 0 vd /\
    pairs_kept file groups /\ current g cur /\ (cur = [] -> vd = []).

Lemma progress_step file vd v g segs :
  progress file vd g segs -> Forall (fun w => 0 <= w < v) vd -> 0 <= v < 2 ^ 64 ->
  blen vd < 2 ^ 32 ->
  exists s g', process g (qpt (v, blen vd)) file = Some (s, g') /\
    progress file (vd ++ [v]) g' (push_segment segs s).
Proof.
  intros (groups & cur & Hcov & Hcat & Hpk & Hcur & _) Hlt Hv Hlen.
  assert (Hb : Forall (fun q => before q (v, blen vd)) cur).
  { apply Forall_forall. intros q Hq. assert (Hq' : q ∈ numbered 0 vd).
    { rewrite <- Hcat. apply elem_of_app. by right. }
    apply numbered_range in Hq' as [Hq1 Hq2]. rewrite Forall_forall in Hlt.
    apply Hlt in Hq1. unfold before. simpl. lia. }
  pose proof (blen_nonneg vd).
  destruct (process_exact g cur (v, blen vd) file Hcur Hb Hv ltac:(simpl; lia))
    as (s & g' & E & Hs).
  exists s, g'. split; [done|].
  assert (Happ : concat groups ++ cur ++ [(v, blen vd)] = numbered 0 (vd ++ [v])).
  { by rewrite app_assoc, Hcat, numbered_app. }
  assert (Hev : file = false -> Nat.even (length cur) = negb (Z.odd (blen vd))).
  { intros Hf. pose proof (f_equal length Hcat) as El.
    rewrite length_app, length_numbered in El. unfold blen. rewrite <- El, Nat2Z.inj_add, Z.odd_add.
    pose proof (pairs_concat groups (Hpk Hf)) as Ec. rewrite !odd_of_nat.
    rewrite <- (Nat.negb_even (length (concat groups))), Ec. cbn [negb].
    by rewrite xorb_false_l, Nat.negb_odd. }
  destruct Hs as [[-> Hc']|[(Hn & Hp & Hcs & Hc')|(Hn & Hf & Ho & grp & pl & -> & Hcs & Hc')]].
  - rewrite push_zero. exists groups, (cur ++ [(v, blen vd)]). do 4 (split; [done|]).
    intros E'. by destruct cur.
  - rewrite push_nonzero by done. exists (groups ++ [cur]), [(v, blen vd)].
    split; [by apply Forall2_app; [|constructor]|].
    split; [by rewrite concat_app; simpl; rewrite app_nil_r, <- app_assoc|].
    split; [|done]. intros Hf. apply Forall_app. split; [by apply Hpk|]. apply Forall_singleton.
    rewrite Hev by done. destruct Hp as [Hp|Hp]; [congruence|]. simpl in Hp. by rewrite Hp.
  - rewrite push_nonzero by done. exists (groups ++ [grp]), [pl; (v, blen vd)].
    split; [by apply Forall2_app; [|constructor]|].
    split; [by rewrite concat_app; simpl; rewrite app_nil_r, <- Happ, <- !app_assoc|].
    split; [|done]. intros _. apply Forall_app. split; [by apply Hpk|]. apply Forall_singleton.
    specialize (Hev Hf). simpl in Ho. rewrite Ho, length_app, Nat.even_add in Hev.
    by destruct (Nat.even (length grp)).
Qed.

Lemma train_loop_exact awaiting file vr : forall keys vd g segs count,
  (forall c, negb file && (c mod 10 =? 0) && awaiting c = false) ->
  Forall2 (fun k v => stoull k = Some v) keys vr ->
  StronglySorted Z.lt (vd ++ vr) -> Forall (fun v => 0 <= v < 2 ^ 64) (vd ++ vr) ->
  blen (vd ++ vr) <= 2 ^ 32 -> vd ++ vr <> [] -> vd ++ vr <> [0] ->
  progress file vd g segs ->
  (file = false -> Nat.even (length (vd ++ vr)) = true) ->
  exists groups segs', train_loop awaiting file keys (blen vd) count g segs = Some segs' /\
    trained file (vd ++ vr) groups segs'.
Proof.
  induction vr as [|v vr IH]; intros keys vd g segs count Haw Hk Hs Hr Hlen Hne Hz Hp Hev.
  - apply Forall2_nil_inv_r in Hk as ->. simpl. rewrite app_nil_r in *.
    destruct Hp as (groups & cur & Hcov & Hcat & Hpk & Hcur & Hcn).
    assert (Hsub : forall q, q ∈ cur -> q ∈ numbered 0 vd).
    { intros q Hq. rewrite <- Hcat. apply elem_of_app. by right. }
    destruct (finish_exact g cur Hcur) as (s & g' & -> & Hc & Hn).
    + apply Forall_forall. intros q Hq. apply Hsub, numbered_range in Hq as [Hq _].
      rewrite Forall_forall in Hr. by apply Hr.
    + intros E. by apply Hne, Hcn.
    + intros ->. assert (Hq := Hsub (0, 0) ltac:(left)). apply (f_equal last) in Hcat as El.
      rewrite last_snoc in El. destruct vd as [|w vd _] using rev_ind; [done|].
      rewrite numbered_app in El. simpl in El. rewrite last_snoc in El. injection El as <- E.
      assert (E' : blen vd = 0) by lia. apply blen_zero_inv in E' as ->. done.
    + rewrite push_nonzero by done. exists (groups ++ [cur]), (segs ++ [s]). split; [done|].
      split; [by apply Forall2_app; [|constructor]|].
      split; [by rewrite concat_app; simpl; rewrite app_nil_r|].
      intros Hf. apply Forall_app. split; [by apply Hpk|]. apply Forall_singleton.
      specialize (Hev Hf). apply (f_equal length) in Hcat.
      rewrite length_app, length_numbered in Hcat. rewrite <- Hcat, Nat.even_add in Hev.
      rewrite (pairs_concat groups (Hpk Hf)) in Hev. by destruct (Nat.even (length cur)).
  - apply Forall2_cons_inv_r in Hk as (k & keys' & Hk & Hks & ->). simpl. rewrite Hk.
    rewrite blen_app, blen_cons in Hlen. pose proof (blen_nonneg vr).
    destruct (progress_step file vd v g segs Hp) as (s & g' & E & Hp').
    + apply Forall_forall. intros w Hw. apply StronglySorted_app in Hs as (Hlt & _ & _).
      rewrite Forall_forall in Hr. specialize (Hr w). rewrite elem_of_app in Hr.
      specialize (Hlt w v Hw ltac:(left)). specialize (Hr (or_introl Hw)). lia.
    + apply Forall_app in Hr as [_ Hr]. by apply Forall_inv in Hr.
    + lia.
    + change (Point Q (inject_Z v) (inject_Z (blen vd))) with (qpt (v, blen vd)).
      rewrite E. set (count' := if file then count else _). rewrite (Haw count').
      replace (blen vd + 1) with (blen (vd ++ [v])) by (by rewrite blen_app).
      replace (vd ++ v :: vr) with ((vd ++ [v]) ++ vr) in * by (by rewrite <- app_assoc).
      apply IH; try done. rewrite !blen_app, blen_cons, (@blen_nil Z). lia.
Qed.

(** [PLR::train] in exact arithmetic: the points fall into consecutive runs,
    one segment per run. *)
Lemma train_exact awaiting file keys vs :
  (file = true \/ forall c, awaiting c = false) ->
  Forall2 (fun k v => stoull k = Some v) keys vs ->
  StronglySorted Z.lt vs -> Forall (fun v => 0 <= v < 2 ^ 64) vs ->
  blen vs <= 2 ^ 32 -> vs <> [] -> vs <> [0] ->
  (file = false -> Nat.even (length vs) = true) ->
  exists groups segs, train awaiting (newPLR g0) keys file = Some segs /\
    trained file vs groups segs.
Proof.
  intros Haw Hk Hs Hr Hl Hne Hz Hev. unfold train.
  apply (train_loop_exact awaiting file vs keys [] _ _ 0); try done.
  - intros c. destruct Haw as [-> | Ha]; [done|]. by rewrite Ha, andb_false_r.
  - exists [], []. split; [constructor|]. split; [done|]. split; [by intros _; constructor|].
    by split.
Qed.

End Cone.

(** * Finding the covering segment *)

(** The last segment that starts at or before a key. *)
Fixpoint seg_for {T} (segs : list (Segment T)) (t : Z) : option (Segment T) :=
  match segs with
  | [] => None
  | s :: rest =>
      match seg_for rest t with
      | Some s' => Some s'
      | None => if seg_x s <=? t then Some s else None
      end
  end.

Definition key_lt (p q : Z * Z) : Prop := p.1 < q.1.

Lemma covers_head g0 grp s p :
  StronglySorted key_lt grp -> covers g0 grp s -> p ∈ grp -> seg_x s <= p.1.
Proof.
  intros Hs [(p0 & rest & -> & ->) _] Hp. apply elem_of_cons in Hp as [->|Hp]; [done|].
  apply StronglySorted_inv in Hs as [_ Hs]. rewrite Forall_forall in Hs.
  specialize (Hs p Hp). unfold key_lt in Hs. lia.
Qed.

Lemma seg_for_none g0 groups segs t :
  Forall2 (covers g0) groups segs -> (forall p, p ∈ concat groups -> t < p.1) ->
  seg_for segs t = None.
Proof.
  induction 1 as [|grp s groups segs Hc _ IH]; intros Hp; simpl; [done|].
  rewrite IH by (intros p Hq; apply Hp; simpl; apply elem_of_app; by right).
  destruct Hc as [(p0 & rest & -> & ->) _].
  specialize (Hp p0 ltac:(simpl; left)). by replace (p0.1 <=? t) with false by lia.
Qed.

Lemma seg_for_group g0 groups segs grp p q t :
  Forall2 (covers g0) groups segs -> StronglySorted key_lt (concat groups) ->
  grp ∈ groups -> p ∈ grp -> q ∈ grp -> p.1 <= t <= q.1 ->
  exists s, seg_for segs t = Some s /\ covers g0 grp s.
Proof.
  induction 1 as [|grp' s groups segs Hc Hf IH]; intros Hs Hg Hp Hq Ht;
    [by apply elem_of_nil in Hg|].
  simpl in Hs. apply StronglySorted_app in Hs as (Hlt & Hs1 & Hs2).
  apply elem_of_cons in Hg as [->|Hg]; simpl.
  - rewrite (seg_for_none g0 groups segs t Hf).
    + pose proof (covers_head g0 grp' s p Hs1 Hc Hp).
      replace (seg_x s <=? t) with true by lia. eauto.
    + intros r Hr. specialize (Hlt q r Hq Hr). unfold key_lt in Hlt. lia.
  - destruct (IH Hs2 Hg Hp Hq Ht) as (s' & -> & Hs'). eauto.
Qed.

Lemma numbered_sorted vs : forall i, StronglySorted Z.lt vs -> StronglySorted key_lt (numbered i vs).
Proof.
  induction vs as [|v vs IH]; intros i Hs; simpl; [constructor|].
  apply StronglySorted_inv in Hs as [Hs Hv]. constructor; [by apply IH|].
  apply Forall_forall. intros q Hq. apply numbered_range in Hq as [Hq _].
  rewrite Forall_forall in Hv. by apply Hv.
Qed.

Lemma numbered_lookup vs : forall i n v, vs !! n = Some v -> (v, i + Z.of_nat n) ∈ numbered i vs.
Proof.
  induction vs as [|w vs IH]; intros i [|n] v; simpl; [done..| |].
  - intros [= ->]. rewrite Z.add_0_r. left.
  - intros Hn. right. replace (i + Z.of_nat (S n)) with (i + 1 + Z.of_nat n) by lia. by apply IH.
Qed.

Lemma trained_lookup g0 file vs groups segs n v :
  trained g0 file vs groups segs -> StronglySorted Z.lt vs -> vs !! n = Some v ->
  exists s, seg_for segs v = Some s /\ within g0 (seg_k s) (seg_b s) (v, Z.of_nat n).
Proof.
  intros (Hcov & Hcat & _) Hs Hn. apply (numbered_lookup vs 0) in Hn as Hin.
  rewrite <- Hcat in Hin. apply list_elem_of_In, in_concat in Hin as (grp & Hg & Hp).
  apply list_elem_of_In in Hg. apply list_elem_of_In in Hp.
  assert (Hsc : StronglySorted key_lt (concat groups)) by (rewrite Hcat; by apply numbered_sorted).
  destruct (seg_for_group g0 groups segs grp _ _ v Hcov Hsc Hg Hp Hp) as (s & E & [_ Hw]);
    [simpl; lia|].
  exists s. split; [done|]. rewrite Forall_forall in Hw. by apply (Hw _ Hp).
Qed.

(** C35: the error bound of greedy piecewise linear regression, in exact
    arithmetic.  Training a file model on strictly increasing keys with a
    positive [gamma] succeeds, and for the key at every position [n] the last
    segment that starts at or before the key predicts a position within
    [gamma] of [n].  (A single key 0 is excepted: its segment is all zeros and
    is not kept.) *)
Theorem plr_error_bound (gamma : Q) awaiting keys vs :
  (0 < gamma)%Q -> Forall2 (fun k v => stoull k = Some v) keys vs ->
  StronglySorted Z.lt vs -> Forall (fun v => 0 <= v < 2 ^ 64) vs ->
  blen vs <= 2 ^ 32 -> vs <> [] -> vs <> [0] ->
  exists segs, train awaiting (newPLR gamma) keys true = Some segs /\
    forall n v, vs !! n = Some v ->
      exists s, seg_for segs v = Some s /\
        (inject_Z (Z.of_nat n) - gamma <= seg_k s * inject_Z v + seg_b s
           <= inject_Z (Z.of_nat n) + gamma)%Q.
Proof.
  intros Hg Hk Hs Hr Hl Hne Hz.
  destruct (train_exact gamma Hg awaiting true keys vs) as (groups & segs & E & Ht);
    [by left|done..|].
  exists segs. split; [done|]. intros n v Hn.
  by apply (trained_lookup gamma true vs groups segs).
Qed.

Lemma plr_error_bound_witness :
  exists segs, train (fun _ => false) (newPLR 1%Q) [str "5"%string; str "6"%string; str "90"%string]
      true = Some segs /\
    forall n v, [5; 6; 90] !! n = Some v ->
      exists s, seg_for segs v = Some s /\
        (inject_Z (Z.of_nat n) - 1 <= seg_k s * inject_Z v + seg_b s
           <= inject_Z (Z.of_nat n) + 1)%Q.
Proof.
  apply plr_error_bound; [lra| | | |vm_compute; discriminate|discriminate|discriminate].
  - repeat (apply Forall2_cons; split; [reflexivity|]). apply Forall2_nil_2.
  - repeat (apply SSorted_cons; [|repeat (apply Forall_cons; split; [lia|]); apply Forall_nil_2]).
    apply SSorted_nil.
  - repeat (apply Forall_cons; split; [lia|]). apply Forall_nil_2.
Defined.
