(* ===== verification/VersionEdit.v ===== *)
(** db/version_edit.h and db/version_edit.cc: the records of the MANIFEST, which
    describe how one version of the file set becomes the next. *)

From S2P Require Import Prelude Status Coding Logging DbFormat.
From Stdlib Require Import Strings.Byte.
From stdpp Require Import base list strings sorting.

#[local] Open Scope Z_scope.

(** * Data *)

(** [struct FileMetaData]; internal keys are their encodings ([rep_]). *)
Record FileMetaData := mkFileMetaData {
  refs : Z;
  allowed_seeks : Z;
  number : Z;
  file_size : Z;
  smallest : bytes;
  largest : bytes;
  num_keys : Z;
}.

(** The constructor, with the fields the callers fill in. *)
Definition newFileMetaData (number file_size : Z) (smallest largest : bytes) : FileMetaData :=
  mkFileMetaData 0 (Z.shiftl 1 30) number file_size smallest largest 0.

#[export] Instance FileMetaData_eq_dec : EqDecision FileMetaData.
Proof. solve_decision. Defined.

Record VersionEdit := mkVersionEdit {
  comparator_ : bytes;
  log_number_ : Z;
  prev_log_number_ : Z;
  next_file_number_ : Z;
  last_sequence_ : Z;
  has_comparator_ : bool;
  has_log_number_ : bool;
  has_prev_log_number_ : bool;
  has_next_file_number_ : bool;
  has_last_sequence_ : bool;
  compact_pointers_ : list (Z * bytes);
  deleted_files_ : list (Z * Z);
  new_files_ : list (Z * FileMetaData);
}.

(** [std::set<std::pair<int, uint64_t>>]: iterated in increasing order, an
    element occurs once; kept as the sorted list of its elements. *)
Definition pair_ltb (p q : Z * Z) : bool := (p.1 <? q.1) || ((p.1 =? q.1) && (p.2 <? q.2)).

Fixpoint set_insert (p : Z * Z) (s : list (Z * Z)) : list (Z * Z) :=
  match s with
  | [] => [p]
  | q :: s' =>
      if pair_ltb p q then p :: s
      else if pair_ltb q p then q :: set_insert p s'
      else s
  end.

(** [Clear] leaves [compact_pointers_] as it is. *)
Definition Clear (e : VersionEdit) : VersionEdit :=
  mkVersionEdit [] 0 0 0 0 false false false false false (compact_pointers_ e) [] [].

(** A newly constructed edit: the vectors start empty, then [Clear]. *)
Definition newVersionEdit : VersionEdit :=
  Clear (mkVersionEdit [] 0 0 0 0 false false false false false [] [] []).

(** * Setters *)

Definition SetComparatorName (e : VersionEdit) (name : bytes) : VersionEdit :=
  mkVersionEdit name (log_number_ e) (prev_log_number_ e) (next_file_number_ e) (last_sequence_ e)
    true (has_log_number_ e) (has_prev_log_number_ e) (has_next_file_number_ e)
    (has_last_sequence_ e) (compact_pointers_ e) (deleted_files_ e) (new_files_ e).

Definition SetLogNumber (e : VersionEdit) (num : Z) : VersionEdit :=
  mkVersionEdit (comparator_ e) num (prev_log_number_ e) (next_file_number_ e) (last_sequence_ e)
    (has_comparator_ e) true (has_prev_log_number_ e) (has_next_file_number_ e)
    (has_last_sequence_ e) (compact_pointers_ e) (deleted_files_ e) (new_files_ e).

Definition SetPrevLogNumber (e : VersionEdit) (num : Z) : VersionEdit :=
  mkVersionEdit (comparator_ e) (log_number_ e) num (next_file_number_ e) (last_sequence_ e)
    (has_comparator_ e) (has_log_number_ e) true (has_next_file_number_ e)
    (has_last_sequence_ e) (compact_pointers_ e) (deleted_files_ e) (new_files_ e).

Definition SetNextFile (e : VersionEdit) (num : Z) : VersionEdit :=
  mkVersionEdit (comparator_ e) (log_number_ e) (prev_log_number_ e) num (last_sequence_ e)
    (has_comparator_ e) (has_log_number_ e) (has_prev_log_number_ e) true
    (has_last_sequence_ e) (compact_pointers_ e) (deleted_files_ e) (new_files_ e).

Definition SetLastSequence (e : VersionEdit) (seq : Z) : VersionEdit :=
  mkVersionEdit (comparator_ e) (log_number_ e) (prev_log_number_ e) (next_file_number_ e) seq
    (has_comparator_ e) (has_log_number_ e) (has_prev_log_number_ e) (has_next_file_number_ e)
    true (compact_pointers_ e) (deleted_files_ e) (new_files_ e).

Definition set_lists (e : VersionEdit) cp df nf : VersionEdit :=
  mkVersionEdit (comparator_ e) (log_number_ e) (prev_log_number_ e) (next_file_number_ e)
    (last_sequence_ e) (has_comparator_ e) (has_log_number_ e) (has_prev_log_number_ e)
    (has_next_file_number_ e) (has_last_sequence_ e) cp df nf.

Definition SetCompactPointer (e : VersionEdit) (level : Z) (key : bytes) : VersionEdit :=
  set_lists e (compact_pointers_ e ++ [(level, key)]) (deleted_files_ e) (new_files_ e).

Definition AddFile (e : VersionEdit) (level file file_size : Z) (smallest largest : bytes)
  : VersionEdit :=
  set_lists e (compact_pointers_ e) (deleted_files_ e)
    (new_files_ e ++ [(level, newFileMetaData file file_size smallest largest)]).

Definition DeleteFile (e : VersionEdit) (level file : Z) : VersionEdit :=
  set_lists e (compact_pointers_ e) (set_insert (level, file) (deleted_files_ e)) (new_files_ e).

(** * Encoding *)

Definition kComparator : Z := 1.
Definition kLogNumber : Z := 2.
Definition kNextFileNumber : Z := 3.
Definition kLastSequence : Z := 4.
Definition kCompactPointer : Z := 5.
Definition kDeletedFile : Z := 6.
Definition kNewFile : Z := 7.
Definition kPrevLogNumber : Z := 9.

Definition EncodeTo (e : VersionEdit) (dst : bytes) : bytes :=
  let dst := if has_comparator_ e
    then PutLengthPrefixedSlice (PutVarint32 dst kComparator) (comparator_ e) else dst in
  let dst := if has_log_number_ e
    then PutVarint64 (PutVarint32 dst kLogNumber) (log_number_ e) else dst in
  let dst := if has_prev_log_number_ e
    then PutVarint64 (PutVarint32 dst kPrevLogNumber) (prev_log_number_ e) else dst in
  let dst := if has_next_file_number_ e
    then PutVarint64 (PutVarint32 dst kNextFileNumber) (next_file_number_ e) else dst in
  let dst := if has_last_sequence_ e
    then PutVarint64 (PutVarint32 dst kLastSequence) (last_sequence_ e) else dst in
  let dst := fold_left (fun dst cp =>
      PutLengthPrefixedSlice (PutVarint32 (PutVarint32 dst kCompactPointer) (u32 cp.1)) cp.2)
    (compact_pointers_ e) dst in
  let dst := fold_left (fun dst df =>
      PutVarint64 (PutVarint32 (PutVarint32 dst kDeletedFile) (u32 df.1)) df.2)
    (deleted_files_ e) dst in
  fold_left (fun dst nf =>
      let f := nf.2 in
      let dst := PutVarint32 (PutVarint32 dst kNewFile) (u32 nf.1) in
      let dst := PutVarint64 (PutVarint64 dst (number f)) (file_size f) in
      PutLengthPrefixedSlice (PutLengthPrefixedSlice dst (smallest f)) (largest f))
    (new_files_ e) dst.

(** * Decoding *)

Definition GetInternalKey (input : bytes) : option (bytes * bytes) := GetLengthPrefixedSlice input.

Definition GetLevel (input : bytes) : option (Z * bytes) :=
  match GetVarint32 input with
  | Some (v, input) => if v <? kNumLevels then Some (v, input) else None
  | None => None
  end.

(** One turn of the loop after the tag: the message of the failed case, or the
    edit and the remaining input. *)
Definition decode_tag (e : VersionEdit) (tag : Z) (input : bytes)
  : bytes + (VersionEdit * bytes) :=
  if tag =? kComparator then
    match GetLengthPrefixedSlice input with
    | Some (s, input) => inr (SetComparatorName e s, input)
    | None => inl (str "comparator name")
    end
  else if tag =? kLogNumber then
    match GetVarint64 input with
    | Some (v, input) => inr (SetLogNumber e v, input)
    | None => inl (str "log number")
    end
  else if tag =? kPrevLogNumber then
    match GetVarint64 input with
    | Some (v, input) => inr (SetPrevLogNumber e v, input)
    | None => inl (str "previous log number")
    end
  else if tag =? kNextFileNumber then
    match GetVarint64 input with
    | Some (v, input) => inr (SetNextFile e v, input)
    | None => inl (str "next file number")
    end
  else if tag =? kLastSequence then
    match GetVarint64 input with
    | Some (v, input) => inr (SetLastSequence e v, input)
    | None => inl (str "last sequence number")
    end
  else if tag =? kCompactPointer then
    match GetLevel input with
    | Some (level, input) =>
        match GetInternalKey input with
        | Some (key, input) => inr (SetCompactPointer e level key, input)
        | None => inl (str "compaction pointer")
        end
    | None => inl (str "compaction pointer")
    end
  else if tag =? kDeletedFile then
    match GetLevel input with
    | Some (level, input) =>
        match GetVarint64 input with
        | Some (n, input) => inr (DeleteFile e level n, input)
        | None => inl (str "deleted file")
        end
    | None => inl (str "deleted file")
    end
  else if tag =? kNewFile then
    match GetLevel input with
    | None => inl (str "new-file entry")
    | Some (level, input) =>
    match GetVarint64 input with
    | None => inl (str "new-file entry")
    | Some (n, input) =>
    match GetVarint64 input with
    | None => inl (str "new-file entry")
    | Some (size, input) =>
    match GetInternalKey input with
    | None => inl (str "new-file entry")
    | Some (lo, input) =>
    match GetInternalKey input with
    | None => inl (str "new-file entry")
    | Some (hi, input) => inr (AddFile e level n size lo hi, input)
    end end end end end
  else inl (str "unknown tag").

(** Every turn consumes at least the byte of a tag: one more unit of fuel than
    input bytes is enough ([DecodeFrom_loop_fuel]). *)
Fixpoint DecodeFrom_loop (fuel : nat) (e : VersionEdit) (input : bytes) : option bytes * VersionEdit :=
  match fuel with
  | O => (Some [], e)
  | S fuel' =>
      match GetVarint32 input with
      | None => (if blen input =? 0 then None else Some (str "invalid tag"), e)
      | Some (tag, input) =>
          match decode_tag e tag input with
          | inl msg => (Some msg, e)
          | inr (e, input) => DecodeFrom_loop fuel' e input
          end
      end
  end.

Definition DecodeFrom (e : VersionEdit) (src : bytes) : Status * VersionEdit :=
  match DecodeFrom_loop (S (length src)) (Clear e) src with
  | (None, e) => (OK, e)
  | (Some msg, e) => (Corruption (str "VersionEdit") msg, e)
  end.

(** * DebugString *)

Definition nl : bytes := [x0a].

Definition VersionEdit_DebugString (e : VersionEdit) : bytes :=
  str "VersionEdit {" ++
  (if has_comparator_ e then nl ++ str "  Comparator: " ++ comparator_ e else []) ++
  (if has_log_number_ e then nl ++ str "  LogNumber: " ++ decimal (log_number_ e) else []) ++
  (if has_prev_log_number_ e
   then nl ++ str "  PrevLogNumber: " ++ decimal (prev_log_number_ e) else []) ++
  (if has_next_file_number_ e
   then nl ++ str "  NextFile: " ++ decimal (next_file_number_ e) else []) ++
  (if has_last_sequence_ e then nl ++ str "  LastSeq: " ++ decimal (last_sequence_ e) else []) ++
  concat (map (fun cp => nl ++ str "  CompactPointer: " ++ decimal cp.1 ++ str " " ++
                         InternalKey_DebugString cp.2) (compact_pointers_ e)) ++
  concat (map (fun df => nl ++ str "  DeleteFile: " ++ decimal df.1 ++ str " " ++ decimal df.2)
    (deleted_files_ e)) ++
  concat (map (fun nf => nl ++ str "  AddFile: " ++ decimal nf.1 ++ str " " ++
                         decimal (number nf.2) ++ str " " ++ decimal (file_size nf.2) ++ str " " ++
                         InternalKey_DebugString (smallest nf.2) ++ str " .. " ++
                         InternalKey_DebugString (largest nf.2)) (new_files_ e)) ++
  nl ++ str "}" ++ nl.

(** * The encoding as a sequence of items *)

Inductive Item :=
  | IComparator (name : bytes) | ILogNumber (n : Z) | IPrevLogNumber (n : Z)
  | INextFile (n : Z) | ILastSequence (n : Z)
  | ICompactPointer (level : Z) (key : bytes)
  | IDeletedFile (level n : Z)
  | INewFile (level n size : Z) (lo hi : bytes).

Definition item_bytes (i : Item) : bytes :=
  match i with
  | IComparator s => EncodeVarint32 kComparator ++ PutLengthPrefixedSlice [] s
  | ILogNumber n => EncodeVarint32 kLogNumber ++ EncodeVarint64 n
  | IPrevLogNumber n => EncodeVarint32 kPrevLogNumber ++ EncodeVarint64 n
  | INextFile n => EncodeVarint32 kNextFileNumber ++ EncodeVarint64 n
  | ILastSequence n => EncodeVarint32 kLastSequence ++ EncodeVarint64 n
  | ICompactPointer l k =>
      EncodeVarint32 kCompactPointer ++ EncodeVarint32 l ++ PutLengthPrefixedSlice [] k
  | IDeletedFile l n => EncodeVarint32 kDeletedFile ++ EncodeVarint32 l ++ EncodeVarint64 n
  | INewFile l n size lo hi =>
      EncodeVarint32 kNewFile ++ EncodeVarint32 l ++ EncodeVarint64 n ++ EncodeVarint64 size ++
      PutLengthPrefixedSlice [] lo ++ PutLengthPrefixedSlice [] hi
  end.

Definition item_apply (e : VersionEdit) (i : Item) : VersionEdit :=
  match i with
  | IComparator s => SetComparatorName e s
  | ILogNumber n => SetLogNumber e n
  | IPrevLogNumber n => SetPrevLogNumber e n
  | INextFile n => SetNextFile e n
  | ILastSequence n => SetLastSequence e n
  | ICompactPointer l k => SetCompactPointer e l k
  | IDeletedFile l n => DeleteFile e l n
  | INewFile l n size lo hi => AddFile e l n size lo hi
  end.

Definition u64_ok (n : Z) : Prop := 0 <= n < 2 ^ 64.
Definition level_ok (l : Z) : Prop := 0 <= l < kNumLevels.

Definition item_ok (i : Item) : Prop :=
  match i with
  | IComparator s => blen s < 2 ^ 32
  | ILogNumber n | IPrevLogNumber n | INextFile n | ILastSequence n => u64_ok n
  | ICompactPointer l k => level_ok l /\ blen k < 2 ^ 32
  | IDeletedFile l n => level_ok l /\ u64_ok n
  | INewFile l n size lo hi =>
      level_ok l /\ u64_ok n /\ u64_ok size /\ blen lo < 2 ^ 32 /\ blen hi < 2 ^ 32
  end.

Lemma GetLevel_encode l rest : level_ok l -> GetLevel (EncodeVarint32 l ++ rest) = Some (l, rest).
Proof.
  unfold level_ok. change kNumLevels with 7. intros. unfold GetLevel.
  rewrite GetVarint32_encode by lia. change kNumLevels with 7.
  by replace (l <? 7) with true by lia.
Qed.

Lemma decode_item e i rest : item_ok i ->
  exists tag body, GetVarint32 (item_bytes i ++ rest) = Some (tag, body) /\
    decode_tag e tag body = inr (item_apply e i, rest).
Proof.
  unfold item_ok, u64_ok. destruct i; cbn [item_bytes item_apply]; intros Hok; rewrite <- ?app_assoc;
    rewrite GetVarint32_encode by (vm_compute; intuition congruence);
    do 2 eexists; (split; [reflexivity|]); unfold decode_tag; simpl; unfold GetInternalKey.
  - rewrite GetLengthPrefixedSlice_put by done. done.
  - by rewrite GetVarint64_encode.
  - by rewrite GetVarint64_encode.
  - by rewrite GetVarint64_encode.
  - by rewrite GetVarint64_encode.
  - destruct Hok. rewrite GetLevel_encode, GetLengthPrefixedSlice_put by done. done.
  - destruct Hok. rewrite GetLevel_encode, GetVarint64_encode by done. done.
  - destruct Hok as (? & ? & ? & ? & ?).
    rewrite GetLevel_encode, !GetVarint64_encode, !GetLengthPrefixedSlice_put by done. done.
Qed.

Lemma item_bytes_nonempty i : (0 < length (item_bytes i))%nat.
Proof. destruct i; simpl; lia. Qed.

Lemma DecodeFrom_loop_items items : forall fuel e, Forall item_ok items ->
  (length (concat (map item_bytes items)) < fuel)%nat ->
  DecodeFrom_loop fuel e (concat (map item_bytes items)) = (None, fold_left item_apply items e).
Proof.
  induction items as [|i items IH]; intros [|fuel] e Hok Hf; simpl in Hf; [lia|done|lia|].
  apply Forall_cons_1 in Hok as [Hi Hok]. rewrite length_app in Hf.
  pose proof (item_bytes_nonempty i).
  cbn [map concat DecodeFrom_loop fold_left].
  destruct (decode_item e i (concat (map item_bytes items)) Hi) as (tag & body & -> & ->).
  apply IH; [done|lia].
Qed.

Definition opt_item {A} (has : bool) (c : A -> Item) (v : A) : list Item :=
  if has then [c v] else [].

(** The items of an edit, in the order they are written. *)
Definition items (e : VersionEdit) : list Item :=
  opt_item (has_comparator_ e) IComparator (comparator_ e) ++
  opt_item (has_log_number_ e) ILogNumber (log_number_ e) ++
  opt_item (has_prev_log_number_ e) IPrevLogNumber (prev_log_number_ e) ++
  opt_item (has_next_file_number_ e) INextFile (next_file_number_ e) ++
  opt_item (has_last_sequence_ e) ILastSequence (last_sequence_ e) ++
  map (fun cp => ICompactPointer (u32 cp.1) cp.2) (compact_pointers_ e) ++
  map (fun df => IDeletedFile (u32 df.1) df.2) (deleted_files_ e) ++
  map (fun nf => INewFile (u32 nf.1) (number nf.2) (file_size nf.2) (smallest nf.2) (largest nf.2))
    (new_files_ e).

Lemma fold_put {A} (put : bytes -> A -> bytes) (item : A -> Item) l : forall dst,
  (forall dst x, put dst x = dst ++ item_bytes (item x)) ->
  fold_left put l dst = dst ++ concat (map item_bytes (map item l)).
Proof.
  induction l as [|x l IH]; intros dst H; simpl; [by rewrite app_nil_r|].
  rewrite IH, H by done. by rewrite app_assoc.
Qed.

Lemma opt_put {A} (has : bool) (put : bytes -> bytes) (c : A -> Item) v dst :
  put dst = dst ++ item_bytes (c v) ->
  (if has then put dst else dst) = dst ++ concat (map item_bytes (opt_item has c v)).
Proof. destruct has; simpl; [by rewrite app_nil_r|by rewrite app_nil_r]. Qed.

Lemma EncodeTo_items e dst : EncodeTo e dst = dst ++ concat (map item_bytes (items e)).
Proof.
  unfold EncodeTo, items. rewrite !map_app, !concat_app.
  assert (P : forall d s, PutLengthPrefixedSlice d s = d ++ PutLengthPrefixedSlice [] s).
  { intros. apply PutLengthPrefixedSlice_app. }
  rewrite (fold_put _
    (fun nf => INewFile (u32 nf.1) (number nf.2) (file_size nf.2) (smallest nf.2) (largest nf.2)))
    by (intros; unfold PutVarint32, PutVarint64; rewrite P, (P _ (smallest _));
        cbn [item_bytes]; rewrite <- !app_assoc; done).
  rewrite (fold_put _ (fun df => IDeletedFile (u32 df.1) df.2))
    by (intros; unfold PutVarint32, PutVarint64; cbn [item_bytes]; rewrite <- !app_assoc; done).
  rewrite (fold_put _ (fun cp => ICompactPointer (u32 cp.1) cp.2))
    by (intros; unfold PutVarint32; rewrite P; cbn [item_bytes]; rewrite <- !app_assoc; done).
  rewrite (opt_put _ (fun d => PutVarint64 (PutVarint32 d _) _) ILastSequence (last_sequence_ e))
    by (unfold PutVarint32, PutVarint64; cbn [item_bytes]; by rewrite <- app_assoc).
  rewrite (opt_put _ (fun d => PutVarint64 (PutVarint32 d _) _) INextFile (next_file_number_ e))
    by (unfold PutVarint32, PutVarint64; cbn [item_bytes]; by rewrite <- app_assoc).
  rewrite (opt_put _ (fun d => PutVarint64 (PutVarint32 d _) _) IPrevLogNumber (prev_log_number_ e))
    by (unfold PutVarint32, PutVarint64; cbn [item_bytes]; by rewrite <- app_assoc).
  rewrite (opt_put _ (fun d => PutVarint64 (PutVarint32 d _) _) ILogNumber (log_number_ e))
    by (unfold PutVarint32, PutVarint64; cbn [item_bytes]; by rewrite <- app_assoc).
  rewrite (opt_put _ (fun d => PutLengthPrefixedSlice (PutVarint32 d _) _) IComparator (comparator_ e))
    by (unfold PutVarint32; cbn [item_bytes]; rewrite P; by rewrite <- app_assoc).
  by rewrite <- !app_assoc.
Qed.

(** * Well-formed edits *)

Definition pair_lt (p q : Z * Z) : Prop := pair_ltb p q = true.

Definition file_ok (f : FileMetaData) : Prop :=
  f = newFileMetaData (number f) (file_size f) (smallest f) (largest f) /\
  u64_ok (number f) /\ u64_ok (file_size f) /\ blen (smallest f) < 2 ^ 32 /\ blen (largest f) < 2 ^ 32.

(** What the setters maintain: an absent field has its default value, numbers
    are in range, the deleted files are a sorted set. *)
Record edit_wf (e : VersionEdit) : Prop := {
  wf_comparator : blen (comparator_ e) < 2 ^ 32 /\ (has_comparator_ e = false -> comparator_ e = []);
  wf_log : u64_ok (log_number_ e) /\ (has_log_number_ e = false -> log_number_ e = 0);
  wf_prev : u64_ok (prev_log_number_ e) /\ (has_prev_log_number_ e = false -> prev_log_number_ e = 0);
  wf_next : u64_ok (next_file_number_ e) /\
            (has_next_file_number_ e = false -> next_file_number_ e = 0);
  wf_seq : u64_ok (last_sequence_ e) /\ (has_last_sequence_ e = false -> last_sequence_ e = 0);
  wf_cp : Forall (fun cp => level_ok cp.1 /\ blen cp.2 < 2 ^ 32) (compact_pointers_ e);
  wf_df : Forall (fun df => level_ok df.1 /\ u64_ok df.2) (deleted_files_ e);
  wf_df_sorted : StronglySorted pair_lt (deleted_files_ e);
  wf_nf : Forall (fun nf => level_ok nf.1 /\ file_ok nf.2) (new_files_ e);
}.

Lemma pair_ltb_trans p q r : pair_lt p q -> pair_lt q r -> pair_lt p r.
Proof. unfold pair_lt, pair_ltb. lia. Qed.

Lemma set_insert_elem p s q : q ∈ set_insert p s -> q = p \/ q ∈ s.
Proof.
  induction s as [|r s IH]; simpl; [rewrite list_elem_of_singleton; by left|].
  destruct (pair_ltb p r); [rewrite elem_of_cons; tauto|].
  destruct (pair_ltb r p); [|tauto]. rewrite !elem_of_cons. tauto.
Qed.

Lemma set_insert_sorted p s : StronglySorted pair_lt s -> StronglySorted pair_lt (set_insert p s).
Proof.
  induction 1 as [|q s Hs IH Hq]; simpl; [repeat constructor|].
  destruct (pair_ltb p q) eqn:E1.
  - constructor; [by constructor|]. constructor; [done|].
    eapply Forall_impl; [exact Hq|]. intros r. by apply pair_ltb_trans.
  - destruct (pair_ltb q p) eqn:E2; [|by constructor]. constructor; [done|].
    apply Forall_forall. intros r [->|Hr]%set_insert_elem; [done|].
    rewrite Forall_forall in Hq. by apply Hq.
Qed.

(** Inserting above every element appends. *)
Lemma set_insert_last p s : Forall (fun q => pair_lt q p) s -> set_insert p s = s ++ [p].
Proof.
  induction 1 as [|q s Hq _ IH]; simpl; [done|].
  replace (pair_ltb p q) with false by (unfold pair_lt, pair_ltb in *; lia).
  unfold pair_lt in Hq. by rewrite Hq, IH.
Qed.

Lemma newVersionEdit_wf : edit_wf newVersionEdit.
Proof. split; simpl; try (by constructor); (split; [|done]); unfold u64_ok; lia || done. Qed.

Lemma item_apply_wf e i : edit_wf e -> item_ok i -> edit_wf (item_apply e i).
Proof.
  intros [] Hi. destruct i; simpl in Hi; split; simpl; try done.
  - apply Forall_app. split; [done|by apply Forall_singleton].
  - apply Forall_forall. intros q [->|Hq]%set_insert_elem; [done|].
    rewrite Forall_forall in wf_df0. by apply wf_df0.
  - by apply set_insert_sorted.
  - apply Forall_app. split; [done|]. apply Forall_singleton. simpl. unfold file_ok. simpl. tauto.
Qed.

Lemma fold_apply_wf its : forall e, edit_wf e -> Forall item_ok its -> edit_wf (fold_left item_apply its e).
Proof.
  induction its as [|i its IH]; intros e He Hi; simpl; [done|].
  apply Forall_cons_1 in Hi as [Hi Hits]. apply IH; [|done]. by apply item_apply_wf.
Qed.

Lemma level_u32 l : level_ok l -> u32 l = l.
Proof. unfold level_ok. change kNumLevels with 7. intros. apply u32_small. lia. Qed.

Lemma opt_item_ok {A} has (c : A -> Item) v : item_ok (c v) -> Forall item_ok (opt_item has c v).
Proof. destruct has; repeat constructor. done. Qed.

Lemma items_ok e : edit_wf e -> Forall item_ok (items e).
Proof.
  intros []. unfold items. rewrite !Forall_app, !Forall_map.
  repeat (split; [apply opt_item_ok; simpl; tauto|]).
  split; [|split].
  - eapply Forall_impl; [exact wf_cp0|]. intros cp [Hl Hk]. simpl. by rewrite level_u32.
  - eapply Forall_impl; [exact wf_df0|]. intros cp [Hl Hk]. simpl. by rewrite level_u32.
  - eapply Forall_impl; [exact wf_nf0|]. intros nf (Hl & _ & Hk). simpl. by rewrite level_u32.
Qed.

Lemma fold_compact l : forall e, Forall (fun cp => level_ok cp.1 /\ blen cp.2 < 2 ^ 32) l ->
  fold_left item_apply (map (fun cp => ICompactPointer (u32 cp.1) cp.2) l) e =
  set_lists e (compact_pointers_ e ++ l) (deleted_files_ e) (new_files_ e).
Proof.
  induction l as [|[lv k] l IH]; intros e Hl; simpl; [rewrite app_nil_r; by destruct e|].
  apply Forall_cons_1 in Hl as [[Hv _] Hl]. rewrite IH by done. simpl in Hv.
  rewrite level_u32 by done. unfold SetCompactPointer, set_lists. simpl. by rewrite <- app_assoc.
Qed.

Lemma fold_deleted l : forall e, Forall (fun df => level_ok df.1 /\ u64_ok df.2) l ->
  StronglySorted pair_lt (deleted_files_ e ++ l) ->
  fold_left item_apply (map (fun df => IDeletedFile (u32 df.1) df.2) l) e =
  set_lists e (compact_pointers_ e) (deleted_files_ e ++ l) (new_files_ e).
Proof.
  induction l as [|[lv n] l IH]; intros e Hl Hs; simpl; [rewrite app_nil_r; by destruct e|].
  apply Forall_cons_1 in Hl as [[Hv _] Hl]. simpl in Hv. rewrite level_u32 by done.
  assert (E : set_insert (lv, n) (deleted_files_ e) = deleted_files_ e ++ [(lv, n)]).
  { apply set_insert_last, Forall_forall. intros q Hq. apply StronglySorted_app in Hs as (Hlt & _ & _).
    apply Hlt; [done|left]. }
  rewrite IH; unfold DeleteFile, set_lists; simpl; [|done|]; rewrite E, <- app_assoc; done.
Qed.

Lemma fold_new l : forall e, Forall (fun nf => level_ok nf.1 /\ file_ok nf.2) l ->
  fold_left item_apply (map (fun nf =>
    INewFile (u32 nf.1) (number nf.2) (file_size nf.2) (smallest nf.2) (largest nf.2)) l) e =
  set_lists e (compact_pointers_ e) (deleted_files_ e) (new_files_ e ++ l).
Proof.
  induction l as [|[lv f] l IH]; intros e Hl; simpl; [rewrite app_nil_r; by destruct e|].
  apply Forall_cons_1 in Hl as [[Hv [Hf _]] Hl]. rewrite IH by done. simpl in Hv, Hf.
  rewrite level_u32 by done. unfold AddFile, set_lists. simpl.
  rewrite <- Hf, <- app_assoc. done.
Qed.

Lemma fold_items e e0 : edit_wf e ->
  fold_left item_apply (items e) (Clear e0) =
  set_lists e (compact_pointers_ e0 ++ compact_pointers_ e) (deleted_files_ e) (new_files_ e).
Proof.
  intros []. unfold items. rewrite !app_assoc, !fold_left_app, fold_new by done.
  rewrite fold_deleted, fold_compact by (rewrite ?fold_compact; try done; simpl;
    destruct (has_comparator_ e), (has_log_number_ e), (has_prev_log_number_ e),
      (has_next_file_number_ e), (has_last_sequence_ e); done).
  destruct e; simpl in *.
  repeat match goal with H : _ /\ _ |- _ => destruct H as [_ H] end.
  destruct has_comparator_0, has_log_number_0, has_prev_log_number_0, has_next_file_number_0,
    has_last_sequence_0; simpl; unfold set_lists; simpl; f_equal; symmetry; auto.
Qed.

(** * Decoding arbitrary bytes *)

Lemma GetLengthPrefixedSlice_small p s rest :
  GetLengthPrefixedSlice p = Some (s, rest) -> blen s < 2 ^ 32.
Proof.
  unfold GetLengthPrefixedSlice. destruct (GetVarint32 p) as [[len r]|] eqn:E; [|done].
  apply GetVarint32_range in E. bcase; [|done]. intros [= <- <-].
  rewrite blen_btake_min by lia. lia.
Qed.

Lemma GetLevel_ok p l rest : GetLevel p = Some (l, rest) -> level_ok l /\ exists k, p = k ++ rest.
Proof.
  unfold GetLevel. destruct (GetVarint32 p) as [[v r]|] eqn:E; [|done].
  bcase; [|done]. intros [= <- <-]. split; [|by apply GetVarint32_suffix in E as (k & -> & _); eauto].
  apply GetVarint32_range in E. unfold level_ok. lia.
Qed.

Lemma GetVarint64_ok p v rest : GetVarint64 p = Some (v, rest) -> u64_ok v /\ exists k, p = k ++ rest.
Proof.
  intros E. split; [by eapply GetVarint64_range|].
  apply GetVarint64_suffix in E as (k & -> & _). eauto.
Qed.

Lemma GetSlice_ok p s rest : GetLengthPrefixedSlice p = Some (s, rest) ->
  blen s < 2 ^ 32 /\ exists k, p = k ++ rest.
Proof.
  intros E. split; [by eapply GetLengthPrefixedSlice_small|].
  apply GetLengthPrefixedSlice_suffix in E as (k & -> & _). exists (k ++ s). by rewrite app_assoc.
Qed.

(** A turn of the loop that succeeds applies one in-range item and consumes
    input. *)
Lemma decode_tag_item e tag input e' rest :
  decode_tag e tag input = inr (e', rest) ->
  exists i, item_ok i /\ e' = item_apply e i /\ exists k, input = k ++ rest.
Proof.
  unfold decode_tag, GetInternalKey.
  repeat (mcase; try discriminate); intros [= <- <-];
  repeat match goal with
  | H : GetLevel _ = Some _ |- _ => apply GetLevel_ok in H as [? [? ->]]
  | H : GetVarint64 _ = Some _ |- _ => apply GetVarint64_ok in H as [? [? ->]]
  | H : GetLengthPrefixedSlice _ = Some _ |- _ => apply GetSlice_ok in H as [? [? ->]]
  end;
  [ eexists (IComparator _) | eexists (ILogNumber _) | eexists (IPrevLogNumber _)
  | eexists (INextFile _) | eexists (ILastSequence _) | eexists (ICompactPointer _ _)
  | eexists (IDeletedFile _ _) | eexists (INewFile _ _ _ _ _) ];
  (split; [|split; [reflexivity|rewrite ?app_assoc; eauto]]); simpl; tauto.
Qed.

Definition decode_messages : list bytes :=
  [str "comparator name"; str "log number"; str "previous log number"; str "next file number";
   str "last sequence number"; str "compaction pointer"; str "deleted file"; str "new-file entry";
   str "unknown tag"; str "invalid tag"].

Lemma decode_tag_msg e tag input msg : decode_tag e tag input = inl msg -> msg ∈ decode_messages.
Proof.
  unfold decode_tag, decode_messages.
  repeat (mcase; try discriminate); intros [= <-]; rewrite !elem_of_cons; tauto.
Qed.

Lemma DecodeFrom_loop_fuel fuel : forall e input, (length input < fuel)%nat -> edit_wf e ->
  edit_wf (DecodeFrom_loop fuel e input).2 /\
  (forall msg, (DecodeFrom_loop fuel e input).1 = Some msg -> msg ∈ decode_messages).
Proof.
  induction fuel as [|fuel IH]; intros e input Hf He; [lia|]. cbn [DecodeFrom_loop].
  destruct (GetVarint32 input) as [[tag r]|] eqn:E.
  - apply GetVarint32_suffix in E as (k & -> & Hk). rewrite length_app in Hf.
    destruct (decode_tag e tag r) as [msg|[e' rest]] eqn:Ed.
    + split; [done|]. simpl. intros m [= <-]. by eapply decode_tag_msg.
    + apply decode_tag_item in Ed as (i & Hi & -> & k' & ->). rewrite length_app in Hf.
      apply IH; [lia|]. by apply item_apply_wf.
  - split; [done|]. simpl. bcase; intros m; [done|]. intros [= <-].
    unfold decode_messages. rewrite !elem_of_cons. tauto.
Qed.

Lemma Clear_wf e : edit_wf e -> edit_wf (Clear e).
Proof.
  intros []. split; simpl; try (by constructor); try done; (split; [|done]); unfold u64_ok; done || lia.
Qed.

Lemma DecodeFrom_EncodeTo e0 e : edit_wf e ->
  DecodeFrom e0 (EncodeTo e []) =
    (OK, set_lists e (compact_pointers_ e0 ++ compact_pointers_ e) (deleted_files_ e) (new_files_ e)).
Proof.
  intros He. unfold DecodeFrom. rewrite EncodeTo_items, app_nil_l.
  rewrite DecodeFrom_loop_items by (done || lia || by apply items_ok).
  by rewrite fold_items.
Qed.

(** A MANIFEST record decodes to the edit that was written.  For an edit
    built by any sequence of calls of the setters, decoding what [EncodeTo]
    wrote succeeds and gives back every field; the compaction pointers are
    appended to those the receiving object already held, since [Clear] does
    not empty them. *)
Theorem version_edit_roundtrip (ops : list Item) (e0 : VersionEdit) :
  Forall item_ok ops ->
  let e := fold_left item_apply ops newVersionEdit in
  DecodeFrom e0 (EncodeTo e []) =
    (OK, set_lists e (compact_pointers_ e0 ++ compact_pointers_ e) (deleted_files_ e) (new_files_ e)).
Proof.
  intros Hops e. apply DecodeFrom_EncodeTo, fold_apply_wf; [apply newVersionEdit_wf|done].
Qed.

Lemma version_edit_roundtrip_witness :
  let ops := [ILogNumber 9; IDeletedFile 2 31; IDeletedFile 1 40; INewFile 3 77 4096 [x61] [x7a];
              ICompactPointer 2 [x6d]] in
  let e := fold_left item_apply ops newVersionEdit in
  DecodeFrom newVersionEdit (EncodeTo e []) =
    (OK, set_lists e (compact_pointers_ newVersionEdit ++ compact_pointers_ e)
           (deleted_files_ e) (new_files_ e)).
Proof.
  apply version_edit_roundtrip.
  repeat (apply Forall_cons; split; [unfold item_ok, level_ok, u64_ok, kNumLevels, blen; simpl; lia|]).
  apply Forall_nil_2.
Defined.

(** C12: decoding arbitrary bytes is safe: it always ends, with success or with
    a corruption error that names the bad entry, and the edit it leaves is
    well formed.  In particular every level number in it is below
    [kNumLevels], so that the version set may use it as an array index. *)
Theorem version_edit_decode_safe (e : VersionEdit) (src : bytes) :
  edit_wf e ->
  let '(s, e') := DecodeFrom e src in
  edit_wf e' /\
  (s = OK \/ exists msg, msg ∈ decode_messages /\ s = Corruption (str "VersionEdit") msg).
Proof.
  intros He. unfold DecodeFrom.
  destruct (DecodeFrom_loop_fuel (S (length src)) (Clear e) src ltac:(lia) (Clear_wf e He))
    as [Hwf Hmsg].
  destruct (DecodeFrom_loop _ _ _) as [[msg|] e']; simpl in *;
    (split; [done|]); [right; exists msg; auto|by left].
Qed.

Lemma version_edit_decode_safe_witness :
  let '(s, e') := DecodeFrom newVersionEdit [x06; x09; x01] in
  edit_wf e' /\
  (s = OK \/ exists msg, msg ∈ decode_messages /\ s = Corruption (str "VersionEdit") msg).
Proof. apply (version_edit_decode_safe newVersionEdit [x06; x09; x01]). apply newVersionEdit_wf. Defined.
