(* ===== verification/LearnedIndex.v ===== *)
(** mod/learned_index.h and mod/learned_index.cpp: the learned index.  A
    [LearnedIndexData] is the model of a file (key to position in the file) or
    of a level (key to file of the level); it is filled with keys, trained by
    [Learn] and queried by [GetPosition].  [AccumulatedNumEntriesArray] maps
    positions of a level to files; [FileLearnedIndexData] is the table of all
    file models. *)

From S2P Require Import Prelude ModUtil DbFormat VersionEdit Plr.
From stdpp Require Import base list.

#[local] Open Scope Z_scope.

(** * AccumulatedNumEntriesArray *)

(** [std::vector<std::pair<uint64_t, string>>]: for each file, the number of
    entries in or before it, and its largest key. *)
Definition AccumulatedNumEntriesArray : Type := list (Z * bytes).

Definition Add (array : list (Z * bytes)) (num_entries : Z) (key : bytes)
  : AccumulatedNumEntriesArray := array ++ [(num_entries, key)].

Definition NumEntries (array : list (Z * bytes)) : Z :=
  match last array with Some p => p.1 | None => 0 end.

(** [array[i].first]; reading out of range is undefined in the source, the
    callers' loops keep the index in range. *)
Definition first (array : list (Z * bytes)) (i : nat) : Z :=
  match array !! i with Some p => p.1 | None => 0 end.

(** [lower - array[left - 1].first] with the guard on [left]. *)
Definition relative (array : list (Z * bytes)) (left : nat) (v : Z) : Z :=
  match left with
  | O => v
  | S l => u64 (v - first array l)
  end.

(** The scan over the files from [left] for the first one whose largest key is
    not below [key]: [None] when the array ends, else the file and the lower
    bound, which moves to the end of the last file skipped. *)
Fixpoint scan_files (key : bytes) (rest : list (Z * bytes)) (left : nat) (lower : Z)
  : option (nat * Z) :=
  match rest with
  | [] => None
  | (n, largest) :: rest' =>
      if op_le key largest then Some (left, lower)
      else scan_files key rest' (S left) n
  end.

Fixpoint search_loop (fuel : nat) (array : list (Z * bytes)) (lower : Z)
    (left right : nat) : nat :=
  match fuel with
  | O => left
  | S fuel' =>
      if (left <? right)%nat then
        let mid := ((left + right) / 2)%nat in
        if lower <? first array mid then search_loop fuel' array lower left mid
        else search_loop fuel' array lower (S mid) right
      else left
  end.

(** [Search]: index, relative lower and relative upper bound.  The result is
    [None] when the source returns false.  [MOD] is the global [adgMod::MOD];
    the array is not empty (the source reads [array[0]]). *)
Definition Search (MOD : Z) (array : list (Z * bytes)) (key : bytes) (lower upper : Z)
  : option (nat * Z * Z) :=
  if MOD =? 4 then
    let lower_pos := Z.to_nat (lower / first array 0) in
    let upper_pos := Z.to_nat (upper / first array 0) in
    if negb (lower_pos =? upper_pos)%nat then
      match scan_files key (drop lower_pos array) lower_pos lower with
      | None => None
      | Some (lower_pos, lower) =>
          let upper := Z.min upper (u64 (first array lower_pos - 1)) in
          Some (lower_pos, relative array lower_pos lower, relative array lower_pos upper)
      end
    else Some (lower_pos, lower mod first array 0, upper mod first array 0)
  else
    let left := search_loop (length array) array lower 0 (length array - 1) in
    if first array left <=? upper then
      match scan_files key (drop left array) left lower with
      | None => None
      | Some (left_, lower) =>
          let upper := Z.min upper (u64 (first array left_ - 1)) in
          Some (left_, relative array left_ lower, relative array left_ upper)
      end
    else Some (left, relative array left lower, relative array left upper).

(** [SearchNoError]: the index and position it stores, and the result. *)
Definition SearchNoError (array : list (Z * bytes)) (position : Z) : Z * Z * bool :=
  let index := position / first array 0 in
  (index, position mod first array 0, index <? blen array).

(** * LearnedIndexData *)

Record LearnedIndexData {T} := mkLearnedIndexData {
  error : T;
  learned : bool;
  aborted : bool;
  learned_not_atomic : bool;
  learning : bool;
  lid_allowed_seek : Z;
  current_seek : Z;
  filled : bool;
  is_level : bool;
  string_segments : list (Segment T);
  min_key : Z;
  max_key : Z;
  size : Z;
  string_keys : list bytes;
  num_entries_accumulated : AccumulatedNumEntriesArray;
  level : Z;
  served : Z;
  cost : Z;
}.
Arguments LearnedIndexData : clear implicits.

Section Model.
Context {T : Type} `{Arith T}.

(** The constructor; [min_key], [max_key] and [size] are uninitialised in the
    source (they are read only after [Learn] or [ReadModel]). *)
Definition newLearnedIndexData (file_model_error level_model_error : Z) (allowed_seek : Z)
    (level_model : bool) : LearnedIndexData T :=
  mkLearnedIndexData T (ofZ (if level_model then level_model_error else file_model_error))
    false false false false allowed_seek 0 false level_model [] 0 0 0 [] [] 0 0 0.

Definition with_keys (d : LearnedIndexData T) (keys : list bytes) : LearnedIndexData T :=
  mkLearnedIndexData T (error d) (learned d) (aborted d) (learned_not_atomic d) (learning d)
    (lid_allowed_seek d) (current_seek d) (filled d) (is_level d) (string_segments d)
    (min_key d) (max_key d) (size d) keys (num_entries_accumulated d) (level d) (served d) (cost d).

Definition with_bounds (d : LearnedIndexData T) (lo hi n : Z) : LearnedIndexData T :=
  mkLearnedIndexData T (error d) (learned d) (aborted d) (learned_not_atomic d) (learning d)
    (lid_allowed_seek d) (current_seek d) (filled d) (is_level d) (string_segments d)
    lo hi n (string_keys d) (num_entries_accumulated d) (level d) (served d) (cost d).

Definition with_segments (d : LearnedIndexData T) (segs : list (Segment T)) (l : bool)
  : LearnedIndexData T :=
  mkLearnedIndexData T (error d) l (aborted d) (learned_not_atomic d) (learning d)
    (lid_allowed_seek d) (current_seek d) (filled d) (is_level d) segs
    (min_key d) (max_key d) (size d) (string_keys d) (num_entries_accumulated d) (level d)
    (served d) (cost d).

Definition with_flags (d : LearnedIndexData T) (learned_na learning_ : bool)
  : LearnedIndexData T :=
  mkLearnedIndexData T (error d) (learned d) (aborted d) learned_na learning_
    (lid_allowed_seek d) (current_seek d) (filled d) (is_level d) (string_segments d)
    (min_key d) (max_key d) (size d) (string_keys d) (num_entries_accumulated d) (level d)
    (served d) (cost d).

Definition with_level (d : LearnedIndexData T) (is_level_ filled_ : bool) (lv : Z)
  : LearnedIndexData T :=
  mkLearnedIndexData T (error d) (learned d) (aborted d) (learned_not_atomic d) (learning d)
    (lid_allowed_seek d) (current_seek d) filled_ is_level_ (string_segments d)
    (min_key d) (max_key d) (size d) (string_keys d) (num_entries_accumulated d) lv
    (served d) (cost d).

Definition with_served (d : LearnedIndexData T) (n : Z) : LearnedIndexData T :=
  mkLearnedIndexData T (error d) (learned d) (aborted d) (learned_not_atomic d) (learning d)
    (lid_allowed_seek d) (current_seek d) (filled d) (is_level d) (string_segments d)
    (min_key d) (max_key d) (size d) (string_keys d) (num_entries_accumulated d) (level d)
    n (cost d).

(** The binary search between segments; [None] when the fuel ends, which does
    not happen with one unit per segment ([segment_search_spec]). *)
Fixpoint segment_search (fuel : nat) (segs : list (Segment T)) (target_int : Z)
    (left right : nat) : option nat :=
  match fuel with
  | O => None
  | S fuel' =>
      if (S left =? right)%nat then Some left
      else
        let mid := ((right + left) / 2)%nat in
        match segs !! mid with
        | None => None
        | Some s =>
            if target_int <? seg_x s then segment_search fuel' segs target_int left mid
            else segment_search fuel' segs target_int mid right
        end
  end.

(** The interval of a prediction: [None] where the conversion of the bounds to
    [uint64_t] is undefined. *)
Definition interval (d : LearnedIndexData T) (s : Segment T) (target_int : Z) : option (Z * Z) :=
  let result := aadd (amul (ofZ target_int) (seg_k s)) (seg_b s) in
  let result := if is_level d then adiv result (ofZ 2) else result in
  match (if altb (ofZ 0) (asub result (error d))
         then to_uint 64 (afloor (asub result (error d))) else Some 0),
        to_uint 64 (aceil (aadd result (error d))) with
  | Some lower, Some upper =>
      if size d <=? lower then Some (size d, size d)
      else Some (lower, if upper <? size d then upper else size d - 1)
  | _, _ => None
  end.

(** [GetPosition]: the interval, and the model with its counter [served]
    incremented.  [None]: the assertion fails or the behaviour is undefined. *)
Definition GetPosition (d : LearnedIndexData T) (target_x : bytes)
  : option ((Z * Z) * LearnedIndexData T) :=
  if negb (1 <? blen (string_segments d)) then None
  else
    let d := with_served d (i32 (served d + 1)) in
    let target_int := SliceToInteger target_x in
    if max_key d <? target_int then Some ((size d, size d), d)
    else if target_int <? min_key d then Some ((size d, size d), d)
    else
      let n := length (string_segments d) in
      match segment_search n (string_segments d) target_int 0 (n - 1) with
      | None => None
      | Some left_ =>
          match string_segments d !! left_ with
          | None => None
          | Some s =>
              match interval d s target_int with
              | Some r => Some (r, d)
              | None => None
              end
          end
      end.

Definition MaxPosition (d : LearnedIndexData T) : Z := u64 (size d - 1).
Definition GetError (d : LearnedIndexData T) : T := error d.

(** [Learn]: the returned [bool] and the model after.  [None]: the assertion on
    empty data fails, [stoull] throws or a conversion is undefined. *)
Definition Learn (awaiting : Z -> bool) (d : LearnedIndexData T)
  : option (bool * LearnedIndexData T) :=
  match head (string_keys d), last (string_keys d) with
  | Some front, Some back =>
      match atoll front, atoll back with
      | Some lo, Some hi =>
          let temp := u64 hi in
          let d := with_bounds d (u64 lo) (u64 hi) (blen (string_keys d)) in
          match train awaiting (newPLR (error d)) (string_keys d) (negb (is_level d)) with
          | None => None
          | Some [] => Some (false, d)
          | Some segs => Some (true, with_segments d (segs ++ [mkSegment T temp (ofZ 0) (ofZ 0)]) true)
          end
      | _, _ => None
      end
  | _, _ => None
  end.

(** [Learned()] and its two overloads, which run the same code. *)
Definition Learned (d : LearnedIndexData T) : bool * LearnedIndexData T :=
  if learned_not_atomic d then (true, d)
  else if learned d then (true, with_flags d true (learning d))
  else (false, d).

(** [Version::FillLevel]: the smallest and largest user key of every file of
    the level. *)
Definition FillLevel (files : list FileMetaData) (d : LearnedIndexData T)
  : bool * LearnedIndexData T :=
  match files with
  | [] => (false, d)
  | _ => (true, with_keys d (fold_left (fun keys f =>
            keys ++ [ExtractUserKey (smallest f)] ++ [ExtractUserKey (largest f)])
            files (string_keys d)))
  end.

(** [Table::FillData]: the user keys of the blocks of a table, and after each
    block the running number of entries with the last key.  [blocks] are the
    internal keys the block iterators yield, in order. *)
Definition with_data (d : LearnedIndexData T) (keys : list bytes)
    (acc : AccumulatedNumEntriesArray) (filled_ : bool) : LearnedIndexData T :=
  mkLearnedIndexData T (error d) (learned d) (aborted d) (learned_not_atomic d) (learning d)
    (lid_allowed_seek d) (current_seek d) filled_ (is_level d) (string_segments d)
    (min_key d) (max_key d) (size d) keys acc (level d) (served d) (cost d).

Definition fill_block (d : LearnedIndexData T) (block : list bytes) : LearnedIndexData T :=
  let users := map ExtractUserKey block in
  let d := with_data d (string_keys d ++ users) (num_entries_accumulated d) (filled d) in
  let current_total := NumEntries (num_entries_accumulated d) in
  let '(ok, d) := Learned d in
  if negb ok then
    with_data d (string_keys d)
      (Add (num_entries_accumulated d) (u64 (current_total + blen block))
           (match last users with Some k => k | None => [] end)) (filled d)
  else d.

Definition FillData (blocks : list (list bytes)) (d : LearnedIndexData T) : LearnedIndexData T :=
  if filled d then d
  else
    let d := fold_left fill_block blocks d in
    with_data d (string_keys d) (num_entries_accumulated d) true.

(** [LevelLearn] without its timers and event records: [same1] and [same2] are
    the two tests [db->version_count == vas->v_count], [waiting] is
    [env->compaction_awaiting.load() != 0]. *)
Definition LevelLearn (same1 same2 waiting : bool) (awaiting : Z -> bool)
    (files : list FileMetaData) (lv : Z) (d : LearnedIndexData T)
  : option (bool * LearnedIndexData T) :=
  let d := with_level d true (filled d) lv in
  if same1 then
    let '(ok, d) := FillLevel files d in
    if ok then
      let d := with_level d true true lv in
      if same2 then
        if negb waiting then
          match Learn awaiting d with
          | None => None
          | Some (true, d) => Some (true, d)
          | Some (false, d) => Some (false, with_flags d (learned_not_atomic d) false)
          end
        else Some (false, with_flags d (learned_not_atomic d) false)
      else Some (false, d)
    else Some (false, d)
  else Some (false, d).

(** [FileLearn] likewise; [table] is the table [TableCache::FillData] found,
    [None] when it failed.  The result is [entered]. *)
Definition FileLearn (awaiting : Z -> bool) (table : option (list (list bytes))) (lv : Z)
    (d : LearnedIndexData T) : option (bool * LearnedIndexData T) :=
  let d := with_level d (is_level d) (filled d) lv in
  match table with
  | Some blocks =>
      match Learn awaiting (FillData blocks d) with
      | Some (_, d) => Some (true, d)
      | None => None
      end
  | None => Some (false, with_flags d (learned_not_atomic d) false)
  end.

(** * FileLearnedIndexData *)

(** The table of the file models: a vector of pointers, null until asked for. *)
Definition FileLearnedIndexData : Type := list (option (LearnedIndexData T)).

Variables (file_model_error level_model_error file_allowed_seek : Z).

(** [GetModel(number)]: grows the vector with null pointers, creates the model
    on first use. *)
Definition GetModel (fd : FileLearnedIndexData) (n : nat)
  : LearnedIndexData T * FileLearnedIndexData :=
  let fd := if (length fd <=? n)%nat then fd ++ replicate (n + 1 - length fd) None else fd in
  match fd !! n with
  | Some (Some m) => (m, fd)
  | _ =>
      let m := newLearnedIndexData file_model_error level_model_error file_allowed_seek false in
      (m, <[n := Some m]> fd)
  end.

(** The methods that work on the model of a file: the object is shared, so what
    they change is stored back in the table. *)
Definition update_model (fd : FileLearnedIndexData) (n : nat) (m : LearnedIndexData T)
  : FileLearnedIndexData := <[n := Some m]> fd.

Definition file_FillData (fd : FileLearnedIndexData) (n : nat) (table : option (list (list bytes)))
  : bool * FileLearnedIndexData :=
  let '(m, fd) := GetModel fd n in
  match table with
  | Some blocks => (true, update_model fd n (FillData blocks m))
  | None => (false, fd)
  end.

Definition file_GetData (fd : FileLearnedIndexData) (n : nat) : list bytes * FileLearnedIndexData :=
  let '(m, fd) := GetModel fd n in (string_keys m, fd).

Definition file_Learned (fd : FileLearnedIndexData) (n : nat) : bool * FileLearnedIndexData :=
  let '(m, fd) := GetModel fd n in
  let '(r, m) := Learned m in (r, update_model fd n m).

Definition file_GetAccumulatedArray (fd : FileLearnedIndexData) (n : nat)
  : AccumulatedNumEntriesArray * FileLearnedIndexData :=
  let '(m, fd) := GetModel fd n in (num_entries_accumulated m, fd).

(** [FileLearnedIndexData::GetPosition] goes to the vector directly: [None]
    also when the entry does not exist. *)
Definition file_GetPosition (fd : FileLearnedIndexData) (key : bytes) (n : nat)
  : option ((Z * Z) * FileLearnedIndexData) :=
  match fd !! n with
  | Some (Some m) =>
      match GetPosition m key with
      | Some (r, m) => Some (r, update_model fd n m)
      | None => None
      end
  | _ => None
  end.

End Model.
