(* ===== verification/LearnedIndexProofs.v ===== *)
(** Correctness of the learned index in exact arithmetic: the interval a model
    predicts for a key it was trained on contains the key's position (file
    models), and the interval a level model predicts for a key inside the range
    of a file contains that file. *)

From Stdlib Require Import QArith Qround Lqa.
From stdpp Require Import base list sorting strings.
From S2P Require Import Prelude ModUtil Logging DbFormat VersionEdit Plr PlrProofs LearnedIndex.

#[local] Open Scope Z_scope.

(** * The search between segments *)

Section Search.
Context {T : Type} `{Arith T}.

Definition starts_sorted (segs : list (Segment T)) : Prop :=
  StronglySorted (fun s s' => seg_x s < seg_x s') segs.

Lemma segment_search_spec (real : list (Segment T)) dummy t fuel : forall left right,
  (left < right <= length real)%nat -> (right - left <= fuel)%nat ->
  (exists s, real !! left = Some s /\ seg_x s <= t) ->
  (forall s, real !! right = Some s -> t < seg_x s) ->
  exists l s, segment_search fuel (real ++ [dummy]) t left right = Some l /\
    real !! l = Some s /\ seg_x s <= t /\ (forall s', real !! S l = Some s' -> t < seg_x s').
Proof.
  induction fuel as [|fuel IH]; intros left right Hlr Hf Hl Hr; [lia|]. cbn [segment_search].
  destruct (Nat.eqb_spec (S left) right) as [<-|Hne].
  { destruct Hl as (s & Hs & Hle). exists left, s. done. }
  set (mid := ((right + left) / 2)%nat).
  assert (Hm : (left < mid < right)%nat).
  { unfold mid. split.
    - apply Nat.div_le_lower_bound; lia.
    - apply Nat.Div0.div_lt_upper_bound. lia. }
  destruct (lookup_lt_is_Some_2 real mid ltac:(lia)) as [s Hs].
  rewrite lookup_app_l, Hs by lia.
  destruct (Z.ltb_spec t (seg_x s)).
  - apply IH; [lia|lia|done|]. intros s' Hs'. congruence.
  - apply IH; [lia|lia|by exists s|done].
Qed.

Lemma seg_for_none_all (segs : list (Segment T)) t :
  Forall (fun s => t < seg_x s) segs -> seg_for segs t = None.
Proof.
  induction 1 as [|s segs Hs _ IH]; simpl; [done|].
  rewrite IH. by replace (seg_x s <=? t) with false by lia.
Qed.

Lemma seg_for_lookup (segs : list (Segment T)) t : forall l s,
  starts_sorted segs -> segs !! l = Some s -> seg_x s <= t ->
  (forall s', segs !! S l = Some s' -> t < seg_x s') -> seg_for segs t = Some s.
Proof.
  induction segs as [|s0 segs IH]; intros l s Hs Hl Hle Hn; [done|].
  apply StronglySorted_inv in Hs as [Hs Hs0]. destruct l as [|l]; simpl in Hl |- *.
  - injection Hl as ->. rewrite seg_for_none_all; [by replace (seg_x s <=? t) with true by lia|].
    destruct segs as [|s1 segs]; [constructor|]. specialize (Hn s1 eq_refl).
    constructor; [done|]. apply StronglySorted_inv in Hs as [_ Hs].
    eapply Forall_impl; [exact Hs|]. simpl. intros. lia.
  - by rewrite (IH l s).
Qed.

(** [GetPosition] uses the last segment that starts at or before the key. *)
Lemma segment_search_seg_for (real : list (Segment T)) dummy t s0 :
  starts_sorted real -> head real = Some s0 -> seg_x s0 <= t ->
  exists l s, segment_search (length (real ++ [dummy])) (real ++ [dummy]) t 0
                (length (real ++ [dummy]) - 1) = Some l /\
    (real ++ [dummy]) !! l = Some s /\ seg_for real t = Some s.
Proof.
  intros Hs Hh Hle. rewrite length_app. simpl. rewrite Nat.add_sub.
  assert (H0 : real !! 0%nat = Some s0) by (by destruct real).
  pose proof (lookup_lt_Some _ _ _ H0).
  destruct (segment_search_spec real dummy t (length real + 1) 0 (length real))
    as (l & s & E & El & Hl & Hn); [lia|lia|by exists s0| |].
  { intros s Hs'. apply lookup_lt_Some in Hs'. lia. }
  exists l, s. split; [done|]. split; [by apply lookup_app_l_Some|].
  by apply (seg_for_lookup real t l).
Qed.
End Search.

Lemma covers_starts_sorted g0 groups segs :
  Forall2 (covers g0) groups segs -> StronglySorted key_lt (concat groups) -> starts_sorted segs.
Proof.
  induction 1 as [|grp s groups segs Hc Hf IH]; intros Hs; [constructor|].
  simpl in Hs. apply StronglySorted_app in Hs as (Hlt & _ & Hs2).
  constructor; [by apply IH|]. apply Forall_forall. intros s' Hs'.
  apply list_elem_of_lookup in Hs' as [i Hi].
  apply Forall2_lookup_r with (i := i) (y := s') in Hf as (grp' & Hg' & Hc'); [|done].
  destruct Hc as [(p0 & r0 & -> & ->) _]. destruct Hc' as [(p1 & r1 & -> & ->) _].
  apply (Hlt p0 p1); [left|]. apply list_elem_of_In, in_concat.
  exists (p1 :: r1). split; [|by left]. apply list_elem_of_In. by eapply list_elem_of_lookup_2.
Qed.

(** * Intervals *)

Lemma Qfloor_bound q z : (q <= inject_Z z)%Q -> Qfloor q <= z.
Proof.
  intros Hq. rewrite Zle_Qle. eapply Qle_trans; [apply Qfloor_le|done].
Qed.

Lemma Qceiling_bound q z : (inject_Z z <= q)%Q -> z <= Qceiling q.
Proof. intros Hq. rewrite Zle_Qle. eapply Qle_trans; [exact Hq|apply Qle_ceiling]. Qed.

Lemma Qfloor_nonneg q : (0 <= q)%Q -> 0 <= Qfloor q.
Proof. intros Hq. change 0%Z with (Qfloor 0%Q). by apply Qfloor_resp_le. Qed.

Lemma Qceiling_upper q z : (q <= inject_Z z)%Q -> Qceiling q <= z.
Proof.
  intros Hq. rewrite <- (Qceiling_Z z). by apply Qceiling_resp_le.
Qed.

(** The rounded interval around a prediction [r] that is within the error of
    the position [n]. *)
Lemma interval_exact (d : LearnedIndexData Q) s t err n r :
  error d = inject_Z err -> 1 <= err -> 0 <= n < size d -> 2 * size d + 4 * err < 2 ^ 64 ->
  (r == (if is_level d then (inject_Z t * seg_k s + seg_b s) / 2
         else inject_Z t * seg_k s + seg_b s))%Q ->
  (inject_Z n <= r + inject_Z err)%Q -> (r - inject_Z err <= inject_Z n)%Q ->
  exists lo up, interval d s t = Some (lo, up) /\ 0 <= lo <= n /\ n <= up < size d /\
    up - lo <= 2 * err + 1.
Proof.
  intros He Herr Hn Hbig Hr Hlo Hup. unfold interval. rewrite He.
  cbn [aadd amul adiv asub afloor aceil ofZ exact].
  set (r' := if is_level d then _ else _).
  assert (Er : (r' == r)%Q) by (unfold r'; rewrite Hr; by destruct (is_level d)).
  clearbody r'. rewrite <- Er in Hlo, Hup. clear Hr Er r.
  set (e := inject_Z err) in *.
  assert (He1 : (1 <= e)%Q) by (unfold e; change 1%Q with (inject_Z 1); by rewrite <- Zle_Qle).
  assert (Hcu : n <= Qceiling (r' + e)) by (by apply Qceiling_bound).
  assert (Hcu2 : Qceiling (r' + e) <= n + 2 * err).
  { apply Qceiling_upper. rewrite inject_Z_plus, inject_Z_mult. fold e.
    change (inject_Z 2) with 2%Q. lra. }
  rewrite (to_uint_inject 64 (Qceiling (r' + e))) by lia.
  destruct (altb (inject_Z 0) (r' - e)%Q) eqn:E.
  - apply altb_exact in E. change (inject_Z 0) with 0%Q in E.
    assert (Hf : Qfloor (r' - e) <= n) by (apply Qfloor_bound; lra).
    assert (Hf0 : 0 <= Qfloor (r' - e)) by (apply Qfloor_nonneg; lra).
    rewrite to_uint_inject by lia. replace (size d <=? Qfloor (r' - e)) with false by lia.
    do 2 eexists. split; [reflexivity|]. split; [lia|].
    assert (Hw : Qceiling (r' + e) - Qfloor (r' - e) < 2 * err + 2).
    { rewrite Zlt_Qlt. unfold Z.sub. rewrite !inject_Z_plus, inject_Z_opp, inject_Z_mult. fold e.
      pose proof (Qlt_floor (r' - e)). pose proof (Qceiling_lt (r' + e)).
      rewrite inject_Z_plus in H. change (inject_Z 1) with 1%Q in H.
      unfold Z.sub in H0. rewrite inject_Z_plus in H0. change (inject_Z (- (1))) with (-1)%Q in H0.
      change (inject_Z 2) with 2%Q. lra. }
    bcase; lia.
  - apply altb_exact_false in E. change (inject_Z 0) with 0%Q in E.
    replace (size d <=? 0) with false by lia.
    do 2 eexists. split; [reflexivity|]. split; [lia|].
    assert (Hw : Qceiling (r' + e) <= 2 * err).
    { apply Qceiling_upper. rewrite inject_Z_mult. fold e. change (inject_Z 2) with 2%Q. lra. }
    bcase; lia.
Qed.

(** * Learning *)

(** The keys of a model as numbers. *)
Definition key_values (keys : list bytes) (vs : list Z) : Prop :=
  Forall2 (fun k v => decimal_key k /\ k <> [] /\ digits_value k = v /\ v < 2 ^ 63) keys vs.

Lemma key_values_nonneg keys vs : key_values keys vs -> Forall (fun v => 0 <= v < 2 ^ 63) vs.
Proof.
  induction 1 as [|k v keys vs (Hd & _ & Hv & Hb)]; constructor; [|done].
  pose proof (digits_value_nonneg k Hd). lia.
Qed.

Lemma key_values_stoull keys vs :
  key_values keys vs -> Forall2 (fun k v => stoull k = Some v) keys vs.
Proof.
  intros Hk. eapply Forall2_impl; [exact Hk|]. simpl. intros k v (Hd & Hne & <- & Hb).
  apply stoull_decimal; [done..|lia].
Qed.

Lemma SliceToInteger_key k v :
  decimal_key k -> digits_value k = v -> v < 2 ^ 63 -> SliceToInteger k = v.
Proof.
  intros Hd <- Hb. rewrite SliceToInteger_decimal by done. apply u64_small.
  pose proof (digits_value_nonneg k Hd). lia.
Qed.

Lemma sorted_head_min v vs n w : StronglySorted Z.lt (v :: vs) -> (v :: vs) !! n = Some w -> v <= w.
Proof.
  intros Hs Hn. apply StronglySorted_inv in Hs as [_ Hs]. destruct n as [|n]; [by injection Hn as ->|].
  rewrite Forall_lookup in Hs. specialize (Hs n w Hn). lia.
Qed.

Lemma sorted_last_max vs v n w : StronglySorted Z.lt (vs ++ [v]) -> (vs ++ [v]) !! n = Some w -> w <= v.
Proof.
  intros Hs Hn. apply StronglySorted_app in Hs as (Hlt & _ & _).
  apply lookup_app_Some in Hn as [Hn|[_ Hn]].
  - apply list_elem_of_lookup_2 in Hn. specialize (Hlt w v Hn ltac:(left)). lia.
  - destruct (n - length vs)%nat as [|[]]; [by injection Hn as ->|done..].
Qed.

(** What [Learn] leaves behind. *)
Record learned_model (d d' : LearnedIndexData Q) (groups : list (list (Z * Z)))
    (vs : list Z) (real : list (Segment Q)) (dummy : Segment Q) : Prop := {
  lm_segments : string_segments d' = real ++ [dummy];
  lm_learned : learned d' = true;
  lm_error : error d' = error d;
  lm_is_level : is_level d' = is_level d;
  lm_keys : string_keys d' = string_keys d;
  lm_size : size d' = blen vs;
  lm_min : Some (min_key d') = head vs;
  lm_max : Some (max_key d') = last vs;
  lm_trained : trained (error d) (negb (is_level d)) vs groups real;
}.

Lemma Learn_exact (d : LearnedIndexData Q) awaiting vs err :
  error d = inject_Z err -> 1 <= err ->
  (is_level d = false \/ forall c, awaiting c = false) ->
  key_values (string_keys d) vs -> StronglySorted Z.lt vs -> blen vs <= 2 ^ 32 ->
  vs <> [] -> vs <> [0] -> (is_level d = true -> Nat.even (length vs) = true) ->
  exists d' groups real dummy, Learn awaiting d = Some (true, d') /\
    learned_model d d' groups vs real dummy.
Proof.
  intros He Herr Haw Hk Hs Hl Hne Hz Hev.
  pose proof (key_values_nonneg _ _ Hk) as Hr.
  assert (Hpos : (0 < error d)%Q).
  { rewrite He. change 0%Q with (inject_Z 0). rewrite <- Zlt_Qlt. lia. }
  destruct (train_exact (error d) Hpos awaiting (negb (is_level d)) (string_keys d) vs)
    as (groups & segs & E & Ht).
  - destruct Haw as [-> | Haw]; [by left|by right].
  - by apply key_values_stoull.
  - done.
  - eapply Forall_impl; [exact Hr|]. simpl. intros. lia.
  - done.
  - done.
  - done.
  - intros Hf. apply Hev. by destruct (is_level d).
  - assert (Hll : length (string_keys d) = length vs) by (eapply Forall2_length, Hk).
    destruct vs as [|v0 vs0] eqn:Ev; [done|]. rewrite <- Ev in *.
    destruct (string_keys d) as [|k0 ks0] eqn:Ek; [by rewrite Ev in Hll|]. rewrite <- Ek in *.
    assert (Hlast : exists kl vl, last (string_keys d) = Some kl /\ last vs = Some vl /\
              decimal_key kl /\ digits_value kl = vl /\ 0 <= vl < 2 ^ 63).
    { destruct (exists_last (l := vs)) as (vi & vl & Evl); [done|]. rewrite Evl in Hk, Hr.
      apply Forall2_app_inv_r in Hk as (ki & kl' & _ & Hkl & Ekl).
      apply Forall2_cons_inv_r in Hkl as (kl & ? & (Hd & _ & Hv & _) & Hnil & ->).
      apply Forall2_nil_inv_r in Hnil as ->. apply Forall_app in Hr as [_ Hr].
      apply Forall_inv in Hr. exists kl, vl. by rewrite Ekl, Evl, !last_snoc. }
    destruct Hlast as (kl & vl & Ekl & Evl & Dl & Vl & Rl).
    assert (Hh : head (string_keys d) = Some k0 /\ head vs = Some v0 /\ decimal_key k0 /\
              digits_value k0 = v0 /\ 0 <= v0 < 2 ^ 63).
    { rewrite Ek, Ev in Hk |- *. apply Forall2_cons in Hk as [(Hd & _ & Hv & _) _].
      rewrite Ev in Hr. by apply Forall_inv in Hr. }
    destruct Hh as (Ekh & Evh & D0 & V0 & R0).
    destruct segs as [|s1 segs'] eqn:Esegs.
    { destruct Ht as (Hcov & Hcat & _). apply Forall2_nil_inv_r in Hcov as ->.
      rewrite Ev in Hcat. done. }
    rewrite <- Esegs in *.
    unfold Learn. rewrite Ekh, Ekl, !atoll_decimal by (done || lia). rewrite Vl, V0.
    rewrite !u64_small by lia. cbn [error string_keys is_level with_bounds]. rewrite E, Esegs.
    rewrite <- Esegs. do 4 eexists. split; [reflexivity|].
    split; simpl; try done. unfold blen. by rewrite Hll.
Qed.

(** * Looking up *)

Lemma covers_head_start g0 groups segs vs v0 :
  Forall2 (covers g0) groups segs -> concat groups = numbered 0 vs -> head vs = Some v0 ->
  exists s0, head segs = Some s0 /\ seg_x s0 = v0.
Proof.
  intros Hcov Hcat Hh. destruct vs as [|v vs]; [done|]. injection Hh as ->.
  destruct Hcov as [|grp s groups segs [(p0 & rest & -> & Hx) _] _]; [done|].
  simpl in Hcat. injection Hcat as -> _. by exists s.
Qed.

Lemma GetPosition_exact d d' groups vs real dummy key t v0 vl s :
  learned_model d d' groups vs real dummy -> StronglySorted Z.lt vs ->
  SliceToInteger key = t -> head vs = Some v0 -> last vs = Some vl -> v0 <= t <= vl ->
  seg_for real t = Some s ->
  GetPosition d' key =
    match interval (with_served d' (i32 (served d' + 1))) s t with
    | Some r => Some (r, with_served d' (i32 (served d' + 1)))
    | None => None
    end.
Proof.
  intros [Hsg _ _ _ _ _ Hmin Hmax (Hcov & Hcat & _)] Hs Ht Hh Hl Hb Hfor.
  rewrite Hh in Hmin. rewrite Hl in Hmax. injection Hmin as Hmin. injection Hmax as Hmax.
  destruct (covers_head_start _ _ _ _ v0 Hcov Hcat Hh) as (s0 & Hs0 & Hx0).
  assert (Hss : starts_sorted real).
  { eapply covers_starts_sorted; [exact Hcov|]. rewrite Hcat. by apply numbered_sorted. }
  destruct (segment_search_seg_for real dummy t s0 Hss Hs0 ltac:(lia)) as (l & s' & E & El & Ef).
  unfold GetPosition. cbn [string_segments with_served max_key min_key]. rewrite Hsg.
  assert (Hlen : 1 < blen (real ++ [dummy])).
  { destruct real; [done|]. rewrite blen_app, !blen_cons, (@blen_nil (Segment Q)).
    pose proof (blen_nonneg real). lia. }
  replace (1 <? blen (real ++ [dummy])) with true by lia. cbn [negb].
  rewrite Ht, Hmin, Hmax.
  replace (vl <? t) with false by lia. replace (t <? v0) with false by lia.
  rewrite E, El. rewrite Hfor in Ef. by injection Ef as <-.
Qed.

Lemma numbered_head_last vs n v : StronglySorted Z.lt vs -> vs !! n = Some v ->
  exists v0 vl, head vs = Some v0 /\ last vs = Some vl /\ v0 <= v <= vl.
Proof.
  intros Hs Hn. destruct vs as [|v0 vs0] eqn:Ev; [done|]. rewrite <- Ev in *.
  destruct (exists_last (l := vs)) as (vi & vl & Evl); [by rewrite Ev|].
  exists v0, vl. split; [by rewrite Ev|]. split; [by rewrite Evl, last_snoc|]. split.
  - rewrite Ev in Hs, Hn. by eapply sorted_head_min.
  - rewrite Evl in Hs, Hn. by eapply sorted_last_max.
Qed.

Lemma key_values_lookup keys vs n k : key_values keys vs -> keys !! n = Some k ->
  exists v, vs !! n = Some v /\ decimal_key k /\ digits_value k = v /\ v < 2 ^ 63.
Proof.
  intros Hk Hn. eapply Forall2_lookup_l in Hk as (v & Hv & Hd & _ & He & Hb); [|exact Hn]. eauto.
Qed.

(** C32: a learned file model finds every key of its file (in exact
    arithmetic).  After the keys of a file, decimal and strictly increasing,
    have been loaded, [Learn] succeeds; from then on [GetPosition] of the key
    at any position [n] returns an interval that contains [n], stays inside the
    file and is at most [2 * error + 1] wider than a point; for a key outside
    the range of the file the lower bound is above [MaxPosition]. *)
Theorem file_model_finds_every_key (d : LearnedIndexData Q) awaiting vs err :
  is_level d = false -> error d = inject_Z err -> 1 <= err ->
  key_values (string_keys d) vs -> StronglySorted Z.lt vs ->
  2 <= blen vs <= 2 ^ 32 -> err < 2 ^ 32 ->
  exists d', Learn awaiting d = Some (true, d') /\ (Learned d').1 = true /\
    (forall n key, string_keys d !! n = Some key ->
       exists lower upper d'', GetPosition d' key = Some ((lower, upper), d'') /\
         0 <= lower <= Z.of_nat n /\ Z.of_nat n <= upper <= MaxPosition d' /\
         upper - lower <= 2 * err + 1) /\
    (forall key, SliceToInteger key < min_key d' \/ max_key d' < SliceToInteger key ->
       exists lower upper d'', GetPosition d' key = Some ((lower, upper), d'') /\
         MaxPosition d' < lower).
Proof.
  intros Hlv He Herr Hk Hs Hl Hle.
  assert (Hne : vs <> [] /\ vs <> [0]) by (split; intros ->; unfold blen in Hl; simpl in Hl; lia).
  destruct (Learn_exact d awaiting vs err) as (d' & groups & real & dummy & E & Hm);
    try tauto; [congruence|].
  exists d'. split; [done|]. pose proof Hm as [Hsg Hld Her Hil Hks Hsz Hmin Hmax Htr].
  assert (Hmp : MaxPosition d' = blen vs - 1).
  { unfold MaxPosition. rewrite Hsz. apply u64_small. lia. }
  split; [unfold Learned; destruct (learned_not_atomic d'); [done|]; by rewrite Hld|].
  split.
  - intros n key Hn. destruct (key_values_lookup _ _ n key Hk Hn) as (v & Hv & Hd & Hdv & Hb).
    rewrite Hlv in Htr. destruct (trained_lookup _ _ _ _ _ n v Htr Hs Hv) as (s & Hf & Hw).
    destruct (numbered_head_last vs n v Hs Hv) as (v0 & vl & Hh & Hlst & Hbd).
    rewrite (GetPosition_exact d d' groups vs real dummy key v v0 vl s Hm Hs) by
      (done || by apply SliceToInteger_key).
    unfold within in Hw. simpl in Hw. rewrite He in Hw. apply lookup_lt_Some in Hv.
    destruct (interval_exact (with_served d' (i32 (served d' + 1))) s v err (Z.of_nat n)
      (inject_Z v * seg_k s + seg_b s)) as (lo & up & -> & Hlo & Hup & Hwd);
      simpl; try rewrite Hsz; try rewrite Hil, Hlv; try (unfold blen in *; lia); try lra;
      [congruence|].
    do 3 eexists. split; [reflexivity|]. rewrite Hmp. simpl in Hup. rewrite Hsz in Hup. lia.
  - intros key Hout. unfold GetPosition. cbn [string_segments with_served max_key min_key].
    rewrite Hsg. assert (Hlen : 1 < blen (real ++ [dummy])).
    { destruct Htr as (Hcov & Hcat & _). destruct Hcov; [by destruct vs; [destruct Hne|]|].
      rewrite blen_app, !blen_cons, (@blen_nil (Segment Q)). pose proof (blen_nonneg l'). lia. }
    replace (1 <? blen (real ++ [dummy])) with true by lia. cbn [negb].
    destruct (Z.ltb_spec (max_key d') (SliceToInteger key)).
    + do 3 eexists. split; [reflexivity|]. simpl. lia.
    + replace (SliceToInteger key <? min_key d') with true by lia.
      do 3 eexists. split; [reflexivity|]. simpl. lia.
Qed.

Lemma file_model_finds_every_key_witness :
  let d := with_keys (newLearnedIndexData (T := Q) 10 1 10 false)
             [str "05"%string; str "06"%string; str "90"%string] in
  exists d', Learn (fun _ => true) d = Some (true, d') /\ (Learned d').1 = true /\
    (forall n key, string_keys d !! n = Some key ->
       exists lower upper d'', GetPosition d' key = Some ((lower, upper), d'') /\
         0 <= lower <= Z.of_nat n /\ Z.of_nat n <= upper <= MaxPosition d' /\
         upper - lower <= 2 * 10 + 1) /\
    (forall key, SliceToInteger key < min_key d' \/ max_key d' < SliceToInteger key ->
       exists lower upper d'', GetPosition d' key = Some ((lower, upper), d'') /\
         MaxPosition d' < lower).
Proof.
  apply (file_model_finds_every_key _ _ [5; 6; 90] 10);
    [reflexivity|reflexivity|lia| | |vm_compute; split; discriminate|lia].
  - repeat (apply Forall2_cons; split;
      [split; [repeat (apply Forall_cons; split; [reflexivity|]); apply Forall_nil_2|];
       split; [discriminate|]; split; [vm_compute; reflexivity|lia]|]).
    apply Forall2_nil_2.
  - repeat (apply SSorted_cons; [|repeat (apply Forall_cons; split; [lia|]); apply Forall_nil_2]).
    apply SSorted_nil.
Defined.

(** * Level models *)

Lemma group_of_pair (groups : list (list (Z * Z))) : forall n p q,
  Forall (fun grp => Nat.even (length grp) = true) groups -> Nat.even n = true ->
  concat groups !! n = Some p -> concat groups !! S n = Some q ->
  exists grp, grp ∈ groups /\ p ∈ grp /\ q ∈ grp.
Proof.
  induction groups as [|grp groups IH]; intros n p q Hev Hn Hp Hq; simpl in Hp, Hq; [done|].
  apply Forall_cons_1 in Hev as [Hg Hev].
  destruct (decide (n < length grp)%nat) as [Hlt|Hge].
  - assert (S n < length grp)%nat.
    { destruct (decide (S n = length grp)) as [E|]; [|lia].
      rewrite <- E, Nat.even_succ, <- Nat.negb_even, Hn in Hg. done. }
    rewrite lookup_app_l in Hp, Hq by lia. exists grp. split; [left|].
    split; by eapply list_elem_of_lookup_2.
  - rewrite lookup_app_r in Hp, Hq by lia.
    replace (S n - length grp)%nat with (S (n - length grp)) in Hq by lia.
    destruct (IH (n - length grp)%nat p q Hev) as (grp' & Hin & Hpq); [|done..|].
    + rewrite Nat.even_sub by lia. by rewrite Hn, Hg.
    + exists grp'. split; [by right|done].
Qed.

Lemma numbered_lookup_eq vs : forall i n v, vs !! n = Some v ->
  numbered i vs !! n = Some (v, i + Z.of_nat n).
Proof.
  induction vs as [|w vs IH]; intros i [|n] v; simpl; [done..| |].
  - intros [= ->]. by rewrite Z.add_0_r.
  - intros Hn. rewrite (IH _ _ v Hn). do 2 f_equal. lia.
Qed.

(** Between the two points of a pair the segment stays between the positions,
    up to the error: it is a straight line. *)
Lemma trained_between g0 vs groups segs j lo hi t :
  trained g0 false vs groups segs -> StronglySorted Z.lt vs ->
  vs !! (2 * j)%nat = Some lo -> vs !! S (2 * j) = Some hi -> lo <= t <= hi ->
  exists s, seg_for segs t = Some s /\
    (2 * inject_Z (Z.of_nat j) - g0 <= inject_Z t * seg_k s + seg_b s
       <= 2 * inject_Z (Z.of_nat j) + 1 + g0)%Q.
Proof.
  intros (Hcov & Hcat & Hpk) Hs Hlo Hhi Ht.
  pose proof (numbered_lookup_eq vs 0 _ _ Hlo) as Elo.
  pose proof (numbered_lookup_eq vs 0 _ _ Hhi) as Ehi. rewrite <- Hcat in Elo, Ehi.
  destruct (group_of_pair groups (2 * j) _ _ (Hpk eq_refl) (Nat.even_even j) Elo Ehi)
    as (grp & Hg & Hp & Hq).
  assert (Hsc : StronglySorted key_lt (concat groups)) by (rewrite Hcat; by apply numbered_sorted).
  destruct (seg_for_group g0 groups segs grp _ _ t Hcov Hsc Hg Hp Hq) as (s & E & [_ Hw]);
    [simpl; lia|].
  exists s. split; [done|]. rewrite Forall_forall in Hw.
  pose proof (Hw _ Hp) as [W1 W2]. pose proof (Hw _ Hq) as [W3 W4].
  assert (0 + Z.of_nat (2 * j) = Z.of_nat j + Z.of_nat j) as Ej by lia.
  assert (0 + Z.of_nat (S (2 * j)) = Z.of_nat j + Z.of_nat j + 1) as Ej' by lia.
  rewrite Ej in W1, W2. rewrite Ej' in W3, W4. simpl in W1, W2, W3, W4.
  rewrite inject_Z_plus in W1, W2, W3, W4. rewrite inject_Z_plus in W3, W4. change (inject_Z 1) with 1%Q in *.
  destruct Ht as [T1 T2]. rewrite Zle_Qle in T1, T2.
  set (J := inject_Z (Z.of_nat j)) in *. set (k := seg_k s) in *.
  destruct (Qlt_le_dec k 0) as [Hk|Hk].
  - assert (k * inject_Z hi <= k * inject_Z t)%Q by nra.
    assert (k * inject_Z t <= k * inject_Z lo)%Q by nra. lra.
  - assert (k * inject_Z t <= k * inject_Z hi)%Q by nra.
    assert (k * inject_Z lo <= k * inject_Z t)%Q by nra. lra.
Qed.

(** * From positions of a level to files *)

Definition counts_increasing (array : list (Z * bytes)) : Prop :=
  StronglySorted (fun p q : Z * bytes => p.1 < q.1) array /\ Forall (fun p => 0 < p.1 < 2 ^ 64) array.

(** The number of entries before a file. *)
Definition base (array : list (Z * bytes)) (f : nat) : Z :=
  match f with O => 0 | S i => first array i end.

Lemma first_lt array i j : counts_increasing array -> (i < j < length array)%nat ->
  first array i < first array j.
Proof.
  intros [Hs _] [Hij Hj]. unfold first.
  destruct (lookup_lt_is_Some_2 array i ltac:(lia)) as [p Hp].
  destruct (lookup_lt_is_Some_2 array j Hj) as [q Hq]. rewrite Hp, Hq.
  revert i j p q Hp Hq Hij Hj. induction Hs as [|r array Hs IH Hr]; intros i j p q Hp Hq Hij Hj; [done|].
  destruct j as [|j]; [lia|]. destruct i as [|i]; simpl in *.
  - injection Hp as ->. rewrite Forall_lookup in Hr. by apply (Hr j).
  - apply (IH i j); [done..|lia|lia].
Qed.

Lemma first_range array i : counts_increasing array -> (i < length array)%nat ->
  0 < first array i < 2 ^ 64.
Proof.
  intros [_ Hr] Hi. unfold first. destruct (lookup_lt_is_Some_2 array i Hi) as [p Hp]. rewrite Hp.
  rewrite Forall_lookup in Hr. by apply (Hr i).
Qed.

Lemma accumulated_loop_spec array lower : counts_increasing array -> forall fuel left right,
  (left <= right < length array)%nat -> (right - left < fuel)%nat ->
  (forall i, (i < left)%nat -> first array i <= lower) ->
  (right = (length array - 1)%nat \/ lower < first array right) ->
  let r := search_loop fuel array lower left right in
  (r < length array)%nat /\ (forall i, (i < r)%nat -> first array i <= lower) /\
  (r = (length array - 1)%nat \/ lower < first array r).
Proof.
  intros Hc fuel. induction fuel as [|fuel IH]; intros left right Hlr Hf Hl Hr; [lia|].
  cbn [search_loop]. destruct (Nat.ltb_spec left right) as [Hlt|Hge].
  2:{ replace right with left in * by lia. split; [lia|]. done. }
  set (mid := ((left + right) / 2)%nat).
  assert (Hm : (left <= mid < right)%nat).
  { unfold mid. split; [apply Nat.div_le_lower_bound; lia|apply Nat.Div0.div_lt_upper_bound; lia]. }
  destruct (Z.ltb_spec lower (first array mid)) as [Hlm|Hlm].
  - apply IH; [lia|lia|done|by right].
  - apply IH; [lia|lia| |done]. intros i Hi. destruct (decide (i = mid)) as [->|]; [done|].
    pose proof (first_lt array i mid Hc ltac:(lia)). lia.
Qed.

Lemma scan_files_spec key array f : forall k lower,
  (k <= f < length array)%nat ->
  (forall i p, array !! i = Some p -> (k <= i < f)%nat -> op_le key p.2 = false) ->
  (forall p, array !! f = Some p -> op_le key p.2 = true) ->
  scan_files key (drop k array) k lower = Some (f, if (k =? f)%nat then lower else base array f).
Proof.
  intros k. remember (f - k)%nat as n eqn:En. revert k En.
  induction n as [|n IH]; intros k En lower Hk Hno Hyes.
  - replace k with f by lia. rewrite Nat.eqb_refl.
    destruct (lookup_lt_is_Some_2 array f ltac:(lia)) as [[c l] Hp].
    rewrite (drop_S _ (c, l)) by done. simpl. by rewrite (Hyes _ Hp : op_le key l = true).
  - destruct (lookup_lt_is_Some_2 array k ltac:(lia)) as [[c l] Hp].
    rewrite (drop_S _ (c, l)) by done. simpl.
    rewrite (Hno k _ Hp ltac:(lia) : op_le key l = false).
    rewrite (IH (S k)); [|lia|lia|intros i p Hi ?; apply (Hno i p Hi); lia|done].
    replace (k =? f)%nat with false by (symmetry; apply Nat.eqb_neq; lia).
    destruct (Nat.eqb_spec (S k) f) as [<-|]; [|done]. simpl. unfold first. by rewrite Hp.
Qed.

Lemma relative_base array f v : 0 <= base array f <= v -> v < 2 ^ 64 ->
  relative array f v = v - base array f.
Proof. intros Hb Hv. destruct f as [|f]; simpl in *; [lia|]. apply u64_small. lia. Qed.

(** [AccumulatedNumEntriesArray::Search] turns an interval of positions of
    a level into the file that holds the key.  If the key is entry [p] of the
    level, in file [f], and the interval contains [p], the search returns [f]
    and an interval of positions relative to the file that contains the
    position of the key and does not leave the file. *)
Theorem accumulated_search_correct MOD array key lower upper f p :
  MOD <> 4 -> counts_increasing array -> (f < length array)%nat ->
  base array f <= p < first array f ->
  (forall i e, array !! i = Some e -> (i < f)%nat -> op_le key e.2 = false) ->
  (forall e, array !! f = Some e -> op_le key e.2 = true) ->
  0 <= lower <= p -> p <= upper < 2 ^ 64 ->
  exists rl ru, Search MOD array key lower upper = Some (f, rl, ru) /\
    0 <= rl <= p - base array f /\ p - base array f <= ru < first array f - base array f.
Proof.
  intros Hm Hc Hf Hp Hno Hyes Hlo Hup. unfold Search. replace (MOD =? 4) with false by lia.
  destruct (accumulated_loop_spec array lower Hc (length array) 0 (length array - 1))
    as (Hl & Hbefore & Hlast); [lia|lia|lia|by left|].
  set (l := search_loop _ _ _ _ _) in *.
  assert (Hlf : (l <= f)%nat).
  { destruct (decide (l <= f)%nat); [done|]. specialize (Hbefore f ltac:(lia)). lia. }
  assert (Hb0 : 0 <= base array f).
  { destruct f as [|i]; simpl; [lia|]. pose proof (first_range array i Hc ltac:(lia)). lia. }
  destruct (Z.leb_spec (first array l) upper) as [Hge|Hlt].
  - rewrite (scan_files_spec key array f l lower) by (done || lia ||
      (intros i e Hi ?; apply (Hno i e Hi); lia)).
    assert (Hbl : base array f <= (if (l =? f)%nat then lower else base array f) <= p).
    { destruct (Nat.eqb_spec l f) as [E|]; [|lia]. split; [|lia].
      destruct f as [|i]; simpl in *; [lia|]. apply Hbefore. lia. }
    pose proof (first_range array f Hc Hf). rewrite (u64_small (first array f - 1)) by lia.
    do 2 eexists. split; [reflexivity|]. rewrite !relative_base by lia. lia.
  - assert (l = f) as ->.
    { destruct (decide (l = f)); [done|]. pose proof (first_lt array l f Hc ltac:(lia)).
      assert (first array l <= base array f); [|lia].
      destruct f as [|i]; [lia|]. simpl. destruct (decide (l = i)) as [->|]; [lia|].
      pose proof (first_lt array l i Hc ltac:(lia)). lia. }
    assert (base array f <= lower).
    { destruct f as [|i]; simpl in *; [lia|]. apply Hbefore. lia. }
    do 2 eexists. split; [reflexivity|]. rewrite !relative_base by lia. lia.
Qed.

Lemma accumulated_search_correct_witness :
  let array := Add (Add [] 4 (str "19"%string)) 9 (str "55"%string) in
  exists rl ru, Search 5 array (str "40"%string) 2 7 = Some (1%nat, rl, ru) /\
    0 <= rl <= 6 - base array 1 /\ 6 - base array 1 <= ru < first array 1 - base array 1.
Proof.
  intros array. apply (accumulated_search_correct 5 array (str "40"%string) 2 7 1 6).
  - lia.
  - split.
    + apply SSorted_cons; [apply SSorted_cons; [apply SSorted_nil|apply Forall_nil_2]|].
      apply Forall_cons; split; [simpl; lia|apply Forall_nil_2].
    + repeat (apply Forall_cons; split; [simpl; lia|]). apply Forall_nil_2.
  - simpl. lia.
  - simpl. unfold first. simpl. lia.
  - intros i e Hi Hlt. destruct i as [|i]; [|lia]. simpl in Hi. injection Hi as <-.
    vm_compute. reflexivity.
  - intros e He. simpl in He. injection He as <-. vm_compute. reflexivity.
  - lia.
  - lia.
Defined.

(** * What rounding does

    In binary64 two keys above 2^53 may become the same number.  Training then
    divides by zero, the segment has no number for a slope, and the conversion
    of the predicted bounds is undefined, for keys the model was trained on. *)
Definition close_keys : list bytes := [str "9007199254740992"%string; str "9007199254740993"%string].

Theorem binary64_close_keys_undefined :
  exists d', Learn (fun _ => false)
      (with_keys (newLearnedIndexData (T := double) 10 1 10 false) close_keys) = Some (true, d') /\
    Forall (fun k => GetPosition d' k = None) close_keys.
Proof.
  eexists. split; [vm_compute; reflexivity|].
  repeat (apply Forall_cons; split; [vm_compute; reflexivity|]). apply Forall_nil_2.
Qed.
