(* ===== verification/Version.v ===== *)
(** db/version_set.h and db/version_set.cc, class [Version]: the files of one
    state of the database and the searches over them: which file of a level may
    hold a key, which files overlap a range, where a new file may be put. *)

From stdpp Require Import base list sorting strings.
From S2P Require Import Prelude Status Coding Comparator Logging DbFormat VersionEdit.

#[local] Open Scope Z_scope.

(** * The file set of a version *)

Record Version := mkVersion {
  files_ : list (list FileMetaData);
  file_to_compact_ : option FileMetaData;
  file_to_compact_level_ : Z;
  compaction_score_ : Z * Z;
  compaction_level_ : Z;
}.

(** [files_[level]] *)
Definition level_files (v : Version) (level : nat) : list FileMetaData := nth level (files_ v) [].

(** The sum is an [int64_t]. *)
Definition TotalFileSize (files : list FileMetaData) : Z :=
  fold_left (fun sum f => i64 (sum + file_size f)) files 0.

(** The options the version set reads: [max_file_size]. *)
Definition TargetFileSize (max_file_size : Z) : Z := max_file_size.
Definition MaxGrandParentOverlapBytes (max_file_size : Z) : Z := 10 * TargetFileSize max_file_size.
Definition ExpandedCompactionByteSizeLimit (max_file_size : Z) : Z :=
  25 * TargetFileSize max_file_size.
Definition MaxFileSizeForLevel (max_file_size : Z) (level : Z) : Z := TargetFileSize max_file_size.

(** [MaxBytesForLevel]: a [double] in the source; the values for the levels
    that exist are integers below 2^53 and exact. *)
Fixpoint MaxBytesForLevel (level : nat) : Z :=
  match level with
  | S (S _ as l) => 10 * MaxBytesForLevel l
  | _ => 10 * 1048576
  end.

Section Version.
Context (user_comparator_ : Comparator).
#[local] Abbreviation icmp := (InternalKey_Compare user_comparator_).
#[local] Abbreviation ucmp := (@Compare user_comparator_).

Definition smallest_user (f : FileMetaData) : bytes := ExtractUserKey (smallest f).
Definition largest_user (f : FileMetaData) : bytes := ExtractUserKey (largest f).

(** * Searching a sorted level *)

(** [FindFile]: the binary search; the fuel is the number of files. *)
Fixpoint FindFile_loop (fuel : nat) (files : list FileMetaData) (key : bytes) (left right : nat)
  : nat :=
  match fuel with
  | O => right
  | S fuel' =>
      if (left <? right)%nat then
        let mid := ((left + right) / 2)%nat in
        match files !! mid with
        | None => right
        | Some f =>
            if icmp (largest f) key <? 0 then FindFile_loop fuel' files key (S mid) right
            else FindFile_loop fuel' files key left mid
        end
      else right
  end.

Definition FindFile (files : list FileMetaData) (key : bytes) : nat :=
  FindFile_loop (S (length files)) files key 0 (length files).

(** A null pointer is [None]. *)
Definition AfterFile (user_key : option bytes) (f : FileMetaData) : bool :=
  match user_key with
  | Some k => 0 <? ucmp k (largest_user f)
  | None => false
  end.

Definition BeforeFile (user_key : option bytes) (f : FileMetaData) : bool :=
  match user_key with
  | Some k => ucmp k (smallest_user f) <? 0
  | None => false
  end.

Definition SomeFileOverlapsRange (disjoint_sorted_files : bool) (files : list FileMetaData)
    (smallest_user_key largest_user_key : option bytes) : bool :=
  if negb disjoint_sorted_files then
    existsb (fun f => negb (AfterFile smallest_user_key f || BeforeFile largest_user_key f)) files
  else
    let index :=
      match smallest_user_key with
      | Some k => FindFile files (mkInternalKey k kMaxSequenceNumber kValueTypeForSeek)
      | None => 0%nat
      end in
    match files !! index with
    | None => false
    | Some f => negb (BeforeFile largest_user_key f)
    end.

Definition OverlapInLevel (v : Version) (level : nat) (s l : option bytes) : bool :=
  SomeFileOverlapsRange (0 <? level)%nat (level_files v level) s l.

(** * [LevelFileNumIterator]: the iterator over the files of a level *)

Record LevelFileNumIterator := mkLevelIter { flist_ : list FileMetaData; index_ : nat }.

Definition newLevelFileNumIterator (flist : list FileMetaData) : LevelFileNumIterator :=
  mkLevelIter flist (length flist).
Definition lf_Valid (it : LevelFileNumIterator) : bool := (index_ it <? length (flist_ it))%nat.
Definition lf_Seek (it : LevelFileNumIterator) (target : bytes) : LevelFileNumIterator :=
  mkLevelIter (flist_ it) (FindFile (flist_ it) target).
Definition lf_SeekToFirst (it : LevelFileNumIterator) : LevelFileNumIterator :=
  mkLevelIter (flist_ it) 0.
Definition lf_SeekToLast (it : LevelFileNumIterator) : LevelFileNumIterator :=
  mkLevelIter (flist_ it) (match flist_ it with [] => 0 | _ => length (flist_ it) - 1 end)%nat.
Definition lf_Next (it : LevelFileNumIterator) : LevelFileNumIterator :=
  mkLevelIter (flist_ it) (S (index_ it)).
Definition lf_Prev (it : LevelFileNumIterator) : LevelFileNumIterator :=
  mkLevelIter (flist_ it) (match index_ it with O => length (flist_ it) | S i => i end).
Definition lf_key (it : LevelFileNumIterator) : option bytes :=
  match flist_ it !! index_ it with Some f => Some (largest f) | None => None end.
Definition lf_value (it : LevelFileNumIterator) : option bytes :=
  match flist_ it !! index_ it with
  | Some f => Some (EncodeFixed64 (number f) ++ EncodeFixed64 (file_size f))
  | None => None
  end.

(** * Files that overlap a range *)

(** One pass over the files of the level: the files collected, or, in level 0,
    the extended range with which the search starts again. *)
Fixpoint overlap_pass (level0 : bool) (files : list FileMetaData) (user_begin user_end : option bytes)
    (inputs : list FileMetaData) : list FileMetaData + (option bytes * option bytes) :=
  match files with
  | [] => inl inputs
  | f :: rest =>
      let file_start := smallest_user f in
      let file_limit := largest_user f in
      if (match user_begin with Some b => ucmp file_limit b <? 0 | None => false end)
      then overlap_pass level0 rest user_begin user_end inputs
      else if (match user_end with Some e => 0 <? ucmp file_start e | None => false end)
      then overlap_pass level0 rest user_begin user_end inputs
      else
        if level0 && (match user_begin with Some b => ucmp file_start b <? 0 | None => false end)
        then inr (Some file_start, user_end)
        else if level0 && (match user_end with Some e => 0 <? ucmp file_limit e | None => false end)
        then inr (user_begin, Some file_limit)
        else overlap_pass level0 rest user_begin user_end (inputs ++ [f])
  end.

(** [GetOverlappingInputs]: a search starts again only after the range grew to
    the bound of a further file, at most twice per file; [None] when the fuel
    ends, which does not happen ([GetOverlappingInputs_total]). *)
Fixpoint overlap_loop (fuel : nat) (level0 : bool) (files : list FileMetaData)
    (user_begin user_end : option bytes) : option (list FileMetaData) :=
  match fuel with
  | O => None
  | S fuel' =>
      match overlap_pass level0 files user_begin user_end [] with
      | inl inputs => Some inputs
      | inr (b, e) => overlap_loop fuel' level0 files b e
      end
  end.

Definition GetOverlappingInputs (v : Version) (level : nat) (begin_ end_ : option bytes)
  : option (list FileMetaData) :=
  let files := level_files v level in
  overlap_loop (S (2 * length files)) (level =? 0)%nat files
    (ExtractUserKey <$> begin_) (ExtractUserKey <$> end_).

(** * Where the output of a memtable goes *)

Fixpoint pick_level_loop (fuel : nat) (max_file_size : Z) (v : Version) (s l : bytes) (level : nat)
  : option nat :=
  match fuel with
  | O => None
  | S fuel' =>
      if Z.of_nat level <? kMaxMemCompactLevel then
        if OverlapInLevel v (S level) (Some s) (Some l) then Some level
        else
          let start := mkInternalKey s kMaxSequenceNumber kValueTypeForSeek in
          let limit := mkInternalKey l 0 kTypeDeletion in
          if Z.of_nat level + 2 <? kNumLevels then
            match GetOverlappingInputs v (level + 2) (Some start) (Some limit) with
            | None => None
            | Some overlaps =>
                if MaxGrandParentOverlapBytes max_file_size <? TotalFileSize overlaps
                then Some level
                else pick_level_loop fuel' max_file_size v s l (S level)
            end
          else pick_level_loop fuel' max_file_size v s l (S level)
      else Some level
  end.

Definition PickLevelForMemTableOutput (max_file_size : Z) (v : Version)
    (smallest_user_key largest_user_key : bytes) : option nat :=
  if negb (OverlapInLevel v 0 (Some smallest_user_key) (Some largest_user_key))
  then pick_level_loop 3 max_file_size v smallest_user_key largest_user_key 0
  else Some 0%nat.

(** * The order in which files are searched for a key *)

Definition NewestFirst (a b : FileMetaData) : bool := number b <? number a.

(** [std::sort] with [NewestFirst], as insertion: the numbers of the files of
    a level are distinct, so the sorted order is unique. *)
Fixpoint insert_newest (f : FileMetaData) (l : list FileMetaData) : list FileMetaData :=
  match l with
  | [] => [f]
  | g :: l' => if NewestFirst f g then f :: l else g :: insert_newest f l'
  end.
Definition sort_newest (l : list FileMetaData) : list FileMetaData :=
  fold_left (fun acc f => insert_newest f acc) l [].

Definition in_range (user_key : bytes) (f : FileMetaData) : bool :=
  (0 <=? ucmp user_key (smallest_user f)) && (ucmp user_key (largest_user f) <=? 0).

(** Level 0: all the files whose range holds the key, newest first. *)
Definition level0_files (files : list FileMetaData) (user_key : bytes) : list FileMetaData :=
  sort_newest (List.filter (in_range user_key) files).

(** Other levels, the baseline path: at most one file. *)
Definition find_in_level (files : list FileMetaData) (user_key ikey : bytes)
  : option FileMetaData :=
  match files !! FindFile files ikey with
  | Some f => if ucmp user_key (smallest_user f) <? 0 then None else Some f
  | None => None
  end.

(** The files [ForEachOverlapping] visits, in order. *)
Definition overlapping_files (v : Version) (user_key internal_key : bytes)
  : list (nat * FileMetaData) :=
  map (pair 0%nat) (level0_files (level_files v 0) user_key) ++
  concat (map (fun level =>
    match find_in_level (level_files v level) user_key internal_key with
    | Some f => [(level, f)]
    | None => []
    end) (seq 1 (Z.to_nat kNumLevels - 1))).

(** [ForEachOverlapping(user_key, internal_key, arg, func)]: [func] says whether
    to go on. *)
Fixpoint for_each {S} (func : S -> nat -> FileMetaData -> bool * S)
    (l : list (nat * FileMetaData)) (arg : S) : S :=
  match l with
  | [] => arg
  | (level, f) :: l' =>
      let '(go_on, arg) := func arg level f in
      if go_on then for_each func l' arg else arg
  end.

Definition ForEachOverlapping {S} (v : Version) (user_key internal_key : bytes)
    (func : S -> nat -> FileMetaData -> bool * S) (arg : S) : S :=
  for_each func (overlapping_files v user_key internal_key) arg.

(** * Seek statistics *)

(** [GetStats]: the file to charge and its level. *)
Definition GetStats : Type := option (FileMetaData * nat).

(** [f->allowed_seeks--] on the shared file object. *)
Definition charge_seek (n : Z) (f : FileMetaData) : FileMetaData :=
  if number f =? n
  then mkFileMetaData (refs f) (i32 (allowed_seeks f - 1)) (number f) (file_size f)
         (smallest f) (largest f) (num_keys f)
  else f.

Definition UpdateStats (v : Version) (stats : GetStats) : bool * Version :=
  match stats with
  | None => (false, v)
  | Some (f, level) =>
      let f' := charge_seek (number f) f in
      let v' := mkVersion (map (map (charge_seek (number f))) (files_ v))
                  (charge_seek (number f) <$> file_to_compact_ v)
                  (file_to_compact_level_ v) (compaction_score_ v) (compaction_level_ v) in
      match file_to_compact_ v with
      | None =>
          if allowed_seeks f' <=? 0
          then (true, mkVersion (files_ v') (Some f') (Z.of_nat level)
                        (compaction_score_ v) (compaction_level_ v))
          else (false, v')
      | Some _ => (false, v')
      end
  end.

(** [RecordReadSample]: the first of at least two files that overlap the key is
    charged. *)
Definition match_file (st : GetStats * Z) (level : nat) (f : FileMetaData)
  : bool * (GetStats * Z) :=
  let matches := st.2 + 1 in
  let stats := if matches =? 1 then Some (f, level) else st.1 in
  (matches <? 2, (stats, matches)).

Definition RecordReadSample (v : Version) (internal_key : bytes) : bool * Version :=
  match ParseInternalKey internal_key with
  | None => (false, v)
  | Some ikey =>
      let '(stats, matches) :=
        ForEachOverlapping v (user_key ikey) internal_key match_file (None, 0) in
      if 2 <=? matches then UpdateStats v stats else (false, v)
  end.

(** * Sorted levels *)

Context `{!@ComparatorOk user_comparator_}.

#[local] Instance icmp_total : TotalCompare icmp.
Proof. split; [apply icmp_antisym; exact _|apply icmp_le_trans; exact _]. Qed.
#[local] Instance ucmp_total : TotalCompare ucmp := Compare_total.

(** A file covers a range: its smallest key is not above its largest. *)
Definition file_wf (f : FileMetaData) : Prop := icmp (smallest f) (largest f) <= 0.

(** The files of a level above 0: disjoint and in increasing order.  The versions of
    a user key may be spread over neighbouring files. *)
Definition disjoint_sorted (files : list FileMetaData) : Prop :=
  Forall file_wf files /\
  StronglySorted (fun f g => icmp (largest f) (smallest g) < 0) files.

Lemma file_wf_user f : file_wf f -> ucmp (smallest_user f) (largest_user f) <= 0.
Proof. unfold file_wf. rewrite icmp_le by exact _. unfold smallest_user, largest_user. lia. Qed.

Lemma disjoint_largest files i j f g :
  disjoint_sorted files -> files !! i = Some f -> files !! j = Some g -> (i < j)%nat ->
  icmp (largest f) (smallest g) < 0.
Proof.
  intros [_ Hs] Hi Hj Hij. revert i j Hi Hj Hij.
  induction Hs as [|h files Hs IH Hh]; intros i j Hi Hj Hij; [done|].
  destruct j as [|j]; [lia|]. simpl in Hj. destruct i as [|i]; simpl in Hi.
  - injection Hi as ->. rewrite Forall_forall in Hh. apply Hh. by eapply list_elem_of_lookup_2.
  - apply (IH i j); [done..|lia].
Qed.

Lemma disjoint_wf files i f : disjoint_sorted files -> files !! i = Some f -> file_wf f.
Proof. intros [Hw _] Hi. rewrite Forall_lookup in Hw. by eapply Hw. Qed.

(** Largest keys increase along the level. *)
Lemma disjoint_largest_lt files i j f g :
  disjoint_sorted files -> files !! i = Some f -> files !! j = Some g -> (i < j)%nat ->
  icmp (largest f) (largest g) < 0.
Proof.
  intros Hd Hi Hj Hij. eapply (tc_lt_le_trans icmp); [by eapply disjoint_largest|]. by eapply disjoint_wf.
Qed.

(** * [FindFile] *)

(** The earliest file whose largest key is at or after the key. *)
Definition find_file_spec (files : list FileMetaData) (key : bytes) (r : nat) : Prop :=
  (r <= length files)%nat /\
  (forall i f, files !! i = Some f -> (i < r)%nat -> icmp (largest f) key < 0) /\
  (forall i f, files !! i = Some f -> (r <= i)%nat -> icmp key (largest f) <= 0).

Lemma FindFile_loop_spec files key : disjoint_sorted files -> forall fuel left right,
  (left <= right <= length files)%nat -> (right - left < fuel)%nat ->
  (forall i f, files !! i = Some f -> (i < left)%nat -> icmp (largest f) key < 0) ->
  (forall i f, files !! i = Some f -> (right <= i)%nat -> icmp key (largest f) <= 0) ->
  find_file_spec files key (FindFile_loop fuel files key left right).
Proof.
  intros Hd fuel. induction fuel as [|fuel IH]; intros left right Hlr Hf Hl Hr; [lia|].
  cbn [FindFile_loop]. destruct (Nat.ltb_spec left right) as [Hlt|Hge].
  2:{ replace right with left in * by lia. by split; [lia|]. }
  set (mid := ((left + right) / 2)%nat).
  assert (Hm : (left <= mid < right)%nat).
  { unfold mid. split; [apply Nat.div_le_lower_bound; lia|apply Nat.Div0.div_lt_upper_bound; lia]. }
  destruct (lookup_lt_is_Some_2 files mid ltac:(lia)) as [f Hfm]. rewrite Hfm.
  destruct (Z.ltb_spec (icmp (largest f) key) 0) as [Hc|Hc].
  - apply IH; [lia|lia| |done]. intros i g Hg Hi.
    destruct (decide (i = mid)) as [->|Hne]; [congruence|].
    destruct (decide (i < left)%nat); [by eapply Hl|].
    eapply (tc_lt_trans icmp); [|exact Hc]. eapply disjoint_largest_lt; [done..|lia].
  - apply IH; [lia|lia|done|]. intros i g Hg Hi.
    assert (Hk : icmp key (largest f) <= 0).
    { apply (tc_flip_le icmp). lia. }
    destruct (decide (i = mid)) as [->|Hne]; [congruence|].
    eapply (tc_le_trans (cmp := icmp)); [exact Hk|].
    pose proof (disjoint_largest_lt files mid i f g Hd Hfm Hg ltac:(lia)). lia.
Qed.

Lemma FindFile_spec files key : disjoint_sorted files ->
  find_file_spec files key (FindFile files key).
Proof.
  intros Hd. apply FindFile_loop_spec; [done|lia|lia|lia|].
  intros i f Hi Hle. apply lookup_lt_Some in Hi. lia.
Qed.

(** The internal key with the largest tag for a user key is at or before every
    internal key of the user key. *)
Lemma seek_key_le k ik : ucmp k (ExtractUserKey ik) <= 0 -> 
  ExtractTag ik <= PackSequenceAndType kMaxSequenceNumber kValueTypeForSeek ->
  icmp (mkInternalKey k kMaxSequenceNumber kValueTypeForSeek) ik <= 0.
Proof.
  intros Hk Ht. apply icmp_le. rewrite ExtractUserKey_mk, ExtractTag_mk by (vm_compute; intuition congruence).
  lia.
Qed.

Lemma seek_key_lt k ik : icmp ik (mkInternalKey k kMaxSequenceNumber kValueTypeForSeek) < 0 ->
  ExtractTag ik <= PackSequenceAndType kMaxSequenceNumber kValueTypeForSeek ->
  ucmp (ExtractUserKey ik) k < 0.
Proof.
  rewrite icmp_lt by exact _.
  rewrite ExtractUserKey_mk, ExtractTag_mk by (vm_compute; intuition congruence). lia.
Qed.

(** Tags that [PackSequenceAndType] produces. *)
Definition tag_ok (ik : bytes) : Prop :=
  ExtractTag ik <= PackSequenceAndType kMaxSequenceNumber kValueTypeForSeek.

(** A file overlaps a range of user keys (an absent bound is unbounded). *)
Definition overlaps (b e : option bytes) (f : FileMetaData) : bool :=
  negb (AfterFile b f || BeforeFile e f).

(** The binary search over the files of a sorted level answers overlap
    queries as the scan over all files does: [SomeFileOverlapsRange] is true
    exactly when some file of the level overlaps the range, on disjoint sorted
    levels (binary search) and on level 0 (scan), with bounded and unbounded
    ranges. *)
Lemma SomeFileOverlapsRange_spec (sorted : bool) (files : list FileMetaData)
    (s l : option bytes) :
  (sorted = true -> disjoint_sorted files /\ Forall (fun f => tag_ok (largest f)) files) ->
  SomeFileOverlapsRange sorted files s l = true <->
  exists f, f ∈ files /\ overlaps s l f = true.
Proof.
  intros Hsrt. unfold SomeFileOverlapsRange. destruct sorted; simpl.
  2:{ rewrite existsb_exists. split; intros (f & Hf & Ho); exists f; by rewrite list_elem_of_In in *. }
  destruct (Hsrt eq_refl) as [Hd Htag]. rewrite Forall_lookup in Htag.
  set (r := match s with Some k => FindFile files _ | None => 0%nat end).
  assert (Hr1 : forall i f, files !! i = Some f -> (i < r)%nat -> AfterFile s f = true).
  { intros i f Hi Hlt. unfold r in Hlt. destruct s as [k|]; [|lia].
    destruct (FindFile_spec files (mkInternalKey k kMaxSequenceNumber kValueTypeForSeek) Hd)
      as (_ & Hb & _).
    specialize (Hb i f Hi Hlt). apply seek_key_lt in Hb; [|by apply (Htag i)].
    simpl. apply (cmp_antisym (ExtractUserKey (largest f)) k) in Hb. unfold largest_user. lia. }
  assert (Hr2 : forall i f, files !! i = Some f -> (r <= i)%nat -> AfterFile s f = false).
  { intros i f Hi Hle. unfold r in Hle. destruct s as [k|]; [|done].
    destruct (FindFile_spec files (mkInternalKey k kMaxSequenceNumber kValueTypeForSeek) Hd)
      as (_ & _ & Hb).
    specialize (Hb i f Hi Hle). apply icmp_le in Hb.
    rewrite ExtractUserKey_mk in Hb. simpl. unfold largest_user. lia. }
  destruct (files !! r) as [g|] eqn:Eg.
  - split.
    + intros Hb. exists g. split; [by eapply list_elem_of_lookup_2|].
      unfold overlaps. rewrite (Hr2 r g Eg (le_n r)). done.
    + intros (f & Hf & Ho). apply list_elem_of_lookup in Hf as [i Hi]. unfold overlaps in Ho.
      destruct (decide (i < r)%nat) as [Hlt|Hge]; [by rewrite (Hr1 i f Hi Hlt) in Ho|].
      destruct (decide (i = r)) as [->|Hne].
      * rewrite Hi in Eg. injection Eg as ->. rewrite negb_orb in Ho. by apply andb_true_iff in Ho as [_ Ho].
      * pose proof (disjoint_largest files r i g f Hd Eg Hi ltac:(lia)) as Hgf.
        pose proof (file_wf_user g (disjoint_wf files r g Hd Eg)) as Hg.
        destruct l as [k|]; [|done]. unfold BeforeFile in *. apply icmp_lt in Hgf.
        assert (Hgs : ucmp (smallest_user g) (smallest_user f) <= 0)
          by (eapply (tc_le_trans (cmp := ucmp)); [exact Hg|]; unfold largest_user, smallest_user; lia).
        assert (Hkf : ~ ucmp k (smallest_user f) < 0)
          by (rewrite negb_orb in Ho; apply andb_true_iff in Ho as [_ Ho]; lia).
        apply negb_true_iff, Z.ltb_ge.
        destruct (Z.lt_ge_cases (ucmp k (smallest_user g)) 0) as [Hkg|]; [|done].
        destruct Hkf. by eapply (tc_lt_le_trans ucmp).
  - split; [done|]. intros (f & Hf & Ho). apply list_elem_of_lookup in Hf as [i Hi].
    assert (i < r)%nat.
    { apply lookup_ge_None_1 in Eg. apply lookup_lt_Some in Hi. lia. }
    unfold overlaps in Ho. by rewrite (Hr1 i f Hi) in Ho.
Qed.

(** * [GetOverlappingInputs] *)

Lemma filter_length_le {A} (P Q : A -> bool) l : (forall x, P x = true -> Q x = true) ->
  (length (List.filter P l) <= length (List.filter Q l))%nat.
Proof.
  intros HPQ. induction l as [|x l IH]; simpl; [done|].
  destruct (P x) eqn:EP; [rewrite (HPQ x EP); simpl; lia|]. destruct (Q x); simpl; lia.
Qed.

Lemma filter_length_lt {A} (P Q : A -> bool) l y : (forall x, P x = true -> Q x = true) ->
  y ∈ l -> Q y = true -> P y = false ->
  (length (List.filter P l) < length (List.filter Q l))%nat.
Proof.
  intros HPQ Hy HQ HP. induction l as [|x l IH]; [by apply elem_of_nil in Hy|].
  pose proof (filter_length_le P Q l HPQ).
  apply elem_of_cons in Hy as [<-|Hy]; simpl; [rewrite HP, HQ; simpl; lia|].
  specialize (IH Hy). destruct (P x) eqn:EP; [rewrite (HPQ x EP); simpl; lia|].
  destruct (Q x); simpl; lia.
Qed.

Lemma filter_length_all {A} (P : A -> bool) l : (length (List.filter P l) <= length l)%nat.
Proof. induction l as [|x l IH]; simpl; [done|]. destruct (P x); simpl; lia. Qed.

Definition starts_before (b : option bytes) (f : FileMetaData) : bool :=
  match b with Some b => ucmp (smallest_user f) b <? 0 | None => false end.
Definition ends_after (e : option bytes) (f : FileMetaData) : bool :=
  match e with Some e => 0 <? ucmp (largest_user f) e | None => false end.

Lemma overlaps_alt b e f : overlaps b e f =
  negb (match b with Some b => ucmp (largest_user f) b <? 0 | None => false end) &&
  negb (match e with Some e => 0 <? ucmp (smallest_user f) e | None => false end).
Proof.
  unfold overlaps, AfterFile, BeforeFile. rewrite negb_orb. f_equal; f_equal.
  - destruct b as [b|]; [|done]. pose proof (cmp_antisym (largest_user f) b).
    apply eq_true_iff_eq. rewrite !Z.ltb_lt. tauto.
  - destruct e as [e|]; [|done]. pose proof (cmp_antisym e (smallest_user f)).
    apply eq_true_iff_eq. rewrite !Z.ltb_lt. tauto.
Qed.

(** One pass either collects the overlapping files, none of which sticks out of
    the range in level 0, or meets one that does. *)
Lemma overlap_pass_spec level0 files b e : forall acc,
  match overlap_pass level0 files b e acc with
  | inl inputs => inputs = acc ++ List.filter (overlaps b e) files /\
      (level0 = true -> forall f, f ∈ files -> overlaps b e f = true ->
         starts_before b f = false /\ ends_after e f = false)
  | inr (b', e') => level0 = true /\ exists f, f ∈ files /\
      ((starts_before b f = true /\ b' = Some (smallest_user f) /\ e' = e) \/
       (ends_after e f = true /\ b' = b /\ e' = Some (largest_user f)))
  end.
Proof.
  induction files as [|f files IH]; intros acc; simpl.
  { split; [by rewrite app_nil_r|]. intros _ f Hf. by apply elem_of_nil in Hf. }
  rewrite overlaps_alt.
  assert (Skip : forall acc, overlaps b e f = false ->
    match overlap_pass level0 files b e acc with
    | inl inputs => inputs = acc ++ List.filter (overlaps b e) files /\
        (level0 = true -> forall g, g ∈ f :: files -> overlaps b e g = true ->
           starts_before b g = false /\ ends_after e g = false)
    | inr (b', e') => level0 = true /\ exists g, g ∈ f :: files /\
        ((starts_before b g = true /\ b' = Some (smallest_user g) /\ e' = e) \/
         (ends_after e g = true /\ b' = b /\ e' = Some (largest_user g)))
    end).
  { intros acc' Ho. specialize (IH acc'). destruct (overlap_pass _ _ _ _ _) as [inputs|[b' e']].
    - destruct IH as [IH1 IH2]. split; [done|]. intros H0 g [->|Hg]%elem_of_cons; [congruence|by apply IH2].
    - destruct IH as (H0 & g & Hg & Hc). split; [done|]. exists g. split; [by right|done]. }
  rewrite overlaps_alt in Skip.
  destruct (match b with Some b => ucmp (largest_user f) b <? 0 | None => false end) eqn:Eb;
    [by apply Skip|].
  destruct (match e with Some e => 0 <? ucmp (smallest_user f) e | None => false end) eqn:Ee;
    [by apply Skip|]. clear Skip. simpl.
  fold (starts_before b f) (ends_after e f).
  destruct (level0 && starts_before b f) eqn:E1.
  { apply andb_true_iff in E1 as [-> E1]. split; [done|]. exists f. split; [left|]. by left. }
  destruct (level0 && ends_after e f) eqn:E2.
  { apply andb_true_iff in E2 as [-> E2]. split; [done|]. exists f. split; [left|]. by right. }
  specialize (IH (acc ++ [f])). destruct (overlap_pass _ _ _ _ _) as [inputs|[b' e']].
  - destruct IH as [-> IH2]. split; [by rewrite <- app_assoc|].
    intros -> g [->|Hg]%elem_of_cons; [done|by apply IH2].
  - destruct IH as (H0 & g & Hg & Hc). split; [done|]. exists g. split; [by right|done].
Qed.

(** How far the range can still grow. *)
Definition slack (files : list FileMetaData) (b e : option bytes) : nat :=
  length (List.filter (starts_before b) files) + length (List.filter (ends_after e) files).

(** The range [b', e'] contains [b, e]. *)
Definition range_sub (b e b' e' : option bytes) : Prop :=
  match b, b' with Some x, Some y => ucmp y x <= 0 | None, None => True | _, _ => False end /\
  match e, e' with Some x, Some y => ucmp x y <= 0 | None, None => True | _, _ => False end.

Lemma range_sub_refl b e : range_sub b e b e.
Proof. split; destruct b, e; try done; rewrite cmp_refl; lia. Qed.

Lemma range_sub_trans b e b1 e1 b2 e2 :
  range_sub b e b1 e1 -> range_sub b1 e1 b2 e2 -> range_sub b e b2 e2.
Proof.
  intros [H1 H2] [H3 H4]. split.
  - destruct b, b1, b2; try done. by eapply cmp_le_trans.
  - destruct e, e1, e2; try done. by eapply cmp_le_trans.
Qed.

Lemma overlaps_sub b e b' e' f :
  range_sub b e b' e' -> overlaps b e f = true -> overlaps b' e' f = true.
Proof.
  unfold overlaps, AfterFile, BeforeFile. intros [H1 H2].
  rewrite !negb_true_iff, !orb_false_iff. intros [Ha Hb]. split.
  - destruct b as [x|], b' as [y|]; try done. rewrite Z.ltb_ge in *. by eapply cmp_le_trans.
  - destruct e as [x|], e' as [y|]; try done. rewrite Z.ltb_ge in *.
    destruct (Z.lt_ge_cases (ucmp y (smallest_user f)) 0) as [Hlt|]; [|done].
    pose proof (tc_le_lt_trans ucmp x y (smallest_user f) H2 Hlt). lia.
Qed.

Lemma slack_decreases files b e b' e' f : f ∈ files ->
  (starts_before b f = true /\ b' = Some (smallest_user f) /\ e' = e) \/
  (ends_after e f = true /\ b' = b /\ e' = Some (largest_user f)) ->
  (slack files b' e' < slack files b e)%nat /\ range_sub b e b' e'.
Proof.
  intros Hf [(Hb & -> & ->)|(He & -> & ->)]; unfold slack.
  - destruct b as [b|]; [|done]. simpl in Hb. split.
    + apply Nat.add_lt_mono_r, (filter_length_lt _ _ _ f); [|done|simpl; lia|].
      * intros g Hg. simpl in *. rewrite Z.ltb_lt in *. by eapply (tc_lt_trans ucmp).
      * simpl. rewrite cmp_refl. lia.
    + split; [lia|]. by apply range_sub_refl.
  - destruct e as [e|]; [|done]. simpl in He. split.
    + apply Nat.add_lt_mono_l, (filter_length_lt _ _ _ f); [|done|simpl; lia|].
      * intros g Hg. simpl in *. rewrite Z.ltb_lt in *. apply cmp_gt.
        eapply (tc_lt_trans ucmp); [apply cmp_gt; exact He|by apply cmp_gt].
      * simpl. rewrite cmp_refl. lia.
    + split; [by apply range_sub_refl|]. apply (tc_flip_le ucmp). lia.
Qed.

Lemma overlap_loop_spec level0 files : forall fuel b e, (slack files b e < fuel)%nat ->
  exists b' e', range_sub b e b' e' /\
    overlap_loop fuel level0 files b e = Some (List.filter (overlaps b' e') files) /\
    (level0 = false -> b' = b /\ e' = e) /\
    (level0 = true -> forall f, f ∈ files -> overlaps b' e' f = true ->
       starts_before b' f = false /\ ends_after e' f = false).
Proof.
  induction fuel as [|fuel IH]; intros b e Hs; [lia|]. cbn [overlap_loop].
  pose proof (overlap_pass_spec level0 files b e []) as Hp.
  destruct (overlap_pass level0 files b e []) as [inputs|[b1 e1]].
  - destruct Hp as [-> Hp]. exists b, e. split; [apply range_sub_refl|]. done.
  - destruct Hp as (-> & f & Hf & Hc). destruct (slack_decreases files b e b1 e1 f Hf Hc) as [Hd Hr].
    destruct (IH b1 e1 ltac:(lia)) as (b' & e' & Hr' & E & _ & Hcl).
    exists b', e'. split; [by eapply range_sub_trans|]. done.
Qed.

(** Two files share a user key range. *)
Definition files_overlap (f g : FileMetaData) : Prop :=
  ucmp (smallest_user f) (largest_user g) <= 0 /\ ucmp (smallest_user g) (largest_user f) <= 0.

Lemma GetOverlappingInputs_spec (v : Version) (level : nat) (begin_ end_ : option bytes) :
  let files := level_files v level in
  let b := ExtractUserKey <$> begin_ in
  let e := ExtractUserKey <$> end_ in
  exists inputs, GetOverlappingInputs v level begin_ end_ = Some inputs /\
    (forall f, f ∈ inputs -> f ∈ files) /\
    (forall f, f ∈ files -> overlaps b e f = true -> f ∈ inputs) /\
    (level <> 0%nat -> inputs = List.filter (overlaps b e) files) /\
    (level = 0%nat -> forall f g, f ∈ inputs -> g ∈ files -> files_overlap f g -> g ∈ inputs).
Proof.
  intros files b e. unfold GetOverlappingInputs. fold files b e.
  destruct (overlap_loop_spec (level =? 0)%nat files (S (2 * length files)) b e)
    as (b' & e' & Hr & -> & Hne & Hcl).
  { unfold slack. pose proof (filter_length_all (starts_before b) files).
    pose proof (filter_length_all (ends_after e) files). lia. }
  assert (Hin : forall f, f ∈ List.filter (overlaps b' e') files <->
            f ∈ files /\ overlaps b' e' f = true).
  { intros f. rewrite !list_elem_of_In, filter_In. done. }
  eexists. split; [done|]. split; [intros f Hf; by apply Hin in Hf as [? _]|].
  split; [intros f Hf Ho; apply Hin; split; [done|]; by eapply overlaps_sub|].
  split; [intros Hl; destruct Hne as [-> ->]; [by apply Nat.eqb_neq|done]|].
  intros -> f g Hf Hg [Ho1 Ho2]. apply Hin in Hf as [Hf Hov]. apply Hin. split; [done|].
  destruct (Hcl eq_refl f Hf Hov) as [Hsb Hea]. unfold overlaps, AfterFile, BeforeFile.
  apply negb_true_iff, orb_false_iff. split.
  - destruct b' as [x|]; [|done]. simpl in Hsb. apply Z.ltb_ge.
    eapply (cmp_le_trans _ (smallest_user f)); [|exact Ho1]. apply cmp_flip_le. lia.
  - destruct e' as [x|]; [|done]. simpl in Hea. apply Z.ltb_ge. apply cmp_flip_le.
    eapply (cmp_le_trans _ (largest_user f)); [exact Ho2|]. lia.
Qed.

(** [GetOverlappingInputs] always ends (the restarts of the level-0 search
    are bounded by the number of files), returns files of the level, and misses
    no file that overlaps the range.  On levels above 0 it returns exactly
    those; on level 0, whose files may overlap each other, the result is closed:
    no file that is left out overlaps one that is returned, so that compacting
    the result cannot let an older entry overtake a newer one. *)
Theorem overlapping_inputs_correct (v : Version) (level : nat) (begin_ end_ : option bytes) :
  let files := level_files v level in
  let b := ExtractUserKey <$> begin_ in
  let e := ExtractUserKey <$> end_ in
  exists inputs, GetOverlappingInputs v level begin_ end_ = Some inputs /\
    (forall f, f ∈ inputs -> f ∈ files) /\
    (forall f, f ∈ files -> overlaps b e f = true -> f ∈ inputs) /\
    (level <> 0%nat -> inputs = List.filter (overlaps b e) files) /\
    (level = 0%nat -> forall f g, f ∈ inputs -> g ∈ files -> files_overlap f g -> g ∈ inputs).
Proof. exact (GetOverlappingInputs_spec v level begin_ end_). Qed.

Lemma GetOverlappingInputs_total v level b e : exists inputs, GetOverlappingInputs v level b e = Some inputs.
Proof. destruct (GetOverlappingInputs_spec v level b e) as (inputs & E & _). eauto. Qed.

(** The levels above 0 are sorted and disjoint, with tags in range. *)
Definition version_wf (v : Version) : Prop :=
  forall level, (0 < level)%nat ->
    disjoint_sorted (level_files v level) /\
    Forall (fun f => tag_ok (largest f)) (level_files v level).

Lemma OverlapInLevel_false v level s l : version_wf v -> OverlapInLevel v level s l = false ->
  forall f, f ∈ level_files v level -> overlaps s l f = false.
Proof.
  intros Hv E f Hf. destruct (overlaps s l f) eqn:Eo; [|done].
  assert (OverlapInLevel v level s l = true); [|congruence].
  apply SomeFileOverlapsRange_spec; [|by eauto]. intros Hl. apply Hv. by apply Nat.ltb_lt in Hl.
Qed.

Lemma pick_level_loop_spec msize v s l : version_wf v -> forall fuel level,
  (Z.to_nat kMaxMemCompactLevel < fuel + level)%nat -> (level <= Z.to_nat kMaxMemCompactLevel)%nat ->
  exists L, pick_level_loop fuel msize v s l level = Some L /\
    (level <= L <= Z.to_nat kMaxMemCompactLevel)%nat /\
    (forall l', (level < l' <= L)%nat -> OverlapInLevel v l' (Some s) (Some l) = false).
Proof.
  intros Hv fuel. induction fuel as [|fuel IH]; intros level Hf Hl; [lia|].
  cbn [pick_level_loop].
  assert (Stay : exists L, Some level = Some L /\
    (level <= L <= Z.to_nat kMaxMemCompactLevel)%nat /\
    (forall l', (level < l' <= L)%nat -> OverlapInLevel v l' (Some s) (Some l) = false)).
  { exists level. split; [done|]. split; [lia|]. intros. lia. }
  destruct (Z.ltb_spec (Z.of_nat level) kMaxMemCompactLevel); [|done].
  destruct (OverlapInLevel v (S level) (Some s) (Some l)) eqn:Eo; [done|].
  assert (Go : exists L, pick_level_loop fuel msize v s l (S level) = Some L /\
    (level <= L <= Z.to_nat kMaxMemCompactLevel)%nat /\
    (forall l', (level < l' <= L)%nat -> OverlapInLevel v l' (Some s) (Some l) = false)).
  { destruct (IH (S level)) as (L & E & HL & Hall); [lia|lia|].
    exists L. split; [done|]. split; [lia|]. intros l' Hl'.
    destruct (decide (l' = S level)) as [->|]; [done|]. apply Hall. lia. }
  destruct (_ + 2 <? kNumLevels); [|done].
  destruct (GetOverlappingInputs_total v (level + 2)
    (Some (mkInternalKey s kMaxSequenceNumber kValueTypeForSeek))
    (Some (mkInternalKey l 0 kTypeDeletion))) as [inputs ->].
  by destruct (_ <? _).
Qed.

(** The level picked for a new table. *)
Lemma PickLevel_spec (max_file_size : Z) (v : Version) (s l : bytes) :
  version_wf v ->
  exists L, PickLevelForMemTableOutput max_file_size v s l = Some L /\
    (L <= Z.to_nat kMaxMemCompactLevel)%nat /\
    ((0 < L)%nat -> forall level f, (level <= L)%nat -> f ∈ level_files v level ->
       overlaps (Some s) (Some l) f = false).
Proof.
  intros Hv. unfold PickLevelForMemTableOutput.
  destruct (OverlapInLevel v 0 (Some s) (Some l)) eqn:E0; simpl.
  - exists 0%nat. split; [done|]. split; [lia|]. lia.
  - destruct (pick_level_loop_spec max_file_size v s l Hv 3 0) as (L & E & HL & Hall);
      [vm_compute; lia|lia|].
    exists L. split; [done|]. split; [lia|]. intros _ level f Hlv Hf.
    destruct (decide (level = 0%nat)) as [->|]; [by eapply OverlapInLevel_false|].
    eapply OverlapInLevel_false; [done| |exact Hf]. apply Hall. lia.
Qed.

(** A memtable's table may be put into the level that
    [PickLevelForMemTableOutput] picks.  The function always returns a level,
    at most [kMaxMemCompactLevel]; when the level is not 0, no file of level 0
    nor of any level up to and including the one picked overlaps the key range
    of the new table, so that the table neither hides behind nor overtakes
    entries it overlaps. *)
Theorem pick_level_safe (max_file_size : Z) (v : Version) (s l : bytes) :
  version_wf v ->
  exists L, PickLevelForMemTableOutput max_file_size v s l = Some L /\
    (L <= Z.to_nat kMaxMemCompactLevel)%nat /\
    ((0 < L)%nat -> forall level f, (level <= L)%nat -> f ∈ level_files v level ->
       overlaps (Some s) (Some l) f = false).
Proof. apply PickLevel_spec. Qed.
End Version.

Definition example_file (n : Z) (lo hi : bytes) : FileMetaData :=
  newFileMetaData n 1000 (mkInternalKey lo 5 kTypeValue) (mkInternalKey hi 5 kTypeValue).
Definition example_version : Version :=
  mkVersion [[example_file 9 (str "a") (str "f"); example_file 8 (str "e") (str "k")];
             [example_file 3 (str "b") (str "c"); example_file 4 (str "m") (str "p")];
             [example_file 2 (str "q") (str "r")]] None (-1) (0, 1) 0.

Lemma example_version_wf : version_wf BytewiseComparator example_version.
Proof.
  intros level Hl. destruct level as [|[|[|[|level]]]]; [lia|..]; unfold level_files; simpl.
  - split; [split|]; repeat constructor; vm_compute; (reflexivity || discriminate).
  - split; [split|]; repeat constructor; vm_compute; (reflexivity || discriminate).
  - split; [split|]; constructor.
  - split; [split|]; destruct level; constructor.
Qed.

Lemma pick_level_safe_witness :
  exists L, PickLevelForMemTableOutput BytewiseComparator 1000000 example_version (str "l") (str "l")
      = Some L /\
    (L <= Z.to_nat kMaxMemCompactLevel)%nat /\
    ((0 < L)%nat -> forall level f, (level <= L)%nat -> f ∈ level_files example_version level ->
       overlaps BytewiseComparator (Some (str "l")) (Some (str "l")) f = false).
Proof.
  apply (pick_level_safe BytewiseComparator 1000000 example_version (str "l") (str "l")).
  apply example_version_wf.
Defined.

Lemma overlapping_inputs_correct_witness :
  exists inputs, GetOverlappingInputs BytewiseComparator example_version 0
      (Some (mkInternalKey (str "a") 1 kTypeValue)) (Some (mkInternalKey (str "b") 1 kTypeValue)) =
      Some inputs /\
    (forall f, f ∈ inputs -> f ∈ level_files example_version 0).
Proof.
  destruct (overlapping_inputs_correct BytewiseComparator example_version 0
    (Some (mkInternalKey (str "a") 1 kTypeValue)) (Some (mkInternalKey (str "b") 1 kTypeValue)))
    as (inputs & E & Hin & _).
  exists inputs. split; [exact E|exact Hin].
Defined.
