(* ===== verification/VersionGet.v ===== *)
(** db/version_set.cc, [Version::Get]: a read goes through the levels, newest
    first; in each level the files that may hold the key are found by the
    baseline search or, in mode 9, by the level model.  What the table cache
    promises for the lookup in one file is the class [TableReader]. *)

From stdpp Require Import base list sorting strings.
From S2P Require Import Prelude Status Comparator Logging ModUtil DbFormat VersionEdit.
From S2P Require Import Plr LearnedIndex Version.

#[local] Open Scope Z_scope.

(** * The callback *)

Inductive SaverState := kNotFound | kFound | kDeleted | kCorrupt.

Record Saver := mkSaver { saver_state : SaverState; saver_user_key : bytes; saver_value : bytes }.

Section Get.
Context (user_comparator_ : Comparator).
#[local] Abbreviation ucmp := (@Compare user_comparator_).

Definition SaveValue (s : Saver) (ikey v : bytes) : Saver :=
  match ParseInternalKey ikey with
  | None => mkSaver kCorrupt (saver_user_key s) (saver_value s)
  | Some parsed_key =>
      if ucmp (user_key parsed_key) (saver_user_key s) =? 0 then
        match type parsed_key with
        | kTypeValue => mkSaver kFound (saver_user_key s) v
        | kTypeDeletion => mkSaver kDeleted (saver_user_key s) (saver_value s)
        end
      else s
  end.

Definition IsFound (s : Saver) : bool :=
  match saver_state s with kFound => true | _ => false end.

(** [TableCache::Get]: the status, and the entry the callback is invoked with,
    if any. *)
Class TableReader := { table_get : FileMetaData -> bytes -> Status * option (bytes * bytes) }.
Context `{TableReader}.

(** * Choosing the files of a level *)

Context {T : Type} `{Arith T}.

(** Lines 404-422: the file of a level by its model.  The interval bounds are
    indices of the level's files; the scan stops at the end of the level. *)
Definition scan_interval (files : list FileMetaData) (user_key : bytes) (lower upper : Z)
  : option FileMetaData :=
  List.find (fun f => (ucmp (smallest_user f) user_key <=? 0) && (0 <=? ucmp (largest_user f) user_key))
    (take (Z.to_nat (upper - lower + 1)) (drop (Z.to_nat lower) files)).

Definition learned_find (files : list FileMetaData) (user_key : bytes) (bounds : Z * Z)
    (max_position : Z) : option FileMetaData :=
  if bounds.1 <=? max_position then scan_interval files user_key bounds.1 bounds.2 else None.

(** The files to search in one level, and the models after ([GetPosition]
    counts its calls).  [None]: the model is undefined on the key. *)
Definition files_to_search (MOD : Z) (models : list (LearnedIndexData T)) (v : Version)
    (level : nat) (user_key ikey : bytes)
  : option (list FileMetaData * list (LearnedIndexData T)) :=
  let files := level_files v level in
  match files with
  | [] => Some ([], models)
  | _ =>
      if (level =? 0)%nat then Some (level0_files user_comparator_ files user_key, models)
      else
        let baseline := option_list (find_in_level user_comparator_ files user_key ikey) in
        if MOD =? 9 then
          match models !! level with
          | None => None
          | Some d =>
              let '(ok, d) := Learned d in
              if ok then
                match GetPosition d user_key with
                | None => None
                | Some (bounds, d) =>
                    Some (option_list (learned_find files user_key bounds (MaxPosition d)),
                          <[level := d]> models)
                end
              else Some (baseline, models)
          end
        else Some (baseline, models)
  end.

(** * The search *)

(** The variables the loops carry: the statistics and the last file read. *)
Record GetState := mkGetState { stats_seek : GetStats; last_file_read : GetStats }.

Definition charge (st : GetState) (f : FileMetaData) (level : nat) : GetState :=
  let seek :=
    match last_file_read st, stats_seek st with
    | Some l, None => Some l
    | _, _ => stats_seek st
    end in
  mkGetState seek (Some (f, level)).

(** The loop over the files of a level: [inl] when [Get] returns inside it. *)
Fixpoint get_files (user_key ikey : bytes) (level : nat) (files : list FileMetaData)
    (st : GetState) (value : bytes) : (Status * bytes * GetState) + GetState :=
  match files with
  | [] => inr st
  | f :: rest =>
      let st := charge st f level in
      let '(s, hit) := table_get f ikey in
      let saver :=
        match hit with
        | Some (k, v) => SaveValue (mkSaver kNotFound user_key value) k v
        | None => mkSaver kNotFound user_key value
        end in
      if negb (ok s) then inl (s, saver_value saver, st)
      else
        match saver_state saver with
        | kNotFound => get_files user_key ikey level rest st value
        | kFound => inl (s, saver_value saver, st)
        | kDeleted => inl (NotFound [] [], saver_value saver, st)
        | kCorrupt => inl (Corruption (str "corrupted key for ") user_key, saver_value saver, st)
        end
  end.

Fixpoint get_levels (MOD : Z) (v : Version) (user_key ikey : bytes) (levels : list nat)
    (models : list (LearnedIndexData T)) (st : GetState) (value : bytes)
  : option (Status * bytes * GetState * list (LearnedIndexData T)) :=
  match levels with
  | [] => Some (NotFound [] [], value, st, models)
  | level :: rest =>
      match files_to_search MOD models v level user_key ikey with
      | None => None
      | Some (files, models) =>
          match get_files user_key ikey level files st value with
          | inl (s, value, st) => Some (s, value, st, models)
          | inr st => get_levels MOD v user_key ikey rest models st value
          end
      end
  end.

(** [Version::Get]: status, value, statistics and the models after. *)
Definition Get (MOD : Z) (models : list (LearnedIndexData T)) (v : Version) (k : LookupKey)
    (value : bytes) : option (Status * bytes * GetStats * list (LearnedIndexData T)) :=
  match get_levels MOD v (lookup_user_key k) (lookup_internal_key k)
          (seq 0 (Z.to_nat kNumLevels)) models (mkGetState None None) value with
  | Some (s, value, st, models) => Some (s, value, stats_seek st, models)
  | None => None
  end.
End Get.
