(* ===== verification/VersionGetProofs.v ===== *)
(** Correctness of [Version::Get]: it returns the newest entry visible at the
    snapshot, whatever level holds it; and the level models lead to the same
    files as the baseline search. *)

From Stdlib Require Import QArith Lqa.
From stdpp Require Import base list sorting strings.
From S2P Require Import Prelude Status Comparator Logging ModUtil DbFormat VersionEdit.
From S2P Require Import Plr PlrProofs LearnedIndex LearnedIndexProofs Version VersionGet.

#[local] Open Scope Z_scope.

(** * Sorting by number *)

Lemma insert_newest_elem f l g : g ∈ insert_newest f l <-> g = f \/ g ∈ l.
Proof.
  induction l as [|h l IH]; simpl; [by rewrite list_elem_of_singleton, elem_of_nil; tauto|].
  destruct (NewestFirst f h); rewrite !elem_of_cons; [tauto|]. rewrite IH. tauto.
Qed.

Definition newer_number (f g : FileMetaData) : Prop := number g < number f.

Lemma insert_newest_sorted f l : StronglySorted newer_number l ->
  Forall (fun g => number g <> number f) l -> StronglySorted newer_number (insert_newest f l).
Proof.
  induction 1 as [|h l Hl IH Hh]; intros Hne; simpl; [repeat constructor|].
  apply Forall_cons_1 in Hne as [Hfh Hne]. unfold NewestFirst.
  destruct (Z.ltb_spec (number h) (number f)).
  - constructor; [by constructor|]. constructor; [done|].
    eapply Forall_impl; [exact Hh|]. unfold newer_number. simpl. intros. lia.
  - constructor; [by apply IH|]. apply Forall_forall. intros g [->|Hg]%insert_newest_elem.
    + unfold newer_number. lia.
    + rewrite Forall_forall in Hh. by apply Hh.
Qed.

Lemma fold_newest_spec l : forall acc,
  StronglySorted newer_number acc -> NoDup (map number l) ->
  (forall f g, f ∈ l -> g ∈ acc -> number g <> number f) ->
  let r := fold_left (fun acc f => insert_newest f acc) l acc in
  StronglySorted newer_number r /\ (forall f, f ∈ r <-> f ∈ acc \/ f ∈ l).
Proof.
  induction l as [|f l IH]; intros acc Hs Hnd Hd; simpl.
  { split; [done|]. intros g. rewrite elem_of_nil. tauto. }
  simpl in Hnd. apply NoDup_cons in Hnd as [Hf Hnd].
  destruct (IH (insert_newest f acc)) as [Hs' He]; [|done| |].
  - apply insert_newest_sorted; [done|]. apply Forall_forall. intros g Hg.
    apply Hd; [left|done].
  - intros g h Hg [->|Hh]%insert_newest_elem; [|by apply Hd; [right|]].
    intros E. apply Hf. rewrite E. apply list_elem_of_In, in_map, list_elem_of_In. done.
  - split; [done|]. intros g. rewrite He, insert_newest_elem, elem_of_cons. tauto.
Qed.

Lemma sort_newest_spec l : NoDup (map number l) ->
  StronglySorted newer_number (sort_newest l) /\ (forall f, f ∈ sort_newest l <-> f ∈ l).
Proof.
  intros Hnd. destruct (fold_newest_spec l [] (SSorted_nil _) Hnd) as [Hs He].
  - intros f g _ Hg. by apply elem_of_nil in Hg.
  - split; [done|]. intros f. rewrite He, elem_of_nil. tauto.
Qed.

Lemma NoDup_filter_map (P : FileMetaData -> bool) l :
  NoDup (map number l) -> NoDup (map number (List.filter P l)).
Proof.
  induction l as [|f l IH]; simpl; [done|]. rewrite NoDup_cons. intros [Hf Hnd].
  destruct (P f); [|by apply IH]. simpl. apply NoDup_cons. split; [|by apply IH].
  rewrite !list_elem_of_In, !in_map_iff in *. intros (g & E & Hg). apply Hf.
  exists g. split; [done|]. by apply filter_In in Hg as [? _].
Qed.

(** * What the lookup in a file promises *)

Section Get.
Context (user_comparator_ : Comparator) `{!@ComparatorOk user_comparator_}.
#[local] Abbreviation icmp := (InternalKey_Compare user_comparator_).
#[local] Abbreviation ucmp := (@Compare user_comparator_).
#[local] Instance ucmp_total' : TotalCompare ucmp := Compare_total.
#[local] Instance icmp_total' : TotalCompare icmp := icmp_total user_comparator_.

(** A file holds entries; a lookup hands the callback the first entry at or
    after the internal key, or nothing when that entry is of another user key
    (a filter may say so without reading the entry).  Nothing is said of files
    without entries (such as files that do not exist). *)
Class TableReaderOk `{TableReader} := {
  contents : FileMetaData -> list (bytes * bytes);
  table_get_ok f ikey : contents f <> [] ->
    exists r, table_get f ikey = (OK, r) /\
      match r with
      | Some e => List.find (fun e => icmp ikey e.1 <=? 0) (contents f) = Some e
      | None => forall e, List.find (fun e => icmp ikey e.1 <=? 0) (contents f) = Some e ->
                  ucmp (ExtractUserKey e.1) (ExtractUserKey ikey) <> 0
      end;
}.
Context `{TableReaderOk}.

(** An entry of the file with its key taken apart. *)
Definition entry_ok (e : bytes * bytes) : Prop :=
  exists u s t, e.1 = mkInternalKey u s t /\ 0 <= s <= kMaxSequenceNumber.

(** The bounds of a file are its first and last key. *)
Definition exact_bounds (f : FileMetaData) : Prop :=
  fst <$> head (contents f) = Some (smallest f) /\ fst <$> last (contents f) = Some (largest f).

Definition file_contents_ok (f : FileMetaData) : Prop :=
  StronglySorted (fun e e' => icmp e.1 e'.1 < 0) (contents f) /\
  Forall (fun e => entry_ok e /\ icmp (smallest f) e.1 <= 0 /\ icmp e.1 (largest f) <= 0) (contents f) /\
  exact_bounds f.

Lemma largest_entry f : exact_bounds f -> exists e, e ∈ contents f /\ e.1 = largest f.
Proof.
  intros [_ El]. destruct (last (contents f)) as [e|] eqn:E; [|done]. injection El as El. exists e. split; [|done].
  apply last_Some in E as [l E]. rewrite E. apply elem_of_app. right. left.
Qed.

Lemma smallest_entry f : exact_bounds f -> exists e, e ∈ contents f /\ e.1 = smallest f.
Proof. intros [Eh _]. destruct (contents f) as [|e l]; [done|]. injection Eh as Eh. exists e. split; [left|done]. Qed.

(** Where newer entries of a user key live: in a file of a smaller level, or in
    a level-0 file with a larger number. *)
Definition newer_place (p q : nat * FileMetaData) : Prop :=
  (p.1 < q.1)%nat \/ (p.1 = 0%nat /\ q.1 = 0%nat /\ number q.2 < number p.2).

(** The invariant of the tree of files. *)
Record lsm (v : Version) : Prop := {
  lsm_version : version_wf user_comparator_ v;
  lsm_levels : (length (files_ v) <= Z.to_nat kNumLevels)%nat;
  lsm_contents : forall level f, f ∈ level_files v level -> file_contents_ok f;
  lsm_numbers : NoDup (map number (level_files v 0));
  lsm_newer : forall p q e e', p.2 ∈ level_files v p.1 -> q.2 ∈ level_files v q.1 ->
    newer_place p q -> e ∈ contents p.2 -> e' ∈ contents q.2 ->
    ucmp (ExtractUserKey e.1) (ExtractUserKey e'.1) = 0 -> ExtractTag e'.1 < ExtractTag e.1;
}.

(** The entries of a user key that a lookup with the internal key [ikey] may
    see. *)
Definition visible (v : Version) (ikey : bytes) (level : nat) (f : FileMetaData) (e : bytes * bytes)
  : Prop :=
  f ∈ level_files v level /\ e ∈ contents f /\
  ucmp (ExtractUserKey e.1) (ExtractUserKey ikey) = 0 /\ icmp ikey e.1 <= 0.

(** The newest of them. *)
Definition newest (v : Version) (ikey : bytes) (e : bytes * bytes) : Prop :=
  (exists level f, visible v ikey level f e) /\
  (forall level f e', visible v ikey level f e' -> ExtractTag e'.1 <= ExtractTag e.1).

(** ** The files that are searched *)

Lemma find_first (P : bytes * bytes -> bool) l e :
  List.find P l = Some e -> exists l1 l2, l = l1 ++ e :: l2 /\ P e = true /\ Forall (fun x => P x = false) l1.
Proof.
  induction l as [|x l IH]; simpl; [done|]. destruct (P x) eqn:E.
  - intros [= ->]. exists [], l. split; [done|]. split; [done|constructor].
  - intros Hf. destruct (IH Hf) as (l1 & l2 & -> & He & Hl1). exists (x :: l1), l2.
    split; [done|]. split; [done|]. by constructor.
Qed.

(** The first entry at or after the key is of the user key as soon as one
    visible entry is, and is the newest of them in the file. *)
Lemma find_visible f ikey e e0 :
  file_contents_ok f -> e ∈ contents f ->
  ucmp (ExtractUserKey e.1) (ExtractUserKey ikey) = 0 -> icmp ikey e.1 <= 0 ->
  List.find (fun e => icmp ikey e.1 <=? 0) (contents f) = Some e0 ->
  ucmp (ExtractUserKey e0.1) (ExtractUserKey ikey) = 0 /\ ExtractTag e.1 <= ExtractTag e0.1.
Proof.
  intros (Hs & _) He Hu Hv Hf. apply find_first in Hf as (l1 & l2 & E & He0 & Hl1).
  rewrite E in Hs, He. apply StronglySorted_app in Hs as (_ & _ & Hs).
  apply StronglySorted_inv in Hs as [_ Hs]. apply Z.leb_le in He0.
  apply elem_of_app in He as [He|He].
  { rewrite Forall_forall in Hl1. specialize (Hl1 e He). lia. }
  apply elem_of_cons in He as [->|He]; [split; [done|lia]|].
  rewrite Forall_forall in Hs. specialize (Hs e He). simpl in Hs.
  apply icmp_le in He0. apply icmp_lt in Hs.
  assert (Q1 : ucmp (ExtractUserKey ikey) (ExtractUserKey e0.1) <= 0) by lia.
  assert (Q2 : ucmp (ExtractUserKey e0.1) (ExtractUserKey e.1) <= 0) by lia.
  assert (Q3 : ucmp (ExtractUserKey e0.1) (ExtractUserKey ikey) <= 0).
  { eapply cmp_le_trans; [exact Q2|lia]. }
  pose proof (cmp_antisym (ExtractUserKey ikey) (ExtractUserKey e0.1)).
  pose proof (cmp_antisym (ExtractUserKey e0.1) (ExtractUserKey ikey)).
  assert (ucmp (ExtractUserKey e0.1) (ExtractUserKey ikey) = 0) by lia. split; [done|].
  destruct Hs as [Hs|[_ Hs]]; [|lia]. exfalso.
  pose proof (tc_lt_le_trans ucmp _ _ _ Hs (Z.eq_le_incl _ _ Hu)). lia.
Qed.

(** The baseline search finds a file that holds a visible entry as new as any in
    the level: when the versions of the user key are spread over files, the first
    of them that is not too new for the key. *)
Lemma find_in_level_visible files ikey f e :
  disjoint_sorted user_comparator_ files -> Forall file_contents_ok files -> f ∈ files -> e ∈ contents f ->
  ucmp (ExtractUserKey e.1) (ExtractUserKey ikey) = 0 -> icmp ikey e.1 <= 0 ->
  exists g e', find_in_level user_comparator_ files (ExtractUserKey ikey) ikey = Some g /\ e' ∈ contents g /\
    ucmp (ExtractUserKey e'.1) (ExtractUserKey ikey) = 0 /\ icmp ikey e'.1 <= 0 /\ ExtractTag e.1 <= ExtractTag e'.1.
Proof.
  intros Hd Hall Hf He Hu Hv. rewrite Forall_forall in Hall. apply list_elem_of_lookup in Hf as [i Hi].
  destruct (Hall f ltac:(by eapply list_elem_of_lookup_2)) as (_ & Hc & _).
  rewrite Forall_forall in Hc. destruct (Hc e He) as (_ & Hsm & Hlg).
  destruct (FindFile_spec user_comparator_ files ikey Hd) as (Hr & Hb & Ha).
  set (r := FindFile user_comparator_ files ikey) in *.
  assert (Hkl : icmp ikey (largest f) <= 0) by (by eapply (tc_le_trans (cmp := icmp))).
  assert (Hri : (r <= i)%nat).
  { destruct (Nat.le_gt_cases r i) as [|Hgt]; [done|]. specialize (Hb i f Hi Hgt). apply (tc_flip_le icmp) in Hkl. lia. }
  destruct (lookup_lt_is_Some_2 files r) as [g Hg]; [apply lookup_lt_Some in Hi; lia|].
  specialize (Ha r g Hg (le_n r)). destruct (Hall g ltac:(by eapply list_elem_of_lookup_2)) as (_ & Hcg & Hlast).
  rewrite Forall_forall in Hcg.
  assert (Hx : exists e', e' ∈ contents g /\ ucmp (ExtractUserKey e'.1) (ExtractUserKey ikey) = 0 /\ icmp ikey e'.1 <= 0 /\
    ExtractTag e.1 <= ExtractTag e'.1).
  { destruct (decide (r = i)) as [Eri|Hne]; [exists e; rewrite Eri, Hi in Hg; by injection Hg as <-|].
    destruct (largest_entry g Hlast) as (e' & Hin & El). exists e'. rewrite El.
    pose proof (disjoint_largest user_comparator_ files r i g f Hd Hg Hi ltac:(lia)) as Hgf.
    pose proof (tc_lt_le_trans icmp _ _ _ Hgf Hsm) as Hlt. apply icmp_lt in Hlt. pose proof (proj1 (icmp_le _ _ _) Ha) as Ha'.
    assert (Q1 : ucmp (ExtractUserKey (largest g)) (ExtractUserKey ikey) <= 0) by (eapply cmp_le_trans; [|apply Z.eq_le_incl, Hu]; lia).
    pose proof (cmp_flip_le (ExtractUserKey (largest g)) (ExtractUserKey ikey)) as Q2. assert (Q3 : ucmp (ExtractUserKey (largest g)) (ExtractUserKey ikey) = 0).
    { pose proof (cmp_flip_le (ExtractUserKey ikey) (ExtractUserKey (largest g))). lia. }
    split; [done|]. split; [done|]. split; [done|]. destruct Hlt as [Hlt|[_ Hlt] ]; [|lia]. exfalso.
    pose proof (tc_lt_le_trans ucmp _ _ _ Hlt (Z.eq_le_incl _ _ Hu)). lia. }
  destruct Hx as (e' & Hin & Hu' & Hv' & Ht). exists g, e'. split; [|done].
  unfold find_in_level. fold r. rewrite Hg. destruct (Hcg e' Hin) as (_ & Hsg & _). apply icmp_le in Hsg.
  assert (Q3 : ucmp (smallest_user g) (ExtractUserKey ikey) <= 0).
  { eapply cmp_le_trans; [|apply Z.eq_le_incl, Hu']. unfold smallest_user. lia. }
  apply cmp_flip_le in Q3. by replace (_ <? 0) with false by lia.
Qed.

Definition has_visible (ikey : bytes) (f : FileMetaData) : Prop :=
  exists e, e ∈ contents f /\ ucmp (ExtractUserKey e.1) (ExtractUserKey ikey) = 0 /\
    icmp ikey e.1 <= 0.

(** The outcome of [Get] for the entry it stops at. *)
Definition outcome (e : bytes * bytes) (value : bytes) : option (Status * bytes) :=
  match ParseInternalKey e.1 with
  | Some p => Some match type p with
                   | kTypeValue => (OK, e.2)
                   | kTypeDeletion => (NotFound [] [], value)
                   end
  | None => None
  end.

Lemma entry_parse e : entry_ok e ->
  exists p, ParseInternalKey e.1 = Some p /\ user_key p = ExtractUserKey e.1.
Proof.
  intros (u & s & t & -> & Hs). exists (mkParsed u s t).
  split; [by apply (ParseInternalKey_Append (mkParsed u s t))|]. by rewrite ExtractUserKey_mk.
Qed.

Lemma get_files_skip ikey level f rest st value :
  file_contents_ok f -> ~ has_visible ikey f ->
  get_files user_comparator_ (ExtractUserKey ikey) ikey level (f :: rest) st value =
  get_files user_comparator_ (ExtractUserKey ikey) ikey level rest (charge st f level) value.
Proof.
  intros (_ & Hc & Hx) Hn. cbn [get_files].
  destruct (table_get_ok f ikey) as (r & -> & Hr); [destruct Hx as [Hx _]; by destruct (contents f)|].
  destruct r as [[k v]|]; [|done].
  pose proof Hr as Hr'. apply find_first in Hr' as (l1 & l2 & E & Hk & _).
  assert (Hin : (k, v) ∈ contents f) by (rewrite E; apply elem_of_app; right; left).
  rewrite Forall_forall in Hc. destruct (Hc _ Hin) as (He & _ & _).
  destruct (entry_parse _ He) as (p & Hp & Hu). simpl in Hp, Hu, Hk.
  unfold SaveValue. rewrite Hp. simpl. rewrite Hu.
  destruct (Z.eqb_spec (ucmp (ExtractUserKey k) (ExtractUserKey ikey)) 0) as [Eu|]; [|done].
  destruct Hn. exists (k, v). simpl. split; [done|]. split; [done|lia].
Qed.

Lemma get_files_hit ikey level f rest st value :
  file_contents_ok f -> has_visible ikey f ->
  exists e r, e ∈ contents f /\ ucmp (ExtractUserKey e.1) (ExtractUserKey ikey) = 0 /\
    icmp ikey e.1 <= 0 /\
    (forall e', e' ∈ contents f -> ucmp (ExtractUserKey e'.1) (ExtractUserKey ikey) = 0 ->
       icmp ikey e'.1 <= 0 -> ExtractTag e'.1 <= ExtractTag e.1) /\
    outcome e value = Some r /\
    get_files user_comparator_ (ExtractUserKey ikey) ikey level (f :: rest) st value =
      inl (r.1, r.2, charge st f level).
Proof.
  intros Hok (e1 & He1 & Hu1 & Hv1). cbn [get_files].
  destruct (List.find (fun e => icmp ikey e.1 <=? 0) (contents f)) as [e|] eqn:Ef.
  2:{ rewrite list_elem_of_In in He1. apply (find_none _ _ Ef) in He1. lia. }
  destruct (find_visible f ikey e1 e Hok He1 Hu1 Hv1 Ef) as [Hu _].
  destruct (table_get_ok f ikey) as (r & -> & Hr); [by destruct (contents f); [apply elem_of_nil in He1|]|].
  destruct r as [e'|]; [|destruct (Hr e Ef Hu)]. rewrite Ef in Hr. injection Hr as <-.
  pose proof Ef as Ef'. apply find_first in Ef' as (l1 & l2 & E & Hk & _).
  assert (Hin : e ∈ contents f) by (rewrite E; apply elem_of_app; right; left).
  pose proof Hok as (_ & Hc & _). rewrite Forall_forall in Hc. destruct (Hc _ Hin) as (He & _ & _).
  destruct (entry_parse _ He) as (p & Hp & Hup).
  exists e. unfold outcome. rewrite Hp. eexists. split; [done|]. split; [done|]. split; [lia|].
  split; [intros e' He' Hu' Hv'; by eapply find_visible|]. split; [done|].
  destruct e as [k v]. simpl in *. unfold SaveValue. rewrite Hp. cbn [saver_user_key].
  rewrite Hup, Hu, Z.eqb_refl. by destruct (type p).
Qed.

(** The files the baseline path searches in a level. *)
Definition baseline_files (v : Version) (level : nat) (ikey : bytes) : list FileMetaData :=
  if (level =? 0)%nat then level0_files user_comparator_ (level_files v 0) (ExtractUserKey ikey)
  else option_list (find_in_level user_comparator_ (level_files v level) (ExtractUserKey ikey) ikey).

Lemma files_to_search_baseline {T} `{Arith T} MOD (models : list (LearnedIndexData T)) v level ikey :
  MOD <> 9 ->
  files_to_search user_comparator_ MOD models v level (ExtractUserKey ikey) ikey =
  Some (baseline_files v level ikey, models).
Proof.
  intros Hm. unfold files_to_search, baseline_files.
  destruct (level_files v level) as [|f fs] eqn:E.
  - destruct (Nat.eqb_spec level 0) as [->|]; [by rewrite E|].
    unfold find_in_level. by rewrite lookup_nil.
  - destruct (Nat.eqb_spec level 0) as [->|]; [by rewrite E|].
    by replace (MOD =? 9) with false by lia.
Qed.

Lemma level0_files_spec v u : lsm v ->
  StronglySorted newer_number (level0_files user_comparator_ (level_files v 0) u) /\
  (forall f, f ∈ level0_files user_comparator_ (level_files v 0) u <->
     f ∈ level_files v 0 /\ in_range user_comparator_ u f = true).
Proof.
  intros Hl. destruct (sort_newest_spec (List.filter (in_range user_comparator_ u) (level_files v 0)))
    as [Hs He]; [by apply NoDup_filter_map, lsm_numbers|].
  split; [exact Hs|]. intros f. unfold level0_files.
  by rewrite He, !list_elem_of_In, filter_In.
Qed.

Lemma baseline_files_sub v level ikey f : lsm v ->
  f ∈ baseline_files v level ikey -> f ∈ level_files v level.
Proof.
  intros Hl. unfold baseline_files. destruct (Nat.eqb_spec level 0) as [->|].
  - intros Hf. by apply level0_files_spec in Hf as [Hf _].
  - unfold find_in_level. destruct (_ !! _) as [g|] eqn:E; [|by intros ?%elem_of_nil].
    destruct (_ <? 0); [by intros ?%elem_of_nil|]. simpl. rewrite list_elem_of_singleton.
    intros ->. by eapply list_elem_of_lookup_2.
Qed.

(** For every visible entry of the level, a file with one that is as new is
    searched; in level 0 it is the file itself. *)
Lemma baseline_files_complete v level ikey f e : lsm v -> visible v ikey level f e ->
  exists g e', g ∈ baseline_files v level ikey /\ visible v ikey level g e' /\ ExtractTag e.1 <= ExtractTag e'.1 /\
    (level = 0%nat -> g = f).
Proof.
  intros Hl (Hf & He & Hu & Hv). pose proof (lsm_contents v Hl level f Hf) as Hok.
  unfold baseline_files. destruct (Nat.eqb_spec level 0) as [->|Hne].
  - exists f, e. split; [|by split; [|split] ]. apply level0_files_spec; [done|]. split; [done|].
    destruct Hok as (_ & Hc & _). rewrite Forall_forall in Hc. destruct (Hc e He) as (_ & Hs & Hg).
    apply icmp_le in Hs. apply icmp_le in Hg. unfold in_range, smallest_user, largest_user.
    assert (Q1 : ucmp (ExtractUserKey (smallest f)) (ExtractUserKey ikey) <= 0).
    { eapply (cmp_le_trans _ (ExtractUserKey e.1)); lia. }
    assert (Q2 : ucmp (ExtractUserKey ikey) (ExtractUserKey (largest f)) <= 0).
    { eapply (cmp_le_trans _ (ExtractUserKey e.1)); [|lia]. apply cmp_eq_sym in Hu. lia. }
    apply cmp_flip_le in Q1. lia.
  - destruct (lsm_version v Hl level ltac:(lia)) as [Hd _].
    assert (Hall : Forall file_contents_ok (level_files v level)) by (apply Forall_forall; intros; by eapply lsm_contents).
    destruct (find_in_level_visible _ ikey f e Hd Hall Hf He Hu Hv) as (g & e' & E & Hin & Hu' & Hv' & Ht).
    rewrite E. exists g, e'. split; [left|]. split; [|by split; [|intros] ]. split; [|done].
    unfold find_in_level in E. destruct (_ !! _) as [g'|] eqn:Eg; [|done]. destruct (_ <? 0); [done|]. injection E as ->. by eapply list_elem_of_lookup_2.
Qed.

(** ** The search *)

Lemma has_visible_em ikey f :
  file_contents_ok f -> has_visible ikey f \/ ~ has_visible ikey f.
Proof.
  intros Hok. destruct (List.find (fun e => icmp ikey e.1 <=? 0) (contents f)) as [e|] eqn:E.
  - pose proof E as E'. apply find_first in E' as (l1 & l2 & El & He & _).
    destruct (Z.eqb_spec (ucmp (ExtractUserKey e.1) (ExtractUserKey ikey)) 0) as [Eu|Eu].
    + left. exists e. split; [rewrite El; apply elem_of_app; right; left|]. split; [done|lia].
    + right. intros (e1 & He1 & Hu1 & Hv1).
      destruct (find_visible f ikey e1 e Hok He1 Hu1 Hv1 E). done.
  - right. intros (e1 & He1 & Hu1 & Hv1). rewrite list_elem_of_In in He1.
    apply (find_none _ _ E) in He1. lia.
Qed.

(** The entry at which a search stops: the newest visible one of its file. *)
Definition best_in (ikey : bytes) (f : FileMetaData) (e : bytes * bytes) : Prop :=
  e ∈ contents f /\ ucmp (ExtractUserKey e.1) (ExtractUserKey ikey) = 0 /\ icmp ikey e.1 <= 0 /\
  (forall e', e' ∈ contents f -> ucmp (ExtractUserKey e'.1) (ExtractUserKey ikey) = 0 ->
     icmp ikey e'.1 <= 0 -> ExtractTag e'.1 <= ExtractTag e.1).

Lemma get_files_cases ikey level value files : Forall file_contents_ok files -> forall st,
  (Forall (fun f => ~ has_visible ikey f) files /\
   exists st', get_files user_comparator_ (ExtractUserKey ikey) ikey level files st value = inr st') \/
  (exists l1 f l2 e r st', files = l1 ++ f :: l2 /\ Forall (fun f => ~ has_visible ikey f) l1 /\
     best_in ikey f e /\ outcome e value = Some r /\
     get_files user_comparator_ (ExtractUserKey ikey) ikey level files st value = inl (r.1, r.2, st')).
Proof.
  induction 1 as [|f files Hf Hfs IH]; intros st; [left; split; [constructor|by exists st]|].
  destruct (has_visible_em ikey f Hf) as [Hv|Hn].
  - right. destruct (get_files_hit ikey level f files st value Hf Hv)
      as (e & r & He & Hu & Hi & Hb & Ho & E).
    exists [], f, files, e, r, (charge st f level). split; [done|]. split; [constructor|]. done.
  - rewrite get_files_skip by done.
    destruct (IH (charge st f level)) as [[Hall [st' E]]|(l1 & g & l2 & e & r & st' & -> & Hl1 & Hrest)].
    + left. split; [by constructor|by exists st'].
    + right. exists (f :: l1), g, l2, e, r, st'. split; [done|]. split; [by constructor|done].
Qed.

Definition none_visible (v : Version) (ikey : bytes) (lo hi : nat) : Prop :=
  forall level f, (lo <= level < hi)%nat -> f ∈ level_files v level -> ~ has_visible ikey f.

Lemma get_levels_cases {T} `{Arith T} MOD v ikey value : MOD <> 9 -> lsm v ->
  forall n lo (models : list (LearnedIndexData T)) st,
  (none_visible v ikey lo (lo + n) /\
   exists st', get_levels user_comparator_ MOD v (ExtractUserKey ikey) ikey (seq lo n) models st value =
     Some (NotFound [] [], value, st', models)) \/
  (exists level l1 f l2 e r st', (lo <= level < lo + n)%nat /\ none_visible v ikey lo level /\
     baseline_files v level ikey = l1 ++ f :: l2 /\ Forall (fun f => ~ has_visible ikey f) l1 /\
     best_in ikey f e /\ outcome e value = Some r /\
     get_levels user_comparator_ MOD v (ExtractUserKey ikey) ikey (seq lo n) models st value =
       Some (r.1, r.2, st', models)).
Proof.
  intros Hm Hl. induction n as [|n IH]; intros lo models st; simpl.
  { left. split; [intros level f Hlv; lia|by exists st]. }
  rewrite files_to_search_baseline by done.
  assert (Hc : Forall file_contents_ok (baseline_files v lo ikey)).
  { apply Forall_forall. intros f Hf. eapply lsm_contents; [done|]. by eapply baseline_files_sub. }
  destruct (get_files_cases ikey lo value _ Hc st)
    as [[Hall [st' E]]|(l1 & f & l2 & e & r & st' & El & Hl1 & Hb & Ho & E)]; rewrite E.
  - assert (Hlo : forall f, f ∈ level_files v lo -> ~ has_visible ikey f).
    { intros f Hf (e & He). destruct (baseline_files_complete v lo ikey f e Hl (conj Hf He)) as (g & e' & Hg & Hv' & _).
      rewrite Forall_forall in Hall. eapply Hall; [exact Hg|]. exists e'. apply Hv'. }
    assert (Hnv : forall hi, none_visible v ikey (S lo) hi -> none_visible v ikey lo hi).
    { intros hi Hn level f Hlv Hf. destruct (decide (level = lo)) as [->|]; [by apply Hlo|].
      apply (Hn level f); [lia|done]. }
    destruct (IH (S lo) models st')
      as [[Hn [st'' E']]|(level & l1 & f & l2 & e & r & st'' & Hlv & Hn & Hrest)].
    + left. split; [rewrite <- Nat.add_succ_comm; by apply Hnv|by exists st''].
    + right. exists level, l1, f, l2, e, r, st''. split; [lia|]. split; [by apply Hnv|done].
  - right. exists lo, l1, f, l2, e, r, st'. split; [lia|].
    split; [intros level g Hlv; lia|]. done.
Qed.

(** The entry the search stops at is the newest visible one of the version. *)
Lemma stop_is_newest v ikey level l1 f l2 e : lsm v -> none_visible v ikey 0 level ->
  baseline_files v level ikey = l1 ++ f :: l2 -> Forall (fun f => ~ has_visible ikey f) l1 ->
  best_in ikey f e -> newest v ikey e.
Proof.
  intros Hl Hn El Hl1 (He & Hu & Hi & Hb).
  assert (Hf : f ∈ level_files v level).
  { eapply baseline_files_sub; [done|]. rewrite El. apply elem_of_app. right. left. }
  split; [by exists level, f|]. intros level' f' e' (Hf' & He' & Hu' & Hi').
  assert (Hv' : has_visible ikey f') by (by exists e').
  assert (Hue : ucmp (ExtractUserKey e.1) (ExtractUserKey e'.1) = 0).
  { eapply cmp_eq_trans; [exact Hu|]. by apply cmp_eq_sym. }
  destruct (Nat.lt_trichotomy level' level) as [Hlt|[->|Hgt]].
  - destruct (Hn level' f'); [lia|done|done].
  - destruct (baseline_files_complete v level ikey f' e' Hl (conj Hf' (conj He' (conj Hu' Hi'))))
      as (g & e2 & Hin & (_ & He2 & Hu2 & Hi2) & Hle & Hg0). etrans; [exact Hle|]. rewrite El in Hin.
    apply elem_of_app in Hin as [Hin|Hin].
    { rewrite Forall_forall in Hl1. destruct (Hl1 g Hin). by exists e2. }
    apply elem_of_cons in Hin as [->|Hin]; [by apply Hb|].
    unfold baseline_files in El. destruct (Nat.eqb_spec level 0) as [->|Hne].
    + rewrite (Hg0 eq_refl) in *.
      assert (Hue2 : ucmp (ExtractUserKey e.1) (ExtractUserKey e2.1) = 0) by (eapply cmp_eq_trans; [exact Hu|]; by apply cmp_eq_sym).
      destruct (level0_files_spec v (ExtractUserKey ikey) Hl) as [Hs _]. rewrite El in Hs.
      apply StronglySorted_app in Hs as (_ & _ & Hs). apply StronglySorted_inv in Hs as [_ Hs].
      rewrite Forall_forall in Hs. specialize (Hs f' Hin).
      apply Z.lt_le_incl. eapply (lsm_newer v Hl (0%nat, f) (0%nat, f')); try done.
      right. done.
    + exfalso. destruct (find_in_level _ _ _ _) as [h|]; simpl in El.
      * destruct l1 as [|? [|? ?]]; simplify_eq/=. by apply elem_of_nil in Hin.
      * by destruct l1.
  - apply Z.lt_le_incl. eapply (lsm_newer v Hl (level, f) (level', f')); try done. by left.
Qed.

(** The result of a read. *)
Lemma Version_Get_spec {T} `{Arith T} (MOD : Z) (models : list (LearnedIndexData T))
    (v : Version) (u : bytes) (snap : Z) (value : bytes) :
  MOD <> 9 -> lsm v ->
  let k := newLookupKey u snap in
  let ikey := mkInternalKey u snap kTypeValue in
  exists s value' stats,
    Get user_comparator_ MOD models v k value = Some (s, value', stats, models) /\
    ((exists e, newest v ikey e /\ outcome e value = Some (s, value')) \/
     ((forall level f e, ~ visible v ikey level f e) /\ s = NotFound [] [] /\ value' = value)).
Proof.
  intros Hm Hl k ikey.
  assert (Hik : lookup_internal_key k = ikey).
  { unfold lookup_internal_key, k, newLookupKey. simpl. apply bdrop_app. }
  assert (Huk : lookup_user_key k = ExtractUserKey ikey).
  { unfold lookup_user_key. fold (lookup_internal_key k). rewrite Hik. unfold ExtractUserKey.
    f_equal. rewrite <- Hik. unfold lookup_internal_key, k, newLookupKey. cbn [start_ kstart_].
    rewrite bdrop_app, blen_app. lia. }
  unfold Get. rewrite Hik, Huk.
  destruct (get_levels_cases MOD v ikey value Hm Hl (Z.to_nat kNumLevels) 0 models
    (mkGetState None None)) as [[Hn [st' ->]]|
      (level & l1 & f & l2 & e & r & st' & Hlv & Hn & El & Hl1 & Hb & Ho & ->)].
  - do 3 eexists. split; [reflexivity|]. right. split; [|done].
    intros level f e (Hf & He & Hu & Hi). destruct (decide (level < Z.to_nat kNumLevels)%nat).
    + apply (Hn level f); [lia|done|]. by exists e.
    + unfold level_files in Hf. rewrite nth_overflow in Hf; [by apply elem_of_nil in Hf|].
      pose proof (lsm_levels v Hl). lia.
  - do 3 eexists. split; [reflexivity|]. left. exists e.
    split; [by eapply stop_is_newest|]. by destruct r.
Qed.

(** C8: [Version::Get] returns the newest visible entry.  In a version whose
    files satisfy the ordering invariants of the tree (levels above 0 sorted and
    disjoint, newer entries in smaller levels and, in level 0, in files with
    larger numbers), a read ends with the entry of the user key that has the
    largest sequence number at or below the snapshot: its value, or [NotFound]
    when it is a deletion; and with [NotFound] when the key has no visible
    entry in any file.  In the modes other than 9 (level models), and for a table
    reader that finds the first entry at or after a key ([TableReaderOk]; the path
    through the index block does, [disk_reader_ok] in TableCacheProofs). *)
Theorem version_get_newest {T} `{Arith T} (MOD : Z) (models : list (LearnedIndexData T))
    (v : Version) (u : bytes) (snap : Z) (value : bytes) :
  MOD <> 9 -> lsm v ->
  let k := newLookupKey u snap in
  let ikey := mkInternalKey u snap kTypeValue in
  exists s value' stats,
    Get user_comparator_ MOD models v k value = Some (s, value', stats, models) /\
    ((exists e, newest v ikey e /\ outcome e value = Some (s, value')) \/
     ((forall level f e, ~ visible v ikey level f e) /\ s = NotFound [] [] /\ value' = value)).
Proof. apply Version_Get_spec. Qed.
End Get.

(** * Level models lead to the same files *)

Section LevelModel.
#[local] Abbreviation icmp := (InternalKey_Compare BytewiseComparator).
#[local] Abbreviation ucmp := slice_compare.
#[local] Instance ucmp_total'' : TotalCompare ucmp := @Compare_total BytewiseComparator _.
#[local] Instance icmp_total'' : TotalCompare icmp := icmp_total BytewiseComparator.

(** The keys of a level as the system generates them: decimal, of one length,
    each file with at least two keys. *)
Definition level_key (key_size : Z) (k : bytes) : Prop :=
  decimal_key k /\ k <> [] /\ blen k = key_size /\ digits_value k < 2 ^ 63.

Definition level_file (key_size : Z) (f : FileMetaData) : Prop :=
  level_key key_size (smallest_user f) /\ level_key key_size (largest_user f) /\
  ucmp (smallest_user f) (largest_user f) < 0.

Definition file_keys (f : FileMetaData) : list bytes := [smallest_user f; largest_user f].
Definition file_values (f : FileMetaData) : list Z :=
  [digits_value (smallest_user f); digits_value (largest_user f)].
Definition level_values (files : list FileMetaData) : list Z := concat (map file_values files).

Lemma level_key_lt key_size a b : level_key key_size a -> level_key key_size b ->
  ucmp a b < 0 <-> digits_value a < digits_value b.
Proof.
  intros (Da & _ & La & _) (Db & _ & Lb & _).
  pose proof (slice_compare_digits a b ltac:(unfold blen in *; lia) Da Db). lia.
Qed.

Lemma level_values_elem files w : w ∈ level_values files ->
  exists f, f ∈ files /\ (w = digits_value (smallest_user f) \/ w = digits_value (largest_user f)).
Proof.
  unfold level_values. rewrite list_elem_of_In, in_concat. intros (l & Hl & Hw).
  apply in_map_iff in Hl as (f & <- & Hf). exists f. split; [by apply list_elem_of_In|].
  simpl in Hw. destruct Hw as [<-|[<-|[]]]; [by left|by right].
Qed.

(** No user key is spread over two files of the level. *)
Definition users_apart (files : list FileMetaData) : Prop :=
  Forall (file_wf BytewiseComparator) files /\ StronglySorted (fun f g => ucmp (largest_user f) (smallest_user g) < 0) files.

Lemma users_apart_disjoint files : users_apart files -> disjoint_sorted BytewiseComparator files.
Proof.
  intros [Hw Hs]. split; [done|]. clear Hw. induction Hs as [|f files Hs IH Hf]; constructor; [done|].
  eapply Forall_impl; [exact Hf|]. intros g Hg. apply icmp_lt. by left.
Qed.

Lemma users_apart_largest files i j f g : users_apart files -> files !! i = Some f -> files !! j = Some g -> (i < j)%nat ->
  ucmp (largest_user f) (smallest_user g) < 0.
Proof.
  intros [_ Hs] Hi Hj Hij. revert i j Hi Hj Hij. induction Hs as [|h files Hs IH Hh]; intros i j Hi Hj Hij; [done|].
  destruct j as [|j]; [lia|]. simpl in Hj. destruct i as [|i]; simpl in Hi.
  - injection Hi as ->. rewrite Forall_forall in Hh. apply Hh. by eapply list_elem_of_lookup_2.
  - apply (IH i j); [done..|lia].
Qed.

Lemma level_values_sorted key_size files :
  users_apart files -> Forall (level_file key_size) files ->
  StronglySorted Z.lt (level_values files).
Proof.
  intros [_ Hs] Hk. induction Hs as [|f files Hs IH Hf]; [constructor|].
  apply Forall_cons_1 in Hk as [(K1 & K2 & K3) Hk]. specialize (IH Hk).
  unfold level_values. cbn [map concat file_values app].
  apply (level_key_lt key_size) in K3; [|done..].
  assert (Hlater : forall w, w ∈ level_values files -> digits_value (largest_user f) < w).
  { intros w Hw. apply level_values_elem in Hw as (g & Hg & Hw).
    rewrite Forall_forall in Hf, Hk. specialize (Hf g Hg). destruct (Hk g Hg) as (G1 & G2 & G3).
    apply (level_key_lt key_size) in Hf; [|done..]. apply (level_key_lt key_size) in G3; [|done..].
    lia. }
  constructor; [constructor; [done|]|].
  - apply Forall_forall. intros w Hw. by apply Hlater.
  - apply Forall_cons. split; [done|]. apply Forall_forall. intros w Hw.
    specialize (Hlater w Hw). lia.
Qed.

Lemma pairs_lookup {A} (g : FileMetaData -> A) (h : FileMetaData -> A) files j f :
  files !! j = Some f ->
  concat (map (fun f => [g f; h f]) files) !! (2 * j)%nat = Some (g f) /\
  concat (map (fun f => [g f; h f]) files) !! S (2 * j) = Some (h f).
Proof.
  revert j. induction files as [|f0 files IH]; intros [|j] Hj; [done..| |].
  - injection Hj as ->. done.
  - simpl in Hj. specialize (IH j Hj). replace (2 * S j)%nat with (S (S (2 * j))) by lia. exact IH.
Qed.

Lemma FillLevel_keys (d : LearnedIndexData Q) files : files <> [] ->
  FillLevel files d = (true, with_keys d (string_keys d ++ concat (map file_keys files))).
Proof.
  intros Hne. unfold FillLevel. destruct files as [|f0 fs] eqn:E; [done|]. rewrite <- E. clear.
  do 2 f_equal. generalize (string_keys d). induction files as [|f files IH]; intros acc; simpl.
  - by rewrite app_nil_r.
  - rewrite IH. by rewrite <- !app_assoc.
Qed.

Lemma key_values_level key_size files : Forall (level_file key_size) files ->
  key_values (concat (map file_keys files)) (level_values files).
Proof.
  induction 1 as [|f files (K1 & K2 & _) _ IH]; [constructor|].
  destruct K1 as (? & ? & ? & ?), K2 as (? & ? & ? & ?).
  constructor; [done|]. constructor; [done|exact IH].
Qed.

Lemma length_level_values files : length (level_values files) = (2 * length files)%nat.
Proof. induction files as [|f files IH]; simpl; [done|]. unfold level_values in IH. rewrite IH. lia. Qed.

Lemma in_range_alt u f :
  (ucmp (smallest_user f) u <=? 0) && (0 <=? ucmp (largest_user f) u) =
  in_range BytewiseComparator u f.
Proof.
  unfold in_range. simpl.
  pose proof (cmp_flip_le (smallest_user f) u) as F1. pose proof (cmp_flip_le u (largest_user f)) as F2.
  simpl in F1, F2. f_equal; apply eq_true_iff_eq; rewrite !Z.leb_le; tauto.
Qed.

Lemma in_range_unique files i j u f g :
  users_apart files -> files !! i = Some f -> files !! j = Some g ->
  in_range BytewiseComparator u f = true -> in_range BytewiseComparator u g = true -> i = j.
Proof.
  assert (W : forall i j f g, users_apart files -> files !! i = Some f ->
    files !! j = Some g -> in_range BytewiseComparator u f = true ->
    in_range BytewiseComparator u g = true -> ~ (i < j)%nat).
  { intros i' j' f' g' Hd Hi Hj Hf Hg Hlt.
    pose proof (users_apart_largest files i' j' f' g' Hd Hi Hj Hlt) as Hc.
    unfold in_range in Hf, Hg. simpl in Hc, Hf, Hg.
    apply andb_true_iff in Hf as [_ Hf]. apply andb_true_iff in Hg as [Hg _].
    rewrite Z.leb_le in Hf, Hg. apply (tc_flip_le ucmp) in Hg.
    pose proof (tc_le_lt_trans ucmp _ _ _ Hf Hc) as H1.
    pose proof (tc_lt_le_trans ucmp _ _ _ H1 Hg). rewrite (tc_refl ucmp) in *. lia. }
  intros Hd Hi Hj Hf Hg. pose proof (W i j f g Hd Hi Hj Hf Hg). pose proof (W j i g f Hd Hj Hi Hg Hf).
  lia.
Qed.

Lemma find_ext {A} (P Q : A -> bool) l : (forall x, P x = Q x) -> List.find P l = List.find Q l.
Proof. intros E. induction l as [|x l IH]; simpl; [done|]. by rewrite E, IH. Qed.

Lemma scan_interval_alt files u lo up :
  scan_interval BytewiseComparator files u lo up =
  List.find (in_range BytewiseComparator u) (take (Z.to_nat (up - lo + 1)) (drop (Z.to_nat lo) files)).
Proof. unfold scan_interval. apply find_ext. apply in_range_alt. Qed.

Lemma scan_interval_hit files u j f lo up :
  users_apart files -> files !! j = Some f ->
  in_range BytewiseComparator u f = true -> 0 <= lo <= Z.of_nat j -> Z.of_nat j <= up ->
  scan_interval BytewiseComparator files u lo up = Some f.
Proof.
  intros Hd Hj Hr Hlo Hup. rewrite scan_interval_alt.
  set (l := take _ _).
  assert (Hin : l !! (j - Z.to_nat lo)%nat = Some f).
  { unfold l. rewrite lookup_take_lt by lia. rewrite lookup_drop. rewrite <- Hj. f_equal. lia. }
  destruct (List.find (in_range BytewiseComparator u) l) as [g|] eqn:E.
  - apply find_some in E as [Hg Hgr]. apply list_elem_of_In, list_elem_of_lookup in Hg as [i Hi].
    unfold l in Hi. apply lookup_take_Some in Hi as [Hi _]. rewrite lookup_drop in Hi.
    assert (E : (Z.to_nat lo + i)%nat = j) by (by eapply in_range_unique). congruence.
  - apply list_elem_of_lookup_2, list_elem_of_In in Hin. apply (find_none _ _ E) in Hin. congruence.
Qed.

Lemma scan_interval_miss files u lo up :
  (forall f, f ∈ files -> in_range BytewiseComparator u f = false) ->
  scan_interval BytewiseComparator files u lo up = None.
Proof.
  intros Hn. rewrite scan_interval_alt.
  destruct (List.find _ _) as [g|] eqn:E; [|done]. exfalso.
  apply find_some in E as [Hg Hgr]. apply list_elem_of_In in Hg.
  apply list_elem_of_lookup in Hg as [i Hi]. apply lookup_take_Some in Hi as [Hi _].
  rewrite lookup_drop in Hi. apply list_elem_of_lookup_2, Hn in Hi. congruence.
Qed.

(** The baseline path finds the file in whose range the user key lies, unless
    all the file's entries sort before the lookup key. *)
Lemma find_in_level_range files u ikey :
  users_apart files -> ExtractUserKey ikey = u ->
  (forall j f, files !! j = Some f -> in_range BytewiseComparator u f = true ->
     find_in_level BytewiseComparator files u ikey = if icmp (largest f) ikey <? 0 then None else Some f) /\
  ((forall f, f ∈ files -> in_range BytewiseComparator u f = false) ->
     find_in_level BytewiseComparator files u ikey = None).
Proof.
  intros Hd Hu. unfold find_in_level.
  destruct (FindFile_spec BytewiseComparator files ikey (users_apart_disjoint files Hd)) as (Hr & Hb & Ha).
  set (r := FindFile BytewiseComparator files ikey) in *.
  assert (Hrange : forall g, files !! r = Some g -> ~ ucmp u (smallest_user g) < 0 ->
            in_range BytewiseComparator u g = true).
  { intros g Hg Hs. specialize (Ha r g Hg (le_n r)). apply icmp_le in Ha.
    rewrite Hu in Ha. unfold in_range, largest_user. simpl in *. lia. }
  split.
  - intros j f Hj Hf.
    destruct (files !! r) as [g|] eqn:Eg; simpl.
    + destruct (Z.ltb_spec (ucmp u (smallest_user g)) 0) as [Hlt|Hge].
      * assert (Hless : icmp (largest f) ikey < 0); [|by replace (_ <? 0) with true by lia]. apply (Hb j f Hj).
        destruct (decide (j < r)%nat); [done|]. exfalso.
        assert (ucmp (smallest_user f) u <= 0).
        { unfold in_range in Hf. simpl in Hf. apply (tc_flip_le ucmp). lia. }
        destruct (decide (j = r)) as [->|].
        { rewrite Hj in Eg. injection Eg as ->. apply (tc_flip_le ucmp) in H. lia. }
        pose proof (users_apart_largest files r j g f Hd Eg Hj ltac:(lia)) as Hc.
        pose proof (file_wf_user BytewiseComparator g (disjoint_wf BytewiseComparator _ _ _ (users_apart_disjoint files Hd) Eg)).
        simpl in *. pose proof (tc_lt_le_trans ucmp _ _ _ Hc H) as H1.
        pose proof (tc_le_lt_trans ucmp _ _ _ H0 H1) as H2.
        pose proof (tc_lt_trans ucmp _ _ _ H2 Hlt). rewrite (tc_refl ucmp) in *. lia.
      * specialize (Hrange g eq_refl ltac:(simpl; lia)).
        assert (r = j) as Erj by (by eapply in_range_unique). assert (g = f) as -> by congruence.
        specialize (Ha r f Eg (le_n r)). apply (tc_flip_le icmp) in Ha. by replace (_ <? 0) with false by lia.
    + assert (Hless : icmp (largest f) ikey < 0); [|by replace (_ <? 0) with true by lia]. apply (Hb j f Hj). apply lookup_lt_Some in Hj.
      apply lookup_ge_None_1 in Eg. lia.
  - intros Hn. destruct (files !! r) as [g|] eqn:Eg; [|done]. simpl.
    destruct (Z.ltb_spec (ucmp u (smallest_user g)) 0); [done|]. exfalso.
    specialize (Hrange g eq_refl ltac:(simpl; lia)). rewrite Hn in Hrange; [done|].
    by eapply list_elem_of_lookup_2.
Qed.

(** The model of a level predicts, for a key in the range of the [j]-th file,
    an interval that contains [j]. *)
Lemma level_interval key_size files (d : LearnedIndexData Q) awaiting err :
  users_apart files -> Forall (level_file key_size) files ->
  files <> [] -> blen files <= 2 ^ 31 -> (forall c, awaiting c = false) ->
  is_level d = true -> string_keys d = [] -> error d = inject_Z err -> 1 <= err < 2 ^ 32 ->
  exists d', Learn awaiting (FillLevel files d).2 = Some (true, d') /\ (Learned d').1 = true /\
    MaxPosition d' = 2 * blen files - 1 /\
    forall j f u, files !! j = Some f -> level_key key_size u ->
      in_range BytewiseComparator u f = true ->
      exists lo up d'', GetPosition d' u = Some ((lo, up), d'') /\
        0 <= lo <= Z.of_nat j /\ Z.of_nat j <= up.
Proof.
  intros Hd Hk Hne Hlen Haw Hlv Hks He Herr.
  rewrite FillLevel_keys by done. rewrite Hks. simpl.
  set (d1 := with_keys d _). set (vs := level_values files).
  pose proof (key_values_level key_size files Hk) as Hkv.
  pose proof (level_values_sorted key_size files Hd Hk) as Hs.
  pose proof (length_level_values files) as Hl. fold vs in Hkv, Hs, Hl.
  assert (Hbl : blen vs = 2 * blen files) by (unfold blen; rewrite Hl; lia).
  assert (Hlf : 0 < blen files) by (destruct files; [done|]; rewrite blen_cons; pose proof (blen_nonneg files); lia).
  destruct (Learn_exact d1 awaiting vs err) as (d' & groups & real & dummy & E & Hm);
    [done|lia|by right|done|done|lia| | | |].
  { intros Ev. rewrite Ev, (@blen_nil Z) in Hbl. lia. }
  { intros Ev. rewrite Ev in Hbl. unfold blen in Hbl at 1. simpl in Hbl. lia. }
  { intros _. rewrite Hl. apply Nat.even_even. }
  exists d'. split; [done|]. pose proof Hm as [Hsg Hld Her Hil Hks' Hsz Hmin Hmax Htr].
  split; [unfold Learned; destruct (learned_not_atomic d'); [done|]; by rewrite Hld|].
  split; [unfold MaxPosition; rewrite Hsz, Hbl; apply u64_small; lia|].
  intros j f u Hj (Du & Nu & Lu & Bu) Hr.
  change (is_level d1) with (is_level d) in Htr, Hil. rewrite Hlv in Htr, Hil.
  change (error d1) with (error d) in Htr, Her. simpl in Htr.
  destruct (pairs_lookup (fun f => digits_value (smallest_user f))
    (fun f => digits_value (largest_user f)) files j f Hj) as [P1 P2].
  assert (Hlk : level_file key_size f) by (rewrite Forall_lookup in Hk; by eapply Hk).
  destruct Hlk as (K1 & K2 & _).
  assert (Ht : digits_value (smallest_user f) <= digits_value u <= digits_value (largest_user f)).
  { unfold in_range in Hr. simpl in Hr. apply andb_true_iff in Hr as [R1 R2]. rewrite Z.leb_le in R1, R2.
    pose proof (level_key_lt key_size u (smallest_user f) (conj Du (conj Nu (conj Lu Bu))) K1).
    pose proof (level_key_lt key_size (largest_user f) u K2 (conj Du (conj Nu (conj Lu Bu)))).
    apply (tc_flip_le ucmp) in R2. lia. }
  destruct (trained_between _ vs groups real j _ _ (digits_value u) Htr Hs P1 P2 Ht) as (s & Hf & Hw).
  destruct (numbered_head_last vs _ _ Hs P1) as (v0 & vl & Hh & Hlst & Hb1).
  destruct (numbered_head_last vs _ _ Hs P2) as (v0' & vl' & Hh' & Hlst' & Hb2).
  assert (v0' = v0) as -> by congruence. assert (vl' = vl) as -> by congruence.
  rewrite (GetPosition_exact d1 d' groups vs real dummy u (digits_value u) v0 vl s Hm Hs) by
    (done || lia || by apply SliceToInteger_key).
  rewrite He in Hw. pose proof (lookup_lt_Some _ _ _ Hj) as Hjl.
  assert (He1 : (1 <= inject_Z err)%Q) by (change 1%Q with (inject_Z 1); rewrite <- Zle_Qle; lia).
  set (r := ((inject_Z (digits_value u) * seg_k s + seg_b s) / 2)%Q).
  assert (Hr2 : (2 * r == inject_Z (digits_value u) * seg_k s + seg_b s)%Q) by (unfold r; field).
  destruct (interval_exact (with_served d' (i32 (served d' + 1))) s (digits_value u) err (Z.of_nat j) r)
    as (lo & up & -> & Hlo & Hup & _); simpl.
  - congruence.
  - lia.
  - rewrite Hsz, Hbl. unfold blen in *. lia.
  - rewrite Hsz, Hbl. lia.
  - rewrite Hil. unfold r. reflexivity.
  - lra.
  - lra.
  - do 3 eexists. split; [reflexivity|]. lia.
Qed.

Lemma GetPosition_served (d d' : LearnedIndexData Q) u b :
  GetPosition d u = Some (b, d') -> d' = with_served d (i32 (served d + 1)).
Proof.
  unfold GetPosition. repeat (mcase; try discriminate); intros E; by injection E as _ <-.
Qed.

End LevelModel.

(** * Instances *)

Definition model_files : list FileMetaData :=
  [example_file 3 (str "10") (str "19"); example_file 4 (str "30") (str "55")].


(** A reader over given contents. *)
Definition list_reader (user : Comparator) (c : FileMetaData -> list (bytes * bytes)) : TableReader := {|
  table_get f ikey := (OK, List.find (fun e => InternalKey_Compare user ikey e.1 <=? 0) (c f)) |}.

Definition list_reader_ok (user : Comparator) (c : FileMetaData -> list (bytes * bytes)) :
  @TableReaderOk user (list_reader user c).
Proof.
  refine (@Build_TableReaderOk user (list_reader user c) c _).
  intros f ikey _. eexists. split; [reflexivity|].
  by destruct (List.find _ (c f)) as [e|].
Defined.

Definition get_contents (f : FileMetaData) : list (bytes * bytes) :=
  if number f =? 9 then [(mkInternalKey (str "b") 7 kTypeDeletion, [])]
  else if number f =? 3 then [(mkInternalKey (str "b") 4 kTypeValue, str "old")]
  else [].
Definition get_version : Version :=
  mkVersion [[newFileMetaData 9 100 (mkInternalKey (str "b") 7 kTypeDeletion)
                (mkInternalKey (str "b") 7 kTypeDeletion)];
             [newFileMetaData 3 100 (mkInternalKey (str "b") 4 kTypeValue)
                (mkInternalKey (str "b") 4 kTypeValue)]] None (-1) (0, 1) 0.

Lemma get_version_level level f : f ∈ level_files get_version level ->
  (level = 0%nat /\ number f = 9 /\ f = newFileMetaData 9 100 (mkInternalKey (str "b") 7 kTypeDeletion)
     (mkInternalKey (str "b") 7 kTypeDeletion)) \/
  (level = 1%nat /\ number f = 3 /\ f = newFileMetaData 3 100 (mkInternalKey (str "b") 4 kTypeValue)
     (mkInternalKey (str "b") 4 kTypeValue)).
Proof.
  unfold level_files. destruct level as [|[|level]]; simpl.
  - rewrite list_elem_of_singleton. intros ->. by left.
  - rewrite list_elem_of_singleton. intros ->. by right.
  - destruct level; by intros ?%elem_of_nil.
Qed.

Lemma get_version_lsm :
  @lsm BytewiseComparator (list_reader BytewiseComparator get_contents)
    (list_reader_ok BytewiseComparator get_contents) get_version.
Proof.
  split.
  - intros level Hl. destruct level as [|[|level]]; [lia| |]; unfold level_files; simpl.
    + split; [split|]; repeat constructor; vm_compute; (reflexivity || discriminate).
    + destruct level; (split; [split|]; constructor).
  - vm_compute. lia.
  - intros level f Hf. apply get_version_level in Hf as [(_ & _ & ->)|(_ & _ & ->)];
      (split; [repeat constructor|]; split; [apply Forall_singleton; split;
       [do 3 eexists; split; [reflexivity|vm_compute; intuition discriminate]|];
       vm_compute; intuition discriminate|split; reflexivity]).
  - apply NoDup_singleton.
  - intros [l1 f1] [l2 f2] e e' H1 H2 Hn He He' _. simpl in *.
    apply get_version_level in H1 as [(-> & _ & ->)|(-> & _ & ->)];
    apply get_version_level in H2 as [(-> & _ & ->)|(-> & _ & ->)];
      destruct Hn as [Hn|(? & ? & Hn)]; simpl in *; try lia.
    unfold get_contents in He, He'. simpl in He, He'.
    apply list_elem_of_singleton in He as ->. apply list_elem_of_singleton in He' as ->.
    vm_compute. done.
Qed.

Lemma version_get_newest_witness :
  exists s value' stats,
    @Get BytewiseComparator (list_reader BytewiseComparator get_contents) Q exact 5 [] get_version
      (newLookupKey (str "b") 9) [] = Some (s, value', stats, []) /\
    ((exists e, @newest BytewiseComparator (list_reader BytewiseComparator get_contents)
        (list_reader_ok BytewiseComparator get_contents) get_version
        (mkInternalKey (str "b") 9 kTypeValue) e /\ outcome e [] = Some (s, value')) \/
     ((forall level f e, ~ @visible BytewiseComparator (list_reader BytewiseComparator get_contents)
        (list_reader_ok BytewiseComparator get_contents) get_version
        (mkInternalKey (str "b") 9 kTypeValue) level f e) /\ s = NotFound [] [] /\ value' = [])).
Proof.
  apply (@version_get_newest BytewiseComparator BytewiseComparator_ok
    (list_reader BytewiseComparator get_contents) (list_reader_ok BytewiseComparator get_contents)
    Q exact 5 [] get_version (str "b") 9 []); [lia|apply get_version_lsm].
Defined.
