(* ===== verification/VersionBuilder.v ===== *)
(** db/version_set.cc, class [VersionSet::Builder]: edits are accumulated on
    top of a version and saved as the next one.  The contents of a level are
    specified as a map from file numbers to files; the builder refines it. *)

From stdpp Require Import base gmap list sorting strings.
From S2P Require Import Prelude Status Coding Comparator Logging DbFormat VersionEdit Version.

#[local] Open Scope Z_scope.

(** [explicit Version(VersionSet* vset)]; a score is a fraction. *)
Definition newVersion : Version :=
  mkVersion (replicate (Z.to_nat kNumLevels) []) None (-1) (-1, 1) (-1).

(** * State *)

(** [deleted_files] is a [std::set<uint64_t>]; [added_files] a set of files
    ordered by [BySmallestKey], kept as its elements in order. *)
Record LevelState := mkLevelState { deleted_files : gset Z; added_files : list FileMetaData }.

(** [vset_] is seen through [compact_pointer_], the array of the version set
    that [Apply] writes to. *)
Record Builder := mkBuilder {
  compact_pointer_ : list bytes;
  base_ : Version;
  levels_ : list LevelState;
}.

Definition newBuilder (compact_pointer : list bytes) (base : Version) : Builder :=
  mkBuilder compact_pointer base (replicate (Z.to_nat kNumLevels) (mkLevelState ∅ [])).

Definition with_refs (n : Z) (f : FileMetaData) : FileMetaData :=
  mkFileMetaData n (allowed_seeks f) (number f) (file_size f) (smallest f) (largest f) (num_keys f).
Definition with_allowed_seeks (n : Z) (f : FileMetaData) : FileMetaData :=
  mkFileMetaData (refs f) n (number f) (file_size f) (smallest f) (largest f) (num_keys f).

(** The object made for a new file. *)
Definition fresh_file (f : FileMetaData) : FileMetaData :=
  let f := with_refs 1 f in
  let f := with_allowed_seeks (i32 (file_size f / 16384)) f in
  if allowed_seeks f <? 100 then with_allowed_seeks 100 f else f.

Section Builder.
Context (user_comparator_ : Comparator).
#[local] Abbreviation icmp := (InternalKey_Compare user_comparator_).

Definition BySmallestKey (f1 f2 : FileMetaData) : bool :=
  let r := icmp (smallest f1) (smallest f2) in
  if negb (r =? 0) then r <? 0 else number f1 <? number f2.

(** [FileSet::insert]: an element equivalent to a present one is not inserted. *)
Fixpoint FileSet_insert (f : FileMetaData) (s : list FileMetaData) : list FileMetaData :=
  match s with
  | [] => [f]
  | g :: s' =>
      if BySmallestKey f g then f :: s
      else if BySmallestKey g f then g :: FileSet_insert f s'
      else s
  end.

(** * Apply *)

Definition delete_file (levels : list LevelState) (d : Z * Z) : list LevelState :=
  alter (fun st => mkLevelState ({[d.2]} ∪ deleted_files st) (added_files st)) (Z.to_nat d.1) levels.

Definition add_file (levels : list LevelState) (nf : Z * FileMetaData) : list LevelState :=
  let f := fresh_file nf.2 in
  alter (fun st => mkLevelState (deleted_files st ∖ {[number f]}) (FileSet_insert f (added_files st)))
    (Z.to_nat nf.1) levels.

Definition Apply (b : Builder) (edit : VersionEdit) : Builder :=
  let pointers := fold_left (fun ps cp => <[Z.to_nat cp.1 := cp.2]> ps)
                    (compact_pointers_ edit) (compact_pointer_ b) in
  let levels := fold_left delete_file (deleted_files_ edit) (levels_ b) in
  let levels := fold_left add_file (new_files_ edit) levels in
  mkBuilder pointers (base_ b) levels.

(** * SaveTo *)

(** The file is shared with the base version; its count goes up.  [None]: the
    assertion that the files of a level above 0 do not overlap fails. *)
Definition MaybeAddFile (st : LevelState) (level : nat) (files : list FileMetaData)
    (f : FileMetaData) : option (list FileMetaData) :=
  if decide (number f ∈ deleted_files st) then Some files
  else
    let clash := match last files with
      | Some g => (0 <? level)%nat && negb (icmp (largest g) (smallest f) <? 0)
      | None => false
      end in
    if clash then None else Some (files ++ [with_refs (refs f + 1) f]).

Fixpoint add_files (st : LevelState) (level : nat) (files fs : list FileMetaData)
  : option (list FileMetaData) :=
  match fs with
  | [] => Some files
  | f :: fs' => files ← MaybeAddFile st level files f; add_files st level files fs'
  end.

(** [std::upper_bound(base_iter, base_end, f, cmp)]: the files up to the first
    one after [f], and the rest. *)
Fixpoint upper_bound (f : FileMetaData) (base : list FileMetaData)
  : list FileMetaData * list FileMetaData :=
  match base with
  | [] => ([], [])
  | g :: base' =>
      if BySmallestKey f g then ([], base)
      else let '(l, r) := upper_bound f base' in (g :: l, r)
  end.

Fixpoint save_level (st : LevelState) (level : nat) (added base files : list FileMetaData)
  : option (list FileMetaData) :=
  match added with
  | [] => add_files st level files base
  | f :: added' =>
      let '(smaller, rest) := upper_bound f base in
      files ← add_files st level files smaller;
      files ← MaybeAddFile st level files f;
      save_level st level added' rest files
  end.

(** The debug check after the merge: [true] calls [abort]. *)
Fixpoint overlapping_ranges (files : list FileMetaData) : bool :=
  match files with
  | f :: ((g :: _) as rest) => (0 <=? icmp (largest f) (smallest g)) || overlapping_ranges rest
  | _ => false
  end.

Definition save_one (b : Builder) (v : Version) (level : nat) : option (list FileMetaData) :=
  let st := default (mkLevelState ∅ []) (levels_ b !! level) in
  files ← save_level st level (added_files st) (level_files (base_ b) level) (level_files v level);
  if (0 <? level)%nat && overlapping_ranges files then None else Some files.

Definition SaveTo (b : Builder) (v : Version) : option Version :=
  files ← mapM (save_one b v) (seq 0 (Z.to_nat kNumLevels));
  Some (mkVersion files (file_to_compact_ v) (file_to_compact_level_ v)
          (compaction_score_ v) (compaction_level_ v)).
End Builder.
