(* ===== verification/VersionBuilderProofs.v ===== *)
(** The builder of versions (VersionBuilder) refines a map from file numbers to
    files, keeps every level ordered and disjoint, and does not care whether
    edits are applied one at a time or together.
    At the end, [ApplyToModel]: a new version takes over the level models of the
    levels that an edit leaves alone. *)

From stdpp Require Import base gmap list sorting strings.
From S2P Require Import Prelude Status Coding Logging Comparator DbFormat VersionEdit Version VersionBuilder.

#[local] Open Scope Z_scope.

(** A fold of updates of single slots, seen at one slot. *)
Lemma fold_alter_lookup {A B} (idx : A -> nat) (g : A -> B -> B) (l : list A) : forall (ls : list B) i,
  fold_left (fun ls a => alter (g a) (idx a) ls) l ls !! i =
  (fun st => fold_left (fun st a => g a st) (filter (fun a => idx a = i) l) st) <$> (ls !! i).
Proof.
  induction l as [|a l IH]; intros ls i; simpl; [by destruct (ls !! i)|].
  rewrite IH. rewrite filter_cons. destruct (decide (idx a = i)) as [<-|Hne].
  - rewrite list_lookup_alter_eq. by destruct (ls !! idx a).
  - by rewrite list_lookup_alter_ne.
Qed.

Lemma fold_left_fmap {A B C} (f : A -> C -> A) (g : B -> C) (l : list B) : forall a,
  fold_left (fun a x => f a (g x)) l a = fold_left f (g <$> l) a.
Proof. induction l as [|x l IH]; intros a; [done|]. apply IH. Qed.

Lemma mapM_exists {A B} (f : A -> option B) (P : A -> B -> Prop) (l : list A) :
  (forall x, x ∈ l -> exists y, f x = Some y /\ P x y) ->
  exists k, mapM f l = Some k /\ Forall2 P l k.
Proof.
  induction l as [|x l IH]; intros Hl; [exists []; by repeat constructor|].
  destruct (Hl x) as (y & E & HP); [by left|]. destruct IH as (k & Ek & Hk); [intros; apply Hl; by right|].
  exists (y :: k). simpl. rewrite E. simpl. rewrite Ek. by repeat constructor.
Qed.

Section Proofs.
Context (user_comparator_ : Comparator) `{!@ComparatorOk user_comparator_}.
#[local] Abbreviation icmp := (InternalKey_Compare user_comparator_).
#[local] Abbreviation bsk := (BySmallestKey user_comparator_).
#[local] Existing Instance icmp_total.

(** * The order of the files of a level *)

(** Not after, in the order of [BySmallestKey]. *)
Definition file_le (f g : FileMetaData) : Prop := bsk g f = false.

Lemma bsk_true f g : bsk f g = true <->
  icmp (smallest f) (smallest g) < 0 \/
  (icmp (smallest f) (smallest g) = 0 /\ number f < number g).
Proof. unfold BySmallestKey. destruct (Z.eqb_spec (icmp (smallest f) (smallest g)) 0); simpl; lia. Qed.

Lemma file_le_spec f g : file_le f g <->
  icmp (smallest f) (smallest g) < 0 \/
  (icmp (smallest f) (smallest g) = 0 /\ number f <= number g).
Proof.
  unfold file_le. rewrite <- not_true_iff_false, bsk_true.
  pose proof (tc_antisym (cmp := icmp) (smallest f) (smallest g)).
  pose proof (tc_antisym (cmp := icmp) (smallest g) (smallest f)). lia.
Qed.

Lemma file_le_trans f g h : file_le f g -> file_le g h -> file_le f h.
Proof.
  rewrite !file_le_spec. intros [H1|[H1 N1]] [H2|[H2 N2]].
  - left. by eapply (tc_lt_trans icmp).
  - left. eapply (tc_lt_le_trans icmp); [done|]. lia.
  - left. eapply (tc_le_lt_trans icmp); [|done]. lia.
  - right. split; [by eapply (tc_eq_trans icmp)|lia].
Qed.

Lemma bsk_le f g : bsk f g = true -> file_le f g.
Proof. rewrite bsk_true, file_le_spec. lia. Qed.

Lemma file_le_smallest f g : file_le f g -> icmp (smallest f) (smallest g) <= 0.
Proof. rewrite file_le_spec. lia. Qed.

Lemma file_le_antisym f g : file_le f g -> file_le g f -> number f = number g.
Proof.
  rewrite !file_le_spec. pose proof (tc_antisym (cmp := icmp) (smallest f) (smallest g)).
  pose proof (tc_antisym (cmp := icmp) (smallest g) (smallest f)). lia.
Qed.

(** * The merge *)

Fixpoint merge_files (added base : list FileMetaData) : list FileMetaData :=
  match added with
  | [] => base
  | f :: added' =>
      let '(smaller, rest) := upper_bound user_comparator_ f base in
      smaller ++ f :: merge_files added' rest
  end.

Lemma add_files_app st level fs1 : forall files fs2,
  add_files user_comparator_ st level files (fs1 ++ fs2) =
  (files ← add_files user_comparator_ st level files fs1;
   add_files user_comparator_ st level files fs2).
Proof.
  induction fs1 as [|f fs1 IH]; intros files fs2; simpl; [done|].
  destruct (MaybeAddFile _ _ _ _ _); simpl; [apply IH|done].
Qed.

Lemma save_level_merge st level added : forall base files,
  save_level user_comparator_ st level added base files =
  add_files user_comparator_ st level files (merge_files added base).
Proof.
  induction added as [|f added IH]; intros base files; simpl; [done|].
  destruct (upper_bound user_comparator_ f base) as [s r]. rewrite add_files_app.
  destruct (add_files _ _ _ files s) as [files1|]; simpl; [|done].
  destruct (MaybeAddFile _ _ _ _ _); simpl; [apply IH|done].
Qed.

Lemma upper_bound_app f base :
  let '(s, r) := upper_bound user_comparator_ f base in base = s ++ r.
Proof.
  induction base as [|g base IH]; simpl; [done|]. destruct (bsk f g); [done|].
  destruct (upper_bound user_comparator_ f base) as [s r]. simpl. by f_equal.
Qed.

Lemma upper_bound_le f base : StronglySorted file_le base ->
  let '(s, r) := upper_bound user_comparator_ f base in
  Forall (fun g => file_le g f) s /\ Forall (file_le f) r.
Proof.
  induction 1 as [|g base Hs IH Hg]; simpl; [done|]. destruct (bsk f g) eqn:E.
  - split; [done|]. apply bsk_le in E. constructor; [done|].
    eapply Forall_impl; [exact Hg|]. intros h Hh. by eapply file_le_trans.
  - destruct (upper_bound user_comparator_ f base) as [s r]. destruct IH as [IH1 IH2].
    split; [|done]. by constructor.
Qed.

Lemma merge_perm added : forall base, merge_files added base ≡ₚ base ++ added.
Proof.
  induction added as [|f added IH]; intros base; simpl; [by rewrite app_nil_r|].
  pose proof (upper_bound_app f base) as E. destruct (upper_bound user_comparator_ f base) as [s r].
  subst. rewrite IH. by rewrite <- app_assoc, Permutation_middle.
Qed.

Lemma merge_sorted added : forall base, StronglySorted file_le added -> StronglySorted file_le base ->
  StronglySorted file_le (merge_files added base).
Proof.
  induction added as [|f added IH]; intros base Ha Hb; simpl; [done|].
  inversion Ha as [|?? Ha' Hf]; subst.
  pose proof (upper_bound_app f base) as E. pose proof (upper_bound_le f base Hb) as U.
  destruct (upper_bound user_comparator_ f base) as [s r]. destruct U as [U1 U2]. subst base.
  apply StronglySorted_app in Hb as (Hsr & Hs & Hr).
  rewrite Forall_forall in U1, U2, Hf.
  assert (Hge : forall g, g ∈ merge_files added r -> file_le f g).
  { intros g. rewrite merge_perm, elem_of_app. intros [|]; auto. }
  apply StronglySorted_app. split; [|split; [done|]].
  - intros g h Hg. rewrite elem_of_cons. intros [->|Hh]; [auto|].
    eapply file_le_trans; [by apply U1|by apply Hge].
  - constructor; [by apply IH|]. by apply Forall_forall.
Qed.

Lemma FileSet_insert_spec f s : StronglySorted file_le s -> number f ∉ (number <$> s) ->
  FileSet_insert user_comparator_ f s ≡ₚ f :: s /\
  StronglySorted file_le (FileSet_insert user_comparator_ f s).
Proof.
  induction 1 as [|g s Hs IH Hg]; intros Hn; simpl; [split; [done|repeat constructor]|].
  simpl in Hn. apply not_elem_of_cons in Hn as [Hne Hn]. destruct (IH Hn) as [IP IS].
  rewrite Forall_forall in Hg.
  destruct (bsk f g) eqn:E1; [|destruct (bsk g f) eqn:E2].
  - split; [done|]. apply bsk_le in E1. constructor; [constructor; [done|by apply Forall_forall]|].
    apply Forall_forall. intros h. rewrite elem_of_cons. intros [->|Hh]; [done|].
    eapply file_le_trans; [exact E1|auto].
  - split; [rewrite IP; apply Permutation_swap|]. constructor; [done|].
    apply Forall_forall. intros h. rewrite IP, elem_of_cons.
    intros [->|Hh]; [by apply bsk_le|auto].
  - exfalso. apply Hne. by apply file_le_antisym.
Qed.

(** * Ranges *)

(** Two files of a level above 0 have disjoint ranges. *)
Definition apart (f g : FileMetaData) : Prop :=
  icmp (largest f) (smallest g) < 0 \/ icmp (largest g) (smallest f) < 0.

#[export] Instance apart_dec f g : Decision (apart f g).
Proof. unfold apart. apply _. Defined.
#[export] Instance file_wf_dec f : Decision (file_wf user_comparator_ f).
Proof. unfold file_wf. apply _. Defined.

Definition ends_before (f g : FileMetaData) : Prop := icmp (largest f) (smallest g) < 0.

(** The shared object with a reference more. *)
Definition bump (f : FileMetaData) : FileMetaData := with_refs (refs f + 1) f.
Definition live (st : LevelState) (f : FileMetaData) : Prop := number f ∉ deleted_files st.

(** Both assertions of [SaveTo] hold on files that are in order and disjoint. *)
Lemma add_files_ok st level fs : forall files,
  (level = 0%nat \/ StronglySorted ends_before (files ++ (bump <$> filter (live st) fs))) ->
  add_files user_comparator_ st level files fs = Some (files ++ (bump <$> filter (live st) fs)).
Proof.
  induction fs as [|f fs IH]; intros files Hd; simpl; [by rewrite app_nil_r|].
  rewrite filter_cons in *. unfold MaybeAddFile.
  destruct (decide (number f ∈ deleted_files st)) as [Hx|Hx]; simpl.
  - rewrite (decide_False (P := live st f)) in * by (unfold live; auto). by apply IH.
  - rewrite (decide_True (P := live st f)) in * by done. rewrite fmap_cons in *.
    set (k := bump <$> filter (live st) fs) in *. fold (bump f).
    assert (Ea : files ++ bump f :: k = (files ++ [bump f]) ++ k) by by rewrite <- app_assoc.
    rewrite Ea in *.
    replace (match last files with Some g => _ | None => false end) with false.
    + simpl. by apply IH.
    + destruct (last files) as [g|] eqn:El; [|done]. symmetry.
      destruct Hd as [->|Hd]; [done|]. apply andb_false_iff. right. apply negb_false_iff, Z.ltb_lt.
      apply StronglySorted_app_1_l, StronglySorted_app in Hd as (Hd & _ & _).
      apply (Hd g (bump f)); [by apply last_Some_elem_of|]. by apply list_elem_of_singleton.
Qed.

Lemma overlapping_ranges_ok files :
  StronglySorted ends_before files -> overlapping_ranges user_comparator_ files = false.
Proof.
  induction 1 as [|f files Hs IH Hf]; [done|]. destruct files as [|g files]; [done|].
  change (overlapping_ranges user_comparator_ (f :: g :: files)) with
    ((0 <=? icmp (largest f) (smallest g)) || overlapping_ranges user_comparator_ (g :: files)).
  rewrite IH, orb_false_r. inversion Hf; subst. unfold ends_before in *. lia.
Qed.

(** * Levels as maps *)

(** The fields of a file that a MANIFEST records; reference counts and seek
    budgets are not among them. *)
Definition norm (f : FileMetaData) : FileMetaData :=
  mkFileMetaData 0 0 (number f) (file_size f) (smallest f) (largest f) 0.
Definition files_map (l : list FileMetaData) : gmap Z FileMetaData :=
  list_to_map ((fun f => (number f, norm f)) <$> l).
Definition numbers (l : list FileMetaData) : list Z := number <$> l.

(** The files of a level cover ranges, which are disjoint above level 0. *)
Definition level_good (level : nat) (m : gmap Z FileMetaData) : Prop :=
  map_Forall (fun n f => file_wf user_comparator_ f /\
    (level = 0%nat \/ map_Forall (fun n' g => n = n' \/ apart f g) m)) m.

#[export] Instance level_good_dec level m : Decision (level_good level m).
Proof. unfold level_good. apply _. Defined.

Lemma files_map_lookup l n f : NoDup (numbers l) ->
  files_map l !! n = Some f <-> exists g, g ∈ l /\ number g = n /\ f = norm g.
Proof.
  intros Hd. unfold files_map. rewrite <- elem_of_list_to_map.
  - rewrite list_elem_of_fmap. split.
    + intros (g & Eg & Hg). injection Eg as -> ->. eauto.
    + intros (g & Hg & <- & ->). eauto.
  - by rewrite <- list_fmap_compose.
Qed.

Lemma numbers_perm l k : l ≡ₚ k -> NoDup (numbers l) -> NoDup (numbers k).
Proof. intros E. unfold numbers. by rewrite E. Qed.

Lemma number_inj l f g : NoDup (numbers l) -> f ∈ l -> g ∈ l -> number f = number g -> f = g.
Proof.
  intros Hd Hf Hg E. apply list_elem_of_lookup in Hf as [i Hi], Hg as [j Hj].
  assert (i = j) as ->; [|congruence].
  eapply (NoDup_lookup _ i j (number f)); [exact Hd|..]; unfold numbers; rewrite list_lookup_fmap.
  - by rewrite Hi.
  - by rewrite Hj, E.
Qed.

(** The files of a good level, in order, end before one another. *)
Lemma level_good_sorted level l : (0 < level)%nat -> NoDup (numbers l) -> StronglySorted file_le l ->
  level_good level (files_map l) -> StronglySorted ends_before l.
Proof.
  intros Hl Hd Hs Hg.
  assert (Hq : forall f g, f ∈ l -> g ∈ l -> number f <> number g ->
    file_wf user_comparator_ g /\ apart f g).
  { intros f g Hf Hg' Hne. split.
    - apply (Hg (number g) (norm g)). apply files_map_lookup; eauto.
    - destruct (Hg (number f) (norm f)) as [_ [?|Ha]]; [apply files_map_lookup; eauto|lia|].
      destruct (Ha (number g) (norm g)) as [?|?]; [apply files_map_lookup; eauto|done|done]. }
  clear Hg. induction Hs as [|f l Hs IH Hf]; [constructor|].
  simpl in Hd. apply NoDup_cons in Hd as [Hn Hd]. constructor.
  - apply IH; [done|]. intros ????. apply Hq; by right.
  - rewrite Forall_forall in Hf |- *. intros g Hg.
    destruct (Hq f g) as [Hw [Ha|Ha]]; [by left|by right| |done|].
    + intros E. apply Hn. rewrite E. by apply list_elem_of_fmap_2.
    + exfalso. pose proof (file_le_smallest f g (Hf g Hg)) as Hle. unfold file_wf in Hw.
      pose proof (tc_lt_le_trans icmp _ _ _ Ha Hle) as Hlt.
      pose proof (tc_lt_le_trans icmp _ _ _ Hlt Hw) as Hlt2. rewrite (tc_refl icmp) in Hlt2. lia.
Qed.

(** Sorted levels with the same contents are the same list. *)
Lemma sorted_level_unique l k : NoDup (numbers l) -> NoDup (numbers k) ->
  StronglySorted file_le l -> StronglySorted file_le k -> files_map l = files_map k ->
  norm <$> l = norm <$> k.
Proof.
  intros Hl Hk Sl Sk E.
  assert (Hnorm : forall l, StronglySorted file_le l -> StronglySorted file_le (norm <$> l)).
  { induction 1 as [|f fs Hs IH Hf]; simpl; constructor; [done|]. by apply Forall_fmap. }
  assert (Hin : forall l f, NoDup (numbers l) ->
    f ∈ norm <$> l <-> files_map l !! number f = Some f).
  { intros fs f Hd. rewrite files_map_lookup by done. rewrite list_elem_of_fmap. split.
    - intros (g & -> & Hg). eauto.
    - intros (g & Hg & _ & ->). eauto. }
  assert (Hdup : forall l, NoDup (numbers l) -> NoDup (norm <$> l)).
  { intros fs Hd. apply (NoDup_fmap_1 number). by rewrite <- list_fmap_compose. }
  apply (StronglySorted_unique_strong file_le); [|auto..|].
  - intros f g Hf Hg H1 H2. apply Hin in Hf; [|done]. apply Hin in Hg; [|done].
    rewrite E, (file_le_antisym f g H1 H2) in Hf. congruence.
  - apply NoDup_Permutation; [auto..|]. intros f. by rewrite !Hin, E.
Qed.

(** * One level of the builder *)

(** What the builder holds for a level whose base files are [base]. *)
Record level_inv (base : list FileMetaData) (st : LevelState) : Prop := {
  inv_base : StronglySorted file_le base;
  inv_added : StronglySorted file_le (added_files st);
  inv_numbers : NoDup (numbers (base ++ added_files st));
}.

(** The contents it stands for. *)
Definition level_abs (base : list FileMetaData) (st : LevelState) : gmap Z FileMetaData :=
  filter (fun p => p.1 ∉ deleted_files st) (files_map (base ++ added_files st)).

Lemma level_abs_lookup base st n f : level_inv base st ->
  level_abs base st !! n = Some f <->
  n ∉ deleted_files st /\ exists g, g ∈ base ++ added_files st /\ number g = n /\ f = norm g.
Proof.
  intros Hi. unfold level_abs. rewrite map_lookup_filter_Some, files_map_lookup by apply Hi.
  naive_solver.
Qed.

Lemma live_sorted st l : StronglySorted file_le l ->
  StronglySorted file_le (bump <$> filter (live st) l).
Proof.
  induction 1 as [|f fs Hs IH Hf]; [constructor|]. rewrite filter_cons.
  destruct (decide (live st f)); [|done]. constructor; [done|]. apply Forall_fmap.
  rewrite Forall_forall in Hf |- *. intros g [_ Hg]%list_elem_of_filter. exact (Hf g Hg).
Qed.

(** What [SaveTo] stores for a level. *)
Lemma save_level_spec base st level : level_inv base st -> level_good level (level_abs base st) ->
  exists l, save_level user_comparator_ st level (added_files st) base [] = Some l /\
    ((0 < level)%nat -> overlapping_ranges user_comparator_ l = false) /\
    StronglySorted file_le l /\ NoDup (numbers l) /\ files_map l = level_abs base st /\
    ((0 < level)%nat -> StronglySorted ends_before l).
Proof.
  intros Hi Hg. set (l := bump <$> filter (live st) (merge_files (added_files st) base)).
  pose proof (merge_perm (added_files st) base) as Hp.
  assert (Hd : NoDup (numbers l)).
  { unfold numbers, l. rewrite <- list_fmap_compose. change (number ∘ bump) with number.
    apply (sublist_NoDup _ (numbers (merge_files (added_files st) base))).
    - eapply numbers_perm; [symmetry; exact Hp|apply Hi].
    - apply fmap_sublist, sublist_filter. }
  assert (Hs : StronglySorted file_le l).
  { by apply live_sorted, merge_sorted; apply Hi. }
  assert (Hm : files_map l = level_abs base st).
  { apply map_eq. intros n. apply option_eq. intros f.
    rewrite files_map_lookup, level_abs_lookup by done. unfold l. split.
    - intros (g & (h & -> & [Hl Hh]%list_elem_of_filter)%list_elem_of_fmap & <- & ->).
      split; [done|]. exists h. by rewrite <- Hp.
    - intros (Hn & g & Hg' & <- & ->). exists (bump g). split; [|done].
      apply list_elem_of_fmap_2, list_elem_of_filter. by rewrite Hp. }
  assert (He : (0 < level)%nat -> StronglySorted ends_before l).
  { intros Hl. apply (level_good_sorted level); [done..|]. by rewrite Hm. }
  exists l. rewrite save_level_merge, add_files_ok; [|destruct (decide (level = 0%nat)); [by left|]].
  - split; [done|]. split; [intros; by apply overlapping_ranges_ok, He|]. done.
  - right. apply He. lia.
Qed.

(** * Specification of an edit *)

Definition on_level {A} (level : nat) (l : list (Z * A)) : list A :=
  (filter (fun p => Z.to_nat p.1 = level) l).*2.

Definition spec_add (m : gmap Z FileMetaData) (f : FileMetaData) : gmap Z FileMetaData :=
  <[number f := norm (fresh_file f)]> m.
Definition spec_delete (m : gmap Z FileMetaData) (n : Z) : gmap Z FileMetaData := delete n m.

(** The deletions of the edit, then its additions. *)
Definition spec_edit (level : nat) (m : gmap Z FileMetaData) (e : VersionEdit)
  : gmap Z FileMetaData :=
  fold_left spec_add (on_level level (new_files_ e))
    (fold_left spec_delete (on_level level (deleted_files_ e)) m).

Definition level_delete (n : Z) (st : LevelState) : LevelState :=
  mkLevelState ({[n]} ∪ deleted_files st) (added_files st).
Definition level_add (f : FileMetaData) (st : LevelState) : LevelState :=
  let f := fresh_file f in
  mkLevelState (deleted_files st ∖ {[number f]}) (FileSet_insert user_comparator_ f (added_files st)).

Lemma fresh_file_number f : number (fresh_file f) = number f.
Proof. unfold fresh_file. by destruct (_ <? 100). Qed.

Lemma level_delete_spec base st n : level_inv base st ->
  level_inv base (level_delete n st) /\
  level_abs base (level_delete n st) = spec_delete (level_abs base st) n.
Proof.
  intros Hi. assert (Hi' : level_inv base (level_delete n st)) by (destruct Hi; by split).
  split; [done|]. apply map_eq. intros i. apply option_eq. intros f.
  unfold spec_delete. rewrite lookup_delete_Some, !level_abs_lookup by done. simpl. set_solver.
Qed.

Lemma level_add_spec base st f : level_inv base st ->
  number f ∉ numbers (base ++ added_files st) ->
  level_inv base (level_add f st) /\
  added_files (level_add f st) ≡ₚ fresh_file f :: added_files st /\
  level_abs base (level_add f st) = spec_add (level_abs base st) f.
Proof.
  intros Hi Hn. rewrite <- fresh_file_number in Hn. set (g := fresh_file f) in *.
  unfold numbers in Hn. rewrite fmap_app, not_elem_of_app in Hn. destruct Hn as [Hnb Hna].
  destruct (FileSet_insert_spec g (added_files st) (inv_added _ _ Hi) Hna) as [Hp Hs].
  assert (Hp' : base ++ added_files (level_add f st) ≡ₚ g :: base ++ added_files st).
  { simpl. fold g. by rewrite Hp, Permutation_middle. }
  assert (Hi' : level_inv base (level_add f st)).
  { split; [apply Hi|done|]. eapply numbers_perm; [symmetry; exact Hp'|]. simpl.
    apply NoDup_cons. split; [|apply Hi]. unfold numbers. rewrite fmap_app, not_elem_of_app. done. }
  split; [done|]. split; [done|]. apply map_eq. intros i. apply option_eq. intros h.
  unfold spec_add. rewrite lookup_insert_Some, !level_abs_lookup by done.
  setoid_rewrite Hp'. setoid_rewrite elem_of_cons. simpl. fold g.
  replace (number f) with (number g) by apply fresh_file_number. fold g.
  assert (Hng : forall x, x ∈ base ++ added_files st -> number x <> number g).
  { intros x. rewrite elem_of_app. intros [Hx|Hx] E; [apply Hnb|apply Hna]; rewrite <- E;
      by apply list_elem_of_fmap_2. }
  split.
  - intros (Hd & x & [->|Hx] & <- & ->); [by left|right].
    split; [by apply not_eq_sym, Hng|]. split; [|eauto]. specialize (Hng x Hx). set_solver.
  - intros [[<- <-]|(Hne & Hd & x & Hx & <- & ->)].
    + split; [set_solver|]. eauto.
    + split; [set_solver|]. eauto.
Qed.

Definition level_apply (level : nat) (st : LevelState) (e : VersionEdit) : LevelState :=
  fold_left (fun st f => level_add f st) (on_level level (new_files_ e))
    (fold_left (fun st n => level_delete n st) (on_level level (deleted_files_ e)) st).

Lemma Apply_level b e level :
  levels_ (Apply user_comparator_ b e) !! level =
  (fun st => level_apply level st e) <$> levels_ b !! level.
Proof.
  unfold Apply, level_apply, on_level. cbn [levels_].
  pose proof (fold_alter_lookup (fun d : Z * Z => Z.to_nat d.1) (fun d => level_delete d.2)
    (deleted_files_ e) (levels_ b) level) as E1.
  etrans; [exact (fold_alter_lookup (fun nf : Z * FileMetaData => Z.to_nat nf.1)
    (fun nf => level_add nf.2) (new_files_ e)
    (fold_left delete_file (deleted_files_ e) (levels_ b)) level)|].
  etrans; [exact (f_equal (fmap _) E1)|].
  destruct (levels_ b !! level) as [st|]; [|done]. simpl. f_equal. by rewrite <- !fold_left_fmap.
Qed.

Lemma level_deletes_spec base ns : forall st, level_inv base st ->
  let st' := fold_left (fun st n => level_delete n st) ns st in
  level_inv base st' /\ added_files st' = added_files st /\
  level_abs base st' = fold_left spec_delete ns (level_abs base st).
Proof.
  induction ns as [|n ns IH]; intros st Hi; [done|]. simpl.
  destruct (level_delete_spec base st n Hi) as [Hi' <-]. exact (IH _ Hi').
Qed.

Lemma level_adds_spec base fs : forall st, level_inv base st ->
  NoDup (numbers fs) -> (forall n, n ∈ numbers fs -> n ∉ numbers (base ++ added_files st)) ->
  let st' := fold_left (fun st f => level_add f st) fs st in
  level_inv base st' /\
  (forall n, n ∈ numbers (base ++ added_files st') <->
     n ∈ numbers fs \/ n ∈ numbers (base ++ added_files st)) /\
  level_abs base st' = fold_left spec_add fs (level_abs base st).
Proof.
  induction fs as [|f fs IH]; intros st Hi Hd Hn; simpl.
  { split; [done|]. split; [|done]. intros n. set_solver. }
  simpl in Hd. apply NoDup_cons in Hd as [Hf Hd].
  destruct (level_add_spec base st f Hi) as (Hi' & Hp & <-); [apply Hn; by left|].
  assert (Hin : forall n, n ∈ numbers (base ++ added_files (level_add f st)) <->
            n = number f \/ n ∈ numbers (base ++ added_files st)).
  { intros n. unfold numbers. rewrite !fmap_app, !elem_of_app, Hp. simpl.
    rewrite elem_of_cons, fresh_file_number. tauto. }
  destruct (IH (level_add f st)) as (Hi2 & Hin2 & E2); [done|done| |].
  - intros n Hm. rewrite Hin. intros [->|Hx]; [done|]. eapply Hn; [by right|done].
  - split; [done|]. split; [|done]. intros n. rewrite Hin2, Hin, elem_of_cons. tauto.
Qed.

(** * A sequence of edits *)

(** [m] is the level's contents and [seen] the numbers it ever held; every edit
    adds files with numbers that are new to the level and leaves it good. *)
Fixpoint level_history (level : nat) (seen : gset Z) (m : gmap Z FileMetaData)
    (es : list VersionEdit) : Prop :=
  match es with
  | [] => True
  | e :: es' =>
      let new := numbers (on_level level (new_files_ e)) in
      let m' := spec_edit level m e in
      NoDup new /\ Forall (fun n => n ∉ seen) new /\ level_good level m' /\
      level_history level (seen ∪ list_to_set new) m' es'
  end.

#[export] Instance level_history_dec level seen m es : Decision (level_history level seen m es).
Proof. revert seen m. induction es; simpl; intros; apply _. Defined.

Lemma level_apply_spec base st level e (seen : gset Z) : level_inv base st ->
  (forall n, n ∈ numbers (base ++ added_files st) -> n ∈ seen) ->
  let new := numbers (on_level level (new_files_ e)) in
  NoDup new -> Forall (fun n => n ∉ seen) new ->
  level_inv base (level_apply level st e) /\
  (forall n, n ∈ numbers (base ++ added_files (level_apply level st e)) ->
     n ∈ seen ∪ list_to_set new) /\
  level_abs base (level_apply level st e) = spec_edit level (level_abs base st) e.
Proof.
  intros Hi Hs new Hd Hf. unfold level_apply, spec_edit.
  destruct (level_deletes_spec base (on_level level (deleted_files_ e)) st Hi) as (Hi1 & Ea & <-).
  set (st1 := fold_left (fun st n => level_delete n st) _ st) in *.
  destruct (level_adds_spec base (on_level level (new_files_ e)) st1 Hi1 Hd) as (Hi2 & Hin & E2).
  - intros n Hn. rewrite Ea. rewrite Forall_forall in Hf. intros Hx. by apply (Hf n Hn), Hs.
  - split; [done|]. split; [|done]. intros n Hn. apply Hin in Hn. rewrite Ea in Hn.
    rewrite elem_of_union, elem_of_list_to_set. destruct Hn; auto.
Qed.

Lemma level_batch_spec base level es : forall st (seen : gset Z), level_inv base st ->
  (forall n, n ∈ numbers (base ++ added_files st) -> n ∈ seen) ->
  level_good level (level_abs base st) -> level_history level seen (level_abs base st) es ->
  let st' := fold_left (level_apply level) es st in
  level_inv base st' /\ level_good level (level_abs base st') /\
  level_abs base st' = fold_left (spec_edit level) es (level_abs base st).
Proof.
  induction es as [|e es IH]; intros st seen Hi Hs Hg Hh; [done|]. simpl.
  destruct Hh as (Hd & Hf & Hg' & Hh).
  destruct (level_apply_spec base st level e seen Hi Hs Hd Hf) as (Hi' & Hs' & E).
  rewrite <- E in *. by apply (IH _ _ Hi' Hs').
Qed.

(** * Versions *)

(** A level as [SaveTo] leaves it. *)
Record level_sound (level : nat) (l : list FileMetaData) : Prop := {
  ok_sorted : StronglySorted file_le l;
  ok_numbers : NoDup (numbers l);
  ok_good : level_good level (files_map l);
}.

Definition version_ok (v : Version) : Prop :=
  Forall (fun level => level_sound level (level_files v level)) (seq 0 (Z.to_nat kNumLevels)).

(** The edits are applied by one builder, or by a builder each. *)
Definition apply_batch (ps : list bytes) (v : Version) (es : list VersionEdit)
  : option (list bytes * Version) :=
  let b := fold_left (Apply user_comparator_) es (newBuilder ps v) in
  v' ← SaveTo user_comparator_ b newVersion;
  Some (compact_pointer_ b, v').

Fixpoint apply_each (ps : list bytes) (v : Version) (es : list VersionEdit)
  : option (list bytes * Version) :=
  match es with
  | [] => Some (ps, v)
  | e :: es' => '(ps, v) ← apply_batch ps v [e]; apply_each ps v es'
  end.

(** A sequence of edits that keeps every level of the version good. *)
Definition history (v : Version) (es : list VersionEdit) : Prop :=
  Forall (fun level => level_history level (list_to_set (numbers (level_files v level)))
    (files_map (level_files v level)) es) (seq 0 (Z.to_nat kNumLevels)).

Lemma fold_Apply_level es level : forall b,
  levels_ (fold_left (Apply user_comparator_) es b) !! level =
  fold_left (level_apply level) es <$> levels_ b !! level.
Proof.
  induction es as [|e es IH]; intros b; simpl; [by destruct (levels_ b !! level)|].
  rewrite IH, Apply_level. by destruct (levels_ b !! level).
Qed.

Lemma fold_Apply_base es : forall b, base_ (fold_left (Apply user_comparator_) es b) = base_ b.
Proof. induction es as [|e es IH]; intros b; simpl; [done|]. by rewrite IH. Qed.

Lemma level_abs_start l : level_abs l (mkLevelState ∅ []) = files_map l.
Proof.
  unfold level_abs. simpl. rewrite app_nil_r. apply map_filter_id. intros. set_solver.
Qed.

Lemma level_inv_start level l : level_sound level l -> level_inv l (mkLevelState ∅ []).
Proof. intros []. split; [done|constructor|by rewrite app_nil_r]. Qed.

(** * What [SaveTo] stores *)

Lemma SaveTo_spec b (st : nat -> LevelState) :
  (forall level, (level < Z.to_nat kNumLevels)%nat ->
     levels_ b !! level = Some (st level) /\ level_inv (level_files (base_ b) level) (st level) /\
     level_good level (level_abs (level_files (base_ b) level) (st level))) ->
  exists v, SaveTo user_comparator_ b newVersion = Some v /\
    forall level, (level < Z.to_nat kNumLevels)%nat ->
      level_sound level (level_files v level) /\
      files_map (level_files v level) = level_abs (level_files (base_ b) level) (st level) /\
      ((0 < level)%nat -> StronglySorted ends_before (level_files v level)).
Proof.
  intros Hb. set (P level l := level_sound level l /\
    files_map l = level_abs (level_files (base_ b) level) (st level) /\
    ((0 < level)%nat -> StronglySorted ends_before l)).
  destruct (mapM_exists (save_one user_comparator_ b newVersion) P (seq 0 (Z.to_nat kNumLevels)))
    as (ls & E & HP).
  - intros level [_ Hl]%elem_of_seq. destruct (Hb level Hl) as (Es & Hi & Hg).
    destruct (save_level_spec _ _ _ Hi Hg) as (l & El & Ho & Hs & Hd & Hm & He).
    exists l. unfold save_one. rewrite Es. simpl.
    replace (level_files newVersion level) with (@nil FileMetaData)
      by (unfold level_files, newVersion; simpl; by do 8 (destruct level as [|level]; [done|])).
    rewrite El. simpl. split.
    + destruct (0 <? level)%nat eqn:E0; [|done]. rewrite Ho by (by apply Nat.ltb_lt). done.
    + split; [split; [done|done|by rewrite Hm]|done].
  - unfold SaveTo. rewrite E. eexists. split; [reflexivity|]. intros level Hl.
    destruct (Forall2_lookup_l _ _ _ level level HP) as (l & Hll & Hx); [by apply lookup_seq|].
    unfold level_files. simpl. by rewrite (nth_lookup_Some _ _ _ _ Hll).
Qed.

Lemma apply_batch_spec ps v es : version_ok v -> history v es ->
  exists v', apply_batch ps v es =
      Some (compact_pointer_ (fold_left (Apply user_comparator_) es (newBuilder ps v)), v') /\
    forall level, (level < Z.to_nat kNumLevels)%nat ->
      level_sound level (level_files v' level) /\
      files_map (level_files v' level) =
        fold_left (spec_edit level) es (files_map (level_files v level)) /\
      ((0 < level)%nat -> StronglySorted ends_before (level_files v' level)).
Proof.
  intros Hv Hh. unfold apply_batch. set (b := fold_left _ es _).
  assert (Hbase : base_ b = v) by apply fold_Apply_base.
  assert (Hst : forall level, (level < Z.to_nat kNumLevels)%nat ->
    let st := fold_left (level_apply level) es (mkLevelState ∅ []) in
    levels_ b !! level = Some st /\ level_inv (level_files v level) st /\
    level_good level (level_abs (level_files v level) st) /\
    level_abs (level_files v level) st =
      fold_left (spec_edit level) es (files_map (level_files v level))).
  { intros level Hl. assert (Hin : level ∈ seq 0 (Z.to_nat kNumLevels)) by (apply elem_of_seq; lia).
    unfold version_ok, history in *. rewrite Forall_forall in Hv, Hh.
    specialize (Hv _ Hin). specialize (Hh _ Hin). cbv zeta.
    split; [unfold b, newBuilder; rewrite fold_Apply_level; cbn [levels_]; by rewrite lookup_replicate_2|].
    rewrite <- level_abs_start. apply (level_batch_spec _ level es _
      (list_to_set (numbers (level_files v level))) (level_inv_start _ _ Hv));
      rewrite ?level_abs_start; [|apply Hv|done].
    intros n. cbn [added_files]. rewrite app_nil_r. by rewrite elem_of_list_to_set. }
  destruct (SaveTo_spec b (fun level => fold_left (level_apply level) es (mkLevelState ∅ [])))
    as (v' & E & Hlv).
  { intros level Hl. rewrite Hbase. destruct (Hst level Hl) as (? & ? & ? & _). done. }
  exists v'. rewrite E. split; [done|]. intros level Hl. destruct (Hlv level Hl) as (H1 & H2 & H3).
  split; [done|]. split; [|done]. rewrite H2, Hbase. apply (Hst level Hl).
Qed.

(** * One builder for all edits, or one for each *)

Definition set_pointers (ps : list bytes) (e : VersionEdit) : list bytes :=
  fold_left (fun ps cp => <[Z.to_nat cp.1 := cp.2]> ps) (compact_pointers_ e) ps.

Lemma fold_Apply_pointers es : forall b,
  compact_pointer_ (fold_left (Apply user_comparator_) es b) =
  fold_left set_pointers es (compact_pointer_ b).
Proof. induction es as [|e es IH]; intros b; [done|]. simpl. by rewrite IH. Qed.

Lemma numbers_lookup l n : NoDup (numbers l) -> n ∈ numbers l <-> is_Some (files_map l !! n).
Proof.
  intros Hd. unfold numbers. rewrite list_elem_of_fmap. unfold is_Some.
  setoid_rewrite files_map_lookup; [|done]. naive_solver.
Qed.

Lemma spec_deletes_dom ns : forall m n,
  is_Some (fold_left spec_delete ns m !! n) -> is_Some (m !! n).
Proof.
  induction ns as [|k ns IH]; intros m n Hn; [done|]. apply IH in Hn as [f Hf].
  unfold spec_delete in Hf. apply lookup_delete_Some in Hf as [_ Hf]. eauto.
Qed.

Lemma spec_adds_dom fs : forall m n,
  is_Some (fold_left spec_add fs m !! n) -> n ∈ numbers fs \/ is_Some (m !! n).
Proof.
  induction fs as [|f fs IH]; intros m n Hn; [by right|]. apply IH in Hn as [Hn|Hn].
  - left. by right.
  - unfold spec_add in Hn. destruct (decide (number f = n)) as [<-|Hne]; [left; by left|right].
    by rewrite lookup_insert_ne in Hn.
Qed.

Lemma apply_each_spec es : forall ps v (seen : nat -> gset Z), version_ok v ->
  (forall level, (level < Z.to_nat kNumLevels)%nat ->
     (forall n, n ∈ numbers (level_files v level) -> n ∈ seen level) /\
     level_history level (seen level) (files_map (level_files v level)) es) ->
  exists v', apply_each ps v es = Some (fold_left set_pointers es ps, v') /\
    forall level, (level < Z.to_nat kNumLevels)%nat ->
      level_sound level (level_files v' level) /\
      files_map (level_files v' level) =
        fold_left (spec_edit level) es (files_map (level_files v level)).
Proof.
  induction es as [|e es IH]; intros ps v seen Hv Hs.
  { exists v. split; [done|]. intros level Hl. split; [|done].
    unfold version_ok in Hv. rewrite Forall_forall in Hv. apply Hv, elem_of_seq. lia. }
  destruct (apply_batch_spec ps v [e] Hv) as (v1 & E1 & H1).
  { apply Forall_forall. intros level [_ Hl]%elem_of_seq.
    destruct (Hs level Hl) as [Hsub (Hd & Hf & Hg & _)]. split; [done|]. split; [|done].
    eapply Forall_impl; [exact Hf|]. intros n Hn. rewrite elem_of_list_to_set. auto. }
  rewrite fold_Apply_pointers in E1. simpl in E1.
  destruct (IH (set_pointers ps e) v1 (fun level =>
    seen level ∪ list_to_set (numbers (on_level level (new_files_ e))))) as (v' & E' & H').
  - apply Forall_forall. intros level [_ Hl]%elem_of_seq. apply H1. lia.
  - intros level Hl. destruct (H1 level Hl) as (Ho & Em & _). simpl in Em.
    destruct (Hs level Hl) as [Hsub (_ & _ & _ & Hh)]. rewrite Em. split; [|done].
    intros n. rewrite numbers_lookup, Em by apply Ho. unfold spec_edit. intros Hn.
    rewrite elem_of_union, elem_of_list_to_set.
    apply spec_adds_dom in Hn as [Hn|Hn]; [by right|left]. apply Hsub.
    apply spec_deletes_dom in Hn. apply numbers_lookup; [|done].
    unfold version_ok in Hv. rewrite Forall_forall in Hv. apply (Hv level), elem_of_seq. lia.
  - exists v'. cbn [apply_each]. rewrite E1. simpl. split; [done|]. intros level Hl.
    destruct (H' level Hl) as [Ho Em]. split; [done|]. rewrite Em.
    by destruct (H1 level Hl) as (_ & -> & _).
Qed.

Lemma history_seen v es level : history v es -> (level < Z.to_nat kNumLevels)%nat ->
  (forall n, n ∈ numbers (level_files v level) ->
     n ∈ (list_to_set (numbers (level_files v level)) : gset Z)) /\
  level_history level (list_to_set (numbers (level_files v level)))
    (files_map (level_files v level)) es.
Proof.
  intros Hh Hl. split; [intros n; by rewrite elem_of_list_to_set|].
  unfold history in Hh. rewrite Forall_forall in Hh. apply Hh, elem_of_seq. lia.
Qed.


(** Recovery rebuilds what was running.  [Recover] applies all the edits of
    the MANIFEST with one builder, while the running database applied them one
    at a time; the files of every level (up to reference counts and seek budgets,
    and in the same order) and the compaction pointers are the same. *)
Theorem builder_batch_equiv (ps : list bytes) (v : Version) (es : list VersionEdit) :
  version_ok v -> history v es ->
  exists ps' v1 v2, apply_each ps v es = Some (ps', v1) /\ apply_batch ps v es = Some (ps', v2) /\
    forall level, (level < Z.to_nat kNumLevels)%nat ->
      norm <$> level_files v1 level = norm <$> level_files v2 level.
Proof.
  intros Hv Hh. destruct (apply_batch_spec ps v es Hv Hh) as (v2 & E2 & H2).
  destruct (apply_each_spec es ps v (fun level => list_to_set (numbers (level_files v level))) Hv)
    as (v1 & E1 & H1); [intros; by apply history_seen|].
  rewrite fold_Apply_pointers in E2. do 3 eexists. split; [exact E1|]. split; [exact E2|].
  intros level Hl. destruct (H1 level Hl) as [[] Em1], (H2 level Hl) as ([] & Em2 & _).
  apply sorted_level_unique; [done..|]. congruence.
Qed.
End Proofs.

(** Two tables are written to level 0, merged into level 1 and moved on. *)
Definition example_edits : list VersionEdit :=
  let key s := mkInternalKey (str s) 5 kTypeValue in
  [ AddFile newVersionEdit 0 5 20000 (key "a") (key "k");
    AddFile newVersionEdit 0 6 9000000 (key "f") (key "p");
    AddFile (AddFile (SetCompactPointer (DeleteFile (DeleteFile newVersionEdit 0 5) 0 6) 0 (key "p"))
      1 7 10000 (key "a") (key "g")) 1 8 10000 (key "h") (key "p");
    AddFile (DeleteFile newVersionEdit 1 7) 2 7 10000 (key "a") (key "g") ].

Lemma newVersion_ok (cmp : Comparator) : version_ok cmp newVersion.
Proof.
  apply Forall_forall. intros level [_ Hl]%elem_of_seq.
  replace (level_files newVersion level) with (@nil FileMetaData)
    by (unfold level_files, newVersion; simpl; by do 8 (destruct level as [|level]; [done|])).
  split; [constructor|constructor|]. apply map_Forall_empty.
Qed.

Lemma example_history : history BytewiseComparator newVersion example_edits.
Proof. apply (bool_decide_unpack _). vm_compute. exact I. Qed.


Lemma builder_batch_equiv_witness :
  exists ps' v1 v2,
    apply_each BytewiseComparator (replicate 7 []) newVersion example_edits = Some (ps', v1) /\
    apply_batch BytewiseComparator (replicate 7 []) newVersion example_edits = Some (ps', v2) /\
    norm <$> level_files v1 1 = norm <$> level_files v2 1.
Proof.
  destruct (builder_batch_equiv BytewiseComparator (replicate 7 []) newVersion example_edits
    (newVersion_ok _) example_history) as (ps' & v1 & v2 & E1 & E2 & Hl).
  exists ps', v1, v2. split; [exact E1|]. split; [exact E2|]. apply (Hl 1%nat). vm_compute. lia.
Defined.

(** The levels that the edit changes. *)
Definition changed_level (edit : VersionEdit) : gset Z :=
  list_to_set (map fst (deleted_files_ edit)) ∪ list_to_set (map fst (new_files_ edit)).

(** The loop over the levels from 1 on; the result is [learned_index_data_] of the
    new version. *)
Definition ApplyToModel {M : Type} (edit : VersionEdit) (previous current : list M) : list M :=
  fold_left (fun cur i =>
    if decide (Z.of_nat i ∈ changed_level edit) then cur
    else match previous !! i with Some m => <[i := m]> cur | None => cur end)
    (seq 1 (Z.to_nat kNumLevels - 1)) current.

(** * The models stay in step with the files *)

Lemma unchanged_on_level {A} (l : list (Z * A)) level : (0 < level)%nat -> Z.of_nat level ∉ map fst l -> on_level level l = [].
Proof.
  intros Hl Hn. unfold on_level. replace (base.filter (fun p => Z.to_nat p.1 = level) l) with (@nil (Z * A)); [done|]. symmetry.
  induction l as [|[n x] l IH]; [done|]. cbn [map fst] in Hn. rewrite not_elem_of_cons in Hn. destruct Hn as [Hne Hn].
  rewrite filter_cons_False by (cbn [fst]; lia). by apply IH.
Qed.

Lemma unchanged_spec level m e : (0 < level)%nat -> Z.of_nat level ∉ changed_level e -> spec_edit level m e = m.
Proof.
  intros Hl. unfold changed_level. rewrite not_elem_of_union, !not_elem_of_list_to_set. intros [Hd Hn].
  unfold spec_edit. by rewrite !unchanged_on_level.
Qed.

(** The entry of a level from 1 on. *)
Lemma ApplyToModel_lookup {M} (edit : VersionEdit) (previous current : list M) level : length previous = length current -> (0 < level < Z.to_nat kNumLevels)%nat ->
  ApplyToModel edit previous current !! level = if decide (Z.of_nat level ∈ changed_level edit) then current !! level else previous !! level.
Proof.
  intros Hlen [Hpos Hlt]. unfold ApplyToModel. set (step := fun cur i => _).
  assert (Hstep : forall cur i, length cur = length previous -> length (step cur i) = length previous /\
    step cur i !! level = if decide (i = level /\ Z.of_nat i ∉ changed_level edit) then previous !! level else cur !! level).
  { intros cur i Hc. unfold step. destruct (decide (Z.of_nat i ∈ changed_level edit)) as [Hin|Hin].
    - split; [done|]. destruct (decide _) as [[_ ?]|]; done.
    - destruct (previous !! i) as [m|] eqn:Em.
      + rewrite length_insert. split; [done|]. pose proof (lookup_lt_Some _ _ _ Em). destruct (decide _) as [[-> _]|Hne].
        * rewrite Em. apply list_lookup_insert_eq. lia.
        * apply list_lookup_insert_ne. intros ->. by apply Hne.
      + split; [done|]. destruct (decide _) as [[-> _]|]; [|done]. rewrite Em. apply lookup_ge_None. apply lookup_ge_None in Em. lia. }
  assert (Hgen : forall levels cur, length cur = length previous -> fold_left step levels cur !! level =
    if decide (level ∈ levels /\ Z.of_nat level ∉ changed_level edit) then previous !! level else cur !! level).
  { induction levels as [|i levels IH]; intros cur Hc; cbn [fold_left].
    - destruct (decide _) as [[Hin _]|]; [by apply elem_of_nil in Hin|done].
    - destruct (Hstep cur i Hc) as [Hc' E]. rewrite IH by done. rewrite E. destruct (decide (Z.of_nat level ∈ changed_level edit)) as [Hch|Hch].
      + rewrite !decide_False by (try intros [-> Hx]; tauto). done.
      + destruct (decide (level ∈ levels)) as [Hin|Hin].
        * rewrite (decide_True (P := level ∈ levels /\ _)) by done. rewrite decide_True; [done|]. by split; [right|].
        * rewrite (decide_False (P := level ∈ levels /\ _)) by tauto. destruct (decide (i = level)) as [->|Hne].
          -- rewrite !decide_True; [done| |done]. by split; [left|].
          -- rewrite !decide_False; [done| |tauto]. rewrite elem_of_cons. intros [[|] _]; congruence. }
  rewrite Hgen by done. destruct (decide (Z.of_nat level ∈ changed_level edit)) as [Hch|Hch].
  - by rewrite decide_False by tauto.
  - rewrite decide_True; [done|]. split; [|done]. apply list_elem_of_In, in_seq. lia.
Qed.

(** The level models stay in step with the levels.  Whatever relation between
    a model and the files of its level holds in a version, that depends only on what
    the MANIFEST keeps of the files and holds for a fresh model, holds again, for
    every level from 1 on, after an edit is applied and the models are taken over:
    a model is kept only for a level whose files are the same, in the same order. *)
Theorem level_models_in_step {M : Type} (user : Comparator) (Huser : @ComparatorOk user) (R : M -> list FileMetaData -> Prop)
    (ps : list bytes) (v : Version) (e : VersionEdit) (previous fresh : list M)
    (Hv : version_ok user v) (Hh : history user v [e]) (Hlen : length previous = length fresh)
    (Hnorm : forall m fs fs', norm <$> fs = norm <$> fs' -> R m fs -> R m fs')
    (Hfresh : forall m fs, m ∈ fresh -> R m fs)
    (Hprev : forall level m, (0 < level < Z.to_nat kNumLevels)%nat -> previous !! level = Some m -> R m (level_files v level)) :
  exists ps' v', apply_batch user ps v [e] = Some (ps', v') /\
    forall level m, (0 < level < Z.to_nat kNumLevels)%nat -> ApplyToModel e previous fresh !! level = Some m -> R m (level_files v' level).
Proof.
  destruct (apply_batch_spec user ps v [e] Hv Hh) as (v' & E & Hl). do 2 eexists. split; [exact E|]. intros level m Hr Hm.
  rewrite ApplyToModel_lookup in Hm by done. destruct (decide _) as [Hch|Hch]; [by apply Hfresh, list_elem_of_lookup_2 with level|].
  destruct (Hl level ltac:(lia)) as ([Hs Hn _] & Em & _). cbn [fold_left] in Em. rewrite unchanged_spec in Em by (try lia; done).
  unfold version_ok in Hv. rewrite Forall_forall in Hv. destruct (Hv level) as [Hs' Hn' _]; [apply list_elem_of_In, in_seq; lia|].
  apply (Hnorm m (level_files v level)); [|by apply Hprev]. symmetry. by apply (sorted_level_unique user).
Qed.
