(* ===== verification/Compaction.v ===== *)
(** db/version_set.h and db/version_set.cc, class [Compaction] and the
    operations of [VersionSet] that choose what to compact.  A null pointer or
    a failed assertion is [None]. *)

From stdpp Require Import base list sorting strings.
From S2P Require Import Prelude Status Coding Comparator Logging DbFormat VersionEdit Version.

#[local] Open Scope Z_scope.

(** * State *)

Record Compaction := mkCompaction {
  level_ : nat;
  max_output_file_size_ : Z;
  input_version_ : option Version;
  edit_ : VersionEdit;
  inputs_ : list FileMetaData * list FileMetaData;
  grandparents_ : list FileMetaData;
  grandparent_index_ : nat;
  seen_key_ : bool;
  overlapped_bytes_ : Z;
  level_ptrs_ : list nat;
}.

Definition newCompaction (max_file_size : Z) (level : nat) : Compaction :=
  mkCompaction level (MaxFileSizeForLevel max_file_size (Z.of_nat level)) None newVersionEdit ([], [])
    [] 0 false 0 (replicate (Z.to_nat kNumLevels) 0%nat).

Definition with_inputs (c : Compaction) (v : Version) (inputs0 : list FileMetaData) : Compaction :=
  mkCompaction (level_ c) (max_output_file_size_ c) (Some v) (edit_ c) (inputs0, (inputs_ c).2)
    (grandparents_ c) (grandparent_index_ c) (seen_key_ c) (overlapped_bytes_ c) (level_ptrs_ c).
Definition with_setup (c : Compaction) (inputs : list FileMetaData * list FileMetaData)
    (grandparents : list FileMetaData) (e : VersionEdit) : Compaction :=
  mkCompaction (level_ c) (max_output_file_size_ c) (input_version_ c) e inputs
    grandparents (grandparent_index_ c) (seen_key_ c) (overlapped_bytes_ c) (level_ptrs_ c).
Definition with_grandparent (c : Compaction) (i : nat) (seen : bool) (n : Z) : Compaction :=
  mkCompaction (level_ c) (max_output_file_size_ c) (input_version_ c) (edit_ c) (inputs_ c)
    (grandparents_ c) i seen n (level_ptrs_ c).
Definition with_level_ptrs (c : Compaction) (ps : list nat) : Compaction :=
  mkCompaction (level_ c) (max_output_file_size_ c) (input_version_ c) (edit_ c) (inputs_ c)
    (grandparents_ c) (grandparent_index_ c) (seen_key_ c) (overlapped_bytes_ c) ps.
Definition with_edit (c : Compaction) (e : VersionEdit) : Compaction :=
  mkCompaction (level_ c) (max_output_file_size_ c) (input_version_ c) e (inputs_ c)
    (grandparents_ c) (grandparent_index_ c) (seen_key_ c) (overlapped_bytes_ c) (level_ptrs_ c).

(** The object goes back without its version. *)
Definition ReleaseInputs (c : Compaction) : Compaction :=
  mkCompaction (level_ c) (max_output_file_size_ c) None (edit_ c) (inputs_ c)
    (grandparents_ c) (grandparent_index_ c) (seen_key_ c) (overlapped_bytes_ c) (level_ptrs_ c).

(** [num_input_files(which)], for the two values of [which]. *)
Definition num_input_files (c : Compaction) (which : bool) : nat :=
  length (if which then (inputs_ c).2 else (inputs_ c).1).

Section Compaction.
Context (user_comparator_ : Comparator) (max_file_size : Z).
#[local] Abbreviation icmp := (InternalKey_Compare user_comparator_).
#[local] Abbreviation ucmp := (@Compare user_comparator_).

(** * Ranges *)

Fixpoint GetRange_loop (inputs : list FileMetaData) (s l : bytes) : bytes * bytes :=
  match inputs with
  | [] => (s, l)
  | f :: inputs' =>
      GetRange_loop inputs' (if icmp (smallest f) s <? 0 then smallest f else s)
        (if 0 <? icmp (largest f) l then largest f else l)
  end.

Definition GetRange (inputs : list FileMetaData) : option (bytes * bytes) :=
  match inputs with
  | [] => None
  | f :: inputs' => Some (GetRange_loop inputs' (smallest f) (largest f))
  end.

Definition GetRange2 (inputs1 inputs2 : list FileMetaData) : option (bytes * bytes) :=
  GetRange (inputs1 ++ inputs2).

(** * Boundary files *)

Fixpoint FindLargestKey_loop (files : list FileMetaData) (largest_key : bytes) : bytes :=
  match files with
  | [] => largest_key
  | f :: files' =>
      FindLargestKey_loop files'
        (if 0 <? icmp (largest f) largest_key then largest f else largest_key)
  end.

Definition FindLargestKey (files : list FileMetaData) : option bytes :=
  match files with
  | [] => None
  | f :: files' => Some (FindLargestKey_loop files' (largest f))
  end.

(** The test of the loop of [FindSmallestBoundaryFile]. *)
Definition is_boundary (largest_key : bytes) (f : FileMetaData) : bool :=
  (0 <? icmp (smallest f) largest_key) &&
  (ucmp (smallest_user f) (ExtractUserKey largest_key) =? 0).

Fixpoint FindSmallestBoundaryFile_loop (level_files : list FileMetaData) (largest_key : bytes)
    (found : option FileMetaData) : option FileMetaData :=
  match level_files with
  | [] => found
  | f :: level_files' =>
      FindSmallestBoundaryFile_loop level_files' largest_key
        (if is_boundary largest_key f &&
            match found with None => true | Some g => icmp (smallest f) (smallest g) <? 0 end
         then Some f else found)
  end.

Definition FindSmallestBoundaryFile (level_files : list FileMetaData) (largest_key : bytes)
  : option FileMetaData :=
  FindSmallestBoundaryFile_loop level_files largest_key None.

(** The [while] loop; every round finds a file that begins after the key
    reached so far, so one round per file of the level and one more are enough
    ([AddBoundaryInputs_ok]); [None] when the fuel ends. *)
Fixpoint AddBoundaryInputs_loop (fuel : nat) (level_files : list FileMetaData) (largest_key : bytes)
    (compaction_files : list FileMetaData) : option (list FileMetaData) :=
  match fuel with
  | O => None
  | S fuel' =>
      match FindSmallestBoundaryFile level_files largest_key with
      | Some f => AddBoundaryInputs_loop fuel' level_files (largest f) (compaction_files ++ [f])
      | None => Some compaction_files
      end
  end.

Definition AddBoundaryInputs (level_files compaction_files : list FileMetaData)
  : option (list FileMetaData) :=
  match FindLargestKey compaction_files with
  | None => Some compaction_files
  | Some largest_key =>
      AddBoundaryInputs_loop (S (length level_files)) level_files largest_key compaction_files
  end.

(** * Choosing the inputs *)

(** The attempt to grow the inputs of [level] without changing those of
    [level+1]: the new inputs and ranges. *)
Definition expand_inputs (v : Version) (level : nat) (inputs0 inputs1 : list FileMetaData)
    (smallest largest all_start all_limit : bytes)
  : option (list FileMetaData * list FileMetaData * (bytes * bytes) * (bytes * bytes)) :=
  let unchanged := Some (inputs0, inputs1, (smallest, largest), (all_start, all_limit)) in
  match inputs1 with
  | [] => unchanged
  | _ =>
      expanded0 ← GetOverlappingInputs user_comparator_ v level (Some all_start) (Some all_limit);
      expanded0 ← AddBoundaryInputs (level_files v level) expanded0;
      let inputs1_size := TotalFileSize inputs1 in
      let expanded0_size := TotalFileSize expanded0 in
      if (length inputs0 <? length expanded0)%nat &&
         (inputs1_size + expanded0_size <? ExpandedCompactionByteSizeLimit max_file_size)
      then
        '(new_start, new_limit) ← GetRange expanded0;
        expanded1 ← GetOverlappingInputs user_comparator_ v (S level) (Some new_start) (Some new_limit);
        if (length expanded1 =? length inputs1)%nat
        then
          '(all_start, all_limit) ← GetRange2 expanded0 expanded1;
          Some (expanded0, expanded1, (new_start, new_limit), (all_start, all_limit))
        else unchanged
      else unchanged
  end.

(** [compact_pointer_] is the array of the version set. *)
Definition SetupOtherInputs (v : Version) (compact_pointer : list bytes) (c : Compaction)
  : option (Compaction * list bytes) :=
  let level := level_ c in
  inputs0 ← AddBoundaryInputs (level_files v level) (inputs_ c).1;
  '(s, l) ← GetRange inputs0;
  inputs1 ← GetOverlappingInputs user_comparator_ v (S level) (Some s) (Some l);
  '(all_start, all_limit) ← GetRange2 inputs0 inputs1;
  '(inputs0, inputs1, (s, l), (all_start, all_limit)) ←
    expand_inputs v level inputs0 inputs1 s l all_start all_limit;
  grandparents ←
    (if Z.of_nat level + 2 <? kNumLevels
     then GetOverlappingInputs user_comparator_ v (level + 2) (Some all_start) (Some all_limit)
     else Some (grandparents_ c));
  Some (with_setup c (inputs0, inputs1) grandparents (SetCompactPointer (edit_ c) (Z.of_nat level) l),
        <[level := l]> compact_pointer).

(** The first file after the compaction pointer of the level, or the first
    file. *)
Definition pick_file (files : list FileMetaData) (pointer : bytes) : option FileMetaData :=
  match List.find (fun f => match pointer with [] => true | _ => 0 <? icmp (largest f) pointer end)
          files with
  | Some f => Some f
  | None => head files
  end.

(** [compaction_score_ >= 1] on the fraction. *)
Definition score_reached (v : Version) : bool := (compaction_score_ v).2 <=? (compaction_score_ v).1.

(** The result: no compaction ([inl]), or one with the pointers updated. *)
Definition PickCompaction (v : Version) (compact_pointer : list bytes)
  : option (unit + Compaction * list bytes) :=
  let start (level : nat) (f : FileMetaData) :=
    let c := with_inputs (newCompaction max_file_size level) v [f] in
    c ← (if (level =? 0)%nat then
           '(s, l) ← GetRange (inputs_ c).1;
           inputs0 ← GetOverlappingInputs user_comparator_ v 0 (Some s) (Some l);
           Some (with_inputs c v inputs0)
         else Some c);
    inr <$> SetupOtherInputs v compact_pointer c in
  if score_reached v then
    let level := Z.to_nat (compaction_level_ v) in
    f ← pick_file (level_files v level) (nth level compact_pointer []);
    start level f
  else
    match file_to_compact_ v with
    | Some f => start (Z.to_nat (file_to_compact_level_ v)) f
    | None => Some (inl tt)
    end.

(** The cut of the inputs of [CompactRange]: up to the file with which the total
    reaches the limit ([uint64_t] sums). *)
Fixpoint limit_inputs (limit total : Z) (inputs : list FileMetaData) : list FileMetaData :=
  match inputs with
  | [] => []
  | f :: inputs' =>
      let total := u64 (total + file_size f) in
      if limit <=? total then [f] else f :: limit_inputs limit total inputs'
  end.

Definition CompactRange (v : Version) (compact_pointer : list bytes) (level : nat)
    (begin_ end_ : option bytes) : option (unit + Compaction * list bytes) :=
  inputs ← GetOverlappingInputs user_comparator_ v level begin_ end_;
  match inputs with
  | [] => Some (inl tt)
  | _ =>
      let inputs :=
        if (0 <? level)%nat
        then limit_inputs (MaxFileSizeForLevel max_file_size (Z.of_nat level)) 0 inputs
        else inputs in
      let c := with_inputs (newCompaction max_file_size level) v inputs in
      inr <$> SetupOtherInputs v compact_pointer c
  end.

(** * Operations of a compaction *)

Definition IsTrivialMove (c : Compaction) : bool :=
  (num_input_files c false =? 1)%nat && (num_input_files c true =? 0)%nat &&
  (TotalFileSize (grandparents_ c) <=? MaxGrandParentOverlapBytes max_file_size).

Definition AddInputDeletions (c : Compaction) (e : VersionEdit) : VersionEdit :=
  let e := fold_left (fun e f => DeleteFile e (Z.of_nat (level_ c)) (number f)) (inputs_ c).1 e in
  fold_left (fun e f => DeleteFile e (Z.of_nat (level_ c) + 1) (number f)) (inputs_ c).2 e.

(** The inner loop of [IsBaseLevelForKey] from the file [level_ptrs_[lvl]]: the
    pointer after it and whether the key falls into a file. *)
Fixpoint base_scan (user_key : bytes) (files : list FileMetaData) (ptr : nat) : bool * nat :=
  match files with
  | [] => (false, ptr)
  | f :: files' =>
      if ucmp user_key (largest_user f) <=? 0
      then (0 <=? ucmp user_key (smallest_user f), ptr)
      else base_scan user_key files' (S ptr)
  end.

Fixpoint base_levels (user_key : bytes) (v : Version) (levels : list nat) (ptrs : list nat)
  : bool * list nat :=
  match levels with
  | [] => (true, ptrs)
  | lvl :: levels' =>
      let ptr := nth lvl ptrs 0%nat in
      let '(hit, ptr) := base_scan user_key (drop ptr (level_files v lvl)) ptr in
      let ptrs := <[lvl := ptr]> ptrs in
      if hit then (false, ptrs) else base_levels user_key v levels' ptrs
  end.

(** [None]: the inputs were released. *)
Definition IsBaseLevelForKey (c : Compaction) (user_key : bytes) : option (bool * Compaction) :=
  v ← input_version_ c;
  let '(b, ptrs) := base_levels user_key v
    (seq (level_ c + 2) (Z.to_nat kNumLevels - (level_ c + 2))) (level_ptrs_ c) in
  Some (b, with_level_ptrs c ptrs).

(** The [while] loop of [ShouldStopBefore], over the grandparents from the
    current one on; [overlapped_bytes_] is a signed 64-bit sum. *)
Fixpoint stop_scan (internal_key : bytes) (files : list FileMetaData) (i : nat) (seen : bool) (n : Z)
  : nat * Z :=
  match files with
  | [] => (i, n)
  | f :: files' =>
      if 0 <? icmp internal_key (largest f)
      then stop_scan internal_key files' (S i) seen (if seen then n + file_size f else n)
      else (i, n)
  end.

Definition ShouldStopBefore (c : Compaction) (internal_key : bytes) : bool * Compaction :=
  let '(i, n) := stop_scan internal_key (drop (grandparent_index_ c) (grandparents_ c))
    (grandparent_index_ c) (seen_key_ c) (overlapped_bytes_ c) in
  if MaxGrandParentOverlapBytes max_file_size <? n
  then (true, with_grandparent c i true 0)
  else (false, with_grandparent c i true n).
End Compaction.
