(* ===== verification/CompactionProofs.v ===== *)
(** What a compaction reads (Compaction): the inputs that [PickCompaction] and
    [CompactRange] choose may be replaced by their merge in the next level
    without an older entry overtaking a newer one, and the pointers of
    [IsBaseLevelForKey] compute what a scan of the deeper levels would. *)

From stdpp Require Import base list sorting strings.
From S2P Require Import Prelude Status Coding Comparator Logging DbFormat VersionEdit Version VersionBuilder VersionBuilderProofs Compaction.

#[local] Open Scope Z_scope.

Section Proofs.
Context (user_comparator_ : Comparator) {cmp_ok : @ComparatorOk user_comparator_}.
#[local] Abbreviation icmp := (InternalKey_Compare user_comparator_).
#[local] Abbreviation ucmp := (@Compare user_comparator_).
#[local] Abbreviation wf := (file_wf user_comparator_).
#[local] Abbreviation before := (ends_before user_comparator_).
#[local] Abbreviation share := (files_overlap user_comparator_).
#[local] Existing Instance icmp_total.
#[local] Existing Instance ucmp_total.

Lemma icmp_user a b : icmp a b <= 0 -> ucmp (ExtractUserKey a) (ExtractUserKey b) <= 0.
Proof. rewrite icmp_le by exact _. lia. Qed.

Lemma icmp_flip a b : 0 < icmp a b <-> icmp b a < 0.
Proof. pose proof (tc_antisym (cmp := icmp) b a). tauto. Qed.

(** * Ranges *)

Lemma GetRange_loop_spec inputs : forall s l,
  let '(s', l') := GetRange_loop user_comparator_ inputs s l in
  (icmp s' s <= 0 /\ forall f, f ∈ inputs -> icmp s' (smallest f) <= 0) /\
  (icmp l l' <= 0 /\ forall f, f ∈ inputs -> icmp (largest f) l' <= 0) /\
  (s' = s \/ exists f, f ∈ inputs /\ s' = smallest f) /\
  (l' = l \/ exists f, f ∈ inputs /\ l' = largest f).
Proof.
  induction inputs as [|f inputs IH]; intros s l; simpl.
  { rewrite !(tc_refl icmp). repeat split; try (by left); try lia; intros f Hf; by apply elem_of_nil in Hf. }
  set (s1 := if icmp (smallest f) s <? 0 then smallest f else s).
  set (l1 := if 0 <? icmp (largest f) l then largest f else l).
  specialize (IH s1 l1). destruct (GetRange_loop user_comparator_ inputs s1 l1) as [s' l'].
  destruct IH as ([S1 S2] & [L1 L2] & S3 & L3).
  assert (Hs : icmp s1 s <= 0 /\ icmp s1 (smallest f) <= 0 /\ (s1 = s \/ s1 = smallest f)).
  { unfold s1. destruct (Z.ltb_spec (icmp (smallest f) s) 0) as [Hlt|Hge].
    - rewrite (tc_refl icmp). split; [lia|]. split; [lia|by right].
    - rewrite (tc_refl icmp). split; [lia|]. split; [by apply (tc_flip_le icmp)|by left]. }
  assert (Hl : icmp l l1 <= 0 /\ icmp (largest f) l1 <= 0 /\ (l1 = l \/ l1 = largest f)).
  { unfold l1. destruct (Z.ltb_spec 0 (icmp (largest f) l)) as [Hlt|Hge].
    - rewrite (tc_refl icmp). apply icmp_flip in Hlt. split; [lia|]. split; [lia|by right].
    - rewrite (tc_refl icmp). split; [lia|]. split; [done|by left]. }
  destruct Hs as (Hs1 & Hs2 & Hs3), Hl as (Hl1 & Hl2 & Hl3).
  assert (T : forall a b c, icmp a b <= 0 -> icmp b c <= 0 -> icmp a c <= 0)
    by (intros; by eapply (tc_le_trans (cmp := icmp))).
  split; [split; [by eapply T|]|split; [split; [by eapply T|]|split]].
  - intros g. rewrite elem_of_cons. intros [->|Hg]; [by eapply T|auto].
  - intros g. rewrite elem_of_cons. intros [->|Hg]; [by eapply T|auto].
  - destruct S3 as [->|(g & Hg & ->)]; [|right; exists g; split; [by right|done]].
    destruct Hs3 as [->| ->]; [by left|]. right. exists f. split; [by left|done].
  - destruct L3 as [->|(g & Hg & ->)]; [|right; exists g; split; [by right|done]].
    destruct Hl3 as [->| ->]; [by left|]. right. exists f. split; [by left|done].
Qed.

(** The range covers the files and is tight. *)
Definition covers (inputs : list FileMetaData) (s l : bytes) : Prop :=
  (forall f, f ∈ inputs -> icmp s (smallest f) <= 0 /\ icmp (largest f) l <= 0) /\
  (exists f, f ∈ inputs /\ s = smallest f) /\ (exists f, f ∈ inputs /\ l = largest f).

Lemma GetRange_spec inputs : inputs <> [] ->
  exists s l, GetRange user_comparator_ inputs = Some (s, l) /\ covers inputs s l.
Proof.
  destruct inputs as [|f inputs]; [done|]. intros _. unfold GetRange.
  pose proof (GetRange_loop_spec inputs (smallest f) (largest f)) as S.
  destruct (GetRange_loop user_comparator_ inputs (smallest f) (largest f)) as [s l].
  destruct S as ([S1 S2] & [L1 L2] & S3 & L3). exists s, l. split; [done|]. split; [|split].
  - intros g. rewrite elem_of_cons. intros [->|Hg]; auto.
  - destruct S3 as [->|(g & Hg & ->)]; [exists f|exists g]; split; (by left) || (by right) || done.
  - destruct L3 as [->|(g & Hg & ->)]; [exists f|exists g]; split; (by left) || (by right) || done.
Qed.

Lemma FindLargestKey_GetRange files :
  FindLargestKey user_comparator_ files = snd <$> GetRange user_comparator_ files.
Proof.
  destruct files as [|f files]; [done|]. simpl. f_equal.
  generalize (largest f) (smallest f). induction files as [|g files IH]; intros l s; [done|].
  simpl. apply IH.
Qed.

(** The user keys of a file inside a covered range. *)
Lemma covers_overlaps inputs s l f g : covers inputs s l -> f ∈ inputs -> share f g ->
  overlaps user_comparator_ (Some (ExtractUserKey s)) (Some (ExtractUserKey l)) g = true.
Proof.
  intros [Hc _] Hf [H1 H2]. destruct (Hc f Hf) as [Hs Hl]. apply icmp_user in Hs, Hl.
  unfold overlaps, AfterFile, BeforeFile. apply negb_true_iff, orb_false_iff.
  unfold smallest_user, largest_user in *. split.
  - apply Z.ltb_ge. by eapply cmp_le_trans.
  - apply Z.ltb_ge, cmp_flip_le. by eapply cmp_le_trans.
Qed.

(** * Boundary files *)

Lemma boundary_loop_spec key files : forall found,
  (forall g, found = Some g -> is_boundary user_comparator_ key g = true) ->
  match FindSmallestBoundaryFile_loop user_comparator_ files key found with
  | None => found = None /\ forall f, f ∈ files -> is_boundary user_comparator_ key f = false
  | Some g => (found = Some g \/ g ∈ files) /\ is_boundary user_comparator_ key g = true /\
      (forall f, found = Some f -> icmp (smallest g) (smallest f) <= 0) /\
      (forall f, f ∈ files -> is_boundary user_comparator_ key f = true ->
         icmp (smallest g) (smallest f) <= 0)
  end.
Proof.
  induction files as [|f files IH]; intros found Hb; simpl.
  { destruct found as [g|].
    - split; [by left|]. split; [by apply Hb|]. split; [intros f [= <-]; rewrite (tc_refl icmp); lia|].
      intros f Hf. by apply elem_of_nil in Hf.
    - split; [done|]. intros f Hf. by apply elem_of_nil in Hf. }
  set (take := is_boundary user_comparator_ key f && _).
  specialize (IH (if take then Some f else found)).
  destruct (FindSmallestBoundaryFile_loop user_comparator_ files key _) as [g|].
  - destruct IH as (Hg & Hbg & H1 & H2).
    { intros x. destruct take eqn:Et; [|apply Hb]. intros [= <-]. by apply andb_true_iff in Et as [? _]. }
    split; [destruct take; destruct Hg as [Hg|Hg]; [injection Hg as <-; right; by left|right; by right
      |by left|right; by right]|].
    split; [done|]. unfold take in *. clear take.
    destruct (is_boundary user_comparator_ key f) eqn:Ebf; simpl in *.
    + destruct found as [h|]; simpl in *.
      * destruct (Z.ltb_spec (icmp (smallest f) (smallest h)) 0) as [Hlt|Hge].
        -- specialize (H1 f eq_refl). split.
           ++ intros x [= <-]. eapply (tc_le_trans (cmp := icmp)); [done|lia].
           ++ intros x. rewrite elem_of_cons. intros [->|Hx]; [done|auto].
        -- specialize (H1 h eq_refl). split; [by intros x [= <-]|].
           intros x. rewrite elem_of_cons. intros [->|Hx]; [|auto]. intros _.
           eapply (tc_le_trans (cmp := icmp)); [exact H1|]. by apply (tc_flip_le icmp).
      * split; [done|]. intros x. rewrite elem_of_cons. intros [->|Hx]; auto.
    + split; [done|]. intros x. rewrite elem_of_cons. intros [->|Hx]; [congruence|auto].
  - destruct IH as [E H2].
    { intros x. destruct take eqn:Et; [|apply Hb]. intros [= <-]. by apply andb_true_iff in Et as [? _]. }
    unfold take in *. destruct found as [h|]; simpl in *.
    + destruct (_ && _) in E; done.
    + rewrite andb_true_r in E. destruct (is_boundary user_comparator_ key f) eqn:Ebf; [done|].
      split; [done|]. intros x. rewrite elem_of_cons. intros [->|Hx]; auto.
Qed.

Lemma FindSmallestBoundaryFile_spec files key :
  match FindSmallestBoundaryFile user_comparator_ files key with
  | None => forall f, f ∈ files -> is_boundary user_comparator_ key f = false
  | Some g => g ∈ files /\ is_boundary user_comparator_ key g = true /\
      forall f, f ∈ files -> is_boundary user_comparator_ key f = true ->
        icmp (smallest g) (smallest f) <= 0
  end.
Proof.
  pose proof (boundary_loop_spec key files None ltac:(done)) as S. unfold FindSmallestBoundaryFile.
  destruct (FindSmallestBoundaryFile_loop user_comparator_ files key None) as [g|].
  - destruct S as ([?|?] & ? & _ & ?); [done|]. done.
  - by destruct S.
Qed.

(** Files of a sorted level that begin after the key. *)
Definition begins_after (key : bytes) (f : FileMetaData) : bool := 0 <? icmp (smallest f) key.

Lemma before_irrefl f g : wf f -> wf g -> before f g -> before g f -> False.
Proof.
  unfold file_wf, ends_before. intros Hf Hg H1 H2.
  pose proof (tc_le_lt_trans icmp _ _ _ Hf H1) as H3. pose proof (tc_lt_le_trans icmp _ _ _ H3 Hg) as H4.
  pose proof (tc_lt_trans icmp _ _ _ H4 H2) as H5. rewrite (tc_refl icmp) in H5. lia.
Qed.

Lemma before_trans f g h : wf g -> before f g -> before g h -> before f h.
Proof.
  unfold file_wf, ends_before. intros Hg H1 H2. eapply (tc_lt_trans icmp); [|exact H2].
  by eapply (tc_lt_le_trans icmp).
Qed.

(** A level above 0. *)
Definition sorted_level (files : list FileMetaData) : Prop :=
  Forall wf files /\ StronglySorted before files.

Lemma sorted_level_cases files f g : sorted_level files -> f ∈ files -> g ∈ files ->
  f = g \/ before f g \/ before g f.
Proof.
  intros [_ Hs] [i Hi]%list_elem_of_lookup [j Hj]%list_elem_of_lookup.
  destruct (Nat.lt_trichotomy i j) as [Hij|[->|Hij]].
  - right; left. by eapply sorted_lookup.
  - left. congruence.
  - right; right. by eapply sorted_lookup.
Qed.

(** With two files, the files between them. *)
Definition convex (files S : list FileMetaData) : Prop :=
  forall f1 f2 g, f1 ∈ S -> f2 ∈ S -> g ∈ files -> before f1 g -> before g f2 -> g ∈ S.

Lemma boundary_step files S key h : sorted_level files -> (forall f, f ∈ S -> f ∈ files) ->
  (forall f, f ∈ S -> icmp (largest f) key <= 0) -> (exists m, m ∈ S /\ key = largest m) ->
  FindSmallestBoundaryFile user_comparator_ files key = Some h -> convex files S ->
  convex files (S ++ [h]).
Proof.
  intros Hl Hsub Hmax (m & Hm & ->) Eh Hc. pose proof (FindSmallestBoundaryFile_spec files (largest m)) as B.
  rewrite Eh in B. destruct B as (Hh & Hb & Hmin).
  assert (Hwf : forall f, f ∈ files -> wf f) by (destruct Hl as [Hw _]; by rewrite Forall_forall in Hw).
  unfold is_boundary in Hb. apply andb_true_iff in Hb as [Hb1 Hb2].
  apply Z.ltb_lt, icmp_flip in Hb1. apply Z.eqb_eq in Hb2.
  assert (Hafter : forall f, f ∈ S -> before f h).
  { intros f Hf. unfold ends_before. eapply (tc_le_lt_trans icmp); [by apply Hmax|done]. }
  intros f1 f2 g H1 H2 Hg Hb1' Hb2'. apply elem_of_app. rewrite elem_of_app, list_elem_of_singleton in H1, H2.
  destruct H1 as [H1| ->].
  - destruct H2 as [H2| ->]; [left; by apply (Hc f1 f2)|].
    destruct (sorted_level_cases files g m Hl Hg) as [->|[Hgm|Hmg]]; [by apply Hsub|by left|left; by apply (Hc f1 m)|].
    exfalso. assert (Hgh : icmp (smallest g) (smallest h) < 0).
    { eapply (tc_le_lt_trans icmp); [by apply (Hwf g)|done]. }
    assert (Hbg : is_boundary user_comparator_ (largest m) g = true).
    { unfold is_boundary. apply andb_true_iff. split; [by apply Z.ltb_lt, icmp_flip|].
      apply Z.eqb_eq. unfold smallest_user in *.
      pose proof (icmp_user (smallest g) (smallest h) ltac:(lia)) as U1.
      assert (U0 : icmp (largest m) (smallest g) <= 0) by (unfold ends_before in Hmg; lia).
      apply icmp_user in U0. apply cmp_flip_le in U0.
      assert (ucmp (ExtractUserKey (smallest g)) (ExtractUserKey (largest m)) <= 0); [|lia].
      eapply cmp_le_trans; [exact U1|]. lia. }
    specialize (Hmin g Hg Hbg). apply (tc_flip_le icmp) in Hmin. lia.
  - exfalso. destruct H2 as [H2| ->]; [|by eapply (before_irrefl h g); [apply Hwf|apply Hwf|..]].
    eapply (before_irrefl h f2); [by apply Hwf|by apply Hwf, Hsub| |by apply Hafter].
    by eapply before_trans; [apply (Hwf g)|..].
Qed.

(** The compaction files after the loop: their largest key has no boundary
    file. *)
Record boundary_result (files S S' : list FileMetaData) : Prop := {
  br_extra : exists extra, S' = S ++ extra /\ forall f, f ∈ extra -> f ∈ files;
  br_max : exists m, m ∈ S' /\ (forall f, f ∈ S' -> icmp (largest f) (largest m) <= 0) /\
    (forall f, f ∈ files -> is_boundary user_comparator_ (largest m) f = false);
  br_convex : sorted_level files -> (forall f, f ∈ S -> f ∈ files) -> convex files S -> convex files S';
}.

Lemma AddBoundaryInputs_loop_spec files : Forall wf files -> forall fuel key S,
  (length (List.filter (begins_after key) files) < fuel)%nat ->
  (forall f, f ∈ S -> icmp (largest f) key <= 0) -> (exists m, m ∈ S /\ key = largest m) ->
  exists S', AddBoundaryInputs_loop user_comparator_ fuel files key S = Some S' /\
    boundary_result files S S'.
Proof.
  intros Hwf. induction fuel as [|fuel IH]; intros key S Hf Hmax Hm; [lia|]. cbn [AddBoundaryInputs_loop].
  pose proof (FindSmallestBoundaryFile_spec files key) as B.
  destruct (FindSmallestBoundaryFile user_comparator_ files key) as [h|] eqn:Eh.
  - destruct B as (Hh & Hb & Hmin). apply andb_true_iff in Hb as [Hb1 _].
    assert (Hwh : wf h) by (by rewrite Forall_forall in Hwf; apply Hwf).
    assert (Hkh : icmp key (largest h) < 0).
    { apply Z.ltb_lt, icmp_flip in Hb1. by eapply (tc_lt_le_trans icmp). }
    destruct (IH (largest h) (S ++ [h])) as (S' & E & [Hx Hmx Hcv]).
    + enough (length (List.filter (begins_after (largest h)) files) <
        length (List.filter (begins_after key) files))%nat by lia.
      apply (filter_length_lt _ _ _ h); [|done|done|].
      * intros g Hg. unfold begins_after in *. rewrite Z.ltb_lt, icmp_flip in *. by eapply (tc_lt_trans icmp).
      * unfold begins_after. apply Z.ltb_ge. apply Hwh.
    + intros f. rewrite elem_of_app, list_elem_of_singleton. intros [Hfs| ->].
      * pose proof (tc_le_lt_trans icmp _ _ _ (Hmax f Hfs) Hkh). lia.
      * rewrite (tc_refl icmp). lia.
    + exists h. split; [|done]. apply elem_of_app. right. by apply list_elem_of_singleton.
    + exists S'. split; [done|]. split.
      * destruct Hx as (extra & -> & Hex). exists (h :: extra). split; [by rewrite <- app_assoc|].
        intros f. rewrite elem_of_cons. intros [->|]; auto.
      * done.
      * intros Hl Hsub Hc. apply Hcv; [done| |].
        -- intros f. rewrite elem_of_app, list_elem_of_singleton. intros [?| ->]; auto.
        -- by eapply boundary_step.
  - destruct Hm as (m & Hm & ->). exists S. split; [done|]. split.
    + exists []. split; [by rewrite app_nil_r|]. intros f Hx. by apply elem_of_nil in Hx.
    + exists m. split; [done|]. done.
    + done.
Qed.

(** The search for boundary files ends, whatever files the compaction starts
    with. *)
Lemma AddBoundaryInputs_ok files S : Forall wf files -> S <> [] ->
  exists S', AddBoundaryInputs user_comparator_ files S = Some S' /\ boundary_result files S S'.
Proof.
  intros Hwf Hne. unfold AddBoundaryInputs. rewrite FindLargestKey_GetRange.
  destruct (GetRange_spec S Hne) as (s & l & -> & Hc & _ & Hl). change (snd <$> Some (s, l)) with (Some l). cbv beta iota.
  apply AddBoundaryInputs_loop_spec; [done| |by apply Hc|done].
  pose proof (filter_length_all (begins_after l) files). lia.
Qed.

(** * Inputs that may be compacted *)

(** A level of a version. *)
Definition level_files_ok (level : nat) (files : list FileMetaData) : Prop :=
  Forall wf files /\ ((0 < level)%nat -> StronglySorted before files).

Definition levels_ok (v : Version) : Prop :=
  forall level, level_files_ok level (level_files v level).

(** A file that is left behind and shares user keys with an input holds only
    newer entries for them; in level 0 there is none. *)
Definition inputs_closed (level : nat) (files S : list FileMetaData) : Prop :=
  forall f g, f ∈ S -> g ∈ files -> share f g -> g ∈ S \/ ((0 < level)%nat /\ before g f).

(** What the choice of the first inputs gives. *)
Definition start_ok (level : nat) (files S : list FileMetaData) : Prop :=
  S <> [] /\ (forall f, f ∈ S -> f ∈ files) /\
  (level = 0%nat -> forall f g, f ∈ S -> g ∈ files -> share f g -> g ∈ S) /\
  ((0 < level)%nat -> convex files S).

Lemma share_refl f : wf f -> share f f.
Proof. intros Hf. split; by apply (file_wf_user user_comparator_). Qed.

Lemma boundary_shares m f : wf m -> wf f -> is_boundary user_comparator_ (largest m) f = true -> share m f.
Proof.
  intros Hm Hf Hb. apply andb_true_iff in Hb as [_ Hb]. apply Z.eqb_eq in Hb.
  pose proof (file_wf_user user_comparator_ m Hm). pose proof (file_wf_user user_comparator_ f Hf).
  unfold largest_user in *. split; [|unfold largest_user; lia].
  eapply cmp_le_trans; [done|]. eapply cmp_le_trans; [|done].
  apply cmp_eq_sym in Hb. unfold smallest_user in *. lia.
Qed.

Lemma AddBoundaryInputs_start level files S : level_files_ok level files -> start_ok level files S ->
  exists S', AddBoundaryInputs user_comparator_ files S = Some S' /\ S' <> [] /\
    (forall f, f ∈ S -> f ∈ S') /\ (forall f, f ∈ S' -> f ∈ files) /\ inputs_closed level files S'.
Proof.
  intros [Hwf Hsort] (Hne & Hsub & H0 & Hpos).
  destruct (AddBoundaryInputs_ok files S Hwf Hne) as (S' & E & [(extra & -> & Hex) (m & Hm & Hmax & Hnb) Hcv]).
  rewrite Forall_forall in Hwf.
  assert (Hsub' : forall f, f ∈ S ++ extra -> f ∈ files).
  { intros f. rewrite elem_of_app. intros [|]; auto. }
  exists (S ++ extra). split; [done|]. split; [by destruct S|].
  split; [intros f Hf; apply elem_of_app; by left|]. split; [done|].
  intros f g Hf Hg Hs. destruct (decide (level = 0%nat)) as [Hz|Hz].
  - left. revert E. unfold AddBoundaryInputs. rewrite FindLargestKey_GetRange.
    destruct (GetRange_spec S Hne) as (s & l & -> & Hc & _ & (m0 & Hm0 & ->)).
    change (snd <$> Some (s, largest m0)) with (Some (largest m0)). cbv beta iota. cbn [AddBoundaryInputs_loop].
    pose proof (FindSmallestBoundaryFile_spec files (largest m0)) as B.
    destruct (FindSmallestBoundaryFile user_comparator_ files (largest m0)) as [h|].
    + exfalso. destruct B as (Hh & Hb & _).
      assert (Hin : h ∈ S) by (eapply (H0 Hz m0); [done|done|]; apply boundary_shares; auto).
      apply andb_true_iff in Hb as [Hb _]. apply Z.ltb_lt, icmp_flip in Hb.
      pose proof (tc_lt_le_trans icmp _ _ _ Hb (Hwf h Hh)) as Hlt.
      pose proof (proj2 (Hc h Hin)) as Hle. apply (tc_flip_le icmp) in Hle. lia.
    + intros [= Ex]. rewrite <- Ex in *. by eapply (H0 Hz f).
  - assert (Hl : sorted_level files) by (split; [by apply Forall_forall|]; apply Hsort; lia).
    specialize (Hcv Hl Hsub (Hpos ltac:(lia))).
    destruct (decide (g ∈ S ++ extra)) as [|Hng]; [by left|right]. split; [lia|].
    destruct (sorted_level_cases files g f Hl Hg (Hsub' f Hf)) as [->|[Hgf|Hfg]]; [done|done|].
    exfalso. destruct (sorted_level_cases files g m Hl Hg (Hsub' m Hm)) as [->|[Hgm|Hmg]]; [done| |].
    + apply Hng. by apply (Hcv f m).
    + specialize (Hnb g Hg). unfold is_boundary in Hnb. apply andb_false_iff in Hnb as [Hnb|Hnb].
      * unfold ends_before in Hmg. apply Z.ltb_ge in Hnb. apply icmp_flip in Hmg. lia.
      * apply Z.eqb_neq in Hnb. apply Hnb.
        assert (icmp (largest m) (smallest g) <= 0) as U1%icmp_user by (unfold ends_before in Hmg; lia).
        pose proof (icmp_user _ _ (Hmax f Hf)) as U2. destruct Hs as [_ Hs]. apply cmp_flip_le in U1.
        unfold smallest_user, largest_user in *.
        pose proof (cmp_le_trans _ _ _ Hs U2). lia.
Qed.

(** * The files that overlap a range, as inputs *)

Lemma overlaps_user b e f : overlaps user_comparator_ (Some b) (Some e) f = true <->
  ucmp b (largest_user f) <= 0 /\ ucmp (smallest_user f) e <= 0.
Proof.
  unfold overlaps, AfterFile, BeforeFile. rewrite negb_true_iff, orb_false_iff, !Z.ltb_ge.
  by rewrite <- cmp_flip_le.
Qed.

Lemma before_user f g : before f g -> ucmp (largest_user f) (smallest_user g) <= 0.
Proof. intros Hb. apply icmp_user. unfold ends_before in Hb. lia. Qed.

(** An unbounded side is passed by any file. *)
Lemma overlaps_between b e f1 g f2 : wf g ->
  overlaps user_comparator_ b e f1 = true -> overlaps user_comparator_ b e f2 = true ->
  before f1 g -> before g f2 -> overlaps user_comparator_ b e g = true.
Proof.
  intros Hg H1 H2 B1%before_user B2%before_user. apply (file_wf_user user_comparator_) in Hg.
  unfold overlaps, AfterFile, BeforeFile in *. rewrite negb_true_iff, orb_false_iff in *.
  destruct H1 as [H1 _], H2 as [_ H2]. split.
  - destruct b as [b|]; [|done]. rewrite Z.ltb_ge in *.
    eapply cmp_le_trans; [exact H1|]. by eapply cmp_le_trans.
  - destruct e as [e|]; [|done]. rewrite Z.ltb_ge in *. apply cmp_flip_le. apply cmp_flip_le in H2.
    eapply cmp_le_trans; [exact Hg|]. by eapply cmp_le_trans.
Qed.

Lemma sorted_filter {A} (R : A -> A -> Prop) (P : A -> bool) l :
  StronglySorted R l -> StronglySorted R (List.filter P l).
Proof.
  induction 1 as [|x l Hs IH Hx]; [constructor|]. simpl. destruct (P x); [|done].
  constructor; [done|]. rewrite Forall_forall in *. intros y Hy. apply Hx.
  rewrite !list_elem_of_In in *. by apply filter_In in Hy as [? _].
Qed.

(** A prefix of the files that overlap a range is a start, in a sorted level. *)
Lemma overlap_prefix_start level files b e P : (0 < level)%nat -> level_files_ok level files -> P <> [] ->
  P `prefix_of` List.filter (overlaps user_comparator_ b e) files -> start_ok level files P.
Proof.
  intros Hl [Hwf Hsort] Hne [R ER]. specialize (Hsort Hl). rewrite Forall_forall in Hwf.
  pose proof (sorted_filter _ (overlaps user_comparator_ b e) files Hsort) as Hsf. rewrite ER in Hsf.
  apply StronglySorted_app in Hsf as (HPR & _ & _).
  assert (Hin : forall f, f ∈ P ++ R <-> f ∈ files /\ overlaps user_comparator_ b e f = true).
  { intros f. rewrite <- ER, !list_elem_of_In, filter_In. done. }
  assert (HP : forall f, f ∈ P -> f ∈ files /\ overlaps user_comparator_ b e f = true).
  { intros f Hf. apply Hin, elem_of_app. by left. }
  split; [done|]. split; [intros f Hf; by apply HP|]. split; [lia|]. intros _ f1 f2 g H1 H2 Hg B1 B2.
  assert (Hgo : g ∈ P ++ R).
  { apply Hin. split; [done|]. eapply (overlaps_between b e f1 g f2); [by apply Hwf|by apply HP|by apply HP|done|done]. }
  apply elem_of_app in Hgo as [|HgR]; [done|]. exfalso.
  eapply (before_irrefl f2 g); [by apply Hwf, HP|by apply Hwf|by apply HPR|done].
Qed.

Lemma overlapping_start v level b e inputs : levels_ok v ->
  GetOverlappingInputs user_comparator_ v level b e = Some inputs -> inputs <> [] ->
  start_ok level (level_files v level) inputs.
Proof.
  intros Hv E Hne. destruct (GetOverlappingInputs_spec user_comparator_ v level b e)
    as (inputs' & E' & Hsub & Hall & Hpos & H0). rewrite E in E'. injection E' as <-.
  destruct (decide (level = 0%nat)) as [->|Hz].
  - split; [done|]. split; [done|]. split; [intros _; by apply H0|lia].
  - eapply overlap_prefix_start; [lia|apply Hv|done|]. rewrite <- Hpos by done. done.
Qed.

(** * The inputs of the next level *)

(** The files of the next level that the compaction rewrites: all that share
    user keys with an input; a file that is left out lies before all inputs or
    after all of them. *)
Record next_level_ok (files S0 S1 : list FileMetaData) : Prop := {
  nl_sub : forall f, f ∈ S1 -> f ∈ files;
  nl_all : forall f g, f ∈ S0 -> g ∈ files -> share f g -> g ∈ S1;
  nl_apart : forall g, g ∈ files -> g ∉ S1 ->
    (forall f, f ∈ S0 ++ S1 -> before g f) \/ (forall f, f ∈ S0 ++ S1 -> before f g);
}.

Lemma user_lt_before f g : ucmp (largest_user f) (smallest_user g) < 0 -> before f g.
Proof. intros Hu. unfold ends_before. apply icmp_lt. by left. Qed.

Lemma next_level_spec v level S0 s l : levels_ok v -> covers S0 s l ->
  exists S1, GetOverlappingInputs user_comparator_ v (S level) (Some s) (Some l) = Some S1 /\
    next_level_ok (level_files v (S level)) S0 S1.
Proof.
  intros Hv Hc. destruct (GetOverlappingInputs_spec user_comparator_ v (S level) (Some s) (Some l))
    as (S1 & E & Hsub & Hall & Hpos & _). specialize (Hpos ltac:(lia)). simpl in Hall, Hpos.
  exists S1. split; [done|]. destruct (Hv (S level)) as [Hwf Hsort]. specialize (Hsort ltac:(lia)).
  assert (Hl : sorted_level (level_files v (S level))) by done. rewrite Forall_forall in Hwf. split.
  - done.
  - intros f g Hf Hg Hs. apply Hall; [done|]. by eapply covers_overlaps.
  - intros g Hg Hng.
    assert (Hin : forall f, f ∈ S1 -> ucmp (ExtractUserKey s) (largest_user f) <= 0 /\
              ucmp (smallest_user f) (ExtractUserKey l) <= 0).
    { intros f Hf. apply overlaps_user. rewrite Hpos in Hf.
      rewrite list_elem_of_In, filter_In in Hf. by destruct Hf. }
    destruct (overlaps user_comparator_ (Some (ExtractUserKey s)) (Some (ExtractUserKey l)) g) eqn:Eo;
      [exfalso; by apply Hng, Hall|].
    assert (Hcase : ucmp (largest_user g) (ExtractUserKey s) < 0 \/
                    ucmp (ExtractUserKey l) (smallest_user g) < 0).
    { apply not_true_iff_false in Eo. rewrite overlaps_user in Eo.
      destruct (Z.lt_ge_cases (ucmp (largest_user g) (ExtractUserKey s)) 0) as [|Hge]; [by left|right].
      apply cmp_flip_le in Hge. destruct (Z.lt_ge_cases (ucmp (ExtractUserKey l) (smallest_user g)) 0) as [|Hge2];
        [done|]. apply cmp_flip_le in Hge2. tauto. }
    pose proof (file_wf_user user_comparator_ g (Hwf g Hg)) as Hwg. destruct Hc as [Hc _].
    destruct Hcase as [Hlt|Hlt]; [left|right]; intros f; rewrite elem_of_app; intros [Hf|Hf].
    + apply user_lt_before. eapply cmp_lt_le_trans; [exact Hlt|]. by apply icmp_user, Hc.
    + destruct (sorted_level_cases _ f g Hl (Hsub f Hf) Hg) as [->|[Hb|Hb]]; [done| |done].
      exfalso. apply before_user in Hb. destruct (Hin f Hf) as [H1 _].
      pose proof (cmp_le_trans _ _ _ H1 (cmp_le_trans _ _ _ Hb Hwg)) as H2. apply cmp_flip_le in H2. lia.
    + apply user_lt_before. eapply cmp_le_lt_trans; [|exact Hlt]. by apply icmp_user, Hc.
    + destruct (sorted_level_cases _ f g Hl (Hsub f Hf) Hg) as [->|[Hb|Hb]]; [done|done|].
      exfalso. apply before_user in Hb. destruct (Hin f Hf) as [_ H1].
      pose proof (cmp_le_trans _ _ _ (cmp_le_trans _ _ _ Hwg Hb) H1) as H2. apply cmp_flip_le in H2. lia.
Qed.

(** * What the choice of the inputs ensures *)

Record inputs_safe (v : Version) (level : nat) (S0 S1 : list FileMetaData) : Prop := {
  is_nonempty : S0 <> [];
  is_sub : forall f, f ∈ S0 -> f ∈ level_files v level;
  is_closed : inputs_closed level (level_files v level) S0;
  is_next : next_level_ok (level_files v (S level)) S0 S1;
}.

Record compaction_safe (v : Version) (c : Compaction) : Prop := {
  cs_version : input_version_ c = Some v;
  cs_inputs : inputs_safe v (level_ c) (inputs_ c).1 (inputs_ c).2;
  cs_grandparents : Z.of_nat (level_ c) + 2 < kNumLevels -> forall f g,
    f ∈ (inputs_ c).1 ++ (inputs_ c).2 -> g ∈ level_files v (level_ c + 2) -> share f g ->
    g ∈ grandparents_ c;
}.

Lemma inputs_safe_start v level S0 S : levels_ok v -> start_ok level (level_files v level) S ->
  AddBoundaryInputs user_comparator_ (level_files v level) S = Some S0 ->
  exists s l S1, GetRange user_comparator_ S0 = Some (s, l) /\ covers S0 s l /\
    GetOverlappingInputs user_comparator_ v (Datatypes.S level) (Some s) (Some l) = Some S1 /\
    inputs_safe v level S0 S1 /\ (forall f, f ∈ S -> f ∈ S0).
Proof.
  intros Hv Hs E. destruct (AddBoundaryInputs_start level _ S (Hv level) Hs) as (S' & E' & Hne & Hin & Hsub & Hcl).
  rewrite E in E'. injection E' as <-. destruct (GetRange_spec S0 Hne) as (s & l & Er & Hc).
  destruct (next_level_spec v level S0 s l Hv Hc) as (S1 & E1 & Hn).
  exists s, l, S1. done.
Qed.

Lemma covers_sub_overlaps (v : Version) level S0 S1 s l f : levels_ok v -> f ∈ S0 ->
  f ∈ level_files v level -> covers (S0 ++ S1) s l ->
  overlaps user_comparator_ (Some (ExtractUserKey s)) (Some (ExtractUserKey l)) f = true.
Proof.
  intros Hv Hf Hin Hc. eapply (covers_overlaps _ s l f f Hc); [apply elem_of_app; by left|].
  apply share_refl. destruct (Hv level) as [Hw _]. rewrite Forall_forall in Hw. by apply Hw.
Qed.

Lemma expand_inputs_spec msize v level S0 S1 s l a b : levels_ok v -> inputs_safe v level S0 S1 ->
  covers S0 s l -> covers (S0 ++ S1) a b ->
  exists T0 T1 s' l' a' b', expand_inputs user_comparator_ msize v level S0 S1 s l a b =
      Some (T0, T1, (s', l'), (a', b')) /\
    inputs_safe v level T0 T1 /\ covers T0 s' l' /\ covers (T0 ++ T1) a' b' /\
    (forall f, f ∈ S0 -> f ∈ T0).
Proof.
  intros Hv Hs Hc Ha. unfold expand_inputs.
  assert (Unchanged : exists T0 T1 s' l' a' b', Some (S0, S1, (s, l), (a, b)) = Some (T0, T1, (s', l'), (a', b')) /\
    inputs_safe v level T0 T1 /\ covers T0 s' l' /\ covers (T0 ++ T1) a' b' /\
    (forall f, f ∈ S0 -> f ∈ T0)) by (do 6 eexists; by split).
  destruct S1 as [|x S1']; [exact Unchanged|]. set (S1 := x :: S1') in *.
  destruct (GetOverlappingInputs_spec user_comparator_ v level (Some a) (Some b)) as (T & ET & _ & Hall & _).
  rewrite ET. simpl in Hall. cbn [mbind option_bind].
  assert (HinT : forall f, f ∈ S0 -> f ∈ T).
  { intros f Hf. apply Hall; [by apply Hs|]. eapply covers_sub_overlaps; [done|done|by apply Hs|done]. }
  assert (HT : T <> []).
  { destruct Hs as [Hne _ _ _]. destruct S0 as [|y S0]; [done|]. intros ->.
    specialize (HinT y ltac:(by left)). by apply elem_of_nil in HinT. }
  pose proof (overlapping_start v level _ _ T Hv ET HT) as Hst.
  destruct (AddBoundaryInputs_start level _ T (Hv level) Hst) as (T0 & E0 & _).
  rewrite E0. cbn [mbind option_bind].
  destruct (inputs_safe_start v level T0 T Hv Hst E0) as (s' & l' & T1 & Er & Hcr & E1 & Hsafe & HTT).
  destruct (_ && _); [|exact Unchanged]. rewrite Er. cbn [mbind option_bind]. rewrite E1. cbn [mbind option_bind].
  destruct (length T1 =? length S1)%nat; [|exact Unchanged].
  destruct (GetRange_spec (T0 ++ T1)) as (a' & b' & Ea & Hca).
  { destruct Hsafe as [Hne _ _ _]. by destruct T0. }
  unfold GetRange2. rewrite Ea. cbn [mbind option_bind]. exists T0, T1, s', l', a', b'.
  split; [done|]. split; [done|]. split; [done|]. split; [done|]. auto.
Qed.

(** [SetupOtherInputs] always succeeds and completes a start to a compaction
    that may be carried out; the next one of the level starts after it. *)
Lemma SetupOtherInputs_spec msize v ps c : levels_ok v -> input_version_ c = Some v ->
  start_ok (level_ c) (level_files v (level_ c)) (inputs_ c).1 ->
  exists c' s l, SetupOtherInputs user_comparator_ msize v ps c = Some (c', <[level_ c := l]> ps) /\
    compaction_safe v c' /\ level_ c' = level_ c /\ covers (inputs_ c').1 s l /\
    (forall f, f ∈ (inputs_ c).1 -> f ∈ (inputs_ c').1) /\
    compact_pointers_ (edit_ c') = compact_pointers_ (edit_ c) ++ [(Z.of_nat (level_ c), l)].
Proof.
  intros Hv Ev Hs. unfold SetupOtherInputs.
  destruct (AddBoundaryInputs_start _ _ _ (Hv (level_ c)) Hs) as (S0 & E0 & _). rewrite E0. cbn [mbind option_bind].
  destruct (inputs_safe_start v _ S0 _ Hv Hs E0) as (s & l & S1 & Er & Hc & E1 & Hsafe & Hin).
  rewrite Er. cbn [mbind option_bind]. rewrite E1. cbn [mbind option_bind].
  destruct (GetRange_spec (S0 ++ S1)) as (a & b & Ea & Hca).
  { destruct Hsafe as [Hne _ _ _]. by destruct S0. }
  unfold GetRange2 at 1. rewrite Ea. cbn [mbind option_bind].
  destruct (expand_inputs_spec msize v _ S0 S1 s l a b Hv Hsafe Hc Hca)
    as (T0 & T1 & s' & l' & a' & b' & -> & Hsafe' & Hc' & Hca' & HinT). cbn [mbind option_bind].
  assert (Hg : exists gp, (if Z.of_nat (level_ c) + 2 <? kNumLevels
      then GetOverlappingInputs user_comparator_ v (level_ c + 2) (Some a') (Some b')
      else Some (grandparents_ c)) = Some gp /\
    (Z.of_nat (level_ c) + 2 < kNumLevels -> forall f g, f ∈ T0 ++ T1 ->
       g ∈ level_files v (level_ c + 2) -> share f g -> g ∈ gp)).
  { destruct (Z.ltb_spec (Z.of_nat (level_ c) + 2) kNumLevels); [|eexists; split; [done|lia]].
    destruct (GetOverlappingInputs_spec user_comparator_ v (level_ c + 2) (Some a') (Some b')) as (gp & -> & _ & Hall & _).
    exists gp. split; [done|]. intros _ f g Hf Hg Hsh. apply Hall; [done|]. simpl. by eapply covers_overlaps. }
  destruct Hg as (gp & -> & Hg). cbn [mbind option_bind].
  eexists _, s', l'. split; [reflexivity|]. split; [by split|]. split; [done|]. split; [done|].
  split; [auto|]. done.
Qed.

(** * Picking *)

(** What the version must offer: a level whose score asks for a compaction has
    files, and the file charged with seeks is one of its level. *)
Definition pick_ready (v : Version) : Prop :=
  (score_reached v = true -> level_files v (Z.to_nat (compaction_level_ v)) <> []) /\
  (forall f, file_to_compact_ v = Some f -> f ∈ level_files v (Z.to_nat (file_to_compact_level_ v))).

Lemma pick_file_spec files pointer : files <> [] ->
  exists f, pick_file user_comparator_ files pointer = Some f /\ f ∈ files.
Proof.
  intros Hne. unfold pick_file. destruct (List.find _ files) as [f|] eqn:E.
  - exists f. split; [done|]. apply list_elem_of_In. by apply find_some in E as [? _].
  - destruct files as [|f files]; [done|]. exists f. split; [done|by left].
Qed.

Lemma start_single v level f : levels_ok v -> (0 < level)%nat -> f ∈ level_files v level ->
  start_ok level (level_files v level) [f].
Proof.
  intros Hv Hl Hf. split; [done|]. split; [intros g; rewrite list_elem_of_singleton; by intros ->|].
  split; [lia|]. intros _ f1 f2 g. rewrite !list_elem_of_singleton. intros -> -> Hg B1 B2. exfalso.
  destruct (Hv level) as [Hwf _]. rewrite Forall_forall in Hwf. eapply (before_irrefl f g); auto.
Qed.

(** The compaction that starts from one file. *)
Lemma pick_start v level f : levels_ok v -> f ∈ level_files v level ->
  exists S, (if (level =? 0)%nat then
      '(s, l) ← GetRange user_comparator_ [f];
      GetOverlappingInputs user_comparator_ v 0 (Some s) (Some l)
    else Some [f]) = Some S /\ start_ok level (level_files v level) S /\ f ∈ S.
Proof.
  intros Hv Hf. destruct (Nat.eqb_spec level 0) as [->|Hne].
  - simpl. destruct (GetOverlappingInputs_spec user_comparator_ v 0 (Some (smallest f)) (Some (largest f)))
      as (S & E & Hsub & Hall & _). rewrite E. simpl in Hall. exists S.
    assert (HfS : f ∈ S).
    { apply Hall; [done|]. destruct (Hv 0%nat) as [Hwf _]. rewrite Forall_forall in Hwf.
      apply overlaps_user. split; by apply (file_wf_user user_comparator_), Hwf. }
    split; [done|]. split; [|done]. eapply overlapping_start; [done|exact E|].
    intros ->. by apply elem_of_nil in HfS.
  - exists [f]. split; [done|]. split; [apply start_single; [done|lia|done]|by left].
Qed.

(** The compaction that starts with a file. *)
Lemma pick_from max_file_size v ps level f : levels_ok v -> f ∈ level_files v level -> exists c s l,
  (let c := with_inputs (newCompaction max_file_size level) v [f] in
   c ← (if (level =? 0)%nat then
          '(s, l) ← GetRange user_comparator_ (inputs_ c).1;
          inputs0 ← GetOverlappingInputs user_comparator_ v 0 (Some s) (Some l);
          Some (with_inputs c v inputs0)
        else Some c);
   inr <$> SetupOtherInputs user_comparator_ max_file_size v ps c) =
    Some (inr (A := unit) (c, <[level_ c := l]> ps)) /\ compaction_safe v c /\ covers (inputs_ c).1 s l.
Proof.
  intros Hv Hf. destruct (pick_start v level f Hv Hf) as (S & E & Hst & HfS).
  set (c0 := with_inputs (newCompaction max_file_size level) v S).
  destruct (SetupOtherInputs_spec max_file_size v ps c0 Hv eq_refl Hst) as (c & s & l & Ec & Hsafe & El & Hcov & _).
  exists c, s, l. split; [|done]. change (level_ c0) with level in *. cbv zeta. rewrite El.
  destruct (level =? 0)%nat eqn:E0.
  - simpl in E |- *. rewrite E. simpl. change (with_inputs _ v S) with c0. by rewrite Ec.
  - injection E as <-. simpl. fold c0. by rewrite Ec.
Qed.

Lemma PickCompaction_spec (max_file_size : Z) (v : Version) (ps : list bytes) :
  levels_ok v -> pick_ready v ->
  (PickCompaction user_comparator_ max_file_size v ps = Some (inl tt) /\
   score_reached v = false /\ file_to_compact_ v = None) \/
  (exists c s l,
     PickCompaction user_comparator_ max_file_size v ps = Some (inr (c, <[level_ c := l]> ps)) /\
     compaction_safe v c /\ covers (inputs_ c).1 s l).
Proof.
  intros Hv [Hsize Hseek]. unfold PickCompaction. destruct (score_reached v) eqn:Es.
  - right. destruct (pick_file_spec (level_files v (Z.to_nat (compaction_level_ v)))
      (nth (Z.to_nat (compaction_level_ v)) ps []) (Hsize eq_refl)) as (f & -> & Hf). by apply pick_from.
  - destruct (file_to_compact_ v) as [f|] eqn:Ef; [right|by left]. apply pick_from; [done|by apply Hseek].
Qed.

(** C34: what [PickCompaction] picks.  It returns no compaction exactly when none is
    asked for.  Otherwise the inputs of the level are files of it, not none of them;
    a file of the level that stays behind and shares user keys with an input of the
    level holds only newer entries for them (in level 0 there is no such file); every
    file of the next level that shares user keys with an input of the level is an
    input too, and those that stay lie before all inputs or after all of them; the
    grandparents are known; and the pointer of the level moves to the largest key of
    the inputs.  Nothing is said of a file of the next level that stays and shares a
    user key only with an input of the next level: it may hold older entries of it
    ([deleted_key_returns] in CompactionInstall). *)
Theorem pick_compaction_safe (max_file_size : Z) (v : Version) (ps : list bytes) :
  levels_ok v -> pick_ready v ->
  (PickCompaction user_comparator_ max_file_size v ps = Some (inl tt) /\
   score_reached v = false /\ file_to_compact_ v = None) \/
  (exists c s l,
     PickCompaction user_comparator_ max_file_size v ps = Some (inr (c, <[level_ c := l]> ps)) /\
     compaction_safe v c /\ covers (inputs_ c).1 s l).
Proof. apply PickCompaction_spec. Qed.

Lemma limit_inputs_prefix limit inputs : forall total, inputs <> [] ->
  limit_inputs limit total inputs `prefix_of` inputs /\ limit_inputs limit total inputs <> [].
Proof.
  induction inputs as [|f inputs IH]; intros total Hne; [done|]. simpl.
  destruct (limit <=? _); [split; [apply prefix_cons, prefix_nil|done]|].
  split; [|done]. apply prefix_cons. destruct inputs as [|g inputs]; [done|]. by apply IH.
Qed.

(** A manual compaction of a range of a level: nothing to do exactly when no
    file of the level overlaps the range; otherwise a compaction whose inputs are
    chosen as [PickCompaction] chooses them, with at least one file of the range. *)
Theorem compact_range_safe (max_file_size : Z) (v : Version) (ps : list bytes) (level : nat)
    (begin_ end_ : option bytes) :
  levels_ok v ->
  let b := ExtractUserKey <$> begin_ in
  let e := ExtractUserKey <$> end_ in
  (CompactRange user_comparator_ max_file_size v ps level begin_ end_ = Some (inl tt) /\
   forall f, f ∈ level_files v level -> overlaps user_comparator_ b e f = false) \/
  (exists c s l,
     CompactRange user_comparator_ max_file_size v ps level begin_ end_ =
       Some (inr (c, <[level_ c := l]> ps)) /\
     level_ c = level /\ compaction_safe v c /\ covers (inputs_ c).1 s l).
Proof.
  intros Hv b e. unfold CompactRange.
  destruct (GetOverlappingInputs_spec user_comparator_ v level begin_ end_) as (inputs & E & _ & Hall & Hpos & _).
  fold b e in Hall, Hpos. rewrite E. cbn [mbind option_bind]. destruct inputs as [|x inputs'].
  - left. split; [done|]. intros f Hf. destruct (overlaps user_comparator_ b e f) eqn:Eo; [|done].
    specialize (Hall f Hf Eo). by apply elem_of_nil in Hall.
  - right. set (inputs := x :: inputs') in *. assert (Hne : inputs <> []) by done.
    set (S := if (0 <? level)%nat then _ else _).
    assert (Hst : start_ok level (level_files v level) S).
    { unfold S. destruct (Nat.ltb_spec 0 level) as [Hl|Hl].
      - destruct (limit_inputs_prefix (MaxFileSizeForLevel max_file_size (Z.of_nat level)) inputs 0 Hne) as [Hp Hn].
        eapply overlap_prefix_start; [done|apply Hv|done|]. rewrite <- Hpos by lia. done.
      - by eapply overlapping_start. }
    set (c0 := with_inputs (newCompaction max_file_size level) v S).
    destruct (SetupOtherInputs_spec max_file_size v ps c0 Hv eq_refl Hst) as (c & s & l & Ec & Hsafe & El & Hcov & _).
    exists c, s, l. rewrite Ec. split; [by rewrite El|]. done.
Qed.

(** * [IsBaseLevelForKey] *)

(** A file of the level may hold the user key. *)
Definition level_has (files : list FileMetaData) (user_key : bytes) : bool :=
  existsb (in_range user_comparator_ user_key) files.

(** The scan that the pointers save. *)
Definition deeper_has (v : Version) (level : nat) (user_key : bytes) : bool :=
  existsb (fun lvl => level_has (level_files v lvl) user_key)
    (seq (level + 2) (Z.to_nat kNumLevels - (level + 2))).

(** The files behind the pointer end before the key. *)
Definition behind (files : list FileMetaData) (user_key : bytes) (ptr : nat) : Prop :=
  forall i f, (i < ptr)%nat -> files !! i = Some f -> 0 < ucmp user_key (largest_user f).

Definition pointers_behind (v : Version) (user_key : bytes) (ptrs : list nat) : Prop :=
  length ptrs = Z.to_nat kNumLevels /\
  forall lvl ptr, ptrs !! lvl = Some ptr -> behind (level_files v lvl) user_key ptr.

Lemma pointers_behind_mono v k k' ptrs : ucmp k k' <= 0 ->
  pointers_behind v k ptrs -> pointers_behind v k' ptrs.
Proof.
  intros Hk [Hlen Hp]. split; [done|]. intros lvl ptr E i f Hi Hf. specialize (Hp lvl ptr E i f Hi Hf).
  apply cmp_gt. apply cmp_gt in Hp. by eapply cmp_lt_le_trans.
Qed.

Lemma base_scan_spec files user_key : sorted_level files -> forall rest ptr,
  rest = drop ptr files -> behind files user_key ptr ->
  let '(hit, ptr') := base_scan user_comparator_ user_key rest ptr in
  hit = level_has files user_key /\ behind files user_key ptr'.
Proof.
  intros Hl rest. induction rest as [|f rest IH]; intros ptr Er Hb; simpl.
  - split; [|done]. symmetry. apply not_true_iff_false. intros Hx.
    apply existsb_exists in Hx as (g & Hg & Hr). apply list_elem_of_In, list_elem_of_lookup in Hg as [i Hi].
    assert (length files <= ptr)%nat.
    { apply (f_equal length) in Er. rewrite length_drop in Er. simpl in Er. lia. }
    pose proof (lookup_lt_Some _ _ _ Hi). specialize (Hb i g ltac:(lia) Hi).
    unfold in_range in Hr. apply andb_true_iff in Hr as [_ Hr]. lia.
  - assert (Hf : files !! ptr = Some f).
    { pose proof (f_equal (fun l => l !! 0%nat) Er) as E. simpl in E. rewrite lookup_drop, Nat.add_0_r in E. done. }
    destruct (Z.leb_spec (ucmp user_key (largest_user f)) 0) as [Hle|Hgt].
    + split; [|done]. apply eq_true_iff_eq. rewrite Z.leb_le. unfold level_has. rewrite existsb_exists. split.
      * intros Hge. exists f. split; [by apply list_elem_of_In, (list_elem_of_lookup_2 _ _ _ Hf)|].
        unfold in_range. apply andb_true_iff. split; lia.
      * intros (g & Hg & Hr). apply list_elem_of_In, list_elem_of_lookup in Hg as [i Hi].
        unfold in_range in Hr. apply andb_true_iff in Hr as [Hr1 Hr2].
        destruct (Nat.lt_trichotomy i ptr) as [Hlt|[->|Hlt]].
        -- specialize (Hb i g Hlt Hi). lia.
        -- rewrite Hf in Hi. injection Hi as <-. lia.
        -- destruct Hl as [Hwf Hs]. pose proof (sorted_lookup _ _ _ _ _ _ Hs Hf Hi Hlt) as Hbf.
           apply before_user in Hbf. rewrite Forall_forall in Hwf.
           pose proof (file_wf_user user_comparator_ f (Hwf f (list_elem_of_lookup_2 _ _ _ Hf))) as Hw.
           apply cmp_flip_le. apply Z.leb_le, cmp_flip_le in Hr1.
           eapply cmp_le_trans; [exact Hw|]. by eapply cmp_le_trans.
    + apply IH.
      * rewrite (drop_S _ _ _ Hf) in Er. by injection Er as ->.
      * intros i g Hi Hg. destruct (decide (i = ptr)) as [->|]; [|apply (Hb i g); [lia|done]].
        rewrite Hf in Hg. by injection Hg as <-.
Qed.

Lemma base_levels_spec v user_key : levels_ok v -> forall levels ptrs,
  Forall (fun lvl => (0 < lvl < Z.to_nat kNumLevels)%nat) levels -> pointers_behind v user_key ptrs ->
  let '(b, ptrs') := base_levels user_comparator_ user_key v levels ptrs in
  b = negb (existsb (fun lvl => level_has (level_files v lvl) user_key) levels) /\
  pointers_behind v user_key ptrs'.
Proof.
  intros Hv levels. induction levels as [|lvl levels IH]; intros ptrs Hl Hp; [done|].
  apply Forall_cons in Hl as [Hlvl Hl]. cbn [base_levels existsb]. destruct Hp as [Hlen Hp].
  assert (Hlk : exists ptr, ptrs !! lvl = Some ptr) by (apply lookup_lt_is_Some; lia).
  destruct Hlk as [ptr Hptr]. rewrite (nth_lookup_Some _ _ _ _ Hptr).
  destruct (Hv lvl) as [Hwf Hs].
  pose proof (base_scan_spec (level_files v lvl) user_key (conj Hwf (Hs ltac:(lia)))
    (drop ptr (level_files v lvl)) ptr eq_refl (Hp lvl ptr Hptr)) as S.
  destruct (base_scan user_comparator_ user_key (drop ptr (level_files v lvl)) ptr) as [hit ptr'].
  destruct S as [-> Hb].
  assert (Hp' : pointers_behind v user_key (<[lvl := ptr']> ptrs)).
  { split; [by rewrite length_insert|]. intros l p E. apply list_lookup_insert_Some in E.
    destruct E as [(-> & <- & _)|[_ E]]; [done|by apply Hp]. }
  destruct (level_has (level_files v lvl) user_key); simpl; [done|]. by apply IH.
Qed.

(** The pointers answer as the scan does, and stay valid for later keys. *)
Lemma IsBaseLevelForKey_spec v c user_key : levels_ok v -> input_version_ c = Some v ->
  pointers_behind v user_key (level_ptrs_ c) ->
  exists ptrs, IsBaseLevelForKey user_comparator_ c user_key =
      Some (negb (deeper_has v (level_ c) user_key), with_level_ptrs c ptrs) /\
    pointers_behind v user_key ptrs.
Proof.
  intros Hv Ev Hp. unfold IsBaseLevelForKey. rewrite Ev. cbn [mbind option_bind].
  pose proof (base_levels_spec v user_key Hv (seq (level_ c + 2) (Z.to_nat kNumLevels - (level_ c + 2)))
    (level_ptrs_ c)) as S.
  destruct (base_levels _ _ _ _ _) as [b ptrs]. destruct S as [-> Hp']; [|done|].
  - apply Forall_forall. intros lvl Hl%elem_of_seq. lia.
  - by exists ptrs.
Qed.

(** The answers for a sequence of keys. *)
Fixpoint base_trace (c : Compaction) (keys : list bytes) : option (list bool) :=
  match keys with
  | [] => Some []
  | k :: keys' =>
      '(b, c) ← IsBaseLevelForKey user_comparator_ c k; bs ← base_trace c keys'; Some (b :: bs)
  end.

Lemma base_trace_ok v keys : levels_ok v -> forall c, input_version_ c = Some v ->
  StronglySorted (fun a b => ucmp a b <= 0) keys ->
  (forall k, k ∈ keys -> pointers_behind v k (level_ptrs_ c)) ->
  base_trace c keys = Some (map (fun k => negb (deeper_has v (level_ c) k)) keys).
Proof.
  intros Hv. induction keys as [|k keys IH]; intros c Ev Hs Hp; [done|]. cbn [base_trace map].
  inversion Hs as [|?? Hs' Hk]; subst.
  destruct (IsBaseLevelForKey_spec v c k Hv Ev (Hp k ltac:(by left))) as (ptrs & -> & Hp').
  cbn [mbind option_bind]. rewrite (IH (with_level_ptrs c ptrs)); [done|done|done|].
  intros k' Hk'. rewrite Forall_forall in Hk. by eapply pointers_behind_mono; [apply Hk|].
Qed.

Lemma fresh_pointers v k : pointers_behind v k (replicate (Z.to_nat kNumLevels) 0%nat).
Proof.
  split; [apply length_replicate|]. intros lvl ptr E. apply lookup_replicate in E as [-> _].
  intros i f Hi. lia.
Qed.

(** The moving pointers of [IsBaseLevelForKey] are exact.  For the keys of a
    compaction, which come in increasing order, every answer is that of a scan
    of all the files of the levels below the output level: [true] exactly when
    the range of none of them holds the user key. *)
Theorem base_level_exact (v : Version) (c : Compaction) (keys : list bytes) :
  levels_ok v -> input_version_ c = Some v ->
  level_ptrs_ c = replicate (Z.to_nat kNumLevels) 0%nat ->
  StronglySorted (fun a b => ucmp a b <= 0) keys ->
  base_trace c keys = Some (map (fun k => negb (deeper_has v (level_ c) k)) keys).
Proof.
  intros Hv Ev Ep Hs. apply base_trace_ok; [done..|]. intros k _. rewrite Ep. apply fresh_pointers.
Qed.
End Proofs.

(** * Witnesses *)

Lemma example_levels_ok : levels_ok BytewiseComparator example_version.
Proof.
  intros level. destruct level as [|[|[|[|level]]]]; unfold level_files; simpl.
  - split; [|lia]. repeat constructor; vm_compute; discriminate.
  - split; [|intros _]; repeat constructor; vm_compute; (reflexivity || discriminate).
  - split; [|intros _]; repeat constructor; vm_compute; (reflexivity || discriminate).
  - split; [|intros _]; constructor.
  - split; [|intros _]; destruct level; constructor.
Qed.

(** The version with a size-triggered compaction of level 0. *)
Definition example_full : Version := mkVersion (files_ example_version) None (-1) (6, 4) 0.

Lemma pick_compaction_safe_witness :
  (PickCompaction BytewiseComparator 1000000 example_full (replicate 7 []) = Some (inl tt) /\
   score_reached example_full = false /\ file_to_compact_ example_full = None) \/
  (exists c s l,
     PickCompaction BytewiseComparator 1000000 example_full (replicate 7 []) =
       Some (inr (c, <[level_ c := l]> (replicate 7 []))) /\
     compaction_safe BytewiseComparator example_full c /\ covers BytewiseComparator (inputs_ c).1 s l).
Proof.
  apply (pick_compaction_safe BytewiseComparator 1000000 example_full (replicate 7 [])).
  - exact example_levels_ok.
  - split; [intros _; vm_compute; discriminate|intros f; vm_compute; discriminate].
Defined.

Lemma compact_range_safe_witness :
  exists c s l,
    CompactRange BytewiseComparator 1000000 example_version (replicate 7 []) 1 None None =
      Some (inr (c, <[level_ c := l]> (replicate 7 []))) /\
    level_ c = 1%nat /\ compaction_safe BytewiseComparator example_version c /\
    covers BytewiseComparator (inputs_ c).1 s l.
Proof.
  destruct (compact_range_safe BytewiseComparator 1000000 example_version (replicate 7 []) 1 None None
    example_levels_ok) as [[E _]|Hc]; [|exact Hc].
  exfalso. revert E. vm_compute. discriminate.
Defined.

Lemma base_level_exact_witness :
  let c := with_inputs (newCompaction 1000000 0) example_version [] in
  base_trace BytewiseComparator c [str "a"; str "q"; str "z"] = Some [true; false; true].
Proof.
  cbv zeta.
  rewrite (base_level_exact BytewiseComparator example_version
    (with_inputs (newCompaction 1000000 0) example_version []) [str "a"; str "q"; str "z"]);
    [vm_compute; reflexivity|exact example_levels_ok|reflexivity|reflexivity|].
  repeat constructor; vm_compute; discriminate.
Defined.
