(* ===== verification/VLog.v ===== *)
(** mod/Vlog.h, mod/Vlog.cpp: the value log.  In modes 7 and above the tree
    stores, for each key, only the address and size of its value; the values
    are appended to one file, through a buffer that is written out when it is
    large enough.  The pointers are made and followed in db/db_impl.cc
    ([DBImpl::Put], [DBImpl::Get]). *)

From S2P Require Import Prelude Status Coding Env.
From Stdlib Require Import Strings.Byte.
From stdpp Require Import base list strings.

#[local] Open Scope Z_scope.

Definition buffer_size_max : Z := 300 * 1024.

Section VLog.
(** The environment: one file, open for appending and for random reads. *)
Context {F : Type} `{WritableFile F} `{RandomAccessFile F}.

Record VLog := mkVLog { vfile : F; buffer : bytes; vlog_size : Z }.

(** The constructor opens the file and asks [stat] for its size. *)
Definition newVLog (f : F) (st_size : Z) : VLog := mkVLog f [] st_size.

(** [Flush]; the statuses of [Append] and [Flush] are not looked at. *)
Definition Flush (v : VLog) : VLog :=
  if blen (buffer v) =? 0 then v
  else
    let size := u64 (vlog_size v + blen (buffer v)) in
    let '(_, f) := wAppend (vfile v) (buffer v) in
    let '(_, f) := wFlush f in
    mkVLog f [] size.

(** [AddRecord]: the address of the value, and the log. *)
Definition AddRecord (v : VLog) (key value : bytes) : Z * VLog :=
  let buf := PutLengthPrefixedSlice (buffer v) key in
  let buf := PutVarint32 buf (u32 (blen value)) in
  let result := u64 (vlog_size v + blen buf) in
  let v := mkVLog (vfile v) (buf ++ value) (vlog_size v) in
  (result, if buffer_size_max <=? blen (buffer v) then Flush v else v).

(** [ReadRecord]: from the buffer or from the file; the status of the read is
    not looked at. *)
Definition ReadRecord (v : VLog) (address size : Z) : bytes :=
  if vlog_size v <=? address then btake size (bdrop (address - vlog_size v) (buffer v))
  else (rRead (vfile v) address size).2.

Definition Sync (v : VLog) : VLog :=
  let v := Flush v in
  let '(_, f) := wSync (vfile v) in
  mkVLog f (buffer v) (vlog_size v).

(** [~VLog] *)
Definition close (v : VLog) : VLog := Flush v.

(** * The pointers of [DBImpl::Put] and [DBImpl::Get] *)

(** What [Put] stores in the tree for a value, in modes 7 and above. *)
Definition put_value (v : VLog) (key val : bytes) : bytes * VLog :=
  let '(value_address, v) := AddRecord v key val in
  (EncodeFixed64 value_address ++ EncodeFixed32 (blen val), v).

(** How [Get] turns what the tree returned into the value. *)
Definition get_value (v : VLog) (stored : bytes) : bytes :=
  let value_address := DecodeFixed64 stored in
  let value_size := DecodeFixed32 (bdrop 8 stored) in
  ReadRecord v value_address value_size.

(** * Correctness *)

(** The reader is on the same file as the writer; it sees what was appended only
    once it was flushed. *)
Context `{!WritableFileOk F} `{!RandomAccessFileOk F} `{!SharedFileOk F}.

(** Everything appended so far. *)
Definition log_bytes (v : VLog) : bytes := wcontents (vfile v) ++ buffer v.

(** A record is at an address of the log, and not across the boundary between
    the file and the buffer. *)
Definition holds (v : VLog) (address : Z) (value : bytes) : Prop :=
  0 <= address /\ btake (blen value) (bdrop address (log_bytes v)) = value /\
  address + blen value <= blen (log_bytes v) /\
  (address + blen value <= vlog_size v \/ vlog_size v <= address).

(** Between operations the reader sees all of the file: nothing waits in the
    buffer of the [WritableFile]. *)
Definition vlog_inv (v : VLog) : Prop :=
  vlog_size v = blen (wcontents (vfile v)) /\ blen (log_bytes v) < 2 ^ 64 /\
  rcontents (vfile v) = wcontents (vfile v).

(** What [Flush] and [Sync] do to both views. *)
Lemma wFlush_both (f : F) : exists f', wFlush f = (OK, f') /\
  wcontents f' = wcontents f /\ rcontents f' = wcontents f.
Proof.
  destruct (wFlush_ok f) as (f' & E & C). pose proof (Flush_visible f) as V.
  rewrite E in V. simpl in V. exists f'. rewrite V. done.
Qed.

Lemma wSync_both (f : F) : exists f', wSync f = (OK, f') /\
  wcontents f' = wcontents f /\ rcontents f' = wcontents f.
Proof.
  destruct (wSync_ok f) as (f' & E & C). pose proof (Sync_visible f) as V.
  rewrite E in V. simpl in V. exists f'. rewrite V. done.
Qed.

Lemma ReadRecord_holds v address value :
  vlog_inv v -> holds v address value -> ReadRecord v address (blen value) = value.
Proof.
  intros (Hs & _ & Hr) (Ha & Hv & Hb & Hc). unfold ReadRecord.
  pose proof (blen_nonneg value).
  destruct (Z.leb_spec (vlog_size v) address) as [Hle|Hgt].
  - rewrite <- Hv at 2. unfold log_bytes. by rewrite bdrop_app_ge, Hs by lia.
  - destruct Hc as [Hc|Hc]; [|lia]. rewrite rRead_ok by (rewrite ?Hr; lia). simpl.
    rewrite Hr. rewrite <- Hv at 2. unfold log_bytes.
    rewrite bdrop_app_le by lia. rewrite btake_app_le; [done|].
    rewrite blen_bdrop by lia. lia.
Qed.

Lemma Flush_spec v : vlog_inv v ->
  vlog_inv (Flush v) /\ log_bytes (Flush v) = log_bytes v /\
  (forall address value, holds v address value -> holds (Flush v) address value).
Proof.
  intros (Hs & Hb & Hr). unfold Flush. destruct (Z.eqb_spec (blen (buffer v)) 0); [done|].
  destruct (wAppend_ok (vfile v) (buffer v)) as (f1 & -> & Hf1).
  destruct (wFlush_both f1) as (f2 & -> & Hf2 & Hr2).
  assert (Hl : log_bytes (mkVLog f2 [] (u64 (vlog_size v + blen (buffer v)))) = log_bytes v).
  { unfold log_bytes. simpl. by rewrite app_nil_r, Hf2, Hf1. }
  assert (Hsz : u64 (vlog_size v + blen (buffer v)) = blen (log_bytes v)).
  { rewrite Hs. unfold log_bytes in *. rewrite blen_app in *. apply u64_small.
    pose proof (blen_nonneg (wcontents (vfile v))). pose proof (blen_nonneg (buffer v)). lia. }
  split; [|split; [done|]].
  - split; [simpl; by rewrite Hsz, Hf2, Hf1|]. split; [by rewrite Hl|]. simpl. by rewrite Hr2, Hf2.
  - intros address value (Ha & Hv & Hbd & _). unfold holds. rewrite Hl. simpl. rewrite Hsz.
    split; [done|]. split; [done|]. split; [done|]. left. done.
Qed.

(** The bytes a record takes. *)
Definition record_bytes (key value : bytes) : bytes :=
  PutLengthPrefixedSlice [] key ++ EncodeVarint32 (u32 (blen value)) ++ value.

Lemma AddRecord_spec v key value :
  vlog_inv v -> blen (log_bytes v ++ record_bytes key value) < 2 ^ 64 ->
  let '(address, v') := AddRecord v key value in
  vlog_inv v' /\ log_bytes v' = log_bytes v ++ record_bytes key value /\
  holds v' address value /\
  (forall a w, holds v a w -> holds v' a w).
Proof.
  intros (Hs & Hb0 & Hr) Hb. unfold AddRecord.
  set (pre := PutLengthPrefixedSlice [] key ++ EncodeVarint32 (u32 (blen value))).
  assert (Hpre : PutVarint32 (PutLengthPrefixedSlice (buffer v) key) (u32 (blen value)) =
            buffer v ++ pre).
  { unfold PutVarint32, pre. rewrite PutLengthPrefixedSlice_app. by rewrite <- app_assoc. }
  rewrite Hpre. set (v1 := mkVLog (vfile v) ((buffer v ++ pre) ++ value) (vlog_size v)).
  assert (Hl : log_bytes v1 = log_bytes v ++ record_bytes key value).
  { unfold log_bytes, record_bytes, v1, pre. simpl. by rewrite <- !app_assoc. }
  assert (Hi : vlog_inv v1) by (split; [exact Hs|split; [by rewrite Hl|exact Hr]]).
  pose proof (blen_nonneg (wcontents (vfile v))). pose proof (blen_nonneg (buffer v ++ pre)).
  assert (Hadr : u64 (vlog_size v + blen (buffer v ++ pre)) = vlog_size v + blen (buffer v ++ pre)).
  { apply u64_small. rewrite <- Hl in Hb. unfold log_bytes, v1 in Hb. simpl in Hb.
    rewrite !blen_app in Hb. pose proof (blen_nonneg value). rewrite blen_app in *. lia. }
  rewrite Hadr.
  assert (Hh : holds v1 (vlog_size v + blen (buffer v ++ pre)) value).
  { unfold holds, log_bytes, v1. simpl. rewrite Hs. split; [lia|].
    rewrite app_assoc, bdrop_app_n by (rewrite blen_app; lia).
    split; [by apply btake_all|]. rewrite !blen_app in *. split; lia. }
  assert (Hk : forall a w, holds v a w -> holds v1 a w).
  { intros a w (Ha & Hv & Hbd & Hc). unfold holds. rewrite Hl. split; [done|].
    rewrite blen_app. pose proof (blen_nonneg (record_bytes key value)).
    pose proof (blen_nonneg w). split; [|split; [lia|exact Hc]].
    rewrite bdrop_app_le by lia. rewrite btake_app_le; [done|]. rewrite blen_bdrop; lia. }
  destruct (buffer_size_max <=? blen (buffer v1)); [|done].
  destruct (Flush_spec v1 Hi) as (Hfi & Hfl & Hfh).
  split; [done|]. split; [by rewrite Hfl|]. split; [by apply Hfh|]. intros. by apply Hfh, Hk.
Qed.

Lemma Sync_spec v : vlog_inv v ->
  vlog_inv (Sync v) /\ log_bytes (Sync v) = log_bytes v /\
  (forall address value, holds v address value -> holds (Sync v) address value).
Proof.
  intros Hv. destruct (Flush_spec v Hv) as ((Hs & Hb & _) & Hl & Hh). unfold Sync.
  destruct (wSync_both (vfile (Flush v))) as (f & -> & Hf & Hr).
  assert (El : log_bytes (mkVLog f (buffer (Flush v)) (vlog_size (Flush v))) = log_bytes v).
  { rewrite <- Hl. unfold log_bytes. simpl. by rewrite Hf. }
  split; [|split; [done|]].
  - split; [simpl; by rewrite Hf|]. split; [by rewrite El, <- Hl|]. simpl. by rewrite Hr, Hf.
  - intros a w Ha. apply Hh in Ha. unfold holds in *. rewrite El, <- Hl. exact Ha.
Qed.

(** A use of the log: values put, syncs in between. *)
Inductive VlogOp := VPut (key value : bytes) | VSync.

Fixpoint run (ops : list VlogOp) (v : VLog) : list (bytes * bytes) * VLog :=
  match ops with
  | [] => ([], v)
  | VPut key value :: ops' =>
      let '(stored, v) := put_value v key value in
      let '(rest, v) := run ops' v in ((stored, value) :: rest, v)
  | VSync :: ops' => run ops' (Sync v)
  end.

Definition op_length (op : VlogOp) : Z :=
  match op with VPut key value => blen (record_bytes key value) | VSync => 0 end.
Definition ops_length (ops : list VlogOp) : Z := fold_right (fun op n => op_length op + n) 0 ops.
Definition op_fits (op : VlogOp) : Prop :=
  match op with VPut key value => blen value < 2 ^ 32 | VSync => True end.

Lemma ops_length_nonneg ops : 0 <= ops_length ops.
Proof.
  induction ops as [|op ops IH]; simpl; [lia|].
  destruct op; simpl; [pose proof (blen_nonneg (record_bytes key value)); lia|lia].
Qed.

(** A stored pointer leads to a value. *)
Definition points_to (v : VLog) (stored value : bytes) : Prop :=
  exists address, stored = EncodeFixed64 address ++ EncodeFixed32 (blen value) /\
    address < 2 ^ 64 /\ blen value < 2 ^ 32 /\ holds v address value.

Lemma get_value_points v stored value :
  vlog_inv v -> points_to v stored value -> get_value v stored = value.
Proof.
  intros Hv (a & -> & Ha & Hl & Hh). unfold get_value.
  rewrite DecodeFixed64_app, bdrop_app_n by apply EncodeFixed64_length.
  rewrite <- (app_nil_r (EncodeFixed32 _)), DecodeFixed32_app.
  pose proof (blen_nonneg value). destruct Hh as (Ha0 & Hh).
  rewrite !Z.mod_small by lia. by apply ReadRecord_holds.
Qed.

Lemma run_spec ops : forall v, vlog_inv v -> Forall op_fits ops ->
  blen (log_bytes v) + ops_length ops < 2 ^ 64 ->
  let '(stored, v') := run ops v in
  vlog_inv v' /\ Forall (fun sv => points_to v' sv.1 sv.2) stored /\
  (forall a w, holds v a w -> holds v' a w).
Proof.
  induction ops as [|op ops IH]; intros v Hv Hf Hb; cbn [run].
  { split; [done|]. split; [constructor|done]. }
  apply Forall_cons_1 in Hf as [Hop Hf]. pose proof (ops_length_nonneg ops). simpl in Hb.
  destruct op as [key value|]; simpl in Hop, Hb.
  - unfold put_value.
    assert (Hb1 : blen (log_bytes v ++ record_bytes key value) < 2 ^ 64) by (rewrite blen_app; lia).
    pose proof (AddRecord_spec v key value Hv Hb1) as Ha.
    destruct (AddRecord v key value) as [address v1]. destruct Ha as (Hv1 & Hl1 & Hh1 & Hk1).
    specialize (IH v1 Hv1 Hf). rewrite Hl1, blen_app in IH. specialize (IH ltac:(lia)).
    destruct (run ops v1) as [stored v']. destruct IH as (Hv' & Hst & Hk').
    cbv beta iota. split; [done|]. split; [|by auto]. constructor; [|done]. simpl. exists address.
    split; [done|]. pose proof Hh1 as (Ha0 & _ & Hbd & _). rewrite Hl1 in Hbd.
    pose proof (blen_nonneg value). split; [lia|]. split; [done|]. by apply Hk'.
  - destruct (Sync_spec v Hv) as (Hv1 & Hl1 & Hk1). specialize (IH (Sync v) Hv1 Hf).
    rewrite Hl1 in IH. specialize (IH ltac:(lia)). destruct (run ops (Sync v)) as [stored v'].
    destruct IH as (Hv' & Hst & Hk'). split; [done|]. split; [done|]. auto.
Qed.

(** C40: values survive the value log.  Opened on a file of any contents, after
    any sequence of puts and syncs (the buffer is flushed whenever it is large
    enough), every pointer that [Put] stored in the tree leads [Get] back to
    the value it was made for, whether the value is still in the buffer or
    already in the file.  Writes and reads of the file succeed; what is appended
    to it is readable only after [WritableFile::Flush] or [Sync].  A value is
    shorter than 2^32 bytes, the log than 2^64. *)
Theorem value_log_roundtrip (f : F) (ops : list VlogOp) :
  rcontents f = wcontents f -> Forall op_fits ops -> blen (wcontents f) + ops_length ops < 2 ^ 64 ->
  let '(stored, v) := run ops (newVLog f (blen (wcontents f))) in
  Forall (fun sv => get_value v sv.1 = sv.2) stored /\
  Forall (fun sv => get_value (close v) sv.1 = sv.2) stored.
Proof.
  intros Hr0 Hf Hb. pose proof (ops_length_nonneg ops).
  assert (Hl : log_bytes (newVLog f (blen (wcontents f))) = wcontents f) by apply app_nil_r.
  pose proof (run_spec ops (newVLog f (blen (wcontents f)))) as Hr. rewrite Hl in Hr.
  specialize (Hr ltac:(split; [done|split; [rewrite Hl; lia|done]]) Hf Hb).
  destruct (run ops _) as [stored v]. destruct Hr as (Hv & Hst & _).
  destruct (Flush_spec v Hv) as (Hv' & _ & Hk). split.
  - eapply Forall_impl; [exact Hst|]. intros sv Hp. by apply get_value_points.
  - eapply Forall_impl; [exact Hst|]. intros sv (a & E & Ha & Hs & Hh).
    apply get_value_points; [done|]. exists a. repeat (split; [done|]). by apply Hk.
Qed.
End VLog.

(** On a file with a buffer of its own, with a value long enough that [AddRecord]
    flushes; it is read from the file, the last one from the buffer. *)
Definition long_value : bytes := repeat Byte.x61 (Z.to_nat buffer_size_max).

Definition vlog_example_file : buffered_file := mkBufferedFile (str "xyz") [].
Definition vlog_example_ops : list VlogOp :=
  [VPut (str "k") (str "old"); VSync; VPut (str "l") long_value; VPut (str "k") (str "new")].

Lemma value_log_roundtrip_witness :
  let '(stored, v) := run vlog_example_ops (newVLog vlog_example_file (blen (wcontents vlog_example_file))) in
  Forall (fun sv => get_value v sv.1 = sv.2) stored /\
  Forall (fun sv => get_value (close v) sv.1 = sv.2) stored.
Proof.
  apply (value_log_roundtrip vlog_example_file vlog_example_ops).
  - reflexivity.
  - repeat (apply Forall_cons; split; [vm_compute; (reflexivity || exact I)|]). apply Forall_nil_2.
  - vm_compute. reflexivity.
Defined.
