(* ===== verification/Filename.v ===== *)
(** db/filename.h, db/filename.cc and the file-writing helpers of util/env.cc:
    the names of the files of a database, and the switch to a new MANIFEST. *)

From S2P Require Import Prelude Status Comparator Logging.
From Stdlib Require Import Strings.Byte.
From stdpp Require Import base list strings.

#[local] Open Scope Z_scope.

Inductive FileType :=
  | kLogFile | kDBLockFile | kTableFile | kDescriptorFile | kCurrentFile | kTempFile | kInfoLogFile.

#[export] Instance FileType_eq_dec : EqDecision FileType.
Proof. solve_decision. Defined.

(** * Names *)

(** ["%06llu"] *)
Definition padded6 (number : Z) : bytes :=
  replicate (6 - length (decimal number)) "0"%byte ++ decimal number.

Definition MakeFileName (dbname : bytes) (number : Z) (suffix : bytes) : bytes :=
  dbname ++ str "/" ++ padded6 number ++ str "." ++ suffix.

Definition LogFileName (dbname : bytes) (number : Z) : bytes := MakeFileName dbname number (str "log").
Definition TableFileName (dbname : bytes) (number : Z) : bytes :=
  MakeFileName dbname number (str "ldb").
Definition SSTTableFileName (dbname : bytes) (number : Z) : bytes :=
  MakeFileName dbname number (str "sst").
Definition DescriptorFileName (dbname : bytes) (number : Z) : bytes :=
  dbname ++ str "/MANIFEST-" ++ padded6 number.
Definition CurrentFileName (dbname : bytes) : bytes := dbname ++ str "/CURRENT".
Definition LockFileName (dbname : bytes) : bytes := dbname ++ str "/LOCK".
Definition TempFileName (dbname : bytes) (number : Z) : bytes :=
  MakeFileName dbname number (str "dbtmp").
Definition InfoLogFileName (dbname : bytes) : bytes := dbname ++ str "/LOG".
Definition OldInfoLogFileName (dbname : bytes) : bytes := dbname ++ str "/LOG.old".

(** [Some (number, type)] when the function returns true. *)
Definition ParseFileName (filename : bytes) : option (Z * FileType) :=
  let rest := filename in
  if slice_eqb rest (str "CURRENT") then Some (0, kCurrentFile)
  else if slice_eqb rest (str "LOCK") then Some (0, kDBLockFile)
  else if slice_eqb rest (str "LOG") || slice_eqb rest (str "LOG.old") then Some (0, kInfoLogFile)
  else if starts_with rest (str "MANIFEST-") then
    match ConsumeDecimalNumber (bdrop 9 rest) with
    | None => None
    | Some (num, rest) => if negb (blen rest =? 0) then None else Some (num, kDescriptorFile)
    end
  else
    match ConsumeDecimalNumber rest with
    | None => None
    | Some (num, suffix) =>
        if slice_eqb suffix (str ".log") then Some (num, kLogFile)
        else if slice_eqb suffix (str ".sst") || slice_eqb suffix (str ".ldb")
        then Some (num, kTableFile)
        else if slice_eqb suffix (str ".dbtmp") then Some (num, kTempFile)
        else None
    end.

(** * Switching [CURRENT] *)

(** The services of [Env] the switch uses; a writable file is named by the
    path it was created with. *)
Class FileSystem (E : Type) := {
  fs_create : E -> bytes -> Status * E;             (* NewWritableFile *)
  fs_append : E -> bytes -> bytes -> Status * E;    (* Append *)
  fs_sync : E -> bytes -> Status * E;               (* Sync *)
  fs_close : E -> bytes -> Status * E;              (* Close *)
  fs_rename : E -> bytes -> bytes -> Status * E;    (* RenameFile *)
  fs_delete : E -> bytes -> Status * E;             (* DeleteFile *)
}.

Section SetCurrent.
Context {E : Type} `{FileSystem E}.

Definition DoWriteStringToFile (env : E) (data fname : bytes) (should_sync : bool) : Status * E :=
  let '(s, env) := fs_create env fname in
  if negb (ok s) then (s, env)
  else
    let '(s, env) := fs_append env fname data in
    let '(s, env) := if ok s && should_sync then fs_sync env fname else (s, env) in
    let '(s, env) := if ok s then fs_close env fname else (s, env) in
    (* delete file: the destructor closes it *)
    if negb (ok s) then let '(_, env) := fs_delete env fname in (s, env) else (s, env).

Definition WriteStringToFile (env : E) (data fname : bytes) : Status * E :=
  DoWriteStringToFile env data fname false.
Definition WriteStringToFileSync (env : E) (data fname : bytes) : Status * E :=
  DoWriteStringToFile env data fname true.

Definition SetCurrentFile (env : E) (dbname : bytes) (descriptor_number : Z) : Status * E :=
  let manifest := DescriptorFileName dbname descriptor_number in
  let contents := bdrop (blen dbname + 1) manifest in
  let tmp := TempFileName dbname descriptor_number in
  let '(s, env) := WriteStringToFileSync env (contents ++ [x0a]) tmp in
  let '(s, env) := if ok s then fs_rename env tmp (CurrentFileName dbname) else (s, env) in
  if negb (ok s) then let '(_, env) := fs_delete env tmp in (s, env) else (s, env).
End SetCurrent.

(** * Names are read back *)

Lemma padded6_consume n rest : 0 <= n < 2 ^ 64 -> digits_of rest = [] ->
  ConsumeDecimalNumber (padded6 n ++ rest) = Some (n, rest).
Proof.
  intros. unfold padded6. rewrite <- app_assoc. by apply ConsumeDecimalNumber_print.
Qed.

(** A padded number starts with a digit, hence with none of the fixed names. *)
Lemma padded6_digit n : 0 <= n < 2 ^ 64 -> exists d l, padded6 n = d :: l /\ is_digit d = true.
Proof.
  intros Hn. destruct (decimal_spec n Hn) as (Hd & _ & Hl).
  assert (Ha : Forall (fun d => is_digit d = true) (padded6 n)).
  { apply Forall_app. split; [by apply Forall_replicate|done]. }
  destruct (padded6 n) as [|d l] eqn:E.
  - apply (f_equal blen) in E. unfold padded6 in E. rewrite blen_app, (@blen_nil byte) in E.
    pose proof (blen_nonneg (replicate (6 - length (decimal n)) "0"%byte)). lia.
  - exists d, l. split; [done|]. by apply Forall_inv in Ha.
Qed.

Lemma slice_eqb_neq a b : a <> b -> slice_eqb a b = false.
Proof. intros Hne. apply not_true_iff_false. by rewrite slice_eqb_spec. Qed.

Lemma parse_numbered s d l : s = d :: l -> is_digit d = true ->
  ParseFileName s =
    match ConsumeDecimalNumber s with
    | None => None
    | Some (num, suffix) =>
        if slice_eqb suffix (str ".log") then Some (num, kLogFile)
        else if slice_eqb suffix (str ".sst") || slice_eqb suffix (str ".ldb")
        then Some (num, kTableFile)
        else if slice_eqb suffix (str ".dbtmp") then Some (num, kTempFile)
        else None
    end.
Proof.
  intros -> Hd. unfold ParseFileName.
  rewrite !slice_eqb_neq by (intros [= -> _]; discriminate). simpl.
  destruct (starts_with (d :: l) (str "MANIFEST-")) eqn:E; [|done].
  apply starts_with_spec in E as [k Ek]. injection Ek as -> _. discriminate.
Qed.

(** The part of a path below the database directory. *)
Definition base_name (dbname path : bytes) : bytes := bdrop (blen dbname + 1) path.

Lemma base_name_app dbname c rest : base_name dbname (dbname ++ c :: rest) = rest.
Proof.
  unfold base_name. rewrite bdrop_app_ge by lia. replace (blen dbname + 1 - blen dbname) with 1 by lia.
  done.
Qed.

Lemma parse_made dbname n suffix : 0 <= n < 2 ^ 64 ->
  ParseFileName (base_name dbname (MakeFileName dbname n suffix)) =
    if slice_eqb (str "." ++ suffix) (str ".log") then Some (n, kLogFile)
    else if slice_eqb (str "." ++ suffix) (str ".sst") || slice_eqb (str "." ++ suffix) (str ".ldb")
    then Some (n, kTableFile)
    else if slice_eqb (str "." ++ suffix) (str ".dbtmp") then Some (n, kTempFile)
    else None.
Proof.
  intros Hn. unfold MakeFileName. change (str "/") with ["/"%byte].
  cbn [app]. rewrite base_name_app.
  destruct (padded6_digit n Hn) as (d & l & E & Hd).
  rewrite (parse_numbered _ d (l ++ str "." ++ suffix)) by (done || by rewrite E).
  by rewrite padded6_consume.
Qed.

Lemma parse_descriptor dbname n : 0 <= n < 2 ^ 64 ->
  ParseFileName (base_name dbname (DescriptorFileName dbname n)) = Some (n, kDescriptorFile).
Proof.
  intros Hn. unfold DescriptorFileName.
  change (str "/MANIFEST-" ++ padded6 n) with ("/"%byte :: str "MANIFEST-" ++ padded6 n).
  rewrite base_name_app. unfold ParseFileName.
  rewrite !slice_eqb_neq by discriminate. cbn [orb].
  replace (starts_with (str "MANIFEST-" ++ padded6 n) (str "MANIFEST-")) with true
    by (symmetry; apply starts_with_spec; by exists (padded6 n)).
  rewrite bdrop_app_n by done.
  rewrite <- (app_nil_r (padded6 n)), padded6_consume by done. done.
Qed.

(** Every name the database gives a file is read back as what it names:
    the number (any 64-bit number, padded to at least six digits) and the type
    of the file, for numbered and for fixed names. *)
Theorem filename_roundtrip (dbname : bytes) (n : Z) :
  0 <= n < 2 ^ 64 ->
  let parse path := ParseFileName (base_name dbname path) in
  parse (LogFileName dbname n) = Some (n, kLogFile) /\
  parse (TableFileName dbname n) = Some (n, kTableFile) /\
  parse (SSTTableFileName dbname n) = Some (n, kTableFile) /\
  parse (TempFileName dbname n) = Some (n, kTempFile) /\
  parse (DescriptorFileName dbname n) = Some (n, kDescriptorFile) /\
  parse (CurrentFileName dbname) = Some (0, kCurrentFile) /\
  parse (LockFileName dbname) = Some (0, kDBLockFile) /\
  parse (InfoLogFileName dbname) = Some (0, kInfoLogFile) /\
  parse (OldInfoLogFileName dbname) = Some (0, kInfoLogFile).
Proof.
  intros Hn parse. unfold parse, LogFileName, TableFileName, SSTTableFileName, TempFileName.
  rewrite !parse_made, parse_descriptor by done.
  unfold CurrentFileName, LockFileName, InfoLogFileName, OldInfoLogFileName.
  change (str "/CURRENT") with ("/"%byte :: str "CURRENT").
  change (str "/LOCK") with ("/"%byte :: str "LOCK").
  change (str "/LOG") with ("/"%byte :: str "LOG").
  change (str "/LOG.old") with ("/"%byte :: str "LOG.old").
  rewrite !base_name_app. repeat (split; [vm_compute; reflexivity|]). vm_compute. reflexivity.
Qed.

Lemma filename_roundtrip_witness :
  ParseFileName (base_name (str "/tmp/db") (LogFileName (str "/tmp/db") 12345678)) =
  Some (12345678, kLogFile).
Proof. apply (filename_roundtrip (str "/tmp/db") 12345678). lia. Defined.

(** * The switch is atomic *)

(** What the file system promises: an operation touches only the files it
    names, and has its effect when it reports success; a failed rename changes
    nothing. *)
Class FileSystemOk (E : Type) `{FileSystem E} := {
  fs_files : E -> bytes -> option bytes;
  fs_create_ok env f : let '(s, env') := fs_create env f in
    (forall g, g <> f -> fs_files env' g = fs_files env g) /\ (s = OK -> fs_files env' f = Some []);
  fs_append_ok env f d : let '(s, env') := fs_append env f d in
    (forall g, g <> f -> fs_files env' g = fs_files env g) /\
    (s = OK -> fs_files env' f = (fun c => c ++ d) <$> fs_files env f);
  fs_sync_ok env f : let '(s, env') := fs_sync env f in
    (forall g, g <> f -> fs_files env' g = fs_files env g) /\
    (s = OK -> fs_files env' f = fs_files env f);
  fs_close_ok env f : let '(s, env') := fs_close env f in
    (forall g, g <> f -> fs_files env' g = fs_files env g) /\
    (s = OK -> fs_files env' f = fs_files env f);
  fs_rename_ok env f g : f <> g -> let '(s, env') := fs_rename env f g in
    (s = OK -> fs_files env' g = fs_files env f /\ fs_files env' f = None /\
       forall h, h <> f -> h <> g -> fs_files env' h = fs_files env h) /\
    (s <> OK -> forall h, fs_files env' h = fs_files env h);
  fs_delete_ok env f : let '(s, env') := fs_delete env f in
    (forall g, g <> f -> fs_files env' g = fs_files env g) /\ (s = OK -> fs_files env' f = None);
}.

Section Atomic.
Context {E : Type} `{FileSystemOk E}.

Lemma DoWrite_spec env data f sync :
  let '(s, env') := DoWriteStringToFile env data f sync in
  (forall g, g <> f -> fs_files env' g = fs_files env g) /\ (s = OK -> fs_files env' f = Some data).
Proof.
  unfold DoWriteStringToFile.
  pose proof (fs_create_ok env f) as C. destruct (fs_create env f) as [s1 e1].
  destruct C as [C1 C2]. destruct s1; simpl; [|done]. specialize (C2 eq_refl).
  pose proof (fs_append_ok e1 f data) as A. destruct (fs_append e1 f data) as [s2 e2].
  destruct A as [A1 A2].
  assert (K2 : forall g, g <> f -> fs_files e2 g = fs_files env g)
    by (intros; by rewrite A1, C1).
  set (r3 := if ok s2 && sync then fs_sync e2 f else (s2, e2)).
  assert (R3 : (forall g, g <> f -> fs_files r3.2 g = fs_files env g) /\
               (r3.1 = OK -> fs_files r3.2 f = Some data)).
  { unfold r3. destruct (ok s2 && sync) eqn:Eo.
    - apply andb_true_iff in Eo as [Eo _]. apply ok_OK in Eo. specialize (A2 Eo).
      pose proof (fs_sync_ok e2 f) as S. destruct (fs_sync e2 f) as [s3 e3]. destruct S as [S1 S2].
      simpl. split; [intros; by rewrite S1, K2|]. intros E3. by rewrite S2, A2, C2.
    - simpl. split; [done|]. intros Es. by rewrite A2, C2. }
  destruct r3 as [s3 e3]. destruct R3 as [K3 F3]. simpl in K3, F3.
  set (r4 := if ok s3 then fs_close e3 f else (s3, e3)).
  assert (R4 : (forall g, g <> f -> fs_files r4.2 g = fs_files env g) /\
               (r4.1 = OK -> fs_files r4.2 f = Some data)).
  { unfold r4. destruct (ok s3) eqn:Eo; [|done]. apply ok_OK in Eo. specialize (F3 Eo).
    pose proof (fs_close_ok e3 f) as S. destruct (fs_close e3 f) as [s4 e4]. destruct S as [S1 S2].
    simpl. split; [intros; by rewrite S1, K3|]. intros E4. by rewrite S2. }
  destruct r4 as [s4 e4]. destruct R4 as [K4 F4]. simpl in K4, F4.
  destruct s4; simpl; [done|].
  pose proof (fs_delete_ok e4 f) as D. destruct (fs_delete e4 f) as [s5 e5]. destruct D as [D1 _].
  split; [intros; by rewrite D1, K4|done].
Qed.

Lemma temp_not_current dbname n : 0 <= n < 2 ^ 64 -> TempFileName dbname n <> CurrentFileName dbname.
Proof.
  intros Hn E0. unfold TempFileName, MakeFileName, CurrentFileName in E0. apply app_inv_head in E0.
  destruct (padded6_digit n Hn) as (d & l & E1 & Hd). rewrite E1 in E0. injection E0 as -> _.
  discriminate.
Qed.

(** The switch to a new MANIFEST is atomic.  Whatever fails on the way,
    [SetCurrentFile] leaves [CURRENT] either as it was (and reports an error)
    or naming the new MANIFEST (and reports success), and touches no other
    file than its temporary one. *)
Theorem set_current_file_atomic (env : E) (dbname : bytes) (n : Z) :
  0 <= n < 2 ^ 64 ->
  let '(s, env') := SetCurrentFile env dbname n in
  (forall f, f <> CurrentFileName dbname -> f <> TempFileName dbname n ->
     fs_files env' f = fs_files env f) /\
  (s = OK -> exists name, fs_files env' (CurrentFileName dbname) = Some (name ++ [x0a]) /\
     ParseFileName name = Some (n, kDescriptorFile)) /\
  (s <> OK -> fs_files env' (CurrentFileName dbname) = fs_files env (CurrentFileName dbname)).
Proof.
  intros Hn. unfold SetCurrentFile, WriteStringToFileSync.
  set (tmp := TempFileName dbname n). set (cur := CurrentFileName dbname).
  pose proof (temp_not_current dbname n Hn : tmp <> cur) as Hne.
  pose proof (DoWrite_spec env (base_name dbname (DescriptorFileName dbname n) ++ [x0a]) tmp true) as W.
  unfold base_name in W at 1. destruct (DoWriteStringToFile env _ tmp true) as [s1 e1].
  destruct W as [W1 W2]. destruct s1; simpl.
  - specialize (W2 eq_refl). pose proof (fs_rename_ok e1 tmp cur Hne) as R.
    destruct (fs_rename e1 tmp cur) as [s2 e2]. destruct R as [R1 R2]. destruct s2; simpl.
    + destruct (R1 eq_refl) as (Rc & _ & Ro). split; [intros; by rewrite Ro, W1|].
      split; [|done]. intros _. eexists. rewrite Rc, W2. split; [reflexivity|]. by apply parse_descriptor.
    + pose proof (fs_delete_ok e2 tmp) as D. destruct (fs_delete e2 tmp) as [s3 e3].
      destruct D as [D1 _]. split; [intros; by rewrite D1, R2, W1|]. split; [done|].
      intros _. by rewrite D1, R2, W1.
  - pose proof (fs_delete_ok e1 tmp) as D. destruct (fs_delete e1 tmp) as [s3 e3].
    destruct D as [D1 _]. split; [intros; by rewrite D1, W1|]. split; [done|].
    intros _. by rewrite D1, W1.
Qed.
End Atomic.

(** The reference file system: a map from paths to contents, in which every
    operation succeeds. *)
Definition flat_fs : Type := bytes -> option bytes.
Definition fs_put (env : flat_fs) (f : bytes) (c : option bytes) : flat_fs :=
  fun g => if decide (g = f) then c else env g.

#[export] Instance flat_filesystem : FileSystem flat_fs := {|
  fs_create env f := (OK, fs_put env f (Some []));
  fs_append env f d := (OK, fs_put env f ((fun c => c ++ d) <$> env f));
  fs_sync env f := (OK, env);
  fs_close env f := (OK, env);
  fs_rename env f g := (OK, fs_put (fs_put env g (env f)) f None);
  fs_delete env f := (OK, fs_put env f None);
|}.

Lemma fs_put_eq env f c : fs_put env f c f = c.
Proof. unfold fs_put. by destruct (decide (f = f)). Qed.
Lemma fs_put_neq env f c g : g <> f -> fs_put env f c g = env g.
Proof. intros. unfold fs_put. by destruct (decide (g = f)). Qed.

#[export] Instance flat_filesystem_ok : FileSystemOk flat_fs.
Proof.
  refine {| fs_files (env : flat_fs) f := env f |}; simpl; intros.
  - split; [intros; by apply fs_put_neq|intros; apply fs_put_eq].
  - split; [intros; by apply fs_put_neq|intros; apply fs_put_eq].
  - done.
  - done.
  - split; [|done]. intros _. split; [|split].
    + rewrite fs_put_neq by done. apply fs_put_eq.
    + apply fs_put_eq.
    + intros h ??. by rewrite !fs_put_neq.
  - split; [intros; by apply fs_put_neq|intros; apply fs_put_eq].
Defined.

Lemma set_current_file_atomic_witness :
  let '(s, env') := SetCurrentFile (E := flat_fs) (fun _ => None) (str "db") 7 in
  (forall f, f <> CurrentFileName (str "db") -> f <> TempFileName (str "db") 7 ->
     fs_files env' f = fs_files (fun _ => None : option bytes) f) /\
  (s = OK -> exists name, fs_files env' (CurrentFileName (str "db")) = Some (name ++ [x0a]) /\
     ParseFileName name = Some (7, kDescriptorFile)) /\
  (s <> OK -> fs_files env' (CurrentFileName (str "db")) =
     fs_files (fun _ => None : option bytes) (CurrentFileName (str "db"))).
Proof. apply (set_current_file_atomic (E := flat_fs) (fun _ => None) (str "db") 7). lia. Defined.
