(* ===== verification/Bloom.v ===== *)
(** util/hash.cc, include/leveldb/filter_policy.h, util/bloom.cc and the filter
    policy of internal keys (db/dbformat.cc).  A filter is a summary of a set of
    keys that may say "perhaps" for a key outside it, never "no" for one
    inside: [FilterPolicyOk]. *)

From S2P Require Import Prelude Coding DbFormat.
From Stdlib Require Import Strings.Byte.
From stdpp Require Import base list.

#[local] Open Scope Z_scope.

(** * [Hash] *)

Definition hash_m : Z := 0xc6a4a793.
Definition hash_r : Z := 24.

(** [h += w; h *= m; h ^= (h >> 16)] *)
Definition hash_word (h w : Z) : Z :=
  let h := u32 (u32 (h + w) * hash_m) in
  Z.lxor h (Z.shiftr h 16).

Fixpoint hash_loop (fuel : nat) (data : bytes) (h : Z) : Z * bytes :=
  match fuel with
  | O => (h, data)
  | S fuel' =>
      if 4 <=? blen data then hash_loop fuel' (bdrop 4 data) (hash_word h (DecodeFixed32 data))
      else (h, data)
  end.

Definition Hash (data : bytes) (seed : Z) : Z :=
  let h := Z.lxor seed (u32 (u64 (blen data * hash_m))) in
  let '(h, data) := hash_loop (length data) data h in
  let n := blen data in
  let h := if n =? 3 then u32 (h + Z.shiftl (bz (byte_at data 2)) 16) else h in
  let h := if (n =? 3) || (n =? 2) then u32 (h + Z.shiftl (bz (byte_at data 1)) 8) else h in
  if (n =? 3) || (n =? 2) || (n =? 1) then
    let h := u32 (u32 (h + bz (byte_at data 0)) * hash_m) in
    Z.lxor h (Z.shiftr h hash_r)
  else h.

(** * The interface *)

Class FilterPolicy := {
  CreateFilter : list bytes -> bytes -> bytes;   (* keys, dst *)
  KeyMayMatch : bytes -> bytes -> bool;          (* key, filter *)
}.

Class FilterPolicyOk `{FilterPolicy} := {
  (** [CreateFilter] appends a filter to [dst], of bytes that depend on the
      keys only. *)
  filter_of : list bytes -> bytes;
  create_appends keys dst : CreateFilter keys dst = dst ++ filter_of keys;
  (** The lists of keys that are not too long for a filter. *)
  filter_fits : list bytes -> Prop;
  (** "This method must return true if the key was in the list of keys passed
      to CreateFilter()." *)
  no_false_negative keys key :
    filter_fits keys -> key ∈ keys -> KeyMayMatch key (filter_of keys) = true;
}.

(** * The Bloom filter *)

Definition BloomHash (key : bytes) : Z := Hash key 0xbc9f1d34.

(** The constructor's [k_]: [static_cast<size_t>(bits_per_key * 0.69)] clamped
    to 1..30.  The product is not an integer for [bits_per_key] below 100, and
    from 44 on the result is clamped, so that rounding plays no role. *)
Definition bloom_k (bits_per_key : Z) : Z :=
  let k := bits_per_key * 69 / 100 in
  let k := if k <? 1 then 1 else k in
  if 30 <? k then 30 else k.

(** [array[bitpos / 8] |= (1 << (bitpos % 8))] *)
Definition set_bit (array : bytes) (bitpos : Z) : bytes :=
  <[Z.to_nat (bitpos / 8) :=
      zb (Z.lor (bz (byte_at array (bitpos / 8))) (Z.shiftl 1 (bitpos mod 8)))]> array.

(** [array[bitpos / 8] & (1 << (bitpos % 8))] *)
Definition test_bit (array : bytes) (bitpos : Z) : bool :=
  negb (Z.land (sz (byte_at array (bitpos / 8))) (Z.shiftl 1 (bitpos mod 8)) =? 0).

Definition bloom_delta (h : Z) : Z := Z.lor (Z.shiftr h 17) (u32 (Z.shiftl h 15)).

Fixpoint add_probes (j : nat) (bits delta h : Z) (array : bytes) : bytes :=
  match j with
  | O => array
  | S j' => add_probes j' bits delta (u32 (h + delta)) (set_bit array (h mod bits))
  end.

Definition bloom_add (k bits : Z) (array key : bytes) : bytes :=
  let h := BloomHash key in
  add_probes (Z.to_nat k) bits (bloom_delta h) h array.

Fixpoint test_probes (j : nat) (bits delta h : Z) (array : bytes) : bool :=
  match j with
  | O => true
  | S j' =>
      if negb (test_bit array (h mod bits)) then false
      else test_probes j' bits delta (u32 (h + delta)) array
  end.

Section Bloom.
Variable bits_per_key_ : Z.

Definition bloom_CreateFilter (keys : list bytes) (dst : bytes) : bytes :=
  let bits := u64 (blen keys * bits_per_key_) in
  let bits := if bits <? 64 then 64 else bits in
  let nbytes := u64 (bits + 7) / 8 in
  let bits := u64 (nbytes * 8) in
  let array := replicate (Z.to_nat nbytes) x00 in
  dst ++ fold_left (bloom_add (bloom_k bits_per_key_) bits) keys array ++ [zb (bloom_k bits_per_key_)].

Definition bloom_KeyMayMatch (key bloom_filter : bytes) : bool :=
  let len := blen bloom_filter in
  if len <? 2 then false
  else
    let bits := (len - 1) * 8 in
    let k := u64 (sz (byte_at bloom_filter (len - 1))) in
    if 30 <? k then true
    else
      let h := BloomHash key in
      test_probes (Z.to_nat k) bits (bloom_delta h) h bloom_filter.

Definition NewBloomFilterPolicy : FilterPolicy := {|
  CreateFilter := bloom_CreateFilter; KeyMayMatch := bloom_KeyMayMatch |}.
End Bloom.

(** * The filter policy of internal keys *)

Definition InternalFilterPolicy (user_policy_ : FilterPolicy) : FilterPolicy := {|
  CreateFilter keys dst := @CreateFilter user_policy_ (map ExtractUserKey keys) dst;
  KeyMayMatch key f := @KeyMayMatch user_policy_ (ExtractUserKey key) f |}.

#[export] Instance InternalFilterPolicy_ok (p : FilterPolicy) `{!@FilterPolicyOk p} :
  @FilterPolicyOk (InternalFilterPolicy p).
Proof.
  refine (@Build_FilterPolicyOk (InternalFilterPolicy p)
    (fun keys => filter_of (map ExtractUserKey keys)) _
    (fun keys => filter_fits (map ExtractUserKey keys)) _); simpl.
  - intros keys dst. apply create_appends.
  - intros keys key Hf Hk. apply no_false_negative; [done|].
    apply list_elem_of_In, in_map, list_elem_of_In. done.
Defined.

(** * No false negatives *)

Lemma length_set_bit array p : length (set_bit array p) = length array.
Proof. apply length_insert. Qed.

Lemma length_add_probes j : forall bits delta h array,
  length (add_probes j bits delta h array) = length array.
Proof.
  induction j as [|j IH]; intros; simpl; [done|]. by rewrite IH, length_set_bit.
Qed.

Lemma length_bloom_add k bits array key : length (bloom_add k bits array key) = length array.
Proof. apply length_add_probes. Qed.

Lemma length_fold_bloom k bits keys : forall array,
  length (fold_left (bloom_add k bits) keys array) = length array.
Proof. induction keys as [|key keys IH]; intros; simpl; [done|]. by rewrite IH, length_bloom_add. Qed.

(** A bit of an array, by position. *)
Definition bit_on (array : bytes) (p : Z) : Prop :=
  Z.testbit (bz (byte_at array (p / 8))) (p mod 8) = true.

Lemma byte_at_insert array i b j : (i < length array)%nat -> 0 <= j ->
  byte_at (<[i := b]> array) j = if (j =? Z.of_nat i) then b else byte_at array j.
Proof.
  intros Hi Hj. unfold byte_at. rewrite !nth_lookup.
  destruct (Z.eqb_spec j (Z.of_nat i)) as [->|Hne].
  - rewrite Nat2Z.id, list_lookup_insert_eq by done. done.
  - rewrite list_lookup_insert_ne by lia. done.
Qed.

Lemma bz_zb_lor b n : 0 <= n < 8 -> bz (zb (Z.lor (bz b) (Z.shiftl 1 n))) = Z.lor (bz b) (Z.shiftl 1 n).
Proof.
  intros Hn. apply bz_zb_small. apply (lor_range 8); [lia|apply bz_range|].
  rewrite Z.shiftl_1_l. split; [lia|]. apply Z.pow_lt_mono_r; lia.
Qed.

Lemma set_bit_on array p q : 0 <= p < 8 * blen array -> 0 <= q ->
  bit_on (set_bit array p) q <-> q = p \/ bit_on array q.
Proof.
  intros Hp Hq. unfold bit_on, set_bit.
  assert (Hb : 0 <= p / 8 < blen array).
  { split; [apply Z.div_pos; lia|apply Z.div_lt_upper_bound; lia]. }
  assert (0 <= q / 8) by (apply Z.div_pos; lia).
  rewrite byte_at_insert by (unfold blen in *; lia). rewrite Z2Nat.id by lia.
  pose proof (Z.mod_pos_bound p 8 ltac:(lia)). pose proof (Z.mod_pos_bound q 8 ltac:(lia)).
  pose proof (Z.div_mod p 8 ltac:(lia)). pose proof (Z.div_mod q 8 ltac:(lia)).
  destruct (Z.eqb_spec (q / 8) (p / 8)) as [E|E].
  - rewrite bz_zb_lor by lia. rewrite Z.lor_spec, Z.shiftl_1_l, Z.pow2_bits_eqb by lia.
    rewrite E, orb_true_iff, Z.eqb_eq. split; [intros [?|?]; [by right|left; lia]|].
    intros [->|?]; [by right|by left].
  - split; [by right|]. intros [->|?]; [done|done].
Qed.

(** The positions a key probes. *)
Fixpoint probes (j : nat) (bits delta h : Z) : list Z :=
  match j with
  | O => []
  | S j' => (h mod bits) :: probes j' bits delta (u32 (h + delta))
  end.

Lemma add_probes_on j : forall bits delta h array q,
  0 < bits <= 8 * blen array -> 0 <= q ->
  bit_on (add_probes j bits delta h array) q <-> q ∈ probes j bits delta h \/ bit_on array q.
Proof.
  induction j as [|j IH]; intros bits delta h array q Hb Hq; simpl.
  { rewrite elem_of_nil. tauto. }
  pose proof (Z.mod_pos_bound h bits ltac:(lia)).
  rewrite IH by (unfold blen in *; rewrite ?length_set_bit; lia).
  rewrite set_bit_on, elem_of_cons by lia. tauto.
Qed.

Lemma fold_bloom_on k bits keys : forall array q,
  0 < bits <= 8 * blen array -> 0 <= q ->
  bit_on array q \/ (exists key, key ∈ keys /\
    q ∈ probes (Z.to_nat k) bits (bloom_delta (BloomHash key)) (BloomHash key)) ->
  bit_on (fold_left (bloom_add k bits) keys array) q.
Proof.
  induction keys as [|key keys IH]; intros array q Hb Hq Hor; simpl.
  { destruct Hor as [|(? & ?%elem_of_nil & _)]; done. }
  assert (Hb' : 0 < bits <= 8 * blen (bloom_add k bits array key)).
  { unfold blen in *. by rewrite length_bloom_add. }
  apply IH; [done|done|]. destruct Hor as [Hon|(key' & Hk & Hp)].
  - left. apply add_probes_on; [done..|by right].
  - apply elem_of_cons in Hk as [->|Hk]; [|right; eauto].
    left. apply add_probes_on; [done..|by left].
Qed.

Lemma test_bit_on array p : 0 <= p -> bit_on array p -> test_bit array p = true.
Proof.
  intros Hp Hon. unfold test_bit, bit_on in *. apply negb_true_iff, Z.eqb_neq.
  intros E. pose proof (Z.mod_pos_bound p 8 ltac:(lia)).
  apply (f_equal (fun z => Z.testbit z (p mod 8))) in E.
  rewrite Z.land_spec, Z.shiftl_1_l, Z.pow2_bits_true, andb_true_r, Z.bits_0 in E by lia.
  unfold sz in E. destruct (bz (byte_at array (p / 8)) <? 128); [congruence|].
  rewrite <- (Z.mod_pow2_bits_low _ 8) in E by lia.
  change (2 ^ 8) with 256 in E. rewrite <- (Z_mod_plus_full _ 1 256) in E.
  replace (bz (byte_at array (p / 8)) - 256 + 1 * 256) with (bz (byte_at array (p / 8))) in E by lia.
  rewrite Z.mod_small in E by apply bz_range. congruence.
Qed.

Lemma test_probes_true j : forall bits delta h array, 0 < bits ->
  (forall q, q ∈ probes j bits delta h -> bit_on array q) ->
  test_probes j bits delta h array = true.
Proof.
  induction j as [|j IH]; intros bits delta h array Hb Hall; simpl; [done|].
  pose proof (Z.mod_pos_bound h bits Hb).
  rewrite test_bit_on by (lia || apply Hall; simpl; left). simpl.
  apply IH; [done|]. intros q Hq. apply Hall. simpl. by right.
Qed.

Lemma probes_range j : forall bits delta h q, 0 < bits -> q ∈ probes j bits delta h -> 0 <= q < bits.
Proof.
  induction j as [|j IH]; intros bits delta h q Hb; simpl; [by intros ?%elem_of_nil|].
  intros [->|Hq]%elem_of_cons; [by apply Z.mod_pos_bound|by eapply IH].
Qed.

Lemma bit_on_app array l p : 0 <= p < 8 * blen array -> bit_on array p -> bit_on (array ++ l) p.
Proof.
  intros Hp. unfold bit_on. rewrite byte_at_app_l; [done|].
  split; [apply Z.div_pos; lia|apply Z.div_lt_upper_bound; lia].
Qed.

Lemma bloom_k_range b : 1 <= bloom_k b <= 30.
Proof. unfold bloom_k. cbv zeta. repeat bcase; lia. Qed.

Lemma bloom_match bits_per_key keys key :
  0 <= bits_per_key -> blen keys * bits_per_key < 2 ^ 63 -> key ∈ keys ->
  bloom_KeyMayMatch key (bloom_CreateFilter bits_per_key keys []) = true.
Proof.
  intros Hbpk Htot Hkey. unfold bloom_CreateFilter. rewrite app_nil_l. pose proof (blen_nonneg keys).
  rewrite (u64_small (blen keys * bits_per_key)) by nia.
  set (bits0 := if _ <? 64 then 64 else _).
  assert (Hb0 : 64 <= bits0 < 2 ^ 63) by (unfold bits0; bcase; lia).
  rewrite (u64_small (bits0 + 7)) by lia. set (nbytes := (bits0 + 7) / 8).
  assert (Hn : 8 <= nbytes < 2 ^ 60 + 1).
  { split; [apply Z.div_le_lower_bound; lia|apply Z.div_lt_upper_bound; lia]. }
  rewrite (u64_small (nbytes * 8)) by lia.
  set (array := fold_left _ _ _).
  assert (Hl : blen array = nbytes).
  { unfold array, blen. rewrite length_fold_bloom, length_replicate. lia. }
  unfold bloom_KeyMayMatch. rewrite blen_app, Hl. change (blen [_]) with 1.
  replace (nbytes + 1 <? 2) with false by lia.
  replace (nbytes + 1 - 1) with nbytes by lia.
  rewrite byte_at_app_r by lia. rewrite Hl, Z.sub_diag.
  change (byte_at [?b] 0) with b.
  pose proof (bloom_k_range bits_per_key) as Hk.
  assert (Hsz : u64 (sz (zb (bloom_k bits_per_key))) = bloom_k bits_per_key).
  { unfold sz. rewrite bz_zb_small by lia. replace (_ <? 128) with true by lia. apply u64_small. lia. }
  rewrite Hsz. replace (30 <? bloom_k bits_per_key) with false by lia.
  apply test_probes_true; [lia|]. intros q Hq.
  assert (Hr : 0 <= q < nbytes * 8) by (eapply probes_range; [|exact Hq]; lia).
  apply bit_on_app; [lia|]. unfold array. apply fold_bloom_on; [|lia|right; eauto].
  unfold blen. rewrite length_replicate. lia.
Qed.

#[export] Instance Bloom_ok (bits_per_key : Z) (H : 0 <= bits_per_key) :
  @FilterPolicyOk (NewBloomFilterPolicy bits_per_key).
Proof.
  refine (@Build_FilterPolicyOk (NewBloomFilterPolicy bits_per_key)
    (fun keys => bloom_CreateFilter bits_per_key keys []) _
    (fun keys => blen keys * bits_per_key < 2 ^ 63) _); simpl; [done|].
  intros. by apply bloom_match.
Defined.

(** The Bloom filter has no false negatives.  For any number of bits per
    key (with the total size of the filter below 2^63 bits), a filter created for a list of keys and appended to any buffer answers
    "may match" for every key of the list. *)
Theorem bloom_no_false_negatives (bits_per_key : Z) (keys : list bytes) (dst key : bytes) :
  0 <= bits_per_key -> blen keys * bits_per_key < 2 ^ 63 -> key ∈ keys ->
  exists filter, bloom_CreateFilter bits_per_key keys dst = dst ++ filter /\
    bloom_KeyMayMatch key filter = true.
Proof.
  intros. exists (bloom_CreateFilter bits_per_key keys []). split; [done|]. by apply bloom_match.
Qed.

Lemma bloom_no_false_negatives_witness :
  exists filter, bloom_CreateFilter 10 [[x61]; [x62; x63]] [x00] = [x00] ++ filter /\
    bloom_KeyMayMatch [x62; x63] filter = true.
Proof.
  apply (bloom_no_false_negatives 10 [[x61]; [x62; x63]] [x00] [x62; x63]);
    [lia|vm_compute; reflexivity|right; left].
Defined.
