(* ===== verification/FilterBlock.v ===== *)
(** table/filter_block.h, table/filter_block.cc: the filter block of a table.
    One filter covers the keys of the data blocks that start in one 2 KB range
    of file offsets; the block ends with the offsets of the filters. *)

From S2P Require Import Prelude Coding Bloom.
From Stdlib Require Import Strings.Byte.
From stdpp Require Import base list strings.

#[local] Open Scope Z_scope.

Definition kFilterBaseLg : Z := 11.
Definition kFilterBase : Z := Z.shiftl 1 kFilterBaseLg.

(** * The builder *)

Record FilterBlockBuilder := mkBuilder {
  keys_ : bytes;                (* flattened key contents *)
  start_ : list Z;              (* starting index in keys_ of each key *)
  result_ : bytes;              (* filter data computed so far *)
  filter_offsets_ : list Z;
}.
Definition newFilterBlockBuilder : FilterBlockBuilder := mkBuilder [] [] [] [].

(** The keys of the flattened structure: [tmp_keys_]. *)
Fixpoint slices (keys : bytes) (start : list Z) : list bytes :=
  match start with
  | a :: rest =>
      match rest with
      | b :: _ => btake (b - a) (bdrop a keys) :: slices keys rest
      | [] => []
      end
  | [] => []
  end.

Section FilterBlock.
Context (policy_ : FilterPolicy).

Definition GenerateFilter (b : FilterBlockBuilder) : FilterBlockBuilder :=
  if blen (start_ b) =? 0 then
    mkBuilder (keys_ b) (start_ b) (result_ b) (filter_offsets_ b ++ [u32 (blen (result_ b))])
  else
    let tmp_keys := slices (keys_ b) (start_ b ++ [blen (keys_ b)]) in
    mkBuilder [] [] (CreateFilter tmp_keys (result_ b))
      (filter_offsets_ b ++ [u32 (blen (result_ b))]).

(** [while (filter_index > filter_offsets_.size()) GenerateFilter();] as many
    times as the difference. *)
Definition StartBlock (b : FilterBlockBuilder) (block_offset : Z) : FilterBlockBuilder :=
  let filter_index := block_offset / kFilterBase in
  Nat.iter (Z.to_nat (filter_index - blen (filter_offsets_ b))) GenerateFilter b.

Definition AddKey (b : FilterBlockBuilder) (key : bytes) : FilterBlockBuilder :=
  mkBuilder (keys_ b ++ key) (start_ b ++ [blen (keys_ b)]) (result_ b) (filter_offsets_ b).

Definition Finish (b : FilterBlockBuilder) : bytes :=
  let b := if negb (blen (start_ b) =? 0) then GenerateFilter b else b in
  let array_offset := u32 (blen (result_ b)) in
  let result := fold_left PutFixed32 (filter_offsets_ b) (result_ b) in
  PutFixed32 result array_offset ++ [zb kFilterBaseLg].

(** * The reader *)

(** A [base_lg_] of 64 or more, which no builder writes, would make the shift of
    [KeyMayMatch] undefined. *)
Record FilterBlockReader := mkReader {
  data_ : bytes;
  offset_ : Z;        (* offset_ - data_: where the offset array begins *)
  num_ : Z;
  base_lg_ : Z;
}.

Definition newFilterBlockReader (contents : bytes) : FilterBlockReader :=
  let n := blen contents in
  if n <? 5 then mkReader [] 0 0 0
  else
    let base_lg := u64 (sz (byte_at contents (n - 1))) in
    let last_word := DecodeFixed32 (bdrop (n - 5) contents) in
    if n - 5 <? last_word then mkReader [] 0 0 base_lg
    else mkReader contents last_word ((n - 5 - last_word) / 4) base_lg.

Definition Reader_KeyMayMatch (r : FilterBlockReader) (block_offset : Z) (key : bytes) : bool :=
  let index := Z.shiftr block_offset (base_lg_ r) in
  if index <? num_ r then
    let start := DecodeFixed32 (bdrop (offset_ r + index * 4) (data_ r)) in
    let limit := DecodeFixed32 (bdrop (offset_ r + index * 4 + 4) (data_ r)) in
    if (start <=? limit) && (limit <=? offset_ r) then
      KeyMayMatch key (btake (limit - start) (bdrop start (data_ r)))
    else if start =? limit then false
    else true
  else true.

(** * What the builder records *)

(** The groups of keys of the filters completed so far, and the keys of the
    filter under construction. *)
Context {Hok : @FilterPolicyOk policy_}.

Fixpoint offsets (n : Z) (l : list bytes) : list Z :=
  match l with
  | [] => []
  | x :: l' => n :: offsets (n + blen x) l'
  end.

Definition filter_bytes (group : list bytes) : bytes :=
  match group with [] => [] | _ => filter_of group end.
Definition all_filters (groups : list (list bytes)) : bytes := concat (map filter_bytes groups).

Record Rep (b : FilterBlockBuilder) (groups : list (list bytes)) (cur : list bytes) : Prop := {
  rep_keys : keys_ b = concat cur;
  rep_start : start_ b = offsets 0 cur;
  rep_result : result_ b = all_filters groups;
  rep_offsets : filter_offsets_ b = map u32 (offsets 0 (map filter_bytes groups));
}.

Lemma offsets_app n l x : offsets n (l ++ [x]) = offsets n l ++ [n + blen (concat l)].
Proof.
  revert n. induction l as [|y l IH]; intros n; simpl.
  - by rewrite (@blen_nil byte), Z.add_0_r.
  - rewrite IH, blen_app. do 2 f_equal. f_equal. lia.
Qed.

Lemma length_offsets n l : length (offsets n l) = length l.
Proof. revert n. induction l as [|x l IH]; intros n; simpl; [done|]. by rewrite IH. Qed.

Lemma slices_cons keys a b rest :
  slices keys (a :: b :: rest) = btake (b - a) (bdrop a keys) :: slices keys (b :: rest).
Proof. done. Qed.

(** Cutting the flattened keys at their starting indices gives the keys back. *)
Lemma slices_concat l : forall pre,
  slices (pre ++ concat l) (offsets (blen pre) l ++ [blen pre + blen (concat l)]) = l.
Proof.
  induction l as [|x l IH]; intros pre; [done|].
  specialize (IH (pre ++ x)). rewrite blen_app in IH. simpl concat. rewrite blen_app.
  assert (E : exists rest, offsets (blen pre + blen x) l ++ [blen pre + blen x + blen (concat l)] =
    (blen pre + blen x) :: rest).
  { destruct l as [|y l]; simpl; [|eauto]. rewrite (@blen_nil byte), Z.add_0_r. eauto. }
  destruct E as [rest E]. simpl offsets. rewrite Z.add_assoc. simpl app. rewrite E.
  rewrite slices_cons. rewrite E, <- app_assoc in IH. rewrite IH. f_equal.
  rewrite bdrop_app, Z.add_simpl_l. apply btake_app.
Qed.

Lemma GenerateFilter_rep b groups cur :
  Rep b groups cur -> Rep (GenerateFilter b) (groups ++ [cur]) [].
Proof.
  intros [Hk Hs Hr Ho]. unfold GenerateFilter.
  assert (Hoff : filter_offsets_ b ++ [u32 (blen (result_ b))] =
    map u32 (offsets 0 (map filter_bytes (groups ++ [cur])))).
  { rewrite (map_app filter_bytes). simpl map at 3. rewrite offsets_app, map_app, Ho, Hr. done. }
  assert (Hall : forall g, all_filters (groups ++ [g]) = all_filters groups ++ filter_bytes g).
  { intros g. unfold all_filters. rewrite map_app, concat_app. simpl. by rewrite app_nil_r. }
  rewrite Hs. destruct cur as [|x cur].
  - simpl. constructor; simpl; [by rewrite Hk|done|by rewrite Hall, app_nil_r|done].
  - assert ((blen (offsets 0 (x :: cur)) =? 0) = false) as ->.
    { apply Z.eqb_neq. unfold blen. rewrite length_offsets. simpl. lia. }
    constructor; simpl keys_; simpl start_; simpl result_; simpl filter_offsets_; try done.
    rewrite Hall, create_appends, Hr, Hk. f_equal. cbn [filter_bytes]. f_equal.
    apply (slices_concat (x :: cur) []).
Qed.

Lemma iter_GenerateFilter_rep n b groups cur : Rep b groups cur ->
  Rep (Nat.iter (S n) GenerateFilter b) (groups ++ cur :: replicate n []) [].
Proof.
  intros H. induction n as [|n IH]; [by apply GenerateFilter_rep|].
  apply GenerateFilter_rep in IH. eassert (_ = _) as ->; [|exact IH].
  rewrite <- app_assoc. simpl. do 2 f_equal. by rewrite <- replicate_cons_app.
Qed.

(** The calls the builder accepts: [(StartBlock AddKey* )*]. *)
Inductive FilterOp := FStart (block_offset : Z) | FKey (key : bytes).

Definition filter_step (b : FilterBlockBuilder) (op : FilterOp) : FilterBlockBuilder :=
  match op with
  | FStart off => StartBlock b off
  | FKey key => AddKey b key
  end.

(** The offset of the current block after some calls, and the keys with the
    offset of the block they were added to. *)
Fixpoint recorded (off : Z) (ops : list FilterOp) : list (Z * bytes) :=
  match ops with
  | [] => []
  | FStart off' :: ops' => recorded off' ops'
  | FKey key :: ops' => (off, key) :: recorded off ops'
  end.

(** Offsets only grow. *)
Fixpoint offsets_grow (off : Z) (ops : list FilterOp) : Prop :=
  match ops with
  | [] => True
  | FStart off' :: ops' => off <= off' /\ offsets_grow off' ops'
  | FKey _ :: ops' => offsets_grow off ops'
  end.

(** The block offset after some calls. *)
Fixpoint last_offset (off : Z) (ops : list FilterOp) : Z :=
  match ops with
  | [] => off
  | FStart off' :: ops' => last_offset off' ops'
  | FKey _ :: ops' => last_offset off ops'
  end.

Lemma recorded_app off ops ops' :
  recorded off (ops ++ ops') = recorded off ops ++ recorded (last_offset off ops) ops'.
Proof. revert off. induction ops as [|[o|k] ops IH]; intros off; simpl; [done|by rewrite IH..]. Qed.

Lemma last_offset_app off ops ops' :
  last_offset off (ops ++ ops') = last_offset (last_offset off ops) ops'.
Proof. revert off. induction ops as [|[o|k] ops IH]; intros off; simpl; [done|by rewrite IH..]. Qed.

Lemma offsets_grow_app off ops ops' :
  offsets_grow off (ops ++ ops') <-> offsets_grow off ops /\ offsets_grow (last_offset off ops) ops'.
Proof.
  revert off. induction ops as [|[o|k] ops IH]; intros off; simpl; [tauto|rewrite IH; tauto|apply IH].
Qed.

(** Key [key] is in the group of the 2 KB range of [off]. *)
Definition grouped (groups : list (list bytes)) (off : Z) (key : bytes) : Prop :=
  exists g, groups !! Z.to_nat (off / kFilterBase) = Some g /\ key ∈ g.

Lemma grouped_app groups groups' off key :
  grouped groups off key -> grouped (groups ++ groups') off key.
Proof. intros (g & Hg & Hk). exists g. split; [by apply lookup_app_l_Some|done]. Qed.

Record FInv (b : FilterBlockBuilder) (off : Z) (n : Z) (recs : list (Z * bytes))
    (groups : list (list bytes)) (cur : list bytes) : Prop := {
  finv_rep : Rep b groups cur;
  finv_index : blen groups = off / kFilterBase;
  finv_recs : Forall (fun r => grouped (groups ++ [cur]) r.1 r.2) recs;
  finv_size : Forall (fun g => blen g <= n) (groups ++ [cur]);
}.

Lemma StartBlock_inv b off off' n recs groups cur :
  FInv b off n recs groups cur -> off <= off' ->
  exists groups' cur', FInv (StartBlock b off') off' n recs groups' cur'.
Proof.
  intros [Hr Hi Hrec Hn] Hle. unfold StartBlock.
  assert (Hlen : blen (filter_offsets_ b) = blen groups).
  { rewrite (rep_offsets _ _ _ Hr). unfold blen. by rewrite length_map, length_offsets, length_map. }
  assert (Hd : off / kFilterBase <= off' / kFilterBase) by (apply Z.div_le_mono; [done|lia]).
  rewrite Hlen, Hi. destruct (Z.to_nat (off' / kFilterBase - off / kFilterBase)) as [|m] eqn:E.
  - exists groups, cur. constructor; [done|lia|done|done].
  - exists (groups ++ cur :: replicate m []), [].
    rewrite Forall_app in Hn. destruct Hn as [Hn Hc]. apply Forall_cons in Hc as [Hc _].
    pose proof (blen_nonneg cur). constructor.
    + by apply iter_GenerateFilter_rep.
    + rewrite blen_app, blen_cons, Hi. unfold blen. rewrite length_replicate. lia.
    + eapply Forall_impl; [exact Hrec|]. intros r Hg.
      replace ((groups ++ cur :: replicate m []) ++ [[]])
        with ((groups ++ [cur]) ++ replicate m [] ++ [[]]) by (rewrite <- !app_assoc; done).
      by apply grouped_app.
    + rewrite <- app_assoc. apply Forall_app; split; [done|]. simpl. constructor; [done|].
      apply Forall_app; split; [apply Forall_replicate|apply Forall_singleton]; unfold blen; simpl; lia.
Qed.

Lemma AddKey_inv b off n recs groups cur key :
  FInv b off n recs groups cur -> 0 <= off ->
  FInv (AddKey b key) off (n + 1) (recs ++ [(off, key)]) groups (cur ++ [key]).
Proof.
  intros [[Hk Hs Hr Ho] Hi Hrec Hn] Hoff. constructor; [| done | |].
  - constructor; simpl; [|by rewrite offsets_app, Hs, Hk|done|done].
    rewrite Hk, concat_app. simpl. by rewrite app_nil_r.
  - assert (Hlast : forall c, (groups ++ [c]) !! Z.to_nat (off / kFilterBase) = Some c).
    { intros c. rewrite <- Hi. unfold blen. rewrite Nat2Z.id. by apply list_lookup_middle. }
    apply Forall_app; split; [|apply Forall_singleton].
    + eapply Forall_impl; [exact Hrec|]. intros r (g & Hg & Hin). unfold grouped.
      apply lookup_app_Some in Hg as [Hg|[Hge Hg]].
      * exists g. split; [by apply lookup_app_l_Some|done].
      * apply list_lookup_singleton_Some in Hg as [E <-]. exists (cur ++ [key]).
        split; [|apply elem_of_app; by left].
        rewrite lookup_app_r by done. by rewrite E.
    + exists (cur ++ [key]). split; [apply Hlast|]. apply elem_of_app. right. by left.
  - rewrite Forall_app in Hn. destruct Hn as [Hn Hc]. apply Forall_cons in Hc as [Hc _].
    apply Forall_app; split; [eapply Forall_impl; [exact Hn|]; simpl; intros; lia|].
    apply Forall_singleton. rewrite blen_app, blen_cons, blen_nil. lia.
Qed.

Lemma filter_run_inv ops : forall b off n recs groups cur,
  FInv b off n recs groups cur -> 0 <= off -> offsets_grow off ops ->
  exists off' groups' cur', FInv (fold_left filter_step ops b) off' (n + blen ops)
    (recs ++ recorded off ops) groups' cur'.
Proof.
  induction ops as [|op ops IH]; intros b off n recs groups cur H Hoff Hg; simpl.
  - exists off, groups, cur. by rewrite app_nil_r, blen_nil, Z.add_0_r.
  - destruct op as [off'|key]; simpl in Hg.
    + destruct Hg as [Hle Hg]. destruct (StartBlock_inv _ _ off' _ _ _ _ H Hle) as (g' & c' & H').
      destruct (IH _ _ _ _ _ _ H' ltac:(lia) Hg) as (o & g & c & [I1 I2 I3 I4]).
      exists o, g, c. constructor; [done|done|done|].
      eapply Forall_impl; [exact I4|]. simpl. intros x Hx. rewrite blen_cons. lia.
    + pose proof (AddKey_inv _ _ _ _ _ _ key H Hoff) as H'.
      destruct (IH _ _ _ _ _ _ H' Hoff Hg) as (o & g & c & HI). exists o, g, c.
      rewrite <- app_assoc in HI. simpl in HI. rewrite blen_cons.
      replace (n + (1 + blen ops)) with (n + 1 + blen ops) by lia. done.
Qed.

(** * What the reader finds *)

(** The bytes of a finished block. *)
Definition filter_block_bytes (groups : list (list bytes)) : bytes :=
  all_filters groups ++
  concat (map EncodeFixed32 (offsets 0 (map filter_bytes groups) ++ [blen (all_filters groups)])) ++
  [zb kFilterBaseLg].

Lemma Finish_bytes b groups cur : Rep b groups cur ->
  exists groups', Finish b = filter_block_bytes groups' /\
    (groups' = groups /\ cur = [] \/ groups' = groups ++ [cur]).
Proof.
  intros H.
  assert (Hf : forall b g c, Rep b g c ->
    PutFixed32 (fold_left PutFixed32 (filter_offsets_ b) (result_ b)) (u32 (blen (result_ b))) ++
      [zb kFilterBaseLg] = filter_block_bytes g).
  { intros b' g c [_ _ Hr Ho]. rewrite Hr, Ho, fold_PutFixed32. unfold PutFixed32, filter_block_bytes, u32, wrap.
    rewrite EncodeFixed32_mod, map_app, concat_app, <- !app_assoc. done. }
  unfold Finish. destruct cur as [|x cur].
  - rewrite (rep_start _ _ _ H). simpl. exists groups. split; [by apply (Hf _ _ _ H)|by left].
  - assert (negb (blen (start_ b) =? 0) = true) as ->.
    { rewrite (rep_start _ _ _ H). apply negb_true_iff, Z.eqb_neq. unfold blen.
      rewrite length_offsets. simpl. lia. }
    exists (groups ++ [x :: cur]). split; [|by right].
    exact (Hf _ _ _ (GenerateFilter_rep _ _ _ H)).
Qed.

Lemma offsets_lookup l : forall n i x, l !! i = Some x ->
  exists pre post, l = pre ++ x :: post /\ length pre = i /\
    offsets n l !! i = Some (n + blen (concat pre)) /\
    (offsets n l ++ [n + blen (concat l)]) !! S i = Some (n + blen (concat pre) + blen x).
Proof.
  induction l as [|y l IH]; intros n i x Hx; [done|]. destruct i as [|i]; simpl in Hx.
  - injection Hx as ->. exists [], l. simpl. rewrite (@blen_nil byte), Z.add_0_r.
    repeat split; [done..|]. rewrite blen_app. destruct l as [|z l]; simpl; [|done].
    rewrite (@blen_nil byte). f_equal. lia.
  - destruct (IH (n + blen y) i x Hx) as (pre & post & -> & Hl & H1 & H2).
    exists (y :: pre), post. simpl. rewrite blen_app. repeat split; [by rewrite Hl|..].
    + rewrite H1. f_equal. lia.
    + replace (n + (blen y + blen (concat pre)) + blen x)
        with (n + blen y + blen (concat pre) + blen x) by lia.
      rewrite <- H2. by rewrite (blen_app y), Z.add_assoc.
Qed.

Lemma reader_of_block groups : blen (filter_block_bytes groups) < 2 ^ 32 ->
  newFilterBlockReader (filter_block_bytes groups) =
  mkReader (filter_block_bytes groups) (blen (all_filters groups)) (blen groups) kFilterBaseLg.
Proof.
  intros Hlt. pose proof (blen_nonneg (all_filters groups)) as H0. pose proof (blen_nonneg groups).
  assert (Hn : blen (filter_block_bytes groups) = blen (all_filters groups) + 4 * blen groups + 5).
  { assert (Ho : blen (offsets 0 (map filter_bytes groups)) = blen groups)
      by (unfold blen; by rewrite length_offsets, length_map).
    unfold filter_block_bytes. rewrite !blen_app, blen_fixed32s, blen_app, Ho.
    rewrite !blen_cons, (@blen_nil Z), (@blen_nil byte). lia. }
  unfold newFilterBlockReader. rewrite Hn.
  destruct (Z.ltb_spec (blen (all_filters groups) + 4 * blen groups + 5) 5); [lia|].
  assert (Hlast : DecodeFixed32 (bdrop (blen (all_filters groups) + 4 * blen groups + 5 - 5)
    (filter_block_bytes groups)) = blen (all_filters groups)).
  { unfold filter_block_bytes. rewrite bdrop_app_ge by lia.
    replace (blen (all_filters groups) + 4 * blen groups + 5 - 5 - blen (all_filters groups))
      with (Z.of_nat (length groups) * 4) by (unfold blen; lia).
    apply read_fixed32; [|lia]. apply list_lookup_middle. by rewrite length_offsets, length_map. }
  rewrite Hlast. destruct (Z.ltb_spec (blen (all_filters groups) + 4 * blen groups + 5 - 5)
    (blen (all_filters groups))); [lia|]. f_equal.
  - replace (blen (all_filters groups) + 4 * blen groups + 5 - 5 - blen (all_filters groups))
      with (blen groups * 4) by lia. by apply Z.div_mul.
  - assert (byte_at (filter_block_bytes groups) (blen (all_filters groups) + 4 * blen groups + 5 - 1) =
      zb kFilterBaseLg) as ->; [|done].
    unfold filter_block_bytes in *. rewrite app_assoc in *. rewrite blen_app in Hn.
    change (blen [zb kFilterBaseLg]) with 1 in Hn.
    rewrite byte_at_app_r by lia. replace (_ - _) with 0 by lia. done.
Qed.

Lemma all_filters_small groups :
  blen (filter_block_bytes groups) < 2 ^ 32 -> blen (all_filters groups) < 2 ^ 32.
Proof.
  intros Hlt. unfold filter_block_bytes in Hlt. rewrite blen_app in Hlt.
  pose proof (blen_nonneg (concat (map EncodeFixed32 (offsets 0 (map filter_bytes groups) ++
    [blen (all_filters groups)])) ++ [zb kFilterBaseLg])). lia.
Qed.

Lemma read_offset groups j v :
  (offsets 0 (map filter_bytes groups) ++ [blen (all_filters groups)]) !! j = Some v ->
  0 <= v < 2 ^ 32 ->
  DecodeFixed32 (bdrop (blen (all_filters groups) + Z.of_nat j * 4) (filter_block_bytes groups)) = v.
Proof.
  intros Hj Hv. unfold filter_block_bytes. rewrite bdrop_app_ge by lia. rewrite Z.add_simpl_l.
  by apply read_fixed32.
Qed.

Lemma reader_matches groups off key : blen (filter_block_bytes groups) < 2 ^ 32 ->
  0 <= off -> grouped groups off key -> Forall filter_fits groups ->
  Reader_KeyMayMatch (newFilterBlockReader (filter_block_bytes groups)) off key = true.
Proof.
  intros Hlt Hoff (g & Hg & Hk) Hfit. rewrite reader_of_block by done.
  set (i := Z.to_nat (off / kFilterBase)) in *.
  assert (Hi : Z.shiftr off kFilterBaseLg = Z.of_nat i).
  { rewrite Z.shiftr_div_pow2 by done. unfold i. change (2 ^ kFilterBaseLg) with kFilterBase.
    rewrite Z2Nat.id; [done|]. by apply Z.div_pos. }
  unfold Reader_KeyMayMatch. cbn [base_lg_ num_ offset_ data_]. rewrite Hi.
  pose proof (lookup_lt_Some _ _ _ Hg) as Hl.
  destruct (Z.ltb_spec (Z.of_nat i) (blen groups)); [|unfold blen in *; lia].
  destruct (offsets_lookup (map filter_bytes groups) 0 i (filter_bytes g)) as
    (pre & post & E & _ & H1 & H2).
  { change (map filter_bytes groups) with (filter_bytes <$> groups). by rewrite list_lookup_fmap, Hg. }
  rewrite Z.add_0_l in H1. rewrite !Z.add_0_l in H2. fold (all_filters groups) in H2.
  assert (Hall : all_filters groups = concat pre ++ filter_bytes g ++ concat post).
  { unfold all_filters. by rewrite E, concat_app. }
  pose proof (f_equal blen Hall) as Hb. rewrite !blen_app in Hb.
  pose proof (blen_nonneg (concat pre)). pose proof (blen_nonneg (concat post)).
  pose proof (blen_nonneg (filter_bytes g)).
  pose proof (all_filters_small _ Hlt) as Hle.
  rewrite (read_offset groups i _ (lookup_app_l_Some _ _ _ _ H1)) by lia.
  replace (blen (all_filters groups) + Z.of_nat i * 4 + 4)
    with (blen (all_filters groups) + Z.of_nat (S i) * 4) by lia.
  rewrite (read_offset groups (S i) _ H2) by lia.
  assert ((blen (concat pre) <=? blen (concat pre) + blen (filter_bytes g)) &&
    (blen (concat pre) + blen (filter_bytes g) <=? blen (all_filters groups)) = true) as ->.
  { apply andb_true_iff. split; apply Z.leb_le; lia. }
  rewrite Z.add_simpl_l. unfold filter_block_bytes. rewrite Hall, <- !app_assoc, bdrop_app, btake_app.
  destruct g as [|x g]; [by apply elem_of_nil in Hk|].
  apply no_false_negative; [|done]. by eapply Forall_lookup_1.
Qed.

Lemma filter_block_matches (ops : list FilterOp) (off : Z) (key : bytes) :
  offsets_grow 0 ops -> (forall ks, blen ks <= blen ops -> filter_fits ks) ->
  blen (Finish (fold_left filter_step ops newFilterBlockBuilder)) < 2 ^ 32 ->
  0 <= off -> (off, key) ∈ recorded 0 ops ->
  Reader_KeyMayMatch
    (newFilterBlockReader (Finish (fold_left filter_step ops newFilterBlockBuilder))) off key = true.
Proof.
  intros Hg Hfit Hsz Hoff Hin.
  destruct (filter_run_inv ops newFilterBlockBuilder 0 0 [] [] []) as (o & groups & cur & [Hr _ Hrec Hn]);
    [|lia|done|].
  { constructor; [by constructor|done|constructor|by repeat constructor]. }
  destruct (Finish_bytes _ _ _ Hr) as (groups' & E & Hgs). rewrite E in *.
  rewrite Forall_forall in Hrec. specialize (Hrec _ Hin). simpl in Hrec.
  apply reader_matches; [done|done|..].
  - destruct Hgs as [ [-> ->] | -> ]; [|done].
    destruct Hrec as (g & Hg' & Hk). exists g. split; [|done].
    apply lookup_app_Some in Hg' as [?|[_ Hg']]; [done|].
    apply list_lookup_singleton_Some in Hg' as [_ <-]. by apply elem_of_nil in Hk.
  - assert (Forall filter_fits (groups ++ [cur])) as Hall
      by (eapply Forall_impl; [exact Hn|]; simpl; intros; apply Hfit; lia).
    destruct Hgs as [ [-> _] | -> ]; [by apply Forall_app in Hall as [? _]|done].
Qed.

(** The filter block has no false negatives.  Whatever blocks and keys a
    table builder announces, with growing block offsets, the finished filter
    block answers "may match" for every key in the block it was added to, for
    any policy that has no false negatives itself. *)
Theorem filter_block_no_false_negatives (ops : list FilterOp) (off : Z) (key : bytes) :
  offsets_grow 0 ops -> (forall ks, blen ks <= blen ops -> filter_fits ks) ->
  blen (Finish (fold_left filter_step ops newFilterBlockBuilder)) < 2 ^ 32 ->
  0 <= off -> (off, key) ∈ recorded 0 ops ->
  Reader_KeyMayMatch
    (newFilterBlockReader (Finish (fold_left filter_step ops newFilterBlockBuilder))) off key = true.
Proof. apply filter_block_matches. Qed.
End FilterBlock.

Lemma filter_block_no_false_negatives_witness :
  let ops := [FStart 0; FKey (str "a"); FKey (str "bc"); FStart 2100; FKey (str "d");
              FStart 9000; FKey []] in
  let p := NewBloomFilterPolicy 10 in
  Reader_KeyMayMatch p
    (newFilterBlockReader (Finish p (fold_left (filter_step p) ops newFilterBlockBuilder)))
    2100 (str "d") = true.
Proof.
  intros ops p.
  refine (@filter_block_no_false_negatives p (Bloom_ok 10 ltac:(lia)) ops 2100 (str "d") _ _ _ _ _).
  - simpl. lia.
  - intros ks Hk. simpl. change (blen ops) with 7 in Hk. lia.
  - vm_compute. reflexivity.
  - lia.
  - simpl. right. right. left.
Defined.
