(* ===== verification/Iterator.v ===== *)
(** include/leveldb/iterator.h and table/iterator.cc: the iterator interface that
    blocks, tables, merges and the database implement, and what it promises: an
    iterator walks a sorted list of entries.  [None] as a result of an operation
    stands for undefined behaviour or a failed assertion. *)

From stdpp Require Import base list sorting strings.
From S2P Require Import Prelude Status Comparator.

#[local] Open Scope Z_scope.

Class Iterator (I : Type) := {
  Valid : I -> bool;
  Seek : I -> bytes -> option I;
  SeekToFirst : I -> option I;
  SeekToLast : I -> option I;
  Next : I -> option I;
  Prev : I -> option I;
  key : I -> bytes;
  value : I -> bytes;
  status : I -> Status;
}.

(** * The sorted list an iterator walks *)

Section Entries.
Context {cmp : Comparator} {cmp_ok : ComparatorOk}.
#[local] Abbreviation compare := (@Compare cmp).

Definition entry_lt (e e' : bytes * bytes) : Prop := compare e.1 e'.1 < 0.

(** The position [Seek] moves to: the number of entries before the target. *)
Fixpoint seek_index (target : bytes) (l : list (bytes * bytes)) : nat :=
  match l with
  | [] => 0
  | e :: l' => if compare e.1 target <? 0 then S (seek_index target l') else 0
  end.

Lemma seek_index_le target l : (seek_index target l <= length l)%nat.
Proof. induction l as [|e l IH]; simpl; [lia|]. bcase; lia. Qed.

Lemma seek_index_before target l i e :
  l !! i = Some e -> (i < seek_index target l)%nat -> compare e.1 target < 0.
Proof.
  revert i. induction l as [|x l IH]; intros i Hi Hlt; [done|]. simpl in Hlt.
  destruct (Z.ltb_spec (compare x.1 target) 0); [|lia].
  destruct i as [|i]; simpl in Hi; [by injection Hi as <-|]. eapply IH; [done|lia].
Qed.

Lemma seek_index_at target l e :
  l !! seek_index target l = Some e -> 0 <= compare e.1 target.
Proof.
  induction l as [|x l IH]; [done|]. simpl.
  destruct (Z.ltb_spec (compare x.1 target) 0); simpl; [done|]. intros [= <-]. lia.
Qed.

Lemma seek_index_find target l :
  l !! seek_index target l = List.find (fun e => 0 <=? compare e.1 target) l.
Proof.
  induction l as [|x l IH]; [done|]. simpl.
  destruct (Z.ltb_spec (compare x.1 target) 0); destruct (Z.leb_spec 0 (compare x.1 target)); [lia|done|done|lia].
Qed.

(** In a sorted list every entry from that position on is at or after the
    target. *)
Lemma seek_index_after target l i e :
  StronglySorted entry_lt l -> l !! i = Some e -> (seek_index target l <= i)%nat ->
  0 <= compare e.1 target.
Proof.
  revert i. induction l as [|x l IH]; intros i Hs Hi Hle; [done|].
  inversion Hs as [|? ? Hs' Hx]; subst. simpl in Hle.
  destruct (Z.ltb_spec (compare x.1 target) 0) as [|Hge].
  - destruct i as [|i]; [lia|]. eapply IH; [done|done|lia].
  - destruct i as [|i]; simpl in Hi; [injection Hi as <-; lia|].
    rewrite Forall_forall in Hx. specialize (Hx e (list_elem_of_lookup_2 _ _ _ Hi)).
    unfold entry_lt in Hx. apply (tc_flip_le compare target e.1), Z.lt_le_incl.
    apply (tc_le_lt_trans compare _ x.1); [by apply (tc_flip_le compare target x.1)|done].
Qed.

(** The position is the only one that separates the two parts. *)
Lemma seek_index_unique target l i :
  (i <= length l)%nat ->
  (forall j e, l !! j = Some e -> (j < i)%nat -> compare e.1 target < 0) ->
  (forall e, l !! i = Some e -> 0 <= compare e.1 target) ->
  seek_index target l = i.
Proof.
  revert i. induction l as [|x l IH]; intros i Hi Hb Ha; simpl in *; [lia|].
  destruct i as [|i].
  - destruct (Z.ltb_spec (compare x.1 target) 0); [|done]. specialize (Ha x eq_refl). lia.
  - pose proof (Hb 0%nat x eq_refl ltac:(lia)). destruct (Z.ltb_spec (compare x.1 target) 0); [|lia].
    f_equal. apply IH; [lia| |done]. intros j e Hj Hlt. apply (Hb (S j) e); [done|lia].
Qed.
End Entries.

(** * What an iterator promises *)

Class IteratorOk (I : Type) `{Iterator I} (cmp : Comparator) := {
  (** [at_pos it l i]: the iterator [it] over the entries [l] is at entry [i], or
      not valid when [i] is the number of entries. *)
  at_pos : I -> list (bytes * bytes) -> nat -> Prop;
  at_pos_le it l i : at_pos it l i -> (i <= length l)%nat;
  at_entry it l i e : at_pos it l i -> l !! i = Some e ->
    Valid it = true /\ key it = e.1 /\ value it = e.2;
  at_end it l : at_pos it l (length l) -> Valid it = false;
  at_status it l i : at_pos it l i -> status it = OK;
  (** Keys are stored with a length of 32 bits. *)
  Seek_ok it l i target : at_pos it l i -> blen target < 2 ^ 32 ->
    exists it', Seek it target = Some it' /\ at_pos it' l (seek_index (cmp := cmp) target l);
  SeekToFirst_ok it l i : at_pos it l i -> exists it', SeekToFirst it = Some it' /\ at_pos it' l 0;
  SeekToLast_ok it l i : at_pos it l i ->
    exists it', SeekToLast it = Some it' /\ at_pos it' l (length l - 1);
  Next_ok it l i : at_pos it l i -> (i < length l)%nat ->
    exists it', Next it = Some it' /\ at_pos it' l (S i);
  Prev_ok it l i : at_pos it l i -> (i < length l)%nat ->
    exists it', Prev it = Some it' /\ at_pos it' l (match i with O => length l | S j => j end);
}.

(** * [EmptyIterator] *)

Record EmptyIterator := mkEmptyIterator { empty_status : Status }.
Definition NewEmptyIterator : EmptyIterator := mkEmptyIterator OK.
Definition NewErrorIterator (s : Status) : EmptyIterator := mkEmptyIterator s.

#[export] Instance EmptyIterator_iterator : Iterator EmptyIterator := {|
  Valid _ := false; Seek it _ := Some it; SeekToFirst it := Some it; SeekToLast it := Some it;
  Next _ := None; Prev _ := None; key _ := []; value _ := []; status := empty_status |}.

(** * Walks *)

Inductive IterOp := OpSeek (target : bytes) | OpSeekToFirst | OpSeekToLast | OpNext | OpPrev.

Definition observe {I} `{Iterator I} (it : I) : option (bytes * bytes) :=
  if Valid it then Some (key it, value it) else None.

Definition iter_step {I} `{Iterator I} (it : I) (op : IterOp) : option I :=
  match op with
  | OpSeek target => Seek it target
  | OpSeekToFirst => SeekToFirst it
  | OpSeekToLast => SeekToLast it
  | OpNext => Next it
  | OpPrev => Prev it
  end.

(** The same on a position in a list; [Next] and [Prev] require a valid
    position, [Seek] a target of less than 2^32 bytes. *)
Definition list_step (cmp : Comparator) (l : list (bytes * bytes)) (i : nat) (op : IterOp)
  : option nat :=
  match op with
  | OpSeek target => if blen target <? 2 ^ 32 then Some (seek_index (cmp := cmp) target l) else None
  | OpSeekToFirst => Some 0%nat
  | OpSeekToLast => Some (length l - 1)%nat
  | OpNext => if (i <? length l)%nat then Some (S i) else None
  | OpPrev => if (i <? length l)%nat then Some (match i with O => length l | S j => j end) else None
  end.

(** What is seen after each operation of a walk. *)
Fixpoint iter_trace {I} `{Iterator I} (it : I) (ops : list IterOp)
  : option (list (option (bytes * bytes))) :=
  match ops with
  | [] => Some []
  | op :: ops' =>
      it' ← iter_step it op; rest ← iter_trace it' ops'; Some (observe it' :: rest)
  end.

Fixpoint list_trace (cmp : Comparator) (l : list (bytes * bytes)) (i : nat) (ops : list IterOp)
  : option (list (option (bytes * bytes))) :=
  match ops with
  | [] => Some []
  | op :: ops' =>
      i' ← list_step cmp l i op; rest ← list_trace cmp l i' ops'; Some (l !! i' :: rest)
  end.

(** A relation with the positions of a list that the steps [P] keep makes the walks
    of such steps the same. *)
Lemma trace_ok {I} `{Iterator I} (cmp : Comparator) (l : list (bytes * bytes)) (R : I -> nat -> Prop) (P : IterOp -> Prop) :
  (forall it i, R it i -> observe it = l !! i) ->
  (forall it i op j, R it i -> P op -> list_step cmp l i op = Some j -> exists it', iter_step it op = Some it' /\ R it' j) ->
  forall ops it i t, R it i -> Forall P ops -> list_trace cmp l i ops = Some t -> iter_trace it ops = Some t.
Proof.
  intros Ho Hst. induction ops as [|op ops IH]; intros it i t Ha HP Ht; [done|]. simpl in *. apply Forall_cons in HP as [Hp HP].
  destruct (list_step cmp l i op) as [j|] eqn:Ej; [|done]. simpl in Ht.
  destruct (Hst _ _ _ _ Ha Hp Ej) as (it' & -> & Ha'). simpl.
  destruct (list_trace cmp l j ops) as [rest|] eqn:Er; [|done]. simpl in Ht.
  rewrite (IH _ _ _ Ha' HP Er). simpl. by rewrite (Ho _ _ Ha').
Qed.

Section Walks.
Context {I : Type} `{!Iterator I} {cmp : Comparator} `{!IteratorOk I cmp}.

Lemma observe_at it l i : at_pos it l i -> observe it = l !! i.
Proof.
  intros Ha. unfold observe. destruct (l !! i) as [e|] eqn:E.
  - destruct (at_entry _ _ _ _ Ha E) as (-> & -> & ->). by destruct e.
  - apply lookup_ge_None in E. pose proof (at_pos_le _ _ _ Ha).
    replace i with (length l) in Ha by lia. by rewrite (at_end _ _ Ha).
Qed.

Lemma iter_step_ok it l i op j : at_pos it l i -> list_step cmp l i op = Some j ->
  exists it', iter_step it op = Some it' /\ at_pos it' l j.
Proof.
  intros Ha. destruct op as [target| | | |]; simpl.
  - destruct (Z.ltb_spec (blen target) (2 ^ 32)); [|done]. intros [= <-]. eapply Seek_ok; done.
  - intros [= <-]. eapply SeekToFirst_ok; done.
  - intros [= <-]. eapply SeekToLast_ok; done.
  - destruct (Nat.ltb_spec i (length l)); [|done]. intros [= <-]. by apply Next_ok.
  - destruct (Nat.ltb_spec i (length l)); [|done]. intros [= <-]. by apply Prev_ok.
Qed.

Lemma iter_trace_ok ops : forall it l i t, at_pos it l i -> list_trace cmp l i ops = Some t ->
  iter_trace it ops = Some t.
Proof.
  intros it l i t Ha. apply (trace_ok cmp l (fun it i => at_pos it l i) (fun _ => True)).
  - intros it' j. apply observe_at.
  - intros it' j op k Ha' _. by apply iter_step_ok.
  - done.
  - by apply Forall_true.
Qed.
End Walks.

(** * The reference iterator: a list and a position *)

Record ListIter := mkListIter { li_entries : list (bytes * bytes); li_pos : nat }.

Definition li_step (cmp : Comparator) (it : ListIter) (op : IterOp) : option ListIter :=
  mkListIter (li_entries it) <$> list_step cmp (li_entries it) (li_pos it) op.

#[export] Instance ListIter_iterator (cmp : Comparator) : Iterator ListIter := {|
  Valid it := (li_pos it <? length (li_entries it))%nat;
  Seek it target := li_step cmp it (OpSeek target);
  SeekToFirst it := li_step cmp it OpSeekToFirst;
  SeekToLast it := li_step cmp it OpSeekToLast;
  Next it := li_step cmp it OpNext;
  Prev it := li_step cmp it OpPrev;
  key it := default [] (fst <$> li_entries it !! li_pos it);
  value it := default [] (snd <$> li_entries it !! li_pos it);
  status _ := OK |}.

#[export] Instance ListIter_ok (cmp : Comparator) : @IteratorOk ListIter (ListIter_iterator cmp) cmp.
Proof.
  refine (@Build_IteratorOk ListIter (ListIter_iterator cmp) cmp
    (fun it l i => it = mkListIter l i /\ (i <= length l)%nat) _ _ _ _ _ _ _ _ _).
  - by intros it l i [_ ?].
  - intros it l i e [-> _] He. simpl. rewrite He. pose proof (lookup_lt_Some _ _ _ He).
    split; [by apply Nat.ltb_lt|done].
  - intros it l [-> _]. simpl. apply Nat.ltb_irrefl.
  - done.
  - intros it l i target [-> _] Ht. cbn [Seek ListIter_iterator]. unfold li_step. cbn [list_step li_entries]. destruct (Z.ltb_spec (blen target) (2 ^ 32)); [|lia].
    eexists. split; [reflexivity|]. split; [done|]. apply seek_index_le.
  - intros it l i [-> _]. eexists. split; [reflexivity|]. split; [done|lia].
  - intros it l i [-> _]. eexists. split; [reflexivity|]. split; [done|lia].
  - intros it l i [-> _] Hi. simpl. unfold li_step. simpl. destruct (Nat.ltb_spec i (length l)); [|lia].
    eexists. split; [reflexivity|]. split; [done|lia].
  - intros it l i [-> _] Hi. simpl. unfold li_step. simpl. destruct (Nat.ltb_spec i (length l)); [|lia].
    eexists. split; [reflexivity|]. split; [done|]. destruct i; lia.
Defined.
