(* ===== verification/Format.v ===== *)
(** table/format.h, table/format.cc: block handles, the footer of a table file,
    and reading a block with its trailer.  Snappy, called through
    port/port_stdcxx.h, is a parameter. *)

From stdpp Require Import base list strings.
From S2P Require Import Prelude Status Coding Crc32c Env.
From Stdlib Require Import Strings.Byte.

#[local] Open Scope Z_scope.

(** * [BlockHandle] *)

Definition kMaxEncodedLength : Z := 10 + 10.

Record BlockHandle := mkHandle { handle_offset : Z; handle_size : Z }.

#[export] Instance BlockHandle_eq_dec : EqDecision BlockHandle.
Proof. solve_decision. Defined.

Definition newBlockHandle : BlockHandle := mkHandle (u64 (Z.lnot 0)) (u64 (Z.lnot 0)).

Definition BlockHandle_EncodeTo (h : BlockHandle) (dst : bytes) : bytes :=
  PutVarint64 (PutVarint64 dst (handle_offset h)) (handle_size h).

(** The status, the handle and the input after. *)
Definition BlockHandle_DecodeFrom (h : BlockHandle) (input : bytes) : Status * BlockHandle * bytes :=
  match GetVarint64 input with
  | None => (Corruption (str "bad block handle") [], h, input)
  | Some (offset, input) =>
      match GetVarint64 input with
      | None => (Corruption (str "bad block handle") [], mkHandle offset (handle_size h), input)
      | Some (size, input) => (OK, mkHandle offset size, input)
      end
  end.

(** * [Footer] *)

Definition kEncodedLength : Z := 2 * kMaxEncodedLength + 8.
Definition kTableMagicNumber : Z := 0xdb4775248b80fb57.
Definition kBlockTrailerSize : Z := 5.

Record Footer := mkFooter { metaindex_handle_ : BlockHandle; index_handle_ : BlockHandle }.
Definition newFooter : Footer := mkFooter newBlockHandle newBlockHandle.

Definition Footer_EncodeTo (f : Footer) (dst : bytes) : bytes :=
  let dst := BlockHandle_EncodeTo (metaindex_handle_ f) dst in
  let dst := BlockHandle_EncodeTo (index_handle_ f) dst in
  let dst := bresize (2 * kMaxEncodedLength) dst in
  let dst := PutFixed32 dst (Z.land kTableMagicNumber 0xffffffff) in
  PutFixed32 dst (u32 (Z.shiftr kTableMagicNumber 32)).

(** The magic number is read at a fixed place of the input, whatever its length:
    [None] when that is out of its bounds. *)
Definition Footer_DecodeFrom (f : Footer) (input : bytes) : option (Status * Footer * bytes) :=
  if blen input <? kEncodedLength then None
  else
    let magic_ptr := bdrop (kEncodedLength - 8) input in
    let magic_lo := DecodeFixed32 magic_ptr in
    let magic_hi := DecodeFixed32 (bdrop 4 magic_ptr) in
    let magic := Z.lor (u64 (Z.shiftl magic_hi 32)) magic_lo in
    if negb (magic =? kTableMagicNumber) then
      Some (Corruption (str "not an sstable (bad magic number)") [], f, input)
    else
      let '(result, mh, input1) := BlockHandle_DecodeFrom (metaindex_handle_ f) input in
      if ok result then
        let '(result, ih, input2) := BlockHandle_DecodeFrom (index_handle_ f) input1 in
        Some (result, mkFooter mh ih, if ok result then bdrop 8 magic_ptr else input2)
      else Some (result, mkFooter mh (index_handle_ f), input1).

(** * [ReadBlock] *)

Definition kNoCompression : Z := 0.
Definition kSnappyCompression : Z := 1.

(** port::Snappy_Compress, Snappy_GetUncompressedLength, Snappy_Uncompress: [None]
    where they return false. *)
Class Snappy := {
  Snappy_Compress : bytes -> option bytes;
  Snappy_GetUncompressedLength : bytes -> option Z;
  Snappy_Uncompress : bytes -> option bytes;
}.

(** The library's contract: what it compresses, it uncompresses. *)
Class SnappyOk `{Snappy} := {
  snappy_roundtrip x y : Snappy_Compress x = Some y ->
    Snappy_GetUncompressedLength y = Some (blen x) /\ Snappy_Uncompress y = Some x;
}.

(** Without the library (HAVE_SNAPPY 0) all three return false. *)
Definition no_snappy : Snappy := {|
  Snappy_Compress _ := None; Snappy_GetUncompressedLength _ := None; Snappy_Uncompress _ := None |}.

#[export] Instance no_snappy_ok : @SnappyOk no_snappy.
Proof. constructor. discriminate. Qed.

Record BlockContents := mkContents { data : bytes; cachable : bool; heap_allocated : bool }.
Definition no_contents : BlockContents := mkContents [] false false.

Section ReadBlock.
Context {F : Type} `{RandomAccessFile F} `{Checksum} `{Snappy}.
(** Whether [Read] hands out a pointer into memory of the file (a mapped file)
    instead of filling the caller's buffer. *)
Context (mapped : F -> bool).

Definition ReadBlock (file : F) (verify_checksums : bool) (handle : BlockHandle)
  : Status * BlockContents :=
  let n := handle_size handle in
  let '(s, contents) := rRead file (handle_offset handle) (u64 (n + kBlockTrailerSize)) in
  if negb (ok s) then (s, no_contents)
  else if negb (blen contents =? u64 (n + kBlockTrailerSize)) then
    (Corruption (str "truncated block read") [], no_contents)
  else if verify_checksums &&
          negb (crc32c_Value (btake (n + 1) contents) =?
                Unmask (DecodeFixed32 (bdrop (n + 1) contents))) then
    (Corruption (str "block checksum mismatch") [], no_contents)
  else
    let t := sz (byte_at contents n) in
    if t =? kNoCompression then
      (OK, mkContents (btake n contents) (negb (mapped file)) (negb (mapped file)))
    else if t =? kSnappyCompression then
      match Snappy_GetUncompressedLength (btake n contents), Snappy_Uncompress (btake n contents) with
      | Some ulength, Some ubuf => (OK, mkContents (btake ulength ubuf) true true)
      | _, _ => (Corruption (str "corrupted compressed block contents") [], no_contents)
      end
    else (Corruption (str "bad block type") [], no_contents).
End ReadBlock.

(** * Handles and footers decode to what was encoded *)

Definition handle_fits (h : BlockHandle) : Prop :=
  0 <= handle_offset h < 2 ^ 64 /\ 0 <= handle_size h < 2 ^ 64.

Definition handle_bytes (h : BlockHandle) : bytes :=
  EncodeVarint64 (handle_offset h) ++ EncodeVarint64 (handle_size h).

Lemma BlockHandle_EncodeTo_app h dst : BlockHandle_EncodeTo h dst = dst ++ handle_bytes h.
Proof. unfold BlockHandle_EncodeTo, PutVarint64, handle_bytes. by rewrite app_assoc. Qed.

Lemma BlockHandle_decode h h0 rest : handle_fits h ->
  BlockHandle_DecodeFrom h0 (handle_bytes h ++ rest) = (OK, h, rest).
Proof.
  intros [Ho Hs]. unfold BlockHandle_DecodeFrom, handle_bytes.
  rewrite <- app_assoc, GetVarint64_encode, GetVarint64_encode by done. by destruct h.
Qed.

Lemma blen_handle_bytes h : handle_fits h -> 2 <= blen (handle_bytes h) <= kMaxEncodedLength.
Proof.
  intros [Ho Hs]. unfold handle_bytes. rewrite blen_app, !EncodeVarint64_9 by done.
  pose proof (EncodeVarint64_loop_length 9 (handle_offset h)).
  pose proof (EncodeVarint64_loop_length 9 (handle_size h)). unfold kMaxEncodedLength. lia.
Qed.

Definition footer_padding (f : Footer) : bytes :=
  replicate (Z.to_nat (2 * kMaxEncodedLength) -
    length (handle_bytes (metaindex_handle_ f) ++ handle_bytes (index_handle_ f))) x00.
Definition magic_bytes : bytes :=
  EncodeFixed32 (Z.land kTableMagicNumber 0xffffffff) ++
  EncodeFixed32 (u32 (Z.shiftr kTableMagicNumber 32)).
Definition footer_bytes (f : Footer) : bytes :=
  handle_bytes (metaindex_handle_ f) ++ handle_bytes (index_handle_ f) ++ footer_padding f ++ magic_bytes.

Lemma Footer_EncodeTo_bytes f :
  handle_fits (metaindex_handle_ f) -> handle_fits (index_handle_ f) ->
  Footer_EncodeTo f [] = footer_bytes f.
Proof.
  intros Hm Hi. unfold Footer_EncodeTo, PutFixed32. rewrite !BlockHandle_EncodeTo_app.
  simpl app. unfold bresize. rewrite btake_all.
  - unfold footer_bytes, footer_padding, magic_bytes. by rewrite <- !app_assoc.
  - rewrite blen_app. pose proof (blen_handle_bytes _ Hm). pose proof (blen_handle_bytes _ Hi). lia.
Qed.

Lemma blen_footer_bytes f :
  handle_fits (metaindex_handle_ f) -> handle_fits (index_handle_ f) ->
  blen (handle_bytes (metaindex_handle_ f) ++ handle_bytes (index_handle_ f) ++ footer_padding f) =
    kEncodedLength - 8 /\ blen (footer_bytes f) = kEncodedLength.
Proof.
  intros Hm Hi. pose proof (blen_handle_bytes _ Hm). pose proof (blen_handle_bytes _ Hi).
  assert (E : blen (handle_bytes (metaindex_handle_ f) ++ handle_bytes (index_handle_ f) ++
    footer_padding f) = kEncodedLength - 8).
  { rewrite app_assoc, blen_app. unfold footer_padding. unfold blen at 2.
    rewrite length_replicate. rewrite blen_app. unfold kEncodedLength, kMaxEncodedLength in *.
    rewrite length_app. unfold blen in *. lia. }
  split; [done|]. unfold footer_bytes. rewrite !app_assoc, <- (app_assoc _ _ (footer_padding f)).
  rewrite blen_app, E. done.
Qed.

(** The footer at the end of a table is read back. *)
Lemma Footer_roundtrip f f0 rest :
  handle_fits (metaindex_handle_ f) -> handle_fits (index_handle_ f) ->
  Footer_DecodeFrom f0 (Footer_EncodeTo f [] ++ rest) = Some (OK, f, rest).
Proof.
  intros Hm Hi. rewrite Footer_EncodeTo_bytes by done.
  destruct (blen_footer_bytes f Hm Hi) as [H40 H48]. pose proof (blen_nonneg rest).
  unfold Footer_DecodeFrom. rewrite blen_app, H48.
  destruct (Z.ltb_spec (kEncodedLength + blen rest) kEncodedLength); [lia|].
  assert (E : bdrop (kEncodedLength - 8) (footer_bytes f ++ rest) = magic_bytes ++ rest).
  { unfold footer_bytes. rewrite !app_assoc, <- (app_assoc _ _ (footer_padding f)), <- app_assoc.
    by apply bdrop_app_n. }
  rewrite E.
  assert (Z.lor (u64 (Z.shiftl (DecodeFixed32 (bdrop 4 (magic_bytes ++ rest))) 32))
    (DecodeFixed32 (magic_bytes ++ rest)) = kTableMagicNumber) as ->.
  { unfold magic_bytes. rewrite <- app_assoc, (bdrop_app_n 4) by apply EncodeFixed32_length.
    by rewrite !DecodeFixed32_app. }
  rewrite Z.eqb_refl. cbn [negb]. unfold footer_bytes. rewrite <- !app_assoc.
  rewrite (BlockHandle_decode _ _ _ Hm). cbn [ok]. rewrite (BlockHandle_decode _ _ _ Hi). cbn [ok].
  rewrite (bdrop_app_n 8 magic_bytes) by done. by destruct f.
Qed.

(** * Stored blocks *)

Section Stored.
Context {F : Type} `{RandomAccessFileOk F} `{Checksum} `{SnappyOk}.
Context (mapped : F -> bool).

(** A block as it is stored: contents, type and checksum. *)
Definition stored_block (type : Z) (contents : bytes) : bytes :=
  contents ++ [zb type] ++ EncodeFixed32 (Mask (crc32c_Value (contents ++ [zb type]))).

(** [contents] of type [type] stand for the block [raw]. *)
Definition encodes (type : Z) (contents raw : bytes) : Prop :=
  type = kNoCompression /\ contents = raw \/
  type = kSnappyCompression /\ Snappy_Compress raw = Some contents.

Lemma blen_stored_block type contents :
  blen (stored_block type contents) = blen contents + kBlockTrailerSize.
Proof. unfold stored_block. rewrite !blen_app, EncodeFixed32_length, blen_cons, blen_nil. done. Qed.

(** [ReadBlock] at the handle of a stored block returns the block. *)
Lemma ReadBlock_stored file verify type contents raw pre post :
  rcontents file = pre ++ stored_block type contents ++ post ->
  encodes type contents raw -> blen pre + blen contents + kBlockTrailerSize < 2 ^ 64 ->
  exists c h, ReadBlock mapped file verify (mkHandle (blen pre) (blen contents)) =
    (OK, mkContents raw c h).
Proof.
  intros E Henc Hsz. pose proof (blen_nonneg pre). pose proof (blen_nonneg contents).
  pose proof (blen_stored_block type contents) as Hb.
  unfold ReadBlock. cbn [handle_size handle_offset]. unfold kBlockTrailerSize in *.
  rewrite u64_small by lia.
  rewrite (rRead_ok file (blen pre) (blen contents + 5)) by
    (try lia; rewrite E, blen_app; pose proof (blen_nonneg (stored_block type contents ++ post)); lia).
  rewrite E, bdrop_app, (btake_app_n _ (stored_block type contents)) by done.
  cbn [ok negb]. rewrite Hb, Z.eqb_refl. cbn [negb].
  assert (Hc : btake (blen contents + 1) (stored_block type contents) = contents ++ [zb type]).
  { unfold stored_block. rewrite app_assoc. apply btake_app_n. rewrite blen_app. done. }
  assert (Hm : DecodeFixed32 (bdrop (blen contents + 1) (stored_block type contents)) =
    Mask (crc32c_Value (contents ++ [zb type]))).
  { unfold stored_block. rewrite app_assoc, bdrop_app_n by (rewrite blen_app; done).
    rewrite <- (app_nil_r (EncodeFixed32 _)), DecodeFixed32_app. apply Z.mod_small, Mask_range. }
  rewrite Hc, Hm, Unmask_Mask, Z.eqb_refl, andb_false_r
    by (apply crc32c_Extend_range; lia).
  assert (Ht : byte_at (stored_block type contents) (blen contents) = zb type).
  { unfold stored_block. rewrite byte_at_app_r by lia. by rewrite Z.sub_diag. }
  assert (Hd : btake (blen contents) (stored_block type contents) = contents) by apply btake_app.
  rewrite Ht, Hd. destruct Henc as [[-> ->]|[-> Hs]]; simpl; [eauto|].
  destruct (snappy_roundtrip _ _ Hs) as [-> ->]. rewrite btake_all by lia. eauto.
Qed.
End Stored.
