(* ===== verification/Block.v ===== *)
(** table/block_builder.{h,cc}, table/block.{h,cc}: the blocks of a table, their
    builder and their iterator.  A block is a sequence of entries, each with its
    whole key (the builder never shares a prefix), followed by the array of the
    restart points and its length. *)

From stdpp Require Import base list option strings.
From S2P Require Import Prelude Status Coding Comparator Iterator Format.
From Stdlib Require Import Strings.Byte.

#[local] Open Scope Z_scope.

(** * [BlockBuilder] *)

Record BlockBuilder := mkBlockBuilder {
  buffer_ : bytes;
  restarts_ : list Z;
  counter_ : Z;
  finished_ : bool;
  last_key_ : bytes;
}.

Definition newBlockBuilder : BlockBuilder := mkBlockBuilder [] [0] 0 false [].

Definition BlockBuilder_Reset (b : BlockBuilder) : BlockBuilder := mkBlockBuilder [] [0] 0 false [].

Definition CurrentSizeEstimate (b : BlockBuilder) : Z :=
  u64 (blen (buffer_ b) + blen (restarts_ b) * 4 + 4).

Definition BlockBuilder_empty (b : BlockBuilder) : bool := blen (buffer_ b) =? 0.

Definition BlockBuilder_Finish (b : BlockBuilder) : bytes * BlockBuilder :=
  let buffer := fold_left PutFixed32 (restarts_ b) (buffer_ b) in
  let buffer := PutFixed32 buffer (u32 (blen (restarts_ b))) in
  (buffer, mkBlockBuilder buffer (restarts_ b) (counter_ b) true (last_key_ b)).

(** The loop that would count the shared prefix is commented out in the source:
    [shared] stays 0.  The assertions (not finished, keys in increasing order)
    are preconditions. *)
Definition BlockBuilder_Add (block_restart_interval : Z) (b : BlockBuilder) (key value : bytes)
  : BlockBuilder :=
  let shared := 0 in
  let '(restarts, counter) :=
    if counter_ b <? block_restart_interval then (restarts_ b, counter_ b)
    else (restarts_ b ++ [u32 (blen (buffer_ b))], 0) in
  let non_shared := blen key - shared in
  let buffer := PutVarint32 (buffer_ b) shared in
  let buffer := PutVarint32 buffer (u32 non_shared) in
  let buffer := PutVarint32 buffer (u32 (blen value)) in
  let buffer := buffer ++ btake non_shared (bdrop shared key) in
  let buffer := buffer ++ value in
  let last_key := btake shared (last_key_ b) ++ btake non_shared (bdrop shared key) in
  mkBlockBuilder buffer restarts (i32 (counter + 1)) (finished_ b) last_key.

(** * [Block] *)

(** [size_] 0 marks an error; [data_] keeps all bytes. *)
Record Block := mkBlock { block_data : bytes; block_size : Z; restart_offset_ : Z }.

Definition NumRestarts (data : bytes) (size : Z) : Z := DecodeFixed32 (bdrop (size - 4) data).

Definition newBlock (contents : bytes) : Block :=
  let size := blen contents in
  if size <? 4 then mkBlock contents 0 0
  else
    let max_restarts_allowed := (size - 4) / 4 in
    if max_restarts_allowed <? NumRestarts contents size then mkBlock contents 0 0
    else mkBlock contents size (u32 (size - (1 + NumRestarts contents size) * 4)).

(** * [DecodeEntry] *)

(** On the bytes from [p] to [limit]: [shared], [non_shared], [value_length] and
    the bytes from the key delta on.  The last check adds in 32 bits. *)
Definition DecodeEntry (p : bytes) : option (Z * Z * Z * bytes) :=
  if blen p <? 3 then None
  else
    let shared := bz (byte_at p 0) in
    let non_shared := bz (byte_at p 1) in
    let value_length := bz (byte_at p 2) in
    '(shared, non_shared, value_length, p) ←
      (if Z.lor (Z.lor shared non_shared) value_length <? 128 then
         Some (shared, non_shared, value_length, bdrop 3 p)
       else
         '(shared, p) ← GetVarint32Ptr p;
         '(non_shared, p) ← GetVarint32Ptr p;
         '(value_length, p) ← GetVarint32Ptr p;
         Some (shared, non_shared, value_length, p));
    if u32 (blen p) <? u32 (non_shared + value_length) then None
    else Some (shared, non_shared, value_length, p).

(** * [Block::Iter] *)

(** [value_] is a slice of the block: its offset and length; [None] when it
    points elsewhere (a fresh or a cleared slice). *)
Record Iter := mkIter {
  it_data : bytes;
  it_restarts : Z;
  num_restarts_ : Z;
  current_ : Z;
  restart_index_ : Z;
  key_ : bytes;
  value_ : option (Z * Z);
  status_ : Status;
}.

Definition newIter (data : bytes) (restarts num_restarts : Z) : Iter :=
  mkIter data restarts num_restarts restarts num_restarts [] None OK.

Definition NextEntryOffset (it : Iter) : option Z :=
  '(off, len) ← value_ it; Some (u32 (off + len)).

Definition GetRestartPoint (it : Iter) (index : Z) : option Z :=
  if index <? num_restarts_ it
  then Some (DecodeFixed32 (bdrop (it_restarts it + index * 4) (it_data it)))
  else None.

Definition SeekToRestartPoint (it : Iter) (index : Z) : option Iter :=
  offset ← GetRestartPoint it index;
  Some (mkIter (it_data it) (it_restarts it) (num_restarts_ it) (current_ it) index []
          (Some (offset, 0)) (status_ it)).

Definition CorruptionError (it : Iter) : Iter :=
  mkIter (it_data it) (it_restarts it) (num_restarts_ it) (it_restarts it) (num_restarts_ it) [] None
    (Corruption (str "bad entry in block") []).

(** [data_ + from .. data_ + restarts_]. *)
Definition entries_from (it : Iter) (from : Z) : bytes :=
  btake (it_restarts it - from) (bdrop from (it_data it)).

(** The loop that moves [restart_index_] up to the entry at [current]. *)
Fixpoint advance_restart (fuel : nat) (it : Iter) (current restart_index : Z) : option Z :=
  match fuel with
  | O => None
  | S fuel' =>
      if restart_index + 1 <? num_restarts_ it then
        point ← GetRestartPoint it (restart_index + 1);
        if point <? current then advance_restart fuel' it current (restart_index + 1)
        else Some restart_index
      else Some restart_index
  end.

Definition restart_fuel (it : Iter) : nat := S (Z.to_nat (num_restarts_ it)).

(** [None] also where the decoded lengths, whose sum wrapped around, would lead
    out of the block. *)
Definition ParseNextKey (it : Iter) : option (bool * Iter) :=
  current ← NextEntryOffset it;
  if it_restarts it <=? current then
    Some (false, mkIter (it_data it) (it_restarts it) (num_restarts_ it) (it_restarts it)
                   (num_restarts_ it) (key_ it) (value_ it) (status_ it))
  else
    match DecodeEntry (entries_from it current) with
    | None => Some (false, CorruptionError it)
    | Some (shared, non_shared, value_length, p) =>
        if blen (key_ it) <? shared then Some (false, CorruptionError it)
        else if blen p <? non_shared + value_length then None
        else
          let key := btake shared (key_ it) ++ btake non_shared p in
          let value := Some (it_restarts it - blen p + non_shared, value_length) in
          restart_index ← advance_restart (restart_fuel it) it current (restart_index_ it);
          Some (true, mkIter (it_data it) (it_restarts it) (num_restarts_ it) current restart_index
                        key value (status_ it))
    end.

Definition Iter_Valid (it : Iter) : bool := current_ it <? it_restarts it.
Definition Iter_key (it : Iter) : bytes := key_ it.
Definition Iter_value (it : Iter) : bytes :=
  match value_ it with
  | Some (off, len) => btake len (bdrop off (it_data it))
  | None => []
  end.

Definition Iter_Next (it : Iter) : option Iter := snd <$> ParseNextKey it.

Definition scan_fuel (it : Iter) : nat := S (length (it_data it)).

(** [do {} while (ParseNextKey() && NextEntryOffset() < limit)] *)
Fixpoint skip_until (fuel : nat) (it : Iter) (limit : Z) : option Iter :=
  match fuel with
  | O => None
  | S fuel' =>
      '(more, it) ← ParseNextKey it;
      if more : bool then
        next ← NextEntryOffset it;
        if next <? limit then skip_until fuel' it limit else Some it
      else Some it
  end.

(** The loop that scans backwards to a restart point before [original]: [None]
    inside when there is none. *)
Fixpoint restart_before (fuel : nat) (it : Iter) (original index : Z) : option (option Z) :=
  match fuel with
  | O => None
  | S fuel' =>
      point ← GetRestartPoint it index;
      if original <=? point then
        if index =? 0 then Some None else restart_before fuel' it original (index - 1)
      else Some (Some index)
  end.

Definition Iter_Prev (it : Iter) : option Iter :=
  let original := current_ it in
  found ← restart_before (restart_fuel it) it original (restart_index_ it);
  match found with
  | None =>
      Some (mkIter (it_data it) (it_restarts it) (num_restarts_ it) (it_restarts it)
              (num_restarts_ it) (key_ it) (value_ it) (status_ it))
  | Some index =>
      it ← SeekToRestartPoint it index;
      skip_until (scan_fuel it) it original
  end.

Definition Iter_SeekToFirst (it : Iter) : option Iter :=
  it ← SeekToRestartPoint it 0; snd <$> ParseNextKey it.

Definition Iter_SeekToLast (it : Iter) : option Iter :=
  it ← SeekToRestartPoint it (num_restarts_ it - 1);
  skip_until (scan_fuel it) it (it_restarts it).

Section Seek.
Context (comparator_ : Comparator).

(** The binary search in the restart array: the restart point to scan from, or
    the iterator after a corruption. *)
Fixpoint seek_restart (fuel : nat) (it : Iter) (target : bytes) (left right : Z)
  : option (Iter + Z) :=
  match fuel with
  | O => None
  | S fuel' =>
      if left <? right then
        let mid := u32 (left + right + 1) / 2 in
        region_offset ← GetRestartPoint it mid;
        match DecodeEntry (entries_from it region_offset) with
        | None => Some (inl (CorruptionError it))
        | Some (shared, non_shared, _, key_ptr) =>
            if negb (shared =? 0) then Some (inl (CorruptionError it))
            else if blen key_ptr <? non_shared then None
            else
              let mid_key := btake non_shared key_ptr in
              if @Compare comparator_ mid_key target <? 0 then seek_restart fuel' it target mid right
              else seek_restart fuel' it target left (mid - 1)
        end
      else Some (inr left)
  end.

(** [while (true) if (!ParseNextKey() || Compare(key_, target) >= 0) return;] *)
Fixpoint seek_scan (fuel : nat) (it : Iter) (target : bytes) : option Iter :=
  match fuel with
  | O => None
  | S fuel' =>
      '(more, it) ← ParseNextKey it;
      if negb more || (0 <=? @Compare comparator_ (key_ it) target) then Some it
      else seek_scan fuel' it target
  end.

Definition Iter_Seek (it : Iter) (target : bytes) : option Iter :=
  found ← seek_restart (restart_fuel it) it target 0 (num_restarts_ it - 1);
  match found with
  | inl it => Some it
  | inr left_ =>
      it ← SeekToRestartPoint it left_;
      seek_scan (scan_fuel it) it target
  end.

#[export] Instance Iter_iterator : Iterator Iter := {|
  Valid := Iter_Valid; Seek := Iter_Seek; SeekToFirst := Iter_SeekToFirst;
  SeekToLast := Iter_SeekToLast; Next := Iter_Next; Prev := Iter_Prev;
  key := Iter_key; value := Iter_value; status := status_ |}.
End Seek.

(** [Block::NewIterator]: the iterator, or the empty iterator with a status. *)
Definition NewIterator (b : Block) : EmptyIterator + Iter :=
  if block_size b <? 4 then inl (NewErrorIterator (Corruption (str "bad block contents") []))
  else
    let num_restarts := NumRestarts (block_data b) (block_size b) in
    if num_restarts =? 0 then inl NewEmptyIterator
    else inr (newIter (block_data b) (restart_offset_ b) num_restarts).

(** The sum of two lengths that wraps around passes the check of [DecodeEntry]:
    a corrupted entry can claim a value that ends before the key it follows. *)
Lemma DecodeEntry_overflow :
  DecodeEntry ([x00] ++ EncodeVarint32 (2 ^ 32 - 1) ++ [x01; x61]) =
  Some (0, 2 ^ 32 - 1, 1, [x61]).
Proof. vm_compute. reflexivity. Qed.
