(* ===== verification/BlockProofs.v ===== *)
(** The blocks of table/block.h hold what the builder of table/block_builder.cc
    put into them: the iterator over a finished block walks the entries that
    were added. *)

From stdpp Require Import base list option sorting strings.
From S2P Require Import Prelude Status Coding Comparator Iterator Format Block.
From Stdlib Require Import Strings.Byte.

#[local] Open Scope Z_scope.

(** * Entries as bytes *)

Definition entry_bytes (e : bytes * bytes) : bytes :=
  EncodeVarint32 0 ++ EncodeVarint32 (blen e.1) ++ EncodeVarint32 (blen e.2) ++ e.1 ++ e.2.

Definition body (l : list (bytes * bytes)) : bytes := concat (map entry_bytes l).

(** The offset of entry [i]. *)
Definition off (l : list (bytes * bytes)) (i : nat) : Z := blen (body (take i l)).

Lemma body_app l k : body (l ++ k) = body l ++ body k.
Proof. unfold body. by rewrite map_app, concat_app. Qed.

Lemma varint32_cases v : 0 <= v < 2 ^ 32 ->
  v < 128 /\ EncodeVarint32 v = [zb v] \/
  exists b c l, EncodeVarint32 v = b :: c :: l /\ 128 <= bz b.
Proof.
  intros Hv. rewrite EncodeVarint32_loop by done. cbn [EncodeVarint64_loop].
  destruct (Z.leb_spec 128 v); [right|left; done].
  assert (Hb : 128 <= bz (zb (Z.lor v 128))).
  { rewrite cont_byte by lia. pose proof (Z.mod_pos_bound v 128). lia. }
  destruct (128 <=? Z.shiftr v 7); eauto.
Qed.

Lemma lor_ge_128 a b : 0 <= a -> 128 <= b < 256 -> 128 <= Z.lor a b.
Proof.
  intros Ha Hb. rewrite Z.lor_comm.
  assert (0 <= Z.ldiff a b) by (apply Z.ldiff_nonneg; left; lia).
  replace (Z.lor b a) with (b + Z.ldiff a b); [lia|].
  rewrite Z.add_nocarry_lxor by (apply Z.bits_inj'; intros n Hn;
    rewrite Z.land_spec, Z.ldiff_spec, Z.bits_0; by destruct (Z.testbit a n), (Z.testbit b n)).
  apply Z.bits_inj'. intros n Hn. rewrite Z.lxor_spec, Z.ldiff_spec, Z.lor_spec.
  by destruct (Z.testbit a n), (Z.testbit b n).
Qed.

Lemma varint32_pair a b tail : 0 <= a < 2 ^ 32 -> 0 <= b < 2 ^ 32 ->
  exists b1 b2 tl, EncodeVarint32 a ++ EncodeVarint32 b ++ tail = b1 :: b2 :: tl /\
    (bz b1 = a /\ bz b2 = b /\ tl = tail /\ a < 128 /\ b < 128 \/ 128 <= bz b1 \/ 128 <= bz b2).
Proof.
  intros Ha Hb. destruct (varint32_cases a Ha) as [[Ha' ->]|(ba & ca & la & -> & Hba)];
  destruct (varint32_cases b Hb) as [[Hb' ->]|(bb & cb & lb & -> & Hbb)];
  simpl; do 3 eexists; (split; [reflexivity|]); eauto.
  left. rewrite !bz_zb_small by lia. done.
Qed.

(** The fast path of [DecodeEntry] applies exactly when the three lengths take
    one byte each, and both paths give the lengths back. *)
Lemma DecodeEntry_bytes e rest : blen (entry_bytes e ++ rest) < 2 ^ 32 ->
  DecodeEntry (entry_bytes e ++ rest) = Some (0, blen e.1, blen e.2, e.1 ++ e.2 ++ rest).
Proof.
  destruct e as [k v]. cbn [fst snd]. intros Hsz.
  set (tail := k ++ v ++ rest).
  assert (E : entry_bytes (k, v) ++ rest =
    x00 :: EncodeVarint32 (blen k) ++ EncodeVarint32 (blen v) ++ tail).
  { unfold entry_bytes, tail. simpl. by rewrite <- !app_assoc. }
  rewrite E in Hsz |- *. pose proof (blen_nonneg k). pose proof (blen_nonneg v). pose proof (blen_nonneg rest).
  pose proof (blen_nonneg (EncodeVarint32 (blen k))). pose proof (blen_nonneg (EncodeVarint32 (blen v))).
  assert (Ht : blen tail = blen k + blen v + blen rest) by (unfold tail; rewrite !blen_app; lia).
  rewrite blen_cons, !blen_app, Ht in Hsz.
  assert (Hslow : forall (sh nsh : Z), (if u32 (blen tail) <? u32 (blen k + blen v) then None
    else Some (sh, nsh, blen v, tail)) = Some (sh, nsh, blen v, tail)).
  { intros. rewrite !u32_small by lia. destruct (Z.ltb_spec (blen tail) (blen k + blen v)); [lia|done]. }
  assert (Hvar : ('(shared, p) ← GetVarint32Ptr (x00 :: EncodeVarint32 (blen k) ++ EncodeVarint32 (blen v) ++ tail);
    '(non_shared, p) ← GetVarint32Ptr p; '(value_length, p) ← GetVarint32Ptr p;
    Some (shared, non_shared, value_length, p)) = Some (0, blen k, blen v, tail)).
  { change (x00 :: ?l) with (EncodeVarint32 0 ++ l).
    rewrite (GetVarint32_encode 0) by lia. simpl.
    rewrite (GetVarint32_encode (blen k)) by lia. simpl.
    by rewrite (GetVarint32_encode (blen v)) by lia. }
  destruct (varint32_pair (blen k) (blen v) tail ltac:(lia) ltac:(lia)) as (b1 & b2 & tl & Eh & Hcase). unfold DecodeEntry. rewrite Hvar, Eh.
  pose proof (blen_nonneg tl). rewrite !blen_cons.
  destruct (Z.ltb_spec (1 + (1 + (1 + blen tl))) 3); [lia|].
  change (byte_at (x00 :: b1 :: b2 :: tl) 0) with x00.
  change (byte_at (x00 :: b1 :: b2 :: tl) 1) with b1.
  change (byte_at (x00 :: b1 :: b2 :: tl) 2) with b2.
  change (bz x00) with 0. rewrite Z.lor_0_l. change (bdrop 3 (x00 :: b1 :: b2 :: tl)) with tl.
  destruct Hcase as [(E1 & E2 & -> & H1' & H2')|Hbig].
  - rewrite E1, E2. pose proof (lor_range 7 (blen k) (blen v) ltac:(lia) ltac:(lia) ltac:(lia)).
    destruct (Z.ltb_spec (Z.lor (blen k) (blen v)) 128); [|lia]. apply Hslow.
  - assert (128 <= Z.lor (bz b1) (bz b2)) as Hge.
    { pose proof (bz_range b1). pose proof (bz_range b2).
      destruct Hbig; [rewrite Z.lor_comm|]; apply lor_ge_128; lia. }
    destruct (Z.ltb_spec (Z.lor (bz b1) (bz b2)) 128); [lia|]. apply Hslow.
Qed.

Lemma blen_entry_bytes e : 3 <= blen (entry_bytes e).
Proof.
  assert (H : forall v, 1 <= blen (EncodeVarint32 v)).
  { intros v. unfold EncodeVarint32. repeat (bcase; [unfold blen; simpl; lia|]). unfold blen; simpl; lia. }
  unfold entry_bytes. rewrite !blen_app.
  pose proof (H 0). pose proof (H (blen e.1)). pose proof (H (blen e.2)).
  pose proof (blen_nonneg e.1). pose proof (blen_nonneg e.2). lia.
Qed.

Lemma off_0 l : off l 0 = 0.
Proof. done. Qed.

Lemma off_S l i e : l !! i = Some e -> off l (S i) = off l i + blen (entry_bytes e).
Proof.
  intros Hi. unfold off. rewrite (take_S_r _ _ _ Hi), body_app, blen_app.
  unfold body at 2. simpl. by rewrite app_nil_r.
Qed.

Lemma off_end l : off l (length l) = blen (body l).
Proof. unfold off. by rewrite firstn_all. Qed.

Lemma off_mono l i j : (i <= j <= length l)%nat -> off l i + 3 * Z.of_nat (j - i) <= off l j.
Proof.
  induction j as [|j IH]; intros Hij; [replace i with 0%nat by lia; simpl; lia|].
  destruct (decide (i = S j)) as [->|]; [rewrite Nat.sub_diag; lia|].
  destruct (lookup_lt_is_Some_2 l j ltac:(lia)) as [e He]. rewrite (off_S _ _ _ He).
  specialize (IH ltac:(lia)). pose proof (blen_entry_bytes e). lia.
Qed.

Lemma off_nonneg l i : 0 <= off l i.
Proof. apply blen_nonneg. Qed.

Lemma body_from l i e : l !! i = Some e ->
  bdrop (off l i) (body l) = entry_bytes e ++ bdrop (off l (S i)) (body l).
Proof.
  intros Hi. rewrite (off_S _ _ _ Hi). rewrite <- (take_drop i l) at 2 4.
  rewrite (drop_S _ _ _ Hi), body_app. fold (off l i).
  unfold off. rewrite bdrop_app. rewrite bdrop_app_ge by (pose proof (blen_entry_bytes e); lia).
  rewrite Z.add_simpl_l. change (body (e :: drop (S i) l)) with (entry_bytes e ++ body (drop (S i) l)).
  by rewrite bdrop_app.
Qed.

(** * Finished blocks and positions *)

(** The entries at which the restart points lie. *)
Definition restarts_ok (l : list (bytes * bytes)) (ixs : list nat) : Prop :=
  ixs !! 0%nat = Some 0%nat /\ StronglySorted lt ixs /\
  Forall (fun i => i = 0%nat \/ (i < length l)%nat) ixs.

Definition block_bytes (l : list (bytes * bytes)) (ixs : list nat) : bytes :=
  body l ++ concat (map EncodeFixed32 (map (off l) ixs ++ [blen ixs])).

Lemma blen_block_bytes l ixs : blen (block_bytes l ixs) = blen (body l) + 4 * blen ixs + 4.
Proof.
  unfold block_bytes. rewrite blen_app, blen_fixed32s, blen_app, blen_cons, (@blen_nil Z).
  unfold blen at 2. rewrite length_map. unfold blen. lia.
Qed.

Section Iteration.
Context {cmp : Comparator} {cmp_ok : ComparatorOk}.

Record layout (it : Iter) (l : list (bytes * bytes)) (ixs : list nat) : Prop := {
  lay_data : it_data it = block_bytes l ixs;
  lay_restarts : it_restarts it = blen (body l);
  lay_num : num_restarts_ it = blen ixs;
  lay_ixs : restarts_ok l ixs;
  lay_sorted : StronglySorted entry_lt l;
  lay_size : blen (block_bytes l ixs) < 2 ^ 32;
  lay_status : status_ it = OK;
}.

(** The iterator is at entry [i], or not valid. *)
Definition cursor (it : Iter) (l : list (bytes * bytes)) (i : nat) : Prop :=
  (i <= length l)%nat /\
  match l !! i with
  | Some e => current_ it = off l i /\ key_ it = e.1 /\
      value_ it = Some (off l (S i) - blen e.2, blen e.2) /\ 0 <= restart_index_ it < num_restarts_ it
  | None => current_ it = it_restarts it
  end.

(** The next entry to parse is entry [j]. *)
Definition ready (it : Iter) (l : list (bytes * bytes)) (j : nat) : Prop :=
  (j <= length l)%nat /\ NextEntryOffset it = Some (off l j) /\
  0 <= restart_index_ it < num_restarts_ it.

Lemma layout_move it l ixs c r k v : layout it l ixs ->
  layout (mkIter (it_data it) (it_restarts it) (num_restarts_ it) c r k v (status_ it)) l ixs.
Proof. intros []. by constructor. Qed.

Lemma off_le l ixs i : blen (block_bytes l ixs) < 2 ^ 32 -> (i <= length l)%nat ->
  0 <= off l i <= blen (body l) /\ blen (body l) < 2 ^ 32.
Proof.
  rewrite blen_block_bytes. intros Hsz Hi. pose proof (blen_nonneg ixs). pose proof (off_nonneg l i).
  pose proof (off_mono l i (length l) ltac:(lia)). rewrite off_end in *. lia.
Qed.

Lemma restart_in_range l ixs r i : restarts_ok l ixs -> ixs !! r = Some i -> (i <= length l)%nat.
Proof.
  intros (_ & _ & Hf) Hr. rewrite Forall_forall in Hf.
  specialize (Hf i (list_elem_of_lookup_2 _ _ _ Hr)). lia.
Qed.

Lemma get_restart it l ixs r i : layout it l ixs -> ixs !! r = Some i ->
  GetRestartPoint it (Z.of_nat r) = Some (off l i).
Proof.
  intros [Hd Hrs Hn Hi _ Hsz _] Hr. unfold GetRestartPoint.
  pose proof (lookup_lt_Some _ _ _ Hr).
  destruct (Z.ltb_spec (Z.of_nat r) (num_restarts_ it)); [|rewrite Hn in *; unfold blen in *; lia].
  f_equal. rewrite Hd, Hrs. unfold block_bytes. rewrite bdrop_app_ge by lia. rewrite Z.add_simpl_l.
  rewrite <- (app_nil_r (concat _)). apply read_fixed32.
  - apply lookup_app_l_Some. change (map (off l) ixs) with (off l <$> ixs).
    by rewrite list_lookup_fmap, Hr.
  - pose proof (restart_in_range _ _ _ _ Hi Hr) as Hle.
    destruct (off_le l ixs i Hsz Hle) as [? ?]. lia.
Qed.

Lemma seek_to_restart it l ixs r i : layout it l ixs -> ixs !! r = Some i ->
  exists it', SeekToRestartPoint it (Z.of_nat r) = Some it' /\ layout it' l ixs /\ ready it' l i /\
    it_data it' = it_data it /\ it_restarts it' = it_restarts it /\ num_restarts_ it' = num_restarts_ it.
Proof.
  intros Hl Hr. unfold SeekToRestartPoint. rewrite (get_restart _ _ _ _ _ Hl Hr). simpl.
  eexists. split; [reflexivity|]. split; [by apply layout_move|]. split; [|done].
  pose proof (restart_in_range _ _ _ _ (lay_ixs _ _ _ Hl) Hr) as Hle.
  destruct (off_le l ixs i (lay_size _ _ _ Hl) Hle) as [? ?].
  split; [done|]. unfold NextEntryOffset. simpl. split; [f_equal; rewrite u32_small by lia; lia|].
  rewrite (lay_num _ _ _ Hl). apply lookup_lt_Some in Hr. unfold blen. lia.
Qed.

Lemma advance_ok it l ixs current fuel : forall r, layout it l ixs ->
  0 <= r < num_restarts_ it -> num_restarts_ it - r <= Z.of_nat fuel ->
  exists r', advance_restart fuel it current r = Some r' /\ 0 <= r' < num_restarts_ it.
Proof.
  induction fuel as [|fuel IH]; intros r Hl Hr Hf; [lia|]. cbn [advance_restart].
  destruct (Z.ltb_spec (r + 1) (num_restarts_ it)); [|eauto].
  destruct (lookup_lt_is_Some_2 ixs (Z.to_nat (r + 1))) as [i Hi].
  { rewrite (lay_num _ _ _ Hl) in *. unfold blen in *. lia. }
  pose proof (get_restart _ _ _ _ _ Hl Hi) as Hg. rewrite Z2Nat.id in Hg by lia. rewrite Hg. simpl.
  destruct (off l i <? current); [|eauto]. apply IH; [done|lia|lia].
Qed.

Lemma entries_from_ok it l ixs i : layout it l ixs -> (i <= length l)%nat ->
  entries_from it (off l i) = bdrop (off l i) (body l).
Proof.
  intros [Hd Hrs _ _ _ Hsz _] Hi. destruct (off_le l ixs i Hsz Hi) as [Ho _].
  unfold entries_from. rewrite Hd, Hrs. unfold block_bytes. rewrite bdrop_app_le by lia.
  rewrite btake_app_n; [done|]. rewrite blen_bdrop; lia.
Qed.

(** One parse moves to the entry, or to the end after the last one. *)
Lemma parse_ready it l ixs j : layout it l ixs -> ready it l j ->
  exists it', ParseNextKey it = Some (bool_decide (j < length l)%nat, it') /\
    layout it' l ixs /\ cursor it' l j.
Proof.
  intros Hl (Hj & Hn & Hr). unfold ParseNextKey. rewrite Hn. cbn [mbind option_bind].
  pose proof (off_le l ixs j (lay_size _ _ _ Hl) Hj) as [Ho Hb].
  destruct (l !! j) as [e|] eqn:Ej.
  - pose proof (lookup_lt_Some _ _ _ Ej) as Hlt. rewrite bool_decide_true by done.
    pose proof (off_mono l j (length l) ltac:(lia)) as Hm. rewrite off_end in Hm.
    destruct (Z.leb_spec (it_restarts it) (off l j)) as [Hx|Hx]; [rewrite (lay_restarts _ _ _ Hl) in Hx; lia|].
    rewrite (entries_from_ok _ _ _ _ Hl Hj), (body_from _ _ _ Ej).
    assert (Hsz : blen (entry_bytes e ++ bdrop (off l (S j)) (body l)) < 2 ^ 32).
    { rewrite <- (body_from _ _ _ Ej), blen_bdrop by lia. lia. }
    pose proof (body_from _ _ _ Ej) as Hbf. apply (f_equal blen) in Hbf.
    rewrite blen_bdrop, blen_app in Hbf by lia.
    rewrite (DecodeEntry_bytes _ _ Hsz). pose proof (off_S _ _ _ Ej) as HS.
    pose proof (off_le l ixs (S j) (lay_size _ _ _ Hl) Hlt) as [HoS _].
    destruct (Z.ltb_spec (blen (key_ it)) 0); [pose proof (blen_nonneg (key_ it)); lia|].
    set (rest := bdrop (off l (S j)) (body l)) in *.
    assert (Hrest : blen rest = blen (body l) - off l (S j)) by (unfold rest; rewrite blen_bdrop; lia).
    rewrite !blen_app. pose proof (blen_nonneg e.1). pose proof (blen_nonneg e.2).
    destruct (Z.ltb_spec (blen e.1 + (blen e.2 + blen rest)) (blen e.1 + blen e.2)); [lia|].
    destruct (advance_ok it l ixs (off l j) (restart_fuel it) (restart_index_ it) Hl Hr) as (r' & -> & Hr').
    { unfold restart_fuel. lia. }
    simpl. eexists. split; [reflexivity|]. split; [by apply layout_move|].
    split; [done|]. rewrite Ej. simpl. split; [done|]. split; [apply btake_app|]. split; [|done].
    rewrite (lay_restarts _ _ _ Hl). do 2 f_equal. lia.
  - apply lookup_ge_None in Ej as Hge. replace j with (length l) in * by lia.
    rewrite bool_decide_false by lia. rewrite off_end.
    destruct (Z.leb_spec (it_restarts it) (blen (body l))) as [Hx|Hx]; [|rewrite (lay_restarts _ _ _ Hl) in Hx; lia].
    eexists. split; [reflexivity|]. split; [by apply layout_move|]. split; [lia|]. by rewrite Ej.
Qed.

Lemma cursor_ready it l ixs i : layout it l ixs -> cursor it l i -> (i < length l)%nat ->
  ready it l (S i).
Proof.
  intros Hl (_ & Hc) Hi. destruct (lookup_lt_is_Some_2 l i Hi) as [e He]. rewrite He in Hc.
  destruct Hc as (_ & _ & Hv & Hr). split; [lia|]. unfold NextEntryOffset. rewrite Hv. simpl.
  split; [|done]. f_equal. pose proof (off_le l ixs (S i) (lay_size _ _ _ Hl) Hi).
  rewrite u32_small; lia.
Qed.

Lemma scan_fuel_enough it l ixs : layout it l ixs -> (length l < scan_fuel it)%nat.
Proof.
  intros Hl. unfold scan_fuel. rewrite (lay_data _ _ _ Hl).
  pose proof (blen_block_bytes l ixs) as Hb. pose proof (blen_nonneg ixs).
  pose proof (off_mono l 0 (length l) ltac:(lia)) as Hm. rewrite off_end, off_0 in Hm.
  unfold blen in *. lia.
Qed.

(** Skipping entries until the next one starts at entry [m]. *)
Lemma skip_until_ok l ixs m fuel : forall it j, layout it l ixs -> ready it l j ->
  (m <= length l)%nat -> (j < m)%nat -> (m - j <= fuel)%nat ->
  exists it', skip_until fuel it (off l m) = Some it' /\ layout it' l ixs /\ cursor it' l (m - 1).
Proof.
  induction fuel as [|fuel IH]; intros it j Hl Hr Hm Hj Hf; [lia|]. cbn [skip_until].
  destruct (parse_ready _ _ _ _ Hl Hr) as (it' & -> & Hl' & Hc'). rewrite bool_decide_true by lia.
  cbn [mbind option_bind].
  pose proof (cursor_ready _ _ _ _ Hl' Hc' ltac:(lia)) as Hr'. destruct Hr' as (HS & Hn & Hri).
  rewrite Hn. cbn [mbind option_bind].
  destruct (decide (S j = m)) as [<-|Hne].
  - rewrite Z.ltb_irrefl. exists it'. rewrite Nat.sub_1_r. done.
  - pose proof (off_mono l (S j) m ltac:(lia)).
    destruct (Z.ltb_spec (off l (S j)) (off l m)); [|lia]. apply (IH it' (S j)); [done|done|lia..].
Qed.

Lemma restart_before_ok it l ixs i fuel : forall r, layout it l ixs -> (i < length l)%nat ->
  (r < length ixs)%nat -> (r < fuel)%nat ->
  exists found, restart_before fuel it (off l i) (Z.of_nat r) = Some found /\
    match found with
    | None => i = 0%nat
    | Some index => exists r' j, index = Z.of_nat r' /\ ixs !! r' = Some j /\ (j < i)%nat
    end.
Proof.
  induction fuel as [|fuel IH]; intros r Hl Hi Hr Hf; [lia|]. cbn [restart_before].
  destruct (lookup_lt_is_Some_2 ixs r Hr) as [j Hj]. rewrite (get_restart _ _ _ _ _ Hl Hj).
  cbn [mbind option_bind]. pose proof (restart_in_range _ _ _ _ (lay_ixs _ _ _ Hl) Hj) as Hjl.
  destruct (Z.leb_spec (off l i) (off l j)) as [Hle|Hlt].
  - destruct (Z.eqb_spec (Z.of_nat r) 0) as [Hr0|Hr0].
    + exists None. split; [done|]. replace r with 0%nat in Hj by lia.
      destruct (lay_ixs _ _ _ Hl) as (H0 & _). assert (j = 0%nat) as -> by congruence.
      pose proof (off_mono l 0 i ltac:(lia)). rewrite off_0 in *. lia.
    + replace (Z.of_nat r - 1) with (Z.of_nat (r - 1)) by lia. apply IH; [done|done|lia|lia].
  - exists (Some (Z.of_nat r)). split; [done|]. exists r, j. split; [done|]. split; [done|].
    destruct (decide (j < i)%nat); [done|]. pose proof (off_mono l i j ltac:(lia)). lia.
Qed.

Lemma prev_ok it l ixs i : layout it l ixs -> cursor it l i -> (i < length l)%nat ->
  exists it', Iter_Prev it = Some it' /\ layout it' l ixs /\
    cursor it' l (match i with O => length l | S j => j end).
Proof.
  intros Hl (Hil & Hc) Hi. destruct (lookup_lt_is_Some_2 l i Hi) as [e He]. rewrite He in Hc.
  destruct Hc as (Hcur & _ & _ & Hri). unfold Iter_Prev. rewrite Hcur.
  destruct (restart_before_ok it l ixs i (restart_fuel it) (Z.to_nat (restart_index_ it)) Hl Hi)
    as (found & Hf & Hfound).
  { rewrite (lay_num _ _ _ Hl) in Hri. unfold blen in Hri. lia. }
  { unfold restart_fuel. lia. }
  rewrite Z2Nat.id in Hf by lia. rewrite Hf. cbn [mbind option_bind].
  destruct found as [index|].
  - destruct Hfound as (r & j & -> & Hr & Hji).
    destruct (seek_to_restart _ _ _ _ _ Hl Hr) as (it1 & -> & Hl1 & Hr1 & Hd & _ & _).
    cbn [mbind option_bind]. pose proof (scan_fuel_enough _ _ _ Hl1).
    destruct (skip_until_ok l ixs i (scan_fuel it1) it1 j Hl1 Hr1) as (it' & -> & Hl' & Hc'); [lia..|].
    exists it'. destruct i as [|i]; [lia|]. simpl in Hc'. rewrite Nat.sub_0_r in Hc'. done.
  - subst i. eexists. split; [reflexivity|]. split; [by apply layout_move|].
    split; [done|]. by rewrite lookup_ge_None_2.
Qed.

Lemma last_restart l ixs : restarts_ok l ixs -> exists j, ixs !! (length ixs - 1)%nat = Some j /\
  (0 < length ixs)%nat /\ (l = [] -> j = 0%nat) /\ (l <> [] -> (j < length l)%nat).
Proof.
  intros (H0 & _ & Hf). pose proof (lookup_lt_Some _ _ _ H0).
  destruct (lookup_lt_is_Some_2 ixs (length ixs - 1) ltac:(lia)) as [j Hj]. exists j.
  rewrite Forall_forall in Hf. specialize (Hf j (list_elem_of_lookup_2 _ _ _ Hj)).
  repeat split; [done|lia| |].
  - intros ->. simpl in Hf. lia.
  - destruct l; [done|]. simpl in *. lia.
Qed.

Lemma seek_to_last_ok it l ixs : layout it l ixs ->
  exists it', Iter_SeekToLast it = Some it' /\ layout it' l ixs /\ cursor it' l (length l - 1).
Proof.
  intros Hl. destruct (last_restart _ _ (lay_ixs _ _ _ Hl)) as (j & Hj & Hpos & Hnil & Hne).
  unfold Iter_SeekToLast. rewrite (lay_num _ _ _ Hl).
  replace (blen ixs - 1) with (Z.of_nat (length ixs - 1)) by (unfold blen; lia).
  destruct (seek_to_restart _ _ _ _ _ Hl Hj) as (it1 & -> & Hl1 & Hr1 & _).
  cbn [mbind option_bind]. rewrite (lay_restarts _ _ _ Hl1), <- off_end.
  pose proof (scan_fuel_enough _ _ _ Hl1) as Hfuel. destruct l as [|e l].
  - rewrite Hnil in * by done. destruct (scan_fuel it1) as [|fuel]; [lia|]. cbn [skip_until].
    destruct (parse_ready _ _ _ _ Hl1 Hr1) as (it' & -> & Hl' & Hc'). simpl in *. eauto.
  - specialize (Hne ltac:(done)). apply (skip_until_ok _ ixs (length (e :: l)) _ it1 j); [done|done|lia..].
Qed.

(** * Seeking *)

Definition key_at (l : list (bytes * bytes)) (i : nat) (target : bytes) : Prop :=
  forall e, l !! i = Some e -> Compare e.1 target < 0.

Lemma seek_restart_ok it l ixs target fuel : forall left_ right_, layout it l ixs ->
  (left_ <= right_ < length ixs)%nat -> (right_ - left_ < fuel)%nat ->
  (forall i, ixs !! left_ = Some i -> i = 0%nat \/ key_at l i target) ->
  exists r i, seek_restart cmp fuel it target (Z.of_nat left_) (Z.of_nat right_) = Some (inr (Z.of_nat r)) /\
    ixs !! r = Some i /\ (i = 0%nat \/ key_at l i target).
Proof.
  induction fuel as [|fuel IH]; intros left_ right_ Hl Hlr Hf Hinv; [lia|]. cbn [seek_restart].
  destruct (Z.ltb_spec (Z.of_nat left_) (Z.of_nat right_)) as [Hlt|Hge].
  - pose proof (blen_block_bytes l ixs) as Hb. pose proof (lay_size _ _ _ Hl).
    pose proof (blen_nonneg (body l)). unfold blen at 3 in Hb.
    set (mid := ((left_ + right_ + 1) / 2)%nat).
    assert (Hmid : u32 (Z.of_nat left_ + Z.of_nat right_ + 1) / 2 = Z.of_nat mid).
    { unfold mid. rewrite u32_small by lia. rewrite Nat2Z.inj_div. f_equal. lia. }
    assert (Hm : (left_ < mid <= right_)%nat).
    { unfold mid. pose proof (Nat.div_mod_eq (left_ + right_ + 1) 2).
      pose proof (Nat.mod_upper_bound (left_ + right_ + 1) 2). lia. }
    rewrite Hmid. clearbody mid.
    destruct (lookup_lt_is_Some_2 ixs mid ltac:(lia)) as [i Hi].
    rewrite (get_restart _ _ _ _ _ Hl Hi). cbn [mbind option_bind].
    destruct (lay_ixs _ _ _ Hl) as (Hz & Hss & Hfa).
    assert (Hi0 : (0 < i)%nat) by (apply (sorted_lookup lt ixs 0 mid); [done..|lia]).
    rewrite Forall_forall in Hfa. specialize (Hfa i (list_elem_of_lookup_2 _ _ _ Hi)).
    destruct (lookup_lt_is_Some_2 l i ltac:(lia)) as [e He].
    rewrite (entries_from_ok _ _ _ _ Hl) by lia. rewrite (body_from _ _ _ He), DecodeEntry_bytes.
    2:{ rewrite <- (body_from _ _ _ He).
        pose proof (off_le l ixs i (lay_size _ _ _ Hl) ltac:(lia)). rewrite blen_bdrop; lia. }
    cbn [Z.eqb negb]. rewrite blen_app. pose proof (blen_nonneg (e.2 ++ bdrop (off l (S i)) (body l))).
    destruct (Z.ltb_spec (blen e.1 + blen (e.2 ++ bdrop (off l (S i)) (body l))) (blen e.1)); [lia|].
    rewrite btake_app. destruct (Z.ltb_spec (Compare e.1 target) 0) as [Hc|Hc].
    + apply IH; [done|lia|lia|]. intros i' Hi'. assert (i' = i) as -> by congruence. right.
      intros e' He'. by simplify_eq.
    + replace (Z.of_nat mid - 1) with (Z.of_nat (mid - 1)) by lia. apply IH; [done|lia|lia|done].
  - destruct (lookup_lt_is_Some_2 ixs left_ ltac:(lia)) as [i Hi]. exists left_, i. eauto.
Qed.

Lemma seek_scan_ok l ixs target fuel : forall it j, layout it l ixs -> ready it l j ->
  (length l - j < fuel)%nat ->
  (forall i e, l !! i = Some e -> (i < j)%nat -> Compare e.1 target < 0) ->
  exists it', seek_scan cmp fuel it target = Some it' /\ layout it' l ixs /\
    cursor it' l (seek_index target l).
Proof.
  induction fuel as [|fuel IH]; intros it j Hl Hr Hf Hbefore; [lia|]. cbn [seek_scan].
  destruct (parse_ready _ _ _ _ Hl Hr) as (it' & -> & Hl' & Hc'). cbn [mbind option_bind].
  pose proof Hc' as (Hj & Hc).
  destruct (l !! j) as [e|] eqn:Ej.
  - pose proof (lookup_lt_Some _ _ _ Ej) as Hlt. rewrite bool_decide_true by done. simpl negb.
    destruct Hc as (_ & Hk & _). rewrite Hk. cbn [orb].
    destruct (Z.leb_spec 0 (Compare e.1 target)) as [Hge|Hlt'].
    + exists it'. rewrite (seek_index_unique target l j Hj Hbefore); [done|]. intros e' He'. by simplify_eq.
    + apply (IH it' (S j)); [done|by eapply cursor_ready|lia|].
      intros i e' He' Hi. destruct (decide (i = j)) as [->|]; [by simplify_eq|]. eapply Hbefore; [done|lia].
  - apply lookup_ge_None in Ej as Hge. rewrite bool_decide_false by lia. cbn [negb orb].
    exists it'. rewrite (seek_index_unique target l j Hj Hbefore); [done|]. intros e He. congruence.
Qed.

Lemma seek_ok it l ixs target : layout it l ixs ->
  exists it', Iter_Seek cmp it target = Some it' /\ layout it' l ixs /\
    cursor it' l (seek_index target l).
Proof.
  intros Hl. unfold Iter_Seek. destruct (last_restart _ _ (lay_ixs _ _ _ Hl)) as (_ & _ & Hpos & _).
  destruct (seek_restart_ok it l ixs target (restart_fuel it) 0 (length ixs - 1) Hl)
    as (r & i & Hs & Hi & Hk); [lia|..].
  { unfold restart_fuel. rewrite (lay_num _ _ _ Hl). unfold blen. lia. }
  { intros i Hi. left. destruct (lay_ixs _ _ _ Hl) as (Hz & _). congruence. }
  rewrite (lay_num _ _ _ Hl). replace (blen ixs - 1) with (Z.of_nat (length ixs - 1)) by (unfold blen; lia).
  change 0 with (Z.of_nat 0). rewrite Hs. cbn [mbind option_bind].
  destruct (seek_to_restart _ _ _ _ _ Hl Hi) as (it1 & -> & Hl1 & Hr1 & _). cbn [mbind option_bind].
  pose proof (scan_fuel_enough _ _ _ Hl1).
  apply (seek_scan_ok l ixs target _ it1 i); [done|done|lia|].
  intros j e He Hj. destruct Hk as [->|Hk]; [lia|].
  pose proof (restart_in_range _ _ _ _ (lay_ixs _ _ _ Hl) Hi) as Hil.
  destruct (l !! i) as [e'|] eqn:Ei.
  - apply (tc_lt_trans Compare _ e'.1); [|by apply Hk].
    exact (sorted_lookup entry_lt l j i e e' (lay_sorted _ _ _ Hl) He Ei Hj).
  - destruct (lay_ixs _ _ _ Hl) as (_ & _ & Hfa). rewrite Forall_forall in Hfa.
    specialize (Hfa i (list_elem_of_lookup_2 _ _ _ Hi)). apply lookup_ge_None in Ei. lia.
Qed.

(** The slice of the value of entry [i] holds its bytes. *)
Lemma value_slice l ixs i e : l !! i = Some e -> blen (block_bytes l ixs) < 2 ^ 32 ->
  btake (blen e.2) (bdrop (off l (S i) - blen e.2) (block_bytes l ixs)) = e.2.
Proof.
  intros He Hsz. pose proof (lookup_lt_Some _ _ _ He) as Hlt.
  unfold block_bytes. rewrite (off_S _ _ _ He).
  pose proof (off_le l ixs (S i) Hsz Hlt) as [HoS _]. rewrite (off_S _ _ _ He) in HoS.
  set (pre := EncodeVarint32 0 ++ EncodeVarint32 (blen e.1) ++ EncodeVarint32 (blen e.2) ++ e.1).
  assert (Ee : entry_bytes e = pre ++ e.2) by (unfold entry_bytes, pre; by rewrite <- !app_assoc).
  pose proof (f_equal blen Ee) as Hb. rewrite blen_app in Hb.
  pose proof (blen_nonneg pre). pose proof (blen_nonneg e.2). pose proof (off_nonneg l i).
  rewrite bdrop_app_le by lia.
  replace (off l i + blen (entry_bytes e) - blen e.2) with (off l i + blen pre) by lia.
  rewrite <- bdrop_bdrop by lia. rewrite (body_from _ _ _ He), Ee.
  by rewrite <- (app_assoc pre), bdrop_app, <- app_assoc, btake_app.
Qed.

Definition block_at (it : Iter) (l : list (bytes * bytes)) (i : nat) : Prop :=
  exists ixs, layout it l ixs /\ cursor it l i.

#[export] Instance Iter_ok : @IteratorOk Iter (Iter_iterator cmp) cmp.
Proof.
  refine {| at_pos := block_at |}.
  - by intros it l i (ixs & _ & ? & _).
  - intros it l i e (ixs & Hl & Hi & Hc) He. rewrite He in Hc.
    destruct Hc as (Hcur & Hk & Hv & _). simpl. unfold Iter_Valid, Iter_key, Iter_value.
    pose proof (lookup_lt_Some _ _ _ He) as Hlt.
    pose proof (off_mono l i (length l) ltac:(lia)). rewrite off_end in *.
    rewrite Hcur, Hv, (lay_restarts _ _ _ Hl). destruct (Z.ltb_spec (off l i) (blen (body l))); [|lia].
    split; [done|]. split; [done|].
    rewrite (lay_data _ _ _ Hl). by apply value_slice; [|apply (lay_size _ _ _ Hl)].
  - intros it l (ixs & Hl & _ & Hc). rewrite lookup_ge_None_2 in Hc by lia. simpl.
    unfold Iter_Valid. rewrite Hc. apply Z.ltb_irrefl.
  - intros it l i (ixs & Hl & _). exact (lay_status _ _ _ Hl).
  - intros it l i target (ixs & Hl & _). destruct (seek_ok it l ixs target Hl) as (it' & ? & ? & ?).
    exists it'. split; [done|]. by exists ixs.
  - intros it l i (ixs & Hl & _). destruct (lay_ixs _ _ _ Hl) as (Hz & _).
    destruct (seek_to_restart it l ixs 0 0 Hl Hz) as (it1 & E1 & Hl1 & Hr1 & _).
    destruct (parse_ready _ _ _ _ Hl1 Hr1) as (it' & E2 & Hl' & Hc').
    exists it'. split; [|by exists ixs]. simpl. unfold Iter_SeekToFirst.
    change 0 with (Z.of_nat 0). rewrite E1. simpl. by rewrite E2.
  - intros it l i (ixs & Hl & _). destruct (seek_to_last_ok it l ixs Hl) as (it' & ? & ? & ?).
    exists it'. split; [done|]. by exists ixs.
  - intros it l i (ixs & Hl & Hc) Hi.
    destruct (parse_ready _ _ _ _ Hl (cursor_ready _ _ _ _ Hl Hc Hi)) as (it' & E & ? & ?).
    exists it'. split; [|by exists ixs]. simpl. unfold Iter_Next. by rewrite E.
  - intros it l i (ixs & Hl & Hc) Hi. destruct (prev_ok _ _ _ _ Hl Hc Hi) as (it' & ? & ? & ?).
    exists it'. split; [done|]. by exists ixs.
Defined.
End Iteration.

(** * The builder *)

Definition entry_fits (e : bytes * bytes) : Prop := blen e.1 < 2 ^ 32 /\ blen e.2 < 2 ^ 32.

(** Adding a list of entries. *)
Definition add_entries (interval : Z) (l : list (bytes * bytes)) (b : BlockBuilder) : BlockBuilder :=
  fold_left (fun b e => BlockBuilder_Add interval b e.1 e.2) l b.

Record built (b : BlockBuilder) (l : list (bytes * bytes)) (ixs : list nat) : Prop := {
  built_buffer : buffer_ b = body l;
  built_restarts : restarts_ b = map u32 (map (off l) ixs);
  built_ixs : restarts_ok l ixs;
}.

Lemma off_app l k i : (i <= length l)%nat -> off (l ++ k) i = off l i.
Proof. intros Hi. unfold off. rewrite take_app_le by done. done. Qed.

Lemma map_off_app l e ixs : restarts_ok l ixs -> map (off (l ++ [e])) ixs = map (off l) ixs.
Proof.
  intros (_ & _ & Hf). apply map_ext_in. intros i Hi. apply off_app.
  apply list_elem_of_In in Hi. rewrite Forall_forall in Hf. specialize (Hf i Hi). lia.
Qed.

Lemma restarts_ok_app l e ixs : restarts_ok l ixs -> restarts_ok (l ++ [e]) ixs.
Proof.
  intros (Hz & Hs & Hf). split; [done|]. split; [done|].
  eapply Forall_impl; [exact Hf|]. simpl. intros i Hi. rewrite length_app. simpl. lia.
Qed.

Lemma restarts_ok_snoc l e ixs : l <> [] -> restarts_ok l ixs ->
  restarts_ok (l ++ [e]) (ixs ++ [length l]).
Proof.
  intros Hne (Hz & Hs & Hf). pose proof (lookup_lt_Some _ _ _ Hz).
  assert (0 < length l)%nat by (destruct l; [done|simpl; lia]).
  split; [by rewrite lookup_app_l by lia|]. split.
  - apply sorted_app. split; [done|]. split; [repeat constructor|].
    intros x y Hx Hy. apply list_elem_of_singleton in Hy as ->.
    rewrite Forall_forall in Hf. specialize (Hf x Hx). lia.
  - rewrite length_app. simpl. apply Forall_app. split; [|apply Forall_singleton; lia].
    eapply Forall_impl; [exact Hf|]. simpl. lia.
Qed.

Lemma body_snoc l e : body (l ++ [e]) = body l ++ entry_bytes e.
Proof. rewrite body_app. unfold body at 2. simpl. by rewrite app_nil_r. Qed.

(** A restart point is added only once the block has entries: the interval is
    at least 1. *)
Lemma Add_built interval b l ixs e : built b l ixs -> entry_fits e ->
  (l = [] -> counter_ b < interval) ->
  exists ixs', built (BlockBuilder_Add interval b e.1 e.2) (l ++ [e]) ixs'.
Proof.
  intros [Hb Hr Hi] [Hk Hv] Hc. pose proof (blen_nonneg e.1). pose proof (blen_nonneg e.2).
  assert (Hbuf : forall rs c, buffer_ (mkBlockBuilder
    ((PutVarint32 (PutVarint32 (PutVarint32 (buffer_ b) 0) (u32 (blen e.1 - 0))) (u32 (blen e.2)) ++
      btake (blen e.1 - 0) (bdrop 0 e.1)) ++ e.2) rs c (finished_ b)
      (btake 0 (last_key_ b) ++ btake (blen e.1 - 0) (bdrop 0 e.1))) = body (l ++ [e])).
  { intros. cbn [buffer_]. unfold PutVarint32. rewrite Z.sub_0_r, !u32_small by lia.
    rewrite bdrop_0, btake_all by lia. rewrite Hb, body_snoc. unfold entry_bytes. by rewrite <- !app_assoc. }
  unfold BlockBuilder_Add. destruct (Z.ltb_spec (counter_ b) interval).
  - exists ixs. constructor; [apply Hbuf|by rewrite map_off_app|by apply restarts_ok_app].
  - assert (l <> []) by (intros ->; specialize (Hc eq_refl); lia).
    exists (ixs ++ [length l]). constructor; [apply Hbuf| |by apply restarts_ok_snoc].
    cbn [restarts_]. rewrite Hr, Hb, !map_app, (map_off_app l e ixs) by done. simpl.
    by rewrite off_app, off_end.
Qed.

(** At the interval 1 every entry is a restart point. *)
Lemma Add_built_one b l e : built b l (seq 0 (Nat.max 1 (length l))) -> counter_ b = Z.of_nat (Nat.min 1 (length l)) ->
  entry_fits e ->
  let b' := BlockBuilder_Add 1 b e.1 e.2 in
  built b' (l ++ [e]) (seq 0 (Nat.max 1 (length (l ++ [e])))) /\ counter_ b' = Z.of_nat (Nat.min 1 (length (l ++ [e]))).
Proof.
  intros Hb Hc He. destruct (Add_built 1 b l _ e Hb He) as (ixs' & Hb'); [intros ->; simpl in Hc; lia|].
  assert (Hlen : length (l ++ [e]) = S (length l)) by (rewrite length_app; simpl; lia). rewrite Hlen. cbv zeta.
  assert (Hr : restarts_ (BlockBuilder_Add 1 b e.1 e.2) = map u32 (map (off (l ++ [e])) (seq 0 (S (length l)))) /\
    counter_ (BlockBuilder_Add 1 b e.1 e.2) = 1 /\ restarts_ok (l ++ [e]) (seq 0 (S (length l)))).
  { destruct Hb as [Hbf Hr Hi]. unfold BlockBuilder_Add. destruct l as [|x l].
    - simpl in Hc. rewrite Hc. cbn [restarts_ counter_]. split; [by rewrite Hr|]. split; [done|]. by apply (restarts_ok_app []).
    - replace (Z.of_nat (Nat.min 1 (length (x :: l)))) with 1 in Hc by (simpl; lia). rewrite Hc. cbn [restarts_ counter_].
      change (Nat.max 1 (length (x :: l))) with (length (x :: l)) in *.
      rewrite seq_S. split; [|split; [done|by apply restarts_ok_snoc] ].
      rewrite Hr, !map_app, (map_off_app (x :: l) e _ Hi), Hbf. cbn [map]. by rewrite off_app, off_end. }
  destruct Hr as (Hr & -> & Hok). change (Nat.max 1 (S (length l))) with (S (length l)).
  split; [|simpl; lia]. constructor; [exact (built_buffer _ _ _ Hb')|done|done].
Qed.

Lemma add_entries_built interval l : forall b l0 ixs, built b l0 ixs -> Forall entry_fits l ->
  (l0 = [] -> counter_ b < interval) ->
  exists ixs', built (add_entries interval l b) (l0 ++ l) ixs'.
Proof.
  induction l as [|e l IH]; intros b l0 ixs Hb Hf Hc; simpl; [rewrite app_nil_r; eauto|].
  apply Forall_cons in Hf as [He Hf]. destruct (Add_built interval b l0 ixs e Hb He Hc) as (ixs' & Hb').
  destruct (IH _ _ _ Hb' Hf) as (ixs'' & Hb''); [by destruct l0|].
  exists ixs''. by rewrite <- app_assoc in Hb''.
Qed.

Lemma new_built : built newBlockBuilder [] [0%nat].
Proof.
  constructor; [done|done|]. split; [done|]. split; [repeat constructor|].
  apply Forall_singleton. by left.
Qed.

Lemma Finish_built b l ixs : built b l ixs -> fst (BlockBuilder_Finish b) = block_bytes l ixs.
Proof.
  intros [Hb Hr _]. unfold BlockBuilder_Finish, block_bytes. simpl.
  rewrite Hb, Hr, fold_PutFixed32. unfold PutFixed32.
  assert (blen (map u32 (map (off l) ixs)) = blen ixs) as -> by (unfold blen; by rewrite !length_map).
  unfold u32, wrap. rewrite EncodeFixed32_mod, map_app, concat_app. cbn [map concat].
  by rewrite app_nil_r, <- app_assoc.
Qed.

Lemma newBlock_bytes l ixs : restarts_ok l ixs -> blen (block_bytes l ixs) < 2 ^ 32 ->
  newBlock (block_bytes l ixs) =
    mkBlock (block_bytes l ixs) (blen (block_bytes l ixs)) (blen (body l)) /\
  NumRestarts (block_bytes l ixs) (blen (block_bytes l ixs)) = blen ixs.
Proof.
  intros Hi Hsz. pose proof (blen_block_bytes l ixs) as Hb.
  pose proof (blen_nonneg (body l)). pose proof (blen_nonneg ixs).
  assert (Hn : NumRestarts (block_bytes l ixs) (blen (block_bytes l ixs)) = blen ixs).
  { unfold NumRestarts. rewrite Hb. unfold block_bytes. rewrite bdrop_app_ge by lia.
    replace (blen (body l) + 4 * blen ixs + 4 - 4 - blen (body l)) with (Z.of_nat (length ixs) * 4)
      by (unfold blen; lia).
    rewrite <- (app_nil_r (concat _)). apply read_fixed32; [|lia].
    apply list_lookup_middle. by rewrite length_map. }
  split; [|done]. unfold newBlock. destruct (Z.ltb_spec (blen (block_bytes l ixs)) 4); [lia|].
  rewrite Hn, Hb. destruct (Z.ltb_spec ((blen (body l) + 4 * blen ixs + 4 - 4) / 4) (blen ixs)) as [Hx|].
  - pose proof (Z.div_le_lower_bound (blen (body l) + 4 * blen ixs + 4 - 4) 4 (blen ixs)). lia.
  - f_equal. rewrite u32_small; lia.
Qed.

Section Built.
Context {cmp : Comparator} {cmp_ok : ComparatorOk}.

Lemma open_iterator l ixs : restarts_ok l ixs -> StronglySorted entry_lt l ->
  blen (block_bytes l ixs) < 2 ^ 32 ->
  exists it, NewIterator (newBlock (block_bytes l ixs)) = inr it /\ block_at it l (length l).
Proof.
  intros Hi Hs Hsz. destruct (newBlock_bytes l ixs Hi Hsz) as [-> Hn].
  pose proof (blen_block_bytes l ixs). pose proof (blen_nonneg (body l)).
  destruct Hi as (Hz & Hss & Hf) eqn:EHi. pose proof (lookup_lt_Some _ _ _ Hz).
  unfold NewIterator. cbn [block_size block_data restart_offset_].
  destruct (Z.ltb_spec (blen (block_bytes l ixs)) 4); [pose proof (blen_nonneg ixs); lia|].
  rewrite Hn. destruct (Z.eqb_spec (blen ixs) 0); [unfold blen in *; lia|].
  eexists. split; [reflexivity|]. exists ixs. split; [by constructor|].
  split; [done|]. by rewrite lookup_ge_None_2.
Qed.

(** A block gives its entries back.  Build a block from entries with
    increasing keys, at any restart interval, and open it: whatever walk of
    [Seek], [SeekToFirst], [SeekToLast], [Next] and [Prev] is made over it shows
    exactly what the same walk shows on the list of entries; the walk never
    reports a corruption.  The size estimate of the builder is the size of the
    finished block. *)
Theorem block_iterator_refines (interval : Z) (l : list (bytes * bytes)) :
  1 <= interval -> StronglySorted entry_lt l -> Forall entry_fits l ->
  let b := add_entries interval l newBlockBuilder in
  let contents := fst (BlockBuilder_Finish b) in
  blen contents < 2 ^ 32 ->
  CurrentSizeEstimate b = blen contents /\
  exists it, NewIterator (newBlock contents) = inr it /\
    forall ops t, list_trace cmp l (length l) ops = Some t -> iter_trace it ops = Some t.
Proof.
  intros Hint Hs Hf b contents Hsz.
  destruct (add_entries_built interval l _ _ _ new_built Hf ltac:(simpl; lia)) as (ixs & Hb).
  fold b in Hb. rewrite app_nil_l in Hb. unfold contents in *. rewrite (Finish_built _ _ _ Hb) in *.
  split.
  - rewrite blen_block_bytes in *. unfold CurrentSizeEstimate.
    rewrite (built_buffer _ _ _ Hb), (built_restarts _ _ _ Hb).
    assert (blen (map u32 (map (off l) ixs)) = blen ixs) as -> by (unfold blen; by rewrite !length_map).
    pose proof (blen_nonneg (body l)). pose proof (blen_nonneg ixs). rewrite u64_small; lia.
  - destruct (open_iterator _ _ (built_ixs _ _ _ Hb) Hs Hsz) as (it & E & Hat). exists it. split; [done|].
    intros ops t Ht. by apply (iter_trace_ok ops it l (length l)).
Qed.
End Built.

Lemma block_iterator_refines_witness :
  let l := [(str "ab", str "1"); (str "b", []); (str "bc", str "22"); (str "d", str "3")] in
  let contents := fst (BlockBuilder_Finish (add_entries 2 l newBlockBuilder)) in
  exists it, NewIterator (newBlock contents) = inr it /\
    iter_trace (H := Iter_iterator BytewiseComparator) it
      [OpSeek (str "bb"); OpPrev; OpSeekToLast; OpNext; OpSeekToFirst; OpPrev] =
    Some [Some (str "bc", str "22"); Some (str "b", []); Some (str "d", str "3"); None;
          Some (str "ab", str "1"); None].
Proof.
  intros l contents.
  destruct (@block_iterator_refines BytewiseComparator BytewiseComparator_ok 2 l) as [_ (it & E & Ht)].
  - lia.
  - repeat (apply SSorted_cons; [|repeat (apply Forall_cons; split; [reflexivity|]); apply Forall_nil_2]).
    apply SSorted_nil.
  - repeat (apply Forall_cons; split; [split; reflexivity|]). apply Forall_nil_2.
  - vm_compute. reflexivity.
  - exists it. split; [exact E|]. apply Ht. vm_compute. reflexivity.
Defined.
