(* ===== verification/TwoLevel.v ===== *)
(** table/iterator_wrapper.h and table/two_level_iterator.cc: an iterator over
    the concatenation of blocks, driven by an iterator over their index. *)

From stdpp Require Import base list option sorting strings.
From S2P Require Import Prelude Status Comparator Iterator.

#[local] Open Scope Z_scope.

(** * [IteratorWrapper] *)

(** An iterator with its cached [Valid()] and [key()]; the null wrapper is [None]
    in the types below. *)
Record IteratorWrapper (I : Type) := mkWrapper { iter_ : I; valid_ : bool; wkey_ : bytes }.
Arguments mkWrapper {I} _ _ _.
Arguments iter_ {I} _.
Arguments valid_ {I} _.
Arguments wkey_ {I} _.

Section Wrapper.
Context {I : Type} `{!Iterator I}.

Definition Update (it : I) (old_key : bytes) : IteratorWrapper I :=
  mkWrapper it (Valid it) (if Valid it then key it else old_key).
Definition wrapper_Set (it : I) : IteratorWrapper I := Update it [].

Definition wrapped (f : I -> option I) (w : IteratorWrapper I) : option (IteratorWrapper I) :=
  it ← f (iter_ w); Some (Update it (wkey_ w)).

#[export] Instance IteratorWrapper_iterator : Iterator (IteratorWrapper I) := {|
  Valid := valid_; Seek w target := wrapped (fun it => Seek it target) w;
  SeekToFirst := wrapped SeekToFirst; SeekToLast := wrapped SeekToLast;
  Next := wrapped Next; Prev := wrapped Prev;
  key := wkey_; value w := value (iter_ w); status w := status (iter_ w) |}.

Definition wrapper_at `{!IteratorOk I cmp} (w : IteratorWrapper I) (l : list (bytes * bytes)) (i : nat)
  : Prop :=
  at_pos (iter_ w) l i /\ valid_ w = Valid (iter_ w) /\ (valid_ w = true -> wkey_ w = key (iter_ w)).

Lemma Update_at {cmp : Comparator} `{!IteratorOk I cmp} it k l i :
  at_pos it l i -> wrapper_at (Update it k) l i.
Proof. intros H. split; [done|]. split; [done|]. unfold Update. simpl. by intros ->. Qed.

Lemma wrapped_ok {cmp : Comparator} `{!IteratorOk I cmp} f w l j :
  (exists it', f (iter_ w) = Some it' /\ at_pos it' l j) ->
  exists w', wrapped f w = Some w' /\ wrapper_at w' l j.
Proof.
  intros (it' & E & Ha). unfold wrapped. rewrite E. simpl. eexists. split; [done|]. by apply Update_at.
Qed.

(** The cache changes nothing. *)
#[export] Instance IteratorWrapper_ok {cmp : Comparator} `{!IteratorOk I cmp} :
  IteratorOk (IteratorWrapper I) cmp.
Proof.
  refine {| at_pos := wrapper_at |}.
  - intros w l i [Ha _]. by eapply at_pos_le.
  - intros w l i e (Ha & Hv & Hk) He. destruct (at_entry _ _ _ _ Ha He) as (V & K & W).
    rewrite V in Hv. split; [exact Hv|]. split; [|exact W]. simpl. by rewrite Hk.
  - intros w l (Ha & Hv & _). simpl. rewrite Hv. exact (at_end _ _ Ha).
  - intros w l i (Ha & _). exact (at_status _ _ _ Ha).
  - intros w l i target (Ha & _) Ht. apply wrapped_ok. by eapply Seek_ok.
  - intros w l i (Ha & _). apply wrapped_ok. by eapply SeekToFirst_ok.
  - intros w l i (Ha & _). apply wrapped_ok. by eapply SeekToLast_ok.
  - intros w l i (Ha & _) Hi. apply wrapped_ok. by apply Next_ok.
  - intros w l i (Ha & _) Hi. apply wrapped_ok. by apply Prev_ok.
Defined.
End Wrapper.

(** * [TwoLevelIterator] *)

Record TwoLevelIterator (I J : Type) := mkTwoLevel {
  status_ : Status;
  index_iter_ : IteratorWrapper I;
  data_iter_ : option (IteratorWrapper J);
  data_block_handle_ : bytes;
}.
Arguments mkTwoLevel {I J} _ _ _ _.
Arguments status_ {I J} _.
Arguments index_iter_ {I J} _.
Arguments data_iter_ {I J} _.
Arguments data_block_handle_ {I J} _.

Section TwoLevel.
Context {I J : Type} `{!Iterator I} `{!Iterator J}.
(** [block_function_], and a bound on the number of blocks a skip goes over. *)
Context (block_function_ : bytes -> J) (fuel : nat).

Definition NewTwoLevelIterator (index_iter : I) : TwoLevelIterator I J :=
  mkTwoLevel OK (wrapper_Set index_iter) None [].

Definition data_valid (t : TwoLevelIterator I J) : bool :=
  match data_iter_ t with Some w => Valid w | None => false end.

(** [SetDataIterator] with its [SaveError]. *)
Definition SetDataIterator (t : TwoLevelIterator I J) (data : option (IteratorWrapper J))
    (handle : bytes) : TwoLevelIterator I J :=
  let s :=
    match data_iter_ t with
    | Some w => if ok (status_ t) && negb (ok (status w)) then status w else status_ t
    | None => status_ t
    end in
  mkTwoLevel s (index_iter_ t) data handle.

Definition InitDataBlock (t : TwoLevelIterator I J) : TwoLevelIterator I J :=
  if negb (Valid (index_iter_ t)) then SetDataIterator t None (data_block_handle_ t)
  else
    let handle := value (index_iter_ t) in
    if (match data_iter_ t with Some _ => true | None => false end) &&
       (slice_compare handle (data_block_handle_ t) =? 0) then t
    else SetDataIterator t (Some (wrapper_Set (block_function_ handle))) handle.

(** An operation of the data iterator, if there is one. *)
Definition on_data (f : IteratorWrapper J -> option (IteratorWrapper J)) (t : TwoLevelIterator I J)
  : option (TwoLevelIterator I J) :=
  match data_iter_ t with
  | None => Some t
  | Some w => w ← f w; Some (mkTwoLevel (status_ t) (index_iter_ t) (Some w) (data_block_handle_ t))
  end.

Definition on_index (f : IteratorWrapper I -> option (IteratorWrapper I)) (t : TwoLevelIterator I J)
  : option (TwoLevelIterator I J) :=
  w ← f (index_iter_ t);
  Some (mkTwoLevel (status_ t) w (data_iter_ t) (data_block_handle_ t)).

Fixpoint SkipEmptyDataBlocksForward (n : nat) (t : TwoLevelIterator I J)
  : option (TwoLevelIterator I J) :=
  match n with
  | O => None
  | S n' =>
      if data_valid t then Some t
      else if negb (Valid (index_iter_ t)) then Some (SetDataIterator t None (data_block_handle_ t))
      else
        t ← on_index Next t;
        t ← on_data SeekToFirst (InitDataBlock t);
        SkipEmptyDataBlocksForward n' t
  end.

Fixpoint SkipEmptyDataBlocksBackward (n : nat) (t : TwoLevelIterator I J)
  : option (TwoLevelIterator I J) :=
  match n with
  | O => None
  | S n' =>
      if data_valid t then Some t
      else if negb (Valid (index_iter_ t)) then Some (SetDataIterator t None (data_block_handle_ t))
      else
        t ← on_index Prev t;
        t ← on_data SeekToLast (InitDataBlock t);
        SkipEmptyDataBlocksBackward n' t
  end.

Definition two_Seek (t : TwoLevelIterator I J) (target : bytes) : option (TwoLevelIterator I J) :=
  t ← on_index (fun w => Seek w target) t;
  t ← on_data (fun w => Seek w target) (InitDataBlock t);
  SkipEmptyDataBlocksForward fuel t.

Definition two_SeekToFirst (t : TwoLevelIterator I J) : option (TwoLevelIterator I J) :=
  t ← on_index SeekToFirst t;
  t ← on_data SeekToFirst (InitDataBlock t);
  SkipEmptyDataBlocksForward fuel t.

Definition two_SeekToLast (t : TwoLevelIterator I J) : option (TwoLevelIterator I J) :=
  t ← on_index SeekToLast t;
  t ← on_data SeekToLast (InitDataBlock t);
  SkipEmptyDataBlocksBackward fuel t.

(** Both require a valid position, so that there is a data iterator. *)
Definition two_Next (t : TwoLevelIterator I J) : option (TwoLevelIterator I J) :=
  t ← on_data Next t; SkipEmptyDataBlocksForward fuel t.

Definition two_Prev (t : TwoLevelIterator I J) : option (TwoLevelIterator I J) :=
  t ← on_data Prev t; SkipEmptyDataBlocksBackward fuel t.

Definition two_status (t : TwoLevelIterator I J) : Status :=
  if negb (ok (status (index_iter_ t))) then status (index_iter_ t)
  else
    match data_iter_ t with
    | Some w => if negb (ok (status w)) then status w else status_ t
    | None => status_ t
    end.

#[export] Instance TwoLevelIterator_iterator : Iterator (TwoLevelIterator I J) := {|
  Valid := data_valid; Seek := two_Seek; SeekToFirst := two_SeekToFirst;
  SeekToLast := two_SeekToLast; Next := two_Next; Prev := two_Prev;
  key t := match data_iter_ t with Some w => key w | None => [] end;
  value t := match data_iter_ t with Some w => value w | None => [] end;
  status := two_status |}.
End TwoLevel.

(** * The concatenation of the blocks *)

Section Concatenated.
Context {cmp : Comparator} {cmp_ok : ComparatorOk}.
(** The entries of the index, and those of the block a handle stands for. *)
Context (idx : list (bytes * bytes)) (block_of : bytes -> list (bytes * bytes)).
#[local] Abbreviation n := (length idx).

Definition blocks : list (list (bytes * bytes)) := map (fun x => block_of x.2) idx.
Definition all_entries : list (bytes * bytes) := concat blocks.
Definition base (j : nat) : nat := length (concat (take j blocks)).

Lemma blocks_lookup j k h : idx !! j = Some (k, h) -> blocks !! j = Some (block_of h).
Proof.
  intros Hj. unfold blocks. change (map ?f idx) with (f <$> idx). by rewrite list_lookup_fmap, Hj.
Qed.

Lemma base_S j k h : idx !! j = Some (k, h) -> base (S j) = (base j + length (block_of h))%nat.
Proof.
  intros Hj. unfold base. rewrite (take_S_r _ _ _ (blocks_lookup _ _ _ Hj)), concat_app, length_app.
  simpl. by rewrite app_nil_r.
Qed.

Lemma base_end : base n = length all_entries.
Proof. unfold base, all_entries. f_equal. f_equal. apply take_ge. unfold blocks. by rewrite length_map. Qed.

Lemma all_entries_split j k h : idx !! j = Some (k, h) ->
  all_entries = concat (take j blocks) ++ block_of h ++ concat (drop (S j) blocks).
Proof.
  intros Hj. unfold all_entries. rewrite <- (take_drop_middle _ _ _ (blocks_lookup _ _ _ Hj)) at 1.
  by rewrite concat_app.
Qed.

Lemma lookup_block j k h i : idx !! j = Some (k, h) -> (i < length (block_of h))%nat ->
  all_entries !! (base j + i)%nat = block_of h !! i.
Proof.
  intros Hj Hi. rewrite (all_entries_split _ _ _ Hj), lookup_app_r by (unfold base; lia).
  unfold base. rewrite Nat.add_comm, Nat.add_sub. by apply lookup_app_l.
Qed.

Lemma base_lt j k h i : idx !! j = Some (k, h) -> (i < length (block_of h))%nat ->
  (base j + i < length all_entries)%nat.
Proof.
  intros Hj Hi. rewrite (all_entries_split _ _ _ Hj), !length_app. unfold base. lia.
Qed.

(** An index key is at or after the keys of its block and before those of later
    blocks. *)
Hypothesis index_bound : forall j k h e, idx !! j = Some (k, h) -> e ∈ block_of h ->
  Compare e.1 k <= 0.
Hypothesis index_separates : forall j j' k k' h h' e, idx !! j = Some (k, h) ->
  idx !! j' = Some (k', h') -> (j < j')%nat -> e ∈ block_of h' -> Compare k e.1 < 0.

(** Where [Seek] has to go: through the index to the block, then in the block. *)
Lemma all_entries_in e : e ∈ all_entries <-> exists j k h, idx !! j = Some (k, h) /\ e ∈ block_of h.
Proof.
  unfold all_entries, blocks. rewrite list_elem_of_In, in_concat. split.
  - intros (b & Hb & He). apply in_map_iff in Hb as ([k h] & <- & Hx).
    apply list_elem_of_In, list_elem_of_lookup in Hx as [j Hj]. apply list_elem_of_In in He. eauto.
  - intros (j & k & h & Hj & He). exists (block_of h). rewrite list_elem_of_In in He. split; [|done].
    apply in_map_iff. exists (k, h). split; [done|]. apply list_elem_of_In, list_elem_of_lookup. eauto.
Qed.

Lemma before_block j p e : all_entries !! p = Some e -> (p < base j)%nat ->
  exists j' k h, idx !! j' = Some (k, h) /\ (j' < j)%nat /\ e ∈ block_of h.
Proof.
  induction j as [|j IH]; intros Hp Hlt; [unfold base in Hlt; simpl in Hlt; lia|].
  destruct (idx !! j) as [[k h]|] eqn:Ej.
  - rewrite (base_S _ _ _ Ej) in Hlt. destruct (decide (p < base j)%nat) as [Hb|Hb].
    + destruct (IH Hp Hb) as (j' & k' & h' & ? & ? & ?). exists j', k', h'. split; [done|]. split; [lia|done].
    + exists j, k, h. split; [done|]. split; [lia|].
      replace p with (base j + (p - base j))%nat in Hp by lia.
      rewrite (lookup_block _ _ _ _ Ej) in Hp by lia. by eapply list_elem_of_lookup_2.
  - apply lookup_ge_None in Ej. assert (Hb : base (S j) = base j).
    { unfold base, blocks. rewrite !take_ge by (rewrite length_map; lia). done. }
    rewrite Hb in Hlt. destruct (IH Hp Hlt) as (j' & k' & h' & ? & ? & ?).
    exists j', k', h'. split; [done|]. split; [lia|done].
Qed.

Lemma after_block j p e : all_entries !! p = Some e -> (base j <= p)%nat ->
  exists j' k h, idx !! j' = Some (k, h) /\ (j <= j')%nat /\ e ∈ block_of h.
Proof.
  intros Hp Hle. unfold all_entries in Hp.
  rewrite <- (take_drop j blocks), concat_app, lookup_app_r in Hp by (unfold base in Hle; lia).
  apply list_elem_of_lookup_2, list_elem_of_In, in_concat in Hp as (b & Hb & He).
  apply list_elem_of_In, list_elem_of_lookup in Hb as [d Hd]. rewrite lookup_drop in Hd.
  unfold blocks in Hd. change (map ?f idx) with (f <$> idx) in Hd.
  apply list_lookup_fmap_Some in Hd as ([k h] & -> & Hx). apply list_elem_of_In in He.
  exists (j + d)%nat, k, h. split; [done|]. split; [lia|done].
Qed.

Lemma seek_concat target j : seek_index target idx = j ->
  seek_index target all_entries =
  (base j + match idx !! j with Some (_, h) => seek_index target (block_of h) | None => 0 end)%nat.
Proof.
  intros Hj.
  assert (Hbefore : forall p e, all_entries !! p = Some e -> (p < base j)%nat -> Compare e.1 target < 0).
  { intros p e Hp Hlt. destruct (before_block j p e Hp Hlt) as (j' & k & h & Ej & Hjj & He).
    apply (tc_le_lt_trans Compare _ k); [by eapply index_bound|].
    apply (seek_index_before target idx j' (k, h) Ej). lia. }
  destruct (idx !! j) as [[k h]|] eqn:Ej.
  - pose proof (seek_index_le target (block_of h)) as Hle. apply seek_index_unique.
    + rewrite (all_entries_split _ _ _ Ej), !length_app. unfold base. lia.
    + intros p e Hp Hlt. destruct (decide (p < base j)%nat) as [Hb|Hb]; [by eapply Hbefore|].
      replace p with (base j + (p - base j))%nat in Hp by lia.
      rewrite (lookup_block _ _ _ _ Ej) in Hp by lia. eapply seek_index_before; [exact Hp|lia].
    + intros e He. destruct (decide (seek_index target (block_of h) < length (block_of h))%nat) as [Hlt|Hge].
      * rewrite (lookup_block _ _ _ _ Ej Hlt) in He. by apply (seek_index_at target (block_of h)).
      * assert (Hk : 0 <= Compare k target).
        { rewrite <- Hj in Ej. exact (seek_index_at target idx (k, h) Ej). }
        destruct (after_block (S j) _ e He) as (j' & k' & h' & Ej' & Hjj & Hin).
        { rewrite (base_S _ _ _ Ej). lia. }
        apply (tc_flip_le Compare target e.1), Z.lt_le_incl.
        apply (tc_le_lt_trans Compare _ k); [by apply (tc_flip_le Compare target k)|].
        eapply index_separates; [exact Ej|exact Ej'|lia|done].
  - apply lookup_ge_None in Ej. pose proof (seek_index_le target idx). assert (j = n) as -> by lia.
    rewrite Nat.add_0_r. apply seek_index_unique.
    + rewrite base_end. lia.
    + exact Hbefore.
    + intros e He. rewrite base_end, lookup_ge_None_2 in He by lia. done.
Qed.
End Concatenated.

Arguments blocks_lookup {idx block_of}.
Arguments base_S {idx block_of}.
Arguments all_entries_split {idx block_of}.
Arguments lookup_block {idx block_of}.
Arguments base_lt {idx block_of}.

(** * The iterator walks the concatenation *)

Section Concatenation.
Context {I J : Type} `{!Iterator I} `{!Iterator J} {cmp : Comparator} {cmp_ok : ComparatorOk}.
Context `{!IteratorOk I cmp} `{!IteratorOk J cmp}.
Context (block_function_ : bytes -> J) (fuel : nat).
(** The entries of the index, and those of the block a handle stands for. *)
Context (idx : list (bytes * bytes)) (block_of : bytes -> list (bytes * bytes)).

(** The block function opens the block of every handle of the index. *)
Hypothesis block_function_ok : forall j k h, idx !! j = Some (k, h) ->
  exists i, at_pos (block_function_ h) (block_of h) i.
(** An index key is at or after the keys of its block and before those of later
    blocks. *)
Hypothesis index_bound : forall j k h e, idx !! j = Some (k, h) -> e ∈ block_of h ->
  Compare e.1 k <= 0.
Hypothesis index_separates : forall j j' k k' h h' e, idx !! j = Some (k, h) ->
  idx !! j' = Some (k', h') -> (j < j')%nat -> e ∈ block_of h' -> Compare k e.1 < 0.
Hypothesis fuel_enough : (length idx < fuel)%nat.

#[local] Abbreviation all_entries := (all_entries idx block_of).
#[local] Abbreviation base := (base idx block_of).
#[local] Abbreviation TL := (TwoLevelIterator I J).
#[local] Abbreviation n := (length idx).

(** The data iterator, if any, is over the block of the stored handle. *)
Definition coherent (t : TL) (j : nat) : Prop :=
  at_pos (index_iter_ t) idx j /\ status_ t = OK /\
  match data_iter_ t with
  | None => True
  | Some w => exists i, at_pos w (block_of (data_block_handle_ t)) i
  end.

(** The index is at entry [j] and the data iterator at position [i] of its
    block. *)
Definition placed (t : TL) (j i : nat) : Prop :=
  at_pos (index_iter_ t) idx j /\ status_ t = OK /\
  match idx !! j with
  | None => data_iter_ t = None /\ i = 0%nat
  | Some (k, h) => exists w, data_iter_ t = Some w /\ data_block_handle_ t = h /\ at_pos w (block_of h) i
  end.

Definition two_at (t : TL) (l : list (bytes * bytes)) (p : nat) : Prop :=
  l = all_entries /\ exists j, coherent t j /\
  match data_iter_ t with
  | None => p = length all_entries
  | Some w => exists k h i, idx !! j = Some (k, h) /\ data_block_handle_ t = h /\
      at_pos w (block_of h) i /\ (i < length (block_of h))%nat /\ p = (base j + i)%nat
  end.

Lemma placed_coherent t j i : placed t j i -> coherent t j.
Proof.
  intros (Hi & Hs & Hd). split; [done|]. split; [done|]. destruct (idx !! j) as [[k h]|].
  - destruct Hd as (w & -> & -> & ?). eauto.
  - by destruct Hd as [-> _].
Qed.

Lemma SetDataIterator_status t j d h : coherent t j -> status_ (SetDataIterator t d h) = OK.
Proof.
  intros (_ & Hs & Hd). unfold SetDataIterator. cbn [status_]. rewrite Hs.
  destruct (data_iter_ t) as [w|]; [|done]. destruct Hd as [i Hd]. by rewrite (at_status _ _ _ Hd).
Qed.

(** Opening the block of the index entry and moving the data iterator in it. *)
Lemma init_then t j f (p : list (bytes * bytes) -> nat) : coherent t j ->
  (forall w l i, at_pos w l i -> exists w', f w = Some w' /\ at_pos w' l (p l)) ->
  exists t', on_data f (InitDataBlock block_function_ t) = Some t' /\
    placed t' j (match idx !! j with Some (_, h) => p (block_of h) | None => 0%nat end).
Proof.
  intros Hc Hf. pose proof Hc as (Hi & Hs & Hd). unfold InitDataBlock.
  destruct (idx !! j) as [[k h]|] eqn:Ej.
  - destruct (at_entry _ _ _ _ Hi Ej) as (-> & _ & ->). simpl negb. cbn [snd].
    destruct ((match data_iter_ t with Some _ => true | None => false end) &&
      (slice_compare h (data_block_handle_ t) =? 0)) eqn:Eh.
    + apply andb_true_iff in Eh as [Ed Eh]. apply Z.eqb_eq, slice_compare_zero in Eh.
      unfold on_data. destruct (data_iter_ t) as [w|]; [|done]. destruct Hd as [i Hw]. rewrite <- Eh in Hw.
      destruct (Hf _ _ _ Hw) as (w' & -> & Hw'). simpl. eexists. split; [done|].
      split; [done|]. split; [done|]. rewrite Ej. eauto.
    + destruct (block_function_ok _ _ _ Ej) as [i Hb].
      assert (Hw : at_pos (wrapper_Set (block_function_ h)) (block_of h) i) by (by apply Update_at).
      destruct (Hf _ _ _ Hw) as (w' & Hfw & Hw'). unfold on_data. simpl. rewrite Hfw. simpl.
      eexists. split; [done|]. split; [done|]. split; [by apply (SetDataIterator_status t j None [])|].
      rewrite Ej. eauto.
  - apply lookup_ge_None in Ej as Hge. pose proof (at_pos_le _ _ _ Hi).
    assert (j = n) as -> by lia. rewrite (at_end _ _ Hi). simpl. eexists. split; [done|].
    split; [done|]. split; [by apply (SetDataIterator_status t n None [])|]. by rewrite Ej.
Qed.

Lemma placed_invalid_end t : placed t n 0 -> data_iter_ t = None /\ Valid (index_iter_ t) = false.
Proof.
  intros (Hi & _ & Hd). rewrite lookup_ge_None_2 in Hd by lia. destruct Hd as [-> _].
  split; [done|]. exact (at_end _ _ Hi).
Qed.

Lemma stop_at_end t j : coherent t j ->
  two_at (SetDataIterator t None (data_block_handle_ t)) all_entries (length all_entries).
Proof.
  intros Hc. split; [done|]. exists j. split; [|done]. pose proof Hc as (Hi & _).
  split; [exact Hi|]. split; [by eapply SetDataIterator_status|done].
Qed.

Lemma placed_stop t j i k h : placed t j i -> idx !! j = Some (k, h) -> (i < length (block_of h))%nat ->
  data_valid t = true /\ two_at t all_entries (base j + i).
Proof.
  intros Hp Ej Hi. pose proof Hp as (_ & _ & Hd). rewrite Ej in Hd. destruct Hd as (w & Ed & Eh & Hw).
  destruct (lookup_lt_is_Some_2 (block_of h) i Hi) as [e He]. destruct (at_entry _ _ _ _ Hw He) as (V & _ & _).
  unfold data_valid. rewrite Ed. split; [done|]. split; [done|]. exists j.
  split; [by eapply placed_coherent|]. rewrite Ed. eauto 10.
Qed.

Lemma placed_past t j k h : placed t j (length (block_of h)) -> idx !! j = Some (k, h) ->
  data_valid t = false /\ Valid (index_iter_ t) = true.
Proof.
  intros (Hi & _ & Hd) Ej. rewrite Ej in Hd. destruct Hd as (w & Ed & _ & Hw).
  unfold data_valid. rewrite Ed. split; [exact (at_end _ _ Hw)|].
  by destruct (at_entry _ _ _ _ Hi Ej) as (-> & _).
Qed.

Lemma placed_le t j i k h : placed t j i -> idx !! j = Some (k, h) -> (i <= length (block_of h))%nat.
Proof.
  intros (_ & _ & Hd) Ej. rewrite Ej in Hd. destruct Hd as (w & _ & _ & Hw). exact (at_pos_le _ _ _ Hw).
Qed.

Lemma on_index_ok t j f j' : coherent t j ->
  (exists w', f (index_iter_ t) = Some w' /\ at_pos w' idx j') ->
  exists t', on_index f t = Some t' /\ coherent t' j'.
Proof.
  intros (Hi & Hs & Hd) (w' & E & Hw). unfold on_index. rewrite E. simpl. eexists. split; [done|].
  by split.
Qed.

Lemma skip_forward_ok m : forall t j i, placed t j i -> (n - j < m)%nat ->
  exists t', SkipEmptyDataBlocksForward block_function_ m t = Some t' /\ two_at t' all_entries (base j + i).
Proof.
  induction m as [|m IH]; intros t j i Hp Hm; [lia|]. cbn [SkipEmptyDataBlocksForward].
  pose proof (placed_coherent _ _ _ Hp) as Hc. pose proof Hp as (Hi & _ & Hd).
  destruct (idx !! j) as [[k h]|] eqn:Ej.
  - pose proof (placed_le _ _ _ _ _ Hp Ej). pose proof (lookup_lt_Some _ _ _ Ej).
    destruct (decide (i < length (block_of h))%nat) as [Hlt|Hge].
    + destruct (placed_stop _ _ _ _ _ Hp Ej Hlt) as [-> ?]. eauto.
    + replace i with (length (block_of h)) in * by lia.
      destruct (placed_past _ _ _ _ Hp Ej) as [-> ->]. simpl negb. cbv iota.
      destruct (on_index_ok t j Next (S j) Hc) as (t1 & -> & Hc1); [apply Next_ok; [done|lia]|].
      cbn [mbind option_bind].
      destruct (init_then t1 (S j) SeekToFirst (fun _ => 0%nat) Hc1) as (t2 & -> & Hp2).
      { intros. by eapply SeekToFirst_ok. }
      cbn [mbind option_bind]. rewrite <- (base_S _ _ _ Ej).
      destruct (IH t2 (S j) 0%nat) as (t' & E & Hat); [by destruct (idx !! S j) as [[]|]|lia|].
      rewrite Nat.add_0_r in Hat. eauto.
  - destruct Hd as [Hd ->]. unfold data_valid. rewrite Hd.
    apply lookup_ge_None in Ej. pose proof (at_pos_le _ _ _ Hi). assert (j = n) as -> by lia.
    rewrite (at_end _ _ Hi). simpl. eexists. split; [done|]. rewrite base_end, Nat.add_0_r.
    by eapply stop_at_end.
Qed.

(** The position before the block [j]. *)
Definition before (p : nat) : nat := match p with O => length all_entries | S q => q end.

Lemma skip_backward_ok m : forall t j i k h, placed t j i -> idx !! j = Some (k, h) -> (S j < m)%nat ->
  exists t', SkipEmptyDataBlocksBackward block_function_ m t = Some t' /\
    two_at t' all_entries (if (i <? length (block_of h))%nat then base j + i else before (base j)).
Proof.
  induction m as [|m IH]; intros t j i k h Hp Ej Hm; [lia|]. cbn [SkipEmptyDataBlocksBackward].
  pose proof (placed_coherent _ _ _ Hp) as Hc. pose proof Hp as (Hi & _ & _).
  pose proof (placed_le _ _ _ _ _ Hp Ej). pose proof (lookup_lt_Some _ _ _ Ej) as Hjn.
  destruct (Nat.ltb_spec i (length (block_of h))) as [Hlt|Hge].
  - destruct (placed_stop _ _ _ _ _ Hp Ej Hlt) as [-> ?]. eauto.
  - replace i with (length (block_of h)) in * by lia.
    destruct (placed_past _ _ _ _ Hp Ej) as [-> ->]. simpl negb. cbv iota.
    destruct (on_index_ok t j Prev (match j with O => n | S j' => j' end) Hc) as (t1 & -> & Hc1);
      [by apply Prev_ok|].
    cbn [mbind option_bind].
    destruct (init_then t1 _ SeekToLast (fun l => length l - 1)%nat Hc1) as (t2 & -> & Hp2).
    { intros. by eapply SeekToLast_ok. }
    cbn [mbind option_bind]. destruct j as [|j].
    + rewrite lookup_ge_None_2 in Hp2 by lia. pose proof (placed_coherent _ _ _ Hp2) as Hc2.
      destruct (placed_invalid_end _ Hp2) as [Ed Ev]. destruct m as [|m]; [lia|].
      cbn [SkipEmptyDataBlocksBackward]. unfold data_valid. rewrite Ed, Ev. simpl.
      eexists. split; [done|]. by eapply stop_at_end.
    + destruct (lookup_lt_is_Some_2 idx j ltac:(lia)) as [[k' h'] Ej']. rewrite Ej' in Hp2.
      destruct (IH t2 j _ k' h' Hp2 Ej' ltac:(lia)) as (t' & E & Hat). exists t'. split; [done|].
      rewrite (base_S _ _ _ Ej'). destruct (Nat.ltb_spec (length (block_of h') - 1) (length (block_of h'))).
      * replace (before _) with (base j + (length (block_of h') - 1))%nat; [done|].
        unfold before. destruct (base j + length (block_of h'))%nat eqn:Eb; lia.
      * assert (length (block_of h') = 0%nat) as -> by lia. by rewrite Nat.add_0_r.
Qed.

Lemma base_last : (0 < n)%nat -> forall k h, idx !! (n - 1)%nat = Some (k, h) ->
  length all_entries = (base (n - 1) + length (block_of h))%nat.
Proof. intros Hn k h Hj. rewrite <- base_end, <- (base_S _ _ _ Hj). f_equal. lia. Qed.

Lemma seek_last_ok t l p : two_at t l p ->
  exists t', two_SeekToLast block_function_ fuel t = Some t' /\ two_at t' all_entries (length all_entries - 1).
Proof.
  intros (-> & j0 & Hc & _). unfold two_SeekToLast.
  destruct (on_index_ok t j0 SeekToLast (n - 1) Hc) as (t1 & -> & Hc1);
    [eapply SeekToLast_ok; apply Hc|]. cbn [mbind option_bind].
  destruct (init_then t1 _ SeekToLast (fun l => length l - 1)%nat Hc1) as (t2 & -> & Hp2).
  { intros. by eapply SeekToLast_ok. }
  cbn [mbind option_bind]. destruct (idx !! (n - 1)%nat) as [[k h]|] eqn:Ej.
  - pose proof (lookup_lt_Some _ _ _ Ej) as Hlt.
    destruct (skip_backward_ok fuel t2 _ _ k h Hp2 Ej ltac:(lia)) as (t' & E & Hat).
    exists t'. split; [done|]. rewrite (base_last ltac:(lia) _ _ Ej).
    destruct (Nat.ltb_spec (length (block_of h) - 1) (length (block_of h))).
    + replace (base (n - 1) + length (block_of h) - 1)%nat
        with (base (n - 1) + (length (block_of h) - 1))%nat by lia. done.
    + replace (before (base (n - 1))) with (base (n - 1) + length (block_of h) - 1)%nat in Hat; [done|].
      pose proof (base_last ltac:(lia) _ _ Ej). unfold before. destruct (base (n - 1)) eqn:Eb; lia.
  - apply lookup_ge_None in Ej. assert (Hn : n = 0%nat) by lia. replace (n - 1)%nat with n in Hp2 by lia.
    pose proof (placed_coherent _ _ _ Hp2) as Hc2. destruct (placed_invalid_end _ Hp2) as [Ed Ev].
    destruct fuel as [|f]; [lia|]. cbn [SkipEmptyDataBlocksBackward]. unfold data_valid.
    rewrite Ed, Ev. simpl. eexists. split; [done|].
    assert (length all_entries = 0%nat) as Hz by (rewrite <- base_end, Hn; done).
    pose proof (stop_at_end _ _ Hc2) as Hs. rewrite Hz in *. done.
Qed.

Lemma two_data t l p : two_at t l p -> (p < length l)%nat -> exists j k h i w,
  coherent t j /\ idx !! j = Some (k, h) /\ data_iter_ t = Some w /\ data_block_handle_ t = h /\
  at_pos w (block_of h) i /\ (i < length (block_of h))%nat /\ p = (base j + i)%nat.
Proof.
  intros (-> & j & Hc & Hd) Hp. destruct (data_iter_ t) as [w|] eqn:Ew; [|lia].
  destruct Hd as (k & h & i & ? & ? & ? & ? & ?). exists j, k, h, i, w. repeat (split; [done|]). done.
Qed.

Lemma on_data_ok t j f k h i' w : coherent t j -> idx !! j = Some (k, h) -> data_iter_ t = Some w ->
  data_block_handle_ t = h -> (exists w', f w = Some w' /\ at_pos w' (block_of h) i') ->
  exists t', on_data f t = Some t' /\ placed t' j i'.
Proof.
  intros (Hi & Hs & _) Ej Ew Eh (w' & E & Hw). unfold on_data. rewrite Ew, E. simpl.
  eexists. split; [done|]. split; [done|]. split; [done|]. rewrite Ej. eauto.
Qed.

Lemma TwoLevel_ok : @IteratorOk TL (TwoLevelIterator_iterator block_function_ fuel) cmp.
Proof.
  refine {| at_pos := two_at |}.
  - intros t l p (-> & j & _ & Hd). destruct (data_iter_ t) as [w|]; [|lia].
    destruct Hd as (k & h & i & Ej & _ & _ & Hi & ->). pose proof (base_lt _ _ _ _ Ej Hi). lia.
  - intros t l p e Hat He. pose proof Hat as (-> & _).
    destruct (two_data _ _ _ Hat (lookup_lt_Some _ _ _ He)) as (j & k & h & i & w & _ & Ej & Ew & _ & Hw & Hi & ->).
    rewrite (lookup_block _ _ _ _ Ej Hi) in He. destruct (at_entry _ _ _ _ Hw He) as (V & K & U).
    cbn [Valid key value TwoLevelIterator_iterator]. unfold data_valid. rewrite Ew. done.
  - intros t l (-> & j & _ & Hd). cbn [Valid TwoLevelIterator_iterator]. unfold data_valid.
    destruct (data_iter_ t) as [w|]; [|done]. destruct Hd as (k & h & i & Ej & _ & _ & Hi & E).
    pose proof (base_lt _ _ _ _ Ej Hi). lia.
  - intros t l p (_ & j & (Hi & Hs & Hd) & _). cbn [status TwoLevelIterator_iterator]. unfold two_status.
    rewrite (at_status _ _ _ Hi). cbn [ok negb]. destruct (data_iter_ t) as [w|]; [|done].
    destruct Hd as [i Hd]. by rewrite (at_status _ _ _ Hd).
  - intros t l p target (-> & j0 & Hc & _) Htgt. cbn [Seek TwoLevelIterator_iterator]. unfold two_Seek.
    destruct (on_index_ok t j0 (fun w => Seek w target) (seek_index target idx) Hc) as (t1 & -> & Hc1);
      [eapply Seek_ok; [apply Hc|done]|]. cbn [mbind option_bind].
    destruct (init_then t1 _ (fun w => Seek w target) (seek_index target) Hc1) as (t2 & -> & Hp2).
    { intros. by eapply Seek_ok. }
    cbn [mbind option_bind]. rewrite (seek_concat _ _ index_bound index_separates target _ eq_refl). apply skip_forward_ok; [|lia].
    by destruct (idx !! seek_index target idx) as [[]|].
  - intros t l p (-> & j0 & Hc & _). cbn [SeekToFirst TwoLevelIterator_iterator]. unfold two_SeekToFirst.
    destruct (on_index_ok t j0 SeekToFirst 0 Hc) as (t1 & -> & Hc1);
      [eapply SeekToFirst_ok; apply Hc|]. cbn [mbind option_bind].
    destruct (init_then t1 _ SeekToFirst (fun _ => 0%nat) Hc1) as (t2 & -> & Hp2).
    { intros. by eapply SeekToFirst_ok. }
    cbn [mbind option_bind]. apply (skip_forward_ok fuel t2 0 0); [|lia]. by destruct (idx !! 0%nat) as [[]|].
  - intros t l p Hat. pose proof Hat as (-> & _). eapply seek_last_ok; exact Hat.
  - intros t l p Hat Hp. pose proof Hat as (-> & _).
    destruct (two_data _ _ _ Hat Hp) as (j & k & h & i & w & Hc & Ej & Ew & Eh & Hw & Hi & ->).
    cbn [Next TwoLevelIterator_iterator]. unfold two_Next.
    destruct (on_data_ok t j Next k h (S i) w Hc Ej Ew Eh) as (t1 & -> & Hp1); [by apply Next_ok|].
    cbn [mbind option_bind]. rewrite <- Nat.add_succ_r. apply skip_forward_ok; [done|lia].
  - intros t l p Hat Hp. pose proof Hat as (-> & _).
    destruct (two_data _ _ _ Hat Hp) as (j & k & h & i & w & Hc & Ej & Ew & Eh & Hw & Hi & ->).
    cbn [Prev TwoLevelIterator_iterator]. unfold two_Prev. pose proof (lookup_lt_Some _ _ _ Ej).
    destruct (on_data_ok t j Prev k h (match i with O => length (block_of h) | S i' => i' end) w Hc Ej Ew Eh)
      as (t1 & -> & Hp1); [by apply Prev_ok|].
    cbn [mbind option_bind].
    destruct (skip_backward_ok fuel t1 _ _ k h Hp1 Ej ltac:(lia)) as (t' & E & Hat'). exists t'. split; [done|].
    destruct i as [|i]; [rewrite Nat.ltb_irrefl in Hat'; by rewrite Nat.add_0_r|].
    destruct (Nat.ltb_spec i (length (block_of h))); [|lia]. by rewrite Nat.add_succ_r.
Defined.

Lemma NewTwoLevelIterator_at index_iter i : at_pos index_iter idx i ->
  two_at (NewTwoLevelIterator index_iter) all_entries (length all_entries).
Proof.
  intros Hi. split; [done|]. exists i. split; [|done]. split; [by apply Update_at|]. done.
Qed.

(** A two-level iterator walks the concatenation of its blocks.  For any
    index whose keys separate the blocks and any iterators that walk the index
    and the blocks, whatever walk is made shows exactly what the same walk shows
    on the concatenated entries, empty blocks skipped in both directions. *)
Theorem two_level_iterator_refines (index_iter : I) (i : nat) (ops : list IterOp)
    (t : list (option (bytes * bytes))) :
  at_pos index_iter idx i ->
  list_trace cmp all_entries (length all_entries) ops = Some t ->
  iter_trace (H := TwoLevelIterator_iterator block_function_ fuel) (NewTwoLevelIterator index_iter) ops = Some t.
Proof.
  intros Hi Ht. eapply (iter_trace_ok (IteratorOk0 := TwoLevel_ok)); [|exact Ht].
  by eapply NewTwoLevelIterator_at.
Qed.
End Concatenation.

Lemma two_level_iterator_refines_witness :
  let idx := [(str "b", str "0"); (str "c", str "1"); (str "f", str "2")] in
  let block_of h := if slice_eqb h (str "0") then [(str "a", str "x"); (str "b", str "y")]
    else if slice_eqb h (str "2") then [(str "d", str "z")] else [] in
  let fn h := mkListIter (block_of h) (length (block_of h)) in
  iter_trace (H := TwoLevelIterator_iterator (Iterator0 := ListIter_iterator BytewiseComparator)
      (Iterator1 := ListIter_iterator BytewiseComparator) fn 4)
    (NewTwoLevelIterator (Iterator0 := ListIter_iterator BytewiseComparator) (mkListIter idx 3))
    [OpSeek (str "bb"); OpPrev; OpNext; OpNext; OpSeekToLast] =
  Some [Some (str "d", str "z"); Some (str "b", str "y"); Some (str "d", str "z"); None;
        Some (str "d", str "z")].
Proof.
  intros idx block_of fn.
  apply (@two_level_iterator_refines ListIter ListIter (ListIter_iterator BytewiseComparator)
    (ListIter_iterator BytewiseComparator) BytewiseComparator BytewiseComparator_ok
    (ListIter_ok BytewiseComparator) (ListIter_ok BytewiseComparator) fn 4 idx block_of) with 3%nat.
  - intros j k h _. exists (length (block_of h)). split; [done|lia].
  - intros [|[|[|j]]] k h e Hj He; simplify_eq/=.
    + repeat (apply elem_of_cons in He as [->|He]; [vm_compute; congruence|]). by apply elem_of_nil in He.
    + by apply elem_of_nil in He.
    + repeat (apply elem_of_cons in He as [->|He]; [vm_compute; congruence|]). by apply elem_of_nil in He.
  - intros [|[|[|j]]] [|[|[|j']]] k k' h h' e Hj Hj' Hlt He; simplify_eq/=; try lia.
    all: repeat (apply elem_of_cons in He as [->|He]; [vm_compute; congruence|]); by apply elem_of_nil in He.
  - simpl. lia.
  - split; [done|simpl; lia].
  - vm_compute. reflexivity.
Defined.
