(* ===== verification/Merger.v ===== *)
(** table/merger.h and table/merger.cc: an iterator over the union of the entries
    of its children, in order.  It remembers the direction it moves in; a change
    of direction repositions the children that are not current. *)

From stdpp Require Import base list option sorting strings.
From S2P Require Import Prelude Status Comparator Iterator TwoLevel.

#[local] Open Scope Z_scope.

Inductive Direction := kForward | kReverse.

(** [current_]: the index of a child, or null. *)
Record MergingIterator (I : Type) := mkMerging {
  children_ : list (IteratorWrapper I);
  merge_current_ : option nat;
  direction_ : Direction;
}.
Arguments mkMerging {I} _ _ _.
Arguments children_ {I} _.
Arguments merge_current_ {I} _.
Arguments direction_ {I} _.

Section Merging.
Context {I : Type} `{!Iterator I} (comparator_ : Comparator).
#[local] Abbreviation W := (IteratorWrapper I).
#[local] Abbreviation M := (MergingIterator I).

Definition newMergingIterator (children : list I) : M :=
  mkMerging (map wrapper_Set children) None kForward.

(** A loop over the children, with their indexes. *)
Fixpoint each_child (f : nat -> W -> option W) (i : nat) (ws : list W) : option (list W) :=
  match ws with
  | [] => Some []
  | w :: ws' => w ← f i w; ws' ← each_child f (S i) ws'; Some (w :: ws')
  end.

Definition smaller_child (i : nat) (child : W) (smallest : option (nat * W)) : option (nat * W) :=
  if Valid child then
    match smallest with
    | None => Some (i, child)
    | Some (_, s) => if Compare (key child) (key s) <? 0 then Some (i, child) else smallest
    end
  else smallest.

(** From the first child to the last. *)
Fixpoint smallest_loop (i : nat) (ws : list W) (smallest : option (nat * W)) : option (nat * W) :=
  match ws with
  | [] => smallest
  | child :: ws' => smallest_loop (S i) ws' (smaller_child i child smallest)
  end.

Definition FindSmallest (m : M) : M :=
  mkMerging (children_ m) (fst <$> smallest_loop 0 (children_ m) None) (direction_ m).

Definition larger_child (i : nat) (child : W) (largest : option (nat * W)) : option (nat * W) :=
  if Valid child then
    match largest with
    | None => Some (i, child)
    | Some (_, s) => if 0 <? Compare (key child) (key s) then Some (i, child) else largest
    end
  else largest.

(** From the last child to the first. *)
Fixpoint largest_loop (i : nat) (ws : list W) : option (nat * W) :=
  match ws with
  | [] => None
  | child :: ws' => larger_child i child (largest_loop (S i) ws')
  end.

Definition FindLargest (m : M) : M :=
  mkMerging (children_ m) (fst <$> largest_loop 0 (children_ m)) (direction_ m).

Definition with_direction (d : Direction) (m : M) : M :=
  mkMerging (children_ m) (merge_current_ m) d.
Definition on_children (f : nat -> W -> option W) (m : M) : option M :=
  ws ← each_child f 0 (children_ m); Some (mkMerging ws (merge_current_ m) (direction_ m)).

Definition merge_SeekToFirst (m : M) : option M :=
  m ← on_children (fun _ => SeekToFirst) m; Some (with_direction kForward (FindSmallest m)).
Definition merge_SeekToLast (m : M) : option M :=
  m ← on_children (fun _ => SeekToLast) m; Some (with_direction kReverse (FindLargest m)).
Definition merge_Seek (m : M) (target : bytes) : option M :=
  m ← on_children (fun _ w => Seek w target) m; Some (with_direction kForward (FindSmallest m)).

(** The current child. *)
Definition current_child (m : M) : option W :=
  c ← merge_current_ m; children_ m !! c.

(** A child that is not current, before a [Next] that changes the direction. *)
Definition turn_forward (c : nat) (k : bytes) (i : nat) (child : W) : option W :=
  if (i =? c)%nat then Some child
  else
    child ← Seek child k;
    if Valid child && (Compare k (key child) =? 0) then Next child else Some child.

Definition turn_reverse (c : nat) (k : bytes) (i : nat) (child : W) : option W :=
  if (i =? c)%nat then Some child
  else
    child ← Seek child k;
    if Valid child then Prev child else SeekToLast child.

(** An operation of the current child. *)
Definition on_current (f : W -> option W) (m : M) : option M :=
  c ← merge_current_ m;
  w ← children_ m !! c;
  w ← f w;
  Some (mkMerging (<[c := w]> (children_ m)) (merge_current_ m) (direction_ m)).

Definition merge_Next (m : M) : option M :=
  c ← merge_current_ m;
  cur ← current_child m;
  m ← (match direction_ m with
       | kForward => Some m
       | kReverse => m ← on_children (turn_forward c (key cur)) m; Some (with_direction kForward m)
       end);
  m ← on_current Next m;
  Some (FindSmallest m).

Definition merge_Prev (m : M) : option M :=
  c ← merge_current_ m;
  cur ← current_child m;
  m ← (match direction_ m with
       | kReverse => Some m
       | kForward => m ← on_children (turn_reverse c (key cur)) m; Some (with_direction kReverse m)
       end);
  m ← on_current Prev m;
  Some (FindLargest m).

(** The first status that is not OK. *)
Fixpoint children_status (ws : list W) : Status :=
  match ws with
  | [] => OK
  | w :: ws' => if ok (status w) then children_status ws' else status w
  end.

#[export] Instance MergingIterator_iterator : Iterator M := {|
  Valid m := match merge_current_ m with Some _ => true | None => false end;
  Seek := merge_Seek; SeekToFirst := merge_SeekToFirst; SeekToLast := merge_SeekToLast;
  Next := merge_Next; Prev := merge_Prev;
  key m := match current_child m with Some w => key w | None => [] end;
  value m := match current_child m with Some w => value w | None => [] end;
  status m := children_status (children_ m) |}.

(** What [NewMergingIterator] returns for no child, one and several. *)
Inductive Merged :=
  | MergedNone (it : EmptyIterator)
  | MergedOne (it : I)
  | MergedMany (it : M).

Definition NewMergingIterator (children : list I) : Merged :=
  match children with
  | [] => MergedNone NewEmptyIterator
  | [child] => MergedOne child
  | _ => MergedMany (newMergingIterator children)
  end.

Definition merged_step (op : IterOp) (m : Merged) : option Merged :=
  match m with
  | MergedNone it => MergedNone <$> iter_step it op
  | MergedOne it => MergedOne <$> iter_step it op
  | MergedMany it => MergedMany <$> iter_step it op
  end.

Definition merged_obs {A} (f : forall J : Type, Iterator J -> J -> A) (m : Merged) : A :=
  match m with
  | MergedNone it => f _ _ it
  | MergedOne it => f _ _ it
  | MergedMany it => f _ _ it
  end.

#[export] Instance Merged_iterator : Iterator Merged := {|
  Valid := merged_obs (fun J _ => Valid);
  Seek m target := merged_step (OpSeek target) m;
  SeekToFirst := merged_step OpSeekToFirst; SeekToLast := merged_step OpSeekToLast;
  Next := merged_step OpNext; Prev := merged_step OpPrev;
  key := merged_obs (fun J _ => key); value := merged_obs (fun J _ => value);
  status := merged_obs (fun J _ => status) |}.
End Merging.
Arguments Merged I : clear implicits.
