(* ===== verification/MergerProofs.v ===== *)
(** The merging iterator (Merger) walks the merge of the lists of its children, in
    both directions and with turns anywhere. *)

From stdpp Require Import base list option sorting strings.
From S2P Require Import Prelude Status Comparator Iterator TwoLevel Merger.

#[local] Open Scope Z_scope.

(** * Cuts of sorted lists *)

Section Cuts.
Context {cmp : Comparator} {cmp_ok : ComparatorOk}.
#[local] Abbreviation sorted := (StronglySorted (entry_lt (cmp := cmp))).

(** A cut: a set of keys that holds with a key all smaller ones. *)
Definition down (P : bytes -> bool) : Prop :=
  forall a b, Compare a b < 0 -> P b = true -> P a = true.

Definition cut (P : bytes -> bool) (l : list (bytes * bytes)) : nat :=
  length (List.filter (fun e => P e.1) l).

(** The position before a cut, from which one goes backwards. *)
Definition before_cut (P : bytes -> bool) (l : list (bytes * bytes)) : nat :=
  match cut P l with O => length l | S n => n end.

Definition less (k : bytes) : bytes -> bool := fun a => Compare a k <? 0.
Definition less_eq (k : bytes) : bytes -> bool := fun a => Compare a k <=? 0.

Lemma down_less k : down (less k).
Proof.
  intros a b Hab Hb. apply Z.ltb_lt in Hb. apply Z.ltb_lt.
  by apply (tc_lt_trans Compare a b k).
Qed.
Lemma down_less_eq k : down (less_eq k).
Proof.
  intros a b Hab Hb. apply Z.leb_le in Hb. apply Z.leb_le, Z.lt_le_incl.
  by apply (tc_lt_le_trans Compare a b k).
Qed.
Lemma down_const b : down (fun _ => b).
Proof. by intros a c _ Hb. Qed.

Lemma cut_le P l : (cut P l <= length l)%nat.
Proof. apply List.filter_length_le. Qed.

(** A cut splits a sorted list. *)
Lemma cut_lookup P l i e : down P -> sorted l -> l !! i = Some e -> P e.1 = (i <? cut P l)%nat.
Proof.
  intros HP. revert i. unfold cut. induction l as [|x l IH]; intros i Hs Hi; [done|].
  inversion Hs as [|? ? Hs' Hx]; subst. simpl. destruct (P x.1) eqn:Ex.
  - destruct i as [|i]; simpl in *; [by injection Hi as <-|]. rewrite (IH i) by done. done.
  - assert (Hn : List.filter (fun e => P e.1) l = []).
    { rewrite Forall_forall in Hx. clear IH Hs' Hi Hs. induction l as [|y l IH]; [done|]. simpl.
      destruct (P y.1) eqn:Ey; [|apply IH; intros z Hz; apply Hx; by right].
      rewrite (HP x.1 y.1) in Ex; [done| |done]. apply Hx. by left. }
    rewrite Hn. simpl. destruct i as [|i]; simpl in *; [by injection Hi as <-|].
    rewrite (IH i) by done. by rewrite Hn.
Qed.

Lemma cut_at P l e : down P -> sorted l -> l !! cut P l = Some e -> P e.1 = false.
Proof. intros HP Hs He. rewrite (cut_lookup P l _ e HP Hs He). apply Nat.ltb_irrefl. Qed.

Lemma cut_unique P l i : down P -> sorted l -> (i <= length l)%nat ->
  (forall j e, l !! j = Some e -> P e.1 = (j <? i)%nat) -> cut P l = i.
Proof.
  intros HP Hs Hi H. pose proof (cut_le P l). destruct (lt_eq_lt_dec (cut P l) i) as [ [Hlt|Heq]|Hgt]; [|done|].
  - destruct (lookup_lt_is_Some_2 l (cut P l)) as [e He]; [lia|]. pose proof (cut_at P l e HP Hs He) as Hf.
    rewrite (H _ _ He) in Hf. apply Nat.ltb_ge in Hf. lia.
  - destruct (lookup_lt_is_Some_2 l i) as [e He]; [lia|]. pose proof (cut_lookup P l i e HP Hs He) as Hf.
    rewrite (H _ _ He), Nat.ltb_irrefl in Hf. symmetry in Hf. apply Nat.ltb_ge in Hf. lia.
Qed.

Lemma cut_same P Q l : (forall e, e ∈ l -> P e.1 = Q e.1) -> cut P l = cut Q l.
Proof.
  intros H. unfold cut. f_equal. induction l as [|x l IH]; [done|]. simpl.
  rewrite (H x) by (by left). rewrite IH; [done|]. intros e He. apply H. by right.
Qed.

Lemma seek_index_cut k l : sorted l -> seek_index k l = cut (less k) l.
Proof.
  intros Hs. symmetry. apply cut_unique; [apply down_less|done|apply seek_index_le|].
  intros j e He. unfold less. destruct (Nat.ltb_spec j (seek_index k l)).
  - apply Z.ltb_lt. by eapply seek_index_before.
  - apply Z.ltb_ge. by eapply seek_index_after.
Qed.

Lemma cut_false l : cut (fun _ => false) l = 0%nat.
Proof. unfold cut. induction l; done. Qed.
Lemma cut_true l : cut (fun _ => true) l = length l.
Proof. unfold cut. induction l as [|x l IH]; [done|]. simpl. by rewrite IH. Qed.

(** The entry at a position is cut off by its own key. *)
Lemma cut_less_at l i e : sorted l -> l !! i = Some e -> cut (less e.1) l = i.
Proof.
  intros Hs Hi. apply cut_unique; [apply down_less|done|by apply Nat.lt_le_incl, (lookup_lt_Some _ _ _ Hi)|].
  intros j x Hj. unfold less. destruct (lt_eq_lt_dec j i) as [ [Hlt| -> ]|Hgt].
  - rewrite (proj2 (Nat.ltb_lt j i) Hlt). apply Z.ltb_lt.
    exact (sorted_lookup _ l j i x e Hs Hj Hi Hlt).
  - rewrite Hj in Hi. injection Hi as ->. rewrite Nat.ltb_irrefl, (tc_refl Compare). done.
  - rewrite (proj2 (Nat.ltb_ge j i)) by lia. apply Z.ltb_ge.
    pose proof (sorted_lookup _ l i j e x Hs Hi Hj Hgt) as Hx. unfold entry_lt in Hx.
    apply (tc_flip_le Compare e.1 x.1). lia.
Qed.

Lemma cut_less_eq_at l i e : sorted l -> l !! i = Some e -> cut (less_eq e.1) l = S i.
Proof.
  intros Hs Hi. pose proof (lookup_lt_Some _ _ _ Hi). apply cut_unique; [apply down_less_eq|done|lia|].
  intros j x Hj. unfold less_eq. destruct (lt_eq_lt_dec j i) as [ [Hlt| -> ]|Hgt].
  - rewrite (proj2 (Nat.ltb_lt j (S i))) by lia. apply Z.leb_le, Z.lt_le_incl.
    exact (sorted_lookup _ l j i x e Hs Hj Hi Hlt).
  - rewrite Hj in Hi. injection Hi as ->. rewrite (proj2 (Nat.ltb_lt i (S i))) by lia.
    by rewrite (tc_refl Compare).
  - rewrite (proj2 (Nat.ltb_ge j (S i))) by lia. apply Z.leb_gt.
    pose proof (sorted_lookup _ l i j e x Hs Hi Hj Hgt) as Hx. unfold entry_lt in Hx.
    by apply (tc_antisym e.1 x.1).
Qed.
End Cuts.

(** * The merge of sorted lists *)

Section Merge.
Context {cmp : Comparator} {cmp_ok : ComparatorOk}.
#[local] Abbreviation sorted := (StronglySorted (entry_lt (cmp := cmp))).

(** [l] is the merge of [ls], which share no key; the keys can be sought. *)
Record merges (ls : list (list (bytes * bytes))) (l : list (bytes * bytes)) : Prop := {
  merges_sorted : sorted l;
  merges_children : Forall sorted ls;
  merges_elem e : e ∈ l <-> exists j lj, ls !! j = Some lj /\ e ∈ lj;
  merges_apart j k lj lk a b : ls !! j = Some lj -> ls !! k = Some lk -> j <> k ->
    a ∈ lj -> b ∈ lk -> Compare a.1 b.1 <> 0;
  merges_small e : e ∈ l -> blen e.1 < 2 ^ 32;
}.

Lemma sorted_eq l a b : sorted l -> a ∈ l -> b ∈ l -> Compare a.1 b.1 = 0 -> a = b.
Proof.
  intros Hs [i Hi]%list_elem_of_lookup [j Hj]%list_elem_of_lookup He.
  destruct (lt_eq_lt_dec i j) as [ [Hlt|Heq]|Hgt].
  - pose proof (sorted_lookup _ l i j a b Hs Hi Hj Hlt) as Hx. unfold entry_lt in Hx. lia.
  - congruence.
  - pose proof (sorted_lookup _ l j i b a Hs Hj Hi Hgt) as Hx. unfold entry_lt in Hx.
    apply (tc_antisym b.1 a.1) in Hx. lia.
Qed.

Context (ls : list (list (bytes * bytes))) (l : list (bytes * bytes)) (Hm : merges ls l).

Lemma merges_in j lj e : ls !! j = Some lj -> e ∈ lj -> e ∈ l.
Proof. intros. apply (merges_elem _ _ Hm). eauto. Qed.

Lemma merges_child j lj : ls !! j = Some lj -> sorted lj.
Proof. intros Hj. pose proof (merges_children _ _ Hm) as H. rewrite Forall_forall in H. by eapply H, list_elem_of_lookup_2. Qed.

(** [e] is the first entry outside the cut, or the last one inside. *)
Definition first_after (P : bytes -> bool) (e : bytes * bytes) : Prop :=
  e ∈ l /\ P e.1 = false /\ forall x, x ∈ l -> P x.1 = false -> 0 <= Compare x.1 e.1.
Definition last_before (P : bytes -> bool) (e : bytes * bytes) : Prop :=
  e ∈ l /\ P e.1 = true /\ forall x, x ∈ l -> P x.1 = true -> Compare x.1 e.1 <= 0.

Lemma first_after_less P e x : down P -> first_after P e -> x ∈ l -> P x.1 = less e.1 x.1.
Proof.
  intros HP (He & Hf & Hmin) Hx. unfold less. destruct (P x.1) eqn:Ex; symmetry.
  - apply Z.ltb_lt. destruct (Z.lt_trichotomy (Compare x.1 e.1) 0) as [|[Hz|Hz]]; [done| |].
    + rewrite (sorted_eq l x e (merges_sorted _ _ Hm) Hx He Hz) in Ex. congruence.
    + apply (tc_antisym e.1 x.1) in Hz. rewrite (HP _ _ Hz Ex) in Hf. done.
  - apply Z.ltb_ge. by apply Hmin.
Qed.

Lemma last_before_less_eq P e x : down P -> last_before P e -> x ∈ l -> P x.1 = less_eq e.1 x.1.
Proof.
  intros HP (He & Hf & Hmax) Hx. unfold less_eq. destruct (P x.1) eqn:Ex; symmetry.
  - apply Z.leb_le. by apply Hmax.
  - apply Z.leb_gt. destruct (Z.lt_trichotomy (Compare x.1 e.1) 0) as [Hz|[Hz|Hz]]; [| |done].
    + rewrite (HP _ _ Hz Hf) in Ex. done.
    + rewrite (sorted_eq l x e (merges_sorted _ _ Hm) Hx He Hz) in Ex. congruence.
Qed.

(** In the children other than the one of [e], its key does not occur. *)
Lemma other_less_eq c j lc lj e : ls !! c = Some lc -> ls !! j = Some lj -> j <> c -> e ∈ lc ->
  cut (less_eq e.1) lj = cut (less e.1) lj.
Proof.
  intros Hc Hj Hne He. apply cut_same. intros x Hx. unfold less_eq, less.
  pose proof (merges_apart _ _ Hm _ _ _ _ _ _ Hj Hc Hne Hx He). bcase; lia.
Qed.

Lemma first_after_cut P e j lj : down P -> first_after P e -> ls !! j = Some lj ->
  cut P lj = cut (less e.1) lj.
Proof.
  intros HP He Hj. apply cut_same. intros x Hx. by apply first_after_less, (merges_in j lj).
Qed.

Lemma last_before_cut P e j lj : down P -> last_before P e -> ls !! j = Some lj ->
  cut P lj = cut (less_eq e.1) lj.
Proof.
  intros HP He Hj. apply cut_same. intros x Hx. by apply last_before_less_eq, (merges_in j lj).
Qed.

Lemma first_after_at P e : down P -> first_after P e -> l !! cut P l = Some e.
Proof.
  intros HP He. destruct He as (Hin & He). pose proof Hin as [i Hi]%list_elem_of_lookup.
  rewrite (cut_same P (less e.1) l) by (intros x Hx; by apply first_after_less).
  by rewrite (cut_less_at l i e (merges_sorted _ _ Hm) Hi).
Qed.

Lemma last_before_at P e : down P -> last_before P e -> l !! before_cut P l = Some e.
Proof.
  intros HP He. destruct He as (Hin & He). pose proof Hin as [i Hi]%list_elem_of_lookup. unfold before_cut.
  rewrite (cut_same P (less_eq e.1) l) by (intros x Hx; by apply last_before_less_eq).
  by rewrite (cut_less_eq_at l i e (merges_sorted _ _ Hm) Hi).
Qed.

Lemma all_in_cut P : (forall x, x ∈ l -> P x.1 = true) -> cut P l = length l.
Proof. intros H. rewrite <- (cut_true l). apply cut_same. intros x Hx. by rewrite H. Qed.

Lemma none_in_cut P : (forall x, x ∈ l -> P x.1 = false) -> before_cut P l = length l.
Proof. intros H. unfold before_cut. rewrite (cut_same P (fun _ => false)) by done. by rewrite cut_false. Qed.
End Merge.
Arguments merges {cmp} _ _.

(** * The loops over the children *)

Section Loops.
Context {I : Type} `{!Iterator I} {cmp : Comparator} {cmp_ok : ComparatorOk} `{!IteratorOk I cmp}.
#[local] Abbreviation W := (IteratorWrapper I).
#[local] Abbreviation entries := (list (bytes * bytes)).

(** Every child is where [pos] says. *)
Definition children_at (pos : nat -> entries -> nat) (ws : list W) (ls : list entries) : Prop :=
  length ws = length ls /\
  forall j w lj, ws !! j = Some w -> ls !! j = Some lj -> at_pos w lj (pos j lj).

Lemma children_at_ext pos pos' ws ls : children_at pos ws ls ->
  (forall j lj, ls !! j = Some lj -> pos j lj = pos' j lj) -> children_at pos' ws ls.
Proof. intros [Hl Hc] He. split; [done|]. intros j w lj Hw Hj. rewrite <- He by done. by apply Hc. Qed.

Lemma each_child_spec (f : nat -> W -> option W) (pos pos' : nat -> entries -> nat) ws : forall ls k,
  length ws = length ls ->
  (forall j w lj, ws !! j = Some w -> ls !! j = Some lj -> at_pos w lj (pos (k + j)%nat lj)) ->
  (forall j w lj, ls !! j = Some lj -> at_pos w lj (pos (k + j)%nat lj) ->
     exists w', f (k + j)%nat w = Some w' /\ at_pos w' lj (pos' (k + j)%nat lj)) ->
  exists ws', each_child f k ws = Some ws' /\ length ws' = length ls /\
    forall j w lj, ws' !! j = Some w -> ls !! j = Some lj -> at_pos w lj (pos' (k + j)%nat lj).
Proof.
  induction ws as [|w ws IH]; intros [|l0 ls] k Hl Hc Hf; try done; [by exists []|]. injection Hl as Hl.
  destruct (Hf 0%nat w l0 eq_refl (Hc 0%nat w l0 eq_refl eq_refl)) as (w' & Ew & Hw').
  rewrite Nat.add_0_r in Ew, Hw'.
  destruct (IH ls (S k) Hl) as (ws' & Ews & Hl' & Hc').
  { intros j x lj Hx Hj. rewrite Nat.add_succ_comm. by apply (Hc (S j)). }
  { intros j x lj Hj. rewrite Nat.add_succ_comm. by apply (Hf (S j)). }
  exists (w' :: ws'). cbn [each_child]. rewrite Ew. cbn [mbind option_bind]. rewrite Ews.
  split; [done|]. split; [simpl; congruence|]. intros [|j] x lj Hx Hj; simpl in Hx, Hj.
  - simplify_eq. by rewrite Nat.add_0_r.
  - rewrite <- Nat.add_succ_comm. by apply Hc'.
Qed.

Lemma on_children_ok f pos pos' (m : MergingIterator I) ls : children_at pos (children_ m) ls ->
  (forall j w lj, ls !! j = Some lj -> at_pos w lj (pos j lj) ->
     exists w', f j w = Some w' /\ at_pos w' lj (pos' j lj)) ->
  exists ws, on_children f m = Some (mkMerging ws (merge_current_ m) (direction_ m)) /\
    children_at pos' ws ls.
Proof.
  intros [Hl Hc] Hf. destruct (each_child_spec f pos pos' (children_ m) ls 0 Hl Hc Hf) as (ws & E & Hl' & Hc').
  exists ws. unfold on_children. rewrite E. by split.
Qed.

Lemma on_current_ok (f : W -> option W) pos q (m : MergingIterator I) ls c lc :
  children_at pos (children_ m) ls -> merge_current_ m = Some c -> ls !! c = Some lc ->
  (forall w, at_pos w lc (pos c lc) -> exists w', f w = Some w' /\ at_pos w' lc q) ->
  exists ws, on_current f m = Some (mkMerging ws (Some c) (direction_ m)) /\
    children_at (fun j lj => if (j =? c)%nat then q else pos j lj) ws ls.
Proof.
  intros [Hl Hc] Em Ec Hf.
  destruct (lookup_lt_is_Some_2 (children_ m) c) as [w Hw]; [rewrite Hl; by eapply lookup_lt_Some|].
  destruct (Hf w (Hc _ _ _ Hw Ec)) as (w' & Ew & Hw'). unfold on_current. rewrite Em. cbn [mbind option_bind].
  rewrite Hw. cbn [mbind option_bind]. rewrite Ew. eexists. split; [done|]. split; [by rewrite length_insert|].
  intros j x lj Hx Hj. destruct (Nat.eqb_spec j c) as [->|Hne].
  - rewrite list_lookup_insert_eq in Hx by (by eapply lookup_lt_Some). by simplify_eq.
  - rewrite list_lookup_insert_ne in Hx by done. by apply Hc.
Qed.

Lemma smallest_loop_spec (ws : list W) : forall i acc,
  match smallest_loop cmp i ws acc with
  | None => acc = None /\ forall j w, ws !! j = Some w -> Valid w = false
  | Some (c, w) =>
      (acc = Some (c, w) \/ exists j, c = (i + j)%nat /\ ws !! j = Some w /\ Valid w = true) /\
      (forall j x, ws !! j = Some x -> Valid x = true -> 0 <= Compare (key x) (key w)) /\
      (forall c' x, acc = Some (c', x) -> 0 <= Compare (key x) (key w))
  end.
Proof.
  induction ws as [|w ws IH]; intros i acc; cbn [smallest_loop].
  { destruct acc as [[c w]|]; [|by split]. split; [by left|]. split; [done|].
    intros c' x [= <- <-]. by rewrite (tc_refl Compare). }
  specialize (IH (S i) (smaller_child cmp i w acc)).
  destruct (smallest_loop cmp (S i) ws (smaller_child cmp i w acc)) as [[c s]|].
  - destruct IH as (Hc & Hws & Hacc). unfold smaller_child in Hc, Hacc. split; [|split].
    + destruct Hc as [Hc|(j & -> & Hj & Hv)]; [|right; exists (S j); split; [lia|done]].
      destruct (Valid w) eqn:Ev; [|by left]. destruct acc as [[c' w']|].
      * destruct (_ <? 0); [|by left]. injection Hc as <- <-. right. exists 0%nat. split; [lia|done].
      * injection Hc as <- <-. right. exists 0%nat. split; [lia|done].
    + intros [|j] x Hx Hvx; [|by eapply Hws]. injection Hx as ->. rewrite Hvx in Hacc.
      destruct acc as [[c' w']|]; [|by eapply Hacc].
      destruct (Z.ltb_spec (Compare (key x) (key w')) 0); [by eapply Hacc|].
      pose proof (Hacc _ _ eq_refl) as Hs. apply (tc_flip_le Compare (key s) (key x)).
      apply (tc_le_trans _ (key w')); by apply (tc_flip_le Compare).
    + intros c' x ->. destruct (Valid w); [|by eapply Hacc].
      destruct (Z.ltb_spec (Compare (key w) (key x)) 0) as [Hlt|]; [|by eapply Hacc].
      pose proof (Hacc _ _ eq_refl) as Hs. apply (tc_flip_le Compare (key s) (key x)).
      apply (tc_le_trans _ (key w)); [by apply (tc_flip_le Compare)|lia].
  - destruct IH as [Ha Hws]. unfold smaller_child in Ha. destruct (Valid w) eqn:Ev.
    + destruct acc as [[c' w']|]; [|done]. by destruct (_ <? 0).
    + split; [done|]. intros [|j] x Hx; [by injection Hx as <-|by eapply Hws].
Qed.

Lemma largest_loop_spec (ws : list W) : forall i,
  match largest_loop cmp i ws with
  | None => forall j w, ws !! j = Some w -> Valid w = false
  | Some (c, w) =>
      (exists j, c = (i + j)%nat /\ ws !! j = Some w /\ Valid w = true) /\
      (forall j x, ws !! j = Some x -> Valid x = true -> Compare (key x) (key w) <= 0)
  end.
Proof.
  induction ws as [|w ws IH]; intros i; cbn [largest_loop]; [done|]. specialize (IH (S i)). unfold larger_child.
  destruct (largest_loop cmp (S i) ws) as [[c s]|].
  - destruct IH as ((j & -> & Hj & Hvs) & Hws). destruct (Valid w) eqn:Ev.
    + destruct (Z.ltb_spec 0 (Compare (key w) (key s))) as [Hlt|Hge].
      * split; [exists 0%nat; split; [lia|done]|]. intros [|j'] x Hx Hvx.
        -- injection Hx as <-. by rewrite (tc_refl Compare).
        -- apply (tc_le_trans _ (key s)); [by eapply Hws|]. apply (tc_flip_le Compare). lia.
      * split; [exists (S j); split; [lia|done]|]. intros [|j'] x Hx Hvx; [by injection Hx as <-|by eapply Hws].
    + split; [exists (S j); split; [lia|done]|]. intros [|j'] x Hx Hvx; [injection Hx as <-; congruence|by eapply Hws].
  - destruct (Valid w) eqn:Ev.
    + split; [exists 0%nat; split; [lia|done]|]. intros [|j] x Hx Hvx; [|by rewrite (IH _ _ Hx) in Hvx].
      injection Hx as <-. by rewrite (tc_refl Compare).
    + intros [|j] x Hx; [by injection Hx as <-|by eapply IH].
Qed.
End Loops.

(** * The iterator walks the merge *)

Section Refinement.
Context {I : Type} `{!Iterator I} {cmp : Comparator} {cmp_ok : ComparatorOk} `{!IteratorOk I cmp}.
#[local] Abbreviation W := (IteratorWrapper I).
#[local] Abbreviation M := (MergingIterator I).
#[local] Abbreviation entries := (list (bytes * bytes)).
#[local] Abbreviation sorted := (StronglySorted (entry_lt (cmp := cmp))).
#[local] Existing Instance MergingIterator_iterator.

(** Where the children are when the entry [e] of the child [c] is shown: moving
    forward, each at its first entry that is not before [e]; moving backwards,
    the others at their last entry before [e]. *)
Definition dir_pos (d : Direction) (c : nat) (k : bytes) (j : nat) (lj : entries) : nat :=
  match d with
  | kForward => cut (less k) lj
  | kReverse => if (j =? c)%nat then cut (less k) lj else before_cut (less k) lj
  end.

Definition merge_at (m : M) (l : entries) (p : nat) : Prop :=
  exists ls, merges ls l /\
    match merge_current_ m with
    | None => p = length l /\ exists pos, children_at pos (children_ m) ls
    | Some c => exists lc e, l !! p = Some e /\ ls !! c = Some lc /\ e ∈ lc /\
        children_at (dir_pos (direction_ m) c e.1) (children_ m) ls
    end.

Section Fixed.
Context (ls : list entries) (l : entries) (Hm : merges ls l).
#[local] Abbreviation child_sorted := (merges_child ls l Hm).

Lemma child_index c lc e : ls !! c = Some lc -> e ∈ lc -> lc !! cut (less e.1) lc = Some e.
Proof.
  intros Hc [i Hi]%list_elem_of_lookup. by rewrite (cut_less_at lc i e (child_sorted c lc Hc) Hi).
Qed.

Lemma child_observe (w : W) lj i : at_pos w lj i ->
  (Valid w = true /\ exists e, lj !! i = Some e /\ key w = e.1) \/ (Valid w = false /\ i = length lj).
Proof.
  intros Ha. pose proof (at_pos_le _ _ _ Ha). destruct (lj !! i) as [e|] eqn:E.
  - left. destruct (at_entry _ _ _ _ Ha E) as (? & ? & _). eauto.
  - right. apply lookup_ge_None in E. assert (i = length lj) as -> by lia. split; [by eapply at_end|done].
Qed.

(** The child that an entry of the merge comes from. *)
Lemma entry_child pos ws x : children_at pos ws ls -> x ∈ l -> exists k lk wk i,
  ls !! k = Some lk /\ ws !! k = Some wk /\ lk !! i = Some x /\ (i < length lk)%nat /\
  sorted lk /\ at_pos wk lk (pos k lk).
Proof.
  intros [Hlen Hat] Hx. apply (merges_elem _ _ Hm) in Hx as (k & lk & Hlk & [i Hi]%list_elem_of_lookup).
  destruct (lookup_lt_is_Some_2 ws k) as [wk Hwk]; [rewrite Hlen; by eapply lookup_lt_Some|].
  exists k, lk, wk, i. split; [done|]. split; [done|]. split; [done|]. split; [by eapply lookup_lt_Some|].
  split; [by eapply child_sorted|by apply Hat].
Qed.

(** The smallest key shown by children that are at a cut. *)
Lemma smallest_first P ws (w : W) lc j e : down P -> children_at (fun _ => cut P) ws ls ->
  ls !! j = Some lc -> lc !! cut P lc = Some e -> key w = e.1 ->
  (forall k (x : W), ws !! k = Some x -> Valid x = true -> 0 <= Compare (key x) (key w)) ->
  first_after l P e.
Proof.
  intros HP Hc Hlc He Hk Hmin. pose proof (list_elem_of_lookup_2 _ _ _ He) as Hin.
  split; [by eapply merges_in|]. split; [exact (cut_at P lc e HP (child_sorted _ _ Hlc) He)|].
  intros x Hx Hf. destruct (entry_child _ _ x Hc Hx) as (k & lk & wk & i & Hlk & Hwk & Hi & Hlt & Hsk & Ha).
  pose proof (cut_lookup P lk i x HP Hsk Hi) as Hci. rewrite Hf in Hci. symmetry in Hci. apply Nat.ltb_ge in Hci.
  destruct (child_observe _ _ _ Ha) as [(Hvk & y & Hy & Hky)|[_ Hbad]]; [|lia].
  specialize (Hmin _ _ Hwk Hvk). rewrite Hk, Hky in Hmin.
  destruct (decide (cut P lk = i)) as [<-|Hne]; [rewrite Hi in Hy; by injection Hy as ->|].
  pose proof (sorted_lookup _ _ _ _ _ _ Hsk Hy Hi ltac:(lia)) as Hxy. unfold entry_lt in Hxy.
  apply (tc_flip_le Compare e.1 x.1), (tc_le_trans _ y.1); [by apply (tc_flip_le Compare)|lia].
Qed.

(** [FindSmallest] with all children at a cut. *)
Lemma FindSmallest_ok P (m : M) : down P -> children_at (fun _ => cut P) (children_ m) ls ->
  merge_at (with_direction kForward (FindSmallest cmp m)) l (cut P l).
Proof.
  intros HP Hc. pose proof Hc as [Hlen Hat]. exists ls. split; [done|].
  pose proof (smallest_loop_spec (children_ m) 0 None) as H.
  cbn [merge_current_ children_ direction_ with_direction FindSmallest].
  destruct (smallest_loop cmp 0 (children_ m) None) as [[c w]|]; cbn [fmap option_fmap option_map fst].
  - destruct H as ([H|(j & -> & Hj & Hv)] & Hmin & _); [done|]. rewrite Nat.add_0_l.
    destruct (lookup_lt_is_Some_2 ls j) as [lc Hlc]; [rewrite <- Hlen; by eapply lookup_lt_Some|].
    destruct (child_observe _ _ _ (Hat _ _ _ Hj Hlc)) as [(_ & e & He & Hk)|[Hv' _]]; [|congruence].
    pose proof (smallest_first P _ w lc j e HP Hc Hlc He Hk Hmin) as Hfirst.
    exists lc, e. split; [by apply (first_after_at ls l Hm)|]. split; [done|].
    split; [by eapply list_elem_of_lookup_2|].
    eapply children_at_ext; [exact Hc|]. intros k lk Hlk. by apply (first_after_cut ls l Hm P e k).
  - destruct H as [_ Hall]. split; [|by exists (fun _ => cut P)]. apply all_in_cut. intros x Hx.
    destruct (entry_child _ _ x Hc Hx) as (k & lk & wk & i & Hlk & Hwk & Hi & Hlt & Hsk & Ha).
    destruct (child_observe _ _ _ Ha) as [(Hv & _)|[_ He]]; [by rewrite (Hall _ _ Hwk) in Hv|].
    rewrite (cut_lookup P lk i x HP Hsk Hi), He. by apply Nat.ltb_lt.
Qed.

(** What a child shows that is before a cut. *)
Lemma before_cut_entry P lk y : down P -> sorted lk -> lk !! before_cut P lk = Some y ->
  P y.1 = true /\ forall x, x ∈ lk -> P x.1 = true -> Compare x.1 y.1 <= 0.
Proof.
  intros HP Hsk Hy. unfold before_cut in Hy.
  destruct (cut P lk) as [|n] eqn:Ecut; [rewrite lookup_ge_None_2 in Hy by lia; done|].
  split; [rewrite (cut_lookup P lk n y HP Hsk Hy), Ecut; apply Nat.ltb_lt; lia|].
  intros x [i Hi]%list_elem_of_lookup Hpx. rewrite (cut_lookup P lk i x HP Hsk Hi), Ecut in Hpx.
  apply Nat.ltb_lt in Hpx. destruct (decide (i = n)) as [->|Hne].
  - rewrite Hi in Hy. injection Hy as ->. by rewrite (tc_refl Compare).
  - pose proof (sorted_lookup _ _ _ _ _ _ Hsk Hi Hy ltac:(lia)) as Hlt. unfold entry_lt in Hlt. lia.
Qed.

(** A child that is before a cut and shows nothing has no entry in it. *)
Lemma before_cut_end P lk i x : down P -> sorted lk -> before_cut P lk = length lk -> lk !! i = Some x ->
  P x.1 = false.
Proof.
  intros HP Hsk He Hi. rewrite (cut_lookup P lk i x HP Hsk Hi).
  pose proof (lookup_lt_Some _ _ _ Hi). pose proof (cut_le P lk). unfold before_cut in He.
  apply Nat.ltb_ge. destruct (cut P lk); lia.
Qed.

Lemma largest_last P ws (w : W) lc j e : down P -> children_at (fun _ => before_cut P) ws ls ->
  ls !! j = Some lc -> lc !! before_cut P lc = Some e -> key w = e.1 ->
  (forall k (x : W), ws !! k = Some x -> Valid x = true -> Compare (key x) (key w) <= 0) ->
  last_before l P e.
Proof.
  intros HP Hc Hlc He Hk Hmax. pose proof (list_elem_of_lookup_2 _ _ _ He) as Hin.
  split; [by eapply merges_in|].
  split; [exact (proj1 (before_cut_entry P lc e HP (child_sorted _ _ Hlc) He))|].
  intros x Hx Hf. destruct (entry_child _ _ x Hc Hx) as (k & lk & wk & i & Hlk & Hwk & Hi & Hlt & Hsk & Ha).
  destruct (child_observe _ _ _ Ha) as [(Hvk & y & Hy & Hky)|[_ Hbad]].
  - specialize (Hmax _ _ Hwk Hvk). rewrite Hk, Hky in Hmax.
    apply (tc_le_trans _ y.1); [|done].
    apply (before_cut_entry P lk y HP Hsk Hy); [by eapply list_elem_of_lookup_2|done].
  - rewrite (before_cut_end P lk i x) in Hf; done.
Qed.

Lemma FindLargest_ok P (m : M) : down P -> children_at (fun _ => before_cut P) (children_ m) ls ->
  merge_at (with_direction kReverse (FindLargest cmp m)) l (before_cut P l).
Proof.
  intros HP Hc. pose proof Hc as [Hlen Hat]. exists ls. split; [done|].
  pose proof (largest_loop_spec (children_ m) 0) as H.
  cbn [merge_current_ children_ direction_ with_direction FindLargest].
  destruct (largest_loop cmp 0 (children_ m)) as [[c w]|]; cbn [fmap option_fmap option_map fst].
  - destruct H as ((j & -> & Hj & Hv) & Hmax). rewrite Nat.add_0_l.
    destruct (lookup_lt_is_Some_2 ls j) as [lc Hlc]; [rewrite <- Hlen; by eapply lookup_lt_Some|].
    destruct (child_observe _ _ _ (Hat _ _ _ Hj Hlc)) as [(_ & e & He & Hk)|[Hv' _]]; [|congruence].
    pose proof (list_elem_of_lookup_2 _ _ _ He) as Hin.
    pose proof (largest_last P _ w lc j e HP Hc Hlc He Hk Hmax) as Hlast.
    exists lc, e. split; [by apply (last_before_at ls l Hm)|]. split; [done|]. split; [done|].
    eapply children_at_ext; [exact Hc|]. intros k lk Hlk. unfold dir_pos, before_cut.
    rewrite (last_before_cut ls l Hm P e k lk HP Hlast Hlk). destruct (Nat.eqb_spec k j) as [->|Hne].
    + rewrite Hlc in Hlk. injection Hlk as <-. pose proof Hin as [i Hi]%list_elem_of_lookup.
      by rewrite (cut_less_at lc i e (child_sorted _ _ Hlc) Hi), (cut_less_eq_at lc i e (child_sorted _ _ Hlc) Hi).
    + by rewrite (other_less_eq ls l Hm j k lc lk e Hlc Hlk Hne Hin).
  - split; [|by exists (fun _ => before_cut P)]. apply none_in_cut. intros x Hx.
    destruct (entry_child _ _ x Hc Hx) as (k & lk & wk & i & Hlk & Hwk & Hi & Hlt & Hsk & Ha).
    destruct (child_observe _ _ _ Ha) as [(Hv & _)|[_ He]]; [by rewrite (H _ _ Hwk) in Hv|].
    by apply (before_cut_end P lk i x).
Qed.

(** The loops that turn the direction bring the children to one place. *)
Lemma turn_forward_ok (m : M) c lc e : merge_current_ m = Some c -> ls !! c = Some lc -> e ∈ lc ->
  children_at (dir_pos (direction_ m) c e.1) (children_ m) ls ->
  exists ws, on_children (turn_forward cmp c e.1) m = Some (mkMerging ws (Some c) (direction_ m)) /\
    children_at (fun _ => cut (less e.1)) ws ls.
Proof.
  intros Em Hlc He Hc. rewrite <- Em. eapply on_children_ok; [exact Hc|].
  intros j w lj Hj Ha. unfold turn_forward. destruct (Nat.eqb_spec j c) as [->|Hne].
  - exists w. split; [done|]. unfold dir_pos in Ha. rewrite Nat.eqb_refl in Ha. by destruct (direction_ m).
  - destruct (Seek_ok w lj _ e.1 Ha (merges_small _ _ Hm e (merges_in _ _ Hm _ _ _ Hlc He))) as (w' & -> & Hw'). cbn [mbind option_bind].
    rewrite (seek_index_cut e.1 lj (child_sorted _ _ Hj)) in Hw'. exists w'. split; [|done].
    destruct (child_observe _ _ _ Hw') as [(-> & y & Hy & ->)|[-> _]]; [|done]. cbn [andb].
    destruct (Z.eqb_spec (Compare e.1 y.1) 0) as [Hz|]; [|done].
    destruct (merges_apart _ _ Hm _ _ _ _ _ _ Hlc Hj (not_eq_sym Hne) He (list_elem_of_lookup_2 _ _ _ Hy) Hz).
Qed.

Lemma turn_reverse_ok (m : M) c lc e : merge_current_ m = Some c -> ls !! c = Some lc -> e ∈ lc ->
  children_at (dir_pos kForward c e.1) (children_ m) ls ->
  exists ws, on_children (turn_reverse c e.1) m = Some (mkMerging ws (Some c) (direction_ m)) /\
    children_at (dir_pos kReverse c e.1) ws ls.
Proof.
  intros Em Hlc He Hc. rewrite <- Em. eapply on_children_ok; [exact Hc|].
  intros j w lj Hj Ha. unfold turn_reverse, dir_pos. destruct (Nat.eqb_spec j c) as [->|Hne]; [eauto|].
  destruct (Seek_ok w lj _ e.1 Ha (merges_small _ _ Hm e (merges_in _ _ Hm _ _ _ Hlc He))) as (w' & -> & Hw'). cbn [mbind option_bind].
  rewrite (seek_index_cut e.1 lj (child_sorted _ _ Hj)) in Hw'. unfold before_cut.
  destruct (child_observe _ _ _ Hw') as [(-> & y & Hy & _)|[-> Hend]].
  - apply Prev_ok; [done|by eapply lookup_lt_Some].
  - destruct (SeekToLast_ok w' lj _ Hw') as (w2 & -> & H2). exists w2. split; [done|]. rewrite Hend.
    destruct (length lj) as [|n] eqn:En; simpl in H2; [done|]. by rewrite Nat.sub_0_r in H2.
Qed.

Lemma next_children (m : M) c lc e : merge_current_ m = Some c -> ls !! c = Some lc -> e ∈ lc ->
  children_at (fun _ => cut (less e.1)) (children_ m) ls ->
  exists ws, on_current Next m = Some (mkMerging ws (Some c) (direction_ m)) /\
    children_at (fun _ => cut (less_eq e.1)) ws ls.
Proof.
  intros Em Hlc He Hc. pose proof (child_index c lc e Hlc He) as Hi. pose proof (lookup_lt_Some _ _ _ Hi).
  destruct (on_current_ok Next _ (S (cut (less e.1) lc)) m ls c lc Hc Em Hlc) as (ws & E & Hws).
  { intros w Hw. by apply Next_ok. }
  exists ws. split; [done|]. eapply children_at_ext; [exact Hws|]. intros j lj Hj. cbv beta.
  destruct (Nat.eqb_spec j c) as [->|Hne].
  - rewrite Hlc in Hj. injection Hj as <-. symmetry. by apply cut_less_eq_at; [eapply child_sorted|].
  - symmetry. by apply (other_less_eq ls l Hm c j lc lj).
Qed.

Lemma prev_children (m : M) c lc e : merge_current_ m = Some c -> ls !! c = Some lc -> e ∈ lc ->
  children_at (dir_pos kReverse c e.1) (children_ m) ls ->
  exists ws, on_current Prev m = Some (mkMerging ws (Some c) (direction_ m)) /\
    children_at (fun _ => before_cut (less e.1)) ws ls.
Proof.
  intros Em Hlc He Hc. pose proof (child_index c lc e Hlc He) as Hi. pose proof (lookup_lt_Some _ _ _ Hi).
  destruct (on_current_ok Prev _ (before_cut (less e.1) lc) m ls c lc Hc Em Hlc) as (ws & E & Hws).
  { intros w Hw. unfold dir_pos in Hw. rewrite Nat.eqb_refl in Hw. by apply Prev_ok. }
  exists ws. split; [done|]. eapply children_at_ext; [exact Hws|]. intros j lj Hj. unfold dir_pos.
  destruct (Nat.eqb_spec j c) as [->|Hne]; [by simplify_eq|done].
Qed.

Lemma current_child_key (m : M) c lc e : merge_current_ m = Some c -> ls !! c = Some lc -> e ∈ lc ->
  children_at (dir_pos (direction_ m) c e.1) (children_ m) ls ->
  exists w, current_child m = Some w /\ Valid w = true /\ key w = e.1 /\ value w = e.2.
Proof.
  intros Em Hlc He [Hlen Hat]. unfold current_child. rewrite Em. cbn [mbind option_bind].
  destruct (lookup_lt_is_Some_2 (children_ m) c) as [w Hw]; [rewrite Hlen; by eapply lookup_lt_Some|].
  exists w. split; [done|]. apply (at_entry w lc (cut (less e.1) lc)).
  - specialize (Hat _ _ _ Hw Hlc). unfold dir_pos in Hat. rewrite Nat.eqb_refl in Hat. by destruct (direction_ m).
  - by apply child_index with c.
Qed.
End Fixed.

Lemma before_cut_at l p e : sorted l -> l !! p = Some e ->
  before_cut (less e.1) l = match p with O => length l | S q => q end.
Proof. intros Hs Hp. unfold before_cut. by rewrite (cut_less_at l p e Hs Hp). Qed.

Lemma merge_Next_ok (m : M) l p : merge_at m l p -> (p < length l)%nat ->
  exists m', merge_Next cmp m = Some m' /\ merge_at m' l (S p).
Proof.
  intros (ls & Hm & Hst) Hp. unfold merge_Next.
  destruct (merge_current_ m) as [c|] eqn:Em; [|destruct Hst; lia].
  destruct Hst as (lc & e & He & Hlc & Hin & Hc). cbn [mbind option_bind].
  destruct (current_child_key ls l Hm m c lc e Em Hlc Hin Hc) as (w & -> & _ & Hk & _). cbn [mbind option_bind].
  rewrite Hk. assert (Hready : exists ws, (match direction_ m with
       | kForward => Some m
       | kReverse => m ← on_children (turn_forward cmp c e.1) m; Some (with_direction kForward m)
       end) = Some (mkMerging ws (Some c) kForward) /\ children_at (fun _ => cut (less e.1)) ws ls).
  { destruct (direction_ m) eqn:Ed.
    - exists (children_ m). split; [destruct m; simpl in *; congruence|exact Hc].
    - rewrite <- Ed in Hc.
      destruct (turn_forward_ok ls l Hm m c lc e Em Hlc Hin Hc) as (ws & -> & Hws). exists ws. by split. }
  destruct Hready as (ws & -> & Hws). cbn [mbind option_bind].
  destruct (next_children ls l Hm (mkMerging ws (Some c) kForward) c lc e eq_refl Hlc Hin Hws) as (ws' & -> & Hws').
  cbn [mbind option_bind]. eexists. split; [done|].
  rewrite <- (cut_less_eq_at l p e (merges_sorted _ _ Hm) He).
  apply (FindSmallest_ok ls l Hm (less_eq e.1) (mkMerging ws' (Some c) kForward)); [apply down_less_eq|done].
Qed.

Lemma merge_Prev_ok (m : M) l p : merge_at m l p -> (p < length l)%nat ->
  exists m', merge_Prev cmp m = Some m' /\ merge_at m' l (match p with O => length l | S q => q end).
Proof.
  intros (ls & Hm & Hst) Hp. unfold merge_Prev.
  destruct (merge_current_ m) as [c|] eqn:Em; [|destruct Hst; lia].
  destruct Hst as (lc & e & He & Hlc & Hin & Hc). cbn [mbind option_bind].
  destruct (current_child_key ls l Hm m c lc e Em Hlc Hin Hc) as (w & -> & _ & Hk & _). cbn [mbind option_bind].
  rewrite Hk. assert (Hready : exists ws, (match direction_ m with
       | kReverse => Some m
       | kForward => m ← on_children (turn_reverse c e.1) m; Some (with_direction kReverse m)
       end) = Some (mkMerging ws (Some c) kReverse) /\ children_at (dir_pos kReverse c e.1) ws ls).
  { destruct (direction_ m) eqn:Ed.
    - destruct (turn_reverse_ok ls l Hm m c lc e Em Hlc Hin Hc) as (ws & -> & Hws). exists ws. by split.
    - exists (children_ m). split; [destruct m; simpl in *; congruence|exact Hc]. }
  destruct Hready as (ws & -> & Hws). cbn [mbind option_bind].
  destruct (prev_children ls l Hm (mkMerging ws (Some c) kReverse) c lc e eq_refl Hlc Hin Hws) as (ws' & -> & Hws').
  cbn [mbind option_bind]. eexists. split; [done|].
  rewrite <- (before_cut_at l p e (merges_sorted _ _ Hm) He).
  apply (FindLargest_ok ls l Hm (less e.1) (mkMerging ws' (Some c) kReverse)); [apply down_less|done].
Qed.

(** The children, wherever they are. *)
Lemma merge_children (m : M) l p : merge_at m l p -> exists ls pos, merges ls l /\ children_at pos (children_ m) ls.
Proof.
  intros (ls & Hm & Hst). exists ls. destruct (merge_current_ m) as [c|].
  - destruct Hst as (lc & e & _ & _ & _ & Hc). eauto.
  - destruct Hst as [_ [pos Hc]]. eauto.
Qed.

Lemma children_status_ok pos ws ls : children_at pos ws ls -> children_status ws = OK.
Proof.
  intros [Hl Hc]. assert (Hall : forall w, w ∈ ws -> status w = OK).
  { intros w [j Hj]%list_elem_of_lookup.
    destruct (lookup_lt_is_Some_2 ls j) as [lj Hlj]; [rewrite <- Hl; by eapply lookup_lt_Some|].
    exact (at_status _ _ _ (Hc _ _ _ Hj Hlj)). }
  clear Hl Hc. induction ws as [|w ws IH]; [done|]. cbn [children_status].
  rewrite (Hall w) by (by left). apply IH. intros x Hx. apply Hall. by right.
Qed.

#[export] Instance MergingIterator_ok : @IteratorOk M (MergingIterator_iterator cmp) cmp.
Proof.
  refine (@Build_IteratorOk M (MergingIterator_iterator cmp) cmp merge_at _ _ _ _ _ _ _ merge_Next_ok merge_Prev_ok).
  - intros m l p (ls & _ & Hst). destruct (merge_current_ m) as [c|].
    + destruct Hst as (lc & e & He & _). apply Nat.lt_le_incl. by eapply lookup_lt_Some.
    + destruct Hst as [-> _]. done.
  - intros m l p e (ls & Hm & Hst) He. destruct (merge_current_ m) as [c|] eqn:Em.
    + destruct Hst as (lc & e' & He' & Hlc & Hin & Hc). rewrite He in He'. injection He' as <-.
      destruct (current_child_key ls l Hm m c lc e Em Hlc Hin Hc) as (w & Ew & _ & Hk & Hv).
      cbn [Valid key value MergingIterator_iterator]. by rewrite Em, Ew.
    + destruct Hst as [-> _]. rewrite lookup_ge_None_2 in He; [done|lia].
  - intros m l (ls & Hm & Hst). cbn [Valid MergingIterator_iterator].
    destruct (merge_current_ m) as [c|]; [|done]. destruct Hst as (lc & e & He & _).
    rewrite lookup_ge_None_2 in He; [done|lia].
  - intros m l p Hat. destruct (merge_children _ _ _ Hat) as (ls & pos & _ & Hc).
    exact (children_status_ok _ _ _ Hc).
  - intros m l p target Hat Htgt. destruct (merge_children _ _ _ Hat) as (ls & pos & Hm & Hc).
    destruct (on_children_ok (fun _ w => Seek w target) _ (fun _ => cut (less target)) m ls Hc) as (ws & E & Hws).
    { intros j w lj Hj Hw. destruct (Seek_ok w lj _ target Hw Htgt) as (w' & E & Hw'). exists w'. split; [done|].
      by rewrite <- (seek_index_cut target lj (merges_child ls l Hm _ _ Hj)). }
    cbn [Seek MergingIterator_iterator]. unfold merge_Seek. rewrite E. cbn [mbind option_bind].
    eexists. split; [done|]. rewrite (seek_index_cut target l (merges_sorted _ _ Hm)).
    apply (FindSmallest_ok ls l Hm (less target) (mkMerging ws _ _)); [apply down_less|done].
  - intros m l p Hat. destruct (merge_children _ _ _ Hat) as (ls & pos & Hm & Hc).
    destruct (on_children_ok (fun _ => SeekToFirst) _ (fun _ => cut (fun _ => false)) m ls Hc) as (ws & E & Hws).
    { intros j w lj Hj Hw. rewrite cut_false. by eapply SeekToFirst_ok. }
    cbn [SeekToFirst MergingIterator_iterator]. unfold merge_SeekToFirst. rewrite E. cbn [mbind option_bind].
    eexists. split; [done|]. rewrite <- (cut_false l).
    apply (FindSmallest_ok ls l Hm (fun _ => false) (mkMerging ws _ _)); [apply down_const|done].
  - intros m l p Hat. destruct (merge_children _ _ _ Hat) as (ls & pos & Hm & Hc).
    assert (Hlast : forall lj : entries, before_cut (fun _ => true) lj = (length lj - 1)%nat).
    { intros lj. unfold before_cut. rewrite cut_true. destruct (length lj); lia. }
    destruct (on_children_ok (fun _ => SeekToLast) _ (fun _ => before_cut (fun _ => true)) m ls Hc) as (ws & E & Hws).
    { intros j w lj Hj Hw. rewrite Hlast. by eapply SeekToLast_ok. }
    cbn [SeekToLast MergingIterator_iterator]. unfold merge_SeekToLast. rewrite E. cbn [mbind option_bind].
    eexists. split; [done|]. rewrite <- (Hlast l).
    apply (FindLargest_ok ls l Hm (fun _ => true) (mkMerging ws _ _)); [apply down_const|done].
Defined.

(** The three forms of a merge. *)
Definition merged_at (m : Merged I) (l : entries) (p : nat) : Prop :=
  match m with
  | MergedNone it => l = [] /\ p = 0%nat /\ empty_status it = OK
  | MergedOne it => at_pos it l p
  | MergedMany it => merge_at it l p
  end.

Lemma merged_step_ok m l p op q : merged_at m l p -> list_step cmp l p op = Some q ->
  exists m', merged_step cmp op m = Some m' /\ merged_at m' l q.
Proof.
  destruct m as [it|it|it]; intros Hat Hs; cbn [merged_step].
  - destruct Hat as (-> & -> & Hok). exists (MergedNone it). split; [by destruct op|]. destruct op as [target| | | |]; cbn [list_step] in Hs; [destruct (blen target <? 2 ^ 32)|..]; by simplify_eq/=.
  - destruct (iter_step_ok it l p op q Hat Hs) as (it' & -> & Hat'). by exists (MergedOne it').
  - destruct (iter_step_ok (IteratorOk0 := MergingIterator_ok) it l p op q Hat Hs) as (it' & -> & Hat').
    by exists (MergedMany it').
Qed.

#[export] Instance Merged_ok : @IteratorOk (Merged I) (Merged_iterator cmp) cmp.
Proof.
  refine (@Build_IteratorOk (Merged I) (Merged_iterator cmp) cmp merged_at _ _ _ _ _ _ _ _ _).
  - intros [it|it|it] l p Hat; [destruct Hat as (-> & -> & _); done|exact (at_pos_le _ _ _ Hat)|].
    exact (at_pos_le (IteratorOk := MergingIterator_ok) _ _ _ Hat).
  - intros [it|it|it] l p e Hat He; [destruct Hat as (-> & _); done|exact (at_entry _ _ _ _ Hat He)|].
    exact (at_entry (IteratorOk := MergingIterator_ok) _ _ _ _ Hat He).
  - intros [it|it|it] l Hat; [done|exact (at_end _ _ Hat)|exact (at_end (IteratorOk := MergingIterator_ok) _ _ Hat)].
  - intros [it|it|it] l p Hat; [by destruct Hat as (_ & _ & Hat)|exact (at_status _ _ _ Hat)|].
    exact (at_status (IteratorOk := MergingIterator_ok) _ _ _ Hat).
  - intros m l p target Hat Ht. eapply (merged_step_ok _ _ _ (OpSeek target)); [done|]. cbn [list_step]. by rewrite (proj2 (Z.ltb_lt _ _) Ht).
  - intros m l p Hat. by eapply merged_step_ok.
  - intros m l p Hat. by eapply merged_step_ok.
  - intros m l p Hat Hp. eapply merged_step_ok; [done|]. simpl. by rewrite (proj2 (Nat.ltb_lt p (length l))).
  - intros m l p Hat Hp. eapply merged_step_ok; [done|]. simpl. by rewrite (proj2 (Nat.ltb_lt p (length l))).
Defined.

(** Sorted lists with the same entries are the same. *)
Lemma sorted_ext l l' : sorted l -> sorted l' -> (forall e, e ∈ l <-> e ∈ l') -> l = l'.
Proof.
  intros Hs. revert l'. induction Hs as [|a l Hs IH Ha]; intros l' Hs' He.
  - destruct l' as [|b l']; [done|]. exfalso. apply (elem_of_nil (A := bytes * bytes) b), He. by left.
  - rewrite Forall_forall in Ha. destruct l' as [|b l']; [exfalso; apply (elem_of_nil (A := bytes * bytes) a), He; by left|].
    inversion Hs' as [|? ? Hs'' Hb]; subst. rewrite Forall_forall in Hb.
    assert (Hirr : forall x, ~ entry_lt (cmp := cmp) x x) by (intros x Hx; unfold entry_lt in Hx; rewrite (tc_refl Compare) in Hx; lia).
    assert (Htr : forall x y, entry_lt (cmp := cmp) x y -> entry_lt (cmp := cmp) y x -> False).
    { intros x y H1 H2. apply (Hirr x). exact (tc_lt_trans Compare x.1 y.1 x.1 H1 H2). }
    assert (a = b) as <-.
    { assert (Hab : a ∈ b :: l') by (apply He; by left). assert (Hba : b ∈ a :: l) by (apply He; by left).
      apply elem_of_cons in Hab as [->|Hab]; [done|]. apply elem_of_cons in Hba as [->|Hba]; [done|].
      destruct (Htr a b); [by apply Ha|by apply Hb]. }
    f_equal. apply IH; [done|]. intros e. split; intros Hin.
    + assert (Hx : e ∈ a :: l') by (apply He; by right). apply elem_of_cons in Hx as [->|]; [|done].
      destruct (Hirr a). by apply Ha.
    + assert (Hx : e ∈ a :: l) by (apply He; by right). apply elem_of_cons in Hx as [->|]; [|done].
      destruct (Hirr a). by apply Hb.
Qed.

Lemma NewMergingIterator_at (children : list I) ls l pos : merges ls l -> length children = length ls ->
  (forall j it lj, children !! j = Some it -> ls !! j = Some lj -> at_pos it lj (pos j)) ->
  merged_at (NewMergingIterator children) l (match children with [_] => pos 0%nat | _ => length l end).
Proof.
  intros Hm Hlen Hat. destruct children as [|c0 [|c1 children]]; cbn [NewMergingIterator].
  - destruct ls; [|done]. assert (l = []) as ->; [|by repeat split].
    destruct l as [|e l]; [done|]. assert (He : e ∈ e :: l) by (by left).
    apply (merges_elem _ _ Hm) in He as (j & lj & Hj & _). done.
  - destruct ls as [|l0 [|]]; [done| |done]. assert (l0 = l) as <-; [|by apply (Hat 0%nat)].
    apply sorted_ext; [by eapply (merges_child _ _ Hm 0)|by eapply merges_sorted|]. intros e. split.
    + intros He. by eapply (merges_in _ _ Hm 0).
    + intros (j & lj & Hj & He)%(merges_elem _ _ Hm). destruct j; simpl in Hj; [by simplify_eq|done].
  - exists ls. split; [done|]. cbn [merge_current_ newMergingIterator children_]. split; [done|].
    exists (fun j _ => pos j). split; [by rewrite length_map|]. intros j w lj Hw Hj.
    change (map ?f ?x) with (f <$> x) in Hw. apply list_lookup_fmap_Some in Hw as (it & -> & Hit).
    apply Update_at. by apply Hat.
Qed.

(** A merging iterator walks the merge of its children.  Over children that
    walk sorted lists without common keys, none, one or several of them, any walk,
    with changes of direction anywhere, shows exactly what the same walk shows on
    the sorted list of all their entries. *)
Theorem merging_iterator_refines (children : list I) (ls : list entries) (l : entries) (pos : nat -> nat)
    (ops : list IterOp) (t : list (option (bytes * bytes))) :
  merges ls l -> length children = length ls ->
  (forall j it lj, children !! j = Some it -> ls !! j = Some lj -> at_pos it lj (pos j)) ->
  list_trace cmp l (match children with [_] => pos 0%nat | _ => length l end) ops = Some t ->
  iter_trace (H := Merged_iterator cmp) (NewMergingIterator children) ops = Some t.
Proof.
  intros Hm Hlen Hat Ht. eapply (iter_trace_ok (IteratorOk0 := Merged_ok)); [|exact Ht].
  by apply (NewMergingIterator_at children ls).
Qed.
End Refinement.

(** Three children, one of them empty; the walk turns twice. *)
Lemma merging_iterator_refines_witness :
  let ls := [[(str "a", str "1"); (str "d", str "4")]; []; [(str "b", str "2"); (str "c", str "3")]] in
  let l := [(str "a", str "1"); (str "b", str "2"); (str "c", str "3"); (str "d", str "4")] in
  iter_trace (H := Merged_iterator (Iterator0 := ListIter_iterator BytewiseComparator) BytewiseComparator)
    (NewMergingIterator (Iterator0 := ListIter_iterator BytewiseComparator)
       (map (fun lj => mkListIter lj (length lj)) ls))
    [OpSeek (str "bb"); OpPrev; OpPrev; OpNext; OpNext; OpNext; OpNext] =
  Some [Some (str "c", str "3"); Some (str "b", str "2"); Some (str "a", str "1"); Some (str "b", str "2");
        Some (str "c", str "3"); Some (str "d", str "4"); None].
Proof.
  intros ls l.
  apply (@merging_iterator_refines ListIter (ListIter_iterator BytewiseComparator) BytewiseComparator
    BytewiseComparator_ok (ListIter_ok BytewiseComparator)) with ls l (fun j => length (default [] (ls !! j))).
  - split.
    + repeat constructor; vm_compute; reflexivity.
    + repeat constructor; vm_compute; reflexivity.
    + intros e. split.
      * intros He. subst l ls. repeat (apply elem_of_cons in He as [->|He]); [..|by apply elem_of_nil in He].
        -- exists 0%nat; eexists; split; [reflexivity|by left].
        -- exists 2%nat; eexists; split; [reflexivity|by left].
        -- exists 2%nat; eexists; split; [reflexivity|right; by left].
        -- exists 0%nat; eexists; split; [reflexivity|right; by left].
      * intros (j & lj & Hj & He). apply (bool_decide_unpack (e ∈ l)).
        destruct j as [|[|[|j]]]; simplify_eq/=;
          repeat (apply elem_of_cons in He as [->|He]); first [by apply elem_of_nil in He|vm_compute; exact I].
    + intros j k lj lk a b Hj Hk Hne Ha Hb. destruct j as [|[|[|j]]], k as [|[|[|k]]]; simplify_eq/=;
        repeat (apply elem_of_cons in Ha as [->|Ha]); try by apply elem_of_nil in Ha.
      all: repeat (apply elem_of_cons in Hb as [->|Hb]); try by apply elem_of_nil in Hb.
      all: vm_compute; discriminate.
    + intros e He. subst l. repeat (apply elem_of_cons in He as [->|He]; [reflexivity|]). by apply elem_of_nil in He.
  - reflexivity.
  - intros j it lj Hit Hj. destruct j as [|[|[|j]]]; simplify_eq/=; by split.
  - vm_compute. reflexivity.
Defined.
