(* ===== verification/DbIter.v ===== *)
(** db/db_iter.h and db/db_iter.cc: the iterator of the database.  It walks an
    iterator over internal keys and shows, for the snapshot [sequence_], the
    newest visible value of each user key that is not deleted.

    The read samples that [ParseKey] takes on the way are kept as the list of
    the keys passed to [DBImpl::RecordReadSample].  The memory held by
    [saved_value_] is not modelled. *)

From stdpp Require Import base list option sorting strings.
From S2P Require Import Prelude Status Comparator DbFormat Random Iterator Merger.

#[local] Open Scope Z_scope.

(** [direction_] has the values of the enumeration of Merger. *)
Record DBIter (I : Type) := mkDBIter {
  db_iter : I;
  db_status : Status;
  saved_key_ : bytes;
  saved_value_ : bytes;
  db_direction : Direction;
  db_valid : bool;
  db_rnd : Z;
  bytes_until_read_sampling_ : Z;
  samples : list bytes;
}.
Arguments mkDBIter {I} _ _ _ _ _ _ _ _ _.
Arguments db_iter {I} _.
Arguments db_status {I} _.
Arguments saved_key_ {I} _.
Arguments saved_value_ {I} _.
Arguments db_direction {I} _.
Arguments db_valid {I} _.
Arguments db_rnd {I} _.
Arguments bytes_until_read_sampling_ {I} _.
Arguments samples {I} _.

(** [RandomCompactionPeriod], with the new state of the generator. *)
Definition RandomCompactionPeriod (rnd : Z) : Z * Z := Uniform rnd (2 * kReadBytesPeriod).

(** The loop of [ParseKey]: the generator, the bytes left and the samples. *)
Fixpoint sample_loop (fuel : nat) (bytes_read : Z) (k : bytes) (rnd until : Z) (log : list bytes)
  : option (Z * Z * list bytes) :=
  match fuel with
  | O => None
  | S fuel' =>
      if until <? bytes_read then
        let '(period, rnd) := RandomCompactionPeriod rnd in
        sample_loop fuel' bytes_read k rnd (u64 (until + period)) (log ++ [k])
      else Some (rnd, until, log)
  end.

Section DBIter.
Context {I : Type} `{!Iterator I} (user_comparator_ : Comparator) (sequence_ : Z).
(** A bound on the number of entries passed in one operation. *)
Context (fuel : nat).
#[local] Abbreviation D := (DBIter I).
#[local] Abbreviation ucmp := (@Compare user_comparator_).

Definition NewDBIterator (internal_iter : I) (seed : Z) : D :=
  let '(period, rnd) := RandomCompactionPeriod (newRandom seed) in
  mkDBIter internal_iter OK [] [] kForward false rnd period [].

Definition with_iter (it : I) (d : D) : D :=
  mkDBIter it (db_status d) (saved_key_ d) (saved_value_ d) (db_direction d) (db_valid d) (db_rnd d)
    (bytes_until_read_sampling_ d) (samples d).
Definition with_saved (k v : bytes) (d : D) : D :=
  mkDBIter (db_iter d) (db_status d) k v (db_direction d) (db_valid d) (db_rnd d)
    (bytes_until_read_sampling_ d) (samples d).
Definition with_dir (dir : Direction) (d : D) : D :=
  mkDBIter (db_iter d) (db_status d) (saved_key_ d) (saved_value_ d) dir (db_valid d) (db_rnd d)
    (bytes_until_read_sampling_ d) (samples d).
Definition with_valid (b : bool) (d : D) : D :=
  mkDBIter (db_iter d) (db_status d) (saved_key_ d) (saved_value_ d) (db_direction d) b (db_rnd d)
    (bytes_until_read_sampling_ d) (samples d).
Definition with_status (s : Status) (d : D) : D :=
  mkDBIter (db_iter d) s (saved_key_ d) (saved_value_ d) (db_direction d) (db_valid d) (db_rnd d)
    (bytes_until_read_sampling_ d) (samples d).
Definition with_sampling (rnd until : Z) (log : list bytes) (d : D) : D :=
  mkDBIter (db_iter d) (db_status d) (saved_key_ d) (saved_value_ d) (db_direction d) (db_valid d) rnd until log.

Definition SaveKey (k : bytes) (d : D) : D := with_saved k (saved_value_ d) d.
Definition clear_saved_key (d : D) : D := with_saved [] (saved_value_ d) d.
Definition ClearSavedValue (d : D) : D := with_saved (saved_key_ d) [] d.

Definition on_iter (f : I -> option I) (d : D) : option D := it ← f (db_iter d); Some (with_iter it d).

(** [None] inside: the key is corrupted.  The subtraction is preceded by an
    assertion. *)
Definition ParseKey (d : D) : option (option ParsedInternalKey * D) :=
  let k := key (db_iter d) in
  let bytes_read := blen k + blen (value (db_iter d)) in
  '(rnd, until, log) ← sample_loop (Z.to_nat (2 * bytes_read + 2)) bytes_read k (db_rnd d)
    (bytes_until_read_sampling_ d) (samples d);
  let d := with_sampling rnd (until - bytes_read) log d in
  Some (match ParseInternalKey k with
        | None => (None, with_status (Corruption (str "corrupted internal key in DBIter") []) d)
        | Some ikey => (Some ikey, d)
        end).

(** The parsed key, when it is not newer than the snapshot. *)
Definition visible_key (parsed : option ParsedInternalKey) : option ParsedInternalKey :=
  ikey ← parsed; if sequence ikey <=? sequence_ then Some ikey else None.

(** [skip] is [saved_key_] in all calls. *)
Fixpoint FindNextUserEntry (n : nat) (skipping : bool) (d : D) : option D :=
  match n with
  | O => None
  | S n' =>
      if negb (Valid (db_iter d)) then None
      else
        '(parsed, d) ← ParseKey d;
        let '(found, skipping, d) :=
          match visible_key parsed with
          | None => (false, skipping, d)
          | Some ikey =>
              match type ikey with
              | kTypeDeletion => (false, true, SaveKey (user_key ikey) d)
              | kTypeValue =>
                  if skipping && (ucmp (user_key ikey) (saved_key_ d) <=? 0) then (false, skipping, d)
                  else (true, skipping, clear_saved_key (with_valid true d))
              end
          end in
        if found then Some d
        else
          d ← on_iter Next d;
          if Valid (db_iter d) then FindNextUserEntry n' skipping d
          else Some (with_valid false (clear_saved_key d))
  end.

Definition db_Next (d : D) : option D :=
  if negb (db_valid d) then None
  else
    match db_direction d with
    | kReverse =>
        let d := with_dir kForward d in
        d ← on_iter (if negb (Valid (db_iter d)) then SeekToFirst else Next) d;
        if negb (Valid (db_iter d)) then Some (clear_saved_key (with_valid false d))
        else FindNextUserEntry fuel true d
    | kForward => FindNextUserEntry fuel true (SaveKey (ExtractUserKey (key (db_iter d))) d)
    end.

(** The loop of [FindPrevUserEntry], which leaves [value_type]. *)
Fixpoint prev_loop (n : nat) (value_type : ValueType) (d : D) : option (ValueType * D) :=
  match n with
  | O => None
  | S n' =>
      '(parsed, d) ← ParseKey d;
      let '(found, value_type, d) :=
        match visible_key parsed with
        | None => (false, value_type, d)
        | Some ikey =>
            if negb (bool_decide (value_type = kTypeDeletion)) && (ucmp (user_key ikey) (saved_key_ d) <? 0)
            then (true, value_type, d)
            else
              match type ikey with
              | kTypeDeletion => (false, kTypeDeletion, ClearSavedValue (clear_saved_key d))
              | kTypeValue =>
                  (false, kTypeValue, with_saved (ExtractUserKey (key (db_iter d))) (value (db_iter d)) d)
              end
        end in
      if found then Some (value_type, d)
      else
        d ← on_iter Prev d;
        if Valid (db_iter d) then prev_loop n' value_type d else Some (value_type, d)
  end.

Definition FindPrevUserEntry (d : D) : option D :=
  '(value_type, d) ←
    (if Valid (db_iter d) then prev_loop fuel kTypeDeletion d else Some (kTypeDeletion, d));
  Some (match value_type with
        | kTypeDeletion => with_dir kForward (ClearSavedValue (clear_saved_key (with_valid false d)))
        | kTypeValue => with_valid true d
        end).

(** The loop that leaves the entries of the current key; [false]: there is
    nothing before them. *)
Fixpoint scan_back (n : nat) (d : D) : option (bool * D) :=
  match n with
  | O => None
  | S n' =>
      d ← on_iter Prev d;
      if negb (Valid (db_iter d)) then
        Some (false, ClearSavedValue (clear_saved_key (with_valid false d)))
      else if ucmp (ExtractUserKey (key (db_iter d))) (saved_key_ d) <? 0 then Some (true, d)
      else scan_back n' d
  end.

Definition db_Prev (d : D) : option D :=
  if negb (db_valid d) then None
  else
    match db_direction d with
    | kForward =>
        if negb (Valid (db_iter d)) then None
        else
          '(more, d) ← scan_back fuel (SaveKey (ExtractUserKey (key (db_iter d))) d);
          if (more : bool) then FindPrevUserEntry (with_dir kReverse d) else Some d
    | kReverse => FindPrevUserEntry d
    end.

Definition db_Seek (d : D) (target : bytes) : option D :=
  let d := ClearSavedValue (with_dir kForward d) in
  let d := SaveKey (AppendInternalKey [] (mkParsed target sequence_ kValueTypeForSeek)) d in
  d ← on_iter (fun it => Seek it (saved_key_ d)) d;
  if Valid (db_iter d) then FindNextUserEntry fuel false d else Some (with_valid false d).

Definition db_SeekToFirst (d : D) : option D :=
  d ← on_iter SeekToFirst (ClearSavedValue (with_dir kForward d));
  if Valid (db_iter d) then FindNextUserEntry fuel false d else Some (with_valid false d).

Definition db_SeekToLast (d : D) : option D :=
  d ← on_iter SeekToLast (ClearSavedValue (with_dir kReverse d));
  FindPrevUserEntry d.

#[export] Instance DBIter_iterator : Iterator D := {|
  Valid := db_valid; Seek := db_Seek; SeekToFirst := db_SeekToFirst; SeekToLast := db_SeekToLast;
  Next := db_Next; Prev := db_Prev;
  key d := match db_direction d with
           | kForward => ExtractUserKey (key (db_iter d))
           | kReverse => saved_key_ d
           end;
  value d := match db_direction d with
             | kForward => value (db_iter d)
             | kReverse => saved_value_ d
             end;
  status d := if ok (db_status d) then status (db_iter d) else db_status d |}.
End DBIter.
