(* ===== verification/DbIterProofs.v ===== *)
(** The iterator of the database (DbIter) walks the user's view of the entries of
    its internal iterator, in both directions. *)

From stdpp Require Import base list option sorting strings.
From S2P Require Import Prelude Status Coding Comparator DbFormat Random Iterator Merger MergerProofs DbIter.

#[local] Open Scope Z_scope.

(** * Read sampling ends *)

(** A multiple of 2^21 is never followed by another one. *)
Lemma no_two_zeros :
  List.forallb (fun k => negb (((Z.of_nat k * 2097152 * rnd_A) mod rnd_M) mod 2097152 =? 0)) (seq 1 1023) = true.
Proof. vm_compute. reflexivity. Qed.

Lemma period_step rnd : 0 < rnd < rnd_M ->
  exists p rnd', RandomCompactionPeriod rnd = (p, rnd') /\ 0 <= p < 2097152 /\ 0 < rnd' < rnd_M /\
    p = rnd' mod 2097152.
Proof.
  intros Hr. destruct (random_next_correct rnd Hr) as [_ Hr']. eexists _, _. split; [reflexivity|].
  change (2 * kReadBytesPeriod) with 2097152.
  split; [apply Z.mod_pos_bound; lia|]. done.
Qed.

Lemma zero_then_positive rnd : 0 < rnd < rnd_M -> rnd mod 2097152 = 0 ->
  (RandomCompactionPeriod rnd).1 <> 0.
Proof.
  intros Hr Hz. unfold RandomCompactionPeriod, Uniform. cbn [fst].
  destruct (random_next_correct rnd Hr) as [-> _]. change (2 * kReadBytesPeriod) with 2097152.
  apply Z.mod_divide in Hz as [k ->]; [|lia]. unfold rnd_M in Hr.
  pose proof no_two_zeros as H. rewrite List.forallb_forall in H.
  specialize (H (Z.to_nat k)). rewrite Z2Nat.id in H by lia.
  intros E. rewrite E in H. apply diff_false_true, H, in_seq. lia.
Qed.

Lemma sample_loop_ok bytes_read k m : 0 <= bytes_read < 2 ^ 62 -> forall rnd until log,
  0 < rnd < rnd_M -> 0 <= until < 2 ^ 63 -> bytes_read - until <= Z.of_nat m ->
  exists rnd' until' log', sample_loop (2 * m + 2) bytes_read k rnd until log = Some (rnd', until', log') /\
    0 < rnd' < rnd_M /\ bytes_read <= until' < 2 ^ 63.
Proof.
  intros Hb. induction m as [|m IH]; intros rnd until log Hr Hu Hm.
  - cbn [Nat.mul Nat.add sample_loop]. destruct (Z.ltb_spec until bytes_read); [lia|]. do 3 eexists. split; [done|lia].
  - replace (2 * S m + 2)%nat with (S (S (2 * m + 2))) by lia. cbn [sample_loop].
    destruct (Z.ltb_spec until bytes_read); [|do 3 eexists; split; [done|lia] ].
    destruct (period_step rnd Hr) as (p & r1 & -> & Hp & Hr1 & Ep). rewrite u64_small by lia.
    destruct (Z.ltb_spec (until + p) bytes_read).
    2: { do 3 eexists. split; [done|]. lia. }
    destruct (period_step r1 Hr1) as (p2 & r2 & Er2 & Hp2 & Hr2 & Ep2). rewrite Er2, u64_small by lia.
    apply IH; [done|lia|]. destruct (decide (p = 0)) as [Hz|]; [|lia].
    pose proof (zero_then_positive r1 Hr1 ltac:(lia)) as Hne. rewrite Er2 in Hne. simpl in Hne. lia.
Qed.

(** * What the user sees *)

Section View.
Context (user_comparator_ : Comparator) (Huser : @ComparatorOk user_comparator_) (snap : Z).
#[local] Abbreviation ucmp := (@Compare user_comparator_).
#[local] Abbreviation entry := (bytes * bytes)%type.

Definition ukey (e : entry) : bytes := ExtractUserKey e.1.

(** Not newer than the snapshot; a value and not a deletion. *)
Definition vis (e : entry) : bool :=
  match ParseInternalKey e.1 with Some k => sequence k <=? snap | None => false end.
Definition is_value (e : entry) : bool :=
  match ParseInternalKey e.1 with Some k => bool_decide (type k = kTypeValue) | None => false end.

(** A visible entry of the same user key comes before [e]. *)
Definition hidden (before : list entry) (e : entry) : bool :=
  List.existsb (fun x => vis x && (ucmp (ukey x) (ukey e) =? 0)) before.

Definition shown (before : list entry) (e : entry) : bool := vis e && is_value e && negb (hidden before e).

(** The values that are shown, with their user keys, in the order of the entries. *)
Fixpoint view (before l : list entry) : list entry :=
  match l with
  | [] => []
  | e :: l' => (if shown before e then [(ukey e, e.2)] else []) ++ view (before ++ [e]) l'
  end.
Definition user_view (l : list entry) : list entry := view [] l.

Lemma view_app l1 : forall b l2, view b (l1 ++ l2) = view b l1 ++ view (b ++ l1) l2.
Proof.
  induction l1 as [|e l1 IH]; intros b l2; simpl; [by rewrite app_nil_r|].
  rewrite IH, !app_assoc. do 2 f_equal. by rewrite <- app_assoc.
Qed.

Lemma view_elem b l x : x ∈ view b l -> exists e, e ∈ l /\ vis e = true /\ x = (ukey e, e.2).
Proof.
  revert b. induction l as [|e l IH]; intros b Hx; [by apply elem_of_nil in Hx|]. simpl in Hx.
  apply elem_of_app in Hx as [Hx|Hx].
  - destruct (shown b e) eqn:Es; [|by apply elem_of_nil in Hx]. apply list_elem_of_singleton in Hx as ->.
    exists e. split; [by left|]. unfold shown in Es. by destruct (vis e).
  - destruct (IH _ Hx) as (y & Hy & ?). exists y. split; [by right|done].
Qed.

Lemma parse_ukey e k : ParseInternalKey e.1 = Some k -> user_key k = ukey e.
Proof. by intros [<- _]%ParseInternalKey_parts. Qed.

Context (l : list entry).
(** The number of values shown among the first [i] entries. *)
Definition cnt (i : nat) : nat := length (view [] (take i l)).

Lemma cnt_S i e : l !! i = Some e -> cnt (S i) = (cnt i + if shown (take i l) e then 1 else 0)%nat.
Proof.
  intros Hi. unfold cnt. rewrite (take_S_r _ _ _ Hi), view_app, length_app. simpl.
  destruct (shown _ e); simpl; lia.
Qed.

Lemma view_split i : user_view l = view [] (take i l) ++ view (take i l) (drop i l).
Proof. unfold user_view. rewrite <- (take_drop i l) at 1. by rewrite view_app. Qed.

Lemma cnt_lookup i e : l !! i = Some e -> shown (take i l) e = true ->
  user_view l !! cnt i = Some (ukey e, e.2).
Proof.
  intros Hi Hs. rewrite (view_split i). unfold cnt. rewrite lookup_app_r, Nat.sub_diag by lia.
  rewrite (drop_S _ _ _ Hi). simpl. by rewrite Hs.
Qed.

Lemma cnt_lt i e : l !! i = Some e -> shown (take i l) e = true -> (cnt i < length (user_view l))%nat.
Proof. intros Hi Hs. eapply lookup_lt_Some. by apply (cnt_lookup i e). Qed.

Lemma cnt_end : cnt (length l) = length (user_view l).
Proof. unfold cnt. by rewrite firstn_all. Qed.

(** Where nothing is visible, nothing is shown. *)
Lemma cnt_const a b : (a <= b)%nat -> (b <= length l)%nat ->
  (forall j e, (a <= j < b)%nat -> l !! j = Some e -> vis e = false) -> cnt a = cnt b.
Proof.
  intros Hab. induction Hab as [|b Hab IH]; intros Hb H; [done|].
  destruct (lookup_lt_is_Some_2 l b) as [e He]; [lia|]. rewrite (cnt_S b e He), IH by
    (first [lia|intros j x Hj; apply H; lia]).
  unfold shown. rewrite (H b e) by (first [lia|done]). simpl. lia.
Qed.

Lemma hidden_S i e x : l !! i = Some e ->
  hidden (take (S i) l) x = hidden (take i l) x || (vis e && (ucmp (ukey e) (ukey x) =? 0)).
Proof. intros Hi. unfold hidden. rewrite (take_S_r _ _ _ Hi), List.existsb_app. simpl. by rewrite orb_false_r. Qed.

Lemma hidden_true i x : hidden (take i l) x = true <->
  exists j e, (j < i)%nat /\ l !! j = Some e /\ vis e = true /\ ucmp (ukey e) (ukey x) = 0.
Proof.
  unfold hidden. rewrite List.existsb_exists. split.
  - intros (e & He & Hv). apply list_elem_of_In, list_elem_of_lookup in He as [j Hj].
    apply lookup_take_Some in Hj as [Hj Hlt]. apply andb_true_iff in Hv as [? ?%Z.eqb_eq]. eauto 10.
  - intros (j & e & Hlt & Hj & Hv & Hz). exists e. split.
    + apply list_elem_of_In, list_elem_of_lookup. exists j. by apply lookup_take_Some.
    + rewrite Hv. by apply Z.eqb_eq.
Qed.

(** ** Sorted entries *)

Hypothesis Hsorted : StronglySorted (entry_lt (cmp := InternalKeyComparator user_comparator_)) l.

Lemma sorted_ukey i j e e' : l !! i = Some e -> l !! j = Some e' -> (i <= j)%nat ->
  ucmp (ukey e) (ukey e') <= 0.
Proof.
  intros Hi Hj Hle. destruct (decide (i = j)) as [->|Hne].
  - rewrite Hi in Hj. injection Hj as ->. by rewrite (cmp_refl).
  - pose proof (sorted_lookup _ l i j e e' Hsorted Hi Hj ltac:(lia)) as H. unfold entry_lt in H.
    cbn [Compare InternalKeyComparator] in H. apply (icmp_lt user_comparator_) in H. unfold ukey. lia.
Qed.

(** What the loop of [FindNextUserEntry] knows at position [i]. *)
Definition skip_inv (i : nat) (skipping : bool) (skip : bytes) : Prop :=
  forall j e, (i <= j)%nat -> l !! j = Some e -> vis e = true ->
    hidden (take i l) e = skipping && (ucmp (ukey e) skip <=? 0).

Lemma skip_inv_invisible i e b skip : l !! i = Some e -> vis e = false ->
  skip_inv i b skip -> skip_inv (S i) b skip.
Proof.
  intros Hi Hv H j x Hj Hx Hvx. rewrite (hidden_S i e x Hi), Hv, orb_false_r. by apply (H j x); [lia|..].
Qed.

Lemma skip_inv_after i e : l !! i = Some e -> vis e = true -> skip_inv (S i) true (ukey e).
Proof.
  intros Hi Hv j x Hj Hx Hvx. cbn [andb]. destruct (Z.leb_spec (ucmp (ukey x) (ukey e)) 0) as [Hle|Hgt].
  - apply hidden_true. exists i, e. split; [lia|]. split; [done|]. split; [done|].
    pose proof (sorted_ukey i j e x Hi Hx ltac:(lia)). apply (cmp_flip_le) in Hle. lia.
  - apply not_true_iff_false. rewrite hidden_true. intros (j' & y & Hlt & Hy & _ & Hz).
    pose proof (sorted_ukey j' i y e Hy Hi ltac:(lia)). apply (cmp_eq_sym) in Hz.
    assert (ucmp (ukey x) (ukey e) <= 0); [|lia]. apply (tc_le_trans _ (ukey y)); [lia|done].
Qed.

Lemma skip_inv_hidden i e skip : l !! i = Some e -> ucmp (ukey e) skip <= 0 ->
  skip_inv i true skip -> skip_inv (S i) true skip.
Proof.
  intros Hi Hle H j x Hj Hx Hvx. rewrite (hidden_S i e x Hi), (H j x) by (done || lia). cbn [andb].
  destruct (Z.leb_spec (ucmp (ukey x) skip) 0) as [|Hgt]; [done|]. cbn [orb].
  apply not_true_iff_false. intros [_ Hz%Z.eqb_eq]%andb_true_iff. apply (cmp_eq_sym) in Hz.
  assert (ucmp (ukey x) skip <= 0); [|lia]. apply (tc_le_trans _ (ukey e)); [lia|done].
Qed.
End View.

(** * The iterator walks the view *)

Section Walk.
Context {I : Type} `{!Iterator I} (user_comparator_ : Comparator) (Huser : @ComparatorOk user_comparator_).
#[local] Abbreviation icmp_ := (InternalKeyComparator user_comparator_).
Context `{!IteratorOk I icmp_} (snap : Z) (fuel : nat).
#[local] Abbreviation at_pos := (Iterator.at_pos (cmp := icmp_)).
#[local] Abbreviation D := (DBIter I).
#[local] Abbreviation ucmp := (@Compare user_comparator_).
#[local] Abbreviation entry := (bytes * bytes)%type.
#[local] Abbreviation shown := (shown user_comparator_ snap).
#[local] Abbreviation vis := (vis snap).
#[local] Abbreviation user_view := (user_view user_comparator_ snap).
#[local] Abbreviation cnt := (cnt user_comparator_ snap).

(** Entries an internal iterator may hold: parsed keys in order, of sizes that
    fit, and fewer than the fuel. *)
Record entries_ok (l : list entry) : Prop := {
  eo_sorted : StronglySorted (entry_lt (cmp := icmp_)) l;
  eo_parses : Forall (fun e => is_Some (ParseInternalKey e.1)) l;
  eo_sizes : Forall (fun e : entry => blen e.1 + blen e.2 < 2 ^ 62) l;
  eo_fuel : (length l < fuel)%nat;
}.

Definition base (l : list entry) (d : D) (q : nat) : Prop :=
  at_pos (db_iter d) l q /\ db_status d = OK /\ 0 < db_rnd d < rnd_M /\
  0 <= bytes_until_read_sampling_ d < 2 ^ 63.

(** The entry after position [q], where the end stands before the first. *)
Definition nxt (l : list entry) (q : nat) : nat := if (q <? length l)%nat then S q else 0.

(** The state that shows entry [i]: moving forward the internal iterator is on
    it; moving backwards the iterator is before it and nothing visible lies in
    between. *)
Definition showing (l : list entry) (d : D) (q p : nat) : Prop :=
  exists i e, l !! i = Some e /\ shown (take i l) e = true /\ p = cnt l i /\
    match db_direction d with
    | kForward => q = i
    | kReverse => saved_key_ d = ukey e /\ saved_value_ d = e.2 /\ (nxt l q <= i)%nat /\
        forall j x, (nxt l q <= j < i)%nat -> l !! j = Some x -> vis x = false
    end.

Definition db_at_list (l : list entry) (d : D) (p : nat) : Prop :=
  exists q, base l d q /\ if db_valid d then showing l d q p else p = length (user_view l).

Definition db_at (d : D) (V : list entry) (p : nat) : Prop :=
  exists l, entries_ok l /\ V = user_view l /\ db_at_list l d p.

Section Fixed.
Context (l : list entry) (Hl : entries_ok l).
#[local] Abbreviation Hs := (eo_sorted l Hl).

Lemma base_valid d q : base l d q -> Valid (db_iter d) = (q <? length l)%nat.
Proof.
  intros (Ha & _). pose proof (at_pos_le _ _ _ Ha). destruct (Nat.ltb_spec q (length l)) as [Hlt|].
  - destruct (lookup_lt_is_Some_2 l q Hlt) as [e He]. by destruct (at_entry _ _ _ _ Ha He) as (-> & _).
  - replace q with (length l) in Ha by lia. by rewrite (at_end _ _ Ha).
Qed.

Lemma base_entry d q e : base l d q -> l !! q = Some e ->
  key (db_iter d) = e.1 /\ value (db_iter d) = e.2.
Proof. intros (Ha & _) He. by destruct (at_entry _ _ _ _ Ha He) as (_ & ? & ?). Qed.

Lemma on_iter_ok f d q q' : base l d q -> (exists it, f (db_iter d) = Some it /\ at_pos it l q') ->
  exists it, on_iter f d = Some (with_iter it d) /\ base l (with_iter it d) q'.
Proof.
  intros (_ & Hb) (it & E & Ha). exists it. unfold on_iter. rewrite E. split; [done|]. by split.
Qed.

Lemma good_entry_parse q e : l !! q = Some e -> exists k, ParseInternalKey e.1 = Some k.
Proof.
  intros He. pose proof (eo_parses l Hl) as H. rewrite Forall_forall in H.
  by destruct (H e (list_elem_of_lookup_2 _ _ _ He)) as [k Hk]; exists k.
Qed.

Lemma ParseKey_ok d q e : base l d q -> l !! q = Some e -> exists k rnd until log,
  ParseInternalKey e.1 = Some k /\ ParseKey d = Some (Some k, with_sampling rnd until log d) /\
  base l (with_sampling rnd until log d) q.
Proof.
  intros Hb He. destruct (base_entry d q e Hb He) as [Hk Hv]. destruct Hb as (Ha & Hst & Hr & Hu).
  destruct (good_entry_parse q e He) as [k Hp]. pose proof (eo_sizes l Hl) as Hsz. rewrite Forall_forall in Hsz.
  specialize (Hsz e (list_elem_of_lookup_2 _ _ _ He)). cbv beta in Hsz.
  pose proof (blen_nonneg e.1). pose proof (blen_nonneg e.2). unfold ParseKey. rewrite Hk, Hv.
  set (n := blen e.1 + blen e.2) in *.
  destruct (sample_loop_ok n e.1 (Z.to_nat n) ltac:(lia) _ _ (samples d) Hr Hu ltac:(lia))
    as (rnd & until & log & Es & Hr' & Hu').
  replace (Z.to_nat (2 * n + 2)) with (2 * Z.to_nat n + 2)%nat by lia. rewrite Es. cbn [mbind option_bind].
  rewrite Hp. exists k, rnd, (until - n), log. split; [done|]. split; [done|].
  split; [done|]. split; [done|]. split; [done|]. simpl. lia.
Qed.

Lemma visible_key_vis e k : ParseInternalKey e.1 = Some k ->
  visible_key snap (Some k) = if vis e then Some k else None.
Proof. intros H. unfold visible_key, DbIterProofs.vis. rewrite H. done. Qed.

(** Moving on to the next entry, or to the end. *)
Lemma next_entry d q : base l d q -> (q < length l)%nat ->
  exists it, on_iter Next d = Some (with_iter it d) /\ base l (with_iter it d) (S q).
Proof. intros Hb Hq. apply (on_iter_ok Next d q); [done|]. apply Next_ok; [apply Hb|done]. Qed.

Lemma ended d q : base l d q -> db_at_list l (with_valid false (clear_saved_key d)) (length (user_view l)).
Proof. intros Hb. exists q. by split. Qed.

Lemma FindNext_ok n : forall d i skipping, base l d i -> (i < length l)%nat -> db_direction d = kForward ->
  skip_inv user_comparator_ snap l i skipping (saved_key_ d) -> (length l - i <= n)%nat ->
  exists d', FindNextUserEntry user_comparator_ snap n skipping d = Some d' /\ db_at_list l d' (cnt l i).
Proof.
  induction n as [|n IH]; intros d i skipping Hb Hi Hd Hinv Hn; [lia|]. cbn [FindNextUserEntry].
  rewrite (base_valid d i Hb), (proj2 (Nat.ltb_lt _ _) Hi). cbn [negb].
  destruct (lookup_lt_is_Some_2 l i Hi) as [e He].
  destruct (ParseKey_ok d i e Hb He) as (k & rnd & until & log & Hp & -> & Hb1).
  cbn [mbind option_bind]. set (d1 := with_sampling rnd until log d) in *. rewrite (visible_key_vis e k Hp).
  (* moving on with a state that satisfies the invariant *)
  assert (Hgo : forall d2 b, base l d2 i -> db_direction d2 = kForward ->
    skip_inv user_comparator_ snap l (S i) b (saved_key_ d2) -> shown (take i l) e = false ->
    exists d', (d0 ← on_iter Next d2; if Valid (db_iter d0) then FindNextUserEntry user_comparator_ snap n b d0
                else Some (with_valid false (clear_saved_key d0))) = Some d' /\ db_at_list l d' (cnt l i)).
  { intros d2 b Hb2 Hd2 Hinv2 Hsh. destruct (next_entry d2 i Hb2 Hi) as (it & -> & Hb3). cbn [mbind option_bind].
    assert (Hc : cnt l (S i) = cnt l i) by (rewrite (cnt_S _ _ l i e He), Hsh; lia). rewrite <- Hc.
    rewrite (base_valid _ _ Hb3). destruct (Nat.ltb_spec (S i) (length l)) as [Hlt|Hge].
    - apply IH; [done|done|done|done|lia].
    - eexists. split; [done|]. replace (S i) with (length l) in * by lia. rewrite cnt_end. by apply (ended _ (length l)). }
  unfold DbIterProofs.shown, is_value in Hgo. rewrite Hp in Hgo.
  destruct (vis e) eqn:Hv; [|by apply Hgo; [..|apply skip_inv_invisible with e|]].
  rewrite (parse_ukey e k Hp) in *. destruct (type k) eqn:Et.
  - apply Hgo; [exact Hb1|done| |done]. by apply (skip_inv_after _ Huser snap l Hs).
  - pose proof (Hinv i e ltac:(lia) He Hv) as Hhid. cbn [saved_key_ d1 with_sampling].
    destruct (skipping && (ucmp (ukey e) (saved_key_ d) <=? 0)) eqn:Esk.
    + apply andb_true_iff in Esk as [-> Hle%Z.leb_le]. apply Hgo; [exact Hb1|done| |].
      * by apply (skip_inv_hidden _ Huser snap l) with e.
      * rewrite Hhid. done.
    + eexists. split; [done|]. exists i. split; [exact Hb1|]. cbn [db_valid clear_saved_key with_saved with_valid].
      exists i, e. split; [done|]. split; [|cbn; by rewrite Hd].
      unfold DbIterProofs.shown, is_value. by rewrite Hp, Hv, Et, Hhid.
Qed.

(** Skipping the entry that was shown: from a position before it with nothing
    visible in between. *)
Lemma skip_shown n i e : l !! i = Some e -> shown (take i l) e = true -> forall d q,
  base l d q -> (q <= i)%nat -> (forall j x, (q <= j < i)%nat -> l !! j = Some x -> vis x = false) ->
  db_direction d = kForward -> saved_key_ d = ukey e -> (length l - q <= n)%nat ->
  exists d', FindNextUserEntry user_comparator_ snap n true d = Some d' /\ db_at_list l d' (S (cnt l i)).
Proof.
  intros He Hsh. pose proof (lookup_lt_Some _ _ _ He) as Hi.
  assert (Hcnt : cnt l (S i) = S (cnt l i)) by (rewrite (cnt_S _ _ l i e He), Hsh; lia).
  induction n as [|n IH]; intros d q Hb Hq Hno Hd Hk Hn; [lia|]. cbn [FindNextUserEntry].
  rewrite (base_valid d q Hb), (proj2 (Nat.ltb_lt q (length l)) ltac:(lia)). cbn [negb].
  destruct (lookup_lt_is_Some_2 l q ltac:(lia)) as [x Hx].
  destruct (ParseKey_ok d q x Hb Hx) as (k & rnd & until & log & Hp & -> & Hb1).
  cbn [mbind option_bind]. set (d1 := with_sampling rnd until log d) in *. rewrite (visible_key_vis x k Hp).
  destruct (next_entry d1 q Hb1 ltac:(lia)) as (it & Eit & Hb3).
  destruct (decide (q = i)) as [->|Hne].
  - rewrite He in Hx. injection Hx as ->.
    unfold DbIterProofs.shown, is_value in Hsh. rewrite Hp in Hsh.
    destruct (vis x) eqn:Hv; [|done]. destruct (type k) eqn:Et; [done|].
    rewrite (parse_ukey x k Hp). cbn [saved_key_ d1 with_sampling]. rewrite Hk, (cmp_refl (ukey x)). cbn [andb Z.leb Z.compare].
    rewrite Eit. cbn [mbind option_bind]. rewrite <- Hcnt, (base_valid _ _ Hb3).
    destruct (Nat.ltb_spec (S i) (length l)) as [Hlt|Hge].
    + apply FindNext_ok; [done|done|done| |lia]. change (saved_key_ (with_iter it d1)) with (saved_key_ d).
      rewrite Hk. by apply (skip_inv_after _ Huser snap l Hs).
    + eexists. split; [done|]. replace (S i) with (length l) in * by lia. rewrite cnt_end. by apply (ended _ (length l)).
  - rewrite (Hno q x) by (done || lia). rewrite Eit. cbn [mbind option_bind].
    rewrite (base_valid _ _ Hb3), (proj2 (Nat.ltb_lt (S q) (length l)) ltac:(lia)).
    apply (IH _ (S q)); [done|lia| |done|done|lia]. intros j y Hj. apply Hno. lia.
Qed.

Lemma db_Next_ok d p : db_at_list l d p -> (p < length (user_view l))%nat ->
  exists d', db_Next user_comparator_ snap fuel d = Some d' /\ db_at_list l d' (S p).
Proof.
  intros (q & Hb & Hst) Hp. unfold db_Next. destruct (db_valid d) eqn:Ev; [|lia]. cbn [negb].
  destruct Hst as (i & e & He & Hsh & -> & Hdir). pose proof (eo_fuel l Hl). pose proof (lookup_lt_Some _ _ _ He) as Hi.
  destruct (db_direction d) eqn:Ed.
  - subst q. destruct (base_entry d i e Hb He) as [-> _].
    apply (skip_shown fuel i e He Hsh _ i); [exact Hb|lia|intros; lia|done|done|lia].
  - destruct Hdir as (Hk & _ & Hle & Hno). cbn [db_iter with_dir].
    destruct (on_iter_ok (if negb (Valid (db_iter d)) then SeekToFirst else Next) (with_dir kForward d) q (nxt l q) Hb)
      as (it & -> & Hb1).
    { rewrite (base_valid d q Hb). unfold nxt. cbn [db_iter with_dir].
      destruct (Nat.ltb_spec q (length l)); cbn [negb].
      - apply Next_ok; [apply Hb|done].
      - eapply SeekToFirst_ok. apply Hb. }
    cbn [mbind option_bind]. rewrite (base_valid _ _ Hb1), (proj2 (Nat.ltb_lt _ _)) by lia. cbn [negb].
    apply (skip_shown fuel i e He Hsh _ (nxt l q)); [exact Hb1|done|done|done|done|lia].
Qed.

(** ** Backwards *)

Definition pred_pos (c : nat) : nat := match c with O => length (user_view l) | S c' => c' end.

(** What the loop of [FindPrevUserEntry] knows when the entries from [m] on are
    done, having started after [m0] of them. *)
Definition prev_inv (m0 m : nat) (vt : ValueType) (d : D) : Prop :=
  match vt with
  | kTypeDeletion => cnt l m = cnt l m0
  | kTypeValue => exists i e, l !! i = Some e /\ vis e = true /\ is_value e = true /\
      saved_key_ d = ukey e /\ saved_value_ d = e.2 /\ (m <= i)%nat /\ cnt l (S i) = cnt l m0 /\
      forall j x, (m <= j < i)%nat -> l !! j = Some x -> vis x = false
  end.

(** At its end the entry found is shown: no visible entry before it has its key. *)
Lemma prev_inv_shown m i e : l !! i = Some e -> vis e = true -> is_value e = true ->
  (forall j x, (m <= j < i)%nat -> l !! j = Some x -> vis x = false) ->
  (forall j x, (j < m)%nat -> l !! j = Some x -> vis x = true -> ucmp (ukey x) (ukey e) < 0) ->
  shown (take i l) e = true.
Proof.
  intros He Hv Hval Hno Hless. unfold DbIterProofs.shown. rewrite Hv, Hval. cbn [andb]. apply negb_true_iff.
  apply not_true_iff_false. rewrite hidden_true. intros (j & x & Hlt & Hx & Hvx & Hz).
  destruct (decide (j < m)%nat) as [Hj|Hj]; [specialize (Hless j x Hj Hx Hvx); lia|].
  rewrite (Hno j x) in Hvx; [done|lia|done].
Qed.

(** An entry with a visible one of the same key before it is not shown. *)
Lemma covered_not_shown q i x e : l !! q = Some x -> l !! i = Some e -> (q < i)%nat -> vis x = true ->
  ucmp (ukey x) (ukey e) = 0 -> shown (take i l) e = false.
Proof.
  intros Hx He Hlt Hv Hz. unfold DbIterProofs.shown. rewrite andb_false_iff. right. apply negb_false_iff, hidden_true.
  eauto 10.
Qed.

Lemma cnt_0 : cnt l 0 = 0%nat.
Proof. done. Qed.

(** When an entry is taken, nothing from it on is shown that was seen before. *)
Lemma prev_inv_count m0 q vt d x : prev_inv m0 (S q) vt d -> l !! q = Some x -> vis x = true ->
  (vt = kTypeDeletion \/ 0 <= ucmp (ukey x) (saved_key_ d)) -> cnt l (S q) = cnt l m0.
Proof.
  intros Hinv Hx Hv Hcase. destruct vt; [exact Hinv|]. destruct Hcase as [|Hge]; [done|].
  destruct Hinv as (i & e & He & _ & _ & Hk & _ & Hle & Hc & Hno). rewrite Hk in Hge.
  pose proof (sorted_ukey _ Huser l Hs q i x e Hx He ltac:(lia)).
  pose proof (lookup_lt_Some _ _ _ He). rewrite <- Hc, (cnt_S _ _ l i e He).
  rewrite (covered_not_shown q i x e), Nat.add_0_r by (done || lia).
  apply cnt_const; [lia|lia|]. intros j y Hj. apply Hno. lia.
Qed.

(** What is known when the loop has ended with the iterator at [q]. *)
Definition prev_done (m0 q : nat) (vt : ValueType) (d : D) : Prop :=
  match vt with
  | kTypeDeletion => cnt l m0 = 0%nat
  | kTypeValue => exists i e, l !! i = Some e /\ shown (take i l) e = true /\
      saved_key_ d = ukey e /\ saved_value_ d = e.2 /\ (nxt l q <= i)%nat /\ cnt l (S i) = cnt l m0 /\
      forall j x, (nxt l q <= j < i)%nat -> l !! j = Some x -> vis x = false
  end.

Lemma prev_inv_done m0 q vt d : prev_inv m0 (nxt l q) vt d ->
  (vt = kTypeDeletion -> nxt l q = 0%nat) ->
  (vt = kTypeValue -> forall j x, (j < nxt l q)%nat -> l !! j = Some x -> vis x = true ->
     ucmp (ukey x) (saved_key_ d) < 0) ->
  prev_done m0 q vt d.
Proof.
  intros Hinv H0 Hless. destruct vt.
  - simpl in *. rewrite H0 in Hinv by done. by rewrite <- Hinv.
  - destruct Hinv as (i & e & He & Hv & Hval & Hk & Hsv & Hle & Hc & Hno). rewrite Hk in Hless. exists i, e.
    split; [done|]. split; [by apply (prev_inv_shown (nxt l q) i e He Hv Hval Hno), Hless|].
    split; [done|]. split; [done|]. split; [done|]. by split.
Qed.

Lemma prev_loop_ok m0 n : forall d q vt, base l d q -> (q < length l)%nat -> prev_inv m0 (S q) vt d ->
  (S q <= n)%nat -> exists vt' d' q', prev_loop user_comparator_ snap n vt d = Some (vt', d') /\
    base l d' q' /\ db_direction d' = db_direction d /\ prev_done m0 q' vt' d'.
Proof.
  induction n as [|n IH]; intros d q vt Hb Hq Hinv Hn; [lia|]. cbn [prev_loop].
  destruct (lookup_lt_is_Some_2 l q Hq) as [x Hx].
  destruct (ParseKey_ok d q x Hb Hx) as (k & rnd & until & log & Hp & -> & Hb1).
  cbn [mbind option_bind]. set (d1 := with_sampling rnd until log d) in *. rewrite (visible_key_vis x k Hp).
  assert (Hgo : forall d2 vt2, base l d2 q -> db_direction d2 = db_direction d -> prev_inv m0 q vt2 d2 ->
    exists vt' d' q', (d0 ← on_iter Prev d2; if Valid (db_iter d0) then prev_loop user_comparator_ snap n vt2 d0
        else Some (vt2, d0)) = Some (vt', d') /\
      base l d' q' /\ db_direction d' = db_direction d /\ prev_done m0 q' vt' d').
  { intros d2 vt2 Hb2 Hd2 Hinv2.
    destruct (on_iter_ok Prev d2 q _ Hb2 (Prev_ok _ _ _ (proj1 Hb2) Hq)) as (it & -> & Hb3). cbn [mbind option_bind].
    rewrite (base_valid _ _ Hb3). destruct q as [|q1].
    - rewrite Nat.ltb_irrefl. eexists _, _, _. split; [done|]. split; [exact Hb3|]. split; [done|].
      assert (Hn0 : nxt l (length l) = 0%nat) by (unfold nxt; by rewrite Nat.ltb_irrefl).
      apply prev_inv_done; rewrite Hn0; [exact Hinv2|done|]. intros; lia.
    - rewrite (proj2 (Nat.ltb_lt _ _)) by lia.
      destruct (IH (with_iter it d2) q1 vt2 Hb3) as (vt' & d' & q' & E & Hb4 & Hd4 & Hdone); [lia|exact Hinv2|lia|].
      exists vt', d', q'. split; [done|]. split; [done|]. split; [by rewrite Hd4|done]. }
  destruct (vis x) eqn:Hv.
  2: { apply Hgo; [exact Hb1|done|]. destruct vt; simpl in *.
    - rewrite <- Hinv. apply cnt_const; [lia|lia|]. intros j y Hj Hy. replace j with q in Hy by lia. congruence.
    - destruct Hinv as (i & e & He & Hve & Hval & Hk & Hsv & Hle & Hc & Hno). exists i, e.
      do 5 (split; [done|]). split; [lia|]. split; [done|]. intros j y Hj Hy.
      destruct (decide (j = q)) as [->|]; [congruence|]. apply (Hno j); [lia|done]. }
  rewrite (parse_ukey x k Hp). cbn [saved_key_ d1 with_sampling].
  destruct (negb (bool_decide (vt = kTypeDeletion)) && (ucmp (ukey x) (saved_key_ d) <? 0)) eqn:Ebr.
  - apply andb_true_iff in Ebr as [Hvt Hlt%Z.ltb_lt]. eexists _, _, q. split; [done|]. split; [exact Hb1|].
    split; [done|]. assert (Hnx : nxt l q = S q) by (unfold nxt; by rewrite (proj2 (Nat.ltb_lt _ _))).
    apply prev_inv_done; rewrite ?Hnx; [destruct vt; exact Hinv|by destruct vt|].
    intros _ j y Hj Hy _. apply (cmp_le_lt_trans _ (ukey x)); [|done]. by apply (sorted_ukey _ Huser l Hs j q); [..|lia].
  - assert (Hc : cnt l (S q) = cnt l m0).
    { apply (prev_inv_count m0 q vt d x Hinv Hx Hv). destruct vt; [by left|right]. by apply Z.ltb_ge in Ebr. }
    destruct (type k) eqn:Et.
    + apply Hgo; [exact Hb1|done|]. simpl. rewrite <- Hc, (cnt_S _ _ l q x Hx).
      unfold DbIterProofs.shown, is_value. rewrite Hp, Et. simpl. rewrite andb_false_r. simpl. lia.
    + destruct (base_entry d q x Hb Hx) as [Hkey Hval]. change (db_iter d1) with (db_iter d). rewrite Hkey, Hval.
      apply Hgo; [exact Hb1|done|]. exists q, x. split; [done|]. split; [done|].
      split; [unfold is_value; by rewrite Hp, Et|]. split; [done|]. split; [done|]. split; [done|].
      split; [done|]. intros; lia.
Qed.

Lemma FindPrev_ok d q : base l d q -> db_direction d = kReverse ->
  exists d', FindPrevUserEntry user_comparator_ snap fuel d = Some d' /\
    db_at_list l d' (pred_pos (cnt l (nxt l q))).
Proof.
  intros Hb Hd. unfold FindPrevUserEntry. rewrite (base_valid d q Hb). pose proof (eo_fuel l Hl). unfold nxt.
  destruct (Nat.ltb_spec q (length l)) as [Hlt|Hge].
  - destruct (prev_loop_ok (S q) fuel d q kTypeDeletion Hb Hlt eq_refl ltac:(lia)) as (vt & d' & q' & -> & Hb' & Hd' & Hdone).
    cbn [mbind option_bind]. eexists. split; [done|]. exists q'. destruct vt.
    + split; [exact Hb'|]. cbn. simpl in Hdone. by rewrite Hdone.
    + split; [exact Hb'|]. destruct Hdone as (i & e & He & Hsh & Hk & Hv & Hle & Hc & Hno). exists i, e.
      split; [done|]. split; [done|]. rewrite <- Hc, (cnt_S _ _ l i e He), Hsh, Nat.add_1_r. split; [done|].
      cbn [db_direction with_valid saved_key_ saved_value_]. by rewrite Hd', Hd.
  - cbn [mbind option_bind]. eexists. split; [done|]. exists q. split; [exact Hb|]. done.
Qed.

Lemma scan_back_ok n i e : l !! i = Some e -> shown (take i l) e = true -> forall d q,
  base l d q -> (q <= i)%nat -> saved_key_ d = ukey e -> (S q <= n)%nat ->
  (forall j x, (q <= j < i)%nat -> l !! j = Some x -> vis x = false) ->
  exists b d', scan_back user_comparator_ n d = Some (b, d') /\
    if b : bool then exists q', base l d' q' /\ cnt l (nxt l q') = cnt l i
    else db_at_list l d' (pred_pos (cnt l i)).
Proof.
  intros He Hsh. pose proof (lookup_lt_Some _ _ _ He) as Hi.
  induction n as [|n IH]; intros d q Hb Hq Hk Hn Hno; [lia|]. cbn [scan_back].
  assert (Hc : cnt l q = cnt l i) by (apply cnt_const; [lia|lia|done]).
  destruct (on_iter_ok Prev d q _ Hb (Prev_ok _ _ _ (proj1 Hb) ltac:(lia))) as (it & -> & Hb1). cbn [mbind option_bind].
  rewrite (base_valid _ _ Hb1). destruct q as [|q].
  - rewrite Nat.ltb_irrefl. cbn [negb]. eexists false, _. split; [done|]. rewrite <- Hc. by exists (length l).
  - rewrite (proj2 (Nat.ltb_lt _ _)) by lia. cbn [negb].
    destruct (lookup_lt_is_Some_2 l q ltac:(lia)) as [x Hx].
    destruct (base_entry _ _ _ Hb1 Hx) as [-> _]. change (saved_key_ (with_iter it d)) with (saved_key_ d).
    rewrite Hk. fold (ukey x). destruct (Z.ltb_spec (ucmp (ukey x) (ukey e)) 0) as [Hlt|Hge].
    + eexists true, _. split; [done|]. exists q. split; [exact Hb1|].
      unfold nxt. by rewrite (proj2 (Nat.ltb_lt _ _)) by lia.
    + apply (IH _ q); [exact Hb1|lia|done|lia|]. intros j y Hj Hy.
      destruct (decide (j = q)) as [->|]; [|apply (Hno j); [lia|done]]. rewrite Hx in Hy. injection Hy as <-.
      apply not_true_iff_false. intros Hv. rewrite (covered_not_shown q i x e) in Hsh; [done|done|done|lia|done|].
      pose proof (sorted_ukey _ Huser l Hs q i x e Hx He ltac:(lia)). lia.
Qed.

Lemma db_Prev_ok d p : db_at_list l d p -> (p < length (user_view l))%nat ->
  exists d', db_Prev user_comparator_ snap fuel d = Some d' /\ db_at_list l d' (pred_pos p).
Proof.
  intros (q & Hb & Hst) Hp. unfold db_Prev. destruct (db_valid d) eqn:Ev; [|lia]. cbn [negb].
  destruct Hst as (i & e & He & Hsh & -> & Hdir). pose proof (eo_fuel l Hl). pose proof (lookup_lt_Some _ _ _ He) as Hi.
  destruct (db_direction d) eqn:Ed.
  - subst q. rewrite (base_valid d i Hb), (proj2 (Nat.ltb_lt _ _)) by lia. cbn [negb].
    destruct (base_entry d i e Hb He) as [-> _].
    destruct (scan_back_ok fuel i e He Hsh (SaveKey (ExtractUserKey e.1) d) i Hb) as (b & d1 & -> & H1);
      [lia|done|lia|intros; lia|]. cbn [mbind option_bind]. destruct b; [|eauto].
    destruct H1 as (q' & Hb' & Hc). rewrite <- Hc. by apply FindPrev_ok.
  - destruct Hdir as (_ & _ & Hle & Hno). rewrite <- (cnt_const _ _ l (nxt l q) i Hle ltac:(lia) Hno).
    by apply FindPrev_ok.
Qed.

(** The target of a seek is before exactly the visible entries of its key. *)
Lemma seek_target target j e : 0 <= snap <= kMaxSequenceNumber -> l !! j = Some e -> vis e = true ->
  (InternalKey_Compare user_comparator_ e.1 (mkInternalKey target snap kTypeValue) < 0 <-> ucmp (ukey e) target < 0).
Proof.
  intros Hsn Hj Hv. rewrite (icmp_lt user_comparator_), ExtractUserKey_mk, ExtractTag_mk by done. fold (ukey e).
  unfold DbIterProofs.vis in Hv. destruct (ParseInternalKey e.1) as [k|] eqn:Ek; [|done]. apply Z.leb_le in Hv.
  apply ParseInternalKey_parts in Ek as [_ ->]. rewrite PackSequenceAndType_sum by done.
  pose proof (vt_num_range (type k)). simpl. lia.
Qed.

Lemma user_view_seek target i : 0 <= snap <= kMaxSequenceNumber ->
  seek_index (cmp := icmp_) (mkInternalKey target snap kTypeValue) l = i ->
  cnt l i = seek_index (cmp := user_comparator_) target (user_view l).
Proof.
  intros Hsn Hi. symmetry. apply seek_index_unique.
  - rewrite (view_split _ _ l i), length_app. unfold DbIterProofs.cnt. lia.
  - intros j x Hj Hlt. rewrite (view_split _ _ l i), lookup_app_l in Hj by done.
    apply list_elem_of_lookup_2, view_elem in Hj as (e & He & Hv & ->).
    apply list_elem_of_lookup in He as [k Hk]. apply lookup_take_Some in Hk as [Hk Hki].
    apply (seek_target target k e Hsn Hk Hv). apply (seek_index_before (cmp := icmp_) _ l k e Hk). lia.
  - intros x Hx. rewrite (view_split _ _ l i), lookup_app_r in Hx by done.
    apply list_elem_of_lookup_2, view_elem in Hx as (e & He & Hv & ->).
    apply list_elem_of_lookup in He as [k Hk]. rewrite lookup_drop in Hk.
    pose proof (seek_index_after (cmp := icmp_) (mkInternalKey target snap kTypeValue) l (i + k) e Hs Hk ltac:(lia)) as Ha.
    pose proof (seek_target target _ e Hsn Hk Hv) as Ht. cbn [Compare InternalKeyComparator] in Ha. simpl. lia.
Qed.

(** At the start of a run of keys nothing is hidden. *)
Lemma skip_inv_start target i skip : 0 <= snap <= kMaxSequenceNumber ->
  seek_index (cmp := icmp_) (mkInternalKey target snap kTypeValue) l = i ->
  skip_inv user_comparator_ snap l i false skip.
Proof.
  intros Hsn Hi j e Hj He Hv. cbn [andb]. apply not_true_iff_false. rewrite hidden_true.
  intros (j' & y & Hlt & Hy & Hvy & Hz).
  pose proof (seek_index_before (cmp := icmp_) (mkInternalKey target snap kTypeValue) l j' y Hy ltac:(lia)) as Hb.
  pose proof (seek_index_after (cmp := icmp_) (mkInternalKey target snap kTypeValue) l j e Hs He ltac:(lia)) as Ha.
  apply (seek_target target j' y Hsn Hy Hvy) in Hb. pose proof (seek_target target j e Hsn He Hv) as Ht.
  cbn [Compare InternalKeyComparator] in Ha. assert (ucmp (ukey e) target < 0); [|lia].
  apply (cmp_le_lt_trans _ (ukey y)); [|done]. apply (cmp_eq_sym) in Hz. lia.
Qed.

(** From a position of the internal iterator where nothing is hidden. *)
Lemma find_from d i : base l d i -> db_direction d = kForward ->
  (forall skip, skip_inv user_comparator_ snap l i false skip) ->
  exists d', (if Valid (db_iter d) then FindNextUserEntry user_comparator_ snap fuel false d
              else Some (with_valid false d)) = Some d' /\ db_at_list l d' (cnt l i).
Proof.
  intros Hb Hd Hinv. rewrite (base_valid d i Hb). pose proof (eo_fuel l Hl).
  destruct (Nat.ltb_spec i (length l)) as [Hlt|Hge].
  - apply FindNext_ok; [done|done|done|apply Hinv|lia].
  - eexists. split; [done|]. pose proof (at_pos_le _ _ _ (proj1 Hb)). replace i with (length l) by lia.
    rewrite cnt_end. by exists i.
Qed.
End Fixed.

Context (Hsn : 0 <= snap <= kMaxSequenceNumber).
#[local] Instance db_iterator : Iterator D := DBIter_iterator user_comparator_ snap fuel.

Lemma db_at_observe l d p e : db_at_list l d p -> user_view l !! p = Some e ->
  Valid d = true /\ key d = e.1 /\ value d = e.2.
Proof.
  intros (q & Hb & Hst) He. cbn [Valid key value db_iterator DBIter_iterator].
  destruct (db_valid d); [|subst p; rewrite lookup_ge_None_2 in He by lia; done]. split; [done|].
  destruct Hst as (i & x & Hx & Hsh & -> & Hdir). rewrite (cnt_lookup _ _ l i x Hx Hsh) in He. injection He as <-.
  destruct (db_direction d).
  - subst q. destruct (base_entry l d i x Hb Hx) as [-> ->]. done.
  - destruct Hdir as (-> & -> & _). done.
Qed.

Lemma seek_key_small target : blen target + 8 < 2 ^ 32 -> blen (AppendInternalKey [] (mkParsed target snap kValueTypeForSeek)) < 2 ^ 32.
Proof. intros Ht. change (AppendInternalKey [] _) with (mkInternalKey target snap kValueTypeForSeek). by rewrite mkInternalKey_eq, blen_app, EncodeFixed64_length. Qed.

Lemma db_Seek_ok l d p target : entries_ok l -> db_at_list l d p -> blen target + 8 < 2 ^ 32 ->
  exists d', db_Seek user_comparator_ snap fuel d target = Some d' /\
    db_at_list l d' (seek_index (cmp := user_comparator_) target (user_view l)).
Proof.
  intros Hl (q & Hb & _) Ht. unfold db_Seek.
  set (d1 := SaveKey _ _). assert (Hb1 : base l d1 q) by exact Hb.
  destruct (on_iter_ok l (fun it => Seek it (saved_key_ d1)) d1 q _ Hb1 (Seek_ok _ _ _ _ (proj1 Hb1) ltac:(by apply seek_key_small))) as (it & -> & Hb2).
  cbn [mbind option_bind].
  rewrite <- (user_view_seek l Hl target _ Hsn eq_refl).
  apply find_from; [done|exact Hb2|done|]. intros skip. by eapply (skip_inv_start l Hl target).
Qed.

Lemma db_SeekToFirst_ok l d p : entries_ok l -> db_at_list l d p ->
  exists d', db_SeekToFirst user_comparator_ snap fuel d = Some d' /\ db_at_list l d' 0.
Proof.
  intros Hl (q & Hb & _). unfold db_SeekToFirst.
  destruct (on_iter_ok l SeekToFirst (ClearSavedValue (with_dir kForward d)) q 0 Hb) as (it & -> & Hb2).
  { eapply SeekToFirst_ok. apply Hb. }
  cbn [mbind option_bind]. by apply (find_from l Hl _ 0).
Qed.

Lemma db_SeekToLast_ok l d p : entries_ok l -> db_at_list l d p ->
  exists d', db_SeekToLast user_comparator_ snap fuel d = Some d' /\
    db_at_list l d' (length (user_view l) - 1).
Proof.
  intros Hl (q & Hb & _). unfold db_SeekToLast.
  destruct (on_iter_ok l SeekToLast (ClearSavedValue (with_dir kReverse d)) q (length l - 1) Hb) as (it & -> & Hb2).
  { eapply SeekToLast_ok. apply Hb. }
  cbn [mbind option_bind].
  assert (Hc : cnt l (nxt l (length l - 1)) = length (user_view l)).
  { rewrite <- cnt_end. f_equal. unfold nxt. destruct (Nat.ltb_spec (length l - 1) (length l)); lia. }
  destruct (FindPrev_ok l Hl (with_iter it (ClearSavedValue (with_dir kReverse d))) _ Hb2 eq_refl) as (d' & E & Hat).
  exists d'. split; [done|]. rewrite Hc in Hat. unfold pred_pos in Hat.
  destruct (length (user_view l)) as [|m]; [done|]. by rewrite Nat.sub_1_r.
Qed.

Lemma db_observe d V p : db_at d V p -> observe d = V !! p.
Proof.
  intros (l & _ & -> & Hat). unfold observe. destruct (user_view l !! p) as [e|] eqn:E.
  - destruct (db_at_observe l d p e Hat E) as (-> & -> & ->). by destruct e.
  - destruct Hat as (q & _ & Hst). cbn [Valid db_iterator DBIter_iterator]. destruct (db_valid d); [|done].
    destruct Hst as (i & e & He & Hsh & -> & _). by rewrite (cnt_lookup _ _ l i e He Hsh) in E.
Qed.

(** The target of a [Seek] becomes an internal key, eight bytes longer. *)
Definition op_fits (op : IterOp) : Prop := match op with OpSeek target => blen target + 8 < 2 ^ 32 | _ => True end.

Lemma db_step_ok d V p op q : db_at d V p -> op_fits op -> list_step user_comparator_ V p op = Some q ->
  exists d', iter_step d op = Some d' /\ db_at d' V q.
Proof.
  intros (l & Hl & -> & Hat) Hop Hs.
  cut (exists d', iter_step d op = Some d' /\ db_at_list l d' q); [intros (d' & E & Hd); exists d'; split; [exact E|]; by exists l|].
  destruct op as [target| | | |]; cbn [list_step iter_step op_fits] in *.
  - destruct (blen target <? 2 ^ 32); [|done]. injection Hs as <-. by apply (db_Seek_ok l d p).
  - injection Hs as <-. by apply (db_SeekToFirst_ok l d p).
  - injection Hs as <-. by apply (db_SeekToLast_ok l d p).
  - destruct (Nat.ltb_spec p (length (user_view l))); [|done]. injection Hs as <-. by apply (db_Next_ok l Hl).
  - destruct (Nat.ltb_spec p (length (user_view l))); [|done]. injection Hs as <-. by apply (db_Prev_ok l Hl).
Qed.

Lemma NewDBIterator_at l it i seed : entries_ok l -> at_pos it l i ->
  db_at (NewDBIterator it seed) (user_view l) (length (user_view l)).
Proof.
  intros Hl Ha. exists l. split; [done|]. split; [done|]. exists i. unfold NewDBIterator.
  destruct (period_step (newRandom seed) (newRandom_range seed)) as (p & rnd & -> & Hp & Hr & _).
  split; [|done]. split; [done|]. split; [done|]. split; [done|]. simpl. lia.
Qed.

(** The iterator of the database shows the user's view at its snapshot.  Over
    an internal iterator that walks sorted entries with well-formed keys, any
    walk, with turns anywhere, shows what the same walk shows on the list of the
    newest visible values of the user keys that are not deleted at the snapshot;
    no walk gets stuck, the sampling of reads included. *)
Theorem db_iterator_refines (l : list entry) (internal_iter : I) (i : nat) (seed : Z) (ops : list IterOp)
    (t : list (option entry)) :
  entries_ok l -> at_pos internal_iter l i -> Forall op_fits ops ->
  list_trace user_comparator_ (user_view l) (length (user_view l)) ops = Some t ->
  iter_trace (H := DBIter_iterator user_comparator_ snap fuel) (NewDBIterator internal_iter seed) ops = Some t.
Proof.
  intros Hl Ha Hops. apply (trace_ok user_comparator_ (user_view l) (fun d p => db_at d (user_view l) p) op_fits).
  - intros d p. apply db_observe.
  - intros d p op q. apply db_step_ok.
  - by apply (NewDBIterator_at l _ i).
  - exact Hops.
Qed.
End Walk.

(** Overwritten, deleted and future entries; the walk turns twice. *)
Definition scan_entries : list (bytes * bytes) :=
  [(mkInternalKey (str "a") 5 kTypeValue, str "new"); (mkInternalKey (str "a") 2 kTypeValue, str "old");
   (mkInternalKey (str "b") 6 kTypeDeletion, []); (mkInternalKey (str "b") 3 kTypeValue, str "x");
   (mkInternalKey (str "c") 9 kTypeValue, str "future"); (mkInternalKey (str "c") 4 kTypeValue, str "z")].

Lemma db_iterator_refines_witness :
  iter_trace (H := DBIter_iterator (Iterator0 := ListIter_iterator (InternalKeyComparator BytewiseComparator))
      BytewiseComparator 6 7) (NewDBIterator (mkListIter scan_entries 6) 301)
    [OpSeekToFirst; OpNext; OpPrev; OpNext; OpNext; OpSeek (str "b"); OpPrev] =
  Some [Some (str "a", str "new"); Some (str "c", str "z"); Some (str "a", str "new"); Some (str "c", str "z");
        None; Some (str "c", str "z"); Some (str "a", str "new")].
Proof.
  apply (@db_iterator_refines ListIter (ListIter_iterator (InternalKeyComparator BytewiseComparator))
    BytewiseComparator BytewiseComparator_ok (ListIter_ok _) 6 7) with scan_entries 6%nat.
  - vm_compute. split; discriminate.
  - split; [..|simpl; lia].
    + repeat constructor; vm_compute; reflexivity.
    + repeat constructor; eexists; vm_compute; reflexivity.
    + repeat constructor; vm_compute; reflexivity.
  - split; [done|simpl; lia].
  - repeat constructor.
  - vm_compute. reflexivity.
Defined.
