(* ===== verification/TableBuilder.v ===== *)
(** table/table_builder.cc: writing a table file from entries in increasing
    order: data blocks, the filter block, the metaindex block, the index block
    and the footer. *)

From stdpp Require Import base list option sorting strings.
From S2P Require Import Prelude Status Coding Crc32c Env Comparator Format Block Bloom FilterBlock.
From Stdlib Require Import Strings.Byte.

#[local] Open Scope Z_scope.

(** The fields of [Options] that tables use; a filter policy with its name. *)
Record TableOptions := mkTableOptions {
  block_size : Z;
  block_restart_interval : Z;
  compression : Z;
  filter_policy : option (bytes * FilterPolicy);
  paranoid_checks : bool;
}.

Definition with_restart_interval (o : TableOptions) (n : Z) : TableOptions :=
  mkTableOptions (block_size o) n (compression o) (filter_policy o) (paranoid_checks o).

Section TableBuilder.
Context {F : Type} `{WritableFile F} `{Checksum} `{Snappy}.

Record Rep := mkRep {
  options : TableOptions;
  index_block_options : TableOptions;
  file : F;
  offset : Z;
  rep_status : Status;
  data_block : BlockBuilder;
  index_block : BlockBuilder;
  last_key : bytes;
  num_entries : Z;
  closed : bool;
  filter_block : option (FilterPolicy * FilterBlockBuilder);   (* with its [policy_] *)
  pending_index_entry : bool;
  pending_handle : BlockHandle;
}.

Definition with_file (r : Rep) (f : F) (off : Z) (s : Status) : Rep :=
  mkRep (options r) (index_block_options r) f off s (data_block r) (index_block r) (last_key r)
    (num_entries r) (closed r) (filter_block r) (pending_index_entry r) (pending_handle r).
Definition with_data_block (r : Rep) (b : BlockBuilder) : Rep :=
  mkRep (options r) (index_block_options r) (file r) (offset r) (rep_status r) b (index_block r)
    (last_key r) (num_entries r) (closed r) (filter_block r) (pending_index_entry r) (pending_handle r).
Definition with_index_block (r : Rep) (b : BlockBuilder) : Rep :=
  mkRep (options r) (index_block_options r) (file r) (offset r) (rep_status r) (data_block r) b
    (last_key r) (num_entries r) (closed r) (filter_block r) (pending_index_entry r) (pending_handle r).
Definition with_last_key (r : Rep) (k : bytes) (n : Z) : Rep :=
  mkRep (options r) (index_block_options r) (file r) (offset r) (rep_status r) (data_block r)
    (index_block r) k n (closed r) (filter_block r) (pending_index_entry r) (pending_handle r).
Definition with_filter (r : Rep) (b : option (FilterPolicy * FilterBlockBuilder)) : Rep :=
  mkRep (options r) (index_block_options r) (file r) (offset r) (rep_status r) (data_block r)
    (index_block r) (last_key r) (num_entries r) (closed r) b (pending_index_entry r) (pending_handle r).
Definition with_pending (r : Rep) (p : bool) (h : BlockHandle) : Rep :=
  mkRep (options r) (index_block_options r) (file r) (offset r) (rep_status r) (data_block r)
    (index_block r) (last_key r) (num_entries r) (closed r) (filter_block r) p h.
Definition with_closed (r : Rep) : Rep :=
  mkRep (options r) (index_block_options r) (file r) (offset r) (rep_status r) (data_block r)
    (index_block r) (last_key r) (num_entries r) true (filter_block r) (pending_index_entry r)
    (pending_handle r).

Definition builder_ok (r : Rep) : bool := ok (rep_status r).

(** An operation of the filter builder, when there is one. *)
Definition on_filter (f : FilterPolicy -> FilterBlockBuilder -> FilterBlockBuilder) (r : Rep) : Rep :=
  match filter_block r with
  | Some (p, b) => with_filter r (Some (p, f p b))
  | None => r
  end.

Definition newTableBuilder (opt : TableOptions) (f : F) : Rep :=
  let r := mkRep opt (with_restart_interval opt 1) f 0 OK newBlockBuilder newBlockBuilder [] 0 false
    (match filter_policy opt with Some (_, p) => Some (p, newFilterBlockBuilder) | None => None end)
    false newBlockHandle in
  on_filter (fun p b => StartBlock p b 0) r.

(** [same_comparator]: the new options hold the same comparator pointer. *)
Definition ChangeOptions (r : Rep) (opt : TableOptions) (same_comparator : bool) : Status * Rep :=
  if negb same_comparator then
    (InvalidArgument (str "changing comparator while building table") [], r)
  else
    (OK, mkRep opt (with_restart_interval opt 1) (file r) (offset r) (rep_status r) (data_block r)
           (index_block r) (last_key r) (num_entries r) (closed r) (filter_block r)
           (pending_index_entry r) (pending_handle r)).

(** The handle is set before the writes, whatever they return. *)
Definition WriteRawBlock (r : Rep) (block_contents : bytes) (type : Z) : Rep * BlockHandle :=
  let handle := mkHandle (offset r) (blen block_contents) in
  let '(s, f) := wAppend (file r) block_contents in
  if ok s then
    let crc := crc32c_Value block_contents in
    let crc := crc32c_Extend crc [zb type] in
    let trailer := zb type :: EncodeFixed32 (Mask crc) in
    let '(s, f) := wAppend f trailer in
    (with_file r f (if ok s then u64 (offset r + (blen block_contents + kBlockTrailerSize)) else offset r) s,
     handle)
  else (with_file r f (offset r) s, handle).

(** The builder of the block comes back reset. *)
Definition WriteBlock (r : Rep) (block : BlockBuilder) : Rep * BlockBuilder * BlockHandle :=
  let '(raw, block) := BlockBuilder_Finish block in
  let '(block_contents, type) :=
    if compression (options r) =? kSnappyCompression then
      match Snappy_Compress raw with
      | Some compressed =>
          if blen compressed <? blen raw - blen raw / 8 then (compressed, kSnappyCompression)
          else (raw, kNoCompression)
      | None => (raw, kNoCompression)
      end
    else (raw, kNoCompression) in
  let '(r, handle) := WriteRawBlock r block_contents type in
  (r, BlockBuilder_Reset block, handle).

Definition Flush (r : Rep) : Rep :=
  if negb (builder_ok r) then r
  else if BlockBuilder_empty (data_block r) then r
  else
    let '(r, block, handle) := WriteBlock r (data_block r) in
    let r := with_pending (with_data_block r block) (pending_index_entry r) handle in
    let r :=
      if builder_ok r then
        let r := with_pending r true (pending_handle r) in
        let '(s, f) := wFlush (file r) in
        with_file r f (offset r) s
      else r in
    on_filter (fun p b => StartBlock p b (offset r)) r.

(** The index entry of the block that was written last: its last key (the
    shortening of the key is commented out in the source) and its handle. *)
Definition add_index_entry (r : Rep) : Rep :=
  if pending_index_entry r then
    let handle_encoding := BlockHandle_EncodeTo (pending_handle r) [] in
    let r := with_index_block r
      (BlockBuilder_Add (block_restart_interval (index_block_options r)) (index_block r)
         (last_key r) handle_encoding) in
    with_pending r false (pending_handle r)
  else r.

(** [Add] up to the entry of the data block. *)
Definition put_entry (r : Rep) (key value : bytes) : Rep :=
  let r := add_index_entry r in
  let r := on_filter (fun p b => AddKey b key) r in
  let r := with_last_key r key (num_entries r + 1) in
  with_data_block r
    (BlockBuilder_Add (block_restart_interval (options r)) (data_block r) key value).

(** [Add] and [Flush] where their assertions hold; [Add_asserted] and
    [Flush_asserted] below have the assertions, and [asserts_hold] shows that
    they hold for keys in increasing order. *)
Definition TableBuilder_Add (r : Rep) (key value : bytes) : Rep :=
  if negb (builder_ok r) then r
  else
    let r := put_entry r key value in
    if block_size (options r) <=? CurrentSizeEstimate (data_block r) then Flush r else r.

(** [Flush] with its assertions: [None] when one fails. *)
Definition Flush_asserted (r : Rep) : option Rep :=
  if closed r then None
  else if negb (builder_ok r) then Some r
  else if BlockBuilder_empty (data_block r) then Some r
  else if pending_index_entry r then None
  else Some (Flush r).

(** [Add] with its assertions, [Compare] being the comparator of the options. *)
Definition Add_asserted (Compare : bytes -> bytes -> Z) (r : Rep) (key value : bytes) : option Rep :=
  if closed r then None
  else if negb (builder_ok r) then Some r
  else if (0 <? num_entries r) && negb (0 <? Compare key (last_key r)) then None
  else if pending_index_entry r && negb (BlockBuilder_empty (data_block r)) then None
  else
    let r := put_entry r key value in
    if block_size (options r) <=? CurrentSizeEstimate (data_block r) then Flush_asserted r else Some r.

(** The key of the filter in the metaindex block. *)
Definition filter_key (name : bytes) : bytes := str "filter." ++ name.

Definition write_filter (r : Rep) : Rep * BlockHandle :=
  match filter_block r with
  | Some (p, b) =>
      if builder_ok r then WriteRawBlock r (Finish p b) kNoCompression else (r, newBlockHandle)
  | None => (r, newBlockHandle)
  end.

(** The name of the policy comes from the current options: a builder whose policy
    was taken away by [ChangeOptions] has no defined behaviour. *)
Definition write_metaindex (r : Rep) (filter_block_handle : BlockHandle) : Rep * BlockHandle :=
  if builder_ok r then
    let meta_index_block :=
      match filter_policy (options r), filter_block r with
      | Some (name, _), Some _ =>
          BlockBuilder_Add (block_restart_interval (options r)) newBlockBuilder (filter_key name)
            (BlockHandle_EncodeTo filter_block_handle [])
      | _, _ => newBlockBuilder
      end in
    let '(r, _, handle) := WriteBlock r meta_index_block in (r, handle)
  else (r, newBlockHandle).

Definition write_index (r : Rep) : Rep * BlockHandle :=
  if builder_ok r then
    let r := add_index_entry r in
    let '(r, block, handle) := WriteBlock r (index_block r) in
    (with_index_block r block, handle)
  else (r, newBlockHandle).

Definition write_footer (r : Rep) (metaindex_handle index_handle : BlockHandle) : Rep :=
  if builder_ok r then
    let footer_encoding := Footer_EncodeTo (mkFooter metaindex_handle index_handle) [] in
    let '(s, f) := wAppend (file r) footer_encoding in
    with_file r f (if ok s then u64 (offset r + blen footer_encoding) else offset r) s
  else r.

Definition TableBuilder_Finish (r : Rep) : Status * Rep :=
  let r := with_closed (Flush r) in
  let '(r, filter_block_handle) := write_filter r in
  let '(r, metaindex_block_handle) := write_metaindex r filter_block_handle in
  let '(r, index_block_handle) := write_index r in
  let r := write_footer r metaindex_block_handle index_block_handle in
  (rep_status r, r).

Definition Abandon (r : Rep) : Rep := with_closed r.
Definition NumEntries (r : Rep) : Z := num_entries r.
Definition FileSize (r : Rep) : Z := offset r.

(** * The assertions hold *)

(** What the assertions need: an index entry waits only while the data block is
    empty. *)
Definition unfinished (r : Rep) : Prop :=
  closed r = false /\ 0 <= num_entries r /\
  (pending_index_entry r = true -> BlockBuilder_empty (data_block r) = true).

Lemma on_filter_fields f r :
  closed (on_filter f r) = closed r /\ num_entries (on_filter f r) = num_entries r /\
  pending_index_entry (on_filter f r) = pending_index_entry r /\ data_block (on_filter f r) = data_block r /\
  last_key (on_filter f r) = last_key r.
Proof. unfold on_filter. by destruct (filter_block r) as [ [p b]|]. Qed.

Lemma WriteBlock_fields r b : let '(r', b', _) := WriteBlock r b in
  closed r' = closed r /\ num_entries r' = num_entries r /\ last_key r' = last_key r /\ BlockBuilder_empty b' = true.
Proof.
  unfold WriteBlock, WriteRawBlock. destruct (BlockBuilder_Finish b) as [raw b1].
  destruct (if compression (options r) =? _ then _ else _) as [bc ty].
  destruct (wAppend (file r) bc) as [s f]. destruct (ok s); [|done]. by destruct (wAppend f _).
Qed.

Lemma Flush_fields r : closed (Flush r) = closed r /\ num_entries (Flush r) = num_entries r /\ last_key (Flush r) = last_key r /\
  (unfinished r -> unfinished (Flush r)).
Proof.
  unfold Flush. destruct (negb (builder_ok r)); [done|]. destruct (BlockBuilder_empty (data_block r)); [done|].
  pose proof (WriteBlock_fields r (data_block r)) as W. destruct (WriteBlock r (data_block r)) as [ [r1 b1] h1].
  destruct W as (W1 & W2 & W3 & W4).
  set (r2 := if builder_ok _ then _ else _).
  assert (E : closed r2 = closed r /\ num_entries r2 = num_entries r /\ last_key r2 = last_key r /\ data_block r2 = b1).
  { unfold r2. destruct (builder_ok _); [|done]. by destruct (wFlush _). }
  destruct E as (E1 & E2 & E3 & E4). destruct (on_filter_fields (fun p b => StartBlock p b (offset r2)) r2) as (F1 & F2 & _ & F4 & F5).
  split; [congruence|]. split; [congruence|]. split; [congruence|]. intros (U1 & U2 & _). split; [congruence|]. split; [lia|].
  intros _. by rewrite F4, E4.
Qed.

Lemma put_entry_fields r k v : closed (put_entry r k v) = closed r /\ num_entries (put_entry r k v) = num_entries r + 1 /\
  last_key (put_entry r k v) = k /\ pending_index_entry (put_entry r k v) = false.
Proof.
  unfold put_entry. destruct (on_filter_fields (fun p b => AddKey b k) (add_index_entry r)) as (F1 & F2 & F3 & _ & _).
  cbn [closed num_entries last_key pending_index_entry with_last_key with_data_block]. rewrite F1, F2, F3.
  unfold add_index_entry. by destruct (pending_index_entry r) eqn:E.
Qed.

(** [Add] of a key above the last one: no assertion fails. *)
Lemma Add_asserted_ok Compare r k v : unfinished r -> (0 < num_entries r -> builder_ok r = true -> 0 < Compare k (last_key r)) ->
  Add_asserted Compare r k v = Some (TableBuilder_Add r k v) /\ unfinished (TableBuilder_Add r k v) /\
  (builder_ok (TableBuilder_Add r k v) = true -> last_key (TableBuilder_Add r k v) = k).
Proof.
  intros Hu Hk. pose proof Hu as (U1 & U2 & U3). unfold Add_asserted, TableBuilder_Add. rewrite U1.
  destruct (builder_ok r) eqn:Eok; cbn [negb]; [|rewrite Eok; done].
  replace (_ && _) with false by (destruct (Z.ltb_spec 0 (num_entries r)); [|done]; specialize (Hk ltac:(lia) eq_refl); destruct (Z.ltb_spec 0 (Compare k (last_key r))); [done|lia]).
  replace (_ && _) with false by (destruct (pending_index_entry r); [by rewrite U3|done]).
  destruct (put_entry_fields r k v) as (A1 & A2 & A3 & A4). set (r1 := put_entry r k v) in *.
  assert (Hu1 : unfinished r1) by (split; [congruence|]; split; [lia|congruence]).
  destruct (_ <=? _); [|by auto]. destruct (Flush_fields r1) as (F1 & F2 & F3 & F4). split; [|split; [by apply F4|congruence]].
  unfold Flush_asserted. rewrite A1, U1, A4. unfold Flush. destruct (builder_ok r1); [|done]. cbn [negb]. by destruct (BlockBuilder_empty (data_block r1)).
Qed.

(** [Add] of a list of entries. *)
Fixpoint adds_asserted (Compare : bytes -> bytes -> Z) (r : Rep) (l : list (bytes * bytes)) : option Rep :=
  match l with
  | [] => Some r
  | (k, v) :: l => r ← Add_asserted Compare r k v; adds_asserted Compare r l
  end.

(** Whatever the file answers, building a table from entries in increasing order
    fails no assertion of [Add] and of the [Flush] it calls. *)
Theorem asserts_hold Compare opt f l : StronglySorted (fun a b => 0 < Compare b.1 a.1) l ->
  adds_asserted Compare (newTableBuilder opt f) l = Some (fold_left (fun r e => TableBuilder_Add r e.1 e.2) l (newTableBuilder opt f)).
Proof.
  intros Hs. assert (Hgen : forall r, unfinished r ->
    (forall e, e ∈ l -> 0 < num_entries r -> builder_ok r = true -> 0 < Compare e.1 (last_key r)) ->
    adds_asserted Compare r l = Some (fold_left (fun r e => TableBuilder_Add r e.1 e.2) l r)).
  { induction Hs as [|[k v] l Hs IH Hk]; intros r Hu Hl; [done|]. cbn [adds_asserted fold_left fst snd].
    destruct (Add_asserted_ok Compare r k v Hu) as (-> & Hu1 & Hlast); [apply (Hl (k, v)); by left|]. cbn [mbind option_bind].
    apply IH; [done|]. intros e He _ Hok. rewrite (Hlast Hok). rewrite Forall_forall in Hk. by apply Hk. }
  apply Hgen.
  - unfold newTableBuilder. set (r0 := mkRep _ _ _ _ _ _ _ _ _ _ _ _ _).
    destruct (on_filter_fields (fun p b => StartBlock p b 0) r0) as (F1 & F2 & F3 & _). split; [by rewrite F1|]. rewrite F2, F3. done.
  - unfold newTableBuilder. set (r0 := mkRep _ _ _ _ _ _ _ _ _ _ _ _ _).
    destruct (on_filter_fields (fun p b => StartBlock p b 0) r0) as (_ & F2 & _). rewrite F2. simpl. lia.
Qed.
End TableBuilder.
Arguments Rep F : clear implicits.
