(* ===== verification/Table.v ===== *)
(** table/table.h, table/table.cc: reading a table file: the footer, the index
    block and the filter when it is opened, then one data block per lookup, from
    the file or from the block cache. *)

From stdpp Require Import base list option strings.
From S2P Require Import Prelude Status Coding Crc32c Env Comparator Iterator Format Block.
From S2P Require Import Bloom FilterBlock TwoLevel TableBuilder.
From Stdlib Require Import Strings.Byte.

#[local] Open Scope Z_scope.

(** What tables ask of the block cache (include/leveldb/cache.h): a hit, and the
    cache after an insertion. *)
Class BlockCache (C : Type) := {
  cache_Lookup : C -> bytes -> option Block;
  cache_Insert : C -> bytes -> Block -> Z -> C;
}.

(** [ReadOptions]. *)
Record ReadOptions := mkReadOptions { verify_checksums : bool; fill_cache : bool }.
Definition newReadOptions : ReadOptions := mkReadOptions false true.

(** The iterators [Block::NewIterator] and [BlockReader] return. *)
Abbreviation BlockIter := (EmptyIterator + Iter)%type.

#[export] Instance sum_iterator {I J} `{!Iterator I} `{!Iterator J} : Iterator (I + J) := {|
  Valid it := match it with inl a => Valid a | inr b => Valid b end;
  Seek it t := match it with inl a => inl <$> Seek a t | inr b => inr <$> Seek b t end;
  SeekToFirst it := match it with inl a => inl <$> SeekToFirst a | inr b => inr <$> SeekToFirst b end;
  SeekToLast it := match it with inl a => inl <$> SeekToLast a | inr b => inr <$> SeekToLast b end;
  Next it := match it with inl a => inl <$> Next a | inr b => inr <$> Next b end;
  Prev it := match it with inl a => inl <$> Prev a | inr b => inr <$> Prev b end;
  key it := match it with inl a => key a | inr b => key b end;
  value it := match it with inl a => value a | inr b => value b end;
  status it := match it with inl a => status a | inr b => status b end |}.

(** The iterators over blocks with keys in the order of a comparator. *)
Definition block_iterator (c : Comparator) : Iterator BlockIter :=
  sum_iterator (Iterator1 := Iter_iterator c).

Section Table.
Context {F C : Type} `{RandomAccessFile F} `{Checksum} `{Snappy} `{BlockCache C}.
Context (mapped : F -> bool) (comparator : Comparator).

Record Table := mkTable {
  table_options : TableOptions;
  table_file : F;
  cache_id : Z;
  filter : option (FilterPolicy * FilterBlockReader);
  metaindex_handle : BlockHandle;
  table_index : Block;
}.

Definition block_iter (b : Block) : BlockIter := NewIterator b.

Definition with_filter_reader (t : Table) (f : option (FilterPolicy * FilterBlockReader)) : Table :=
  mkTable (table_options t) (table_file t) (cache_id t) f (metaindex_handle t) (table_index t).

Definition meta_options (o : TableOptions) : bool := paranoid_checks o.

Definition ReadFilter (t : Table) (p : FilterPolicy) (filter_handle_value : bytes) : Table :=
  let '(s, filter_handle, _) := BlockHandle_DecodeFrom newBlockHandle filter_handle_value in
  if negb (ok s) then t
  else
    let '(s, block) := ReadBlock mapped (table_file t) (meta_options (table_options t)) filter_handle in
    if negb (ok s) then t
    else with_filter_reader t (Some (p, newFilterBlockReader (data block))).

(** [None]: undefined behaviour of the iterator over the metaindex block. *)
Definition ReadMeta (t : Table) (footer : Footer) : option Table :=
  match filter_policy (table_options t) with
  | None => Some t
  | Some (name, p) =>
      let '(s, contents) :=
        ReadBlock mapped (table_file t) (meta_options (table_options t)) (metaindex_handle_ footer) in
      if negb (ok s) then Some t
      else
        let iter := block_iter (newBlock (data contents)) in
        let I := block_iterator BytewiseComparator in
        iter ← Seek iter (filter_key name);
        if Valid iter && slice_eqb (key iter) (filter_key name)
        then Some (ReadFilter t p (value iter)) else Some t
  end.

(** [Table::Open]; [new_id] is the id the block cache gives to the table.
    [None]: the footer is read out of its bounds, or [ReadMeta] is undefined. *)
Definition Open (options : TableOptions) (file : F) (size new_id : Z) : option (Status * option Table) :=
  if size <? kEncodedLength then
    Some (Corruption (str "file is too short to be an sstable") [], None)
  else
    let '(s, footer_input) := rRead file (size - kEncodedLength) kEncodedLength in
    if negb (ok s) then Some (s, None)
    else
      '(s, footer, _) ← Footer_DecodeFrom newFooter footer_input;
      if negb (ok s) then Some (s, None)
      else
        let '(s, index_block_contents) :=
          ReadBlock mapped file (meta_options options) (index_handle_ footer) in
        if ok s then
          let t := mkTable options file new_id None (metaindex_handle_ footer)
                     (newBlock (data index_block_contents)) in
          t ← ReadMeta t footer; Some (s, Some t)
        else Some (s, None).

Definition cache_key (t : Table) (handle : BlockHandle) : bytes :=
  EncodeFixed64 (cache_id t) ++ EncodeFixed64 (handle_offset handle).

(** [Table::BlockReader]: the iterator over the block of an index entry, and the
    cache after; no cache is [None]. *)
Definition BlockReader (t : Table) (options : ReadOptions) (block_cache : option C)
    (index_value : bytes) : BlockIter * option C :=
  let '(s, handle, _) := BlockHandle_DecodeFrom newBlockHandle index_value in
  if ok s then
    match block_cache with
    | Some c =>
        match cache_Lookup c (cache_key t handle) with
        | Some block => (block_iter block, Some c)
        | None =>
            let '(s, contents) := ReadBlock mapped (table_file t) (verify_checksums options) handle in
            if ok s then
              let block := newBlock (data contents) in
              (block_iter block,
               Some (if cachable contents && fill_cache options
                     then cache_Insert c (cache_key t handle) block (Block.block_size block) else c))
            else (inl (NewErrorIterator s), Some c)
        end
    | None =>
        let '(s, contents) := ReadBlock mapped (table_file t) (verify_checksums options) handle in
        if ok s then (block_iter (newBlock (data contents)), None)
        else (inl (NewErrorIterator s), None)
    end
  else (inl (NewErrorIterator s), block_cache).

#[local] Instance table_block_iterator : Iterator BlockIter := block_iterator comparator.

(** [Table::InternalGet]: the status, the entry [handle_result] is called with, if
    any, and the cache after.  [None]: an iterator is undefined. *)
Definition InternalGet (t : Table) (options : ReadOptions) (block_cache : option C) (k : bytes)
  : option (Status * option (bytes * bytes) * option C) :=
  iiter ← Seek (block_iter (table_index t)) k;
  if Valid iiter then
    let '(s, handle, _) := BlockHandle_DecodeFrom newBlockHandle (value iiter) in
    if match filter t with
       | Some (p, reader) => ok s && negb (Reader_KeyMayMatch p reader (handle_offset handle) k)
       | None => false
       end
    then Some (status iiter, None, block_cache)
    else
      let '(block_iter, block_cache) := BlockReader t options block_cache (value iiter) in
      block_iter ← Seek block_iter k;
      let found := if Valid block_iter then Some (key block_iter, value block_iter) else None in
      let s := status block_iter in
      Some (if ok s then status iiter else s, found, block_cache)
  else Some (status iiter, None, block_cache).

Definition ApproximateOffsetOf (t : Table) (k : bytes) : option Z :=
  index_iter ← Seek (block_iter (table_index t)) k;
  if Valid index_iter then
    let '(s, handle, _) := BlockHandle_DecodeFrom newBlockHandle (value index_iter) in
    Some (if ok s then handle_offset handle else handle_offset (metaindex_handle t))
  else Some (handle_offset (metaindex_handle t)).

(** [Table::NewIterator]: the two-level iterator over the index; [fuel] bounds the
    blocks skipped in one step. *)
Definition table_block_function (t : Table) (options : ReadOptions) (block_cache : option C)
    (index_value : bytes) : BlockIter := (BlockReader t options block_cache index_value).1.
Definition Table_NewIterator (t : Table) : TwoLevelIterator BlockIter BlockIter :=
  NewTwoLevelIterator (block_iter (table_index t)).
End Table.
Arguments Table F : clear implicits.
