(* ===== verification/TableProofs.v ===== *)
(** A table file holds the entries it was built from: what table_builder.cc
    writes, table.cc finds again. *)

From stdpp Require Import base list option sorting strings.
From S2P Require Import Prelude Status Coding Crc32c Env Comparator Iterator Format Block BlockProofs.
From S2P Require Import Bloom FilterBlock TwoLevel TableBuilder Table.
From Stdlib Require Import Strings.Byte.

#[local] Open Scope Z_scope.

(** * Sizes *)

Lemma sorted_lt_length ixs : forall a n, StronglySorted lt ixs ->
  Forall (fun x => a <= x < n)%nat ixs -> (length ixs <= n - a)%nat.
Proof.
  induction ixs as [|x ixs IH]; intros a n Hs Hf; simpl; [lia|].
  inversion Hs as [|? ? Hs' Hx]; subst. apply Forall_cons in Hf as [Ha Hf].
  specialize (IH (S x) n Hs'). assert (length ixs <= n - S x)%nat; [|lia]. apply IH.
  rewrite Forall_forall in *. intros y Hy. specialize (Hx y Hy). specialize (Hf y Hy). lia.
Qed.

Lemma restarts_length l ixs : restarts_ok l ixs -> blen ixs <= blen l + 1.
Proof.
  intros (_ & Hs & Hf). pose proof (sorted_lt_length ixs 0 (S (length l)) Hs) as Hl.
  assert (length ixs <= S (length l) - 0)%nat; [|unfold blen; lia]. apply Hl.
  eapply Forall_impl; [exact Hf|]. simpl. lia.
Qed.

Lemma block_bytes_bound l ixs : restarts_ok l ixs ->
  blen (block_bytes l ixs) <= blen (body l) + 4 * blen l + 8.
Proof. intros Hr. pose proof (restarts_length l ixs Hr). rewrite blen_block_bytes. lia. Qed.

Lemma varint32_length v : 1 <= blen (EncodeVarint32 v) <= 5.
Proof.
  unfold EncodeVarint32. repeat (bcase; [unfold blen; simpl; lia|]). unfold blen; simpl; lia.
Qed.

Lemma blen_entry e : blen e.1 + blen e.2 + 3 <= blen (entry_bytes e) <= blen e.1 + blen e.2 + 15.
Proof.
  unfold entry_bytes. rewrite !blen_app. pose proof (varint32_length 0).
  pose proof (varint32_length (blen e.1)). pose proof (varint32_length (blen e.2)). lia.
Qed.

Lemma blen_body_cons e l : blen (body (e :: l)) = blen (entry_bytes e) + blen (body l).
Proof. change (body (e :: l)) with (entry_bytes e ++ body l). apply blen_app. Qed.

Lemma blen_body_app l k : blen (body (l ++ k)) = blen (body l) + blen (body k).
Proof. by rewrite body_app, blen_app. Qed.

(** * Blocks in the file *)

Section Layout.
Context `{Checksum} `{Snappy}.

(** The file holds, at handle [h], a block that stands for [raw]. *)
Definition at_handle (c : bytes) (h : BlockHandle) (raw : bytes) : Prop :=
  exists pre type con post, c = pre ++ stored_block type con ++ post /\
    h = mkHandle (blen pre) (blen con) /\ encodes type con raw.

Lemma at_handle_app c x h raw : at_handle c h raw -> at_handle (c ++ x) h raw.
Proof.
  intros (pre & type & con & post & -> & ? & ?). exists pre, type, con, (post ++ x).
  by rewrite <- !app_assoc.
Qed.

Lemma at_handle_range c h raw : at_handle c h raw -> blen c < 2 ^ 64 ->
  0 <= handle_offset h /\ 0 <= handle_size h /\
  handle_offset h + handle_size h + kBlockTrailerSize <= blen c /\ handle_fits h.
Proof.
  intros (pre & type & con & post & -> & -> & _). rewrite !blen_app, blen_stored_block.
  pose proof (blen_nonneg pre). pose proof (blen_nonneg con). pose proof (blen_nonneg post).
  unfold handle_fits, kBlockTrailerSize. cbn [handle_offset handle_size]. lia.
Qed.

Lemma read_at_handle {G : Type} `{RandomAccessFileOk G} `{!SnappyOk} (mapped : G -> bool) g verify h raw :
  at_handle (rcontents g) h raw -> blen (rcontents g) < 2 ^ 64 ->
  exists c a, ReadBlock mapped g verify h = (OK, mkContents raw c a).
Proof.
  intros (pre & type & con & post & E & -> & Henc) Hsz. eapply ReadBlock_stored; [exact E|done|].
  rewrite E, !blen_app, blen_stored_block in Hsz. pose proof (blen_nonneg post). lia.
Qed.

(** * The builder's writes *)

Context {F : Type} `{WritableFileOk F}.

Definition contents_of (r : Rep F) : bytes := wcontents (file r).
Definition clean (r : Rep F) : Prop := rep_status r = OK /\ offset r = blen (contents_of r).

(** The state after a write of [x]. *)
Definition wrote (r r' : Rep F) (x : bytes) : Prop :=
  exists f, wcontents f = contents_of r ++ x /\ r' = with_file r f (blen (contents_of r ++ x)) OK.

Lemma wrote_clean r r' x : wrote r r' x -> clean r' /\ contents_of r' = contents_of r ++ x.
Proof. intros (f & E & ->). unfold clean, contents_of. simpl. by rewrite E. Qed.

Lemma WriteRawBlock_ok r con type : clean r ->
  blen (contents_of r) + blen con + kBlockTrailerSize < 2 ^ 64 ->
  exists r', WriteRawBlock r con type = (r', mkHandle (blen (contents_of r)) (blen con)) /\
    wrote r r' (stored_block type con).
Proof.
  intros [Hs Ho] Hsz. unfold WriteRawBlock. rewrite Ho.
  destruct (wAppend_ok (file r) con) as (f1 & -> & E1). cbn [ok].
  destruct (wAppend_ok f1 (zb type :: EncodeFixed32 (Mask (crc32c_Extend (crc32c_Value con) [zb type]))))
    as (f2 & -> & E2). cbn [ok].
  pose proof (blen_nonneg (contents_of r)). pose proof (blen_nonneg con).
  assert (Est : wcontents f2 = contents_of r ++ stored_block type con).
  { rewrite E2, E1. unfold stored_block, contents_of, crc32c_Value.
    rewrite crc32c_Extend_app by lia. by rewrite <- app_assoc. }
  eexists. split; [reflexivity|]. exists f2. split; [done|].
  rewrite blen_app, blen_stored_block. unfold kBlockTrailerSize in *. rewrite u64_small by lia. done.
Qed.

Lemma WriteBlock_ok r b l ixs : clean r -> built b l ixs ->
  blen (contents_of r) + blen (block_bytes l ixs) + kBlockTrailerSize < 2 ^ 64 ->
  exists r' h x, WriteBlock r b = (r', newBlockBuilder, h) /\ wrote r r' x /\
    at_handle (contents_of r ++ x) h (block_bytes l ixs) /\ handle_offset h = blen (contents_of r) /\
    blen x <= blen (block_bytes l ixs) + kBlockTrailerSize /\
    (compression (options r) <> kSnappyCompression ->
      x = stored_block kNoCompression (block_bytes l ixs) /\ handle_size h = blen (block_bytes l ixs)).
Proof.
  intros Hc Hb Hsz. unfold WriteBlock. rewrite (surjective_pairing (BlockBuilder_Finish b)).
  rewrite (Finish_built _ _ _ Hb). set (raw := block_bytes l ixs) in *.
  assert (Hchoice : exists con type, (if compression (options r) =? kSnappyCompression then
      match Snappy_Compress raw with
      | Some compressed => if blen compressed <? blen raw - blen raw / 8
          then (compressed, kSnappyCompression) else (raw, kNoCompression)
      | None => (raw, kNoCompression)
      end else (raw, kNoCompression)) = (con, type) /\ encodes type con raw /\ blen con <= blen raw /\
      (compression (options r) <> kSnappyCompression -> con = raw /\ type = kNoCompression)).
  { pose proof (blen_nonneg raw). assert (0 <= blen raw / 8) by (apply Z.div_pos; lia).
    destruct (Z.eqb_spec (compression (options r)) kSnappyCompression); [|do 2 eexists; split; [done|]; split; [by left|by split; [lia|] ] ].
    destruct (Snappy_Compress raw) as [c|] eqn:Ec; [|do 2 eexists; split; [done|]; split; [by left|by split; [lia|] ] ].
    destruct (Z.ltb_spec (blen c) (blen raw - blen raw / 8)); do 2 eexists; (split; [done|]).
    - split; [by right|by split; [lia|] ].
    - split; [by left|by split; [lia|] ]. }
  destruct Hchoice as (con & type & -> & Henc & Hle & Hplain).
  destruct (WriteRawBlock_ok r con type Hc ltac:(lia)) as (r' & -> & Hw).
  do 3 eexists. split; [reflexivity|]. split; [exact Hw|]. split; [|split; [done|split]].
  - exists (contents_of r), type, con, []. by rewrite app_nil_r.
  - rewrite blen_stored_block. lia.
  - intros Hno. by destruct (Hplain Hno) as [-> ->].
Qed.
End Layout.

(** * What the builder has done so far *)

Abbreviation entry := (bytes * bytes)%type.

Definition last_key_of (blk : list entry) : bytes :=
  match last blk with Some e => e.1 | None => [] end.
(** The finished data blocks with their handles, as entries of the index. *)
Definition index_entries (done : list (list entry * BlockHandle)) : list entry :=
  map (fun d => (last_key_of d.1, handle_bytes d.2)) done.
Definition entries (done : list (list entry * BlockHandle)) : list entry := concat (map fst done).

(** The blocks of a table of these entries are smaller than 4 GB. *)
Definition table_fits (l : list entry) : Prop := blen (body l) + 64 * blen l + 2 ^ 20 < 2 ^ 32.

Lemma last_key_of_snoc l e : last_key_of (l ++ [e]) = e.1.
Proof. unfold last_key_of. by rewrite last_snoc. Qed.

Lemma entries_snoc done blk h : entries (done ++ [(blk, h)]) = entries done ++ blk.
Proof. unfold entries. rewrite map_app, concat_app. simpl. by rewrite app_nil_r. Qed.

Lemma index_entries_snoc done blk h :
  index_entries (done ++ [(blk, h)]) = index_entries done ++ [(last_key_of blk, handle_bytes h)].
Proof. unfold index_entries. by rewrite map_app. Qed.

Lemma blen_body_elem e l : e ∈ l -> blen (entry_bytes e) <= blen (body l).
Proof.
  intros He. apply list_elem_of_split in He as (l1 & l2 & ->). rewrite blen_body_app, blen_body_cons.
  pose proof (blen_nonneg (body l1)). pose proof (blen_nonneg (body l2)). lia.
Qed.

Lemma fits_entry l e : table_fits l -> e ∈ l -> entry_fits e.
Proof.
  intros Hf He. pose proof (blen_body_elem _ _ He). pose proof (blen_entry e).
  pose proof (blen_nonneg l). pose proof (blen_nonneg e.1). pose proof (blen_nonneg e.2).
  unfold table_fits in Hf. split; lia.
Qed.

Lemma table_fits_app l k : table_fits (l ++ k) -> table_fits l /\ table_fits k.
Proof.
  unfold table_fits. rewrite blen_body_app, blen_app. pose proof (blen_nonneg (body l)).
  pose proof (blen_nonneg (body k)). pose proof (blen_nonneg l). pose proof (blen_nonneg k). lia.
Qed.

Lemma last_key_of_in blk : blk <> [] -> exists e, e ∈ blk /\ last_key_of blk = e.1.
Proof.
  intros Hne. destruct blk as [|x l _] using rev_ind; [done|]. exists x.
  rewrite last_key_of_snoc. split; [|done]. apply elem_of_app. right. by left.
Qed.

Section Building.
Context `{Checksum} `{Snappy} {F : Type} `{WritableFileOk F}.
Context (opt : TableOptions) (interval_ok : 1 <= block_restart_interval opt).

(** The keys announced to the filter builder, with the offsets of their
    blocks. *)
Definition filter_inv (r : Rep F) (done : list (list entry * BlockHandle)) (cur : list entry)
    (fops : list FilterOp) : Prop :=
  match filter_policy opt with
  | None => filter_block r = None
  | Some (_, p) =>
      filter_block r = Some (p, fold_left (filter_step p) fops newFilterBlockBuilder) /\
      offsets_grow 0 fops /\ last_offset 0 fops = offset r /\
      (forall blk h e, (blk, h) ∈ done -> e ∈ blk -> (handle_offset h, e.1) ∈ recorded 0 fops) /\
      (forall e, e ∈ cur -> (offset r, e.1) ∈ recorded 0 fops) /\
      blen fops <= 1 + 2 * blen (entries done) + blen cur
  end.

(** A finished block is in the file, at its handle. *)
Definition stored_at (c : bytes) (d : list entry * BlockHandle) : Prop :=
  d.1 <> [] /\ exists ixs, restarts_ok d.1 ixs /\ at_handle c d.2 (block_bytes d.1 ixs).

Definition handle_before (d d' : list entry * BlockHandle) : Prop :=
  handle_offset d.2 < handle_offset d'.2.

(** Every entry of the index block is a restart point. *)
Definition index_ixs (done : list (list entry * BlockHandle)) : list nat := seq 0 (Nat.max 1 (length done)).

Definition index_built (b : BlockBuilder) (indexed : list (list entry * BlockHandle)) : Prop :=
  built b (index_entries indexed) (index_ixs indexed) /\ counter_ b = Z.of_nat (Nat.min 1 (length indexed)).

Record tinv (r : Rep F) (done : list (list entry * BlockHandle)) (cur : list entry)
    (fops : list FilterOp) : Prop := {
  ti_clean : clean r;
  ti_opt : options r = opt;
  ti_iopt : index_block_options r = with_restart_interval opt 1;
  ti_done : Forall (stored_at (contents_of r)) done;
  ti_order : StronglySorted handle_before done;
  ti_data : exists ixs, built (data_block r) cur ixs;
  ti_fresh : cur = [] -> data_block r = newBlockBuilder;
  ti_last : cur <> [] -> last_key r = last_key_of cur;
  ti_index : exists indexed, index_built (index_block r) indexed /\
    if pending_index_entry r
    then cur = [] /\ exists blk, done = indexed ++ [(blk, pending_handle r)] /\ last_key r = last_key_of blk
    else indexed = done;
  ti_filter : filter_inv r done cur fops;
  ti_size : blen (contents_of r) <= blen (body (entries done)) + 17 * blen (entries done);
}.

Lemma index_built_add b indexed blk h : index_built b indexed -> entry_fits (last_key_of blk, handle_bytes h) ->
  index_built (BlockBuilder_Add 1 b (last_key_of blk) (handle_bytes h)) (indexed ++ [(blk, h)]).
Proof.
  intros [Hb Hc] He. unfold index_built, index_ixs in *. assert (Hl : length (index_entries indexed) = length indexed) by apply length_map.
  rewrite <- Hl in Hb, Hc. pose proof (Add_built_one b _ _ Hb Hc He) as Hx. cbv zeta in Hx. cbn [fst snd] in Hx.
  rewrite length_app, Hl in Hx. rewrite index_entries_snoc, length_app. exact Hx.
Qed.

Lemma index_built_new : index_built newBlockBuilder [].
Proof. split; [apply new_built|done]. Qed.

Lemma stored_entries c done : Forall (stored_at c) done -> blen done <= blen (entries done).
Proof.
  induction done as [|[blk h] done IH]; intros Hf; [done|]. apply Forall_cons in Hf as [[Hne _] Hf].
  specialize (IH Hf). change (entries ((blk, h) :: done)) with (blk ++ entries done).
  rewrite blen_cons, blen_app. destruct blk; [done|]. rewrite blen_cons. pose proof (blen_nonneg blk). lia.
Qed.

Lemma contents_small r done cur fops : tinv r done cur fops -> table_fits (entries done ++ cur) ->
  blen (contents_of r) + blen (body cur) + 64 * blen cur + 2 ^ 19 < 2 ^ 32.
Proof.
  intros Hi Hf. pose proof (ti_size _ _ _ _ Hi). unfold table_fits in Hf.
  rewrite blen_body_app, blen_app in Hf. pose proof (blen_nonneg (entries done)). lia.
Qed.

Lemma index_entry_fits c blk h l : stored_at c (blk, h) -> blen c < 2 ^ 64 -> table_fits l ->
  (forall e, e ∈ blk -> e ∈ l) -> entry_fits (last_key_of blk, handle_bytes h).
Proof.
  intros [Hne (ixs & _ & Hat)] Hc Hf Hsub. destruct (at_handle_range _ _ _ Hat Hc) as (_ & _ & _ & Hh).
  destruct (last_key_of_in blk Hne) as (e & He & Ek). pose proof (fits_entry _ _ Hf (Hsub _ He)) as [Hk _].
  pose proof (blen_handle_bytes _ Hh). unfold kMaxEncodedLength in *. cbn [fst snd] in *.
  split; cbn [fst snd]; [by rewrite Ek|lia].
Qed.

Lemma add_index_entry_ok r done cur fops : tinv r done cur fops -> table_fits (entries done ++ cur) ->
  tinv (add_index_entry r) done cur fops /\ pending_index_entry (add_index_entry r) = false /\
  contents_of (add_index_entry r) = contents_of r.
Proof.
  intros Hi Hf. pose proof (contents_small _ _ _ _ Hi Hf) as Hsm. unfold add_index_entry.
  pose proof (blen_nonneg (body cur)). pose proof (blen_nonneg cur).
  destruct (pending_index_entry r) eqn:Ep; [|done].
  pose proof Hi as [Hc Ho Hio Hd Hord Hdata Hfr Hlast (indexed & Hb & Hp) Hfi Hs].
  rewrite Ep in Hp. destruct Hp as (-> & blk & -> & Hlk).
  assert (Hst : stored_at (contents_of r) (blk, pending_handle r)).
  { rewrite Forall_app, Forall_singleton in Hd. apply Hd. }
  rewrite Hio, Hlk, BlockHandle_EncodeTo_app. simpl app.
  split; [|done]. constructor; try done.
  exists (indexed ++ [(blk, pending_handle r)]). split; [|done]. apply index_built_add; [done|].
  eapply index_entry_fits; [exact Hst|lia|exact Hf|]. intros e He. rewrite entries_snoc, app_nil_r.
  apply elem_of_app. by right.
Qed.

Lemma stored_at_app c x d : stored_at c d -> stored_at (c ++ x) d.
Proof. intros [Hne (ixs & Hr & Hat)]. split; [done|]. exists ixs. split; [done|]. by apply at_handle_app. Qed.

Lemma built_empty b cur ixs : built b cur ixs -> BlockBuilder_empty b = bool_decide (cur = []).
Proof.
  intros Hb. unfold BlockBuilder_empty. rewrite (built_buffer _ _ _ Hb). destruct cur as [|e cur]; [done|].
  rewrite bool_decide_false by done. apply Z.eqb_neq. rewrite blen_body_cons.
  pose proof (blen_entry_bytes e). pose proof (blen_nonneg (body cur)). lia.
Qed.

(** The filter builder moves on to the next block. *)
Lemma filter_flush (r r' : Rep F) done cur fops h :
  filter_inv r done cur fops -> blen cur >= 1 -> handle_offset h = offset r -> offset r <= offset r' ->
  filter_block r' = filter_block r ->
  filter_inv (on_filter (fun p b => StartBlock p b (offset r')) r') (done ++ [(cur, h)]) []
    (fops ++ [FStart (offset r')]).
Proof.
  intros Hfi Hcur Hh Hle Eb. unfold filter_inv, on_filter in *. rewrite Eb.
  destruct (filter_policy opt) as [[name p]|]; [|by rewrite Hfi, Eb].
  destruct Hfi as (-> & Hg & Hl & Hd & Hc & Hn). cbn [filter_block with_filter offset].
  split; [by rewrite fold_left_app|]. rewrite offsets_grow_app, last_offset_app, recorded_app. simpl.
  rewrite Hl. split; [done|]. split; [done|]. rewrite app_nil_r. split; [|split].
  - intros blk h' e Hin He. apply elem_of_app in Hin as [Hin|Hin]; [by eapply Hd|].
    apply list_elem_of_singleton in Hin. injection Hin as -> ->. rewrite Hh. by apply Hc.
  - intros e He. by apply elem_of_nil in He.
  - rewrite entries_snoc, !blen_app, blen_cons, (@blen_nil FilterOp), (@blen_nil entry). lia.
Qed.

Lemma on_filter_same (f : FilterPolicy -> FilterBlockBuilder -> FilterBlockBuilder) (r : Rep F) :
  exists b, on_filter f r = with_filter r b.
Proof.
  unfold on_filter. destruct (filter_block r) as [[p b]|] eqn:E; [eauto|].
  exists None. rewrite <- E. by destruct r.
Qed.

Lemma Flush_ok r done cur fops : tinv r done cur fops -> pending_index_entry r = false ->
  table_fits (entries done ++ cur) -> cur <> [] ->
  exists h fops', tinv (Flush r) (done ++ [(cur, h)]) [] fops' /\
    (compression opt <> kSnappyCompression ->
      let raw := fst (BlockBuilder_Finish (data_block r)) in
      contents_of (Flush r) = contents_of r ++ stored_block kNoCompression raw /\
      h = mkHandle (blen (contents_of r)) (blen raw)).
Proof.
  intros Hi Hp Hf Hne. pose proof (contents_small _ _ _ _ Hi Hf) as Hsm.
  pose proof Hi as [Hc Ho Hio Hd Hord (ixs & Hb) Hfr Hlast (indexed & Hbi & Hidx) Hfi Hs].
  rewrite Hp in Hidx. subst indexed. unfold Flush, builder_ok. rewrite (proj1 Hc). cbn [ok negb].
  rewrite (built_empty _ _ _ Hb), bool_decide_false by done.
  pose proof (block_bytes_bound cur ixs (built_ixs _ _ _ Hb)) as Hbb.
  pose proof (blen_nonneg cur) as Hcn. pose proof (blen_nonneg (body cur)).
  assert (Hc1 : blen cur >= 1) by (destruct cur; [done|]; rewrite blen_cons; pose proof (blen_nonneg cur); lia).
  destruct (WriteBlock_ok r (data_block r) cur ixs Hc Hb) as (r1 & h & x & -> & Hw & Hat & Hho & Hx & Hplain).
  { unfold kBlockTrailerSize. lia. }
  destruct (wrote_clean _ _ _ Hw) as [Hc1' Hcont]. destruct Hw as (f1 & Ef1 & ->).
  cbn [with_file with_data_block with_pending rep_status ok file offset pending_handle].
  destruct (wFlush_ok f1) as (f2 & -> & Ef2).
  set (r2 := with_file _ f2 _ OK).
  assert (Hcr2 : contents_of r2 = contents_of r ++ x) by (unfold r2, contents_of; simpl; by rewrite Ef2).
  assert (Hor2 : offset r2 = blen (contents_of r ++ x)) by done.
  exists h, (fops ++ [FStart (offset r2)]).
  pose proof (filter_flush r r2 done cur fops h Hfi Hc1) as Hfi'.
  destruct (on_filter_same (fun p b => StartBlock p b (offset r2)) r2) as [b Eb].
  specialize (Hfi' ltac:(rewrite Hho; symmetry; apply Hc)
    ltac:(rewrite Hor2, (proj2 Hc), blen_app; pose proof (blen_nonneg x); lia) ltac:(done)).
  rewrite Eb in *. split.
  2:{ intros Hno. rewrite Ho in Hplain. destruct (Hplain Hno) as [-> Hsize]. rewrite (Finish_built _ _ _ Hb).
      split; [exact Hcr2|]. destruct h as [ho hs]. simpl in *. by rewrite Hho, Hsize. }
  constructor; try done.
  - unfold clean, contents_of in *. simpl in *. by rewrite Ef2, Ef1.
  - change (contents_of (with_filter r2 b)) with (contents_of r2). rewrite Hcr2.
    apply Forall_app. split; [eapply Forall_impl; [exact Hd|]; intros; by apply stored_at_app|].
    apply Forall_singleton. split; [done|]. exists ixs. split; [apply (built_ixs _ _ _ Hb)|done].
  - apply sorted_app. split; [done|]. split; [repeat constructor|].
    intros d d' Hin Hd'. apply list_elem_of_singleton in Hd' as ->. rewrite Forall_forall in Hd.
    destruct (Hd d Hin) as [_ (? & _ & Hat')].
    destruct (at_handle_range _ _ _ Hat') as (_ & ? & ? & _); [lia|].
    unfold handle_before, kBlockTrailerSize in *. cbn [snd]. lia.
  - exists [0%nat]. apply new_built.
  - exists done. split; [done|]. simpl. split; [done|]. exists cur. split; [done|]. by apply Hlast.
  - change (contents_of (with_filter r2 b)) with (contents_of r2).
    rewrite Hcr2, entries_snoc, blen_body_app, !blen_app. unfold kBlockTrailerSize in *. lia.
Qed.

Lemma Flush_any r done cur fops : tinv r done cur fops -> (cur <> [] -> pending_index_entry r = false) ->
  table_fits (entries done ++ cur) ->
  exists done' fops', tinv (Flush r) done' [] fops' /\ entries done' = entries done ++ cur.
Proof.
  intros Hi Hp Hf. destruct cur as [|e cur].
  - exists done, fops. rewrite app_nil_r. split; [|done]. unfold Flush, builder_ok.
    rewrite (proj1 (ti_clean _ _ _ _ Hi)). cbn [ok negb].
    by rewrite (ti_fresh _ _ _ _ Hi eq_refl).
  - destruct (Flush_ok r done (e :: cur) fops Hi (Hp ltac:(done)) Hf ltac:(done)) as (h & fops' & Hi' & _).
    exists (done ++ [(e :: cur, h)]), fops'. by rewrite entries_snoc.
Qed.

(** The filter builder is told about the key. *)
Lemma filter_add (r : Rep F) done cur fops e : filter_inv r done cur fops ->
  exists fops', filter_inv (on_filter (fun p b => AddKey b e.1) r) done (cur ++ [e]) fops'.
Proof.
  intros Hfi. unfold filter_inv, on_filter in *. destruct (filter_policy opt) as [[name p]|].
  2:{ exists fops. by rewrite Hfi. }
  destruct Hfi as (-> & Hg & Hl & Hd & Hc & Hn). exists (fops ++ [FKey e.1]).
  cbn [filter_block with_filter offset]. split; [by rewrite fold_left_app|].
  rewrite offsets_grow_app, last_offset_app, recorded_app. simpl. rewrite Hl.
  split; [done|]. split; [done|]. split; [|split].
  - intros blk h e' Hin He. apply elem_of_app. left. by eapply Hd.
  - intros e' He. apply elem_of_app. apply elem_of_app in He as [He|He]; [left; by apply Hc|].
    apply list_elem_of_singleton in He as ->. right. by left.
  - rewrite !blen_app, !blen_cons, (@blen_nil FilterOp), (@blen_nil entry). lia.
Qed.

(** [Add] without the test whether the block is full. *)
Definition add_entry (r : Rep F) (e : entry) : Rep F :=
  let r := on_filter (fun p b => AddKey b e.1) (add_index_entry r) in
  let r := with_last_key r e.1 (num_entries r + 1) in
  with_data_block r (BlockBuilder_Add (block_restart_interval (options r)) (data_block r) e.1 e.2).

Lemma Add_unfold r e : clean r -> TableBuilder_Add r e.1 e.2 =
  if block_size (options (add_entry r e)) <=? CurrentSizeEstimate (data_block (add_entry r e))
  then Flush (add_entry r e) else add_entry r e.
Proof. intros [Hs _]. unfold TableBuilder_Add, put_entry, add_entry, builder_ok. by rewrite Hs. Qed.

Lemma add_entry_ok r done cur fops e : tinv r done cur fops -> table_fits (entries done ++ cur ++ [e]) ->
  exists fops', tinv (add_entry r e) done (cur ++ [e]) fops' /\ pending_index_entry (add_entry r e) = false /\
    data_block (add_entry r e) = BlockBuilder_Add (block_restart_interval opt) (data_block r) e.1 e.2 /\
    contents_of (add_entry r e) = contents_of r.
Proof.
  intros Hi Hf. assert (Hf0 : table_fits (entries done ++ cur)).
  { rewrite app_assoc in Hf. by apply table_fits_app in Hf as [? _]. }
  destruct (add_index_entry_ok _ _ _ _ Hi Hf0) as (Hi1 & Hp1 & Hc1). unfold add_entry.
  assert (Hdata : data_block (add_index_entry r) = data_block r) by (unfold add_index_entry; by destruct (pending_index_entry r)).
  set (r1 := add_index_entry r) in *.
  pose proof Hi1 as [Hc Ho Hio Hd Hord (ixs & Hb) Hfr Hlast (indexed & Hbi & Hidx) Hfi Hs].
  rewrite Hp1 in Hidx. subst indexed.
  destruct (filter_add _ _ _ _ e Hfi) as (fops' & Hfi').
  destruct (on_filter_same (fun p b => AddKey b e.1) r1) as [fb Efb]. rewrite Efb in *.
  destruct (Add_built (block_restart_interval opt) (data_block r1) cur ixs e Hb) as (ixs2 & Hb2).
  { eapply fits_entry; [exact Hf|]. rewrite !elem_of_app. right. right. by left. }
  { intros ->. rewrite (Hfr eq_refl). simpl. lia. }
  cbn [with_filter with_last_key with_data_block options num_entries data_block]. rewrite Ho.
  exists fops'. split; [|split; [done|split; [by rewrite Hdata|done] ] ].
  constructor; try done.
  - by exists ixs2.
  - by destruct cur.
  - intros _. symmetry. apply last_key_of_snoc.
  - exists done. split; [done|]. simpl. by rewrite Hp1.
Qed.

Lemma Add_ok r done cur fops e : tinv r done cur fops -> table_fits (entries done ++ cur ++ [e]) ->
  exists done' cur' fops', tinv (TableBuilder_Add r e.1 e.2) done' cur' fops' /\
    (cur' <> [] -> pending_index_entry (TableBuilder_Add r e.1 e.2) = false) /\
    entries done' ++ cur' = entries done ++ cur ++ [e].
Proof.
  intros Hi Hf. destruct (add_entry_ok r done cur fops e Hi Hf) as (fops' & Hi2 & Hp2 & _).
  rewrite (Add_unfold r e (ti_clean _ _ _ _ Hi)). destruct (_ <=? _).
  - destruct (Flush_any (add_entry r e) done (cur ++ [e]) fops' Hi2 ltac:(done) Hf) as (done' & fops2 & Hi3 & He).
    exists done', [], fops2. split; [done|]. split; [done|]. by rewrite app_nil_r.
  - exists done, (cur ++ [e]), fops'. done.
Qed.

Definition add_all (l : list entry) (r : Rep F) : Rep F :=
  fold_left (fun r e => TableBuilder_Add r e.1 e.2) l r.

Lemma add_all_ok l : forall r done cur fops, tinv r done cur fops ->
  (cur <> [] -> pending_index_entry r = false) -> table_fits (entries done ++ cur ++ l) ->
  exists done' cur' fops', tinv (add_all l r) done' cur' fops' /\
    (cur' <> [] -> pending_index_entry (add_all l r) = false) /\
    entries done' ++ cur' = entries done ++ cur ++ l.
Proof.
  induction l as [|e l IH]; intros r done cur fops Hi Hp Hf; simpl.
  - exists done, cur, fops. by rewrite app_nil_r.
  - assert (Hf1 : table_fits (entries done ++ cur ++ [e])).
    { replace (entries done ++ cur ++ e :: l) with ((entries done ++ cur ++ [e]) ++ l) in Hf
        by (by rewrite <- !app_assoc). by apply table_fits_app in Hf as [? _]. }
    destruct (Add_ok r done cur fops e Hi Hf1) as (done1 & cur1 & fops1 & Hi1 & Hp1 & E1).
    assert (E : entries done ++ cur ++ e :: l = (entries done1 ++ cur1) ++ l)
      by (rewrite E1, <- !app_assoc; done).
    rewrite E in Hf |- *. rewrite <- app_assoc in Hf |- *. by eapply IH.
Qed.

Lemma newTableBuilder_ok f : wcontents f = [] -> exists fops, tinv (newTableBuilder opt f) [] [] fops.
Proof.
  intros Hf. unfold newTableBuilder.
  set (fb := match filter_policy opt with Some (_, p) => Some (p, newFilterBlockBuilder) | None => None end).
  set (r := mkRep _ _ f _ _ _ _ _ _ _ fb _ _).
  exists (match filter_policy opt with Some _ => [FStart 0] | None => [] end).
  destruct (on_filter_same (fun p b => StartBlock p b 0) r) as [b Eb].
  assert (Hfi : filter_inv (on_filter (fun p b => StartBlock p b 0) r) [] []
    (match filter_policy opt with Some _ => [FStart 0] | None => [] end)).
  { unfold filter_inv, on_filter, r, fb. cbn [filter_block].
    destruct (filter_policy opt) as [[name p]|]; [|done]. cbn [filter_block with_filter offset].
    split; [done|]. split; [simpl; lia|]. split; [done|]. split; [|split].
    - intros blk h e Hin. by apply elem_of_nil in Hin.
    - intros e He. by apply elem_of_nil in He.
    - vm_compute. congruence. }
  rewrite Eb in *. constructor; try done.
  - split; [done|]. unfold contents_of, r. simpl. by rewrite Hf.
  - constructor.
  - exists [0%nat]. apply new_built.
  - exists []. split; [apply index_built_new|done].
  - unfold contents_of, r. simpl. rewrite Hf. done.
Qed.

(** * Finishing *)

Definition filter_small (r : Rep F) : Prop :=
  match filter_block (Flush r) with
  | Some (p, b) => blen (Finish p b) < 2 ^ 31
  | None => True
  end.

(** The metaindex block: the handle of the filter block, under its name. *)
Definition meta_entries (fh : BlockHandle) : list entry :=
  match filter_policy opt with
  | Some (name, _) => [(filter_key name, handle_bytes fh)]
  | None => []
  end.

(** The filter block of the finished table. *)
Definition filter_stored (c : bytes) (done : list (list entry * BlockHandle)) (fh : BlockHandle) : Prop :=
  match filter_policy opt with
  | None => True
  | Some (_, p) => exists fops,
      let contents := Finish p (fold_left (filter_step p) fops newFilterBlockBuilder) in
      at_handle c fh contents /\ blen contents < 2 ^ 31 /\ offsets_grow 0 fops /\
      (forall blk h e, (blk, h) ∈ done -> e ∈ blk -> (handle_offset h, e.1) ∈ recorded 0 fops) /\
      blen fops <= 1 + 2 * blen (entries done)
  end.

(** A complete table file. *)
Record table_layout (c : bytes) (done : list (list entry * BlockHandle)) : Prop := {
  tl_done : Forall (stored_at c) done;
  tl_rest : exists pre mh ih fh mixs iixs,
    c = pre ++ footer_bytes (mkFooter mh ih) /\
    restarts_ok (index_entries done) iixs /\ at_handle c ih (block_bytes (index_entries done) iixs) /\
    iixs = index_ixs done /\
    restarts_ok (meta_entries fh) mixs /\ at_handle c mh (block_bytes (meta_entries fh) mixs) /\
    handle_fits fh /\ filter_stored c done fh;
  tl_order : StronglySorted handle_before done;
  tl_size : blen c < 2 ^ 40;
}.

Lemma index_body_bound c done : Forall (stored_at c) done -> blen c < 2 ^ 64 ->
  blen (body (index_entries done)) <= blen (body (entries done)) + 32 * blen (entries done).
Proof.
  intros Hd Hc. induction done as [|[blk h] done IH]; [done|].
  apply Forall_cons in Hd as [[Hne (ixs & _ & Hat)] Hd]. specialize (IH Hd).
  destruct (at_handle_range _ _ _ Hat Hc) as (_ & _ & _ & Hh). pose proof (blen_handle_bytes _ Hh).
  destruct (last_key_of_in blk Hne) as (e & He & Ek). cbn [fst snd] in *.
  pose proof (blen_body_elem _ _ He). pose proof (blen_entry e).
  pose proof (blen_entry (last_key_of blk, handle_bytes h)) as Hx. cbn [fst snd] in Hx. rewrite Ek in Hx.
  change (entries ((blk, h) :: done)) with (blk ++ entries done).
  change (index_entries ((blk, h) :: done)) with ((last_key_of blk, handle_bytes h) :: index_entries done).
  rewrite blen_body_cons, blen_body_app, blen_app, Ek. pose proof (blen_nonneg e.2).
  assert (1 <= blen blk) by (destruct blk; [done|]; rewrite blen_cons; pose proof (blen_nonneg blk); lia).
  unfold kMaxEncodedLength in *. lia.
Qed.

Lemma write_filter_ok r done fops : tinv r done [] fops -> blen (contents_of r) < 2 ^ 33 ->
  match filter_block r with Some (p, b) => blen (Finish p b) < 2 ^ 31 | None => True end ->
  exists r' fh x, write_filter r = (r', fh) /\ blen x < 2 ^ 32 /\
    (wrote r r' x \/ r' = r /\ x = []) /\
    handle_fits fh /\ (filter_policy opt = None -> filter_block r = None) /\
    (forall name p, filter_policy opt = Some (name, p) -> exists b, filter_block r = Some (p, b) /\
      b = fold_left (filter_step p) fops newFilterBlockBuilder) /\
    filter_stored (contents_of r ++ x) done fh.
Proof.
  intros Hi Hsm Hfs. pose proof (ti_filter _ _ _ _ Hi) as Hfi. pose proof (blen_nonneg (contents_of r)).
  unfold write_filter, filter_inv, filter_stored in *. destruct (filter_policy opt) as [[name p]|].
  - destruct Hfi as (Eb & Hg & Hl & Hd & _ & Hn). rewrite Eb in *. cbv beta iota in Hfs. unfold builder_ok.
    rewrite (proj1 (ti_clean _ _ _ _ Hi)). cbn [ok].
    set (con := Finish p (fold_left (filter_step p) fops newFilterBlockBuilder)) in *.
    pose proof (blen_nonneg con).
    destruct (WriteRawBlock_ok r con kNoCompression (ti_clean _ _ _ _ Hi)) as (r' & -> & Hw).
    { unfold kBlockTrailerSize. lia. }
    exists r', (mkHandle (blen (contents_of r)) (blen con)), (stored_block kNoCompression con).
    split; [reflexivity|]. rewrite blen_stored_block. unfold kBlockTrailerSize. split; [lia|]. split; [by left|].
    split; [unfold handle_fits; cbn [handle_offset handle_size]; lia|]. split; [done|].
    split; [intros ? ? [= <- <-]; eauto|].
    exists fops. split; [|split; [done|]; split; [done|]; split; [done|]].
    + exists (contents_of r), kNoCompression, con, []. rewrite app_nil_r. split; [done|]. split; [done|]. by left.
    + rewrite (@blen_nil entry) in Hn. lia.
  - rewrite Hfi. exists r, newBlockHandle, []. repeat split; [by right|done..].
Qed.

(** Writing a block without an entry, or with one. *)
Lemma write_one_ok r (m : list entry) : clean r -> (length m <= 1)%nat -> Forall entry_fits m ->
  blen (contents_of r) + blen (body m) + 2 ^ 10 < 2 ^ 64 ->
  let b := add_entries (block_restart_interval opt) m newBlockBuilder in
  exists r' h x mixs, WriteBlock r b = (r', newBlockBuilder, h) /\ wrote r r' x /\
    restarts_ok m mixs /\ at_handle (contents_of r ++ x) h (block_bytes m mixs) /\
    blen x <= blen (body m) + 32.
Proof.
  intros Hc Hm Hf Hsz b.
  destruct (add_entries_built (block_restart_interval opt) m _ _ _ new_built Hf) as (mixs & Hb);
    [simpl; lia|]. rewrite app_nil_l in Hb.
  pose proof (block_bytes_bound _ _ (built_ixs _ _ _ Hb)) as Hbb.
  assert (blen m <= 1) by (unfold blen; lia). unfold kBlockTrailerSize in *.
  destruct (WriteBlock_ok r b m mixs Hc Hb) as (r' & h & x & E & Hw & Hat & _ & Hx & _);
    [unfold kBlockTrailerSize; lia|].
  exists r', h, x, mixs. unfold kBlockTrailerSize in Hx. pose proof (built_ixs _ _ _ Hb).
  repeat (split; [done|]). lia.
Qed.

(** [r'] is [r] after a write of [x], its blocks untouched. *)
Record kept (r r' : Rep F) (x : bytes) : Prop := {
  kept_contents : contents_of r' = contents_of r ++ x;
  kept_clean : clean r';
  kept_options : options r' = options r;
  kept_index : index_block r' = index_block r /\ index_block_options r' = index_block_options r;
  kept_pending : pending_index_entry r' = pending_index_entry r /\ pending_handle r' = pending_handle r;
  kept_last : last_key r' = last_key r;
  kept_filter : filter_block r' = filter_block r;
}.

Lemma wrote_kept r r' x : wrote r r' x -> kept r r' x.
Proof.
  intros Hw. destruct (wrote_clean _ _ _ Hw) as [Hc E]. destruct Hw as (f & _ & ->). by constructor.
Qed.

Lemma kept_refl r : clean r -> kept r r [].
Proof. intros Hc. constructor; try done. by rewrite app_nil_r. Qed.

Lemma kept_trans r1 r2 r3 x y : kept r1 r2 x -> kept r2 r3 y -> kept r1 r3 (x ++ y).
Proof.
  intros [E1 C1 O1 [I1 J1] [P1 Q1] L1 F1] [E2 C2 O2 [I2 J2] [P2 Q2] L2 F2].
  constructor; [by rewrite E2, E1, app_assoc|done|congruence|split; congruence|split; congruence|congruence..].
Qed.

Lemma add_index_final (r : Rep F) done : index_block_options r = with_restart_interval opt 1 ->
  (exists indexed, index_built (index_block r) indexed /\
    if pending_index_entry r
    then exists blk, done = indexed ++ [(blk, pending_handle r)] /\ last_key r = last_key_of blk
    else indexed = done) ->
  Forall (fun d => entry_fits (last_key_of d.1, handle_bytes d.2)) done ->
  exists b p h, add_index_entry r = with_pending (with_index_block r b) p h /\ index_built b done.
Proof.
  intros Hio (indexed & Hb & Hp) Hf. unfold add_index_entry.
  destruct (pending_index_entry r) eqn:Ep.
  - destruct Hp as (blk & -> & Hlk). rewrite Hio, Hlk, BlockHandle_EncodeTo_app. do 3 eexists. split; [reflexivity|].
    apply index_built_add; [done|]. rewrite Forall_app, Forall_singleton in Hf. apply Hf.
  - subst indexed. exists (index_block r), (pending_index_entry r), (pending_handle r).
    split; [|done]. by destruct r.
Qed.

Lemma write_metaindex_ok r r1 done fh x : kept r r1 x -> options r = opt ->
  (filter_policy opt = None -> filter_block r = None) ->
  (forall name p, filter_policy opt = Some (name, p) -> exists b, filter_block r = Some (p, b)) ->
  blen (contents_of r1) < 2 ^ 36 -> Forall entry_fits (meta_entries fh) -> filter_stored (contents_of r1) done fh ->
  exists r2 mh y mixs, write_metaindex r1 fh = (r2, mh) /\ kept r1 r2 y /\
    restarts_ok (meta_entries fh) mixs /\
    at_handle (contents_of r1 ++ y) mh (block_bytes (meta_entries fh) mixs) /\
    blen y <= blen (body (meta_entries fh)) + 32.
Proof.
  intros Hk Ho Hn Hs Hsm Hf Hst. unfold write_metaindex, builder_ok.
  rewrite (proj1 (kept_clean _ _ _ Hk)), (kept_options _ _ _ Hk), Ho, (kept_filter _ _ _ Hk). cbn [ok].
  assert (Hb : (match filter_policy opt, filter_block r with
    | Some (name, _), Some _ => BlockBuilder_Add (block_restart_interval opt) newBlockBuilder (filter_key name)
        (BlockHandle_EncodeTo fh [])
    | _, _ => newBlockBuilder end) =
    add_entries (block_restart_interval opt) (meta_entries fh) newBlockBuilder).
  { unfold meta_entries. destruct (filter_policy opt) as [[name p]|]; [|done].
    destruct (Hs name p eq_refl) as [b ->]. by rewrite BlockHandle_EncodeTo_app. }
  rewrite Hb.
  assert (Hle : (length (meta_entries fh) <= 1)%nat) by (unfold meta_entries; by destruct (filter_policy opt) as [[]|]; simpl; lia).
  destruct (write_one_ok r1 (meta_entries fh) (kept_clean _ _ _ Hk) Hle Hf) as (r2 & mh & y & mixs & -> & Hw & Hr & Hat & Hy).
  { assert (blen (body (meta_entries fh)) <= 2 ^ 33 + 32); [|lia]. unfold meta_entries in *.
    destruct (filter_policy opt) as [[name p]|]; [|done]. apply Forall_singleton in Hf as [Hf1 Hf2].
    rewrite blen_body_cons. pose proof (blen_entry (filter_key name, handle_bytes fh)). cbn [fst snd] in *.
    change (blen (body [])) with 0. lia. }
  exists r2, mh, y, mixs. split; [done|]. split; [by apply wrote_kept|done].
Qed.

Lemma done_fits c done : Forall (stored_at c) done -> blen c < 2 ^ 64 -> table_fits (entries done) ->
  Forall (fun d => entry_fits (last_key_of d.1, handle_bytes d.2)) done.
Proof.
  intros Hd Hc Hf. rewrite Forall_forall in *. intros [blk h] Hin. eapply index_entry_fits; [by apply Hd|done|done|].
  intros e He. unfold entries. rewrite list_elem_of_In, in_concat. exists blk.
  rewrite <- !list_elem_of_In. split; [|done]. rewrite list_elem_of_In, in_map_iff. exists (blk, h).
  by rewrite <- list_elem_of_In.
Qed.

(** The index block and the footer, once the other blocks are written. *)
Lemma write_tail_ok r r2 done fops x mh :
  tinv r done [] fops -> kept r r2 x -> table_fits (entries done) -> blen (contents_of r2) < 2 ^ 37 ->
  handle_fits mh ->
  exists r3 r4 ih y, let iixs := index_ixs done in write_index r2 = (r3, ih) /\ write_footer r3 mh ih = r4 /\
    rep_status r4 = OK /\ offset r4 = blen (contents_of r4) /\
    contents_of r4 = contents_of r2 ++ y ++ footer_bytes (mkFooter mh ih) /\
    restarts_ok (index_entries done) iixs /\
    at_handle (contents_of r2 ++ y) ih (block_bytes (index_entries done) iixs) /\ blen y < 2 ^ 33.
Proof.
  intros Hi Hk Hf Hsm Hmh. pose proof (ti_size _ _ _ _ Hi) as Hs. unfold table_fits in Hf.
  pose proof (kept_contents _ _ _ Hk) as Ec. pose proof (f_equal blen Ec) as Hlen. rewrite blen_app in Hlen.
  pose proof (blen_nonneg x). pose proof (blen_nonneg (contents_of r)). pose proof (blen_nonneg (entries done)).
  assert (Hdone : Forall (stored_at (contents_of r2)) done).
  { eapply Forall_impl; [exact (ti_done _ _ _ _ Hi)|]. intros d Hd. rewrite Ec. by apply stored_at_app. }
  destruct (add_index_final r2 done) as (b & p & h & Ea & [Hb _]).
  { rewrite (proj2 (kept_index _ _ _ Hk)). apply (ti_iopt _ _ _ _ Hi). }
  { destruct (ti_index _ _ _ _ Hi) as (indexed & Hb & Hp). exists indexed.
    rewrite (proj1 (kept_index _ _ _ Hk)), (proj1 (kept_pending _ _ _ Hk)), (proj2 (kept_pending _ _ _ Hk)),
      (kept_last _ _ _ Hk). split; [done|].
    destruct (pending_index_entry r); [by destruct Hp as [_ Hp]|done]. }
  { eapply done_fits; [exact Hdone|lia|done]. }
  pose proof (index_body_bound _ _ Hdone ltac:(lia)) as Hib.
  pose proof (block_bytes_bound _ _ (built_ixs _ _ _ Hb)) as Hbb.
  assert (Hil : blen (index_entries done) <= blen (entries done)).
  { transitivity (blen done); [unfold index_entries, blen; by rewrite length_map|by eapply stored_entries]. }
  unfold write_index, builder_ok. rewrite (proj1 (kept_clean _ _ _ Hk)), Ea. cbn [ok].
  set (r2' := with_pending (with_index_block r2 b) p h).
  assert (Hc2 : clean r2') by apply (kept_clean _ _ _ Hk).
  change (index_block r2') with b.
  destruct (WriteBlock_ok r2' b _ _ Hc2 Hb) as (r3 & ih & y & -> & Hw & Hat & _ & Hy & _).
  { change (contents_of r2') with (contents_of r2). unfold kBlockTrailerSize. lia. }
  change (contents_of r2') with (contents_of r2) in *. unfold kBlockTrailerSize in Hy.
  destruct (wrote_clean _ _ _ Hw) as [[Hs3 Ho3] Hc3]. change (contents_of r2') with (contents_of r2) in Hc3.
  assert (Hih : handle_fits ih).
  { eapply at_handle_range; [exact Hat|]. rewrite blen_app. lia. }
  do 2 eexists. exists ih, y. cbv zeta. split; [reflexivity|]. split; [reflexivity|].
  unfold write_footer, builder_ok. cbn [with_index_block rep_status offset file].
  rewrite Hs3. cbn [ok]. rewrite Footer_EncodeTo_bytes by done.
  destruct (wAppend_ok (file r3) (footer_bytes (mkFooter mh ih))) as (f4 & -> & E4). cbn [ok].
  destruct (blen_footer_bytes (mkFooter mh ih) Hmh Hih) as [_ Hfl].
  fold (contents_of r3) in E4. rewrite Hc3, <- app_assoc in E4.
  split; [done|]. split; [|split; [exact E4|split; [apply (built_ixs _ _ _ Hb)|split; [done|lia]]]].
  unfold contents_of at 1. cbn [with_file offset file]. rewrite E4, Ho3, Hc3, Hfl, u64_small.
  - rewrite !blen_app, Hfl. lia.
  - rewrite blen_app. pose proof (blen_nonneg y). unfold kEncodedLength, kMaxEncodedLength. lia.
Qed.

Lemma tinv_closed r done cur fops : tinv r done cur fops -> tinv (with_closed r) done cur fops.
Proof. intros []. by constructor. Qed.

Definition name_fits : Prop :=
  match filter_policy opt with Some (name, _) => blen name < 2 ^ 31 | None => True end.

Lemma Finish_flushed r done' fops' : tinv (Flush r) done' [] fops' -> table_fits (entries done') -> name_fits -> filter_small r ->
  exists r' x, TableBuilder_Finish r = (OK, r') /\ contents_of r' = contents_of (Flush r) ++ x /\
    table_layout (contents_of r') done' /\ FileSize r' = blen (contents_of r').
Proof.
  intros Hi1 Hf Hn Hfs. unfold TableBuilder_Finish. apply tinv_closed in Hi1. unfold filter_small in Hfs.
  set (r1 := with_closed (Flush r)) in *. change (filter_block (Flush r)) with (filter_block r1) in Hfs.
  pose proof (ti_size _ _ _ _ Hi1) as Hs. unfold table_fits in Hf. pose proof (blen_nonneg (entries done')).
  destruct (write_filter_ok r1 done' fops' Hi1 ltac:(lia) Hfs)
    as (r2 & fh & x & -> & Hx & Hw & Hfh & Hnone & Hsome & Hst).
  assert (Hk2 : kept r1 r2 x).
  { destruct Hw as [Hw|[-> ->]]; [by apply wrote_kept|]. apply kept_refl, (ti_clean _ _ _ _ Hi1). }
  pose proof (f_equal blen (kept_contents _ _ _ Hk2)) as Hl2. rewrite blen_app in Hl2.
  assert (Hmf : Forall entry_fits (meta_entries fh)).
  { unfold meta_entries, name_fits in *. destruct (filter_policy opt) as [[name p]|]; [|done].
    apply Forall_singleton. pose proof (blen_handle_bytes _ Hfh). unfold kMaxEncodedLength in *.
    split; cbn [fst snd]; [|lia]. unfold filter_key. rewrite blen_app. change (blen (str "filter.")) with 7. lia. }
  destruct (write_metaindex_ok r1 r2 done' fh x Hk2 (ti_opt _ _ _ _ Hi1) Hnone)
    as (r3 & mh & y & mixs & -> & Hk3 & Hmr & Hmat & Hy); [..|lia|done|by rewrite (kept_contents _ _ _ Hk2)|].
  { intros name p Hnp. destruct (Hsome name p Hnp) as (b & ? & _). eauto. }
  assert (Hmb : blen (body (meta_entries fh)) < 2 ^ 34).
  { unfold meta_entries in *. destruct (filter_policy opt) as [[name p]|]; [|done].
    apply Forall_singleton in Hmf as [Hf1 Hf2]. rewrite blen_body_cons. change (blen (body [])) with 0.
    pose proof (blen_entry (filter_key name, handle_bytes fh)). cbn [fst snd] in *. lia. }
  pose proof (f_equal blen (kept_contents _ _ _ Hk3)) as Hl3. rewrite blen_app in Hl3.
  assert (Hmh : handle_fits mh).
  { eapply at_handle_range; [exact Hmat|]. rewrite <- (kept_contents _ _ _ Hk3). lia. }
  destruct (write_tail_ok r1 r3 done' fops' (x ++ y) mh Hi1 (kept_trans _ _ _ _ _ Hk2 Hk3) Hf ltac:(lia) Hmh)
    as (r4 & r5 & ih & z & -> & -> & Hs5 & Ho5 & Hc5 & Hir & Hiat & Hz).
  rewrite Hs5. exists r5, (x ++ y ++ z ++ footer_bytes (mkFooter mh ih)). split; [done|].
  split; [by rewrite Hc5, (kept_contents _ _ _ Hk3), (kept_contents _ _ _ Hk2), <- !app_assoc|]. split; [|done].
  pose proof (f_equal blen Hc5) as Hl5. rewrite !blen_app in Hl5.
  assert (Hih : handle_fits ih) by (eapply at_handle_range; [exact Hiat|rewrite blen_app; lia]).
  destruct (blen_footer_bytes (mkFooter mh ih) Hmh Hih) as [_ Hfl].
  constructor.
  - eapply Forall_impl; [exact (ti_done _ _ _ _ Hi1)|]. intros d Hd.
    rewrite Hc5, (kept_contents _ _ _ Hk3), (kept_contents _ _ _ Hk2), <- !app_assoc. by apply stored_at_app.
  - exists (contents_of r3 ++ z), mh, ih, fh, mixs, (index_ixs done'). split; [by rewrite Hc5, <- app_assoc|].
    split; [done|]. split; [rewrite Hc5, app_assoc; by apply at_handle_app|]. split; [done|]. split; [done|].
    split; [rewrite Hc5, (kept_contents _ _ _ Hk3); by apply at_handle_app|]. split; [done|].
    rewrite Hc5, (kept_contents _ _ _ Hk3), (kept_contents _ _ _ Hk2), <- !app_assoc.
    unfold filter_stored in *. destruct (filter_policy opt) as [[name p]|]; [|done].
    destruct Hst as (fo & Hat & ?). exists fo. split; [|done].
    rewrite (app_assoc (contents_of r1)). by apply at_handle_app.
  - exact (ti_order _ _ _ _ Hi1).
  - unfold kEncodedLength, kMaxEncodedLength in Hfl. lia.
Qed.

Lemma Finish_ok r done cur fops : tinv r done cur fops ->
  (cur <> [] -> pending_index_entry r = false) -> table_fits (entries done ++ cur) ->
  name_fits -> filter_small r ->
  exists r' done', TableBuilder_Finish r = (OK, r') /\ entries done' = entries done ++ cur /\
    table_layout (contents_of r') done' /\ FileSize r' = blen (contents_of r').
Proof.
  intros Hi Hp Hf Hn Hfs. destruct (Flush_any r done cur fops Hi Hp Hf) as (done' & fops' & Hi1 & Ee). rewrite <- Ee in Hf.
  destruct (Finish_flushed r done' fops' Hi1 Hf Hn Hfs) as (r' & x & E & _ & Hl & Hsz). by exists r', done'.
Qed.
End Building.
