(* ===== verification/TableGet.v ===== *)
(** Opening a finished table and looking keys up in it: table.cc finds what
    table_builder.cc wrote (TableProofs). *)

From stdpp Require Import base list option sorting strings.
From S2P Require Import Prelude Status Coding Crc32c Env Comparator Iterator Format Block BlockProofs.
From S2P Require Import Bloom FilterBlock TwoLevel TableBuilder Table TableProofs.
From Stdlib Require Import Strings.Byte.

#[local] Open Scope Z_scope.

(** * The iterators over blocks *)

Section BlockIterators.
Context {cmp : Comparator} {cmp_ok : ComparatorOk}.

Definition block_iter_at (it : BlockIter) (l : list entry) (i : nat) : Prop :=
  match it with inl _ => False | inr b => block_at b l i end.

#[export] Instance block_iterator_ok : @IteratorOk BlockIter (block_iterator cmp) cmp.
Proof.
  refine (@Build_IteratorOk BlockIter (block_iterator cmp) cmp block_iter_at _ _ _ _ _ _ _ _ _);
    intros [a|b]; try done.
  - exact (at_pos_le (IteratorOk := Iter_ok) b).
  - exact (at_entry (IteratorOk := Iter_ok) b).
  - exact (at_end (IteratorOk := Iter_ok) b).
  - exact (at_status (IteratorOk := Iter_ok) b).
  - intros l i target Ha Ht. destruct (Seek_ok (IteratorOk := Iter_ok) b l i target Ha Ht) as (it' & E & ?).
    exists (inr it'). split; [|done]. simpl. simpl in E. by rewrite E.
  - intros l i Ha. destruct (SeekToFirst_ok (IteratorOk := Iter_ok) b l i Ha) as (it' & E & ?).
    exists (inr it'). split; [|done]. simpl. simpl in E. by rewrite E.
  - intros l i Ha. destruct (SeekToLast_ok (IteratorOk := Iter_ok) b l i Ha) as (it' & E & ?).
    exists (inr it'). split; [|done]. simpl. simpl in E. by rewrite E.
  - intros l i Ha Hi. destruct (Next_ok (IteratorOk := Iter_ok) b l i Ha Hi) as (it' & E & ?).
    exists (inr it'). split; [|done]. simpl. simpl in E. by rewrite E.
  - intros l i Ha Hi. destruct (Prev_ok (IteratorOk := Iter_ok) b l i Ha Hi) as (it' & E & ?).
    exists (inr it'). split; [|done]. simpl. simpl in E. by rewrite E.
Defined.

(** In a block any target can be sought. *)
Lemma block_Seek it l i target : block_iter_at it l i ->
  exists it', Seek (Iterator := block_iterator cmp) it target = Some it' /\ block_iter_at it' l (seek_index target l).
Proof.
  destruct it as [|b]; [done|]. intros (ixs & Hl & Hc). destruct (seek_ok b l ixs target Hl) as (it' & E & H'). exists (inr it'). split; [simpl; by rewrite E|].
  by exists ixs.
Qed.

Lemma open_block l ixs : restarts_ok l ixs -> StronglySorted entry_lt l ->
  blen (block_bytes l ixs) < 2 ^ 32 ->
  block_iter_at (block_iter (newBlock (block_bytes l ixs))) l (length l).
Proof.
  intros Hr Hs Hsz. destruct (open_iterator l ixs Hr Hs Hsz) as (it & E & Ha).
  unfold block_iter. by rewrite E.
Qed.
End BlockIterators.

(** * The index of the data blocks *)

Section Index.
Context {cmp : Comparator} {cmp_ok : ComparatorOk} `{Checksum} `{Snappy}.
Context (c : bytes) (done : list (list entry * BlockHandle)).
Hypothesis blocks_stored : Forall (stored_at c) done.
Hypothesis blocks_ordered : StronglySorted handle_before done.
Hypothesis contents_fit : blen c < 2 ^ 40.
Hypothesis entries_sorted : StronglySorted entry_lt (entries done).

Lemma done_stored j blk h : done !! j = Some (blk, h) -> stored_at c (blk, h).
Proof. intros Hj. rewrite Forall_forall in blocks_stored. by eapply blocks_stored, list_elem_of_lookup_2. Qed.

Lemma done_handle_fits j blk h : done !! j = Some (blk, h) -> handle_fits h.
Proof.
  intros Hj. destruct (done_stored _ _ _ Hj) as [_ (ixs & _ & Hat)].
  eapply at_handle_range; [exact Hat|]. lia.
Qed.

Lemma entries_split j blk h : done !! j = Some (blk, h) ->
  entries done = entries (take j done) ++ blk ++ entries (drop (S j) done).
Proof.
  intros Hj. unfold entries. rewrite <- (take_drop_middle _ _ _ Hj) at 1.
  by rewrite map_app, concat_app.
Qed.

Lemma block_sorted j blk h : done !! j = Some (blk, h) -> StronglySorted entry_lt blk.
Proof.
  intros Hj. pose proof entries_sorted as Hs. rewrite (entries_split _ _ _ Hj) in Hs.
  apply sorted_app in Hs as (_ & Hs & _). by apply sorted_app in Hs as (? & _).
Qed.

Lemma cross_block j j' blk blk' h h' e e' : done !! j = Some (blk, h) -> done !! j' = Some (blk', h') ->
  (j < j')%nat -> e ∈ blk -> e' ∈ blk' -> entry_lt e e'.
Proof.
  intros Hj Hj' Hlt He He'. pose proof entries_sorted as Hs. rewrite (entries_split _ _ _ Hj') in Hs.
  apply sorted_app in Hs as (_ & _ & Hx). apply Hx; [|apply elem_of_app; by left].
  unfold entries. rewrite list_elem_of_In, in_concat. exists blk. rewrite <- !list_elem_of_In. split; [|done].
  rewrite list_elem_of_In, in_map_iff. exists (blk, h). split; [done|]. rewrite <- list_elem_of_In.
  apply list_elem_of_lookup_2 with j. rewrite lookup_take. by rewrite decide_True.
Qed.

Lemma last_key_max blk e : StronglySorted entry_lt blk -> e ∈ blk -> Compare e.1 (last_key_of blk) <= 0.
Proof.
  destruct blk as [|x l _] using rev_ind; intros Hs He; [by apply elem_of_nil in He|].
  rewrite last_key_of_snoc. apply elem_of_app in He as [He|He].
  - apply sorted_app in Hs as (_ & _ & Hx). apply Z.lt_le_incl, Hx; [done|by left].
  - apply list_elem_of_singleton in He as ->. rewrite (tc_refl Compare). lia.
Qed.

Lemma index_lookup j k hb : index_entries done !! j = Some (k, hb) <->
  exists blk h, done !! j = Some (blk, h) /\ k = last_key_of blk /\ hb = handle_bytes h.
Proof.
  unfold index_entries. change (map ?f done) with (f <$> done). rewrite list_lookup_fmap_Some. split.
  - intros ([blk h] & E & Hj). simplify_eq/=. eauto.
  - intros (blk & h & Hj & -> & ->). exists (blk, h). done.
Qed.

(** The handles are distinct, so that a handle stands for one block. *)
Definition block_of (hb : bytes) : list entry :=
  match List.find (fun d => slice_eqb (handle_bytes d.2) hb) done with Some d => d.1 | None => [] end.

Lemma handle_bytes_inj h h' : handle_fits h -> handle_fits h' -> handle_bytes h = handle_bytes h' -> h = h'.
Proof.
  intros Hh Hh' E. pose proof (BlockHandle_decode h newBlockHandle [] Hh) as D.
  rewrite E, (BlockHandle_decode h' newBlockHandle [] Hh') in D. congruence.
Qed.

Lemma same_handle j j' blk blk' h : done !! j = Some (blk, h) -> done !! j' = Some (blk', h) -> j = j'.
Proof.
  intros Hj Hj'. destruct (Nat.lt_trichotomy j j') as [Hlt|[->|Hlt]]; [|done|].
  - pose proof (sorted_lookup _ _ _ _ _ _ blocks_ordered Hj Hj' Hlt). unfold handle_before in *. simpl in *. lia.
  - pose proof (sorted_lookup _ _ _ _ _ _ blocks_ordered Hj' Hj Hlt). unfold handle_before in *. simpl in *. lia.
Qed.

Lemma block_of_handle j blk h : done !! j = Some (blk, h) -> block_of (handle_bytes h) = blk.
Proof.
  intros Hj. unfold block_of. destruct (List.find _ done) as [[blk' h']|] eqn:Ef.
  - apply find_some in Ef as [Hin Eh]. simpl in *. apply slice_eqb_spec in Eh.
    apply list_elem_of_In, list_elem_of_lookup in Hin as [j' Hj'].
    apply handle_bytes_inj in Eh; [|by eapply done_handle_fits..]. subst h'.
    pose proof (same_handle _ _ _ _ _ Hj Hj') as ->. congruence.
  - pose proof (find_none _ _ Ef (blk, h)) as Hn. simpl in Hn.
    specialize (Hn ltac:(by eapply list_elem_of_In, list_elem_of_lookup_2)).
    assert (slice_eqb (handle_bytes h) (handle_bytes h) = true) by (by apply slice_eqb_spec). congruence.
Qed.

Lemma all_entries_done : all_entries (index_entries done) block_of = entries done.
Proof.
  unfold all_entries, blocks, entries, index_entries. rewrite map_map. f_equal.
  apply map_ext_in. intros [blk h] Hin. apply list_elem_of_In, list_elem_of_lookup in Hin as [j Hj]. simpl.
  by eapply block_of_handle.
Qed.

Lemma index_key_bound j k hb e : index_entries done !! j = Some (k, hb) -> e ∈ block_of hb ->
  Compare e.1 k <= 0.
Proof.
  intros (blk & h & Hj & -> & ->)%index_lookup He. rewrite (block_of_handle _ _ _ Hj) in He.
  apply last_key_max; [by eapply block_sorted|done].
Qed.

Lemma index_key_separates j j' k k' hb hb' e : index_entries done !! j = Some (k, hb) ->
  index_entries done !! j' = Some (k', hb') -> (j < j')%nat -> e ∈ block_of hb' -> Compare k e.1 < 0.
Proof.
  intros (blk & h & Hj & -> & ->)%index_lookup (blk' & h' & Hj' & -> & ->)%index_lookup Hlt He.
  rewrite (block_of_handle _ _ _ Hj') in He. destruct (done_stored _ _ _ Hj) as [Hne _].
  destruct (last_key_of_in blk Hne) as (e0 & He0 & ->).
  exact (cross_block _ _ _ _ _ _ _ _ Hj Hj' Hlt He0 He).
Qed.

Lemma index_sorted : StronglySorted entry_lt (index_entries done).
Proof.
  assert (Hx : forall k, (k <= length done)%nat -> StronglySorted entry_lt (index_entries (take k done))).
  { induction k as [|k IH]; intros Hk; [constructor|].
    destruct (lookup_lt_is_Some_2 done k ltac:(lia)) as [[blk h] Hj].
    rewrite (take_S_r _ _ _ Hj), index_entries_snoc. apply sorted_app. split; [apply IH; lia|].
    split; [repeat constructor|]. intros x y Hxin Hy. apply list_elem_of_singleton in Hy as ->.
    apply list_elem_of_lookup in Hxin as [j Hl].
    unfold index_entries in Hl. change (map ?f ?l) with (f <$> l) in Hl.
    apply list_lookup_fmap_Some in Hl as ([blk' h'] & -> & Hj'). apply lookup_take_Some in Hj' as [Hj' Hlt].
    destruct (done_stored _ _ _ Hj) as [Hne _]. destruct (done_stored _ _ _ Hj') as [Hne' _]. unfold entry_lt. simpl.
    destruct (last_key_of_in blk Hne) as (e & He & ->). destruct (last_key_of_in blk' Hne') as (e' & He' & ->).
    exact (cross_block _ _ _ _ _ _ _ _ Hj' Hj Hlt He' He). }
  specialize (Hx (length done) ltac:(lia)). by rewrite firstn_all in Hx.
Qed.

(** Where a lookup goes: the block whose index entry is the first at or after the
    key, and in it the first entry at or after the key. *)
Lemma find_entry k : let j := seek_index k (index_entries done) in
  match done !! j with
  | None => List.find (fun e => 0 <=? Compare e.1 k) (entries done) = None
  | Some (blk, h) => exists e, blk !! seek_index k blk = Some e /\
      List.find (fun e => 0 <=? Compare e.1 k) (entries done) = Some e
  end.
Proof.
  intros j. rewrite <- (seek_index_find k (entries done)), <- all_entries_done.
  rewrite (seek_concat (index_entries done) block_of index_key_bound index_key_separates k j eq_refl).
  assert (Hlen : length (index_entries done) = length done) by (unfold index_entries; apply length_map).
  destruct (done !! j) as [[blk h]|] eqn:Ej.
  - assert (Ei : index_entries done !! j = Some (last_key_of blk, handle_bytes h)) by (apply index_lookup; eauto).
    rewrite Ei, (block_of_handle _ _ _ Ej). destruct (done_stored _ _ _ Ej) as [Hne _].
    pose proof (seek_index_at k (index_entries done) _ Ei) as Hge. cbn [fst] in Hge.
    destruct (last_key_of_in blk Hne) as (e & He & Ek). rewrite Ek in Hge.
    assert (Hlt : (seek_index k blk < length blk)%nat).
    { apply list_elem_of_lookup in He as [i Hi]. pose proof (lookup_lt_Some _ _ _ Hi).
      destruct (decide (seek_index k blk < length blk)%nat) as [|Hn]; [done|].
      pose proof (seek_index_before k blk i e Hi ltac:(lia)). lia. }
    destruct (lookup_lt_is_Some_2 blk _ Hlt) as [e' He']. exists e'. split; [done|].
    rewrite (lookup_block j (last_key_of blk) (handle_bytes h) _ Ei);
      rewrite (block_of_handle _ _ _ Ej); done.
  - apply lookup_ge_None in Ej as Hge. rewrite (lookup_ge_None_2 (index_entries done) j) by lia. rewrite Nat.add_0_r.
    pose proof (seek_index_le k (index_entries done)). assert (j = length (index_entries done)) as -> by (unfold j in *; lia).
    rewrite base_end. by apply lookup_ge_None_2.
Qed.
End Index.

(** * Opening *)

(** A block cache holds, under a key, what was inserted last under it, or
    nothing. *)
Class BlockCacheOk (C : Type) `{BlockCache C} := {
  cache_Insert_ok c k b n k' b' : cache_Lookup (cache_Insert c k b n) k' = Some b' ->
    k' = k /\ b' = b \/ cache_Lookup c k' = Some b';
}.

Section Reading.
Context {G C : Type} `{RandomAccessFileOk G} `{Checksum} `{SnappyOk} `{BlockCacheOk C}.
Context {cmp : Comparator} {cmp_ok : ComparatorOk}.
Context (mapped : G -> bool) (opt : TableOptions).

(** The filter reader of the opened table. *)
Definition filter_opened (t : Table G) (done : list (list entry * BlockHandle)) : Prop :=
  match filter_policy opt with
  | None => filter t = None
  | Some (_, p) => exists fops,
      let contents := Finish p (fold_left (filter_step p) fops newFilterBlockBuilder) in
      filter t = Some (p, newFilterBlockReader contents) /\ blen contents < 2 ^ 32 /\
      offsets_grow 0 fops /\
      (forall blk h e, (blk, h) ∈ done -> e ∈ blk -> (handle_offset h, e.1) ∈ recorded 0 fops) /\
      blen fops <= 1 + 2 * blen (entries done)
  end.

Record opened (t : Table G) (done : list (list entry * BlockHandle)) : Prop := {
  op_layout : table_layout opt (rcontents (table_file t)) done;
  op_index : exists ixs, restarts_ok (index_entries done) ixs /\
    table_index t = newBlock (block_bytes (index_entries done) ixs) /\ ixs = index_ixs done;
  op_filter : filter_opened t done;
}.

Lemma block_size_fits c blk h (done : list (list entry * BlockHandle)) ixs : (blk, h) ∈ done ->
  Forall (stored_at c) done -> table_fits (entries done) -> restarts_ok blk ixs ->
  blen (block_bytes blk ixs) < 2 ^ 32.
Proof.
  intros Hin Hd Hf Hr. pose proof (block_bytes_bound _ _ Hr) as Hb. unfold table_fits in Hf.
  apply list_elem_of_split in Hin as (d1 & d2 & ->).
  unfold entries in Hf. rewrite map_app, concat_app in Hf. simpl in Hf.
  rewrite !blen_body_app, !blen_app in Hf.
  pose proof (blen_nonneg (body (concat (map fst d1)))). pose proof (blen_nonneg (body (concat (map fst d2)))).
  pose proof (blen_nonneg (concat (map fst d1))). pose proof (blen_nonneg (concat (map fst d2))). 
  pose proof (blen_nonneg blk). lia.
Qed.

Lemma index_size_fits c (done : list (list entry * BlockHandle)) ixs : Forall (stored_at c) done ->
  blen c < 2 ^ 64 -> table_fits (entries done) -> restarts_ok (index_entries done) ixs ->
  blen (block_bytes (index_entries done) ixs) < 2 ^ 32.
Proof.
  intros Hd Hc Hf Hr. pose proof (block_bytes_bound _ _ Hr). pose proof (index_body_bound _ _ Hd Hc).
  pose proof (stored_entries _ _ Hd). unfold table_fits in Hf. pose proof (blen_nonneg (entries done)).
  assert (blen (index_entries done) = blen done) by (unfold index_entries, blen; by rewrite length_map). lia.
Qed.

Lemma ReadFilter_ok t p fh con : at_handle (rcontents (table_file t)) fh con -> handle_fits fh ->
  blen (rcontents (table_file t)) < 2 ^ 64 ->
  ReadFilter mapped t p (handle_bytes fh) = with_filter_reader t (Some (p, newFilterBlockReader con)).
Proof.
  intros Hat Hh Hsz. unfold ReadFilter.
  rewrite <- (app_nil_r (handle_bytes fh)), (BlockHandle_decode _ _ _ Hh). cbn [ok negb].
  destruct (read_at_handle mapped (table_file t) (meta_options (table_options t)) fh con Hat Hsz)
    as (c & a & ->). done.
Qed.

Lemma ReadMeta_ok t done pre mh ih fh mixs :
  table_options t = opt -> filter t = None -> rcontents (table_file t) = pre ->
  restarts_ok (meta_entries opt fh) mixs -> at_handle pre mh (block_bytes (meta_entries opt fh) mixs) ->
  blen (block_bytes (meta_entries opt fh) mixs) < 2 ^ 32 ->
  handle_fits fh -> blen pre < 2 ^ 64 -> filter_stored opt pre done fh ->
  exists t', ReadMeta mapped t (mkFooter mh ih) = Some t' /\ filter_opened t' done /\
    table_options t' = opt /\ table_file t' = table_file t /\ table_index t' = table_index t /\
    metaindex_handle t' = metaindex_handle t /\ cache_id t' = cache_id t.
Proof.
  intros Ho Hn Hc Hr Hat Hsz Hfh Hpre Hst. unfold ReadMeta. rewrite Ho.
  unfold meta_entries, filter_stored, filter_opened in *. destruct (filter_policy opt) as [[name p]|]; [|eauto 10].
  destruct Hst as (fops & Hfat & Hfsz & Hg & Hrec & Hlen). cbn [metaindex_handle_].
  rewrite <- Hc in *.
  destruct (read_at_handle mapped (table_file t) (meta_options opt) mh _ Hat Hpre) as (c & a & ->).
  cbn [ok negb data]. set (l := [(filter_key name, handle_bytes fh)]) in *.
  assert (Hs : StronglySorted (entry_lt (cmp := BytewiseComparator)) l) by repeat constructor.
  pose proof (open_block (cmp := BytewiseComparator) l mixs Hr Hs Hsz) as Hb.
  destruct (block_Seek (cmp := BytewiseComparator) _ l (length l) (filter_key name) Hb) as (it & -> & Ha). cbn [mbind option_bind].
  assert (Hidx : seek_index (cmp := BytewiseComparator) (filter_key name) l = 0%nat).
  { unfold l. simpl. by rewrite (tc_refl (@Compare BytewiseComparator)). }
  rewrite Hidx in Ha.
  destruct (at_entry (IteratorOk := block_iterator_ok (cmp := BytewiseComparator)) it l 0%nat
    (filter_key name, handle_bytes fh) Ha eq_refl) as (-> & -> & ->). cbn [fst snd andb].
  assert (slice_eqb (filter_key name) (filter_key name) = true) as -> by (by apply slice_eqb_spec).
  eexists. split; [reflexivity|]. rewrite (ReadFilter_ok _ _ _ _ Hfat Hfh Hpre).
  split; [|done]. exists fops. split; [done|]. split; [lia|]. done.
Qed.

(** A finished table opens. *)
Lemma Open_ok g done id : table_layout opt (rcontents g) done -> table_fits (entries done) -> name_fits opt ->
  exists t, Open mapped opt g (blen (rcontents g)) id = Some (OK, Some t) /\ opened t done /\
    table_file t = g /\ cache_id t = id.
Proof.
  intros Hl Hf Hname. pose proof Hl as [Hd (pre & mh & ih & fh & mixs & iixs & Ec & Hir & Hiat & Hixs & Hmr & Hmat & Hfh & Hst) _ Hsz].
  destruct (at_handle_range _ _ _ Hmat ltac:(lia)) as (_ & _ & _ & Hmh).
  destruct (at_handle_range _ _ _ Hiat ltac:(lia)) as (_ & _ & _ & Hih).
  destruct (blen_footer_bytes (mkFooter mh ih) Hmh Hih) as [_ Hfl].
  pose proof (f_equal blen Ec) as Hlen. rewrite blen_app, Hfl in Hlen. pose proof (blen_nonneg pre).
  unfold Open. destruct (Z.ltb_spec (blen (rcontents g)) kEncodedLength); [lia|].
  rewrite (rRead_ok g) by (unfold kEncodedLength, kMaxEncodedLength in *; lia).
  assert (btake kEncodedLength (bdrop (blen (rcontents g) - kEncodedLength) (rcontents g)) =
    footer_bytes (mkFooter mh ih)) as ->.
  { rewrite Ec at 2. rewrite (bdrop_app_n _ pre) by lia. apply btake_all. lia. }
  cbn [ok negb]. rewrite <- (Footer_EncodeTo_bytes (mkFooter mh ih)) by done.
  rewrite <- (app_nil_r (Footer_EncodeTo _ [])), (Footer_roundtrip (mkFooter mh ih) _ _ Hmh Hih).
  cbn [mbind option_bind ok negb index_handle_].
  destruct (read_at_handle mapped g (meta_options opt) ih _ Hiat ltac:(lia)) as (c & a & ->). cbn [ok data].
  match goal with |- context [ReadMeta mapped ?t0 _] => set (t := t0) end.
  destruct (ReadMeta_ok t done (rcontents g) mh ih fh mixs) as (t' & -> & Hfo & Ho & Hg & Hi & _ & Hid); try done.
  { pose proof (block_bytes_bound _ _ Hmr) as Hb.
    assert (blen (body (meta_entries opt fh)) + 4 * blen (meta_entries opt fh) + 8 < 2 ^ 32); [|lia].
    unfold meta_entries, name_fits in *. destruct (filter_policy opt) as [[name p]|]; [|done].
    pose proof (blen_handle_bytes _ Hfh). unfold kMaxEncodedLength in *.
    rewrite blen_body_cons, blen_cons, (@blen_nil entry). change (blen (body [])) with 0.
    pose proof (blen_entry (filter_key name, handle_bytes fh)). cbn [fst snd] in *.
    unfold filter_key in *. rewrite blen_app in *. change (blen (str "filter.")) with 7 in *. lia. }
  { lia. }
  cbn [mbind option_bind]. exists t'. split; [done|]. split; [|split; [done|by rewrite Hid]].
  constructor; [by rewrite Hg|exists iixs; split; [done|by rewrite Hi; split]|done].
Qed.

(** * Lookups *)

(** What the cache holds for the blocks of the table is their contents. *)
Definition cache_sound (t : Table G) (done : list (list entry * BlockHandle)) (c : option C) : Prop :=
  match c with
  | None => True
  | Some c => forall j blk h b, done !! j = Some (blk, h) -> cache_Lookup c (cache_key t h) = Some b ->
      exists ixs, restarts_ok blk ixs /\ b = newBlock (block_bytes blk ixs)
  end.

Lemma cache_key_inj (t : Table G) h h' : handle_fits h -> handle_fits h' -> cache_key t h = cache_key t h' ->
  handle_offset h = handle_offset h'.
Proof.
  intros [Ho _] [Ho' _] E. unfold cache_key in E. apply app_inv_head in E.
  pose proof (DecodeFixed64_app (handle_offset h) []) as D.
  rewrite E, DecodeFixed64_app, !Z.mod_small in D by done. done.
Qed.

Section Opened.
Context (t : Table G) (done : list (list entry * BlockHandle)).
Hypothesis t_opened : opened t done.
Hypothesis entries_fit : table_fits (entries done).
Hypothesis entries_sorted : StronglySorted entry_lt (entries done).
#[local] Abbreviation c := (rcontents (table_file t)).

Lemma layout_stored : Forall (stored_at c) done. Proof. apply (tl_done _ _ _ (op_layout _ _ t_opened)). Qed.
Lemma layout_ordered : StronglySorted handle_before done. Proof. apply (tl_order _ _ _ (op_layout _ _ t_opened)). Qed.
Lemma layout_size : blen c < 2 ^ 40. Proof. apply (tl_size _ _ _ (op_layout _ _ t_opened)). Qed.

Lemma opened_handle_fits j blk h : done !! j = Some (blk, h) -> handle_fits h.
Proof. exact (done_handle_fits c done layout_stored layout_size j blk h). Qed.

Lemma data_block_opens j blk h ixs : done !! j = Some (blk, h) -> restarts_ok blk ixs ->
  block_iter_at (block_iter (newBlock (block_bytes blk ixs))) blk (length blk).
Proof.
  intros Hj Hr. apply open_block; [done|by eapply block_sorted|].
  eapply block_size_fits; [by eapply list_elem_of_lookup_2|apply layout_stored|done|done].
Qed.

Lemma cache_insert_sound cc j blk h ixs n : cache_sound t done (Some cc) -> done !! j = Some (blk, h) ->
  restarts_ok blk ixs ->
  cache_sound t done (Some (cache_Insert cc (cache_key t h) (newBlock (block_bytes blk ixs)) n)).
Proof.
  intros Hs Hj Hr j' blk' h' b Hj' Hl. apply cache_Insert_ok in Hl as [[Ek ->]|Hl]; [|by eapply Hs].
  pose proof (cache_key_inj t h' h (opened_handle_fits _ _ _ Hj') (opened_handle_fits _ _ _ Hj) Ek) as Eo.
  assert (j' = j) as ->.
  { pose proof layout_ordered as Hord. destruct (Nat.lt_trichotomy j j') as [Hlt|[->|Hlt]]; [|done|].
    - pose proof (sorted_lookup _ _ _ _ _ _ Hord Hj Hj' Hlt). unfold handle_before in *. simpl in *. lia.
    - pose proof (sorted_lookup _ _ _ _ _ _ Hord Hj' Hj Hlt). unfold handle_before in *. simpl in *. lia. }
  assert (blk' = blk) as -> by congruence. eauto.
Qed.

Lemma BlockReader_ok ro cc j blk h : done !! j = Some (blk, h) -> cache_sound t done cc ->
  exists it cc', BlockReader mapped t ro cc (handle_bytes h) = (it, cc') /\
    block_iter_at it blk (length blk) /\ cache_sound t done cc' /\ (cc = None -> cc' = None).
Proof.
  intros Hj Hcs. unfold BlockReader.
  assert (Hh : handle_fits h) by (by eapply opened_handle_fits).
  rewrite <- (app_nil_r (handle_bytes h)), (BlockHandle_decode _ _ _ Hh). cbn [ok].
  destruct (done_stored _ _ layout_stored _ _ _ Hj) as [_ (ixs & Hr & Hat)]. cbn [fst snd] in *.
  pose proof (data_block_opens _ _ _ _ Hj Hr) as Hopen.
  assert (Hread : exists ca a, ReadBlock mapped (table_file t) (verify_checksums ro) h =
    (OK, mkContents (block_bytes blk ixs) ca a)).
  { eapply read_at_handle; [exact Hat|]. pose proof layout_size. lia. }
  destruct Hread as (ca & a & Eread). destruct cc as [cc|].
  - destruct (cache_Lookup cc (cache_key t h)) as [b|] eqn:El.
    + destruct (Hcs _ _ _ _ Hj El) as (ixs' & Hr' & ->). do 2 eexists. split; [reflexivity|].
      split; [by eapply data_block_opens|done].
    + rewrite Eread. cbn [ok data cachable]. do 2 eexists. split; [reflexivity|]. split; [done|].
      split; [|done]. destruct (ca && fill_cache ro); [by eapply cache_insert_sound|done].
  - rewrite Eread. cbn [ok data]. do 2 eexists. split; [reflexivity|]. done.
Qed.

(** The keys the filter policy does not tell apart. *)
Context (same : bytes -> bytes -> Prop).
Hypothesis same_key : forall name p k k' f, filter_policy opt = Some (name, p) -> same k k' ->
  @KeyMayMatch p k f = @KeyMayMatch p k' f.
Hypothesis policy_ok : forall name p, filter_policy opt = Some (name, p) ->
  exists Hok : @FilterPolicyOk p, forall ks, blen ks <= 1 + 2 * blen (entries done) -> @filter_fits p Hok ks.

Lemma Reader_same p r off k k' : (forall f, @KeyMayMatch p k f = @KeyMayMatch p k' f) ->
  Reader_KeyMayMatch p r off k = Reader_KeyMayMatch p r off k'.
Proof. intros E. unfold Reader_KeyMayMatch. by rewrite E. Qed.

(** The filter does not reject a key that is in the block. *)
Lemma filter_passes p r j blk h k e : filter t = Some (p, r) -> done !! j = Some (blk, h) -> e ∈ blk ->
  same k e.1 -> Reader_KeyMayMatch p r (handle_offset h) k = true.
Proof.
  intros Ef Hj He Hk. pose proof (op_filter _ _ t_opened) as Ho. unfold filter_opened in Ho.
  destruct (filter_policy opt) as [[name q]|] eqn:Eq; [|congruence].
  destruct Ho as (fops & Ef' & Hsz & Hg & Hrec & Hlen). rewrite Ef in Ef'. injection Ef' as -> ->.
  rewrite (Reader_same _ _ _ k e.1) by (intros; by eapply same_key).
  destruct (policy_ok name q eq_refl) as [Hok Hfit].
  assert (Hh : handle_fits h) by (by eapply opened_handle_fits).
  apply (@filter_block_matches q Hok); [done| |done|apply Hh|].
  - intros ks Hks. apply Hfit. lia.
  - eapply Hrec; [by eapply list_elem_of_lookup_2|done].
Qed.

(** The answer to a lookup: the first entry at or after the key, unless the
    filter knows that it is of another key. *)
Definition answers (l : list entry) (k : bytes) (found : option entry) : Prop :=
  let first := List.find (fun e => 0 <=? Compare e.1 k) l in
  found = first \/
  found = None /\ filter_policy opt <> None /\ forall e, first = Some e -> ~ same k e.1.

Lemma InternalGet_ok ro cc k : cache_sound t done cc ->
  exists found cc', InternalGet mapped cmp t ro cc k = Some (OK, found, cc') /\
    answers (entries done) k found /\ cache_sound t done cc' /\ (cc = None -> cc' = None).
Proof.
  intros Hcs. destruct (op_index _ _ t_opened) as (ixs & Hr & Ei & _).
  pose proof (index_sorted c done layout_stored entries_sorted) as Hs.
  pose proof (open_block _ _ Hr Hs (index_size_fits _ _ _ layout_stored
    ltac:(pose proof layout_size; lia) entries_fit Hr)) as Hopen.
  unfold InternalGet, table_block_iterator. rewrite Ei.
  destruct (block_Seek _ _ _ k Hopen) as (iit & -> & Hat).
  cbn [mbind option_bind]. set (j := seek_index k (index_entries done)) in *.
  pose proof (find_entry c done layout_stored layout_ordered layout_size entries_sorted k) as Hfind.
  cbv zeta in Hfind. fold j in Hfind.
  pose proof (at_status (IteratorOk := block_iterator_ok) _ _ _ Hat) as Hst.
  destruct (done !! j) as [[blk h]|] eqn:Ej.
  - assert (El : index_entries done !! j = Some (last_key_of blk, handle_bytes h)) by (apply index_lookup; eauto).
    destruct (at_entry (IteratorOk := block_iterator_ok) _ _ _ _ Hat El) as (-> & _ & ->). cbn [snd].
    assert (Hh : handle_fits h) by (by eapply opened_handle_fits).
    rewrite <- (app_nil_r (handle_bytes h)), (BlockHandle_decode _ _ _ Hh), app_nil_r. cbn [ok andb].
    destruct Hfind as (e & He & Ef). rewrite Hst.
    destruct (match filter t with Some (p, r) => negb (Reader_KeyMayMatch p r (handle_offset h) k) | None => false end) eqn:Erej.
    + do 2 eexists. split; [reflexivity|]. split; [|done]. right. rewrite Ef.
      destruct (filter t) as [[p r]|] eqn:Eflt; [|done]. split; [done|]. split.
      * intros En. pose proof (op_filter _ _ t_opened) as Ho. unfold filter_opened in Ho. rewrite En in Ho. congruence.
      * intros e' [= <-] Hsame. apply negb_true_iff in Erej.
        rewrite (filter_passes p r j blk h k e Eflt Ej) in Erej; [done|by eapply list_elem_of_lookup_2|done].
    + destruct (BlockReader_ok ro cc j blk h Ej Hcs) as (it & cc' & -> & Hb & Hcs' & Hn).
      destruct (block_Seek _ _ _ k Hb) as (it' & -> & Hat').
      cbn [mbind option_bind].
      destruct (at_entry (IteratorOk := block_iterator_ok) _ _ _ _ Hat' He) as (-> & -> & ->).
      rewrite (at_status (IteratorOk := block_iterator_ok) _ _ _ Hat'). cbn [ok].
      do 2 eexists. split; [reflexivity|]. split; [|done]. left. rewrite Ef. by destruct e.
  - apply lookup_ge_None in Ej. pose proof (at_pos_le (IteratorOk := block_iterator_ok) _ _ _ Hat) as Hle.
    assert (Hlen : length (index_entries done) = length done) by (unfold index_entries; apply length_map).
    assert (Ejl : j = length (index_entries done)) by lia. rewrite Ejl in Hat.
    rewrite (at_end (IteratorOk := block_iterator_ok) _ _ Hat), Hst.
    do 2 eexists. split; [reflexivity|]. split; [|done]. left. by rewrite Hfind.
Qed.
End Opened.
End Reading.

(** * Tables give back what they were built from *)

(** Lookups one after the other, through one cache. *)
Fixpoint get_all {F C : Type} `{RandomAccessFile F} `{Checksum} `{Snappy} `{BlockCache C}
    (mapped : F -> bool) (cmp : Comparator) (t : Table F) (ro : ReadOptions) (cc : option C)
    (ks : list bytes) : option (list (Status * option entry)) :=
  match ks with
  | [] => Some []
  | k :: ks' =>
      '(s, found, cc) ← InternalGet mapped cmp t ro cc k;
      rest ← get_all mapped cmp t ro cc ks';
      Some ((s, found) :: rest)
  end.

Section Tables.
Context {F G C : Type} `{WritableFileOk F} `{RandomAccessFileOk G} `{Checksum} `{SnappyOk} `{BlockCacheOk C}.
Context {cmp : Comparator} {cmp_ok : ComparatorOk}.
Context (mapped : G -> bool) (opt : TableOptions) (same : bytes -> bytes -> Prop).

(** Building a table of the entries [l] in an empty file. *)
Definition build (l : list entry) (f : F) : Status * Rep F :=
  TableBuilder_Finish (add_all l (newTableBuilder opt f)).

(** The entries and the options of a table that can be built. *)
Definition buildable (l : list entry) (f : F) : Prop :=
  1 <= block_restart_interval opt /\ wcontents f = [] /\ StronglySorted entry_lt l /\ table_fits l /\
  name_fits opt /\ filter_small (add_all l (newTableBuilder opt f)).

Lemma build_opens l f g id : buildable l f ->
  exists r, build l f = (OK, r) /\
    (rcontents g = wcontents (file r) ->
     exists t done, Open mapped opt g (FileSize r) id = Some (OK, Some t) /\ opened opt t done /\
       entries done = l).
Proof.
  intros (Hint & Hf & Hs & Hfit & Hname & Hsmall). unfold build.
  destruct (newTableBuilder_ok opt f Hf) as (fops & Hi).
  destruct (add_all_ok opt Hint l _ _ _ _ Hi) as (dn & cur & fops' & Hi' & Hp & E); [done|done|].
  simpl in E. rewrite <- E in Hfit.
  destruct (Finish_ok opt Hint _ _ _ _ Hi' Hp Hfit Hname Hsmall) as (r & done' & -> & Ee & Hl & Hsz).
  exists r. split; [done|]. intros Hg. fold (contents_of r) in Hg. rewrite <- Hg in *.
  destruct (Open_ok mapped opt g done' id Hl) as (t & Ho & Hop & _); [by rewrite Ee|done|].
  exists t, done'. rewrite Hsz. split; [done|]. split; [done|]. congruence.
Qed.

(** A cache without blocks. *)
Definition no_blocks (cc : option C) : Prop :=
  match cc with Some c => forall k, cache_Lookup c k = None | None => True end.

(** C29: lookups find what was added.  Build a table from entries with increasing
    keys, at any block size, restart interval, compression and filter policy;
    reopen the file: any sequence of lookups, with or without a block cache,
    succeeds, and each answers with the first entry at or after its key.  Only a
    filter may suppress the answer, and only when the entry is of another key. *)
Theorem table_lookup_correct (l : list entry) (f : F) (g : G) (id : Z) (ro : ReadOptions)
    (cc : option C) (ks : list bytes) :
  buildable l f -> no_blocks cc ->
  (forall name p k k' x, filter_policy opt = Some (name, p) -> same k k' ->
     @KeyMayMatch p k x = @KeyMayMatch p k' x) ->
  (forall name p, filter_policy opt = Some (name, p) ->
     exists Hok : @FilterPolicyOk p, forall ks, blen ks <= 1 + 2 * blen l -> @filter_fits p Hok ks) ->
  exists r, build l f = (OK, r) /\
    (rcontents g = wcontents (file r) ->
     exists t found, Open mapped opt g (FileSize r) id = Some (OK, Some t) /\
       get_all mapped cmp t ro cc ks = Some (map (pair OK) found) /\
       Forall2 (answers opt same l) ks found).
Proof.
  intros Hb Hcc Hsame Hpol. destruct (build_opens l f g id Hb) as (r & Er & Hopen).
  exists r. split; [done|]. intros Hg. destruct (Hopen Hg) as (t & done & Et & Hop & El).
  pose proof Hb as (_ & _ & Hs & Hfit & _). rewrite <- El in Hs, Hfit, Hpol |- *. exists t.
  assert (Hcs : cache_sound t done cc).
  { destruct cc as [c|]; [|done]. intros j blk h b _ Hl. simpl in Hcc. rewrite Hcc in Hl. done. }
  clear Hcc Hopen. revert cc Hcs. induction ks as [|k ks IH]; intros cc Hcs; [exists []; eauto|].
  destruct (InternalGet_ok mapped opt t done Hop Hfit Hs same Hsame Hpol ro cc k Hcs)
    as (x & cc' & E & Hans & Hcs' & _).
  destruct (IH cc' Hcs') as (found & _ & Ef & Hf). exists (x :: found). split; [done|].
  split; [|by constructor]. cbn [get_all]. rewrite E. cbn [mbind option_bind]. by rewrite Ef.
Qed.

(** The iterator over a table walks its entries.  Any walk over the reopened
    table shows what the same walk shows on the list of entries, when the bound
    on the number of blocks skipped in one step is above the number of
    entries. *)
Theorem table_iterator_refines (l : list entry) (f : F) (g : G) (id : Z) (ro : ReadOptions) (fuel : nat) :
  buildable l f -> (length l < fuel)%nat ->
  exists r, build l f = (OK, r) /\
    (rcontents g = wcontents (file r) ->
     exists t, Open mapped opt g (FileSize r) id = Some (OK, Some t) /\
       forall ops tr, list_trace cmp l (length l) ops = Some tr ->
         iter_trace (H := TwoLevelIterator_iterator (Iterator0 := block_iterator cmp)
             (Iterator1 := block_iterator cmp) (table_block_function mapped t ro (None (A := C))) fuel)
           (Table_NewIterator cmp t) ops = Some tr).
Proof.
  intros Hb Hfuel. destruct (build_opens l f g id Hb) as (r & Er & Hopen).
  exists r. split; [done|]. intros Hg. destruct (Hopen Hg) as (t & done & Et & Hop & El).
  pose proof Hb as (_ & _ & Hs & Hfit & _). rewrite <- El in *. exists t. split; [done|].
  pose proof (layout_stored opt t done Hop) as Hst. pose proof (layout_ordered opt t done Hop) as Hord.
  pose proof (layout_size opt t done Hop) as Hsz.
  destruct (op_index _ _ _ Hop) as (ixs & Hr & Ei & _).
  pose proof (open_block _ _ Hr (index_sorted _ _ Hst Hs)
    (index_size_fits _ _ _ Hst ltac:(lia) Hfit Hr)) as Hidx.
  intros ops tr Htr. rewrite <- (all_entries_done _ _ Hst Hord Hsz) in Htr.
  pose proof (stored_entries _ _ Hst) as Hn.
  assert (Hlen : length (index_entries done) = length done) by (unfold index_entries; apply length_map).
  unfold Table_NewIterator. rewrite Ei.
  eapply (iter_trace_ok (IteratorOk0 := TwoLevel_ok (IteratorOk0 := block_iterator_ok)
    (IteratorOk1 := block_iterator_ok) _ fuel (index_entries done) (block_of done) _ _ _ _));
    [|exact Htr].
  eapply NewTwoLevelIterator_at. exact Hidx.
  Unshelve.
  - intros j k hb (blk & h & Hj & -> & ->)%index_lookup.
    rewrite (block_of_handle _ _ Hst Hord Hsz _ _ _ Hj). exists (length blk). unfold table_block_function.
    destruct (BlockReader_ok mapped opt t done Hop Hfit Hs ro None j blk h Hj I) as (it & cc' & -> & Ha & _).
    exact Ha.
  - exact (index_key_bound _ _ Hst Hord Hsz Hs).
  - exact (index_key_separates _ _ Hst Hord Hsz Hs).
  - rewrite Hlen. unfold blen in Hn. lia.
Qed.
End Tables.

(** A cache that keeps everything. *)
Definition assoc_cache : Type := list (bytes * Block).

#[export] Instance assoc_block_cache : BlockCache assoc_cache := {|
  cache_Lookup c k := snd <$> List.find (fun p => slice_eqb p.1 k) c;
  cache_Insert c k b _ := (k, b) :: c |}.

#[export] Instance assoc_block_cache_ok : BlockCacheOk assoc_cache.
Proof.
  constructor. intros c k b n k' b'. simpl. destruct (slice_eqb k k') eqn:E; simpl; [|by right].
  apply slice_eqb_spec in E as ->. intros [= <-]. by left.
Qed.

Definition demo_options : TableOptions :=
  mkTableOptions 30 2 kSnappyCompression (Some (str "bloom", NewBloomFilterPolicy 10)) true.
Definition demo_entries : list entry :=
  [(str "a", str "1"); (str "b", str "2"); (str "c", str "3"); (str "d", str "4"); (str "e", str "5")].

Lemma demo_buildable : @buildable flat_file _ _ (crc32c_checksum 0) no_snappy BytewiseComparator
  demo_options demo_entries [].
Proof.
  split; [simpl; lia|]. split; [done|]. split; [|split; [vm_compute; reflexivity|split; [vm_compute; reflexivity|]]].
  - repeat (apply SSorted_cons; [|repeat (apply Forall_cons; split; [reflexivity|]); apply Forall_nil_2]).
    apply SSorted_nil.
  - vm_compute. reflexivity.
Defined.

Lemma table_lookup_correct_witness :
  let B := @build flat_file _ (crc32c_checksum 0) no_snappy demo_options demo_entries [] in
  let g : flat_file := file (snd B) in
  exists r, B = (OK, r) /\
    exists t found, @Open flat_file _ (crc32c_checksum 0) no_snappy (fun _ => false) demo_options g (FileSize r) 7 =
      Some (OK, Some t) /\
      @get_all flat_file assoc_cache _ (crc32c_checksum 0) no_snappy _ (fun _ => false) BytewiseComparator t
        newReadOptions (Some []) [str "c"; str "cc"; str "d"; str "z"] = Some (map (pair OK) found) /\
      Forall2 (answers (cmp := BytewiseComparator) demo_options eq demo_entries)
        [str "c"; str "cc"; str "d"; str "z"] found.
Proof.
  intros B g.
  destruct (@table_lookup_correct flat_file flat_file assoc_cache _ _ _ _ (crc32c_checksum 0) no_snappy _ _ _
    BytewiseComparator BytewiseComparator_ok (fun _ => false) demo_options eq demo_entries [] g 7
    newReadOptions (Some []) [str "c"; str "cc"; str "d"; str "z"]) as (r & E & Hx).
  - exact demo_buildable.
  - done.
  - intros name p k k' x _ ->. done.
  - intros name p [= _ <-]. exists (Bloom_ok 10 ltac:(lia)). intros ks Hks. simpl.
    change (blen demo_entries) with 5 in Hks. lia.
  - exists r. split; [exact E|]. apply Hx. unfold g, B. rewrite E. reflexivity.
Defined.

Lemma table_iterator_refines_witness :
  let B := @build flat_file _ (crc32c_checksum 0) no_snappy demo_options demo_entries [] in
  let g : flat_file := file (snd B) in
  exists r, B = (OK, r) /\
    exists t, @Open flat_file _ (crc32c_checksum 0) no_snappy (fun _ => false) demo_options g (FileSize r) 7 =
      Some (OK, Some t) /\
      iter_trace (H := TwoLevelIterator_iterator (Iterator0 := block_iterator BytewiseComparator)
          (Iterator1 := block_iterator BytewiseComparator)
          (@table_block_function flat_file assoc_cache _ (crc32c_checksum 0) no_snappy _ (fun _ => false) t
             newReadOptions None) 6)
        (Table_NewIterator BytewiseComparator t) [OpSeek (str "bb"); OpPrev; OpSeekToLast; OpNext] =
      Some [Some (str "c", str "3"); Some (str "b", str "2"); Some (str "e", str "5"); None].
Proof.
  intros B g.
  destruct (@table_iterator_refines flat_file flat_file assoc_cache _ _ _ _ (crc32c_checksum 0) no_snappy _ _ _
    BytewiseComparator BytewiseComparator_ok (fun _ => false) demo_options demo_entries [] g 7
    newReadOptions 6) as (r & E & Hx).
  - exact demo_buildable.
  - simpl. lia.
  - exists r. split; [exact E|]. destruct Hx as (t & Et & Ht); [unfold g, B; rewrite E; reflexivity|].
    exists t. split; [exact Et|]. apply Ht. vm_compute. reflexivity.
Defined.
