(* ===== verification/CompactionWork.v ===== *)
(** db/db_impl.cc, [DoCompactionWork] and the operations it is made of: the merge
    of the inputs of a compaction is walked once, entries that no reader can
    need are dropped, and the others go to new tables of the next level.

    The environment appears as parameters: creating and closing a file, the
    check that a table can be opened, the flag that stops the work.  The
    memtable compactions that the loop may run in between change neither the
    compaction nor its input, apart from the file numbers handed out, so a
    number is a function of how many outputs there are.  The queue of files to
    be learned and the statistics are not modelled. *)

From stdpp Require Import base list sorting strings.
From S2P Require Import Prelude Status Coding Crc32c Env Comparator Logging DbFormat VersionEdit Version Iterator Format Block Bloom FilterBlock TableBuilder Filename Compaction.

#[local] Open Scope Z_scope.

(** * What is dropped *)

(** [current_user_key] with [has_current_user_key], [last_sequence_for_key]. *)
Record DropState := mkDropState { current_user_key : option bytes; last_sequence_for_key : Z }.

Definition newDropState : DropState := mkDropState None kMaxSequenceNumber.

Section Drop.
Context (user_comparator_ : Comparator) (smallest_snapshot : Z).
#[local] Abbreviation ucmp := (@Compare user_comparator_).

(** The first occurrence of a user key. *)
Definition enter_key (d : DropState) (u : bytes) : DropState :=
  match current_user_key d with
  | Some u0 => if ucmp u u0 =? 0 then d else mkDropState (Some u) kMaxSequenceNumber
  | None => mkDropState (Some u) kMaxSequenceNumber
  end.

(** Whether the entry is dropped; [None] when the inputs were released. *)
Definition drop_entry (d : DropState) (c : Compaction) (key : bytes)
  : option (bool * DropState * Compaction) :=
  match ParseInternalKey key with
  | None => Some (false, newDropState, c)
  | Some ikey =>
      let d := enter_key d (user_key ikey) in
      '(drop, c) ←
        (if last_sequence_for_key d <=? smallest_snapshot then Some (true, c)
         else if bool_decide (type ikey = kTypeDeletion) && (sequence ikey <=? smallest_snapshot)
         then IsBaseLevelForKey user_comparator_ c (user_key ikey)
         else Some (false, c));
      Some (drop, mkDropState (current_user_key d) (sequence ikey), c)
  end.
End Drop.

(** * The state of the work *)

(** [struct Output] *)
Record Output := mkOutput {
  out_number : Z;
  out_file_size : Z;
  out_smallest : bytes;
  out_largest : bytes;
}.

Section Work.
Context {F : Type} `{!WritableFile F} `{!Checksum} `{!Snappy} {I : Type} `{!Iterator I}.
Context (user_comparator_ : Comparator) (max_file_size : Z) (options : TableOptions) (dbname_ : bytes).
Context (NewFileNumber : nat -> Z) (NewWritableFile : bytes -> Status * F) (Close : F -> Status * F)
  (table_status : Z -> Z -> Status) (shutting_down : nat -> bool).

(** [outfile] is the file inside the builder; [written] are the files that the
    environment keeps, in the order in which they were closed. *)
Record CompactionState := mkCompactionState {
  compaction : Compaction;
  smallest_snapshot : Z;
  outputs : list Output;
  builder : option (Rep F);
  total_bytes : Z;
  written : list F;
}.

Definition newCompactionState (c : Compaction) (snapshot : Z) : CompactionState :=
  mkCompactionState c snapshot [] None 0 [].

Definition with_compaction (st : CompactionState) (c : Compaction) : CompactionState :=
  mkCompactionState c (smallest_snapshot st) (outputs st) (builder st) (total_bytes st) (written st).

(** [*current_output()] is changed. *)
Definition on_output (f : Output -> Output) (st : CompactionState) : CompactionState :=
  mkCompactionState (compaction st) (smallest_snapshot st)
    (match last (outputs st) with
     | Some o => removelast (outputs st) ++ [f o]
     | None => outputs st
     end) (builder st) (total_bytes st) (written st).

Definition with_builder (st : CompactionState) (b : option (Rep F)) : CompactionState :=
  mkCompactionState (compaction st) (smallest_snapshot st) (outputs st) b (total_bytes st) (written st).

Definition OpenCompactionOutputFile (st : CompactionState) : Status * CompactionState :=
  let file_number := NewFileNumber (length (outputs st)) in
  let st := mkCompactionState (compaction st) (smallest_snapshot st)
    (outputs st ++ [mkOutput file_number 0 [] []]) (builder st) (total_bytes st) (written st) in
  let '(s, f) := NewWritableFile (TableFileName dbname_ file_number) in
  (s, if ok s then with_builder st (Some (newTableBuilder options f)) else st).

(** [None]: there is no builder.  [input_status] is [input->status()]. *)
Definition FinishCompactionOutputFile (st : CompactionState) (input_status : Status)
  : option (Status * CompactionState) :=
  b ← builder st;
  o ← last (outputs st);
  let current_entries := NumEntries b in
  let '(s, b) := if ok input_status then TableBuilder_Finish b else (input_status, Abandon b) in
  let current_bytes := FileSize b in
  let st := on_output (fun o => mkOutput (out_number o) current_bytes (out_smallest o) (out_largest o)) st in
  let '(s, f) := if ok s then wSync (file b) else (s, file b) in
  let '(s, f) := if ok s then Close f else (s, f) in
  let st := mkCompactionState (compaction st) (smallest_snapshot st) (outputs st) None
    (total_bytes st + current_bytes) (written st ++ [f]) in
  let s := if ok s && (0 <? current_entries) then table_status (out_number o) current_bytes else s in
  Some (s, st).

(** The entry goes to the open output; a big enough output is closed. *)
Definition add_entry (st : CompactionState) (key value : bytes) (input_status : Status)
  : option (Status * CompactionState) :=
  b ← builder st;
  let st := if NumEntries b =? 0
    then on_output (fun o => mkOutput (out_number o) (out_file_size o) key (out_largest o)) st else st in
  let st := on_output (fun o => mkOutput (out_number o) (out_file_size o) (out_smallest o) key) st in
  let b := TableBuilder_Add b key value in
  let st := with_builder st (Some b) in
  if max_output_file_size_ (compaction st) <=? FileSize b
  then FinishCompactionOutputFile st input_status
  else Some (OK, st).

(** The part of the loop body for an entry that is kept. *)
Definition keep_entry (st : CompactionState) (key value : bytes) (input_status : Status)
  : option (Status * CompactionState) :=
  let '(s, st) := match builder st with
    | None => OpenCompactionOutputFile st
    | Some _ => (OK, st)
    end in
  if negb (ok s) then Some (s, st) else add_entry st key value input_status.

(** One round: the status (not [OK]: the loop breaks) and the state. *)
Definition work_step (input : I) (st : CompactionState) (d : DropState)
  : option (Status * CompactionState * DropState) :=
  let key := key input in
  let '(stop, c) := ShouldStopBefore user_comparator_ max_file_size (compaction st) key in
  let st := with_compaction st c in
  '(s, st) ←
    (match builder st with
     | Some _ => if stop then FinishCompactionOutputFile st (status input) else Some (OK, st)
     | None => Some (OK, st)
     end);
  if negb (ok s) then Some (s, st, d)
  else
    '(drop, d, c) ← drop_entry user_comparator_ (smallest_snapshot st) d (compaction st) key;
    let st := with_compaction st c in
    if (drop : bool) then Some (OK, st, d)
    else
      '(s, st) ← keep_entry st key (value input) (status input);
      Some (s, st, d).

(** The loop; the fuel counts its rounds, and [None] is also undefined behaviour
    of the input iterator. *)
Fixpoint work_loop (fuel : nat) (round : nat) (input : I) (st : CompactionState) (d : DropState)
  : option (Status * CompactionState * I) :=
  match fuel with
  | O => None
  | S fuel' =>
      if Valid input && negb (shutting_down round) then
        '(s, st, d) ← work_step input st d;
        if negb (ok s) then Some (s, st, input)
        else input ← Next input; work_loop fuel' (S round) input st d
      else
        Some (if shutting_down round then IOError (str "Deleting DB during compaction") [] else OK,
              st, input)
  end.

(** [DoCompactionWork] up to the installation of the results. *)
Definition DoCompactionWork (fuel : nat) (input : I) (st : CompactionState)
  : option (Status * CompactionState) :=
  input ← SeekToFirst input;
  '(s, st, input) ← work_loop fuel 0 input st newDropState;
  '(s, st) ←
    (match builder st with
     | Some _ => if ok s then FinishCompactionOutputFile st (status input) else Some (s, st)
     | None => Some (s, st)
     end);
  Some (if ok s then status input else s, st).

(** The edit that [InstallCompactionResults] applies. *)
Definition InstallCompactionResults (st : CompactionState) : VersionEdit :=
  let c := compaction st in
  let e := AddInputDeletions c (edit_ c) in
  fold_left (fun e o => AddFile e (Z.of_nat (level_ c) + 1) (out_number o) (out_file_size o)
                          (out_smallest o) (out_largest o)) (outputs st) e.
End Work.
Arguments CompactionState F : clear implicits.
