(* ===== verification/CompactionDrop.v ===== *)
(** The rule by which [DoCompactionWork] drops entries (CompactionWork) loses no
    data: every read at a snapshot that still exists, of any user key, returns
    after the compaction what it returned before. *)

From stdpp Require Import base list sorting strings.
From S2P Require Import Prelude Status Coding Comparator Logging DbFormat VersionEdit Version Compaction CompactionProofs CompactionWork.

#[local] Open Scope Z_scope.

(** * Reading a sorted run of entries *)

Section Drop.
Context (user_comparator_ : Comparator) {cmp_ok : @ComparatorOk user_comparator_}.
#[local] Abbreviation icmp := (InternalKey_Compare user_comparator_).
#[local] Abbreviation ucmp := (@Compare user_comparator_).

Definition key_lt (e e' : bytes * bytes) : Prop := icmp e.1 e'.1 < 0.
Definition parses (e : bytes * bytes) : Prop := is_Some (ParseInternalKey e.1).

(** The entry is one of the user key and visible at the snapshot. *)
Definition visible (u : bytes) (s : Z) (e : bytes * bytes) : bool :=
  match ParseInternalKey e.1 with
  | Some k => (ucmp (user_key k) u =? 0) && (sequence k <=? s)
  | None => false
  end.

(** The value of the user key at the snapshot: the first visible entry decides
    (entries of a user key come newest first); without one the levels below do. *)
Definition read (u : bytes) (s : Z) (l : list (bytes * bytes)) (below : option bytes)
  : option bytes :=
  match List.find (visible u s) l with
  | Some e =>
      match ParseInternalKey e.1 with
      | Some k => match type k with kTypeDeletion => None | kTypeValue => Some e.2 end
      | None => None
      end
  | None => below
  end.

Lemma find_sublist_none {A} (P : A -> bool) l r :
  r `sublist_of` l -> (forall x, x ∈ l -> P x = false) -> List.find P r = None.
Proof.
  intros Hs Hl. destruct (List.find P r) as [x|] eqn:E; [|done]. apply find_some in E as [Hx HP].
  apply list_elem_of_In, (sublist_subseteq _ _ Hs), Hl in Hx. congruence.
Qed.

Lemma parse_parts key k : ParseInternalKey key = Some k ->
  ExtractUserKey key = user_key k /\ ExtractTag key / 256 = sequence k.
Proof.
  intros [-> ->]%ParseInternalKey_parts. split; [done|]. pose proof (vt_num_range (type k)).
  rewrite Z.div_add_l, Z.div_small by lia. lia.
Qed.

(** Later entries have larger user keys, or the same and no larger sequence
    numbers. *)
Lemma sorted_parts e e' k k' : key_lt e e' ->
  ParseInternalKey e.1 = Some k -> ParseInternalKey e'.1 = Some k' ->
  ucmp (user_key k) (user_key k') < 0 \/
  (ucmp (user_key k) (user_key k') = 0 /\ sequence k' <= sequence k).
Proof.
  intros Hlt Hk Hk'. apply parse_parts in Hk as [Hu Hs], Hk' as [Hu' Hs'].
  unfold key_lt in Hlt. rewrite icmp_lt, Hu, Hu' in Hlt. destruct Hlt as [|[Hx Ht]]; [by left|right].
  split; [done|]. rewrite <- Hs, <- Hs'. apply Z.div_le_mono; lia.
Qed.

(** * The entries that are kept *)

Context (snap : Z).

Fixpoint kept (d : DropState) (c : Compaction) (l : list (bytes * bytes))
  : option (list (bytes * bytes) * DropState * Compaction) :=
  match l with
  | [] => Some ([], d, c)
  | e :: l' =>
      '(dropped, d, c) ← drop_entry user_comparator_ snap d c e.1;
      '(r, d, c) ← kept d c l';
      Some (if (dropped : bool) then r else e :: r, d, c)
  end.

(** Entries of the user key that follow are hidden by a newer one. *)
Definition hidden (d : DropState) (u : bytes) : Prop :=
  last_sequence_for_key d <= snap /\
  exists u0, current_user_key d = Some u0 /\ ucmp u u0 = 0.

(** What the state of the loop says about the entries that follow. *)
Record drop_inv (d : DropState) (l : list (bytes * bytes)) : Prop := {
  di_none : current_user_key d = None -> last_sequence_for_key d = kMaxSequenceNumber;
  di_some : forall u0 e k, current_user_key d = Some u0 -> e ∈ l -> ParseInternalKey e.1 = Some k ->
    ucmp u0 (user_key k) < 0 \/ (ucmp u0 (user_key k) = 0 /\ sequence k <= last_sequence_for_key d);
}.

(** The state after an entry. *)
Definition after (d : DropState) (k : ParsedInternalKey) : DropState :=
  mkDropState (current_user_key (enter_key user_comparator_ d (user_key k))) (sequence k).

Lemma enter_key_current d u : exists u0,
  current_user_key (enter_key user_comparator_ d u) = Some u0 /\ ucmp u u0 = 0.
Proof.
  unfold enter_key. destruct (current_user_key d) as [u0|] eqn:E.
  - destruct (Z.eqb_spec (ucmp u u0) 0); [by exists u0|]. exists u. by rewrite cmp_refl.
  - exists u. by rewrite cmp_refl.
Qed.

Lemma after_inv d k e l : StronglySorted key_lt (e :: l) -> ParseInternalKey e.1 = Some k ->
  drop_inv (after d k) l.
Proof.
  intros Hs Hk. inversion Hs as [|?? _ He]; subst. rewrite Forall_forall in He.
  destruct (enter_key_current d (user_key k)) as (u0 & Eu & Hu0). unfold after. split; simpl.
  - congruence.
  - rewrite Eu. intros u1 e' k' [= <-] He' Hk'. apply cmp_eq_sym in Hu0.
    destruct (sorted_parts e e' k k' (He _ He') Hk Hk') as [Hlt|[Heq Hle]].
    + left. eapply cmp_le_lt_trans; [|exact Hlt]. lia.
    + right. split; [by eapply cmp_eq_trans|done].
Qed.

(** After an entry that is at or below the smallest snapshot its user key is
    hidden, and no other. *)
Lemma after_hidden d k u : hidden (after d k) u <->
  sequence k <= snap /\ ucmp u (user_key k) = 0.
Proof.
  destruct (enter_key_current d (user_key k)) as (u0 & Eu & Hu0). unfold hidden, after. simpl. rewrite Eu.
  split.
  - intros (Hs & u1 & [= <-] & Hu). split; [done|]. eapply cmp_eq_trans; [exact Hu|by apply cmp_eq_sym].
  - intros [Hs Hu]. split; [done|]. exists u0. split; [done|]. by eapply cmp_eq_trans.
Qed.

(** Rule (A) applies exactly to hidden keys. *)
Lemma enter_hidden d k e l : snap < kMaxSequenceNumber -> drop_inv d (e :: l) ->
  ParseInternalKey e.1 = Some k ->
  (last_sequence_for_key (enter_key user_comparator_ d (user_key k)) <=? snap) = true <->
  hidden d (user_key k).
Proof.
  intros Hm Hi Hk. rewrite Z.leb_le. unfold enter_key, hidden.
  destruct (current_user_key d) as [u0|] eqn:Eu.
  - destruct (Z.eqb_spec (ucmp (user_key k) u0) 0) as [E|E]; simpl.
    + split; [eauto|by intros [? _]].
    + split; [lia|]. intros (_ & u1 & [= <-] & ?). done.
  - simpl. split; [lia|]. intros (_ & u1 & ? & _). done.
Qed.

Lemma visible_parse u s e k : ParseInternalKey e.1 = Some k ->
  visible u s e = (ucmp (user_key k) u =? 0) && (sequence k <=? s).
Proof. intros E. unfold visible. by rewrite E. Qed.

Lemma read_skip u s e l below : visible u s e = false -> read u s (e :: l) below = read u s l below.
Proof. intros E. unfold read. simpl. by rewrite E. Qed.

(** A user key before the head of the run has no entry in it. *)
Lemma no_entry u s e k l r : StronglySorted key_lt (e :: l) -> Forall parses l ->
  ParseInternalKey e.1 = Some k -> ucmp u (user_key k) < 0 -> r `sublist_of` e :: l ->
  List.find (visible u s) r = None.
Proof.
  intros Hs Hp Hk Hu Hr. inversion Hs as [|?? _ He]; subst. rewrite Forall_forall in He, Hp.
  apply (find_sublist_none _ _ _ Hr). intros x. rewrite elem_of_cons. intros [->|Hx].
  - rewrite (visible_parse _ _ _ _ Hk). apply andb_false_iff. left. apply Z.eqb_neq.
    intros E. apply cmp_eq_sym in E. lia.
  - destruct (Hp x Hx) as [k' Hk']. rewrite (visible_parse _ _ _ _ Hk'). apply andb_false_iff. left.
    apply Z.eqb_neq. intros E. apply cmp_eq_sym in E.
    assert (ucmp u (user_key k') < 0); [|lia].
    eapply cmp_lt_le_trans; [exact Hu|].
    destruct (sorted_parts e x k k' (He x Hx) Hk Hk'); lia.
Qed.

Lemma deeper_has_eq v level u u' : ucmp u u' = 0 ->
  deeper_has user_comparator_ v level u = deeper_has user_comparator_ v level u'.
Proof.
  intros E. unfold deeper_has, level_has, in_range.
  assert (Hge : forall x, (0 <=? ucmp u x) = (0 <=? ucmp u' x)).
  { intros x. apply eq_true_iff_eq. rewrite !Z.leb_le, <- !cmp_flip_le. apply cmp_eq_sym in E as E'.
    split; intros Hx; (eapply cmp_le_trans; [exact Hx|]); lia. }
  assert (Hle : forall x, (ucmp u x <=? 0) = (ucmp u' x <=? 0)).
  { intros x. apply eq_true_iff_eq. rewrite !Z.leb_le. apply cmp_eq_sym in E as E'.
    split; intros Hx; (eapply cmp_le_trans; [|exact Hx]); lia. }
  induction (seq _ _) as [|lvl levels IH]; [done|]. cbn [existsb]. rewrite IH. f_equal.
  induction (level_files v lvl) as [|f files IHf]; [done|]. cbn [existsb]. by rewrite IHf, Hge, Hle.
Qed.

(** * One entry *)

(** The rule, as it is meant. *)
Definition may_drop (v : Version) (level : nat) (d : DropState) (k : ParsedInternalKey) : Prop :=
  hidden d (user_key k) \/
  (type k = kTypeDeletion /\ sequence k <= snap /\
   deeper_has user_comparator_ v level (user_key k) = false).

(** The pointers of the compaction have not passed the keys of [l]. *)
Definition pointers_ok (v : Version) (c : Compaction) (l : list (bytes * bytes)) : Prop :=
  forall e k, e ∈ l -> ParseInternalKey e.1 = Some k ->
    pointers_behind user_comparator_ v (user_key k) (level_ptrs_ c).

Lemma drop_entry_spec v d c e k l : levels_ok user_comparator_ v -> snap < kMaxSequenceNumber ->
  input_version_ c = Some v -> StronglySorted key_lt (e :: l) -> drop_inv d (e :: l) ->
  pointers_ok v c (e :: l) -> ParseInternalKey e.1 = Some k ->
  exists dropped ptrs,
    drop_entry user_comparator_ snap d c e.1 = Some (dropped, after d k, with_level_ptrs c ptrs) /\
    (dropped = true <-> may_drop v (level_ c) d k) /\ pointers_ok v (with_level_ptrs c ptrs) l.
Proof.
  intros Hv Hm Ev Hs Hi Hp Hk. unfold drop_entry. rewrite Hk.
  pose proof (enter_hidden d k e l Hm Hi Hk) as Hh.
  assert (Ec : c = with_level_ptrs c (level_ptrs_ c)) by by destruct c.
  assert (Hp0 : pointers_ok v (with_level_ptrs c (level_ptrs_ c)) l).
  { intros e' k' He'. apply (Hp e' k'). by right. }
  set (d' := enter_key user_comparator_ d (user_key k)) in *.
  destruct (last_sequence_for_key d' <=? snap) eqn:El.
  { exists true, (level_ptrs_ c). split; [cbn [mbind option_bind]; by rewrite <- Ec|]. split; [|done].
    split; [intros _; left; tauto|done]. }
  assert (Hnh : ~ hidden d (user_key k)) by (intros Hx; apply Hh in Hx; congruence).
  destruct (bool_decide (type k = kTypeDeletion) && (sequence k <=? snap)) eqn:Ed.
  - apply andb_true_iff in Ed as [Ht Hq]. apply bool_decide_eq_true in Ht. apply Z.leb_le in Hq.
    destruct (IsBaseLevelForKey_spec user_comparator_ v c (user_key k) Hv Ev (Hp e k ltac:(by left) Hk))
      as (ptrs & -> & Hp').
    cbn [mbind option_bind]. exists (negb (deeper_has user_comparator_ v (level_ c) (user_key k))), ptrs.
    split; [done|]. split.
    + rewrite negb_true_iff. unfold may_drop. tauto.
    + intros e' k' He' Hk'. inversion Hs as [|?? _ He]; subst. rewrite Forall_forall in He.
      refine (pointers_behind_mono user_comparator_ v (user_key k) (user_key k') ptrs _ Hp').
      destruct (sorted_parts e e' k k' (He e' He') Hk Hk'); lia.
  - exists false, (level_ptrs_ c). split; [cbn [mbind option_bind]; by rewrite <- Ec|]. split; [|done].
    split; [done|]. intros [Hx|(Ht & Hq & _)]; [done|]. apply andb_false_iff in Ed as [Ed|Ed].
    + by apply bool_decide_eq_false in Ed.
    + lia.
Qed.

Lemma no_visible u s e k : ParseInternalKey e.1 = Some k -> ucmp u (user_key k) <> 0 ->
  visible u s e = false.
Proof.
  intros Hk Hu. rewrite (visible_parse _ _ _ _ Hk). apply andb_false_iff. left. apply Z.eqb_neq.
  intros E. apply cmp_eq_sym in E. done.
Qed.

(** * The whole run *)

Lemma kept_ok v : levels_ok user_comparator_ v -> snap < kMaxSequenceNumber -> forall l d c,
  input_version_ c = Some v -> StronglySorted key_lt l -> Forall parses l -> drop_inv d l ->
  pointers_ok v c l ->
  exists r d' ptrs, kept d c l = Some (r, d', with_level_ptrs c ptrs) /\ r `sublist_of` l /\
    (forall u s, snap <= s -> hidden d u -> List.find (visible u s) r = None) /\
    (forall u s below, snap <= s -> ~ hidden d u ->
       (deeper_has user_comparator_ v (level_ c) u = false -> below = None) ->
       read u s r below = read u s l below).
Proof.
  intros Hv Hm. induction l as [|e l IH]; intros d c Ev Hs Hp Hi Hpt.
  { exists [], d, (level_ptrs_ c). split; [by destruct c|]. split; [constructor|]. done. }
  pose proof Hp as Hp'. apply Forall_cons in Hp' as [[k Hk] Hpl].
  destruct (drop_entry_spec v d c e k l Hv Hm Ev Hs Hi Hpt Hk) as (dropped & ptrs & E & Hd & Hpt').
  assert (Hsl : StronglySorted key_lt l) by (by inversion Hs).
  destruct (IH (after d k) (with_level_ptrs c ptrs) Ev Hsl Hpl (after_inv d k e l Hs Hk) Hpt')
    as (r & d' & ptrs' & Er & Hsub & Hhid & Hrd). change (level_ (with_level_ptrs c ptrs)) with (level_ c) in Hrd.
  exists (if dropped then r else e :: r), d', ptrs'. cbn [kept]. rewrite E. cbn [mbind option_bind].
  rewrite Er. cbn [mbind option_bind]. split; [done|]. split; [destruct dropped; by constructor|]. split.
  - (* hidden keys *)
    intros u s Hsn [Hlast (u0 & Eu & Hu)].
    destruct (di_some _ _ Hi u0 e k Eu ltac:(by left) Hk) as [Hlt|[Heq Hseq]].
    + apply (no_entry u s e k l _ Hs Hpl Hk).
      * eapply cmp_le_lt_trans; [|exact Hlt]. lia.
      * destruct dropped; by constructor.
    + assert (Huk : ucmp u (user_key k) = 0) by by eapply cmp_eq_trans.
      assert (dropped = true) as ->.
      { apply Hd. left. split; [done|]. exists u0. split; [done|]. by apply cmp_eq_sym. }
      apply Hhid; [done|]. apply after_hidden. split; [lia|done].
  - (* keys that may be read *)
    intros u s below Hsn Hnh Hb. destruct (Z.eq_dec (ucmp u (user_key k)) 0) as [Huk|Huk].
    + destruct dropped.
      * destruct (proj1 Hd eq_refl) as [Hx|(Ht & Hq & Hno)].
        { exfalso. apply Hnh. destruct Hx as (? & u0 & Eu & Hx). split; [done|]. exists u0. split; [done|].
          by eapply cmp_eq_trans. }
        assert (Hvis : visible u s e = true).
        { rewrite (visible_parse _ _ _ _ Hk). apply andb_true_iff. split; [apply Z.eqb_eq; by apply cmp_eq_sym|lia]. }
        unfold read. cbn [List.find]. rewrite Hvis, Hk, Ht.
        rewrite Hhid; [|done|by apply after_hidden]. apply Hb. by erewrite deeper_has_eq.
      * unfold read. cbn [List.find]. destruct (visible u s e) eqn:Hvis; [done|]. fold (read u s r below) (read u s l below).
        rewrite (visible_parse _ _ _ _ Hk) in Hvis. apply cmp_eq_sym in Huk. rewrite Huk in Hvis. simpl in Hvis.
        apply Hrd; [done| |done]. rewrite after_hidden. lia.
    + assert (Hvis : visible u s e = false) by by eapply no_visible.
      assert (Hr : read u s r below = read u s l below).
      { apply Hrd; [done| |done]. rewrite after_hidden. tauto. }
      destruct dropped; rewrite ?read_skip by done; done.
Qed.
End Drop.
