(* ===== verification/CompactionWorkProofs.v ===== *)
(** The loop of [DoCompactionWork] (CompactionWork): with an environment whose
    operations succeed it ends with success, and the tables it wrote hold, in
    order and without gaps, the entries that the drop rule keeps. *)

From stdpp Require Import base list sorting strings.
From S2P Require Import Prelude Status Coding Crc32c Env Comparator Logging DbFormat VersionEdit Version Iterator Format Block Bloom FilterBlock TableBuilder Filename Compaction CompactionProofs CompactionWork CompactionDrop.

#[local] Open Scope Z_scope.

(** * A table builder on a file that does not fail *)

Section Builder.
Context {F : Type} `{HF : WritableFileOk F} `{!Checksum} `{!Snappy}.

(** The status and the number of entries, which everything but [Add] keeps. *)
Definition fine (r : Rep F) (n : Z) : Prop := rep_status r = OK /\ num_entries r = n.

Lemma on_filter_fine f (r : Rep F) n : fine r n -> fine (on_filter f r) n.
Proof. unfold on_filter. by destruct (filter_block r) as [[p b]|]. Qed.

Lemma add_index_entry_fine (r : Rep F) n : fine r n -> fine (add_index_entry r) n.
Proof. unfold add_index_entry. by destruct (pending_index_entry r). Qed.

Lemma WriteRawBlock_fine (r : Rep F) n contents type : fine r n -> fine (WriteRawBlock r contents type).1 n.
Proof.
  intros [_ Hn]. unfold WriteRawBlock.
  destruct (wAppend_ok (file r) contents) as (f1 & -> & _). cbn [ok].
  destruct (wAppend_ok f1 (zb type :: EncodeFixed32 (Mask (crc32c_Extend (crc32c_Value contents) [zb type]))))
    as (f2 & -> & _). done.
Qed.

Lemma WriteBlock_fine (r : Rep F) n block : fine r n -> fine (WriteBlock r block).1.1 n.
Proof.
  intros Hr. unfold WriteBlock. destruct (BlockBuilder_Finish block) as [raw b].
  destruct (if _ =? _ then _ else _) as [contents type].
  pose proof (WriteRawBlock_fine r n contents type Hr) as Hw.
  by destruct (WriteRawBlock r contents type) as [r' h].
Qed.

Lemma Flush_fine (r : Rep F) n : fine r n -> fine (Flush r) n.
Proof.
  intros Hr. unfold Flush, builder_ok. destruct Hr as [Hs Hn]. rewrite Hs. cbn [negb ok].
  destruct (BlockBuilder_empty (data_block r)); [done|].
  pose proof (WriteBlock_fine r n (data_block r) (conj Hs Hn)) as [Hs1 Hn1].
  destruct (WriteBlock r (data_block r)) as [[r1 b] h]. cbn [fst] in Hs1, Hn1.
  apply on_filter_fine. cbn [rep_status with_pending with_data_block]. rewrite Hs1. cbn [ok].
  set (x := with_pending _ true _). destruct (wFlush_ok (file x)) as (f & -> & _). done.
Qed.

Lemma newTableBuilder_fine opt (f : F) : fine (newTableBuilder opt f) 0.
Proof. by apply on_filter_fine. Qed.

Lemma Add_fine (r : Rep F) n k v : fine r n -> fine (TableBuilder_Add r k v) (n + 1).
Proof.
  intros [Hs Hn]. unfold TableBuilder_Add, put_entry, builder_ok. rewrite Hs. cbn [negb ok].
  destruct (on_filter_fine (fun _ b => AddKey b k) _ n (add_index_entry_fine r n (conj Hs Hn))) as [Hs1 Hn1].
  set (r1 := on_filter _ _) in *.
  assert (Hr : forall b, fine (with_data_block (with_last_key r1 k (num_entries r1 + 1)) b) (n + 1)).
  { intros b. split; cbn; [done|by rewrite Hn1]. }
  destruct (_ <=? _); [apply Flush_fine|]; apply Hr.
Qed.

(** The builder after adding the entries of a run. *)
Definition add_all (b : Rep F) (g : list (bytes * bytes)) : Rep F :=
  fold_left (fun b e => TableBuilder_Add b e.1 e.2) g b.

Lemma add_all_fine g : forall (b : Rep F) n, fine b n -> fine (add_all b g) (n + blen g).
Proof.
  induction g as [|e g IH]; intros b n Hb; cbn [add_all fold_left].
  - by replace (n + blen (@nil (bytes * bytes))) with n by (unfold blen; simpl; lia).
  - replace (n + blen (e :: g)) with ((n + 1) + blen g) by (unfold blen; simpl; lia).
    by apply IH, Add_fine.
Qed.

Lemma Finish_fine (r : Rep F) n : fine r n -> exists r', TableBuilder_Finish r = (OK, r').
Proof.
  intros Hr. unfold TableBuilder_Finish. apply Flush_fine in Hr.
  assert (K1 : fine (with_closed (Flush r)) n) by done. set (r1 := with_closed (Flush r)) in *. clearbody r1.
  assert (K2 : fine (write_filter r1).1 n).
  { unfold write_filter, builder_ok. destruct (filter_block r1) as [[p b]|]; [|done].
    destruct K1 as [E1 N1]. rewrite E1. cbn [ok]. by apply WriteRawBlock_fine. }
  destruct (write_filter r1) as [r2 fh]. cbn [fst] in K2.
  assert (K3 : fine (write_metaindex r2 fh).1 n).
  { unfold write_metaindex, builder_ok. destruct K2 as [E2 N2]. rewrite E2. cbn [ok].
    match goal with |- context [WriteBlock r2 ?mb] =>
      pose proof (WriteBlock_fine r2 n mb (conj E2 N2)) as Hw; by destruct (WriteBlock r2 mb) as [[r3 b3] h3]
    end. }
  destruct (write_metaindex r2 fh) as [r3 mh]. cbn [fst] in K3.
  assert (K4 : fine (write_index r3).1 n).
  { unfold write_index, builder_ok. destruct K3 as [E3 N3]. rewrite E3. cbn [ok].
    pose proof (WriteBlock_fine _ n (index_block (add_index_entry r3)) (add_index_entry_fine r3 n (conj E3 N3))) as Hw.
    by destruct (WriteBlock (add_index_entry r3) _) as [[r4 b4] h4]. }
  destruct (write_index r3) as [r4 ih]. cbn [fst] in K4.
  unfold write_footer, builder_ok. destruct K4 as [E4 N4]. rewrite E4. cbn [ok].
  destruct (wAppend_ok (file r4) (Footer_EncodeTo (mkFooter mh ih) [])) as (f & -> & _).
  eexists. reflexivity.
Qed.
End Builder.

(** * The state of the work *)

Section Work.
Context {F : Type} `{HF : WritableFileOk F} `{!Checksum} `{!Snappy} {I : Type} `{!Iterator I} {cmp : Comparator} `{!IteratorOk I cmp}.
Context (user_comparator_ : Comparator) {cmp_ok : @ComparatorOk user_comparator_}.
Context (max_file_size : Z) (options : TableOptions) (dbname_ : bytes).
Context (NewFileNumber : nat -> Z) (NewWritableFile : bytes -> Status * F) (Close : F -> Status * F)
  (table_status : Z -> Z -> Status).

(** The environment does its part. *)
Definition env_ok : Prop :=
  (forall name, exists f, NewWritableFile name = (OK, f)) /\
  (forall f, exists f', Close f = (OK, f') /\ wcontents f' = wcontents f) /\
  (forall n size, table_status n size = OK).
Context (Henv : env_ok).

Definition opened (i : nat) (b : Rep F) : Prop :=
  exists f, NewWritableFile (TableFileName dbname_ (NewFileNumber i)) = (OK, f) /\
    b = newTableBuilder options f.

(** The bounds recorded for the run [g]. *)
Definition bounds (o : Output) (i : nat) (g : list (bytes * bytes)) : Prop :=
  out_number o = NewFileNumber i /\
  (fst <$> head g) = Some (out_smallest o) /\ (fst <$> last g) = Some (out_largest o).

(** Output [i] is a finished table with the run [g] in the file [f]. *)
Definition finished (i : nat) (o : Output) (f : F) (g : list (bytes * bytes)) : Prop :=
  bounds o i g /\
  exists b b', opened i b /\ TableBuilder_Finish (add_all b g) = (OK, b') /\
    out_file_size o = FileSize b' /\ wcontents f = wcontents (file b').

Definition tables (outs : list Output) (ws : list F) (gs : list (list (bytes * bytes))) : Prop :=
  length outs = length gs /\ length ws = length gs /\
  forall i o f g, outs !! i = Some o -> ws !! i = Some f -> gs !! i = Some g -> finished i o f g.

Lemma tables_snoc outs ws gs o f g : tables outs ws gs -> finished (length gs) o f g ->
  tables (outs ++ [o]) (ws ++ [f]) (gs ++ [g]).
Proof.
  intros (K1 & K2 & K3) Hf. split; [rewrite !length_app; simpl; lia|].
  split; [rewrite !length_app; simpl; lia|]. intros i o' f' g' Eo Ef Eg.
  apply lookup_app_Some in Eo as [Eo|[Ho Eo]].
  - pose proof (lookup_lt_Some _ _ _ Eo). rewrite lookup_app_l in Ef by lia. rewrite lookup_app_l in Eg by lia. by eapply K3.
  - apply list_lookup_singleton_Some in Eo as [Hz <-]. assert (i = length gs) as -> by lia.
    rewrite lookup_app_r in Ef by lia. rewrite lookup_app_r in Eg by lia. replace (length gs - length ws)%nat with 0%nat in Ef by lia.
    rewrite Nat.sub_diag in Eg. by injection Ef as <-; injection Eg as <-.
Qed.

(** The runs of the finished tables, and the run of the open one. *)
Definition work_inv (st : CompactionState F) (gs : list (list (bytes * bytes)))
    (cur : list (bytes * bytes)) : Prop :=
  exists outs, tables outs (written st) gs /\
    match builder st with
    | None => outputs st = outs /\ cur = []
    | Some b => exists o b0, outputs st = outs ++ [o] /\ bounds o (length gs) cur /\
        opened (length gs) b0 /\ b = add_all b0 cur
    end.

(** Neither the compaction nor the snapshot changes. *)
Definition same_job (st st' : CompactionState F) : Prop :=
  compaction st' = compaction st /\ smallest_snapshot st' = smallest_snapshot st.

Lemma same_job_trans st1 st2 st3 : same_job st1 st2 -> same_job st2 st3 -> same_job st1 st3.
Proof. intros [] []. split; congruence. Qed.

Lemma on_output_snoc f st outs o : outputs st = outs ++ [o] ->
  outputs (on_output (F := F) f st) = outs ++ [f o].
Proof. intros E. unfold on_output. simpl. by rewrite E, last_snoc, removelast_last. Qed.

Lemma Finish_inv st gs cur b : work_inv st gs cur -> builder st = Some b ->
  exists st', FinishCompactionOutputFile Close table_status st OK = Some (OK, st') /\
    work_inv st' (gs ++ [cur]) [] /\ builder st' = None /\ same_job st st'.
Proof.
  intros (outs & Ht & Hb) Eb. rewrite Eb in Hb. destruct Hb as (o & b0 & Eo & Hbd & Hop & Ec).
  unfold FinishCompactionOutputFile. rewrite Eb, Eo, last_snoc. cbn [mbind option_bind ok].
  destruct Henv as (_ & Hclose & Htab).
  assert (Hfine : exists n, fine b n).
  { destruct Hop as (f & _ & ->). rewrite Ec. eexists. apply add_all_fine, newTableBuilder_fine. }
  destruct Hfine as [n Hfine]. destruct (Finish_fine b n Hfine) as [b' Eb'].
  rewrite Eb'. cbn [ok].
  destruct (wSync_ok (file b')) as (f1 & -> & C1). cbn [ok].
  destruct (Hclose f1) as (f2 & -> & C2). cbn [ok andb].
  rewrite Htab. eexists. split; [by destruct (0 <? NumEntries b)|]. split; [|by repeat split].
  set (o' := mkOutput (out_number o) (FileSize b') (out_smallest o) (out_largest o)).
  exists (outs ++ [o']). cbn [written builder outputs]. split; [|split; [by erewrite on_output_snoc|done]].
  apply tables_snoc; [done|]. split; [done|]. exists b0, b'. rewrite <- Ec, C2, C1. done.
Qed.

Lemma bounds_snoc o i g k v : bounds o i g ->
  bounds (mkOutput (out_number o) (out_file_size o) (out_smallest o) k) i (g ++ [(k, v)]).
Proof.
  intros (K1 & K2 & K3). split; [done|]. split; [|by rewrite last_snoc].
  destruct g as [|e g]; [done|]. done.
Qed.

#[local] Abbreviation keep :=
  (keep_entry options dbname_ NewFileNumber NewWritableFile Close table_status).

(** The second half of [keep_entry]: a run, perhaps empty, gets an entry. *)
Lemma add_inv st gs cur k v outs o b0 : tables outs (written st) gs ->
  outputs st = outs ++ [o] -> out_number o = NewFileNumber (length gs) ->
  (cur <> [] -> bounds o (length gs) cur) -> opened (length gs) b0 -> builder st = Some (add_all b0 cur) ->
  exists st' gs' cur', add_entry Close table_status st k v OK = Some (OK, st') /\
    work_inv st' gs' cur' /\ concat gs' ++ cur' = (concat gs ++ cur) ++ [(k, v)] /\ same_job st st'.
Proof.
  intros Ht Eo En Hbd Hop Eb. unfold add_entry. rewrite Eb. cbn [mbind option_bind].
  set (o' := mkOutput (out_number o) (out_file_size o) (match cur with [] => k | _ => out_smallest o end) k).
  set (st1 := on_output _ (if NumEntries (add_all b0 cur) =? 0 then _ else _)).
  assert (E1 : outputs st1 = outs ++ [o'] /\ written st1 = written st /\ same_job st st1).
  { assert (Hn : NumEntries (add_all b0 cur) = blen cur).
    { destruct Hop as (f & _ & ->).
      destruct (add_all_fine cur _ _ (newTableBuilder_fine options f)) as [_ E]. exact E. }
    unfold st1. rewrite Hn. destruct cur as [|e cur].
    - change (blen [] =? 0) with true. cbv iota.
      split; [by erewrite on_output_snoc; [|by erewrite on_output_snoc]|done].
    - replace (blen (e :: cur) =? 0) with false by (unfold blen; simpl; lia). cbv iota.
      split; [by erewrite on_output_snoc|done]. }
  clearbody st1. destruct E1 as (E1 & W1 & J1). set (b := TableBuilder_Add (add_all b0 cur) k v).
  assert (Hinv : work_inv (with_builder st1 (Some b)) gs (cur ++ [(k, v)])).
  { exists outs. cbn [written builder with_builder outputs]. rewrite W1. split; [done|].
    exists o', b0. split; [done|]. split; [|split; [done|]].
    - destruct cur as [|e cur]; [done|]. by apply (bounds_snoc o), Hbd.
    - unfold b, add_all. by rewrite fold_left_app. }
  destruct (max_output_file_size_ _ <=? FileSize b).
  - destruct (Finish_inv _ _ _ b Hinv eq_refl) as (st' & E & Hi & _ & J').
    exists st', (gs ++ [cur ++ [(k, v)]]), []. split; [done|]. split; [done|]. split.
    + rewrite concat_app. simpl. by rewrite !app_nil_r, !app_assoc.
    + by eapply same_job_trans; [exact J1|].
  - eexists _, gs, (cur ++ [(k, v)]). split; [done|]. split; [done|]. split; [by rewrite app_assoc|done].
Qed.

Lemma keep_inv st gs cur k v : work_inv st gs cur ->
  exists st' gs' cur', keep st k v OK = Some (OK, st') /\
    work_inv st' gs' cur' /\ concat gs' ++ cur' = (concat gs ++ cur) ++ [(k, v)] /\ same_job st st'.
Proof.
  intros (outs & Ht & Hb). unfold keep_entry. destruct (builder st) as [b|] eqn:Eb.
  - destruct Hb as (o & b0 & Eo & Hbd & Hop & ->). cbn [ok negb].
    apply (add_inv st gs cur k v outs o b0); [done|done|apply Hbd|done|done|done].
  - destruct Hb as [Eo ->]. unfold OpenCompactionOutputFile. destruct Henv as (Hnew & _).
    assert (Hlen : length (outputs st) = length gs) by (rewrite Eo; apply Ht).
    rewrite Hlen. destruct (Hnew (TableFileName dbname_ (NewFileNumber (length gs)))) as [f Ef].
    rewrite Ef. cbn [ok negb].
    set (st1 := with_builder _ _).
    destruct (add_inv st1 gs [] k v outs (mkOutput (NewFileNumber (length gs)) 0 [] [])
      (newTableBuilder options f)) as (st' & gs' & cur' & E & Hi & Ec & J);
      [done|unfold st1; cbn; by rewrite Eo|done|done|by exists f|done|].
    exists st', gs', cur'. done.
Qed.

(** * The loop *)

#[local] Abbreviation step :=
  (work_step (I := I) user_comparator_ max_file_size options dbname_ NewFileNumber NewWritableFile Close table_status).
#[local] Abbreviation loop :=
  (work_loop (I := I) user_comparator_ max_file_size options dbname_ NewFileNumber NewWritableFile Close table_status
     (fun _ => false)).

(** The bookkeeping of [ShouldStopBefore] and that of the drop rule do not meet. *)
Lemma IsBase_grandparent c i s n u :
  IsBaseLevelForKey user_comparator_ (with_grandparent c i s n) u =
  (fun p => (p.1, with_grandparent p.2 i s n)) <$> IsBaseLevelForKey user_comparator_ c u.
Proof.
  unfold IsBaseLevelForKey. simpl. destruct (input_version_ c); [|done]. simpl.
  by destruct (base_levels _ _ _ _ _).
Qed.

Lemma drop_entry_grandparent snap d c i s n k :
  drop_entry user_comparator_ snap d (with_grandparent c i s n) k =
  (fun p => (p.1, with_grandparent p.2 i s n)) <$> drop_entry user_comparator_ snap d c k.
Proof.
  unfold drop_entry. destruct (ParseInternalKey k); [|done]. cbv zeta. rewrite IsBase_grandparent.
  destruct (_ <=? snap); [done|]. destruct (_ && _); [|done].
  by destruct (IsBaseLevelForKey user_comparator_ c _) as [[]|].
Qed.

Lemma kept_grandparent snap l : forall d c i s n,
  kept user_comparator_ snap d (with_grandparent c i s n) l =
  (fun p => (p.1, with_grandparent p.2 i s n)) <$> kept user_comparator_ snap d c l.
Proof.
  induction l as [|e l IH]; intros d c i s n; [done|]. cbn [kept]. rewrite drop_entry_grandparent.
  destruct (drop_entry user_comparator_ snap d c e.1) as [[[b d1] c1]|]; [|done]. cbn [fmap option_fmap option_map mbind option_bind fst snd].
  rewrite IH. by destruct (kept user_comparator_ snap d1 c1 l) as [[[r d2] c2]|].
Qed.

Lemma with_compaction_inv st gs cur c : work_inv st gs cur -> work_inv (with_compaction st c) gs cur.
Proof. done. Qed.

Lemma step_ok it st d gs cur e rest r d' c' : key it = e.1 -> value it = e.2 -> status it = OK ->
  work_inv st gs cur ->
  kept user_comparator_ (smallest_snapshot st) d (compaction st) (e :: rest) = Some (r, d', c') ->
  exists st1 d1 gs1 cur1 r1 c1, step it st d = Some (OK, st1, d1) /\ work_inv st1 gs1 cur1 /\
    smallest_snapshot st1 = smallest_snapshot st /\
    kept user_comparator_ (smallest_snapshot st) d1 (compaction st1) rest = Some (r1, d', c1) /\
    (concat gs1 ++ cur1) ++ r1 = (concat gs ++ cur) ++ r.
Proof.
  intros Ek Ev Es Hi Hk. unfold work_step. rewrite Ek, Ev, Es.
  assert (Ec : exists stop i s n, ShouldStopBefore user_comparator_ max_file_size (compaction st) e.1 =
    (stop, with_grandparent (compaction st) i s n)).
  { unfold ShouldStopBefore. destruct (stop_scan _ _ _ _ _ _) as [i n]. destruct (_ <? n); eauto. }
  destruct Ec as (stop & i & s & n & ->). set (c := with_grandparent (compaction st) i s n).
  assert (Hfin : exists st2 gs2 cur2,
    (match builder (with_compaction st c) with
     | Some _ => if stop then FinishCompactionOutputFile Close table_status (with_compaction st c) OK
                 else Some (OK, with_compaction st c)
     | None => Some (OK, with_compaction st c)
     end) = Some (OK, st2) /\ work_inv st2 gs2 cur2 /\ concat gs2 ++ cur2 = concat gs ++ cur /\
    same_job (with_compaction st c) st2).
  { destruct (builder (with_compaction st c)) as [b|] eqn:Eb; [destruct stop|].
    - destruct (Finish_inv (with_compaction st c) gs cur b Hi Eb) as (st2 & E & Hi2 & _ & J).
      exists st2, (gs ++ [cur]), []. split; [done|]. split; [done|]. split; [|done].
      rewrite concat_app. simpl. by rewrite !app_nil_r.
    - exists (with_compaction st c), gs, cur. done.
    - exists (with_compaction st c), gs, cur. done. }
  destruct Hfin as (st2 & gs2 & cur2 & -> & Hi2 & Ecat & [J1 J2]). cbn [mbind option_bind ok negb].
  rewrite J1, J2. cbn [compaction smallest_snapshot with_compaction]. unfold c. rewrite drop_entry_grandparent.
  cbn [kept] in Hk.
  destruct (drop_entry user_comparator_ (smallest_snapshot st) d (compaction st) e.1) as [[[dropped d1] c1]|];
    [|done]. cbn [fmap option_fmap option_map mbind option_bind fst snd] in Hk |- *.
  pose proof (kept_grandparent (smallest_snapshot st) rest d1 c1 i s n) as Hkg.
  destruct (kept user_comparator_ (smallest_snapshot st) d1 c1 rest) as [[[r1 d2] c2]|]; [|done].
  cbn [fmap option_fmap option_map mbind option_bind fst snd] in Hk, Hkg. injection Hk as <- <- <-.
  set (st3 := with_compaction st2 (with_grandparent c1 i s n)). destruct dropped.
  - exists st3, d1, gs2, cur2, r1, (with_grandparent c2 i s n). split; [done|]. split; [exact Hi2|].
    split; [done|]. split; [exact Hkg|]. by rewrite Ecat.
  - destruct (keep_inv st3 gs2 cur2 e.1 e.2 Hi2) as (st4 & gs4 & cur4 & -> & Hi4 & Ec4 & [J3 J4]).
    cbn [mbind option_bind]. exists st4, d1, gs4, cur4, r1, (with_grandparent c2 i s n).
    split; [done|]. split; [done|]. split; [by rewrite J4|]. split; [by rewrite J3|].
    rewrite Ec4, Ecat. rewrite <- app_assoc. by destruct e.
Qed.

Lemma loop_ok l rest : forall i it st d gs cur fuel round r d' c', at_pos it l i -> drop i l = rest ->
  (length rest < fuel)%nat -> work_inv st gs cur ->
  kept user_comparator_ (smallest_snapshot st) d (compaction st) rest = Some (r, d', c') ->
  exists st' gs' cur' it', loop fuel round it st d = Some (OK, st', it') /\ status it' = OK /\
    work_inv st' gs' cur' /\ concat gs' ++ cur' = (concat gs ++ cur) ++ r.
Proof.
  induction rest as [|e rest IH]; intros i it st d gs cur fuel round r d' c' Ha Er Hf Hi Hk;
    (destruct fuel as [|fuel]; [simpl in Hf; lia|]); cbn [work_loop].
  - assert (Hv : Valid it = false).
    { pose proof (at_pos_le _ _ _ Ha). apply (f_equal length) in Er. rewrite length_drop in Er. simpl in Er.
      replace i with (length l) in Ha by lia. exact (at_end _ _ Ha). }
    rewrite Hv. injection Hk as <- <- <-. exists st, gs, cur, it. split; [done|].
    split; [exact (at_status _ _ _ Ha)|]. split; [done|by rewrite app_nil_r].
  - assert (He : l !! i = Some e).
    { pose proof (f_equal (fun x => x !! 0%nat) Er) as E. simpl in E. by rewrite lookup_drop, Nat.add_0_r in E. }
    destruct (at_entry _ _ _ _ Ha He) as (-> & Ek & Ev). cbn [andb negb].
    destruct (step_ok it st d gs cur e rest r d' c' Ek Ev (at_status _ _ _ Ha) Hi Hk)
      as (st1 & d1 & gs1 & cur1 & r1 & c1 & -> & Hi1 & Hs1 & Hk1 & Ec1). cbn [mbind option_bind ok negb].
    destruct (Next_ok _ _ _ Ha (lookup_lt_Some _ _ _ He)) as (it' & -> & Ha'). cbn [mbind option_bind].
    rewrite <- Hs1 in Hk1.
    destruct (IH (S i) it' st1 d1 gs1 cur1 fuel (S round) r1 d' c1) as (st' & gs' & cur' & it2 & E & Hst & Hi' & Ec');
      [done|rewrite (drop_S _ _ _ He) in Er; by injection Er as ->|simpl in Hf; lia|done|done|].
    exists st', gs', cur', it2. rewrite Ec', Ec1. done.
Qed.

(** The tables that the work writes. *)
Lemma work_ok l it i c snap fuel r d' c' : at_pos it l i -> (length l < fuel)%nat ->
  kept user_comparator_ snap newDropState c l = Some (r, d', c') ->
  exists st gs,
    DoCompactionWork (I := I) user_comparator_ max_file_size options dbname_ NewFileNumber NewWritableFile
      Close table_status (fun _ => false) fuel it (newCompactionState c snap) = Some (OK, st) /\
    builder st = None /\ tables (outputs st) (written st) gs /\ concat gs = r.
Proof.
  intros Ha Hf Hk. unfold DoCompactionWork.
  destruct (SeekToFirst_ok _ _ _ Ha) as (it0 & -> & Ha0). cbn [mbind option_bind].
  destruct (loop_ok l l 0 it0 (newCompactionState c snap) newDropState [] [] fuel 0 r d' c')
    as (st & gs & cur & it' & -> & Hst & Hi & Ec); [done|done|done| |done|].
  { exists []. split; [|done]. split; [done|]. split; [done|]. intros ????. done. }
  cbn [mbind option_bind]. rewrite Hst. simpl in Ec. destruct (builder st) as [b|] eqn:Eb; cbn [ok].
  - destruct (Finish_inv st gs cur b Hi Eb) as (st' & -> & (outs & Ht & Hb) & En & _). cbn [mbind option_bind ok].
    rewrite En in Hb. destruct Hb as [Eo _]. exists st', (gs ++ [cur]). split; [done|]. split; [done|].
    rewrite Eo. split; [done|]. rewrite concat_app. simpl. by rewrite app_nil_r.
  - cbn [mbind option_bind ok]. destruct Hi as (outs & Ht & Hb). rewrite Eb in Hb. destruct Hb as [<- ->].
    exists st, gs. rewrite app_nil_r in Ec. done.
Qed.
End Work.

(** * What the work does not touch *)

(** The level, the inputs and the edit of a compaction stay as they are while the
    work is done. *)
Definition static (c : Compaction) : nat * (list FileMetaData * list FileMetaData) * VersionEdit := (level_ c, inputs_ c, edit_ c).

Section Static.
Context {F : Type} `{!WritableFile F} `{!Checksum} `{!Snappy} {I : Type} `{!Iterator I}.
Context (user_comparator_ : Comparator) (max_file_size : Z) (options : TableOptions) (dbname_ : bytes).
Context (NewFileNumber : nat -> Z) (NewWritableFile : bytes -> Status * F) (Close : F -> Status * F)
  (table_status : Z -> Z -> Status) (shutting_down : nat -> bool).

Lemma Finish_static (st : CompactionState F) ist s st' :
  FinishCompactionOutputFile Close table_status st ist = Some (s, st') -> compaction st' = compaction st.
Proof.
  unfold FinishCompactionOutputFile. destruct (builder st) as [b|]; [|done]. destruct (last (outputs st)); [|done]. cbn [mbind option_bind].
  destruct (if ok ist then _ else _) as [s1 b1]. destruct (if ok s1 then _ else _) as [s2 f2]. destruct (if ok s2 then _ else _) as [s3 f3].
  intros [= _ <-]. done.
Qed.

Lemma Open_static (st : CompactionState F) :
  compaction (OpenCompactionOutputFile options dbname_ NewFileNumber NewWritableFile st).2 = compaction st.
Proof. unfold OpenCompactionOutputFile. destruct (NewWritableFile _) as [s f]. by destruct (ok s). Qed.

Lemma keep_static (st : CompactionState F) k v ist s st' :
  keep_entry options dbname_ NewFileNumber NewWritableFile Close table_status st k v ist = Some (s, st') -> compaction st' = compaction st.
Proof.
  unfold keep_entry. assert (Hc0 : compaction (match builder st with None => OpenCompactionOutputFile options dbname_ NewFileNumber NewWritableFile st | Some _ => (OK, st) end).2 = compaction st).
  { destruct (builder st); [done|apply Open_static]. }
  destruct (match builder st with None => _ | Some _ => _ end) as [s0 st0]. simpl in Hc0. destruct (negb (ok s0)); [by intros [= _ <-]|].
  rewrite <- Hc0. unfold add_entry. destruct (builder st0) as [b|]; [|done]. cbn [mbind option_bind]. destruct (_ <=? _).
  - intros Hf. apply Finish_static in Hf. rewrite Hf. cbn. by destruct (NumEntries b =? 0).
  - intros [= _ <-]. cbn. by destruct (NumEntries b =? 0).
Qed.

Lemma drop_static snap d c k b d' c' : drop_entry user_comparator_ snap d c k = Some (b, d', c') -> static c' = static c.
Proof.
  unfold drop_entry. destruct (ParseInternalKey k) as [ik|]; [|by intros [= _ _ <-]]. cbv zeta. destruct (_ <=? snap); [by intros [= _ _ <-]|].
  destruct (_ && _); [|by intros [= _ _ <-]]. unfold IsBaseLevelForKey. destruct (input_version_ c); [|done]. cbn [mbind option_bind].
  destruct (base_levels _ _ _ _ _). by intros [= _ _ <-].
Qed.

Lemma stop_static c k : static (ShouldStopBefore user_comparator_ max_file_size c k).2 = static c.
Proof. unfold ShouldStopBefore. destruct (stop_scan _ _ _ _ _ _). by destruct (_ <? _). Qed.

Lemma step_static (it : I) (st : CompactionState F) d s st' d' :
  work_step user_comparator_ max_file_size options dbname_ NewFileNumber NewWritableFile Close table_status it st d = Some (s, st', d') ->
  static (compaction st') = static (compaction st).
Proof.
  unfold work_step. pose proof (stop_static (compaction st) (key it)) as Hc0. destruct (ShouldStopBefore _ _ _ _) as [stop c]. simpl in Hc0. rewrite <- Hc0.
  destruct (match builder (with_compaction st c) with Some _ => _ | None => _ end) as [[s1 st1]|] eqn:E1; [|done]. cbn [mbind option_bind].
  assert (Hc1 : compaction st1 = c).
  { destruct (builder (with_compaction st c)); [destruct stop; [by apply Finish_static in E1|]|]; by injection E1 as _ <-. }
  destruct (negb (ok s1)); [by intros [= _ <- _]; rewrite Hc1|]. rewrite Hc1. destruct (drop_entry _ _ _ _ _) as [[[b d1] c1]|] eqn:E2; [|done]. apply drop_static in E2.
  cbn [mbind option_bind]. destruct b; [by intros [= _ <- _]|]. destruct (keep_entry _ _ _ _ _ _ _ _ _ _) as [[s2 st2]|] eqn:E3; [|done]. apply keep_static in E3.
  cbn [mbind option_bind]. intros [= _ <- _]. by rewrite E3.
Qed.

Lemma work_static fuel (it : I) c snap s (st : CompactionState F) :
  DoCompactionWork user_comparator_ max_file_size options dbname_ NewFileNumber NewWritableFile Close table_status shutting_down fuel it (newCompactionState c snap) = Some (s, st) ->
  static (compaction st) = static c.
Proof.
  assert (Hl : forall fuel round (it : I) (st : CompactionState F) d s st' it',
    work_loop user_comparator_ max_file_size options dbname_ NewFileNumber NewWritableFile Close table_status shutting_down fuel round it st d = Some (s, st', it') ->
    static (compaction st') = static (compaction st)).
  { clear. induction fuel as [|fuel IH]; intros round it st d s st' it'; cbn [work_loop]; [done|]. destruct (_ && _); [|by intros [= _ <- _]].
    destruct (work_step _ _ _ _ _ _ _ _ _ _ _) as [[[s1 st1] d1]|] eqn:E1; [|done]. apply step_static in E1. cbn [mbind option_bind].
    destruct (negb (ok s1)); [by intros [= _ <- _]|]. destruct (Next it); [|done]. cbn [mbind option_bind]. intros Hw. by rewrite (IH _ _ _ _ _ _ _ Hw). }
  unfold DoCompactionWork. destruct (SeekToFirst it); [|done]. cbn [mbind option_bind]. destruct (work_loop _ _ _ _ _ _ _ _ _ _ _ _ _ _) as [[[s1 st1] it1]|] eqn:E1; [|done].
  apply Hl in E1. cbn [mbind option_bind]. destruct (match builder st1 with Some _ => _ | None => _ end) as [[s2 st2]|] eqn:E2; [|done]. cbn [mbind option_bind]. intros [= _ <-].
  change (static c) with (static (compaction (newCompactionState (F := F) c snap))). rewrite <- E1. destruct (builder st1); [destruct (ok s1); [by apply Finish_static in E2 as ->|]|]; by injection E2 as _ <-.
Qed.
End Static.

(** A compaction loses nothing that can be read.  For inputs whose merge is
    the sorted run [l] of well-formed entries, and an environment whose
    operations succeed, [DoCompactionWork] ends with success; its outputs are
    finished tables, each with the first and last key of its run as its bounds,
    whose runs together are part of [l] in order; and for every user key and
    every snapshot that is at least the smallest one in use, reading the outputs
    and then the levels below gives what reading the inputs and then the levels
    below gave, where the levels below hold nothing for a user key that is in
    the range of none of their files. *)
Theorem compaction_preserves_reads {F I : Type} `{HF : WritableFileOk F} `{Hck : !Checksum} `{Hsn : !Snappy}
    `{Hit : !Iterator I} {cmp : Comparator} `{Hio : !IteratorOk I cmp}
    (user : Comparator) (Huser : @ComparatorOk user) (max_file_size : Z) (options : TableOptions)
    (dbname : bytes) (NewFileNumber : nat -> Z) (NewWritableFile : bytes -> Status * F)
    (Close : F -> Status * F) (table_status : Z -> Z -> Status)
    (v : Version) (c : Compaction) (l : list (bytes * bytes)) (it : I) (i : nat) (snap : Z) (fuel : nat) :
  env_ok NewWritableFile Close table_status ->
  levels_ok user v -> input_version_ c = Some v ->
  level_ptrs_ c = replicate (Z.to_nat kNumLevels) 0%nat ->
  at_pos it l i -> StronglySorted (key_lt user) l -> Forall parses l ->
  snap < kMaxSequenceNumber -> (length l < fuel)%nat ->
  exists st gs,
    DoCompactionWork user max_file_size options dbname NewFileNumber NewWritableFile Close
      table_status (fun _ => false) fuel it (newCompactionState c snap) = Some (OK, st) /\
    builder st = None /\
    tables options dbname NewFileNumber NewWritableFile (outputs st) (written st) gs /\
    concat gs `sublist_of` l /\
    forall u s below, snap <= s ->
      (deeper_has user v (level_ c) u = false -> below = None) ->
      read user u s (concat gs) below = read user u s l below.
Proof.
  intros Henv Hv Ev Ep Ha Hs Hp Hm Hf.
  destruct (kept_ok user snap v Hv Hm l newDropState c Ev Hs Hp) as (r & d' & ptrs & Ek & Hsub & _ & Hrd).
  - split; done.
  - intros e k _ _. rewrite Ep. apply fresh_pointers.
  - destruct (work_ok user max_file_size options dbname NewFileNumber NewWritableFile Close table_status
      Henv l it i c snap fuel r d' _ Ha Hf Ek) as (st & gs & E & Hb & Ht & <-).
    exists st, gs. split; [exact E|]. split; [done|]. split; [done|]. split; [done|].
    intros u s below Hle Hb'. apply Hrd; [done| |done]. intros [Hlast _]. simpl in Hlast. lia.
Qed.

(** Three versions of a key and a deletion; the snapshot keeps two of them. *)
Definition example_run : list (bytes * bytes) :=
  [(mkInternalKey (str "a") 9 kTypeValue, str "a9"); (mkInternalKey (str "a") 6 kTypeValue, str "a6");
   (mkInternalKey (str "a") 3 kTypeValue, str "a3"); (mkInternalKey (str "b") 5 kTypeDeletion, []);
   (mkInternalKey (str "b") 2 kTypeValue, str "b2"); (mkInternalKey (str "q") 4 kTypeDeletion, [])].

Definition example_compaction : Compaction :=
  with_inputs (newCompaction 1000000 0) example_version [].

Definition example_options : TableOptions := mkTableOptions 4096 16 kNoCompression None false.

Lemma compaction_preserves_reads_witness :
  exists (st : CompactionState flat_file) gs,
    @DoCompactionWork flat_file flat_writable (crc32c_checksum 0) no_snappy ListIter
      (ListIter_iterator BytewiseComparator) BytewiseComparator 1000000 example_options (str "db")
      (fun i => 20 + Z.of_nat i) (fun _ => (OK, [])) (fun f => (OK, f)) (fun _ _ => OK)
      (fun _ => false) 7 (mkListIter example_run 0) (newCompactionState example_compaction 7) = Some (OK, st) /\
    read BytewiseComparator (str "a") 8 (concat gs) None = Some (str "a6") /\
    read BytewiseComparator (str "b") 7 (concat gs) None = None.
Proof.
  destruct (@compaction_preserves_reads flat_file ListIter flat_writable flat_writable_ok (crc32c_checksum 0)
    no_snappy (ListIter_iterator BytewiseComparator) BytewiseComparator (ListIter_ok BytewiseComparator)
    BytewiseComparator BytewiseComparator_ok 1000000 example_options (str "db")
    (fun i => 20 + Z.of_nat i) (fun _ => (OK, [])) (fun f => (OK, f)) (fun _ _ => OK)
    example_version example_compaction example_run (mkListIter example_run 0) 0 7 7)
    as (st & gs & E & _ & _ & _ & Hrd).
  - split; [intros; by exists []|]. split; [intros f; by exists f|done].
  - exact example_levels_ok.
  - reflexivity.
  - reflexivity.
  - split; [reflexivity|vm_compute; lia].
  - repeat constructor; vm_compute; reflexivity.
  - repeat constructor; vm_compute; eexists; reflexivity.
  - vm_compute. reflexivity.
  - vm_compute. lia.
  - exists st, gs. split; [exact E|]. split.
    + rewrite (Hrd (str "a") 8 None); [vm_compute; reflexivity|lia|reflexivity].
    + rewrite (Hrd (str "b") 7 None); [vm_compute; reflexivity|lia|reflexivity].
Defined.
