(* ===== verification/VersionSet.v ===== *)
(** db/version_set.cc and db/version_set.h, class [VersionSet]: the versions in
    use, the counters, and the MANIFEST, to which every edit is written before
    the version it makes is installed ([LogAndApply]), and from which the state
    is rebuilt ([Recover]).  Also the garbage collection of files in
    db/db_impl.cc, which relies on the live versions.

    The files of the environment are parameters: a writable file for the
    MANIFEST, sequential files for reading, and the file system on which
    CURRENT is switched.  Files are values, so the reference counts of files
    are those of VersionBuilder; the models of the levels are not part of a
    version here. *)

From stdpp Require Import base gmap list sorting strings.
From S2P Require Import Prelude Status Coding Crc32c Env Logging Log Comparator DbFormat VersionEdit Version VersionBuilder Filename.
From Stdlib Require Import Strings.Byte.

#[local] Open Scope Z_scope.

(** * The list of live versions *)

(** A version with its reference count; versions are told apart by a number, as
    the source tells them apart by their addresses. *)
Record LiveVersion := mkLive { lv_id : nat; lv_refs : Z; lv_version : Version }.

(** [Version::Ref] and [Version::Unref] on the linked list: the destructor takes
    the version out. *)
Definition Ref (id : nat) (l : list LiveVersion) : list LiveVersion :=
  map (fun x => if (lv_id x =? id)%nat then mkLive (lv_id x) (lv_refs x + 1) (lv_version x) else x) l.

Definition Unref (id : nat) (l : list LiveVersion) : list LiveVersion :=
  List.filter (fun x => negb (lv_refs x =? 0))
    (map (fun x => if (lv_id x =? id)%nat then mkLive (lv_id x) (lv_refs x - 1) (lv_version x) else x) l).

(** * State *)

Record VersionSet (F : Type) := mkVersionSet {
  vs_next_file_number : Z;
  vs_manifest_file_number : Z;
  vs_last_sequence : Z;
  vs_log_number : Z;
  vs_prev_log_number : Z;
  descriptor_log_ : option (Writer F);          (* over [descriptor_file_] *)
  dummy_versions_ : list LiveVersion;           (* oldest first *)
  current_ : nat * Version;                     (* the last of them *)
  next_id : nat;
  vs_compact_pointer : list bytes;
}.
Arguments mkVersionSet {F} _ _ _ _ _ _ _ _ _ _.
Arguments vs_next_file_number {F} _.
Arguments vs_manifest_file_number {F} _.
Arguments vs_last_sequence {F} _.
Arguments vs_log_number {F} _.
Arguments vs_prev_log_number {F} _.
Arguments descriptor_log_ {F} _.
Arguments dummy_versions_ {F} _.
Arguments current_ {F} _.
Arguments next_id {F} _.
Arguments vs_compact_pointer {F} _.

Section Simple.
Context {F : Type}.
#[local] Abbreviation VS := (VersionSet F).

Definition current (vs : VS) : Version := (current_ vs).2.

Definition with_numbers (vs : VS) (next manifest seq log prev : Z) : VS :=
  mkVersionSet next manifest seq log prev (descriptor_log_ vs) (dummy_versions_ vs) (current_ vs)
    (next_id vs) (vs_compact_pointer vs).
Definition with_descriptor (vs : VS) (w : option (Writer F)) : VS :=
  mkVersionSet (vs_next_file_number vs) (vs_manifest_file_number vs) (vs_last_sequence vs)
    (vs_log_number vs) (vs_prev_log_number vs) w (dummy_versions_ vs) (current_ vs) (next_id vs)
    (vs_compact_pointer vs).
Definition with_pointers (vs : VS) (ps : list bytes) : VS :=
  mkVersionSet (vs_next_file_number vs) (vs_manifest_file_number vs) (vs_last_sequence vs)
    (vs_log_number vs) (vs_prev_log_number vs) (descriptor_log_ vs) (dummy_versions_ vs) (current_ vs)
    (next_id vs) ps.

(** The new version holds the one reference of [current_]; the old one loses it. *)
Definition AppendVersion (vs : VS) (v : Version) : VS :=
  mkVersionSet (vs_next_file_number vs) (vs_manifest_file_number vs) (vs_last_sequence vs)
    (vs_log_number vs) (vs_prev_log_number vs) (descriptor_log_ vs)
    (Unref (current_ vs).1 (dummy_versions_ vs) ++ [mkLive (next_id vs) 1 v]) (next_id vs, v)
    (S (next_id vs)) (vs_compact_pointer vs).

(** The constructor appends an empty version; there is none to release. *)
Definition newVersionSet : VS :=
  mkVersionSet 2 0 0 0 0 None [mkLive 0 1 newVersion] (0%nat, newVersion) 1
    (replicate (Z.to_nat kNumLevels) []).

Definition NewFileNumber (vs : VS) : Z * VS :=
  (vs_next_file_number vs,
   with_numbers vs (u64 (vs_next_file_number vs + 1)) (vs_manifest_file_number vs)
     (vs_last_sequence vs) (vs_log_number vs) (vs_prev_log_number vs)).

Definition ReuseFileNumber (vs : VS) (file_number : Z) : VS :=
  if vs_next_file_number vs =? u64 (file_number + 1)
  then with_numbers vs file_number (vs_manifest_file_number vs) (vs_last_sequence vs)
         (vs_log_number vs) (vs_prev_log_number vs)
  else vs.

Definition MarkFileNumberUsed (vs : VS) (number : Z) : VS :=
  if vs_next_file_number vs <=? number
  then with_numbers vs (u64 (number + 1)) (vs_manifest_file_number vs) (vs_last_sequence vs)
         (vs_log_number vs) (vs_prev_log_number vs)
  else vs.

(** [None]: the assertion that sequence numbers do not go back. *)
Definition vs_SetLastSequence (vs : VS) (s : Z) : option VS :=
  if vs_last_sequence vs <=? s
  then Some (with_numbers vs (vs_next_file_number vs) (vs_manifest_file_number vs) s
               (vs_log_number vs) (vs_prev_log_number vs))
  else None.

Definition NumLevelFiles (vs : VS) (level : nat) : nat := length (level_files (current vs) level).
Definition NumLevelBytes (vs : VS) (level : nat) : Z := TotalFileSize (level_files (current vs) level).

(** [live]: a [std::set<uint64_t>]. *)
Definition AddLiveFiles (vs : VS) (live : gset Z) : gset Z :=
  fold_left (fun live x =>
    fold_left (fun live files => fold_left (fun live f => {[number f]} ∪ live) files live)
      (files_ (lv_version x)) live)
    (dummy_versions_ vs) live.

(** [snprintf] of the seven sizes. *)
Definition LevelSummary (vs : VS) : bytes :=
  str "files[ " ++
  concat (map (fun level => decimal (Z.of_nat (NumLevelFiles vs level)) ++ str " ")
    (seq 0 (Z.to_nat kNumLevels))) ++ str "]".
End Simple.

(** * [Finalize] *)

(** A score as a fraction with a positive denominator; the source divides
    doubles.  [score > best_score]: *)
Definition score_gt (a b : Z * Z) : bool := b.1 * a.2 <? a.1 * b.2.

Definition level_score (v : Version) (level : nat) : Z * Z :=
  if (level =? 0)%nat
  then (Z.of_nat (length (level_files v 0)), kL0_CompactionTrigger)
  else (TotalFileSize (level_files v level), MaxBytesForLevel level).

Definition best_level (v : Version) (levels : list nat) : Z * (Z * Z) :=
  fold_left (fun best level =>
    let score := level_score v level in
    if score_gt score best.2 then (Z.of_nat level, score) else best) levels (-1, (-1, 1)).

Definition Finalize (v : Version) : Version :=
  let best := best_level v (seq 0 (Z.to_nat kNumLevels - 1)) in
  mkVersion (files_ v) (file_to_compact_ v) (file_to_compact_level_ v) best.2 best.1.

(** [NeedsCompaction] *)
Definition NeedsCompaction (v : Version) : bool :=
  ((compaction_score_ v).2 <=? (compaction_score_ v).1) ||
  match file_to_compact_ v with Some _ => true | None => false end.

(** * The MANIFEST *)

Section Manifest.
Context {E F R : Type} `{!FileSystem E} `{!WritableFile F} `{!SequentialFile R} `{!Checksum}.
Context (user_comparator_ : Comparator) (comparator_name dbname_ : bytes).
(** Services of the environment. *)
Context (NewWritableFile : E -> bytes -> Status * F * E) (NewSequentialFile : E -> bytes -> Status * R).

(** The record that describes the whole current version. *)
Definition snapshot_edit (vs : VersionSet F) : VersionEdit :=
  let edit := SetComparatorName newVersionEdit comparator_name in
  let edit := fold_left (fun e level =>
      match nth level (vs_compact_pointer vs) [] with
      | [] => e
      | key => SetCompactPointer e (Z.of_nat level) key
      end) (seq 0 (Z.to_nat kNumLevels)) edit in
  fold_left (fun e level =>
      fold_left (fun e f => AddFile e (Z.of_nat level) (number f) (file_size f) (smallest f) (largest f))
        (level_files (current vs) level) e)
    (seq 0 (Z.to_nat kNumLevels)) edit.

Definition WriteSnapshot (vs : VersionSet F) (log : Writer F) : Status * Writer F :=
  AddRecord log (EncodeTo (snapshot_edit vs) []).

(** The numbers that [LogAndApply] puts into the edit; [None]: an assertion
    about the log number fails. *)
Definition complete_edit (vs : VersionSet F) (edit : VersionEdit) : option VersionEdit :=
  edit ←
    (if has_log_number_ edit then
       if (vs_log_number vs <=? log_number_ edit) && (log_number_ edit <? vs_next_file_number vs)
       then Some edit else None
     else Some (SetLogNumber edit (vs_log_number vs)));
  let edit := if has_prev_log_number_ edit then edit
              else SetPrevLogNumber edit (vs_prev_log_number vs) in
  let edit := SetNextFile edit (vs_next_file_number vs) in
  Some (SetLastSequence edit (vs_last_sequence vs)).

(** The MANIFEST to write to: the open one, or a new one with a snapshot.  The
    boolean says that it is new. *)
Definition open_manifest (vs : VersionSet F) (env : E)
  : Status * option (Writer F) * E * bool :=
  match descriptor_log_ vs with
  | Some w => (OK, Some w, env, false)
  | None =>
      let '(s, f, env) := NewWritableFile env (DescriptorFileName dbname_ (vs_manifest_file_number vs)) in
      if ok s then
        let '(s, w) := WriteSnapshot vs (newWriter f) in (s, Some w, env, true)
      else (s, None, env, true)
  end.

(** [AddRecord] and [Sync] of the descriptor file. *)
Definition write_record (w : Writer F) (record : bytes) : Status * Writer F :=
  let '(s, w) := AddRecord w record in
  if ok s then
    let '(s, f) := wSync (dest_ w) in (s, mkWriter f (block_offset_ w))
  else (s, w).

(** [mu] is released during the write and taken again: no other thread calls
    [LogAndApply], as the header requires.  [None]: a failed assertion. *)
Definition LogAndApply (vs : VersionSet F) (env : E) (edit : VersionEdit)
  : option (Status * VersionSet F * E) :=
  edit ← complete_edit vs edit;
  let b := Apply user_comparator_ (newBuilder (vs_compact_pointer vs) (current vs)) edit in
  v ← SaveTo user_comparator_ b newVersion;
  let v := Finalize v in
  let vs := with_pointers vs (compact_pointer_ b) in
  let '(s, w, env, is_new) := open_manifest vs env in
  let '(s, w) :=
    match w with
    | Some w =>
        if ok s then let '(s, w) := write_record w (EncodeTo edit []) in (s, Some w)
        else (s, Some w)
    | None => (s, None)
    end in
  let '(s, env) :=
    if ok s && is_new then SetCurrentFile env dbname_ (vs_manifest_file_number vs) else (s, env) in
  if ok s then
    let vs := AppendVersion (with_descriptor vs w) v in
    Some (s, with_numbers vs (vs_next_file_number vs) (vs_manifest_file_number vs)
               (vs_last_sequence vs) (log_number_ edit) (prev_log_number_ edit), env)
  else if is_new then
    let '(_, env) := fs_delete env (DescriptorFileName dbname_ (vs_manifest_file_number vs)) in
    Some (s, with_descriptor vs None, env)
  else Some (s, with_descriptor vs w, env).

(** * Recovery *)

(** [ReadFileToString] (util/env.cc): reads until nothing comes; the fuel counts
    the reads. *)
Fixpoint read_file (fuel : nat) (file : R) (data : bytes) : option (Status * bytes) :=
  match fuel with
  | O => None
  | S fuel' =>
      let '(s, fragment, file) := sRead file 8192 in
      if negb (ok s) then Some (s, data)
      else match fragment with
           | [] => Some (s, data)
           | _ => read_file fuel' file (data ++ fragment)
           end
  end.

Definition ReadFileToString (fuel : nat) (env : E) (fname : bytes) : option (Status * bytes) :=
  let '(s, file) := NewSequentialFile env fname in
  if negb (ok s) then Some (s, []) else read_file fuel file [].

(** The locals of [Recover]: the [have_] flags are [Some]. *)
Record Recovered := mkRecovered {
  rec_builder : Builder;
  rec_log_number : option Z;
  rec_prev_log_number : option Z;
  rec_next_file : option Z;
  rec_last_sequence : option Z;
}.

Definition newRecovered (vs : VersionSet F) : Recovered :=
  mkRecovered (newBuilder (vs_compact_pointer vs) (current vs)) None None None None.

Definition if_has (has : bool) (n : Z) (old : option Z) : option Z := if has then Some n else old.

(** The body of the loop for one record. *)
Definition recover_record (st : Recovered) (record : bytes) : Status * Recovered :=
  let '(s, edit) := DecodeFrom newVersionEdit record in
  let s :=
    if ok s && has_comparator_ edit && negb (slice_eqb (comparator_ edit) comparator_name)
    then InvalidArgument (comparator_ edit ++ str " does not match existing comparator ") comparator_name
    else s in
  let b := if ok s then Apply user_comparator_ (rec_builder st) edit else rec_builder st in
  (s, mkRecovered b (if_has (has_log_number_ edit) (log_number_ edit) (rec_log_number st))
        (if_has (has_prev_log_number_ edit) (prev_log_number_ edit) (rec_prev_log_number st))
        (if_has (has_next_file_number_ edit) (next_file_number_ edit) (rec_next_file st))
        (if_has (has_last_sequence_ edit) (last_sequence_ edit) (rec_last_sequence st))).

(** What the reporter made of the status. *)
Definition reported (r : Reader R) : Status :=
  match head (reports r) with Some (_, s) => s | None => OK end.

(** [while (reader.ReadRecord(&record, &scratch) && s.ok())] *)
Fixpoint recover_loop (fuel : nat) (r : Reader R) (st : Recovered) : option (Status * Recovered) :=
  match fuel with
  | O => None
  | S fuel' =>
      '(res, r) ← ReadRecord fuel r;
      let s := reported r in
      match res with
      | None => Some (s, st)
      | Some record =>
          if negb (ok s) then Some (s, st)
          else
            let '(s, st) := recover_record st record in
            if ok s then recover_loop fuel' r st else
              (* one more record is read before the test of [s] *)
              '(_, r) ← ReadRecord fuel' r; Some (s, st)
      end
  end.

(** The options and services of [ReuseManifest]. *)
Context (reuse_logs : bool) (max_file_size : Z).
Context (GetFileSize : E -> bytes -> Status * Z) (NewAppendableFile : E -> bytes -> Status * F * E).

Definition ReuseManifest (vs : VersionSet F) (env : E) (dscname dscbase : bytes)
  : bool * VersionSet F * E :=
  if negb reuse_logs then (false, vs, env)
  else
    match ParseFileName dscbase with
    | Some (manifest_number, kDescriptorFile) =>
        let '(s, manifest_size) := GetFileSize env dscname in
        if negb (ok s) || (TargetFileSize max_file_size <=? manifest_size) then (false, vs, env)
        else
          let '(r, f, env) := NewAppendableFile env dscname in
          if negb (ok r) then (false, vs, env)
          else
            let vs := with_descriptor vs (Some (newWriterAt f manifest_size)) in
            (true, with_numbers vs (vs_next_file_number vs) manifest_number (vs_last_sequence vs)
                     (vs_log_number vs) (vs_prev_log_number vs), env)
    | _ => (false, vs, env)
    end.

(** What the records must have named. *)
Definition check_recovered (st : Recovered) : Status :=
  match rec_next_file st, rec_log_number st, rec_last_sequence st with
  | None, _, _ => Corruption (str "no meta-nextfile entry in descriptor") []
  | _, None, _ => Corruption (str "no meta-lognumber entry in descriptor") []
  | _, _, None => Corruption (str "no last-sequence-number entry in descriptor") []
  | _, _, _ => OK
  end.

(** The end of [Recover], with the records read: [true] in the result asks for a
    new MANIFEST ([*save_manifest]). *)
Definition install_recovered (vs : VersionSet F) (env : E) (st : Recovered) (dscname current_name : bytes)
  : option (Status * VersionSet F * E * bool) :=
  let s := check_recovered st in
  let prev_log_number := default 0 (rec_prev_log_number st) in
  let log_number := default 0 (rec_log_number st) in
  let vs := MarkFileNumberUsed (MarkFileNumberUsed vs prev_log_number) log_number in
  if negb (ok s) then Some (s, vs, env, false)
  else
    v ← SaveTo user_comparator_ (rec_builder st) newVersion;
    let vs := AppendVersion vs (Finalize v) in
    let next_file := default 0 (rec_next_file st) in
    let vs := with_numbers vs (u64 (next_file + 1)) next_file (default 0 (rec_last_sequence st))
                log_number prev_log_number in
    let '(reused, vs, env) := ReuseManifest vs env dscname current_name in
    Some (OK, vs, env, negb reused).

(** [None]: fuel or a failed assertion. *)
Definition Recover (fuel : nat) (vs : VersionSet F) (env : E)
  : option (Status * VersionSet F * E * bool) :=
  '(s, contents) ← ReadFileToString fuel env (CurrentFileName dbname_);
  if negb (ok s) then Some (s, vs, env, false)
  else if match last contents with Some c => negb (bool_decide (c = x0a)) | None => true end
  then Some (Corruption (str "CURRENT file does not end with newline") [], vs, env, false)
  else
    let current_name := btake (blen contents - 1) contents in
    let dscname := dbname_ ++ str "/" ++ current_name in
    let '(s, file) := NewSequentialFile env dscname in
    if negb (ok s) then
      Some (if IsNotFound s then Corruption (str "CURRENT points to a non-existent file") (ToString s)
            else s, vs, env, false)
    else
      '(s, st) ← recover_loop fuel (newReader file true true 0) (newRecovered vs);
      let vs := with_pointers vs (compact_pointer_ (rec_builder st)) in
      if negb (ok s) then Some (s, vs, env, false)
      else install_recovered vs env st dscname current_name.
End Manifest.

(** * Garbage collection of files (db/db_impl.cc) *)

Section Obsolete.
Context {F : Type}.

(** Whether [DeleteObsoleteFiles] keeps a file of the directory; [live] holds the
    pending outputs and the files of the live versions. *)
Definition keep_file (vs : VersionSet F) (live : gset Z) (filename : bytes) : bool :=
  match ParseFileName filename with
  | None => true
  | Some (number, type) =>
      match type with
      | kLogFile => (vs_log_number vs <=? number) || (number =? vs_prev_log_number vs)
      | kDescriptorFile => vs_manifest_file_number vs <=? number
      | kTableFile | kTempFile => bool_decide (number ∈ live)
      | kCurrentFile | kDBLockFile | kInfoLogFile => true
      end
  end.

(** The names that are deleted, in order; after a background error none. *)
Definition DeleteObsoleteFiles (vs : VersionSet F) (bg_error : Status) (pending_outputs : gset Z)
    (filenames : list bytes) : list bytes :=
  if negb (ok bg_error) then []
  else List.filter (fun f => negb (keep_file vs (AddLiveFiles vs pending_outputs) f)) filenames.
End Obsolete.
