(* ===== verification/ManifestProofs.v ===== *)
(** Recovery of the file set (VersionSet): whatever suffix of the MANIFEST a crash
    takes away, [Recover] rebuilds the state after some prefix of the edits that
    [LogAndApply] wrote, and this prefix contains every edit that was synced. *)

From stdpp Require Import base gmap list sorting strings.
From S2P Require Import Prelude Status Coding Crc32c Env Logging Log LogProofs Comparator DbFormat VersionEdit Version VersionBuilder VersionBuilderProofs Filename VersionSet.
From Stdlib Require Import Strings.Byte.

#[local] Open Scope Z_scope.

(** * The MANIFEST as a log *)

Section LogFile.
Context {F : Type} `{HF : WritableFileOk F} `{Hck : !Checksum}.

Lemma log_holds_write w frss recs rec : log_holds w frss recs ->
  exists frs w', write_record w rec = (OK, w') /\ log_holds w' (frss ++ [frs]) (recs ++ [rec]).
Proof.
  intros Hw. destruct (log_holds_add w frss recs rec Hw) as (frs & w1 & E & [Hl Hf Ho Hc]).
  unfold write_record. rewrite E. cbn [ok]. destruct (wSync_ok (dest_ w1)) as (f & -> & Cf).
  exists frs, (mkWriter f (block_offset_ w1)). split; [done|]. split; [done|done|done|].
  cbn [dest_]. by rewrite Cf.
Qed.

(** [ReadFileToString] reads the whole file. *)
Lemma read_file_ok {R} `{HR : SequentialFileOk R} fuel : forall (f : R) data,
  (length (scontents f) < fuel)%nat -> read_file fuel f data = Some (OK, data ++ scontents f).
Proof.
  induction fuel as [|fuel IH]; intros f data Hf; [lia|]. cbn [read_file].
  destruct (sRead_ok f 8192) as (f' & -> & Hc); [lia|]. cbn [ok negb].
  destruct (btake 8192 (scontents f)) as [|x l] eqn:E.
  - assert (scontents f = []) as ->; [|by rewrite app_nil_r].
    destruct (scontents f) as [|y k]; [done|]. exfalso. revert E. unfold btake.
    change (Z.to_nat 8192) with (S (Z.to_nat 8191)). done.
  - rewrite <- (btake_bdrop 8192 (scontents f)) in Hf |- *. rewrite E in Hf |- *.
    rewrite IH, Hc; [by rewrite <- app_assoc|]. rewrite Hc. rewrite length_app in Hf. simpl in Hf. lia.
Qed.
End LogFile.

(** * Edits *)

(** What matters to the levels: two edits with the same files. *)
Definition same_lists (e e' : VersionEdit) : Prop :=
  compact_pointers_ e' = compact_pointers_ e /\ deleted_files_ e' = deleted_files_ e /\
  new_files_ e' = new_files_ e.

(** An edit as [LogAndApply] writes it. *)
Record manifest_edit (e : VersionEdit) : Prop := {
  me_wf : edit_wf e;
  me_comparator : has_comparator_ e = false;
  me_log : has_log_number_ e = true;
  me_prev : has_prev_log_number_ e = true;
  me_next : has_next_file_number_ e = true;
  me_seq : has_last_sequence_ e = true;
}.

Lemma decode_encode e : edit_wf e -> DecodeFrom newVersionEdit (EncodeTo e []) = (OK, e).
Proof. intros He. rewrite DecodeFrom_EncodeTo by done. by destruct e. Qed.

Lemma spec_edit_same level m e e' : same_lists e e' -> spec_edit level m e' = spec_edit level m e.
Proof. intros (_ & Hd & Hn). unfold spec_edit. by rewrite Hd, Hn. Qed.

Lemma set_pointers_same ps e e' : same_lists e e' -> set_pointers ps e' = set_pointers ps e.
Proof. intros (Hc & _). unfold set_pointers. by rewrite Hc. Qed.

Section Manifest.
Context {E F R : Type} `{!FileSystem E} `{HF : WritableFileOk F} `{HR : SequentialFileOk R} `{Hck : !Checksum}.
Context (user_comparator_ : Comparator) {cmp_ok : @ComparatorOk user_comparator_}.
Context (comparator_name dbname_ : bytes).
Context (NewWritableFile : E -> bytes -> Status * F * E) (NewSequentialFile : E -> bytes -> Status * R).
#[local] Abbreviation history_of := (level_history user_comparator_).
#[local] Abbreviation sound := (level_sound user_comparator_).
#[local] Abbreviation nlevels := (Z.to_nat kNumLevels).

Lemma level_history_same level es es' : Forall2 same_lists es es' -> forall seen m,
  history_of level seen m es -> history_of level seen m es'.
Proof.
  induction 1 as [|e e' es es' Hs _ IH]; intros seen m Hh; [done|]. cbn [level_history] in *.
  rewrite (spec_edit_same level m e e' Hs). destruct Hs as (_ & _ & ->).
  destruct Hh as (H1 & H2 & H3 & H4). split; [done|]. split; [done|]. split; [done|]. by apply IH.
Qed.

Lemma level_history_app level es1 es2 : forall seen m, history_of level seen m (es1 ++ es2) ->
  history_of level seen m es1.
Proof.
  induction es1 as [|e es1 IH]; intros seen m Hh; [done|]. cbn [level_history app] in *.
  destruct Hh as (H1 & H2 & H3 & H4). split; [done|]. split; [done|]. split; [done|]. by eapply IH.
Qed.

(** * The records of the recovered MANIFEST *)

Definition record_edit (st : Recovered) (e : VersionEdit) : Recovered :=
  mkRecovered (Apply user_comparator_ (rec_builder st) e)
    (if_has (has_log_number_ e) (log_number_ e) (rec_log_number st))
    (if_has (has_prev_log_number_ e) (prev_log_number_ e) (rec_prev_log_number st))
    (if_has (has_next_file_number_ e) (next_file_number_ e) (rec_next_file st))
    (if_has (has_last_sequence_ e) (last_sequence_ e) (rec_last_sequence st)).

(** The edit decodes and is for this comparator. *)
Definition readable (e : VersionEdit) : Prop :=
  edit_wf e /\ (has_comparator_ e = true -> comparator_ e = comparator_name).

Lemma recover_record_ok st e : readable e ->
  recover_record user_comparator_ comparator_name st (EncodeTo e []) = (OK, record_edit st e).
Proof.
  intros [He Hc]. unfold recover_record. rewrite decode_encode by done. cbn [ok andb].
  destruct (has_comparator_ e) eqn:Eh; cbn [andb].
  - rewrite (Hc eq_refl). replace (slice_eqb comparator_name comparator_name) with true.
    + cbn [negb ok]. unfold record_edit. done.
    + symmetry. by apply slice_eqb_spec.
  - done.
Qed.

Lemma recover_loop_ok fuel r recs r' : ReadSteps (F := R) fuel r recs r' -> forall es st,
  recs = map (fun e => EncodeTo e []) es -> Forall readable es -> reports r = [] ->
  recover_loop user_comparator_ comparator_name fuel r st = Some (OK, fold_left record_edit es st).
Proof.
  induction 1 as [fuel r r' E0 Hr|fuel r rec r1 recs r' E0 Hr _ IH]; intros es st Ees Hes Hrep;
    cbn [recover_loop]; rewrite E0; cbn [mbind option_bind]; unfold reported; rewrite Hr, Hrep; cbn [head].
  - by destruct es.
  - destruct es as [|e es]; [done|]. injection Ees as -> ->. apply Forall_cons in Hes as [He Hes].
    cbn [ok negb]. rewrite recover_record_ok by done. cbn [ok fold_left]. apply IH; [done|done|congruence].
Qed.

Lemma fold_record_builder es : forall st,
  rec_builder (fold_left record_edit es st) = fold_left (Apply user_comparator_) es (rec_builder st).
Proof. induction es as [|e es IH]; intros st; [done|]. apply IH. Qed.

(** * The snapshot *)

Definition strip (f : FileMetaData) : FileMetaData :=
  newFileMetaData (number f) (file_size f) (smallest f) (largest f).

Lemma norm_fresh f : norm (fresh_file f) = norm f.
Proof. unfold fresh_file. by destruct (_ <? 100). Qed.

Lemma fold_spec_add fs : forall m, NoDup (numbers fs) -> fold_left spec_add fs m = files_map fs ∪ m.
Proof.
  induction fs as [|f fs IH]; intros m Hd; [simpl; symmetry; apply (left_id_L ∅ (∪))|].
  simpl in Hd. apply NoDup_cons in Hd as [Hf Hd]. cbn [fold_left]. rewrite IH by done.
  unfold spec_add. rewrite norm_fresh. change (files_map (f :: fs)) with (<[number f := norm f]> (files_map fs)).
  rewrite <- insert_union_l, insert_union_r; [done|].
  destruct (files_map fs !! number f) eqn:El; [|done]. exfalso. apply Hf, numbers_lookup; [done|by rewrite El].
Qed.

Lemma fold_left_concat {A B C} (g : A -> B -> A) (h : C -> list B) (l : list C) : forall a,
  fold_left (fun a x => fold_left g (h x) a) l a = fold_left g (concat (map h l)) a.
Proof. induction l as [|x l IH]; intros a; [done|]. simpl. by rewrite fold_left_app, IH. Qed.

(** The snapshot as a sequence of items. *)
Definition pointer_items (ps : list bytes) (level : nat) : list Item :=
  match nth level ps [] with [] => [] | key => [ICompactPointer (Z.of_nat level) key] end.
Definition file_items (v : Version) (level : nat) : list Item :=
  map (fun f => INewFile (Z.of_nat level) (number f) (file_size f) (smallest f) (largest f))
    (level_files v level).
Definition snapshot_items (vs : VersionSet F) : list Item :=
  IComparator comparator_name :: concat (map (pointer_items (vs_compact_pointer vs)) (seq 0 nlevels)) ++
  concat (map (file_items (current vs)) (seq 0 nlevels)).

Lemma fold_left_map_items {A} (g : A -> Item) l : forall e,
  fold_left item_apply (map g l) e = fold_left (fun e x => item_apply e (g x)) l e.
Proof. induction l as [|x l IH]; intros e; [done|]. apply IH. Qed.

Lemma snapshot_edit_items (vs : VersionSet F) :
  snapshot_edit comparator_name vs = fold_left item_apply (snapshot_items vs) newVersionEdit.
Proof.
  unfold snapshot_edit, snapshot_items. cbn [fold_left]. rewrite fold_left_app, <- !fold_left_concat.
  assert (Hext : forall (A B : Type) (f g : A -> B -> A) l a, (forall a x, f a x = g a x) ->
    fold_left f l a = fold_left g l a).
  { intros A B f g l a Hfg. revert a. induction l as [|x l IH]; intros a; [done|]. simpl. by rewrite Hfg, IH. }
  erewrite (Hext _ _ _ (fun a x => fold_left item_apply (file_items (current vs) x) a)).
  - f_equal. apply Hext. intros e level. unfold pointer_items. by destruct (nth level _ []).
  - intros e level. unfold file_items. by rewrite fold_left_map_items.
Qed.

(** What the items add to the lists of an edit. *)
Definition item_pointers (i : Item) : list (Z * bytes) :=
  match i with ICompactPointer l k => [(l, k)] | _ => [] end.
Definition item_files (i : Item) : list (Z * FileMetaData) :=
  match i with INewFile l n size lo hi => [(l, newFileMetaData n size lo hi)] | _ => [] end.

Lemma fold_items_lists its : forall e,
  compact_pointers_ (fold_left item_apply its e) =
    compact_pointers_ e ++ concat (map item_pointers its) /\
  new_files_ (fold_left item_apply its e) = new_files_ e ++ concat (map item_files its).
Proof.
  induction its as [|i its IH]; intros e; [by rewrite !app_nil_r|]. cbn [fold_left map concat].
  destruct (IH (item_apply e i)) as [-> ->]. destruct i; simpl; by rewrite <- ?app_assoc.
Qed.

Lemma fold_items_rest its : forall e,
  Forall (fun i => match i with ICompactPointer _ _ | INewFile _ _ _ _ _ => True | _ => False end) its ->
  let e' := fold_left item_apply its e in
  deleted_files_ e' = deleted_files_ e /\ comparator_ e' = comparator_ e /\
  has_comparator_ e' = has_comparator_ e /\ has_log_number_ e' = has_log_number_ e /\
  has_prev_log_number_ e' = has_prev_log_number_ e /\
  has_next_file_number_ e' = has_next_file_number_ e /\ has_last_sequence_ e' = has_last_sequence_ e.
Proof.
  induction its as [|i its IH]; intros e Hi; [done|]. apply Forall_cons in Hi as [Hi His].
  cbn [fold_left]. specialize (IH (item_apply e i) His). cbv zeta in IH |- *.
  destruct i; try done; exact IH.
Qed.

Lemma concat_map_nil {A B} (f : A -> list B) l : (forall x, x ∈ l -> f x = []) -> concat (map f l) = [].
Proof.
  induction l as [|x l IH]; intros Hf; [done|]. simpl. rewrite Hf by (by left). apply IH. intros; apply Hf; by right.
Qed.

Lemma concat_map_concat {A B C} (f : B -> list C) (h : A -> list B) l :
  concat (map f (concat (map h l))) = concat (map (fun x => concat (map f (h x))) l).
Proof. induction l as [|x l IH]; [done|]. simpl. by rewrite map_app, concat_app, IH. Qed.

Lemma snapshot_lists (vs : VersionSet F) : let e := snapshot_edit comparator_name vs in
  compact_pointers_ e = concat (map (fun level =>
    match nth level (vs_compact_pointer vs) [] with [] => [] | key => [(Z.of_nat level, key)] end)
    (seq 0 nlevels)) /\
  new_files_ e = concat (map (fun level =>
    (fun f => (Z.of_nat level, strip f)) <$> level_files (current vs) level) (seq 0 nlevels)) /\
  deleted_files_ e = [] /\ comparator_ e = comparator_name /\ has_log_number_ e = false /\
  has_prev_log_number_ e = false /\ has_next_file_number_ e = false /\ has_last_sequence_ e = false.
Proof.
  cbv zeta. rewrite snapshot_edit_items. unfold snapshot_items.
  destruct (fold_items_lists (IComparator comparator_name ::
    concat (map (pointer_items (vs_compact_pointer vs)) (seq 0 nlevels)) ++
    concat (map (file_items (current vs)) (seq 0 nlevels))) newVersionEdit) as [-> ->].
  cbn [map concat app item_pointers item_files compact_pointers_ new_files_ newVersionEdit Clear].
  rewrite !map_app, !concat_app, !concat_map_concat.
  assert (Hp : forall level, concat (map item_files (pointer_items (vs_compact_pointer vs) level)) = []).
  { intros level. unfold pointer_items. by destruct (nth level _ []). }
  assert (Hf : forall level, concat (map item_pointers (file_items (current vs) level)) = []).
  { intros level. unfold file_items. rewrite map_map. apply concat_map_nil. intros; reflexivity. }
  split; [|split].
  - rewrite (concat_map_nil (fun x => concat (map item_pointers (file_items (current vs) x)))) by auto.
    rewrite app_nil_r. f_equal. apply map_ext.
    intros level. unfold pointer_items. by destruct (nth level _ []).
  - rewrite (concat_map_nil (fun x => concat (map item_files (pointer_items (vs_compact_pointer vs) x)))) by auto.
    cbn [app]. f_equal. apply map_ext. intros level.
    unfold file_items. rewrite map_map. simpl.
    induction (level_files (current vs) level) as [|f fs IH]; [done|]. simpl. by rewrite IH.
  - cbn [fold_left item_apply].
    match goal with |- context [fold_left item_apply ?its ?e0] => pose proof (fold_items_rest its e0) as Hr end.
    cbv zeta in Hr. destruct Hr as (-> & -> & _ & -> & -> & -> & ->); [|done].
    apply Forall_app. split; apply Forall_concat, Forall_map, Forall_forall; intros level _.
    + unfold pointer_items. by destruct (nth level _ []); repeat constructor.
    + unfold file_items. apply Forall_map, Forall_forall. done.
Qed.

(** The numbers and keys of the version can be written. *)
Definition file_fits (f : FileMetaData) : Prop :=
  u64_ok (number f) /\ u64_ok (file_size f) /\ blen (smallest f) < 2 ^ 32 /\ blen (largest f) < 2 ^ 32.
Definition pointers_fit (ps : list bytes) : Prop :=
  length ps = nlevels /\ Forall (fun k => blen k < 2 ^ 32) ps.
Definition version_fits (v : Version) : Prop :=
  forall level, (level < nlevels)%nat -> Forall file_fits (level_files v level).

Lemma snapshot_readable (vs : VersionSet F) : blen comparator_name < 2 ^ 32 ->
  pointers_fit (vs_compact_pointer vs) -> version_fits (current vs) ->
  readable (snapshot_edit comparator_name vs).
Proof.
  intros Hn [Hlen Hp] Hv. split; [|intros _; by apply snapshot_lists].
  rewrite snapshot_edit_items. apply fold_apply_wf; [apply newVersionEdit_wf|].
  apply Forall_cons. split; [done|]. apply Forall_app.
  split; apply Forall_concat, Forall_map, Forall_forall; intros level [_ Hl]%elem_of_seq; cbn in Hl.
  - unfold pointer_items. destruct (nth level (vs_compact_pointer vs) []) as [|x k] eqn:Ek; [constructor|].
    apply Forall_singleton. split; [unfold level_ok; lia|].
    assert (Hk : vs_compact_pointer vs !! level = Some (x :: k)).
    { destruct (lookup_lt_is_Some_2 (vs_compact_pointer vs) level ltac:(lia)) as [y Hy].
      rewrite (nth_lookup_Some _ _ _ _ Hy) in Ek. by subst y. }
    rewrite Forall_lookup in Hp. by eapply Hp.
  - unfold file_items. apply Forall_map. specialize (Hv level ltac:(cbn; lia)).
    eapply Forall_impl; [exact Hv|]. intros f (H1 & H2 & H3 & H4). split; [unfold level_ok; lia|done].
Qed.

Lemma on_level_concat {A} level (g : nat -> list A) (l : list nat) : NoDup l -> level ∈ l ->
  on_level level (concat (map (fun lv => (fun x => (Z.of_nat lv, x)) <$> g lv) l)) = g level.
Proof.
  assert (Hone : forall lv fs, on_level level ((fun x : A => (Z.of_nat lv, x)) <$> fs) =
    if decide (lv = level) then fs else []).
  { intros lv fs. unfold on_level. induction fs as [|f fs IH]; [by destruct (decide _)|].
    rewrite fmap_cons, filter_cons. cbn [fst]. rewrite Nat2Z.id.
    destruct (decide (lv = level)); [cbn; by f_equal|done]. }
  assert (Happ : forall (a b : list (Z * A)), on_level level (a ++ b) = on_level level a ++ on_level level b).
  { intros a b. unfold on_level. by rewrite filter_app, fmap_app. }
  assert (Hnone : forall l, level ∉ l ->
    on_level level (concat (map (fun lv => (fun x => (Z.of_nat lv, x)) <$> g lv) l)) = []).
  { clear l. induction l as [|lv l IH]; intros Hl; [done|]. cbn [map concat].
    apply not_elem_of_cons in Hl as [Hne Hl]. rewrite Happ, Hone, IH by done.
    by rewrite decide_False. }
  intros Hd Hin. induction l as [|lv l IH]; [by apply elem_of_nil in Hin|]. cbn [map concat].
  apply NoDup_cons in Hd as [Hlv Hd]. rewrite Happ, Hone. apply elem_of_cons in Hin as [<-|Hin].
  - rewrite decide_True by done. rewrite Hnone by done. apply app_nil_r.
  - rewrite decide_False by (intros ->; done). by apply IH.
Qed.

Lemma snapshot_on_level (vs : VersionSet F) level : (level < nlevels)%nat ->
  on_level level (new_files_ (snapshot_edit comparator_name vs)) = strip <$> level_files (current vs) level.
Proof.
  intros Hl. destruct (snapshot_lists vs) as (_ & -> & _).
  rewrite <- (on_level_concat level (fun lv => strip <$> level_files (current vs) lv) (seq 0 nlevels)).
  - f_equal. f_equal. apply map_ext. intros lv. by rewrite <- list_fmap_compose.
  - apply NoDup_seq.
  - apply elem_of_seq. lia.
Qed.

Lemma numbers_strip l : numbers (strip <$> l) = numbers l.
Proof. unfold numbers. by rewrite <- list_fmap_compose. Qed.

Lemma files_map_strip l : files_map (strip <$> l) = files_map l.
Proof. unfold files_map. by rewrite <- list_fmap_compose. Qed.

(** Replaying the snapshot on an empty version gives the version back. *)
Lemma snapshot_spec (vs : VersionSet F) level : (level < nlevels)%nat ->
  NoDup (numbers (level_files (current vs) level)) ->
  spec_edit level ∅ (snapshot_edit comparator_name vs) = files_map (level_files (current vs) level).
Proof.
  intros Hl Hd. unfold spec_edit. rewrite snapshot_on_level by done.
  destruct (snapshot_lists vs) as (_ & _ & -> & _). cbn [on_level fold_left]. unfold on_level. cbn [fold_left].
  rewrite fold_spec_add by by rewrite numbers_strip. rewrite files_map_strip. apply (right_id_L ∅ (∪)).
Qed.

(** * Compaction pointers *)

Lemma set_pointers_length ps e : length (set_pointers ps e) = length ps.
Proof.
  unfold set_pointers. revert ps. induction (compact_pointers_ e) as [|cp l IH]; intros ps; [done|].
  cbn [fold_left]. by rewrite IH, length_insert.
Qed.

Lemma snapshot_pointers (vs : VersionSet F) : length (vs_compact_pointer vs) = nlevels ->
  set_pointers (replicate nlevels []) (snapshot_edit comparator_name vs) = vs_compact_pointer vs.
Proof.
  intros Hlen. unfold set_pointers. destruct (snapshot_lists vs) as (-> & _).
  set (ps := vs_compact_pointer vs) in *. set (ins := fun (ps : list bytes) (cp : Z * bytes) => _).
  set (h := fun level : nat => _).
  assert (Hk : forall k, (k <= nlevels)%nat -> fold_left ins (concat (map h (seq 0 k))) (replicate nlevels []) =
    take k ps ++ replicate (nlevels - k) []).
  { induction k as [|k IH]; intros Hk; [by rewrite Nat.sub_0_r|].
    rewrite seq_S, map_app, concat_app, fold_left_app, IH by lia. cbn [map concat]. rewrite app_nil_r, Nat.add_0_l.
    destruct (lookup_lt_is_Some_2 ps k ltac:(lia)) as [x Hx]. rewrite (take_S_r _ _ _ Hx).
    replace (nlevels - k)%nat with (S (nlevels - S k)) by lia. cbn [replicate].
    unfold h. rewrite (nth_lookup_Some _ _ _ _ Hx). rewrite <- app_assoc. cbn [app].
    destruct x as [|b x]; [done|]. cbn [fold_left ins fst snd]. unfold ins. cbn [fst snd]. rewrite Nat2Z.id.
    rewrite insert_app_r_alt by (rewrite length_take; lia). rewrite length_take, Nat.min_l, Nat.sub_diag by lia. done. }
  rewrite Hk by lia. by rewrite Nat.sub_diag, app_nil_r, take_ge by lia.
Qed.

Lemma set_pointers_lookup ps e i :
  set_pointers ps e !! i =
  match last (filter (fun cp => Z.to_nat cp.1 = i) (compact_pointers_ e)) with
  | Some cp => if decide (i < length ps)%nat then Some cp.2 else None
  | None => ps !! i
  end.
Proof.
  unfold set_pointers. induction (compact_pointers_ e) as [|cp l IH] using rev_ind; [done|].
  rewrite fold_left_app, filter_app, filter_cons, filter_nil. cbn [fold_left].
  assert (Hlen : length (fold_left (fun ps cp => <[Z.to_nat cp.1 := cp.2]> ps) l ps) = length ps).
  { clear. revert ps. induction l as [|cp l IH]; intros ps; [done|]. cbn [fold_left]. by rewrite IH, length_insert. }
  destruct (decide (Z.to_nat cp.1 = i)) as [<-|Hne].
  - rewrite last_snoc. destruct (decide _) as [Hl|Hl].
    + apply list_lookup_insert_eq. by rewrite Hlen.
    + apply lookup_ge_None. rewrite length_insert, Hlen. lia.
  - rewrite app_nil_r, list_lookup_insert_ne by done. exact IH.
Qed.

(** The pointers of an edit are written twice when it starts a MANIFEST: with
    the snapshot and with the edit. *)
Lemma set_pointers_twice ps e : set_pointers (set_pointers ps e) e = set_pointers ps e.
Proof.
  apply list_eq. intros i. rewrite set_pointers_lookup, set_pointers_length.
  destruct (last _) as [cp|] eqn:El; [|done]. by rewrite set_pointers_lookup, El.
Qed.

(** * One [LogAndApply] *)

(** Files can be created, and CURRENT can be switched. *)
Context (Hnew : forall env name, exists f env', NewWritableFile env name = (OK, f, env') /\ wcontents f = []).
Context (Hswitch : forall env n, exists env', SetCurrentFile env dbname_ n = (OK, env')).

Record numbers_ok (vs : VersionSet F) : Prop := {
  no_next : u64_ok (vs_next_file_number vs);
  no_seq : u64_ok (vs_last_sequence vs);
  no_log : u64_ok (vs_log_number vs);
  no_prev : u64_ok (vs_prev_log_number vs);
}.

(** An edit that a caller may hand in. *)
Definition edit_ready (log next : Z) (e : VersionEdit) : Prop :=
  edit_wf e /\ has_comparator_ e = false /\
  (has_log_number_ e = true -> log <= log_number_ e < next).

Lemma complete_edit_ok vs e : numbers_ok vs ->
  edit_ready (vs_log_number vs) (vs_next_file_number vs) e ->
  exists e', complete_edit vs e = Some e' /\ same_lists e e' /\ manifest_edit e' /\
    last_sequence_ e' = vs_last_sequence vs /\ next_file_number_ e' = vs_next_file_number vs /\
    log_number_ e' = (if has_log_number_ e then log_number_ e else vs_log_number vs).
Proof.
  intros [Hn Hs Hl Hp] (Hwf & Hc & Hlog). unfold complete_edit.
  assert (Hstep1 : exists e1, (if has_log_number_ e then
      if (vs_log_number vs <=? log_number_ e) && (log_number_ e <? vs_next_file_number vs)
      then Some e else None
    else Some (SetLogNumber e (vs_log_number vs))) = Some e1 /\ same_lists e e1 /\ edit_wf e1 /\
    has_comparator_ e1 = false /\ has_log_number_ e1 = true /\
    log_number_ e1 = (if has_log_number_ e then log_number_ e else vs_log_number vs)).
  { destruct (has_log_number_ e) eqn:Eh.
    - specialize (Hlog eq_refl). replace (_ && _) with true by lia. exists e. done.
    - eexists. split; [done|]. split; [done|]. split; [by apply (item_apply_wf e (ILogNumber _))|]. done. }
  destruct Hstep1 as (e1 & -> & Hsl & Hwf1 & Hc1 & Hh1 & Hl1). cbn [mbind option_bind].
  set (e2 := if has_prev_log_number_ e1 then e1 else _).
  assert (H2 : same_lists e1 e2 /\ edit_wf e2 /\ has_comparator_ e2 = false /\ has_log_number_ e2 = true /\
    has_prev_log_number_ e2 = true /\ log_number_ e2 = log_number_ e1).
  { unfold e2. destruct (has_prev_log_number_ e1) eqn:Ep; [done|].
    split; [done|]. split; [by apply (item_apply_wf e1 (IPrevLogNumber _))|]. done. }
  destruct H2 as (Hsl2 & Hwf2 & Hc2 & Hh2 & Hp2 & Hl2). eexists. split; [done|].
  split; [destruct Hsl as (? & ? & ?), Hsl2 as (? & ? & ?); repeat split; cbn; congruence|].
  split; [split; [|done..]|].
  - apply (item_apply_wf (SetNextFile e2 _) (ILastSequence _)); [|done].
    by apply (item_apply_wf e2 (INextFile _)).
  - split; [done|]. split; [done|]. cbn. by rewrite Hl2.
Qed.

(** What the state of a version set says about the edits that led to it. *)
Record after_edits (v0 : Version) (ps0 : list bytes) (vs : VersionSet F) (es : list VersionEdit) : Prop := {
  ae_levels : forall level, (level < nlevels)%nat -> sound level (level_files (current vs) level) /\
    files_map (level_files (current vs) level) =
      fold_left (spec_edit level) es (files_map (level_files v0 level));
  ae_pointers : vs_compact_pointer vs = fold_left set_pointers es ps0;
  ae_last : exists e, last es = Some e /\ vs_log_number vs = log_number_ e /\
    vs_prev_log_number vs = prev_log_number_ e /\ last_sequence_ e <= vs_last_sequence vs /\
    next_file_number_ e <= vs_next_file_number vs;
}.

Lemma levels_version_ok v : (forall level, (level < nlevels)%nat -> sound level (level_files v level)) ->
  version_ok user_comparator_ v.
Proof. intros Hv. apply Forall_forall. intros level [_ Hl]%elem_of_seq. by apply Hv. Qed.

#[local] Abbreviation log_and_apply :=
  (LogAndApply user_comparator_ comparator_name dbname_ NewWritableFile).

Lemma LogAndApply_ok vs env e frss recs : numbers_ok vs ->
  (forall w, descriptor_log_ vs = Some w -> log_holds w frss recs) -> length (vs_compact_pointer vs) = nlevels ->
  edit_ready (vs_log_number vs) (vs_next_file_number vs) e ->
  version_ok user_comparator_ (current vs) -> history user_comparator_ (current vs) [e] ->
  exists e' vs' env', complete_edit vs e = Some e' /\
    log_and_apply vs env e = Some (OK, vs', env') /\
    same_lists e e' /\ manifest_edit e' /\ numbers_ok vs' /\
    vs_next_file_number vs' = vs_next_file_number vs /\ vs_last_sequence vs' = vs_last_sequence vs /\
    vs_log_number vs' = (if has_log_number_ e then log_number_ e else vs_log_number vs) /\
    (forall v0 ps0 es,
       (forall level, (level < nlevels)%nat -> files_map (level_files (current vs) level) =
          fold_left (spec_edit level) es (files_map (level_files v0 level))) ->
       vs_compact_pointer vs = fold_left set_pointers es ps0 ->
       after_edits v0 ps0 vs' (es ++ [e'])) /\
    (exists w', descriptor_log_ vs' = Some w' /\
       match descriptor_log_ vs with
       | Some _ => exists frs, log_holds w' (frss ++ [frs]) (recs ++ [EncodeTo e' []])
       | None => exists frs1 frs2, log_holds w' [frs1; frs2] (map (fun e => EncodeTo e [])
           [snapshot_edit comparator_name (with_pointers vs (set_pointers (vs_compact_pointer vs) e')); e'])
       end).
Proof.
  intros Hnum Hlog0 Hlen He Hv Hh.
  destruct (complete_edit_ok vs e Hnum He) as (e' & Ec & Hsl & Hme & Hseq & Hnext & Hlog).
  destruct (apply_batch_spec user_comparator_ (vs_compact_pointer vs) (current vs) [e'] Hv)
    as (v' & Eb & Hlv).
  { unfold history in *. eapply Forall_impl; [exact Hh|]. intros level Hx.
    refine (level_history_same level [e] [e'] _ _ _ Hx). constructor; [done|constructor]. }
  unfold apply_batch in Eb. cbn [fold_left] in Eb.
  destruct (SaveTo user_comparator_ _ newVersion) as [v1|] eqn:Es; [|done]. cbn [mbind option_bind] in Eb.
  injection Eb as ->. set (ps := set_pointers (vs_compact_pointer vs) e').
  set (vs1 := with_pointers vs ps).
  assert (Hman : exists w env1 is_new, open_manifest comparator_name dbname_ NewWritableFile vs1 env =
      (OK, Some w, env1, is_new) /\
    match descriptor_log_ vs with
    | Some w0 => w = w0 /\ is_new = false
    | None => is_new = true /\ exists frs, log_holds w [frs] [EncodeTo (snapshot_edit comparator_name vs1) []]
    end).
  { unfold open_manifest. change (descriptor_log_ vs1) with (descriptor_log_ vs).
    destruct (descriptor_log_ vs) as [w|]; [by exists w, env, false|].
    destruct (Hnew env (DescriptorFileName dbname_ (vs_manifest_file_number vs1))) as (f & env1 & -> & Hf).
    cbn [ok]. unfold WriteSnapshot.
    destruct (log_holds_add (newWriter f) [] [] (EncodeTo (snapshot_edit comparator_name vs1) [])
      (log_holds_new f Hf)) as (frs & w & -> & Hw).
    exists w, env1, true. split; [done|]. split; [done|]. by exists frs. }
  destruct Hman as (w & env1 & is_new & Em & Hman).
  assert (Hwr : exists w', write_record w (EncodeTo e' []) = (OK, w') /\
    match descriptor_log_ vs with
    | Some _ => exists frs, log_holds w' (frss ++ [frs]) (recs ++ [EncodeTo e' []])
    | None => exists frs1 frs2, log_holds w' [frs1; frs2]
        (map (fun e => EncodeTo e []) [snapshot_edit comparator_name vs1; e'])
    end).
  { destruct (descriptor_log_ vs) as [w0|].
    - destruct Hman as [-> _].
      destruct (log_holds_write w0 _ _ (EncodeTo e' []) (Hlog0 w0 eq_refl)) as (frs & w' & -> & Hw'). eauto.
    - destruct Hman as (_ & frs & Hw).
      destruct (log_holds_write w _ _ (EncodeTo e' []) Hw) as (frs2 & w' & -> & Hw').
      exists w'. split; [done|]. by exists frs, frs2. }
  destruct Hwr as (w' & Ew & Hw').
  assert (Hsw : exists env2, (if ok OK && is_new then SetCurrentFile env1 dbname_ (vs_manifest_file_number vs1)
    else (OK, env1)) = (OK, env2)).
  { cbn [ok andb]. destruct is_new; [apply Hswitch|eauto]. }
  destruct Hsw as [env2 Esw].
  exists e', (with_numbers (AppendVersion (with_descriptor vs1 (Some w')) (Finalize v'))
    (vs_next_file_number vs) (vs_manifest_file_number vs) (vs_last_sequence vs)
    (log_number_ e') (prev_log_number_ e')), env2.
  split; [done|]. split.
  { unfold LogAndApply. rewrite Ec. cbn [mbind option_bind]. rewrite Es. cbn [mbind option_bind].
    change (compact_pointer_ _) with ps. fold vs1. rewrite Em. cbn [ok]. rewrite Ew. cbn iota zeta beta.
    rewrite Esw. done. }
  split; [done|]. split; [done|]. split.
  { destruct Hnum. pose proof (me_wf _ Hme) as Hwf. split; cbn; [done|done|apply Hwf|apply Hwf]. }
  split; [done|]. split; [done|]. split; [done|]. split.
  - intros v0 ps0 es Hm Hps. split.
    + intros level Hl. destruct (Hlv level Hl) as (Hs & Hf & _). split; [done|].
      rewrite fold_left_app. cbn [fold_left]. rewrite <- Hm by done. exact Hf.
    + rewrite fold_left_app, <- Hps. done.
    + exists e'. rewrite last_snoc. split; [done|]. cbn. rewrite Hseq, Hnext. repeat split; lia.
  - exists w'. split; [done|]. exact Hw'.
Qed.

(** * Runs of a database *)

(** What happens to the version set while the database runs. *)
Inductive SetOp :=
  | OpApply (e : VersionEdit)       (* LogAndApply *)
  | OpNewFile                       (* NewFileNumber *)
  | OpSequence (s : Z).             (* SetLastSequence *)

Definition set_step (vs : VersionSet F) (env : E) (op : SetOp) : option (VersionSet F * E) :=
  match op with
  | OpApply e => '(s, vs, env) ← log_and_apply vs env e; if ok s then Some (vs, env) else None
  | OpNewFile => Some ((NewFileNumber vs).2, env)
  | OpSequence s => vs ← vs_SetLastSequence vs s; Some (vs, env)
  end.

Fixpoint run (vs : VersionSet F) (env : E) (ops : list SetOp) : option (VersionSet F * E) :=
  match ops with
  | [] => Some (vs, env)
  | op :: ops' => '(vs, env) ← set_step vs env op; run vs env ops'
  end.

Definition op_edits (op : SetOp) : list VersionEdit := match op with OpApply e => [e] | _ => [] end.
Definition edits (ops : list SetOp) : list VersionEdit := concat (map op_edits ops).

(** The operations are called as they may be. *)
Fixpoint ops_ok (log next seq : Z) (ops : list SetOp) : Prop :=
  match ops with
  | [] => True
  | OpApply e :: ops' =>
      edit_ready log next e /\ ops_ok (if has_log_number_ e then log_number_ e else log) next seq ops'
  | OpNewFile :: ops' => next + 1 < 2 ^ 64 /\ ops_ok log (next + 1) seq ops'
  | OpSequence s :: ops' => seq <= s < 2 ^ 64 /\ ops_ok log next s ops'
  end.

#[local] Abbreviation vs_ops_ok vs := (ops_ok (vs_log_number vs) (vs_next_file_number vs) (vs_last_sequence vs)).

(** The edits to come keep the levels good. *)
Definition future (vs : VersionSet F) (seen : nat -> gset Z) (es : list VersionEdit) : Prop :=
  forall level, (level < nlevels)%nat ->
    (forall n, n ∈ numbers (level_files (current vs) level) -> n ∈ seen level) /\
    history_of level (seen level) (files_map (level_files (current vs) level)) es.

(** The MANIFEST holds the snapshot and the edits. *)
Record manifest_inv (v0 : Version) (ps0 : list bytes) (snap : VersionEdit) (vs : VersionSet F)
    (frss : list (list (Z * bytes))) (es : list VersionEdit) : Prop := {
  mi_after : after_edits v0 ps0 vs es;
  mi_log : exists w, descriptor_log_ vs = Some w /\ log_holds w frss (map (fun e => EncodeTo e []) (snap :: es));
  mi_edits : Forall manifest_edit es;
  mi_numbers : numbers_ok vs;
  mi_length : length (vs_compact_pointer vs) = nlevels;
}.

Lemma fold_set_pointers_length es : forall ps, length (fold_left set_pointers es ps) = length ps.
Proof. induction es as [|e es IH]; intros ps; [done|]. cbn [fold_left]. by rewrite IH, set_pointers_length. Qed.

Lemma future_step vs seen e es : future vs seen (e :: es) -> history user_comparator_ (current vs) [e].
Proof.
  intros Hf. apply Forall_forall. intros level [_ Hl]%elem_of_seq. destruct (Hf level ltac:(cbn in *; lia)) as [Hs Hh].
  destruct Hh as (H1 & H2 & H3 & _). split; [done|]. split; [|done].
  eapply Forall_impl; [exact H2|]. intros n Hn. rewrite elem_of_list_to_set. auto.
Qed.

(** After an edit the rest of the edits is still to come. *)
Lemma future_next vs vs' seen e e' es : version_ok user_comparator_ (current vs) ->
  future vs seen (e :: es) -> same_lists e e' ->
  (forall level, (level < nlevels)%nat -> sound level (level_files (current vs') level) /\
     files_map (level_files (current vs') level) = spec_edit level (files_map (level_files (current vs) level)) e') ->
  future vs' (fun level => seen level ∪ list_to_set (numbers (on_level level (new_files_ e)))) es.
Proof.
  intros Hv Hf Hsl Hm level Hl. destruct (Hf level Hl) as [Hs Hh]. destruct Hh as (_ & _ & _ & Hh).
  destruct (Hm level Hl) as [Hso Em]. rewrite Em, (spec_edit_same level _ e e' Hsl). split; [|done].
  intros n Hn. apply numbers_lookup in Hn; [|apply Hso]. rewrite Em, (spec_edit_same level _ e e' Hsl) in Hn.
  rewrite elem_of_union, elem_of_list_to_set. unfold spec_edit in Hn.
  apply spec_adds_dom in Hn as [Hn|Hn]; [by right|left]. apply Hs. apply spec_deletes_dom in Hn.
  apply numbers_lookup; [|done]. unfold version_ok in Hv. rewrite Forall_forall in Hv.
  apply (Hv level), elem_of_seq. lia.
Qed.

Lemma after_edits_ok v0 ps0 vs es : after_edits v0 ps0 vs es -> version_ok user_comparator_ (current vs).
Proof. intros [Hl _ _]. apply levels_version_ok. intros level Hlv. by apply Hl. Qed.

(** Counters may grow between edits. *)
Lemma manifest_inv_numbers v0 ps0 snap vs frss es next seq : manifest_inv v0 ps0 snap vs frss es ->
  vs_next_file_number vs <= next < 2 ^ 64 -> vs_last_sequence vs <= seq < 2 ^ 64 ->
  manifest_inv v0 ps0 snap (with_numbers vs next (vs_manifest_file_number vs) seq
    (vs_log_number vs) (vs_prev_log_number vs)) frss es.
Proof.
  intros [[H1 H2 (e & H3 & H4 & H5 & H6 & H7)] Hl He [N1 N2 N3 N4] Hn] Hx Hs. split; [split| | | |]; [done|done|..|done].
  - exists e. cbn. repeat split; [done..|lia|lia].
  - done.
  - done.
  - split; cbn [with_numbers vs_next_file_number vs_last_sequence vs_log_number vs_prev_log_number];
      unfold u64_ok in *; lia.
Qed.

Lemma set_run_spec v0 ps0 snap more ops : forall vs env frss es seen, manifest_inv v0 ps0 snap vs frss es ->
  vs_ops_ok vs (ops ++ more) -> future vs seen (edits (ops ++ more)) ->
  exists vs' env' frss' es', run vs env ops = Some (vs', env') /\
    manifest_inv v0 ps0 snap vs' (frss ++ frss') (es ++ es') /\ Forall2 same_lists (edits ops) es' /\
    length frss' = length es' /\ vs_ops_ok vs' more /\
    (exists seen', future vs' seen' (edits more)) /\
    forall j, (j <= length es')%nat -> exists opsa opsb vsj envj, ops = opsa ++ opsb /\
      run vs env opsa = Some (vsj, envj) /\ after_edits v0 ps0 vsj (es ++ take j es').
Proof.
  induction ops as [|op ops IH]; intros vs env frss es seen Hi Hok Hf.
  { exists vs, env, [], []. rewrite !app_nil_r. split; [done|]. split; [done|]. split; [constructor|].
    split; [done|]. split; [done|]. split; [by exists seen|]. intros j Hj. exists [], [], vs, env. split; [done|].
    split; [done|]. rewrite take_nil, app_nil_r. apply Hi. }
  assert (Hpass : forall vs1 env1, set_step vs env op = Some (vs1, env1) -> op_edits op = [] ->
    manifest_inv v0 ps0 snap vs1 frss es -> vs_ops_ok vs1 (ops ++ more) ->
    future vs1 seen (edits (ops ++ more)) ->
    exists vs' env' frss' es', run vs env (op :: ops) = Some (vs', env') /\
    manifest_inv v0 ps0 snap vs' (frss ++ frss') (es ++ es') /\ Forall2 same_lists (edits (op :: ops)) es' /\
    length frss' = length es' /\ vs_ops_ok vs' more /\
    (exists seen', future vs' seen' (edits more)) /\
    forall j, (j <= length es')%nat -> exists opsa opsb vsj envj, op :: ops = opsa ++ opsb /\
      run vs env opsa = Some (vsj, envj) /\ after_edits v0 ps0 vsj (es ++ take j es')).
  { intros vs1 env1 Es Ee Hi1 Hok1 Hf1. destruct (IH vs1 env1 frss es seen Hi1 Hok1 Hf1)
      as (vs' & env' & frss' & es' & Er & Hi' & Hsl & Hlen & Hom & Hfm & Hj).
    exists vs', env', frss', es'. cbn [run]. rewrite Es. split; [done|]. split; [done|].
    split; [unfold edits; cbn [map concat]; by rewrite Ee|]. split; [done|]. split; [done|]. split; [done|].
    intros j Hle.
    destruct (Hj j Hle) as (opsa & opsb & vsj & envj & -> & Ea & Hae). exists (op :: opsa), opsb, vsj, envj.
    split; [done|]. split; [cbn [run]; by rewrite Es|done]. }
  destruct op as [e| |s]; cbn [app ops_ok] in Hok; destruct Hok as [Hop Hok].
  - pose proof (after_edits_ok _ _ _ _ (mi_after _ _ _ _ _ _ Hi)) as Hv.
    destruct (mi_log _ _ _ _ _ _ Hi) as (w & Ew & Hw).
    destruct (LogAndApply_ok vs env e frss (map (fun e => EncodeTo e []) (snap :: es)))
      as (e' & vs1 & env1 & _ & Ea & Hsl & Hme & Hn1 & En & Eq & El & Hae & w' & Ew' & Hw');
      [apply Hi|intros w0 Ew0; rewrite Ew in Ew0; by injection Ew0 as <-|apply Hi|done|done|exact (future_step vs seen e (edits (ops ++ more)) Hf)|].
    rewrite Ew in Hw'. destruct Hw' as [frs Hw'].
    assert (Hi1 : manifest_inv v0 ps0 snap vs1 (frss ++ [frs]) (es ++ [e'])).
    { assert (Hae1 : after_edits v0 ps0 vs1 (es ++ [e'])) by (apply Hae; apply Hi). split.
      - done.
      - exists w'. split; [done|]. cbn [map] in *. rewrite map_app. exact Hw'.
      - apply Forall_app. split; [apply Hi|by apply Forall_singleton].
      - done.
      - rewrite (ae_pointers _ _ _ _ Hae1), fold_set_pointers_length.
        rewrite <- (fold_set_pointers_length es ps0), <- (ae_pointers _ _ _ _ (mi_after _ _ _ _ _ _ Hi)). apply Hi. }
    destruct (IH vs1 env1 (frss ++ [frs]) (es ++ [e'])
      (fun level => seen level ∪ list_to_set (numbers (on_level level (new_files_ e)))) Hi1)
      as (vs' & env' & frss' & es' & Er & Hi' & Hsl' & Hlen & Hom & Hfm & Hj).
    + by rewrite El, En, Eq.
    + apply (future_next vs vs1 seen e e'); [done|exact Hf|done|]. intros level Hl.
      split; [apply (ae_levels _ _ _ _ (mi_after _ _ _ _ _ _ Hi1) level Hl)|].
      destruct (ae_levels _ _ _ _ (mi_after _ _ _ _ _ _ Hi1) level Hl) as [_ ->].
      rewrite fold_left_app. cbn [fold_left].
      by destruct (ae_levels _ _ _ _ (mi_after _ _ _ _ _ _ Hi) level Hl) as [_ ->].
    + assert (Es : set_step vs env (OpApply e) = Some (vs1, env1)) by (cbn [set_step]; by rewrite Ea).
      exists vs', env', (frs :: frss'), (e' :: es'). rewrite <- !app_assoc in Hi'. split; [cbn [run]; by rewrite Es|].
      split; [done|]. split; [by constructor|]. split; [simpl; lia|]. split; [done|]. split; [done|]. intros [|j] Hle.
      * exists [], (OpApply e :: ops), vs, env. split; [done|]. split; [done|].
        rewrite take_0, app_nil_r. apply Hi.
      * destruct (Hj j ltac:(simpl in Hle; lia)) as (opsa & opsb & vsj & envj & -> & Ero & Haj).
        exists (OpApply e :: opsa), opsb, vsj, envj. split; [done|]. split; [cbn [run]; by rewrite Es|].
        rewrite <- app_assoc in Haj. exact Haj.
  - destruct (mi_numbers _ _ _ _ _ _ Hi) as [Hn Hs _ _]. unfold u64_ok in *.
    apply (Hpass (NewFileNumber vs).2 env); [done|done| | |exact Hf].
    + cbn [NewFileNumber snd]. rewrite u64_small by lia. apply manifest_inv_numbers; [done|lia|lia].
    + cbn. by rewrite u64_small by lia.
  - destruct (mi_numbers _ _ _ _ _ _ Hi) as [Hn Hs _ _]. unfold u64_ok in *.
    assert (Es : vs_SetLastSequence vs s = Some (with_numbers vs (vs_next_file_number vs) (vs_manifest_file_number vs) s
      (vs_log_number vs) (vs_prev_log_number vs))).
    { unfold vs_SetLastSequence. by replace (vs_last_sequence vs <=? s) with true by lia. }
    eapply Hpass; [cbn [set_step]; by rewrite Es|done| | |exact Hf].
    + apply manifest_inv_numbers; [done|lia|lia].
    + done.
Qed.

(** * Recovery *)

Context (reuse_logs : bool) (max_file_size : Z).
Context (GetFileSize : E -> bytes -> Status * Z) (NewAppendableFile : E -> bytes -> Status * F * E).
#[local] Abbreviation recover :=
  (Recover user_comparator_ comparator_name dbname_ NewSequentialFile reuse_logs max_file_size
     GetFileSize NewAppendableFile).

Lemma recovered_numbers es e st : Forall manifest_edit es -> last es = Some e ->
  let st' := fold_left record_edit es st in
  rec_log_number st' = Some (log_number_ e) /\ rec_prev_log_number st' = Some (prev_log_number_ e) /\
  rec_next_file st' = Some (next_file_number_ e) /\ rec_last_sequence st' = Some (last_sequence_ e).
Proof.
  intros Hes Hl. destruct es as [|e' es _] using rev_ind; [done|]. rewrite last_snoc in Hl. injection Hl as ->.
  apply Forall_app in Hes as [_ He]. rewrite Forall_singleton in He. destruct He as [_ _ Hl Hp Hn Hs].
  cbv zeta. rewrite fold_left_app. cbn [fold_left record_edit rec_log_number rec_prev_log_number rec_next_file rec_last_sequence].
  by rewrite Hl, Hp, Hn, Hs.
Qed.

Lemma pointers_fit_set ps e : pointers_fit ps -> edit_wf e -> pointers_fit (set_pointers ps e).
Proof.
  intros [Hlen Hp] He. split; [by rewrite set_pointers_length|]. pose proof (wf_cp _ He) as Hcp.
  unfold set_pointers. clear Hlen. revert ps Hp.
  induction Hcp as [|cp l [_ Hk] _ IH]; intros ps Hp; [done|]. cbn [fold_left]. apply IH. by apply Forall_insert.
Qed.

Lemma newVersion_level level : (level < nlevels)%nat -> level_files newVersion level = [].
Proof.
  intros Hl. unfold level_files. change nlevels with 7%nat in Hl. do 7 (destruct level as [|level]; [done|]). lia.
Qed.

(** The MANIFEST is a history from the empty version. *)
Lemma snapshot_history (vs : VersionSet F) es : version_ok user_comparator_ (current vs) ->
  history user_comparator_ (current vs) es ->
  history user_comparator_ newVersion (snapshot_edit comparator_name vs :: es).
Proof.
  intros Hv Hh. apply Forall_forall. intros level Hin. pose proof Hin as [_ Hl]%elem_of_seq. cbn in Hl.
  unfold version_ok, history in *. rewrite Forall_forall in Hv, Hh. specialize (Hv level Hin). specialize (Hh level Hin).
  rewrite newVersion_level by done. cbn [level_history].
  change (files_map []) with (∅ : gmap Z FileMetaData). rewrite snapshot_on_level, numbers_strip by done.
  rewrite snapshot_spec by (done || apply Hv). split; [apply Hv|]. split; [|split; [apply Hv|]].
  - apply Forall_forall. intros n _. set_solver.
  - change (list_to_set (numbers [])) with (∅ : gset Z). by rewrite union_empty_l_L.
Qed.

Lemma Mark_pointers (vs : VersionSet F) n :
  vs_compact_pointer (MarkFileNumberUsed vs n) = vs_compact_pointer vs.
Proof. unfold MarkFileNumberUsed. by destruct (_ <=? n). Qed.

(** [ReuseManifest] changes nothing of the recovered state. *)
Lemma ReuseManifest_frame (vsr : VersionSet F) env dscname name : exists vs' env' b,
  ReuseManifest reuse_logs max_file_size GetFileSize NewAppendableFile vsr env dscname name = (b, vs', env') /\
  current vs' = current vsr /\ vs_compact_pointer vs' = vs_compact_pointer vsr /\ vs_log_number vs' = vs_log_number vsr /\
  vs_prev_log_number vs' = vs_prev_log_number vsr /\ vs_last_sequence vs' = vs_last_sequence vsr /\
  vs_next_file_number vs' = vs_next_file_number vsr.
Proof.
  unfold ReuseManifest. destruct (negb reuse_logs); [by eauto 12|].
  destruct (ParseFileName name) as [[num []]|]; try by eauto 12.
  destruct (GetFileSize env _) as [s size]. destruct (_ || _); [by eauto 12|].
  destruct (NewAppendableFile env _) as [[s2 f] env2]. destruct (negb (ok s2)); by eauto 12.
Qed.

(** A MANIFEST of readable edits leads to the version that the edits make of an
    empty one, and to the numbers that they name last. *)
Lemma recover_edits es env cur g name fuel r : let st := fold_left record_edit es (newRecovered (F := F) newVersionSet) in
  Forall readable es -> history user_comparator_ newVersion es -> check_recovered st = OK ->
  NewSequentialFile env (CurrentFileName dbname_) = (OK, cur) -> scontents cur = name ++ [x0a] ->
  (length (scontents cur) < fuel)%nat ->
  NewSequentialFile env (dbname_ ++ str "/" ++ name) = (OK, g) ->
  ReadSteps fuel (newReader g true true 0) (map (fun e => EncodeTo e []) es) r ->
  exists vs' env' save, recover fuel newVersionSet env = Some (OK, vs', env', save) /\
    (forall level, (level < nlevels)%nat -> sound level (level_files (current vs') level) /\
       files_map (level_files (current vs') level) = fold_left (spec_edit level) es ∅) /\
    vs_compact_pointer vs' = fold_left set_pointers es (replicate nlevels []) /\
    vs_log_number vs' = default 0 (rec_log_number st) /\ vs_prev_log_number vs' = default 0 (rec_prev_log_number st) /\
    vs_last_sequence vs' = default 0 (rec_last_sequence st) /\ vs_next_file_number vs' = u64 (default 0 (rec_next_file st) + 1).
Proof.
  intros st Hes Hh Hc Ecur Ccur Hfc Eg Hrs. unfold Recover, ReadFileToString. rewrite Ecur. cbn [ok negb]. rewrite read_file_ok by done.
  cbn [mbind option_bind app ok negb]. rewrite Ccur, last_snoc. rewrite bool_decide_true by done. cbn [negb].
  replace (btake (blen (name ++ [x0a]) - 1) (name ++ [x0a])) with name
    by (rewrite blen_app; change (blen [x0a]) with 1; symmetry; apply btake_app_n; lia).
  rewrite Eg. cbn [ok negb]. rewrite (recover_loop_ok fuel _ _ r Hrs es) by done. cbn [mbind option_bind ok negb]. fold st.
  assert (Eb : rec_builder st = fold_left (Apply user_comparator_) es (newBuilder (replicate nlevels []) newVersion))
    by (unfold st; by rewrite fold_record_builder).
  destruct (apply_batch_spec user_comparator_ (replicate nlevels []) newVersion es (newVersion_ok _) Hh) as (v' & Ev & Hl').
  unfold apply_batch in Ev. rewrite <- Eb in Ev.
  destruct (SaveTo user_comparator_ (rec_builder st) newVersion) as [v1|] eqn:Es; [|done].
  cbn [mbind option_bind] in Ev. injection Ev as ->.
  unfold install_recovered. rewrite Hc, Es. cbn [ok negb mbind option_bind]. set (vsr := with_numbers _ _ _ _ _ _).
  destruct (ReuseManifest_frame vsr env (dbname_ ++ str "/" ++ name) name) as (vs' & env' & b & -> & Ecu & Epo & Elo & Epr & Ese & Ene).
  exists vs', env', (negb b). split; [done|]. rewrite Ecu, Epo, Elo, Epr, Ese, Ene. split_and!; try done.
  - intros level Hl. destruct (Hl' level Hl) as (Hs & M1 & _). rewrite newVersion_level in M1 by done. by split.
  - unfold vsr. cbn [with_numbers vs_compact_pointer AppendVersion]. rewrite !Mark_pointers.
    cbn [with_pointers vs_compact_pointer]. by rewrite Eb, fold_Apply_pointers.
Qed.

(** Recovering a snapshot and edits leads to the state after the edits. *)
Lemma recover_ok (vs0 vsk : VersionSet F) ps0 snap es env cur g name fuel r :
  let vss := with_pointers vs0 ps0 in
  snap = snapshot_edit comparator_name vss -> readable snap -> Forall manifest_edit es ->
  version_ok user_comparator_ (current vs0) -> history user_comparator_ (current vs0) es ->
  length ps0 = nlevels -> after_edits (current vs0) ps0 vsk es ->
  NewSequentialFile env (CurrentFileName dbname_) = (OK, cur) -> scontents cur = name ++ [x0a] ->
  (length (scontents cur) < fuel)%nat ->
  NewSequentialFile env (dbname_ ++ str "/" ++ name) = (OK, g) ->
  ReadSteps fuel (newReader g true true 0) (map (fun e => EncodeTo e []) (snap :: es)) r ->
  exists vs' env' save, recover fuel newVersionSet env = Some (OK, vs', env', save) /\
    (forall level, (level < nlevels)%nat ->
       norm <$> level_files (current vs') level = norm <$> level_files (current vsk) level) /\
    vs_compact_pointer vs' = vs_compact_pointer vsk /\ vs_log_number vs' = vs_log_number vsk /\
    vs_prev_log_number vs' = vs_prev_log_number vsk /\ vs_last_sequence vs' <= vs_last_sequence vsk.
Proof.
  intros vss -> Hsnap Hes Hv Hh Hlen [Hlv Hps (e & Hlast & Hlog & Hprev & Hseq & Hnext)] Ecur Ccur Hfc Eg Hrs.
  set (snap := snapshot_edit comparator_name vss) in *.
  destruct (recovered_numbers es e (record_edit (newRecovered (F := F) newVersionSet) snap) Hes Hlast) as (R1 & R2 & R3 & R4).
  destruct (recover_edits (snap :: es) env cur g name fuel r) as (vs' & env' & save & E1 & Hl' & H1 & H2 & H3 & H4 & _); [|by apply snapshot_history| |done..|].
  { apply Forall_cons. split; [done|]. eapply Forall_impl; [exact Hes|]. intros x [Hw Hc _ _ _ _]. split; [done|]. by rewrite Hc. }
  { unfold check_recovered. cbn [fold_left]. by rewrite R1, R3, R4. }
  cbn [fold_left] in *. rewrite R1 in H2. rewrite R2 in H3. rewrite R4 in H4. exists vs', env', save. split; [done|]. split; [|split_and!].
  - intros level Hl. destruct (Hl' level Hl) as ([S1 S2 _] & M1), (Hlv level Hl) as [[T1 T2 _] M2].
    apply (sorted_level_unique user_comparator_); [exact S2|exact T2|exact S1|exact T1|]. rewrite M1, M2.
    unfold snap. rewrite snapshot_spec; [done|done|].
    unfold version_ok in Hv. rewrite Forall_forall in Hv. apply (Hv level), elem_of_seq. cbn. lia.
  - rewrite H1, Hps. unfold snap. by rewrite snapshot_pointers.
  - by rewrite H2.
  - by rewrite H3.
  - rewrite H4. exact Hseq.
Qed.

Lemma after_edits_snapshot v0 ps vs e es : after_edits v0 ps vs (e :: es) ->
  after_edits v0 (set_pointers ps e) vs (e :: es).
Proof. intros [H1 H2 H3]. split; [done| |done]. rewrite H2. cbn [fold_left]. by rewrite set_pointers_twice. Qed.

Lemma edits_app ops1 ops2 : edits (ops1 ++ ops2) = edits ops1 ++ edits ops2.
Proof. unfold edits. by rewrite map_app, concat_app. Qed.

(** C2: crash recovery of the file set.  A version set opens a MANIFEST with its
    first edit and goes on with any sequence of edits, new file numbers and new
    sequence numbers.  If a crash leaves the MANIFEST with at least the bytes it
    had when the operations [ops1] were done (edits are synced, so a crash loses
    only bytes written later), and CURRENT names it, then [Recover] on a fresh
    version set succeeds and rebuilds the state after [ops1] and some of the
    operations that followed: the same files in every level and in the same
    order, the same compaction pointers and log numbers, and a last sequence
    number that is not ahead. *)
Theorem manifest_crash_recovery (vs0 : VersionSet F) (env0 : E) (e1 : VersionEdit) (ops1 ops2 : list SetOp) :
  descriptor_log_ vs0 = None -> numbers_ok vs0 -> pointers_fit (vs_compact_pointer vs0) ->
  version_fits (current vs0) -> version_ok user_comparator_ (current vs0) -> blen comparator_name < 2 ^ 32 ->
  ops_ok (vs_log_number vs0) (vs_next_file_number vs0) (vs_last_sequence vs0) (OpApply e1 :: ops1 ++ ops2) ->
  history user_comparator_ (current vs0) (edits (OpApply e1 :: ops1 ++ ops2)) ->
  exists vs1 env1 vs2 env2 w1 w2,
    run vs0 env0 (OpApply e1 :: ops1) = Some (vs1, env1) /\ run vs1 env1 ops2 = Some (vs2, env2) /\
    descriptor_log_ vs1 = Some w1 /\ descriptor_log_ vs2 = Some w2 /\
    forall n env cur g name fuel,
      blen (wcontents (dest_ w1)) <= n ->
      NewSequentialFile env (CurrentFileName dbname_) = (OK, cur) -> scontents cur = name ++ [x0a] ->
      NewSequentialFile env (dbname_ ++ str "/" ++ name) = (OK, g) ->
      scontents g = btake n (wcontents (dest_ w2)) ->
      blen (scontents cur) < Z.of_nat fuel -> blen (scontents g) + 1 < Z.of_nat fuel ->
      exists opsa opsb vsk envk vs' env' save,
        ops2 = opsa ++ opsb /\ run vs1 env1 opsa = Some (vsk, envk) /\
        recover fuel newVersionSet env = Some (OK, vs', env', save) /\
        (forall level, (level < nlevels)%nat ->
           norm <$> level_files (current vs') level = norm <$> level_files (current vsk) level) /\
        vs_compact_pointer vs' = vs_compact_pointer vsk /\ vs_log_number vs' = vs_log_number vsk /\
        vs_prev_log_number vs' = vs_prev_log_number vsk /\ vs_last_sequence vs' <= vs_last_sequence vsk.
Proof.
  intros Hd Hnum Hpf Hvf Hv Hname Hok Hh. set (v0 := current vs0) in *. set (ps := vs_compact_pointer vs0) in *.
  set (seen0 := fun level => list_to_set (numbers (level_files v0 level)) : gset Z).
  assert (Hfut : future vs0 seen0 (edits (OpApply e1 :: ops1 ++ ops2))).
  { intros level Hl. split; [intros k; unfold seen0; by rewrite elem_of_list_to_set|].
    unfold history in Hh. rewrite Forall_forall in Hh. apply Hh, elem_of_seq. lia. }
  destruct Hok as [He1 Hok]. change (edits (OpApply e1 :: ops1 ++ ops2)) with (e1 :: edits (ops1 ++ ops2)) in *.
  destruct (LogAndApply_ok vs0 env0 e1 [] []) as (e' & vsa & enva & _ & Ea & Hsl & Hme & Hna & En & Eq & El & Hae & wa & Ewa & Hwa);
    [done|by intros w; rewrite Hd|apply Hpf|done|done|exact (future_step _ _ _ _ Hfut)|].
  rewrite Hd in Hwa. destruct Hwa as (frs1 & frs2 & Hwa).
  set (snap := snapshot_edit comparator_name (with_pointers vs0 (set_pointers ps e'))) in *.
  assert (Ha0 : after_edits v0 ps vsa ([] ++ [e'])) by (by apply Hae).
  assert (Hia : manifest_inv v0 ps snap vsa [frs1; frs2] [e']).
  { split; [done| |by apply Forall_singleton|done|].
    - exists wa. done.
    - rewrite (ae_pointers _ _ _ _ Ha0), fold_set_pointers_length. apply Hpf. }
  assert (Hfa : future vsa (fun level => seen0 level ∪ list_to_set (numbers (on_level level (new_files_ e1))))
    (edits (ops1 ++ ops2))).
  { apply (future_next vs0 vsa seen0 e1 e'); [done|done|done|]. intros level Hl.
    destruct (ae_levels _ _ _ _ Ha0 level Hl) as [Hs ->]. done. }
  assert (Hoka : vs_ops_ok vsa (ops1 ++ ops2)) by (by rewrite El, En, Eq).
  destruct (set_run_spec v0 ps snap ops2 ops1 vsa enva _ _ _ Hia Hoka Hfa)
    as (vs1 & env1 & frssa & esa & Er1 & Hi1 & Hsl1 & Hlen1 & Hok2 & [seen1 Hf2] & _).
  rewrite <- (app_nil_r ops2) in Hok2, Hf2.
  destruct (set_run_spec v0 ps snap [] ops2 vs1 env1 _ _ _ Hi1 Hok2 Hf2)
    as (vs2 & env2 & frssb & esb & Er2 & Hi2 & Hsl2 & Hlen2 & _ & _ & Hj).
  destruct (mi_log _ _ _ _ _ _ Hi1) as (w1 & Ew1 & Hw1). destruct (mi_log _ _ _ _ _ _ Hi2) as (w2 & Ew2 & Hw2).
  exists vs1, env1, vs2, env2, w1, w2. split.
  { cbn [run set_step]. by rewrite Ea. }
  split; [done|]. split; [done|]. split; [done|].
  intros n env cur g name fuel Hn Ecur Ccur Eg Cg Hfc Hfg.
  set (enc := fun e => EncodeTo e []) in *.
  set (es1 := e' :: esa). change ([e'] ++ esa) with es1 in *.
  rewrite app_comm_cons, map_app in Hw2.
  destruct (log_holds_read w2 _ _ _ _ n g fuel Hw2) as (k & r & Hk & Hrs);
    [|by rewrite <- (lh_contents _ _ _ Hw1)|done|done|].
  { rewrite length_map. unfold es1. rewrite length_app. simpl. lia. }
  rewrite length_map in Hk. destruct (Hj k Hk) as (opsa & opsb & vsk & envk & Eops & Erk & Haek).
  rewrite firstn_map, <- map_app in Hrs. cbn [app] in Hrs.
  assert (Hall : Forall manifest_edit (es1 ++ esb)) by apply Hi2.
  assert (Hallk : Forall manifest_edit (es1 ++ take k esb)).
  { apply Forall_app in Hall as [H1 H2]. apply Forall_app. split; [done|by apply Forall_take]. }
  assert (Hhk : history user_comparator_ v0 (es1 ++ take k esb)).
  { unfold history in *. eapply Forall_impl; [exact Hh|]. intros level Hx.
    apply (level_history_app _ _ (drop k esb)). rewrite <- app_assoc, take_drop.
    refine (level_history_same level _ _ _ _ _ Hx). unfold es1. rewrite edits_app. constructor; [done|].
    by apply Forall2_app. }
  destruct (recover_ok vs0 vsk (set_pointers ps e') snap (es1 ++ take k esb) env cur g name fuel r)
    as (vs' & env' & save & Erec & Hlv & Hps & Hlg & Hpv & Hsq);
    [done| |done|done|done|by rewrite set_pointers_length; apply Hpf|by apply after_edits_snapshot
    |done|done|unfold blen in Hfc; lia|done|done|].
  { apply snapshot_readable; [done| |done]. by apply pointers_fit_set; [|apply (me_wf _ Hme)]. }
  exists opsa, opsb, vsk, envk, vs', env', save. done.
Qed.
End Manifest.

(** A database that is opened, flushes a memtable and compacts it; the crash takes
    no byte away. *)
Definition demo_edit1 : VersionEdit := SetLogNumber newVersionEdit 0.
Definition demo_edit2 : VersionEdit :=
  AddFile newVersionEdit 0 2 20000 (mkInternalKey (str "a") 5 kTypeValue) (mkInternalKey (str "k") 1 kTypeValue).
Definition demo_edit3 : VersionEdit :=
  AddFile (DeleteFile newVersionEdit 0 2) 1 2 20000
    (mkInternalKey (str "a") 5 kTypeValue) (mkInternalKey (str "k") 1 kTypeValue).

Definition demo_open (env : flat_fs) (name : bytes) : Status * flat_file :=
  match env name with Some c => (OK, c) | None => (NotFound name [], []) end.

Definition demo_env (manifest : bytes) : flat_fs :=
  fs_put (fs_put (fun _ => None) (CurrentFileName (str "db")) (Some (str "MANIFEST-000000" ++ [x0a])))
    (str "db/MANIFEST-000000") (Some manifest).

Lemma manifest_crash_recovery_witness :
  exists vs2 env2 w2 vs' env' save,
    @run flat_fs flat_file _ _ (crc32c_checksum 0) BytewiseComparator (str "cmp") (str "db")
      (fun env _ => (OK, [], env)) newVersionSet (fun _ => None)
      [OpApply demo_edit1; OpNewFile; OpApply demo_edit2; OpApply demo_edit3] = Some (vs2, env2) /\
    descriptor_log_ vs2 = Some w2 /\
    @Recover flat_fs flat_file flat_file _ (crc32c_checksum 0) BytewiseComparator (str "cmp") (str "db")
      demo_open false 2097152 (fun _ _ => (OK, 0)) (fun env _ => (OK, [], env))
      (1000 + Z.to_nat (blen (dest_ w2))) newVersionSet (demo_env (dest_ w2)) = Some (OK, vs', env', save) /\
    norm <$> level_files (current vs') 1 = norm <$> level_files (current vs2) 1.
Proof.
  destruct (@manifest_crash_recovery flat_fs flat_file flat_file _ _ flat_writable_ok _ flat_sequential_ok
    (crc32c_checksum 0) BytewiseComparator BytewiseComparator_ok (str "cmp") (str "db")
    (fun env _ => (OK, [], env)) demo_open) with (reuse_logs := false) (max_file_size := 2097152)
    (GetFileSize := fun (_ : flat_fs) (_ : bytes) => (OK, 0))
    (NewAppendableFile := fun (env : flat_fs) (_ : bytes) => (OK, [] : flat_file, env))
    (vs0 := @newVersionSet flat_file) (env0 := (fun _ => None) : flat_fs) (e1 := demo_edit1)
    (ops1 := [OpNewFile; OpApply demo_edit2; OpApply demo_edit3]) (ops2 := @nil SetOp)
    as (vs1 & env1 & vs2 & env2 & w1 & w2 & E1 & E2 & Ew1 & Ew2 & Hrec).
  - intros env name. by exists [], env.
  - intros env n. unfold SetCurrentFile, WriteStringToFileSync, DoWriteStringToFile.
    cbn [fs_create fs_append fs_sync fs_close fs_rename flat_filesystem ok negb andb]. eauto.
  - reflexivity.
  - split; vm_compute; split; discriminate || reflexivity.
  - split; [reflexivity|]. repeat constructor.
  - intros level Hl. rewrite newVersion_level by exact Hl. constructor.
  - apply newVersion_ok.
  - vm_compute. reflexivity.
  - cbn [ops_ok app]. unfold edit_ready.
    assert (W1 : edit_wf demo_edit1) by (apply (item_apply_wf newVersionEdit (ILogNumber 0)); [apply newVersionEdit_wf|vm_compute; split; [discriminate|reflexivity]]).
    assert (W2 : edit_wf demo_edit2).
    { apply (item_apply_wf newVersionEdit (INewFile 0 2 20000 _ _)); [apply newVersionEdit_wf|].
      repeat split; vm_compute; discriminate || reflexivity. }
    assert (W3 : edit_wf demo_edit3).
    { apply (item_apply_wf _ (INewFile 1 2 20000 _ _)).
      - apply (item_apply_wf newVersionEdit (IDeletedFile 0 2)); [apply newVersionEdit_wf|].
        repeat split; vm_compute; discriminate || reflexivity.
      - repeat split; vm_compute; discriminate || reflexivity. }
    split; [split; [exact W1|]; split; [reflexivity|]; intros _; vm_compute; by split|].
    split; [reflexivity|].
    split; [split; [exact W2|]; split; [reflexivity|]; intros K; discriminate K|].
    split; [split; [exact W3|]; split; [reflexivity|]; intros K; discriminate K|exact I].
  - apply (bool_decide_unpack _). vm_compute. exact I.
  - cbn [run] in E2. injection E2 as <- <-. rewrite Ew1 in Ew2. injection Ew2 as <-.
    destruct (Hrec (blen (dest_ w1)) (demo_env (dest_ w1)) (str "MANIFEST-000000" ++ [x0a]) (dest_ w1)
      (str "MANIFEST-000000") (1000 + Z.to_nat (blen (dest_ w1)))%nat)
      as (opsa & opsb & vsk & envk & vs' & env' & save & Eo & Ek & Er & Hl & _).
    + cbn. lia.
    + reflexivity.
    + reflexivity.
    + reflexivity.
    + cbn. symmetry. apply btake_all. lia.
    + change (scontents _) with (str "MANIFEST-000000" ++ [x0a]). change (blen (str "MANIFEST-000000" ++ [x0a])) with 16. lia.
    + cbn [scontents flat_sequential_ok]. pose proof (blen_nonneg (dest_ w1)). lia.
    + destruct opsa; [|done]. cbn [run] in Ek. injection Ek as <- <-.
      exists vs1, env1, w1, vs', env', save. split; [exact E1|]. split; [exact Ew1|]. split; [exact Er|].
      apply Hl. vm_compute. lia.
Defined.
