(* ===== verification/VersionGc.v ===== *)
(** Readers and the garbage collection of files: readers hold references on
    versions while new versions are installed (VersionSet), and
    [DBImpl::DeleteObsoleteFiles] removes the tables that no live version names.

    The steps are those of db/db_impl.cc: [DBImpl::Get] and the iterators take a
    reference on the current version under the mutex and drop it later;
    [LogAndApply] installs a new version. *)

From stdpp Require Import base gmap list sorting strings.
From S2P Require Import Prelude Status Coding Crc32c Env Logging Log Comparator DbFormat VersionEdit Version VersionBuilder Filename VersionSet.
From Stdlib Require Import Strings.Byte.

#[local] Open Scope Z_scope.

Section Gc.
Context {E F : Type} `{!FileSystem E} `{!WritableFile F} `{!Checksum}.
Context (user_comparator_ : Comparator) (comparator_name dbname_ : bytes).
Context (NewWritableFile : E -> bytes -> Status * F * E).
#[local] Abbreviation VS := (VersionSet F).

Definition with_versions (vs : VS) (l : list LiveVersion) : VS :=
  mkVersionSet (vs_next_file_number vs) (vs_manifest_file_number vs) (vs_last_sequence vs)
    (vs_log_number vs) (vs_prev_log_number vs) (descriptor_log_ vs) l (current_ vs) (next_id vs)
    (vs_compact_pointer vs).

(** The versions that readers hold, one entry per reference. *)
Record GcState := mkGc { gc_set : VS; gc_env : E; gc_held : list (nat * Version) }.

Inductive gc_step : GcState -> GcState -> Prop :=
  (** [current->Ref()] *)
  | gc_acquire vs env held :
      gc_step (mkGc vs env held)
        (mkGc (with_versions vs (Ref (current_ vs).1 (dummy_versions_ vs))) env (current_ vs :: held))
  (** [v->Unref()] *)
  | gc_release vs env h1 id v h2 :
      gc_step (mkGc vs env (h1 ++ (id, v) :: h2))
        (mkGc (with_versions vs (Unref id (dummy_versions_ vs))) env (h1 ++ h2))
  (** a new version, or an error *)
  | gc_apply vs env held e s vs' env' :
      LogAndApply user_comparator_ comparator_name dbname_ NewWritableFile vs env e = Some (s, vs', env') ->
      gc_step (mkGc vs env held) (mkGc vs' env' held).

Inductive reachable (env0 : E) : GcState -> Prop :=
  | reach_start : reachable env0 (mkGc newVersionSet env0 [])
  | reach_step st st' : reachable env0 st -> gc_step st st' -> reachable env0 st'.

(** * The references *)

(** The references on a version: those of readers, and that of [current_]. *)
Definition references (cur : nat) (held : list (nat * Version)) (id : nat) : Z :=
  Z.of_nat (length (List.filter (fun x => (x.1 =? id)%nat) held)) + (if (cur =? id)%nat then 1 else 0).

Record gc_inv (vs : VS) (held : list (nat * Version)) : Prop := {
  gi_nodup : NoDup (map lv_id (dummy_versions_ vs));
  gi_fresh x : x ∈ dummy_versions_ vs -> (lv_id x < next_id vs)%nat;
  gi_refs x : x ∈ dummy_versions_ vs ->
    lv_refs x = references (current_ vs).1 held (lv_id x) /\ 0 < lv_refs x;
  gi_held id v : (id, v) ∈ current_ vs :: held -> exists x, x ∈ dummy_versions_ vs /\ lv_id x = id /\ lv_version x = v;
}.

Definition plus (n : Z) (x : LiveVersion) : LiveVersion := mkLive (lv_id x) (lv_refs x + n) (lv_version x).

(** [Ref] and [Unref], read as one change of a count. *)
Lemma elem_Ref id l x : x ∈ Ref id l <-> exists y, y ∈ l /\ x = (if (lv_id y =? id)%nat then plus 1 y else y).
Proof. unfold Ref. rewrite list_elem_of_In, in_map_iff. setoid_rewrite list_elem_of_In. naive_solver. Qed.

Lemma elem_Unref id l x : x ∈ Unref id l <->
  lv_refs x <> 0 /\ exists y, y ∈ l /\ x = (if (lv_id y =? id)%nat then plus (-1) y else y).
Proof.
  unfold Unref. rewrite list_elem_of_In, List.filter_In, in_map_iff. setoid_rewrite list_elem_of_In.
  rewrite negb_true_iff, Z.eqb_neq. unfold plus. naive_solver.
Qed.

Lemma plus_id n x : lv_id (plus n x) = lv_id x.
Proof. done. Qed.

Lemma Ref_ids id l : map lv_id (Ref id l) = map lv_id l.
Proof. unfold Ref. rewrite map_map. apply map_ext. intros x. by destruct (_ =? _)%nat. Qed.

Lemma Unref_ids id l : NoDup (map lv_id l) -> NoDup (map lv_id (Unref id l)).
Proof.
  intros Hn. unfold Unref. set (l' := map _ l). assert (Hl : map lv_id l' = map lv_id l).
  { unfold l'. rewrite map_map. apply map_ext. intros x. by destruct (_ =? _)%nat. }
  rewrite <- Hl in Hn. clear Hl. induction l' as [|x l' IH]; [constructor|]. simpl in *.
  inversion Hn as [|? ? Hx Hn']; subst. destruct (negb _); [|by apply IH]. simpl. constructor; [|by apply IH].
  rewrite list_elem_of_In, in_map_iff in *. intros (y & Ey & Hy%List.filter_In). apply Hx. exists y. tauto.
Qed.

(** Live versions are told apart by their numbers. *)
Lemma live_unique vs held x y : gc_inv vs held -> x ∈ dummy_versions_ vs -> y ∈ dummy_versions_ vs ->
  lv_id x = lv_id y -> x = y.
Proof.
  intros [Hn _ _ _] [i Hi]%list_elem_of_lookup [j Hj]%list_elem_of_lookup Eid.
  assert (i = j); [|congruence]. apply (NoDup_lookup _ i j (lv_id x) Hn).
  - change (map ?f ?l) with (f <$> l). by rewrite list_lookup_fmap, Hi.
  - change (map ?f ?l) with (f <$> l). rewrite list_lookup_fmap, Hj. simpl. by rewrite Eid.
Qed.

Lemma references_nonneg cur held id : 0 <= references cur held id.
Proof. unfold references. destruct (_ =? _)%nat; lia. Qed.

Lemma references_cons cur held id id' v :
  references cur ((id', v) :: held) id = references cur held id + (if (id' =? id)%nat then 1 else 0).
Proof. unfold references. simpl. destruct (id' =? id)%nat; simpl length; lia. Qed.

Lemma references_remove cur h1 id' v h2 id :
  references cur (h1 ++ (id', v) :: h2) id = references cur (h1 ++ h2) id + (if (id' =? id)%nat then 1 else 0).
Proof.
  unfold references. rewrite !List.filter_app, !length_app. simpl. destruct (id' =? id)%nat; simpl length; lia.
Qed.

Lemma references_held cur held id v : (id, v) ∈ held -> 0 < references cur held id.
Proof.
  intros Hin. unfold references. assert (Hf : (id, v) ∈ List.filter (fun x => (x.1 =? id)%nat) held).
  { rewrite list_elem_of_In, List.filter_In. split; [by apply list_elem_of_In|]. simpl. apply Nat.eqb_refl. }
  destruct (List.filter _ held); [by apply elem_of_nil in Hf|]. simpl length. destruct (_ =? _)%nat; lia.
Qed.

(** Dropping one reference, with the references it leaves. *)
Lemma Unref_inv vs held id refs' :
  gc_inv vs held ->
  (forall id', references (current_ vs).1 held id' = refs' id' + (if (id =? id')%nat then 1 else 0)) ->
  (forall x, x ∈ Unref id (dummy_versions_ vs) -> lv_refs x = refs' (lv_id x) /\ 0 < lv_refs x) /\
  (forall id' v, (id', v) ∈ current_ vs :: held -> 0 < refs' id' ->
     exists x, x ∈ Unref id (dummy_versions_ vs) /\ lv_id x = id' /\ lv_version x = v).
Proof.
  intros [_ _ Hrefs Hheld] Hr. split.
  - intros x (Hnz & y & Hy & ->)%elem_Unref. destruct (Hrefs y Hy) as [Ey Hpos]. specialize (Hr (lv_id y)).
    rewrite Nat.eqb_sym in Hr. destruct (Nat.eqb_spec (lv_id y) id); simpl in *; lia.
  - intros id' v Hin Hpos. destruct (Hheld id' v Hin) as (y & Hy & <- & <-). destruct (Hrefs y Hy) as [Ey _].
    specialize (Hr (lv_id y)). rewrite Nat.eqb_sym in Hr. destruct (Nat.eqb_spec (lv_id y) id) as [Heq|Hne].
    + exists (plus (-1) y). split; [|done]. apply elem_Unref. simpl. split; [lia|]. exists y. split; [done|].
      by rewrite (proj2 (Nat.eqb_eq _ _) Heq).
    + exists y. split; [|done]. apply elem_Unref. split; [lia|]. exists y. split; [done|].
      by rewrite (proj2 (Nat.eqb_neq _ _) Hne).
Qed.

Lemma acquire_inv vs held : gc_inv vs held ->
  gc_inv (with_versions vs (Ref (current_ vs).1 (dummy_versions_ vs))) (current_ vs :: held).
Proof.
  intros [Hn Hf Hr Hh]. split; cbn [dummy_versions_ next_id current_ with_versions].
  - by rewrite Ref_ids.
  - intros x (y & Hy & ->)%elem_Ref. by destruct (_ =? _)%nat; apply (Hf y).
  - intros x (y & Hy & ->)%elem_Ref. destruct (Hr y Hy) as [Ey Hpos]. destruct (current_ vs) as [cur cv] eqn:Ec.
    cbn [fst] in *. rewrite references_cons, (Nat.eqb_sym cur). destruct (lv_id y =? cur)%nat eqn:Eq; cbn [plus lv_id lv_refs]; rewrite ?Eq; lia.
  - intros id v Hin. assert (Hin' : (id, v) ∈ current_ vs :: held).
    { apply elem_of_cons in Hin as [->|Hin]; [by left|done]. }
    destruct (Hh id v Hin') as (y & Hy & <- & <-). eexists. split; [apply elem_Ref; eauto|]. by destruct (_ =? _)%nat.
Qed.

Lemma release_inv vs h1 id v h2 : gc_inv vs (h1 ++ (id, v) :: h2) ->
  gc_inv (with_versions vs (Unref id (dummy_versions_ vs))) (h1 ++ h2).
Proof.
  intros Hi. pose proof Hi as [Hn Hf _ _].
  destruct (Unref_inv vs _ id (references (current_ vs).1 (h1 ++ h2)) Hi) as [Hrefs Hheld].
  { intros id'. apply references_remove. }
  split; cbn [dummy_versions_ next_id current_ with_versions].
  - by apply Unref_ids.
  - intros x (_ & y & Hy & ->)%elem_Unref. by destruct (_ =? _)%nat; apply (Hf y).
  - exact Hrefs.
  - intros id' v' Hin. apply Hheld.
    + apply elem_of_cons in Hin as [->|Hin]; [by left|]. right. apply elem_of_app in Hin as [|]; set_solver.
    + apply elem_of_cons in Hin as [Hc|Hin]; [|by eapply references_held].
      pose proof (references_nonneg (current_ vs).1 (h1 ++ h2) id') as H0. rewrite <- Hc in *. cbn [fst] in *.
      unfold references in *. rewrite Nat.eqb_refl in *. lia.
Qed.

Lemma append_inv vs held v : gc_inv vs held -> gc_inv (AppendVersion vs v) held.
Proof.
  intros Hi. pose proof Hi as [Hn Hf _ Hh].
  assert (Hheld_lt : forall id v', (id, v') ∈ held -> (id < next_id vs)%nat).
  { intros id v' Hin. destruct (Hh id v') as (y & Hy & <- & _); [by right|]. by apply Hf. }
  destruct (Unref_inv vs _ (current_ vs).1 (fun id => references (next_id vs) held id - (if (next_id vs =? id)%nat then 1 else 0)) Hi)
    as [Hrefs Hheld].
  { intros id'. unfold references. destruct (next_id vs =? id')%nat, ((current_ vs).1 =? id')%nat; lia. }
  assert (Hnew : references (next_id vs) held (next_id vs) = 1).
  { unfold references. rewrite Nat.eqb_refl. assert (List.filter (fun x => (x.1 =? next_id vs)%nat) held = []) as ->; [|done].
    clear -Hheld_lt. induction held as [|[id w] held IH]; [done|]. simpl.
    pose proof (Hheld_lt id w ltac:(by left)). rewrite (proj2 (Nat.eqb_neq id (next_id vs))) by lia.
    apply IH. intros id' w' Hin. apply (Hheld_lt id' w'). by right. }
  assert (Hold : forall x, x ∈ Unref (current_ vs).1 (dummy_versions_ vs) -> (lv_id x < next_id vs)%nat).
  { intros x (_ & y & Hy & ->)%elem_Unref. by destruct (_ =? _)%nat; apply (Hf y). }
  split; cbn [dummy_versions_ next_id current_ AppendVersion fst].
  - rewrite map_app. apply NoDup_app. split; [by apply Unref_ids|]. split; [|apply NoDup_singleton].
    intros id Hid Hid'. apply list_elem_of_singleton in Hid' as ->. rewrite list_elem_of_In, in_map_iff in Hid.
    destruct Hid as (x & Ex & Hx%list_elem_of_In). specialize (Hold x Hx). simpl in Ex. lia.
  - intros x [Hx|Hx]%elem_of_app; [specialize (Hold x Hx); lia|]. apply list_elem_of_singleton in Hx as ->. simpl. lia.
  - intros x [Hx|Hx]%elem_of_app; [|apply list_elem_of_singleton in Hx as ->; simpl; lia].
    destruct (Hrefs x Hx) as [Ex Hpos]. specialize (Hold x Hx).
    rewrite (proj2 (Nat.eqb_neq (next_id vs) (lv_id x))) in Ex by lia. lia.
  - intros id v' [Hin|Hin]%elem_of_cons.
    + injection Hin as -> ->. exists (mkLive (next_id vs) 1 v). split; [|done]. apply elem_of_app. right. by left.
    + destruct (Hheld id v') as (x & Hx & ?); [by right| |exists x; split; [apply elem_of_app; by left|done]].
      specialize (Hheld_lt id v' Hin). rewrite (proj2 (Nat.eqb_neq (next_id vs) id)) by lia.
      pose proof (references_held (next_id vs) held id v' Hin). lia.
Qed.

(** [LogAndApply] either installs one version or leaves the versions alone. *)
Lemma LogAndApply_versions vs env e s vs' env' :
  LogAndApply user_comparator_ comparator_name dbname_ NewWritableFile vs env e = Some (s, vs', env') ->
  (dummy_versions_ vs' = dummy_versions_ vs /\ current_ vs' = current_ vs /\ next_id vs' = next_id vs) \/
  (exists v, dummy_versions_ vs' = dummy_versions_ (AppendVersion vs v) /\
     current_ vs' = current_ (AppendVersion vs v) /\ next_id vs' = next_id (AppendVersion vs v)).
Proof.
  unfold LogAndApply. destruct (complete_edit vs e) as [e'|]; [|done]. cbn [mbind option_bind].
  destruct (SaveTo _ _ _) as [v|]; [|done]. cbn [mbind option_bind].
  destruct (open_manifest _ _ _ _ _) as [[[s1 w] env1] is_new]. 
  destruct (match w with Some _ => _ | None => _ end) as [s2 w2].
  destruct (if ok s2 && is_new then _ else _) as [s3 env3].
  destruct (ok s3); [|destruct is_new; [destruct (fs_delete _ _)|]]; intros [= <- <- <-].
  - right. by exists (Finalize v).
  - by left.
  - by left.
Qed.

Lemma gc_inv_same vs vs' held : dummy_versions_ vs' = dummy_versions_ vs -> current_ vs' = current_ vs ->
  next_id vs' = next_id vs -> gc_inv vs held -> gc_inv vs' held.
Proof. intros Ed Ec En [? ? ? ?]. split; rewrite ?Ed, ?Ec, ?En; done. Qed.

Lemma reachable_inv env0 st : reachable env0 st -> gc_inv (gc_set st) (gc_held st).
Proof.
  induction 1 as [|st st' _ IH Hstep].
  - split; cbn.
    + apply NoDup_singleton.
    + intros x Hx%list_elem_of_singleton. subst x. simpl. lia.
    + intros x Hx%list_elem_of_singleton. subst x. done.
    + intros id v Hx%list_elem_of_singleton. injection Hx as -> ->. eexists. split; [by left|done].
  - destruct Hstep as [vs env held|vs env h1 id v h2|vs env held e s vs' env' Eapp].
    + by apply acquire_inv.
    + by eapply release_inv.
    + cbn [gc_set gc_held] in *.
      destruct (LogAndApply_versions _ _ _ _ _ _ Eapp) as [(Ed & Ec & En)|(v & Ed & Ec & En)].
      * by apply (gc_inv_same vs).
      * eapply gc_inv_same; [exact Ed|exact Ec|exact En|]. by apply append_inv.
Qed.

(** * What is collected *)

Definition names (v : Version) (n : Z) : Prop :=
  exists files f, files ∈ files_ v /\ f ∈ files /\ number f = n.

Lemma elem_fold_left {A B} `{Countable B} (add : gset B -> A -> gset B) (P : A -> B -> Prop) l : forall live b,
  (forall live a, b ∈ add live a <-> b ∈ live \/ P a b) ->
  b ∈ fold_left add l live <-> b ∈ live \/ exists a, a ∈ l /\ P a b.
Proof.
  intros live b Hadd. revert live. induction l as [|a l IH]; intros live; simpl.
  - split; [by left|]. intros [|(a & Ha & _)]; [done|]. by apply elem_of_nil in Ha.
  - rewrite IH, Hadd. split.
    + intros [[|]|(a' & Ha & HP)]; [by left|right; exists a; split; [by left|done]|].
      right. exists a'. split; [by right|done].
    + intros [|(a' & [->|Ha]%elem_of_cons & HP)]; [by left; left|by left; right|right; eauto].
Qed.

Lemma elem_AddLiveFiles (vs : VS) live n :
  n ∈ AddLiveFiles vs live <-> n ∈ live \/ exists x, x ∈ dummy_versions_ vs /\ names (lv_version x) n.
Proof.
  unfold AddLiveFiles. rewrite (elem_fold_left _ (fun x n => names (lv_version x) n)); [done|].
  intros live1 x. rewrite (elem_fold_left _ (fun files n => exists f, f ∈ files /\ number f = n)).
  - unfold names. naive_solver.
  - intros live2 files. rewrite (elem_fold_left _ (fun f n => number f = n)); [done|].
    intros live3 f. rewrite elem_of_union, elem_of_singleton. naive_solver.
Qed.

(** C28: the garbage collection is exact.  However readers take and drop versions
    while new versions are installed, [DeleteObsoleteFiles] deletes a table file
    of the directory exactly when there is no background error, no pending output
    has its number, and neither the current version nor any version that a reader
    still holds names it. *)
Theorem obsolete_files_exact (env0 : E) (st : GcState) (bg_error : Status) (pending : gset Z)
    (filenames : list bytes) (name : bytes) (n : Z) :
  reachable env0 st -> name ∈ filenames -> ParseFileName name = Some (n, kTableFile) ->
  name ∈ DeleteObsoleteFiles (gc_set st) bg_error pending filenames <->
  ok bg_error = true /\ n ∉ pending /\
  forall id v, (id, v) ∈ current_ (gc_set st) :: gc_held st -> ~ names v n.
Proof.
  intros Hr Hin Hp. pose proof (reachable_inv _ _ Hr) as Hinv. destruct st as [vs env held]. cbn [gc_set gc_held] in *.
  unfold DeleteObsoleteFiles. destruct (ok bg_error); cbn [negb]; [|rewrite elem_of_nil; naive_solver].
  rewrite list_elem_of_In, List.filter_In, <- list_elem_of_In. unfold keep_file. rewrite Hp, negb_true_iff, bool_decide_eq_false.
  rewrite elem_AddLiveFiles. pose proof Hinv as [_ _ Hrefs Hheld]. split.
  - intros [_ Hn]. split; [done|]. split; [naive_solver|]. intros id v Hv Hnames. apply Hn. right.
    destruct (Hheld id v Hv) as (x & Hx & _ & <-). eauto.
  - intros (_ & Hpend & Hno). split; [done|]. intros [|(x & Hx & Hnames)]; [done|].
    destruct (Hrefs x Hx) as [Ex Hpos].
    assert (Hsome : exists v, (lv_id x, v) ∈ current_ vs :: held).
    { unfold references in Ex. destruct (Nat.eqb_spec (current_ vs).1 (lv_id x)) as [<-|_].
      - exists (current_ vs).2. rewrite <- surjective_pairing. by left.
      - destruct (List.filter _ held) as [|[id v] l'] eqn:Ef; [simpl in Ex; lia|].
        assert (Hf : (id, v) ∈ List.filter (fun y => (y.1 =? lv_id x)%nat) held) by (rewrite Ef; by left).
        rewrite list_elem_of_In, List.filter_In in Hf. destruct Hf as [Hf Hid%Nat.eqb_eq]. simpl in Hid. subst id.
        exists v. right. by apply list_elem_of_In. }
    destruct Hsome as [v Hv]. destruct (Hheld _ _ Hv) as (y & Hy & Ey & <-).
    rewrite (live_unique vs held y x Hinv Hy Hx Ey) in Hv. by eapply Hno.
Qed.
End Gc.
Arguments GcState : clear implicits.
Arguments mkGc {E F} _ _ _.
Arguments gc_set {E F} _.
Arguments gc_env {E F} _.
Arguments gc_held {E F} _.

(** A reader holds the version with table 2 while a compaction replaces it by
    table 3: table 2 stays as long as the reader holds it. *)
Definition quiet_fs : FileSystem unit := {|
  fs_create env _ := (OK, env); fs_append env _ _ := (OK, env); fs_sync env _ := (OK, env);
  fs_close env _ := (OK, env); fs_rename env _ _ := (OK, env); fs_delete env _ := (OK, env) |}.

Definition gc_edit1 : VersionEdit :=
  AddFile newVersionEdit 1 2 20000 (mkInternalKey (str "a") 5 kTypeValue) (mkInternalKey (str "k") 1 kTypeValue).
Definition gc_edit2 : VersionEdit :=
  AddFile (DeleteFile newVersionEdit 1 2) 2 3 20000
    (mkInternalKey (str "a") 5 kTypeValue) (mkInternalKey (str "k") 1 kTypeValue).

Lemma obsolete_files_exact_witness : exists st : GcState unit flat_file,
  length (gc_held st) = 1%nat /\
  (str "000002.ldb" ∈ DeleteObsoleteFiles (gc_set st) OK ∅ [str "000002.ldb"; str "000009.ldb"] -> False) /\
  str "000009.ldb" ∈ DeleteObsoleteFiles (gc_set st) OK ∅ [str "000002.ldb"; str "000009.ldb"].
Proof.
  assert (Hr : exists st, @reachable unit flat_file quiet_fs _ (crc32c_checksum 0) BytewiseComparator (str "cmp")
      (str "db") (fun env _ => (OK, [], env)) tt st /\
    map (fun x => map (map number) (files_ x.2)) (current_ (gc_set st) :: gc_held st) =
      [[[]; []; [3]; []; []; []; []]; [[]; [2]; []; []; []; []; []]]).
  { eexists. split.
    - eapply reach_step; [eapply reach_step; [eapply reach_step; [apply reach_start|]|apply gc_acquire]|].
      + eapply (gc_apply _ _ _ _ _ _ _ gc_edit1). vm_compute. reflexivity.
      + eapply (gc_apply _ _ _ _ _ _ _ gc_edit2). vm_compute. reflexivity.
    - vm_compute. reflexivity. }
  destruct Hr as (st & Hr & Hst). exists st. destruct (gc_held st) as [|h [|]] eqn:Eh; [discriminate Hst| |discriminate Hst].
  split; [reflexivity|]. cbn [map] in Hst. injection Hst as Hcur Hheld.
  assert (Hn : forall v n, names v n -> n ∈ concat (map (map number) (files_ v))).
  { intros v n (files & f & Hfs & Hf & <-). apply list_elem_of_In in Hfs. apply list_elem_of_In in Hf.
    apply list_elem_of_In, in_concat. exists (map number files). split; [by apply in_map|by apply in_map]. }
  split.
  - intros Hin. destruct (proj1 (obsolete_files_exact BytewiseComparator (str "cmp") (str "db") _ tt st OK ∅
      [str "000002.ldb"; str "000009.ldb"] (str "000002.ldb") 2 Hr ltac:(by left) ltac:(reflexivity)) Hin) as (_ & _ & Hno).
    rewrite Eh in Hno. apply (Hno h.1 h.2); [rewrite <- surjective_pairing; right; by left|].
    destruct (files_ h.2) as [|a [|b l]] eqn:Ef; [discriminate Hheld..|]. cbn [map] in Hheld. injection Hheld as _ Hb _.
    destruct b as [|f b]; [discriminate Hb|]. cbn [map] in Hb. injection Hb as Hf _.
    exists (f :: b), f. split; [rewrite Ef; right; by left|]. split; [by left|done].
  - apply (obsolete_files_exact BytewiseComparator (str "cmp") (str "db") _ tt st OK ∅
      [str "000002.ldb"; str "000009.ldb"] (str "000009.ldb") 9 Hr ltac:(right; by left) ltac:(reflexivity)).
    split; [reflexivity|]. split; [apply not_elem_of_empty|]. rewrite Eh. intros id v Hin Hv%Hn.
    apply elem_of_cons in Hin as [Hin|Hin]; [|apply list_elem_of_singleton in Hin].
    + rewrite <- Hin in Hcur. cbn [snd] in Hcur. rewrite Hcur in Hv. cbn in Hv. set_solver.
    + rewrite <- Hin in Hheld. cbn [snd] in Hheld. rewrite Hheld in Hv. cbn in Hv. set_solver.
Defined.
