(* ===== verification/DbWrite.v ===== *)
(** db/db_impl.cc, the write path: the queue of writers, the group commit
    ([BuildBatchGroup]), making room in the memtable ([MakeRoomForWrite]) and
    [Write].

    A call of [Write] first appends its request to the queue and sleeps until it
    is at the front or done; [enqueue] is the first part, [Write] the body that
    runs at the front.  What other threads do while the mutex is released is a
    function of the state ([others]).  The memory that the arena of a memtable
    has taken (Arena) is a function of the memtable, and so is what
    [NewWritableFile] does for a new log. *)

From stdpp Require Import base list option gmap strings.
From S2P Require Import Prelude Status Coding Crc32c Env Log Comparator DbFormat WriteBatch SkipList MemTable VersionEdit Version Filename VersionSet.

#[local] Open Scope Z_scope.

(** [struct DBImpl::Writer]; [w_id] is its address.  [done] and [status] are the
    entry of the writer in [db_results]. *)
Record WriteReq := mkWriteReq { w_id : nat; w_batch : option bytes; w_sync : bool }.

(** The members of [DBImpl] that writing uses.  A memtable that is [None] has a
    broken skip list (MemTable). *)
Record DB (F : Type) := mkDB {
  db_mem : option MemTable;
  db_imm : option (option MemTable);
  db_log : Writer F;                  (* over [logfile_] *)
  db_logfile_number : Z;
  db_versions : VersionSet F;
  db_writers : list WriteReq;
  db_tmp_batch : bytes;
  db_bg_error : Status;
  db_results : list (nat * Status);
}.
Arguments mkDB {F} _ _ _ _ _ _ _ _ _.
Arguments db_mem {F} _.
Arguments db_imm {F} _.
Arguments db_log {F} _.
Arguments db_logfile_number {F} _.
Arguments db_versions {F} _.
Arguments db_writers {F} _.
Arguments db_tmp_batch {F} _.
Arguments db_bg_error {F} _.
Arguments db_results {F} _.

(** * The group of a commit *)

Definition ByteSize (rep : bytes) : Z := blen rep.

(** The loop over the writers behind the first: the batch so far, whether it is
    [tmp_batch_], the size, and how many writers are in the group.  [None]: the
    assertion that [tmp_batch_] is empty. *)
Fixpoint group_loop (first_sync : bool) (first_batch : bytes) (max_size : Z) (tmp : bytes)
    (ws : list WriteReq) (size : Z) (result : bytes) (switched : bool) (n : nat)
    : option (bytes * bool * nat) :=
  match ws with
  | [] => Some (result, switched, n)
  | w :: ws' =>
      if w_sync w && negb first_sync then Some (result, switched, n)
      else
        match w_batch w with
        | None => group_loop first_sync first_batch max_size tmp ws' size result switched (S n)
        | Some b =>
            let size := u64 (size + ByteSize b) in
            if max_size <? size then Some (result, switched, n)
            else if switched then
              group_loop first_sync first_batch max_size tmp ws' size (Append result b) true (S n)
            else if negb (Count tmp =? 0) then None
            else
              let result := Append tmp first_batch in
              group_loop first_sync first_batch max_size tmp ws' size (Append result b) true (S n)
        end
  end.

(** The batch, whether it is [tmp_batch_], and the number of writers up to
    [*last_writer].  [None]: a failed assertion. *)
Definition BuildBatchGroup (writers : list WriteReq) (tmp : bytes) : option (bytes * bool * nat) :=
  match writers with
  | [] => None
  | first :: ws =>
      b ← w_batch first;
      let size := ByteSize b in
      let max_size := if size <=? Z.shiftl 128 10 then size + Z.shiftl 128 10 else Z.shiftl 1 20 in
      group_loop (w_sync first) b max_size tmp ws size b false 1
  end.

Section Write.
Context {E F : Type} `{!WritableFile F} `{!Checksum} (user : Comparator).
Context (MOD : Z) (dbname_ : bytes) (write_buffer_size : Z).
Context (ApproximateMemoryUsage : option MemTable -> Z).
Context (NewWritableFile : E -> bytes -> Status * F * E).
(** What the other threads have done when the mutex is taken again. *)
Context (others : DB F -> DB F).
#[local] Abbreviation D := (DB F).

Definition enqueue (w : WriteReq) (db : D) : D :=
  mkDB (db_mem db) (db_imm db) (db_log db) (db_logfile_number db) (db_versions db)
    (db_writers db ++ [w]) (db_tmp_batch db) (db_bg_error db) (db_results db).

Definition with_db_versions (vs : VersionSet F) (db : D) : D :=
  mkDB (db_mem db) (db_imm db) (db_log db) (db_logfile_number db) vs (db_writers db)
    (db_tmp_batch db) (db_bg_error db) (db_results db).

(** * [MakeRoomForWrite] *)

(** One turn of its loop: return, sleep for a millisecond, wait for the
    background work, or go on after the switch to a new memtable and log. *)
Inductive RoomTurn :=
  | RoomReturn (s : Status) (db : D) (env : E)
  | RoomDelay
  | RoomWait
  | RoomSwitched (db : D) (env : E).

Definition switch_memtable (db : D) (env : E) : option RoomTurn :=
  if negb (vs_prev_log_number (db_versions db) =? 0) then None
  else
    let '(new_log_number, vs) := NewFileNumber (db_versions db) in
    let '(s, lfile, env) := NewWritableFile env (LogFileName dbname_ new_log_number) in
    if negb (ok s) then
      Some (RoomReturn s (with_db_versions (ReuseFileNumber vs new_log_number) db) env)
    else
      Some (RoomSwitched
        (mkDB (Some (MemTable.Ref newMemTable)) (Some (db_mem db)) (newWriter lfile) new_log_number vs
           (db_writers db) (db_tmp_batch db) (db_bg_error db) (db_results db)) env).

Definition room_turn (force allow_delay : bool) (db : D) (env : E) : option RoomTurn :=
  let files0 := Z.of_nat (NumLevelFiles (db_versions db) 0) in
  if negb (ok (db_bg_error db)) then Some (RoomReturn (db_bg_error db) db env)
  else if allow_delay && (kL0_SlowdownWritesTrigger <=? files0) then Some RoomDelay
  else if negb force && (ApproximateMemoryUsage (db_mem db) <=? write_buffer_size)
  then Some (RoomReturn OK db env)
  else
    match db_imm db with
    | Some _ => Some RoomWait
    | None =>
        if kL0_StopWritesTrigger <=? files0 then Some RoomWait
        else switch_memtable db env
    end.

(** The fuel counts the turns. *)
Fixpoint room_loop (fuel : nat) (force allow_delay : bool) (db : D) (env : E) : option (Status * D * E) :=
  match fuel with
  | O => None
  | S fuel' =>
      turn ← room_turn force allow_delay db env;
      match turn with
      | RoomReturn s db env => Some (s, db, env)
      | RoomDelay => room_loop fuel' force false (others db) env
      | RoomWait => room_loop fuel' force allow_delay (others db) env
      | RoomSwitched db env => room_loop fuel' false allow_delay db env
      end
  end.

Definition MakeRoomForWrite (fuel : nat) (force : bool) (db : D) (env : E) : option (Status * D * E) :=
  room_loop fuel force (negb force) db env.

(** * [Write] *)

(** Logging the batch: only in the modes that keep values in the tree. *)
Definition log_updates (log : Writer F) (sync : bool) (updates : bytes) : Status * Writer F :=
  if MOD <? 7 then
    let '(s, log) := AddRecord log updates in
    if ok s && sync then
      let '(s, f) := wSync (dest_ log) in (s, mkWriter f (block_offset_ log))
    else (s, log)
  else (OK, log).

(** Logging and applying the batch of a group.  The mutex is free meanwhile, but
    only this writer touches the log and the memtable. *)
Definition commit (db : D) (sync : bool) (updates : bytes) (switched : bool) : option (Status * D) :=
  let last_sequence := vs_last_sequence (db_versions db) in
  let updates := SetSequence updates (u64 (last_sequence + 1)) in
  let last_sequence := u64 (last_sequence + Count updates) in
  let '(s, log) := log_updates (db_log db) sync updates in
  let '(s, mem) :=
    if ok s then InsertInto (H := memtable_add user) updates (db_mem db) else (s, db_mem db) in
  let db := others (mkDB mem (db_imm db) log (db_logfile_number db) (db_versions db) (db_writers db)
                      (db_tmp_batch db) (db_bg_error db) (db_results db)) in
  vs ← vs_SetLastSequence (db_versions db) last_sequence;
  Some (s, mkDB (db_mem db) (db_imm db) (db_log db) (db_logfile_number db) vs (db_writers db)
             (if switched then WriteBatch.Clear else db_tmp_batch db) (db_bg_error db) (db_results db)).

(** The writers of the group leave the queue with the status. *)
Definition pop_writers (n : nat) (s : Status) (db : D) : D :=
  mkDB (db_mem db) (db_imm db) (db_log db) (db_logfile_number db) (db_versions db)
    (drop n (db_writers db)) (db_tmp_batch db) (db_bg_error db)
    (db_results db ++ map (fun w => (w_id w, s)) (take n (db_writers db))).

(** The body of [Write] for the writer at the front.  [None]: a failed
    assertion, or the fuel of [MakeRoomForWrite]. *)
Definition Write (fuel : nat) (db : D) (env : E) : option (D * E) :=
  w ← head (db_writers db);
  let force := match w_batch w with None => true | Some _ => false end in
  '(s, db, env) ← MakeRoomForWrite fuel force db env;
  if ok s && negb force then
    '(updates, switched, n) ← BuildBatchGroup (db_writers db) (db_tmp_batch db);
    '(s, db) ← commit db (w_sync w) updates switched;
    Some (pop_writers n s db, env)
  else Some (pop_writers 1 s db, env).
End Write.
