(* ===== verification/DbWriteProofs.v ===== *)
(** The write path (DbWrite): a group commit applies the batches of its writers
    one after the other, the log holds exactly what the memtable holds, and
    every writer is served. *)

From stdpp Require Import base list option gmap sorting strings.
From S2P Require Import Prelude Status Coding Crc32c Env Log LogProofs Comparator DbFormat WriteBatch SkipList MemTable VersionEdit Version VersionBuilder Filename VersionSet DbWrite.

#[local] Open Scope Z_scope.

(** * Batches *)

Definition is_batch (b : bytes) (ops : list BatchOp) : Prop := exists seq, b = layout seq (blen ops) ops.

(** The operations of a request; a null batch has none. *)
Definition req_ops (w : WriteReq) (ops : list BatchOp) : Prop :=
  match w_batch w with
  | None => ops = []
  | Some b => is_batch b ops /\ Forall op_fits ops /\ blen b < 2 ^ 31
  end.

Lemma op_bytes_length op : 1 <= blen (op_bytes op).
Proof.
  destruct (op_bytes_nonempty op) as (b & l & ->). rewrite blen_cons. pose proof (blen_nonneg l). lia.
Qed.

Lemma is_batch_length b ops : is_batch b ops -> blen ops + kHeader <= blen b.
Proof.
  intros [s ->]. rewrite layout_length.
  assert (blen ops <= blen (concat (map op_bytes ops))); [|lia].
  induction ops as [|op ops IH]; [by vm_compute|]. cbn [map concat]. rewrite blen_cons, blen_app.
  pose proof (op_bytes_length op). lia.
Qed.

Lemma is_batch_append b1 ops1 b2 ops2 : is_batch b1 ops1 -> is_batch b2 ops2 ->
  blen ops1 + blen ops2 < 2 ^ 31 -> is_batch (Append b1 b2) (ops1 ++ ops2).
Proof.
  intros [s1 ->] [s2 ->] Hl. pose proof (blen_nonneg ops1). pose proof (blen_nonneg ops2).
  exists s1. rewrite Append_layout by lia. by rewrite blen_app.
Qed.

Lemma is_batch_clear : is_batch WriteBatch.Clear [].
Proof. by exists 0. Qed.

(** What [BuildBatchGroup] promises: the first [n] writers are in the group, the
    result is a batch of their operations, no writer that wants a sync is served
    by one that does not, and the caller's batch is kept apart from the result
    unless the result is just that batch. *)
Record group_of (first_sync : bool) (first_ops : list BatchOp) (ws : list WriteReq)
    (opss : list (list BatchOp)) (k : nat) (result : bytes) : Prop := {
  go_count : (k <= length ws)%nat;
  go_batch : is_batch result (first_ops ++ concat (take k opss));
  go_fits : Forall op_fits (first_ops ++ concat (take k opss));
  go_size : blen (first_ops ++ concat (take k opss)) < 2 ^ 31;
  go_sync : Forall (fun w => w_sync w = true -> first_sync = true) (take k ws);
}.

Lemma group_loop_spec first_sync first_batch ops1 max_size ws : forall opss size result R switched n,
  Forall2 req_ops ws opss -> 0 <= size < 2 ^ 31 -> max_size < 2 ^ 31 ->
  is_batch first_batch ops1 -> is_batch result R -> Forall op_fits R ->
  (switched = false -> R = ops1) -> blen R <= size ->
  exists k result' switched', 
    group_loop first_sync first_batch max_size WriteBatch.Clear ws size result switched n =
      Some (result', switched', (n + k)%nat) /\
    group_of first_sync R ws opss k result'.
Proof.
  induction ws as [|w ws IH]; intros opss size result R switched n Hq Hs Ht Hb1 Hb Hf Hsw Hl; cbn [group_loop].
  { exists 0%nat, result, switched. rewrite Nat.add_0_r. split; [done|].
    split; simpl; rewrite ?app_nil_r; [lia|done|done|lia|constructor]. }
  destruct opss as [|ops opss]; [by inversion Hq|]. apply Forall2_cons in Hq as [Hw Hq].
  assert (Hstop : exists k result' switched',
      Some (result, switched, n) = Some (result', switched', (n + k)%nat) /\
      group_of first_sync R (w :: ws) (ops :: opss) k result').
  { exists 0%nat, result, switched. rewrite Nat.add_0_r. split; [done|].
    split; simpl; rewrite ?app_nil_r; [lia|done|done|lia|constructor]. }
  assert (Hjoin : forall ops' k res, ops' = ops -> (w_sync w = true -> first_sync = true) ->
      group_of first_sync (R ++ ops') ws opss k res ->
      group_of first_sync R (w :: ws) (ops :: opss) (S k) res).
  { intros ops' k res -> Hws [H1 H2 H3 H4 H5]. rewrite <- app_assoc in H2, H3, H4.
    split; simpl; [lia|done|done|done|by constructor]. }
  destruct (w_sync w && negb first_sync) eqn:Esync; [exact Hstop|].
  assert (Hws : w_sync w = true -> first_sync = true) by (destruct (w_sync w), first_sync; done).
  unfold req_ops in Hw. destruct (w_batch w) as [b|] eqn:Eb.
  - destruct Hw as (Hwb & Hwf & Hwl). pose proof (blen_nonneg b). unfold ByteSize.
    rewrite u64_small by lia. destruct (Z.ltb_spec max_size (size + blen b)) as [|Hm]; [exact Hstop|].
    pose proof (is_batch_length b ops Hwb) as Hlb. unfold kHeader in Hlb. pose proof (blen_nonneg R).
    assert (Happ : forall r, is_batch r R -> is_batch (Append r b) (R ++ ops))
      by (intros r Hr; apply is_batch_append; [done|done|lia]).
    assert (Hgo : forall r, is_batch r R -> exists k result' switched',
      group_loop first_sync first_batch max_size WriteBatch.Clear ws (size + blen b) (Append r b) true (S n) =
        Some (result', switched', (n + k)%nat) /\
      group_of first_sync R (w :: ws) (ops :: opss) k result').
    { intros r Hr. destruct (IH opss (size + blen b) (Append r b) (R ++ ops) true (S n) Hq)
        as (k & res & sw & E & Hgo); [lia|done|done|by apply Happ|by apply Forall_app|done|rewrite blen_app; lia|].
      exists (S k), res, sw. rewrite E. split; [do 2 f_equal; lia|]. by apply (Hjoin ops k res). }
    destruct switched; [by apply Hgo|]. change (negb (Count WriteBatch.Clear =? 0)) with false. cbv iota.
    apply Hgo. rewrite Hsw by done. apply (is_batch_append _ [] _ ops1); [apply is_batch_clear|done|].
    rewrite <- Hsw by done. rewrite (@blen_nil BatchOp). lia.
  - subst ops. destruct (IH opss size result R switched (S n) Hq) as (k & res & sw & E & Hgo); [done..|].
    exists (S k), res, sw. rewrite E. split; [do 2 f_equal; lia|].
    apply (Hjoin [] k res); [done|done|by rewrite app_nil_r].
Qed.

Lemma BuildBatchGroup_spec w b ws opss :
  w_batch w = Some b -> Forall2 req_ops (w :: ws) opss ->
  exists k result switched,
    BuildBatchGroup (w :: ws) WriteBatch.Clear = Some (result, switched, S k) /\
    is_batch result (concat (take (S k) opss)) /\ Forall op_fits (concat (take (S k) opss)) /\
    blen (concat (take (S k) opss)) < 2 ^ 31 /\ (S k <= length (w :: ws))%nat /\
    Forall (fun x => w_sync x = true -> w_sync w = true) (take (S k) (w :: ws)).
Proof.
  intros Eb Hq. destruct opss as [|ops opss]; [by inversion Hq|]. apply Forall2_cons in Hq as [Hw Hq].
  unfold req_ops in Hw. rewrite Eb in Hw. destruct Hw as (Hb & Hf & Hl).
  pose proof (is_batch_length b ops Hb) as Hlb. pose proof (blen_nonneg b). unfold kHeader in Hlb.
  unfold BuildBatchGroup. rewrite Eb. cbn [mbind option_bind]. unfold ByteSize.
  set (max_size := if (blen b <=? Z.shiftl 128 10) then _ else _).
  assert (Hmax : max_size < 2 ^ 31).
  { unfold max_size. change (Z.shiftl 128 10) with 131072. destruct (Z.leb_spec (blen b) 131072); vm_compute Z.shiftl; lia. }
  destruct (group_loop_spec (w_sync w) b ops max_size ws opss (blen b) b ops false 1%nat Hq)
    as (k & res & sw & E & [H1 H2 H3 H4 H5]); [lia|done|done|done|done|done|lia|].
  exists k, res, sw. rewrite E. split; [done|]. split; [done|]. split; [done|]. split; [done|].
  split; [simpl; lia|]. simpl. by constructor.
Qed.

(** * Memtables by their contents *)

(** The memtable holds what adding [ups] to a new one gives; readers may hold
    references to it. *)
Definition mem_is (user : Comparator) (om : option MemTable) (ups : list Update) : Prop :=
  exists m t, om = Some m /\ add_all user ups = Some t /\ table_ m = table_ t.

Lemma Add_table user m1 m2 s t k v m1' : table_ m1 = table_ m2 -> Add user m1 s t k v = Some m1' ->
  exists m2', Add user m2 s t k v = Some m2' /\ table_ m1' = table_ m2'.
Proof.
  unfold Add. intros ->. destruct (SkipList.Insert _ _ _) as [x|]; [|done]. cbn [mbind option_bind].
  intros [= <-]. by eexists.
Qed.

Lemma insert_ops_table user ops : forall seq m1 m2 m1', table_ m1 = table_ m2 ->
  insert_ops (M := option MemTable) (H := memtable_add user) seq ops (Some m1) = Some m1' ->
  exists m2', insert_ops (M := option MemTable) (H := memtable_add user) seq ops (Some m2) = Some m2' /\
    table_ m1' = table_ m2'.
Proof.
  assert (Hnone : forall ops seq, insert_ops (M := option MemTable) (H := memtable_add user) seq ops None = None).
  { clear. induction ops as [|[] ops IH]; intros seq; [done|exact (IH (seq + 1))..]. }
  induction ops as [|op ops IH]; intros seq m1 m2 m1' Ht; cbn [insert_ops].
  { intros [= <-]. by exists m2. }
  destruct op as [k v|k]; unfold mem_Add, memtable_add; cbn [mbind option_bind];
    (destruct (Add user m1 _ _ _ _) as [a|] eqn:Ea; [|by rewrite Hnone]);
    destruct (Add_table user m1 m2 _ _ _ _ a Ht Ea) as (a2 & -> & Ht2); by apply IH.
Qed.

Section Contents.
Context (user : Comparator) `{!@ComparatorOk user}.

Lemma add_all_some ups : Forall up_small ups -> distinct_updates user ups -> exists t, add_all user ups = Some t.
Proof.
  intros Hs Hd. destruct (Get_spec user ups [] 0 Hs Hd) as (m & E & _); [by vm_compute|by vm_compute|by exists m].
Qed.

Lemma mem_is_insert om ups seq ops : mem_is user om ups ->
  Forall up_small (ups ++ batch_updates seq ops) -> distinct_updates user (ups ++ batch_updates seq ops) ->
  mem_is user (insert_ops (M := option MemTable) (H := memtable_add user) seq ops om) (ups ++ batch_updates seq ops).
Proof.
  intros (m & t & -> & Et & Htab) Hs Hd. destruct (add_all_some _ Hs Hd) as [t' Et'].
  pose proof (insert_ops_add_all user ops seq ups) as Hins. rewrite Et, Et' in Hins.
  destruct (insert_ops_table user ops seq t m t' (eq_sym Htab) Hins) as (m' & -> & Htab').
  by exists m', t'.
Qed.
End Contents.

(** * Sequence numbers *)

Definition seq_sorted (ups : list Update) : Prop := StronglySorted Z.lt (map up_seq ups).

Lemma seq_sorted_distinct user ups : seq_sorted ups -> distinct_updates user ups.
Proof.
  unfold seq_sorted. induction ups as [|x ups IH]; simpl; intros Hs; [constructor|].
  apply StronglySorted_inv in Hs as [Hs Hx]. constructor; [by apply IH|].
  rewrite Forall_forall in Hx. apply Forall_forall. intros y Hy. right.
  assert (up_seq x < up_seq y); [apply Hx|lia]. by apply (list_elem_of_fmap_2 up_seq).
Qed.

Lemma batch_updates_range ops seq x : x ∈ batch_updates seq ops -> seq <= up_seq x < seq + blen ops.
Proof.
  intros Hx. apply batch_updates_in in Hx as (i & op & Hi & ->). apply lookup_lt_Some in Hi.
  rewrite op_update_seq. unfold blen. lia.
Qed.

Lemma batch_updates_sorted ops : forall seq, seq_sorted (batch_updates seq ops).
Proof.
  unfold seq_sorted. induction ops as [|op ops IH]; intros seq; simpl; [constructor|]. constructor; [apply IH|].
  apply Forall_forall. intros s Hs. apply (list_elem_of_fmap_1 up_seq) in Hs as (x & -> & Hx).
  apply batch_updates_range in Hx. rewrite op_update_seq. lia.
Qed.

Lemma seq_sorted_app ups last ops : seq_sorted ups -> Forall (fun x => up_seq x <= last) ups ->
  seq_sorted (ups ++ batch_updates (last + 1) ops).
Proof.
  intros Hs Hl. unfold seq_sorted. rewrite map_app. apply StronglySorted_app.
  split; [|split; [exact Hs|apply batch_updates_sorted]].
  intros a b Ha Hb. apply (list_elem_of_fmap_1 up_seq) in Ha as (x & -> & Hx).
  apply (list_elem_of_fmap_1 up_seq) in Hb as (y & -> & Hy). rewrite Forall_forall in Hl.
  specialize (Hl x Hx). apply batch_updates_range in Hy. lia.
Qed.

Lemma InsertInto_batch {M} `{MemTableAdd M} seq ops (m : M) : Forall op_fits ops -> blen ops < 2 ^ 31 ->
  0 <= seq -> seq + blen ops <= kMaxSequenceNumber + 1 ->
  InsertInto (layout seq (blen ops) ops) m = (OK, insert_ops seq ops m).
Proof.
  intros Hf Hl Hs Hm. pose proof (blen_nonneg ops). unfold kMaxSequenceNumber in Hm.
  change (Z.shiftl 1 56 - 1) with (2 ^ 56 - 1) in Hm. unfold InsertInto.
  assert (Hso : Forall op_small ops) by (eapply Forall_impl; [exact Hf|]; intros [k v|k]; simpl; lia).
  rewrite Sequence_layout, Iterate_layout by (done || lia). by rewrite fold_inserter by lia.
Qed.

(** * The state of the write path *)

(** A logged batch: its first sequence number and its operations. *)
#[local] Abbreviation Logged := (Z * list BatchOp)%type.
Definition logged_record (b : Logged) : bytes := layout b.1 (blen b.2) b.2.
Definition logged_updates (bs : list Logged) : list Update := concat (map (fun b => batch_updates b.1 b.2) bs).

Definition logged_ok (b : Logged) : Prop :=
  Forall op_fits b.2 /\ blen b.2 < 2 ^ 31 /\ 0 <= b.1 /\ b.1 + blen b.2 <= kMaxSequenceNumber + 1.

Lemma logged_updates_app bs1 bs2 : logged_updates (bs1 ++ bs2) = logged_updates bs1 ++ logged_updates bs2.
Proof. unfold logged_updates. by rewrite map_app, concat_app. Qed.

Lemma logged_updates_one b : logged_updates [b] = batch_updates b.1 b.2.
Proof. unfold logged_updates. simpl. apply app_nil_r. Qed.

Section Invariant.
Context {F : Type} `{HF : WritableFileOk F} `{Hck : !Checksum} (user : Comparator) (MOD : Z).

(** [old] is what earlier memtables took, [cur] the batches of the current one:
    the memtable holds their updates and the log their records. *)
Record db_inv (db : DB F) (old : list Update) (cur : list Logged) : Prop := {
  di_mem : mem_is user (db_mem db) (logged_updates cur);
  di_log : MOD < 7 -> exists frss, log_holds (db_log db) frss (map logged_record cur);
  di_logged : Forall logged_ok cur;
  di_small : Forall up_small (old ++ logged_updates cur);
  di_order : seq_sorted (old ++ logged_updates cur);
  di_last : Forall (fun x => up_seq x <= vs_last_sequence (db_versions db)) (old ++ logged_updates cur);
  di_last_pos : 0 <= vs_last_sequence (db_versions db);
  di_tmp : db_tmp_batch db = WriteBatch.Clear;
  di_prev : vs_prev_log_number (db_versions db) = 0;
  di_bg : db_bg_error db = OK;
}.

Definition req_ok (w : WriteReq) : Prop := exists ops, req_ops w ops.

(** What the other threads may do while the mutex is free: queue requests, take
    and drop references, flush the immutable memtable, install versions; the
    memtable, the log and the sequence numbers are the front writer's alone. *)
Record undisturbed (db db' : DB F) : Prop := {
  un_mem : table_ <$> db_mem db' = table_ <$> db_mem db;
  un_log : db_log db' = db_log db;
  un_last : vs_last_sequence (db_versions db') = vs_last_sequence (db_versions db);
  un_prev : vs_prev_log_number (db_versions db') = vs_prev_log_number (db_versions db);
  un_tmp : db_tmp_batch db' = db_tmp_batch db;
  un_bg : db_bg_error db' = db_bg_error db;
  un_results : db_results db' = db_results db;
  un_writers : exists ws, db_writers db' = db_writers db ++ ws /\ Forall req_ok ws;
}.

Lemma mem_is_table om om' ups : table_ <$> om' = table_ <$> om -> mem_is user om ups -> mem_is user om' ups.
Proof.
  intros E (m & t & -> & Ht & Htab). destruct om' as [m'|]; [|done]. injection E as E.
  exists m', t. by rewrite E.
Qed.

Lemma undisturbed_inv db db' old cur : undisturbed db db' -> db_inv db old cur -> db_inv db' old cur.
Proof.
  intros [U1 U2 U3 U4 U5 U6 U7 U8] [I1 I2 I3 I4 I5 I6 I7 I8 I9 I10]. split; rewrite ?U2, ?U3, ?U4, ?U5, ?U6; try done.
  by apply (mem_is_table (db_mem db)).
Qed.
End Invariant.

(** * The steps of [Write] *)

Section Steps.
Context {E F : Type} `{HF : WritableFileOk F} `{Hck : !Checksum} (user : Comparator) `{Huser : !@ComparatorOk user}.
Context (MOD : Z) (dbname_ : bytes) (write_buffer_size : Z).
Context (ApproximateMemoryUsage : option MemTable -> Z).
Context (NewWritableFile : E -> bytes -> Status * F * E) (others : DB F -> DB F).

#[local] Abbreviation inv := (db_inv user MOD).

(** The writer cannot go on: the previous memtable is still being written, or
    level 0 has too many files. *)
Definition blocked (db : DB F) : Prop :=
  db_imm db <> None \/ kL0_StopWritesTrigger <= Z.of_nat (NumLevelFiles (db_versions db) 0).

(** The environment: [waits] counts how often a blocked writer is woken in vain. *)
Record env_ok (waits : DB F -> nat) : Prop := {
  eo_others db : undisturbed db (others db);
  eo_waits db : (waits (others db) <= waits db)%nat;
  eo_progress db : blocked db -> (waits (others db) < waits db)%nat;
  eo_new env name : exists f env', NewWritableFile env name = (OK, f, env') /\ wcontents f = [];
  eo_room m : table_ m = newSkipList [] -> ApproximateMemoryUsage (Some m) <= write_buffer_size;
}.

Context (waits : DB F -> nat) (Henv : env_ok waits).

#[local] Abbreviation room_loop' := (room_loop dbname_ write_buffer_size ApproximateMemoryUsage NewWritableFile others).
#[local] Abbreviation room_turn' := (room_turn dbname_ write_buffer_size ApproximateMemoryUsage NewWritableFile).

(** The queue and the results after steps that serve nobody. *)
Definition queue_grows (db db' : DB F) : Prop :=
  db_results db' = db_results db /\
  vs_last_sequence (db_versions db') = vs_last_sequence (db_versions db) /\
  exists ws, db_writers db' = db_writers db ++ ws /\ Forall req_ok ws.

Lemma queue_grows_refl db : queue_grows db db.
Proof. split; [done|]. split; [done|]. exists []. by rewrite app_nil_r. Qed.

Lemma queue_grows_trans db1 db2 db3 : queue_grows db1 db2 -> queue_grows db2 db3 -> queue_grows db1 db3.
Proof.
  intros (R1 & L1 & ws1 & W1 & O1) (R2 & L2 & ws2 & W2 & O2). split; [congruence|]. split; [congruence|].
  exists (ws1 ++ ws2). rewrite W2, W1. split; [by rewrite app_assoc|by apply Forall_app].
Qed.

Lemma undisturbed_grows db db' : undisturbed db db' -> queue_grows db db'.
Proof. intros []. by split; [|split]. Qed.

(** After the switch the memtable is empty: the loop ends, after one delay at most. *)
Lemma room_loop_fresh fuel (allow : bool) db env old cur : (1 < fuel)%nat ->
  inv db old cur -> table_ <$> db_mem db = Some (newSkipList []) ->
  exists db', room_loop' fuel false allow db env = Some (OK, db', env) /\ inv db' old cur /\ queue_grows db db'.
Proof.
  intros Hf Hi Ht.
  assert (Hroom : forall db0 : DB F, table_ <$> db_mem db0 = Some (newSkipList []) ->
    (ApproximateMemoryUsage (db_mem db0) <=? write_buffer_size) = true).
  { intros db0 H0. destruct (db_mem db0) as [m|]; [|done]. injection H0 as H0.
    pose proof (eo_room waits Henv m H0). lia. }
  assert (Hret : forall fuel' (db0 : DB F), (0 < fuel')%nat -> inv db0 old cur ->
    table_ <$> db_mem db0 = Some (newSkipList []) ->
    room_loop' fuel' false false db0 env = Some (OK, db0, env)).
  { intros [|fuel'] db0 Hf' [] Ht0; [lia|]. cbn [room_loop]. unfold room_turn. rewrite di_bg0. by rewrite Hroom by done. }
  destruct allow; [|exists db; rewrite Hret by (done || lia); split; [done|by split; [|apply queue_grows_refl]]].
  destruct fuel as [|fuel]; [lia|]. cbn [room_loop]. unfold room_turn at 1. rewrite (di_bg _ _ _ _ _ Hi), Hroom by done. cbn [ok negb andb].
  pose proof (eo_others waits Henv db) as Hu.
  destruct (_ <=? _); cbn [mbind option_bind].
  - exists (others db). rewrite Hret; [|lia|by apply (undisturbed_inv user MOD db)|by rewrite (un_mem _ _ Hu)].
    split; [done|]. split; [by apply (undisturbed_inv user MOD db)|by apply undisturbed_grows].
  - exists db. split; [done|]. by split; [|apply queue_grows_refl].
Qed.

(** The switch to a new memtable and a new log. *)
Lemma switch_memtable_spec db env old cur : inv db old cur ->
  exists db' env', switch_memtable dbname_ NewWritableFile db env = Some (RoomSwitched db' env') /\
    inv db' (old ++ logged_updates cur) [] /\ queue_grows db db' /\
    table_ <$> db_mem db' = Some (newSkipList []) /\ db_imm db' = Some (db_mem db).
Proof.
  intros [I1 I2 I3 I4 I5 I6 I7 I8 I9 I10]. unfold switch_memtable. rewrite I9. cbn [Z.eqb negb].
  unfold NewFileNumber. destruct (eo_new waits Henv env (LogFileName dbname_ (vs_next_file_number (db_versions db))))
    as (f & env' & -> & Hc). cbn [ok negb]. eexists _, env'. split; [done|].
  split; [|split; [|done]].
  - split; cbn [db_mem db_log db_versions db_tmp_batch db_bg_error with_numbers vs_last_sequence vs_prev_log_number];
      change (logged_updates []) with (@nil Update); rewrite ?app_nil_r; try done.
    + exists (MemTable.Ref newMemTable), newMemTable. done.
    + intros _. exists []. by apply log_holds_new.
  - split; [done|]. split; [done|]. exists []. by rewrite app_nil_r.
Qed.

(** Waiting ends: the room is found after as many turns as the background work
    needs, and what was committed is still there. *)
Lemma room_loop_spec fuel : forall (force allow : bool) db env old cur,
  (waits db + (if allow then 1 else 0) + 2 < fuel)%nat -> inv db old cur ->
  exists db' env' old' cur', room_loop' fuel force allow db env = Some (OK, db', env') /\
    inv db' old' cur' /\ old' ++ logged_updates cur' = old ++ logged_updates cur /\ queue_grows db db' /\
    (force = true -> cur' = []).
Proof.
  induction fuel as [|fuel IH]; intros force allow db env old cur Hfuel Hi; [lia|]. cbn [room_loop].
  pose proof (eo_others waits Henv db) as Hu. pose proof (eo_waits waits Henv db) as Hw.
  assert (Hagain : forall allow' : bool, (waits (others db) + (if allow' then 1 else 0) + 2 < fuel)%nat ->
    exists db' env' old' cur', room_loop' fuel force allow' (others db) env = Some (OK, db', env') /\
      inv db' old' cur' /\ old' ++ logged_updates cur' = old ++ logged_updates cur /\ queue_grows db db' /\
      (force = true -> cur' = [])).
  { intros allow' Hf'. destruct (IH force allow' (others db) env old cur Hf' (undisturbed_inv user MOD db _ _ _ Hu Hi))
      as (db' & env' & old' & cur' & H1 & H2 & H3 & H4 & H5). exists db', env', old', cur'.
    split; [done|]. split; [done|]. split; [done|]. split; [|done].
    by apply (queue_grows_trans _ (others db)); [apply undisturbed_grows|]. }
  unfold room_turn at 1. rewrite (di_bg _ _ _ _ _ Hi). cbn [ok negb].
  destruct (allow && _) eqn:Ed; cbn [mbind option_bind].
  { apply andb_true_iff in Ed as [-> _]. apply Hagain. lia. }
  destruct (negb force && _) eqn:Er; cbn [mbind option_bind].
  { exists db, env, old, cur. split; [done|]. split; [done|]. split; [done|]. split; [apply queue_grows_refl|].
    by destruct force. }
  destruct (db_imm db) as [imm|] eqn:Eimm; cbn [mbind option_bind].
  { apply Hagain. assert (Hb : blocked db) by (left; by rewrite Eimm). pose proof (eo_progress waits Henv db Hb). lia. }
  destruct (Z.leb_spec kL0_StopWritesTrigger (Z.of_nat (NumLevelFiles (db_versions db) 0))) as [Hl|Hl]; cbn [mbind option_bind].
  { apply Hagain. assert (Hb : blocked db) by by right. pose proof (eo_progress waits Henv db Hb). lia. }
  destruct (switch_memtable_spec db env old cur Hi) as (db1 & env1 & -> & Hi1 & Hq1 & Ht1 & _). cbn [mbind option_bind].
  destruct (room_loop_fresh fuel allow db1 env1 _ _ ltac:(lia) Hi1 Ht1) as (db' & E' & Hi' & Hq').
  exists db', env1, (old ++ logged_updates cur), []. split; [done|]. split; [done|].
  split; [by rewrite (app_nil_r (old ++ _))|]. split; [by apply (queue_grows_trans _ db1)|done].
Qed.

Lemma log_updates_spec log sync b frss recs : (MOD < 7 -> log_holds log frss recs) ->
  exists log' frs, log_updates MOD log sync b = (OK, log') /\
    (MOD < 7 -> log_holds log' (frss ++ [frs]) (recs ++ [b])).
Proof.
  intros Hl. unfold log_updates. destruct (Z.ltb_spec MOD 7) as [Hm|Hm]; [|exists log, []; split; [done|lia]].
  destruct (log_holds_add _ _ _ b (Hl Hm)) as (frs & w & E1 & Hw). rewrite E1. destruct sync; [|by exists w, frs].
  cbn [ok andb]. destruct (wSync_ok (dest_ w)) as (f & -> & Hc). exists (mkWriter f (block_offset_ w)), frs.
  split; [done|]. intros _. destruct Hw as [L1 L2 L3 L4]. split; [done|done|done|]. simpl. by rewrite Hc.
Qed.

(** A commit appends one batch, numbered from the last sequence number on. *)
Lemma commit_spec db sync updates switched ops old cur :
  inv db old cur -> is_batch updates ops -> Forall op_fits ops -> blen ops < 2 ^ 31 ->
  vs_last_sequence (db_versions db) + blen ops <= kMaxSequenceNumber ->
  exists db' ws, commit user MOD others db sync updates switched = Some (OK, db') /\
    inv db' old (cur ++ [(vs_last_sequence (db_versions db) + 1, ops)]) /\
    db_results db' = db_results db /\ db_writers db' = db_writers db ++ ws /\ Forall req_ok ws /\
    vs_last_sequence (db_versions db') = vs_last_sequence (db_versions db) + blen ops.
Proof.
  intros Hi [seq0 ->] Hf Hl Hmax. pose proof (blen_nonneg ops) as Hpos.
  set (last := vs_last_sequence (db_versions db)) in *. pose proof (di_last_pos _ _ _ _ _ Hi) as Hlp. fold last in Hlp.
  assert (Hk : kMaxSequenceNumber = 2 ^ 56 - 1) by by vm_compute.
  unfold commit. fold last. rewrite SetSequence_layout, Count_layout, !u64_small by lia.
  assert (Hlog : exists frss, MOD < 7 -> log_holds (db_log db) frss (map logged_record cur)).
  { destruct (Z.ltb_spec MOD 7) as [Hm|Hm]; [|exists []; lia].
    destruct (di_log _ _ _ _ _ Hi Hm) as [frss Hh]. by exists frss. }
  destruct Hlog as [frss Hlog].
  destruct (log_updates_spec (db_log db) sync (layout (last + 1) (blen ops) ops) frss _ Hlog) as (log' & frs & -> & Hlog').
  cbn [ok]. rewrite InsertInto_batch by (done || lia).
  set (mem' := insert_ops _ _ _). set (db1 := mkDB mem' _ _ _ _ _ _ _ _).
  pose proof (eo_others waits Henv db1) as [U1 U2 U3 U4 U5 U6 U7 (ws & U8 & U9)].
  unfold vs_SetLastSequence. rewrite U3. change (vs_last_sequence (db_versions db1)) with last.
  replace (last <=? last + blen ops) with true by lia. cbn [mbind option_bind]. eexists _, ws. split; [done|].
  split; [|by split].
  assert (Hupd : logged_updates (cur ++ [(last + 1, ops)]) = logged_updates cur ++ batch_updates (last + 1) ops)
    by (rewrite logged_updates_app; by rewrite logged_updates_one).
  assert (Hall : Forall up_small ((old ++ logged_updates cur) ++ batch_updates (last + 1) ops)).
  { apply Forall_app. split; [exact (di_small _ _ _ _ _ Hi)|]. apply batch_updates_small; [done|lia|lia]. }
  assert (Hord : seq_sorted ((old ++ logged_updates cur) ++ batch_updates (last + 1) ops)).
  { apply seq_sorted_app; [exact (di_order _ _ _ _ _ Hi)|exact (di_last _ _ _ _ _ Hi)]. }
  split; cbn [db_mem db_log db_versions db_tmp_batch db_bg_error with_numbers vs_last_sequence vs_prev_log_number];
    rewrite ?Hupd, ?app_assoc; try done.
  - apply (mem_is_table user (db_mem db1)); [done|]. apply mem_is_insert; [done|exact (di_mem _ _ _ _ _ Hi)|..].
    + rewrite <- app_assoc in Hall. by apply Forall_app in Hall as [_ Hall].
    + apply seq_sorted_distinct. unfold seq_sorted in *. rewrite <- app_assoc, map_app in Hord.
      by apply StronglySorted_app in Hord as (_ & _ & Hord).
  - intros Hm. exists (frss ++ [frs]). rewrite U2, map_app. by apply Hlog'.
  - apply Forall_app. split; [exact (di_logged _ _ _ _ _ Hi)|]. constructor; [|done]. repeat split; simpl; try done; lia.
  - apply Forall_app. split.
    + eapply Forall_impl; [exact (di_last _ _ _ _ _ Hi)|]. simpl. fold last. lia.
    + apply Forall_forall. intros x Hx. apply batch_updates_range in Hx. lia.
  - lia.
  - destruct switched; [done|]. rewrite U5. exact (di_tmp _ _ _ _ _ Hi).
  - rewrite U4. exact (di_prev _ _ _ _ _ Hi).
  - rewrite U6. exact (di_bg _ _ _ _ _ Hi).
Qed.

(** * [Write] *)

(** What one call of [Write] at the front of the queue does: it serves [served],
    the first writers of the queue (which other threads may have extended), whose
    operations [opss] become one batch. *)
Record write_step (db : DB F) (old : list Update) (cur : list Logged)
    (db' : DB F) (old' : list Update) (cur' : list Logged)
    (served : list WriteReq) (opss : list (list BatchOp)) : Prop := {
  ws_inv : inv db' old' cur';
  ws_updates : old' ++ logged_updates cur' =
    (old ++ logged_updates cur) ++ batch_updates (vs_last_sequence (db_versions db) + 1) (concat opss);
  ws_mem : exists pre, logged_updates cur' =
    pre ++ batch_updates (vs_last_sequence (db_versions db) + 1) (concat opss);
  ws_last : vs_last_sequence (db_versions db') = vs_last_sequence (db_versions db) + blen (concat opss);
  ws_ops : Forall2 req_ops served opss;
  ws_count : blen (concat opss) < 2 ^ 31;
  ws_first : exists w rest, served = w :: rest /\ Forall (fun x => w_sync x = true -> w_sync w = true) served;
  ws_queue : exists new, db_writers db ++ new = served ++ db_writers db' /\ Forall req_ok new;
  ws_results : db_results db' = db_results db ++ map (fun w => (w_id w, OK)) served;
}.

Lemma reqs_ops ws : Forall req_ok ws -> exists opss, Forall2 req_ops ws opss.
Proof.
  induction 1 as [|w ws [ops Hw] _ [opss IH]]; [by exists []|]. exists (ops :: opss). by constructor.
Qed.

#[local] Abbreviation Write' := (Write user MOD dbname_ write_buffer_size ApproximateMemoryUsage NewWritableFile others).

Lemma Write_spec fuel db env old cur :
  inv db old cur -> Forall req_ok (db_writers db) -> db_writers db <> [] ->
  vs_last_sequence (db_versions db) + 2 ^ 31 <= kMaxSequenceNumber -> (waits db + 3 < fuel)%nat ->
  exists db' env' old' cur' served opss, Write' fuel db env = Some (db', env') /\
    write_step db old cur db' old' cur' served opss.
Proof.
  intros Hi Hq Hne Hmax Hfuel. destruct (db_writers db) as [|w ws] eqn:Ew; [done|]. clear Hne.
  unfold Write. rewrite Ew. cbn [head mbind option_bind]. unfold MakeRoomForWrite.
  set (force := match w_batch w with None => true | Some _ => false end).
  destruct (room_loop_spec fuel force (negb force) db env old cur) as (db1 & env1 & old1 & cur1 & -> & Hi1 & Hu1 & Hq1 & Hforce);
    [destruct force; simpl; lia|done|]. cbn [mbind option_bind ok andb].
  destruct Hq1 as (Hr1 & Hl1 & ws1 & Hw1 & Hn1). rewrite Ew in Hw1. simpl in Hw1.
  destruct (w_batch w) as [b|] eqn:Eb; unfold force; cbn [negb].
  - assert (Hall : Forall req_ok (w :: ws ++ ws1)) by (rewrite app_comm_cons; by apply Forall_app).
    destruct (reqs_ops _ Hall) as [opss Hops].
    destruct (BuildBatchGroup_spec w b (ws ++ ws1) opss Eb Hops) as (k & res & sw & Eg & Hb & Hf & Hc & Hk & Hs).
    rewrite Hw1, (di_tmp _ _ _ _ _ Hi1), Eg. cbn [mbind option_bind].
    destruct (commit_spec db1 (w_sync w) res sw _ old1 cur1 Hi1 Hb Hf Hc) as (db2 & ws2 & -> & Hi2 & Hr2 & Hw2 & Hn2 & Hl2); [lia|].
    cbn [mbind option_bind]. exists (pop_writers (S k) OK db2), env1, old1, (cur1 ++ [(vs_last_sequence (db_versions db1) + 1, concat (take (S k) opss))]).
    exists (take (S k) (w :: ws ++ ws1)), (take (S k) opss). split; [done|].
    rewrite Hw1 in Hw2. assert (Htake : take (S k) (db_writers db2) = take (S k) (w :: ws ++ ws1)) by (rewrite Hw2; by apply take_app_le).
    split.
    + by destruct Hi2.
    + rewrite logged_updates_app, logged_updates_one, app_assoc. cbn [fst snd]. by rewrite Hu1, Hl1.
    + exists (logged_updates cur1). rewrite logged_updates_app, logged_updates_one. cbn [fst snd]. by rewrite Hl1.
    + cbn [pop_writers db_versions]. by rewrite Hl2, Hl1.
    + by apply Forall2_take.
    + done.
    + by exists w, (take k (ws ++ ws1)).
    + exists (ws1 ++ ws2). cbn [pop_writers db_writers]. rewrite Ew, <- Htake, take_drop, Hw2, app_assoc.
      split; [done|by apply Forall_app].
    + cbn [pop_writers db_results]. by rewrite Htake, Hr2, Hr1.
  - exists (pop_writers 1 OK db1), env1, old1, cur1, [w], [ [] ]. split; [done|]. split.
    + by destruct Hi1.
    + cbn [concat]. rewrite app_nil_r. done.
    + exists (logged_updates cur1). cbn [concat app batch_updates]. by rewrite app_nil_r.
    + cbn [pop_writers db_versions concat app]. rewrite (@blen_nil BatchOp). lia.
    + constructor; [|done]. unfold req_ops. by rewrite Eb.
    + by vm_compute.
    + exists w, []. by split; [|constructor].
    + exists ws1. cbn [pop_writers db_writers]. rewrite Ew, Hw1. done.
    + cbn [pop_writers db_results]. by rewrite Hw1, Hr1.
Qed.

(** The writers take turns: after each call the new front is signalled. *)
Fixpoint serve (k : nat) (fuel : nat) (db : DB F) (env : E) : option (DB F * E) :=
  match k, db_writers db with
  | O, _ | _, [] => Some (db, env)
  | S k, _ => '(db, env) ← Write' fuel db env; serve k fuel db env
  end.

Lemma serve_spec i : forall fuel db env old cur w,
  inv db old cur -> Forall req_ok (db_writers db) -> db_writers db !! i = Some w ->
  vs_last_sequence (db_versions db) + (Z.of_nat i + 1) * 2 ^ 31 <= kMaxSequenceNumber ->
  (forall db, waits db + 3 < fuel)%nat ->
  exists k db' env' old' cur', (k <= S i)%nat /\ serve k fuel db env = Some (db', env') /\
    inv db' old' cur' /\ (w_id w, OK) ∈ db_results db' /\ (exists l, db_results db' = db_results db ++ l).
Proof.
  induction i as [i IH] using (well_founded_induction lt_wf). intros fuel db env old cur w Hi Hq Hw Hmax Hfuel.
  assert (Hne : db_writers db <> []) by (intros E0; by rewrite E0 in Hw).
  destruct (Write_spec fuel db env old cur Hi Hq Hne ltac:(lia) (Hfuel db)) as (db1 & env1 & old1 & cur1 & served & opss & E1 & Hs).
  destruct Hs as [S1 S2 _ S3 S4 Hcnt (w0 & rest & S5 & _) (new & S6 & S7) S8].
  assert (Hstep : forall k, serve (S k) fuel db env = serve k fuel db1 env1).
  { intros k. cbn [serve]. destruct (db_writers db); [done|]. rewrite E1. done. }
  assert (Hw' : (served ++ db_writers db1) !! i = Some w) by (rewrite <- S6; by apply lookup_app_l_Some).
  assert (Hq1 : Forall req_ok (db_writers db1)).
  { assert (Ha : Forall req_ok (served ++ db_writers db1)) by (rewrite <- S6; by apply Forall_app).
    by apply Forall_app in Ha as [_ Ha]. }
  apply lookup_app_Some in Hw' as [Hw'|[Hlen Hw']].
  - exists 1%nat, db1, env1, old1, cur1. split; [lia|]. rewrite Hstep. split; [by destruct (db_writers db1)|].
    split; [done|]. rewrite S8. split; [|by eexists].
    apply elem_of_app. right. apply (list_elem_of_fmap_2 (fun w => (w_id w, OK)) _ w). by eapply list_elem_of_lookup_2.
  - assert (Hle : (1 <= length served)%nat) by (rewrite S5; simpl; lia).
    destruct (IH (i - length served)%nat ltac:(lia) fuel db1 env1 old1 cur1 w S1 Hq1 Hw') as (k & db' & env' & old' & cur' & Hk & Es & Hi' & Hin & l & Hr);
      [lia|done|].
    exists (S k), db', env', old', cur'. split; [lia|]. rewrite Hstep. split; [done|]. split; [done|]. split; [done|].
    exists (map (fun w => (w_id w, OK)) served ++ l). by rewrite Hr, S8, app_assoc.
Qed.

(** * Properties *)

(** C18: group commit, without failures ([env_ok]).  While the mutex is free the other
    threads may queue requests, take and drop references, write the immutable
    memtable and install versions, but record no background error; the operations on
    files succeed; and a blocked writer is woken in vain at most [waits] times.  Then
    [Write] of the writer at the front of the queue ends (the fuel only has to cover
    the waits) and serves a group of the first writers of the queue: all updates so
    far are the earlier ones followed by the operations of the group in queue order
    with consecutive sequence numbers, the memtable holds those since the last
    switch, the log holds exactly the batches of the memtable in the modes below 7
    (the others write no log), every writer of the group gets the status OK and
    leaves the queue, and a writer that wants a sync is only in the group of one that
    asks for it. *)
Theorem group_commit_correct (fuel : nat) (db : DB F) (env : E) (old : list Update) (cur : list Logged)
    (Hinv : inv db old cur) (Hreqs : Forall req_ok (db_writers db)) (Hqueue : db_writers db <> [])
    (Hseq : vs_last_sequence (db_versions db) + 2 ^ 31 <= kMaxSequenceNumber)
    (Hfuel : (waits db + 3 < fuel)%nat) :
  exists db' env' old' cur' served opss, Write' fuel db env = Some (db', env') /\
    write_step db old cur db' old' cur' served opss.
Proof. by apply Write_spec. Qed.

(** C22: every writer is served.  If a blocked writer is woken in vain only a
    bounded number of times, the writer at position [i] of the queue has its
    status OK after at most [i + 1] calls of [Write] by the writers that come to
    the front, however many requests are queued behind it meanwhile. *)
Theorem every_writer_served (fuel i : nat) (db : DB F) (env : E) (old : list Update) (cur : list Logged)
    (w : WriteReq) (Hinv : inv db old cur) (Hreqs : Forall req_ok (db_writers db))
    (Hw : db_writers db !! i = Some w)
    (Hseq : vs_last_sequence (db_versions db) + (Z.of_nat i + 1) * 2 ^ 31 <= kMaxSequenceNumber)
    (Hfuel : forall db, (waits db + 3 < fuel)%nat) :
  exists k db' env', (k <= S i)%nat /\ serve k fuel db env = Some (db', env') /\
    (w_id w, OK) ∈ db_results db'.
Proof.
  destruct (serve_spec i fuel db env old cur w Hinv Hreqs Hw Hseq Hfuel)
    as (k & db' & env' & old' & cur' & H1 & H2 & _ & H3 & _).
  by exists k, db', env'.
Qed.
End Steps.

(** A database that has just been opened, with two queued writers, on files that
    are their bytes; the background work finishes while the writer waits. *)
#[local] Instance ex_checksum : Checksum := crc32c_checksum 0.

Definition ex_others (db : DB flat_file) : DB flat_file :=
  let vs := db_versions db in
  mkDB (db_mem db) None (db_log db) (db_logfile_number db)
    (mkVersionSet (vs_next_file_number vs) (vs_manifest_file_number vs) (vs_last_sequence vs)
       (vs_log_number vs) (vs_prev_log_number vs) (descriptor_log_ vs) (dummy_versions_ vs)
       (0%nat, newVersion) (next_id vs) (vs_compact_pointer vs))
    (db_writers db) (db_tmp_batch db) (db_bg_error db) (db_results db).

Definition ex_waits (db : DB flat_file) : nat :=
  match db_imm db with
  | Some _ => 1
  | None => if kL0_StopWritesTrigger <=? Z.of_nat (NumLevelFiles (db_versions db) 0) then 1 else 0
  end.

Definition ex_new (env : unit) (name : bytes) : Status * flat_file * unit := (OK, [], env).

Definition ex_ops (i : nat) : list BatchOp := [OpPut (str "k") (replicate i (zb 7)); OpDelete (str "d")].

Definition ex_req (i : nat) (sync : bool) : WriteReq := mkWriteReq i (Some (batch_of (ex_ops i))) sync.

Definition ex_db : DB flat_file :=
  mkDB (Some (MemTable.Ref newMemTable)) None (newWriter []) 3 newVersionSet
    [ex_req 0 true; ex_req 1 false; ex_req 2 true] WriteBatch.Clear OK [].

Lemma ex_env_ok : env_ok 4096 (fun _ => 0) ex_new ex_others ex_waits.
Proof.
  split.
  - intros db. split; try done. exists []. by rewrite app_nil_r.
  - intros db. change (ex_waits (ex_others db)) with 0%nat. lia.
  - intros db [Hb|Hb]; change (ex_waits (ex_others db)) with 0%nat; unfold ex_waits.
    + destruct (db_imm db); [lia|done].
    + apply Z.leb_le in Hb. rewrite Hb. destruct (db_imm db); lia.
  - intros env name. by exists [], env.
  - intros m _. lia.
Qed.

Lemma ex_db_inv : db_inv BytewiseComparator 0 ex_db [] [].
Proof.
  split; try done; [| |constructor..].
  - by exists (MemTable.Ref newMemTable), newMemTable.
  - intros _. exists []. by apply log_holds_new.
Qed.

Lemma ex_db_reqs : Forall req_ok (db_writers ex_db).
Proof.
  assert (Hreq : forall i sync, (i < 3)%nat -> req_ok (ex_req i sync)).
  { intros i sync Hi. exists (ex_ops i). split.
    { exists 0. rewrite batch_of_layout by by vm_compute. done. }
    destruct i as [|[|[|i]]]; [..|lia]; (split; [repeat constructor|]; by vm_compute). }
  do 3 (apply Forall_cons_2; [apply Hreq; lia|]). apply Forall_nil_2.
Qed.

Lemma group_commit_correct_witness :
  exists db' env' old' cur' served opss,
    Write BytewiseComparator 0 (str "db") 4096 (fun _ => 0) ex_new ex_others 5 ex_db tt = Some (db', env') /\
    write_step BytewiseComparator 0 ex_db [] [] db' old' cur' served opss.
Proof.
  apply (group_commit_correct BytewiseComparator 0 (str "db") 4096 (fun _ => 0) ex_new ex_others ex_waits ex_env_ok 5 ex_db tt [] []).
  - exact ex_db_inv.
  - exact ex_db_reqs.
  - discriminate.
  - vm_compute. discriminate.
  - vm_compute. lia.
Defined.

Lemma every_writer_served_witness :
  exists k db' env', (k <= 3)%nat /\
    serve BytewiseComparator 0 (str "db") 4096 (fun _ => 0) ex_new ex_others k 5 ex_db tt = Some (db', env') /\
    (2%nat, OK) ∈ db_results db'.
Proof.
  apply (every_writer_served BytewiseComparator 0 (str "db") 4096 (fun _ => 0) ex_new ex_others ex_waits ex_env_ok 5 2 ex_db tt [] []
    (ex_req 2 true)).
  - exact ex_db_inv.
  - exact ex_db_reqs.
  - reflexivity.
  - vm_compute. discriminate.
  - intros db. unfold ex_waits. destruct (db_imm db); [lia|]. destruct (_ <=? _); lia.
Defined.
