(* ===== verification/MemIter.v ===== *)
(** db/memtable.cc, [MemTableIterator]: the iterator over a memtable, and the
    entries that a walk over it meets. *)

From stdpp Require Import base list sorting strings.
From S2P Require Import Prelude Status Coding Comparator DbFormat WriteBatch SkipList SkipListProofs MemTable Iterator.

#[local] Open Scope Z_scope.

(** The table and the node of [iter_]. *)
Record MemTableIterator := mkMemIter { mi_table : MemTable; mi_node : option nat }.

Definition MemTable_NewIterator (m : MemTable) : MemTableIterator := mkMemIter m None.

Definition mi_move (it : MemTableIterator) (n : option (option nat)) : option MemTableIterator :=
  mkMemIter (mi_table it) <$> n.

(** [key] and [value] require a valid iterator. *)
#[export] Instance MemTableIterator_iterator (user : Comparator) : Iterator MemTableIterator := {|
  Valid it := iter_Valid (mi_node it);
  Seek it k := mi_move it (mem_Seek user (mi_table it) k);
  SeekToFirst it := mi_move it (mem_SeekToFirst (mi_table it));
  SeekToLast it := mi_move it (mem_SeekToLast (mi_table it));
  Next it := mi_move it (mem_Next (mi_table it) (mi_node it));
  Prev it := mi_move it (mem_Prev user (mi_table it) (mi_node it));
  key it := default [] (mem_key (mi_table it) (mi_node it));
  value it := default [] (mem_value (mi_table it) (mi_node it));
  status _ := OK |}.

(** * Forward walks *)

(** The iterator stands before exactly the entries [l] and meets no error. *)
Inductive walks {I} `{Iterator I} : I -> list (bytes * bytes) -> Prop :=
  | walks_nil it : Valid it = false -> status it = OK -> walks it []
  | walks_cons it it' e l : Valid it = true -> status it = OK -> key it = e.1 -> value it = e.2 ->
      Next it = Some it' -> walks it' l -> walks it (e :: l).

Definition up_kv (x : Update) : bytes * bytes := (up_ikey x, up_value x).

Section Walk.
Context (user : Comparator) `{!@ComparatorOk user}.
#[local] Instance icmp : Comparator := InternalKeyComparator user.
#[local] Instance miter : Iterator MemTableIterator := MemTableIterator_iterator user.
#[local] Abbreviation kcmp := (KeyComparator user).

Lemma mem_walks m ns : forall pre xs, quiet kcmp [] (table_ m) (pre ++ ns) ->
  (ekey <$> ns) = (up_entry <$> xs) -> Forall up_small xs ->
  walks (mkMemIter m (eaddr <$> head ns)) (map up_kv xs).
Proof.
  induction ns as [|e ns IH]; intros pre xs Hq Hx Hs; (destruct xs as [|x xs]; [try done|try done]).
  { by constructor. }
  rewrite !fmap_cons in Hx. injection Hx as He Hx. apply Forall_cons in Hs as [(Hs1 & Hs2 & Hs3) Hs].
  pose proof (quiet_key kcmp [] _ _ _ _ Hq) as Hk.
  apply (walks_cons _ (mkMemIter m (eaddr <$> head ns))); [done|done|..].
  - simpl. unfold mem_key. rewrite Hk. simpl. rewrite He. by apply mem_key_entry.
  - simpl. unfold mem_value. rewrite Hk. simpl. rewrite He. by apply mem_value_entry.
  - change (Next _) with (mi_move (mkMemIter m (Some (eaddr e))) (iter_Next (table_ m) (Some (eaddr e)))).
    by rewrite (quiet_Next_node kcmp [] _ _ _ _ Hq).
  - apply (IH (pre ++ [e])); [by rewrite <- app_assoc|done|done].
Qed.

(** The list of updates in the order of the table. *)
Lemma updates_of_nodes ups (ns : list (@Ent bytes)) : (ekey <$> ns) ≡ₚ (up_entry <$> ups) ->
  exists xs, xs ≡ₚ ups /\ (ekey <$> ns) = (up_entry <$> xs).
Proof.
  intros Hp. apply Permutation_map_inv in Hp as (xs & E & Hp). by exists xs.
Qed.

Lemma entries_sorted xs ns : (ekey <$> ns) = (up_entry <$> xs) -> Forall up_small xs ->
  StronglySorted (ent_lt kcmp) ns -> StronglySorted (entry_lt (cmp := icmp)) (map up_kv xs).
Proof.
  revert xs. induction ns as [|e ns IH]; intros [|x xs] E Hs Hsort; try done; [constructor|].
  rewrite !fmap_cons in E. injection E as He E. apply Forall_cons in Hs as [Hx Hs].
  apply StronglySorted_inv in Hsort as [Hsort Hlt]. simpl. constructor; [by apply IH|].
  apply Forall_forall. intros kv Hkv. apply (list_elem_of_fmap_1 up_kv) in Hkv as (y & -> & Hy).
  rewrite Forall_forall in Hs. specialize (Hs y Hy).
  assert (Hin : up_entry y ∈ ekey <$> ns) by (rewrite E; by apply list_elem_of_fmap_2).
  apply list_elem_of_fmap_1 in Hin as (e' & He' & Hin). rewrite Forall_forall in Hlt. specialize (Hlt e' Hin).
  unfold ent_lt in Hlt. rewrite He, <- He' in Hlt. rewrite (up_compare user x y) in Hlt by done. exact Hlt.
Qed.

(** A walk from the first entry of a memtable meets its updates, in the order of
    the internal keys. *)
Lemma memtable_walk ups m : Forall up_small ups -> distinct_updates user ups ->
  add_all user ups = Some m ->
  exists xs it, xs ≡ₚ ups /\ StronglySorted (entry_lt (cmp := icmp)) (map up_kv xs) /\
    forall m', table_ m' = table_ m ->
      SeekToFirst (MemTable_NewIterator m') = Some (it m') /\ walks (it m') (map up_kv xs).
Proof.
  intros Hs Hd Em.
  destruct (inserts_spec kcmp [] _ (entries_distinct user ups Hs Hd)) as (s & ns & E & Hq & Hp).
  rewrite add_all_inserts, E in Em. injection Em as <-. destruct (updates_of_nodes ups ns Hp) as (xs & Hxs & Ens).
  assert (Hsx : Forall up_small xs) by by rewrite Hxs.
  exists xs, (fun m' => mkMemIter m' (eaddr <$> head ns)). split; [done|].
  split; [apply (entries_sorted xs ns Ens Hsx), (inv_sorted _ _ _ _ (quiet_inv _ _ _ _ Hq))|].
  intros m' Em'. cbn [table_] in Em'. split.
  - change (SeekToFirst _) with (mi_move (MemTable_NewIterator m') (iter_SeekToFirst (table_ m'))).
    by rewrite Em', (quiet_First_node kcmp [] s ns Hq).
  - apply (mem_walks m' ns []); [by rewrite Em'|done|done].
Qed.

(** * Walks in both directions *)

(** The iterator stands at node [i] of the table. *)
Definition mem_at (it : MemTableIterator) (l : list (bytes * bytes)) (i : nat) : Prop :=
  exists ns xs, quiet kcmp [] (table_ (mi_table it)) ns /\ (ekey <$> ns) = (up_entry <$> xs) /\ Forall up_small xs /\
    l = map up_kv xs /\ (i <= length ns)%nat /\ mi_node it = eaddr <$> ns !! i.

Lemma nodes_length (ns : list (@Ent bytes)) xs : (ekey <$> ns) = (up_entry <$> xs) -> length ns = length xs.
Proof. intros E. apply (f_equal length) in E. by rewrite !length_fmap in E. Qed.

Lemma node_entry (ns : list (@Ent bytes)) xs i x : (ekey <$> ns) = (up_entry <$> xs) -> xs !! i = Some x ->
  exists e, ns !! i = Some e /\ ekey e = up_entry x.
Proof.
  intros E Hx. assert (Hi : (ekey <$> ns) !! i = Some (up_entry x)) by (rewrite E; by rewrite list_lookup_fmap, Hx).
  rewrite list_lookup_fmap in Hi. destruct (ns !! i) as [e|]; [|done]. injection Hi as Hi. by exists e.
Qed.

Lemma split_at {A} (l : list A) i x : l !! i = Some x -> l = take i l ++ x :: drop (S i) l.
Proof. intros E. by rewrite take_drop_middle. Qed.

Lemma seek_compare x target : up_small x -> blen target < 2 ^ 32 -> kcmp (up_entry x) (EncodeKey target) = InternalKey_Compare user (up_ikey x) target.
Proof.
  intros (_ & Hk & _) Ht. unfold KeyComparator, up_entry. rewrite mem_key_entry by done. fold (up_ikey x). f_equal.
  unfold EncodeKey, mem_GetLengthPrefixedSlice. rewrite <- (app_nil_r target) at 2. by rewrite mem_split_put.
Qed.

Lemma mem_Seek_at m ns xs target : quiet kcmp [] (table_ m) ns -> (ekey <$> ns) = (up_entry <$> xs) -> Forall up_small xs -> blen target < 2 ^ 32 ->
  mem_Seek user m target = Some (eaddr <$> ns !! seek_index (cmp := icmp) target (map up_kv xs)).
Proof.
  intros Hq E Hs Ht. set (i := seek_index _ _). pose proof (nodes_length ns xs E) as Hlen.
  pose proof (entries_sorted xs ns E Hs (inv_sorted _ _ _ _ (quiet_inv _ _ _ _ Hq))) as Hsort.
  assert (Hx : forall j e, ns !! j = Some e -> exists x, xs !! j = Some x /\ ekey e = up_entry x /\ up_small x).
  { intros j e He. destruct (lookup_lt_is_Some_2 xs j) as [x Hx]; [rewrite <- Hlen; by eapply lookup_lt_Some|].
    destruct (node_entry ns xs j x E Hx) as (e' & He' & Hk). rewrite He in He'. injection He' as <-. exists x. split; [done|]. split; [done|].
    rewrite Forall_forall in Hs. by apply Hs, list_elem_of_lookup_2 with j. }
  assert (Hkv : forall j x, xs !! j = Some x -> map up_kv xs !! j = Some (up_kv x)) by (intros j x Hj; change (map up_kv xs) with (up_kv <$> xs); by rewrite list_lookup_fmap, Hj).
  rewrite <- (take_drop i ns) in Hq. unfold mem_Seek. destruct (quiet_Seek kcmp [] _ _ _ (EncodeKey target) Hq) as [-> _].
  - apply Forall_lookup. intros j e Hj. apply lookup_take_Some in Hj as [Hj Hlt]. destruct (Hx j e Hj) as (x & Hxj & Ek & Hsx). unfold before.
    rewrite Ek, seek_compare by done. exact (seek_index_before (cmp := icmp) target _ j (up_kv x) (Hkv j x Hxj) Hlt).
  - apply Forall_lookup. intros j e Hj. rewrite lookup_drop in Hj. destruct (Hx _ e Hj) as (x & Hxj & Ek & Hsx). unfold before.
    rewrite Ek, seek_compare by done. pose proof (seek_index_after (cmp := icmp) target _ (i + j) (up_kv x) Hsort (Hkv _ x Hxj) ltac:(unfold i; lia)) as Hge. cbn [up_kv fst] in Hge.
    change (Compare (Comparator := icmp)) with (InternalKey_Compare user) in Hge. lia.
  - by rewrite head_lookup, lookup_drop, Nat.add_0_r.
Qed.

#[export] Instance mem_iterator_ok : @IteratorOk MemTableIterator (MemTableIterator_iterator user) icmp.
Proof.
  assert (Hmove : forall (it : MemTableIterator) ns xs n j, quiet kcmp [] (table_ (mi_table it)) ns -> (ekey <$> ns) = (up_entry <$> xs) -> Forall up_small xs -> (j <= length xs)%nat ->
    n = Some (eaddr <$> ns !! j) -> exists it', mi_move it n = Some it' /\ mem_at it' (map up_kv xs) j).
  { intros it ns xs n j Hq E Hs Hj ->. eexists. split; [reflexivity|]. exists ns, xs. rewrite (nodes_length ns xs E). by split_and!. }
  refine (@Build_IteratorOk MemTableIterator (MemTableIterator_iterator user) icmp mem_at _ _ _ _ _ _ _ _ _).
  - intros it l i (ns & xs & _ & E & _ & -> & Hi & _). rewrite length_map. by rewrite <- (nodes_length ns xs E).
  - intros it l i e (ns & xs & Hq & E & Hs & -> & Hi & Hn) He. change (map up_kv xs) with (up_kv <$> xs) in He. rewrite list_lookup_fmap in He.
    destruct (xs !! i) as [x|] eqn:Ex; [|done]. injection He as <-. destruct (node_entry ns xs i x E Ex) as (nd & End & Ek). rewrite End in Hn. cbn [fmap option_fmap option_map] in Hn.
    rewrite Forall_forall in Hs. destruct (Hs x (list_elem_of_lookup_2 _ _ _ Ex)) as (_ & Hk & Hv).
    rewrite (split_at ns i nd End) in Hq. pose proof (quiet_key kcmp [] _ _ _ _ Hq) as Hkey.
    cbn [Valid key value MemTableIterator_iterator]. unfold mem_key, mem_value. rewrite Hn, Hkey. cbn [fmap option_fmap option_map default]. rewrite Ek. unfold up_entry.
    rewrite mem_key_entry, mem_value_entry by done. done.
  - intros it l (ns & xs & _ & E & _ & -> & _ & Hn). rewrite length_map, <- (nodes_length ns xs E) in Hn. rewrite lookup_ge_None_2 in Hn by lia.
    cbn [Valid MemTableIterator_iterator]. by rewrite Hn.
  - done.
  - intros it l i target (ns & xs & Hq & E & Hs & -> & _) Ht. cbn [Seek MemTableIterator_iterator]. apply (Hmove it ns xs); try done.
    + pose proof (seek_index_le (cmp := icmp) target (map up_kv xs)) as Hle. by rewrite length_map in Hle.
    + by apply mem_Seek_at.
  - intros it l i (ns & xs & Hq & E & Hs & -> & _). cbn [SeekToFirst MemTableIterator_iterator]. apply (Hmove it ns xs); try done; [lia|].
    unfold mem_SeekToFirst. rewrite (quiet_First_node kcmp [] _ ns Hq). by destruct ns.
  - intros it l i (ns & xs & Hq & E & Hs & -> & _). cbn [SeekToLast MemTableIterator_iterator]. rewrite length_map. apply (Hmove it ns xs); try done; [lia|].
    unfold mem_SeekToLast. rewrite (quiet_Last_node kcmp [] _ ns Hq), last_lookup. rewrite (nodes_length ns xs E). by rewrite Nat.sub_1_r.
  - intros it l i (ns & xs & Hq & E & Hs & -> & _ & Hn) Hi. rewrite length_map in Hi. destruct (lookup_lt_is_Some_2 xs i Hi) as [x Ex].
    destruct (node_entry ns xs i x E Ex) as (nd & End & _). cbn [Next MemTableIterator_iterator]. apply (Hmove it ns xs); [done..|].
    unfold mem_Next. rewrite Hn, End. cbn [fmap option_fmap option_map]. rewrite (split_at ns i nd End) in Hq. rewrite (quiet_Next_node kcmp [] _ _ _ _ Hq). by rewrite head_lookup, lookup_drop, Nat.add_0_r.
  - intros it l i (ns & xs & Hq & E & Hs & -> & _ & Hn) Hi. rewrite length_map in *. destruct (lookup_lt_is_Some_2 xs i Hi) as [x Ex].
    destruct (node_entry ns xs i x E Ex) as (nd & End & _). cbn [Prev MemTableIterator_iterator]. apply (Hmove it ns xs); try done; [destruct i; lia|].
    unfold mem_Prev. rewrite Hn, End. cbn [fmap option_fmap option_map]. pose proof (nodes_length ns xs E) as Hlen. rewrite (split_at ns i nd End) in Hq. rewrite (quiet_Prev_node kcmp [] _ _ _ _ Hq).
    destruct i as [|i]; [rewrite lookup_ge_None_2 by lia; done|]. rewrite last_lookup, length_take, Nat.min_l by lia. cbn [pred]. rewrite lookup_take_lt by lia. done.
Defined.

(** The iterator of a memtable with the updates [ups]. *)
Lemma memtable_iterator_at ups m m' : Forall up_small ups -> distinct_updates user ups -> add_all user ups = Some m -> table_ m' = table_ m ->
  exists xs, xs ≡ₚ ups /\ StronglySorted (entry_lt (cmp := icmp)) (map up_kv xs) /\ mem_at (MemTable_NewIterator m') (map up_kv xs) (length xs).
Proof.
  intros Hs Hd Em Et. destruct (inserts_spec kcmp [] _ (entries_distinct user ups Hs Hd)) as (s & ns & E & Hq & Hp).
  rewrite add_all_inserts, E in Em. injection Em as <-. destruct (updates_of_nodes ups ns Hp) as (xs & Hxs & Ens).
  assert (Hsx : Forall up_small xs) by by rewrite Hxs.
  exists xs. split; [done|]. split; [apply (entries_sorted xs ns Ens Hsx), (inv_sorted _ _ _ _ (quiet_inv _ _ _ _ Hq))|].
  exists ns, xs. cbn [MemTable_NewIterator mi_table mi_node table_] in *. rewrite Et. pose proof (nodes_length ns xs Ens) as Hl.
  split_and!; try done; [lia|]. by rewrite lookup_ge_None_2 by lia.
Qed.
End Walk.
