(* ===== verification/Builder.v ===== *)
(** db/builder.cc: [BuildTable] writes the entries of an iterator to a new table
    file; db/db_impl.cc: [WriteLevel0Table] writes a memtable and adds the table
    to an edit.  A table built from an iterator holds exactly what the iterator
    showed, and a flushed memtable is a table of its updates.

    The environment appears as parameters, like in CompactionWork; [table_status]
    is the status of an iterator of the table cache over the new file.  The
    statistics of the new file are not modelled. *)

From stdpp Require Import base list gmap sorting strings.
From S2P Require Import Prelude Status Coding Crc32c Env Logging Comparator DbFormat WriteBatch SkipList MemTable VersionEdit Version VersionBuilder Filename FilterBlock Iterator Format Block BlockProofs TableBuilder Table TableProofs TableGet VersionSet DbWriteProofs MemIter.

#[local] Open Scope Z_scope.

Section BuildTable.
Context {E F I : Type} `{!FileSystem E} `{!WritableFile F} `{!Checksum} `{!Snappy} `{!Iterator I}.
Context (options : TableOptions) (dbname : bytes).
Context (NewWritableFile : E -> bytes -> Status * F * E) (Close : F -> Status * F)
  (table_status : Z -> Z -> Status).

(** The loop over the entries: the iterator at its end, the builder and
    [meta->largest].  The fuel counts the entries. *)
Fixpoint build_loop (fuel : nat) (iter : I) (builder : Rep F) (largest : bytes)
    : option (I * Rep F * bytes) :=
  if Valid iter then
    match fuel with
    | O => None
    | S fuel' =>
        let key := key iter in
        let builder := TableBuilder_Add builder key (value iter) in
        iter ← Next iter;
        build_loop fuel' iter builder key
    end
  else Some (iter, builder, largest).

(** The end: errors of the input, and whether the file is kept. *)
Definition finish_build (iter_status s : Status) (meta : FileMetaData) (file : option F) (env : E)
    : Status * FileMetaData * option F * E :=
  let s := if ok iter_status then s else iter_status in
  if ok s && (0 <? file_size meta) then (s, meta, file, env)
  else (s, meta, None, (fs_delete env (TableFileName dbname (number meta))).2).

(** The status, [*meta], the file if it was kept.  [None]: the fuel, undefined
    behaviour of the iterator, or the assertion that the file is not empty. *)
Definition BuildTable (fuel : nat) (iter : I) (n : Z) (env : E)
    : option (Status * FileMetaData * option F * E) :=
  iter ← SeekToFirst iter;
  let meta := newFileMetaData n 0 [] [] in
  if Valid iter then
    let '(s, f, env) := NewWritableFile env (TableFileName dbname n) in
    if negb (ok s) then Some (s, meta, None, env)
    else
      let smallest := key iter in
      '(iter, builder, largest) ← build_loop fuel iter (newTableBuilder options f) [];
      let '(s, builder) := TableBuilder_Finish builder in
      let size := if ok s then FileSize builder else 0 in
      if ok s && (size <=? 0) then None
      else
        let meta := newFileMetaData n size smallest largest in
        let '(s, f) := if ok s then wSync (file builder) else (s, file builder) in
        let '(s, f) := if ok s then Close f else (s, f) in
        let s := if ok s then table_status n size else s in
        Some (finish_build (status iter) s meta (Some f) env)
  else Some (finish_build (status iter) OK meta None env).
End BuildTable.

(** * [WriteLevel0Table] *)

(** What flushing a memtable works on: the versions, the edit, the pending
    outputs and, with their numbers, the table files that were kept. *)
Record FlushState (F : Type) := mkFlush {
  fl_versions : VersionSet F;
  fl_edit : VersionEdit;
  fl_pending : gset Z;
  fl_tables : list (Z * F);
}.
Arguments mkFlush {F} _ _ _ _.
Arguments fl_versions {F} _.
Arguments fl_edit {F} _.
Arguments fl_pending {F} _.
Arguments fl_tables {F} _.

Section Flush.
Context {E F : Type} `{!FileSystem E} `{!WritableFile F} `{!Checksum} `{!Snappy}.
Context (user : Comparator) (options : TableOptions) (max_file_size : Z) (dbname_ : bytes).
Context (NewWritableFile : E -> bytes -> Status * F * E) (Close : F -> Status * F)
  (table_status : Z -> Z -> Status).
#[local] Existing Instance MemTableIterator_iterator.

(** The level for a table of the user keys from [lo] to [hi]. *)
Definition flush_level (base : option Version) (lo hi : bytes) : option nat :=
  match base with
  | Some v => PickLevelForMemTableOutput user max_file_size v lo hi
  | None => Some 0%nat
  end.

(** [mem] is a memtable whose skip list is not broken. *)
Definition WriteLevel0Table (fuel : nat) (mem : MemTable) (base : option Version)
    (st : FlushState F) (env : E) : option (Status * FlushState F * E) :=
  let '(n, vs) := NewFileNumber (fl_versions st) in
  let pending := {[ n ]} ∪ fl_pending st in
  '(s, meta, f, env) ← BuildTable (Iterator0 := MemTableIterator_iterator user) options dbname_
                         NewWritableFile Close table_status fuel (MemTable_NewIterator mem) n env;
  let tables := fl_tables st ++ match f with Some f => [(n, f)] | None => [] end in
  let pending := pending ∖ {[ n ]} in
  if ok s && (0 <? file_size meta) then
    level ← flush_level base (ExtractUserKey (smallest meta)) (ExtractUserKey (largest meta));
    Some (s, mkFlush vs (AddFile (fl_edit st) (Z.of_nat level) (number meta) (file_size meta)
                           (smallest meta) (largest meta)) pending tables, env)
  else Some (NotFound (str "Empty") [], mkFlush vs (fl_edit st) pending tables, env).
End Flush.

(** * Tables in files *)

Section Tables.
Context {F : Type} `{HF : WritableFileOk F} `{!Checksum} `{!Snappy} (cmp : Comparator) (options : TableOptions).

(** The file [f] of [size] bytes is a finished table of the entries [l]. *)
Definition holds_table (f : F) (size : Z) (l : list (bytes * bytes)) : Prop :=
  exists f0 r, buildable (cmp := cmp) options l f0 /\ build options l f0 = (OK, r) /\
    size = FileSize r /\ wcontents f = wcontents (file r).

(** The entries fit into a table. *)
Definition flushable (l : list (bytes * bytes)) : Prop :=
  forall f0 : F, wcontents f0 = [] -> buildable (cmp := cmp) options l f0.
End Tables.

Section Build.
Context {E F I : Type} `{!FileSystem E} `{HF : WritableFileOk F} `{!Checksum} `{!Snappy} `{HI : !Iterator I}.
Context (cmp : Comparator) (options : TableOptions) (dbname : bytes).
Context (NewWritableFile : E -> bytes -> Status * F * E) (Close : F -> Status * F)
  (table_status : Z -> Z -> Status).

(** The environment does its part. *)
Record files_ok : Prop := {
  fo_new env name : exists f env', NewWritableFile env name = (OK, f, env') /\ wcontents f = [];
  fo_close f : exists f', Close f = (OK, f') /\ wcontents f' = wcontents f;
  fo_table n size : table_status n size = OK;
}.

Lemma build_loop_spec it l : walks it l -> forall fuel b largest, (length l <= fuel)%nat ->
  exists it', build_loop (F := F) fuel it b largest =
    Some (it', TableProofs.add_all l b, default largest (fst <$> last l)) /\ status it' = OK.
Proof.
  induction 1 as [it Hv Hs|it it' e l Hv Hs Hk Hva Hn _ IH]; intros fuel b largest Hf.
  - exists it. split; [|done]. destruct fuel; cbn [build_loop]; by rewrite Hv.
  - destruct fuel as [|fuel]; simpl in Hf; [lia|]. cbn [build_loop]. rewrite Hv, Hk, Hva, Hn. cbn [mbind option_bind].
    destruct (IH fuel (TableBuilder_Add b e.1 e.2) e.1) as (it2 & E2 & Hs2); [lia|].
    exists it2. rewrite E2, last_cons. split; [|done]. by destruct (last l).
Qed.

Lemma build_ok l (f : F) : buildable (cmp := cmp) options l f ->
  exists r, build options l f = (OK, r) /\ 0 < FileSize r.
Proof.
  intros (Hint & Hf & _ & Hfit & Hname & Hsmall). unfold build.
  destruct (newTableBuilder_ok options f Hf) as (fops & Hi).
  destruct (add_all_ok options Hint l _ _ _ _ Hi) as (dn & cur & fops' & Hi' & Hp & E'); [done|done|].
  simpl in E'. rewrite <- E' in Hfit.
  destruct (Finish_ok options Hint _ _ _ _ Hi' Hp Hfit Hname Hsmall) as (r & done' & E2 & _ & Hl & Hsz).
  exists r. split; [done|]. rewrite Hsz. destruct (tl_rest _ _ _ Hl) as (pre & mh & ih & fh & mixs & iixs & Ec & _).
  rewrite Ec, blen_app. pose proof (blen_nonneg pre).
  assert (0 < blen (footer_bytes (mkFooter mh ih))); [|lia].
  unfold footer_bytes. rewrite !blen_app. change (blen magic_bytes) with 8.
  pose proof (blen_nonneg (handle_bytes mh)). pose proof (blen_nonneg (handle_bytes ih)).
  pose proof (blen_nonneg (footer_padding (mkFooter mh ih))). simpl. lia.
Qed.

Context (Henv : files_ok).

(** A non-empty walk is written to a table of exactly its entries. *)
Lemma BuildTable_spec (iter it : I) e l n env fuel : SeekToFirst iter = Some it -> walks it (e :: l) ->
  flushable (F := F) cmp options (e :: l) -> (length (e :: l) <= fuel)%nat ->
  exists f size env', 
    BuildTable options dbname NewWritableFile Close table_status fuel iter n env =
      Some (OK, newFileMetaData n size e.1 (default [] (fst <$> last (e :: l))), Some f, env') /\
    0 < size /\ holds_table cmp options f size (e :: l).
Proof.
  intros Es Hw Hfl Hfuel. unfold BuildTable. rewrite Es. cbn [mbind option_bind].
  pose proof Hw as Hw0. inversion Hw0 as [|? ? ? ? Hv Hst Hk Hva Hn Hw1]; subst. rewrite Hv, Hk.
  destruct (fo_new Henv env (TableFileName dbname n)) as (f0 & env1 & -> & Hc). cbn [ok negb].
  destruct (build_loop_spec it (e :: l) Hw fuel (newTableBuilder options f0) [] Hfuel) as (it2 & -> & Hs2).
  cbn [mbind option_bind]. pose proof (Hfl f0 Hc) as Hb.
  destruct (build_ok _ _ Hb) as (r & Er & Hsz). pose proof Er as Er'. unfold build in Er'. rewrite Er'. cbn [ok andb].
  replace (FileSize r <=? 0) with false by lia.
  destruct (wSync_ok (file r)) as (f1 & -> & C1). cbn [ok].
  destruct (fo_close Henv f1) as (f2 & -> & C2). cbn [ok]. rewrite (fo_table Henv).
  unfold finish_build. rewrite Hs2. cbn [ok andb file_size newFileMetaData]. replace (0 <? FileSize r) with true by lia.
  exists f2, (FileSize r), env1. split; [done|]. split; [done|]. exists f0, r. by rewrite C2, C1.
Qed.

(** Nothing is written for an empty walk. *)
Lemma BuildTable_empty (iter it : I) n env fuel : SeekToFirst iter = Some it -> walks it [] ->
  exists env', BuildTable options dbname NewWritableFile Close table_status fuel iter n env =
    Some (OK, newFileMetaData n 0 [] [], None, env').
Proof.
  intros Es Hw. unfold BuildTable. rewrite Es. cbn [mbind option_bind].
  inversion Hw as [? Hv Hst|]; subst. rewrite Hv. unfold finish_build. rewrite Hst. by eexists.
Qed.
End Build.

(** * Flushing a memtable *)

Section Flush.
Context {E F : Type} `{!FileSystem E} `{HF : WritableFileOk F} `{!Checksum} `{!Snappy}.
Context (user : Comparator) `{Huser : !@ComparatorOk user}.
Context (options : TableOptions) (max_file_size : Z) (dbname_ : bytes).
Context (NewWritableFile : E -> bytes -> Status * F * E) (Close : F -> Status * F)
  (table_status : Z -> Z -> Status) (Henv : files_ok NewWritableFile Close table_status).

#[local] Abbreviation icmp := (InternalKeyComparator user).
#[local] Abbreviation flush := (WriteLevel0Table user options max_file_size dbname_ NewWritableFile Close table_status).

(** A table of these updates can be built. *)
Definition updates_fit (ups : list Update) : Prop :=
  forall xs, xs ≡ₚ ups -> StronglySorted (entry_lt (cmp := icmp)) (map up_kv xs) ->
    flushable (F := F) icmp options (map up_kv xs).

(** Nothing in the levels down to the one picked overlaps the table. *)
Definition level_ok (base : option Version) (level : nat) (lo hi : bytes) : Prop :=
  match base with
  | None => level = 0%nat
  | Some v => (level <= Z.to_nat kMaxMemCompactLevel)%nat /\
      ((0 < level)%nat -> forall l f, (l <= level)%nat -> f ∈ level_files v l ->
         overlaps user (Some lo) (Some hi) f = false)
  end.

(** The effect of a flush that wrote the updates [xs], in the order of their keys. *)
Record flushed (base : option Version) (st st' : FlushState F) (xs : list Update) : Prop := {
  fd_table : exists f size level x y,
    let n := vs_next_file_number (fl_versions st) in
    head xs = Some x /\ last xs = Some y /\
    fl_tables st' = fl_tables st ++ [(n, f)] /\ holds_table icmp options f size (map up_kv xs) /\
    fl_edit st' = AddFile (fl_edit st) (Z.of_nat level) n size (up_ikey x) (up_ikey y) /\
    level_ok base level (up_key x) (up_key y);
  fd_versions : fl_versions st' = (NewFileNumber (fl_versions st)).2;
  fd_sorted : StronglySorted (entry_lt (cmp := icmp)) (map up_kv xs);
  fd_pending : fl_pending st' = fl_pending st ∖ {[ vs_next_file_number (fl_versions st) ]};
}.

Lemma WriteLevel0Table_spec fuel m ups base st env :
  mem_is user (Some m) ups -> Forall up_small ups -> distinct_updates user ups -> ups <> [] ->
  updates_fit ups -> (forall v, base = Some v -> version_wf user v) -> (length ups <= fuel)%nat ->
  exists st' env' xs, flush fuel m base st env = Some (OK, st', env') /\ xs ≡ₚ ups /\ flushed base st st' xs.
Proof.
  intros (m0 & t & [= <-] & Et & Htab) Hs Hd Hne Hfit Hwf Hfuel.
  destruct (memtable_walk user ups t Hs Hd Et) as (xs & it & Hp & Hsort & Hw). destruct (Hw m Htab) as [Es Hwalk].
  destruct xs as [|x xs]; [by apply Permutation_nil_l in Hp|]. cbn [map] in Hwalk.
  destruct (last (x :: xs)) as [y|] eqn:Ey; [|by apply last_None in Ey].
  assert (Elast : default [] (fst <$> last (map up_kv (x :: xs))) = up_ikey y).
  { change (map up_kv (x :: xs)) with (up_kv <$> (x :: xs)). by rewrite fmap_last, Ey. }
  unfold WriteLevel0Table. rewrite (surjective_pairing (NewFileNumber _)). set (n := (NewFileNumber (fl_versions st)).1).
  destruct (BuildTable_spec (HI := MemTableIterator_iterator user) icmp options dbname_ NewWritableFile Close table_status Henv
    (MemTable_NewIterator m) (it m) (up_kv x) (map up_kv xs) n env fuel Es Hwalk) as (f & size & env' & -> & Hsz & Hh).
  { apply (Hfit (x :: xs)); [done|exact Hsort]. }
  { simpl. rewrite length_map. apply Permutation_length in Hp. simpl in Hp. lia. }
  change (up_kv x :: map up_kv xs) with (map up_kv (x :: xs)) in *. rewrite Elast.
  cbn [mbind option_bind ok andb file_size smallest largest number newFileMetaData]. replace (0 <? size) with true by lia.
  change (up_kv x).1 with (up_ikey x). rewrite !up_ikey_user.
  assert (Hlevel : exists level, flush_level user max_file_size base (up_key x) (up_key y) = Some level /\
    level_ok base level (up_key x) (up_key y)).
  { destruct base as [v|]; simpl; [|by exists 0%nat].
    destruct (PickLevel_spec user max_file_size v (up_key x) (up_key y) (Hwf v eq_refl)) as (L & EL & HL). by exists L. }
  destruct Hlevel as (level & -> & Hlevel). cbn [mbind option_bind]. eexists _, env', (x :: xs). split; [done|]. split; [done|].
  split; cbn [fl_versions fl_edit fl_pending fl_tables]; [|done|done|].
  - exists f, size, level, x, y. done.
  - change (vs_next_file_number (fl_versions st)) with n. set_solver.
Qed.

(** An empty memtable: nothing is written, but the caller is told NotFound. *)
Lemma WriteLevel0Table_empty fuel m base st env : mem_is user (Some m) [] ->
  exists st' env', flush fuel m base st env = Some (NotFound (str "Empty") [], st', env') /\
    fl_edit st' = fl_edit st /\ fl_tables st' = fl_tables st.
Proof.
  intros (m0 & t & [= <-] & Et & Htab).
  destruct (memtable_walk user [] t (Forall_nil_2 _) (SSorted_nil _) Et) as (xs & it & Hp & _ & Hw).
  destruct (Hw m Htab) as [Es Hwalk]. apply Permutation_nil_r in Hp as ->.
  unfold WriteLevel0Table. rewrite (surjective_pairing (NewFileNumber _)).
  destruct (BuildTable_empty (HI := MemTableIterator_iterator user) options dbname_ NewWritableFile Close table_status
    (MemTable_NewIterator m) (it m) (NewFileNumber (fl_versions st)).1 env fuel Es Hwalk) as [env' ->].
  cbn [mbind option_bind ok andb file_size newFileMetaData Z.ltb Z.compare]. eexists _, env'. split; [done|].
  split; [done|]. cbn [fl_tables]. apply app_nil_r.
Qed.
End Flush.

(** * Properties *)

(** C21: a flushed memtable can be read back.  Write a memtable of updates with
    [WriteLevel0Table], for recovery or, with the current version, in the
    background: it succeeds and adds exactly one table to the edit, with the
    smallest and the largest key of the memtable, at a level down to which nothing
    overlaps it; opening the file gives a table of exactly the updates of the
    memtable, sorted by internal key. *)
Theorem flush_memtable_correct {E F G : Type} `{!FileSystem E} `{HF : WritableFileOk F} `{HG : RandomAccessFileOk G}
    `{!Checksum} `{HSn : SnappyOk} (user : Comparator) (Huser : @ComparatorOk user)
    (options : TableOptions) (max_file_size : Z) (dbname_ : bytes)
    (NewWritableFile : E -> bytes -> Status * F * E) (Close : F -> Status * F) (table_status : Z -> Z -> Status)
    (fuel : nat) (m : MemTable) (ups : list Update) (base : option Version) (st : FlushState F) (env : E)
    (Henv : files_ok NewWritableFile Close table_status)
    (Hmem : mem_is user (Some m) ups) (Hsmall : Forall up_small ups) (Hdistinct : distinct_updates user ups)
    (Hne : ups <> []) (Hfit : updates_fit (F := F) user options ups)
    (Hbase : forall v, base = Some v -> version_wf user v) (Hfuel : (length ups <= fuel)%nat) :
  exists st' env' xs,
    WriteLevel0Table user options max_file_size dbname_ NewWritableFile Close table_status fuel m base st env =
      Some (OK, st', env') /\ xs ≡ₚ ups /\ flushed user options base st st' xs /\
    exists f size, last (fl_tables st') = Some (vs_next_file_number (fl_versions st), f) /\
      forall (g : G) mapped id, rcontents g = wcontents f ->
        exists t done, Open mapped options g size id = Some (OK, Some t) /\
          opened options t done /\ entries done = map up_kv xs.
Proof.
  destruct (WriteLevel0Table_spec user options max_file_size dbname_ NewWritableFile Close table_status Henv fuel m ups base st env)
    as (st' & env' & xs & E1 & Hp & Hfl); [done..|].
  exists st', env', xs. split; [done|]. split; [done|]. split; [done|].
  destruct (fd_table _ _ _ _ _ _ Hfl) as (f & size & level & x & y & _ & _ & Et & (f0 & r & Hb & Er & -> & Hc) & _).
  exists f, (FileSize r). rewrite Et, last_snoc. split; [done|]. intros g mapped id Hg.
  destruct (build_opens mapped options _ f0 g id Hb) as (r' & Er' & Hopen). rewrite Er in Er'. injection Er' as <-.
  apply Hopen. by rewrite Hg.
Qed.

(** Two updates, written to files that are their bytes. *)
Definition flush_options : TableOptions := mkTableOptions 4096 2 kNoCompression None true.
Definition flush_updates : list Update :=
  [mkUpdate 7 kTypeValue (str "k") (str "v"); mkUpdate 8 kTypeDeletion (str "d") []].
#[export] Instance no_fs : FileSystem unit := {|
  fs_create e _ := (OK, e); fs_append e _ _ := (OK, e); fs_sync e _ := (OK, e); fs_close e _ := (OK, e);
  fs_rename e _ _ := (OK, e); fs_delete e _ := (OK, e) |}.
Definition flush_new (env : unit) (name : bytes) : Status * flat_file * unit := (OK, [], env).
Definition flush_close (f : flat_file) : Status * flat_file := (OK, f).
Definition flush_table (n size : Z) : Status := OK.

Lemma flush_env : files_ok flush_new flush_close flush_table.
Proof. split; [intros env name; by exists [], env|intros f; by exists f|done]. Qed.

#[local] Existing Instance no_snappy.
#[local] Instance flush_checksum : Checksum := crc32c_checksum 0.

Lemma flush_fits : updates_fit (F := flat_file) BytewiseComparator flush_options flush_updates.
Proof.
  assert (Hb : forall xs, xs = flush_updates \/ xs = rev flush_updates ->
    table_fits (map up_kv xs) /\ filter_small (TableProofs.add_all (map up_kv xs) (newTableBuilder flush_options ([] : flat_file)))).
  { intros xs [-> | ->]; (split; [|exact I]); vm_compute; reflexivity. }
  intros xs Hp Hs f Hf. change (wcontents f) with f in Hf. subst f.
  destruct (Hb xs) as [Hb1 Hb2].
  { symmetry in Hp. apply Permutation_length_2_inv in Hp. exact Hp. }
  split; [simpl; lia|]. split; [reflexivity|]. split; [exact Hs|]. split; [exact Hb1|]. split; [exact I|exact Hb2].
Qed.

Lemma flush_distinct : distinct_updates BytewiseComparator flush_updates.
Proof. apply seq_sorted_distinct. repeat constructor. Qed.

Lemma flush_small : Forall up_small flush_updates.
Proof. repeat constructor; by vm_compute. Qed.

Lemma flush_memtable_correct_witness : exists m st' env' xs,
  MemTable.add_all BytewiseComparator flush_updates = Some m /\
  WriteLevel0Table BytewiseComparator flush_options 2000000 (str "db") flush_new flush_close flush_table 2 m None
    (mkFlush newVersionSet newVersionEdit ∅ []) tt = Some (OK, st', env') /\
  xs ≡ₚ flush_updates /\ flushed BytewiseComparator flush_options None (mkFlush newVersionSet newVersionEdit ∅ []) st' xs.
Proof.
  destruct (add_all_some BytewiseComparator flush_updates flush_small flush_distinct) as [m Em].
  destruct (flush_memtable_correct (G := flat_file) (HSn := no_snappy_ok) BytewiseComparator BytewiseComparator_ok flush_options 2000000 (str "db")
    flush_new flush_close flush_table 2 m flush_updates None (mkFlush newVersionSet newVersionEdit ∅ []) tt)
    as (st' & env' & xs & E1 & Hp & Hfl & _).
  - exact flush_env.
  - exists m, m. split; [reflexivity|]. split; [exact Em|reflexivity].
  - exact flush_small.
  - exact flush_distinct.
  - discriminate.
  - exact flush_fits.
  - intros v Hv. discriminate.
  - vm_compute. lia.
  - exists m, st', env', xs. split; [exact Em|]. split; [exact E1|]. split; [exact Hp|exact Hfl].
Defined.
