(* ===== verification/DbOpen.v ===== *)
(** db/db_impl.cc, from opening to flushing: replaying a log ([RecoverLogFile]),
    [NewDB], [Recover], [DB::Open], writing the immutable memtable
    ([CompactMemTable]), removing a database
    ([DestroyDB]) and the limits of options ([SanitizeOptions]).

    The services of the environment are parameters; the tables that are written
    are kept in the state with their numbers.  [wfuel] bounds the entries of a
    memtable that is written, [fuel] the records of a log. *)

From stdpp Require Import base list gmap sorting strings.
From S2P Require Import Prelude Status Coding Crc32c Env Logging Log Comparator DbFormat WriteBatch SkipList MemTable VersionEdit Version VersionBuilder Filename FilterBlock Iterator Format Block MemIter TableBuilder VersionSet DbWrite Builder.

#[local] Open Scope Z_scope.

(** * Replaying a log *)

(** The variables of [RecoverLogFile] and what it changes through pointers.
    [ls_mem] is [None] for a null pointer. *)
Record LogState (F : Type) := mkLogState {
  ls_flush : FlushState F;
  ls_mem : option (option MemTable);
  ls_compactions : Z;
  ls_save_manifest : bool;
  ls_max_sequence : Z;
}.
Arguments mkLogState {F} _ _ _ _ _.
Arguments ls_flush {F} _.
Arguments ls_mem {F} _.
Arguments ls_compactions {F} _.
Arguments ls_save_manifest {F} _.
Arguments ls_max_sequence {F} _.

(** [mem_], [log_] and [logfile_number_] when the last log is used again. *)
Record ReusedLog (F : Type) := mkReused {
  reused_mem : option MemTable; reused_log : Writer F; reused_number : Z }.
Arguments mkReused {F} _ _ _.
Arguments reused_mem {F} _.
Arguments reused_log {F} _.
Arguments reused_number {F} _.

Section DbOpen.
Context {E F R : Type} `{!FileSystem E} `{!WritableFile F} `{!SequentialFile R} `{!Checksum} `{!Snappy}.
Context (user : Comparator) (comparator_name dbname_ : bytes).
(** The options. *)
Context (options : TableOptions) (max_file_size write_buffer_size : Z).
Context (paranoid_checks reuse_logs create_if_missing error_if_exists : bool).
(** The environment. *)
Context (NewWritableFile : E -> bytes -> Status * F * E) (NewSequentialFile : E -> bytes -> Status * R).
Context (NewAppendableFile : E -> bytes -> Status * F * E) (GetFileSize : E -> bytes -> Status * Z).
Context (Close : F -> Status * F) (table_status : Z -> Z -> Status).
Context (ApproximateMemoryUsage : option MemTable -> Z).

Definition MaybeIgnoreError (s : Status) : Status :=
  if ok s || paranoid_checks then s else OK.

#[local] Abbreviation flush := (WriteLevel0Table user options max_file_size dbname_ NewWritableFile Close table_status).

(** A record of the log.  The boolean is [true] when the loop breaks. *)
Definition replay_record (wfuel : nat) (record : bytes) (st : LogState F) (env : E)
    : option (Status * bool * LogState F * E) :=
  if blen record <? 12 then
    Some (if paranoid_checks then Corruption (str "log record too small") [] else OK, false, st, env)
  else
    let batch := SetContents record in
    let mem := match ls_mem st with Some mem => mem | None => Some (MemTable.Ref newMemTable) end in
    let '(s, mem) := InsertInto (H := memtable_add user) batch mem in
    let s := MaybeIgnoreError s in
    if negb (ok s) then
      Some (s, true, mkLogState (ls_flush st) (Some mem) (ls_compactions st) (ls_save_manifest st)
                       (ls_max_sequence st), env)
    else
      let last_seq := u64 (Sequence batch + Count batch - 1) in
      let max_sequence := if ls_max_sequence st <? last_seq then last_seq else ls_max_sequence st in
      if write_buffer_size <? ApproximateMemoryUsage mem then
        m ← mem;
        '(s, fl, env) ← flush wfuel m None (ls_flush st) env;
        Some (s, negb (ok s), mkLogState fl None (ls_compactions st + 1) true max_sequence, env)
      else
        Some (OK, false, mkLogState (ls_flush st) (Some mem) (ls_compactions st) (ls_save_manifest st)
                           max_sequence, env).

(** [while (reader.ReadRecord(&record, &scratch) && status.ok())] *)
Fixpoint replay_loop (fuel wfuel : nat) (r : Reader R) (st : LogState F) (env : E)
    : option (Status * LogState F * E) :=
  match fuel with
  | O => None
  | S fuel' =>
      '(res, r) ← ReadRecord fuel r;
      let s := if paranoid_checks then reported r else OK in
      match res with
      | None => Some (s, st, env)
      | Some record =>
          if negb (ok s) then Some (s, st, env)
          else
            '(s, break, st, env) ← replay_record wfuel record st env;
            if (break : bool) then Some (s, st, env)
            else if ok s then replay_loop fuel' wfuel r st env
            else
              (* one more record is read before the test of [status] *)
              '(_, r) ← ReadRecord fuel' r; Some (s, st, env)
      end
  end.

(** The last log is used again when nothing was written from it. *)
Definition reuse_log (last_log : bool) (log_number : Z) (s : Status) (st : LogState F) (env : E)
    : option (ReusedLog F) * LogState F * E :=
  let fname := LogFileName dbname_ log_number in
  if ok s && reuse_logs && last_log && (ls_compactions st =? 0) then
    let '(s1, lfile_size) := GetFileSize env fname in
    if negb (ok s1) then (None, st, env)
    else
      let '(s2, lfile, env) := NewAppendableFile env fname in
      if negb (ok s2) then (None, st, env)
      else
        let mem := match ls_mem st with Some mem => mem | None => Some (MemTable.Ref newMemTable) end in
        (Some (mkReused mem (newWriterAt lfile lfile_size) log_number),
         mkLogState (ls_flush st) None (ls_compactions st) (ls_save_manifest st) (ls_max_sequence st), env)
  else (None, st, env).

(** [None]: the fuel, a failed assertion, or a broken skip list. *)
Definition RecoverLogFile (fuel wfuel : nat) (log_number : Z) (last_log : bool)
    (st : LogState F) (env : E) : option (Status * LogState F * option (ReusedLog F) * E) :=
  let '(s, file) := NewSequentialFile env (LogFileName dbname_ log_number) in
  if negb (ok s) then Some (MaybeIgnoreError s, st, None, env)
  else
    let st := mkLogState (ls_flush st) None 0 (ls_save_manifest st) (ls_max_sequence st) in
    '(s, st, env) ← replay_loop fuel wfuel (newReader file true true 0) st env;
    let '(reused, st, env) := reuse_log last_log log_number s st env in
    match ls_mem st with
    | Some mem =>
        if ok s then
          m ← mem;
          '(s, fl, env) ← flush wfuel m None (ls_flush st) env;
          Some (s, mkLogState fl None (ls_compactions st) true (ls_max_sequence st), reused, env)
        else Some (s, mkLogState (ls_flush st) None (ls_compactions st) (ls_save_manifest st)
                        (ls_max_sequence st), reused, env)
    | None => Some (s, st, reused, env)
    end.

(** * [NewDB], [Recover] *)

Definition new_db_edit : VersionEdit :=
  SetLastSequence (SetNextFile (SetLogNumber (SetComparatorName newVersionEdit comparator_name) 0) 2) 0.

Definition NewDB (env : E) : Status * E :=
  let manifest := DescriptorFileName dbname_ 1 in
  let '(s, f, env) := NewWritableFile env manifest in
  if negb (ok s) then (s, env)
  else
    let '(s, log) := AddRecord (newWriter f) (EncodeTo new_db_edit []) in
    let s := if ok s then (Close (dest_ log)).1 else s in
    if ok s then SetCurrentFile env dbname_ 1 else (s, (fs_delete env manifest).2).

Context (LockFile : E -> bytes -> Status * E) (FileExists : E -> bytes -> bool).
Context (GetChildren : E -> bytes -> Status * list bytes) (CreateDir : E -> bytes -> E).

(** The files of the directory: [expected] without their numbers, and the logs
    to replay. *)
Fixpoint scan_children (filenames : list bytes) (min_log prev_log : Z) (expected : gset Z) (logs : list Z)
    : gset Z * list Z :=
  match filenames with
  | [] => (expected, logs)
  | name :: filenames =>
      match ParseFileName name with
      | Some (number, type) =>
          scan_children filenames min_log prev_log (expected ∖ {[ number ]})
            (if bool_decide (type = kLogFile) && ((min_log <=? number) || (number =? prev_log))
             then logs ++ [number] else logs)
      | None => scan_children filenames min_log prev_log expected logs
      end
  end.

(** [std::sort] of numbers. *)
Fixpoint insert_number (n : Z) (l : list Z) : list Z :=
  match l with
  | [] => [n]
  | m :: l' => if n <=? m then n :: l else m :: insert_number n l'
  end.
Definition sort_numbers (l : list Z) : list Z := fold_right insert_number [] l.

(** The logs in order; the last one may be used again. *)
Fixpoint recover_logs (fuel wfuel : nat) (logs : list Z) (st : LogState F) (reused : option (ReusedLog F))
    (env : E) : option (Status * LogState F * option (ReusedLog F) * E) :=
  match logs with
  | [] => Some (OK, st, reused, env)
  | log :: logs' =>
      '(s, st, r, env) ← RecoverLogFile fuel wfuel log (bool_decide (logs' = [])) st env;
      let reused := match r with Some _ => r | None => reused end in
      if negb (ok s) then Some (s, st, reused, env)
      else
        let fl := ls_flush st in
        let fl := mkFlush (MarkFileNumberUsed (fl_versions fl) log) (fl_edit fl) (fl_pending fl) (fl_tables fl) in
        recover_logs fuel wfuel logs'
          (mkLogState fl (ls_mem st) (ls_compactions st) (ls_save_manifest st) (ls_max_sequence st)) reused env
  end.

(** After [versions_->Recover]: the missing files, the logs, the sequence number. *)
Definition recover_from_logs (fuel wfuel : nat) (fl : FlushState F) (save_manifest : bool) (env : E)
    : option (Status * FlushState F * bool * option (ReusedLog F) * E) :=
  let vs := fl_versions fl in
  let '(s, filenames) := GetChildren env dbname_ in
  if negb (ok s) then Some (s, fl, save_manifest, None, env)
  else
    let '(expected, logs) := scan_children filenames (vs_log_number vs) (vs_prev_log_number vs)
                               (AddLiveFiles vs ∅) [] in
    match sort_numbers (elements expected) with
    | first :: _ =>
        Some (Corruption (NumberToString (Z.of_nat (size expected)) ++ str " missing files; e.g.")
                (TableFileName dbname_ first), fl, save_manifest, None, env)
    | [] =>
        '(s, st, reused, env) ← recover_logs fuel wfuel (sort_numbers logs)
                                  (mkLogState fl None 0 save_manifest 0) None env;
        if negb (ok s) then Some (s, ls_flush st, ls_save_manifest st, reused, env)
        else
          let fl := ls_flush st in
          vs ← (if vs_last_sequence (fl_versions fl) <? ls_max_sequence st
                then vs_SetLastSequence (fl_versions fl) (ls_max_sequence st) else Some (fl_versions fl));
          Some (OK, mkFlush vs (fl_edit fl) (fl_pending fl) (fl_tables fl), ls_save_manifest st, reused, env)
    end.

(** [DBImpl::Recover], with the versions, the edit and the pending outputs. *)
Definition DB_Recover (fuel wfuel : nat) (fl : FlushState F) (env : E)
    : option (Status * FlushState F * bool * option (ReusedLog F) * E) :=
  let env := CreateDir env dbname_ in
  let '(s, env) := LockFile env (LockFileName dbname_) in
  if negb (ok s) then Some (s, fl, false, None, env)
  else
    let '(s, env) :=
      if negb (FileExists env (CurrentFileName dbname_)) then
        if create_if_missing then NewDB env
        else (InvalidArgument dbname_ (str "does not exist (create_if_missing is false)"), env)
      else if error_if_exists then (InvalidArgument dbname_ (str "exists (error_if_exists is true)"), env)
      else (OK, env) in
    if negb (ok s) then Some (s, fl, false, None, env)
    else
      '(s, vs, env, save_manifest) ← VersionSet.Recover user comparator_name dbname_ NewSequentialFile
        reuse_logs max_file_size GetFileSize NewAppendableFile fuel (fl_versions fl) env;
      let fl := mkFlush vs (fl_edit fl) (fl_pending fl) (fl_tables fl) in
      if negb (ok s) then Some (s, fl, save_manifest, None, env)
      else recover_from_logs fuel wfuel fl save_manifest env.

(** * [DB::Open] *)

(** The new log and memtable when no log is used again. *)
Definition open_log (fl : FlushState F) (reused : option (ReusedLog F)) (env : E)
    : Status * FlushState F * option (ReusedLog F) * E :=
  match reused with
  | Some r => (OK, fl, Some r, env)
  | None =>
      let '(new_log_number, vs) := NewFileNumber (fl_versions fl) in
      let '(s, lfile, env) := NewWritableFile env (LogFileName dbname_ new_log_number) in
      if ok s then
        (s, mkFlush vs (SetLogNumber (fl_edit fl) new_log_number) (fl_pending fl) (fl_tables fl),
         Some (mkReused (Some (MemTable.Ref newMemTable)) (newWriter lfile) new_log_number), env)
      else (s, mkFlush vs (fl_edit fl) (fl_pending fl) (fl_tables fl), None, env)
  end.

(** The deletions of [DeleteObsoleteFiles]. *)
Definition delete_files (vs : VersionSet F) (bg_error : Status) (pending : gset Z) (env : E) : E :=
  fold_left (fun env name => (fs_delete env (dbname_ ++ str "/" ++ name)).2)
    (DeleteObsoleteFiles vs bg_error pending (GetChildren env dbname_).2) env.

(** The status and the database, with the tables that were written.  Reading the
    models of the version is [ReadLevelModel] of ModelFile; the file statistics are
    not modelled. *)
Definition DB_Open (fuel wfuel : nat) (env : E) : option (Status * option (DB F * FlushState F) * E) :=
  '(s, fl, save_manifest, reused, env) ← DB_Recover fuel wfuel (mkFlush newVersionSet newVersionEdit ∅ []) env;
  let '(s, fl, reused, env) := if ok s then open_log fl reused env else (s, fl, reused, env) in
  match reused with
  | Some r =>
      if ok s then
        '(s, vs, env) ←
          (if (save_manifest : bool) then
             LogAndApply user comparator_name dbname_ NewWritableFile (fl_versions fl) env
               (SetLogNumber (SetPrevLogNumber (fl_edit fl) 0) (reused_number r))
           else Some (OK, fl_versions fl, env));
        if ok s then
          let env := delete_files vs OK (fl_pending fl) env in
          Some (s, Some (mkDB (reused_mem r) None (reused_log r) (reused_number r) vs [] WriteBatch.Clear OK [],
                         mkFlush vs (fl_edit fl) (fl_pending fl) (fl_tables fl)), env)
        else Some (s, None, env)
      else Some (s, None, env)
  | None => Some (s, None, env)
  end.

(** * [CompactMemTable] *)

Definition RecordBackgroundError (db : DB F) (s : Status) : DB F :=
  if ok (db_bg_error db)
  then mkDB (db_mem db) (db_imm db) (db_log db) (db_logfile_number db) (db_versions db) (db_writers db)
         (db_tmp_batch db) s (db_results db)
  else db.

(** The database, the level of the new table, the pending outputs and the tables.
    [None] also when [edit.new_files_[0]] does not exist. *)
Definition CompactMemTable (wfuel : nat) (shutting_down : bool) (db : DB F) (pending : gset Z)
    (tables : list (Z * F)) (env : E) : option (DB F * Z * gset Z * list (Z * F) * E) :=
  imm ← db_imm db; m ← imm;
  let base := current (db_versions db) in
  '(s, fl, env) ← flush wfuel m (Some base) (mkFlush (db_versions db) newVersionEdit pending tables) env;
  let s := if ok s && shutting_down then IOError (str "Deleting DB during memtable compaction") [] else s in
  let edit := if ok s then SetLogNumber (SetPrevLogNumber (fl_edit fl) 0) (db_logfile_number db)
              else fl_edit fl in
  '(s, vs, env) ←
    (if ok s then LogAndApply user comparator_name dbname_ NewWritableFile (fl_versions fl) env edit
     else Some (s, fl_versions fl, env));
  let db := with_db_versions vs db in
  let '(db, env) :=
    if ok s then
      (mkDB (db_mem db) None (db_log db) (db_logfile_number db) (db_versions db) (db_writers db)
         (db_tmp_batch db) (db_bg_error db) (db_results db),
       delete_files vs (db_bg_error db) (fl_pending fl) env)
    else (RecordBackgroundError db s, env) in
  '(level, _) ← head (new_files_ edit);
  Some (db, level, fl_pending fl, fl_tables fl, env).
End DbOpen.

(** * [DestroyDB] *)

Section Destroy.
Context {E : Type} `{!FileSystem E} (dbname : bytes).
Context (GetChildren : E -> bytes -> Status * list bytes) (LockFile : E -> bytes -> Status * E).
Context (UnlockFile DeleteDir : E -> bytes -> E).

Fixpoint is_prefix (p s : bytes) : bool :=
  match p, s with
  | [], _ => true
  | c :: p', d :: s' => Byte.eqb c d && is_prefix p' s'
  | _, [] => false
  end.

(** [s.find(p) != npos] *)
Fixpoint has_substring (p s : bytes) : bool :=
  is_prefix p s || match s with [] => false | _ :: s' => has_substring p s' end.

(** The files that go: those of the database but its lock, and the value log. *)
Definition destroyed (name : bytes) : bool :=
  match ParseFileName name with Some (_, kDBLockFile) | None => false | Some _ => true end || has_substring (str "vlog") name.

Definition destroy_file (st : Status * E) (name : bytes) : Status * E :=
  if destroyed name then
    let '(del, env) := fs_delete st.2 (dbname ++ str "/" ++ name) in
    (if ok st.1 && negb (ok del) then del else st.1, env)
  else st.

Definition DestroyDB (env : E) : Status * E :=
  let '(result, filenames) := GetChildren env dbname in
  if negb (ok result) then (OK, env)
  else
    let lockname := LockFileName dbname in
    let '(result, env) := LockFile env lockname in
    if ok result then
      let '(result, env) := fold_left destroy_file filenames (result, env) in
      let env := UnlockFile env lockname in
      (result, DeleteDir (fs_delete env lockname).2 dbname)
    else (result, env).
End Destroy.

(** * [SanitizeOptions] *)

(** The bounds are of type [int]: a value of a wider type is compared by its low 32
    bits. *)
Definition ClipToRange (v minvalue maxvalue : Z) : Z :=
  let v := if maxvalue <? i32 v then maxvalue else v in
  if i32 v <? minvalue then minvalue else v.

Definition kNumNonTableCacheFiles : Z := 10.

(** The sizes among the options; the logger, the cache and the wrapped comparator and
    filter policy are not kept here. *)
Record SizeOptions := mkSizes { opt_max_open_files : Z; opt_write_buffer_size : Z; opt_max_file_size : Z; opt_block_size : Z }.

Definition SanitizeOptions (src : SizeOptions) : SizeOptions :=
  mkSizes (ClipToRange (opt_max_open_files src) (64 + kNumNonTableCacheFiles) 50000)
    (ClipToRange (opt_write_buffer_size src) (Z.shiftl 64 10) (Z.shiftl 1 30))
    (ClipToRange (opt_max_file_size src) (Z.shiftl 1 20) (Z.shiftl 1 30))
    (ClipToRange (opt_block_size src) (Z.shiftl 1 10) (Z.shiftl 4 20)).
