(* ===== verification/DbOpenProofs.v ===== *)
(** Opening a database (DbOpen): replaying a log that a crash has cut gives back
    every synced batch, whole, and some of those after it; flushing the immutable
    memtable; and what an empty memtable does. *)

From stdpp Require Import base list gmap sorting strings.
From S2P Require Import Prelude Status Coding Crc32c Env Logging Log LogProofs Comparator DbFormat WriteBatch SkipList MemTable VersionEdit Version VersionBuilder Filename FilterBlock Iterator Format Block BlockProofs MemIter TableBuilder TableProofs TableGet VersionSet DbWrite DbWriteProofs Builder DbOpen.

#[local] Open Scope Z_scope.

(** The highest sequence number of the batches, from [m] on. *)
Definition max_sequence (m : Z) (bs : list (Z * list BatchOp)) : Z :=
  fold_left (fun m b => Z.max m (b.1 + blen b.2 - 1)) bs m.

Lemma seq_sorted_segment a b c : seq_sorted (a ++ b ++ c) -> seq_sorted b.
Proof.
  unfold seq_sorted. rewrite !map_app. intros H. apply StronglySorted_app in H as (_ & _ & H).
  by apply StronglySorted_app in H as (_ & H & _).
Qed.

Section Replay.
Context {E F R : Type} `{!FileSystem E} `{HF : WritableFileOk F} `{HR : SequentialFileOk R} `{!Checksum} `{!Snappy}.
Context (user : Comparator) `{Huser : !@ComparatorOk user} (dbname_ : bytes).
Context (options : TableOptions) (max_file_size write_buffer_size : Z) (paranoid_checks reuse_logs : bool).
Context (NewWritableFile : E -> bytes -> Status * F * E) (NewSequentialFile : E -> bytes -> Status * R).
Context (NewAppendableFile : E -> bytes -> Status * F * E) (GetFileSize : E -> bytes -> Status * Z).
Context (Close : F -> Status * F) (table_status : Z -> Z -> Status) (ApproximateMemoryUsage : option MemTable -> Z).
Context (Henv : files_ok NewWritableFile Close table_status).

(** The tables written one after the other from runs of updates. *)
Inductive flushes : FlushState F -> FlushState F -> list (list Update) -> Prop :=
  | flushes_nil st : flushes st st []
  | flushes_snoc st st1 st2 runs ups xs : flushes st st1 runs -> xs ≡ₚ ups -> ups <> [] ->
      flushed user options None st1 st2 xs -> flushes st st2 (runs ++ [ups]).

(** The batches [bs] have been replayed from the state [st0]: the full memtables
    went to tables, in order, and the rest is in the memtable. *)
Record replayed (st0 st : LogState F) (bs : list (Z * list BatchOp)) (runs : list (list Update))
    (cur : list Update) : Prop := {
  rp_flushes : flushes (ls_flush st0) (ls_flush st) runs;
  rp_updates : concat runs ++ cur = logged_updates bs;
  rp_mem : match ls_mem st with None => cur = [] | Some om => mem_is user om cur /\ cur <> [] end;
  rp_compactions : ls_compactions st = blen runs;
  rp_save : ls_save_manifest st = ls_save_manifest st0 || negb (bool_decide (runs = []));
  rp_max : ls_max_sequence st = max_sequence (ls_max_sequence st0) bs;
}.

(** The log as a whole. *)
Context (all : list (Z * list BatchOp)) (wfuel : nat).
Record log_ok : Prop := {
  lo_logged : Forall logged_ok all;
  lo_ops : Forall (fun b => b.2 <> []) all;
  lo_sorted : seq_sorted (logged_updates all);
  lo_fit a ups c : logged_updates all = a ++ ups ++ c -> updates_fit (F := F) user options ups;
  lo_fuel : (length (logged_updates all) <= wfuel)%nat;
}.
Context (Hall : log_ok).

Lemma logged_small : Forall up_small (logged_updates all).
Proof.
  unfold logged_updates. apply Forall_concat, Forall_map. eapply Forall_impl; [exact (lo_logged Hall)|].
  intros b (Hf & Hl & Hs & Hm). by apply batch_updates_small.
Qed.

#[local] Abbreviation flush := (WriteLevel0Table user options max_file_size dbname_ NewWritableFile Close table_status).

(** Writing a part of the updates of the log. *)
Lemma flush_segment a ups c om st env : logged_updates all = a ++ ups ++ c -> mem_is user om ups -> ups <> [] ->
  exists m st' env', om = Some m /\ flush wfuel m None st env = Some (OK, st', env') /\
    exists xs, xs ≡ₚ ups /\ flushed user options None st st' xs.
Proof.
  intros Ha Hm Hne. pose proof logged_small as Hs. rewrite Ha in Hs. apply Forall_app in Hs as [_ Hs].
  apply Forall_app in Hs as [Hs _]. pose proof (lo_sorted Hall) as Hso. rewrite Ha in Hso. apply seq_sorted_segment in Hso.
  pose proof (lo_fuel Hall) as Hf. rewrite Ha, !length_app in Hf. pose proof Hm as (m & t & -> & _).
  destruct (WriteLevel0Table_spec user options max_file_size dbname_ NewWritableFile Close table_status Henv wfuel m ups None st env Hm Hs)
    as (st' & env' & xs & E1 & Hp & Hfl); [by apply seq_sorted_distinct|done|by apply (lo_fit Hall a _ c)|done|lia|].
  exists m, st', env'. split; [done|]. split; [done|]. by exists xs.
Qed.

Lemma replay_mem st0 st bs runs cur : replayed st0 st bs runs cur ->
  mem_is user (match ls_mem st with Some mem => mem | None => Some (MemTable.Ref newMemTable) end) cur.
Proof.
  intros Hr. pose proof (rp_mem _ _ _ _ _ Hr) as Hm. destruct (ls_mem st) as [om|]; [by destruct Hm|].
  subst cur. by exists (MemTable.Ref newMemTable), newMemTable.
Qed.

#[local] Abbreviation replay := (replay_record user dbname_ options max_file_size write_buffer_size paranoid_checks
  NewWritableFile Close table_status ApproximateMemoryUsage).

Lemma replay_record_spec st0 st bs b rest runs cur env : all = bs ++ b :: rest -> replayed st0 st bs runs cur ->
  0 <= ls_max_sequence st ->
  exists st' env' runs' cur', replay wfuel (logged_record b) st env = Some (OK, false, st', env') /\
    replayed st0 st' (bs ++ [b]) runs' cur' /\ 0 <= ls_max_sequence st'.
Proof.
  intros Eall Hr Hmax0. pose proof (lo_logged Hall) as Hlog. pose proof (lo_ops Hall) as Hops. rewrite Eall in Hlog, Hops.
  apply Forall_app in Hlog as [_ Hlog]. apply Forall_cons in Hlog as [(Hf & Hl & Hs & Hm) _].
  apply Forall_app in Hops as [_ Hops]. apply Forall_cons in Hops as [Hne _].
  pose proof (blen_nonneg b.2) as Hp. assert (Hk : kMaxSequenceNumber = 2 ^ 56 - 1) by by vm_compute.
  unfold replay_record, logged_record. rewrite layout_length. pose proof (blen_nonneg (concat (map op_bytes b.2))).
  unfold kHeader at 1. replace (_ <? 12) with false by lia. unfold SetContents.
  rewrite InsertInto_batch, Sequence_layout, Count_layout by (done || lia).
  change (MaybeIgnoreError paranoid_checks OK) with OK. cbn [ok negb].
  set (cur' := cur ++ batch_updates b.1 b.2). set (mem' := insert_ops _ _ _).
  pose proof (rp_updates _ _ _ _ _ Hr) as Hups.
  assert (Hseg : logged_updates all = concat runs ++ cur' ++ logged_updates rest).
  { rewrite Eall, logged_updates_app. unfold cur'. rewrite <- Hups, <- !app_assoc. do 2 f_equal. }
  assert (Hcur : mem_is user mem' cur').
  { apply mem_is_insert; [done|by eapply replay_mem|..].
    - pose proof logged_small as Hsm. rewrite Hseg in Hsm. apply Forall_app in Hsm as [_ Hsm]. by apply Forall_app in Hsm as [Hsm _].
    - apply seq_sorted_distinct. pose proof (lo_sorted Hall) as Hso. rewrite Hseg in Hso. by apply seq_sorted_segment in Hso. }
  assert (Hcne : cur' <> []).
  { unfold cur'. destruct b.2 as [|op ops]; [done|]. simpl. by destruct cur. }
  assert (Hlast : 1 <= blen b.2) by (destruct b.2 as [|op ops]; [done|]; rewrite blen_cons; pose proof (blen_nonneg ops); lia).
  rewrite u64_small by lia.
  assert (Emax : (if ls_max_sequence st <? b.1 + blen b.2 - 1 then b.1 + blen b.2 - 1 else ls_max_sequence st) =
    max_sequence (ls_max_sequence st0) (bs ++ [b])).
  { unfold max_sequence. rewrite fold_left_app. simpl. fold (max_sequence (ls_max_sequence st0) bs).
    rewrite <- (rp_max _ _ _ _ _ Hr). bcase; lia. }
  assert (Hmaxpos : 0 <= max_sequence (ls_max_sequence st0) (bs ++ [b])) by (rewrite <- Emax; bcase; lia).
  rewrite Emax. destruct (write_buffer_size <? ApproximateMemoryUsage mem').
  - destruct (flush_segment _ _ _ mem' (ls_flush st) env Hseg Hcur Hcne) as (m & fl' & env' & Em & Efl & xs & Hxs & Hfl).
    rewrite Em. cbn [mbind option_bind]. rewrite Efl. cbn [mbind option_bind ok negb]. eexists _, env', (runs ++ [cur']), []. split; [done|]. split; [|done].
    split; cbn [ls_flush ls_mem ls_compactions ls_save_manifest ls_max_sequence]; try done.
    + eapply flushes_snoc; [exact (rp_flushes _ _ _ _ _ Hr)|exact Hxs|done|exact Hfl].
    + rewrite concat_app, app_nil_r. cbn [concat]. rewrite app_nil_r, logged_updates_app, logged_updates_one, <- Hups.
      unfold cur'. by rewrite app_assoc.
    + rewrite (rp_compactions _ _ _ _ _ Hr), blen_app. done.
    + rewrite bool_decide_false by by destruct runs. by rewrite orb_true_r.
  - eexists _, env, runs, cur'. split; [done|]. split; [|done].
    destruct Hr as [R1 R2 R3 R4 R5 R6].
    split; cbn [ls_flush ls_mem ls_compactions ls_save_manifest ls_max_sequence]; try done.
    rewrite logged_updates_app, logged_updates_one, <- Hups. unfold cur'. by rewrite app_assoc.
Qed.

#[local] Abbreviation loop := (replay_loop user dbname_ options max_file_size write_buffer_size paranoid_checks
  NewWritableFile Close table_status ApproximateMemoryUsage).

Lemma replay_loop_spec st0 recs fuel (r r' : Reader R) : ReadSteps fuel r recs r' ->
  forall bs1 bs2 rest st runs cur env, reports r = [] -> recs = map logged_record bs2 ->
  all = bs1 ++ bs2 ++ rest -> replayed st0 st bs1 runs cur -> 0 <= ls_max_sequence st ->
  exists st' env' runs' cur', loop fuel wfuel r st env = Some (OK, st', env') /\
    replayed st0 st' (bs1 ++ bs2) runs' cur'.
Proof.
  induction 1 as [fuel r r' Er Hrep|fuel r rec r1 recs r' Er Hrep _ IH]; intros bs1 bs2 rest st runs cur env Hrep0 Hrecs Ea Hr Hm;
    cbn [replay_loop]; rewrite Er; cbn [mbind option_bind]; unfold reported; rewrite Hrep, Hrep0; cbn [head].
  - symmetry in Hrecs. apply map_eq_nil in Hrecs as ->. exists st, env, runs, cur. rewrite app_nil_r.
    by destruct paranoid_checks.
  - destruct bs2 as [|b bs2]; [done|]. injection Hrecs as -> Hrecs. replace (ok (if paranoid_checks then OK else OK)) with true by by destruct paranoid_checks.
    cbn [negb]. simpl in Ea.
    destruct (replay_record_spec st0 st bs1 b (bs2 ++ rest) runs cur env Ea Hr Hm) as (st1 & env1 & runs1 & cur1 & -> & Hr1 & Hm1).
    cbn [mbind option_bind ok]. rewrite cons_middle, app_assoc.
    apply (IH (bs1 ++ [b]) bs2 rest st1 runs1 cur1 env1); [congruence|done|by rewrite <- app_assoc|done|done].
Qed.

(** What [RecoverLogFile] leaves: the updates of [bs] in tables, in order, and the
    rest in the memtable if the log is used again. *)
Record recovered (st0 st : LogState F) (reused : option (ReusedLog F)) (log_number : Z)
    (bs : list (Z * list BatchOp)) : Prop := {
  rc_updates : exists runs rest, flushes (ls_flush st0) (ls_flush st) runs /\
    concat runs ++ rest = logged_updates bs /\
    match reused with
    | None => rest = []
    | Some r => mem_is user (reused_mem r) rest /\ reused_number r = log_number
    end /\
    (runs <> [] -> ls_save_manifest st = true);
  rc_mem : ls_mem st = None;
  rc_max : ls_max_sequence st = max_sequence (ls_max_sequence st0) bs;
}.

#[local] Abbreviation reuse := (reuse_log (E := E) (F := F) dbname_ reuse_logs NewAppendableFile GetFileSize).

Lemma reuse_log_spec last_log log_number st env :
  exists reused st' env', reuse last_log log_number OK st env = (reused, st', env') /\
    ls_flush st' = ls_flush st /\ ls_save_manifest st' = ls_save_manifest st /\
    ls_max_sequence st' = ls_max_sequence st /\
    match reused with
    | None => ls_mem st' = ls_mem st
    | Some r => ls_mem st' = None /\ reused_number r = log_number /\
        reused_mem r = match ls_mem st with Some mem => mem | None => Some (MemTable.Ref newMemTable) end
    end.
Proof.
  unfold reuse_log. destruct (_ && _ && _); [|by eexists None, st, env].
  destruct (GetFileSize _ _) as [s1 n]. destruct (ok s1); cbn [negb]; [|by eexists None, st, env].
  destruct (NewAppendableFile _ _) as [ [s2 f] env2]. destruct (ok s2); cbn [negb]; [|by eexists None, st, env2].
  by eexists (Some _), _, env2.
Qed.

#[local] Abbreviation recover_log := (RecoverLogFile user dbname_ options max_file_size write_buffer_size paranoid_checks reuse_logs
  NewWritableFile NewSequentialFile NewAppendableFile GetFileSize Close table_status ApproximateMemoryUsage).

Lemma RecoverLogFile_spec fuel log_number last_log st0 env bs rest (g : R) r' :
  NewSequentialFile env (LogFileName dbname_ log_number) = (OK, g) ->
  ReadSteps fuel (newReader g true true 0) (map logged_record bs) r' -> all = bs ++ rest ->
  0 <= ls_max_sequence st0 ->
  exists st' reused env', recover_log fuel wfuel log_number last_log st0 env = Some (OK, st', reused, env') /\
    recovered st0 st' reused log_number bs.
Proof.
  intros Eg Hsteps Ea Hmax. unfold RecoverLogFile. rewrite Eg. cbn [ok negb].
  set (st1 := mkLogState _ _ _ _ _).
  assert (Hr : replayed st0 st1 [] [] []).
  { split; try done; [constructor|]. simpl. by rewrite orb_false_r. }
  destruct (replay_loop_spec st0 _ _ _ _ Hsteps [] bs rest st1 [] [] env eq_refl eq_refl Ea Hr Hmax)
    as (st2 & env2 & runs & cur & -> & Hr2). cbn [mbind option_bind]. simpl in Hr2.
  pose proof (replay_mem _ _ _ _ _ Hr2) as Hmem. destruct Hr2 as [R1 R2 R3 R4 R5 R6].
  assert (Hsave : runs <> [] -> ls_save_manifest st2 = true).
  { intros Hne. rewrite R5, bool_decide_false by done. by rewrite orb_true_r. }
  destruct (reuse_log_spec last_log log_number st2 env2) as (reused & st3 & env3 & -> & U1 & U2 & U3 & U4).
  assert (Hdone : ls_mem st3 = None -> match reused with None => cur = [] | Some r => mem_is user (reused_mem r) cur /\ reused_number r = log_number end ->
    recovered st0 st3 reused log_number bs).
  { intros Hm3 Hc. split; [|done|by rewrite U3]. exists runs, cur. rewrite U1, U2. done. }
  destruct reused as [ru|].
  - destruct U4 as (U4 & U5 & U6). rewrite U4. eexists st3, _, env3. split; [done|]. apply Hdone; [done|]. by rewrite U6.
  - rewrite U4. destruct (ls_mem st2) as [om|] eqn:Em.
    + destruct R3 as [_ Hne].
      assert (Hseg : logged_updates all = concat runs ++ cur ++ logged_updates rest) by (rewrite Ea, logged_updates_app, <- R2; by rewrite <- app_assoc).
      destruct (flush_segment _ _ _ om (ls_flush st3) env3 Hseg Hmem Hne) as (m & fl' & env' & -> & Efl & xs & Hxs & Hfl).
      cbn [ok mbind option_bind]. rewrite Efl. cbn [mbind option_bind]. eexists _, _, env'. split; [done|].
      split; cbn [ls_flush ls_mem ls_save_manifest ls_max_sequence]; [|done|by rewrite U3].
      exists (runs ++ [cur]), []. rewrite app_nil_r, concat_app. cbn [concat]. rewrite app_nil_r. split; [|done].
      eapply flushes_snoc; [exact R1|exact Hxs|done|]. by rewrite <- U1.
    + eexists st3, _, env3. split; [done|]. apply Hdone; [congruence|done].
Qed.
End Replay.

(** * Properties *)

Section Properties.
Context {E F R : Type} `{!FileSystem E} `{HF : WritableFileOk F} `{HR : SequentialFileOk R} `{!Checksum} `{!Snappy}.
Context (user : Comparator) `{Huser : !@ComparatorOk user} (comparator_name dbname_ : bytes).
Context (options : TableOptions) (max_file_size write_buffer_size : Z) (paranoid_checks reuse_logs : bool).
Context (NewWritableFile : E -> bytes -> Status * F * E) (NewSequentialFile : E -> bytes -> Status * R).
Context (NewAppendableFile : E -> bytes -> Status * F * E) (GetFileSize : E -> bytes -> Status * Z).
Context (Close : F -> Status * F) (table_status : Z -> Z -> Status) (ApproximateMemoryUsage : option MemTable -> Z).
Context (GetChildren : E -> bytes -> Status * list bytes).
Context (Henv : files_ok NewWritableFile Close table_status).

#[local] Abbreviation recover_log := (RecoverLogFile user dbname_ options max_file_size write_buffer_size paranoid_checks reuse_logs
  NewWritableFile NewSequentialFile NewAppendableFile GetFileSize Close table_status ApproximateMemoryUsage).

(** C19: acknowledged writes survive a crash.  Take a log to which the write path
    wrote non-empty batches, of which those in [bs1] were complete in the first
    [n] bytes, and let a crash keep just these bytes.  [RecoverLogFile] succeeds,
    in any mode and with any size of memtables: it rebuilds exactly the updates of
    [bs1] and of the first [k] batches after them, never a part of a batch, as
    table files written in the order of the log, each the sorted table of its
    updates and added to the edit (with the rest in the memtable when the log is
    used again), and it learns their highest sequence number. *)
Theorem log_recovery_correct (w : Writer F) (frss1 frss2 : list (list (Z * bytes))) (bs1 bs2 : list (Z * list BatchOp))
    (n : Z) (g : R) (fuel wfuel : nat) (log_number : Z) (last_log : bool) (st : LogState F) (env : E)
    (Hlog : log_holds w (frss1 ++ frss2) (map logged_record (bs1 ++ bs2)))
    (Hlen : length bs1 = length frss1) (Hsynced : blen (stream 0 (concat frss1)) <= n)
    (Hcrash : scontents g = btake n (wcontents (dest_ w)))
    (Hopen : NewSequentialFile env (LogFileName dbname_ log_number) = (OK, g))
    (Hok : log_ok (F := F) user options (bs1 ++ bs2) wfuel)
    (Hmax : 0 <= ls_max_sequence st) (Hfuel : blen (scontents g) + 1 < Z.of_nat fuel) :
  exists k st' reused env', (k <= length bs2)%nat /\
    recover_log fuel wfuel log_number last_log st env = Some (OK, st', reused, env') /\
    recovered user options st st' reused log_number (bs1 ++ take k bs2).
Proof.
  rewrite map_app in Hlog.
  destruct (log_holds_read w frss1 frss2 _ _ n g fuel Hlog ltac:(by rewrite length_map) Hsynced Hcrash Hfuel)
    as (k & r & Hk & Hs). rewrite length_map in Hk.
  rewrite firstn_map, <- map_app in Hs.
  destruct (RecoverLogFile_spec user dbname_ options max_file_size write_buffer_size paranoid_checks reuse_logs
    NewWritableFile NewSequentialFile NewAppendableFile GetFileSize Close table_status ApproximateMemoryUsage Henv
    (bs1 ++ bs2) wfuel Hok fuel log_number last_log st env (bs1 ++ take k bs2) (drop k bs2) g r Hopen Hs)
    as (st' & reused & env' & E1 & Hrec); [by rewrite <- app_assoc, take_drop|done|].
  by exists k, st', reused, env'.
Qed.

(** An empty memtable cannot be written.  When the immutable memtable has no
    entries, as after a forced switch with nothing written since the last one,
    [CompactMemTable] asks for the first new file of an edit that has none: its
    behaviour is undefined. *)
Theorem compact_empty_memtable (wfuel : nat) (shutting_down : bool) (db : DB F) (imm : option MemTable)
    (pending : gset Z) (tables : list (Z * F)) (env : E)
    (Himm : db_imm db = Some imm) (Hempty : mem_is user imm []) :
  CompactMemTable user comparator_name dbname_ options max_file_size NewWritableFile Close table_status GetChildren
    wfuel shutting_down db pending tables env = None.
Proof.
  unfold CompactMemTable. rewrite Himm. cbn [mbind option_bind]. pose proof Hempty as (m & t & -> & _). cbn [mbind option_bind].
  destruct (WriteLevel0Table_empty user options max_file_size dbname_ NewWritableFile Close table_status wfuel m
    (Some (current (db_versions db))) (mkFlush (db_versions db) newVersionEdit pending tables) env Hempty)
    as (st' & env' & -> & Hed & _). cbn [mbind option_bind ok andb]. rewrite Hed. done.
Qed.
End Properties.

(** * [DestroyDB] *)

Section Destroy.
Context {E : Type} `{HE : FileSystemOk E} (dbname : bytes).
Context (GetChildren : E -> bytes -> Status * list bytes) (LockFile : E -> bytes -> Status * E).
Context (UnlockFile DeleteDir : E -> bytes -> E).
#[local] Abbreviation path name := (dbname ++ str "/" ++ name).

Lemma destroy_file_spec st name : let st' := destroy_file dbname st name in
  (forall g, g <> path name -> fs_files st'.2 g = fs_files st.2 g) /\
  (destroyed name = false -> st' = st) /\ (ok st'.1 = true -> ok st.1 = true /\ (destroyed name = true -> fs_files st'.2 (path name) = None)).
Proof.
  unfold destroy_file. destruct (destroyed name); [|done]. pose proof (fs_delete_ok st.2 (path name)) as D.
  destruct (fs_delete st.2 (path name)) as [del env']. destruct D as [D1 D2]. cbn [fst snd]. split; [exact D1|]. split; [done|].
  destruct (ok st.1) eqn:Es; cbn [andb]; [|by rewrite Es]. destruct (ok del) eqn:Ed; cbn [negb]; [|by rewrite Ed].
  rewrite Es. split; [done|]. intros _. by apply D2, ok_OK.
Qed.

Lemma destroy_files_spec names : forall st, let st' := fold_left (destroy_file dbname) names st in
  (forall g, (forall name, name ∈ names -> destroyed name = true -> g <> path name) -> fs_files st'.2 g = fs_files st.2 g) /\
  (forall g, fs_files st.2 g = None -> ok st'.1 = true -> fs_files st'.2 g = None) /\
  (ok st'.1 = true -> ok st.1 = true /\ forall name, name ∈ names -> destroyed name = true -> fs_files st'.2 (path name) = None).
Proof.
  induction names as [|name names IH]; intros st; cbn [fold_left].
  { split; [done|]. split; [done|]. intros Hs. split; [done|]. intros name Hin. by apply elem_of_nil in Hin. }
  destruct (destroy_file_spec st name) as (F1 & F2 & F3). destruct (IH (destroy_file dbname st name)) as (I1 & I2 & I3).
  set (st1 := destroy_file dbname st name) in *. split; [|split].
  - intros g Hg. rewrite I1 by (intros name' Hin; apply Hg; by right). destruct (destroyed name) eqn:Ed; [|by rewrite F2].
    apply F1. apply Hg; [by left|done].
  - intros g Hg Hs. apply I2; [|done]. destruct (I3 Hs) as [Hs1 _]. destruct (destroyed name) eqn:Ed; [|by rewrite F2].
    destruct (decide (g = path name)) as [-> |Hne]; [by apply F3|by rewrite F1].
  - intros Hs. destruct (I3 Hs) as [Hs1 Hall]. split; [by apply F3|]. intros name' Hin Hd. apply elem_of_cons in Hin as [-> |Hin]; [|by apply Hall].
    apply I2; [by apply F3|done].
Qed.

(** A database is removed, and nothing else.  When [DestroyDB] reports success, no
    file of the directory that belongs to the database is left, nor any whose name
    contains [vlog]; no other file but the lock is touched, whatever fails.  The
    files of models are among those that stay ([model_file_stays]). *)
Theorem destroy_db_exact (env : E) (names : list bytes) (Hchildren : GetChildren env dbname = (OK, names))
    (Hlock : forall env g, g <> LockFileName dbname -> fs_files (LockFile env (LockFileName dbname)).2 g = fs_files env g)
    (Hunlock : forall env f g, g <> LockFileName dbname -> fs_files (UnlockFile env f) g = fs_files env g)
    (Hdir : forall env d g, fs_files (DeleteDir env d) g = fs_files env g) :
  let '(s, env') := DestroyDB dbname GetChildren LockFile UnlockFile DeleteDir env in
  (s = OK -> forall name, name ∈ names -> destroyed name = true -> path name <> LockFileName dbname -> fs_files env' (path name) = None) /\
  (forall g, g <> LockFileName dbname -> (forall name, name ∈ names -> destroyed name = true -> g <> path name) -> fs_files env' g = fs_files env g).
Proof.
  unfold DestroyDB. rewrite Hchildren. cbn [ok negb]. specialize (Hlock env). destruct (LockFile env (LockFileName dbname)) as [s1 env1]. cbn [snd] in Hlock.
  destruct (ok s1) eqn:E1; [|split; [intros ->; done|intros g Hg _; by apply Hlock] ].
  destruct (destroy_files_spec names (s1, env1)) as (D1 & _ & D3). destruct (fold_left (destroy_file dbname) names (s1, env1)) as [s2 env2]. cbn [fst snd] in *.
  assert (Hafter : forall g, g <> LockFileName dbname -> fs_files (DeleteDir (fs_delete (UnlockFile env2 (LockFileName dbname)) (LockFileName dbname)).2 dbname) g = fs_files env2 g).
  { intros g Hg. rewrite Hdir. pose proof (fs_delete_ok (UnlockFile env2 (LockFileName dbname)) (LockFileName dbname)) as D.
    destruct (fs_delete _ _) as [s3 env3]. cbn [snd]. destruct D as [D _]. by rewrite D, Hunlock. }
  split.
  - intros -> name Hin Hd Hne. rewrite Hafter by done. by apply D3.
  - intros g Hg Hnot. by rewrite Hafter, D1, Hlock.
Qed.
End Destroy.

Lemma model_file_stays : destroyed (str "5.fmodel") = false /\ destroyed (str "3.model") = false /\ destroyed (str "000005.ldb") = true /\ destroyed (str "vlog.txt") = true.
Proof. by vm_compute. Qed.

(** * [SanitizeOptions] *)

Lemma ClipToRange_clamps v lo hi : - 2 ^ 31 <= v < 2 ^ 31 -> - 2 ^ 31 <= lo <= hi -> hi < 2 ^ 31 -> ClipToRange v lo hi = Z.max lo (Z.min v hi).
Proof.
  intros Hv Hlo Hhi. unfold ClipToRange. assert (Hi : forall z, - 2 ^ 31 <= z < 2 ^ 31 -> i32 z = z).
  { intros z Hz. unfold i32. rewrite Z.mod_small by lia. lia. }
  rewrite (Hi v Hv). destruct (Z.ltb_spec hi v); rewrite Hi by lia; bcase; lia.
Qed.

(** Sizes below 2 GB are moved to the nearest end of their range.  Larger ones are
    not: 3 GB for the write buffer becomes the minimum of 64 KB, and 8 GB and a
    megabyte stays as it is, above the maximum of 1 GB. *)
Theorem sanitize_options_range (src : SizeOptions)
    (Hsmall : 0 <= opt_max_open_files src < 2 ^ 31 /\ 0 <= opt_write_buffer_size src < 2 ^ 31 /\ 0 <= opt_max_file_size src < 2 ^ 31 /\ 0 <= opt_block_size src < 2 ^ 31) :
  SanitizeOptions src = mkSizes (Z.max 74 (Z.min (opt_max_open_files src) 50000)) (Z.max 65536 (Z.min (opt_write_buffer_size src) (2 ^ 30)))
    (Z.max (2 ^ 20) (Z.min (opt_max_file_size src) (2 ^ 30))) (Z.max 1024 (Z.min (opt_block_size src) (2 ^ 22))).
Proof.
  destruct Hsmall as (H1 & H2 & H3 & H4). unfold SanitizeOptions. change (64 + kNumNonTableCacheFiles) with 74. change (Z.shiftl 64 10) with 65536.
  change (Z.shiftl 1 30) with (2 ^ 30). change (Z.shiftl 1 20) with (2 ^ 20). change (Z.shiftl 1 10) with 1024. change (Z.shiftl 4 20) with (2 ^ 22).
  by rewrite !ClipToRange_clamps by lia.
Qed.

Lemma sanitize_options_wraps : opt_write_buffer_size (SanitizeOptions (mkSizes 1000 (3 * 2 ^ 30) (2 ^ 21) 4096)) = 65536 /\
  opt_write_buffer_size (SanitizeOptions (mkSizes 1000 (2 ^ 33 + 2 ^ 20) (2 ^ 21) 4096)) = 2 ^ 33 + 2 ^ 20.
Proof. by vm_compute. Qed.

(** A log of two batches of which the second is torn by a crash. *)
#[local] Existing Instance no_snappy.
#[local] Instance open_checksum : Checksum := crc32c_checksum 0.

Definition open_batches : list (Z * list BatchOp) :=
  [(7, [OpPut (str "k") (str "v")]); (8, [OpDelete (str "d")])].
Definition open_writer : Writer flat_file :=
  fold_left (fun w b => (AddRecord w (logged_record b)).2) open_batches (newWriter []).
Definition open_cut : Z := blen (dest_ (AddRecord (newWriter ([] : flat_file)) (logged_record (7, [OpPut (str "k") (str "v")]))).2) + 5.
Definition open_file : flat_file := btake open_cut (dest_ open_writer).
Definition open_seq (env : unit) (name : bytes) : Status * flat_file := (OK, open_file).
Definition open_size (env : unit) (name : bytes) : Status * Z := (OK, blen open_file).

Lemma open_log_holds : exists frss1 frss2, length frss1 = 1%nat /\
  log_holds open_writer (frss1 ++ frss2) (map logged_record open_batches) /\
  blen (stream 0 (concat frss1)) <= open_cut.
Proof.
  assert (Hnew : log_holds (newWriter ([] : flat_file)) [] []) by by apply log_holds_new.
  destruct (log_holds_add (newWriter ([] : flat_file)) [] [] (logged_record (7, [OpPut (str "k") (str "v")])) Hnew)
    as (frs1 & w1 & E1 & H1).
  destruct (log_holds_add w1 _ _ (logged_record (8, [OpDelete (str "d")])) H1) as (frs2 & w2 & E2 & H2).
  assert (Ew : open_writer = w2).
  { change open_writer with ((AddRecord ((AddRecord (newWriter ([] : flat_file)) (logged_record (7, [OpPut (str "k") (str "v")]))).2)
      (logged_record (8, [OpDelete (str "d")]))).2).
    rewrite E1. cbn [snd]. by rewrite E2. }
  exists [frs1], [frs2]. split; [done|]. rewrite Ew. split; [exact H2|]. pose proof (lh_contents _ _ _ H1) as Hc.
  change (wcontents (dest_ w1)) with (dest_ w1) in Hc. change ([] ++ [frs1]) with [frs1] in Hc.
  unfold open_cut. rewrite E1. cbn [snd]. rewrite Hc. lia.
Qed.

Lemma open_log_ok : log_ok (F := flat_file) BytewiseComparator flush_options open_batches 2.
Proof.
  split.
  - repeat constructor; by vm_compute.
  - repeat constructor; discriminate.
  - repeat constructor.
  - intros a ups c Hu xs Hp Hs f Hf. change (wcontents f) with f in Hf. subst f.
    split; [simpl; lia|]. split; [done|]. split; [done|].
    assert (Hin : xs = [] \/ (exists x, x ∈ logged_updates open_batches /\ xs = [x]) \/
      xs = logged_updates open_batches \/ xs = rev (logged_updates open_batches)).
    { destruct ups as [|x [|y ups] ]; [left; by apply Permutation_nil_r in Hp|..].
      - apply Permutation_singleton_r in Hp as ->. right; left. exists x. rewrite Hu. set_solver.
      - right; right. assert (a = [] /\ ups = [] /\ c = []) as (-> & -> & ->).
        { apply (f_equal length) in Hu. rewrite !length_app in Hu. simpl in Hu.
          destruct a, ups, c; simpl in Hu; try lia. done. }
        simpl in Hu. symmetry in Hp. rewrite Hu. by apply Permutation_length_2_inv in Hp. }
    destruct Hin as [-> |[(x & Hx1 & ->)|[-> | ->] ] ];
      [|apply elem_of_cons in Hx1 as [-> |Hx1]; [|apply list_elem_of_singleton in Hx1 as ->]|..];
      (split; [by vm_compute|]; split; [done|]; exact Logic.I).
  - vm_compute. lia.
Qed.

Lemma log_recovery_correct_witness : exists k st' reused env', (k <= 1)%nat /\
  RecoverLogFile BytewiseComparator (str "db") flush_options 2000000 4096 true false flush_new open_seq
    flush_new open_size flush_close flush_table (fun _ => 0) 1000 2 3 true
    (mkLogState (mkFlush newVersionSet newVersionEdit ∅ []) None 0 false 0) tt = Some (OK, st', reused, env') /\
  recovered BytewiseComparator flush_options (mkLogState (mkFlush newVersionSet newVersionEdit ∅ []) None 0 false 0) st' reused 3
    (take 1 open_batches ++ take k (drop 1 open_batches)).
Proof.
  destruct open_log_holds as (frss1 & frss2 & Hl & Hh & Hn).
  apply (log_recovery_correct BytewiseComparator (str "db") flush_options 2000000 4096 true false flush_new open_seq
    flush_new open_size flush_close flush_table (fun _ => 0) flush_env open_writer frss1 frss2 (take 1 open_batches) (drop 1 open_batches)
    open_cut open_file 1000 2 3 true (mkLogState (mkFlush newVersionSet newVersionEdit ∅ []) None 0 false 0) tt).
  - exact Hh.
  - rewrite Hl. reflexivity.
  - exact Hn.
  - reflexivity.
  - reflexivity.
  - exact open_log_ok.
  - simpl. lia.
  - vm_compute. reflexivity.
Defined.

Lemma compact_empty_memtable_witness :
  CompactMemTable BytewiseComparator (str "leveldb.BytewiseComparator") (str "db") flush_options 2000000 flush_new flush_close flush_table
    (fun _ _ => (OK, [])) 2 false
    (mkDB (Some (MemTable.Ref newMemTable)) (Some (Some newMemTable)) (newWriter ([] : flat_file)) 3 newVersionSet [] WriteBatch.Clear OK [])
    ∅ [] tt = None.
Proof.
  apply (compact_empty_memtable BytewiseComparator (str "leveldb.BytewiseComparator") (str "db") flush_options 2000000 flush_new flush_close flush_table
    (fun _ _ => (OK, [])) 2 false
    (mkDB (Some (MemTable.Ref newMemTable)) (Some (Some newMemTable)) (newWriter ([] : flat_file)) 3 newVersionSet [] WriteBatch.Clear OK [])
    (Some newMemTable) ∅ [] tt).
  - reflexivity.
  - exists newMemTable, newMemTable. split; [reflexivity|]. split; reflexivity.
Defined.
