(* ===== verification/DbGet.v ===== *)
(** db/snapshot.h, and in db/db_impl.cc [Get], [GetSnapshot], [ReleaseSnapshot]:
    reads of the database at a snapshot, and why the smallest snapshot protects
    them all.

    The references that [Get] takes on the memtables and the version are given
    back before it returns (VersionGc shows what they protect). *)

From Stdlib Require Import QArith.
From stdpp Require Import base list option gmap sorting strings.
From S2P Require Import Prelude Status Coding Crc32c Env Log LogProofs Comparator ModUtil DbFormat WriteBatch SkipList SkipListProofs MemTable Plr LearnedIndex VersionEdit Version VersionGet VersionGetProofs VLog Iterator MemIter VersionSet DbWrite DbWriteProofs.

#[local] Open Scope Z_scope.

(** * Snapshots *)

(** [SnapshotImpl]: its address and [sequence_number_]. *)
Record SnapshotImpl := mkSnapshot { snapshot_id : nat; sequence_number_ : Z }.

(** [SnapshotList], oldest first, with the next address. *)
Record SnapshotList := mkSnapshots { snapshots : list SnapshotImpl; next_snapshot : nat }.

Definition newSnapshotList : SnapshotList := mkSnapshots [] 0.

Definition snapshots_empty (l : SnapshotList) : bool := bool_decide (snapshots l = []).

(** [None]: the list is empty. *)
Definition oldest (l : SnapshotList) : option SnapshotImpl := head (snapshots l).
Definition newest_snapshot (l : SnapshotList) : option SnapshotImpl := last (snapshots l).

(** [None]: the assertion that sequence numbers do not decrease. *)
Definition New (l : SnapshotList) (sequence_number : Z) : option (SnapshotImpl * SnapshotList) :=
  if match newest_snapshot l with Some s => sequence_number_ s <=? sequence_number | None => true end then
    let s := mkSnapshot (next_snapshot l) sequence_number in
    Some (s, mkSnapshots (snapshots l ++ [s]) (S (next_snapshot l)))
  else None.

Definition Delete (l : SnapshotList) (s : SnapshotImpl) : SnapshotList :=
  mkSnapshots (List.filter (fun x => negb (snapshot_id x =? snapshot_id s)%nat) (snapshots l)) (next_snapshot l).

Definition GetSnapshot {F} (db : DB F) (l : SnapshotList) : option (SnapshotImpl * SnapshotList) :=
  New l (vs_last_sequence (db_versions db)).

Definition ReleaseSnapshot (l : SnapshotList) (s : SnapshotImpl) : SnapshotList := Delete l s.

(** The choice of [compact->smallest_snapshot] in [DoCompactionWork]. *)
Definition smallest_snapshot {F} (db : DB F) (l : SnapshotList) : option Z :=
  if snapshots_empty l then Some (vs_last_sequence (db_versions db)) else sequence_number_ <$> oldest l.

(** * [Get] *)

Section Get.
Context {F V : Type} `{!WritableFile V} `{!RandomAccessFile V} `{!TableReader} {T : Type} `{!Arith T}.
Context (user : Comparator) (MOD : Z).

(** The part of [Get] without the mutex: the status, the value, the models. *)
Definition get_stored (db : DB F) (models : list (LearnedIndexData T)) (lkey : LookupKey) (value : bytes)
    : option (Status * bytes * list (LearnedIndexData T)) :=
  mem ← db_mem db;
  r ← MemTable.Get user mem lkey;
  match r with
  | Found v => Some (OK, v, models)
  | Failed s => Some (s, value, models)
  | Absent =>
      r ← (match db_imm db with Some imm => m ← imm; MemTable.Get user m lkey | None => Some Absent end);
      match r with
      | Found v => Some (OK, v, models)
      | Failed s => Some (s, value, models)
      | Absent =>
          '(s, value, _, models) ← VersionGet.Get user MOD models (current (db_versions db)) lkey value;
          Some (s, value, models)
      end
  end.

(** [value] is what the caller's string holds. *)
Definition DB_Get (db : DB F) (models : list (LearnedIndexData T)) (vlog : @VLog V) (snapshot : option SnapshotImpl)
    (key value : bytes) : option (Status * bytes * list (LearnedIndexData T)) :=
  let snap := match snapshot with Some s => sequence_number_ s | None => vs_last_sequence (db_versions db) end in
  '(s, value, models) ← get_stored db models (newLookupKey key snap) value;
  if (7 <=? MOD) && ok s
  then Some (s, get_value vlog value, models)
  else Some (s, value, models).
End Get.

(** * The smallest snapshot *)

(** The snapshots in use: taken at growing sequence numbers, each with an address
    of its own. *)
Record snapshots_ok (l : SnapshotList) (latest : Z) : Prop := {
  so_sorted : StronglySorted (fun a b => sequence_number_ a <= sequence_number_ b) (snapshots l);
  so_last : Forall (fun s => sequence_number_ s <= latest) (snapshots l);
  so_ids : Forall (fun s => (snapshot_id s < next_snapshot l)%nat) (snapshots l);
}.

Inductive snapshot_step : SnapshotList * Z -> SnapshotList * Z -> Prop :=
  | step_write l last last' : last <= last' -> snapshot_step (l, last) (l, last')
  | step_get l last s l' : New l last = Some (s, l') -> snapshot_step (l, last) (l', last)
  | step_release l last s : s ∈ snapshots l -> snapshot_step (l, last) (Delete l s, last).

Lemma StronglySorted_filter {A} (Q : A -> A -> Prop) (P : A -> bool) l : StronglySorted Q l -> StronglySorted Q (List.filter P l).
Proof.
  induction 1 as [|x l Hl IH Hx]; simpl; [constructor|]. destruct (P x); [|done]. constructor; [done|].
  rewrite Forall_forall in Hx. apply Forall_forall. intros y Hy. apply Hx. rewrite list_elem_of_In in *. by apply filter_In in Hy as [? _].
Qed.

Lemma snapshot_step_ok c c' : snapshot_step c c' -> snapshots_ok c.1 c.2 -> snapshots_ok c'.1 c'.2.
Proof.
  intros Hst [Hs Hl Hi]. destruct Hst as [l latest latest' Hle|l latest s l' E|l latest s Hin]; cbn [fst snd] in *.
  - split; [done| |done]. eapply Forall_impl; [exact Hl|]. simpl. lia.
  - unfold New in E. set (b := match newest_snapshot l with Some _ => _ | None => _ end) in E. destruct b; [|done]. injection E as <- <-.
    split; cbn [snapshots next_snapshot].
    + apply StronglySorted_app. split; [|split; [done|repeat constructor] ].
      intros x y Hx Hy. apply list_elem_of_singleton in Hy as ->. rewrite Forall_forall in Hl. by apply Hl.
    + apply Forall_app. split; [done|]. repeat constructor. simpl. lia.
    + apply Forall_app. split; [eapply Forall_impl; [exact Hi|]; simpl; lia|]. repeat constructor.
  - assert (Hf : forall P : SnapshotImpl -> Prop, Forall P (snapshots l) -> Forall P (snapshots (Delete l s))).
    { intros P HP. rewrite Forall_forall in *. intros x Hx. apply HP. simpl in Hx. rewrite list_elem_of_In in *.
      by apply filter_In in Hx as [? _]. }
    split; [by apply StronglySorted_filter|by apply Hf|by apply Hf].
Qed.

Lemma snapshots_reachable c c' : rtc snapshot_step c c' -> snapshots_ok c.1 c.2 -> snapshots_ok c'.1 c'.2.
Proof. induction 1 as [|c1 c2 c3 Hst _ IH]; [done|]. intros Hc. by apply IH, (snapshot_step_ok c1). Qed.

(** * Reads *)

Section Reads.
Context {F V : Type} `{!WritableFile V} `{!RandomAccessFile V} {T : Type} `{!Arith T}.
Context (user : Comparator) `{Huser : !@ComparatorOk user} {HR : TableReader} {HT : TableReaderOk user} (MOD : Z).
#[local] Abbreviation ucmp := (@Compare user).
#[local] Abbreviation icmp := (InternalKey_Compare user).

(** What the database holds: [cur] in the memtable, [imm] in the one that is
    being written, the rest in the files of the current version; newer entries of
    a user key are in the part that is searched first. *)
Record db_view (db : DB F) (cur imm : list Update) : Prop := {
  dv_mem : mem_is user (db_mem db) cur;
  dv_imm : match db_imm db with Some om => mem_is user om imm | None => imm = [] end;
  dv_small : Forall up_small (imm ++ cur);
  dv_cur : distinct_updates user cur;
  dv_imm_distinct : distinct_updates user imm;
  dv_version : lsm user (current (db_versions db));
  dv_newer : forall x y, x ∈ cur -> y ∈ imm -> ucmp (up_key x) (up_key y) = 0 -> up_tag y < up_tag x;
  dv_older : forall x level f e, x ∈ imm ++ cur -> f ∈ level_files (current (db_versions db)) level ->
    e ∈ VersionGetProofs.contents user f -> ucmp (ExtractUserKey e.1) (up_key x) = 0 -> ExtractTag e.1 < up_tag x;
}.

Definition in_db (db : DB F) (cur imm : list Update) (e : bytes * bytes) : Prop :=
  (exists x, x ∈ imm ++ cur /\ e = up_kv x) \/
  (exists level f, f ∈ level_files (current (db_versions db)) level /\ e ∈ VersionGetProofs.contents user f).

(** The entries of [u] at the snapshot, and the newest of them. *)
Definition db_visible (db : DB F) (cur imm : list Update) (u : bytes) (snap : Z) (e : bytes * bytes) : Prop :=
  in_db db cur imm e /\ ucmp (ExtractUserKey e.1) u = 0 /\ icmp (mkInternalKey u snap kTypeValue) e.1 <= 0.

Definition db_newest (db : DB F) (cur imm : list Update) (u : bytes) (snap : Z) (e : bytes * bytes) : Prop :=
  db_visible db cur imm u snap e /\
  forall e', db_visible db cur imm u snap e' -> ExtractTag e'.1 <= ExtractTag e.1.

Lemma Get_table m m' k : table_ m = table_ m' -> MemTable.Get user m k = MemTable.Get user m' k.
Proof. intros E. unfold MemTable.Get. by rewrite E. Qed.

(** The two notions of what a snapshot sees agree. *)
Lemma visible_kv u snap x : up_small x -> 0 <= snap <= kMaxSequenceNumber ->
  MemTable.visible user u snap x <->
  ucmp (ExtractUserKey (up_kv x).1) u = 0 /\ icmp (mkInternalKey u snap kTypeValue) (up_kv x).1 <= 0.
Proof.
  intros Hx Hs. unfold MemTable.visible, up_kv. cbn [fst]. rewrite up_ikey_user.
  rewrite icmp_le, ExtractUserKey_mk, up_ikey_user, ExtractTag_mk, up_ikey_tag by done.
  unfold up_tag. pose proof Hx as [Hseq _]. rewrite !PackSequenceAndType_sum by done.
  pose proof (vt_num_range (up_type x)). change (vt_num kTypeValue) with 1.
  assert (Hsym : ucmp (up_key x) u = 0 -> ucmp u (up_key x) = 0) by apply cmp_eq_sym.
  split.
  - intros [Hc Hle]. split; [done|]. specialize (Hsym Hc). lia.
  - intros [Hc Hle]. specialize (Hsym Hc). split; [done|]. lia.
Qed.

Lemma up_outcome x value : up_small x ->
  outcome (up_kv x) value = Some (match up_type x with kTypeValue => (OK, up_value x) | kTypeDeletion => (NotFound [] [], value) end).
Proof.
  intros [Hs _]. unfold outcome, up_kv. cbn [fst snd].
  assert (Hp : ParseInternalKey (up_ikey x) = Some (mkParsed (up_key x) (up_seq x) (up_type x)))
    by by apply (ParseInternalKey_Append (mkParsed (up_key x) (up_seq x) (up_type x))).
  rewrite Hp. cbn [type]. by destruct (up_type x).
Qed.

(** A lookup in one memtable, by its contents. *)
Lemma mem_lookup om ups u snap : mem_is user om ups -> Forall up_small ups -> distinct_updates user ups ->
  blen u + 8 < 2 ^ 32 -> 0 <= snap <= kMaxSequenceNumber ->
  exists m, om = Some m /\
    ((exists x, MemTable.newest user u snap ups x /\ MemTable.Get user m (newLookupKey u snap) = Some (up_result x)) \/
     ((forall y, y ∈ ups -> ~ MemTable.visible user u snap y) /\ MemTable.Get user m (newLookupKey u snap) = Some Absent)).
Proof.
  intros (m & t & -> & Et & Htab) Hs Hd Hu Hsnap. exists m. split; [done|].
  destruct (Get_spec user ups u snap Hs Hd Hu Hsnap) as (t' & Et' & Hg). rewrite Et in Et'. injection Et' as <-.
  by rewrite (Get_table m t).
Qed.

Section View.
Context (db : DB F) (cur imm : list Update) (Hv : db_view db cur imm) (u : bytes) (snap : Z).
Context (Hu : blen u + 8 < 2 ^ 32) (Hsnap : 0 <= snap <= kMaxSequenceNumber).

Lemma view_small x : x ∈ imm ++ cur -> up_small x.
Proof. intros Hx. pose proof (dv_small _ _ _ Hv) as Hs. rewrite Forall_forall in Hs. by apply Hs. Qed.

(** An entry of the memtables that no other entry there beats is the newest. *)
Lemma mem_newest x : x ∈ imm ++ cur -> MemTable.visible user u snap x ->
  (forall y, y ∈ imm ++ cur -> MemTable.visible user u snap y -> up_tag y <= up_tag x) ->
  db_newest db cur imm u snap (up_kv x).
Proof.
  intros Hx Hvis Hbest. pose proof (view_small x Hx) as Hsx. pose proof Hvis as Hvis'.
  apply visible_kv in Hvis'; [|done|done].
  split; [split; [left; by exists x|done]|]. intros e' ([(y & Hy & ->)|(level & f & Hf & He)] & Hc & Hle).
  - unfold up_kv. cbn [fst]. rewrite !up_ikey_tag by (by apply view_small). apply Hbest; [done|].
    apply visible_kv; [by apply view_small|done|done].
  - unfold up_kv. cbn [fst]. rewrite up_ikey_tag by done. apply Z.lt_le_incl, (dv_older _ _ _ Hv x level f e'); [done..|].
    destruct Hvis as [Hxc _]. by apply (cmp_eq_trans _ u), cmp_eq_sym.
Qed.

(** No entry of the memtables is visible: the files decide. *)
Lemma files_newest : (forall y, y ∈ imm ++ cur -> ~ MemTable.visible user u snap y) ->
  forall e, db_visible db cur imm u snap e <->
    exists level f, VersionGetProofs.visible user (current (db_versions db)) (mkInternalKey u snap kTypeValue) level f e.
Proof.
  intros Hno e. unfold VersionGetProofs.visible. rewrite ExtractUserKey_mk. split.
  - intros ([(y & Hy & ->)|(level & f & Hf & He)] & Hc & Hle); [|by exists level, f].
    destruct (Hno y Hy). apply visible_kv; [by apply view_small|done|done].
  - intros (level & f & Hf & He & Hc & Hle). split; [right; by exists level, f|done].
Qed.

(** The result of [get_stored]. *)
Lemma get_stored_spec models value : MOD <> 9 ->
  exists s value', get_stored user MOD db models (newLookupKey u snap) value = Some (s, value', models) /\
    ((exists e, db_newest db cur imm u snap e /\ outcome e value = Some (s, value')) \/
     ((forall e, ~ db_visible db cur imm u snap e) /\ s = NotFound [] [] /\ value' = value)).
Proof.
  intros HM. unfold get_stored. pose proof (dv_small _ _ _ Hv) as Hs. apply Forall_app in Hs as [Hsi Hsc].
  destruct (mem_lookup _ _ u snap (dv_mem _ _ _ Hv) Hsc (dv_cur _ _ _ Hv) Hu Hsnap) as (m & -> & Hm). cbn [mbind option_bind].
  assert (Hfound : forall x, db_newest db cur imm u snap (up_kv x) -> x ∈ imm ++ cur -> exists s value',
    match up_result x with
    | Found v => Some (OK, v, models) | Failed s => Some (s, value, models) | Absent => None
    end = Some (s, value', models) /\
    ((exists e, db_newest db cur imm u snap e /\ outcome e value = Some (s, value')) \/
     ((forall e, ~ db_visible db cur imm u snap e) /\ s = NotFound [] [] /\ value' = value))).
  { intros x Hn Hx. unfold up_result. pose proof (up_outcome x value (view_small x Hx)) as Ho.
    destruct (up_type x); eexists _, _; (split; [reflexivity|left; exists (up_kv x); split; [done|exact Ho] ]). }
  destruct Hm as [(x & (Hx & Hvis & Hbest) & ->)|[Hno1 ->] ]; cbn [mbind option_bind].
  - assert (Hx' : x ∈ imm ++ cur) by (apply elem_of_app; by right).
    destruct (Hfound x) as (s & value' & E & Hr); [|done|exists s, value'; split; [|done]; by destruct (up_result x)].
    apply mem_newest; [done|done|]. intros y Hy Hy'. apply elem_of_app in Hy as [Hy|Hy]; [|by apply Hbest].
    apply Z.lt_le_incl, (dv_newer _ _ _ Hv); [done|done|]. destruct Hvis as [Hc _], Hy' as [Hc' _]. by apply (cmp_eq_trans _ u), cmp_eq_sym.
  - assert (Himm : exists r, (match db_imm db with Some om => m ← om; MemTable.Get user m (newLookupKey u snap) | None => Some Absent end) = Some r /\
      ((exists x, MemTable.newest user u snap imm x /\ r = up_result x) \/ ((forall y, y ∈ imm -> ~ MemTable.visible user u snap y) /\ r = Absent))).
    { pose proof (dv_imm _ _ _ Hv) as Hi. destruct (db_imm db) as [om|].
      - destruct (mem_lookup _ _ u snap Hi Hsi (dv_imm_distinct _ _ _ Hv) Hu Hsnap) as (m2 & -> & Hm2). cbn [mbind option_bind].
        destruct Hm2 as [(x & Hx & ->)|[Hx ->] ]; eexists; (split; [reflexivity|]); [left; by exists x|by right].
      - exists Absent. split; [done|]. right. rewrite Hi. split; [|done]. intros y Hy. by apply elem_of_nil in Hy. }
    destruct Himm as (r & -> & Hr). cbn [mbind option_bind]. destruct Hr as [(x & (Hx & Hvis & Hbest) & ->)|[Hno2 ->] ].
    + assert (Hx' : x ∈ imm ++ cur) by (apply elem_of_app; by left).
      destruct (Hfound x) as (s & value' & E & Hr); [|done|exists s, value'; split; [|done]; by destruct (up_result x)].
      apply mem_newest; [done|done|]. intros y Hy Hy'. apply elem_of_app in Hy as [Hy|Hy]; [by apply Hbest|]. by destruct (Hno1 y Hy).
    + assert (Hno : forall y, y ∈ imm ++ cur -> ~ MemTable.visible user u snap y).
      { intros y Hy. apply elem_of_app in Hy as [Hy|Hy]; [by apply Hno2|by apply Hno1]. }
      pose proof (files_newest Hno) as Hfiles.
      destruct (Version_Get_spec user MOD models (current (db_versions db)) u snap value HM (dv_version _ _ _ Hv))
        as (s & value' & stats & -> & Hr). cbn [mbind option_bind]. exists s, value'. split; [done|].
      destruct Hr as [(e & [He Hbest] & Ho)|(Hnone & -> & ->)].
      * left. exists e. split; [|done]. split; [by apply Hfiles|]. intros e' He'. apply Hfiles in He' as (level & f & He'). by eapply Hbest.
      * right. split; [|done]. intros e He. apply Hfiles in He as (level & f & He). by apply (Hnone level f e).
Qed.
End View.
End Reads.

(** * Properties *)

(** C9: a read returns the newest visible entry.  Whatever is split over the
    memtable, the memtable that is being written and the files, [Get] at a
    snapshot, or at the last sequence number, ends with the entry of the key that
    has the largest sequence number at or below it: its value (read from the value
    log in the modes that keep values there), or NotFound for a deletion, and
    NotFound if the key has no visible entry.  In the modes other than 9, and for a
    table reader that meets [TableReaderOk]. *)
Theorem db_get_newest {F V T : Type} `{!WritableFile V} `{!RandomAccessFile V} `{!Arith T}
    (user : Comparator) (Huser : @ComparatorOk user) {HR : TableReader} {HT : TableReaderOk user} (MOD : Z)
    (db : DB F) (cur imm : list Update) (models : list (LearnedIndexData T)) (vlog : @VLog V)
    (snapshot : option SnapshotImpl) (u value : bytes)
    (Hmode : MOD <> 9) (Hview : db_view user db cur imm) (Hu : blen u + 8 < 2 ^ 32)
    (Hlast : 0 <= vs_last_sequence (db_versions db) <= kMaxSequenceNumber)
    (Hsnap : forall s, snapshot = Some s -> 0 <= sequence_number_ s <= kMaxSequenceNumber) :
  let snap := match snapshot with Some s => sequence_number_ s | None => vs_last_sequence (db_versions db) end in
  exists s stored,
    DB_Get user MOD db models vlog snapshot u value =
      Some (s, if (7 <=? MOD) && ok s then get_value vlog stored else stored, models) /\
    ((exists e, db_newest user db cur imm u snap e /\ outcome e value = Some (s, stored)) \/
     ((forall e, ~ db_visible user db cur imm u snap e) /\ s = NotFound [] [] /\ stored = value)).
Proof.
  intros snap. assert (Hs : 0 <= snap <= kMaxSequenceNumber) by (unfold snap; destruct snapshot; [by apply Hsnap|done]).
  destruct (get_stored_spec user MOD db cur imm Hview u snap Hu Hs models value Hmode) as (s & stored & E & Hr).
  exists s, stored. split; [|done]. unfold DB_Get. fold snap. rewrite E. cbn [mbind option_bind].
  by destruct ((7 <=? MOD) && ok s).
Qed.

(** The snapshot that a compaction must respect.  However snapshots are taken
    and released while writes raise the last sequence number, [smallest_snapshot]
    is defined, at most the last sequence number, and at most every snapshot still
    in use; and taking a snapshot never violates the assertion of the list. *)
Theorem smallest_snapshot_safe {F : Type} (db : DB F) (l : SnapshotList)
    (Hreach : rtc snapshot_step (newSnapshotList, 0) (l, vs_last_sequence (db_versions db))) :
  exists n, smallest_snapshot db l = Some n /\ n <= vs_last_sequence (db_versions db) /\
    (forall s, s ∈ snapshots l -> n <= sequence_number_ s) /\
    exists s l', GetSnapshot db l = Some (s, l') /\ sequence_number_ s = vs_last_sequence (db_versions db).
Proof.
  apply snapshots_reachable in Hreach as [Hs Hl _]; [|by split; constructor]. cbn [fst snd] in *.
  assert (Hget : exists s l', GetSnapshot db l = Some (s, l') /\ sequence_number_ s = vs_last_sequence (db_versions db)).
  { unfold GetSnapshot, New, newest_snapshot. destruct (last (snapshots l)) as [s|] eqn:El; [|by eexists _, _].
    apply last_Some_elem_of in El. rewrite Forall_forall in Hl. specialize (Hl s El). simpl in Hl.
    replace (sequence_number_ s <=? _) with true by lia. by eexists _, _. }
  unfold smallest_snapshot, snapshots_empty, oldest. destruct (snapshots l) as [|s rest].
  - exists (vs_last_sequence (db_versions db)). split; [done|]. split; [lia|]. split; [|done]. intros s Hin. by apply elem_of_nil in Hin.
  - exists (sequence_number_ s). split; [done|]. apply Forall_cons in Hl as [Hl _]. split; [done|]. split; [|done].
    intros s' Hs'. apply StronglySorted_inv in Hs as [_ Hs]. rewrite Forall_forall in Hs.
    apply elem_of_cons in Hs' as [-> |Hs']; [lia|by apply Hs].
Qed.

(** The newest visible update of a list ordered by sequence numbers is unique. *)
Lemma newest_unique user u snap ups x y : seq_sorted ups -> Forall up_small ups ->
  MemTable.newest user u snap ups x -> MemTable.newest user u snap ups y -> x = y.
Proof.
  intros Hs Hsm (Hx & Hvx & Hbx) (Hy & Hvy & Hby). specialize (Hbx y Hy Hvy). specialize (Hby x Hx Hvx).
  rewrite Forall_forall in Hsm. destruct (Hsm x Hx) as [Hsx _], (Hsm y Hy) as [Hsy _].
  unfold up_tag in *. rewrite !PackSequenceAndType_sum in * by done.
  pose proof (vt_num_range (up_type x)). pose proof (vt_num_range (up_type y)).
  assert (Eseq : up_seq x = up_seq y) by lia. clear Hsm Hvx Hvy Hbx Hby.
  unfold seq_sorted in Hs. induction ups as [|z ups IH]; [by apply elem_of_nil in Hx|]. simpl in Hs.
  apply StronglySorted_inv in Hs as [Hs Hz]. rewrite Forall_forall in Hz.
  assert (Hlt : forall w, w ∈ ups -> up_seq z < up_seq w) by (intros w Hw; by apply Hz, (list_elem_of_fmap_2 up_seq)).
  apply elem_of_cons in Hx as [-> |Hx]; apply elem_of_cons in Hy as [-> |Hy]; [done|..|by apply IH].
  - specialize (Hlt y Hy). lia.
  - specialize (Hlt x Hx). lia.
Qed.

(** The last operation of a batch on a key is the newest update of the key. *)
Lemma last_op_newest user u pre seq ops op : seq_sorted (pre ++ batch_updates seq ops) ->
  Forall up_small (pre ++ batch_updates seq ops) ->
  last_op user u ops = Some op ->
  exists x, MemTable.newest user u (seq + blen ops - 1) (pre ++ batch_updates seq ops) x /\ up_result x = op_result op.
Proof.
  intros Hs Hsm Hlast. destruct (find_rev_last _ _ _ Hlast) as (i & Hi & Hp & Hmax). apply Z.eqb_eq in Hp.
  pose proof (lookup_lt_Some _ _ _ Hi) as Hlt. pose proof (batch_updates_lookup ops seq i op Hi) as Hin.
  set (x := op_update (seq + Z.of_nat i) op) in *. exists x. split; [|apply op_update_result].
  assert (Hx : x ∈ pre ++ batch_updates seq ops) by (apply elem_of_app; by right).
  assert (Hxs : up_seq x = seq + Z.of_nat i) by apply op_update_seq.
  split; [done|]. split; [split; [by unfold x; rewrite op_update_key|unfold blen; lia]|].
  intros y Hy [Hyc Hys]. rewrite Forall_forall in Hsm. destruct (Hsm y Hy) as [Hry _], (Hsm x Hx) as [Hrx _].
  assert (Hle : up_seq y < up_seq x \/ y = x).
  { apply elem_of_app in Hy as [Hy|Hy].
    - left. unfold seq_sorted in Hs. rewrite map_app in Hs. apply StronglySorted_app in Hs as (Hs & _ & _).
      apply Hs; by apply (list_elem_of_fmap_2 up_seq).
    - apply batch_updates_in in Hy as (j & op' & Hj & ->). rewrite op_update_key in Hyc.
      assert (j <= i)%nat by (apply (Hmax j op' Hj); by apply Z.eqb_eq).
      destruct (decide (i = j)) as [<-|]; [right; unfold x; congruence|left; rewrite op_update_seq; lia]. }
  destruct Hle as [Hle| ->]; [|lia]. unfold up_tag. rewrite !PackSequenceAndType_sum by done.
  pose proof (vt_num_range (up_type x)). pose proof (vt_num_range (up_type y)). lia.
Qed.

(** What a group wrote is read: the newest update of a key is the last operation of
    the group on it. *)
Lemma group_is_read {F V T : Type} `{HF : WritableFileOk F} `{!WritableFile V} `{!RandomAccessFile V} `{!Arith T}
    `{!Checksum} (user : Comparator) (Huser : @ComparatorOk user) {HR : TableReader} (MOD : Z)
    (db db' : DB F) (old old' : list Update) (cur cur' : list (Z * list BatchOp)) (served : list WriteReq)
    (opss : list (list BatchOp)) (models : list (LearnedIndexData T)) (vlog : @VLog V) (u value : bytes) (op : BatchOp) :
  write_step user MOD db old cur db' old' cur' served opss ->
  blen u + 8 < 2 ^ 32 -> vs_last_sequence (db_versions db') <= kMaxSequenceNumber ->
  last_op user u (concat opss) = Some op ->
  DB_Get user MOD db' models vlog None u value =
    Some (match op with OpPut _ v => (OK, if 7 <=? MOD then get_value vlog v else v) | OpDelete _ => (NotFound [] [], value) end, models).
Proof.
  intros Hstep Hu Hlast Hop.
  destruct (ws_mem _ _ _ _ _ _ _ _ _ _ Hstep) as [pre Epre]. pose proof (ws_inv _ _ _ _ _ _ _ _ _ _ Hstep) as Hinv.
  set (seq0 := vs_last_sequence (db_versions db) + 1) in *.
  pose proof (di_small _ _ _ _ _ Hinv) as Hsm. apply Forall_app in Hsm as [_ Hsm].
  assert (Hso' : seq_sorted (logged_updates cur')).
  { pose proof (di_order _ _ _ _ _ Hinv) as Hso. unfold seq_sorted in *. rewrite map_app in Hso.
    by apply StronglySorted_app in Hso as (_ & _ & Hso). }
  rewrite Epre in Hso', Hsm. destruct (last_op_newest user u pre seq0 _ op Hso' Hsm Hop) as (x & Hx & Hres).
  assert (Esnap : vs_last_sequence (db_versions db') = seq0 + blen (concat opss) - 1)
    by (rewrite (ws_last _ _ _ _ _ _ _ _ _ _ Hstep); unfold seq0; lia).
  assert (Hm := di_mem _ _ _ _ _ Hinv). rewrite Epre in Hm.
  destruct (mem_lookup user _ _ u (vs_last_sequence (db_versions db')) Hm Hsm) as (m & Em & Hg);
    [by apply seq_sorted_distinct|done|split; [exact (di_last_pos _ _ _ _ _ Hinv)|done]|].
  unfold DB_Get, get_stored. rewrite Em. cbn [mbind option_bind]. rewrite Esnap in Hg |- *.
  destruct Hg as [(y & Hy & ->)|[Hno _] ]; [|destruct Hx as (Hx & Hvis & _); by destruct (Hno x Hx)].
  rewrite (newest_unique user u _ _ y x Hso' Hsm Hy Hx), Hres. cbn [mbind option_bind].
  by destruct op; simpl; destruct (7 <=? MOD).
Qed.

(** C20: a committed write is read.  A call of [Write] by the writer at the front of
    the queue serves the first writers of the queue (with those who came meanwhile),
    each with status OK; and a read of a key that they wrote, at the last sequence
    number, then returns the effect of the last operation on it, in queue order: the
    value (in the modes from 7 on, what the value log has for the pointer that was
    written), or NotFound after a deletion.  The environment is that of
    [group_commit_correct]. *)
Theorem committed_write_is_read {E F V T : Type} `{HF : WritableFileOk F} `{!WritableFile V} `{!RandomAccessFile V} `{!Arith T}
    `{!Checksum} (user : Comparator) (Huser : @ComparatorOk user) {HR : TableReader} (MOD : Z) (dbname_ : bytes) (write_buffer_size : Z)
    (ApproximateMemoryUsage : option MemTable -> Z) (NewWritableFile : E -> bytes -> Status * F * E) (others : DB F -> DB F)
    (waits : DB F -> nat) (Henv : env_ok write_buffer_size ApproximateMemoryUsage NewWritableFile others waits)
    (fuel : nat) (db : DB F) (env : E) (old : list Update) (cur : list (Z * list BatchOp))
    (Hinv : db_inv user MOD db old cur) (Hreqs : Forall req_ok (db_writers db)) (Hqueue : db_writers db <> [])
    (Hseq : vs_last_sequence (db_versions db) + 2 ^ 31 <= kMaxSequenceNumber) (Hfuel : (waits db + 3 < fuel)%nat) :
  exists db' env' served opss,
    Write user MOD dbname_ write_buffer_size ApproximateMemoryUsage NewWritableFile others fuel db env = Some (db', env') /\
    served <> [] /\ (exists new, db_writers db ++ new = served ++ db_writers db') /\ Forall2 req_ops served opss /\
    db_results db' = db_results db ++ map (fun w => (w_id w, OK)) served /\
    forall (models : list (LearnedIndexData T)) (vlog : @VLog V) (u value : bytes) (op : BatchOp),
      blen u + 8 < 2 ^ 32 -> last_op user u (concat opss) = Some op ->
      DB_Get user MOD db' models vlog None u value =
        Some (match op with OpPut _ v => (OK, if 7 <=? MOD then get_value vlog v else v) | OpDelete _ => (NotFound [] [], value) end, models).
Proof.
  destruct (Write_spec user MOD dbname_ write_buffer_size ApproximateMemoryUsage NewWritableFile others waits Henv
    fuel db env old cur Hinv Hreqs Hqueue Hseq Hfuel) as (db' & env' & old' & cur' & served & opss & E1 & Hstep).
  exists db', env', served, opss. split; [done|]. pose proof Hstep as [_ _ _ S1 S2 S3 (w & rest & -> & _) (new & S4 & _) S5].
  split; [done|]. split; [by exists new|]. split; [done|]. split; [done|].
  intros models vlog u value op Hu Hop. apply (group_is_read user Huser MOD db db' old old' cur cur' (w :: rest) opss); [done|done|lia|done].
Qed.

(** * Examples *)

(** A newer value in the memtable over the files of [get_version]. *)
Definition read_update : Update := mkUpdate 9 kTypeValue (str "b") (str "new").
Definition read_versions : VersionSet flat_file :=
  mkVersionSet 12 2 9 4 0 None [mkLive 0 1 get_version] (0%nat, get_version) 1 [].
Definition read_db (om : option MemTable) : DB flat_file :=
  mkDB om None (newWriter []) 4 read_versions [] WriteBatch.Clear OK [].

Lemma read_db_view m : add_all BytewiseComparator [read_update] = Some m ->
  @db_view flat_file BytewiseComparator (list_reader BytewiseComparator get_contents)
    (list_reader_ok BytewiseComparator get_contents) (read_db (Some m)) [read_update] [].
Proof.
  intros Em. split.
  - by exists m, m.
  - done.
  - repeat constructor; by vm_compute.
  - repeat constructor.
  - constructor.
  - exact get_version_lsm.
  - intros x y _ Hy. by apply elem_of_nil in Hy.
  - intros x level f e Hx Hf He _. apply list_elem_of_singleton in Hx as ->.
    apply get_version_level in Hf as [(_ & _ & ->)|(_ & _ & ->)]; apply list_elem_of_singleton in He as ->; by vm_compute.
Qed.

Lemma db_get_newest_witness : exists m, add_all BytewiseComparator [read_update] = Some m /\
  exists s stored,
    @DB_Get flat_file flat_file _ (list_reader BytewiseComparator get_contents) Q exact BytewiseComparator 0
      (read_db (Some m)) [] (newVLog [] 0) (Some (mkSnapshot 0 8)) (str "b") (str "before") =
      Some (s, if (7 <=? 0) && ok s then get_value (newVLog ([] : flat_file) 0) stored else stored, []) /\
    ((exists e, @db_newest flat_file BytewiseComparator (list_reader BytewiseComparator get_contents)
        (list_reader_ok BytewiseComparator get_contents) (read_db (Some m)) [read_update] [] (str "b") 8 e /\
        outcome e (str "before") = Some (s, stored)) \/
     ((forall e, ~ @db_visible flat_file BytewiseComparator (list_reader BytewiseComparator get_contents)
        (list_reader_ok BytewiseComparator get_contents) (read_db (Some m)) [read_update] [] (str "b") 8 e) /\
      s = NotFound [] [] /\ stored = str "before")).
Proof.
  destruct (add_all BytewiseComparator [read_update]) as [m|] eqn:Em; [|vm_compute in Em; discriminate].
  exists m. split; [reflexivity|].
  apply (@db_get_newest flat_file flat_file Q _ _ exact BytewiseComparator BytewiseComparator_ok
    (list_reader BytewiseComparator get_contents) (list_reader_ok BytewiseComparator get_contents) 0
    (read_db (Some m)) [read_update] [] [] (newVLog [] 0) (Some (mkSnapshot 0 8)) (str "b") (str "before")).
  - lia.
  - exact (read_db_view m Em).
  - vm_compute. reflexivity.
  - vm_compute. split; discriminate.
  - intros s [= <-]. vm_compute. split; discriminate.
Defined.

Lemma smallest_snapshot_safe_witness :
  exists n, smallest_snapshot (read_db None) (mkSnapshots [mkSnapshot 0 5] 1) = Some n /\ n <= 9 /\
    (forall s, s ∈ [mkSnapshot 0 5] -> n <= sequence_number_ s) /\
    exists s l', GetSnapshot (read_db None) (mkSnapshots [mkSnapshot 0 5] 1) = Some (s, l') /\ sequence_number_ s = 9.
Proof.
  apply (smallest_snapshot_safe (read_db None) (mkSnapshots [mkSnapshot 0 5] 1)).
  apply (rtc_l _ _ (newSnapshotList, 5)); [apply step_write; lia|].
  apply (rtc_l _ _ (mkSnapshots [mkSnapshot 0 5] 1, 5)); [apply (step_get _ _ (mkSnapshot 0 5)); reflexivity|].
  apply rtc_once, step_write. vm_compute. discriminate.
Defined.

#[local] Instance read_checksum : Checksum := crc32c_checksum 0.

(** The three writers of [ex_db]: the last one gives the key its value. *)
Lemma committed_write_is_read_witness :
  exists db' env' served opss,
    Write BytewiseComparator 0 (str "db") 4096 (fun _ => 0) ex_new ex_others 5 ex_db tt = Some (db', env') /\
    served <> [] /\ (exists new, db_writers ex_db ++ new = served ++ db_writers db') /\ Forall2 req_ops served opss /\
    db_results db' = db_results ex_db ++ map (fun w => (w_id w, OK)) served /\
    forall (models : list (LearnedIndexData Q)) (vlog : @VLog flat_file) (u value : bytes) (op : BatchOp),
      blen u + 8 < 2 ^ 32 -> last_op BytewiseComparator u (concat opss) = Some op ->
      @DB_Get flat_file flat_file _ (list_reader BytewiseComparator get_contents) Q exact BytewiseComparator 0 db' models vlog None u value =
        Some (match op with OpPut _ v => (OK, if 7 <=? 0 then get_value vlog v else v) | OpDelete _ => (NotFound [] [], value) end, models).
Proof.
  apply (@committed_write_is_read unit flat_file flat_file Q _ _ _ _ exact _ BytewiseComparator BytewiseComparator_ok
    (list_reader BytewiseComparator get_contents) 0 (str "db") 4096 (fun _ => 0) ex_new ex_others ex_waits ex_env_ok 5 ex_db tt [] []).
  - exact ex_db_inv.
  - exact ex_db_reqs.
  - discriminate.
  - vm_compute. discriminate.
  - vm_compute. lia.
Defined.
