(* ===== verification/DbScan.v ===== *)
(** Scans of the whole database.  db/version_set.cc: [LevelFileNumIterator] as an
    iterator, [GetFileIterator], [NewConcatenatingIterator] and [AddIterators];
    db/db_impl.cc: [NewInternalIterator] and [NewIterator]; and the proof that a scan
    walks the keys that reads at the same snapshot find, with the values they find.

    What the table cache promises for the iterator over one file is the class
    [TableIterators]; the file is named by its number and its size, as in the code.
    The reference counts that an iterator raises are those of the memtables and of
    the current version; what gives them back ([CleanupIteratorState]) is a step of
    VersionGc. *)

From Stdlib Require Import QArith.
From stdpp Require Import base list option sorting strings.
From S2P Require Import Prelude Status Coding Env Comparator DbFormat SkipList MemTable Plr VersionEdit LearnedIndex Version VersionGet VersionGetProofs VLog Iterator TwoLevel Merger MergerProofs DbIter DbIterProofs Table VersionSet DbWrite DbWriteProofs MemIter DbGet.

#[local] Open Scope Z_scope.

(** [TableCache::NewIterator]; a table that cannot be opened gives an iterator with
    an error. *)
Class TableIterators (J : Type) := { table_NewIterator : Z -> Z -> J }.

(** An iterator over a level; an iterator over a memtable, a table or a level. *)
Definition LevelIterator (J : Type) : Type := TwoLevelIterator LevelFileNumIterator (EmptyIterator + J).
Definition Child (J : Type) : Type := MemTableIterator + (J + LevelIterator J).

Section Scan.
Context (user : Comparator) {J : Type} `{!Iterator J} `{!TableIterators J}.
(** A bound on the files of a level, and on the entries passed in one operation. *)
Context (fuel : nat).

(** * The files of a level *)

(** [Next], [Prev], [key] and [value] require a valid iterator. *)
#[export] Instance LevelFileNumIterator_iterator : Iterator LevelFileNumIterator := {|
  Valid := lf_Valid;
  Seek it target := Some (lf_Seek user it target);
  SeekToFirst it := Some (lf_SeekToFirst it);
  SeekToLast it := Some (lf_SeekToLast it);
  Next it := if lf_Valid it then Some (lf_Next it) else None;
  Prev it := if lf_Valid it then Some (lf_Prev it) else None;
  key it := default [] (lf_key it);
  value it := default [] (lf_value it);
  status _ := OK |}.

Definition GetFileIterator (file_value : bytes) : EmptyIterator + J :=
  if negb (blen file_value =? 16)
  then inl (NewErrorIterator (Corruption (str "FileReader invoked with unexpected value") []))
  else inr (table_NewIterator (DecodeFixed64 file_value) (DecodeFixed64 (bdrop 8 file_value))).

Definition NewConcatenatingIterator (v : Version) (level : nat) : LevelIterator J :=
  NewTwoLevelIterator (newLevelFileNumIterator (level_files v level)).

#[export] Instance LevelIterator_iterator : Iterator (LevelIterator J) :=
  TwoLevelIterator_iterator GetFileIterator fuel.

(** * The whole tree *)

#[export] Instance Child_iterator : Iterator (Child J) :=
  sum_iterator (Iterator0 := MemTableIterator_iterator user)
    (Iterator1 := sum_iterator (Iterator1 := LevelIterator_iterator)).

Definition AddIterators (v : Version) : list (Child J) :=
  map (fun f => inr (inl (table_NewIterator (number f) (file_size f)))) (level_files v 0) ++
  concat (map (fun level => match level_files v level with
                            | [] => []
                            | _ => [inr (inr (NewConcatenatingIterator v level))]
                            end) (seq 1 (Z.to_nat kNumLevels - 1))).

#[export] Instance Internal_iterator : Iterator (Merged (Child J)) :=
  Merged_iterator (Iterator0 := Child_iterator) (InternalKeyComparator user).

Section Database.
Context {F : Type}.

(** The references on the memtables and the current version. *)
Definition ref_all (db : DB F) : DB F :=
  let vs := db_versions db in
  mkDB (MemTable.Ref <$> db_mem db) (fmap (M := option) MemTable.Ref <$> db_imm db) (db_log db) (db_logfile_number db)
    (mkVersionSet (vs_next_file_number vs) (vs_manifest_file_number vs) (vs_last_sequence vs) (vs_log_number vs)
       (vs_prev_log_number vs) (descriptor_log_ vs) (VersionSet.Ref (current_ vs).1 (dummy_versions_ vs))
       (current_ vs) (next_id vs) (vs_compact_pointer vs))
    (db_writers db) (db_tmp_batch db) (db_bg_error db) (db_results db).

(** The iterator, the latest snapshot, the seed (the new [seed_]) and the
    database after. *)
Definition NewInternalIterator (db : DB F) (seed_ : Z) : option (Merged (Child J) * Z * Z * DB F) :=
  let latest_snapshot := vs_last_sequence (db_versions db) in
  mem ← db_mem db;
  imm ← (match db_imm db with Some om => m ← om; Some [inl (MemTable_NewIterator m)] | None => Some [] end);
  let children := inl (MemTable_NewIterator mem) :: imm ++ AddIterators (current (db_versions db)) in
  Some (NewMergingIterator (Iterator0 := Child_iterator) children, latest_snapshot, u32 (seed_ + 1), ref_all db).

(** The iterator, the snapshot it is at, the new [seed_] and the database after. *)
Definition NewIterator (db : DB F) (seed_ : Z) (snapshot : option SnapshotImpl)
    : option (DBIter (Merged (Child J)) * Z * Z * DB F) :=
  '(iter, latest_snapshot, seed, db) ← NewInternalIterator db seed_;
  Some (NewDBIterator iter seed,
        match snapshot with Some s => sequence_number_ s | None => latest_snapshot end, seed, db).
End Database.
End Scan.

(** * Sums and families of iterators *)

#[export] Instance EmptyIterator_ok (cmp : Comparator) : IteratorOk EmptyIterator cmp.
Proof.
  refine (@Build_IteratorOk EmptyIterator EmptyIterator_iterator cmp (fun it l i => l = [] /\ i = 0%nat /\ empty_status it = OK) _ _ _ _ _ _ _ _ _).
  - by intros it l i (-> & -> & _).
  - by intros it l i e (-> & _).
  - done.
  - by intros it l i (_ & _ & ?).
  - intros it l i target (-> & -> & ?) _. by exists it.
  - intros it l i (-> & -> & ?). by exists it.
  - intros it l i (-> & -> & ?). by exists it.
  - intros it l i (-> & _) Hi. simpl in Hi. lia.
  - intros it l i (-> & _) Hi. simpl in Hi. lia.
Defined.

Section Sum.
Context {I J : Type} {HI : Iterator I} {HJ : Iterator J} {cmp : Comparator} {OI : IteratorOk I cmp} {OJ : IteratorOk J cmp}.

Definition sum_at (it : I + J) (l : list (bytes * bytes)) (i : nat) : Prop :=
  match it with inl a => at_pos a l i | inr b => at_pos b l i end.

Lemma inl_step (o : option I) l j : (exists a, o = Some a /\ at_pos a l j) -> exists it, @inl I J <$> o = Some it /\ sum_at it l j.
Proof. intros (a & -> & Ha). by exists (inl a). Qed.
Lemma inr_step (o : option J) l j : (exists b, o = Some b /\ at_pos b l j) -> exists it, @inr I J <$> o = Some it /\ sum_at it l j.
Proof. intros (b & -> & Hb). by exists (inr b). Qed.

#[export] Instance sum_iterator_ok : IteratorOk (I + J) cmp.
Proof.
  refine (@Build_IteratorOk (I + J) sum_iterator cmp sum_at _ _ _ _ _ _ _ _ _); intros [a|b].
  - exact (at_pos_le a).
  - exact (at_pos_le b).
  - exact (at_entry a).
  - exact (at_entry b).
  - exact (at_end a).
  - exact (at_end b).
  - exact (at_status a).
  - exact (at_status b).
  - intros l i target Ha Ht. apply inl_step. by eapply Seek_ok.
  - intros l i target Ha Ht. apply inr_step. by eapply Seek_ok.
  - intros l i Ha. apply inl_step. by eapply SeekToFirst_ok.
  - intros l i Ha. apply inr_step. by eapply SeekToFirst_ok.
  - intros l i Ha. apply inl_step. by eapply SeekToLast_ok.
  - intros l i Ha. apply inr_step. by eapply SeekToLast_ok.
  - intros l i Ha Hi. apply inl_step. by apply Next_ok.
  - intros l i Ha Hi. apply inr_step. by apply Next_ok.
  - intros l i Ha Hi. apply inl_step. by apply Prev_ok.
  - intros l i Ha Hi. apply inr_step. by apply Prev_ok.
Defined.
End Sum.

(** What holds for each member of a family holds for its union. *)
Definition family_at {I X} {HI : Iterator I} {cmp : Comparator} (P : X -> Prop) (ok : forall x, P x -> IteratorOk I cmp)
    (it : I) (l : list (bytes * bytes)) (i : nat) : Prop :=
  exists x (H : P x), at_pos (IteratorOk := ok x H) it l i.

Definition family_ok {I X} {HI : Iterator I} {cmp : Comparator} (P : X -> Prop) (ok : forall x, P x -> IteratorOk I cmp) :
  IteratorOk I cmp.
Proof.
  refine (@Build_IteratorOk I HI cmp (family_at P ok) _ _ _ _ _ _ _ _ _).
  - intros it l i (x & H & Ha). exact (at_pos_le _ _ _ Ha).
  - intros it l i e (x & H & Ha). exact (at_entry _ _ _ _ Ha).
  - intros it l (x & H & Ha). exact (at_end _ _ Ha).
  - intros it l i (x & H & Ha). exact (at_status _ _ _ Ha).
  - intros it l i target (x & H & Ha) Ht. destruct (Seek_ok _ _ _ target Ha Ht) as (it' & E & Ha'). exists it'. split; [exact E|by exists x, H].
  - intros it l i (x & H & Ha). destruct (SeekToFirst_ok _ _ _ Ha) as (it' & E & Ha'). exists it'. split; [exact E|by exists x, H].
  - intros it l i (x & H & Ha). destruct (SeekToLast_ok _ _ _ Ha) as (it' & E & Ha'). exists it'. split; [exact E|by exists x, H].
  - intros it l i (x & H & Ha) Hi. destruct (Next_ok _ _ _ Ha Hi) as (it' & E & Ha'). exists it'. split; [exact E|by exists x, H].
  - intros it l i (x & H & Ha) Hi. destruct (Prev_ok _ _ _ Ha Hi) as (it' & E & Ha'). exists it'. split; [exact E|by exists x, H].
Defined.

(** * The files of a level *)

Section Level.
Context (user : Comparator) `{Huser : !@ComparatorOk user}.
#[local] Instance icmp : Comparator := InternalKeyComparator user.
#[local] Abbreviation icmpf := (InternalKey_Compare user).

Definition file_entry (f : FileMetaData) : bytes * bytes := (largest f, EncodeFixed64 (number f) ++ EncodeFixed64 (file_size f)).

Definition lf_at (it : LevelFileNumIterator) (l : list (bytes * bytes)) (i : nat) : Prop :=
  disjoint_sorted user (flist_ it) /\ l = map file_entry (flist_ it) /\ i = index_ it /\ (i <= length (flist_ it))%nat.

Lemma FindFile_seek_index fs target : disjoint_sorted user fs -> FindFile user fs target = seek_index (cmp := icmp) target (map file_entry fs).
Proof.
  intros Hd. destruct (FindFile_spec user fs target Hd) as (Hle & Hb & Ha). symmetry. apply (seek_index_unique (cmp := icmp)).
  - by rewrite length_map.
  - intros j e Hj Hlt. change (map file_entry fs) with (file_entry <$> fs) in Hj. apply list_lookup_fmap_Some in Hj as (f & -> & Hf). by apply (Hb j f).
  - intros e Hj. change (map file_entry fs) with (file_entry <$> fs) in Hj. apply list_lookup_fmap_Some in Hj as (f & -> & Hf).
    change (0 <= @Compare icmp (largest f) target). apply (tc_flip_le (@Compare icmp) target (largest f)). exact (Ha _ f Hf (Nat.le_refl _)).
Qed.

#[export] Instance LevelFileNumIterator_ok : @IteratorOk LevelFileNumIterator (LevelFileNumIterator_iterator user) icmp.
Proof.
  refine (@Build_IteratorOk LevelFileNumIterator (LevelFileNumIterator_iterator user) icmp lf_at _ _ _ _ _ _ _ _ _).
  - intros it l i (_ & -> & _ & Hi). by rewrite length_map.
  - intros it l i e (_ & -> & -> & _) He. change (map file_entry ?x) with (file_entry <$> x) in He. apply list_lookup_fmap_Some in He as (f & -> & Hf).
    cbn [Valid key value LevelFileNumIterator_iterator]. unfold lf_Valid, lf_key, lf_value. rewrite Hf.
    split; [|done]. apply Nat.ltb_lt. by eapply lookup_lt_Some.
  - intros it l (_ & -> & E & _). cbn [Valid LevelFileNumIterator_iterator]. unfold lf_Valid. rewrite length_map in E. apply Nat.ltb_ge. lia.
  - done.
  - intros it l i target (Hd & -> & -> & _) _. eexists. split; [reflexivity|]. split; [done|]. split; [done|]. cbn [lf_Seek index_ flist_].
    split; [by rewrite FindFile_seek_index|]. pose proof (seek_index_le (cmp := icmp) target (map file_entry (flist_ it))) as Hle. by rewrite length_map in Hle.
  - intros it l i (Hd & -> & -> & _). eexists. split; [reflexivity|]. split; [done|]. split; [done|]. split; [done|]. cbn [lf_SeekToFirst flist_]. lia.
  - intros it l i (Hd & -> & -> & _). eexists. split; [reflexivity|]. split; [done|]. split; [done|]. cbn [lf_SeekToLast flist_ index_]. rewrite length_map.
    split; [by destruct (flist_ it)|lia].
  - intros it l i (Hd & -> & -> & _) Hi. rewrite length_map in Hi. cbn [Next LevelFileNumIterator_iterator]. unfold lf_Valid. rewrite (proj2 (Nat.ltb_lt _ _) Hi).
    eexists. split; [reflexivity|]. split; [done|]. split; [done|]. split; [done|]. cbn [lf_Next flist_]. lia.
  - intros it l i (Hd & -> & -> & _) Hi. rewrite length_map in *. cbn [Prev LevelFileNumIterator_iterator]. unfold lf_Valid. rewrite (proj2 (Nat.ltb_lt _ _) Hi).
    eexists. split; [reflexivity|]. split; [done|]. split; [done|]. cbn [lf_Prev flist_ index_]. split; [done|]. destruct (index_ it); lia.
Defined.
End Level.

Lemma sorted_concat {A} (R : A -> A -> Prop) (ls : list (list A)) : Forall (StronglySorted R) ls ->
  (forall i j li lj x y, ls !! i = Some li -> ls !! j = Some lj -> (i < j)%nat -> x ∈ li -> y ∈ lj -> R x y) -> StronglySorted R (concat ls).
Proof.
  induction 1 as [|l ls Hl _ IH]; intros Hc; [constructor|]. cbn [concat]. apply StronglySorted_app. split; [|split; [done|]].
  - intros x y Hx Hy. rewrite list_elem_of_In in Hy. apply in_concat in Hy as (lj & Hj & Hy). apply list_elem_of_In, list_elem_of_lookup in Hj as [j Hj]. rewrite <- list_elem_of_In in Hy.
    apply (Hc 0%nat (S j) l lj); [done|done|lia|done|done].
  - apply IH. intros i j li lj x y Hi Hj Hlt. apply (Hc (S i) (S j) li lj); [done|done|lia].
Qed.

(** * The concatenation of the files of a level *)

Section Concatenating.
Context (user : Comparator) `{Huser : !@ComparatorOk user} {HR : TableReader} {HT : TableReaderOk user}.
Context {J : Type} {HJ : Iterator J} {HTI : TableIterators J} {OJ : IteratorOk J (InternalKeyComparator user)} (fuel : nat).
#[local] Existing Instance icmp.
#[local] Abbreviation icmp := (icmp user).
#[local] Abbreviation contents := (VersionGetProofs.contents user).
#[local] Abbreviation sorted := (StronglySorted (entry_lt (cmp := icmp))).

(** The table cache opens the file; a new iterator is not positioned. *)
Definition opens (f : FileMetaData) : Prop :=
  0 <= number f < 2 ^ 64 /\ 0 <= file_size f < 2 ^ 64 /\ at_pos (table_NewIterator (number f) (file_size f)) (contents f) (length (contents f)).

Record level_ok (fs : list FileMetaData) : Prop := {
  lo_disjoint : disjoint_sorted user fs;
  lo_contents : Forall (file_contents_ok user) fs;
  lo_opens : Forall opens fs;
  lo_numbers : NoDup (map number fs);
  lo_fuel : (length fs < fuel)%nat;
}.

Definition handle (f : FileMetaData) : bytes := EncodeFixed64 (number f) ++ EncodeFixed64 (file_size f).
Definition block_of (fs : list FileMetaData) (h : bytes) : list (bytes * bytes) :=
  match List.find (fun f => slice_eqb (handle f) h) fs with Some f => contents f | None => [] end.

Lemma handle_number f g : 0 <= number f < 2 ^ 64 -> 0 <= number g < 2 ^ 64 -> handle f = handle g -> number f = number g.
Proof.
  intros Hf Hg E. unfold handle in E. apply (f_equal DecodeFixed64) in E. rewrite !DecodeFixed64_app in E.
  by rewrite !Z.mod_small in E by done.
Qed.

Lemma GetFileIterator_handle f : 0 <= number f < 2 ^ 64 -> 0 <= file_size f < 2 ^ 64 ->
  GetFileIterator (handle f) = inr (table_NewIterator (number f) (file_size f)).
Proof.
  intros Hn Hs. unfold GetFileIterator, handle. rewrite blen_app, !EncodeFixed64_length. cbn [Z.eqb Z.add negb Pos.eqb Pos.add Pos.succ Pos.add_carry].
  rewrite DecodeFixed64_app. replace (bdrop 8 _) with (EncodeFixed64 (file_size f) ++ []) by (rewrite app_nil_r; reflexivity).
  by rewrite DecodeFixed64_app, !Z.mod_small by done.
Qed.

Section Fixed.
Context (fs : list FileMetaData) (Hfs : level_ok fs).
#[local] Abbreviation idx := (map file_entry fs).

Lemma idx_lookup j k h : idx !! j = Some (k, h) -> exists f, fs !! j = Some f /\ k = largest f /\ h = handle f.
Proof.
  change idx with (file_entry <$> fs). intros Hj. apply list_lookup_fmap_Some in Hj as (f & E & Hf). injection E as -> ->. by exists f.
Qed.

Lemma level_file j f : fs !! j = Some f -> file_contents_ok user f /\ opens f.
Proof.
  intros Hf. apply list_elem_of_lookup_2 in Hf. pose proof (lo_contents _ Hfs) as Hc. pose proof (lo_opens _ Hfs) as Ho.
  rewrite Forall_forall in Hc, Ho. by split; [apply Hc|apply Ho].
Qed.

Lemma block_of_file j f : fs !! j = Some f -> block_of fs (handle f) = contents f.
Proof.
  intros Hf. destruct (level_file j f Hf) as [_ (Hn & _ & _)]. unfold block_of.
  destruct (List.find _ fs) as [g|] eqn:E.
  - apply find_some in E as [Hg E]. apply slice_eqb_spec in E. apply list_elem_of_In, list_elem_of_lookup in Hg as [k Hg].
    destruct (level_file k g Hg) as [_ (Hng & _ & _)]. apply handle_number in E; [|done|done].
    pose proof (lo_numbers _ Hfs) as Hnd. assert (j = k) as <-; [|congruence].
    apply (NoDup_lookup (map number fs) j k (number f)); [done| |]; change (map number fs) with (number <$> fs); rewrite list_lookup_fmap; [by rewrite Hf|by rewrite Hg, <- E].
  - apply (find_none _ fs) with f in E; [|by apply list_elem_of_In, list_elem_of_lookup_2 with j]. by rewrite (proj2 (slice_eqb_spec _ _)) in E.
Qed.

Lemma level_block j k h : idx !! j = Some (k, h) -> exists i, at_pos (GetFileIterator h) (block_of fs h) i.
Proof.
  intros Hj. destruct (idx_lookup j k h Hj) as (f & Hf & -> & ->). destruct (level_file j f Hf) as [_ (Hn & Hs & Ha)].
  rewrite (GetFileIterator_handle f Hn Hs), (block_of_file j f Hf). by exists (length (contents f)).
Qed.

Lemma level_bound j k h e : idx !! j = Some (k, h) -> e ∈ block_of fs h -> Compare (Comparator := icmp) e.1 k <= 0.
Proof.
  intros Hj He. destruct (idx_lookup j k h Hj) as (f & Hf & -> & ->). rewrite (block_of_file j f Hf) in He.
  destruct (level_file j f Hf) as [(_ & Hb & _) _]. rewrite Forall_forall in Hb. by apply Hb.
Qed.

Lemma level_separates j j' k k' h h' e : idx !! j = Some (k, h) -> idx !! j' = Some (k', h') -> (j < j')%nat -> e ∈ block_of fs h' ->
  Compare (Comparator := icmp) k e.1 < 0.
Proof.
  intros Hj Hj' Hlt He. destruct (idx_lookup j k h Hj) as (f & Hf & -> & ->). destruct (idx_lookup j' k' h' Hj') as (g & Hg & -> & ->).
  rewrite (block_of_file j' g Hg) in He. destruct (level_file j' g Hg) as [(_ & Hb & _) _]. rewrite Forall_forall in Hb. destruct (Hb e He) as (_ & Hse & _).
  apply (tc_lt_le_trans (Compare (Comparator := icmp)) _ (smallest g)); [|exact Hse]. exact (disjoint_largest user fs j j' f g (lo_disjoint _ Hfs) Hf Hg Hlt).
Qed.

Lemma level_entries : all_entries idx (block_of fs) = concat (map contents fs).
Proof.
  unfold all_entries, blocks. f_equal. rewrite map_map. apply map_ext_in. intros f Hf. apply list_elem_of_In, list_elem_of_lookup in Hf as [j Hf].
  exact (block_of_file j f Hf).
Qed.

Lemma level_sorted : sorted (concat (map contents fs)).
Proof.
  apply sorted_concat.
  - apply Forall_forall. intros l Hl. change (map contents fs) with (contents <$> fs) in Hl. apply list_elem_of_fmap_1 in Hl as (f & -> & Hf).
    apply list_elem_of_lookup in Hf as [j Hf]. by destruct (level_file j f Hf) as [[Hs _] _].
  - intros i j li lj x y Hi Hj Hlt Hx Hy. change (map contents fs) with (contents <$> fs) in Hi, Hj.
    apply list_lookup_fmap_Some in Hi as (f & -> & Hf). apply list_lookup_fmap_Some in Hj as (g & -> & Hg).
    assert (Hi : idx !! i = Some (largest f, handle f)) by (change idx with (file_entry <$> fs); by rewrite list_lookup_fmap, Hf).
    assert (Hj : idx !! j = Some (largest g, handle g)) by (change idx with (file_entry <$> fs); by rewrite list_lookup_fmap, Hg).
    apply (tc_le_lt_trans (Compare (Comparator := icmp)) _ (largest f)).
    + apply (level_bound i _ (handle f)); [done|]. by rewrite (block_of_file i f Hf).
    + apply (level_separates i j _ (largest g) (handle f) (handle g)); [done|done|done|]. by rewrite (block_of_file j g Hg).
Qed.
End Fixed.

#[local] Existing Instance LevelFileNumIterator_iterator.

Definition level_iterator_ok (fs : list FileMetaData) (Hfs : level_ok fs) : @IteratorOk (LevelIterator J) (LevelIterator_iterator user fuel) icmp :=
  TwoLevel_ok (I := LevelFileNumIterator) (Iterator0 := LevelFileNumIterator_iterator user) (IteratorOk0 := LevelFileNumIterator_ok user) GetFileIterator fuel (map file_entry fs) (block_of fs) (level_block fs Hfs) (level_bound fs Hfs) (level_separates fs Hfs)
    ltac:(rewrite length_map; exact (lo_fuel _ Hfs)).

#[export] Instance LevelIterator_ok : @IteratorOk (LevelIterator J) (LevelIterator_iterator user fuel) icmp := family_ok level_ok level_iterator_ok.

Lemma NewConcatenatingIterator_at v level : level_ok (level_files v level) ->
  @at_pos (LevelIterator J) (LevelIterator_iterator user fuel) icmp LevelIterator_ok (NewConcatenatingIterator user v level) (concat (map contents (level_files v level))) (length (concat (map contents (level_files v level)))).
Proof.
  intros Hl. exists (level_files v level), Hl. rewrite <- (level_entries _ Hl).
  apply (NewTwoLevelIterator_at (I := LevelFileNumIterator) (Iterator0 := LevelFileNumIterator_iterator user) (IteratorOk0 := LevelFileNumIterator_ok user) _ _ _ (length (level_files v level))). split; [apply (lo_disjoint _ Hl)|]. by split.
Qed.
End Concatenating.

(** * Sorting entries *)

Section Sorting.
Context {cmp : Comparator} {cmp_ok : ComparatorOk}.
#[local] Abbreviation sorted := (StronglySorted (entry_lt (cmp := cmp))).

Definition apart (a b : bytes * bytes) : Prop := Compare a.1 b.1 <> 0.

Lemma keys_apart_sym a b : apart a b -> apart b a.
Proof. intros Hab Hba. by apply Hab, cmp_eq_sym. Qed.

Lemma insert_sorted e l : sorted l -> Forall (apart e) l -> exists l', sorted l' /\ forall x, x ∈ l' <-> x = e \/ x ∈ l.
Proof.
  induction 1 as [|y l Hl IH Hy]; intros Ha.
  - exists [e]. split; [repeat constructor|]. intros x. by rewrite elem_of_cons.
  - apply Forall_cons in Ha as [Hey Ha]. destruct (Z.lt_trichotomy (Compare e.1 y.1) 0) as [Hlt|[Heq|Hgt]]; [|by destruct Hey|].
    + exists (e :: y :: l). split; [|intros x; by rewrite elem_of_cons]. constructor; [by constructor|]. constructor; [done|].
      eapply Forall_impl; [exact Hy|]. intros z Hz. exact (tc_lt_trans Compare e.1 y.1 z.1 Hlt Hz).
    + destruct (IH Ha) as (l' & Hs & Hin). exists (y :: l'). split; [|intros x; rewrite !elem_of_cons, Hin; tauto].
      constructor; [done|]. rewrite Forall_forall in Hy |- *. intros x Hx. apply Hin in Hx as [->|Hx]; [|by apply Hy].
      by apply (tc_antisym y.1 e.1).
Qed.

Lemma sorted_exists xs : StronglySorted apart xs -> exists l, sorted l /\ forall x, x ∈ l <-> x ∈ xs.
Proof.
  induction 1 as [|e xs _ (l & Hs & Hin) Ha].
  - exists []. by split; [constructor|].
  - destruct (insert_sorted e l Hs) as (l' & Hs' & Hin').
    + rewrite Forall_forall in Ha |- *. intros x Hx. by apply Ha, Hin.
    + exists l'. split; [done|]. intros x. by rewrite Hin', Hin, elem_of_cons.
Qed.

Lemma sorted_apart l : sorted l -> StronglySorted apart l.
Proof.
  induction 1 as [|e l Hl IH He]; constructor; [done|]. eapply Forall_impl; [exact He|]. unfold entry_lt, apart. simpl. lia.
Qed.

(** Sorted lists that share no key have a merge. *)
Lemma merges_exists (ls : list (list (bytes * bytes))) : Forall sorted ls ->
  (forall j k lj lk a b, ls !! j = Some lj -> ls !! k = Some lk -> j <> k -> a ∈ lj -> b ∈ lk -> apart a b) ->
  (forall lj e, lj ∈ ls -> e ∈ lj -> blen e.1 < 2 ^ 32) -> exists l, merges ls l.
Proof.
  intros Hs Ha Hb. destruct (sorted_exists (concat ls)) as (l & Hl & Hin).
  - apply sorted_concat; [eapply Forall_impl; [exact Hs|intros lj; apply sorted_apart]|]. intros i j li lj x y Hi Hj Hlt. apply (Ha i j); [done|done|lia].
  - assert (He : forall e, e ∈ l <-> exists j lj, ls !! j = Some lj /\ e ∈ lj).
    { intros e. rewrite Hin, list_elem_of_In, in_concat. split.
      - intros (lj & Hj & He). apply list_elem_of_In, list_elem_of_lookup in Hj as [j Hj]. apply list_elem_of_In in He. eauto.
      - intros (j & lj & Hj & He). exists lj. split; [by apply list_elem_of_In, list_elem_of_lookup_2 with j|by apply list_elem_of_In]. }
    exists l. split; [done|done|done|exact Ha|]. intros e (j & lj & Hj & Hx)%He. by apply (Hb lj); [apply list_elem_of_lookup_2 with j|].
Qed.
End Sorting.

(** * The user's view of sorted entries *)

Section UserView.
Context (user : Comparator) `{Huser : !@ComparatorOk user} (snap : Z) (Hsnap : 0 <= snap <= kMaxSequenceNumber).
#[local] Abbreviation ucmp := (@Compare user).
#[local] Abbreviation shown := (shown user snap).
#[local] Abbreviation vis := (vis snap).
#[local] Abbreviation view := (view user snap).

Lemma view_inv b l x : x ∈ view b l -> exists i e, l !! i = Some e /\ shown (b ++ take i l) e = true /\ x = (ukey e, e.2).
Proof.
  revert b. induction l as [|e l IH]; intros b Hx; [by apply elem_of_nil in Hx|]. cbn [DbIterProofs.view] in Hx. apply elem_of_app in Hx as [Hx|Hx].
  - destruct (shown b e) eqn:Es; [|by apply elem_of_nil in Hx]. apply list_elem_of_singleton in Hx as ->. exists 0%nat, e. simpl. by rewrite app_nil_r.
  - destruct (IH _ Hx) as (i & e' & Hi & Hs & ->). exists (S i), e'. split; [done|]. split; [|done]. by rewrite <- app_assoc in Hs.
Qed.

Lemma shown_parts b e : shown b e = true -> vis e = true /\ is_value e = true /\ forall x, x ∈ b -> vis x = true -> ucmp (ukey x) (ukey e) <> 0.
Proof.
  unfold DbIterProofs.shown. rewrite !andb_true_iff, negb_true_iff. intros [[Hv Hval] Hh]. split; [done|]. split; [done|].
  intros x Hx Hvx Heq. unfold hidden in Hh. rewrite <- not_true_iff_false, existsb_exists in Hh. apply Hh. exists x.
  split; [by apply list_elem_of_In|]. by rewrite Hvx, Heq.
Qed.

Lemma view_sorted b l : StronglySorted (entry_lt (cmp := InternalKeyComparator user)) l -> StronglySorted (entry_lt (cmp := user)) (view b l).
Proof.
  intros Hs. revert b. induction Hs as [|e l Hs IH He]; intros b; [constructor|]. cbn [DbIterProofs.view].
  destruct (shown b e) eqn:Es; [|apply IH]. cbn [app]. constructor; [apply IH|]. apply Forall_forall. intros x Hx.
  apply view_inv in Hx as (i & e' & Hi & Hsh & ->). apply shown_parts in Hsh as (_ & _ & Hno). apply shown_parts in Es as (Hv & _ & _).
  rewrite Forall_forall in He. specialize (He e' (list_elem_of_lookup_2 _ _ _ Hi)). unfold entry_lt in *. cbn [Compare InternalKeyComparator] in He.
  apply (icmp_lt user) in He. fold (ukey e) in He. fold (ukey e') in He. specialize (Hno e ltac:(rewrite !elem_of_app, list_elem_of_singleton; tauto) Hv). cbn [fst]. lia.
Qed.

(** Not newer than the snapshot: at or after the key that a read looks up. *)
Lemma vis_seek e u : is_Some (ParseInternalKey e.1) -> ucmp (ukey e) u = 0 ->
  vis e = true <-> InternalKey_Compare user (mkInternalKey u snap kTypeValue) e.1 <= 0.
Proof.
  intros [k Ek] Hu. unfold DbIterProofs.vis. rewrite Ek, Z.leb_le, (icmp_le user), ExtractUserKey_mk, ExtractTag_mk by done. fold (ukey e).
  pose proof (ParseInternalKey_parts _ _ Ek) as [_ ->]. rewrite PackSequenceAndType_sum by done. pose proof (vt_num_range (type k)). apply cmp_eq_sym in Hu.
  change (vt_num kTypeValue) with 1. lia.
Qed.

Section Sorted.
Context (l : list (bytes * bytes)) (Hs : StronglySorted (entry_lt (cmp := InternalKeyComparator user)) l).
Context (Hparse : Forall (fun e => is_Some (ParseInternalKey e.1)) l).

(** The newest visible entry of a user key. *)
Definition newest_of (u : bytes) (e : bytes * bytes) : Prop :=
  (e ∈ l /\ ucmp (ukey e) u = 0 /\ vis e = true) /\
  forall x, x ∈ l -> ucmp (ukey x) u = 0 -> vis x = true -> ExtractTag x.1 <= ExtractTag e.1.

Lemma newest_of_unique u e e' : newest_of u e -> newest_of u e' -> e = e'.
Proof.
  intros ((Hl & Hu & Hv) & Hb) ((Hl' & Hu' & Hv') & Hb'). apply (sorted_eq (cmp := InternalKeyComparator user) l); [done|done|done|].
  cbn [Compare InternalKeyComparator]. apply (icmp_eq user). specialize (Hb e' Hl' Hu' Hv'). specialize (Hb' e Hl Hu Hv).
  split; [by apply (cmp_eq_trans _ u), cmp_eq_sym|lia].
Qed.

Lemma user_view_newest u v : (exists u', ucmp u' u = 0 /\ (u', v) ∈ user_view user snap l) <-> exists e, newest_of u e /\ is_value e = true /\ e.2 = v.
Proof.
  split.
  - intros (u' & Hu & Hin). apply view_inv in Hin as (i & e & Hi & Hsh & E). injection E as -> ->. apply shown_parts in Hsh as (Hv & Hval & Hno).
    exists e. split; [|done]. split; [split; [by apply list_elem_of_lookup_2 with i|done]|]. intros x Hx Hxu Hxv.
    apply list_elem_of_lookup in Hx as [j Hj]. assert (Heq : ucmp (ukey x) (ukey e) = 0) by by apply (cmp_eq_trans _ u), cmp_eq_sym.
    destruct (lt_eq_lt_dec j i) as [[Hlt| ->]|Hgt].
    + destruct (Hno x); [|done|done]. apply list_elem_of_lookup. exists j. cbn [app]. by rewrite lookup_take_lt.
    + rewrite Hi in Hj. injection Hj as ->. lia.
    + pose proof (sorted_lookup _ l i j e x Hs Hi Hj Hgt) as Hlt. unfold entry_lt in Hlt. cbn [Compare InternalKeyComparator] in Hlt.
      apply (icmp_lt user) in Hlt. fold (ukey e) in Hlt. fold (ukey x) in Hlt. apply cmp_eq_sym in Heq. lia.
  - intros (e & ((Hl & Hu & Hv) & Hb) & Hval & <-). exists (ukey e). split; [done|]. apply list_elem_of_lookup in Hl as [i Hi].
    apply list_elem_of_lookup. exists (cnt user snap l i). apply cnt_lookup; [done|]. unfold DbIterProofs.shown. rewrite Hv, Hval. cbn [andb]. apply negb_true_iff.
    destruct (hidden user snap (take i l) e) eqn:Eh; [|done]. apply existsb_exists in Eh as (x & Hx & Hc). apply andb_true_iff in Hc as [Hxv Hc]. apply Z.eqb_eq in Hc.
    apply list_elem_of_In, list_elem_of_lookup in Hx as [j Hj]. apply lookup_take_Some in Hj as [Hj Hlt].
    pose proof (sorted_lookup _ l j i x e Hs Hj Hi Hlt) as Hxe. unfold entry_lt in Hxe. cbn [Compare InternalKeyComparator] in Hxe.
    apply (icmp_lt user) in Hxe. fold (ukey e) in Hxe. fold (ukey x) in Hxe.
    specialize (Hb x (list_elem_of_lookup_2 _ _ _ Hj) ltac:(by apply (cmp_eq_trans _ (ukey e))) Hxv). lia.
Qed.
End Sorted.
End UserView.

(** * The parts of the database *)

(** What one iterator of the merge is over. *)
Inductive part := PMem | PImm | PFile (f : FileMetaData) | PLevel (level : nat).

#[local] Instance PFile_inj : Inj eq eq PFile.
Proof. by intros f g [= ->]. Qed.
#[local] Instance PLevel_inj : Inj eq eq PLevel.
Proof. by intros n m [= ->]. Qed.

Section Parts.
Context {F : Type} (user : Comparator) `{Huser : !@ComparatorOk user} {HR : TableReader} {HT : TableReaderOk user}.
Context {J : Type} {HJ : Iterator J} {HTI : TableIterators J} {OJ : IteratorOk J (InternalKeyComparator user)} (fuel : nat).
#[local] Existing Instance icmp.
#[local] Abbreviation icmp := (icmp user).
#[local] Abbreviation ucmp := (@Compare user).
#[local] Abbreviation contents := (VersionGetProofs.contents user).
#[local] Abbreviation sorted := (StronglySorted (entry_lt (cmp := icmp))).

#[export] Instance Child_ok : @IteratorOk (Child J) (Child_iterator user fuel) icmp :=
  sum_iterator_ok (OI := mem_iterator_ok user) (OJ := sum_iterator_ok (OJ := LevelIterator_ok user fuel)).

(** The tables can be opened, and their entries are of sizes that fit. *)
Record tables_ok (v : Version) : Prop := {
  to_opens : forall level f, f ∈ level_files v level -> opens user f;
  to_numbers : forall level, NoDup (map number (level_files v level));
  to_sizes : forall level f e, f ∈ level_files v level -> e ∈ contents f -> blen e.1 < 2 ^ 32 /\ blen e.2 < 2 ^ 32;
}.

Context (db : DB F) (cur imm : list MemTable.Update) (Hview : db_view user db cur imm).
#[local] Abbreviation v := (current (db_versions db)).
Context (Htab : tables_ok v) (Hfuel : forall level, (length (level_files v level) < fuel)%nat).
(** The memtables, and their entries in order. *)
Context (mem mem' : MemTable) (lm li : list (bytes * bytes)).
Context (Elm : exists xs, xs ≡ₚ cur /\ lm = map up_kv xs) (Eli : exists xs, xs ≡ₚ imm /\ li = map up_kv xs).
Context (Slm : sorted lm) (Sli : sorted li).
Context (Hmem : mem_at user (MemTable_NewIterator mem) lm (length lm)) (Himm : db_imm db <> None -> mem_at user (MemTable_NewIterator mem') li (length li)).

Definition file_parts : list part :=
  map PFile (level_files v 0) ++ map PLevel (List.filter (fun level => match level_files v level with [] => false | _ => true end) (seq 1 (Z.to_nat kNumLevels - 1))).
Definition parts : list part := PMem :: match db_imm db with Some _ => [PImm] | None => [] end ++ file_parts.

Definition child_of (p : part) : Child J :=
  match p with
  | PMem => inl (MemTable_NewIterator mem)
  | PImm => inl (MemTable_NewIterator mem')
  | PFile f => inr (inl (table_NewIterator (number f) (file_size f)))
  | PLevel level => inr (inr (NewConcatenatingIterator user v level))
  end.
Definition list_of (p : part) : list (bytes * bytes) :=
  match p with PMem => lm | PImm => li | PFile f => contents f | PLevel level => concat (map contents (level_files v level)) end.

Lemma AddIterators_parts : AddIterators user v = map child_of file_parts.
Proof.
  unfold AddIterators, file_parts. rewrite map_app, !map_map. f_equal. induction (seq 1 _) as [|level levels IH]; [done|].
  cbn [map concat List.filter]. rewrite IH. by destruct (level_files v level).
Qed.

Lemma part_cases p : p ∈ parts -> match p with
  | PMem => True | PImm => db_imm db <> None | PFile f => f ∈ level_files v 0 | PLevel level => (0 < level)%nat end.
Proof.
  unfold parts, file_parts. rewrite elem_of_cons, !elem_of_app. intros [->|[Hp|[Hp|Hp]]]; [done| | |].
  - destruct (db_imm db); [|by apply elem_of_nil in Hp]. by apply list_elem_of_singleton in Hp as ->.
  - change (map PFile ?x) with (PFile <$> x) in Hp. by apply list_elem_of_fmap_1 in Hp as (g & -> & Hg).
  - change (map PLevel ?x) with (PLevel <$> x) in Hp. apply list_elem_of_fmap_1 in Hp as (g & -> & Hg).
    apply list_elem_of_In, filter_In in Hg as [Hg _]. apply in_seq in Hg. lia.
Qed.

(** An entry of a memtable, or of a file. *)
Definition mem_entry (p : part) (e : bytes * bytes) : Prop :=
  match p with PMem => exists x, x ∈ cur /\ e = up_kv x | PImm => exists x, x ∈ imm /\ e = up_kv x | _ => False end.
Definition file_entry_at (p : part) (level : nat) (f : FileMetaData) : Prop :=
  match p with PFile g => level = 0%nat /\ f = g | PLevel n => level = n /\ (0 < n)%nat | _ => False end.

Lemma part_entry p e : p ∈ parts -> e ∈ list_of p ->
  mem_entry p e \/ exists level f, file_entry_at p level f /\ f ∈ level_files v level /\ e ∈ contents f.
Proof.
  intros Hp%part_cases He. destruct p as [| |f|level]; cbn [list_of] in He.
  - left. destruct Elm as (xs & Hxs & ->). change (map up_kv xs) with (up_kv <$> xs) in He. apply list_elem_of_fmap_1 in He as (x & -> & Hx). exists x. by rewrite <- Hxs.
  - left. destruct Eli as (xs & Hxs & ->). change (map up_kv xs) with (up_kv <$> xs) in He. apply list_elem_of_fmap_1 in He as (x & -> & Hx). exists x. by rewrite <- Hxs.
  - right. by exists 0%nat, f.
  - right.
    rewrite list_elem_of_In in He. apply in_concat in He as (c & Hc & He). apply in_map_iff in Hc as (f & <- & Hf).
    exists level, f. rewrite !list_elem_of_In. done.
Qed.

Lemma level_nonzero level f : f ∈ level_files v level -> (level < Z.to_nat kNumLevels)%nat.
Proof.
  intros Hf. pose proof (lsm_levels _ _ (dv_version _ _ _ _ Hview)) as Hl. destruct (decide (level < length (files_ v))%nat) as [|Hge]; [lia|].
  unfold level_files in Hf. rewrite nth_overflow in Hf by lia. by apply elem_of_nil in Hf.
Qed.

Lemma in_db_parts e : in_db user db cur imm e <-> exists p, p ∈ parts /\ e ∈ list_of p.
Proof.
  split.
  - intros [(x & Hx & ->)|(level & f & Hf & He)].
    + apply elem_of_app in Hx as [Hx|Hx].
      * exists PImm. destruct Eli as (xs & Hxs & E). split; [|cbn [list_of]; rewrite E; apply (list_elem_of_fmap_2 up_kv); by rewrite Hxs].
        unfold parts. destruct (db_imm db) eqn:Ei; [rewrite elem_of_cons; right; apply elem_of_app; left; by apply list_elem_of_singleton|]. pose proof (dv_imm _ _ _ _ Hview) as Hi. rewrite Ei in Hi. rewrite Hi in Hx. by apply elem_of_nil in Hx.
      * exists PMem. destruct Elm as (xs & Hxs & E). split; [by left|]. cbn [list_of]. rewrite E. apply (list_elem_of_fmap_2 up_kv). by rewrite Hxs.
    + destruct (decide (level = 0%nat)) as [->|Hne].
      * exists (PFile f). split; [|done]. right. apply elem_of_app. right. apply elem_of_app. left. by apply (list_elem_of_fmap_2 PFile).
      * exists (PLevel level). split.
        -- right. apply elem_of_app. right. apply elem_of_app. right. apply (list_elem_of_fmap_2 PLevel). apply list_elem_of_In, filter_In.
           split; [apply in_seq; pose proof (level_nonzero level f Hf); lia|]. destruct (level_files v level); [by apply elem_of_nil in Hf|done].
        -- cbn [list_of]. apply list_elem_of_In, in_concat. exists (contents f). rewrite <- !list_elem_of_In. split; [|done]. by apply (list_elem_of_fmap_2 contents).
  - intros (p & Hp & He). destruct (part_entry p e Hp He) as [Hm|(level & f & _ & Hf & Hc)]; [|by right; exists level, f].
    left. destruct p; cbn [mem_entry] in Hm; [| |done|done]; destruct Hm as (x & Hx & ->); exists x; rewrite elem_of_app; tauto.
Qed.

Lemma level_is_ok level : (0 < level)%nat -> level_ok user fuel (level_files v level).
Proof.
  intros Hl. pose proof (dv_version _ _ _ _ Hview) as Hv. split.
  - by apply (lsm_version _ _ Hv).
  - apply Forall_forall. intros f Hf. by apply (lsm_contents _ _ Hv level).
  - apply Forall_forall. intros f Hf. by apply (to_opens _ Htab level).
  - apply (to_numbers _ Htab).
  - apply Hfuel.
Qed.

Lemma part_sorted p : p ∈ parts -> sorted (list_of p).
Proof.
  intros Hp%part_cases. destruct p as [| |f|level]; cbn [list_of]; [done|done| |].
  - by destruct (lsm_contents _ _ (dv_version _ _ _ _ Hview) 0 f Hp) as [Hs _].
  - exact (level_sorted user fuel _ (level_is_ok level Hp)).
Qed.

Lemma part_at p : p ∈ parts -> @at_pos (Child J) (Child_iterator user fuel) icmp Child_ok (child_of p) (list_of p) (length (list_of p)).
Proof.
  intros Hp%part_cases. destruct p as [| |f|level]; cbn [list_of child_of].
  - exact Hmem.
  - exact (Himm Hp).
  - by destruct (to_opens _ Htab 0 f Hp) as (_ & _ & Ha).
  - exact (NewConcatenatingIterator_at user fuel v level (level_is_ok level Hp)).
Qed.

(** Entries with the same internal key have the same user key and tag. *)
Lemma apart_tags (a b : bytes * bytes) : (ucmp (ExtractUserKey a.1) (ExtractUserKey b.1) = 0 -> ExtractTag b.1 < ExtractTag a.1) -> apart (cmp := icmp) a b.
Proof. intros Hlt E. apply (icmp_eq user) in E as [Hu Ht]. specialize (Hlt Hu). lia. Qed.

Lemma mem_file_apart p q a b : p ∈ parts -> q ∈ parts -> mem_entry p a -> (exists level f, file_entry_at q level f /\ f ∈ level_files v level /\ b ∈ contents f) -> apart (cmp := icmp) a b.
Proof.
  intros Hp Hq Ha (level & f & _ & Hf & Hb). assert (Hx : exists x, x ∈ imm ++ cur /\ a = up_kv x).
  { destruct p; cbn [mem_entry] in Ha; [| |done|done]; destruct Ha as (x & Hx & ->); exists x; rewrite elem_of_app; tauto. }
  destruct Hx as (x & Hx & ->). pose proof (view_small user db cur imm Hview x Hx) as Hsx. apply apart_tags. intros Hu.
  unfold up_kv in Hu |- *. cbn [fst] in *. rewrite up_ikey_tag by done. rewrite up_ikey_user in Hu.
  apply (dv_older _ _ _ _ Hview x level f b); [done|done|done|by apply cmp_eq_sym].
Qed.

Lemma mem_mem_apart p q a b : p <> q -> mem_entry p a -> mem_entry q b -> apart (cmp := icmp) a b.
Proof.
  assert (Hone : forall x y, x ∈ cur -> y ∈ imm -> apart (cmp := icmp) (up_kv x) (up_kv y)).
  { intros x y Hx Hy. assert (Hsx : up_small x) by (apply (view_small user db cur imm Hview); rewrite elem_of_app; tauto).
    assert (Hsy : up_small y) by (apply (view_small user db cur imm Hview); rewrite elem_of_app; tauto).
    apply apart_tags. intros Hu. unfold up_kv in Hu |- *. cbn [fst] in *. rewrite !up_ikey_tag by done. rewrite !up_ikey_user in Hu. by apply (dv_newer _ _ _ _ Hview). }
  intros Hne Ha Hb. destruct p, q; cbn [mem_entry] in Ha, Hb; try done; destruct Ha as (x & Hx & ->), Hb as (y & Hy & ->); [by apply Hone|].
  apply (keys_apart_sym (cmp_ok := InternalKeyComparator_ok user)). by apply Hone.
Qed.

Lemma file_file_apart p q a b : p ∈ parts -> q ∈ parts -> p <> q -> (exists level f, file_entry_at p level f /\ f ∈ level_files v level /\ a ∈ contents f) ->
  (exists level f, file_entry_at q level f /\ f ∈ level_files v level /\ b ∈ contents f) -> apart (cmp := icmp) a b.
Proof.
  intros Hp Hq Hne (n & f & Ef & Hf & Ha) (m & g & Eg & Hg & Hb). pose proof (dv_version _ _ _ _ Hview) as Hv.
  assert (Hord : newer_place (n, f) (m, g) \/ newer_place (m, g) (n, f)).
  { unfold newer_place. cbn [fst snd]. destruct (lt_eq_lt_dec n m) as [[Hlt|Heq]|Hgt]; [by left; left| |by right; left].
    destruct p as [| |f'|n'], q as [| |g'|m']; cbn [file_entry_at] in *; try done; destruct Ef as [En Ef], Eg as [Em Eg]; subst; try lia; [|done].
    assert (Hnn : number f' <> number g').
    { intros E. apply Hne. f_equal. apply list_elem_of_lookup in Hf as [i Hi], Hg as [j Hj].
      assert (i = j) as <-; [|congruence]. apply (NoDup_lookup _ i j (number f') (to_numbers _ Htab 0)); change (map number ?x) with (number <$> x);
        rewrite list_lookup_fmap; [by rewrite Hi|by rewrite Hj, E]. }
    destruct (Z.lt_total (number f') (number g')) as [?|[?|?]]; [right|done|left]; right; done. }
  destruct Hord as [Ho|Ho].
  - apply apart_tags. exact (lsm_newer _ _ Hv (n, f) (m, g) a b Hf Hg Ho Ha Hb).
  - apply (keys_apart_sym (cmp_ok := InternalKeyComparator_ok user)). apply apart_tags. exact (lsm_newer _ _ Hv (m, g) (n, f) b a Hg Hf Ho Hb Ha).
Qed.

Lemma part_apart p q a b : p ∈ parts -> q ∈ parts -> p <> q -> a ∈ list_of p -> b ∈ list_of q -> apart (cmp := icmp) a b.
Proof.
  intros Hp Hq Hne Ha Hb. destruct (part_entry p a Hp Ha) as [Ma|Fa], (part_entry q b Hq Hb) as [Mb|Fb].
  - by apply (mem_mem_apart p q).
  - by apply (mem_file_apart p q).
  - apply (keys_apart_sym (cmp_ok := InternalKeyComparator_ok user)). by apply (mem_file_apart q p).
  - by apply (file_file_apart p q).
Qed.

Lemma parts_nodup : NoDup parts.
Proof.
  assert (Hf : NoDup file_parts).
  { unfold file_parts. apply NoDup_app. split; [|split].
    - apply (NoDup_fmap_2 PFile). pose proof (to_numbers _ Htab 0) as Hn. by apply NoDup_fmap_1 in Hn.
    - intros p Hp Hq. change (map PFile ?x) with (PFile <$> x) in Hp. change (map PLevel ?x) with (PLevel <$> x) in Hq.
      apply list_elem_of_fmap_1 in Hp as (f & -> & _). by apply list_elem_of_fmap_1 in Hq as (n & E & _).
    - apply (NoDup_fmap_2 PLevel). apply NoDup_ListNoDup, List.NoDup_filter, seq_NoDup. }
  assert (Hno : forall p, p ∈ file_parts -> p <> PMem /\ p <> PImm).
  { intros p Hp. unfold file_parts in Hp. apply elem_of_app in Hp as [Hp|Hp]; apply (list_elem_of_fmap_1) in Hp as (x & -> & _); done. }
  unfold parts. apply NoDup_cons. split.
  - rewrite elem_of_app. intros [Hp|Hp]; [|by destruct (Hno PMem Hp)]. destruct (db_imm db); [|by apply elem_of_nil in Hp]. by apply list_elem_of_singleton in Hp.
  - apply NoDup_app. split; [destruct (db_imm db); [apply NoDup_singleton|constructor]|]. split; [|done].
    intros p Hp Hq. destruct (Hno p Hq) as [_ Hn]. destruct (db_imm db); [|by apply elem_of_nil in Hp]. by apply list_elem_of_singleton in Hp.
Qed.

(** The entries of the parts have well-formed keys and sizes that fit. *)
Lemma part_fits p e : p ∈ parts -> e ∈ list_of p -> is_Some (ParseInternalKey e.1) /\ blen e.1 < 2 ^ 32 /\ blen e.2 < 2 ^ 32.
Proof.
  intros Hp He. destruct (part_entry p e Hp He) as [Hm|(level & f & _ & Hf & Hc)].
  - assert (Hx : exists x, x ∈ imm ++ cur /\ e = up_kv x).
    { destruct p; cbn [mem_entry] in Hm; [| |done|done]; destruct Hm as (x & Hx & ->); exists x; rewrite elem_of_app; tauto. }
    destruct Hx as (x & Hx & ->). destruct (view_small user db cur imm Hview x Hx) as (Hs & Hk & Hv). unfold up_kv. cbn [fst snd]. split; [|split; [|done]].
    + eexists. by apply (ParseInternalKey_Append (mkParsed (up_key x) (up_seq x) (up_type x))).
    + unfold up_ikey. by rewrite mkInternalKey_length.
  - destruct (lsm_contents _ _ (dv_version _ _ _ _ Hview) level f Hf) as (_ & Hb & _). rewrite Forall_forall in Hb. destruct (Hb e Hc) as (Hok & _).
    destruct (entry_parse e Hok) as (k & Ek & _). split; [by exists k|]. by apply (to_sizes _ Htab level f).
Qed.

Lemma merge_exists : exists l, merges (cmp := icmp) (map list_of parts) l /\ (forall e, e ∈ l <-> in_db user db cur imm e) /\
  Forall (fun e => is_Some (ParseInternalKey e.1)) l /\ Forall (fun e : bytes * bytes => blen e.1 + blen e.2 < 2 ^ 62) l.
Proof.
  destruct (merges_exists (cmp := icmp) (cmp_ok := InternalKeyComparator_ok user) (map list_of parts)) as [l Hl].
  - apply Forall_forall. intros lj Hj. apply (list_elem_of_fmap_1 list_of) in Hj as (p & -> & Hp). by apply part_sorted.
  - intros j k lj lk a b Hj Hk Hne Ha Hb. change (map list_of parts) with (list_of <$> parts) in Hj, Hk.
    apply list_lookup_fmap_Some in Hj as (p & -> & Hp), Hk as (q & -> & Hq). apply (part_apart p q); [by apply list_elem_of_lookup_2 with j|by apply list_elem_of_lookup_2 with k| |done|done].
    intros ->. apply Hne. by apply (NoDup_lookup parts j k q parts_nodup).
  - intros lj e Hj He. apply (list_elem_of_fmap_1 list_of) in Hj as (p & -> & Hp). by apply (part_fits p).
  - assert (Hin : forall e, e ∈ l <-> exists p, p ∈ parts /\ e ∈ list_of p).
    { intros e. rewrite (merges_elem _ _ Hl e). split.
      - intros (j & lj & Hj & He). change (map list_of parts) with (list_of <$> parts) in Hj. apply list_lookup_fmap_Some in Hj as (p & -> & Hp).
        exists p. split; [by apply list_elem_of_lookup_2 with j|done].
      - intros (p & Hp & He). apply list_elem_of_lookup in Hp as [j Hp]. exists j, (list_of p). split; [|done].
        change (map list_of parts) with (list_of <$> parts). by rewrite list_lookup_fmap, Hp. }
    exists l. split; [done|]. split; [intros e; by rewrite Hin, in_db_parts|].
    split; apply Forall_forall; intros e (p & Hp & He)%Hin; destruct (part_fits p e Hp He) as (Hs & Hk & Hv); [done|lia].
Qed.

(** The merge of the parts, as [NewInternalIterator] makes it. *)
Lemma internal_iterator_at l : merges (cmp := icmp) (map list_of parts) l -> exists i,
  @at_pos (Merged (Child J)) (Internal_iterator user fuel) icmp (Merged_ok (IteratorOk0 := Child_ok))
    (NewMergingIterator (Iterator0 := Child_iterator user fuel) (map child_of parts)) l i.
Proof.
  intros Hl. eexists. apply (NewMergingIterator_at (Iterator0 := Child_iterator user fuel) (IteratorOk0 := Child_ok) _ (map list_of parts) l
    (fun j => match parts !! j with Some p => length (list_of p) | None => 0%nat end)); [exact Hl|by rewrite !length_map|].
  intros j it lj Hit Hj. change (map ?f parts) with (f <$> parts) in Hit, Hj. apply list_lookup_fmap_Some in Hit as (p & -> & Hp).
  rewrite list_lookup_fmap, Hp in Hj. injection Hj as <-. rewrite Hp. apply part_at. by apply list_elem_of_lookup_2 with j.
Qed.
End Parts.

(** * Properties *)

(** The newest visible entry of the database is that of the sorted entries. *)
Lemma db_newest_list {F : Type} (user : Comparator) `{Huser : !@ComparatorOk user} {HR : TableReader} {HT : TableReaderOk user}
    (db : DB F) cur imm (l : list (bytes * bytes)) (u : bytes) (snap : Z) e : 0 <= snap <= kMaxSequenceNumber ->
  Forall (fun e => is_Some (ParseInternalKey e.1)) l -> (forall e, e ∈ l <-> in_db user db cur imm e) ->
  (db_newest user db cur imm u snap e <-> newest_of user snap l u e) /\ (db_visible user db cur imm u snap e <-> e ∈ l /\ @Compare user (ukey e) u = 0 /\ vis snap e = true).
Proof.
  intros Hs Hp Hin. rewrite Forall_forall in Hp.
  assert (Hvis : forall x, db_visible user db cur imm u snap x <-> x ∈ l /\ @Compare user (ukey x) u = 0 /\ vis snap x = true).
  { intros x. unfold db_visible. rewrite Hin. split; intros (Hx & Hc & Hv); (split; [done|]; split; [done|]); apply (vis_seek user snap Hs x u); try done; by apply Hp, Hin. }
  split; [|apply Hvis]. unfold db_newest, newest_of. rewrite Hvis. split; intros [Hx Hb]; (split; [done|]).
  - intros x Hx1 Hx2 Hx3. apply Hb, Hvis. done.
  - intros x Hx'. apply Hvis in Hx' as (Hx1 & Hx2 & Hx3). by apply Hb.
Qed.

Lemma outcome_value e value s stored : outcome e value = Some (s, stored) ->
  if ok s then is_value e = true /\ stored = e.2 else is_value e = false /\ s = NotFound [] [] /\ stored = value.
Proof. unfold outcome, is_value. destruct (ParseInternalKey e.1) as [k|]; [|done]. destruct (type k); intros [= <- <-]; done. Qed.

Lemma level_files_length v level : (length (level_files v level) <= length (concat (files_ v)))%nat.
Proof.
  unfold level_files. destruct (decide (level < length (files_ v))%nat) as [Hlt|Hge]; [|rewrite nth_overflow by lia; simpl; lia].
  revert level Hlt. induction (files_ v) as [|fs fss IH]; intros level Hlt; [simpl in Hlt; lia|]. cbn [concat]. rewrite length_app.
  destruct level as [|level]; cbn [nth]; [lia|]. specialize (IH level ltac:(simpl in Hlt; lia)). lia.
Qed.

(** The memtables of a view, with their entries in order. *)
Lemma view_memtable (user : Comparator) `{Huser : !@ComparatorOk user} om ups : mem_is user om ups -> Forall up_small ups -> distinct_updates user ups ->
  exists m l, om = Some m /\ (exists xs, xs ≡ₚ ups /\ l = map up_kv xs) /\ StronglySorted (entry_lt (cmp := icmp user)) l /\
    mem_at user (MemTable_NewIterator m) l (length l).
Proof.
  intros (m & t & -> & Et & Htab) Hs Hd. destruct (memtable_iterator_at user ups t m Hs Hd Et Htab) as (xs & Hxs & Hsort & Hat).
  exists m, (map up_kv xs). rewrite length_map. eauto 10.
Qed.

(** The sorted entries of the database, which the internal iterator walks. *)
Lemma internal_scan {F J : Type} (user : Comparator) `{Huser : !@ComparatorOk user} {HR : TableReader} {HT : TableReaderOk user}
    {HJ : Iterator J} {HTI : TableIterators J} {OJ : IteratorOk J (InternalKeyComparator user)}
    (db : DB F) cur imm seed_ : db_view user db cur imm -> tables_ok user (current (db_versions db)) ->
  exists (l : list (bytes * bytes)) n, (forall e, e ∈ l <-> in_db user db cur imm e) /\
    forall fuel, (n < fuel)%nat -> entries_ok user fuel l /\ exists it i,
      NewInternalIterator user fuel db seed_ = Some (it, vs_last_sequence (db_versions db), u32 (seed_ + 1), ref_all db) /\
      @at_pos (Merged (Child J)) (Internal_iterator user fuel) (icmp user) (Merged_ok (IteratorOk0 := Child_ok user fuel)) it l i.
Proof.
  intros Hview Htab. pose proof (dv_small _ _ _ _ Hview) as Hs. apply Forall_app in Hs as [Hsi Hsc].
  destruct (view_memtable user _ _ (dv_mem _ _ _ _ Hview) Hsc (dv_cur _ _ _ _ Hview)) as (m & lm & Em & Elm & Slm & Am).
  assert (Hi : exists m' li, (exists xs, xs ≡ₚ imm /\ li = map up_kv xs) /\ StronglySorted (entry_lt (cmp := icmp user)) li /\
    (db_imm db <> None -> mem_at user (MemTable_NewIterator m') li (length li)) /\ (match db_imm db with Some om => om = Some m' | None => True end)).
  { pose proof (dv_imm _ _ _ _ Hview) as Hi. destruct (db_imm db) as [om|].
    - destruct (view_memtable user _ _ Hi Hsi (dv_imm_distinct _ _ _ _ Hview)) as (m' & li & -> & Eli & Sli & Ai). by exists m', li.
    - rewrite Hi. exists m, []. split; [by exists []|]. by split; [constructor|]. }
  destruct Hi as (m' & li & Eli & Sli & Ai & Em'). set (N := length (concat (files_ (current (db_versions db))))).
  assert (HN : forall fuel, (N < fuel)%nat -> forall level, (length (level_files (current (db_versions db)) level) < fuel)%nat).
  { intros fuel Hf level. pose proof (level_files_length (current (db_versions db)) level). fold N in H. lia. }
  destruct (merge_exists user (S N) db cur imm Hview Htab (HN (S N) ltac:(lia)) m m' lm li Elm Eli Slm Sli Am Ai) as (l & Hm & Hin & Hp & Hsz).
  exists l, (N + length l)%nat. split; [exact Hin|]. intros fuel Hf. split.
  - split; [exact (merges_sorted _ _ Hm)|done|done|lia].
  - destruct (internal_iterator_at user fuel db cur imm Hview Htab (HN fuel ltac:(lia)) m m' lm li Am Ai l Hm) as [i Hat].
    eexists _, i. split; [|exact Hat]. unfold NewInternalIterator. rewrite Em. cbn [mbind option_bind]. unfold parts. cbn [map child_of].
    rewrite map_app, <- AddIterators_parts. destruct (db_imm db) as [om|]; [|done]. by rewrite Em'.
Qed.

(** C10: a scan shows what reads find.  The iterator that [NewIterator] makes over
    the memtables and the files, at a snapshot or at the last sequence number, walks
    a list of user keys in strict order, with turns anywhere and without ever being
    stuck; a key is in the list exactly if [Get] at the same snapshot finds it, and
    with the value that [Get] finds in the tree.  From mode 7 on [Get] goes on and
    reads that value as an address in the value log, which the iterator does not.
    In the modes other than 9, and for a table reader that meets [TableReaderOk]. *)
Theorem scan_agrees_with_get {F V T J : Type} `{!WritableFile V} `{!RandomAccessFile V} `{!Arith T}
    (user : Comparator) (Huser : @ComparatorOk user) {HR : TableReader} {HT : TableReaderOk user}
    {HJ : Iterator J} {HTI : TableIterators J} {OJ : IteratorOk J (InternalKeyComparator user)} (MOD : Z)
    (db : DB F) (cur imm : list MemTable.Update) (models : list (LearnedIndexData T)) (vlog : @VLog V)
    (snapshot : option SnapshotImpl) (seed_ : Z)
    (Hmode : MOD <> 9) (Hview : db_view user db cur imm) (Htables : tables_ok user (current (db_versions db)))
    (Hlast : 0 <= vs_last_sequence (db_versions db) <= kMaxSequenceNumber)
    (Hsnap : forall s, snapshot = Some s -> 0 <= sequence_number_ s <= kMaxSequenceNumber) :
  let snap := match snapshot with Some s => sequence_number_ s | None => vs_last_sequence (db_versions db) end in
  exists (W : list (bytes * bytes)) (n : nat),
    StronglySorted (entry_lt (cmp := user)) W /\
    (forall fuel, (n < fuel)%nat -> exists d, NewIterator user fuel db seed_ snapshot = Some (d, snap, u32 (seed_ + 1), ref_all db) /\
       forall ops t, Forall op_fits ops -> list_trace user W (length W) ops = Some t ->
         iter_trace (H := DBIter_iterator (Iterator0 := Internal_iterator user fuel) user snap fuel) d ops = Some t) /\
    (forall u value, blen u + 8 < 2 ^ 32 -> exists s stored,
       DB_Get user MOD db models vlog snapshot u value = Some (s, if (7 <=? MOD) && ok s then get_value vlog stored else stored, models) /\
       if ok s then exists u', @Compare user u' u = 0 /\ (u', stored) ∈ W
       else s = NotFound [] [] /\ stored = value /\ forall u' w, (u', w) ∈ W -> @Compare user u' u <> 0).
Proof.
  intros snap. assert (Hs : 0 <= snap <= kMaxSequenceNumber) by (unfold snap; destruct snapshot; [by apply Hsnap|done]).
  destruct (internal_scan user db cur imm seed_ Hview Htables) as (l & n & Hin & Hit).
  destruct (Hit (S n) ltac:(lia)) as [[Hsort Hparse _ _] _]. exists (user_view user snap l), n. split; [by apply view_sorted|]. split.
  - intros fuel Hf. destruct (Hit fuel Hf) as (Hl & it & i & E & Hat). eexists. split; [unfold NewIterator; rewrite E; cbn [mbind option_bind]; reflexivity|].
    intros ops t Hops. apply (trace_ok user (user_view user snap l) (fun d p => db_at (IteratorOk0 := Merged_ok (IteratorOk0 := Child_ok user fuel)) user snap fuel d (user_view user snap l) p) op_fits).
    + intros d p. apply db_observe.
    + intros d p op q. by apply db_step_ok.
    + by apply (NewDBIterator_at (IteratorOk0 := Merged_ok (IteratorOk0 := Child_ok user fuel)) user snap fuel l it i).
    + exact Hops.
  - intros u value Hu. destruct (get_stored_spec user MOD db cur imm Hview u snap Hu Hs models value Hmode) as (s & stored & E & Hr).
    exists s, stored. split; [unfold DB_Get; fold snap; rewrite E; cbn [mbind option_bind]; by destruct ((7 <=? MOD) && ok s)|].
    destruct Hr as [(e & Hn & Ho)|(Hno & -> & ->)].
    + apply (db_newest_list user db cur imm l u snap e Hs Hparse Hin) in Hn. apply outcome_value in Ho. destruct (ok s).
      * destruct Ho as [Hval ->]. apply (user_view_newest user snap l Hsort). by exists e.
      * destruct Ho as (Hval & -> & ->). split; [done|]. split; [done|]. intros u' w Hw Hc.
        destruct (proj1 (user_view_newest user snap l Hsort u w)) as (e' & Hn' & Hval' & _); [by exists u'|].
        rewrite (newest_of_unique user snap l Hsort u e e' Hn Hn') in Hval. congruence.
    + cbn [ok]. split; [done|]. split; [done|]. intros u' w Hw Hc.
      destruct (proj1 (user_view_newest user snap l Hsort u w)) as (e' & [Hn' _] & _ & _); [by exists u'|].
      apply (Hno e'). by apply (db_newest_list user db cur imm l u snap e' Hs Hparse Hin).
Qed.

(** * Example: a newer value in the memtable over the two files of [get_version] *)

#[local] Instance scan_iterator : Iterator ListIter := ListIter_iterator (InternalKeyComparator BytewiseComparator).
#[local] Instance scan_tables : TableIterators ListIter := {|
  table_NewIterator n _ := let c := get_contents (newFileMetaData n 0 [] []) in mkListIter c (length c) |}.

Lemma scan_tables_ok : @tables_ok BytewiseComparator (list_reader BytewiseComparator get_contents) (list_reader_ok BytewiseComparator get_contents)
  ListIter scan_iterator scan_tables (ListIter_ok (InternalKeyComparator BytewiseComparator)) get_version.
Proof.
  split.
  - intros level f Hf. apply get_version_level in Hf as [(_ & _ & ->)|(_ & _ & ->)]; (split; [by vm_compute|]; split; [by vm_compute|]; split; [done|]; by vm_compute).
  - intros level. unfold level_files. destruct level as [|[|[|level]]]; cbn; try apply NoDup_singleton; constructor.
  - intros level f e Hf He. apply get_version_level in Hf as [(_ & _ & ->)|(_ & _ & ->)]; apply list_elem_of_singleton in He as ->; by vm_compute.
Qed.

Lemma scan_agrees_with_get_witness : exists m, add_all BytewiseComparator [read_update] = Some m /\
  exists (W : list (bytes * bytes)) (n : nat),
    StronglySorted (entry_lt (cmp := BytewiseComparator)) W /\
    (forall fuel, (n < fuel)%nat -> exists d,
       NewIterator BytewiseComparator fuel (read_db (Some m)) 0 None = Some (d, 9, u32 (0 + 1), ref_all (read_db (Some m))) /\
       forall ops t, Forall op_fits ops -> list_trace BytewiseComparator W (length W) ops = Some t ->
         iter_trace (H := DBIter_iterator (Iterator0 := Internal_iterator BytewiseComparator fuel) BytewiseComparator 9 fuel) d ops = Some t) /\
    (forall u value, blen u + 8 < 2 ^ 32 -> exists s stored,
       @DB_Get flat_file flat_file _ (list_reader BytewiseComparator get_contents) Q exact BytewiseComparator 0
         (read_db (Some m)) [] (newVLog [] 0) None u value =
         Some (s, if (7 <=? 0) && ok s then get_value (newVLog ([] : flat_file) 0) stored else stored, []) /\
       if ok s then exists u', @Compare BytewiseComparator u' u = 0 /\ (u', stored) ∈ W
       else s = NotFound [] [] /\ stored = value /\ forall u' w, (u', w) ∈ W -> @Compare BytewiseComparator u' u <> 0).
Proof.
  destruct (add_all BytewiseComparator [read_update]) as [m|] eqn:Em; [|vm_compute in Em; discriminate].
  exists m. split; [reflexivity|].
  apply (@scan_agrees_with_get flat_file flat_file Q ListIter _ _ exact BytewiseComparator BytewiseComparator_ok
    (list_reader BytewiseComparator get_contents) (list_reader_ok BytewiseComparator get_contents) scan_iterator scan_tables
    (ListIter_ok (InternalKeyComparator BytewiseComparator)) 0 (read_db (Some m)) [read_update] [] [] (newVLog [] 0) None 0).
  - lia.
  - exact (read_db_view m Em).
  - exact scan_tables_ok.
  - vm_compute. split; discriminate.
  - intros s Hs. discriminate.
Defined.
