(* ===== verification/Cache.v ===== *)
(** util/cache.cc: the sharded LRU cache.

    A handle is known by its address; [heap] holds the allocated ones.  The
    circular lists [lru_] and [in_use_] and the chains of the hash table are lists
    of addresses (oldest first, first of the chain first), so that a position in a
    chain stands for the slot that [FindPointer] returns.  [None] as a result is a
    failed assertion or the use of a handle that was freed. *)

From stdpp Require Import base list option gmap strings.
From S2P Require Import Prelude Status Comparator Bloom.

#[local] Open Scope Z_scope.

(** The fields of [LRUHandle] that are not links. *)
Record LRUHandle (V : Type) := mkLRUHandle {
  h_value : V;
  h_charge : Z;
  h_key : bytes;
  h_in_cache : bool;
  h_refs : Z;
  h_hash : Z;
}.
Arguments mkLRUHandle {V} _ _ _ _ _ _.
Arguments h_value {V} _.
Arguments h_charge {V} _.
Arguments h_key {V} _.
Arguments h_in_cache {V} _.
Arguments h_refs {V} _.
Arguments h_hash {V} _.

Record HandleTable := mkHandleTable { length_ : Z; elems_ : Z; list_ : list (list nat) }.

Record LRUCache (V : Type) := mkLRUCache {
  capacity_ : Z;
  usage_ : Z;
  lru_ : list nat;
  in_use_ : list nat;
  handle_table : HandleTable;
  heap : gmap nat (LRUHandle V);
  next_addr : nat;
  deleted : list (bytes * V);      (* the calls of the deleter *)
}.
Arguments mkLRUCache {V} _ _ _ _ _ _ _ _.
Arguments capacity_ {V} _.
Arguments usage_ {V} _.
Arguments lru_ {V} _.
Arguments in_use_ {V} _.
Arguments handle_table {V} _.
Arguments heap {V} _.
Arguments next_addr {V} _.
Arguments deleted {V} _.

Section Cache.
Context {V : Type}.
#[local] Abbreviation H := (gmap nat (LRUHandle V)).
#[local] Abbreviation C := (LRUCache V).

(** * [HandleTable] *)

(** Whether the handle at an address matches; an address in a chain is
    allocated. *)
Definition handle_matches (heap : H) (key : bytes) (hash : Z) (a : nat) : bool :=
  match heap !! a with
  | Some h => (h_hash h =? hash) && slice_eqb key (h_key h)
  | None => false
  end.

(** The slot in a chain: the position of the match, or the end. *)
Fixpoint FindPointer (heap : H) (key : bytes) (hash : Z) (chain : list nat) : nat :=
  match chain with
  | [] => 0
  | a :: chain => if handle_matches heap key hash a then 0 else S (FindPointer heap key hash chain)
  end.

Definition bucket (t : HandleTable) (hash : Z) : nat := Z.to_nat (Z.land hash (u32 (length_ t - 1))).
Definition bucket_chain (t : HandleTable) (hash : Z) : list nat := default [] (list_ t !! bucket t hash).

Definition table_Lookup (heap : H) (t : HandleTable) (key : bytes) (hash : Z) : option nat :=
  let chain := bucket_chain t hash in chain !! FindPointer heap key hash chain.

(** [while (new_length < elems_) new_length *= 2]; 32 doublings reach any number
    of 32 bits. *)
Fixpoint grow_length (fuel : nat) (new_length elems : Z) : Z :=
  match fuel with
  | O => new_length
  | S fuel => if new_length <? elems then grow_length fuel (u32 (new_length * 2)) elems else new_length
  end.

Definition move_handle (heap : H) (new_length : Z) (new_list : list (list nat)) (a : nat) : list (list nat) :=
  match heap !! a with
  | Some h => alter (cons a) (Z.to_nat (Z.land (h_hash h) (u32 (new_length - 1)))) new_list
  | None => new_list
  end.

Definition Resize (heap : H) (t : HandleTable) : option HandleTable :=
  let new_length := grow_length 32 4 (elems_ t) in
  let handles := concat (list_ t) in
  let new_list := fold_left (move_handle heap new_length) handles (replicate (Z.to_nat new_length) []) in
  if elems_ t =? u32 (blen handles) then Some (mkHandleTable new_length (elems_ t) new_list) else None.

Definition newHandleTable : HandleTable := mkHandleTable 4 0 (replicate 4 []).

(** The old handle and the table after; [h] is the handle at the address [a]. *)
Definition table_Insert (heap : H) (t : HandleTable) (a : nat) (h : LRUHandle V)
    : option (option nat * HandleTable) :=
  let i := bucket t (h_hash h) in
  let chain := bucket_chain t (h_hash h) in
  let ptr := FindPointer heap (h_key h) (h_hash h) chain in
  let old := chain !! ptr in
  let list' := <[i := take ptr chain ++ a :: drop (S ptr) chain]> (list_ t) in
  match old with
  | Some _ => Some (old, mkHandleTable (length_ t) (elems_ t) list')
  | None =>
      let t := mkHandleTable (length_ t) (u32 (elems_ t + 1)) list' in
      t ← (if length_ t <? elems_ t then Resize heap t else Some t);
      Some (old, t)
  end.

Definition table_Remove (heap : H) (t : HandleTable) (key : bytes) (hash : Z) : option nat * HandleTable :=
  let i := bucket t hash in
  let chain := bucket_chain t hash in
  let ptr := FindPointer heap key hash chain in
  match chain !! ptr with
  | Some a => (Some a, mkHandleTable (length_ t) (u32 (elems_ t - 1))
                         (<[i := take ptr chain ++ drop (S ptr) chain]> (list_ t)))
  | None => (None, t)
  end.

(** * [LRUCache] *)

Definition newLRUCache (capacity : Z) : C := mkLRUCache capacity 0 [] [] newHandleTable ∅ 0 [].

Definition with_lists (c : C) (lru in_use : list nat) : C :=
  mkLRUCache (capacity_ c) (usage_ c) lru in_use (handle_table c) (heap c) (next_addr c) (deleted c).
Definition with_handle (c : C) (a : nat) (h : LRUHandle V) : C :=
  mkLRUCache (capacity_ c) (usage_ c) (lru_ c) (in_use_ c) (handle_table c) (<[a := h]> (heap c)) (next_addr c) (deleted c).
Definition with_table (c : C) (t : HandleTable) : C :=
  mkLRUCache (capacity_ c) (usage_ c) (lru_ c) (in_use_ c) t (heap c) (next_addr c) (deleted c).
Definition with_usage (c : C) (usage : Z) : C :=
  mkLRUCache (capacity_ c) usage (lru_ c) (in_use_ c) (handle_table c) (heap c) (next_addr c) (deleted c).

Definition set_refs (h : LRUHandle V) (refs : Z) : LRUHandle V :=
  mkLRUHandle (h_value h) (h_charge h) (h_key h) (h_in_cache h) refs (h_hash h).
Definition set_in_cache (h : LRUHandle V) (b : bool) : LRUHandle V :=
  mkLRUHandle (h_value h) (h_charge h) (h_key h) b (h_refs h) (h_hash h).

(** Takes the handle out of the list that it is in. *)
Definition without (a : nat) (l : list nat) : list nat := List.filter (fun b => negb (b =? a)%nat) l.
Definition LRU_Remove (c : C) (a : nat) : C := with_lists c (without a (lru_ c)) (without a (in_use_ c)).
(** Makes it the newest of [lru_] or of [in_use_]. *)
Definition LRU_Append_lru (c : C) (a : nat) : C := with_lists c (lru_ c ++ [a]) (in_use_ c).
Definition LRU_Append_in_use (c : C) (a : nat) : C := with_lists c (lru_ c) (in_use_ c ++ [a]).

Definition LRU_Ref (c : C) (a : nat) : option C :=
  h ← heap c !! a;
  let c := if (h_refs h =? 1) && h_in_cache h then LRU_Append_in_use (LRU_Remove c a) a else c in
  Some (with_handle c a (set_refs h (u32 (h_refs h + 1)))).

Definition LRU_Unref (c : C) (a : nat) : option C :=
  h ← heap c !! a;
  if h_refs h <=? 0 then None
  else
    let refs := h_refs h - 1 in
    let c := with_handle c a (set_refs h refs) in
    if refs =? 0 then
      if h_in_cache h then None
      else Some (mkLRUCache (capacity_ c) (usage_ c) (lru_ c) (in_use_ c) (handle_table c)
                   (delete a (heap c)) (next_addr c) (deleted c ++ [(h_key h, h_value h)]))
    else if h_in_cache h && (refs =? 1) then Some (LRU_Append_lru (LRU_Remove c a) a)
    else Some c.

(** The handle and the cache after. *)
Definition LRU_Lookup (c : C) (key : bytes) (hash : Z) : option (option nat * C) :=
  match table_Lookup (heap c) (handle_table c) key hash with
  | Some a => c ← LRU_Ref c a; Some (Some a, c)
  | None => Some (None, c)
  end.

Definition LRU_Release (c : C) (a : nat) : option C := LRU_Unref c a.

(** Whether there was a handle, and the cache after. *)
Definition FinishErase (c : C) (e : option nat) : option (bool * C) :=
  match e with
  | None => Some (false, c)
  | Some a =>
      h ← heap c !! a;
      if negb (h_in_cache h) then None
      else
        let c := with_handle (LRU_Remove c a) a (set_in_cache h false) in
        c ← LRU_Unref (with_usage c (u64 (usage_ c - h_charge h))) a;
        Some (true, c)
  end.

Definition remove_and_finish (c : C) (key : bytes) (hash : Z) : option (bool * C) :=
  let '(e, t) := table_Remove (heap c) (handle_table c) key hash in
  FinishErase (with_table c t) e.

(** Takes the oldest entry out. *)
Definition evict_oldest (c : C) (old : nat) : option C :=
  h ← heap c !! old;
  if negb (h_refs h =? 1) then None
  else
    '(erased, c) ← remove_and_finish c (h_key h) (h_hash h);
    if (erased : bool) then Some c else None.

(** The eviction loop of [Insert] ([full] tests the capacity) and that of
    [Prune]; every turn takes an entry from [lru_]. *)
Fixpoint evict_loop (full : C -> bool) (fuel : nat) (c : C) : option C :=
  match lru_ c with
  | [] => Some c
  | old :: _ =>
      if full c then
        match fuel with
        | O => None
        | S fuel => c ← evict_oldest c old; evict_loop full fuel c
        end
      else Some c
  end.

(** The handle that [Insert] allocates. *)
Definition with_new (c : C) (h : LRUHandle V) : C :=
  mkLRUCache (capacity_ c) (usage_ c) (lru_ c) (in_use_ c) (handle_table c)
    (<[next_addr c := h]> (heap c)) (S (next_addr c)) (deleted c).

(** The branch of [Insert] for a cache that holds anything. *)
Definition enter_cache (c : C) (a : nat) (h : LRUHandle V) : option C :=
  let c := with_usage (LRU_Append_in_use c a) (u64 (usage_ c + h_charge h)) in
  '(old, t) ← table_Insert (heap c) (handle_table c) a h;
  '(_, c) ← FinishErase (with_table c t) old;
  Some c.

Definition LRU_Insert (c : C) (key : bytes) (hash : Z) (value : V) (charge : Z) : option (nat * C) :=
  let a := next_addr c in
  let caching := 0 <? capacity_ c in
  let h := mkLRUHandle value charge key caching (if caching then 2 else 1) hash in
  c ← (if caching then enter_cache (with_new c h) a h else Some (with_new c h));
  c ← evict_loop (fun c => capacity_ c <? usage_ c) (length (lru_ c)) c;
  Some (a, c).

Definition LRU_Erase (c : C) (key : bytes) (hash : Z) : option C := snd <$> remove_and_finish c key hash.

Definition LRU_Prune (c : C) : option C := evict_loop (fun _ => true) (length (lru_ c)) c.

(** The destructor: the entries of [lru_] lose the reference of the cache. *)
Definition LRU_Destroy (c : C) : option C :=
  fold_left (fun oc e =>
      c ← oc; h ← heap c !! e;
      if h_in_cache h && (h_refs h =? 1) then LRU_Unref (with_handle c e (set_in_cache h false)) e else None)
    (lru_ c) (Some c).

Definition TotalCharge (c : C) : Z := usage_ c.

Definition Value (c : C) (a : nat) : option V := h_value <$> heap c !! a.

(** * [ShardedLRUCache] *)

Definition kNumShardBits : Z := 4.
Definition kNumShards : Z := Z.shiftl 1 kNumShardBits.

Record ShardedLRUCache := mkSharded { shard_ : list C; last_id_ : Z }.

Definition HashSlice (s : bytes) : Z := Hash s 0.
Definition Shard (hash : Z) : nat := Z.to_nat (Z.shiftr hash (32 - kNumShardBits)).

Definition NewLRUCache (capacity : Z) : ShardedLRUCache :=
  let per_shard := u64 (capacity + (kNumShards - 1)) / kNumShards in
  mkSharded (replicate (Z.to_nat kNumShards) (newLRUCache per_shard)) 0.

(** A handle is known by its shard and its address. *)
Definition sharded_Insert (s : ShardedLRUCache) (key : bytes) (value : V) (charge : Z)
    : option (nat * nat * ShardedLRUCache) :=
  let hash := HashSlice key in
  c ← shard_ s !! Shard hash;
  '(a, c) ← LRU_Insert c key hash value charge;
  Some (Shard hash, a, mkSharded (<[Shard hash := c]> (shard_ s)) (last_id_ s)).

Definition sharded_Lookup (s : ShardedLRUCache) (key : bytes)
    : option (option (nat * nat) * ShardedLRUCache) :=
  let hash := HashSlice key in
  c ← shard_ s !! Shard hash;
  '(a, c) ← LRU_Lookup c key hash;
  Some (option_map (pair (Shard hash)) a, mkSharded (<[Shard hash := c]> (shard_ s)) (last_id_ s)).

(** [h->hash] leads back to the shard. *)
Definition sharded_Release (s : ShardedLRUCache) (h : nat * nat) : option ShardedLRUCache :=
  c ← shard_ s !! h.1;
  e ← heap c !! h.2;
  c ← shard_ s !! Shard (h_hash e);
  c ← LRU_Release c h.2;
  Some (mkSharded (<[Shard (h_hash e) := c]> (shard_ s)) (last_id_ s)).

Definition sharded_Erase (s : ShardedLRUCache) (key : bytes) : option ShardedLRUCache :=
  let hash := HashSlice key in
  c ← shard_ s !! Shard hash;
  c ← LRU_Erase c key hash;
  Some (mkSharded (<[Shard hash := c]> (shard_ s)) (last_id_ s)).

Definition sharded_Value (s : ShardedLRUCache) (h : nat * nat) : option V :=
  c ← shard_ s !! h.1; Value c h.2.

Definition NewId (s : ShardedLRUCache) : Z * ShardedLRUCache :=
  let id := u64 (last_id_ s + 1) in (id, mkSharded (shard_ s) id).

Definition sharded_Prune (s : ShardedLRUCache) : option ShardedLRUCache :=
  cs ← mapM LRU_Prune (shard_ s); Some (mkSharded cs (last_id_ s)).

Definition sharded_TotalCharge (s : ShardedLRUCache) : Z :=
  fold_left (fun total c => u64 (total + TotalCharge c)) (shard_ s) 0.
End Cache.
Arguments ShardedLRUCache V : clear implicits.
