(* ===== verification/CacheProofs.v ===== *)
(** The LRU cache (Cache): under any use by clients that release only handles
    they hold, no assertion fails and no freed handle is used; a hit is the value
    inserted last for the key; a held handle keeps its value. *)

From stdpp Require Import base list option gmap sorting strings.
From S2P Require Import Prelude Status Comparator Bloom Cache.

#[local] Open Scope Z_scope.

(** * Lists of chains *)

Lemma elem_of_concat {A} (x : A) (ls : list (list A)) : x ∈ concat ls <-> exists i l, ls !! i = Some l /\ x ∈ l.
Proof.
  rewrite list_elem_of_In, in_concat. split.
  - intros (l & Hl & Hx). apply list_elem_of_In, list_elem_of_lookup in Hl as [i Hi]. exists i, l.
    by rewrite list_elem_of_In.
  - intros (i & l & Hi & Hx). exists l. split; [|by apply list_elem_of_In].
    apply list_elem_of_In. by eapply list_elem_of_lookup_2.
Qed.

Lemma concat_insert {A} (ls : list (list A)) i x y : ls !! i = Some x ->
  concat (<[i := y]> ls) ++ x ≡ₚ concat ls ++ y.
Proof.
  revert i. induction ls as [|l ls IH]; intros i Hi; [done|]. destruct i as [|i]; simpl in *.
  - injection Hi as ->. solve_Permutation.
  - rewrite <- !app_assoc, (IH i Hi). done.
Qed.

Lemma concat_alter {A} (ls : list (list A)) i (a : A) : (i < length ls)%nat ->
  concat (alter (cons a) i ls) ≡ₚ a :: concat ls.
Proof.
  intros Hi. destruct (lookup_lt_is_Some_2 _ _ Hi) as [x Hx].
  assert (E : alter (cons a) i ls = <[i := a :: x]> ls).
  { apply list_eq. intros j. destruct (decide (j = i)) as [-> |Hj].
    - rewrite list_lookup_alter_eq, Hx, list_lookup_insert_eq by done. done.
    - by rewrite list_lookup_alter_ne, list_lookup_insert_ne by done. }
  rewrite E. apply (Permutation_app_inv_r x). rewrite (concat_insert _ _ x) by done. solve_Permutation.
Qed.

Lemma elem_of_without a b l : b ∈ without a l <-> b ∈ l /\ b <> a.
Proof.
  unfold without. rewrite !list_elem_of_In, filter_In. destruct (Nat.eqb_spec b a); simpl; intuition congruence.
Qed.

Lemma without_notin a l : a ∉ l -> without a l = l.
Proof.
  intros Hn. induction l as [|b l IH]; [done|]. apply not_elem_of_cons in Hn as [Hb Hn]. simpl.
  destruct (Nat.eqb_spec b a); [congruence|]. simpl. by rewrite IH.
Qed.

Lemma without_app a l l' : without a (l ++ l') = without a l ++ without a l'.
Proof. apply List.filter_app. Qed.

Lemma without_perm a l : a ∈ l -> NoDup l -> a :: without a l ≡ₚ l.
Proof.
  intros Hin Hnd. apply list_elem_of_split in Hin as (l1 & l2 & ->). apply NoDup_app in Hnd as (Hn1 & Hd & Hn2).
  apply NoDup_cons in Hn2 as [Ha _]. rewrite without_app, without_notin; [|intros Hi; apply (Hd a Hi); set_solver].
  simpl. rewrite Nat.eqb_refl. simpl. rewrite without_notin by done. solve_Permutation.
Qed.

Section Table.
Context {V : Type}.
#[local] Abbreviation H := (gmap nat (LRUHandle V)).

(** * The hash table *)

Definition handles (t : HandleTable) : list nat := concat (list_ t).

Record table_ok (heap : H) (t : HandleTable) : Prop := {
  to_length : exists k : nat, (2 <= k <= 31)%nat /\ length_ t = 2 ^ Z.of_nat k;
  to_list : length (list_ t) = Z.to_nat (length_ t);
  to_elems : elems_ t = blen (handles t);
  to_place i chain a : list_ t !! i = Some chain -> a ∈ chain ->
    exists h, heap !! a = Some h /\ 0 <= h_hash h < 2 ^ 32 /\ bucket t (h_hash h) = i;
  to_unique a b ha hb : a ∈ handles t -> b ∈ handles t -> heap !! a = Some ha -> heap !! b = Some hb ->
    h_hash ha = h_hash hb -> h_key ha = h_key hb -> a = b;
  to_nodup : NoDup (handles t);
}.

Lemma FindPointer_spec (heap : H) key hash chain :
  match chain !! FindPointer heap key hash chain with
  | Some a => handle_matches heap key hash a = true
  | None => FindPointer heap key hash chain = length chain /\
      forall a, a ∈ chain -> handle_matches heap key hash a = false
  end.
Proof.
  induction chain as [|a chain IH]; simpl; [split; [done|]; intros a Ha; by apply elem_of_nil in Ha|].
  destruct (handle_matches heap key hash a) eqn:E; simpl; [done|].
  destruct (chain !! _); [done|]. destruct IH as [-> IH]. split; [done|].
  intros b Hb. apply elem_of_cons in Hb as [-> |Hb]; [done|by apply IH].
Qed.

Lemma handle_matches_true (heap : H) key hash a : handle_matches heap key hash a = true <->
  exists h, heap !! a = Some h /\ h_hash h = hash /\ h_key h = key.
Proof.
  unfold handle_matches. destruct (heap !! a) as [h|]; [|split; [done|by intros (h & ? & _)]].
  rewrite andb_true_iff, Z.eqb_eq, slice_eqb_spec. split.
  - intros [E1 E2]. by exists h.
  - by intros (h' & [= <-] & E1 & E2).
Qed.

Lemma bucket_lt t (k : nat) hash : length_ t = 2 ^ Z.of_nat k -> (k <= 31)%nat ->
  length (list_ t) = Z.to_nat (length_ t) -> 0 <= hash -> (bucket t hash < length (list_ t))%nat.
Proof.
  intros Ek Hk El Hh. unfold bucket. rewrite El, Ek.
  assert (0 < 2 ^ Z.of_nat k <= 2 ^ 31) by (split; [lia|]; apply Z.pow_le_mono_r; lia).
  rewrite u32_small by lia. rewrite Z.sub_1_r, <- Z.ones_equiv, Z.land_ones by lia.
  pose proof (Z.mod_pos_bound hash (2 ^ Z.of_nat k) ltac:(lia)). lia.
Qed.

Section Ok.
Context (heap : H) (t : HandleTable) (Ht : table_ok heap t).

Lemma chain_at hash : 0 <= hash -> list_ t !! bucket t hash = Some (bucket_chain t hash).
Proof.
  intros Hh. destruct (to_length _ _ Ht) as (k & Hk & Ek).
  destruct (lookup_lt_is_Some_2 (list_ t) (bucket t hash)) as [c Hc].
  { apply (bucket_lt t k); [done|lia|exact (to_list _ _ Ht)|done]. }
  unfold bucket_chain. by rewrite Hc.
Qed.

Lemma chain_handles hash a : 0 <= hash -> a ∈ bucket_chain t hash -> a ∈ handles t.
Proof. intros Hh Ha. apply elem_of_concat. exists (bucket t hash), (bucket_chain t hash). split; [by apply chain_at|done]. Qed.

Lemma match_in_chain key hash a : a ∈ handles t -> handle_matches heap key hash a = true -> a ∈ bucket_chain t hash.
Proof.
  intros Ha Hm. apply elem_of_concat in Ha as (i & c & Hi & Ha). destruct (to_place _ _ Ht i c a Hi Ha) as (h & Hh & Hr & Hb).
  apply handle_matches_true in Hm as (h' & Hh' & <- & _). rewrite Hh in Hh'. injection Hh' as <-.
  unfold bucket_chain. by rewrite Hb, Hi.
Qed.

Lemma match_unique key hash a b : a ∈ handles t -> b ∈ handles t ->
  handle_matches heap key hash a = true -> handle_matches heap key hash b = true -> a = b.
Proof.
  intros Ha Hb Hma Hmb. apply handle_matches_true in Hma as (ha & Eha & Hha & Hka). apply handle_matches_true in Hmb as (hb & Ehb & Hhb & Hkb).
  eapply (to_unique _ _ Ht a b ha hb); [done|done|done|done|congruence|congruence].
Qed.

(** A lookup finds the one handle of the table that matches. *)
Lemma table_Lookup_spec key hash a : 0 <= hash ->
  table_Lookup heap t key hash = Some a <-> a ∈ handles t /\ handle_matches heap key hash a = true.
Proof.
  intros Hh. unfold table_Lookup. pose proof (FindPointer_spec heap key hash (bucket_chain t hash)) as Hf. split.
  - intros E. rewrite E in Hf. split; [|done]. apply (chain_handles hash); [done|]. by eapply list_elem_of_lookup_2.
  - intros [Ha Hm]. pose proof (match_in_chain key hash a Ha Hm) as Hin. destruct (bucket_chain t hash !! _) as [b|] eqn:Eb.
    + f_equal. apply (match_unique key hash); [|done|done|done]. apply (chain_handles hash); [done|]. by eapply list_elem_of_lookup_2.
    + destruct Hf as [_ Hf]. specialize (Hf a Hin). congruence.
Qed.

Lemma chain_split hash : 0 <= hash -> forall chain' : list nat,
  concat (<[bucket t hash := chain']> (list_ t)) ++ bucket_chain t hash ≡ₚ handles t ++ chain'.
Proof. intros Hh chain'. apply concat_insert, chain_at, Hh. Qed.

(** Changing one chain. *)
Lemma change_chain hash chain' t' : 0 <= hash -> length_ t' = length_ t ->
  list_ t' = <[bucket t hash := chain']> (list_ t) ->
  elems_ t' = blen (handles t') -> NoDup (handles t') ->
  (forall a, a ∈ chain' -> exists h, heap !! a = Some h /\ 0 <= h_hash h < 2 ^ 32 /\ bucket t (h_hash h) = bucket t hash) ->
  (forall a b ha hb, a ∈ handles t' -> b ∈ handles t' -> heap !! a = Some ha -> heap !! b = Some hb ->
    h_hash ha = h_hash hb -> h_key ha = h_key hb -> a = b) ->
  table_ok heap t'.
Proof.
  intros Hh El E He Hnd Hp Hu.
  assert (Hb : forall h, bucket t' h = bucket t h) by (intros h; unfold bucket; by rewrite El).
  split; [rewrite El; exact (to_length _ _ Ht)|rewrite E, length_insert, El; exact (to_list _ _ Ht)|done| |done|done].
  intros i chain a Hi Ha. rewrite E in Hi. setoid_rewrite Hb. destruct (decide (i = bucket t hash)) as [-> |Hne].
  - rewrite list_lookup_insert_eq in Hi; [|eapply lookup_lt_Some, chain_at, Hh]. injection Hi as <-. by apply Hp.
  - rewrite list_lookup_insert_ne in Hi by done. by apply (to_place _ _ Ht i chain a).
Qed.

Lemma take_drop_slot (chain : list nat) p a : chain !! p = Some a -> chain ≡ₚ a :: (take p chain ++ drop (S p) chain).
Proof. intros Hp. rewrite <- (take_drop_middle chain p a Hp) at 1. solve_Permutation. Qed.

Lemma table_Remove_spec key hash : 0 <= hash -> blen (handles t) < 2 ^ 32 ->
  match table_Lookup heap t key hash with
  | Some a => exists t', table_Remove heap t key hash = (Some a, t') /\ table_ok heap t' /\ handles t ≡ₚ a :: handles t'
  | None => table_Remove heap t key hash = (None, t)
  end.
Proof.
  intros Hh Hsz. unfold table_Lookup, table_Remove. set (chain := bucket_chain t hash). set (p := FindPointer heap key hash chain).
  destruct (chain !! p) as [a|] eqn:Ea; [|done].
  set (t' := mkHandleTable _ _ _). exists t'. split; [done|].
  assert (Hperm : handles t ≡ₚ a :: handles t').
  { apply (Permutation_app_inv_r (take p chain ++ drop (S p) chain)).
    rewrite <- (chain_split hash Hh (take p chain ++ drop (S p) chain)). fold chain.
    rewrite (take_drop_slot chain p a Ea) at 3. change (concat (<[_ := _]> (list_ t))) with (handles t'). solve_Permutation. }
  split; [|done]. pose proof (to_nodup _ _ Ht) as Hnd. rewrite Hperm in Hnd. apply NoDup_cons in Hnd as [Hna Hnd].
  assert (Hsub : forall b, b ∈ handles t' -> b ∈ handles t) by (intros b Hb; rewrite Hperm; by right).
  pose proof (to_elems _ _ Ht) as He. unfold blen in He, Hsz. rewrite Hperm in He, Hsz. cbn [length] in He, Hsz.
  apply (change_chain hash (take p chain ++ drop (S p) chain)); [done|done|done| |done|..].
  - cbn [elems_ t']. rewrite He, u32_small by lia. unfold blen. lia.
  - intros b Hb. assert (Hin : b ∈ chain) by (rewrite (take_drop_slot chain p a Ea); by right).
    apply (to_place _ _ Ht _ chain b); [by apply chain_at|done].
  - intros b b' hb hb' Hb Hb'. apply (to_unique _ _ Ht); by apply Hsub.
Qed.
End Ok.

(** ** Resizing *)

Lemma grow_length_spec elems : elems <= 2 ^ 31 -> forall fuel (j : nat), (2 <= j <= 31)%nat ->
  exists k : nat, (2 <= k <= 31)%nat /\ grow_length fuel (2 ^ Z.of_nat j) elems = 2 ^ Z.of_nat k.
Proof.
  intros He. induction fuel as [|fuel IH]; intros j Hj; cbn [grow_length]; [by exists j|].
  destruct (Z.ltb_spec (2 ^ Z.of_nat j) elems) as [Hlt|]; [|by exists j].
  assert (Hj31 : (j < 31)%nat).
  { destruct (Nat.lt_ge_cases j 31) as [|Hge]; [done|]. exfalso. assert (2 ^ 31 <= 2 ^ Z.of_nat j) by (apply Z.pow_le_mono_r; lia). lia. }
  assert (E : 2 ^ Z.of_nat j * 2 = 2 ^ Z.of_nat (S j)) by (rewrite Nat2Z.inj_succ, Z.pow_succ_r by lia; lia).
  assert (2 ^ Z.of_nat (S j) <= 2 ^ 31) by (apply Z.pow_le_mono_r; lia).
  rewrite E, u32_small by lia. apply IH. lia.
Qed.

(** The handles are moved one by one. *)
Lemma move_handles_spec (heap : H) n (k : nat) : n = 2 ^ Z.of_nat k -> (k <= 31)%nat ->
  forall l new_list, length new_list = Z.to_nat n ->
  (forall a, a ∈ l -> exists h, heap !! a = Some h /\ 0 <= h_hash h < 2 ^ 32) ->
  (forall i chain a, new_list !! i = Some chain -> a ∈ chain ->
     exists h, heap !! a = Some h /\ 0 <= h_hash h < 2 ^ 32 /\ Z.to_nat (Z.land (h_hash h) (u32 (n - 1))) = i) ->
  let r := fold_left (move_handle heap n) l new_list in
  length r = Z.to_nat n /\ concat r ≡ₚ concat new_list ++ l /\
  (forall i chain a, r !! i = Some chain -> a ∈ chain ->
     exists h, heap !! a = Some h /\ 0 <= h_hash h < 2 ^ 32 /\ Z.to_nat (Z.land (h_hash h) (u32 (n - 1))) = i).
Proof.
  intros En Hk. induction l as [|a l IH]; intros new_list Hl Hh Hp; cbn [fold_left].
  { by rewrite app_nil_r. }
  destruct (Hh a) as (h & Eh & Hr); [left|]. set (i := Z.to_nat (Z.land (h_hash h) (u32 (n - 1)))).
  assert (Em : move_handle heap n new_list a = alter (cons a) i new_list) by (unfold move_handle; by rewrite Eh). rewrite Em.
  assert (Hi : (i < length new_list)%nat).
  { pose proof (bucket_lt (mkHandleTable n 0 new_list) k (h_hash h) En Hk Hl ltac:(lia)). done. }
  destruct (IH (alter (cons a) i new_list)) as (R1 & R2 & R3).
  - by rewrite length_alter.
  - intros b Hb. apply Hh. by right.
  - intros j chain b Hj Hb. destruct (decide (j = i)) as [-> |Hne].
    + rewrite list_lookup_alter_eq in Hj. destruct (new_list !! i) as [c0|] eqn:Ec; [|done]. injection Hj as <-.
      apply elem_of_cons in Hb as [-> |Hb]; [by exists h|]. by apply (Hp i c0).
    + rewrite list_lookup_alter_ne in Hj by done. by apply (Hp j chain).
  - split; [done|]. split; [|done]. rewrite R2, concat_alter by done. solve_Permutation.
Qed.

Lemma table_handle (heap : H) t a : table_ok heap t -> a ∈ handles t -> exists h, heap !! a = Some h /\ 0 <= h_hash h < 2 ^ 32.
Proof.
  intros Ht Ha. apply elem_of_concat in Ha as (i & c & Hi & Ha). destruct (to_place _ _ Ht i c a Hi Ha) as (h & Eh & Hr & _). by exists h.
Qed.

Lemma Resize_spec (heap : H) t : table_ok heap t -> blen (handles t) <= 2 ^ 31 ->
  exists t', Resize heap t = Some t' /\ table_ok heap t' /\ handles t' ≡ₚ handles t.
Proof.
  intros Ht Hsz. pose proof (to_elems _ _ Ht) as He. unfold Resize.
  destruct (grow_length_spec (elems_ t) ltac:(lia) 32 2 ltac:(lia)) as (k & Hk & Eg). change (2 ^ Z.of_nat 2) with 4 in Eg. rewrite Eg.
  fold (handles t). pose proof (blen_nonneg (handles t)). rewrite u32_small, <- He, Z.eqb_refl by lia.
  destruct (move_handles_spec heap (2 ^ Z.of_nat k) k eq_refl ltac:(lia) (handles t) (replicate (Z.to_nat (2 ^ Z.of_nat k)) [])) as (R1 & R2 & R3).
  - apply length_replicate.
  - intros a Ha. by eapply table_handle.
  - intros i chain a Hi Ha. apply lookup_replicate in Hi as [-> _]. by apply elem_of_nil in Ha.
  - set (r := fold_left _ _ _) in *. assert (Hperm : concat r ≡ₚ handles t).
    { rewrite R2. assert (E0 : forall m, concat (replicate m (@nil nat)) = []) by (induction m; done). by rewrite E0. }
    eexists. split; [reflexivity|]. split; [|exact Hperm]. split; cbn [length_ elems_ list_].
    + by exists k.
    + done.
    + rewrite He. unfold handles at 2, blen. cbn [list_]. by rewrite Hperm.
    + exact R3.
    + intros a b ha hb Ha Hb. unfold handles in Ha, Hb. cbn [list_] in Ha, Hb. rewrite Hperm in Ha, Hb. by apply (to_unique _ _ Ht).
    + unfold handles. cbn [list_]. rewrite Hperm. exact (to_nodup _ _ Ht).
Qed.

(** ** Inserting *)

Lemma table_Insert_spec (heap : H) t a h : table_ok heap t -> heap !! a = Some h -> a ∉ handles t ->
  0 <= h_hash h < 2 ^ 32 -> blen (handles t) < 2 ^ 31 ->
  exists t', table_Insert heap t a h = Some (table_Lookup heap t (h_key h) (h_hash h), t') /\ table_ok heap t' /\
    match table_Lookup heap t (h_key h) (h_hash h) with
    | Some b => b :: handles t' ≡ₚ a :: handles t
    | None => handles t' ≡ₚ a :: handles t
    end.
Proof.
  intros Ht Eh Hna Hr Hsz. pose proof (table_Lookup_spec heap t Ht (h_key h) (h_hash h)) as Hlk.
  unfold table_Insert, table_Lookup in *. set (chain := bucket_chain t (h_hash h)) in *.
  pose proof (FindPointer_spec heap (h_key h) (h_hash h) chain) as Hfp. set (p := FindPointer heap (h_key h) (h_hash h) chain) in *.
  set (chain' := take p chain ++ a :: drop (S p) chain). set (list' := <[_ := chain']> (list_ t)).
  assert (Hself : handle_matches heap (h_key h) (h_hash h) a = true) by (apply handle_matches_true; by exists h).
  assert (Hplace : forall b, b ∈ chain' -> exists h', heap !! b = Some h' /\ 0 <= h_hash h' < 2 ^ 32 /\ bucket t (h_hash h') = bucket t (h_hash h)).
  { intros b Hb. assert (Hb' : b = a \/ b ∈ chain).
    { unfold chain' in Hb. apply elem_of_app in Hb as [Hb|Hb]; [right; by eapply subseteq_take|].
      apply elem_of_cons in Hb as [-> |Hb]; [by left|right; by eapply subseteq_drop]. }
    destruct Hb' as [-> |Hb']; [by exists h|]. apply (to_place _ _ Ht _ chain b); [apply (chain_at heap t Ht); lia|done]. }
  pose proof (chain_split heap t Ht (h_hash h) ltac:(lia) chain') as Hsplit. fold list' chain in Hsplit.
  assert (Hok : forall t', length_ t' = length_ t -> list_ t' = list' -> elems_ t' = blen (handles t') -> NoDup (handles t') ->
    (forall y, y ∈ handles t' -> y <> a -> y ∈ handles t /\ handle_matches heap (h_key h) (h_hash h) y = false) -> table_ok heap t').
  { intros t' El E He Hnd Hy. apply (change_chain heap t Ht (h_hash h) chain'); [lia|done|done|done|done|done|].
    assert (Hne : forall y hy, y ∈ handles t' -> y <> a -> heap !! y = Some hy -> h_hash hy = h_hash h -> h_key hy = h_key h -> False).
    { intros y hy Hyin Hya Ehy E1 E2. destruct (Hy y Hyin Hya) as [_ Hm].
      assert (handle_matches heap (h_key h) (h_hash h) y = true) by (apply handle_matches_true; by exists hy). congruence. }
    intros x y hx hy Hx Hyin Ehx Ehy E1 E2. destruct (decide (x = a)) as [-> |Hxa], (decide (y = a)) as [-> |Hya]; [done|..].
    - exfalso. rewrite Eh in Ehx. injection Ehx as <-. by apply (Hne y hy).
    - exfalso. rewrite Eh in Ehy. injection Ehy as <-. by apply (Hne x hx).
    - apply (to_unique _ _ Ht x y hx hy); [by apply Hy|by apply Hy|done..]. }
  assert (Hnda : NoDup (a :: handles t)) by (apply NoDup_cons; split; [done|exact (to_nodup _ _ Ht)]).
  pose proof (to_elems _ _ Ht) as He. pose proof (blen_nonneg (handles t)).
  destruct (chain !! p) as [b|] eqn:Eb.
  - set (t' := mkHandleTable _ _ _). assert (Hperm : b :: handles t' ≡ₚ a :: handles t).
    { apply (Permutation_app_inv_r (take p chain ++ drop (S p) chain)). change (handles t') with (concat list').
      transitivity (concat list' ++ chain); [rewrite (take_drop_slot chain p b Eb) at 3; solve_Permutation|].
      rewrite Hsplit. unfold chain'. solve_Permutation. }
    exists t'. split; [done|]. split; [|done]. pose proof Hnda as Hnd. rewrite <- Hperm in Hnd. apply NoDup_cons in Hnd as [Hnb Hnd].
    apply Hok; [done|done| |done|].
    + apply Permutation_length in Hperm. simpl in Hperm. cbn [elems_ t']. rewrite He. unfold blen. lia.
    + intros y Hy Hya. assert (Hyt : y ∈ handles t).
      { assert (Hin : y ∈ a :: handles t) by (rewrite <- Hperm; by right). by apply elem_of_cons in Hin as [-> |Hin]. }
      split; [done|]. destruct (handle_matches heap (h_key h) (h_hash h) y) eqn:Em; [|done]. exfalso. apply Hnb.
      assert (Hbt : b ∈ handles t) by (apply (chain_handles heap t Ht (h_hash h)); [lia|by eapply list_elem_of_lookup_2]).
      by rewrite (match_unique heap t Ht _ _ b y Hbt Hyt Hfp Em).
  - destruct Hfp as [Hp Hfp]. set (t1 := mkHandleTable _ _ _). assert (Hperm : handles t1 ≡ₚ a :: handles t).
    { apply (Permutation_app_inv_r chain). change (handles t1) with (concat list'). rewrite Hsplit. unfold chain'.
      rewrite Hp, firstn_all, drop_ge by lia. solve_Permutation. }
    assert (Ht1 : table_ok heap t1).
    { apply Hok; [done|done| |by rewrite Hperm|].
      - cbn [elems_ t1]. unfold blen in *. rewrite Hperm. cbn [length]. rewrite u32_small; lia.
      - intros y Hy Hya. assert (Hyt : y ∈ handles t) by (rewrite Hperm in Hy; by apply elem_of_cons in Hy as [-> |Hy]).
        split; [done|]. destruct (handle_matches heap (h_key h) (h_hash h) y) eqn:Em; [|done].
        pose proof (match_in_chain heap t Ht _ _ y Hyt Em) as Hin. by rewrite (Hfp y Hin) in Em. }
    destruct (length_ t1 <? elems_ t1); cbn [mbind option_bind]; [|by exists t1].
    destruct (Resize_spec heap t1 Ht1) as (t2 & -> & Ht2 & Hp2).
    { unfold blen in *. rewrite Hperm. cbn [length]. lia. }
    cbn [mbind option_bind]. exists t2. split; [done|]. split; [done|]. by rewrite Hp2.
Qed.
End Table.

(** * The lists and the references *)

Section Core.
Context {V : Type}.
#[local] Abbreviation C := (LRUCache V).

Definition charge_of (heap : gmap nat (LRUHandle V)) (a : nat) : Z :=
  match heap !! a with Some h => h_charge h | None => 0 end.
Definition total_charge (heap : gmap nat (LRUHandle V)) (l : list nat) : Z :=
  fold_right (fun a n => charge_of heap a + n) 0 l.

Definition holders (held : list nat) (a : nat) : Z := Z.of_nat (count_occ Nat.eq_dec held a).

(** [cs] are the handles that the cache holds, [held] those of the clients, as
    often as they hold them. *)
Record core_inv (c : C) (cs held : list nat) : Prop := {
  co_nodup : NoDup cs;
  co_lists : lru_ c ++ in_use_ c ≡ₚ cs;
  co_lru a : a ∈ lru_ c -> a ∉ held;
  co_in_use a : a ∈ in_use_ c -> a ∈ held;
  co_heap a h : heap c !! a = Some h ->
    h_in_cache h = bool_decide (a ∈ cs) /\
    h_refs h = (if bool_decide (a ∈ cs) then 1 else 0) + holders held a /\ 0 < h_refs h /\
    (a < next_addr c)%nat /\ 0 <= h_charge h;
  co_alloc a : a ∈ cs \/ a ∈ held -> is_Some (heap c !! a);
  co_usage : usage_ c = total_charge (heap c) cs;
  co_usage_small : usage_ c < 2 ^ 64;
}.

(** Nothing but references and flags of handles changes. *)
Definition same_entry (h h' : LRUHandle V) : Prop :=
  h_value h' = h_value h /\ h_charge h' = h_charge h /\ h_key h' = h_key h /\ h_hash h' = h_hash h.

Lemma holders_nonneg held a : 0 <= holders held a.
Proof. unfold holders. lia. Qed.

Lemma holders_cons held a b : holders (b :: held) a = (if decide (b = a) then 1 else 0) + holders held a.
Proof. unfold holders. simpl. destruct (Nat.eq_dec b a), (decide (b = a)); try congruence; lia. Qed.

Lemma holders_pos held a : a ∈ held <-> 0 < holders held a.
Proof. unfold holders. rewrite list_elem_of_In, (count_occ_In Nat.eq_dec). lia. Qed.

Lemma holders_zero held a : a ∉ held -> holders held a = 0.
Proof. rewrite holders_pos. pose proof (holders_nonneg held a). lia. Qed.

Lemma holders_le held a : holders held a <= blen held.
Proof. unfold holders, blen. pose proof (count_occ_bound Nat.eq_dec a held). lia. Qed.

#[export] Instance total_charge_perm (heap : gmap nat (LRUHandle V)) : Proper (Permutation ==> eq) (total_charge heap).
Proof. intros l l' Hp. induction Hp; simpl; lia. Qed.

Lemma total_charge_ext (heap heap' : gmap nat (LRUHandle V)) l :
  (forall a, a ∈ l -> charge_of heap' a = charge_of heap a) -> total_charge heap' l = total_charge heap l.
Proof.
  induction l as [|a l IH]; intros He; [done|]. simpl. rewrite He by left. rewrite IH; [done|]. intros b Hb. apply He. by right.
Qed.

Lemma charge_of_insert (heap : gmap nat (LRUHandle V)) a h h' b : heap !! a = Some h -> h_charge h' = h_charge h ->
  charge_of (<[a := h']> heap) b = charge_of heap b.
Proof.
  intros Ha Hc. unfold charge_of. destruct (decide (a = b)) as [<-|Hne].
  - by rewrite lookup_insert_eq, Ha.
  - by rewrite lookup_insert_ne.
Qed.

(** Moving a handle between the lists. *)
Lemma move_lists (lru use cs : list nat) a : lru ++ use ≡ₚ cs -> NoDup cs -> a ∈ cs ->
  without a lru ++ without a use ++ [a] ≡ₚ cs /\ (without a lru ++ [a]) ++ without a use ≡ₚ cs.
Proof.
  intros Hp Hnd Ha. assert (Hw : a :: without a (lru ++ use) ≡ₚ cs).
  { rewrite without_perm; [done|by rewrite Hp|by rewrite Hp]. }
  rewrite without_app in Hw. split; rewrite <- Hw; solve_Permutation.
Qed.

Section Ops.
Context (c : C) (cs held : list nat) (Hc : core_inv c cs held).

Lemma core_handle a : a ∈ cs \/ a ∈ held -> exists h, heap c !! a = Some h.
Proof. intros Ha. by destruct (co_alloc _ _ _ Hc a Ha) as [h Hh]; exists h. Qed.

Lemma LRU_Ref_spec a : a ∈ cs \/ a ∈ held -> blen held + 2 < 2 ^ 32 ->
  exists c' h h', LRU_Ref c a = Some c' /\ core_inv c' cs (a :: held) /\
    heap c !! a = Some h /\ heap c' = <[a := h']> (heap c) /\ same_entry h h' /\
    handle_table c' = handle_table c /\ capacity_ c' = capacity_ c /\ usage_ c' = usage_ c /\ deleted c' = deleted c /\
    lru_ c' = without a (lru_ c).
Proof.
  intros Ha Hb. destruct (core_handle a Ha) as [h Hh]. destruct (co_heap _ _ _ Hc a h Hh) as (H1 & H2 & H3 & H4 & H5).
  pose proof (holders_le held a) as Hle. unfold LRU_Ref. rewrite Hh. cbn [mbind option_bind].
  assert (Hrefs : u32 (h_refs h + 1) = h_refs h + 1) by (apply u32_small; destruct (bool_decide (a ∈ cs)); lia). rewrite Hrefs.
  set (c1 := if (h_refs h =? 1) && h_in_cache h then LRU_Append_in_use (LRU_Remove c a) a else c). set (h' := set_refs h (h_refs h + 1)).
  assert (Hmove : (a ∈ cs /\ a ∉ held /\ c1 = with_lists c (without a (lru_ c)) (without a (in_use_ c) ++ [a])) \/
    (c1 = c /\ a ∉ lru_ c)).
  { unfold c1. destruct (Z.eqb_spec (h_refs h) 1) as [Er|Er]; simpl.
    - destruct (h_in_cache h) eqn:Eic.
      + symmetry in H1. apply bool_decide_eq_true in H1. rewrite bool_decide_true in H2 by done.
        left. split; [done|]. split; [|done]. rewrite holders_pos. lia.
      + right. split; [done|]. intros Hin. symmetry in H1. apply bool_decide_eq_false in H1. apply H1.
        rewrite <- (co_lists _ _ _ Hc). set_solver.
    - right. split; [done|]. intros Hin. pose proof (co_lru _ _ _ Hc a Hin) as Hn. apply holders_zero in Hn.
      assert (a ∈ cs) by (rewrite <- (co_lists _ _ _ Hc); set_solver). rewrite bool_decide_true in H2 by done. lia. }
  assert (Hsame : heap c1 = heap c /\ next_addr c1 = next_addr c /\ usage_ c1 = usage_ c /\ handle_table c1 = handle_table c /\
    capacity_ c1 = capacity_ c /\ deleted c1 = deleted c) by (unfold c1; by destruct (_ && _)).
  destruct Hsame as (S1 & S2 & S3 & S4 & S5 & S6).
  exists (with_handle c1 a h'), h, h'. split; [done|].
  assert (Hlru : lru_ c1 = without a (lru_ c)) by (destruct Hmove as [(_ & _ & ->)|[-> Hn] ]; [done|by rewrite without_notin]).
  split; [|unfold with_handle; cbn [heap handle_table capacity_ usage_ deleted lru_]; by rewrite S1, S3, S4, S5, S6].
  split; cbn [with_handle lru_ in_use_ heap usage_ next_addr]; rewrite ?S1, ?S2, ?S3.
  - exact (co_nodup _ _ _ Hc).
  - destruct Hmove as [(Hcs & _ & ->)|[-> _] ]; [|exact (co_lists _ _ _ Hc)].
    apply (move_lists _ _ cs a (co_lists _ _ _ Hc) (co_nodup _ _ _ Hc) Hcs).
  - intros b Hbl. rewrite Hlru in Hbl. apply elem_of_without in Hbl as [Hbl Hne]. apply not_elem_of_cons. split; [done|by apply (co_lru _ _ _ Hc)].
  - intros b Hbu. destruct Hmove as [(_ & _ & E)|[-> _] ]; [|right; by apply (co_in_use _ _ _ Hc)]. rewrite E in Hbu.
    cbn [with_lists in_use_] in Hbu. apply elem_of_app in Hbu as [Hbu|Hbu]; [|apply list_elem_of_singleton in Hbu as ->; left].
    apply elem_of_without in Hbu as [Hbu _]. right. by apply (co_in_use _ _ _ Hc).
  - intros b hb Hhb. rewrite holders_cons. destruct (decide (a = b)) as [<-|Hne].
    + rewrite lookup_insert_eq in Hhb. injection Hhb as <-. cbn [h' set_refs h_in_cache h_refs h_charge]. split; [done|]. split; [lia|]. split; [lia|done].
    + rewrite lookup_insert_ne in Hhb by done. by apply (co_heap _ _ _ Hc).
  - intros b Hbb. destruct (decide (a = b)) as [<-|Hne]; [rewrite lookup_insert_eq; by eexists|]. rewrite lookup_insert_ne by done.
    apply (co_alloc _ _ _ Hc). set_solver.
  - rewrite (co_usage _ _ _ Hc). symmetry. apply total_charge_ext. intros b _. by apply (charge_of_insert _ _ h).
  - exact (co_usage_small _ _ _ Hc).
Qed.
End Ops.

(** What a release leaves: the handle lives on while the cache or a client holds it. *)
Record unref_effect (c c' : C) (cs held : list nat) (a : nat) : Prop := {
  un_table : handle_table c' = handle_table c;
  un_capacity : capacity_ c' = capacity_ c;
  un_usage : usage_ c' = usage_ c;
  un_next : next_addr c' = next_addr c;
  un_others b : b <> a -> heap c' !! b = heap c !! b;
  un_self : exists h, heap c !! a = Some h /\
    if bool_decide (a ∈ cs \/ a ∈ held)
    then (exists h', heap c' !! a = Some h' /\ same_entry h h') /\ deleted c' = deleted c
    else heap c' !! a = None /\ deleted c' = deleted c ++ [(h_key h, h_value h)];
  un_lru : lru_ c' = if bool_decide (a ∈ cs /\ a ∉ held) then lru_ c ++ [a] else lru_ c;
}.

Lemma LRU_Unref_spec c cs held a : core_inv c cs (a :: held) ->
  exists c', LRU_Unref c a = Some c' /\ core_inv c' cs held /\ unref_effect c c' cs held a.
Proof.
  intros Hc. destruct (core_handle c cs _ Hc a) as [h Hh]; [right; left|].
  destruct (co_heap _ _ _ Hc a h Hh) as (H1 & H2 & H3 & H4 & H5). rewrite holders_cons, decide_True in H2 by done.
  pose proof (holders_nonneg held a) as Hn. unfold LRU_Unref. rewrite Hh. cbn [mbind option_bind].
  replace (h_refs h <=? 0) with false by lia. set (h' := set_refs h (h_refs h - 1)).
  assert (Hna : a ∉ lru_ c) by (intros Hin; apply (co_lru _ _ _ Hc a Hin); left).
  assert (Hus : forall b, b <> a -> b ∈ in_use_ c -> b ∈ held).
  { intros b Hb Hin. apply (co_in_use _ _ _ Hc) in Hin. by apply elem_of_cons in Hin as [-> |Hin]. }
  assert (Hheap : forall b hb, b <> a -> heap c !! b = Some hb -> h_in_cache hb = bool_decide (b ∈ cs) /\
    h_refs hb = (if bool_decide (b ∈ cs) then 1 else 0) + holders held b /\ 0 < h_refs hb /\ (b < next_addr c)%nat /\ 0 <= h_charge hb).
  { intros b hb Hb Hhb. destruct (co_heap _ _ _ Hc b hb Hhb) as (G1 & G2 & G3). rewrite holders_cons, decide_False in G2 by done. done. }
  assert (Hin_use : a ∈ cs -> a ∈ in_use_ c).
  { intros Hcs. rewrite <- (co_lists _ _ _ Hc) in Hcs. by apply elem_of_app in Hcs as [|]. }
  destruct (Z.eqb_spec (h_refs h - 1) 0) as [E0|E0].
  - assert (Hcs : a ∉ cs) by (intros Hcs; rewrite bool_decide_true in H2 by done; lia).
    assert (Hheld : a ∉ held) by (rewrite holders_pos; destruct (bool_decide (a ∈ cs)); lia).
    rewrite bool_decide_false in H1 by done. rewrite H1. eexists. split; [reflexivity|]. unfold with_handle. cbn [heap].
    rewrite delete_insert_eq. split.
    + split; cbn [lru_ in_use_ heap usage_ next_addr]; try apply Hc.
      * intros b Hb Hbh. apply (co_lru _ _ _ Hc b Hb). by right.
      * intros b Hb. apply Hus; [|done]. intros ->. apply Hcs. rewrite <- (co_lists _ _ _ Hc). set_solver.
      * intros b hb Hhb. apply lookup_delete_Some in Hhb as [Hne Hhb]. by apply Hheap.
      * intros b Hb. rewrite lookup_delete_ne by (intros <-; tauto). apply (co_alloc _ _ _ Hc). set_solver.
      * rewrite (co_usage _ _ _ Hc). symmetry. apply total_charge_ext. intros b Hb. unfold charge_of. rewrite lookup_delete_ne; [done|]. by intros <-.
    + split; cbn [handle_table capacity_ usage_ next_addr heap deleted lru_]; try done.
      * intros b Hb. by rewrite lookup_delete_ne.
      * exists h. split; [done|]. rewrite bool_decide_false by tauto. by rewrite lookup_delete_eq.
      * by rewrite bool_decide_false by tauto.
  - assert (Hor : a ∈ cs \/ a ∈ held).
    { destruct (decide (a ∈ cs)); [by left|]. right. rewrite bool_decide_false in H2 by done. apply holders_pos. lia. }
    assert (Hcond : (h_in_cache h && (h_refs h - 1 =? 1)) = bool_decide (a ∈ cs /\ a ∉ held)).
    { rewrite H1. destruct (decide (a ∈ cs)) as [Hcs|Hcs].
      - assert (Hr : h_refs h = 2 + holders held a) by (rewrite bool_decide_true in H2 by done; lia).
        rewrite (bool_decide_true (a ∈ cs)) by done. simpl.
        destruct (Z.eqb_spec (h_refs h - 1) 1) as [E1|E1]; symmetry.
        + apply bool_decide_eq_true. split; [done|]. rewrite holders_pos. lia.
        + apply bool_decide_eq_false. intros [_ Hnh]. apply holders_zero in Hnh. lia.
      - rewrite !(bool_decide_false (a ∈ cs)) by done. simpl. symmetry. apply bool_decide_eq_false. tauto. }
    rewrite Hcond.
    set (c1 := with_handle c a h').
    assert (Hcore : forall lru use, lru ++ use ≡ₚ cs -> (forall b, b ∈ lru -> b ∉ held) -> (forall b, b ∈ use -> b ∈ held) ->
      core_inv (with_lists c1 lru use) cs held).
    { intros lru use Hp Hl Hu. split; cbn [with_lists c1 with_handle lru_ in_use_ heap usage_ next_addr]; [exact (co_nodup _ _ _ Hc)|done|done|done|..].
      - intros b hb Hhb. destruct (decide (a = b)) as [<-|Hne].
        + rewrite lookup_insert_eq in Hhb. injection Hhb as <-. cbn [h' set_refs h_in_cache h_refs h_charge]. split; [done|]. split; [lia|]. split; [lia|done].
        + rewrite lookup_insert_ne in Hhb by done. by apply Hheap.
      - intros b Hb. destruct (decide (a = b)) as [<-|Hne]; [rewrite lookup_insert_eq; by eexists|].
        rewrite lookup_insert_ne by done. apply (co_alloc _ _ _ Hc). set_solver.
      - rewrite (co_usage _ _ _ Hc). symmetry. apply total_charge_ext. intros b _. by apply (charge_of_insert _ _ h).
      - exact (co_usage_small _ _ _ Hc). }
    assert (Heff : forall lru use, lru = (if bool_decide (a ∈ cs /\ a ∉ held) then lru_ c ++ [a] else lru_ c) ->
      unref_effect c (with_lists c1 lru use) cs held a).
    { intros lru use El. split; cbn [with_lists c1 with_handle handle_table capacity_ usage_ next_addr heap deleted lru_]; try done.
      - intros b Hb. by rewrite lookup_insert_ne.
      - exists h. split; [done|]. rewrite bool_decide_true by done. split; [|done]. exists h'. by rewrite lookup_insert_eq. }
    destruct (decide (a ∈ cs /\ a ∉ held)) as [ [Hcs Hheld]|Hno].
    + rewrite bool_decide_true by done. eexists. split; [reflexivity|].
      change (LRU_Append_lru (LRU_Remove c1 a) a) with (with_lists c1 (without a (lru_ c) ++ [a]) (without a (in_use_ c))).
      split.
      * apply Hcore.
        -- apply (move_lists _ _ cs a (co_lists _ _ _ Hc) (co_nodup _ _ _ Hc) Hcs).
        -- intros b Hb. apply elem_of_app in Hb as [Hb|Hb]; [|by apply list_elem_of_singleton in Hb as ->].
           apply elem_of_without in Hb as [Hb _]. intros Hbh. apply (co_lru _ _ _ Hc b Hb). by right.
        -- intros b Hb. apply elem_of_without in Hb as [Hb Hne]. by apply Hus.
      * apply Heff. rewrite bool_decide_true by done. by rewrite without_notin.
    + rewrite bool_decide_false by done. exists c1. split; [done|].
      change c1 with (with_lists c1 (lru_ c) (in_use_ c)). split; [|apply Heff; by rewrite bool_decide_false].
      apply Hcore; [exact (co_lists _ _ _ Hc)| |].
      * intros b Hb Hbh. apply (co_lru _ _ _ Hc b Hb). by right.
      * intros b Hb. destruct (decide (b = a)) as [-> |Hne]; [|by apply Hus].
        destruct (decide (a ∈ held)); [done|]. exfalso. apply Hno. split; [|done]. by destruct Hor.
Qed.

#[export] Instance core_inv_perm c : Proper (Permutation ==> eq ==> impl) (core_inv c).
Proof.
  intros cs cs' Hp held ? <- Hc. assert (Hin : forall a, a ∈ cs <-> a ∈ cs') by (intros a; by rewrite Hp).
  split; try apply Hc.
  - rewrite <- Hp. apply Hc.
  - rewrite <- Hp. apply Hc.
  - intros a h Hh. rewrite <- (bool_decide_ext _ _ (Hin a)). by apply (co_heap _ _ _ Hc).
  - intros a Ha. rewrite <- Hin in Ha. by apply (co_alloc _ _ _ Hc).
  - rewrite <- Hp. apply Hc.
Qed.

(** The entries of these handles are as before. *)
Definition keeps (c c' : C) (l : list nat) : Prop :=
  forall a, a ∈ l -> exists h h', heap c !! a = Some h /\ heap c' !! a = Some h' /\ same_entry h h'.

Lemma keeps_trans c1 c2 c3 l l' : keeps c1 c2 l -> keeps c2 c3 l' -> (forall a, a ∈ l' -> a ∈ l) -> keeps c1 c3 l'.
Proof.
  intros H12 H23 Hs a Ha. destruct (H23 a Ha) as (h2 & h3 & E2 & E3 & (A1 & A2 & A3 & A4)).
  destruct (H12 a (Hs a Ha)) as (h1 & h2' & E1 & E2' & (B1 & B2 & B3 & B4)). rewrite E2 in E2'. injection E2' as <-.
  exists h1, h3. split; [done|]. split; [done|]. repeat split; congruence.
Qed.

(** Taking a handle out of the cache. *)
Lemma FinishErase_spec c cs held a : core_inv c (a :: cs) held ->
  exists c', FinishErase c (Some a) = Some (true, c') /\ core_inv c' cs held /\
    handle_table c' = handle_table c /\ capacity_ c' = capacity_ c /\ next_addr c' = next_addr c /\
    lru_ c' = without a (lru_ c) /\ keeps c c' (cs ++ held).
Proof.
  intros Hc. destruct (core_handle c _ _ Hc a) as [h Hh]; [left; left|].
  destruct (co_heap _ _ _ Hc a h Hh) as (H1 & H2 & H3 & H4 & H5). rewrite bool_decide_true in H1, H2 by left.
  pose proof (co_nodup _ _ _ Hc) as Hnd. pose proof Hnd as Hnd'. apply NoDup_cons in Hnd' as [Hna Hnd'].
  pose proof (co_usage _ _ _ Hc) as Hu. pose proof (co_usage_small _ _ _ Hc) as Hus. simpl in Hu. unfold charge_of at 1 in Hu. rewrite Hh in Hu.
  assert (Hpos : forall l, 0 <= total_charge (heap c) l).
  { induction l as [|b l IH]; simpl; [lia|]. unfold charge_of. destruct (heap c !! b) as [hb|] eqn:Eb; [|lia].
    destruct (co_heap _ _ _ Hc b hb Eb) as (_ & _ & _ & _ & ?). lia. }
  pose proof (Hpos cs) as Hp0. unfold FinishErase. rewrite Hh. cbn [mbind option_bind]. rewrite H1. cbn [negb].
  set (h' := set_in_cache h false). set (c1 := with_usage _ _).
  change (usage_ (with_handle (LRU_Remove c a) a h')) with (usage_ c) in c1.
  assert (Hheap1 : heap c1 = <[a := h']> (heap c)) by done.
  assert (Hc1 : core_inv c1 cs (a :: held)).
  { split; [done|..].
    - cbn [c1 with_usage with_handle LRU_Remove with_lists lru_ in_use_]. rewrite <- without_app.
      apply (Permutation_cons_inv (a := a)). rewrite without_perm; [exact (co_lists _ _ _ Hc)|rewrite (co_lists _ _ _ Hc); left|by rewrite (co_lists _ _ _ Hc)].
    - intros b Hb. cbn in Hb. apply elem_of_without in Hb as [Hb Hne]. apply not_elem_of_cons. split; [done|by apply (co_lru _ _ _ Hc)].
    - intros b Hb. cbn in Hb. apply elem_of_without in Hb as [Hb _]. right. by apply (co_in_use _ _ _ Hc).
    - intros b hb Hb. rewrite Hheap1 in Hb. rewrite holders_cons. destruct (decide (a = b)) as [<-|Hne].
      + rewrite lookup_insert_eq in Hb. injection Hb as <-. rewrite bool_decide_false by done. cbn [h' set_in_cache h_in_cache h_refs h_charge].
        split; [done|]. split; [lia|]. done.
      + rewrite lookup_insert_ne in Hb by done. destruct (co_heap _ _ _ Hc b hb Hb) as (G1 & G2 & G3 & G4 & G5).
        assert (Hb2 : b ∈ a :: cs <-> b ∈ cs) by (rewrite elem_of_cons; split; [by intros [-> |]|by right]).
        rewrite (bool_decide_ext _ _ Hb2) in G1, G2. done.
    - intros b Hb. rewrite Hheap1. destruct (decide (a = b)) as [<-|Hne]; [rewrite lookup_insert_eq; by eexists|].
      rewrite lookup_insert_ne by done. apply (co_alloc _ _ _ Hc). set_solver.
    - cbn [c1 with_usage usage_]. rewrite u64_small by lia. rewrite Hheap1, (total_charge_ext (heap c)); [lia|]. intros b _. by apply (charge_of_insert _ _ h).
    - cbn [c1 with_usage usage_]. rewrite u64_small by lia. lia. }
  destruct (LRU_Unref_spec c1 cs held a Hc1) as (c' & -> & Hc' & [E1 E2 E3 E4 E5 E6 E7]). cbn [mbind option_bind].
  exists c'. split; [done|]. split; [done|]. rewrite E1, E2, E4, E7. split; [done|]. split; [done|]. split; [done|].
  split; [by rewrite bool_decide_false by tauto|].
  intros b Hb. apply elem_of_app in Hb. destruct (core_handle c _ _ Hc b) as [hb Hhb]; [set_solver|].
  destruct (decide (b = a)) as [-> |Hne].
  - destruct E6 as (h1 & Eh1 & E6). rewrite Hheap1, lookup_insert_eq in Eh1. injection Eh1 as <-.
    rewrite bool_decide_true in E6 by done. destruct E6 as [(h2 & Eh2 & Hsame) _]. rewrite Hh in Hhb. injection Hhb as <-.
    exists h, h2. split; [done|]. split; [done|exact Hsame].
  - exists hb, hb. rewrite (E5 b Hne), Hheap1, lookup_insert_ne by done. done.
Qed.
End Core.

(** * The cache as a whole *)

Section Whole.
Context {V : Type}.
#[local] Abbreviation C := (LRUCache V).

Definition cached (c : C) : list nat := handles (handle_table c).

Record cache_inv (c : C) (held : list nat) : Prop := {
  ca_core : core_inv c (cached c) held;
  ca_table : table_ok (heap c) (handle_table c);
}.

Lemma table_ok_keeps (c c' : C) t : table_ok (heap c) t -> keeps c c' (handles t) -> table_ok (heap c') t.
Proof.
  intros Ht Hk. split; try apply Ht.
  - intros i chain a Hi Ha. assert (Hin : a ∈ handles t) by (apply elem_of_concat; by exists i, chain).
    destruct (to_place _ _ Ht i chain a Hi Ha) as (h & Eh & Hr & Hb). destruct (Hk a Hin) as (h0 & h' & E0 & E' & (_ & _ & _ & Hh)).
    rewrite Eh in E0. injection E0 as <-. exists h'. rewrite Hh. done.
  - intros a b ha hb Ha Hb Eha Ehb. destruct (Hk a Ha) as (ha0 & ha' & Ea0 & Ea' & (_ & _ & Ka & Ha')), (Hk b Hb) as (hb0 & hb' & Eb0 & Eb' & (_ & _ & Kb & Hb')).
    rewrite Eha in Ea'. injection Ea' as <-. rewrite Ehb in Eb'. injection Eb' as <-. rewrite Ka, Kb, Ha', Hb'.
    by apply (to_unique _ _ Ht a b ha0 hb0).
Qed.

Section Ops.
Context (c : C) (held : list nat) (Hc : cache_inv c held).

Lemma cached_lookup key hash a : 0 <= hash -> table_Lookup (heap c) (handle_table c) key hash = Some a <->
  a ∈ cached c /\ exists h, heap c !! a = Some h /\ h_hash h = hash /\ h_key h = key.
Proof. intros Hh. rewrite (table_Lookup_spec _ _ (ca_table _ _ Hc)) by done. by rewrite handle_matches_true. Qed.

Lemma core_with_table (c0 : C) cs hl t : core_inv c0 cs hl -> core_inv (with_table c0 t) cs hl.
Proof. intros []. by split. Qed.

Lemma remove_and_finish_spec key hash : 0 <= hash -> blen (cached c) < 2 ^ 31 ->
  exists b c', remove_and_finish c key hash = Some (b, c') /\ cache_inv c' held /\ keeps c c' (cached c' ++ held) /\
    capacity_ c' = capacity_ c /\ next_addr c' = next_addr c /\
    match table_Lookup (heap c) (handle_table c) key hash with
    | Some a => b = true /\ cached c ≡ₚ a :: cached c' /\ lru_ c' = without a (lru_ c)
    | None => b = false /\ c' = c
    end.
Proof.
  intros Hh Hsz. unfold remove_and_finish. pose proof (table_Remove_spec _ _ (ca_table _ _ Hc) key hash Hh) as Hr.
  fold (cached c) in Hr. specialize (Hr ltac:(lia)).
  destruct (table_Lookup (heap c) (handle_table c) key hash) as [a|].
  - destruct Hr as (t' & -> & Ht' & Hp). fold (cached c) in Hp.
    assert (Hcore : core_inv (with_table c t') (a :: handles t') held) by (apply core_with_table; rewrite <- Hp; exact (ca_core _ _ Hc)).
    destruct (FinishErase_spec _ _ _ _ Hcore) as (c' & -> & Hc' & E1 & E2 & E3 & E4 & Hk).
    assert (Ecached : cached c' = handles t') by (unfold cached; by rewrite E1).
    exists true, c'. rewrite Ecached. split; [done|]. split; [|by split].
    split; [by rewrite Ecached|]. rewrite E1. apply (table_ok_keeps c); [done|]. intros b Hb. apply Hk. set_solver.
  - rewrite Hr. exists false, c. split; [by destruct c|]. split; [done|]. split; [|done].
    intros b Hb. apply elem_of_app in Hb. destruct (core_handle _ _ _ (ca_core _ _ Hc) b Hb) as [hb Ehb]. by exists hb, hb.
Qed.

Lemma evict_oldest_spec old rest : lru_ c = old :: rest -> blen (cached c) < 2 ^ 31 ->
  exists c', evict_oldest c old = Some c' /\ cache_inv c' held /\ keeps c c' (cached c' ++ held) /\
    capacity_ c' = capacity_ c /\ next_addr c' = next_addr c /\ cached c ≡ₚ old :: cached c' /\ lru_ c' = rest.
Proof.
  intros El Hsz. pose proof (ca_core _ _ Hc) as Hcore.
  assert (Hin : old ∈ cached c) by (rewrite <- (co_lists _ _ _ Hcore), El; set_solver).
  destruct (core_handle _ _ _ Hcore old) as [h Eh]; [by left|].
  destruct (co_heap _ _ _ Hcore old h Eh) as (_ & Hrefs & _). rewrite bool_decide_true in Hrefs by done.
  rewrite holders_zero in Hrefs by (apply (co_lru _ _ _ Hcore); rewrite El; left).
  destruct (table_handle _ _ old (ca_table _ _ Hc) Hin) as (h' & Eh' & Hhash). rewrite Eh in Eh'. injection Eh' as <-.
  unfold evict_oldest. rewrite Eh. cbn [mbind option_bind]. replace (h_refs h =? 1) with true by lia. cbn [negb].
  destruct (remove_and_finish_spec (h_key h) (h_hash h) ltac:(lia) Hsz) as (b & c' & -> & Hc' & Hk & E2 & E3 & Hr). cbn [mbind option_bind].
  assert (Hl : table_Lookup (heap c) (handle_table c) (h_key h) (h_hash h) = Some old) by (apply cached_lookup; [lia|]; split; [done|by exists h]).
  rewrite Hl in Hr. destruct Hr as (-> & Hp & Hlru). exists c'. split; [done|]. split; [done|]. split; [done|]. split; [done|]. split; [done|]. split; [done|].
  rewrite Hlru, El. simpl. rewrite Nat.eqb_refl. simpl. apply without_notin.
  pose proof (co_nodup _ _ _ Hcore) as Hnd. rewrite <- (co_lists _ _ _ Hcore), El in Hnd. apply NoDup_app in Hnd as (Hnd & _). by apply NoDup_cons in Hnd as [? _].
Qed.
End Ops.

(** The evictions take the oldest entries first and stop when there is room. *)
Lemma evict_loop_spec (full : C -> bool) fuel : forall c held, cache_inv c held -> blen (cached c) < 2 ^ 31 ->
  (length (lru_ c) <= fuel)%nat ->
  exists c', evict_loop full fuel c = Some c' /\ cache_inv c' held /\ keeps c c' (cached c' ++ held) /\
    capacity_ c' = capacity_ c /\ next_addr c' = next_addr c /\ (exists gone, lru_ c = gone ++ lru_ c' /\ cached c ≡ₚ gone ++ cached c') /\
    (lru_ c' = [] \/ full c' = false).
Proof.
  assert (Hrefl : forall c held, cache_inv c held -> keeps c c (cached c ++ held)).
  { intros c held Hc b Hb. apply elem_of_app in Hb. destruct (core_handle _ _ _ (ca_core _ _ Hc) b Hb) as [hb Ehb]. by exists hb, hb. }
  induction fuel as [|fuel IH]; intros c held Hc Hsz Hf; cbn [evict_loop]; destruct (lru_ c) as [|old rest] eqn:El; simpl in Hf; try lia.
  - exists c. split; [done|]. split; [done|]. split; [by apply Hrefl|]. split; [done|]. split; [done|]. split; [|by left]. exists []. by rewrite El.
  - exists c. split; [done|]. split; [done|]. split; [by apply Hrefl|]. split; [done|]. split; [done|]. split; [|by left]. exists []. by rewrite El.
  - destruct (full c) eqn:Efull.
    + destruct (evict_oldest_spec c held Hc old rest El Hsz) as (c1 & -> & Hc1 & Hk1 & A1 & A2 & Hp1 & Hl1). cbn [mbind option_bind].
      assert (Hsz1 : blen (cached c1) < 2 ^ 31) by (unfold blen in *; rewrite Hp1 in Hsz; simpl in Hsz; lia).
      destruct (IH c1 held Hc1 Hsz1) as (c2 & -> & Hc2 & Hk2 & B1 & B2 & (gone & Eg & Hg) & Hend); [rewrite Hl1; lia|].
      exists c2. split; [done|]. split; [done|]. split.
      * apply (keeps_trans c c1 c2 _ _ Hk1 Hk2). intros a Ha. apply elem_of_app in Ha as [Ha|Ha]; [|set_solver].
        apply elem_of_app. left. rewrite Hg. set_solver.
      * split; [congruence|]. split; [congruence|]. split; [|done]. exists (old :: gone). rewrite <- app_comm_cons, <- Eg, Hl1. split; [done|].
        rewrite Hp1, Hg. done.
    + exists c. split; [done|]. split; [done|]. split; [by apply Hrefl|]. split; [done|]. split; [done|]. split; [|by right]. exists []. by rewrite El.
Qed.

(** ** Inserting *)

Lemma next_fresh (c : C) cs held : core_inv c cs held -> heap c !! next_addr c = None /\ next_addr c ∉ cs /\ next_addr c ∉ held.
Proof.
  intros Hc. assert (Hn : heap c !! next_addr c = None).
  { destruct (heap c !! next_addr c) as [h|] eqn:E; [|done]. destruct (co_heap _ _ _ Hc _ _ E) as (_ & _ & _ & ? & _). lia. }
  split; [done|]. split; intros Hin; (destruct (co_alloc _ _ _ Hc (next_addr c)) as [h Hh]; [by tauto|congruence]).
Qed.

Lemma new_keeps (c : C) cs held h : core_inv c cs held -> keeps c (with_new c h) (cs ++ held).
Proof.
  intros Hc b Hb. apply elem_of_app in Hb. destruct (core_handle _ _ _ Hc b Hb) as [hb Ehb]. exists hb, hb. cbn [with_new heap].
  rewrite lookup_insert_ne; [done|]. destruct (next_fresh c cs held Hc) as (_ & H1 & H2). intros <-. tauto.
Qed.

(** The invariant with the new handle: in the cache, or only with the client. *)
Lemma new_core (c : C) cs held value charge key hash (caching : bool) : core_inv c cs held ->
  0 <= charge -> usage_ c + charge < 2 ^ 64 ->
  let a := next_addr c in
  let c0 := with_new c (mkLRUHandle value charge key caching (if caching then 2 else 1) hash) in
  if caching then core_inv (with_usage (LRU_Append_in_use c0 a) (usage_ c + charge)) (a :: cs) (a :: held)
  else core_inv c0 cs (a :: held).
Proof.
  intros Hc Hch Hu a c0. destruct (next_fresh c cs held Hc) as (Hna & Hncs & Hnh). fold a in Hna, Hncs, Hnh.
  pose proof (co_usage _ _ _ Hc) as Husage.
  assert (Hold : forall b, b <> a -> heap c0 !! b = heap c !! b) by (intros b Hb; unfold c0; cbn [with_new heap]; by rewrite lookup_insert_ne).
  assert (Hnew : heap c0 !! a = Some (mkLRUHandle value charge key caching (if caching then 2 else 1) hash)) by apply lookup_insert_eq.
  assert (Hlru : forall b, b ∈ lru_ c -> b ∉ a :: held).
  { intros b Hb. apply not_elem_of_cons. split; [|by apply (co_lru _ _ _ Hc)]. intros ->. apply Hncs. rewrite <- (co_lists _ _ _ Hc). set_solver. }
  assert (Htot : total_charge (heap c0) cs = total_charge (heap c) cs).
  { apply total_charge_ext. intros b Hb. unfold charge_of. rewrite Hold; [done|]. by intros ->. }
  assert (Hheap : forall b hb, b <> a -> heap c0 !! b = Some hb -> h_in_cache hb = bool_decide (b ∈ cs) /\
    h_refs hb = (if bool_decide (b ∈ cs) then 1 else 0) + holders (a :: held) b /\ 0 < h_refs hb /\ (b < S (next_addr c))%nat /\ 0 <= h_charge hb).
  { intros b hb Hb Ehb. rewrite Hold in Ehb by done. destruct (co_heap _ _ _ Hc b hb Ehb) as (G1 & G2 & G3 & G4 & G5).
    rewrite holders_cons, decide_False by done. split_and!; try done; lia. }
  assert (Halloc : forall b, b ∈ a :: cs \/ b ∈ a :: held -> is_Some (heap c0 !! b)).
  { intros b Hb. destruct (decide (b = a)) as [-> |Hne]; [rewrite Hnew; by eexists|]. rewrite Hold by done. apply (co_alloc _ _ _ Hc). set_solver. }
  assert (Hself : holders (a :: held) a = 1) by (rewrite holders_cons, decide_True, holders_zero by done; lia).
  assert (Htc : total_charge (heap c0) (a :: cs) = charge + total_charge (heap c) cs).
  { cbn [total_charge fold_right]. fold (total_charge (heap c0) cs). unfold charge_of at 1. by rewrite Hnew, Htot. }
  destruct caching.
  - split; cbn [with_usage LRU_Append_in_use with_lists lru_ in_use_ usage_ next_addr heap].
    + apply NoDup_cons. split; [done|exact (co_nodup _ _ _ Hc)].
    + change (lru_ c0) with (lru_ c). change (in_use_ c0) with (in_use_ c). rewrite <- (co_lists _ _ _ Hc). solve_Permutation.
    + exact Hlru.
    + intros b Hb. apply elem_of_app in Hb as [Hb|Hb]; [right; by apply (co_in_use _ _ _ Hc)|apply list_elem_of_singleton in Hb as ->; left].
    + intros b hb Ehb. destruct (decide (b = a)) as [-> |Hne].
      * rewrite Hnew in Ehb. injection Ehb as <-. rewrite Hself, bool_decide_true by left. cbn. split_and!; try done; lia.
      * assert (Hb2 : b ∈ a :: cs <-> b ∈ cs) by (rewrite elem_of_cons; split; [by intros [-> |]|by right]).
        rewrite (bool_decide_ext _ _ Hb2). by apply Hheap.
    + exact Halloc.
    + etrans; [|symmetry; exact Htc]. lia.
    + lia.
  - split; [exact (co_nodup _ _ _ Hc)|exact (co_lists _ _ _ Hc)|exact Hlru|..].
    + intros b Hb. right. by apply (co_in_use _ _ _ Hc).
    + intros b hb Ehb. destruct (decide (b = a)) as [-> |Hne]; [|by apply Hheap].
      rewrite Hnew in Ehb. injection Ehb as <-. rewrite Hself, bool_decide_false by done. cbn. split_and!; try done; lia.
    + intros b Hb. apply Halloc. set_solver.
    + change (usage_ c0) with (usage_ c). by rewrite Htot.
    + exact (co_usage_small _ _ _ Hc).
Qed.

(** The new handle in the table; an older handle of the key leaves the cache. *)
Lemma insert_new (c : C) held value charge key hash : cache_inv c held -> 0 <= charge -> usage_ c + charge < 2 ^ 64 ->
  0 <= hash < 2 ^ 32 -> blen (cached c) < 2 ^ 31 ->
  let a := next_addr c in
  let h := mkLRUHandle value charge key true 2 hash in
  let c1 := with_usage (LRU_Append_in_use (with_new c h) a) (usage_ c + charge) in
  exists old t c2 b, table_Insert (heap c1) (handle_table c1) a h = Some (old, t) /\
    FinishErase (with_table c1 t) old = Some (b, c2) /\ cache_inv c2 (a :: held) /\
    keeps c1 c2 (cached c2 ++ a :: held) /\ capacity_ c2 = capacity_ c /\ next_addr c2 = S a /\ a ∈ cached c2 /\
    (forall b, b ∈ cached c2 -> b = a \/ b ∈ cached c) /\ blen (cached c2) <= 1 + blen (cached c).
Proof.
  intros Hc Hch Hu Hh Hsz a h c1. pose proof (ca_core _ _ Hc) as Hcore.
  pose proof (new_core c _ _ value charge key hash true Hcore Hch Hu) as Hcore1. cbv zeta iota in Hcore1. fold a h c1 in Hcore1.
  destruct (next_fresh c _ _ Hcore) as (Hna & Hncs & Hnh). fold a in Hna, Hncs, Hnh.
  assert (Ht1 : table_ok (heap c1) (handle_table c)).
  { apply (table_ok_keeps c); [exact (ca_table _ _ Hc)|]. intros b Hb. apply (new_keeps c _ _ h Hcore). set_solver. }
  assert (Hself : heap c1 !! a = Some h) by apply lookup_insert_eq.
  destruct (table_Insert_spec (heap c1) (handle_table c) a h Ht1 Hself Hncs Hh Hsz) as (t & Et & Ht & Hp).
  change (handle_table c1) with (handle_table c). rewrite Et. set (old := table_Lookup _ _ _ _) in *. fold (cached c) in Hp.
  assert (Hboth : forall c2, table_ok (heap c2) t -> handle_table c2 = t -> core_inv c2 (handles t) (a :: held) -> cache_inv c2 (a :: held)).
  { intros c2 G1 G2 G3. split; [by unfold cached; rewrite G2|by rewrite G2]. }
  destruct old as [b|] eqn:Eold.
  - apply table_Lookup_spec in Eold as [Hb _]; [|done|simpl; lia]. fold (cached c) in Hb.
    assert (Hcore2 : core_inv (with_table c1 t) (b :: handles t) (a :: held)) by (apply core_with_table; rewrite Hp; exact Hcore1).
    destruct (FinishErase_spec _ _ _ _ Hcore2) as (c2 & E2 & Hc2 & A1 & A2 & A3 & _ & Hk).
    assert (Ecached : cached c2 = handles t) by (unfold cached; by rewrite A1).
    assert (Hkt : keeps c1 c2 (handles t ++ a :: held)) by exact Hk.
    exists (Some b), t, c2, true. rewrite Ecached. split; [done|]. split; [done|]. split.
    { apply Hboth; [|done|done]. apply (table_ok_keeps c1); [exact Ht|]. intros x Hx. apply Hkt. set_solver. }
    split; [done|]. split; [done|]. split; [done|]. split.
    { assert (Ha : a ∈ b :: handles t) by (rewrite Hp; left). by apply elem_of_cons in Ha as [-> |Ha]. }
    split; [|unfold blen; apply Permutation_length in Hp; simpl in Hp; lia].
    intros x Hx. assert (Hx' : x ∈ a :: cached c) by (rewrite <- Hp; by right). by apply elem_of_cons in Hx'.
  - exists None, t, (with_table c1 t), false. change (cached (with_table c1 t)) with (handles t). split; [done|]. split; [done|]. split.
    { apply Hboth; [exact Ht|done|]. rewrite Hp. apply core_with_table, Hcore1. }
    split.
    { intros x Hx. apply elem_of_app in Hx. rewrite Hp in Hx. destruct (core_handle _ _ _ Hcore1 x Hx) as [hx Ehx]. by exists hx, hx. }
    split; [done|]. split; [done|]. split; [rewrite Hp; left|]. split; [|unfold blen; rewrite Hp; simpl; lia].
    intros x Hx. rewrite Hp in Hx. by apply elem_of_cons in Hx.
Qed.

(** The state before the evictions. *)
Lemma insert_enters (c : C) held value charge key hash : cache_inv c held -> 0 <= charge -> usage_ c + charge < 2 ^ 64 ->
  0 <= usage_ c -> 0 <= hash < 2 ^ 32 -> blen (cached c) < 2 ^ 31 - 1 ->
  let a := next_addr c in
  let caching := 0 <? capacity_ c in
  let h := mkLRUHandle value charge key caching (if caching then 2 else 1) hash in
  exists c2, (if caching then enter_cache (with_new c h) a h else Some (with_new c h)) = Some c2 /\
    cache_inv c2 (a :: held) /\ keeps (with_new c h) c2 (cached c2 ++ a :: held) /\
    capacity_ c2 = capacity_ c /\ (0 < capacity_ c <-> a ∈ cached c2) /\ (forall b, b ∈ cached c2 -> b = a \/ b ∈ cached c) /\
    blen (cached c2) < 2 ^ 31 /\ next_addr c2 = S a.
Proof.
  intros Hc Hch Hu Hu0 Hh Hsz a caching h. pose proof (ca_core _ _ Hc) as Hcore.
  destruct caching eqn:Ecap; unfold caching in Ecap.
  - destruct (insert_new c held value charge key hash Hc Hch Hu Hh ltac:(lia)) as (old & t & c2 & b & Et & Ef & Hc2 & Hk & A1 & A2 & A3 & A4 & A5).
    cbv zeta in Et, Ef, Hk. fold a h in Et, Ef, Hk. exists c2. split.
    { unfold enter_cache. change (usage_ (with_new c h)) with (usage_ c). change (h_charge h) with charge. rewrite u64_small by lia.
      rewrite Et. cbn [mbind option_bind]. by rewrite Ef. }
    split; [done|]. split; [exact Hk|]. split; [done|]. split; [split; [done|lia]|]. split; [done|]. split; [lia|done].
  - destruct (next_fresh c _ _ Hcore) as (_ & Hncs & _). pose proof (new_core c _ _ value charge key hash false Hcore Hch Hu) as Hcore1. cbv zeta iota in Hcore1. fold a h in Hcore1.
    pose proof (new_keeps c _ _ h Hcore) as Hk0. exists (with_new c h). split; [done|]. split.
    { split; [exact Hcore1|]. apply (table_ok_keeps c); [exact (ca_table _ _ Hc)|]. intros b Hb. apply Hk0. set_solver. }
    split; [|split; [done|]; split; [split; [lia|done]|]; split; [by right|]; split; [unfold cached in *; simpl; lia|done] ].
    intros b Hb. apply elem_of_app in Hb. destruct (core_handle _ _ _ Hcore1 b Hb) as [hb Ehb]. by exists hb, hb.
Qed.

(** What an insertion leaves. *)
Record inserted (c c' : C) (held : list nat) (a : nat) (key : bytes) (hash : Z) (value : V) (charge : Z) : Prop := {
  in_inv : cache_inv c' (a :: held);
  in_new : exists h, heap c' !! a = Some h /\ h_value h = value /\ h_charge h = charge /\ h_key h = key /\ h_hash h = hash;
  in_cached : 0 < capacity_ c <-> a ∈ cached c';
  in_fresh : heap c !! a = None;
  in_others b : b ∈ cached c' -> b = a \/ b ∈ cached c;
  in_keeps b : b <> a -> b ∈ cached c' ++ held -> exists h h', heap c !! b = Some h /\ heap c' !! b = Some h' /\ same_entry h h';
  in_room : usage_ c' <= capacity_ c \/ lru_ c' = [];
  in_capacity : capacity_ c' = capacity_ c;
}.

Lemma LRU_Insert_spec (c : C) held key hash value charge : cache_inv c held -> 0 <= charge -> usage_ c + charge < 2 ^ 64 ->
  0 <= usage_ c -> 0 <= hash < 2 ^ 32 -> blen (cached c) < 2 ^ 31 - 1 ->
  exists a c', LRU_Insert c key hash value charge = Some (a, c') /\ inserted c c' held a key hash value charge.
Proof.
  intros Hc Hch Hu Hu0 Hh Hsz. pose proof (ca_core _ _ Hc) as Hcore. destruct (next_fresh c _ _ Hcore) as (Hna & Hncs & Hnh).
  unfold LRU_Insert. set (a := next_addr c) in *. set (caching := 0 <? capacity_ c).
  set (h := mkLRUHandle value charge key caching (if caching then 2 else 1) hash).
  destruct (insert_enters c held value charge key hash Hc Hch Hu Hu0 Hh Hsz) as (c2 & E2 & Hc2 & Hk2 & B1 & B2 & B3 & B4 & B5).
  fold a caching h in E2, Hc2, Hk2, B2, B3, B5. rewrite E2. cbn [mbind option_bind].
  destruct (evict_loop_spec (fun c => capacity_ c <? usage_ c) (length (lru_ c2)) c2 _ Hc2 B4 ltac:(lia))
    as (c' & -> & Hc' & Hk' & D1 & D2 & (gone & Eg & Hg) & Hend). cbn [mbind option_bind].
  assert (Hsub : forall b, b ∈ cached c' -> b ∈ cached c2) by (intros b Hb; rewrite Hg; set_solver).
  assert (Hk : keeps (with_new c h) c' (cached c' ++ a :: held)).
  { apply (keeps_trans _ c2 _ _ _ Hk2 Hk'). intros b Hb. apply elem_of_app in Hb as [Hb|Hb]; [|set_solver]. apply elem_of_app. left. by apply Hsub. }
  exists a, c'. split; [done|]. split; [done|..|congruence].
  - destruct (Hk a) as (h0 & h' & E0 & E' & (G1 & G2 & G3 & G4)); [set_solver|]. cbn [with_new heap] in E0. fold a in E0.
    rewrite lookup_insert_eq in E0. injection E0 as <-. by exists h'.
  - split; [|intros Ha; by apply B2, Hsub]. intros Hcap. apply B2 in Hcap as Hin. clear B2. rename Hin into B2. rewrite Hg in B2. apply elem_of_app in B2 as [B2|B2]; [|done]. exfalso.
    apply (co_lru _ _ _ (ca_core _ _ Hc2) a); [rewrite Eg; set_solver|left].
  - done.
  - intros b Hb. by apply B3, Hsub.
  - intros b Hne Hb. destruct (Hk b) as (h0 & h' & E0 & E' & Hsame); [set_solver|]. cbn [with_new heap] in E0. fold a in E0.
    rewrite lookup_insert_ne in E0 by done. by exists h0, h'.
  - destruct Hend as [Hend|Hend]; [by right|left]. rewrite D1, B1 in Hend. lia.
Qed.

(** ** The other operations *)

(** The cache only lost entries; [held'] are the handles of the clients after. *)
Record shrunk (c c' : C) (held' : list nat) : Prop := {
  sh_inv : cache_inv c' held';
  sh_cached b : b ∈ cached c' -> b ∈ cached c;
  sh_keeps : keeps c c' (cached c' ++ held');
  sh_capacity : capacity_ c' = capacity_ c;
}.

Lemma charge_nonneg (c : C) cs held a : core_inv c cs held -> 0 <= charge_of (heap c) a.
Proof. intros Hc. unfold charge_of. destruct (heap c !! a) as [h|] eqn:Ea; [|lia]. by apply (co_heap _ _ _ Hc) in Ea as (_ & _ & _ & _ & ?). Qed.

Lemma total_charge_pos (hp : gmap nat (LRUHandle V)) l : (forall a, 0 <= charge_of hp a) -> 0 <= total_charge hp l.
Proof. intros Hpos. induction l as [|a l IH]; simpl; [lia|]. specialize (Hpos a). lia. Qed.

Lemma total_charge_sub (hp : gmap nat (LRUHandle V)) : (forall a, 0 <= charge_of hp a) -> forall l l', NoDup l ->
  (forall a, a ∈ l -> a ∈ l') -> total_charge hp l <= total_charge hp l'.
Proof.
  intros Hpos. induction l as [|a l IH]; intros l' Hnd Hs; [by apply total_charge_pos|]. apply NoDup_cons in Hnd as [Hna Hnd].
  assert (Ha : a ∈ l') by (apply Hs; left). apply list_elem_of_split in Ha as (l1 & l2 & ->).
  transitivity (total_charge hp (a :: l1 ++ l2)); [|rewrite (total_charge_perm hp _ _ (Permutation_middle l1 l2 a)); lia].
  cbn [total_charge fold_right]. fold (total_charge hp l) (total_charge hp (l1 ++ l2)). specialize (IH (l1 ++ l2) Hnd).
  assert (total_charge hp l <= total_charge hp (l1 ++ l2)); [|lia]. apply IH. intros b Hb. specialize (Hs b ltac:(by right)).
  apply elem_of_app in Hs as [Hs|Hs]; [set_solver|]. apply elem_of_cons in Hs as [-> |Hs]; [done|set_solver].
Qed.

Lemma blen_sub (l l' : list nat) : NoDup l -> (forall a, a ∈ l -> a ∈ l') -> blen l <= blen l'.
Proof.
  intros Hnd Hs. unfold blen. assert (length l <= length l')%nat; [|lia]. apply NoDup_incl_length; [by apply NoDup_ListNoDup|].
  intros a. rewrite <- !list_elem_of_In. apply Hs.
Qed.

Lemma keeps_charge (c c' : C) l a : keeps c c' l -> a ∈ l -> charge_of (heap c') a = charge_of (heap c) a.
Proof. intros Hk Ha. destruct (Hk a Ha) as (h & h' & E & E' & (_ & Hch & _)). unfold charge_of. by rewrite E, E'. Qed.

Lemma shrunk_bounds (c c' : C) held held' : cache_inv c held -> shrunk c c' held' ->
  usage_ c' <= usage_ c /\ blen (cached c') <= blen (cached c).
Proof.
  intros Hc [Hc' Hs Hk _]. pose proof (ca_core _ _ Hc) as Hcore. pose proof (ca_core _ _ Hc') as Hcore'. split.
  - rewrite (co_usage _ _ _ Hcore), (co_usage _ _ _ Hcore').
    rewrite (total_charge_ext (heap c)) by (intros b Hb; apply (keeps_charge _ _ _ _ Hk); set_solver).
    apply total_charge_sub; [intros a; by eapply charge_nonneg|exact (co_nodup _ _ _ Hcore')|done].
  - apply blen_sub; [exact (co_nodup _ _ _ Hcore')|done].
Qed.

Lemma inserted_bounds (c c' : C) held a key hash value charge : cache_inv c held -> 0 <= charge ->
  inserted c c' held a key hash value charge -> usage_ c' <= usage_ c + charge /\ blen (cached c') <= 1 + blen (cached c).
Proof.
  intros Hc Hch [Hc' (h & Ea & _ & Eh & _) _ Hfr Ho Hk _ _]. pose proof (ca_core _ _ Hc) as Hcore. pose proof (ca_core _ _ Hc') as Hcore'.
  set (l := filter (fun b => b <> a) (cached c')).
  assert (Hl : forall b, b ∈ l <-> b ∈ cached c' /\ b <> a) by (intros b; unfold l; rewrite list_elem_of_filter; tauto).
  assert (Hnd : NoDup l) by (apply NoDup_filter, (co_nodup _ _ _ Hcore')).
  assert (Hsub : forall b, b ∈ l -> b ∈ cached c) by (intros b Hb; apply Hl in Hb as [Hb Hne]; by destruct (Ho b Hb)).
  assert (Hall : forall b, b ∈ cached c' -> b ∈ a :: l).
  { intros b Hb. destruct (decide (b = a)) as [-> |Hne]; [left|right; by apply Hl]. }
  split.
  - rewrite (co_usage _ _ _ Hcore), (co_usage _ _ _ Hcore').
    transitivity (total_charge (heap c') (a :: l)).
    { apply total_charge_sub; [intros b; by eapply charge_nonneg|exact (co_nodup _ _ _ Hcore')|exact Hall]. }
    cbn [total_charge fold_right]. fold (total_charge (heap c') l). unfold charge_of at 1. rewrite Ea, Eh.
    rewrite (total_charge_ext (heap c)); [|intros b Hb; apply Hl in Hb as [Hb Hne]; destruct (Hk b Hne) as (h0 & h1 & E0 & E1 & (_ & Hc0 & _)); [set_solver|]; unfold charge_of; by rewrite E0, E1].
    assert (total_charge (heap c) l <= total_charge (heap c) (cached c)); [|lia].
    apply total_charge_sub; [intros b; by eapply charge_nonneg|done|done].
  - transitivity (blen (a :: l)); [apply blen_sub; [exact (co_nodup _ _ _ Hcore')|exact Hall]|].
    pose proof (blen_sub l (cached c) Hnd Hsub) as Hb. unfold blen in *. cbn [length]. lia.
Qed.

Lemma LRU_Lookup_spec (c : C) held key hash : cache_inv c held -> 0 <= hash -> blen held + 2 < 2 ^ 32 ->
  exists r c', LRU_Lookup c key hash = Some (r, c') /\
    match r with
    | Some a => shrunk c c' (a :: held) /\ (exists h, heap c' !! a = Some h /\ h_hash h = hash /\ h_key h = key) /\ a ∈ cached c'
    | None => c' = c /\ forall a h, a ∈ cached c -> heap c !! a = Some h -> h_hash h = hash -> h_key h <> key
    end.
Proof.
  intros Hc Hh Hb. pose proof (ca_core _ _ Hc) as Hcore. unfold LRU_Lookup.
  pose proof (cached_lookup c held Hc key hash) as Hlk.
  destruct (table_Lookup (heap c) (handle_table c) key hash) as [a|] eqn:El.
  - destruct (proj1 (Hlk a Hh) eq_refl) as (Hin & h0 & Eh0 & Hhash & Hkey).
    destruct (LRU_Ref_spec c _ _ Hcore a) as (c' & h & h' & -> & Hc' & Eh & Ehp & Hsame & A1 & A2 & A3 & A4 & A5); [by left|done|].
    cbn [mbind option_bind]. exists (Some a), c'. split; [done|].
    assert (Ecached : cached c' = cached c) by (unfold cached; by rewrite A1).
    rewrite Eh0 in Eh. injection Eh as <-.
    assert (Hk : keeps c c' (cached c ++ a :: held)).
    { intros b Hbin. rewrite Ehp. destruct (decide (b = a)) as [-> |Hne].
      - exists h0, h'. by rewrite lookup_insert_eq.
      - destruct (core_handle _ _ _ Hcore b) as [hb Ehb]; [set_solver|]. exists hb, hb. by rewrite lookup_insert_ne. }
    split; [|split; [exists h'; rewrite Ehp, lookup_insert_eq; destruct Hsame as (_ & _ & G3 & G4); split; [done|]; split; congruence|by rewrite Ecached] ].
    split; [|by rewrite Ecached|by rewrite Ecached|done].
    split; [by rewrite Ecached|]. rewrite A1. apply (table_ok_keeps c); [exact (ca_table _ _ Hc)|].
    intros b Hbin. apply Hk. unfold cached. set_solver.
  - exists None, c. split; [done|]. split; [done|]. intros a h Ha Eh Eh1 Eh2.
    assert (Some a = None); [|done]. symmetry. apply Hlk; [done|]. split; [done|]. by exists h.
Qed.

Lemma core_held_perm (c : C) cs held held' : held ≡ₚ held' -> core_inv c cs held -> core_inv c cs held'.
Proof.
  intros Hp [C1 C2 C3 C4 C5 C6 C7 C8]. assert (Hh : forall a, holders held' a = holders held a).
  { intros a. unfold holders. f_equal. symmetry. by apply (Permutation_count_occ Nat.eq_dec). }
  split; try done.
  - intros a Ha. rewrite <- Hp. by apply C3.
  - intros a Ha. rewrite <- Hp. by apply C4.
  - intros a h Ea. rewrite Hh. by apply C5.
  - intros a Ha. apply C6. by rewrite Hp.
Qed.

Lemma LRU_Release_spec (c : C) held held' a : cache_inv c held -> held ≡ₚ a :: held' ->
  exists c', LRU_Release c a = Some c' /\ shrunk c c' held'.
Proof.
  intros Hc Hp. pose proof (core_held_perm _ _ _ _ Hp (ca_core _ _ Hc)) as Hcore.
  destruct (LRU_Unref_spec c _ _ a Hcore) as (c' & E & Hc' & [E1 E2 E3 E4 E5 E6 E7]). exists c'. split; [done|].
  assert (Ecached : cached c' = cached c) by (unfold cached; by rewrite E1).
  assert (Hk : keeps c c' (cached c ++ held')).
  { intros b Hb. destruct (decide (b = a)) as [-> |Hne].
    - destruct E6 as (h & Eh & E6). rewrite bool_decide_true in E6 by (apply elem_of_app; exact Hb).
      destruct E6 as [(h' & Eh' & Hs) _]. by exists h, h'.
    - destruct (core_handle _ _ _ Hcore b) as [hb Ehb]; [set_solver|]. exists hb, hb. by rewrite (E5 b Hne). }
  split; [|by rewrite Ecached|by rewrite Ecached|done]. split; [by rewrite Ecached|]. rewrite E1.
  apply (table_ok_keeps c); [exact (ca_table _ _ Hc)|]. intros b Hb. apply Hk. unfold cached. set_solver.
Qed.

Lemma LRU_Erase_spec (c : C) held key hash : cache_inv c held -> 0 <= hash -> blen (cached c) < 2 ^ 31 ->
  exists c', LRU_Erase c key hash = Some c' /\ shrunk c c' held /\
    forall a h, a ∈ cached c' -> heap c' !! a = Some h -> h_hash h = hash -> h_key h <> key.
Proof.
  intros Hc Hh Hsz. destruct (remove_and_finish_spec c held Hc key hash Hh Hsz) as (b & c' & E & Hc' & Hk & A1 & A2 & Hm).
  unfold LRU_Erase. rewrite E. exists c'. split; [done|].
  pose proof (cached_lookup c held Hc key hash) as Hlk.
  destruct (table_Lookup (heap c) (handle_table c) key hash) as [a|].
  - destruct Hm as (_ & Hp & _). assert (Hsub : forall x, x ∈ cached c' -> x ∈ cached c) by (intros x Hx; rewrite Hp; by right).
    split; [by split|]. intros x h Hx Ex Eh1 Eh2.
    destruct (Hk x) as (h0 & h' & E0 & E' & (_ & _ & G3 & G4)); [set_solver|]. rewrite Ex in E'. injection E' as <-.
    assert (Hxa : Some a = Some x) by (apply Hlk; [done|]; split; [by apply Hsub|]; exists h0; split; [done|]; split; congruence).
    injection Hxa as <-. pose proof (co_nodup _ _ _ (ca_core _ _ Hc)) as Hnd. rewrite Hp in Hnd. by apply NoDup_cons in Hnd as [? _].
  - destruct Hm as (_ & ->). split; [by split|]. intros x h Hx Ex Eh1 Eh2.
    assert (None = Some x); [|done]. apply Hlk; [done|]. split; [done|]. by exists h.
Qed.

Lemma LRU_Prune_spec (c : C) held : cache_inv c held -> blen (cached c) < 2 ^ 31 ->
  exists c', LRU_Prune c = Some c' /\ shrunk c c' held /\ lru_ c' = [].
Proof.
  intros Hc Hsz. destruct (evict_loop_spec (fun _ => true) (length (lru_ c)) c held Hc Hsz ltac:(lia))
    as (c' & E & Hc' & Hk & A1 & A2 & (gone & Eg & Hg) & Hend).
  exists c'. split; [done|]. split; [split; [done| |done|done]|by destruct Hend]. intros b Hb. rewrite Hg. set_solver.
Qed.
End Whole.
