(* ===== verification/CacheClient.v ===== *)
(** Clients of the sharded cache (util/cache.cc): any sequence of insertions,
    lookups, releases of handles that are held, erasures and prunings runs without
    a failed assertion or the use of a freed handle, and the cache behaves as a
    map that may forget entries. *)

From stdpp Require Import base list option gmap sorting strings.
From S2P Require Import Prelude Status Comparator Bloom Cache CacheProofs.

#[local] Open Scope Z_scope.

(** * The hash of a key is a number of 32 bits *)

Lemma lxor_u32 a b : 0 <= a < 2 ^ 32 -> 0 <= b < 2 ^ 32 -> 0 <= Z.lxor a b < 2 ^ 32.
Proof. by apply lxor_range. Qed.

Lemma shiftr_u32 a k : 0 <= k -> 0 <= a < 2 ^ 32 -> 0 <= Z.shiftr a k < 2 ^ 32.
Proof.
  intros Hk Ha. rewrite Z.shiftr_div_pow2 by done. pose proof (Z.pow_pos_nonneg 2 k eq_refl Hk).
  split; [apply Z.div_pos; lia|]. apply Z.div_lt_upper_bound; nia.
Qed.

Lemma hash_loop_range fuel : forall data h, 0 <= h < 2 ^ 32 -> 0 <= (hash_loop fuel data h).1 < 2 ^ 32.
Proof.
  induction fuel as [|fuel IH]; intros data h Hh; simpl; [done|]. destruct (4 <=? blen data); [|done].
  apply IH. unfold hash_word. apply lxor_u32; [apply u32_range|]. apply shiftr_u32; [done|apply u32_range].
Qed.

Lemma Hash_range data seed : 0 <= seed < 2 ^ 32 -> 0 <= Hash data seed < 2 ^ 32.
Proof.
  intros Hs. unfold Hash. pose proof (hash_loop_range (length data) data _ (lxor_u32 seed _ Hs (u32_range (u64 (blen data * hash_m))))) as Hl.
  destruct (hash_loop _ _ _) as [h rest]. simpl in Hl.
  repeat case_match; try apply u32_range; try done;
    (apply lxor_u32; [apply u32_range|]; apply shiftr_u32; [done|apply u32_range]).
Qed.

Lemma HashSlice_range key : 0 <= HashSlice key < 2 ^ 32.
Proof. by apply Hash_range. Qed.

Lemma Shard_lt key : (Shard (HashSlice key) < Z.to_nat kNumShards)%nat.
Proof.
  unfold Shard. pose proof (HashSlice_range key). change kNumShardBits with 4. change kNumShards with 16.
  rewrite Z.shiftr_div_pow2 by done. assert (HashSlice key / 2 ^ (32 - 4) < 16) by (apply Z.div_lt_upper_bound; lia).
  pose proof (Z.div_pos (HashSlice key) (2 ^ (32 - 4))). lia.
Qed.

Section Client.
Context {V : Type}.
#[local] Abbreviation C := (LRUCache V).

(** [OpRelease i] releases the handle that the client holds in position [i]. *)
Inductive cache_op :=
| OpInsert (key : bytes) (value : V) (charge : Z)
| OpLookup (key : bytes)
| OpRelease (i : nat)
| OpErase (key : bytes)
| OpPrune.

(** The cache, the handles that the client holds with the values that it expects
    behind them, and the value inserted last for each key that was not erased. *)
Record client := mkClient {
  cl_cache : ShardedLRUCache V;
  cl_held : list (nat * nat * V);
  cl_latest : gmap bytes V;
}.

(** The value of a hit, and the client after. *)
Definition client_step (s : client) (op : cache_op) : option (option V * client) :=
  match op with
  | OpInsert key value charge =>
      '(h, c) ← sharded_Insert (cl_cache s) key value charge;
      Some (None, mkClient c ((h, value) :: cl_held s) (<[key := value]> (cl_latest s)))
  | OpLookup key =>
      '(h, c) ← sharded_Lookup (cl_cache s) key;
      match h with
      | Some h =>
          value ← sharded_Value c h;
          Some (Some value, mkClient c ((h, value) :: cl_held s) (cl_latest s))
      | None => Some (None, mkClient c (cl_held s) (cl_latest s))
      end
  | OpRelease i =>
      match cl_held s !! i with
      | Some (h, _) =>
          c ← sharded_Release (cl_cache s) h;
          Some (None, mkClient c (delete i (cl_held s)) (cl_latest s))
      | None => Some (None, s)
      end
  | OpErase key =>
      c ← sharded_Erase (cl_cache s) key;
      Some (None, mkClient c (cl_held s) (delete key (cl_latest s)))
  | OpPrune => c ← sharded_Prune (cl_cache s); Some (None, mkClient c (cl_held s) (cl_latest s))
  end.

Fixpoint client_run (s : client) (ops : list cache_op) : option client :=
  match ops with
  | [] => Some s
  | op :: ops => '(_, s) ← client_step s op; client_run s ops
  end.

Definition new_client (capacity : Z) : client := mkClient (NewLRUCache capacity) [] ∅.

(** What the client may rely on. *)
Record contract (s : client) (op : cache_op) (r : option V) (s' : client) : Prop := {
  ct_held h v : (h, v) ∈ cl_held s' -> sharded_Value (cl_cache s') h = Some v;
  ct_op :
    match op with
    | OpInsert key value charge =>
        exists i a c, cl_held s' = (i, a, value) :: cl_held s /\ shard_ (cl_cache s') !! i = Some c /\
          (usage_ c <= capacity_ c \/ lru_ c = []) /\
          (0 < capacity_ c -> fst <$> sharded_Lookup (cl_cache s') key = Some (Some (i, a)))
    | OpLookup key => forall v, r = Some v -> cl_latest s !! key = Some v
    | OpRelease i => cl_held s' = delete i (cl_held s)
    | OpErase key => fst <$> sharded_Lookup (cl_cache s') key = Some None
    | OpPrune => forall i c, shard_ (cl_cache s') !! i = Some c -> lru_ c = []
    end;
}.

(** ** The invariant of a client *)

Definition held_in (i : nat) (held : list (nat * nat * V)) : list nat :=
  (fun e => e.1.2) <$> filter (fun e => e.1.1 = i) held.

Record shard_inv (i : nat) (c : C) (held : list (nat * nat * V)) (latest : gmap bytes V) (n total : Z) : Prop := {
  si_inv : cache_inv c (held_in i held);
  si_cached a : a ∈ cached c -> exists h, heap c !! a = Some h /\ h_hash h = HashSlice (h_key h) /\
    Shard (h_hash h) = i /\ latest !! h_key h = Some (h_value h);
  si_held a v : (i, a, v) ∈ held -> exists h, heap c !! a = Some h /\ h_value h = v /\ Shard (h_hash h) = i;
  si_usage : 0 <= usage_ c <= total;
  si_size : blen (cached c) <= n;
  si_none : capacity_ c <= 0 -> cached c = [];
}.

Record client_inv (s : client) (n total : Z) : Prop := {
  ci_shards : length (shard_ (cl_cache s)) = Z.to_nat kNumShards;
  ci_shard i c : shard_ (cl_cache s) !! i = Some c -> shard_inv i c (cl_held s) (cl_latest s) n total;
  ci_held h v : (h, v) ∈ cl_held s -> (h.1 < Z.to_nat kNumShards)%nat;
  ci_count : blen (cl_held s) <= n;
}.

Lemma held_in_cons i j a v held :
  held_in i ((j, a, v) :: held) = if decide (j = i) then a :: held_in i held else held_in i held.
Proof. unfold held_in. rewrite filter_cons. simpl. by destruct (decide (j = i)). Qed.

Lemma held_in_le i held : blen (held_in i held) <= blen held.
Proof. unfold held_in, blen. rewrite length_fmap. pose proof (length_filter (fun e : nat * nat * V => e.1.1 = i) held). lia. Qed.

Lemma held_in_app i l l' : held_in i (l ++ l') = held_in i l ++ held_in i l'.
Proof. unfold held_in. by rewrite filter_app, fmap_app. Qed.

(** A shard that lost entries. *)
Lemma shard_shrunk i c c' held held' latest latest' n total : shard_inv i c held latest n total ->
  shrunk c c' (held_in i held') ->
  (forall a v, (i, a, v) ∈ held' -> (i, a, v) ∈ held \/ (a ∈ cached c' /\ Value c' a = Some v)) ->
  (forall a h, a ∈ cached c' -> heap c' !! a = Some h -> latest' !! h_key h = latest !! h_key h) ->
  shard_inv i c' held' latest' n total.
Proof.
  intros Hi Hs Hh Hl. pose proof (shrunk_bounds _ _ _ _ (si_inv _ _ _ _ _ _ Hi) Hs) as [Hu Hb].
  pose proof (si_usage _ _ _ _ _ _ Hi) as Hu0. pose proof (si_size _ _ _ _ _ _ Hi).
  assert (Hcached : forall a, a ∈ cached c' -> exists h, heap c' !! a = Some h /\ h_hash h = HashSlice (h_key h) /\
    Shard (h_hash h) = i /\ latest' !! h_key h = Some (h_value h)).
  { intros a Ha. destruct (si_cached _ _ _ _ _ _ Hi a (sh_cached _ _ _ Hs a Ha)) as (h & Eh & B1 & B2 & B3).
    destruct (sh_keeps _ _ _ Hs a) as (h0 & h' & E0 & E' & (G1 & G2 & G3 & G4)); [set_solver|].
    rewrite Eh in E0. injection E0 as <-. exists h'. rewrite (Hl a h' Ha E'), G1, G3, G4. done. }
  split; [exact (sh_inv _ _ _ Hs)|done| | |lia|].
  - intros a v Hav. destruct (Hh a v Hav) as [Hold|[Hc Hv] ].
    + destruct (si_held _ _ _ _ _ _ Hi a v Hold) as (h & Eh & B1 & B2).
      assert (Hin : a ∈ held_in i held') by (unfold held_in; apply list_elem_of_fmap; exists (i, a, v); split; [done|]; by apply list_elem_of_filter).
      destruct (sh_keeps _ _ _ Hs a) as (h0 & h' & E0 & E' & (G1 & G2 & G3 & G4)); [set_solver|].
      rewrite Eh in E0. injection E0 as <-. exists h'. rewrite G1, G4. done.
    + destruct (Hcached a Hc) as (h & Eh & _ & B2 & _). unfold Value in Hv. rewrite Eh in Hv. injection Hv as <-. by exists h.
  - split; [|lia]. pose proof (ca_core _ _ (sh_inv _ _ _ Hs)) as Hc'. rewrite (co_usage _ _ _ Hc').
    apply total_charge_pos. intros a. by eapply charge_nonneg.
  - intros Hcap. rewrite (sh_capacity _ _ _ Hs) in Hcap. pose proof (si_none _ _ _ _ _ _ Hi Hcap) as E0.
    apply elem_of_nil_inv. intros b Hb'. apply (sh_cached _ _ _ Hs) in Hb'. rewrite E0 in Hb'. by apply elem_of_nil in Hb'.
Qed.

(** The other shards do not notice. *)
Lemma shard_other i c held held' latest latest' n n' total total' : shard_inv i c held latest n total ->
  held_in i held' = held_in i held -> (forall a v, (i, a, v) ∈ held' -> (i, a, v) ∈ held) ->
  (forall key, Shard (HashSlice key) = i -> latest' !! key = latest !! key) -> n <= n' -> total <= total' ->
  shard_inv i c held' latest' n' total'.
Proof.
  intros Hi Eh Hh Hl Hn Ht. pose proof (si_usage _ _ _ _ _ _ Hi). pose proof (si_size _ _ _ _ _ _ Hi). split; [|..|lia|lia|exact (si_none _ _ _ _ _ _ Hi)].
  - rewrite Eh. apply Hi.
  - intros a Ha. destruct (si_cached _ _ _ _ _ _ Hi a Ha) as (h & E & B1 & B2 & B3). exists h. rewrite Hl by congruence. done.
  - intros a v Hav. apply (si_held _ _ _ _ _ _ Hi), Hh, Hav.
Qed.

(** ** The steps *)

Lemma shard_of (s : client) n total key : client_inv s n total ->
  exists c, shard_ (cl_cache s) !! Shard (HashSlice key) = Some c /\
    shard_inv (Shard (HashSlice key)) c (cl_held s) (cl_latest s) n total.
Proof.
  intros Hs. destruct (lookup_lt_is_Some_2 (shard_ (cl_cache s)) (Shard (HashSlice key))) as [c Ec].
  { rewrite (ci_shards _ _ _ Hs). apply Shard_lt. }
  exists c. split; [done|by apply (ci_shard _ _ _ Hs)].
Qed.

Lemma client_values (s : client) n total h v : client_inv s n total -> (h, v) ∈ cl_held s -> sharded_Value (cl_cache s) h = Some v.
Proof.
  intros Hs Hin. destruct h as [i a]. pose proof (ci_held _ _ _ Hs _ _ Hin) as Hlt. simpl in Hlt. rewrite <- (ci_shards _ _ _ Hs) in Hlt.
  destruct (lookup_lt_is_Some_2 _ _ Hlt) as [c Ec]. unfold sharded_Value, Value. cbn [fst snd]. rewrite Ec. cbn [mbind option_bind].
  destruct (si_held _ _ _ _ _ _ (ci_shard _ _ _ Hs i c Ec) a v Hin) as (h & -> & <- & _). done.
Qed.

(** One shard changes. *)
Lemma update_ok (s : client) n n' total total' i c c' held' latest' id : client_inv s n total ->
  shard_ (cl_cache s) !! i = Some c -> shard_inv i c' held' latest' n' total' ->
  (forall j, j <> i -> held_in j held' = held_in j (cl_held s)) ->
  (forall h v, (h, v) ∈ held' -> h.1 = i \/ (h, v) ∈ cl_held s) ->
  (forall key, Shard (HashSlice key) <> i -> latest' !! key = cl_latest s !! key) ->
  n <= n' -> total <= total' -> blen held' <= n' ->
  client_inv (mkClient (mkSharded (<[i := c']> (shard_ (cl_cache s))) id) held' latest') n' total'.
Proof.
  intros Hs Ec Hi Hh Hin Hl Hn Ht Hb. pose proof (lookup_lt_Some _ _ _ Ec) as Hlt. split; cbn [cl_cache shard_ cl_held cl_latest].
  - rewrite length_insert. exact (ci_shards _ _ _ Hs).
  - intros j cj Hj. destruct (decide (j = i)) as [-> |Hne].
    + rewrite list_lookup_insert_eq in Hj by done. by injection Hj as <-.
    + rewrite list_lookup_insert_ne in Hj by done. apply (shard_other _ _ (cl_held s) _ (cl_latest s) _ n _ total); [|by apply Hh| | |done|done].
      * by apply (ci_shard _ _ _ Hs).
      * intros a v Hav. by destruct (Hin (j, a) v Hav).
      * intros key <-. by apply Hl.
  - intros h v Hhv. destruct (Hin h v Hhv) as [-> |Hold]; [|by apply (ci_held _ _ _ Hs h v)]. rewrite <- (ci_shards _ _ _ Hs). exact Hlt.
  - done.
Qed.

Lemma held_in_other i a v held j : j <> i -> held_in j ((i, a, v) :: held) = held_in j held.
Proof. intros Hne. by rewrite held_in_cons, decide_False. Qed.

(** What the next lookup of the key finds. *)
Lemma lookup_next (shards : list C) id key c held : shards !! Shard (HashSlice key) = Some c -> cache_inv c held ->
  blen held + 2 < 2 ^ 32 ->
  (forall a h, a ∈ cached c -> heap c !! a = Some h -> h_hash h = HashSlice key -> h_key h = key ->
     fst <$> sharded_Lookup (mkSharded shards id) key = Some (Some (Shard (HashSlice key), a))) /\
  ((forall a h, a ∈ cached c -> heap c !! a = Some h -> h_hash h = HashSlice key -> h_key h <> key) ->
     fst <$> sharded_Lookup (mkSharded shards id) key = Some None).
Proof.
  intros Ec Hc Hb. pose proof (HashSlice_range key) as Hr. unfold sharded_Lookup. cbn [shard_].
  generalize dependent (HashSlice key). intros hash Ec Hr. generalize dependent (Shard hash). intros i Ec.
  rewrite Ec. cbn [mbind option_bind].
  destruct (LRU_Lookup_spec c held key hash Hc ltac:(lia) Hb) as (r & c' & E & Hm). pose proof E as E'. unfold LRU_Lookup in E'.
  pose proof (cached_lookup c held Hc key hash) as Hlk. split.
  - intros a h Ha Eh E1 E2. rewrite (proj2 (Hlk a ltac:(lia))) in E' by (split; [done|by exists h]).
    destruct (LRU_Ref c a); [|done]. injection E' as <- <-. by rewrite E.
  - intros Hno. rewrite E. destruct r as [a|]; [|done]. destruct Hm as (Hs & (h & Eh & E1 & E2) & Ha). exfalso.
    destruct (sh_keeps _ _ _ Hs a) as (h0 & h1 & E3 & E4 & (_ & _ & G3 & G4)); [set_solver|]. rewrite Eh in E4. injection E4 as <-.
    apply (Hno a h0 (sh_cached _ _ _ Hs a Ha) E3); congruence.
Qed.

#[local] Opaque HashSlice Shard.

Section Steps.
Context (s : client) (n total : Z) (Hs : client_inv s n total) (Hn : n + 1 < 2 ^ 31 - 1).

Lemma held_small i : blen (held_in i (cl_held s)) <= n.
Proof. pose proof (held_in_le i (cl_held s)). pose proof (ci_count _ _ _ Hs). lia. Qed.

Lemma insert_step key value charge : 0 <= charge -> total + charge < 2 ^ 64 -> exists s',
  client_step s (OpInsert key value charge) = Some (None, s') /\ client_inv s' (n + 1) (total + charge) /\
  contract s (OpInsert key value charge) None s'.
Proof.
  intros Hch Ht. destruct (shard_of s n total key Hs) as (c & Ec & Hi). pose proof (si_usage _ _ _ _ _ _ Hi) as Hu.
  pose proof (si_size _ _ _ _ _ _ Hi) as Hsz. set (i := Shard (HashSlice key)) in *. pose proof (HashSlice_range key) as Hr.
  destruct (LRU_Insert_spec c _ key (HashSlice key) value charge (si_inv _ _ _ _ _ _ Hi) Hch ltac:(lia) ltac:(lia) Hr ltac:(lia)) as (a & c' & E & Hins).
  pose proof (inserted_bounds _ _ _ _ _ _ _ _ (si_inv _ _ _ _ _ _ Hi) Hch Hins) as [Hu' Hb'].
  destruct (in_new _ _ _ _ _ _ _ _ Hins) as (h & Eh & Ev & Ech & Ek & Ehash). pose proof (in_inv _ _ _ _ _ _ _ _ Hins) as Hc'.
  set (held' := (i, a, value) :: cl_held s).
  assert (Hheld : held_in i held' = a :: held_in i (cl_held s)) by (unfold held'; by rewrite held_in_cons, decide_True).
  assert (Hcap : forall b, b ∈ cached c' -> b <> a -> a ∈ cached c').
  { intros b Hb Hne. apply (in_cached _ _ _ _ _ _ _ _ Hins). destruct (Z.lt_ge_cases 0 (capacity_ c)) as [|Hcap]; [done|].
    destruct (in_others _ _ _ _ _ _ _ _ Hins b Hb) as [|Hold]; [done|]. rewrite (si_none _ _ _ _ _ _ Hi Hcap) in Hold. by apply elem_of_nil in Hold. }
  assert (Hi' : shard_inv i c' held' (<[key := value]> (cl_latest s)) (n + 1) (total + charge)).
  { split; [by rewrite Hheld| | | |lia|].
    - intros b Hb. destruct (decide (b = a)) as [-> |Hne].
      + exists h. rewrite Ek, Ehash, Ev, lookup_insert_eq. done.
      + destruct (in_others _ _ _ _ _ _ _ _ Hins b Hb) as [|Hold]; [done|].
        destruct (si_cached _ _ _ _ _ _ Hi b Hold) as (hb & Ehb & B1 & B2 & B3).
        destruct (in_keeps _ _ _ _ _ _ _ _ Hins b Hne) as (h0 & h1 & E0 & E1 & (G1 & G2 & G3 & G4)); [set_solver|].
        rewrite Ehb in E0. injection E0 as <-. exists h1. rewrite G1, G3, G4. split; [done|]. split; [done|]. split; [done|].
        rewrite lookup_insert_ne; [done|]. intros Ekey. apply Hne.
        apply (to_unique _ _ (ca_table _ _ Hc') b a h1 h Hb (Hcap b Hb Hne) E1 Eh); congruence.
    - intros b v Hbv. apply elem_of_cons in Hbv as [Hbv|Hbv]; [injection Hbv as -> ->; exists h; by rewrite Ehash|].
      destruct (si_held _ _ _ _ _ _ Hi b v Hbv) as (hb & Ehb & B1 & B2).
      assert (Hne : b <> a) by (intros ->; pose proof (in_fresh _ _ _ _ _ _ _ _ Hins); congruence).
      destruct (in_keeps _ _ _ _ _ _ _ _ Hins b Hne) as (h0 & h1 & E0 & E1 & (G1 & G2 & G3 & G4)).
      { apply elem_of_app. right. unfold held_in. apply list_elem_of_fmap. exists (i, b, v). split; [done|]. by apply list_elem_of_filter. }
      rewrite Ehb in E0. injection E0 as <-. exists h1. rewrite G1, G4. done.
    - split; [|lia]. pose proof (ca_core _ _ Hc') as Hcore. rewrite (co_usage _ _ _ Hcore). apply total_charge_pos. intros b. by eapply charge_nonneg.
    - rewrite (in_capacity _ _ _ _ _ _ _ _ Hins). intros H0. apply elem_of_nil_inv. intros b Hb.
      assert (a ∈ cached c') by (destruct (decide (b = a)) as [<-|Hne]; [done|by apply (Hcap b)]).
      assert (0 < capacity_ c) by by apply (in_cached _ _ _ _ _ _ _ _ Hins). lia. }
  eexists. split.
  { cbn [client_step]. unfold sharded_Insert. fold i. rewrite Ec. cbn [mbind option_bind]. rewrite E. reflexivity. }
  assert (Hinv : client_inv (mkClient (mkSharded (<[i := c']> (shard_ (cl_cache s))) (last_id_ (cl_cache s))) held'
    (<[key := value]> (cl_latest s))) (n + 1) (total + charge)).
  { apply (update_ok s n _ total _ i c); [done|done|done|by intros j Hj; apply held_in_other| | |lia|lia|].
    - intros g v Hg. apply elem_of_cons in Hg as [Hg|Hg]; [injection Hg as -> ->; by left|by right].
    - intros k Hk. rewrite lookup_insert_ne; [done|]. by intros <-.
    - pose proof (ci_count _ _ _ Hs). unfold held', blen in *. cbn [length]. lia. }
  assert (Hc'' : <[i := c']> (shard_ (cl_cache s)) !! i = Some c') by (apply list_lookup_insert_eq; by eapply lookup_lt_Some).
  split; [exact Hinv|]. split; [intros g v Hg; by eapply client_values|].
  exists i, a, c'. split; [done|]. cbn [cl_cache shard_]. split; [done|].
  split; [rewrite (in_capacity _ _ _ _ _ _ _ _ Hins); exact (in_room _ _ _ _ _ _ _ _ Hins)|].
  rewrite (in_capacity _ _ _ _ _ _ _ _ Hins). intros Hpos. apply (in_cached _ _ _ _ _ _ _ _ Hins) in Hpos.
  pose proof (held_small i) as Hsm. refine (proj1 (lookup_next _ _ key c' _ Hc'' Hc' _) a h Hpos Eh Ehash Ek).
  unfold blen in *. cbn [length]. lia.
Qed.

Lemma shard_more i c held : shard_inv i c held (cl_latest s) n total -> shard_inv i c held (cl_latest s) (n + 1) total.
Proof. intros Hi. apply (shard_other _ _ held _ (cl_latest s) _ n _ total); [done..|lia|lia]. Qed.

Lemma client_more : client_inv s (n + 1) total.
Proof.
  pose proof (ci_count _ _ _ Hs). split; [apply Hs| |apply Hs|lia]. intros i c Ec. apply shard_more. by apply (ci_shard _ _ _ Hs).
Qed.

Lemma lookup_step key : exists r s',
  client_step s (OpLookup key) = Some (r, s') /\ client_inv s' (n + 1) total /\ contract s (OpLookup key) r s'.
Proof.
  destruct (shard_of s n total key Hs) as (c & Ec & Hi). pose proof (HashSlice_range key) as Hr. pose proof (held_small (Shard (HashSlice key))) as Hsm.
  destruct (LRU_Lookup_spec c _ key (HashSlice key) (si_inv _ _ _ _ _ _ Hi) ltac:(lia) ltac:(lia)) as (r & c' & E & Hm).
  set (i := Shard (HashSlice key)) in *. cbn [client_step]. unfold sharded_Lookup. fold i. rewrite Ec. cbn [mbind option_bind]. rewrite E.
  cbn [mbind option_bind]. assert (Hc'' : <[i := c']> (shard_ (cl_cache s)) !! i = Some c') by (apply list_lookup_insert_eq; by eapply lookup_lt_Some).
  destruct r as [a|]; cbn [option_map].
  - destruct Hm as (Hsh & (h & Eh & E1 & E2) & Ha). unfold sharded_Value. cbn [fst snd shard_]. rewrite Hc''. cbn [mbind option_bind].
    unfold Value. rewrite Eh. cbn [fmap option_fmap option_map mbind option_bind]. set (held' := (i, a, h_value h) :: cl_held s).
    assert (Hheld : held_in i held' = a :: held_in i (cl_held s)) by (unfold held'; by rewrite held_in_cons, decide_True).
    assert (Hi' : shard_inv i c' held' (cl_latest s) n total).
    { apply (shard_shrunk _ c _ (cl_held s) _ (cl_latest s)); [done|by rewrite Hheld| |done].
      intros b v Hb. apply elem_of_cons in Hb as [Hb|Hb]; [injection Hb as -> ->; right|by left]. split; [done|]. unfold Value. by rewrite Eh. }
    eexists _, _. split; [reflexivity|].
    assert (Hinv : client_inv (mkClient (mkSharded (<[i := c']> (shard_ (cl_cache s))) (last_id_ (cl_cache s))) held' (cl_latest s)) (n + 1) total).
    { apply (update_ok s n _ total _ i c); [done|done|by apply shard_more|by intros j Hj; apply held_in_other| |done|lia|lia|].
      - intros g v Hg. apply elem_of_cons in Hg as [Hg|Hg]; [injection Hg as -> ->; by left|by right].
      - pose proof (ci_count _ _ _ Hs). unfold held', blen in *. cbn [length]. lia. }
    split; [exact Hinv|]. split; [intros g v Hg; by eapply client_values|]. intros v [= <-].
    destruct (si_cached _ _ _ _ _ _ Hi' a Ha) as (h' & Eh' & _ & _ & Hl). rewrite Eh in Eh'. injection Eh' as <-. by rewrite <- E2.
  - destruct Hm as (-> & _). rewrite list_insert_id by done. eexists _, _. split; [reflexivity|].
    assert (Hinv : client_inv (mkClient (mkSharded (shard_ (cl_cache s)) (last_id_ (cl_cache s))) (cl_held s) (cl_latest s)) (n + 1) total).
    { destruct client_more. by split. }
    split; [exact Hinv|]. split; [intros g v Hg; by eapply client_values|done].
Qed.

Lemma release_step k : exists s',
  client_step s (OpRelease k) = Some (None, s') /\ client_inv s' (n + 1) total /\ contract s (OpRelease k) None s'.
Proof.
  cbn [client_step]. destruct (cl_held s !! k) as [ [ [i a] v]|] eqn:Ek.
  - pose proof (list_elem_of_lookup_2 _ _ _ Ek) as Hin. pose proof (ci_held _ _ _ Hs _ _ Hin) as Hlt. simpl in Hlt. rewrite <- (ci_shards _ _ _ Hs) in Hlt.
    destruct (lookup_lt_is_Some_2 _ _ Hlt) as [c Ec]. pose proof (ci_shard _ _ _ Hs i c Ec) as Hi.
    destruct (si_held _ _ _ _ _ _ Hi a v Hin) as (h & Eh & Ev & Esh).
    set (held' := delete k (cl_held s)).
    assert (Hsplit : cl_held s = take k (cl_held s) ++ (i, a, v) :: drop (S k) (cl_held s)) by by rewrite take_drop_middle.
    assert (Hheld' : held' = take k (cl_held s) ++ drop (S k) (cl_held s)) by apply delete_take_drop.
    assert (Hp : held_in i (cl_held s) ≡ₚ a :: held_in i held').
    { rewrite Hsplit at 1. rewrite Hheld', !held_in_app, held_in_cons, decide_True by done. by rewrite Permutation_middle. }
    destruct (LRU_Release_spec c _ _ a (si_inv _ _ _ _ _ _ Hi) Hp) as (c' & E & Hsh).
    unfold sharded_Release. cbn [fst snd]. rewrite Ec. cbn [mbind option_bind]. rewrite Eh. cbn [mbind option_bind]. rewrite Esh, Ec. cbn [mbind option_bind].
    rewrite E. cbn [mbind option_bind]. eexists. split; [reflexivity|].
    assert (Hsub : forall g w, (g, w) ∈ held' -> (g, w) ∈ cl_held s).
    { intros g w Hg. rewrite Hsplit. rewrite Hheld' in Hg. apply elem_of_app in Hg as [Hg|Hg]; apply elem_of_app; [by left|right; by right]. }
    assert (Hinv : client_inv (mkClient (mkSharded (<[i := c']> (shard_ (cl_cache s))) (last_id_ (cl_cache s))) held' (cl_latest s)) (n + 1) total).
    { apply (update_ok s n _ total _ i c); [done|done| | | |done|lia|lia|].
      - apply shard_more. apply (shard_shrunk _ c _ (cl_held s) _ (cl_latest s)); [done|done| |done]. intros b w Hb. left. by apply Hsub.
      - intros j Hj. rewrite Hsplit at 1. by rewrite Hheld', !held_in_app, held_in_other.
      - intros g w Hg. right. by apply Hsub.
      - pose proof (ci_count _ _ _ Hs). rewrite Hheld'. rewrite Hsplit in H. unfold blen in *. rewrite length_app in *. cbn [length] in *. lia. }
    split; [exact Hinv|]. split; [intros g w Hg; by eapply client_values|done].
  - exists s. split; [done|]. split; [exact client_more|]. split; [intros g w Hg; by eapply client_values|].
    apply lookup_ge_None in Ek. rewrite delete_take_drop, drop_ge, firstn_all2 by lia. by rewrite app_nil_r.
Qed.

Lemma erase_step key : exists s',
  client_step s (OpErase key) = Some (None, s') /\ client_inv s' (n + 1) total /\ contract s (OpErase key) None s'.
Proof.
  destruct (shard_of s n total key Hs) as (c & Ec & Hi). pose proof (HashSlice_range key) as Hr. pose proof (si_size _ _ _ _ _ _ Hi) as Hsz.
  destruct (LRU_Erase_spec c _ key (HashSlice key) (si_inv _ _ _ _ _ _ Hi) ltac:(lia) ltac:(lia)) as (c' & E & Hsh & Hno).
  pose proof (held_small (Shard (HashSlice key))) as Hsm. set (i := Shard (HashSlice key)) in *.
  cbn [client_step]. unfold sharded_Erase. fold i. rewrite Ec. cbn [mbind option_bind]. rewrite E. cbn [mbind option_bind].
  eexists. split; [reflexivity|].
  assert (Hi' : shard_inv i c' (cl_held s) (delete key (cl_latest s)) n total).
  { apply (shard_shrunk _ c _ (cl_held s) _ (cl_latest s)); [done|done|by left|]. intros a h Ha Eh. rewrite lookup_delete_ne; [done|].
    destruct (si_cached _ _ _ _ _ _ Hi a (sh_cached _ _ _ Hsh a Ha)) as (h0 & E0 & B1 & _).
    destruct (sh_keeps _ _ _ Hsh a) as (h1 & h2 & E1 & E2 & (_ & _ & G3 & G4)); [set_solver|].
    intros Ekey. apply (Hno a h Ha Eh); congruence. }
  assert (Hinv : client_inv (mkClient (mkSharded (<[i := c']> (shard_ (cl_cache s))) (last_id_ (cl_cache s))) (cl_held s) (delete key (cl_latest s))) (n + 1) total).
  { pose proof (ci_count _ _ _ Hs). apply (update_ok s n _ total _ i c); [done|done| |done|by right| |lia|lia|lia].
    - apply (shard_other _ _ (cl_held s) _ (delete key (cl_latest s)) _ n _ total); [done..|lia|lia].
    - intros k Hk. rewrite lookup_delete_ne; [done|]. by intros <-. }
  split; [exact Hinv|]. split; [intros g v Hg; by eapply client_values|].
  refine (proj2 (lookup_next _ _ key c' _ _ (sh_inv _ _ _ Hsh) _) Hno); [|lia]. apply list_lookup_insert_eq. by eapply lookup_lt_Some.
Qed.

Lemma prune_step : exists s',
  client_step s OpPrune = Some (None, s') /\ client_inv s' (n + 1) total /\ contract s OpPrune None s'.
Proof.
  assert (Hall : forall i c, shard_ (cl_cache s) !! i = Some c -> exists c', LRU_Prune c = Some c' /\ shrunk c c' (held_in i (cl_held s)) /\ lru_ c' = []).
  { intros i c Ec. pose proof (ci_shard _ _ _ Hs i c Ec) as Hi. pose proof (si_size _ _ _ _ _ _ Hi). apply LRU_Prune_spec; [apply Hi|lia]. }
  assert (Hm : exists cs, mapM LRU_Prune (shard_ (cl_cache s)) = Some cs).
  { apply mapM_is_Some, Forall_lookup. intros i c Ec. destruct (Hall i c Ec) as (c' & Ep & _). by exists c'. }
  destruct Hm as [cs Em]. cbn [client_step]. unfold sharded_Prune. rewrite Em. cbn [mbind option_bind]. eexists. split; [reflexivity|].
  apply mapM_Some in Em.
  assert (Hat : forall i c', cs !! i = Some c' -> exists c, shard_ (cl_cache s) !! i = Some c /\ shrunk c c' (held_in i (cl_held s)) /\ lru_ c' = []).
  { intros i c' Ec'. destruct (Forall2_lookup_r _ _ _ _ _ Em Ec') as (c & Ec & Ep). destruct (Hall i c Ec) as (c2 & Ep2 & Hrest).
    rewrite Ep in Ep2. injection Ep2 as <-. by exists c. }
  assert (Hinv : client_inv (mkClient (mkSharded cs (last_id_ (cl_cache s))) (cl_held s) (cl_latest s)) (n + 1) total).
  { pose proof (ci_count _ _ _ Hs). split; cbn [cl_cache shard_ cl_held cl_latest]; [|..|apply Hs|lia].
    - rewrite <- (Forall2_length _ _ _ Em). apply Hs.
    - intros i c' Ec'. destruct (Hat i c' Ec') as (c & Ec & Hsh & _). apply shard_more.
      apply (shard_shrunk _ c _ (cl_held s) _ (cl_latest s)); [by apply (ci_shard _ _ _ Hs)|done|by left|done]. }
  split; [exact Hinv|]. split; [intros g v Hg; by eapply client_values|]. intros i c Ec. by destruct (Hat i c Ec) as (_ & _ & _ & ?).
Qed.
End Steps.

Definition op_charge (op : cache_op) : Z := match op with OpInsert _ _ charge => charge | _ => 0 end.

Lemma client_step_ok (s : client) op n total : client_inv s n total -> n + 1 < 2 ^ 31 - 1 -> 0 <= op_charge op ->
  total + op_charge op < 2 ^ 64 -> exists r s',
  client_step s op = Some (r, s') /\ client_inv s' (n + 1) (total + op_charge op) /\ contract s op r s'.
Proof.
  intros Hs Hn Hc Ht. destruct op as [key value charge|key|i|key|]; cbn [op_charge] in *; rewrite ?Z.add_0_r.
  - destruct (insert_step s n total Hs Hn key value charge Hc Ht) as (s' & Hok). by exists None, s'.
  - by apply lookup_step.
  - destruct (release_step s n total Hs i) as (s' & Hok). by exists None, s'.
  - destruct (erase_step s n total Hs Hn key) as (s' & Hok). by exists None, s'.
  - destruct (prune_step s n total Hs Hn) as (s' & Hok). by exists None, s'.
Qed.

Definition total_charges (ops : list cache_op) : Z := fold_right (fun op t => op_charge op + t) 0 ops.

Lemma run_ok ops : forall s n total, client_inv s n total -> Forall (fun op => 0 <= op_charge op) ops ->
  n + blen ops < 2 ^ 31 - 1 -> total + total_charges ops < 2 ^ 64 ->
  exists s', client_run s ops = Some s' /\ client_inv s' (n + blen ops) (total + total_charges ops).
Proof.
  induction ops as [|op ops IH]; intros s n total Hs Hc Hn Ht; cbn [client_run total_charges fold_right] in *.
  - exists s. split; [done|]. change (blen []) with 0. by rewrite !Z.add_0_r.
  - fold (total_charges ops) in *. apply Forall_cons in Hc as [Hc0 Hc].
    assert (Hpos : 0 <= total_charges ops) by (clear -Hc; induction Hc; simpl; lia).
    assert (Hb : blen (op :: ops) = 1 + blen ops) by (unfold blen; cbn [length]; lia). pose proof (blen_nonneg ops). rewrite Hb in *.
    destruct (client_step_ok s op n total Hs ltac:(lia) Hc0 ltac:(lia)) as (r & s1 & -> & Hs1 & _). cbn [mbind option_bind].
    destruct (IH s1 _ _ Hs1 Hc ltac:(lia) ltac:(lia)) as (s' & -> & Hs'). exists s'. split; [done|].
    replace (n + (1 + blen ops)) with (n + 1 + blen ops) by lia. by rewrite Z.add_assoc.
Qed.

Lemma new_client_inv capacity : client_inv (new_client capacity) 0 0.
Proof.
  unfold new_client, NewLRUCache. set (k := u64 _ / _). split; cbn [cl_cache shard_ cl_held cl_latest].
  - apply length_replicate.
  - intros i c Hc. apply lookup_replicate in Hc as [-> _]. split; try done.
    + assert (Hnil : forall a : nat, a ∉ []) by (intros a Ha; by apply elem_of_nil in Ha).
      split; split; try done; try constructor.
      * intros a [Ha|Ha]; by apply Hnil in Ha.
      * exists 2%nat. split; [lia|done].
      * intros j chain a Hj Ha. apply (lookup_replicate 4) in Hj as [-> _]. by apply Hnil in Ha.
    + intros a Ha. by apply elem_of_nil in Ha.
    + intros a v Ha. by apply elem_of_nil in Ha.
  - intros h v Hh. by apply elem_of_nil in Hh.
  - done.
Qed.

Lemma client_weaken (s : client) n total n' total' : client_inv s n total -> n <= n' -> total <= total' -> client_inv s n' total'.
Proof.
  intros Hs Hn Ht. pose proof (ci_count _ _ _ Hs). split; [apply Hs| |apply Hs|lia]. intros i c Ec.
  apply (shard_other _ _ (cl_held s) _ (cl_latest s) _ n _ total); [|done..]. by apply (ci_shard _ _ _ Hs).
Qed.

(** ** The operations, for the components that use a cache *)

Section Use.
Context (c : ShardedLRUCache V) (held : list (nat * nat * V)) (latest : gmap bytes V) (n total : Z).
Hypothesis c_inv : client_inv (mkClient c held latest) n total.
Hypothesis n_small : n + 1 < 2 ^ 31 - 1.

Lemma use_Lookup key : exists h c', sharded_Lookup c key = Some (h, c') /\
  match h with
  | Some h => exists v, sharded_Value c' h = Some v /\ latest !! key = Some v /\
      client_inv (mkClient c' ((h, v) :: held) latest) (n + 1) total
  | None => client_inv (mkClient c' held latest) (n + 1) total
  end.
Proof.
  destruct (lookup_step _ n total c_inv n_small key) as (r & s' & E & Hs' & Hc). cbn [client_step cl_cache cl_held cl_latest] in E.
  destruct (sharded_Lookup c key) as [ [h c']|]; [|done]. cbn [mbind option_bind] in E. exists h, c'. split; [done|].
  destruct h as [h|]; [|by injection E as <- <-]. destruct (sharded_Value c' h) as [v|]; [|done]. injection E as <- <-.
  exists v. split; [done|]. split; [|done]. by apply (ct_op _ _ _ _ Hc).
Qed.

Lemma use_Insert key value charge : 0 <= charge -> total + charge < 2 ^ 64 ->
  exists h c', sharded_Insert c key value charge = Some (h, c') /\
    client_inv (mkClient c' ((h, value) :: held) (<[key := value]> latest)) (n + 1) (total + charge).
Proof.
  intros H1 H2. destruct (insert_step _ n total c_inv n_small key value charge H1 H2) as (s' & E & Hs' & _). cbn [client_step cl_cache cl_held cl_latest] in E.
  destruct (sharded_Insert c key value charge) as [ [h c']|]; [|done]. injection E as <-. by exists h, c'.
Qed.

Lemma use_Release h v : (h, v) ∈ held -> exists c' held', sharded_Release c h = Some c' /\
  client_inv (mkClient c' held' latest) (n + 1) total.
Proof.
  intros Hin. apply list_elem_of_lookup in Hin as [i Hi].
  destruct (release_step _ n total c_inv i) as (s' & E & Hs' & _). cbn [client_step cl_cache cl_held cl_latest] in E.
  rewrite Hi in E. destruct (sharded_Release c h) as [c'|]; [|done]. injection E as <-. by eexists c', _.
Qed.

Lemma use_Erase key : exists c', sharded_Erase c key = Some c' /\ client_inv (mkClient c' held (delete key latest)) (n + 1) total.
Proof.
  destruct (erase_step _ n total c_inv n_small key) as (s' & E & Hs' & _). cbn [client_step cl_cache cl_held cl_latest] in E.
  destruct (sharded_Erase c key) as [c'|]; [|done]. injection E as <-. by exists c'.
Qed.

Lemma use_Value h v : (h, v) ∈ held -> sharded_Value c h = Some v.
Proof. intros Hin. exact (client_values _ _ _ _ _ c_inv Hin). Qed.
End Use.

(** C17: The cache as its clients see it.  However a client uses the cache,
    releasing only handles that it holds, no assertion of the cache fails, no freed
    handle is used, and every operation meets its contract: the handles that the
    client holds keep their values, whatever is evicted, replaced or erased; a hit
    is the value inserted last for the key; an insertion can be looked up at once,
    and after it the shard is within its capacity or clients hold all its entries;
    an erased key is not found; pruning leaves only what clients hold. *)
Theorem cache_contract capacity ops op :
  Forall (fun op => 0 <= op_charge op) (ops ++ [op]) -> blen ops < 2 ^ 31 - 2 -> total_charges (ops ++ [op]) < 2 ^ 64 ->
  exists s r s', client_run (new_client capacity) ops = Some s /\ client_step s op = Some (r, s') /\ contract s op r s'.
Proof.
  intros Hc Hn Ht. apply Forall_app in Hc as [Hc1 Hc2]. apply Forall_cons in Hc2 as [Hc2 _].
  assert (Et : total_charges (ops ++ [op]) = total_charges ops + op_charge op).
  { clear. induction ops; simpl in *; lia. }
  rewrite Et in Ht. destruct (run_ok ops _ 0 0 (new_client_inv capacity) Hc1 ltac:(lia) ltac:(lia)) as (s & E & Hs).
  destruct (client_step_ok s op _ _ Hs ltac:(lia) Hc2 ltac:(lia)) as (r & s' & E' & _ & Hct). by exists s, r, s'.
Qed.
End Client.

(** Three insertions into one shard, two releases, a lookup. *)
Lemma cache_contract_witness : exists s r s',
  client_run (new_client 16) [OpInsert (str "a") 1%nat 1; OpInsert (str "b") 2%nat 1; OpRelease 0; OpInsert (str "a") 3%nat 1; OpRelease 1]
    = Some s /\ client_step s (OpLookup (str "a")) = Some (r, s') /\ contract s (OpLookup (str "a")) r s'.
Proof. apply cache_contract; [repeat (constructor; [cbn; lia|]); constructor|vm_compute; done|vm_compute; done]. Defined.
