(* ===== verification/TableCache.v ===== *)
(** db/table_cache.h, db/table_cache.cc: the cache of open tables and the lookups
    in a table: through its index block ([Table::InternalGet]) or at the position
    that a learned model predicts ([LevelRead]).  Also [Table::FillData]
    (table/table.cc), which collects the keys that a model learns from and records
    the sizes that [LevelRead] relies on.

    [None] as a result of an operation is a failed assertion or undefined
    behaviour. *)

From stdpp Require Import base list option gmap strings.
From S2P Require Import Prelude Status Coding Crc32c Env Comparator DbFormat Plr VersionEdit LearnedIndex.
From S2P Require Import Filename Iterator Format Bloom FilterBlock Block TableBuilder Table Cache.

#[local] Open Scope Z_scope.

(** The variables of mod/util.cc that [Table::FillData] records from the first
    block that it sees: entries in a block, bytes of a block with its trailer, bytes
    of an entry. *)
Record Layout := mkLayout { block_num_entries : Z; data_block_size : Z; entry_size : Z }.

Section TableCache.
Context {F C T : Type} `{RandomAccessFile F} `{Checksum} `{Snappy} `{BlockCache C} `{Arith T}.
Context (mapped : F -> bool) (comparator : Comparator).
Context (dbname_ : bytes) (options_ : TableOptions).
(** [env_->NewRandomAccessFile]. *)
Context (NewRandomAccessFile : bytes -> Status * option F).

Record TableAndFile := mkTableAndFile { tf_file : F; tf_table : Table F }.
#[local] Abbreviation TC := (ShardedLRUCache TableAndFile).

Definition newTableCache (entries : Z) : TC := NewLRUCache entries.

Definition file_key (file_number : Z) : bytes := EncodeFixed64 file_number.

(** The file of a table, under its new or its old name. *)
Definition open_table_file (file_number : Z) : Status * option F :=
  let '(s, file) := NewRandomAccessFile (TableFileName dbname_ file_number) in
  if ok s then (s, file)
  else
    let '(s', file') := NewRandomAccessFile (SSTTableFileName dbname_ file_number) in
    if ok s' then (OK, file') else (s, file).

(** The status, the handle and the cache after; [new_id] is the id that the block
    cache gives to a table. *)
Definition FindTable (tc : TC) (file_number file_size new_id : Z)
    : option (Status * option (nat * nat) * TC) :=
  '(handle, tc) ← sharded_Lookup tc (file_key file_number);
  match handle with
  | Some h => Some (OK, Some h, tc)
  | None =>
      let '(s, file) := open_table_file file_number in
      if negb (ok s) then Some (s, None, tc)
      else
        file ← file;
        '(s, table) ← Table.Open mapped options_ file file_size new_id;
        if negb (ok s) then match table with None => Some (s, None, tc) | Some _ => None end
        else
          table ← table;
          '(h, tc) ← sharded_Insert tc (file_key file_number) (mkTableAndFile file table) 1;
          Some (s, Some h, tc)
  end.

(** The table under a handle: its iterator, which releases the handle when it is
    deleted ([UnrefEntry]). *)
Definition TableCache_NewIterator (tc : TC) (file_number file_size new_id : Z)
    : option (Status * option (Table F * (nat * nat)) * TC) :=
  '(s, handle, tc) ← FindTable tc file_number file_size new_id;
  if negb (ok s) then Some (s, None, tc)
  else h ← handle; tf ← sharded_Value tc h; Some (s, Some (tf_table tf, h), tc).

Definition UnrefEntry (tc : TC) (h : nat * nat) : option TC := sharded_Release tc h.

Definition Evict (tc : TC) (file_number : Z) : option TC := sharded_Erase tc (file_key file_number).

(** * [Table::FillData] *)

(** [while (block_iter->ParseNextKey())]: the keys from the current position on.
    Every turn reads an entry of at least three bytes. *)
Fixpoint block_keys (fuel : nat) (it : Iter) : option (list bytes) :=
  match fuel with
  | O => None
  | S fuel =>
      '(more, it) ← ParseNextKey it;
      if (more : bool) then keys ← block_keys fuel it; Some (Block.key_ it :: keys) else Some []
  end.

(** The turn for the restart point [i] of the index block: the keys of the block,
    what the block tells of the layout, the cache after. *)
Definition fill_turn (t : Table F) (options : ReadOptions) (cc : option C) (index_iter : Iter) (i : Z)
    : option (list bytes * Layout * Iter * option C) :=
  index_iter ← SeekToRestartPoint index_iter i;
  '(more, index_iter) ← ParseNextKey index_iter;
  if negb more then None
  else
    '(off, len) ← Block.value_ index_iter;
    let index_value := btake len (bdrop off (it_data index_iter)) in
    let '(iter, cc) := BlockReader mapped t options cc index_value in
    match iter with
    | inl _ => None
    | inr block_iter =>
        start ← SeekToRestartPoint block_iter 0;
        keys ← block_keys (S (length (it_data block_iter))) start;
        let '(_, handle, _) := BlockHandle_DecodeFrom newBlockHandle index_value in
        if blen keys =? 0 then None
        else Some (keys, mkLayout (blen keys) (u64 (handle_size handle + kBlockTrailerSize))
                           (it_restarts block_iter / blen keys), index_iter, cc)
    end.

Fixpoint fill_loop (fuel : nat) (t : Table F) (options : ReadOptions) (cc : option C) (index_iter : Iter) (i : Z)
    (recorded : option Layout) (data : LearnedIndexData T)
    : option (option Layout * LearnedIndexData T * option C) :=
  if i <? num_restarts_ index_iter then
    match fuel with
    | O => None
    | S fuel =>
        '(keys, layout, index_iter, cc) ← fill_turn t options cc index_iter i;
        fill_loop fuel t options cc index_iter (i + 1) (Some (default layout recorded)) (fill_block data keys)
    end
  else Some (recorded, data, cc).

(** [recorded] is [None] while [block_num_entries_recorded] is false. *)
Definition Table_FillData (t : Table F) (options : ReadOptions) (cc : option C) (recorded : option Layout)
    (data : LearnedIndexData T) : option (option Layout * LearnedIndexData T * option C) :=
  if filled data then Some (recorded, data, cc)
  else
    match block_iter (table_index t) with
    | inl _ => None
    | inr index_iter =>
        '(recorded, data, cc) ← fill_loop (Z.to_nat (num_restarts_ index_iter)) t options cc index_iter 0 recorded data;
        Some (recorded, with_data data (string_keys data) (num_entries_accumulated data) true, cc)
    end.

Definition TableCache_FillData (tc : TC) (options : ReadOptions) (cc : option C) (meta : FileMetaData) (new_id : Z)
    (recorded : option Layout) (data : LearnedIndexData T)
    : option (bool * TC * option Layout * LearnedIndexData T * option C) :=
  '(s, handle, tc) ← FindTable tc (number meta) (file_size meta) new_id;
  if ok s then
    h ← handle; tf ← sharded_Value tc h;
    '(recorded, data, cc) ← Table_FillData (tf_table tf) options cc recorded data;
    tc ← sharded_Release tc h;
    Some (true, tc, recorded, data, cc)
  else Some (false, tc, recorded, data, cc).

(** * [LevelRead] *)

Section LevelRead.
Context (layout : Layout).

(** The entry at [p]: its key and its value; its key is not shared. *)
Definition entry_at (p : bytes) : option (bytes * bytes) :=
  '(shared, non_shared, value_length, p) ← DecodeEntry p;
  if (shared =? 0) && (non_shared + value_length <=? blen p)
  then Some (btake non_shared p, btake value_length (bdrop non_shared p)) else None.

(** The key of the index entry of the block [i]. *)
Definition index_key (index_block : Block) (i : Z) : option bytes :=
  let restart := restart_offset_ index_block + i * 4 in
  if blen (block_data index_block) <? restart + 4 then None
  else
    let mid_index_entry := DecodeFixed32 (bdrop restart (block_data index_block)) in
    fst <$> entry_at (btake (restart_offset_ index_block - mid_index_entry) (bdrop mid_index_entry (block_data index_block))).

(** The block that the key is in: when the interval overlaps two blocks, the
    largest key of the first one decides. *)
Definition pick_block (table : Table F) (k : bytes) (index_lower index_upper : Z) : option Z :=
  if index_lower =? index_upper then Some index_lower
  else
    mid_key ← index_key (table_index table) index_lower;
    Some (if Compare mid_key k <? 0 then index_upper else index_lower).

(** The binary search between the entries [left] and [right] of the block; the
    bytes start at the entry [pos_block_lower]. *)
Fixpoint level_search (fuel : nat) (entries : bytes) (pos_block_lower : Z) (k : bytes) (left right : Z) : option Z :=
  if left <? right then
    match fuel with
    | O => None
    | S fuel =>
        let mid := u32 (u64 (left + right) / 2) in
        '(mid_key, _) ← entry_at (bdrop (u64 (u64 (mid - pos_block_lower) * entry_size layout)) entries);
        if Compare mid_key k <? 0 then level_search fuel entries pos_block_lower k (mid + 1) right
        else level_search fuel entries pos_block_lower k left mid
    end
  else Some left.

(** [static char scratch[4096]]; a file that is mapped does not use it. *)
Definition kScratch : Z := 4096.

(** From the interval on: the entry that [handle_result] is called with. *)
Definition read_interval (tf : TableAndFile) (k : bytes) (lower upper : Z) : option (option (bytes * bytes)) :=
  if block_num_entries layout =? 0 then None
  else
    let index_lower := lower / block_num_entries layout in
    let index_upper := upper / block_num_entries layout in
    i ← pick_block (tf_table tf) k index_lower index_upper;
    let block_offset := u64 (i * data_block_size layout) in
    if match filter (tf_table tf) with
       | Some (p, reader) => negb (Reader_KeyMayMatch p reader block_offset k)
       | None => false
       end
    then Some None
    else
      let pos_block_lower := if i =? index_lower then lower mod block_num_entries layout else 0 in
      let pos_block_upper := if i =? index_upper then upper mod block_num_entries layout
                             else block_num_entries layout - 1 in
      let read_size := u64 (u64 (pos_block_upper - pos_block_lower + 1) * entry_size layout) in
      if negb (mapped (tf_file tf)) && (kScratch <? read_size) then None
      else
        let '(s, entries) := rRead (tf_file tf) (u64 (block_offset + pos_block_lower * entry_size layout)) read_size in
        if negb (ok s) || negb (blen entries =? read_size) then None
        else
          left ← level_search (Z.to_nat (pos_block_upper - pos_block_lower)) entries pos_block_lower k
                   pos_block_lower pos_block_upper;
          e ← entry_at (bdrop (u64 ((left - pos_block_lower) * entry_size layout)) entries);
          Some (Some e).

(** [lower] and [upper] are of the level model when [learned].  The models of the
    files are [fd].  The handle stays held when the prediction is past the end. *)
Context (file_model_error level_model_error file_allowed_seek : Z).

Definition LevelRead (tc : TC) (fd : FileLearnedIndexData (T := T)) (meta : FileMetaData) (file_size new_id : Z) (k : bytes)
    (lower upper : Z) (learned : bool) : option (option (bytes * bytes) * TC * FileLearnedIndexData (T := T)) :=
  '(_, handle, tc) ← FindTable tc (number meta) file_size new_id;
  h ← handle; tf ← sharded_Value tc h;
  '(bounds, fd) ←
    (if learned then Some (Some (lower, upper), fd)
     else
       let user_key := if blen k <? 8 then [] else ExtractUserKey k in   (* as [ParseInternalKey] leaves it *)
       let n := Z.to_nat (number meta) in
       let '(model, fd) := GetModel file_model_error level_model_error file_allowed_seek fd n in
       '(bounds, model) ← GetPosition model user_key;
       Some (if MaxPosition model <? bounds.1 then None else Some bounds, update_model fd n model));
  match bounds with
  | None => Some (None, tc, fd)
  | Some (lower, upper) =>
      found ← read_interval tf k lower upper;
      tc ← sharded_Release tc h;
      Some (found, tc, fd)
  end.

(** [TableCache::Get]: the status, the entry that [handle_result] is called with,
    whether the file is learned, the tables, models and blocks after. *)
Definition TableCache_Get (MOD : Z) (tc : TC) (fd : FileLearnedIndexData (T := T)) (cc : option C) (options : ReadOptions)
    (meta : FileMetaData) (file_size new_id : Z) (k : bytes) (lower upper : Z) (learned : bool)
    : option (Status * option (bytes * bytes) * option bool * TC * FileLearnedIndexData (T := T) * option C) :=
  let '(file_learned, fd) :=
    if (MOD =? 6) || (MOD =? 7) || (MOD =? 9) then
      let '(l, fd) := file_Learned file_model_error level_model_error file_allowed_seek fd (Z.to_nat (number meta)) in (Some l, fd)
    else (None, fd) in
  if match file_learned with Some l => learned || l | None => false end then
    '(found, tc, fd) ← LevelRead tc fd meta file_size new_id k lower upper learned;
    Some (OK, found, file_learned, tc, fd, cc)
  else
    '(s, handle, tc) ← FindTable tc (number meta) file_size new_id;
    if ok s then
      h ← handle; tf ← sharded_Value tc h;
      '(s, found, cc) ← InternalGet mapped comparator (tf_table tf) options cc k;
      tc ← sharded_Release tc h;
      Some (s, found, file_learned, tc, fd, cc)
    else Some (s, None, file_learned, tc, fd, cc).
End LevelRead.
End TableCache.
Arguments TableAndFile F : clear implicits.
