(* ===== verification/LevelReadProofs.v ===== *)
(** The learned lookup ([LevelRead], db/table_cache.cc) finds what the lookup
    through the index block finds.

    [LevelRead] computes where entries are: it relies on data blocks that hold the
    same number of entries, on entries of the same size, and on blocks that are
    stored as they are.  [uniform] says so of a table; the builder makes such tables
    from entries of one size (TableCacheProofs). *)

From stdpp Require Import base list option sorting strings.
From S2P Require Import Prelude Status Coding Crc32c Env Comparator Iterator Format Bloom FilterBlock Block BlockProofs.
From S2P Require Import TwoLevel TableBuilder Table TableProofs TableGet Cache TableCache.

#[local] Open Scope Z_scope.

(** * Lists cut into pieces of one length *)

Definition pieces {A} (n : nat) (ls : list (list A)) : Prop :=
  forall j l, ls !! j = Some l -> (length l <= n)%nat /\ ((S j < length ls)%nat -> length l = n).

Lemma pieces_tail {A} n (l : list A) ls : pieces n (l :: ls) -> pieces n ls.
Proof. intros Hp j l' Hj. destruct (Hp (S j) l' Hj) as [H1 H2]. split; [done|]. intros Hl. apply H2. simpl. lia. Qed.

Lemma pieces_lookup {A} (n : nat) (ls : list (list A)) : (0 < n)%nat -> pieces n ls -> forall p,
  concat ls !! p = l ← ls !! (p / n)%nat; l !! (p mod n)%nat.
Proof.
  intros Hn. induction ls as [|l ls IH]; intros Hp p; [done|].
  destruct (Hp 0%nat l eq_refl) as [Hle Hfull]. simpl in Hfull. cbn [concat].
  destruct (Nat.lt_ge_cases p n) as [Hlt|Hge].
  - rewrite Nat.div_small, Nat.mod_small by done. cbn. destruct ls as [|l' ls]; [by rewrite app_nil_r|].
    rewrite lookup_app_l; [done|]. rewrite Hfull; simpl; lia.
  - assert (Ed : (p / n = S ((p - n) / n))%nat).
    { replace p with (p - n + 1 * n)%nat at 1 by lia. rewrite Nat.div_add by lia. lia. }
    assert (Em : (p mod n = (p - n) mod n)%nat).
    { replace p with (p - n + 1 * n)%nat at 1 by lia. by rewrite Nat.Div0.mod_add. }
    rewrite Ed, Em, lookup_cons.
    destruct ls as [|l' ls].
    + rewrite app_nil_r, lookup_nil. cbn [mbind option_bind]. apply lookup_ge_None. lia.
    + rewrite lookup_app_r, Hfull by (simpl in *; lia). apply IH. by eapply pieces_tail.
Qed.

Lemma sorted_slice {A} (R : A -> A -> Prop) n m (l : list A) : StronglySorted R l -> StronglySorted R (take n (drop m l)).
Proof.
  intros Hs. rewrite <- (take_drop m l) in Hs. apply sorted_app in Hs as (_ & Hs & _).
  rewrite <- (take_drop n (drop m l)) in Hs. by apply sorted_app in Hs as (? & _).
Qed.

(** * Entries of one size *)

Definition sized (s : Z) (l : list entry) : Prop := Forall (fun e => blen (entry_bytes e) = s) l.

Lemma body_sized s l : sized s l -> blen (body l) = blen l * s.
Proof.
  induction 1 as [|e l He _ IH]; [done|]. rewrite blen_body_cons, He, IH, blen_cons. lia.
Qed.

Lemma off_sized s l i : sized s l -> (i <= length l)%nat -> off l i = Z.of_nat i * s.
Proof.
  intros Hs Hi. unfold off. rewrite (body_sized s) by (by apply Forall_take). unfold blen. by rewrite length_take_le.
Qed.

Lemma entry_at_bytes e rest : blen (entry_bytes e ++ rest) < 2 ^ 32 -> entry_at (entry_bytes e ++ rest) = Some e.
Proof.
  intros Hsz. unfold entry_at. rewrite (DecodeEntry_bytes e rest Hsz). cbn [mbind option_bind]. rewrite Z.eqb_refl, !blen_app.
  pose proof (blen_nonneg rest). replace (blen e.1 + blen e.2 <=? blen e.1 + (blen e.2 + blen rest)) with true by lia. cbn [andb].
  rewrite bdrop_app, !btake_app. by destruct e.
Qed.

Lemma entry_at_body l i e : l !! i = Some e -> blen (body l) < 2 ^ 32 -> entry_at (bdrop (off l i) (body l)) = Some e.
Proof.
  intros Hi Hsz. rewrite (body_from _ _ _ Hi). apply entry_at_bytes. rewrite <- (body_from _ _ _ Hi).
  pose proof (lookup_lt_Some _ _ _ Hi). pose proof (off_nonneg l i). pose proof (off_mono l i (length l) ltac:(lia)) as Hm.
  rewrite off_end in Hm. rewrite blen_bdrop by lia. lia.
Qed.

(** * The search in the block *)

Section Search.
Context {cmp : Comparator} {cmp_ok : ComparatorOk}.
Context (L : Layout) (sub : list entry) (lo : Z) (k : bytes).
Hypothesis sub_sorted : StronglySorted entry_lt sub.
Hypothesis sub_sized : sized (entry_size L) sub.
Hypothesis sub_small : blen (body sub) < 2 ^ 32.
Hypothesis lo_small : 0 <= lo /\ lo + blen sub < 2 ^ 32.

Lemma entry_at_sub i e : sub !! i = Some e ->
  entry_at (bdrop (u64 (u64 (lo + Z.of_nat i - lo) * entry_size L)) (body sub)) = Some e.
Proof.
  intros Hi. pose proof (lookup_lt_Some _ _ _ Hi) as Hlt. pose proof (off_sized _ _ i sub_sized ltac:(lia)) as Hoff.
  pose proof (off_nonneg sub i). pose proof (off_mono sub i (length sub) ltac:(lia)) as Hm. rewrite off_end in Hm.
  unfold blen in lo_small. replace (lo + Z.of_nat i - lo) with (Z.of_nat i) by lia.
  rewrite (u64_small (Z.of_nat i)), <- Hoff, u64_small by lia. by apply entry_at_body.
Qed.

(** The search ends at the first entry at or after the key. *)
Lemma level_search_spec : let pos := seek_index (cmp := cmp) k sub in forall fuel (left right : nat),
  (left <= pos <= right)%nat -> (right < length sub)%nat -> (right - left <= fuel)%nat ->
  level_search cmp L fuel (body sub) lo k (lo + Z.of_nat left) (lo + Z.of_nat right) = Some (lo + Z.of_nat pos).
Proof.
  intros pos. induction fuel as [|fuel IH]; intros left right Hpos Hr Hf; cbn [level_search].
  - destruct (Z.ltb_spec (lo + Z.of_nat left) (lo + Z.of_nat right)); [lia|]. by replace left with pos by lia.
  - destruct (Z.ltb_spec (lo + Z.of_nat left) (lo + Z.of_nat right)) as [Hlt|]; [|by replace left with pos by lia].
    unfold blen in lo_small. rewrite u64_small by lia. set (m := ((Z.of_nat left + Z.of_nat right + 2 * lo) / 2)).
    pose proof (Z.div_mod (Z.of_nat left + Z.of_nat right + 2 * lo) 2 ltac:(lia)) as Hdm.
    pose proof (Z.mod_pos_bound (Z.of_nat left + Z.of_nat right + 2 * lo) 2 ltac:(lia)) as Hmb. fold m in Hdm.
    replace (lo + Z.of_nat left + (lo + Z.of_nat right)) with (Z.of_nat left + Z.of_nat right + 2 * lo) by lia. fold m.
    rewrite u32_small by lia. set (mid := Z.to_nat (m - lo)). assert (Em : m = lo + Z.of_nat mid) by (unfold mid; lia). rewrite Em.
    assert (Hmid : (left <= mid < right)%nat) by lia.
    destruct (lookup_lt_is_Some_2 sub mid ltac:(lia)) as [e He]. rewrite (entry_at_sub _ _ He). cbn [mbind option_bind].
    destruct e as [ke ve]. destruct (Z.ltb_spec (Compare ke k) 0) as [Hc|Hc].
    + replace (lo + Z.of_nat mid + 1) with (lo + Z.of_nat (S mid)) by lia. apply IH; [|done|lia]. split; [|lia].
      destruct (Nat.lt_ge_cases mid pos) as [|Hge]; [lia|]. pose proof (seek_index_after k sub mid _ sub_sorted He Hge) as Ha. simpl in Ha. lia.
    + apply IH; [|lia|lia]. split; [lia|].
      destruct (Nat.lt_ge_cases mid pos) as [Hlt'|]; [|lia]. pose proof (seek_index_before k sub mid _ He Hlt') as Hb. simpl in Hb. lia.
Qed.
End Search.

(** * Uniform tables *)

Section Uniform.
Context {G C : Type} `{RandomAccessFileOk G} `{Checksum} `{SnappyOk} `{BlockCacheOk C}.
Context {cmp : Comparator} {cmp_ok : ComparatorOk}.
Context (mapped : G -> bool) (opt : TableOptions).

Record uniform (L : Layout) (t : Table G) (done : list (list entry * BlockHandle)) : Prop := {
  un_count : 0 < block_num_entries L;
  un_pieces : pieces (Z.to_nat (block_num_entries L)) (map fst done);
  un_sized : sized (entry_size L) (entries done);
  un_index : table_index t = newBlock (block_bytes (index_entries done) (index_ixs done));
  un_at j blk h : done !! j = Some (blk, h) ->
    handle_offset h = Z.of_nat j * data_block_size L /\
    exists pre ixs post, rcontents (table_file t) = pre ++ block_bytes blk ixs ++ post /\ blen pre = handle_offset h;
}.

Section Table.
Context (L : Layout) (t : Table G) (done : list (list entry * BlockHandle)).
Hypothesis t_opened : opened opt t done.
Hypothesis t_uniform : uniform L t done.
Hypothesis entries_fit : table_fits (entries done).
Hypothesis entries_sorted : StronglySorted entry_lt (entries done).
#[local] Abbreviation c := (rcontents (table_file t)).
#[local] Abbreviation N := (Z.to_nat (block_num_entries L)).

Lemma N_pos : (0 < N)%nat.
Proof. pose proof (un_count _ _ _ t_uniform). lia. Qed.

(** Where an entry is. *)
Lemma position p : entries done !! p = d ← done !! (p / N)%nat; d.1 !! (p mod N)%nat.
Proof.
  unfold entries. rewrite (pieces_lookup N _ N_pos (un_pieces _ _ _ t_uniform) p).
  change (map fst done) with (fst <$> done). rewrite list_lookup_fmap. by destruct (done !! _).
Qed.

Lemma block_position j blk h i e : done !! j = Some (blk, h) -> blk !! i = Some e -> entries done !! (j * N + i)%nat = Some e.
Proof.
  intros Hj Hi. pose proof N_pos. rewrite position.
  assert (Hlt : (i < N)%nat).
  { destruct (un_pieces _ _ _ t_uniform j blk) as [Hle _]; [change (map fst done) with (fst <$> done); by rewrite list_lookup_fmap, Hj|].
    pose proof (lookup_lt_Some _ _ _ Hi). lia. }
  rewrite Nat.add_comm, Nat.div_add, Nat.Div0.mod_add, Nat.div_small, Nat.mod_small by lia. rewrite Nat.add_0_l, Hj. done.
Qed.

Lemma full_block j blk h : done !! j = Some (blk, h) -> (S j < length done)%nat -> length blk = N.
Proof.
  intros Hj Hlt. destruct (un_pieces _ _ _ t_uniform j blk) as [_ Hf]; [change (map fst done) with (fst <$> done); by rewrite list_lookup_fmap, Hj|].
  apply Hf. by rewrite length_map.
Qed.

Lemma position_block p e : entries done !! p = Some e -> exists blk h, done !! (p / N)%nat = Some (blk, h) /\ blk !! (p mod N)%nat = Some e.
Proof. rewrite position. destruct (done !! _) as [ [blk h]|]; [|done]. cbn. intros He. by exists blk, h. Qed.

(** Comparisons with the key go by position. *)
Lemma position_compare k p e : entries done !! p = Some e -> (Compare e.1 k < 0 <-> (p < seek_index k (entries done))%nat).
Proof.
  intros Hp. split; [|intros Hlt; by eapply seek_index_before].
  intros Hc. destruct (Nat.lt_ge_cases p (seek_index k (entries done))) as [|Hge]; [done|].
  pose proof (seek_index_after k _ p e entries_sorted Hp Hge). lia.
Qed.

Lemma seek_in_block k j blk h : done !! j = Some (blk, h) -> (j * N <= seek_index k (entries done) < j * N + length blk)%nat ->
  seek_index k blk = (seek_index k (entries done) - j * N)%nat.
Proof.
  intros Hj Hpos. apply seek_index_unique; [lia|..].
  - intros i e Hi Hlt. apply (position_compare k (j * N + i) e); [by eapply block_position|lia].
  - intros e He. destruct (Z.lt_ge_cases (Compare e.1 k) 0) as [Hc|]; [|lia].
    apply (position_compare k (j * N + (seek_index k (entries done) - j * N)) e) in Hc; [lia|by eapply block_position].
Qed.

(** ** The index block *)

Lemma index_restarts : done <> [] -> restarts_ok (index_entries done) (seq 0 (length done)).
Proof.
  intros Hne. assert (Hl : length (index_entries done) = length done) by apply length_map. split; [by destruct done|]. split.
  - clear. generalize (length done). intros n. generalize 0%nat. induction n as [|n IH]; intros a; cbn [seq]; [constructor|]. constructor; [apply IH|].
    apply Forall_forall. intros x Hx. apply elem_of_seq in Hx. lia.
  - apply Forall_forall. intros x Hx. apply elem_of_seq in Hx. lia.
Qed.

Lemma index_key_ok j blk h : done !! j = Some (blk, h) -> index_key (table_index t) (Z.of_nat j) = Some (last_key_of blk).
Proof.
  intros Hj. pose proof (lookup_lt_Some _ _ _ Hj) as Hlt. assert (Hne : done <> []) by by destruct done.
  pose proof (index_restarts Hne) as Hr. pose proof (layout_size opt t done t_opened) as Hsz.
  pose proof (index_size_fits c done _ (layout_stored opt t done t_opened) ltac:(lia) entries_fit Hr) as Hix.
  destruct (newBlock_bytes _ _ Hr Hix) as [Eb _]. unfold index_key.
  assert (Exs : index_ixs done = seq 0 (length done)) by (unfold index_ixs; f_equal; lia). rewrite (un_index _ _ _ t_uniform), Exs, Eb. cbn [restart_offset_ block_data].
  set (ie := index_entries done) in *. assert (Hl : length ie = length done) by apply length_map.
  assert (Hie : ie !! j = Some (last_key_of blk, handle_bytes h)) by (unfold ie, index_entries; change (map ?f done) with (f <$> done); by rewrite list_lookup_fmap, Hj).
  assert (Hseq : blen (seq 0 (length done)) = Z.of_nat (length done)) by (unfold blen; by rewrite length_seq).
  rewrite (blen_block_bytes ie) in *. rewrite Hseq in *. pose proof (blen_nonneg (body ie)).
  replace (_ <? _) with false by lia. unfold block_bytes. rewrite bdrop_app_ge by lia. rewrite Z.add_simpl_l.
  pose proof (off_mono ie j (length ie) ltac:(lia)) as Hm. rewrite off_end in Hm. pose proof (off_nonneg ie j).
  rewrite <- (app_nil_r (concat _)), (read_fixed32 _ _ (off ie j)); [|rewrite lookup_app_l by (rewrite length_map, length_seq; lia)|lia].
  - rewrite bdrop_app_le by lia. rewrite btake_app_n by (apply blen_bdrop; lia). rewrite (entry_at_body _ _ _ Hie) by lia. done.
  - change (map (off ie) ?l) with (off ie <$> l). rewrite list_lookup_fmap, lookup_seq_lt by lia. done.
Qed.

Lemma NZ : block_num_entries L = Z.of_nat N.
Proof. pose proof (un_count _ _ _ t_uniform). lia. Qed.

(** The block that is picked is the one of the position. *)
Lemma pick_block_ok k (lower upper : nat) : let pos := seek_index k (entries done) in
  (lower <= pos <= upper)%nat -> (upper < length (entries done))%nat -> (upper / N <= lower / N + 1)%nat ->
  pick_block cmp t k (Z.of_nat lower / block_num_entries L) (Z.of_nat upper / block_num_entries L) = Some (Z.of_nat (pos / N)).
Proof.
  intros pos Hpos Hup Hspan. pose proof N_pos as HN. rewrite NZ at 1 2. rewrite <- !Nat2Z.inj_div. unfold pick_block.
  pose proof (Nat.Div0.div_le_mono lower pos N ltac:(lia)). pose proof (Nat.Div0.div_le_mono pos upper N ltac:(lia)).
  destruct (Z.eqb_spec (Z.of_nat (lower / N)) (Z.of_nat (upper / N))) as [E|E]; [f_equal; lia|].
  destruct (lookup_lt_is_Some_2 _ _ Hup) as [eu Heu]. destruct (position_block _ _ Heu) as (bu & hu & Hbu & _).
  pose proof (lookup_lt_Some _ _ _ Hbu) as Hlu. set (j := (lower / N)%nat) in *.
  destruct (lookup_lt_is_Some_2 done j ltac:(lia)) as [ [blk h] Hj]. rewrite (index_key_ok _ _ _ Hj). cbn [mbind option_bind].
  pose proof (full_block _ _ _ Hj ltac:(lia)) as Hfull.
  destruct (lookup_lt_is_Some_2 blk (N - 1)%nat ltac:(lia)) as [el Hel].
  assert (Elast : last_key_of blk = el.1).
  { unfold last_key_of. rewrite last_lookup, Hfull. replace (Init.Nat.pred N) with (N - 1)%nat by lia. by rewrite Hel. }
  pose proof (position_compare k _ _ (block_position _ _ _ _ _ Hj Hel)) as Hcmp. fold pos in Hcmp. rewrite Elast.
  pose proof (Nat.div_mod_eq pos N) as Hdm. pose proof (Nat.mod_upper_bound pos N ltac:(lia)).
  destruct (Z.ltb_spec (Compare el.1 k) 0) as [Hc|Hc].
  - apply Hcmp in Hc. f_equal. f_equal. destruct (decide (pos / N = j)%nat) as [Ej|]; [|lia]. rewrite Ej in Hdm. nia.
  - f_equal. f_equal. destruct (decide (pos / N = j)%nat) as [|Ej]; [done|]. exfalso.
    assert (Hj1 : (pos / N)%nat = (j + 1)%nat) by lia. assert (Compare el.1 k < 0); [|lia]. apply Hcmp. rewrite Hj1 in Hdm. nia.
Qed.

(** ** The read *)

Lemma block_bounds j blk h : done !! j = Some (blk, h) -> sized (entry_size L) blk /\ StronglySorted entry_lt blk /\
  blen (body blk) < 2 ^ 32 /\ 3 * blen blk <= blen (body blk) /\ 0 <= handle_offset h /\ handle_offset h + blen (body blk) <= blen c.
Proof.
  intros Hj. pose proof (layout_stored opt t done t_opened) as Hst. pose proof (layout_size opt t done t_opened) as Hsz.
  assert (Hin : (blk, h) ∈ done) by by eapply list_elem_of_lookup_2.
  rewrite Forall_forall in Hst. destruct (Hst _ Hin) as [_ (ixs & Hr & _)].
  pose proof (block_size_fits c blk h done ixs Hin (layout_stored opt t done t_opened) entries_fit Hr) as Hb.
  rewrite blen_block_bytes in Hb. pose proof (blen_nonneg ixs). split.
  { apply Forall_forall. intros e He. pose proof (un_sized _ _ _ t_uniform) as Hs. unfold sized in Hs. rewrite Forall_forall in Hs. apply Hs.
    apply list_elem_of_lookup in He as [i Hi]. eapply list_elem_of_lookup_2, block_position; done. }
  split; [eapply block_sorted; done|]. split; [lia|]. split.
  { pose proof (off_mono blk 0 (length blk) ltac:(lia)) as Hm. rewrite off_end, off_0, Nat.sub_0_r in Hm. unfold blen at 1. lia. }
  destruct (un_at _ _ _ t_uniform j blk h Hj) as [Ho (pre & ixs' & post & Ec & Ep)]. rewrite <- Ep. split; [apply blen_nonneg|].
  rewrite Ec, !blen_app, blen_block_bytes. pose proof (blen_nonneg ixs'). pose proof (blen_nonneg post). lia.
Qed.

Lemma read_entries j blk h (pl pu : nat) : done !! j = Some (blk, h) -> (pl <= pu < length blk)%nat ->
  rRead (table_file t) (handle_offset h + Z.of_nat pl * entry_size L) ((Z.of_nat pu - Z.of_nat pl + 1) * entry_size L) =
    (OK, body (take (S pu - pl) (drop pl blk))).
Proof.
  intros Hj Hp. destruct (block_bounds _ _ _ Hj) as (Hs & _ & Hb & Hb3 & Hh & Hc).
  pose proof (off_sized _ blk pl Hs ltac:(lia)) as Hol. pose proof (off_sized _ blk (S pu) Hs ltac:(lia)) as Hou.
  pose proof (off_mono blk pl (S pu) ltac:(lia)) as M1. pose proof (off_mono blk (S pu) (length blk) ltac:(lia)) as M2. rewrite off_end in M2.
  pose proof (off_nonneg blk pl). rewrite rRead_ok by nia. do 2 f_equal.
  destruct (un_at _ _ _ t_uniform j blk h Hj) as [_ (pre & ixs & post & Ec & Ep)]. rewrite Ec, <- Hol.
  rewrite bdrop_app_ge by lia. replace (handle_offset h + off blk pl - blen pre) with (off blk pl) by lia.
  unfold block_bytes. rewrite <- app_assoc, bdrop_app_le by lia.
  assert (Eb : bdrop (off blk pl) (body blk) = body (take (S pu - pl) (drop pl blk)) ++ body (drop (S pu) blk)).
  { rewrite <- (take_drop pl blk) at 2. rewrite body_app. unfold off. rewrite bdrop_app. rewrite <- body_app. f_equal.
    rewrite <- (take_drop (S pu - pl) (drop pl blk)) at 1. rewrite drop_drop. do 2 f_equal. lia. }
  rewrite Eb, <- app_assoc, btake_app_n; [done|].
  assert (Hs' : sized (entry_size L) (take (S pu - pl) (drop pl blk))) by by apply Forall_take, Forall_drop.
  rewrite (body_sized _ _ Hs'). unfold blen. rewrite length_take_le by (rewrite length_drop; lia). f_equal. lia.
Qed.

(** The part of the interval that is in the block of the position. *)
Lemma block_interval k (lower upper : nat) blk h : let pos := seek_index k (entries done) in let j := (pos / N)%nat in
  done !! j = Some (blk, h) -> (lower <= pos <= upper)%nat -> (upper < length (entries done))%nat ->
  let pl := if (j =? lower / N)%nat then (lower mod N)%nat else 0%nat in
  let pu := if (j =? upper / N)%nat then (upper mod N)%nat else (N - 1)%nat in
  (pl <= pos mod N <= pu)%nat /\ (pu < length blk)%nat /\ (pu - pl <= upper - lower)%nat.
Proof.
  intros pos j Hj Hpos Hup pl pu. pose proof N_pos as HN.
  pose proof (Nat.div_mod_eq pos N) as Dp. pose proof (Nat.div_mod_eq lower N) as Dl. pose proof (Nat.div_mod_eq upper N) as Du.
  pose proof (Nat.mod_upper_bound pos N ltac:(lia)). pose proof (Nat.mod_upper_bound lower N ltac:(lia)). pose proof (Nat.mod_upper_bound upper N ltac:(lia)).
  pose proof (Nat.Div0.div_le_mono lower pos N ltac:(lia)) as Dlp. pose proof (Nat.Div0.div_le_mono pos upper N ltac:(lia)) as Dpu. fold j in Dp, Dlp, Dpu.
  destruct (lookup_lt_is_Some_2 _ _ Hup) as [eu Heu]. destruct (position_block _ _ Heu) as (bu & hu & Hbu & Hiu).
  pose proof (lookup_lt_Some _ _ _ Hbu) as Hlu.
  assert (Hlow : (pl <= pos mod N)%nat) by (unfold pl; destruct (Nat.eqb_spec j (lower / N)); nia).
  assert (Hhigh : (pos mod N <= pu)%nat) by (unfold pu; destruct (Nat.eqb_spec j (upper / N)); nia).
  split; [lia|]. split; [|unfold pl, pu; destruct (Nat.eqb_spec j (lower / N)), (Nat.eqb_spec j (upper / N)); nia].
  unfold pu. destruct (Nat.eqb_spec j (upper / N)) as [E|E].
  - rewrite <- E, Hj in Hbu. injection Hbu as <- <-. by eapply lookup_lt_Some.
  - rewrite (full_block _ _ _ Hj) by lia. lia.
Qed.

Section Lookup.
Context (same : bytes -> bytes -> Prop).
Hypothesis same_key : forall name p k k' f, filter_policy opt = Some (name, p) -> same k k' ->
  @KeyMayMatch p k f = @KeyMayMatch p k' f.
Hypothesis policy_ok : forall name p, filter_policy opt = Some (name, p) ->
  exists Hok : @FilterPolicyOk p, forall ks, blen ks <= 1 + 2 * blen (entries done) -> @filter_fits p Hok ks.

Lemma read_interval_ok tf k (lower upper : nat) : let pos := seek_index k (entries done) in
  tf_table tf = t -> tf_file tf = table_file t ->
  (lower <= pos <= upper)%nat -> (upper < length (entries done))%nat -> (upper / N <= lower / N + 1)%nat ->
  (mapped (table_file t) = true \/ Z.of_nat (upper - lower + 1) * entry_size L <= kScratch) ->
  exists found, read_interval mapped cmp L tf k (Z.of_nat lower) (Z.of_nat upper) = Some found /\
    answers opt same (entries done) k found.
Proof.
  intros pos Et Ef Hpos Hup Hspan Hscratch. pose proof N_pos as HN. pose proof NZ as EN.
  destruct (lookup_lt_is_Some_2 (entries done) pos ltac:(lia)) as [e He].
  destruct (position_block _ _ He) as (blk & h & Hj & Hie). set (j := (pos / N)%nat) in *.
  destruct (block_bounds _ _ _ Hj) as (Hs & Hsort & Hb & Hb3 & Hh & Hc). pose proof (layout_size opt t done t_opened) as Hsz.
  destruct (un_at _ _ _ t_uniform j blk h Hj) as [Ho _]. pose proof (blen_nonneg blk).
  pose proof (block_interval k lower upper blk h Hj Hpos Hup) as Hbi. cbv zeta in Hbi. fold pos in Hbi. fold j in Hbi.
  set (pl := if (j =? lower / N)%nat then (lower mod N)%nat else 0%nat) in *.
  set (pu := if (j =? upper / N)%nat then (upper mod N)%nat else (N - 1)%nat) in *.
  destruct Hbi as (Hin & Hpu & Hwidth).
  assert (Hfind : List.find (fun e => 0 <=? Compare e.1 k) (entries done) = Some e) by (rewrite <- seek_index_find; exact He).
  unfold read_interval. rewrite Et, Ef. replace (block_num_entries L =? 0) with false by lia.
  rewrite (pick_block_ok k lower upper Hpos Hup Hspan). cbn [mbind option_bind]. fold pos j.
  rewrite <- Ho, (u64_small (handle_offset h)) by lia.
  destruct (match filter t with Some (p, r) => negb (Reader_KeyMayMatch p r (handle_offset h) k) | None => false end) eqn:Erej.
  { exists None. split; [done|]. right. rewrite Hfind. destruct (filter t) as [ [p r]|] eqn:Eflt; [|done]. split; [done|]. split.
    - intros En. pose proof (op_filter _ _ _ t_opened) as Hof. unfold filter_opened in Hof. rewrite En in Hof. congruence.
    - intros e' [= <-] Hsame. apply negb_true_iff in Erej.
      rewrite (filter_passes opt t done t_opened same same_key policy_ok p r j blk h k e Eflt Hj) in Erej; [done|by eapply list_elem_of_lookup_2|done]. }
  assert (Epl : (if Z.of_nat j =? Z.of_nat lower / block_num_entries L then Z.of_nat lower mod block_num_entries L else 0) = Z.of_nat pl).
  { rewrite EN, <- Nat2Z.inj_div, <- Nat2Z.inj_mod. unfold pl. destruct (Nat.eqb_spec j (lower / N)), (Z.eqb_spec (Z.of_nat j) (Z.of_nat (lower / N))); lia. }
  assert (Epu : (if Z.of_nat j =? Z.of_nat upper / block_num_entries L then Z.of_nat upper mod block_num_entries L else block_num_entries L - 1) = Z.of_nat pu).
  { rewrite EN, <- Nat2Z.inj_div, <- Nat2Z.inj_mod. unfold pu. destruct (Nat.eqb_spec j (upper / N)), (Z.eqb_spec (Z.of_nat j) (Z.of_nat (upper / N))); lia. }
  rewrite Epl, Epu. set (sub := take (S pu - pl) (drop pl blk)).
  assert (Hsubl : length sub = (S pu - pl)%nat) by (unfold sub; rewrite length_take_le; [done|rewrite length_drop; lia]).
  assert (Hss : sized (entry_size L) sub) by by apply Forall_take, Forall_drop.
  pose proof (body_sized _ _ Hss) as Hbs. unfold blen in Hbs at 2. rewrite Hsubl in Hbs.
  assert (Hsubb : off blk pl + blen (body sub) <= blen (body blk)).
  { rewrite (off_sized _ _ pl Hs) by lia. rewrite Hbs, (body_sized _ _ Hs). pose proof (off_mono blk 0 (length blk) ltac:(lia)) as Hm.
    rewrite off_end, off_0, (body_sized _ _ Hs) in Hm. unfold blen in *. nia. }
  rewrite (off_sized _ _ pl Hs) in Hsubb by lia. pose proof (blen_nonneg (body sub)). unfold blen in Hb3 at 1.
  assert (Hpe : 0 <= Z.of_nat pl * entry_size L) by (rewrite <- (off_sized _ blk pl Hs) by lia; apply off_nonneg).
  rewrite (u64_small (Z.of_nat pu - Z.of_nat pl + 1)) by lia.
  assert (Esize : (Z.of_nat pu - Z.of_nat pl + 1) * entry_size L = blen (body sub)) by (rewrite Hbs; f_equal; lia).
  rewrite Esize, (u64_small (blen (body sub))), (u64_small (handle_offset h + _)) by lia.
  assert (Hbuf : (negb (mapped (table_file t)) && (kScratch <? blen (body sub))) = false).
  { destruct Hscratch as [-> |Hsc]; [done|]. apply andb_false_iff. right. apply Z.ltb_ge. rewrite Hbs.
    assert (Hes : 0 <= entry_size L) by (destruct sub as [|e0 sub']; [simpl in Hsubl; lia|]; apply Forall_cons in Hss as [<- _]; apply blen_nonneg).
    etrans; [|exact Hsc]. apply Z.mul_le_mono_nonneg_r; [done|lia]. }
  rewrite Hbuf, <- Esize, (read_entries j blk h pl pu Hj ltac:(lia)). fold sub. cbn [ok negb orb]. rewrite Esize, Z.eqb_refl. cbn [negb].
  assert (Hsubsort : StronglySorted entry_lt sub) by by apply sorted_slice.
  assert (Hlook : forall i, (i < S pu - pl)%nat -> sub !! i = blk !! (pl + i)%nat).
  { intros i Hi. unfold sub. rewrite lookup_take. rewrite decide_True by done. apply lookup_drop. }
  assert (Hseek : seek_index k sub = (pos mod N - pl)%nat).
  { apply seek_index_unique; [lia|..].
    - intros i e' Hi Hlt. rewrite Hlook in Hi by lia. apply (position_compare k (j * N + (pl + i)) e'); [by eapply block_position|].
      pose proof (Nat.div_mod_eq pos N) as Hdm. fold j in Hdm. fold pos. nia.
    - intros e' Hi. rewrite Hlook in Hi by lia. replace (pl + (pos mod N - pl))%nat with (pos mod N)%nat in Hi by lia.
      rewrite Hie in Hi. injection Hi as <-. by apply (seek_index_at k (entries done)). }
  pose proof (level_search_spec L sub (Z.of_nat pl) k Hsubsort Hss ltac:(lia)) as Hsearch. cbv zeta in Hsearch. rewrite Hseek in Hsearch.
  assert (Hlo : 0 <= Z.of_nat pl /\ Z.of_nat pl + blen sub < 2 ^ 32) by (unfold blen; rewrite Hsubl; lia).
  specialize (Hsearch Hlo (Z.to_nat (Z.of_nat pu - Z.of_nat pl)) 0%nat (pu - pl)%nat ltac:(lia) ltac:(lia) ltac:(lia)).
  replace (Z.of_nat pl + Z.of_nat 0) with (Z.of_nat pl) in Hsearch by lia. replace (Z.of_nat pl + Z.of_nat (pu - pl)) with (Z.of_nat pu) in Hsearch by lia.
  rewrite Hsearch. cbn [mbind option_bind].
  assert (Hsi : sub !! (pos mod N - pl)%nat = Some e) by (rewrite Hlook by lia; replace (pl + (pos mod N - pl))%nat with (pos mod N)%nat by lia; exact Hie).
  pose proof (entry_at_sub L sub (Z.of_nat pl) Hss ltac:(lia) Hlo _ _ Hsi) as Hent.
  replace (Z.of_nat pl + Z.of_nat (pos mod N - pl) - Z.of_nat pl) with (Z.of_nat (pos mod N - pl)) in * by lia.
  rewrite (u64_small (Z.of_nat (pos mod N - pl))) in Hent by (unfold blen in Hlo; lia). rewrite Hent. cbn [mbind option_bind].
  exists (Some e). split; [done|]. left. by rewrite Hfind.
Qed.
End Lookup.
End Table.
End Uniform.
