(* ===== verification/TableCacheProofs.v ===== *)
(** The table cache (TableCache): whatever lookups and evictions were made before,
    a lookup in a table finds what the table holds, through the index block as at
    the position that a model predicts.

    First the tables that LevelRead can read: the builder (table/table_builder.cc), fed
    with entries of one size and without compression, makes data blocks with the
    same number of entries, one after the other, each entry at a multiple of the
    size ([uniform] of LevelReadProofs). *)

From stdpp Require Import base list option gmap sets sorting strings.
From Stdlib Require Import QArith.QArith_base.
From S2P Require Import Prelude Status Coding Crc32c Env Comparator DbFormat Plr VersionEdit LearnedIndex Filename Iterator Format Bloom FilterBlock Block BlockProofs.
From S2P Require Import Version VersionGet VersionGetProofs TwoLevel TableBuilder Table TableProofs TableGet Cache CacheProofs CacheClient TableCache LevelReadProofs.

#[local] Open Scope Z_scope.

(** * The size of a block is known from the number of its entries *)

Definition same_shape (b b' : BlockBuilder) : Prop :=
  blen (buffer_ b) = blen (buffer_ b') /\ blen (restarts_ b) = blen (restarts_ b') /\ counter_ b = counter_ b'.

Lemma Add_buffer interval b e : entry_fits e -> buffer_ (BlockBuilder_Add interval b e.1 e.2) = buffer_ b ++ entry_bytes e.
Proof.
  intros [Hk Hv]. pose proof (blen_nonneg e.1). pose proof (blen_nonneg e.2). unfold BlockBuilder_Add.
  assert (E : (PutVarint32 (PutVarint32 (PutVarint32 (buffer_ b) 0) (u32 (blen e.1 - 0))) (u32 (blen e.2)) ++
      btake (blen e.1 - 0) (bdrop 0 e.1)) ++ e.2 = buffer_ b ++ entry_bytes e).
  { unfold PutVarint32. rewrite Z.sub_0_r, !u32_small by lia. rewrite bdrop_0, btake_all by lia. unfold entry_bytes. by rewrite <- !app_assoc. }
  by destruct (counter_ b <? interval).
Qed.

Lemma Add_shape interval b b' e e' : same_shape b b' -> entry_fits e -> entry_fits e' ->
  blen (entry_bytes e) = blen (entry_bytes e') ->
  same_shape (BlockBuilder_Add interval b e.1 e.2) (BlockBuilder_Add interval b' e'.1 e'.2).
Proof.
  intros (H1 & H2 & H3) He He' Hs. unfold same_shape. rewrite !Add_buffer, !blen_app by done. split; [lia|].
  unfold BlockBuilder_Add. rewrite H3. destruct (counter_ b' <? interval); cbn [restarts_ counter_]; [done|].
  rewrite !blen_app, H2. done.
Qed.

Lemma add_entries_shape interval s l : forall l' b b', length l = length l' -> sized s l -> sized s l' ->
  Forall entry_fits l -> Forall entry_fits l' -> same_shape b b' ->
  same_shape (add_entries interval l b) (add_entries interval l' b').
Proof.
  induction l as [|e l IH]; intros [|e' l'] b b' Hl Hs Hs' Hf Hf' Hb; simpl in Hl; try done.
  apply Forall_cons in Hs as [He Hs], Hs' as [He' Hs'], Hf as [Hfe Hf], Hf' as [Hfe' Hf'].
  simpl. apply IH; try done; [lia|]. apply Add_shape; [done..|congruence].
Qed.

Lemma add_entries_snoc interval l e b : add_entries interval (l ++ [e]) b = BlockBuilder_Add interval (add_entries interval l b) e.1 e.2.
Proof. unfold add_entries. by rewrite fold_left_app. Qed.

Section Uniform.
Context {F G C : Type} `{WritableFileOk F} `{RandomAccessFileOk G} `{Checksum} `{SnappyOk} `{BlockCacheOk C}.
Context {cmp : Comparator} {cmp_ok : ComparatorOk}.
Context (mapped : G -> bool) (opt : TableOptions).
Hypothesis interval_ok : 1 <= block_restart_interval opt.
Hypothesis plain : compression opt <> kSnappyCompression.
Context (s : Z).

Definition block_of (blk : list entry) : BlockBuilder := add_entries (block_restart_interval opt) blk newBlockBuilder.
Definition estimate (blk : list entry) : Z := CurrentSizeEstimate (block_of blk).
Definition data_bytes (blk : list entry) : bytes := fst (BlockBuilder_Finish (block_of blk)).
Definition stored (done : list (list entry * BlockHandle)) : bytes :=
  concat (map (fun d => stored_block kNoCompression (data_bytes d.1)) done).

Definition not_full_before (blk : list entry) : Prop :=
  forall n, (0 < n < length blk)%nat -> estimate (take n blk) < block_size opt.
Definition full (blk : list entry) : Prop := block_size opt <= estimate blk /\ not_full_before blk.

(** The handles of blocks that lie one after the other. *)
Definition placed (done : list (list entry * BlockHandle)) : Prop :=
  forall j blk h, done !! j = Some (blk, h) -> h = mkHandle (blen (stored (take j done))) (blen (data_bytes blk)).

Record uinv (r : Rep F) (done : list (list entry * BlockHandle)) (cur : list entry) : Prop := {
  ui_data : data_block r = block_of cur;
  ui_open n : (0 < n <= length cur)%nat -> estimate (take n cur) < block_size opt;
  ui_full d : d ∈ done -> full d.1;
  ui_contents : contents_of r = stored done;
  ui_placed : placed done;
}.

Lemma stored_snoc done d : stored (done ++ [d]) = stored done ++ stored_block kNoCompression (data_bytes d.1).
Proof. unfold stored. rewrite map_app, concat_app. simpl. by rewrite app_nil_r. Qed.

Lemma placed_snoc done blk : placed done -> placed (done ++ [(blk, mkHandle (blen (stored done)) (blen (data_bytes blk)))]).
Proof.
  intros Hp j blk' h Hj. apply lookup_snoc_Some in Hj as [ [Hlt Hj]|[-> E] ].
  - rewrite take_app_le by lia. by apply Hp.
  - injection E as <- <-. by rewrite take_app_length.
Qed.

(** The block is written. *)
Lemma Flush_uniform r done cur fops : tinv opt r done cur fops -> uinv r done cur -> pending_index_entry r = false ->
  table_fits (entries done ++ cur) -> cur <> [] ->
  exists h fops', tinv opt (Flush r) (done ++ [(cur, h)]) [] fops' /\
    contents_of (Flush r) = stored (done ++ [(cur, h)]) /\ placed (done ++ [(cur, h)]).
Proof.
  intros Hi Hu Hp Hf Hne. destruct (Flush_ok opt r done cur fops Hi Hp Hf Hne) as (h & fops' & Hi' & Hplain).
  destruct (Hplain plain) as [Hc ->]. rewrite (ui_data _ _ _ Hu) in *. fold (data_bytes cur) in *. rewrite (ui_contents _ _ _ Hu) in *.
  exists (mkHandle (blen (stored done)) (blen (data_bytes cur))), fops'. split; [done|]. rewrite stored_snoc. split; [done|].
  apply placed_snoc, Hu.
Qed.

Lemma Add_uniform r done cur fops e : tinv opt r done cur fops -> uinv r done cur -> table_fits (entries done ++ cur ++ [e]) ->
  exists done' cur' fops', tinv opt (TableBuilder_Add r e.1 e.2) done' cur' fops' /\
    (cur' <> [] -> pending_index_entry (TableBuilder_Add r e.1 e.2) = false) /\
    entries done' ++ cur' = entries done ++ cur ++ [e] /\ uinv (TableBuilder_Add r e.1 e.2) done' cur'.
Proof.
  intros Hi Hu Hf. destruct (add_entry_ok opt interval_ok r done cur fops e Hi Hf) as (fops1 & Hi1 & Hp1 & Hd1 & Hc1).
  rewrite (Add_unfold r e (ti_clean _ _ _ _ _ Hi)), (ti_opt _ _ _ _ _ Hi1).
  assert (Hdata : data_block (add_entry r e) = block_of (cur ++ [e])) by (rewrite Hd1, (ui_data _ _ _ Hu); unfold block_of; by rewrite add_entries_snoc).
  assert (Hopen : forall n, (0 < n < length (cur ++ [e]))%nat -> estimate (take n (cur ++ [e])) < block_size opt).
  { intros n Hn. rewrite length_app in Hn. simpl in Hn. rewrite take_app_le by lia. apply (ui_open _ _ _ Hu). lia. }
  rewrite Hdata. fold (estimate (cur ++ [e])). destruct (Z.leb_spec (block_size opt) (estimate (cur ++ [e]))) as [Hle|Hlt].
  - destruct (Flush_ok opt _ _ _ _ Hi1 Hp1 Hf ltac:(by destruct cur)) as (h & fops' & Hi' & Hplain).
    destruct (Hplain plain) as [Hc ->]. rewrite Hdata in *. fold (data_bytes (cur ++ [e])) in *. rewrite Hc1, (ui_contents _ _ _ Hu) in *.
    eexists _, [], fops'. split; [exact Hi'|]. split; [done|]. rewrite app_nil_r, entries_snoc. split; [done|]. split.
    + by apply (ti_fresh _ _ _ _ _ Hi').
    + intros n Hn. simpl in Hn. lia.
    + intros d Hd. apply elem_of_app in Hd as [Hd|Hd]; [by apply (ui_full _ _ _ Hu)|]. apply list_elem_of_singleton in Hd as ->. split; [done|]. exact Hopen.
    + by rewrite stored_snoc.
    + apply placed_snoc, Hu.
  - exists done, (cur ++ [e]), fops1. split; [done|]. split; [done|]. split; [done|]. split; [done| |apply Hu|by rewrite Hc1; apply Hu|apply Hu].
    intros n Hn. destruct (decide (n = length (cur ++ [e]))) as [-> |Hne]; [by rewrite firstn_all|]. apply Hopen. lia.
Qed.

Lemma add_all_uniform l : forall r done cur fops, tinv opt r done cur fops -> uinv r done cur ->
  (cur <> [] -> pending_index_entry r = false) -> table_fits (entries done ++ cur ++ l) ->
  exists done' cur' fops', tinv opt (add_all l r) done' cur' fops' /\
    (cur' <> [] -> pending_index_entry (add_all l r) = false) /\
    entries done' ++ cur' = entries done ++ cur ++ l /\ uinv (add_all l r) done' cur'.
Proof.
  induction l as [|e l IH]; intros r done cur fops Hi Hu Hp Hf; simpl.
  - exists done, cur, fops. by rewrite app_nil_r.
  - assert (Hf1 : table_fits (entries done ++ cur ++ [e])).
    { replace (entries done ++ cur ++ e :: l) with ((entries done ++ cur ++ [e]) ++ l) in Hf
        by (by rewrite <- !app_assoc). by apply table_fits_app in Hf as [? _]. }
    destruct (Add_uniform r done cur fops e Hi Hu Hf1) as (done1 & cur1 & fops1 & Hi1 & Hp1 & E1 & Hu1).
    assert (E : entries done ++ cur ++ e :: l = (entries done1 ++ cur1) ++ l)
      by (rewrite E1, <- !app_assoc; done).
    rewrite E in Hf |- *. rewrite <- app_assoc in Hf |- *. by eapply IH.
Qed.

Lemma new_uniform f : wcontents f = [] -> uinv (newTableBuilder opt f) [] [].
Proof.
  intros Hf. unfold newTableBuilder. destruct (on_filter_same (fun p b => StartBlock p b 0)
    (mkRep opt (with_restart_interval opt 1) f 0 OK newBlockBuilder newBlockBuilder [] 0 false
      (match filter_policy opt with Some (_, p) => Some (p, newFilterBlockBuilder) | None => None end) false newBlockHandle)) as [b ->].
  split; [done|..].
  - intros n Hn. simpl in Hn. lia.
  - intros d Hd. by apply elem_of_nil in Hd.
  - unfold contents_of. simpl. by rewrite Hf.
  - intros j blk h Hj. done.
Qed.

(** The blocks of the finished table: all but the last one are full. *)
Definition blocks_made (done : list (list entry * BlockHandle)) : Prop :=
  forall j blk h, done !! j = Some (blk, h) -> not_full_before blk /\ ((S j < length done)%nat -> full blk).

Lemma final_flush r done cur fops : tinv opt r done cur fops -> uinv r done cur ->
  (cur <> [] -> pending_index_entry r = false) -> table_fits (entries done ++ cur) ->
  exists done' fops', tinv opt (Flush r) done' [] fops' /\ entries done' = entries done ++ cur /\
    contents_of (Flush r) = stored done' /\ placed done' /\ blocks_made done'.
Proof.
  intros Hi Hu Hp Hf. destruct (decide (cur = [])) as [-> |Hne].
  - exists done, fops. assert (Efl : Flush r = r).
    { unfold Flush, builder_ok. rewrite (proj1 (ti_clean _ _ _ _ _ Hi)). cbn [ok negb]. by rewrite (ti_fresh _ _ _ _ _ Hi eq_refl). }
    rewrite Efl, app_nil_r. split; [done|]. split; [done|]. split; [apply Hu|]. split; [apply Hu|].
    intros j blk h Hj. assert (Hfull : full blk) by (apply (ui_full _ _ _ Hu (blk, h)); by eapply list_elem_of_lookup_2).
    split; [apply Hfull|done].
  - destruct (Flush_uniform r done cur fops Hi Hu (Hp Hne) Hf Hne) as (h & fops' & Hi' & Hc & Hpl).
    exists (done ++ [(cur, h)]), fops'. rewrite entries_snoc. split; [done|]. split; [done|]. split; [done|]. split; [done|].
    intros j blk h' Hj. apply lookup_snoc_Some in Hj as [ [Hlt Hj]|[-> E] ].
    + assert (Hfull : full blk) by (apply (ui_full _ _ _ Hu (blk, h')); by eapply list_elem_of_lookup_2). split; [apply Hfull|done].
    + injection E as <- <-. rewrite length_app. simpl. split; [|lia]. intros n Hn. apply (ui_open _ _ _ Hu). lia.
Qed.

(** ** Uniformity *)

Definition fits (blk : list entry) : Prop := sized s blk /\ Forall entry_fits blk.

Lemma fits_take n blk : fits blk -> fits (take n blk).
Proof. intros [H1' H2']. split; by apply Forall_take. Qed.

Lemma same_length blk blk' : fits blk -> fits blk' -> length blk = length blk' -> same_shape (block_of blk) (block_of blk').
Proof. intros [Hs Hf] [Hs' Hf'] Hl. by apply (add_entries_shape _ s). Qed.

Lemma estimate_length blk blk' : fits blk -> fits blk' -> length blk = length blk' -> estimate blk = estimate blk'.
Proof.
  intros Hb Hb' Hl. destruct (same_length _ _ Hb Hb' Hl) as (E1 & E2 & _). unfold estimate, CurrentSizeEstimate. by rewrite E1, E2.
Qed.

Lemma data_bytes_built blk : Forall entry_fits blk -> exists ixs, data_bytes blk = block_bytes blk ixs /\
  blen (data_bytes blk) = blen (buffer_ (block_of blk)) + 4 * blen (restarts_ (block_of blk)) + 4.
Proof.
  intros Hf. destruct (add_entries_built (block_restart_interval opt) blk _ _ _ new_built Hf) as (ixs & Hb); [simpl; lia|].
  rewrite app_nil_l in Hb. fold (block_of blk) in Hb. exists ixs. unfold data_bytes. rewrite (Finish_built _ _ _ Hb). split; [done|].
  rewrite blen_block_bytes, (built_buffer _ _ _ Hb), (built_restarts _ _ _ Hb).
  by assert (blen (map u32 (map (off blk) ixs)) = blen ixs) as -> by (unfold blen; by rewrite !length_map).
Qed.

Lemma data_bytes_length blk blk' : fits blk -> fits blk' -> length blk = length blk' -> blen (data_bytes blk) = blen (data_bytes blk').
Proof.
  intros Hb Hb' Hl. destruct (same_length _ _ Hb Hb' Hl) as (E1 & E2 & _).
  destruct (data_bytes_built blk (proj2 Hb)) as (_ & _ & ->), (data_bytes_built blk' (proj2 Hb')) as (_ & _ & ->). by rewrite E1, E2.
Qed.

(** A block that is not full before its end is not longer than a full one. *)
Lemma full_longest b0 blk : fits b0 -> fits blk -> b0 <> [] -> full b0 -> not_full_before blk -> (length blk <= length b0)%nat.
Proof.
  intros Hb0 Hb Hne [Hfull _] Hn. destruct (Nat.le_gt_cases (length blk) (length b0)) as [|Hgt]; [done|]. exfalso.
  assert (Hl : length (take (length b0) blk) = length b0) by (rewrite length_take; lia).
  assert (Hpos : (0 < length b0)%nat) by (destruct b0; [done|simpl; lia]).
  specialize (Hn (length b0) ltac:(lia)). rewrite (estimate_length _ b0 (fits_take _ _ Hb) Hb0 Hl) in Hn. lia.
Qed.

(** What [Table::FillData] records from a block. *)
Definition layout_of (b0 : list entry) : Layout := mkLayout (blen b0) (blen (data_bytes b0) + kBlockTrailerSize) s.

Section Reference.
Context (b0 : list entry) (b0_fits : fits b0) (b0_full : full b0) (b0_some : b0 <> []).

Lemma made_lengths done : blocks_made done -> Forall (fun d => fits d.1 /\ d.1 <> []) done -> forall j blk h, done !! j = Some (blk, h) ->
  (length blk <= length b0)%nat /\ ((S j < length done)%nat -> length blk = length b0).
Proof.
  intros Hm Hf j blk h Hj. destruct (Hm j blk h Hj) as [Hn Hfull]. rewrite Forall_forall in Hf.
  destruct (Hf (blk, h) (list_elem_of_lookup_2 _ _ _ Hj)) as [Hb Hne]. simpl in Hb, Hne.
  pose proof (full_longest b0 blk b0_fits Hb b0_some b0_full Hn) as Hle. split; [done|]. intros Hlt.
  pose proof (full_longest blk b0 Hb b0_fits Hne (Hfull Hlt) (proj2 b0_full)). lia.
Qed.

Lemma stored_length done n : Forall (fun d => fits d.1) (take n done) -> (forall d, d ∈ take n done -> length d.1 = length b0) -> (n <= length done)%nat ->
  blen (stored (take n done)) = Z.of_nat n * data_block_size (layout_of b0).
Proof.
  induction n as [|n IH]; intros Hf Hl Hn; [done|]. destruct (lookup_lt_is_Some_2 done n ltac:(lia)) as [d Hd].
  rewrite (take_S_r _ _ _ Hd) in *. apply Forall_app in Hf as [Hf Hfd]. rewrite Forall_singleton in Hfd.
  rewrite stored_snoc, blen_app, blen_stored_block, IH by (try done; try lia; intros d' Hd'; apply Hl; set_solver).
  rewrite (data_bytes_length d.1 b0 Hfd b0_fits) by (apply Hl; set_solver). cbn [layout_of data_block_size]. lia.
Qed.

(** The table that is built from entries of the size is uniform. *)
Lemma build_uniform l f g id : buildable opt l f -> sized s l ->
  exists r, build opt l f = (OK, r) /\
    (rcontents g = wcontents (file r) ->
     exists t done, Open mapped opt g (FileSize r) id = Some (OK, Some t) /\ opened opt t done /\ table_file t = g /\
       entries done = l /\ uniform (layout_of b0) t done).
Proof.
  intros (Hint & Hf & Hs & Hfit & Hname & Hsmall) Hsz. unfold build.
  destruct (newTableBuilder_ok opt f Hf) as (fops & Hi).
  destruct (add_all_uniform l _ _ _ _ Hi (new_uniform f Hf)) as (dn & cur & fops' & Hi' & Hp & E & Hu); [done|done|].
  simpl in E. rewrite <- E in Hfit.
  destruct (final_flush _ _ _ _ Hi' Hu Hp Hfit) as (done & fops2 & Hi2 & Ee & Hc2 & Hpl & Hm). rewrite <- Ee in Hfit.
  destruct (Finish_flushed opt interval_ok _ _ _ Hi2 Hfit Hname Hsmall) as (r & x & Er & Ex & Hl & Hfs).
  exists r. split; [done|]. intros Hg. fold (contents_of r) in Hg. rewrite <- Hg in *.
  destruct (Open_ok mapped opt g done id Hl Hfit Hname) as (t & Ho & Hop & Et & _).
  exists t, done. rewrite Hfs. split; [done|]. split; [done|]. split; [done|]. split; [congruence|].
  assert (Hel : entries done = l) by congruence.
  assert (Hblocks : Forall (fun d => fits d.1 /\ d.1 <> []) done).
  { apply Forall_forall. intros [blk h] Hd. pose proof (tl_done _ _ _ Hl) as Hst. rewrite Forall_forall in Hst.
    destruct (Hst _ Hd) as [Hne _]. split; [|done]. apply list_elem_of_lookup in Hd as [j Hj].
    assert (Hsub : forall e, e ∈ blk -> e ∈ l).
    { intros e He. rewrite <- Hel, (entries_split done j blk h Hj). set_solver. }
    split; apply Forall_forall; intros e He; simpl in He; [|by eapply fits_entry; [exact Hfit|rewrite Hel; apply Hsub] ].
    unfold sized in Hsz. rewrite Forall_forall in Hsz. by apply Hsz, Hsub. }
  pose proof (made_lengths done Hm Hblocks) as Hlen.
  assert (Hfits : forall n, Forall (fun d => fits d.1) (take n done)) by (intros n; apply Forall_take; eapply Forall_impl; [exact Hblocks|]; by intros ? [? _]).
  assert (Hb0pos : (0 < length b0)%nat) by (destruct b0; [done|simpl; lia]).
  split; cbn [layout_of block_num_entries entry_size].
  - unfold blen. lia.
  - unfold blen. rewrite Nat2Z.id. intros j blk Hj. change (map fst done) with (fst <$> done) in *. rewrite list_lookup_fmap in Hj.
    destruct (done !! j) as [ [blk' h]|] eqn:Ej; [|done]. injection Hj as <-. rewrite length_fmap. by apply (Hlen j _ h).
  - by rewrite Hel.
  - destruct (op_index _ _ _ Hop) as (ixs & _ & -> & ->). done.
  - intros j blk h Hj. pose proof (lookup_lt_Some _ _ _ Hj) as Hjl. rewrite (Hpl j blk h Hj). cbn [handle_offset].
    assert (Hoff : blen (stored (take j done)) = Z.of_nat j * data_block_size (layout_of b0)).
    { apply stored_length; [apply Hfits| |lia]. intros [bl hl] Hd. apply list_elem_of_lookup in Hd as [i Hd]. apply lookup_take_Some in Hd as [Hd Hi0].
      apply (Hlen i bl hl Hd). lia. }
    split; [exact Hoff|]. assert (Hff : Forall entry_fits blk).
    { rewrite Forall_forall in Hblocks. destruct (Hblocks (blk, h)) as [ [_ ?] _]; [by eapply list_elem_of_lookup_2|done]. }
    destruct (data_bytes_built blk Hff) as (ixs & Eb & _).
    assert (Est : stored done = stored (take j done) ++ stored_block kNoCompression (data_bytes blk) ++ stored (drop (S j) done)).
    { unfold stored. rewrite <- (take_drop_middle done j _ Hj) at 1. by rewrite map_app, concat_app. }
    exists (stored (take j done)), ixs. eexists. split; [|done].
    rewrite Et, Ex, Hc2, <- Eb, Est. unfold stored_block. by rewrite <- !app_assoc.
Qed.
End Reference.
End Uniform.

(** * The cache of tables *)

Section Proofs.
Context {F G C T : Type} `{WritableFileOk F} `{RandomAccessFileOk G} `{Checksum} `{SnappyOk} `{BlockCacheOk C} `{Arith T}.
Context {cmp : Comparator} {cmp_ok : ComparatorOk}.
Context (mapped : G -> bool) (opt : TableOptions) (dbname : bytes) (NewRandomAccessFile : bytes -> Status * option G).
Hypothesis interval_ok : 1 <= block_restart_interval opt.
Hypothesis plain : compression opt <> kSnappyCompression.
(** The size of the entries, and the full block that the layout was recorded
    from. *)
Context (s : Z) (b0 : list entry) (b0_fits : fits s b0) (b0_full : full opt b0) (b0_some : b0 <> []).
#[local] Abbreviation L := (layout_of opt s b0).
#[local] Abbreviation TC := (ShardedLRUCache (TableAndFile G)).

(** The keys that the filter policy does not tell apart. *)
Context (same : bytes -> bytes -> Prop).
Hypothesis same_key : forall name p k k' f, filter_policy opt = Some (name, p) -> same k k' ->
  @KeyMayMatch p k f = @KeyMayMatch p k' f.

(** The tables on disk: the entries and the size of each file. *)
Context (tables : Z -> option (list entry * Z)).
Hypothesis policy_ok : forall name p, filter_policy opt = Some (name, p) ->
  exists Hok : @FilterPolicyOk p, forall num l size ks, tables num = Some (l, size) ->
    blen ks <= 1 + 2 * blen l -> @filter_fits p Hok ks.

Definition table_in_file (num : Z) (l : list entry) (size : Z) : Prop :=
  exists (f : F) r g, buildable opt l f /\ sized s l /\ build opt l f = (OK, r) /\ FileSize r = size /\
    NewRandomAccessFile (TableFileName dbname num) = (OK, Some g) /\ rcontents g = wcontents (file r).

Hypothesis disk : forall num l size, tables num = Some (l, size) -> 0 <= num < 2 ^ 64 /\ table_in_file num l size.

(** An open table of these entries. *)
Definition good (l : list entry) (tf : TableAndFile G) : Prop :=
  tf_file tf = table_file (tf_table tf) /\ table_fits l /\ StronglySorted entry_lt l /\
  exists done, opened opt (tf_table tf) done /\ entries done = l /\ uniform L (tf_table tf) done.

Definition tc_state (tc : TC) (held : list (nat * nat * TableAndFile G)) (n : Z) : Prop :=
  exists latest, client_inv (mkClient tc held latest) n n /\
    forall num l size tf, tables num = Some (l, size) -> latest !! file_key num = Some tf -> good l tf.

Lemma file_key_inj a b : 0 <= a < 2 ^ 64 -> 0 <= b < 2 ^ 64 -> file_key a = file_key b -> a = b.
Proof.
  intros Ha Hb E. unfold file_key in E. pose proof (DecodeFixed64_app a []) as D. rewrite E, DecodeFixed64_app, !Z.mod_small in D by done. done.
Qed.

(** A table is found open, or opened. *)
Lemma FindTable_ok tc held n num l size id : tc_state tc held n -> n + 2 < 2 ^ 31 - 1 -> tables num = Some (l, size) ->
  exists h tc' tf, FindTable mapped dbname opt NewRandomAccessFile tc num size id = Some (OK, Some h, tc') /\
    sharded_Value tc' h = Some tf /\ good l tf /\ tc_state tc' ((h, tf) :: held) (n + 2).
Proof.
  intros (latest & Hinv & Hgood) Hn Htab. unfold FindTable.
  destruct (use_Lookup tc held latest n n Hinv ltac:(lia) (file_key num)) as (h & tc1 & -> & Hl). cbn [mbind option_bind].
  destruct h as [h|].
  - destruct Hl as (tf & Hv & Hlat & Hinv1). exists h, tc1, tf. split; [done|]. split; [done|]. split; [by eapply Hgood|].
    exists latest. split; [|done]. eapply client_weaken; [exact Hinv1|lia|lia].
  - destruct (disk num l size Htab) as (Hnum & f & r & g & Hb & Hs & Hbuild & Hsz & Hopen & Hc).
    unfold open_table_file. rewrite Hopen. cbn [ok negb mbind option_bind].
    destruct (build_uniform mapped opt interval_ok plain s b0 b0_fits b0_full b0_some l f g id Hb Hs) as (r' & Er' & Ho).
    rewrite Hbuild in Er'. injection Er' as <-. destruct (Ho Hc) as (t & done & Et & Hop & Hfile & He & Hu). rewrite <- Hsz, Et. cbn [mbind option_bind ok negb].
    destruct (use_Insert tc1 held latest _ _ Hl ltac:(lia) (file_key num) (mkTableAndFile g t) 1 ltac:(lia) ltac:(lia)) as (h & tc2 & -> & Hinv2).
    cbn [mbind option_bind]. set (tf := mkTableAndFile g t) in *.
    assert (Hg : good l tf).
    { pose proof Hb as (_ & _ & Hsort & Hfit & _). split; [done|]. split; [done|]. split; [done|]. by exists done. }
    exists h, tc2, tf. split; [done|]. split; [exact (use_Value _ _ _ _ _ Hinv2 h tf ltac:(left))|]. split; [done|].
    eexists. split; [eapply client_weaken; [exact Hinv2|lia|lia]|]. intros num' l' size' tf' Htab' Hlat.
    destruct (decide (file_key num = file_key num')) as [Ek|Ek].
    + destruct (disk _ _ _ Htab') as [Hnum' _]. apply file_key_inj in Ek; [|done|done]. subst num'.
      rewrite lookup_insert_eq in Hlat. injection Hlat as <-. rewrite Htab in Htab'. injection Htab' as <- _. done.
    + rewrite lookup_insert_ne in Hlat by done. by eapply Hgood.
Qed.

Lemma Release_ok tc held n h tf : tc_state tc ((h, tf) :: held) n -> n + 1 < 2 ^ 31 - 1 ->
  exists tc' held', sharded_Release tc h = Some tc' /\ tc_state tc' held' (n + 1).
Proof.
  intros (latest & Hinv & Hgood) Hn. destruct (use_Release tc _ latest n n Hinv h tf ltac:(left)) as (tc' & held' & -> & Hinv').
  exists tc', held'. split; [done|]. exists latest. split; [eapply client_weaken; [exact Hinv'|lia|lia]|done].
Qed.

Lemma Evict_ok tc held n num : tc_state tc held n -> n + 1 < 2 ^ 31 - 1 ->
  exists tc', Evict tc num = Some tc' /\ tc_state tc' held (n + 1).
Proof.
  intros (latest & Hinv & Hgood) Hn. unfold Evict. destruct (use_Erase tc held latest n n Hinv Hn (file_key num)) as (tc' & -> & Hinv').
  exists tc'. split; [done|]. eexists. split; [eapply client_weaken; [exact Hinv'|lia|lia]|].
  intros num' l size tf Htab Hlat. apply lookup_delete_Some in Hlat as [_ Hlat]. by eapply Hgood.
Qed.

(** * Lookups *)

(** The answer: the first entry at or after the key; nothing only when that entry
    is of another key. *)
Definition reads (l : list entry) (k : bytes) (found : option entry) : Prop :=
  let first := List.find (fun e => 0 <=? Compare e.1 k) l in
  found = first \/ found = None /\ forall e, first = Some e -> ~ same k e.1.

Lemma answers_reads l k found : answers opt same l k found -> reads l k found.
Proof. intros [Hf|(Hf & _ & Hn)]; [by left|by right]. Qed.

(** The interval contains the position of the key, overlaps two blocks at most, and
    fits in the buffer. *)
Definition covers (l : list entry) (k : bytes) (lower upper : Z) : Prop :=
  exists lo hi : nat, lower = Z.of_nat lo /\ upper = Z.of_nat hi /\ (lo <= seek_index k l <= hi)%nat /\
    (hi < length l)%nat /\ (hi / length b0 <= lo / length b0 + 1)%nat /\ Z.of_nat (hi - lo + 1) * s <= kScratch.

Lemma read_interval_good l tf k lower upper : good l tf -> (exists num size, tables num = Some (l, size)) -> covers l k lower upper ->
  exists found, read_interval mapped cmp L tf k lower upper = Some found /\ reads l k found.
Proof.
  intros (Hfile & Hfit & Hsort & done & Hop & He & Hu) (num & size & Htab) (lo & hi & -> & -> & Hpos & Hhi & Hspan & Hbuf). subst l.
  destruct (read_interval_ok mapped opt L (tf_table tf) done Hop Hu Hfit Hsort same same_key) with (tf := tf) (k := k) (lower := lo) (upper := hi)
    as (found & Ef & Ha); try done.
  - intros name p Hp. destruct (policy_ok name p Hp) as [Hok Hks]. exists Hok. intros ks Hl. by eapply Hks.
  - cbn [layout_of block_num_entries]. unfold blen. rewrite Nat2Z.id. done.
  - by right.
  - exists found. split; [done|by apply answers_reads].
Qed.

Section Get.
Context (e1 e2 e3 : Z).

(** A model of the file that predicts well, or knows that the key is not there. *)
Definition predicts (l : list entry) (fd : FileLearnedIndexData (T := T)) (num : Z) (k : bytes) : Prop :=
  8 <= blen k /\
  exists lo hi model', GetPosition (GetModel e1 e2 e3 fd (Z.to_nat num)).1 (ExtractUserKey k) = Some ((lo, hi), model') /\
    if MaxPosition model' <? lo then forall e, List.find (fun e => 0 <=? Compare e.1 k) l = Some e -> ~ same k e.1 else covers l k lo hi.

Lemma LevelRead_ok tc held n fd meta l size id k lower upper learned : tc_state tc held n -> n + 4 < 2 ^ 31 - 1 ->
  tables (number meta) = Some (l, size) ->
  (if learned : bool then covers l k lower upper else predicts l fd (number meta) k) ->
  exists found tc' fd' held', LevelRead mapped cmp dbname opt NewRandomAccessFile L e1 e2 e3 tc fd meta size id k lower upper learned = Some (found, tc', fd') /\
    reads l k found /\ tc_state tc' held' (n + 4).
Proof.
  intros Hst Hn Htab Hpred. unfold LevelRead.
  destruct (FindTable_ok tc held n (number meta) l size id Hst ltac:(lia) Htab) as (h & tc1 & tf & -> & Hv & Hg & Hst1). cbn [mbind option_bind].
  rewrite Hv. cbn [mbind option_bind].
  assert (Hdone : forall lo hi fd0, covers l k lo hi -> exists found tc' fd' held',
    (found ← read_interval mapped cmp L tf k lo hi; tc' ← sharded_Release tc1 h; Some (found, tc', fd0)) = Some (found, tc', fd' : FileLearnedIndexData (T := T)) /\
    reads l k found /\ tc_state tc' held' (n + 4)).
  { intros lo hi fd0 Hc. destruct (read_interval_good l tf k lo hi Hg ltac:(eauto) Hc) as (found & -> & Hr). cbn [mbind option_bind].
    destruct (Release_ok tc1 held (n + 2) h tf Hst1 ltac:(lia)) as (tc2 & held' & -> & Hst2). cbn [mbind option_bind].
    exists found, tc2, fd0, held'. split; [done|]. split; [done|]. destruct Hst2 as (latest & Hinv & Hgd). exists latest. split; [|done]. eapply client_weaken; [exact Hinv|lia|lia]. }
  destruct learned; [by apply Hdone|]. destruct Hpred as (Hk & lo & hi & model' & Hgp & Hcase).
  replace (blen k <? 8) with false by lia. destruct (GetModel e1 e2 e3 fd (Z.to_nat (number meta))) as [model fd1] eqn:Em. cbn [fst] in Hgp. rewrite Hgp.
  cbn [mbind option_bind fst]. destruct (MaxPosition model' <? lo); [|by apply Hdone].
  exists None, tc1, (update_model fd1 (Z.to_nat (number meta)) model'), ((h, tf) :: held). split; [done|]. split; [by right|].
  destruct Hst1 as (latest & Hinv & Hgd). exists latest. split; [|done]. eapply client_weaken; [exact Hinv|lia|lia].
Qed.

(** The premise of a lookup: when the code takes the path of a model, the model
    predicts well. *)
Definition prediction_ok (MOD : Z) (l : list entry) (fd : FileLearnedIndexData (T := T)) (num : Z) (k : bytes) (lower upper : Z) (learned : bool) : Prop :=
  (MOD = 6 \/ MOD = 7 \/ MOD = 9) ->
  if learned then covers l k lower upper
  else (file_Learned e1 e2 e3 fd (Z.to_nat num)).1 = true -> predicts l (file_Learned e1 e2 e3 fd (Z.to_nat num)).2 num k.

Lemma TableCache_Get_ok MOD tc held n fd ro meta l size id k lower upper learned : tc_state tc held n -> n + 4 < 2 ^ 31 - 1 ->
  tables (number meta) = Some (l, size) -> prediction_ok MOD l fd (number meta) k lower upper learned ->
  exists found fl tc' fd' held', TableCache_Get mapped cmp dbname opt NewRandomAccessFile L e1 e2 e3 MOD tc fd (None (A := C)) ro meta size id k lower upper learned
      = Some (OK, found, fl, tc', fd', None) /\ reads l k found /\ tc_state tc' held' (n + 4).
Proof.
  intros Hst Hn Htab Hpred. unfold TableCache_Get.
  destruct (file_Learned e1 e2 e3 fd (Z.to_nat (number meta))) as [fl fd1] eqn:El. unfold prediction_ok in Hpred. rewrite El in Hpred. cbn [fst snd] in Hpred.
  assert (Hbase : forall flo fdo, exists found fl' tc' fd' held',
    ('(s0, handle, tc) ← FindTable mapped dbname opt NewRandomAccessFile tc (number meta) size id;
     if ok s0 then h ← handle; tf ← sharded_Value tc h; '(s1, found, cc) ← InternalGet mapped cmp (tf_table tf) ro (None (A := C)) k;
       tc ← sharded_Release tc h; Some (s1, found, flo, tc, fdo, cc)
     else Some (s0, None, flo, tc, fdo, None)) = Some (OK, found, fl' : option bool, tc', fd' : FileLearnedIndexData (T := T), None (A := C)) /\
     reads l k found /\ tc_state tc' held' (n + 4)).
  { intros flo fdo. destruct (FindTable_ok tc held n (number meta) l size id Hst ltac:(lia) Htab) as (h & tc1 & tf & -> & Hv & Hg & Hst1). cbn [mbind option_bind ok].
    rewrite Hv. cbn [mbind option_bind]. destruct Hg as (_ & Hfit & Hsort & done & Hop & He & Hu). subst l.
    destruct (InternalGet_ok (C := C) mapped opt (tf_table tf) done Hop Hfit Hsort same same_key) with (ro := ro) (cc := None (A := C)) (k := k)
      as (found & cc' & -> & Ha & _ & Hcc); [|done|].
    { intros name p Hp. destruct (policy_ok name p Hp) as [Hok Hks]. exists Hok. intros ks Hl. by eapply Hks. }
    cbn [mbind option_bind]. rewrite (Hcc eq_refl).
    destruct (Release_ok tc1 held (n + 2) h tf Hst1 ltac:(lia)) as (tc2 & held' & -> & Hst2). cbn [mbind option_bind].
    exists found, flo, tc2, fdo, held'. split; [done|]. split; [by apply answers_reads|].
    destruct Hst2 as (latest & Hinv & Hgd). exists latest. split; [|done]. eapply client_weaken; [exact Hinv|lia|lia]. }
  destruct ((MOD =? 6) || (MOD =? 7) || (MOD =? 9)) eqn:Emod; [|apply Hbase].
  destruct (learned || fl) eqn:Elf; [|apply Hbase].
  destruct (LevelRead_ok tc held n fd1 meta l size id k lower upper learned Hst Hn Htab) as (found & tc' & fd' & held' & -> & Hr & Hst').
  { specialize (Hpred ltac:(lia)). destruct learned; [done|]. by apply Hpred. }
  cbn [mbind option_bind]. by exists found, (Some fl), tc', fd', held'.
Qed.

(** The states that lookups and evictions lead to; the number bounds the operations
    of the cache below. *)
Inductive tc_reach : TC -> Z -> Prop :=
| reach_new entries : tc_reach (newTableCache entries) 0
| reach_get tc n MOD fd ro meta l size id k lower upper learned st found fl tc' fd' cc' :
    tc_reach tc n -> n + 4 < 2 ^ 31 - 1 -> tables (number meta) = Some (l, size) -> prediction_ok MOD l fd (number meta) k lower upper learned ->
    TableCache_Get mapped cmp dbname opt NewRandomAccessFile L e1 e2 e3 MOD tc fd (None (A := C)) ro meta size id k lower upper learned =
      Some (st, found, fl, tc', fd', cc') -> tc_reach tc' (n + 4)
| reach_evict tc n num tc' : tc_reach tc n -> n + 4 < 2 ^ 31 - 1 -> Evict tc num = Some tc' -> tc_reach tc' (n + 4).

Lemma tc_reach_state tc n : tc_reach tc n -> exists held, tc_state tc held n.
Proof.
  induction 1 as [entries|tc n MOD fd ro meta l size id k lower upper learned st found fl tc' fd' cc' _ [held IH] Hn Htab Hp E|tc n num tc' _ [held IH] Hn E].
  - exists [], ∅. split; [apply new_client_inv|]. intros num l size tf _ Hl. by rewrite lookup_empty in Hl.
  - destruct (TableCache_Get_ok MOD tc held n fd ro meta l size id k lower upper learned IH Hn Htab Hp) as (x & y & tc1 & z & held' & E' & _ & Hst).
    rewrite E in E'. injection E' as _ _ _ <- _ _. by exists held'.
  - destruct (Evict_ok tc held n num IH ltac:(lia)) as (tc1 & E' & latest & Hinv & Hg). rewrite E in E'. injection E' as <-.
    exists held, latest. split; [|done]. eapply client_weaken; [exact Hinv|lia|lia].
Qed.

End Get.
End Proofs.

(** * A concrete table *)

(** Blocks of four entries. *)
Definition uniform_options : TableOptions :=
  mkTableOptions 30 2 kNoCompression (Some (str "bloom", NewBloomFilterPolicy 10)) true.

Lemma uniform_buildable : @buildable flat_file _ _ (crc32c_checksum 0) no_snappy BytewiseComparator uniform_options demo_entries [].
Proof.
  split; [simpl; lia|]. split; [done|]. split; [|split; [vm_compute; reflexivity|split; [vm_compute; reflexivity|]]].
  - repeat (apply SSorted_cons; [|repeat (apply Forall_cons; split; [reflexivity|]); apply Forall_nil_2]).
    apply SSorted_nil.
  - vm_compute. reflexivity.
Defined.

#[local] Abbreviation demo_built := (@build flat_file _ (crc32c_checksum 0) no_snappy uniform_options demo_entries []).
Definition demo_env (name : bytes) : Status * option flat_file :=
  if slice_eqb name (TableFileName (str "db") 5) then (OK, Some (file (snd demo_built))) else (IOError name (str "not found"), None).
Definition demo_tables (num : Z) : option (list entry * Z) :=
  if num =? 5 then Some (demo_entries, FileSize (snd demo_built)) else None.
Definition demo_meta : FileMetaData := mkFileMetaData 0 100 5 (FileSize (snd demo_built)) (str "a") (str "e") 5.

Lemma demo_status : fst demo_built = OK.
Proof. vm_compute. reflexivity. Defined.

Lemma flat_same (x : flat_file) : rcontents x = wcontents x.
Proof. reflexivity. Defined.

Lemma demo_built_eq : demo_built = (OK, snd demo_built).
Proof. generalize demo_status. generalize demo_built as b. intros [st r] E. simpl in E |- *. by rewrite E. Defined.

Lemma demo_env_ok : demo_env (TableFileName (str "db") 5) = (OK, Some (file (snd demo_built))).
Proof. unfold demo_env. by rewrite (proj2 (slice_eqb_spec _ _) eq_refl). Defined.

Lemma demo_tables_inv num l size : demo_tables num = Some (l, size) -> num = 5 /\ l = demo_entries /\ size = FileSize (snd demo_built).
Proof.
  unfold demo_tables. generalize (FileSize (snd demo_built)) as sz. generalize demo_entries as es. intros es sz.
  destruct (Z.eqb_spec num 5) as [-> |]; [|done]. by intros [= <- <-].
Qed.


(** * A snapshot that the learned path does not respect *)

Definition snapshot_key (user : bytes) (seq : Z) : bytes := AppendInternalKey [] (mkParsed user seq kTypeValue).
Definition snapshot_entries : list entry := [(snapshot_key (str "a") 5, str "old"); (snapshot_key (str "b") 7, str "new")].
Definition snapshot_options : TableOptions := mkTableOptions 4096 1 kNoCompression None false.
#[local] Abbreviation snapshot_built := (@build flat_file _ (crc32c_checksum 0) no_snappy snapshot_options snapshot_entries []).

(** [LevelRead] does not compare the last entry of the interval with the key.
    A table holds "b", written at the sequence number 7, as its last entry; a reader
    at the snapshot 3 looks "b" up.  The interval that a model predicts never ends
    after the last entry, so that the binary search ends there: the learned path
    hands the entry over, and the reader is given a value that was written after its
    snapshot.  The path through the index block finds nothing. *)
Theorem level_read_ignores_snapshot :
  let k := snapshot_key (str "b") 3 in
  let g := file (snd snapshot_built) in
  let icmp := InternalKeyComparator BytewiseComparator in
  let saver := mkSaver kNotFound (str "b") [] in
  ('(_, t) ← @Open flat_file _ (crc32c_checksum 0) no_snappy (fun _ => false) snapshot_options g (FileSize (snd snapshot_built)) 0;
   t ← t;
   '(st, indexed, _) ← @InternalGet flat_file assoc_cache _ (crc32c_checksum 0) no_snappy _ (fun _ => false) icmp t newReadOptions None k;
   learned ← read_interval (fun _ => false) icmp (layout_of snapshot_options 15 snapshot_entries) (mkTableAndFile g t) k 0 1;
   learned ← learned;
   Some (st, indexed, SaveValue BytewiseComparator saver learned.1 learned.2)) =
  Some (OK, None, mkSaver kFound (str "b") (str "new")).
Proof. vm_compute. reflexivity. Qed.

(** * Tables on disk as the table reader of [Version::Get]

    VersionGetProofs, DbGet and DbScan are proved for any reader of tables that
    meets [TableReaderOk].  The path of [TableCache::Get] through the index block
    meets it on the tables that the builder has written; what the cache keeps does
    not change the answer ([table_cache_get_correct]). *)

Section DiskReader.
Context {F G C : Type} `{HF : WritableFileOk F} `{HG : RandomAccessFileOk G} `{Hck : !Checksum} `{HS : SnappyOk} `{HC : BlockCacheOk C}.
Context (user : Comparator) {Huser : @ComparatorOk user} (mapped : G -> bool) (opt : TableOptions) (dbname : bytes).
Context (NewRandomAccessFile : bytes -> Status * option G) (id : Z) (ro : ReadOptions).
#[local] Abbreviation icmp := (InternalKeyComparator user).

(** [FindTable] of a table that is not cached and [InternalGet]; [None] is a failed
    assertion. *)
Definition disk_get (f : FileMetaData) (ikey : bytes) : option (Status * option (bytes * bytes)) :=
  let '(s, file) := open_table_file dbname NewRandomAccessFile (number f) in
  if negb (ok s) then Some (s, None)
  else
    file ← file;
    '(s, table) ← Open mapped opt file (file_size f) id;
    if negb (ok s) then Some (s, None)
    else
      table ← table;
      '(s, found, _) ← InternalGet mapped icmp table ro (None (A := C)) ikey;
      Some (s, found).

Definition disk_reader : TableReader := {|
  table_get f ikey := default (Corruption (str "assertion") [], None) (disk_get f ikey) |}.

(** The tables on disk: their entries and sizes by number. *)
Context (tables : Z -> option (list entry * Z)).
Definition same_user (k k' : bytes) : Prop := @Compare user (ExtractUserKey k) (ExtractUserKey k') = 0.

Record on_disk : Prop := {
  od_built num l size : tables num = Some (l, size) -> exists (f : F) r g,
    buildable (cmp := icmp) opt l f /\ build opt l f = (OK, r) /\ size = FileSize r /\
    NewRandomAccessFile (TableFileName dbname num) = (OK, Some g) /\ rcontents g = wcontents (file r);
  od_same name p k k' x : filter_policy opt = Some (name, p) -> same_user k k' -> @KeyMayMatch p k x = @KeyMayMatch p k' x;
  od_policy name p num l size : filter_policy opt = Some (name, p) -> tables num = Some (l, size) ->
    exists Hok : @FilterPolicyOk p, forall ks, blen ks <= 1 + 2 * blen l -> @filter_fits p Hok ks;
}.

Definition disk_contents (f : FileMetaData) : list (bytes * bytes) :=
  match tables (number f) with Some (l, size) => if size =? file_size f then l else [] | None => [] end.

Lemma disk_get_ok (Hdisk : on_disk) f ikey : disk_contents f <> [] ->
  exists found, disk_get f ikey = Some (OK, found) /\ answers (cmp := icmp) opt same_user (disk_contents f) ikey found.
Proof.
  unfold disk_contents. destruct (tables (number f)) as [ [l size]|] eqn:Et; [|done].
  destruct (Z.eqb_spec size (file_size f)) as [Es|]; [|done]. intros _.
  destruct (od_built Hdisk _ _ _ Et) as (f0 & r & g & Hb & Eb & Esz & En & Hg).
  destruct (build_opens (cmp := icmp) mapped opt l f0 g id Hb) as (r' & Eb' & Hopen). rewrite Eb in Eb'. injection Eb' as <-.
  destruct (Hopen Hg) as (t & done & Eo & Hop & El). pose proof Hb as (_ & _ & Hs & Hfit & _). rewrite <- El in Hs, Hfit.
  destruct (InternalGet_ok (C := C) (cmp := icmp) mapped opt t done Hop Hfit Hs same_user (od_same Hdisk)) with (ro := ro) (cc := None (A := C)) (k := ikey)
    as (found & cc' & Ei & Hans & _); [|done|].
  { intros name p Hp. rewrite El. by apply (od_policy Hdisk name p (number f) l size). }
  rewrite El in Hans. exists found. split; [|exact Hans]. unfold disk_get, open_table_file. rewrite En. cbn [ok negb mbind option_bind].
  rewrite <- Es, Esz, Eo. cbn [mbind option_bind ok negb]. by rewrite Ei.
Qed.

(** The tables that were built meet the law of the reader. *)
Definition disk_reader_ok (Hdisk : on_disk) : @TableReaderOk user disk_reader.
Proof.
  refine (@Build_TableReaderOk user disk_reader disk_contents _). intros f ikey Hne.
  destruct (disk_get_ok Hdisk f ikey Hne) as (found & E & Ha). exists found. split; [cbn; by rewrite E|].
  assert (Ef : List.find (fun e => @Compare icmp ikey e.1 <=? 0) (disk_contents f) =
    List.find (fun e => 0 <=? @Compare icmp e.1 ikey) (disk_contents f)).
  { apply find_ext. intros e. pose proof (tc_flip_le (@Compare icmp) ikey e.1). lia. }
  change (InternalKey_Compare user) with (@Compare icmp). rewrite Ef. destruct Ha as [-> |(-> & _ & Hno)].
  - by destruct (List.find _ _).
  - intros e He Hu. apply (Hno e He). unfold same_user. by apply (tc_eq_sym (@Compare user)).
Defined.
End DiskReader.

(** ** Two tables on disk: a deletion in level 0 over a value in level 1 *)

Definition disk_options : TableOptions :=
  mkTableOptions 4096 2 kNoCompression (Some (str "bloom", InternalFilterPolicy (NewBloomFilterPolicy 10))) true.
Definition disk_new : list entry := [(mkInternalKey (str "b") 7 kTypeDeletion, [])].
Definition disk_old : list entry := [(mkInternalKey (str "a") 3 kTypeValue, str "kept"); (mkInternalKey (str "b") 4 kTypeValue, str "old")].
#[local] Abbreviation disk_build := (@build flat_file _ (crc32c_checksum 0) no_snappy disk_options).
#[local] Abbreviation disk_file_of l := (file (snd (disk_build l []))).
#[local] Abbreviation disk_size_of l := (FileSize (snd (disk_build l []))).
Definition disk_env (name : bytes) : Status * option flat_file :=
  if slice_eqb name (TableFileName (str "db") 9) then (OK, Some (disk_file_of disk_new))
  else if slice_eqb name (TableFileName (str "db") 3) then (OK, Some (disk_file_of disk_old))
  else (IOError name (str "not found"), None).
Definition disk_tables (num : Z) : option (list entry * Z) :=
  if num =? 9 then Some (disk_new, disk_size_of disk_new)
  else if num =? 3 then Some (disk_old, disk_size_of disk_old) else None.
Definition disk_version : Version :=
  mkVersion [[newFileMetaData 9 (disk_size_of disk_new) (mkInternalKey (str "b") 7 kTypeDeletion) (mkInternalKey (str "b") 7 kTypeDeletion)];
             [newFileMetaData 3 (disk_size_of disk_old) (mkInternalKey (str "a") 3 kTypeValue) (mkInternalKey (str "b") 4 kTypeValue)]]
    None (-1) (0, 1) 0.

Lemma disk_build_eq l : fst (disk_build l []) = OK -> disk_build l [] = (OK, snd (disk_build l [])).
Proof. generalize (disk_build l []) as b. intros [st r] E. simpl in E |- *. by rewrite E. Qed.

Lemma disk_tables_inv num l size : disk_tables num = Some (l, size) ->
  size = disk_size_of l /\ ((num = 9 /\ l = disk_new) \/ (num = 3 /\ l = disk_old)).
Proof.
  unfold disk_tables.
  assert (Hgen : forall x y : list entry * Z, (if num =? 9 then Some x else if num =? 3 then Some y else None) = Some (l, size) ->
    (num = 9 /\ (l, size) = x) \/ (num = 3 /\ (l, size) = y)).
  { intros x y. destruct (Z.eqb_spec num 9); [intros [= ->]; auto|]. destruct (Z.eqb_spec num 3); [intros [= ->]; auto|done]. }
  intros E. destruct (Hgen _ _ E) as [ [Hn Ex]|[Hn Ex] ]; apply pair_equal_spec in Ex as [-> ->]; auto.
Qed.

Lemma disk_env_ok : disk_env (TableFileName (str "db") 9) = (OK, Some (disk_file_of disk_new)) /\
  disk_env (TableFileName (str "db") 3) = (OK, Some (disk_file_of disk_old)).
Proof.
  unfold disk_env. generalize (disk_file_of disk_new) as a. generalize (disk_file_of disk_old) as b. intros b a.
  split; vm_compute; reflexivity.
Qed.

Lemma disk_tables_ok : @on_disk flat_file flat_file _ _ _ _ (crc32c_checksum 0) no_snappy BytewiseComparator disk_options (str "db") disk_env disk_tables.
Proof.
  assert (Hb : forall l, l = disk_new \/ l = disk_old ->
    @buildable flat_file _ _ (crc32c_checksum 0) no_snappy (InternalKeyComparator BytewiseComparator) disk_options l [] /\
    disk_build l [] = (OK, snd (disk_build l []))).
  { intros l Hl. split; [|apply disk_build_eq; destruct Hl as [-> | ->]; vm_compute; reflexivity]. destruct Hl as [-> | ->].
    - split; [simpl; lia|]. split; [done|].
      split; [apply SSorted_cons; [apply SSorted_nil|apply Forall_nil_2]|]. split; [vm_compute; reflexivity|]. split; vm_compute; reflexivity.
    - split; [simpl; lia|]. split; [done|].
      split; [apply SSorted_cons; [apply SSorted_cons; [apply SSorted_nil|apply Forall_nil_2]|apply Forall_cons; split; [vm_compute; reflexivity|apply Forall_nil_2]]|].
      split; [vm_compute; reflexivity|]. split; vm_compute; reflexivity. }
  split.
  - intros num l size E. apply disk_tables_inv in E as (-> & [ [-> ->]|[-> ->] ]).
    + destruct (Hb disk_new) as [H1 H2]; [by left|]. exists [], (snd (disk_build disk_new [])), (disk_file_of disk_new).
      split; [exact H1|]. split; [exact H2|]. split; [reflexivity|]. split; [|exact (flat_same _)]. exact (proj1 disk_env_ok).
    + destruct (Hb disk_old) as [H1 H2]; [by right|]. exists [], (snd (disk_build disk_old [])), (disk_file_of disk_old).
      split; [exact H1|]. split; [exact H2|]. split; [reflexivity|]. split; [|exact (flat_same _)]. exact (proj2 disk_env_ok).
  - intros name p k k' x [= _ <-] Hs. unfold same_user in Hs. apply slice_compare_zero in Hs. cbn. by rewrite Hs.
  - intros name p num l size [= _ <-] E. exists (InternalFilterPolicy_ok _ (H := Bloom_ok 10 ltac:(lia))).
    assert (Hl : blen l <= 2) by (apply disk_tables_inv in E as (_ & [ [_ ->]|[_ ->] ]); vm_compute; discriminate).
    intros ks Hks. cbn. unfold blen in *. rewrite length_map. lia.
Qed.

#[local] Abbreviation disk_lookup snap :=
  (@VersionGet.Get BytewiseComparator (@disk_reader flat_file assoc_cache _ (crc32c_checksum 0) no_snappy _ BytewiseComparator (fun _ => false) disk_options (str "db") disk_env 0 newReadOptions)
     Q exact 0 [] disk_version (newLookupKey (str "b") snap) (str "before")).

(** [Version::Get] over the bytes of the two files. *)
Example disk_lookup_deleted : option_map (fun r => r.1.1) (disk_lookup 8) = Some (NotFound [] [], str "before").
Proof. vm_compute. reflexivity. Qed.

Example disk_lookup_snapshot : option_map (fun r => r.1.1) (disk_lookup 5) = Some (OK, str "old").
Proof. vm_compute. reflexivity. Qed.
