(* ===== verification/MemEnv.v ===== *)
(** helpers/memenv/memenv.cc: the file system in memory.

    A [FileState] is shared between its name and the open files; [heap] holds the
    allocated ones under their addresses, and a name may be bound to the null
    pointer ([None] in [file_map_]).  Of a block only the bytes that were written
    are kept.  [None] as a result is the use of a null or freed file, a failed
    assertion or the reading of bytes that were not written. *)

From stdpp Require Import base list option gmap sorting strings.
From S2P Require Import Prelude Status Env Comparator.
From Stdlib Require Import Strings.Byte.

#[local] Open Scope Z_scope.

(** * [FileState] *)

Definition kBlockSize : Z := 8 * 1024.

Record FileState := mkFileState { refs_ : Z; blocks_ : list bytes; size_ : Z }.

Definition newFileState : FileState := mkFileState 0 [] 0.
Definition Size (f : FileState) : Z := size_ f.
Definition Truncate (f : FileState) : FileState := mkFileState (refs_ f) [] 0.

(** The copying loop of [Read]; each turn reads from another block. *)
Fixpoint read_loop (fuel : nat) (blocks : list bytes) (block : nat) (block_offset bytes_to_copy : Z) : option bytes :=
  if 0 <? bytes_to_copy then
    match fuel with
    | O => None
    | S fuel =>
        let avail := kBlockSize - block_offset in
        let avail := if bytes_to_copy <? avail then bytes_to_copy else avail in
        b ← blocks !! block;
        let data := btake avail (bdrop block_offset b) in
        if blen data <? avail then None
        else rest ← read_loop fuel blocks (S block) 0 (bytes_to_copy - avail); Some (data ++ rest)
    end
  else Some [].

Definition Read (f : FileState) (offset n : Z) : option (Status * bytes) :=
  if size_ f <? offset then Some (IOError (str "Offset greater than file size.") [], [])
  else
    let available := size_ f - offset in
    let n := if available <? n then available else n in
    if n =? 0 then Some (OK, [])
    else
      data ← read_loop (S (length (blocks_ f))) (blocks_ f) (Z.to_nat (offset / kBlockSize)) (offset mod kBlockSize) n;
      Some (OK, data).

(** The loop of [Append]; each turn writes at least a byte. *)
Fixpoint append_loop (fuel : nat) (f : FileState) (src : bytes) : option FileState :=
  if 0 <? blen src then
    match fuel with
    | O => None
    | S fuel =>
        let offset := size_ f mod kBlockSize in
        let '(blocks, avail) :=
          if negb (offset =? 0) then (blocks_ f, kBlockSize - offset) else (blocks_ f ++ [[]], kBlockSize) in
        let avail := if blen src <? avail then blen src else avail in
        let back := (length blocks - 1)%nat in
        b ← blocks !! back;
        let b := btake offset b ++ btake avail src ++ bdrop (offset + avail) b in
        append_loop fuel (mkFileState (refs_ f) (<[back := b]> blocks) (u64 (size_ f + avail))) (bdrop avail src)
    end
  else Some f.

Definition Append (f : FileState) (data : bytes) : option FileState := append_loop (length data) f data.

(** * [InMemoryEnv] *)

Record InMemoryEnv := mkEnv { file_map_ : gmap bytes (option nat); heap : gmap nat FileState; next_file : nat }.

Definition newMemEnv : InMemoryEnv := mkEnv ∅ ∅ 0.

Definition with_file (env : InMemoryEnv) (a : nat) (f : FileState) : InMemoryEnv :=
  mkEnv (file_map_ env) (<[a := f]> (heap env)) (next_file env).
Definition with_map (env : InMemoryEnv) (m : gmap bytes (option nat)) : InMemoryEnv :=
  mkEnv m (heap env) (next_file env).

Definition Ref (env : InMemoryEnv) (a : nat) : option InMemoryEnv :=
  f ← heap env !! a; Some (with_file env a (mkFileState (i32 (refs_ f + 1)) (blocks_ f) (size_ f))).

Definition Unref (env : InMemoryEnv) (a : nat) : option InMemoryEnv :=
  f ← heap env !! a;
  let refs := i32 (refs_ f - 1) in
  if refs <? 0 then None
  else if refs <=? 0 then Some (mkEnv (file_map_ env) (delete a (heap env)) (next_file env))
  else Some (with_file env a (mkFileState refs (blocks_ f) (size_ f))).

(** [new FileState()] and [Ref()]. *)
Definition new_file (env : InMemoryEnv) : option (nat * InMemoryEnv) :=
  let a := next_file env in
  env ← Ref (mkEnv (file_map_ env) (<[a := newFileState]> (heap env)) (S a)) a; Some (a, env).

(** The open files. *)
Inductive OpenFile := SequentialFileImpl (file : nat) (pos : Z) | RandomAccessFileImpl (file : nat) | WritableFileImpl (file : nat).

Definition file_of (o : OpenFile) : nat :=
  match o with SequentialFileImpl a _ | RandomAccessFileImpl a | WritableFileImpl a => a end.

(** The destructors. *)
Definition close_file (env : InMemoryEnv) (o : OpenFile) : option InMemoryEnv := Unref env (file_of o).

Definition sequential_Read (env : InMemoryEnv) (a : nat) (pos n : Z) : option (Status * bytes * OpenFile) :=
  f ← heap env !! a;
  '(s, result) ← Read f pos n;
  Some (s, result, SequentialFileImpl a (if ok s then u64 (pos + blen result) else pos)).

Definition sequential_Skip (env : InMemoryEnv) (a : nat) (pos n : Z) : option (Status * OpenFile) :=
  f ← heap env !! a;
  if Size f <? pos then Some (IOError (str "pos_ > file_->Size()") [], SequentialFileImpl a pos)
  else
    let available := Size f - pos in
    let n := if available <? n then available else n in
    Some (OK, SequentialFileImpl a (u64 (pos + n))).

Definition random_Read (env : InMemoryEnv) (a : nat) (offset n : Z) : option (Status * bytes) :=
  f ← heap env !! a; Read f offset n.

Definition writable_Append (env : InMemoryEnv) (a : nat) (data : bytes) : option (Status * InMemoryEnv) :=
  f ← heap env !! a; f ← Append f data; Some (OK, with_file env a f).

Definition file_not_found (fname : bytes) : Status := IOError fname (str "File not found").

Definition NewSequentialFile (env : InMemoryEnv) (fname : bytes) : option (Status * option OpenFile * InMemoryEnv) :=
  match file_map_ env !! fname with
  | None => Some (file_not_found fname, None, env)
  | Some file => a ← file; env ← Ref env a; Some (OK, Some (SequentialFileImpl a 0), env)
  end.

Definition NewRandomAccessFile (env : InMemoryEnv) (fname : bytes) : option (Status * option OpenFile * InMemoryEnv) :=
  match file_map_ env !! fname with
  | None => Some (file_not_found fname, None, env)
  | Some file => a ← file; env ← Ref env a; Some (OK, Some (RandomAccessFileImpl a), env)
  end.

Definition NewWritableFile (env : InMemoryEnv) (fname : bytes) : option (Status * option OpenFile * InMemoryEnv) :=
  '(a, env) ←
    (match file_map_ env !! fname with
     | None => '(a, env) ← new_file env; Some (a, with_map env (<[fname := Some a]> (file_map_ env)))
     | Some file => a ← file; f ← heap env !! a; Some (a, with_file env a (Truncate f))
     end);
  env ← Ref env a;
  Some (OK, Some (WritableFileImpl a), env).

(** [&file_map_[fname]] binds a new name to the null pointer; the new file is not
    stored under it. *)
Definition NewAppendableFile (env : InMemoryEnv) (fname : bytes) : option (Status * option OpenFile * InMemoryEnv) :=
  let file := default None (file_map_ env !! fname) in
  let env := with_map env (<[fname := file]> (file_map_ env)) in
  '(a, env) ← (match file with Some a => Some (a, env) | None => new_file env end);
  env ← Ref env a;
  Some (OK, Some (WritableFileImpl a), env).

Definition FileExists (env : InMemoryEnv) (fname : bytes) : bool := bool_decide (is_Some (file_map_ env !! fname)).

(** The names in the order of [std::map]. *)
Definition name_le (a b : bytes) : Prop := slice_compare a b <= 0.
#[export] Instance name_le_dec : RelDecision name_le.
Proof. intros a b. unfold name_le. apply _. Defined.

Definition child_of (dir filename : bytes) : bool :=
  (blen dir + 1 <=? blen filename) && bool_decide (byte_at filename (blen dir) = "/"%byte) && starts_with filename dir.

Definition GetChildren (env : InMemoryEnv) (dir : bytes) : list bytes :=
  map (bdrop (blen dir + 1)) (List.filter (child_of dir) (merge_sort name_le (map fst (map_to_list (file_map_ env))))).

Definition DeleteFileInternal (env : InMemoryEnv) (fname : bytes) : option InMemoryEnv :=
  match file_map_ env !! fname with
  | None => Some env
  | Some file => a ← file; env ← Unref env a; Some (with_map env (delete fname (file_map_ env)))
  end.

Definition DeleteFile (env : InMemoryEnv) (fname : bytes) : option (Status * InMemoryEnv) :=
  match file_map_ env !! fname with
  | None => Some (file_not_found fname, env)
  | Some _ => env ← DeleteFileInternal env fname; Some (OK, env)
  end.

(** [*file_size] is not written when the file is not found. *)
Definition GetFileSize (env : InMemoryEnv) (fname : bytes) : option (Status * option Z) :=
  match file_map_ env !! fname with
  | None => Some (file_not_found fname, None)
  | Some file => a ← file; f ← heap env !! a; Some (OK, Some (Size f))
  end.

(** [file_map_[src]] is null when the deletion of the target took it away. *)
Definition RenameFile (env : InMemoryEnv) (src target : bytes) : option (Status * InMemoryEnv) :=
  match file_map_ env !! src with
  | None => Some (file_not_found src, env)
  | Some _ =>
      env ← DeleteFileInternal env target;
      Some (OK, with_map env (delete src (<[target := default None (file_map_ env !! src)]> (file_map_ env))))
  end.

(** The destructor. *)
Definition DestroyEnv (env : InMemoryEnv) : option InMemoryEnv :=
  fold_left (fun env e => env ← env; a ← snd e; Unref env a) (map_to_list (file_map_ env)) (Some env).
