(* ===== verification/MemEnvProofs.v ===== *)
(** The file system in memory (MemEnv): a file that is kept in blocks reads back as
    the bytes that were appended, and the environment refines a file system whose
    names stand for byte strings. *)

From stdpp Require Import base list option gmap sets sorting strings.
From S2P Require Import Prelude Status Env Comparator MemEnv.
From Stdlib Require Import Strings.Byte.

#[local] Open Scope Z_scope.

(** * Files in blocks *)

Definition contents (f : FileState) : bytes := concat (blocks_ f).

(** All blocks but the last one are full. *)
Definition shaped (blocks : list bytes) : Prop :=
  blocks = [] \/ exists bs b, blocks = bs ++ [b] /\ Forall (fun b => blen b = kBlockSize) bs /\ 0 < blen b <= kBlockSize.

Record file_ok (f : FileState) : Prop := {
  fo_shape : shaped (blocks_ f);
  fo_size : size_ f = blen (contents f);
  fo_small : size_ f < 2 ^ 64;
}.

Lemma full_blocks bs : Forall (fun b : bytes => blen b = kBlockSize) bs -> blen (concat bs) = Z.of_nat (length bs) * kBlockSize.
Proof. induction 1 as [|b bs Hb _ IH]; [done|]. cbn [concat length]. rewrite blen_app, Hb, IH. lia. Qed.

Lemma concat_snoc {A} (bs : list (list A)) b : concat (bs ++ [b]) = concat bs ++ b.
Proof. rewrite concat_app. simpl. by rewrite app_nil_r. Qed.

(** One turn of the loop of [Append]. *)
Lemma append_turn f src : file_ok f -> 0 < blen src -> size_ f + blen src < 2 ^ 64 ->
  exists avail f', 0 < avail <= blen src /\ file_ok f' /\ contents f' = contents f ++ btake avail src /\ refs_ f' = refs_ f /\
    forall fuel, append_loop (S fuel) f src = append_loop fuel f' (bdrop avail src).
Proof.
  intros [Hsh Hsz Hsm] Hsrc Hfit. assert (HK : kBlockSize = 8192) by done. unfold contents in Hsz.
  assert (Hstep : forall bs b avail, 0 < avail <= blen src -> Forall (fun b => blen b = kBlockSize) bs -> blen b + avail <= kBlockSize ->
    concat (bs ++ [b]) = concat (blocks_ f) ->
    let f' := mkFileState (refs_ f) (bs ++ [b ++ btake avail src]) (u64 (size_ f + avail)) in
    file_ok f' /\ contents f' = contents f ++ btake avail src).
  { intros bs b avail Ha Hbs Hb Hcat f'. assert (Hl : blen (btake avail src) = avail) by (apply blen_btake; lia).
    assert (Hc : contents f' = contents f ++ btake avail src).
    { unfold contents. cbn [f' blocks_]. rewrite concat_snoc, app_assoc, <- concat_snoc, Hcat. done. }
    split; [|done]. split.
    - right. exists bs, (b ++ btake avail src). split; [done|]. split; [done|]. rewrite blen_app, Hl. pose proof (blen_nonneg b). lia.
    - rewrite Hc, blen_app, Hl. cbn [f' size_]. rewrite u64_small by (pose proof (blen_nonneg (contents f)); unfold contents in *; lia). unfold contents. lia.
    - cbn [f' size_]. rewrite u64_small by (pose proof (blen_nonneg (concat (blocks_ f))); lia). lia. }
  destruct (Z.eq_dec (size_ f mod kBlockSize) 0) as [E0|E0].
  - (* a new block *)
    set (avail := if blen src <? kBlockSize then blen src else kBlockSize).
    assert (Ha : 0 < avail <= blen src /\ avail <= kBlockSize) by (unfold avail; destruct (Z.ltb_spec (blen src) kBlockSize); lia).
    destruct (Hstep (blocks_ f) [] avail) as [Hok Hc]; [lia| |rewrite blen_nil; lia|by rewrite concat_snoc, app_nil_r|].
    { destruct Hsh as [-> |(bs & b & E & Hbs & Hb)]; [done|]. rewrite E. apply Forall_app. split; [done|]. apply Forall_singleton.
      rewrite E, concat_snoc, blen_app, (full_blocks bs Hbs) in Hsz. rewrite Hsz, Z.add_comm, Z_mod_plus_full in E0.
      destruct (Z.eq_dec (blen b) kBlockSize) as [|Hne]; [done|]. rewrite Z.mod_small in E0 by lia. lia. }
    exists avail. eexists. split; [lia|]. split; [exact Hok|]. split; [exact Hc|]. split; [done|]. intros fuel. cbn [append_loop].
    replace (0 <? blen src) with true by lia. rewrite E0. cbn [Z.eqb negb]. fold avail.
    rewrite length_app. cbn [length]. replace (length (blocks_ f) + 1 - 1)%nat with (length (blocks_ f)) by lia.
    rewrite list_lookup_middle by done. cbn [mbind option_bind]. rewrite insert_app_r_alt, Nat.sub_diag by lia.
    assert (Hnil : bdrop (0 + avail) (@nil byte) = []) by (unfold bdrop; by rewrite drop_nil). rewrite Hnil, app_nil_r. done.
  - destruct Hsh as [E|(bs & b & E & Hbs & Hb)]; [rewrite E in Hsz; rewrite Hsz in E0; done|].
    pose proof Hsz as Hsz'. rewrite E, concat_snoc, blen_app, (full_blocks bs Hbs) in Hsz'.
    assert (Hbl : blen b < kBlockSize).
    { destruct (Z.eq_dec (blen b) kBlockSize) as [Hk|]; [|lia]. exfalso. apply E0. rewrite Hsz', Hk.
      replace (Z.of_nat (length bs) * kBlockSize + kBlockSize) with ((Z.of_nat (length bs) + 1) * kBlockSize) by lia. apply Z_mod_mult. }
    assert (Eo : size_ f mod kBlockSize = blen b) by (rewrite Hsz', Z.add_comm, Z_mod_plus_full, Z.mod_small by lia; done).
    set (avail := if blen src <? kBlockSize - blen b then blen src else kBlockSize - blen b).
    assert (Ha : 0 < avail <= blen src /\ blen b + avail <= kBlockSize) by (unfold avail; destruct (Z.ltb_spec (blen src) (kBlockSize - blen b)); lia).
    destruct (Hstep bs b avail) as [Hok Hc]; [lia|done|lia|by rewrite E|].
    exists avail. eexists. split; [lia|]. split; [exact Hok|]. split; [exact Hc|]. split; [done|]. intros fuel. cbn [append_loop].
    replace (0 <? blen src) with true by lia. rewrite Eo. replace (negb (blen b =? 0)) with true by lia. fold avail. rewrite E.
    rewrite length_app. cbn [length]. replace (length bs + 1 - 1)%nat with (length bs) by lia.
    rewrite list_lookup_middle by done. cbn [mbind option_bind]. rewrite insert_app_r_alt, Nat.sub_diag by lia.
    rewrite btake_all by lia. assert (Hnil : bdrop (blen b + avail) b = []) by (unfold bdrop; apply drop_ge; unfold blen in *; lia).
    rewrite Hnil, app_nil_r. done.
Qed.

(** [Append] appends. *)
Lemma Append_ok f data : file_ok f -> size_ f + blen data < 2 ^ 64 ->
  exists f', Append f data = Some f' /\ file_ok f' /\ contents f' = contents f ++ data /\ refs_ f' = refs_ f.
Proof.
  intros Hf Hd. unfold Append. assert (Hgen : forall fuel g src, (length src <= fuel)%nat -> file_ok g -> size_ g + blen src < 2 ^ 64 ->
    exists f', append_loop fuel g src = Some f' /\ file_ok f' /\ contents f' = contents g ++ src /\ refs_ f' = refs_ g).
  { induction fuel as [|fuel IH]; intros g src Hl Hg Hfit.
    - destruct src; [|simpl in Hl; lia]. exists g. split; [done|]. by rewrite app_nil_r.
    - destruct (decide (src = [])) as [-> |Hne]; [exists g; split; [done|]; by rewrite app_nil_r|].
      assert (Hpos : 0 < blen src) by (destruct src; [done|unfold blen; cbn [length]; lia]).
      destruct (append_turn g src Hg Hpos Hfit) as (avail & g1 & Ha & Hg1 & Hc1 & Hr1 & ->).
      assert (Hlen : blen (bdrop avail src) = blen src - avail) by (apply blen_bdrop; lia).
      destruct (IH g1 (bdrop avail src)) as (f' & E & Hf' & Hc & Hr); [unfold blen in *; lia|done| |].
      { rewrite (fo_size _ Hg1), Hc1, blen_app, <- (fo_size _ Hg), blen_btake by lia. lia. }
      exists f'. split; [done|]. split; [done|]. split; [|congruence]. by rewrite Hc, Hc1, <- app_assoc, btake_bdrop. }
  by apply Hgen.
Qed.

Lemma shaped_lookup blocks j b : shaped blocks -> blocks !! j = Some b ->
  blen (concat (take j blocks)) = Z.of_nat j * kBlockSize /\ 0 < blen b <= kBlockSize /\ ((S j < length blocks)%nat -> blen b = kBlockSize).
Proof.
  intros [-> |(bs & l & -> & Hbs & Hl)] Hj; [done|]. assert (HK : kBlockSize = 8192) by done.
  apply lookup_snoc_Some in Hj as [ [Hlt Hj]|[-> <-] ].
  - rewrite take_app_le by lia. rewrite full_blocks by (by apply Forall_take). rewrite length_take_le by lia.
    rewrite Forall_forall in Hbs. pose proof (Hbs b (list_elem_of_lookup_2 _ _ _ Hj)). split; [done|]. split; [lia|done].
  - rewrite take_app_length, full_blocks by done. rewrite length_app. simpl. split; [done|]. split; [done|lia].
Qed.

Lemma read_loop_ok blocks : shaped blocks -> forall fuel j o n, 0 <= o < kBlockSize -> 0 <= n ->
  Z.of_nat j * kBlockSize + o + n <= blen (concat blocks) -> (length blocks <= j + fuel)%nat ->
  read_loop fuel blocks j o n = Some (btake n (bdrop (Z.of_nat j * kBlockSize + o) (concat blocks))).
Proof.
  intros Hsh. assert (HK : kBlockSize = 8192) by done.
  assert (Hj : forall j o n, 0 <= o -> 0 < n -> Z.of_nat j * kBlockSize + o + n <= blen (concat blocks) -> (j < length blocks)%nat).
  { intros j o n Ho Hn Hle. destruct (Nat.lt_ge_cases j (length blocks)) as [|Hge]; [done|]. exfalso.
    destruct Hsh as [-> |(bs & l & E & Hbs & Hl)]; [simpl in Hle; rewrite blen_nil in Hle; lia|].
    rewrite E, length_app in Hge. simpl in Hge. rewrite E, concat_snoc, blen_app, (full_blocks bs Hbs) in Hle. nia. }
  induction fuel as [|fuel IH]; intros j o n Ho Hn Hle Hf; cbn [read_loop]; destruct (Z.ltb_spec 0 n) as [Hpos|];
    try (replace n with 0 by lia; done).
  - pose proof (Hj j o n ltac:(lia) Hpos Hle). lia.
  - pose proof (Hj j o n ltac:(lia) Hpos Hle) as Hlt. destruct (lookup_lt_is_Some_2 _ _ Hlt) as [b Hb]. rewrite Hb. cbn [mbind option_bind].
    destruct (shaped_lookup blocks j b Hsh Hb) as (Hpre & Hbl & Hfull). set (avail := if n <? kBlockSize - o then n else kBlockSize - o).
    assert (Hcat : concat blocks = concat (take j blocks) ++ b ++ concat (drop (S j) blocks)).
    { rewrite <- (take_drop_middle blocks j b Hb) at 1. by rewrite concat_app. }
    assert (Hav : 0 < avail <= n /\ avail <= kBlockSize - o /\ (avail = n \/ avail = kBlockSize - o)) by (unfold avail; destruct (Z.ltb_spec n (kBlockSize - o)); lia).
    assert (Hbo : o + avail <= blen b).
    { destruct (decide (S j < length blocks)%nat) as [Hs|Hs]; [rewrite (Hfull Hs); lia|].
      rewrite Hcat, !blen_app, Hpre, drop_ge in Hle by lia. simpl in Hle. rewrite blen_nil in Hle. lia. }
    set (data := btake avail (bdrop o b)).
    assert (Hd : blen data = avail) by (unfold data; rewrite blen_btake; [done|]; rewrite blen_bdrop by lia; lia).
    rewrite Hd, Z.ltb_irrefl.
    assert (Hdata : btake avail (bdrop (Z.of_nat j * kBlockSize + o) (concat blocks)) = data).
    { rewrite Hcat, bdrop_app_ge by lia. replace (Z.of_nat j * kBlockSize + o - blen (concat (take j blocks))) with o by lia.
      rewrite bdrop_app_le by lia. rewrite btake_app_le by (rewrite blen_bdrop by lia; lia). done. }
    assert (Hsplit : btake n (bdrop (Z.of_nat j * kBlockSize + o) (concat blocks)) =
      data ++ btake (n - avail) (bdrop (Z.of_nat j * kBlockSize + o + avail) (concat blocks))).
    { rewrite <- Hdata, <- (bdrop_bdrop avail (Z.of_nat j * kBlockSize + o)) by lia. set (l := bdrop (Z.of_nat j * kBlockSize + o) (concat blocks)).
      rewrite <- (btake_bdrop avail l) at 1. rewrite btake_app_ge by (unfold l; rewrite blen_btake; [lia|]; rewrite blen_bdrop; lia).
      f_equal. f_equal. unfold l. rewrite blen_btake; [done|]. rewrite blen_bdrop; lia. }
    rewrite Hsplit. destruct (Z.eq_dec (n - avail) 0) as [Hz|Hz].
    + rewrite Hz. assert (Hr : forall fl, read_loop fl blocks (S j) 0 0 = Some []) by (by destruct fl). rewrite Hr. done.
    + rewrite (IH (S j) 0 (n - avail)) by lia. cbn [mbind option_bind]. do 4 f_equal. lia.
Qed.

(** [Read] reads. *)
Lemma Read_ok f offset n : file_ok f -> 0 <= offset <= blen (contents f) -> 0 <= n ->
  MemEnv.Read f offset n = Some (OK, btake n (bdrop offset (contents f))).
Proof.
  intros [Hsh Hsz Hsm] Ho Hn. assert (HK : kBlockSize = 8192) by done. unfold MemEnv.Read. rewrite Hsz. replace (blen (contents f) <? offset) with false by lia.
  set (m := if blen (contents f) - offset <? n then blen (contents f) - offset else n).
  assert (Hm : 0 <= m /\ offset + m <= blen (contents f) /\ btake n (bdrop offset (contents f)) = btake m (bdrop offset (contents f))).
  { unfold m. destruct (Z.ltb_spec (blen (contents f) - offset) n); [|split; [lia|by split; [lia|] ] ]. split; [lia|]. split; [lia|].
    rewrite !btake_all by (rewrite blen_bdrop; lia). done. }
  destruct Hm as (Hm0 & Hm1 & ->). destruct (Z.eqb_spec m 0) as [-> |Hne]; [done|].
  pose proof (Z.div_mod offset kBlockSize ltac:(lia)) as Hdm. pose proof (Z.mod_pos_bound offset kBlockSize ltac:(lia)).
  pose proof (Z.div_pos offset kBlockSize ltac:(lia) ltac:(lia)).
  rewrite (read_loop_ok _ Hsh) by (unfold contents in *; lia). cbn [mbind option_bind]. unfold contents. do 4 f_equal. lia.
Qed.

Lemma Read_past f offset n : file_ok f -> blen (contents f) < offset ->
  MemEnv.Read f offset n = Some (IOError (str "Offset greater than file size.") [], []).
Proof. intros Hf Ho. unfold MemEnv.Read. rewrite (fo_size _ Hf). by replace (_ <? offset) with true by lia. Qed.

(** * References *)

Section Core.
(** [cnt] counts the references to a file: its names and the open files. *)
Record core (env : InMemoryEnv) (data : gmap nat bytes) (cnt : nat -> Z) : Prop := {
  k_heap a f : heap env !! a = Some f ->
    file_ok f /\ data !! a = Some (contents f) /\ refs_ f = cnt a /\ 0 < cnt a /\ (a < next_file env)%nat;
  k_alloc a : 0 < cnt a -> is_Some (heap env !! a);
  k_small a : 0 <= cnt a < 2 ^ 31 - 1;
}.

Lemma core_ext env data cnt cnt' : core env data cnt -> (forall a, cnt' a = cnt a) -> core env data cnt'.
Proof.
  intros [H1 H2 H3] E. split.
  - intros a f Ha. rewrite E. by apply H1.
  - intros a. rewrite E. apply H2.
  - intros a. rewrite E. apply H3.
Qed.

Lemma core_map env data cnt m : core env data cnt -> core (with_map env m) data cnt.
Proof. by intros []. Qed.

Context (env : InMemoryEnv) (data : gmap nat bytes) (cnt : nat -> Z) (Hc : core env data cnt).

Lemma core_file a : 0 < cnt a -> exists f, heap env !! a = Some f /\ file_ok f /\ data !! a = Some (contents f) /\ refs_ f = cnt a.
Proof. intros Ha. destruct (k_alloc _ _ _ Hc a Ha) as [f Hf]. exists f. destruct (k_heap _ _ _ Hc a f Hf) as (? & ? & ? & _). done. Qed.

Lemma Ref_ok a : 0 < cnt a -> cnt a + 1 < 2 ^ 31 - 1 -> exists env', Ref env a = Some env' /\ file_map_ env' = file_map_ env /\
  next_file env' = next_file env /\ core env' data (fun b => cnt b + if decide (b = a) then 1 else 0).
Proof.
  intros Ha Hs. destruct (core_file a Ha) as (f & Hf & Hok & Hd & Hr). unfold Ref. rewrite Hf. cbn [mbind option_bind].
  eexists. split; [reflexivity|]. split; [done|]. split; [done|]. rewrite Hr, i32_small by lia. split.
  - intros b g Hg. cbn [with_file heap next_file] in *. destruct (decide (b = a)) as [-> |Hne].
    + rewrite lookup_insert_eq in Hg. injection Hg as <-. destruct (k_heap _ _ _ Hc a f Hf) as (_ & _ & _ & _ & Hlt).
      split; [by destruct Hok|]. split; [done|]. split; [done|]. split; [lia|done].
    + rewrite lookup_insert_ne in Hg by done. rewrite Z.add_0_r. by apply (k_heap _ _ _ Hc).
  - intros b Hb. cbn [with_file heap]. destruct (decide (b = a)) as [-> |Hne]; [rewrite lookup_insert_eq; by eexists|].
    rewrite lookup_insert_ne by done. apply (k_alloc _ _ _ Hc). lia.
  - intros b. pose proof (k_small _ _ _ Hc b). destruct (decide (b = a)) as [-> |]; lia.
Qed.

Lemma Unref_ok a : 0 < cnt a -> exists env', Unref env a = Some env' /\ file_map_ env' = file_map_ env /\
  next_file env' = next_file env /\ core env' data (fun b => cnt b - if decide (b = a) then 1 else 0).
Proof.
  intros Ha. destruct (core_file a Ha) as (f & Hf & Hok & Hd & Hr). pose proof (k_small _ _ _ Hc a). unfold Unref. rewrite Hf. cbn [mbind option_bind].
  rewrite Hr, i32_small by lia. replace (cnt a - 1 <? 0) with false by lia. destruct (Z.leb_spec (cnt a - 1) 0).
  - eexists. split; [reflexivity|]. split; [done|]. split; [done|]. split; cbn [heap next_file].
    + intros b g Hg. apply lookup_delete_Some in Hg as [Hne Hg]. rewrite decide_False, Z.sub_0_r by done. by apply (k_heap _ _ _ Hc).
    + intros b Hb. destruct (decide (b = a)) as [-> |Hne]; [lia|]. rewrite lookup_delete_ne by done. apply (k_alloc _ _ _ Hc). lia.
    + intros b. pose proof (k_small _ _ _ Hc b). destruct (decide (b = a)) as [-> |]; lia.
  - eexists. split; [reflexivity|]. split; [done|]. split; [done|]. split; cbn [with_file heap next_file].
    + intros b g Hg. destruct (decide (b = a)) as [-> |Hne].
      * rewrite lookup_insert_eq in Hg. injection Hg as <-. destruct (k_heap _ _ _ Hc a f Hf) as (_ & _ & _ & _ & Hlt).
        split; [by destruct Hok|]. split; [done|]. split; [done|]. split; [lia|done].
      * rewrite lookup_insert_ne in Hg by done. rewrite Z.sub_0_r. by apply (k_heap _ _ _ Hc).
    + intros b Hb. destruct (decide (b = a)) as [-> |Hne]; [rewrite lookup_insert_eq; by eexists|].
      rewrite lookup_insert_ne by done. apply (k_alloc _ _ _ Hc). lia.
    + intros b. pose proof (k_small _ _ _ Hc b). destruct (decide (b = a)) as [-> |]; lia.
Qed.

(** Changing the contents of a file. *)
Lemma write_ok a f : 0 < cnt a -> file_ok f -> refs_ f = cnt a ->
  core (with_file env a f) (<[a := contents f]> data) cnt.
Proof.
  intros Ha Hok Hr. destruct (core_file a Ha) as (f0 & Hf0 & _). destruct (k_heap _ _ _ Hc a f0 Hf0) as (_ & _ & _ & _ & Hlt). split; cbn [with_file heap next_file].
  - intros b g Hg. destruct (decide (a = b)) as [<-|Hne].
    + rewrite lookup_insert_eq in Hg. injection Hg as <-. by rewrite lookup_insert_eq.
    + rewrite lookup_insert_ne in Hg by done. rewrite lookup_insert_ne by done. by apply (k_heap _ _ _ Hc).
  - intros b Hb. destruct (decide (a = b)) as [<-|Hne]; [rewrite lookup_insert_eq; by eexists|].
    rewrite lookup_insert_ne by done. by apply (k_alloc _ _ _ Hc).
  - apply Hc.
Qed.

Lemma fresh_cnt : cnt (next_file env) = 0 /\ heap env !! next_file env = None.
Proof.
  assert (Hn : heap env !! next_file env = None).
  { destruct (heap env !! next_file env) as [f|] eqn:E; [|done]. destruct (k_heap _ _ _ Hc _ _ E) as (_ & _ & _ & _ & ?). lia. }
  split; [|done]. pose proof (k_small _ _ _ Hc (next_file env)). destruct (Z.eq_dec (cnt (next_file env)) 0) as [|Hne]; [done|].
  destruct (k_alloc _ _ _ Hc (next_file env) ltac:(lia)) as [f Hf]. congruence.
Qed.

Lemma new_file_ok : exists env', new_file env = Some (next_file env, env') /\ file_map_ env' = file_map_ env /\
  next_file env' = S (next_file env) /\
  core env' (<[next_file env := []]> data) (fun b => cnt b + if decide (b = next_file env) then 1 else 0).
Proof.
  destruct fresh_cnt as [Hz Hn]. unfold new_file, Ref. cbn [heap]. rewrite lookup_insert_eq. cbn [mbind option_bind].
  eexists. split; [reflexivity|]. split; [done|]. split; [done|]. unfold with_file. cbn [file_map_ heap next_file]. rewrite insert_insert_eq.
  split; cbn [heap next_file].
  - intros b g Hg. destruct (decide (b = next_file env)) as [-> |Hne].
    + rewrite lookup_insert_eq in Hg. injection Hg as <-. rewrite lookup_insert_eq, Hz. split; [|split; [done|split; [done|split; [lia|lia] ] ] ].
      split; [by left|done|done].
    + rewrite lookup_insert_ne in Hg by done. rewrite lookup_insert_ne, Z.add_0_r by done.
      destruct (k_heap _ _ _ Hc b g Hg) as (? & ? & ? & ? & ?). split_and!; try done; lia.
  - intros b Hb. destruct (decide (b = next_file env)) as [-> |Hne]; [rewrite lookup_insert_eq; by eexists|].
    rewrite lookup_insert_ne by done. apply (k_alloc _ _ _ Hc). lia.
  - intros b. pose proof (k_small _ _ _ Hc b). destruct (decide (b = next_file env)) as [-> |]; lia.
Qed.
End Core.

(** * The file system that it implements *)

(** Names of files and the bytes of files; a file lives on while it is open. *)
Record AbsFs := mkAbs { names : gmap bytes nat; data : gmap nat bytes; abs_next : nat }.

Inductive env_op :=
| ONewSequential (fname : bytes)
| ONewRandom (fname : bytes)
| ONewWritable (fname : bytes)
| ONewAppendable (fname : bytes)
| ORead (i : nat) (n : Z)            (* the open file [i], read on *)
| OSkip (i : nat) (n : Z)
| OReadAt (i : nat) (offset n : Z)
| OAppend (i : nat) (d : bytes)
| OClose (i : nat)
| OExists (fname : bytes)
| OChildren (dir : bytes)
| OSize (fname : bytes)
| ODelete (fname : bytes)
| ORename (src target : bytes).

Inductive result := RStatus (s : Status) | RBytes (s : Status) (d : bytes) | RBool (b : bool) | RNames (l : list bytes) | RSize (s : Status) (n : option Z) | RNone.

Definition bytes_of (fs : AbsFs) (a : nat) : bytes := default [] (data fs !! a).

Definition abs_open (fs : AbsFs) (files : list OpenFile) (fname : bytes) (mk : nat -> OpenFile) : result * (AbsFs * list OpenFile) :=
  match names fs !! fname with
  | None => (RStatus (file_not_found fname), (fs, files))
  | Some a => (RStatus OK, (fs, mk a :: files))
  end.

Definition abs_read (c : bytes) (offset n : Z) : Status * bytes :=
  if blen c <? offset then (IOError (str "Offset greater than file size.") [], []) else (OK, btake n (bdrop offset c)).

(** A file that is created, or truncated, or (for appending) opened as it is. *)
Definition abs_create (fs : AbsFs) (files : list OpenFile) (fname : bytes) (truncate : bool) : result * (AbsFs * list OpenFile) :=
  match names fs !! fname with
  | Some a => (RStatus OK, (if truncate then mkAbs (names fs) (<[a := []]> (data fs)) (abs_next fs) else fs, WritableFileImpl a :: files))
  | None =>
      let a := abs_next fs in
      (RStatus OK, (mkAbs (<[fname := a]> (names fs)) (<[a := []]> (data fs)) (S a), WritableFileImpl a :: files))
  end.

Definition abs_step (st : AbsFs * list OpenFile) (op : env_op) : result * (AbsFs * list OpenFile) :=
  let '(fs, files) := st in
  match op with
  | ONewSequential fname => abs_open fs files fname (fun a => SequentialFileImpl a 0)
  | ONewRandom fname => abs_open fs files fname RandomAccessFileImpl
  | ONewWritable fname => abs_create fs files fname true
  | ONewAppendable fname => abs_create fs files fname false
  | ORead i n =>
      match files !! i with
      | Some (SequentialFileImpl a pos) =>
          let '(s, d) := abs_read (bytes_of fs a) pos n in
          (RBytes s d, (fs, <[i := SequentialFileImpl a (if ok s then pos + blen d else pos)]> files))
      | _ => (RNone, st)
      end
  | OSkip i n =>
      match files !! i with
      | Some (SequentialFileImpl a pos) =>
          if blen (bytes_of fs a) <? pos then (RStatus (IOError (str "pos_ > file_->Size()") []), (fs, <[i := SequentialFileImpl a pos]> files))
          else (RStatus OK, (fs, <[i := SequentialFileImpl a (Z.min (pos + n) (blen (bytes_of fs a)))]> files))
      | _ => (RNone, st)
      end
  | OReadAt i offset n =>
      match files !! i with
      | Some (RandomAccessFileImpl a) => let '(s, d) := abs_read (bytes_of fs a) offset n in (RBytes s d, st)
      | _ => (RNone, st)
      end
  | OAppend i d =>
      match files !! i with
      | Some (WritableFileImpl a) => (RStatus OK, (mkAbs (names fs) (<[a := bytes_of fs a ++ d]> (data fs)) (abs_next fs), files))
      | _ => (RNone, st)
      end
  | OClose i => match files !! i with Some _ => (RNone, (fs, delete i files)) | None => (RNone, st) end
  | OExists fname => (RBool (bool_decide (is_Some (names fs !! fname))), st)
  | OChildren dir =>
      (RNames (map (bdrop (blen dir + 1)) (List.filter (child_of dir) (merge_sort name_le (map fst (map_to_list (names fs)))))), st)
  | OSize fname =>
      match names fs !! fname with
      | None => (RSize (file_not_found fname) None, st)
      | Some a => (RSize OK (Some (blen (bytes_of fs a))), st)
      end
  | ODelete fname =>
      match names fs !! fname with
      | None => (RStatus (file_not_found fname), st)
      | Some _ => (RStatus OK, (mkAbs (delete fname (names fs)) (data fs) (abs_next fs), files))
      end
  | ORename src target =>
      match names fs !! src with
      | None => (RStatus (file_not_found src), st)
      | Some a => (RStatus OK, (mkAbs (<[target := a]> (delete src (names fs))) (data fs) (abs_next fs), files))
      end
  end.

(** The same operations of the environment. *)
Definition mem_open (files : list OpenFile) (r : option (Status * option OpenFile * InMemoryEnv)) : option (result * (InMemoryEnv * list OpenFile)) :=
  '(s, o, env) ← r; Some (RStatus s, (env, match o with Some o => o :: files | None => files end)).

Definition mem_step (st : InMemoryEnv * list OpenFile) (op : env_op) : option (result * (InMemoryEnv * list OpenFile)) :=
  let '(env, files) := st in
  match op with
  | ONewSequential fname => mem_open files (NewSequentialFile env fname)
  | ONewRandom fname => mem_open files (NewRandomAccessFile env fname)
  | ONewWritable fname => mem_open files (NewWritableFile env fname)
  | ONewAppendable fname => mem_open files (NewAppendableFile env fname)
  | ORead i n =>
      match files !! i with
      | Some (SequentialFileImpl a pos) => '(s, d, o) ← sequential_Read env a pos n; Some (RBytes s d, (env, <[i := o]> files))
      | _ => Some (RNone, st)
      end
  | OSkip i n =>
      match files !! i with
      | Some (SequentialFileImpl a pos) => '(s, o) ← sequential_Skip env a pos n; Some (RStatus s, (env, <[i := o]> files))
      | _ => Some (RNone, st)
      end
  | OReadAt i offset n =>
      match files !! i with
      | Some (RandomAccessFileImpl a) => '(s, d) ← random_Read env a offset n; Some (RBytes s d, st)
      | _ => Some (RNone, st)
      end
  | OAppend i d =>
      match files !! i with
      | Some (WritableFileImpl a) => '(s, env) ← writable_Append env a d; Some (RStatus s, (env, files))
      | _ => Some (RNone, st)
      end
  | OClose i => match files !! i with Some o => env ← close_file env o; Some (RNone, (env, delete i files)) | None => Some (RNone, st) end
  | OExists fname => Some (RBool (FileExists env fname), st)
  | OChildren dir => Some (RNames (GetChildren env dir), st)
  | OSize fname => '(s, n) ← GetFileSize env fname; Some (RSize s n, st)
  | ODelete fname => '(s, env) ← DeleteFile env fname; Some (RStatus s, (env, files))
  | ORename src target => '(s, env) ← RenameFile env src target; Some (RStatus s, (env, files))
  end.

(** ** The relation *)

Definition links (m : gmap bytes nat) (a : nat) : Z := if bool_decide (a ∈ (map_img m : gset nat)) then 1 else 0.
Definition opens (files : list OpenFile) (a : nat) : Z := Z.of_nat (count_occ Nat.eq_dec (map file_of files) a).

Record rel (env : InMemoryEnv) (fs : AbsFs) (files : list OpenFile) (n total : Z) : Prop := {
  rl_map : file_map_ env = Some <$> names fs;
  rl_next : next_file env = abs_next fs;
  rl_inj f g a : names fs !! f = Some a -> names fs !! g = Some a -> f = g;
  rl_core : core env (data fs) (fun a => links (names fs) a + opens files a);
  rl_files i a pos : files !! i = Some (SequentialFileImpl a pos) -> 0 <= pos <= total;
  rl_count : blen files <= n;
  rl_total a c : data fs !! a = Some c -> blen c <= total;
}.

Lemma links_range m a : 0 <= links m a <= 1.
Proof. unfold links. destruct (bool_decide _); lia. Qed.

Lemma links_some m f a : m !! f = Some a -> links m a = 1.
Proof. intros Hf. unfold links. rewrite bool_decide_true; [done|]. apply elem_of_map_img. by exists f. Qed.

Lemma opens_nonneg files a : 0 <= opens files a.
Proof. unfold opens. lia. Qed.

Lemma opens_le files a : opens files a <= blen files.
Proof. unfold opens, blen. pose proof (count_occ_bound Nat.eq_dec a (map file_of files)). rewrite length_map in *. lia. Qed.

Lemma opens_cons files o a : opens (o :: files) a = opens files a + if decide (a = file_of o) then 1 else 0.
Proof. unfold opens. simpl. destruct (Nat.eq_dec (file_of o) a), (decide (a = file_of o)); try congruence; lia. Qed.

Lemma opens_app l l' a : opens (l ++ l') a = opens l a + opens l' a.
Proof. unfold opens. rewrite map_app, count_occ_app. lia. Qed.

Lemma opens_lookup files i o : files !! i = Some o -> 0 < opens files (file_of o).
Proof. intros Hi. rewrite <- (take_drop_middle files i o Hi), opens_app, opens_cons, decide_True by done. pose proof (opens_nonneg (take i files) (file_of o)). pose proof (opens_nonneg (drop (S i) files) (file_of o)). lia. Qed.

Lemma opens_delete files i o a : files !! i = Some o -> opens (delete i files) a = opens files a - if decide (a = file_of o) then 1 else 0.
Proof.
  intros Hi. rewrite delete_take_drop, opens_app. rewrite <- (take_drop_middle files i o Hi) at 3. rewrite opens_app, opens_cons. lia.
Qed.

Lemma opens_insert files i o o' a : files !! i = Some o -> file_of o' = file_of o -> opens (<[i := o']> files) a = opens files a.
Proof.
  intros Hi Hf. pose proof (lookup_lt_Some _ _ _ Hi). rewrite insert_take_drop by done. rewrite <- (take_drop_middle files i o Hi) at 3.
  rewrite !opens_app, !opens_cons, Hf. done.
Qed.

(** A file has one name at most. *)
Lemma links_delete m f a b : (forall g, m !! g = Some a -> g = f) -> m !! f = Some a ->
  links (delete f m) b = links m b - if decide (b = a) then 1 else 0.
Proof.
  intros Hinj Hf. destruct (decide (b = a)) as [-> |Hne].
  - rewrite (links_some m f a Hf). unfold links. rewrite bool_decide_false; [done|]. intros Hin. apply elem_of_map_img in Hin as [g Hg].
    apply lookup_delete_Some in Hg as [Hgf Hg]. apply Hgf. symmetry. by apply Hinj.
  - unfold links. rewrite Z.sub_0_r. erewrite bool_decide_ext; [reflexivity|]. rewrite !elem_of_map_img. split.
    + intros [g Hg]. apply lookup_delete_Some in Hg as [_ Hg]. by exists g.
    + intros [g Hg]. exists g. rewrite lookup_delete_ne; [done|]. intros <-. congruence.
Qed.

Lemma links_insert m f a b : m !! f = None -> (forall g, m !! g <> Some a) ->
  links (<[f := a]> m) b = links m b + if decide (b = a) then 1 else 0.
Proof.
  intros Hf Hfresh. destruct (decide (b = a)) as [-> |Hne].
  - rewrite (links_some _ f a) by apply lookup_insert_eq. unfold links. rewrite bool_decide_false; [done|]. intros Hin.
    apply elem_of_map_img in Hin as [g Hg]. by apply (Hfresh g).
  - unfold links. rewrite Z.add_0_r. erewrite bool_decide_ext; [reflexivity|]. rewrite !elem_of_map_img. split.
    + intros [g Hg]. destruct (decide (g = f)) as [-> |Hgf]; [rewrite lookup_insert_eq in Hg; congruence|]. rewrite lookup_insert_ne in Hg by done. by exists g.
    + intros [g Hg]. exists g. rewrite lookup_insert_ne; [done|]. intros <-. congruence.
Qed.

(** A name is moved. *)
Lemma links_move m src target a b : (forall g, m !! g = Some a -> g = src) -> m !! src = Some a -> m !! target = None ->
  links (delete src (<[target := a]> m)) b = links m b.
Proof.
  intros Hinj Hs Ht. assert (Hne : target <> src) by congruence. rewrite delete_insert_ne by done.
  assert (Hd : forall g, delete src m !! g <> Some a).
  { intros g Hg. apply lookup_delete_Some in Hg as [Hg1 Hg2]. apply Hg1. symmetry. by apply Hinj. }
  rewrite links_insert by (first [exact Hd | by rewrite lookup_delete_ne]). rewrite (links_delete m src a b Hinj Hs). lia.
Qed.

(** ** The list of names *)

Lemma sorted_names (m : gmap bytes nat) :
  merge_sort name_le (map fst (map_to_list (Some <$> m))) = merge_sort name_le (map fst (map_to_list m)).
Proof.
  by rewrite map_to_list_fmap, (map_map (prod_map id Some) fst).
Qed.

(** ** The steps *)

(** Lengths and offsets are unsigned; and the two uses that the environment gets
    wrong are left out: renaming a file to itself ([rename_self_deletes]) and
    opening a name that does not exist for appending ([appendable_new_is_null]). *)
Definition op_ok (fs : AbsFs) (op : env_op) : Prop :=
  match op with
  | ORead _ n | OSkip _ n => 0 <= n
  | OReadAt _ offset n => 0 <= offset /\ 0 <= n
  | ORename src target => names fs !! src = None \/ src <> target
  | ONewAppendable fname => is_Some (names fs !! fname)
  | _ => True
  end.

Definition op_bytes (op : env_op) : Z := match op with OAppend _ d => blen d | _ => 0 end.

Section Step.
Context (env : InMemoryEnv) (fs : AbsFs) (files : list OpenFile) (n total : Z) (Hrel : rel env fs files n total).
Context (Hn : n + 3 < 2 ^ 31) (Htot : 0 <= total < 2 ^ 64).

Definition simulated (op : env_op) : Prop :=
  exists env', mem_step (env, files) op = Some (fst (abs_step (fs, files) op), (env', snd (snd (abs_step (fs, files) op)))) /\
    rel env' (fst (snd (abs_step (fs, files) op))) (snd (snd (abs_step (fs, files) op))) (n + 1) (total + op_bytes op).

Lemma rel_later : rel env fs files (n + 1) total.
Proof. destruct Hrel. split; try done. lia. Qed.

Lemma named f : file_map_ env !! f = Some <$> names fs !! f.
Proof. by rewrite (rl_map _ _ _ _ _ Hrel), lookup_fmap. Qed.

Lemma cnt_named f a : names fs !! f = Some a -> 0 < links (names fs) a + opens files a.
Proof. intros Hf. rewrite (links_some _ _ _ Hf). pose proof (opens_nonneg files a). lia. Qed.

Lemma cnt_open i o : files !! i = Some o -> 0 < links (names fs) (file_of o) + opens files (file_of o).
Proof. intros Hi. pose proof (opens_lookup _ _ _ Hi). pose proof (links_range (names fs) (file_of o)). lia. Qed.

Lemma cnt_room a : links (names fs) a + opens files a + 1 < 2 ^ 31 - 1.
Proof. pose proof (links_range (names fs) a). pose proof (opens_le files a). pose proof (rl_count _ _ _ _ _ Hrel). lia. Qed.

Lemma open_file i o : files !! i = Some o ->
  exists f, heap env !! file_of o = Some f /\ file_ok f /\ data fs !! file_of o = Some (contents f) /\
    refs_ f = links (names fs) (file_of o) + opens files (file_of o).
Proof. intros Hi. apply (core_file _ _ _ (rl_core _ _ _ _ _ Hrel)). by apply (cnt_open i). Qed.

(** A file is opened. *)
Lemma open_step f a o : names fs !! f = Some a -> file_of o = a -> (forall pos, o = SequentialFileImpl a pos -> pos = 0) ->
  exists env', Ref env a = Some env' /\ rel env' fs (o :: files) (n + 1) total.
Proof.
  intros Hf Ho Hp. destruct (Ref_ok _ _ _ (rl_core _ _ _ _ _ Hrel) a (cnt_named _ _ Hf) (cnt_room a)) as (env' & E & Hm & Hx & Hc).
  exists env'. split; [done|]. destruct Hrel as [R1 R2 R3 R4 R5 R6 R7]. split; try congruence; try done.
  - eapply core_ext; [exact Hc|]. intros b. cbn beta. rewrite opens_cons, Ho. lia.
  - intros [|i] b pos Hi; [|by apply (R5 i b)]. injection Hi as ->. rewrite (Hp pos) by (by rewrite <- Ho). lia.
  - rewrite blen_cons. lia.
Qed.

Lemma sequential_step fname : simulated (ONewSequential fname).
Proof.
  unfold simulated, mem_step, abs_step, abs_open, NewSequentialFile. rewrite named. destruct (names fs !! fname) as [a|] eqn:E; cbn [fmap option_fmap option_map].
  - destruct (open_step fname a (SequentialFileImpl a 0)) as (env' & E' & Hr); [done|done|by intros pos [= ->]|].
    cbn [mbind option_bind]. rewrite E'. exists env'. rewrite Z.add_0_r. done.
  - exists env. rewrite Z.add_0_r. split; [done|apply rel_later].
Qed.

Lemma random_step fname : simulated (ONewRandom fname).
Proof.
  unfold simulated, mem_step, abs_step, abs_open, NewRandomAccessFile. rewrite named. destruct (names fs !! fname) as [a|] eqn:E; cbn [fmap option_fmap option_map].
  - destruct (open_step fname a (RandomAccessFileImpl a)) as (env' & E' & Hr); [done|done|done|].
    cbn [mbind option_bind]. rewrite E'. exists env'. rewrite Z.add_0_r. done.
  - exists env. rewrite Z.add_0_r. split; [done|apply rel_later].
Qed.

Lemma close_step i : simulated (OClose i).
Proof.
  unfold simulated, mem_step, abs_step, close_file. rewrite Z.add_0_r. destruct (files !! i) as [o|] eqn:Hi; [|exists env; split; [done|apply rel_later] ].
  destruct (Unref_ok _ _ _ (rl_core _ _ _ _ _ Hrel) (file_of o) (cnt_open i o Hi)) as (env' & E & Hm & Hx & Hc).
  cbn [mbind option_bind]. rewrite E. exists env'. split; [done|]. cbn [fst snd]. destruct Hrel as [R1 R2 R3 R4 R5 R6 R7]. split; try congruence; try done.
  - eapply core_ext; [exact Hc|]. intros b. cbn beta. rewrite (opens_delete _ _ _ _ Hi). lia.
  - intros j b pos Hj. destruct (Nat.lt_ge_cases j i); [rewrite list_lookup_delete_lt in Hj by done|rewrite list_lookup_delete_ge in Hj by done]; by eapply R5.
  - unfold blen in *. rewrite length_delete by (by eexists). lia.
Qed.

(** Changing the position of an open file. *)
Lemma seek_step i a pos pos' : files !! i = Some (SequentialFileImpl a pos) -> 0 <= pos' <= total ->
  rel env fs (<[i := SequentialFileImpl a pos']> files) (n + 1) total.
Proof.
  intros Hi Hp. destruct Hrel as [R1 R2 R3 R4 R5 R6 R7]. split; try congruence; try done.
  - eapply core_ext; [exact R4|]. intros b. cbn beta. by rewrite (opens_insert files i (SequentialFileImpl a pos) (SequentialFileImpl a pos')).
  - intros j b q Hj. apply list_lookup_insert_Some in Hj as [(-> & [= -> ->] & _)|[_ Hj] ]; [done|]. by apply (R5 j b).
  - unfold blen in *. rewrite length_insert. lia.
Qed.

Lemma bytes_of_eq a c : data fs !! a = Some c -> bytes_of fs a = c /\ blen c <= total.
Proof. intros Ha. unfold bytes_of. rewrite Ha. split; [done|]. by apply (rl_total _ _ _ _ _ Hrel a). Qed.

(** [Read] is the reading of the bytes of the file. *)
Lemma read_data f offset len : file_ok f -> 0 <= offset -> 0 <= len -> MemEnv.Read f offset len = Some (abs_read (contents f) offset len).
Proof.
  intros Hf Ho Hl. unfold abs_read. destruct (Z.ltb_spec (blen (contents f)) offset); [by apply Read_past|]. by apply Read_ok.
Qed.

Lemma read_step i len : 0 <= len -> simulated (ORead i len).
Proof.
  intros Hl. unfold simulated, mem_step, abs_step. rewrite Z.add_0_r.
  destruct (files !! i) as [ [a pos|a|a]|] eqn:Hi; try (exists env; split; [done|apply rel_later]).
  destruct (open_file i _ Hi) as (f & Hh & Hf & Hd & _). cbn [file_of] in *. pose proof (rl_files _ _ _ _ _ Hrel i a pos Hi) as Hpos.
  unfold sequential_Read. rewrite Hh. cbn [mbind option_bind]. rewrite read_data by (done || lia).
  destruct (bytes_of_eq a _ Hd) as [-> Hb]. destruct (abs_read (contents f) pos len) as [s d] eqn:Er. cbn [mbind option_bind].
  assert (Hnext : 0 <= (if ok s then pos + blen d else pos) <= total).
  { unfold abs_read in Er. destruct (Z.ltb_spec (blen (contents f)) pos); injection Er as <- <-; [simpl; lia|]. cbn [ok].
    pose proof (blen_nonneg (btake len (bdrop pos (contents f)))). assert (blen (btake len (bdrop pos (contents f))) <= blen (contents f) - pos); [|lia].
    rewrite <- (blen_bdrop pos (contents f)) by lia. unfold blen, btake. rewrite length_take. lia. }
  exists env. cbn [fst snd]. split.
  - destruct (ok s); [|done]. by rewrite u64_small by lia.
  - by apply (seek_step i a pos).
Qed.

Lemma skip_step i len : 0 <= len -> simulated (OSkip i len).
Proof.
  intros Hl. unfold simulated, mem_step, abs_step. rewrite Z.add_0_r.
  destruct (files !! i) as [ [a pos|a|a]|] eqn:Hi; try (exists env; split; [done|apply rel_later]).
  destruct (open_file i _ Hi) as (f & Hh & Hf & Hd & _). cbn [file_of] in *. pose proof (rl_files _ _ _ _ _ Hrel i a pos Hi) as Hpos.
  unfold sequential_Skip, Size. rewrite Hh. cbn [mbind option_bind]. rewrite (fo_size _ Hf).
  destruct (bytes_of_eq a _ Hd) as [-> Hb]. exists env. destruct (Z.ltb_spec (blen (contents f)) pos); cbn [mbind option_bind fst snd].
  - split; [done|]. by apply (seek_step i a pos).
  - set (m := if _ <? len then _ else len). assert (Em : pos + m = Z.min (pos + len) (blen (contents f))) by (unfold m; destruct (Z.ltb_spec (blen (contents f) - pos) len); lia).
    rewrite Em, u64_small by lia. split; [done|]. apply (seek_step i a pos); [done|lia].
Qed.

Lemma read_at_step i offset len : 0 <= offset -> 0 <= len -> simulated (OReadAt i offset len).
Proof.
  intros Ho Hl. unfold simulated, mem_step, abs_step. rewrite Z.add_0_r. exists env.
  destruct (files !! i) as [ [a pos|a|a]|] eqn:Hi; try (split; [done|apply rel_later]).
  destruct (open_file i _ Hi) as (f & Hh & Hf & Hd & _). cbn [file_of] in *.
  unfold random_Read. rewrite Hh. cbn [mbind option_bind]. rewrite read_data by done. destruct (bytes_of_eq a _ Hd) as [-> _].
  destruct (abs_read (contents f) offset len) as [s d]. split; [done|apply rel_later].
Qed.

(** The bytes of a file are replaced. *)
Lemma write_step a f : 0 < links (names fs) a + opens files a -> file_ok f -> refs_ f = links (names fs) a + opens files a ->
  forall more, 0 <= more -> blen (contents f) <= total + more ->
  rel (with_file env a f) (mkAbs (names fs) (<[a := contents f]> (data fs)) (abs_next fs)) files n (total + more).
Proof.
  intros Ha Hf Hr more Hm Hb. destruct Hrel as [R1 R2 R3 R4 R5 R6 R7]. split; try done; cbn [names data abs_next].
  - by apply write_ok.
  - intros j b pos Hj. specialize (R5 j b pos Hj). lia.
  - intros b c Hc. apply lookup_insert_Some in Hc as [ [_ <-]|[_ Hc] ]; [done|]. specialize (R7 b c Hc). lia.
Qed.

Lemma append_step i d : total + blen d < 2 ^ 64 -> simulated (OAppend i d).
Proof.
  intros Hd. pose proof (blen_nonneg d) as Hd0. unfold simulated, mem_step, abs_step. cbn [op_bytes].
  assert (Hsame : rel env fs files (n + 1) (total + blen d)).
  { destruct rel_later as [R1 R2 R3 R4 R5 R6 R7]. split; try done; [intros j b pos Hj; specialize (R5 j b pos Hj); lia|intros b c Hc; specialize (R7 b c Hc); lia]. }
  destruct (files !! i) as [ [a pos|a|a]|] eqn:Hi; try (exists env; by split).
  destruct (open_file i _ Hi) as (f & Hh & Hf & Ha & Hr). cbn [file_of] in *. destruct (bytes_of_eq a _ Ha) as [-> Hb].
  unfold writable_Append. rewrite Hh. cbn [mbind option_bind].
  destruct (Append_ok f d Hf) as (f' & E & Hf' & Hc & Hr'); [rewrite (fo_size _ Hf); lia|]. rewrite E. cbn [mbind option_bind fst snd].
  exists (with_file env a f'). split; [done|].
  pose proof (write_step a f' (cnt_open i _ Hi) Hf' ltac:(congruence) (blen d) Hd0 ltac:(rewrite Hc, blen_app; lia)) as Hw. rewrite Hc in Hw.
  destruct Hw as [W1 W2 W3 W4 W5 W6 W7]. split; try done. lia.
Qed.
End Step.

(** [NewWritableFile] truncates the file or makes an empty one, and opens it. *)
Lemma writable_step env fs files n total fname : rel env fs files n total -> n + 3 < 2 ^ 31 -> 0 <= total < 2 ^ 64 ->
  simulated env fs files n total (ONewWritable fname).
Proof.
  intros Hrel Hn Ht. unfold simulated, mem_step, abs_step, abs_create, NewWritableFile. rewrite (named _ _ _ _ _ Hrel), Z.add_0_r.
  destruct (names fs !! fname) as [a|] eqn:E; cbn [fmap option_fmap option_map mbind option_bind].
  - destruct (core_file _ _ _ (rl_core _ _ _ _ _ Hrel) a (cnt_named _ _ fname _ E)) as (f & Hf & Hok & Hd & Hr). rewrite Hf. cbn [mbind option_bind].
    pose proof (write_step _ _ _ _ _ Hrel a (Truncate f) (cnt_named fs files fname _ E) ltac:(split; [by left|done|done]) Hr 0 ltac:(lia) ltac:(change (0 <= total + 0); lia)) as Hw.
    rewrite Z.add_0_r in Hw. destruct (open_step _ _ _ _ _ Hw Hn Ht fname a (WritableFileImpl a) E) as (env' & E' & Hr'); [done|done|].
    rewrite E'. exists env'. split; [done|exact Hr'].
  - pose proof (rl_core _ _ _ _ _ Hrel) as Hc. destruct (fresh_cnt _ _ _ Hc) as [Hz _]. destruct (new_file_ok _ _ _ Hc) as (env' & -> & Hm & Hx & Hc').
    cbn [mbind option_bind]. set (a := next_file env) in *.
    assert (Hfresh : forall g, names fs !! g <> Some a).
    { intros g Hg. pose proof (cnt_named fs files _ _ Hg). lia. }
    assert (Hw : rel (with_map env' (<[fname := Some a]> (file_map_ env'))) (mkAbs (<[fname := a]> (names fs)) (<[a := []]> (data fs)) (S a)) files n total).
    { destruct Hrel as [R1 R2 R3 R4 R5 R6 R7]. split; try done; cbn [names data abs_next with_map file_map_ next_file].
      - by rewrite Hm, R1, fmap_insert.
      - intros g h b Hg Hh. apply lookup_insert_Some in Hg as [ [<- <-]|[Hg1 Hg] ]; apply lookup_insert_Some in Hh as [ [<- ?]|[Hh1 Hh] ]; subst; try done; [by apply Hfresh in Hh|by apply Hfresh in Hg|by eapply R3].
      - apply core_map. eapply core_ext; [exact Hc'|]. intros b. cbn beta. rewrite links_insert by done. lia.
      - intros b c Hb. apply lookup_insert_Some in Hb as [ [_ <-]|[_ Hb] ]; [rewrite blen_nil; lia|by apply (R7 b)]. }
    destruct (open_step _ _ _ _ _ Hw Hn Ht fname a (WritableFileImpl a)) as (env2 & E' & Hr'); [apply lookup_insert_eq|done|done|].
    rewrite E'. exists env2. rewrite <- (rl_next _ _ _ _ _ Hrel). split; [done|exact Hr'].
Qed.

(** [NewAppendableFile] of a file that exists opens it and keeps its bytes. *)
Lemma appendable_step env fs files n total fname : rel env fs files n total -> n + 3 < 2 ^ 31 -> 0 <= total < 2 ^ 64 ->
  is_Some (names fs !! fname) -> simulated env fs files n total (ONewAppendable fname).
Proof.
  intros Hrel Hn Ht [a E]. unfold simulated, mem_step, abs_step, abs_create, NewAppendableFile. rewrite (named _ _ _ _ _ Hrel), Z.add_0_r, E.
  cbn [fmap option_fmap option_map default mbind option_bind]. unfold id.
  assert (Hm : with_map env (<[fname := Some a]> (file_map_ env)) = env).
  { rewrite insert_id; [by destruct env|]. by rewrite (named _ _ _ _ _ Hrel), E. }
  rewrite Hm. cbn [mbind option_bind]. destruct (open_step _ _ _ _ _ Hrel Hn Ht fname a (WritableFileImpl a) E) as (env' & -> & Hr); [done|done|].
  by exists env'.
Qed.

(** A name is removed. *)
Lemma unlink_step env fs files n total fname a : rel env fs files n total -> names fs !! fname = Some a ->
  exists env', DeleteFileInternal env fname = Some env' /\
    rel env' (mkAbs (delete fname (names fs)) (data fs) (abs_next fs)) files n total.
Proof.
  intros Hrel E. unfold DeleteFileInternal. rewrite (named _ _ _ _ _ Hrel), E. cbn [fmap option_fmap option_map mbind option_bind].
  destruct (Unref_ok _ _ _ (rl_core _ _ _ _ _ Hrel) a (cnt_named _ _ _ _ E)) as (env' & -> & Hm & Hx & Hc). cbn [mbind option_bind].
  eexists. split; [reflexivity|]. destruct Hrel as [R1 R2 R3 R4 R5 R6 R7]. split; try done; cbn [names data abs_next with_map file_map_ next_file].
  - by rewrite Hm, R1, fmap_delete.
  - congruence.
  - intros g h b Hg Hh. apply lookup_delete_Some in Hg as [_ Hg]. apply lookup_delete_Some in Hh as [_ Hh]. by eapply R3.
  - apply core_map. eapply core_ext; [exact Hc|]. intros b. cbn beta. rewrite (links_delete _ fname a b); [lia| |done]. intros g Hg. by eapply R3.
Qed.

Lemma delete_step env fs files n total fname : rel env fs files n total -> simulated env fs files n total (ODelete fname).
Proof.
  intros Hrel. unfold simulated, mem_step, abs_step, DeleteFile. rewrite (named _ _ _ _ _ Hrel), Z.add_0_r.
  destruct (names fs !! fname) as [a|] eqn:E; cbn [fmap option_fmap option_map].
  - destruct (unlink_step _ _ _ _ _ _ _ Hrel E) as (env' & -> & Hr). exists env'. split; [done|]. by apply rel_later.
  - exists env. split; [done|]. by apply rel_later.
Qed.

Lemma rename_step env fs files n total src target : rel env fs files n total -> names fs !! src = None \/ src <> target ->
  simulated env fs files n total (ORename src target).
Proof.
  intros Hrel Hor. unfold simulated, mem_step, abs_step, RenameFile. rewrite (named _ _ _ _ _ Hrel), Z.add_0_r.
  destruct (names fs !! src) as [a|] eqn:E; cbn [fmap option_fmap option_map].
  2: { exists env. split; [done|]. by apply rel_later. }
  assert (Hne : src <> target) by (destruct Hor; [congruence|done]). rewrite <- delete_insert_ne by done.
  assert (Hdel : exists env', DeleteFileInternal env target = Some env' /\ rel env' (mkAbs (delete target (names fs)) (data fs) (abs_next fs)) files n total).
  { destruct (names fs !! target) as [b|] eqn:Et; [by eapply unlink_step|]. exists env. split.
    - unfold DeleteFileInternal. by rewrite (named _ _ _ _ _ Hrel), Et.
    - rewrite delete_id by done. by destruct fs. }
  destruct Hdel as (env' & -> & Hr). cbn [mbind option_bind]. eexists. split; [reflexivity|]. cbn [fst snd].
  assert (Es : delete target (names fs) !! src = Some a) by (by rewrite lookup_delete_ne).
  pose proof (named _ _ _ _ _ Hr src) as Hsrc. cbn [names] in Hsrc. rewrite Es in Hsrc. rewrite Hsrc. cbn [fmap option_fmap option_map default].
  destruct Hr as [R1 R2 R3 R4 R5 R6 R7]. split; try done; cbn [names data abs_next with_map file_map_ next_file] in *.
  - unfold id. by rewrite R1, <- fmap_insert, <- fmap_delete, insert_delete_eq.
  - intros g h b Hg Hh. rewrite <- insert_delete_eq in Hg, Hh. apply lookup_delete_Some in Hg as [Hg1 Hg]. apply lookup_delete_Some in Hh as [Hh1 Hh].
    apply lookup_insert_Some in Hg as [ [<- <-]|[Hg2 Hg] ]; apply lookup_insert_Some in Hh as [ [<- ?]|[Hh2 Hh] ]; subst; try done;
      [by destruct Hh1; eapply R3|by destruct Hg1; eapply R3|by eapply R3].
  - apply core_map. eapply core_ext; [exact R4|]. intros b. cbn beta. f_equal. rewrite <- insert_delete_eq.
    apply links_move; [|done|apply lookup_delete_eq]. intros g Hg. by eapply R3.
  - lia.
Qed.

Lemma query_step env fs files n total op : rel env fs files n total -> match op with OExists _ | OChildren _ | OSize _ => True | _ => False end ->
  simulated env fs files n total op.
Proof.
  intros Hrel Hop. exists env. destruct op; try done; unfold mem_step, abs_step; rewrite Z.add_0_r; cbn [fst snd].
  - split; [|by apply rel_later]. unfold FileExists. rewrite (named _ _ _ _ _ Hrel). do 3 f_equal. erewrite bool_decide_ext; [reflexivity|]. apply fmap_is_Some.
  - split; [|by apply rel_later]. unfold GetChildren. by rewrite (rl_map _ _ _ _ _ Hrel), sorted_names.
  - unfold GetFileSize, Size. rewrite (named _ _ _ _ _ Hrel). destruct (names fs !! fname) as [a|] eqn:E; cbn [fmap option_fmap option_map]; (split; [|by apply rel_later]); [|done].
    destruct (core_file _ _ _ (rl_core _ _ _ _ _ Hrel) a (cnt_named _ _ fname _ E)) as (f & Hf & Hok & Hd & Hr). cbn [mbind option_bind]. rewrite Hf. cbn [mbind option_bind].
    destruct (bytes_of_eq _ _ _ _ _ Hrel a _ Hd) as [-> _]. by rewrite (fo_size _ Hok).
Qed.

Lemma env_step_ok env fs files n total op : rel env fs files n total -> op_ok fs op -> n + 3 < 2 ^ 31 -> 0 <= total -> total + op_bytes op < 2 ^ 64 ->
  simulated env fs files n total op.
Proof.
  intros Hrel Hop Hn Ht Hb. assert (0 <= op_bytes op) by (destruct op; simpl; try lia; apply blen_nonneg).
  destruct op; simpl in Hop, Hb; try (by apply query_step).
  - apply sequential_step; first [done | lia | by split; lia].
  - apply random_step; first [done | lia | by split; lia].
  - apply writable_step; first [done | lia | by split; lia].
  - apply appendable_step; first [done | lia | by split; lia].
  - apply read_step; first [done | lia | by split; lia].
  - apply skip_step; first [done | lia | by split; lia].
  - apply read_at_step; first [done | lia | by split; lia].
  - apply append_step; first [done | lia | by split; lia].
  - apply close_step; first [done | lia | by split; lia].
  - by apply delete_step.
  - by apply rename_step.
Qed.

(** ** Runs *)

Fixpoint abs_run (st : AbsFs * list OpenFile) (ops : list env_op) : list result * (AbsFs * list OpenFile) :=
  match ops with
  | [] => ([], st)
  | op :: ops => let '(r, st) := abs_step st op in let '(rs, st) := abs_run st ops in (r :: rs, st)
  end.

Fixpoint mem_run (st : InMemoryEnv * list OpenFile) (ops : list env_op) : option (list result * (InMemoryEnv * list OpenFile)) :=
  match ops with
  | [] => Some ([], st)
  | op :: ops => '(r, st) ← mem_step st op; '(rs, st) ← mem_run st ops; Some (r :: rs, st)
  end.

(** Every operation of the run is used as [op_ok] asks, in the state it meets. *)
Fixpoint ops_ok (st : AbsFs * list OpenFile) (ops : list env_op) : Prop :=
  match ops with
  | [] => True
  | op :: ops => op_ok (fst st) op /\ ops_ok (snd (abs_step st op)) ops
  end.

Definition run_bytes (ops : list env_op) : Z := foldr Z.add 0 (map op_bytes ops).
Definition newAbs : AbsFs := mkAbs ∅ ∅ 0.

Lemma run_bytes_nonneg ops : 0 <= run_bytes ops.
Proof. unfold run_bytes. induction ops as [|op ops IH]; [done|]. cbn [map foldr]. assert (0 <= op_bytes op) by (destruct op; simpl; try lia; apply blen_nonneg). lia. Qed.

Lemma rel_new : rel newMemEnv newAbs [] 0 0.
Proof. split; done. Qed.

Lemma env_run_ok ops : forall env fs files n total, rel env fs files n total -> ops_ok (fs, files) ops -> 0 <= total ->
  n + Z.of_nat (length ops) + 2 < 2 ^ 31 -> total + run_bytes ops < 2 ^ 64 ->
  exists env', mem_run (env, files) ops = Some (fst (abs_run (fs, files) ops), (env', snd (snd (abs_run (fs, files) ops)))) /\
    rel env' (fst (snd (abs_run (fs, files) ops))) (snd (snd (abs_run (fs, files) ops))) (n + Z.of_nat (length ops)) (total + run_bytes ops).
Proof.
  induction ops as [|op ops IH]; intros env fs files n total Hrel Hops Ht Hn Hb.
  { exists env. split; [done|]. unfold run_bytes. simpl. by rewrite !Z.add_0_r. }
  cbn [ops_ok fst] in Hops. destruct Hops as [Hop Hrest]. cbn [length] in Hn. change (run_bytes (op :: ops)) with (op_bytes op + run_bytes ops) in *.
  pose proof (run_bytes_nonneg ops). assert (0 <= op_bytes op) by (destruct op; simpl; try lia; apply blen_nonneg).
  destruct (env_step_ok env fs files n total op Hrel Hop) as (env1 & E1 & Hr1); [lia..|].
  cbn [mem_run abs_run]. rewrite E1. cbn [mbind option_bind]. destruct (abs_step (fs, files) op) as [r [fs1 files1] ]. cbn [fst snd] in *.
  destruct (IH env1 fs1 files1 (n + 1) (total + op_bytes op) Hr1 Hrest) as (env2 & E2 & Hr2); [lia..|]. rewrite E2. cbn [mbind option_bind].
  destruct (abs_run (fs1, files1) ops) as [rs [fs2 files2] ]. cbn [fst snd] in *. exists env2. split; [done|].
  replace (n + Z.of_nat (length (op :: ops))) with (n + 1 + Z.of_nat (length ops)) by (cbn [length]; lia). by rewrite Z.add_assoc.
Qed.

(** ** The destructor *)

Definition one_of (l : list nat) (a : nat) : Z := if bool_decide (a ∈ l) then 1 else 0.

Lemma destroy_ok l : forall env data, NoDup l.*2 -> core env data (one_of l.*2) ->
  exists env', fold_left (fun env e => env ← env; a ← snd e; Unref env a) (map (fun e : bytes * nat => (fst e, Some (snd e))) l) (Some env) = Some env' /\ heap env' = ∅.
Proof.
  induction l as [|[f a] l IH]; intros env data Hnd Hc.
  - exists env. split; [done|]. apply map_empty. intros a. destruct (heap env !! a) as [f|] eqn:E; [|done].
    destruct (k_heap _ _ _ Hc a f E) as (_ & _ & _ & Hp & _). simpl in Hp. unfold one_of in Hp. rewrite bool_decide_false in Hp by set_solver. lia.
  - cbn [map fold_left fst snd]. rewrite fmap_cons in *. apply NoDup_cons in Hnd as [Ha Hnd]. cbn [snd] in *.
    destruct (Unref_ok _ _ _ Hc a) as (env' & E & _ & _ & Hc'); [unfold one_of; rewrite bool_decide_true by set_solver; lia|].
    cbn [mbind option_bind]. rewrite E. apply (IH env' data Hnd). eapply core_ext; [exact Hc'|]. intros b. cbn beta. unfold one_of.
    destruct (decide (b = a)) as [-> |Hne]; [rewrite bool_decide_false by done; rewrite bool_decide_true by set_solver; lia|].
    rewrite Z.sub_0_r. erewrite bool_decide_ext; [reflexivity|]. set_solver.
Qed.

Lemma DestroyEnv_ok env fs n total : rel env fs [] n total -> exists env', DestroyEnv env = Some env' /\ heap env' = ∅.
Proof.
  intros [R1 R2 R3 R4 _ _ _]. unfold DestroyEnv. rewrite R1, map_to_list_fmap.
  apply (destroy_ok (map_to_list (names fs)) env (data fs)).
  - apply NoDup_fmap_2_strong; [|apply NoDup_map_to_list]. intros [f a] [g b] Hf Hg Hab. simpl in Hab. subst b.
    apply elem_of_map_to_list in Hf, Hg. by rewrite (R3 f g a Hf Hg).
  - eapply core_ext; [exact R4|]. intros a. unfold one_of, links. cbn [opens map count_occ]. unfold opens. rewrite Z.add_0_r. erewrite bool_decide_ext; [reflexivity|].
    rewrite map_img_alt. set_solver.
Qed.

(** * The refinement *)

(** C23: for every sequence of fewer than [2^31 - 2] operations that append fewer than
    [2^64] bytes, rename no file to itself and open no name for appending that does
    not exist (the two uses the environment gets wrong: [rename_self_deletes] and
    [appendable_new_is_null] below), the environment in memory gives the results of
    the file system whose names stand for byte strings: opened files see later
    appends, files that are deleted or replaced while open stay readable, reading
    goes on where it stopped, across the 8K blocks; no null or freed [FileState] is
    used and no reference count fails its assertion.  When all files have been
    closed, the destructor frees every [FileState]. *)
Theorem memenv_refines ops : ops_ok (newAbs, []) ops -> Z.of_nat (length ops) + 2 < 2 ^ 31 -> run_bytes ops < 2 ^ 64 ->
  let '(results, (_, files)) := abs_run (newAbs, []) ops in
  exists env, mem_run (newMemEnv, []) ops = Some (results, (env, files)) /\
    (files = [] -> exists env', DestroyEnv env = Some env' /\ heap env' = ∅).
Proof.
  intros Hops Hn Hb. destruct (env_run_ok ops newMemEnv newAbs [] 0 0 rel_new Hops) as (env & E & Hr); [lia..|].
  destruct (abs_run (newAbs, []) ops) as [results [fs files] ]. cbn [fst snd] in *. exists env. split; [exact E|].
  intros ->. by eapply DestroyEnv_ok.
Qed.

(** A log is written, replaced while it is open, read over a block boundary, and
    all files are closed. *)
Definition example_ops : list env_op :=
  [ONewWritable (str "/db/LOG"); OAppend 0 (replicate 8191 "a"%byte); OAppend 0 (str "bcd"); ONewSequential (str "/db/LOG");
   OSkip 0 8190; ORead 0 3; ONewWritable (str "/db/TMP"); OAppend 0 (str "xy"); ORename (str "/db/TMP") (str "/db/LOG");
   ORead 1 9; OSize (str "/db/LOG"); OChildren (str "/db"); OExists (str "/db/TMP"); ODelete (str "/db/LOG");
   OClose 0; OClose 0; OClose 0; ONewRandom (str "/db/LOG");
   ONewWritable (str "/db/LOG"); OAppend 0 (str "x"); ONewAppendable (str "/db/LOG"); OAppend 0 (str "y"); OSize (str "/db/LOG"); OClose 0; OClose 0].

Lemma memenv_refines_witness :
  (let '(results, (_, files)) := abs_run (newAbs, []) example_ops in
   exists env, mem_run (newMemEnv, []) example_ops = Some (results, (env, files)) /\
    (files = [] -> exists env', DestroyEnv env = Some env' /\ heap env' = ∅)) /\
  skipn 4 (fst (abs_run (newAbs, []) example_ops)) =
    [RStatus OK; RBytes OK (str "abc"); RStatus OK; RStatus OK; RStatus OK; RBytes OK (str "d"); RSize OK (Some 2);
     RNames [str "LOG"]; RBool false; RStatus OK; RNone; RNone; RNone; RStatus (file_not_found (str "/db/LOG"));
     RStatus OK; RStatus OK; RStatus OK; RStatus OK; RSize OK (Some 2); RNone; RNone] /\
  snd (snd (abs_run (newAbs, []) example_ops)) = [].
Proof.
  split; [|split; vm_compute; reflexivity].
  apply (memenv_refines example_ops); [|vm_compute; reflexivity|vm_compute; reflexivity].
  assert (Hs : str "/db/TMP" <> str "/db/LOG") by (intros E; vm_compute in E; discriminate E).
  vm_compute. repeat split; try (by right); try (by eexists); try (intros E; discriminate E).
Defined.

(** Renaming a file to itself deletes it, and reports success. *)
Lemma rename_self_deletes env fs files n total f : rel env fs files n total -> is_Some (names fs !! f) ->
  exists env', RenameFile env f f = Some (OK, env') /\ FileExists env' f = false.
Proof.
  intros Hrel [a Ha]. destruct (unlink_step _ _ _ _ _ _ _ Hrel Ha) as (env' & E & _). unfold RenameFile.
  rewrite (named _ _ _ _ _ Hrel), Ha. cbn [fmap option_fmap option_map]. rewrite E. eexists. split; [reflexivity|].
  unfold FileExists. cbn [with_map file_map_]. apply bool_decide_false. rewrite lookup_delete_eq. by intros [].
Qed.

(** A new file opened for appending is not stored under its name: the name is bound
    to the null pointer, and opening, measuring or deleting the file afterwards
    uses it. *)
Lemma appendable_new_is_null env fs files n total f : rel env fs files n total -> names fs !! f = None ->
  exists o env', NewAppendableFile env f = Some (OK, Some o, env') /\ FileExists env' f = true /\
    NewSequentialFile env' f = None /\ GetFileSize env' f = None /\ MemEnv.DeleteFile env' f = None.
Proof.
  intros Hrel Hf. unfold NewAppendableFile. rewrite (named _ _ _ _ _ Hrel), Hf. cbn [fmap option_fmap option_map default].
  destruct (new_file_ok _ _ _ (core_map _ _ _ (<[f := None]> (file_map_ env)) (rl_core _ _ _ _ _ Hrel))) as (env1 & E1 & Hm1 & _ & Hc1).
  cbn [next_file with_map] in *. rewrite E1. cbn [mbind option_bind]. destruct (fresh_cnt _ _ _ (rl_core _ _ _ _ _ Hrel)) as [Hz _].
  destruct (Ref_ok _ _ _ Hc1 (next_file env)) as (env2 & E2 & Hm2 & _); [rewrite Hz, decide_True by done; lia..|]. rewrite E2. cbn [mbind option_bind].
  eexists _, env2. split; [reflexivity|].
  assert (Hl : file_map_ env2 !! f = Some None) by (rewrite Hm2, Hm1; apply lookup_insert_eq).
  unfold FileExists, NewSequentialFile, GetFileSize, MemEnv.DeleteFile, DeleteFileInternal. rewrite !Hl. done.
Qed.
