(* ===== verification/CompactionInstall.v ===== *)
(** A compaction at the level of versions: after the results of [DoCompactionWork]
    are installed (InstallCompactionResults and the builder of version_set.cc) the
    tree of files keeps its invariant, and every read at a snapshot that is still
    in use gives what it gave before (a trivial move: TrivialMove).  The inputs of
    the next level must hold all older versions of a user key they end with, which
    [SetupOtherInputs] does not see to: the last section shows a deleted key that
    comes back. *)

From stdpp Require Import base gmap list sorting strings.
From Stdlib Require Import QArith.
From S2P Require Import Prelude Status Coding Crc32c Env Comparator Logging DbFormat VersionEdit Plr LearnedIndex Version VersionGet VersionGetProofs VersionBuilder VersionBuilderProofs Iterator Format Block TableBuilder Compaction CompactionProofs CompactionWork CompactionDrop CompactionWorkProofs.

#[local] Open Scope Z_scope.

Lemma sorted_sublist {A} (R : A -> A -> Prop) l k : l `sublist_of` k -> StronglySorted R k -> StronglySorted R l.
Proof.
  induction 1 as [|x l k Hs IH|x l k Hs IH]; intros Hk; [done| |]; apply StronglySorted_inv in Hk as [Hk Hx]; [|by apply IH].
  constructor; [by apply IH|]. rewrite Forall_forall in *. intros y Hy. apply Hx. by eapply elem_of_sublist.
Qed.

Section Install.
Context (user : Comparator) {Huser : @ComparatorOk user} {Hr : TableReader} {Hro : TableReaderOk user}.
#[local] Abbreviation icmp := (InternalKey_Compare user).
#[local] Abbreviation ucmp := (@Compare user).
#[local] Abbreviation contents := (@VersionGetProofs.contents user Hr Hro).
#[local] Abbreviation ukey e := (ExtractUserKey (fst e)).
#[local] Abbreviation tag e := (ExtractTag (fst e)).
#[local] Abbreviation lsm := (@VersionGetProofs.lsm user Hr Hro).
#[local] Abbreviation vis := (@VersionGetProofs.visible user Hr Hro).
#[local] Abbreviation newest := (@VersionGetProofs.newest user Hr Hro).
#[local] Abbreviation before := (ends_before user).
#[local] Abbreviation share := (files_overlap user).
#[local] Instance icmp_tot : TotalCompare icmp := icmp_total user.
#[local] Instance ucmp_tot : TotalCompare ucmp := Compare_total.

(** Of two newest entries there is one. *)
Lemma sorted_keys_inj run e e' : StronglySorted (key_lt user) run -> e ∈ run -> e' ∈ run -> icmp e.1 e'.1 = 0 -> e = e'.
Proof.
  induction 1 as [|x run Hs IH Hx]; intros He He' Hc; [by apply elem_of_nil in He|]. rewrite Forall_forall in Hx. unfold key_lt in Hx.
  apply elem_of_cons in He as [->|He]; apply elem_of_cons in He' as [->|He']; [done| | |by apply IH].
  - specialize (Hx e' He'). lia.
  - specialize (Hx e He). apply (tc_eq_sym icmp) in Hc. lia.
Qed.

Lemma file_order w level f f' e e' : lsm w -> f ∈ level_files w level -> f' ∈ level_files w level -> e ∈ contents f -> e' ∈ contents f' ->
  before f f' -> icmp e.1 e'.1 < 0.
Proof.
  intros Hw Hf Hf' He He' Hb. destruct (lsm_contents _ _ Hw level f Hf) as (_ & Hc & _). destruct (lsm_contents _ _ Hw level f' Hf') as (_ & Hc' & _).
  rewrite Forall_forall in Hc, Hc'. destruct (Hc e He) as (_ & _ & F2). destruct (Hc' e' He') as (_ & G1 & _).
  eapply (tc_le_lt_trans icmp); [exact F2|]. by eapply (tc_lt_le_trans icmp).
Qed.

Lemma newest_same w ikey e e' : lsm w -> newest w ikey e -> newest w ikey e' -> e = e'.
Proof.
  intros Hw [(le & f & Hf & He & Hu & Hi) Hmax] [(le' & f' & Hf' & He' & Hu' & Hi') Hmax'].
  assert (Ht : tag e = tag e').
  { pose proof (Hmax le' f' e' (conj Hf' (conj He' (conj Hu' Hi')))). pose proof (Hmax' le f e (conj Hf (conj He (conj Hu Hi)))). lia. }
  assert (Huu : ucmp (ukey e) (ukey e') = 0) by (eapply cmp_eq_trans; [exact Hu|]; by apply cmp_eq_sym).
  assert (Hplace : forall p q x y, p.2 ∈ level_files w p.1 -> q.2 ∈ level_files w q.1 -> x ∈ contents p.2 -> y ∈ contents q.2 ->
    ucmp (ukey x) (ukey y) = 0 -> tag x = tag y -> ~ newer_place p q).
  { intros p q x y Hp Hq Hx Hy Hxy Hte Hn. pose proof (lsm_newer _ _ Hw p q x y Hp Hq Hn Hx Hy Hxy). lia. }
  assert (Hff : f = f').
  { destruct (Nat.lt_trichotomy le le') as [Hlt|[<-|Hlt]].
    - destruct (Hplace (le, f) (le', f') e e'); try done. by left.
    - destruct (decide (le = 0%nat)) as [->|Hne].
      + destruct (Z.lt_trichotomy (number f) (number f')) as [Hn|[Hn|Hn]].
        * destruct (Hplace (0%nat, f') (0%nat, f) e' e); try done; [by apply cmp_eq_sym|by right].
        * by apply (number_inj (level_files w 0) f f' (lsm_numbers _ _ Hw)).
        * destruct (Hplace (0%nat, f) (0%nat, f') e e'); try done. by right.
      + destruct (lsm_version _ _ Hw le ltac:(lia)) as [Hd _]. destruct (sorted_level_cases user _ f f' Hd Hf Hf') as [|[Hb|Hb]]; [done| |]; exfalso.
        * pose proof (file_order w le f f' e e' Hw Hf Hf' He He' Hb) as Ho. apply icmp_lt in Ho. lia.
        * pose proof (file_order w le f' f e' e Hw Hf' Hf He' He Hb) as Ho. apply icmp_lt in Ho. pose proof (cmp_eq_sym _ _ Huu). lia.
    - destruct (Hplace (le', f') (le, f) e' e); try done; [by apply cmp_eq_sym|by left]. }
  subst f'. destruct (lsm_contents _ _ Hw le f Hf) as (Hs & _). apply (sorted_keys_inj (contents f)); [exact Hs|done|done|].
  pose proof (icmp_lt user e.1 e'.1) as I1. pose proof (icmp_lt user e'.1 e.1) as I2. pose proof (cmp_eq_sym _ _ Huu).
  pose proof (tc_antisym (cmp := icmp) e'.1 e.1). lia.
Qed.

(** What the table of a file holds is known by its number and size
    ([TableCache::Get] has no more). *)
Context (same_table : forall f g, number f = number g -> file_size f = file_size g -> contents f = contents g).

Lemma norm_fields f g : norm f = norm g ->
  number f = number g /\ smallest f = smallest g /\ largest f = largest g /\ contents f = contents g.
Proof. unfold norm. intros [= En Es Esm El]. split_and!; try done. by apply same_table. Qed.

(** * The tree after the compaction *)

Context (v : Version) (Hv : lsm v) (L : nat) (HL : (S L < Z.to_nat kNumLevels)%nat).
Context (S0 S1 : list FileMetaData) (Hsafe : inputs_safe user v L S0 S1).
Context (Hnext : inputs_closed user (S L) (level_files v (S L)) S1).

(** The merge of the inputs, and the runs of the outputs. *)
Context (l : list (bytes * bytes)) (gs : list (list (bytes * bytes))) (outs : list FileMetaData).
Context (Hsorted : StronglySorted (key_lt user) l).
Context (Hmerge : forall e, e ∈ l <-> exists f, f ∈ S0 ++ S1 /\ e ∈ contents f).
Context (Hsub : concat gs `sublist_of` l).
Context (Houts : Forall2 (fun o g => contents o = g /\ exact_bounds user o) outs gs).

(** The files of the levels afterwards. *)
Definition stays (level : nat) (f : FileMetaData) : Prop :=
  f ∈ level_files v level /\ ~ (level = L /\ f ∈ S0) /\ ~ (level = S L /\ f ∈ S1).
Definition level_after (level : nat) (f : FileMetaData) : Prop := (level = S L /\ f ∈ outs) \/ stays level f.

Record installed (v' : Version) : Prop := {
  in_files level f' : f' ∈ level_files v' level -> exists f, norm f = norm f' /\ level_after level f;
  in_all level f : level_after level f -> exists f', f' ∈ level_files v' level /\ norm f' = norm f;
  in_sorted level : (0 < level)%nat -> StronglySorted before (level_files v' level);
  in_numbers : NoDup (map number (level_files v' 0));
  in_levels : (length (files_ v') <= Z.to_nat kNumLevels)%nat;
}.

Lemma entry_in level f e : f ∈ level_files v level -> e ∈ contents f ->
  entry_ok e /\ icmp (smallest f) e.1 <= 0 /\ icmp e.1 (largest f) <= 0.
Proof. intros Hf He. destruct (lsm_contents _ _ Hv level f Hf) as (_ & Hc & _). rewrite Forall_forall in Hc. by apply Hc. Qed.

Lemma input_level f : f ∈ S0 ++ S1 -> (f ∈ S0 /\ f ∈ level_files v L) \/ (f ∈ S1 /\ f ∈ level_files v (S L)).
Proof.
  rewrite elem_of_app. intros [Hf|Hf]; [left; split; [done|by apply (is_sub _ _ _ _ _ Hsafe)]|right; split; [done|]].
  by apply (nl_sub _ _ _ _ (is_next _ _ _ _ _ Hsafe)).
Qed.

Lemma input_in f : f ∈ S0 ++ S1 -> exists level, (level = L \/ level = S L) /\ f ∈ level_files v level.
Proof. intros [[_ Hf]|[_ Hf]]%input_level; eauto. Qed.

(** Two files with a user key in common. *)
Lemma same_user_share lf f lg g e e' : f ∈ level_files v lf -> g ∈ level_files v lg -> e ∈ contents f -> e' ∈ contents g ->
  ucmp (ukey e) (ukey e') = 0 -> share f g.
Proof.
  intros Hf Hg He He' Hu. destruct (entry_in lf f e Hf He) as (_ & F1 & F2). destruct (entry_in lg g e' Hg He') as (_ & G1 & G2).
  apply icmp_user in F1, F2, G1, G2. unfold files_overlap, smallest_user, largest_user. split.
  - eapply cmp_le_trans; [exact F1|]. eapply cmp_le_trans; [|exact G2]. lia.
  - eapply cmp_le_trans; [exact G1|]. eapply cmp_le_trans; [|exact F2]. apply cmp_eq_sym in Hu. lia.
Qed.

(** Entries of files in order, of one user key. *)
Lemma before_newer lf f lg g e e' : f ∈ level_files v lf -> g ∈ level_files v lg -> e ∈ contents f -> e' ∈ contents g ->
  before f g -> ucmp (ukey e) (ukey e') = 0 -> tag e' < tag e.
Proof.
  intros Hf Hg He He' Hb Hu. destruct (entry_in lf f e Hf He) as (_ & _ & F2). destruct (entry_in lg g e' Hg He') as (_ & G1 & _).
  assert (Hlt : icmp e.1 e'.1 < 0) by (eapply (tc_le_lt_trans icmp); [exact F2|]; by eapply (tc_lt_le_trans icmp)).
  apply icmp_lt in Hlt. lia.
Qed.

(** A file that stays in a level up to the compacted one is newer than the inputs. *)
Lemma stays_newer level p f e e' : (level <= L)%nat -> stays level p -> f ∈ S0 ++ S1 -> e ∈ contents p -> e' ∈ contents f ->
  ucmp (ukey e) (ukey e') = 0 -> tag e' < tag e.
Proof.
  intros Hl (Hp & Hn0 & _) Hf He He' Hu. destruct (input_level f Hf) as [[Hf0 Hfl]|[_ Hfl]].
  - destruct (decide (level = L)) as [->|Hne].
    + assert (Hs : share f p) by (eapply (same_user_share L f L p e' e); [done..|]; by apply cmp_eq_sym).
      destruct (is_closed _ _ _ _ _ Hsafe f p Hf0 Hp Hs) as [|[_ Hb]]; [tauto|].
      by apply (before_newer L p L f e e').
    + apply (lsm_newer _ _ Hv (level, p) (L, f) e e'); try done. left. simpl. lia.
  - apply (lsm_newer _ _ Hv (level, p) (S L, f) e e'); try done. left. simpl. lia.
Qed.

Lemma inputs_newer level q f e e' : (S L < level)%nat -> q ∈ level_files v level -> f ∈ S0 ++ S1 -> e ∈ contents f -> e' ∈ contents q ->
  ucmp (ukey e) (ukey e') = 0 -> tag e' < tag e.
Proof.
  intros Hl Hq Hf He He' Hu. destruct (input_in f Hf) as (lf & Hlf & Hfl).
  apply (lsm_newer _ _ Hv (lf, f) (level, q) e e'); try done. left. simpl. lia.
Qed.

(** A file that stays in the next level shares no user key with an input but one
    for which it holds newer versions. *)
Lemma next_newer q f e e' : stays (S L) q -> f ∈ S0 ++ S1 -> e ∈ contents q -> e' ∈ contents f ->
  ucmp (ukey e) (ukey e') = 0 -> tag e' < tag e.
Proof.
  intros (Hq & _ & Hn1) Hf He He' Hu. destruct (input_level f Hf) as [[Hf0 Hfl]|[Hf1 Hfl]].
  - destruct Hn1. split; [done|]. apply (nl_all _ _ _ _ (is_next _ _ _ _ _ Hsafe) f q Hf0 Hq).
    eapply (same_user_share L f (S L) q e' e); [done..|]. by apply cmp_eq_sym.
  - destruct (Hnext f q Hf1 Hq) as [|[_ Hb]]; [|tauto|by apply (before_newer (S L) q (S L) f e e')].
    eapply (same_user_share (S L) f (S L) q e' e); [done..|]. by apply cmp_eq_sym.
Qed.

(** * The outputs *)

Lemma out_run o : o ∈ outs -> exists g, g ∈ gs /\ contents o = g /\ exact_bounds user o.
Proof.
  intros Ho. apply list_elem_of_lookup in Ho as [i Hi]. destruct (Forall2_lookup_l _ _ _ _ _ Houts Hi) as (g & Hg & H). exists g. split; [by eapply list_elem_of_lookup_2|done].
Qed.

Lemma in_concat' {A} (x : A) (ls : list (list A)) : x ∈ concat ls <-> exists g, g ∈ ls /\ x ∈ g.
Proof. rewrite list_elem_of_In, in_concat. setoid_rewrite list_elem_of_In. done. Qed.

Lemma out_origin o e : o ∈ outs -> e ∈ contents o -> exists f, f ∈ S0 ++ S1 /\ e ∈ contents f.
Proof.
  intros Ho He. destruct (out_run o Ho) as (g & Hg & Ec & _). apply Hmerge. eapply elem_of_sublist; [|exact Hsub].
  apply in_concat'. exists g. split; [done|by rewrite <- Ec].
Qed.

Lemma sorted_bounds run e0 el e : StronglySorted (key_lt user) run -> head run = Some e0 -> last run = Some el -> e ∈ run ->
  icmp e0.1 e.1 <= 0 /\ icmp e.1 el.1 <= 0.
Proof.
  intros Hs Eh El He. split.
  - destruct run as [|x run]; [done|]. injection Eh as ->. apply elem_of_cons in He as [->|He]; [rewrite (tc_refl icmp); lia|].
    apply StronglySorted_inv in Hs as [_ Hs]. rewrite Forall_forall in Hs. specialize (Hs e He). unfold key_lt in Hs. lia.
  - apply last_Some in El as [run' ->]. apply elem_of_app in He as [He|He%list_elem_of_singleton]; [|subst; rewrite (tc_refl icmp); lia].
    apply StronglySorted_app in Hs as (Hs & _ & _). specialize (Hs e el He ltac:(by left)). unfold key_lt in Hs. lia.
Qed.

Lemma out_contents o : o ∈ outs -> @file_contents_ok user Hr Hro o.
Proof.
  intros Ho. destruct (out_run o Ho) as (g & Hg & Ec & Hb).
  assert (Hs : StronglySorted (key_lt user) (contents o)).
  { assert (Hc : StronglySorted (key_lt user) (concat gs)) by (by eapply sorted_sublist). rewrite Ec.
    apply list_elem_of_split in Hg as (g1 & g2 & ->). rewrite concat_app in Hc. cbn [concat] in Hc.
    apply StronglySorted_app in Hc as (_ & _ & Hc). by apply StronglySorted_app in Hc as (_ & Hc & _). }
  split; [exact Hs|]. split; [|done]. apply Forall_forall. intros e He. destruct (out_origin o e Ho He) as (f & Hf & Hef).
  destruct (input_in f Hf) as (lf & _ & Hfl). destruct (entry_in lf f e Hfl Hef) as (Hok & _ & _). split; [done|]. destruct Hb as [Eh El].
  destruct (head (contents o)) as [e0|] eqn:E0; [|done]. destruct (last (contents o)) as [el|] eqn:E1; [|done]. injection Eh as <-. injection El as <-.
  by apply (sorted_bounds (contents o)).
Qed.

Lemma after_contents level f : level_after level f -> @file_contents_ok user Hr Hro f.
Proof. intros [[_ Hf]|(Hf & _)]; [by apply out_contents|by apply (lsm_contents _ _ Hv level)]. Qed.

(** Entries at newer places are newer. *)
Lemma after_newer p q e e' : level_after p.1 p.2 -> level_after q.1 q.2 -> newer_place p q ->
  e ∈ contents p.2 -> e' ∈ contents q.2 -> ucmp (ukey e) (ukey e') = 0 -> tag e' < tag e.
Proof.
  destruct p as [lp p], q as [lq q]. cbn [fst snd]. intros Hp Hq Hn He He' Hu.
  destruct Hp as [[-> Hp]|Hp], Hq as [[-> Hq]|Hq].
  - destruct Hn as [Hn|(Hn & _)]; simpl in Hn; lia.
  - destruct (out_origin p e Hp He) as (f & Hf & Hef). destruct Hn as [Hn|(Hn & _)]; simpl in Hn; [|lia].
    destruct Hq as (Hq & _). by apply (inputs_newer lq q f).
  - destruct (out_origin q e' Hq He') as (f & Hf & Hef). destruct Hn as [Hn|(_ & Hn & _)]; simpl in Hn; [|lia].
    apply (stays_newer lp p f); try done. lia.
  - destruct Hp as (Hp & _), Hq as (Hq & _). by apply (lsm_newer _ _ Hv (lp, p) (lq, q) e e').
Qed.

Lemma tag_ok_entry e : entry_ok e -> tag_ok e.1.
Proof.
  intros (u & s & t & -> & Hs). unfold tag_ok. rewrite ExtractTag_mk by lia. by apply PackSequenceAndType_max.
Qed.

Lemma installed_lsm v' : installed v' -> lsm v'.
Proof.
  intros Hi. split.
  - intros level Hl. split; [split|].
    + apply Forall_forall. intros f' Hf'. destruct (in_files _ Hi level f' Hf') as (f & En & Hf). destruct (norm_fields _ _ En) as (_ & Es & El & _).
      destruct (after_contents level f Hf) as (_ & Hc & Hlast). destruct (largest_entry user f Hlast) as (e & He & El').
      rewrite Forall_forall in Hc. destruct (Hc e He) as (_ & H1 & _). unfold file_wf. rewrite <- Es, <- El, <- El'. done.
    + by apply (in_sorted _ Hi).
    + apply Forall_forall. intros f' Hf'. destruct (in_files _ Hi level f' Hf') as (f & En & Hf). destruct (norm_fields _ _ En) as (_ & _ & El & _).
      destruct (after_contents level f Hf) as (_ & Hc & Hlast). destruct (largest_entry user f Hlast) as (e & He & El').
      rewrite Forall_forall in Hc. destruct (Hc e He) as (Hok & _). rewrite <- El, <- El'. by apply tag_ok_entry.
  - apply Hi.
  - intros level f' Hf'. destruct (in_files _ Hi level f' Hf') as (f & En & Hf). destruct (norm_fields _ _ En) as (_ & Es & El & Ec).
    pose proof (after_contents level f Hf) as Hok. unfold file_contents_ok, exact_bounds in *. by rewrite <- Es, <- El, <- Ec.
  - apply Hi.
  - intros [lp p'] [lq q'] e e' Hp Hq Hn He He' Hu. cbn [fst snd] in *.
    destruct (in_files _ Hi lp p' Hp) as (p & Ep & Hp'). destruct (in_files _ Hi lq q' Hq) as (q & Eq & Hq').
    destruct (norm_fields _ _ Ep) as (Np & _ & _ & Cp). destruct (norm_fields _ _ Eq) as (Nq & _ & _ & Cq).
    apply (after_newer (lp, p) (lq, q) e e'); cbn [fst snd]; rewrite ?Cp, ?Cq; try done.
    unfold newer_place in *. cbn [fst snd] in *. by rewrite Np, Nq.
Qed.

(** * Reading *)

Section Read.
Context (u : bytes) (s : Z) (Hs : 0 <= s <= kMaxSequenceNumber).
#[local] Abbreviation ikey := (mkInternalKey u s kTypeValue).

Definition sees (e : bytes * bytes) : Prop := ucmp (ukey e) (ExtractUserKey ikey) = 0 /\ icmp ikey e.1 <= 0.

Lemma sees_visible e : entry_ok e -> CompactionDrop.visible user u s e = true <-> sees e.
Proof.
  intros (u' & s' & t & Ee & Hs'). unfold sees, CompactionDrop.visible. rewrite Ee.
  change (ParseInternalKey (mkInternalKey u' s' t)) with (ParseInternalKey (AppendInternalKey [] (mkParsed u' s' t))).
  rewrite ParseInternalKey_Append by done. cbn [user_key sequence].
  rewrite andb_true_iff, Z.eqb_eq, Z.leb_le, !ExtractUserKey_mk, icmp_le, !ExtractUserKey_mk, !ExtractTag_mk by done.
  rewrite !PackSequenceAndType_sum by done. pose proof (vt_num_range t). change (vt_num kTypeValue) with 1.
  split; intros [Hu H2]; (split; [done|]).
  - right. split; [by apply cmp_eq_sym|]. lia.
  - apply cmp_eq_sym in Hu. lia.
Qed.

Lemma same_user e e' : sees e -> sees e' -> ucmp (ukey e) (ukey e') = 0.
Proof. intros [H1 _] [H2 _]. eapply cmp_eq_trans; [exact H1|]. by apply cmp_eq_sym. Qed.

Lemma run_entry e : e ∈ l -> entry_ok e.
Proof. intros (f & Hf & He)%Hmerge. destruct (input_in f Hf) as (lf & _ & Hfl). by destruct (entry_in lf f e Hfl He). Qed.

(** The first visible entry of a run is its newest. *)
Lemma first_newest r e : r `sublist_of` l -> List.find (CompactionDrop.visible user u s) r = Some e ->
  e ∈ r /\ sees e /\ forall e', e' ∈ r -> sees e' -> e' = e \/ tag e' < tag e.
Proof.
  intros Hr' Hf. apply find_first in Hf as (l1 & l2 & El & He & Hl1).
  assert (Hin : forall x, x ∈ r -> entry_ok x) by (intros x Hx; apply run_entry; by eapply elem_of_sublist).
  assert (Her : e ∈ r) by (rewrite El; apply elem_of_app; right; left). apply sees_visible in He; [|by apply Hin].
  split; [done|]. split; [done|]. intros e' He' Hv'. pose proof (sorted_sublist _ _ _ Hr' Hsorted) as Hsr. rewrite El in He', Hsr.
  apply elem_of_app in He' as [He'|He'].
  { rewrite Forall_forall in Hl1. specialize (Hl1 e' He'). apply sees_visible in Hv'; [congruence|]. apply Hin. rewrite El. apply elem_of_app. by left. }
  apply elem_of_cons in He' as [->|He']; [by left|right]. apply StronglySorted_app in Hsr as (_ & _ & Hsr). apply StronglySorted_inv in Hsr as [_ Hsr].
  rewrite Forall_forall in Hsr. specialize (Hsr e' He'). unfold key_lt in Hsr. apply icmp_lt in Hsr. pose proof (same_user e e' He Hv'). lia.
Qed.

Context (v' : Version) (Hi : installed v').

Lemma after_visible level f' e : vis v' ikey level f' e <-> sees e /\ exists f, norm f = norm f' /\ f' ∈ level_files v' level /\ level_after level f /\ e ∈ contents f.
Proof.
  unfold VersionGetProofs.visible, sees. split.
  - intros (Hf & He & Hse). split; [done|]. destruct (in_files _ Hi level f' Hf) as (f & En & Ha). exists f. split; [done|]. split; [done|].
    destruct (norm_fields _ _ En) as (_ & _ & _ & ->). done.
  - intros (Hse & f & En & Hf' & Ha & He). destruct (norm_fields _ _ En) as (_ & _ & _ & <-). done.
Qed.

Lemma after_shown level f e : level_after level f -> e ∈ contents f -> sees e -> exists f', vis v' ikey level f' e.
Proof.
  intros Ha He Hse. destruct (in_all _ Hi level f Ha) as (f' & Hf' & En). exists f'. apply after_visible. split; [done|]. by exists f.
Qed.

(** Nothing new is seen. *)
Lemma after_origin level f e : level_after level f -> e ∈ contents f -> sees e -> exists level0 f0, vis v ikey level0 f0 e.
Proof.
  intros [[_ Ho]|(Hf & _)] He Hse; [|by exists level, f]. destruct (out_origin f e Ho He) as (f0 & Hf0 & He0).
  destruct (input_in f0 Hf0) as (l0 & _ & Hl0). by exists l0, f0.
Qed.

Context (Hread : forall below, (deeper_has user v L u = false -> below = None) -> read user u s (concat gs) below = read user u s l below).

(** A file that stays and is not deeper than the outputs hides the inputs. *)
Lemma stays_hides level x f e e' : (level <= S L)%nat -> stays level x -> f ∈ S0 ++ S1 -> e ∈ contents f -> e' ∈ contents x ->
  sees e -> sees e' -> tag e < tag e'.
Proof.
  intros Hl Hx Hf He He' Hse Hse'. destruct (decide (level = S L)) as [->|Hne].
  - by apply (next_newer x f e' e), same_user.
  - apply (stays_newer level x f e' e); try done; [lia|by apply same_user].
Qed.

(** A visible entry of an output is the newest there when an input held the newest. *)
Lemma output_newest f e e2 : f ∈ S0 ++ S1 -> e ∈ contents f -> sees e -> newest v ikey e ->
  List.find (CompactionDrop.visible user u s) (concat gs) = Some e2 -> newest v' ikey e2.
Proof.
  intros Hf He Hse [_ Hmax] Hfind. destruct (first_newest _ _ Hsub Hfind) as (Hin & Hse2 & Hfirst).
  assert (Ho : forall x, x ∈ concat gs -> exists o, o ∈ outs /\ x ∈ contents o).
  { intros x (g & Hg & Hx)%in_concat'. apply list_elem_of_lookup in Hg as [i Hg]. destruct (Forall2_lookup_r _ _ _ _ _ Houts Hg) as (o & Ho & Ec & _).
    exists o. split; [by eapply list_elem_of_lookup_2|by rewrite Ec]. }
  destruct (Ho e2 Hin) as (o & Ho2 & He2). split.
  - destruct (after_shown (S L) o e2) as (f' & Hf'); [by left|done|done|]. by exists (S L), f'.
  - intros lx x' ex Hx. apply after_visible in Hx as (Hsx & x & _ & _ & Hx & Hex). destruct Hx as [[_ Hxo]|Hx].
    + destruct (out_run x Hxo) as (g & Hg & Ec & _). destruct (Hfirst ex) as [->|]; [|done|lia|lia]. apply in_concat'. exists g. split; [done|by rewrite <- Ec].
    + destruct (decide (lx <= S L)%nat) as [Hle|Hgt].
      * pose proof (stays_hides lx x f e ex Hle Hx Hf He Hex Hse Hsx). destruct Hx as (Hx & _).
        pose proof (Hmax lx x ex (conj Hx (conj Hex Hsx))). lia.
      * destruct (out_origin o e2 Ho2 He2) as (f2 & Hf2 & He2'). destruct Hx as (Hx & _). apply Z.lt_le_incl.
        apply (inputs_newer lx x f2); try done; [lia|by apply same_user].
Qed.

Lemma deeper_seen lx x e : (S L < lx)%nat -> x ∈ level_files v lx -> e ∈ contents x -> sees e -> deeper_has user v L u = true.
Proof.
  intros Hl Hx He [Hu _]. unfold deeper_has. apply existsb_exists. exists lx. split.
  - apply in_seq. destruct (decide (lx < Z.to_nat kNumLevels)%nat); [lia|]. unfold level_files in Hx.
    rewrite nth_overflow in Hx; [by apply elem_of_nil in Hx|]. pose proof (lsm_levels _ _ Hv). lia.
  - unfold level_has. apply existsb_exists. exists x. split; [by apply list_elem_of_In|]. destruct (entry_in lx x e Hx He) as (_ & H1 & H2).
    apply icmp_user in H1, H2. rewrite ExtractUserKey_mk in Hu. unfold in_range, smallest_user, largest_user.
    assert (Q1 : ucmp (ExtractUserKey (smallest x)) u <= 0) by (eapply cmp_le_trans; [exact H1|lia]).
    assert (Q2 : ucmp u (ExtractUserKey (largest x)) <= 0) by (eapply cmp_le_trans; [|exact H2]; apply cmp_eq_sym in Hu; lia).
    apply cmp_flip_le in Q1. lia.
Qed.

(** What an input held as the newest entry is found in the outputs, or it was a
    deletion and nothing is left that it hid. *)
Lemma input_read f e : f ∈ S0 ++ S1 -> e ∈ contents f -> newest v ikey e ->
  (exists e', newest v' ikey e' /\ forall value, outcome e' value = outcome e value) \/
  ((forall level x ex, ~ vis v' ikey level x ex) /\ forall value, outcome e value = Some (NotFound [] [], value)).
Proof.
  intros Hf He Hnew. pose proof Hnew as [(le & fe & _ & _ & Hse) Hmax].
  assert (Hel : e ∈ l) by (apply Hmerge; by exists f). pose proof (run_entry e Hel) as Hok.
  assert (Hfind : List.find (CompactionDrop.visible user u s) l = Some e).
  { destruct (List.find _ l) as [e1|] eqn:E1.
    - destruct (first_newest l e1 (reflexivity l) E1) as (H1 & Hse1 & Hfirst). destruct (Hfirst e Hel Hse) as [->|Hlt]; [done|]. exfalso.
      apply Hmerge in H1 as (f1 & Hf1 & He1). destruct (input_in f1 Hf1) as (l1 & _ & Hl1).
      pose proof (Hmax l1 f1 e1 (conj Hl1 (conj He1 Hse1))). lia.
    - apply sees_visible in Hse; [|done]. apply list_elem_of_In in Hel. rewrite (find_none _ _ E1 e Hel) in Hse. done. }
  destruct (entry_parse e Hok) as (p & Hp & _).
  assert (Hout : forall e2 p2, List.find (CompactionDrop.visible user u s) (concat gs) = Some e2 -> ParseInternalKey e2.1 = Some p2 -> type p2 = type p ->
    (type p = kTypeValue -> e2.2 = e.2) -> exists e', newest v' ikey e' /\ forall value, outcome e' value = outcome e value).
  { intros e2 p2 E2 Hp2 Ht Hval. exists e2. split; [by apply (output_newest f e)|]. intros value. unfold outcome. rewrite Hp, Hp2, Ht. destruct (type p); [done|]. by rewrite Hval. }
  assert (Hparse : forall e2, List.find (CompactionDrop.visible user u s) (concat gs) = Some e2 -> exists p2, ParseInternalKey e2.1 = Some p2).
  { intros e2 E2. destruct (first_newest _ _ Hsub E2) as (Hin & _). destruct (entry_parse e2) as (p2 & Hp2 & _); [|by exists p2].
    apply run_entry. by eapply elem_of_sublist. }
  unfold read in Hread. rewrite Hfind, Hp in Hread. destruct (type p) eqn:Et.
  - destruct (List.find _ (concat gs)) as [e2|] eqn:E2.
    + left. destruct (Hparse e2 eq_refl) as [p2 Hp2]. rewrite Hp2 in Hread. specialize (Hread None (fun _ => eq_refl)).
      apply (Hout e2 p2 eq_refl Hp2); [by destruct (type p2)|done].
    + right. assert (Hd : deeper_has user v L u = false) by (destruct (deeper_has user v L u); [by specialize (Hread (Some []) ltac:(done))|done]).
      split; [|intros value; unfold outcome; by rewrite Hp, Et]. intros lx x' ex Hx. apply after_visible in Hx as (Hsx & x & _ & _ & Hx & Hex).
      destruct Hx as [[_ Hxo]|Hx].
      * destruct (out_run x Hxo) as (g & Hg & Ec & _). assert (Hin : ex ∈ concat gs) by (apply in_concat'; exists g; split; [done|by rewrite <- Ec]).
        apply sees_visible in Hsx; [|apply run_entry; by eapply elem_of_sublist]. apply list_elem_of_In in Hin. rewrite (find_none _ _ E2 ex Hin) in Hsx. done.
      * destruct (decide (lx <= S L)%nat) as [Hle|Hgt].
        -- pose proof (stays_hides lx x f e ex Hle Hx Hf He Hex Hse Hsx). destruct Hx as (Hx & _).
           pose proof (Hmax lx x ex (conj Hx (conj Hex Hsx))). lia.
        -- destruct Hx as (Hx & _). rewrite (deeper_seen lx x ex) in Hd by (done || lia). done.
  - left. specialize (Hread None (fun _ => eq_refl)). destruct (List.find _ (concat gs)) as [e2|] eqn:E2; [|done].
    destruct (Hparse e2 eq_refl) as [p2 Hp2]. rewrite Hp2 in Hread. destruct (type p2) eqn:E3; [done|]. injection Hread as Hread.
    apply (Hout e2 p2 eq_refl Hp2); [done|by intros _].
Qed.

Lemma reads_after e : newest v ikey e ->
  (exists e', newest v' ikey e' /\ forall value, outcome e' value = outcome e value) \/
  ((forall level x ex, ~ vis v' ikey level x ex) /\ forall value, outcome e value = Some (NotFound [] [], value)).
Proof.
  intros Hnew. pose proof Hnew as [(level & f & Hf & He & Hse) Hmax].
  destruct (decide (level = L /\ f ∈ S0)) as [[_ H0]|Hn0]; [apply (input_read f e); [apply elem_of_app; by left|done|done]|].
  destruct (decide (level = S L /\ f ∈ S1)) as [[_ H1]|Hn1]; [apply (input_read f e); [apply elem_of_app; by right|done|done]|].
  left. exists e. split; [|done]. split.
  - destruct (after_shown level f e) as (f' & Hf'); [by right|done|done|]. by exists level, f'.
  - intros lx x' ex Hx. apply after_visible in Hx as (Hsx & x & _ & _ & Hx & Hex). destruct (after_origin lx x ex Hx Hex Hsx) as (l0 & f0 & H0). by apply (Hmax l0 f0).
Qed.
End Read.

(** [Version::Get] gives the same after the compaction. *)
Lemma get_after {T} `{Arith T} (MOD : Z) (models : list (LearnedIndexData T)) v' u s value :
  MOD <> 9 -> 0 <= s <= kMaxSequenceNumber -> installed v' ->
  (forall below, (deeper_has user v L u = false -> below = None) -> read user u s (concat gs) below = read user u s l below) ->
  exists st val stats stats',
    Get user MOD models v (newLookupKey u s) value = Some (st, val, stats, models) /\
    Get user MOD models v' (newLookupKey u s) value = Some (st, val, stats', models).
Proof.
  intros Hm Hs Hi Hread. pose proof (installed_lsm v' Hi) as Hv'.
  destruct (Version_Get_spec user MOD models v u s value Hm Hv) as (st & val & stats & E & Hres).
  destruct (Version_Get_spec user MOD models v' u s value Hm Hv') as (st' & val' & stats' & E' & Hres').
  exists st, val, stats, stats'. split; [exact E|]. rewrite E'. cut ((st', val') = (st, val)); [by intros [= -> ->]|].
  destruct Hres as [(e & Hnew & Ho)|(Hnone & -> & ->)].
  - destruct (reads_after u s Hs v' Hi Hread e Hnew) as [(e1 & Hnew1 & Ho1)|[Hnone1 Ho1]].
    + destruct Hres' as [(e2 & Hnew2 & Ho2)|(Hnone2 & _)]; [|by destruct Hnew1 as [(lx & x & Hx) _]; apply Hnone2 in Hx].
      rewrite (newest_same v' _ e2 e1 Hv' Hnew2 Hnew1), Ho1, Ho in Ho2. by injection Ho2 as <- <-.
    + destruct Hres' as [(e2 & [(lx & x & Hx) _] & _)|(_ & -> & ->)]; [by apply Hnone1 in Hx|]. rewrite Ho1 in Ho. by injection Ho as <- <-.
  - destruct Hres' as [(e2 & [(lx & x' & Hx) _] & _)|(_ & -> & ->)]; [|done]. exfalso.
    apply (after_visible u s v' Hi) in Hx as (Hsx & x & _ & _ & Hx & Hex). destruct (after_origin u s lx x e2 Hx Hex Hsx) as (l0 & f0 & H0). by apply Hnone in H0.
Qed.

(** * The edit *)

Section Edit.
Context (Hok : version_ok user v) (ed : VersionEdit).
Context (Hdel : forall level n, n ∈ on_level level (deleted_files_ ed) <->
  (level = L /\ n ∈ numbers S0) \/ (level = S L /\ n ∈ numbers S1)).
Context (Hnew : forall level, on_level level (new_files_ ed) = if decide (level = S L) then outs else []).
Context (Hnums : NoDup (numbers outs)) (Hfresh : forall o, o ∈ outs -> number o ∉ numbers (level_files v (S L))).

Lemma sound level : (level < Z.to_nat kNumLevels)%nat -> level_sound user level (level_files v level).
Proof. intros Hl. unfold version_ok in Hok. rewrite Forall_forall in Hok. apply Hok, elem_of_seq. lia. Qed.

Lemma after_unique level f g : (level < Z.to_nat kNumLevels)%nat -> level_after level f -> level_after level g -> number f = number g -> f = g.
Proof.
  intros Hl Hf Hg En. pose proof (ok_numbers _ _ _ (sound level Hl)) as Hnd.
  destruct Hf as [[-> Hf]|(Hf & _)], Hg as [[E Hg]|(Hg & _)].
  - by apply (number_inj outs).
  - destruct (Hfresh f Hf). rewrite En. by apply list_elem_of_fmap_2.
  - subst level. destruct (Hfresh g Hg). rewrite <- En. by apply list_elem_of_fmap_2.
  - by apply (number_inj (level_files v level)).
Qed.

Lemma edit_lookup level n x : (level < Z.to_nat kNumLevels)%nat ->
  spec_edit level (files_map (level_files v level)) ed !! n = Some x <-> exists f, level_after level f /\ number f = n /\ x = norm f.
Proof.
  intros Hl. pose proof (ok_numbers _ _ _ (sound level Hl)) as Hnd. unfold spec_edit. rewrite Hnew.
  assert (Hadds : forall fs m, NoDup (numbers fs) -> fold_left spec_add fs m !! n = Some x <->
    (exists f, f ∈ fs /\ number f = n /\ x = norm f) \/ (n ∉ numbers fs /\ m !! n = Some x)).
  { induction fs as [|f fs IH]; intros m Hd; cbn [fold_left].
    - split; [intros; right; split; [apply not_elem_of_nil|done]|]. intros [(f & Hf & _)|[_ ?]]; [by apply elem_of_nil in Hf|done].
    - unfold numbers in Hd. rewrite fmap_cons in Hd. apply NoDup_cons in Hd as [Hf Hd]. rewrite (IH _ Hd). unfold spec_add, numbers. rewrite fmap_cons.
      destruct (decide (number f = n)) as [<-|Hne].
      + rewrite lookup_insert_eq. split.
        * intros [(g & Hg & En & _)|[_ [= <-]]]; [destruct Hf; rewrite <- En; by apply list_elem_of_fmap_2|]. left. exists f. split; [left|]. split; [done|]. unfold norm, fresh_file. by destruct (_ <? 100).
        * intros [(g & Hg & En & ->)|[Hn _]]; [|destruct Hn; left]. apply elem_of_cons in Hg as [->|Hg]; [|destruct Hf; rewrite <- En; by apply list_elem_of_fmap_2].
          right. split; [done|]. unfold norm, fresh_file. by destruct (_ <? 100).
      + rewrite lookup_insert_ne by done. set_solver. }
  assert (Hdels : forall ns (m : gmap Z FileMetaData), fold_left spec_delete ns m !! n = Some x <-> n ∉ ns /\ m !! n = Some x).
  { induction ns as [|k ns IH]; intros m; cbn [fold_left]; [split; [intros; split; [apply not_elem_of_nil|done]|by intros []]|].
    rewrite IH. unfold spec_delete. rewrite lookup_delete_Some. set_solver. }
  rewrite Hadds by (destruct (decide (level = S L)); [done|apply NoDup_nil_2]). rewrite Hdels, files_map_lookup, Hdel by done. split.
  - intros [(f & Hf & En & Ex)|(Hn & Hd & f & Hf & En & Ex)].
    + exists f. split; [|done]. left. destruct (decide (level = S L)); [done|by apply elem_of_nil in Hf].
    + exists f. split; [|done]. right. subst n. split; [done|]. split; intros [-> Hin]; apply Hd; [left|right]; (split; [done|]); by apply list_elem_of_fmap_2.
  - intros (f & [[-> Hf]|(Hf & Hn0 & Hn1)] & En & Ex); [left; exists f; by rewrite decide_True|]. right. subst n. split; [|split; [|by exists f]].
    + destruct (decide (level = S L)) as [->|]; [|apply not_elem_of_nil]. intros (o & Eo & Ho)%list_elem_of_fmap.
      apply (Hfresh o Ho). rewrite <- Eo. by apply list_elem_of_fmap_2.
    + intros [[-> Hin]|[-> Hin]]; apply list_elem_of_fmap in Hin as (g & En & Hg).
      * apply Hn0. split; [done|]. by rewrite (number_inj _ f g Hnd Hf (is_sub _ _ _ _ _ Hsafe g Hg) En).
      * apply Hn1. split; [done|]. by rewrite (number_inj _ f g Hnd Hf (nl_sub _ _ _ _ (is_next _ _ _ _ _ Hsafe) g Hg) En).
Qed.

(** ** The files of the next level are disjoint *)

Lemma outs_ordered i j o o' : (i < j)%nat -> outs !! i = Some o -> outs !! j = Some o' -> before o o'.
Proof.
  intros Hij Ho Ho'. unfold ends_before. destruct (Forall2_lookup_l _ _ _ _ _ Houts Ho) as (g & Hg & Eg & Hbg). destruct (Forall2_lookup_l _ _ _ _ _ Houts Ho') as (g' & Hg' & Eg' & Hbg').
  destruct (largest_entry user o Hbg) as (e & He & <-). destruct (smallest_entry user o' Hbg') as (e' & He' & <-).
  rewrite Eg in He. rewrite Eg' in He'.
  assert (Hc : StronglySorted (key_lt user) (concat gs)) by (by eapply sorted_sublist).
  rewrite <- (take_drop_middle gs i g Hg), concat_app in Hc. cbn [concat] in Hc. apply StronglySorted_app in Hc as (_ & _ & Hc).
  apply StronglySorted_app in Hc as (Hc & _ & _). apply (Hc e e'); [done|].
  apply in_concat'. exists g'. split; [|done]. apply (list_elem_of_lookup_2 _ (j - S i)). rewrite lookup_drop. rewrite <- Hg'. f_equal. lia.
Qed.

Lemma out_bounds o : o ∈ outs -> exists f f', f ∈ S0 ++ S1 /\ f' ∈ S0 ++ S1 /\ icmp (smallest f) (smallest o) <= 0 /\ icmp (largest o) (largest f') <= 0.
Proof.
  intros Ho. destruct (out_run o Ho) as (g & _ & _ & Hb). destruct (largest_entry user o Hb) as (e & He & <-). destruct (smallest_entry user o Hb) as (e' & He' & <-).
  destruct (out_origin o e' Ho He') as (f & Hf & Hef). destruct (out_origin o e Ho He) as (f' & Hf' & Hef').
  destruct (input_in f Hf) as (lf & _ & Hfl). destruct (input_in f' Hf') as (lf' & _ & Hfl').
  destruct (entry_in lf f e' Hfl Hef) as (_ & H1 & _). destruct (entry_in lf' f' e Hfl' Hef') as (_ & _ & H2). by exists f, f'.
Qed.

Lemma stays_out_apart q o : stays (S L) q -> o ∈ outs -> apart user q o.
Proof.
  intros (Hq & _ & Hn1) Ho. destruct (out_bounds o Ho) as (f & f' & Hf & Hf' & H1 & H2). unfold apart.
  destruct (nl_apart _ _ _ _ (is_next _ _ _ _ _ Hsafe) q Hq) as [Hb|Hb]; [tauto| |].
  - left. specialize (Hb f Hf). unfold ends_before in Hb. by eapply (tc_lt_le_trans icmp).
  - right. specialize (Hb f' Hf'). unfold ends_before in Hb. by eapply (tc_le_lt_trans icmp).
Qed.

Lemma after_apart level f g : (0 < level)%nat -> level_after level f -> level_after level g -> number f <> number g -> apart user f g.
Proof.
  intros Hl Hf Hg Hne. destruct Hf as [[-> Hf]|Hf], Hg as [[E Hg]|Hg].
  - apply list_elem_of_lookup in Hf as [i Hi], Hg as [j Hj]. destruct (Nat.lt_trichotomy i j) as [Hij|[->|Hij]]; [left|congruence|right]; by eapply outs_ordered.
  - pose proof (stays_out_apart g f Hg Hf) as [|]; [by right|by left].
  - subst level. by apply stays_out_apart.
  - destruct Hf as (Hf & _), Hg as (Hg & _). destruct (lsm_version _ _ Hv level Hl) as [Hd _].
    destruct (sorted_level_cases user _ f g Hd Hf Hg) as [->|[Hb|Hb]]; [done|by left|by right].
Qed.

Lemma after_wf level f : level_after level f -> file_wf user f.
Proof.
  intros Hf. unfold file_wf. destruct (after_contents level f Hf) as (_ & Hc & Hlast). destruct (largest_entry user f Hlast) as (e & He & <-).
  rewrite Forall_forall in Hc. by destruct (Hc e He) as (_ & H1 & _).
Qed.

(** The edit makes the version of the compaction. *)
Lemma edit_installs ps : exists ps' v', apply_batch user ps v [ed] = Some (ps', v') /\ installed v' /\ version_ok user v'.
Proof.
  destruct (apply_batch_spec user ps v [ed] Hok) as (v' & E & Hlv).
  { apply Forall_forall. intros level [_ Hl]%elem_of_seq. cbn [level_history]. rewrite Hnew. split; [destruct (decide (level = S L)); [done|apply NoDup_nil_2]|]. split; [|split; [|done]].
    - destruct (decide (level = S L)) as [->|]; [|done]. apply Forall_forall. intros n (o & -> & Ho)%list_elem_of_fmap. rewrite elem_of_list_to_set. by apply Hfresh.
    - intros n x Hx. apply edit_lookup in Hx as (f & Hf & <- & ->); [|lia]. split; [exact (after_wf level f Hf)|].
      destruct (decide (level = 0%nat)) as [|Hne]; [by left|right]. intros n' y Hy. apply edit_lookup in Hy as (g & Hg & <- & ->); [|lia].
      destruct (decide (number f = number g)) as [|Hn]; [by left|right]. exact (after_apart level f g ltac:(lia) Hf Hg Hn). }
  eexists _, v'. split; [exact E|].
  assert (Hlen : length (files_ v') = Z.to_nat kNumLevels).
  { revert E. unfold apply_batch, SaveTo. destruct (mapM _ _) as [files|] eqn:Em; [|done]. cbn [mbind option_bind]. intros E. injection E as <-. cbn [files_].
    apply length_mapM in Em. by rewrite <- Em, length_seq. }
  assert (Hlook : forall level n x, (level < Z.to_nat kNumLevels)%nat -> (exists f', f' ∈ level_files v' level /\ number f' = n /\ x = norm f') <->
    exists f, level_after level f /\ number f = n /\ x = norm f).
  { intros level n x Hl. destruct (Hlv level Hl) as (Hs & Em & _). rewrite <- edit_lookup by done. change (spec_edit level ?m ed) with (fold_left (spec_edit level) [ed] m).
    rewrite <- Em, files_map_lookup by apply Hs. done. }
  assert (Hover : forall level f, f ∈ level_files v' level -> (level < Z.to_nat kNumLevels)%nat).
  { intros level f Hf. destruct (decide (level < Z.to_nat kNumLevels)%nat); [done|]. unfold level_files in Hf. rewrite nth_overflow in Hf by lia. by apply elem_of_nil in Hf. }
  split; [split|].
  - intros level f' Hf'. destruct (proj1 (Hlook level (number f') (norm f') (Hover _ _ Hf'))) as (f & Hf & _ & En); [by exists f'|]. by exists f.
  - intros level f Hf. assert (Hl : (level < Z.to_nat kNumLevels)%nat).
    { destruct Hf as [[-> _]|(Hf & _)]; [lia|]. destruct (decide (level < Z.to_nat kNumLevels)%nat); [done|]. unfold level_files in Hf.
      rewrite nth_overflow in Hf; [by apply elem_of_nil in Hf|]. pose proof (lsm_levels _ _ Hv). lia. }
    destruct (proj2 (Hlook level (number f) (norm f) Hl)) as (f' & Hf' & _ & En); [by exists f|]. by exists f'.
  - intros level Hl. destruct (decide (level < Z.to_nat kNumLevels)%nat) as [Hlt|]; [by apply (Hlv level Hlt)|]. unfold level_files. rewrite nth_overflow by lia. constructor.
  - apply (Hlv 0%nat). lia.
  - lia.
  - apply Forall_forall. intros level [_ Hl]%elem_of_seq. apply Hlv. lia.
Qed.
End Edit.

End Install.

(** * The edits of a compaction *)

Definition output_file (o : Output) : FileMetaData :=
  newFileMetaData (out_number o) (out_file_size o) (out_smallest o) (out_largest o).

Lemma on_level_elem level (l : list (Z * Z)) n : n ∈ on_level level l <-> exists z, (z, n) ∈ l /\ Z.to_nat z = level.
Proof.
  unfold on_level. rewrite list_elem_of_fmap. split.
  - intros ([z m] & -> & [Hz Hin]%list_elem_of_filter). by exists z.
  - intros (z & Hin & Hz). exists (z, n). split; [done|]. by apply list_elem_of_filter.
Qed.

Lemma set_insert_iff p s q : q ∈ set_insert p s <-> q = p \/ q ∈ s.
Proof.
  split; [apply set_insert_elem|]. induction s as [|[a b] s IH]; cbn [set_insert]; [set_solver|].
  destruct (pair_ltb p (a, b)) eqn:E1; [set_solver|]. destruct (pair_ltb (a, b) p) eqn:E2; [set_solver|].
  assert (p = (a, b)) as ->; [|set_solver]. destruct p as [x y]. unfold pair_ltb in *. simpl in *. f_equal; lia.
Qed.

Lemma delete_files_elem z (fs : list FileMetaData) : forall e x,
  x ∈ deleted_files_ (fold_left (fun e f => DeleteFile e z (number f)) fs e) <-> x ∈ deleted_files_ e \/ (x.1 = z /\ x.2 ∈ numbers fs).
Proof.
  induction fs as [|f fs IH]; intros e x; cbn [fold_left]; [unfold numbers; set_solver|].
  rewrite IH. unfold DeleteFile, numbers. cbn [set_lists deleted_files_]. rewrite set_insert_iff, fmap_cons, elem_of_cons. destruct x as [a b]. simpl. naive_solver.
Qed.

Lemma delete_files_new z (fs : list FileMetaData) : forall e, new_files_ (fold_left (fun e f => DeleteFile e z (number f)) fs e) = new_files_ e.
Proof. induction fs as [|f fs IH]; intros e; [done|]. cbn [fold_left]. by rewrite IH. Qed.

Lemma add_outputs_edit z (outs : list Output) : forall e,
  let e' := fold_left (fun e o => AddFile e z (out_number o) (out_file_size o) (out_smallest o) (out_largest o)) outs e in
  new_files_ e' = new_files_ e ++ map (fun o => (z, output_file o)) outs /\ deleted_files_ e' = deleted_files_ e.
Proof.
  induction outs as [|o outs IH]; intros e; cbn [fold_left map]; [by rewrite app_nil_r|].
  destruct (IH (AddFile e z (out_number o) (out_file_size o) (out_smallest o) (out_largest o))) as [-> ->]. split; [|done].
  cbn [AddFile set_lists new_files_]. by rewrite <- app_assoc.
Qed.

Lemma on_level_map level z (outs : list Output) :
  on_level level (map (fun o => (z, output_file o)) outs) = if decide (level = Z.to_nat z) then map output_file outs else [].
Proof.
  unfold on_level. induction outs as [|o outs IH]; cbn [map]; [by destruct (decide _)|]. rewrite filter_cons. cbn [fst].
  destruct (decide (Z.to_nat z = level)), (decide (level = Z.to_nat z)); try congruence. rewrite fmap_cons. by f_equal.
Qed.

(** The edit of a compaction that starts with no files in its edit. *)
Lemma install_edit {F} (st : CompactionState F) c : static (compaction st) = static c -> deleted_files_ (edit_ c) = [] -> new_files_ (edit_ c) = [] ->
  (forall level n, n ∈ on_level level (deleted_files_ (InstallCompactionResults st)) <->
     (level = level_ c /\ n ∈ numbers (inputs_ c).1) \/ (level = S (level_ c) /\ n ∈ numbers (inputs_ c).2)) /\
  (forall level, on_level level (new_files_ (InstallCompactionResults st)) = if decide (level = S (level_ c)) then map output_file (outputs st) else []).
Proof.
  intros Hst Hd Hn. unfold static in Hst. injection Hst as El Ei Ee. unfold InstallCompactionResults. rewrite El.
  destruct (add_outputs_edit (Z.of_nat (level_ c) + 1) (outputs st) (AddInputDeletions (compaction st) (edit_ (compaction st)))) as [E1 E2].
  rewrite E1, E2. unfold AddInputDeletions. rewrite El, Ei, Ee. split.
  - intros level n. rewrite on_level_elem. setoid_rewrite delete_files_elem. setoid_rewrite delete_files_elem. rewrite Hd. cbn [fst snd]. split.
    + intros (z & [[Hz|[-> Hz]]|[-> Hz]] & <-); [by apply elem_of_nil in Hz|left; split; [lia|done]|right; split; [lia|done]].
    + intros [[-> Hz]|[-> Hz]]; [exists (Z.of_nat (level_ c)); split; [|lia]; by left; right|exists (Z.of_nat (level_ c) + 1); split; [|lia]; by right].
  - intros level. rewrite !delete_files_new, Hn. cbn [app]. rewrite on_level_map. replace (Z.to_nat (Z.of_nat (level_ c) + 1)) with (S (level_ c)) by lia. done.
Qed.

Lemma lsm_levels_ok user {Huser : @ComparatorOk user} {Hr : TableReader} {Hro : TableReaderOk user} v : lsm user v -> levels_ok user v.
Proof.
  intros Hv level. split.
  - apply Forall_forall. intros f Hf. destruct (lsm_contents _ _ Hv level f Hf) as (_ & Hc & Hb). destruct (largest_entry user f Hb) as (e & He & El).
    rewrite Forall_forall in Hc. destruct (Hc e He) as (_ & Hle & _). unfold file_wf. by rewrite <- El.
  - intros Hl. destruct (lsm_version _ _ Hv level Hl) as [[_ Hs] _]. exact Hs.
Qed.

(** * A compaction as a whole *)

Section Compact.
Context {F I : Type} {HW : WritableFile F} {HWo : WritableFileOk F} {Hck : Checksum} {Hsn : Snappy}.
Context {Hit : Iterator I} {cmp : Comparator} {Hio : IteratorOk I cmp}.
Context (user : Comparator) {Huser : @ComparatorOk user} {Hr : TableReader} {Hro : TableReaderOk user}.
Context (max_file_size : Z) (options : TableOptions) (dbname : bytes) (NewFileNumber : nat -> Z).
Context (NewWritableFile : bytes -> Status * F) (Close : F -> Status * F) (table_status : Z -> Z -> Status).
#[local] Abbreviation contents := (@VersionGetProofs.contents user Hr Hro).
#[local] Abbreviation work :=
  (DoCompactionWork (I := I) user max_file_size options dbname NewFileNumber NewWritableFile Close table_status (fun _ => false)).
#[local] Abbreviation written_tables := (tables options dbname NewFileNumber NewWritableFile).

(** The reader knows a table by its number and size ([TableCache::Get]). *)
Definition by_number : Prop := forall f g, number f = number g -> file_size f = file_size g -> contents f = contents g.

(** It finds in the outputs the runs that were put into them. *)
Definition reads_outputs (outs : list Output) (gs : list (list (bytes * bytes))) : Prop :=
  forall i o g, outs !! i = Some o -> gs !! i = Some g -> contents (output_file o) = g.

(** The inputs of a level are closed when no two files of it share a user key. *)
Lemma apart_inputs_closed level files S : (forall f, f ∈ S -> f ∈ files) ->
  (forall f g, f ∈ files -> g ∈ files -> files_overlap user f g -> f = g) -> inputs_closed user level files S.
Proof. intros Hsub Hap f g Hf Hg Hs. left. by rewrite <- (Hap f g (Hsub f Hf) Hg Hs). Qed.

Record tree_ok (v : Version) : Prop := {
  tr_lsm : lsm user v;
  tr_sound : version_ok user v;
}.

(** Reads at snapshots from [snap] on give the same in both versions. *)
Definition same_reads (snap : Z) (v v' : Version) : Prop :=
  forall (MOD : Z) (models : list (LearnedIndexData Q)) u s value, MOD <> 9 -> snap <= s <= kMaxSequenceNumber ->
  exists st val stats stats',
    Get user MOD models v (newLookupKey u s) value = Some (st, val, stats, models) /\
    Get user MOD models v' (newLookupKey u s) value = Some (st, val, stats', models).

Lemma written_outs outs (ws : list F) gs : reads_outputs outs gs -> written_tables outs ws gs ->
  Forall2 (fun o g => contents o = g /\ exact_bounds user o) (map output_file outs) gs.
Proof.
  intros Hrd Ht. pose proof Ht as (E1 & E2 & Hf). apply Forall2_same_length_lookup_2; [by rewrite length_map|].
  intros i o' g Ho Hg. rewrite list_lookup_fmap in Ho. destruct (outs !! i) as [o|] eqn:Eo; [|done]. injection Ho as <-.
  pose proof (Hrd i o g Eo Hg) as Ec. split; [done|]. unfold exact_bounds. rewrite Ec.
  destruct (lookup_lt_is_Some_2 ws i) as [f Ef]; [apply lookup_lt_Some in Hg; lia|]. destruct (Hf i o f g Eo Ef Hg) as ((_ & Eh & El) & _). done.
Qed.

Lemma written_numbers outs (ws : list F) gs i o : written_tables outs ws gs -> outs !! i = Some o -> number (output_file o) = NewFileNumber i.
Proof.
  intros (E1 & E2 & Hf) Eo. pose proof (lookup_lt_Some _ _ _ Eo). destruct (lookup_lt_is_Some_2 ws i) as [f Ef]; [lia|].
  destruct (lookup_lt_is_Some_2 gs i) as [g Eg]; [lia|]. by destruct (Hf i o f g Eo Ef Eg) as ((En & _) & _).
Qed.

(** C3: when a compaction keeps the tree and every read.  The tree of files is in
    order, the inputs are as [PickCompaction] chooses them ([compaction_safe]), and
    the inputs of the next level are closed as well: no file that stays in the next
    level has older entries of a user key of theirs ([inputs_closed]).  The code does
    not ensure this last condition: it holds when no user key is spread over two
    files of the next level ([apart_inputs_closed]), and [deleted_key_returns] shows
    what happens without it.  Then [DoCompactionWork] succeeds in an environment
    whose operations do; and if the output tables read back as the runs they were
    built from, the edit of [InstallCompactionResults] can be applied
    ([Builder::Apply], [SaveTo]: no assertion about overlapping files fails), the new
    version is a tree in order, and [Version::Get] (in the modes other than 9) gives
    in it, for every key and every snapshot from the smallest one in use on, what it
    gave before. *)
Theorem compaction_install_correct (v : Version) (c : Compaction) (ps : list bytes) (l : list (bytes * bytes)) (it : I) (i : nat) (snap : Z) (fuel : nat) :
  env_ok NewWritableFile Close table_status -> by_number ->
  tree_ok v -> compaction_safe user v c -> inputs_closed user (S (level_ c)) (level_files v (S (level_ c))) (inputs_ c).2 ->
  (S (level_ c) < Z.to_nat kNumLevels)%nat -> deleted_files_ (edit_ c) = [] -> new_files_ (edit_ c) = [] ->
  level_ptrs_ c = replicate (Z.to_nat kNumLevels) 0%nat ->
  (forall m n, NewFileNumber m = NewFileNumber n -> m = n) ->
  (forall n f, f ∈ level_files v (S (level_ c)) -> number f <> NewFileNumber n) ->
  at_pos it l i -> StronglySorted (key_lt user) l ->
  (forall e, e ∈ l <-> exists f, f ∈ (inputs_ c).1 ++ (inputs_ c).2 /\ e ∈ contents f) ->
  0 <= snap < kMaxSequenceNumber -> (length l < fuel)%nat ->
  exists st gs, work fuel it (newCompactionState c snap) = Some (OK, st) /\ written_tables (outputs st) (written st) gs /\
    (exists d c', kept user snap newDropState c l = Some (concat gs, d, c')) /\
    (reads_outputs (outputs st) gs -> exists ps' v',
       apply_batch user ps v [InstallCompactionResults st] = Some (ps', v') /\ tree_ok v' /\ same_reads snap v v').
Proof.
  intros Henv Hsame [Hv Hok] Hsafe Hnext HL Hd0 Hn0 Hptr Hinj Hfresh Ha Hs Hm Hsnap Hfuel.
  assert (Hentry : forall e, e ∈ l -> entry_ok e).
  { intros e (f & Hf & He)%Hm. destruct (input_in user v (level_ c) _ _ (cs_inputs _ _ _ Hsafe) f Hf) as (lf & _ & Hfl).
    by destruct (entry_in user v Hv lf f e Hfl He). }
  destruct (kept_ok user snap v (lsm_levels_ok user v Hv) ltac:(lia) l newDropState c (cs_version _ _ _ Hsafe) Hs) as (r & d' & ptrs & Ek & Hsub & _ & Hrd').
  { apply Forall_forall. intros e He. destruct (entry_parse e (Hentry e He)) as (p & Hp & _). by exists p. }
  { split; done. }
  { intros e k _ _. rewrite Hptr. apply fresh_pointers. }
  destruct (work_ok user max_file_size options dbname NewFileNumber NewWritableFile Close table_status Henv l it i c snap fuel r d' _ Ha Hfuel Ek) as (st & gs & E & _ & Ht & <-).
  exists st, gs. split; [done|]. split; [done|]. split; [by do 2 eexists|]. intros Hrd.
  pose proof (work_static user max_file_size options dbname NewFileNumber NewWritableFile Close table_status _ fuel it c snap OK st E) as Hst.
  destruct (install_edit st c Hst Hd0 Hn0) as [Hdel Hnew]. pose proof (written_outs _ _ _ Hrd Ht) as Houts.
  assert (Hnums : NoDup (numbers (map output_file (outputs st)))).
  { apply NoDup_alt. intros a b n Ea Eb. unfold numbers in Ea, Eb. rewrite !list_lookup_fmap in Ea, Eb.
    destruct (outputs st !! a) as [oa|] eqn:Oa; [|done]. destruct (outputs st !! b) as [ob|] eqn:Ob; [|done].
    assert (Eo : number (output_file oa) = number (output_file ob)) by (simpl in *; congruence).
    rewrite (written_numbers _ _ _ _ _ Ht Oa), (written_numbers _ _ _ _ _ Ht Ob) in Eo. by apply Hinj. }
  assert (Hfr : forall o, o ∈ map output_file (outputs st) -> number o ∉ numbers (level_files v (S (level_ c)))).
  { intros o' Ho (f & En & Hf)%list_elem_of_fmap. apply list_elem_of_In, in_map_iff in Ho as (o & <- & Ho%list_elem_of_In). apply list_elem_of_lookup in Ho as [a Oa].
    rewrite (written_numbers _ _ _ _ _ Ht Oa) in En. by apply (Hfresh a f). }
  destruct (edit_installs user Hsame v Hv (level_ c) HL _ _ (cs_inputs _ _ _ Hsafe) Hnext l gs _ Hs Hm Hsub Houts Hok _ Hdel Hnew Hnums Hfr ps)
    as (ps' & v' & Eb & Hi & Hok').
  exists ps', v'. split; [done|]. split.
  - split; [|done]. by apply (installed_lsm user Hsame v Hv (level_ c) HL _ _ (cs_inputs _ _ _ Hsafe) l gs _ Hs Hm Hsub Houts).
  - intros MOD models u s value HM Hrange.
    apply (get_after user Hsame v Hv (level_ c) HL _ _ (cs_inputs _ _ _ Hsafe) Hnext l gs _ Hs Hm Hsub Houts MOD models v' u s value HM); [lia|done|].
    intros below Hb. apply Hrd'; [lia| |done]. intros [Hlast _]. simpl in Hlast. lia.
Qed.
End Compact.

(** * Examples *)

Definition kv (u : bytes) (s : Z) (t : ValueType) (x : bytes) : bytes * bytes := (mkInternalKey u s t, x).
Definition run_file (n : Z) (l : list (bytes * bytes)) : FileMetaData :=
  newFileMetaData n 1000 (default [] (fst <$> head l)) (default [] (fst <$> last l)).

(** A file of level 1 over two files of level 2, of which the first ends with a
    deletion.  [rest] are the entries of the second. *)
Definition upper_run : list (bytes * bytes) := [kv (str "d") 9 kTypeValue (str "d9"); kv (str "e") 8 kTypeValue (str "e8")].
Definition lower_run : list (bytes * bytes) := [kv (str "c") 1 kTypeValue (str "c1"); kv (str "k") 5 kTypeDeletion []].
Definition output_run : list (bytes * bytes) :=
  [kv (str "c") 1 kTypeValue (str "c1"); kv (str "d") 9 kTypeValue (str "d9"); kv (str "e") 8 kTypeValue (str "e8")].
Definition merged_run : list (bytes * bytes) := output_run ++ [kv (str "k") 5 kTypeDeletion []].

Definition table_runs (rest : list (bytes * bytes)) (f : FileMetaData) : list (bytes * bytes) :=
  if number f =? 10 then upper_run else if number f =? 5 then lower_run else if number f =? 6 then rest
  else if number f =? 20 then output_run else [].
Definition two_levels (rest : list (bytes * bytes)) : Version :=
  mkVersion [[]; [run_file 10 upper_run]; [run_file 5 lower_run; run_file 6 rest]; []; []; []; []] None (-1) (2, 1) 1.

(** The second file holds an older version of the deleted key, or it does not. *)
Definition older_run : list (bytes * bytes) := [kv (str "k") 3 kTypeValue (str "old"); kv (str "z") 2 kTypeValue (str "z2")].
Definition other_run : list (bytes * bytes) := [kv (str "m") 3 kTypeValue (str "m3"); kv (str "z") 2 kTypeValue (str "z2")].

#[local] Abbreviation example_work :=
  (@DoCompactionWork flat_file flat_writable (crc32c_checksum 0) no_snappy ListIter (ListIter_iterator BytewiseComparator)
     BytewiseComparator 1000000 example_options (str "db") (fun i => 20 + Z.of_nat i) (fun _ => (OK, [])) (fun f => (OK, f))
     (fun _ _ => OK) (fun _ => false) 5 (mkListIter merged_run 0)).

(** The version after the compaction that [PickCompaction] picks. *)
Definition compacted (v : Version) : option Version :=
  r ← PickCompaction BytewiseComparator 1000000 v (replicate 7 []);
  match r with
  | inl _ => None
  | inr (c, ps) =>
      '(s, st) ← example_work (newCompactionState c 20);
      snd <$> apply_batch BytewiseComparator ps v [InstallCompactionResults st]
  end.
Definition example_get (rest : list (bytes * bytes)) (v : Version) (u : bytes) : option (Status * bytes) :=
  '(s, x, _, _) ← @Get BytewiseComparator (list_reader BytewiseComparator (table_runs rest)) Q exact 5 [] v (newLookupKey u 20) [];
  Some (s, x).

Lemma two_levels_level rest level f : f ∈ level_files (two_levels rest) level ->
  (level = 1%nat /\ f = run_file 10 upper_run) \/ (level = 2%nat /\ (f = run_file 5 lower_run \/ f = run_file 6 rest)).
Proof.
  unfold level_files. do 7 (destruct level as [|level]; [simpl; set_solver|]). simpl. destruct level; set_solver.
Qed.

Definition rest_ok (rest : list (bytes * bytes)) : Prop := rest = older_run \/ rest = other_run.

Lemma two_levels_contents rest level f : rest_ok rest -> f ∈ level_files (two_levels rest) level ->
  @file_contents_ok BytewiseComparator (list_reader BytewiseComparator (table_runs rest)) (list_reader_ok BytewiseComparator (table_runs rest)) f.
Proof.
  intros Hrest Hf. assert (Hc : exists g, table_runs rest f = g /\ g ∈ [upper_run; lower_run; rest] /\ smallest f = default [] (fst <$> head g) /\ largest f = default [] (fst <$> last g)).
  { apply two_levels_level in Hf as [[_ ->]|[_ [->| ->]]]; eexists; (split; [reflexivity|]); (split; [|done]); set_solver. }
  destruct Hc as (g & Eg & Hg & Es & El). unfold file_contents_ok, exact_bounds.
  change (@contents BytewiseComparator (list_reader BytewiseComparator (table_runs rest)) (list_reader_ok BytewiseComparator (table_runs rest)) f) with (table_runs rest f).
  rewrite Eg, Es, El. assert (Hg' : g ∈ [upper_run; lower_run; older_run; other_run]) by (destruct Hrest; subst; set_solver).
  clear -Hg'. repeat (apply elem_of_cons in Hg' as [->|Hg']; [
    (split; [repeat constructor|]; split; [|split; reflexivity]);
    repeat (apply Forall_cons; split; [split; [do 3 eexists; split; [reflexivity|vm_compute; intuition discriminate]|split; vm_compute; intuition discriminate]|]); apply Forall_nil_2|]).
  by apply elem_of_nil in Hg'.
Qed.

Lemma two_levels_lsm rest : rest_ok rest ->
  @lsm BytewiseComparator (list_reader BytewiseComparator (table_runs rest)) (list_reader_ok BytewiseComparator (table_runs rest)) (two_levels rest).
Proof.
  intros Hrest. split.
  - intros level Hl. split; [split|].
    + apply Forall_forall. intros f Hf. apply two_levels_level in Hf as [[_ ->]|[_ [->| ->]]]; destruct Hrest as [->| ->]; vm_compute; discriminate.
    + unfold level_files. do 7 (destruct level as [|level]; [simpl; destruct Hrest as [->| ->]; repeat constructor|]). simpl. destruct level; constructor.
    + apply Forall_forall. intros f Hf. apply two_levels_level in Hf as [[_ ->]|[_ [->| ->]]]; destruct Hrest as [->| ->]; vm_compute; discriminate.
  - vm_compute. lia.
  - intros level f. by apply two_levels_contents.
  - constructor.
  - intros [l1 f1] [l2 f2] e e' H1 H2 Hn He He' Hu. cbn [fst snd] in *. exfalso. revert Hu.
    apply two_levels_level in H1 as [[-> ->]|[-> H1]]; apply two_levels_level in H2 as [[-> ->]|[-> H2]]; destruct Hn as [Hn|(Hn & _)]; simpl in Hn; try lia.
    change (e ∈ upper_run) in He. destruct H2 as [->| ->]; [change (e' ∈ lower_run) in He'|change (e' ∈ rest) in He'; destruct Hrest as [->| ->]];
      repeat (apply elem_of_cons in He as [->|He]; [repeat (apply elem_of_cons in He' as [->|He']; [vm_compute; discriminate|]); by apply elem_of_nil in He'|]); by apply elem_of_nil in He.
Qed.

(** C4: a deleted key comes back.  The tree is in order and [PickCompaction] picks the
    file of level 1; the deletion at the end of the first file of level 2 is dropped
    with it, while the older version of the key that begins the next file of level
    2 stays: that file is not among the inputs, and [IsBaseLevelForKey] looks only
    at deeper levels. *)
Lemma deleted_key_returns :
  @lsm BytewiseComparator (list_reader BytewiseComparator (table_runs older_run)) (list_reader_ok BytewiseComparator (table_runs older_run)) (two_levels older_run) /\
  example_get older_run (two_levels older_run) (str "k") = Some (NotFound [] [], []) /\
  (v ← compacted (two_levels older_run); example_get older_run v (str "k")) = Some (OK, str "old").
Proof. split; [apply two_levels_lsm; by left|]. split; vm_compute; reflexivity. Qed.

(** ** The compaction without an older version *)

Definition picked (v : Version) : Compaction :=
  match PickCompaction BytewiseComparator 1000000 v (replicate 7 []) with Some (inr (c, _)) => c | _ => newCompaction 0 0 end.

Lemma picked_safe : compaction_safe BytewiseComparator (two_levels other_run) (picked (two_levels other_run)).
Proof.
  destruct (PickCompaction_spec BytewiseComparator 1000000 (two_levels other_run) (replicate 7 [])) as [[_ [Hs _]]|(c & s & l & E & Hsafe & _)].
  - apply (lsm_levels_ok BytewiseComparator (Hro := list_reader_ok BytewiseComparator (table_runs other_run))), two_levels_lsm. by right.
  - split; [intros _; vm_compute; discriminate|intros f; vm_compute; discriminate].
  - vm_compute in Hs. discriminate.
  - unfold picked. by rewrite E.
Qed.

Lemma two_levels_sound : version_ok BytewiseComparator (two_levels other_run).
Proof.
  unfold version_ok. do 7 (apply Forall_cons; split; [split; [repeat constructor|apply (bool_decide_unpack _); vm_compute; exact Logic.I|apply (bool_decide_unpack _); vm_compute; exact Logic.I]|]).
  apply Forall_nil_2.
Qed.

Lemma picked_closed : inputs_closed BytewiseComparator 2 (level_files (two_levels other_run) 2) (inputs_ (picked (two_levels other_run))).2.
Proof.
  intros f g Hf Hg [_ Hs]. assert (Ef : (inputs_ (picked (two_levels other_run))).2 = [run_file 5 lower_run]) by (vm_compute; reflexivity).
  rewrite Ef in *. apply list_elem_of_singleton in Hf as ->. apply two_levels_level in Hg as [[? ->]|[_ [->| ->]]]; [done|left; left|].
  exfalso. revert Hs. vm_compute. intros Hs. by apply Hs.
Qed.

Lemma merged_elem e : e ∈ merged_run <-> exists f, f ∈ (inputs_ (picked (two_levels other_run))).1 ++ (inputs_ (picked (two_levels other_run))).2 /\ e ∈ table_runs other_run f.
Proof.
  assert (Ei : (inputs_ (picked (two_levels other_run))).1 ++ (inputs_ (picked (two_levels other_run))).2 = [run_file 10 upper_run; run_file 5 lower_run]) by (vm_compute; reflexivity).
  rewrite Ei. split.
  - intros He. assert (Hc : e ∈ upper_run \/ e ∈ lower_run) by (unfold merged_run, output_run, upper_run, lower_run in *; set_solver).
    destruct Hc; [exists (run_file 10 upper_run)|exists (run_file 5 lower_run)]; (split; [set_solver|done]).
  - intros (f & Hf & He). apply elem_of_cons in Hf as [->|Hf]; [|apply list_elem_of_singleton in Hf as ->].
    + change (e ∈ upper_run) in He. unfold merged_run, output_run, upper_run in *. set_solver.
    + change (e ∈ lower_run) in He. unfold merged_run, output_run, lower_run in *. set_solver.
Qed.

Lemma compaction_install_correct_witness :
  exists st ps' v', example_work (newCompactionState (picked (two_levels other_run)) 20) = Some (OK, st) /\
    apply_batch BytewiseComparator (replicate 7 []) (two_levels other_run) [InstallCompactionResults st] = Some (ps', v') /\
    @same_reads BytewiseComparator (list_reader BytewiseComparator (table_runs other_run)) 20 (two_levels other_run) v'.
Proof.
  destruct (@compaction_install_correct flat_file ListIter flat_writable flat_writable_ok (crc32c_checksum 0) no_snappy
    (ListIter_iterator BytewiseComparator) BytewiseComparator (ListIter_ok BytewiseComparator)
    BytewiseComparator BytewiseComparator_ok (list_reader BytewiseComparator (table_runs other_run)) (list_reader_ok BytewiseComparator (table_runs other_run))
    1000000 example_options (str "db") (fun i => 20 + Z.of_nat i) (fun _ => (OK, [])) (fun f => (OK, f)) (fun _ _ => OK)
    (two_levels other_run) (picked (two_levels other_run)) (replicate 7 []) merged_run (mkListIter merged_run 0) 0 20 5)
    as (st & gs & E & (Hlen & _) & (d & c' & Ek) & Hfin).
  - split; [intros; by exists []|]. split; [intros f; by exists f|done].
  - intros f g En _. change (table_runs other_run f = table_runs other_run g). unfold table_runs. by rewrite En.
  - split; [apply two_levels_lsm; by right|exact two_levels_sound].
  - exact picked_safe.
  - exact picked_closed.
  - vm_compute. lia.
  - vm_compute. reflexivity.
  - vm_compute. reflexivity.
  - vm_compute. reflexivity.
  - intros m n. lia.
  - intros n f Hf. apply two_levels_level in Hf as [[? ->]|[_ [->| ->]]]; cbn [number run_file newFileMetaData]; lia.
  - split; [reflexivity|vm_compute; lia].
  - repeat constructor; vm_compute; reflexivity.
  - exact merged_elem.
  - vm_compute. split; [discriminate|reflexivity].
  - vm_compute. lia.
  - destruct Hfin as (ps' & v' & Ea & _ & Hsame); [|exists st, ps', v'; split; [exact E|split; [exact Ea|exact Hsame]]].
    assert (Eg : concat gs = output_run).
    { assert (Hk : (fun p => p.1.1) <$> kept BytewiseComparator 20 newDropState (picked (two_levels other_run)) merged_run = Some output_run) by (vm_compute; reflexivity).
      rewrite Ek in Hk. by injection Hk. }
    assert (Ho : (fun p => map out_number (outputs p.2)) <$> example_work (newCompactionState (picked (two_levels other_run)) 20) = Some [20]) by (vm_compute; reflexivity).
    rewrite E in Ho. cbn [fmap option_fmap option_map snd] in Ho. injection Ho as Ho.
    intros i o g Hi Hg. destruct (outputs st) as [|o1 [|o2 os]]; [done| |done]. injection Ho as Ho.
    destruct gs as [|g1 [|g2 gs]]; [done| |done]. destruct i as [|i]; [|done]. injection Hi as <-. injection Hg as <-. cbn [concat] in Eg. rewrite app_nil_r in Eg.
    change (table_runs other_run (output_file o1) = g1). unfold table_runs. cbn [output_file number newFileMetaData]. rewrite Ho. by rewrite Eg.
Defined.
