(* ===== verification/CompactionInput.v ===== *)
(** db/version_set.cc, what the version set reads from files for others:
    [ApproximateOffsetOf] and [MaxNextLevelOverlappingBytes] (with
    [GetApproximateSizes] of db/db_impl.cc), and [MakeInputIterator], the iterator that
    a compaction reads its inputs through.

    [table_offset] stands for the offset of a key in one table, through the table
    cache (Table.v has [Table::ApproximateOffsetOf]); it is 0 when the table cannot
    be opened.  The read options of the input iterator (no caching, checksums in
    paranoid mode) are part of what [TableIterators] stands for. *)

From stdpp Require Import base list option sorting strings.
From S2P Require Import Prelude Status Coding Comparator DbFormat VersionEdit Version VersionGet VersionGetProofs Compaction CompactionProofs Iterator TwoLevel Merger MergerProofs Table CompactionDrop DbScan CompactionInstall.

#[local] Open Scope Z_scope.

Section Offsets.
Context (user : Comparator) (table_offset : FileMetaData -> bytes -> Z).
#[local] Abbreviation icmp := (InternalKey_Compare user).

(** The loop over the files of a level, with its [break]. *)
Fixpoint offset_files (level : nat) (files : list FileMetaData) (ikey : bytes) (result : Z) : Z :=
  match files with
  | [] => result
  | f :: rest =>
      if icmp (largest f) ikey <=? 0 then offset_files level rest ikey (u64 (result + file_size f))
      else if 0 <? icmp (smallest f) ikey then
        if (0 <? level)%nat then result else offset_files level rest ikey result
      else offset_files level rest ikey (u64 (result + table_offset f ikey))
  end.

Fixpoint offset_levels (v : Version) (levels : list nat) (ikey : bytes) (result : Z) : Z :=
  match levels with
  | [] => result
  | level :: rest => offset_levels v rest ikey (offset_files level (level_files v level) ikey result)
  end.

Definition ApproximateOffsetOf (v : Version) (ikey : bytes) : Z := offset_levels v (seq 0 (Z.to_nat kNumLevels)) ikey 0.

(** The size of each range, between a start and a limit. *)
Definition GetApproximateSizes (v : Version) (range : list (bytes * bytes)) : list Z :=
  map (fun r : bytes * bytes =>
         let start := ApproximateOffsetOf v (mkInternalKey r.1 kMaxSequenceNumber kValueTypeForSeek) in
         let limit := ApproximateOffsetOf v (mkInternalKey r.2 kMaxSequenceNumber kValueTypeForSeek) in
         if start <=? limit then limit - start else 0) range.

(** The inner loop of [MaxNextLevelOverlappingBytes]. *)
Fixpoint max_overlap_files (v : Version) (level : nat) (files : list FileMetaData) (result : Z) : option Z :=
  match files with
  | [] => Some result
  | f :: rest =>
      overlaps ← GetOverlappingInputs user v (S level) (Some (smallest f)) (Some (largest f));
      let sum := TotalFileSize overlaps in
      max_overlap_files v level rest (if result <? sum then sum else result)
  end.

Fixpoint max_overlap_levels (v : Version) (levels : list nat) (result : Z) : option Z :=
  match levels with
  | [] => Some result
  | level :: rest => result ← max_overlap_files v level (level_files v level) result; max_overlap_levels v rest result
  end.

Definition MaxNextLevelOverlappingBytes (v : Version) : option Z :=
  max_overlap_levels v (seq 1 (Z.to_nat kNumLevels - 2)) 0.
End Offsets.

(** * The offset as a sum over the files *)

Section Sum.
Context (user : Comparator) `{Huser : !@ComparatorOk user} (table_offset : FileMetaData -> bytes -> Z).
#[local] Abbreviation icmp := (InternalKey_Compare user).
#[local] Instance icmp_total' : TotalCompare icmp := icmp_total user.

(** What a file adds. *)
Definition share_of (f : FileMetaData) (ikey : bytes) : Z :=
  if icmp (largest f) ikey <=? 0 then file_size f else if 0 <? icmp (smallest f) ikey then 0 else table_offset f ikey.

Definition sum_of (g : FileMetaData -> Z) (files : list FileMetaData) : Z := fold_right (fun f n => g f + n) 0 files.

Lemma sum_of_cons g f files : sum_of g (f :: files) = g f + sum_of g files.
Proof. done. Qed.

(** An offset lies in the file and grows with the key. *)
Record offsets_ok (files : list FileMetaData) : Prop := {
  oo_size f : f ∈ files -> 0 <= file_size f;
  oo_range f k : f ∈ files -> 0 <= table_offset f k <= file_size f;
  oo_mono f k k' : f ∈ files -> icmp k k' <= 0 -> table_offset f k <= table_offset f k';
}.

Lemma share_range f fs k : offsets_ok fs -> f ∈ fs -> 0 <= share_of f k <= file_size f.
Proof.
  intros Ho Hf. pose proof (oo_size _ Ho f Hf). pose proof (oo_range _ Ho f k Hf). unfold share_of. repeat bcase; lia.
Qed.

Lemma share_mono f fs k k' : offsets_ok fs -> f ∈ fs -> file_wf user f -> icmp k k' <= 0 -> share_of f k <= share_of f k'.
Proof.
  intros Ho Hf Hwf Hk. pose proof (oo_size _ Ho f Hf). pose proof (oo_range _ Ho f k Hf). pose proof (oo_range _ Ho f k' Hf). pose proof (oo_mono _ Ho f k k' Hf Hk).
  unfold share_of. destruct (Z.leb_spec (icmp (largest f) k) 0) as [Hlk|Hlk].
  - assert (icmp (largest f) k' <= 0) by by apply (tc_le_trans _ k). repeat bcase; lia.
  - destruct (Z.leb_spec (icmp (largest f) k') 0); [repeat bcase; lia|]. destruct (Z.ltb_spec 0 (icmp (smallest f) k)) as [Hsk|Hsk]; [repeat bcase; lia|].
    assert (icmp (smallest f) k' <= 0) by by apply (tc_le_trans _ k). repeat bcase; lia.
Qed.

Lemma sum_of_le g h files : (forall f, f ∈ files -> g f <= h f) -> sum_of g files <= sum_of h files.
Proof.
  induction files as [|f files IH]; intros Hle; [done|]. rewrite !sum_of_cons. specialize (IH (fun f Hf => Hle f (list_elem_of_further _ _ _ Hf))).
  specialize (Hle f ltac:(by left)). lia.
Qed.

Lemma sum_of_zero g files : (forall f, f ∈ files -> g f = 0) -> sum_of g files = 0.
Proof.
  induction files as [|f files IH]; intros Hz; [done|]. rewrite !sum_of_cons. specialize (IH (fun f Hf => Hz f (list_elem_of_further _ _ _ Hf))).
  rewrite (Hz f ltac:(by left)). lia.
Qed.

Lemma sum_of_app g a b : sum_of g (a ++ b) = sum_of g a + sum_of g b.
Proof. induction a as [|f a IH]; [done|]. cbn [app]. rewrite !sum_of_cons, IH. lia. Qed.

(** The [break] skips only files that add nothing. *)
Lemma offset_files_sum level files k : ((0 < level)%nat -> disjoint_sorted user files) -> offsets_ok files -> forall result,
  0 <= result -> result + sum_of file_size files < 2 ^ 64 ->
  offset_files user table_offset level files k result = result + sum_of (fun f => share_of f k) files.
Proof.
  induction files as [|f files IH]; intros Hd Ho result Hr Hb; [cbn; lia|]. cbn [offset_files]. rewrite sum_of_cons in Hb |- *.
  assert (Ho' : offsets_ok files) by (split; intros; [eapply oo_size|eapply oo_range|eapply oo_mono]; try done; by right).
  assert (Hd' : (0 < level)%nat -> disjoint_sorted user files).
  { intros Hl. destruct (Hd Hl) as [Hw Hs]. apply Forall_cons in Hw as [_ Hw]. apply StronglySorted_inv in Hs as [Hs _]. by split. }
  assert (Hpos : 0 <= sum_of file_size files).
  { rewrite <- (sum_of_zero (fun _ => 0) files) by done. apply sum_of_le. intros g Hg. by apply (oo_size _ Ho'). }
  pose proof (share_range f (f :: files) k Ho ltac:(by left)) as Hsh.
  assert (Hstep : forall n, n = share_of f k -> offset_files user table_offset level files k (u64 (result + n)) = result + (share_of f k + sum_of (fun f => share_of f k) files)).
  { intros n ->. rewrite u64_small by lia. rewrite IH; [lia|done|done|lia|lia]. }
  assert (Es : share_of f k = if icmp (largest f) k <=? 0 then file_size f else if 0 <? icmp (smallest f) k then 0 else table_offset f k) by done.
  destruct (Z.leb_spec (icmp (largest f) k) 0) as [Hlk|Hlk]; [by apply Hstep|].
  destruct (Z.ltb_spec 0 (icmp (smallest f) k)) as [Hsk|Hsk]; [|by apply Hstep]. pose proof (oo_size _ Ho f ltac:(by left)). destruct (Nat.ltb_spec 0 level) as [Hl|Hl].
  - rewrite sum_of_zero; [lia|]. intros g Hg. destruct (Hd Hl) as [Hw Hs]. apply Forall_cons in Hw as [Hwf Hw]. apply StronglySorted_inv in Hs as [_ Hs].
    rewrite Forall_forall in Hs, Hw. specialize (Hs g Hg). specialize (Hw g Hg). unfold file_wf in Hw, Hwf.
    assert (Hkg : icmp k (smallest g) < 0). { apply (tc_lt_trans icmp _ (largest f)); [|done]. apply (tc_antisym (cmp := icmp)). lia. }
    unfold share_of. pose proof (tc_antisym (cmp := icmp) k (smallest g)). assert (icmp k (largest g) < 0) by by apply (tc_lt_le_trans icmp _ (smallest g)).
    pose proof (tc_antisym (cmp := icmp) k (largest g)). repeat bcase; lia.
  - rewrite IH; [lia|done|done|lia|lia].
Qed.

Context (v : Version) (Hv : forall level, Forall (file_wf user) (level_files v level)) (Hw : version_wf user v).

Definition all_files (levels : list nat) : list FileMetaData := concat (map (level_files v) levels).
Context (Ho : forall levels, offsets_ok (all_files levels)).

Lemma offset_levels_sum levels k : forall result, 0 <= result -> result + sum_of file_size (all_files levels) < 2 ^ 64 ->
  offset_levels user table_offset v levels k result = result + sum_of (fun f => share_of f k) (all_files levels).
Proof.
  induction levels as [|level levels IH]; intros result Hr Hb; [cbn; lia|]. cbn [offset_levels]. unfold all_files in *. cbn [map concat] in *.
  rewrite sum_of_app in *. assert (Hol : offsets_ok (level_files v level)) by (specialize (Ho [level]); cbn in Ho; by rewrite app_nil_r in Ho).
  assert (Hpos : forall fs, offsets_ok fs -> 0 <= sum_of file_size fs).
  { intros fs Hfs. rewrite <- (sum_of_zero (fun _ => 0) fs) by done. apply sum_of_le. intros g Hg. by apply (oo_size _ Hfs). }
  pose proof (Hpos _ Hol). pose proof (Hpos _ (Ho levels)) as Hp. unfold all_files in Hp.
  assert (Hs : 0 <= sum_of (fun f => share_of f k) (level_files v level) <= sum_of file_size (level_files v level)).
  { split; [rewrite <- (sum_of_zero (fun _ => 0) (level_files v level)) by done|]; apply sum_of_le; intros f Hf; by apply (share_range f (level_files v level) k). }
  rewrite offset_files_sum; [rewrite IH; lia| |done|lia|lia]. intros Hl. by apply Hw.
Qed.

Lemma ApproximateOffsetOf_mono k k' : sum_of file_size (all_files (seq 0 (Z.to_nat kNumLevels))) < 2 ^ 64 -> icmp k k' <= 0 ->
  ApproximateOffsetOf user table_offset v k <= ApproximateOffsetOf user table_offset v k'.
Proof.
  intros Hb Hk. unfold ApproximateOffsetOf. rewrite !offset_levels_sum by lia. cut (forall a b : Z, a <= b -> 0 + a <= 0 + b); [|lia]. intros Hadd. apply Hadd, sum_of_le.
  intros f Hf. apply (share_mono f (all_files (seq 0 (Z.to_nat kNumLevels)))); [apply Ho|done| |done]. unfold all_files in Hf.
  apply list_elem_of_In, in_concat in Hf as (fs & Hfs & Hf). apply in_map_iff in Hfs as (level & <- & _). apply list_elem_of_In in Hf.
  specialize (Hv level). rewrite Forall_forall in Hv. by apply Hv.
Qed.
End Sum.

(** * Properties *)

(** The sizes of adjacent ranges add up.  For sorted levels, offsets that grow
    with the key and stay inside of their file, and a database of less than 2^64
    bytes, the size of a range is the sum of the sizes of its parts: no part is cut
    off at 0, and the [break] that leaves a level early loses nothing. *)
Theorem approximate_sizes_add (user : Comparator) (Huser : @ComparatorOk user) (table_offset : FileMetaData -> bytes -> Z) (v : Version) (a b c : bytes)
    (Hv : forall level, Forall (file_wf user) (level_files v level)) (Hw : version_wf user v)
    (Ho : forall levels, offsets_ok user table_offset (all_files v levels))
    (Hb : sum_of file_size (all_files v (seq 0 (Z.to_nat kNumLevels))) < 2 ^ 64)
    (Hab : @Compare user a b <= 0) (Hbc : @Compare user b c <= 0) :
  exists x y, GetApproximateSizes user table_offset v [(a, b); (b, c); (a, c)] = [x; y; x + y] /\ 0 <= x /\ 0 <= y.
Proof.
  assert (Hkey : forall p q, @Compare user p q <= 0 ->
    InternalKey_Compare user (mkInternalKey p kMaxSequenceNumber kValueTypeForSeek) (mkInternalKey q kMaxSequenceNumber kValueTypeForSeek) <= 0).
  { intros p q Hpq. apply icmp_le. rewrite !ExtractUserKey_mk, !ExtractTag_mk by (vm_compute; intuition congruence). lia. }
  pose proof (ApproximateOffsetOf_mono user table_offset v Hv Hw Ho _ _ Hb (Hkey a b Hab)) as Hx.
  pose proof (ApproximateOffsetOf_mono user table_offset v Hv Hw Ho _ _ Hb (Hkey b c Hbc)) as Hy.
  unfold GetApproximateSizes. cbn [map fst snd]. cbv zeta.
  set (A := ApproximateOffsetOf _ _ _ _) in *. set (B := ApproximateOffsetOf user table_offset v (mkInternalKey b _ _)) in *.
  set (C := ApproximateOffsetOf user table_offset v (mkInternalKey c _ _)) in *. exists (B - A), (C - B).
  rewrite !(proj2 (Z.leb_le _ _)) by lia. split; [|lia]. do 3 f_equal. lia.
Qed.

(** ** The largest overlap with the next level *)

Section MaxOverlap.
Context (user : Comparator) `{Huser : !@ComparatorOk user} (v : Version).

(** The bytes of the next level that a file overlaps. *)
Definition overlap_bytes (level : nat) (f : FileMetaData) : Z :=
  TotalFileSize (default [] (GetOverlappingInputs user v (S level) (Some (smallest f)) (Some (largest f)))).

(** [n] is the largest of [m] and what the property [P] allows. *)
Definition max_over (P : Z -> Prop) (m n : Z) : Prop := m <= n /\ (n = m \/ P n) /\ forall x, P x -> x <= n.

Lemma max_overlap_files_spec level files : forall result, exists n, max_overlap_files user v level files result = Some n /\
  max_over (fun x => exists f, f ∈ files /\ x = overlap_bytes level f) result n.
Proof.
  induction files as [|f files IH]; intros result; cbn [max_overlap_files].
  - exists result. split; [done|]. split; [lia|]. split; [by left|]. intros x (f & Hf & _). by apply elem_of_nil in Hf.
  - destruct (GetOverlappingInputs_total user v (S level) (Some (smallest f)) (Some (largest f))) as [ins E]. rewrite E. cbn [mbind option_bind].
    assert (Eb : overlap_bytes level f = TotalFileSize ins) by (unfold overlap_bytes; by rewrite E). rewrite <- Eb.
    destruct (IH (if result <? overlap_bytes level f then overlap_bytes level f else result)) as (n & En & Hge & Hat & Hall). exists n. split; [done|].
    destruct (Z.ltb_spec result (overlap_bytes level f)) as [Hlt|Hnl].
    + split; [lia|]. split.
      * right. destruct Hat as [-> |(g & Hg & ->)]; [exists f; split; [by left|done]|exists g; split; [by right|done]].
      * intros x (g & Hg & ->). apply elem_of_cons in Hg as [-> |Hg]; [done|]. apply Hall. by exists g.
    + split; [lia|]. split.
      * destruct Hat as [-> |(g & Hg & ->)]; [by left|right; exists g; split; [by right|done]].
      * intros x (g & Hg & ->). apply elem_of_cons in Hg as [-> |Hg]; [lia|]. apply Hall. by exists g.
Qed.

(** [MaxNextLevelOverlappingBytes] always answers, with the largest overlap of a
    file of a level between 1 and the last but one with the next level, or 0. *)
Theorem max_next_level_overlap_exact : exists n, MaxNextLevelOverlappingBytes user v = Some n /\
  max_over (fun x => exists level f, (0 < level < Z.to_nat kNumLevels - 1)%nat /\ f ∈ level_files v level /\ x = overlap_bytes level f) 0 n.
Proof.
  unfold MaxNextLevelOverlappingBytes.
  assert (Hgen : forall levels m, exists n, max_overlap_levels user v levels m = Some n /\
    max_over (fun x => exists level f, level ∈ levels /\ f ∈ level_files v level /\ x = overlap_bytes level f) m n).
  { induction levels as [|level levels IH]; intros m; cbn [max_overlap_levels].
    - exists m. split; [done|]. split; [lia|]. split; [by left|]. intros x (level & f & Hl & _). by apply elem_of_nil in Hl.
    - destruct (max_overlap_files_spec level (level_files v level) m) as (n1 & E1 & Hge1 & Hat1 & Hall1). rewrite E1. cbn [mbind option_bind].
      destruct (IH n1) as (n & E & Hge & Hat & Hall). exists n. split; [done|]. split; [lia|]. split.
      + destruct Hat as [-> |(l' & f & Hl & Hf & ->)]; [|right; exists l', f; split; [by right|done]].
        destruct Hat1 as [-> |(f & Hf & ->)]; [by left|right; exists level, f; split; [by left|done]].
      + intros x (l' & f & Hl & Hf & ->). apply elem_of_cons in Hl as [-> |Hl]; [|apply Hall; by exists l', f].
        pose proof (Hall1 _ (ex_intro _ f (conj Hf eq_refl))). lia. }
  destruct (Hgen (seq 1 (Z.to_nat kNumLevels - 2)) 0) as (n & E & Hge & Hat & Hall). exists n. split; [done|].
  assert (Hl : forall level, level ∈ seq 1 (Z.to_nat kNumLevels - 2) <-> (0 < level < Z.to_nat kNumLevels - 1)%nat).
  { intros level. rewrite list_elem_of_In, in_seq. change (Z.to_nat kNumLevels) with 7%nat. lia. }
  split; [done|]. split.
  - destruct Hat as [?|(level & f & Hlv & Hr)]; [by left|right]. exists level, f. by rewrite <- Hl.
  - intros x (level & f & Hlv & Hr). apply Hall. exists level, f. by rewrite Hl.
Qed.
End MaxOverlap.

(** * The iterator *)

Section Input.
Context (user : Comparator) {J : Type} `{!Iterator J} `{!TableIterators J} (fuel : nat).

(** An iterator over a table or over the input files of a level. *)
#[export] Instance Input_iterator : Iterator (J + LevelIterator J) := sum_iterator (Iterator1 := LevelIterator_iterator user fuel).
#[export] Instance Inputs_iterator : Iterator (Merged (J + LevelIterator J)) :=
  Merged_iterator (Iterator0 := Input_iterator) (InternalKeyComparator user).

(** One turn of the loop over [which]. *)
Definition input_iterators (level : nat) (files : list FileMetaData) : list (J + LevelIterator J) :=
  match files with
  | [] => []
  | _ =>
      if (level =? 0)%nat then map (fun f => inl (table_NewIterator (number f) (file_size f))) files
      else [inr (NewTwoLevelIterator (Iterator0 := LevelFileNumIterator_iterator user) (newLevelFileNumIterator files))]
  end.

Definition MakeInputIterator (c : Compaction) : Merged (J + LevelIterator J) :=
  NewMergingIterator (Iterator0 := Input_iterator)
    (input_iterators (level_ c) (inputs_ c).1 ++ input_iterators (S (level_ c)) (inputs_ c).2).
End Input.

(** * The inputs are in order *)

Section Order.
Context (user : Comparator) `{Huser : !@ComparatorOk user}.
#[local] Abbreviation icmp := (InternalKey_Compare user).
#[local] Abbreviation before := (fun f g => icmp (largest f) (smallest g) < 0).
#[local] Existing Instance icmp_total'.

(** No file twice, and above level 0 in the order of the keys. *)
Definition input_order (level : nat) (S : list FileMetaData) : Prop := NoDup S /\ ((0 < level)%nat -> StronglySorted before S).

Lemma input_order_filter P level files : input_order level files -> input_order level (List.filter P files).
Proof.
  intros [Hn Hs]. split; [|intros Hl; apply sorted_filter; by apply Hs]. apply NoDup_ListNoDup, List.NoDup_filter. by apply NoDup_ListNoDup.
Qed.

Lemma GetOverlappingInputs_order v level b e inputs : input_order level (level_files v level) ->
  GetOverlappingInputs user v level b e = Some inputs -> input_order level inputs.
Proof.
  intros Ho E. unfold GetOverlappingInputs in E.
  destruct (overlap_loop_spec user (level =? 0)%nat (level_files v level) (S (2 * length (level_files v level))) (ExtractUserKey <$> b) (ExtractUserKey <$> e))
    as (b' & e' & _ & E' & _).
  { unfold slack. pose proof (filter_length_all (starts_before user (ExtractUserKey <$> b)) (level_files v level)).
    pose proof (filter_length_all (ends_after user (ExtractUserKey <$> e)) (level_files v level)). lia. }
  rewrite E in E'. injection E' as ->. by apply input_order_filter.
Qed.

(** A boundary file begins after all inputs, so that it goes to the end. *)
Lemma AddBoundaryInputs_loop_order level files : Forall (file_wf user) files -> forall fuel key S S',
  (forall g, g ∈ S -> icmp (largest g) key <= 0) -> input_order level S ->
  AddBoundaryInputs_loop user fuel files key S = Some S' -> input_order level S'.
Proof.
  intros Hwf. induction fuel as [|fuel IH]; intros key S S' Hmax Ho E; [done|]. cbn [AddBoundaryInputs_loop] in E.
  pose proof (FindSmallestBoundaryFile_spec user files key) as Hf.
  destruct (FindSmallestBoundaryFile user files key) as [f|]; [|by injection E as <-]. destruct Hf as (Hin & Hb & _).
  rewrite Forall_forall in Hwf. specialize (Hwf f Hin). unfold file_wf in Hwf. unfold is_boundary in Hb. apply andb_true_iff in Hb as [Hb _]. apply Z.ltb_lt in Hb.
  apply (tc_antisym (cmp := icmp)) in Hb.
  assert (Hlt : forall g, g ∈ S -> icmp (largest g) (smallest f) < 0) by (intros g Hg; apply (tc_le_lt_trans icmp _ key); [by apply Hmax|done]).
  apply (IH (largest f) (S ++ [f])); [| |done].
  - intros g. rewrite elem_of_app, list_elem_of_singleton. intros [Hg| ->]; [|by rewrite (tc_refl icmp)].
    apply (tc_le_trans _ (smallest f)); [by apply Z.lt_le_incl, Hlt|done].
  - destruct Ho as [Hn Hs]. split.
    + apply NoDup_app. split; [done|]. split; [|apply NoDup_singleton]. intros g Hg. rewrite list_elem_of_singleton. intros ->. specialize (Hlt f Hg).
      pose proof (tc_flip_le icmp (smallest f) (largest f)) as Hfl. lia.
    + intros Hl. apply StronglySorted_app. split; [|split; [by apply Hs|repeat constructor]]. intros g h Hg Hh. apply list_elem_of_singleton in Hh as ->. by apply Hlt.
Qed.

Lemma AddBoundaryInputs_order level files S S' : Forall (file_wf user) files -> input_order level S ->
  AddBoundaryInputs user files S = Some S' -> input_order level S'.
Proof.
  intros Hwf Ho E. unfold AddBoundaryInputs in E. rewrite FindLargestKey_GetRange in E. destruct S as [|g S]; [by injection E as <-|].
  destruct (GetRange_spec user (g :: S)) as (s & l & Er & Hc); [done|]. rewrite Er in E.
  apply (AddBoundaryInputs_loop_order level files Hwf (Datatypes.S (length files)) l (g :: S) S'); [|done|done]. intros h Hh. by apply Hc.
Qed.

Context (v : Version) (Hlv : levels_ok user v) (Hnd : forall level, NoDup (level_files v level)).

Lemma level_order level : input_order level (level_files v level).
Proof. split; [apply Hnd|]. apply (Hlv level). Qed.

Lemma level_wf level : Forall (file_wf user) (level_files v level).
Proof. apply (Hlv level). Qed.

Lemma expand_inputs_order msize level S0 S1 s l a b T0 T1 r1 r2 : input_order level S0 -> input_order (S level) S1 ->
  expand_inputs user msize v level S0 S1 s l a b = Some (T0, T1, r1, r2) -> input_order level T0 /\ input_order (S level) T1.
Proof.
  intros H0 H1. unfold expand_inputs. destruct S1 as [|g S1]; [by intros [= <- <- _ _]|].
  destruct (GetOverlappingInputs user v level (Some a) (Some b)) as [E0|] eqn:Eo; [|done]. cbn [mbind option_bind].
  destruct (AddBoundaryInputs user (level_files v level) E0) as [E0'|] eqn:Eb; [|done]. cbn [mbind option_bind].
  destruct (_ && _); [|by intros [= <- <- _ _]]. destruct (GetRange user E0') as [[ns nl]|]; [|done]. cbn [mbind option_bind].
  destruct (GetOverlappingInputs user v (S level) (Some ns) (Some nl)) as [E1|] eqn:Eo1; [|done]. cbn [mbind option_bind].
  destruct (_ =? _)%nat; [|by intros [= <- <- _ _]]. destruct (GetRange2 user E0' E1) as [[x y]|]; [|done]. cbn [mbind option_bind]. intros [= <- <- _ _].
  split; [|by apply (GetOverlappingInputs_order v (S level) _ _ _ (level_order (S level)) Eo1)].
  apply (AddBoundaryInputs_order level (level_files v level) E0); [apply level_wf| |done]. by apply (GetOverlappingInputs_order v level _ _ _ (level_order level) Eo).
Qed.

Lemma SetupOtherInputs_order msize ps c c' ps' : input_order (level_ c) (inputs_ c).1 ->
  SetupOtherInputs user msize v ps c = Some (c', ps') ->
  level_ c' = level_ c /\ input_order (level_ c) (inputs_ c').1 /\ input_order (S (level_ c)) (inputs_ c').2.
Proof.
  intros H0. unfold SetupOtherInputs.
  destruct (AddBoundaryInputs user (level_files v (level_ c)) (inputs_ c).1) as [S0|] eqn:Eb; [|done]. cbn [mbind option_bind].
  destruct (GetRange user S0) as [[s l]|]; [|done]. cbn [mbind option_bind].
  destruct (GetOverlappingInputs user v (S (level_ c)) (Some s) (Some l)) as [S1|] eqn:Eo; [|done]. cbn [mbind option_bind].
  destruct (GetRange2 user S0 S1) as [[a b]|]; [|done]. cbn [mbind option_bind].
  destruct (expand_inputs user msize v (level_ c) S0 S1 s l a b) as [[[[T0 T1] [s' l']] [a' b']]|] eqn:Ee; [|done]. cbn [mbind option_bind].
  destruct (if Z.of_nat (level_ c) + 2 <? kNumLevels then _ else _) as [gps|]; [|done]. cbn [mbind option_bind]. intros [= <- _]. split; [done|].
  cbn [with_setup inputs_ fst snd]. eapply expand_inputs_order; [| |exact Ee].
  - by apply (AddBoundaryInputs_order _ _ _ _ (level_wf _) H0 Eb).
  - by apply (GetOverlappingInputs_order v _ _ _ _ (level_order _) Eo).
Qed.

Definition picked (msize : Z) (ps : list bytes) (c : Compaction) : Prop :=
  (exists ps', PickCompaction user msize v ps = Some (inr (c, ps'))) \/
  (exists level b e ps', CompactRange user msize v ps level b e = Some (inr (c, ps'))).

(** The inputs that are chosen are in order. *)
Lemma picked_order msize ps c : picked msize ps c -> input_order (level_ c) (inputs_ c).1 /\ input_order (S (level_ c)) (inputs_ c).2.
Proof.
  assert (Hone : forall level f, input_order level [f]) by (intros level f; split; [apply NoDup_singleton|]; repeat constructor).
  assert (Hsetup : forall level S ps', input_order level S -> SetupOtherInputs user msize v ps (with_inputs (newCompaction msize level) v S) = Some (c, ps') ->
    input_order (level_ c) (inputs_ c).1 /\ input_order (Datatypes.S (level_ c)) (inputs_ c).2).
  { intros level S ps' Ho E. destruct (SetupOtherInputs_order msize ps (with_inputs (newCompaction msize level) v S) c ps' Ho E) as (El & Hr). rewrite El. exact Hr. }
  assert (Hstart : forall level f ps', (c0 ← (if (level =? 0)%nat then
             '(s, l) ← GetRange user (inputs_ (with_inputs (newCompaction msize level) v [f])).1;
             inputs0 ← GetOverlappingInputs user v 0 (Some s) (Some l); Some (with_inputs (with_inputs (newCompaction msize level) v [f]) v inputs0)
           else Some (with_inputs (newCompaction msize level) v [f])); inr (A := unit) <$> SetupOtherInputs user msize v ps c0) = Some (inr (c, ps')) ->
    input_order (level_ c) (inputs_ c).1 /\ input_order (Datatypes.S (level_ c)) (inputs_ c).2).
  { intros level f ps' E. destruct (Nat.eqb_spec level 0) as [->|Hne].
    - destruct (GetRange user _) as [[s l]|]; [|done]. cbn [mbind option_bind] in E. destruct (GetOverlappingInputs user v 0 (Some s) (Some l)) as [S|] eqn:Eo; [|done].
      cbn [mbind option_bind] in E. destruct (SetupOtherInputs _ _ _ _ _) as [[c1 ps1]|] eqn:Es; [|done]. injection E as -> ->.
      apply (Hsetup 0%nat S ps'); [by apply (GetOverlappingInputs_order v 0 _ _ _ (level_order 0) Eo)|done].
    - cbn [mbind option_bind] in E. destruct (SetupOtherInputs _ _ _ _ _) as [[c1 ps1]|] eqn:Es; [|done]. injection E as -> ->. by apply (Hsetup level [f] ps'). }
  intros [[ps' E]|(level & b & e & ps' & E)].
  - unfold PickCompaction in E. destruct (score_reached v).
    + destruct (pick_file user _ _) as [f|]; [|done]. by apply (Hstart _ f ps') in E.
    + destruct (file_to_compact_ v) as [f|]; [|done]. by apply (Hstart _ f ps') in E.
  - unfold CompactRange in E. destruct (GetOverlappingInputs user v level b e) as [S|] eqn:Eo; [|done]. cbn [mbind option_bind] in E.
    pose proof (GetOverlappingInputs_order v level _ _ _ (level_order level) Eo) as [Hn Hs]. destruct S as [|g S]; [done|]. set (S' := if (0 <? level)%nat then _ else _) in E.
    destruct (SetupOtherInputs _ _ _ _ _) as [[c1 ps1]|] eqn:Es; [|done]. injection E as -> ->. apply (Hsetup level S' ps'); [|done].
    unfold S'. destruct (0 <? level)%nat; [|by split]. destruct (limit_inputs_prefix (MaxFileSizeForLevel msize (Z.of_nat level)) (g :: S) 0 ltac:(done)) as [[rest Ep] _].
    rewrite Ep in Hn, Hs. apply NoDup_app in Hn as [Hn _]. split; [done|]. intros Hl. specialize (Hs Hl). by apply StronglySorted_app in Hs as (_ & Hs & _).
Qed.
End Order.

(** * The merge of the inputs *)

Section Merge.
Context (user : Comparator) `{Huser : !@ComparatorOk user} {HR : TableReader} {HT : TableReaderOk user}.
Context {J : Type} {HJ : Iterator J} {HTI : TableIterators J} {OJ : IteratorOk J (InternalKeyComparator user)}.
#[local] Existing Instance icmp.
#[local] Abbreviation icmp := (icmp user).
#[local] Abbreviation contents := (VersionGetProofs.contents user).
#[local] Abbreviation sorted := (StronglySorted (entry_lt (cmp := icmp))).

#[export] Instance Input_ok (fuel : nat) : @IteratorOk (J + LevelIterator J) (Input_iterator user fuel) icmp :=
  sum_iterator_ok (OJ := LevelIterator_ok user fuel).

(** The files behind each iterator of the merge. *)
Definition input_groups (level : nat) (files : list FileMetaData) : list (nat * list FileMetaData) :=
  match files with
  | [] => []
  | _ => if (level =? 0)%nat then map (fun f => (level, [f])) files else [(level, files)]
  end.
Definition group_entries (g : nat * list FileMetaData) : list (bytes * bytes) := concat (map contents g.2).
Definition group_child (fuel : nat) (g : nat * list FileMetaData) : J + LevelIterator J :=
  match g with
  | (O, f :: _) => inl (table_NewIterator (number f) (file_size f))
  | (_, fs) => inr (NewTwoLevelIterator (Iterator0 := LevelFileNumIterator_iterator user) (newLevelFileNumIterator fs))
  end.

Lemma input_iterators_groups fuel level files : input_iterators user level files = map (group_child fuel) (input_groups level files).
Proof.
  unfold input_iterators, input_groups. destruct files as [|f files]; [done|]. destruct level as [|level]; cbn [Nat.eqb]; [|done]. by rewrite map_map.
Qed.

Lemma input_groups_elem level files g : g ∈ input_groups level files ->
  g.1 = level /\ (forall f, f ∈ g.2 -> f ∈ files) /\ if (level =? 0)%nat then exists f, g.2 = [f] else g.2 = files.
Proof.
  unfold input_groups. destruct files as [|f files]; [intros Hg; by apply elem_of_nil in Hg|]. destruct (level =? 0)%nat.
  - intros Hg. change (map ?h ?x) with (h <$> x) in Hg. apply list_elem_of_fmap_1 in Hg as (h & -> & Hh). split; [done|]. cbn [snd]. split; [|by exists h].
    intros k Hk. apply list_elem_of_singleton in Hk as ->. done.
  - intros Hg. apply list_elem_of_singleton in Hg as ->. done.
Qed.

Lemma input_groups_all level files f : f ∈ files -> exists g, g ∈ input_groups level files /\ f ∈ g.2.
Proof.
  intros Hf. unfold input_groups. destruct files as [|h files]; [by apply elem_of_nil in Hf|]. destruct (level =? 0)%nat.
  - exists (level, [f]). split; [|by left]. by apply (list_elem_of_fmap_2 (fun f => (level, [f]))).
  - exists (level, h :: files). split; [by left|done].
Qed.

Lemma input_groups_nodup level files : NoDup files -> NoDup (input_groups level files).
Proof.
  intros Hn. unfold input_groups. destruct files as [|h files]; [constructor|]. destruct (level =? 0)%nat; [|apply NoDup_singleton].
  by apply (NoDup_fmap_2 (fun f => (level, [f]))).
Qed.

Context (v : Version) (Hv : lsm user v) (Htab : tables_ok user v) (L : nat) (S0 S1 : list FileMetaData).
Context (Hsub0 : forall f, f ∈ S0 -> f ∈ level_files v L) (Hsub1 : forall f, f ∈ S1 -> f ∈ level_files v (S L)).
Context (Ho0 : input_order user L S0) (Ho1 : input_order user (S L) S1).

Definition groups : list (nat * list FileMetaData) := input_groups L S0 ++ input_groups (S L) S1.

Lemma groups_elem g : g ∈ groups -> (forall f, f ∈ g.2 -> f ∈ level_files v g.1) /\
  ((g.1 = 0%nat /\ exists f, g.2 = [f]) \/ (0 < g.1)%nat /\ input_order user g.1 g.2 /\ (g = (L, S0) \/ g = (S L, S1))).
Proof.
  unfold groups. rewrite elem_of_app. intros [Hg|Hg]; apply input_groups_elem in Hg as (El & Hs & Hk); destruct g as [n fs]; cbn [fst snd] in *; subst n.
  - split; [intros f Hf; by apply Hsub0, Hs|]. destruct (Nat.eqb_spec L 0) as [->|Hne]; [by left|]. right. subst fs. split; [lia|]. split; [done|by left].
  - split; [intros f Hf; by apply Hsub1, Hs|]. cbn [Nat.eqb] in Hk. right. subst fs. split; [lia|]. split; [done|by right].
Qed.

Lemma groups_nodup : NoDup groups.
Proof.
  unfold groups. apply NoDup_app. split; [apply input_groups_nodup, Ho0|]. split; [|apply input_groups_nodup, Ho1].
  intros g H0 H1. apply input_groups_elem in H0 as (E0 & _), H1 as (E1 & _). lia.
Qed.

Lemma level_number_inj level f g : f ∈ level_files v level -> g ∈ level_files v level -> number f = number g -> f = g.
Proof.
  intros [i Hi]%list_elem_of_lookup [j Hj]%list_elem_of_lookup E. assert (i = j) as <-; [|congruence].
  apply (NoDup_lookup _ i j (number f) (to_numbers _ _ Htab level)); change (map number ?x) with (number <$> x); rewrite list_lookup_fmap; [by rewrite Hi|by rewrite Hj, E].
Qed.

Lemma group_level_ok fuel g : g ∈ groups -> (0 < g.1)%nat -> (length g.2 < fuel)%nat -> level_ok user fuel g.2.
Proof.
  intros Hg Hpos Hf. destruct (groups_elem g Hg) as (Hin & [[E _]|(_ & [Hn Hs] & _)]); [lia|]. pose proof (lsm_levels_ok user v Hv g.1) as [Hwf _].
  rewrite Forall_forall in Hwf. split; [split|..].
  - apply Forall_forall. intros f Hx. by apply Hwf, Hin.
  - by apply Hs.
  - apply Forall_forall. intros f Hx. by apply (lsm_contents _ _ Hv g.1), Hin.
  - apply Forall_forall. intros f Hx. by apply (to_opens _ _ Htab g.1), Hin.
  - clear Hs Hf Hg Hpos. induction g.2 as [|f fs IH]; [constructor|]. apply NoDup_cons in Hn as [Hx Hn]. cbn [map]. apply NoDup_cons. split; [|apply IH; [|done]; intros h Hh; apply Hin; by right].
    intros Hy. change (map number fs) with (number <$> fs) in Hy. apply list_elem_of_fmap_1 in Hy as (h & E & Hh). apply Hx.
    rewrite (level_number_inj g.1 f h); [done|apply Hin; by left|apply Hin; by right|done].
  - done.
Qed.

Lemma group_sorted g : g ∈ groups -> sorted (group_entries g).
Proof.
  intros Hg. destruct (groups_elem g Hg) as (Hin & [[E [f Ef]]|(Hpos & _)]); unfold group_entries.
  - rewrite Ef in Hin |- *. cbn [map concat]. rewrite app_nil_r. by destruct (lsm_contents _ _ Hv g.1 f (Hin f ltac:(by left))) as [Hs _].
  - exact (level_sorted user (S (length g.2)) g.2 (group_level_ok _ g Hg Hpos (Nat.lt_succ_diag_r _))).
Qed.

Lemma group_at fuel g : g ∈ groups -> (length g.2 < fuel)%nat ->
  @at_pos (J + LevelIterator J) (Input_iterator user fuel) icmp (Input_ok fuel) (group_child fuel g) (group_entries g) (length (group_entries g)).
Proof.
  intros Hg Hf. pose proof (group_level_ok fuel g Hg) as Hlo. destruct (groups_elem g Hg) as (Hin & [[E [f Ef]]|(Hpos & _)]); unfold group_entries; destruct g as [[|n] fs]; cbn [fst snd] in *; try lia; subst.
  - cbn [map concat]. rewrite app_nil_r. destruct (to_opens _ _ Htab 0 f (Hin f ltac:(by left))) as (_ & _ & Ha). exact Ha.
  - exists fs, (Hlo Hpos Hf). rewrite <- (level_entries user fuel fs (Hlo Hpos Hf)).
    apply (NewTwoLevelIterator_at (I := LevelFileNumIterator) (Iterator0 := LevelFileNumIterator_iterator user) (IteratorOk0 := LevelFileNumIterator_ok user) _ _ _ (length fs)).
    split; [apply (lo_disjoint _ _ _ (Hlo Hpos Hf))|]. by split.
Qed.

Lemma group_apart g h a b : g ∈ groups -> h ∈ groups -> g <> h -> a ∈ group_entries g -> b ∈ group_entries h -> apart (cmp := icmp) a b.
Proof.
  intros Hg Hh Hne Ha Hb. unfold group_entries in *. rewrite list_elem_of_In in Ha, Hb. apply in_concat in Ha as (la & Hla & Ha), Hb as (lb & Hlb & Hb).
  apply in_map_iff in Hla as (f & <- & Hf), Hlb as (k & <- & Hk). apply list_elem_of_In in Hf, Hk, Ha, Hb.
  destruct (groups_elem g Hg) as (Hing & Hcg), (groups_elem h Hh) as (Hinh & Hch). destruct g as [n fs], h as [m gs]; cbn [fst snd] in *.
  assert (Hord : newer_place (n, f) (m, k) \/ newer_place (m, k) (n, f)).
  { unfold newer_place. cbn [fst snd]. destruct (lt_eq_lt_dec n m) as [[Hlt|Heq]|Hgt]; [by left; left| |by right; left]. subst m.
    destruct Hcg as [[-> [f' Ef]]|(Hpos & _ & Eg)].
    - destruct Hch as [[_ [k' Ek]]|(Hpos & _)]; [|lia]. subst fs gs. apply list_elem_of_singleton in Hf as ->. apply list_elem_of_singleton in Hk as ->.
      assert (Hnn : number f' <> number k') by (intros E; apply Hne; do 2 f_equal; apply (level_number_inj 0); [apply Hing; by left|apply Hinh; by left|done]).
      destruct (Z.lt_total (number f') (number k')) as [?|[?|?]]; [right|done|left]; right; done.
    - destruct Hch as [[E _]|(_ & _ & Eh)]; [lia|]. destruct Hne. destruct Eg as [Eg|Eg], Eh as [Eh|Eh]; first [congruence|injection Eg as En _; injection Eh as Em _; lia]. }
  destruct Hord as [Ho|Ho].
  - apply (apart_tags user). exact (lsm_newer _ _ Hv (n, f) (m, k) a b (Hing f Hf) (Hinh k Hk) Ho Ha Hb).
  - apply (keys_apart_sym (cmp_ok := InternalKeyComparator_ok user)), (apart_tags user). exact (lsm_newer _ _ Hv (m, k) (n, f) b a (Hinh k Hk) (Hing f Hf) Ho Hb Ha).
Qed.

Lemma groups_entry e : (exists g, g ∈ groups /\ e ∈ group_entries g) <-> exists f, f ∈ S0 ++ S1 /\ e ∈ contents f.
Proof.
  unfold group_entries. setoid_rewrite list_elem_of_In at 2. setoid_rewrite in_concat. split.
  - intros (g & Hg & (c & Hc & He)). apply in_map_iff in Hc as (f & <- & Hf). apply list_elem_of_In in Hf, He. exists f. split; [|done].
    unfold groups in Hg. apply elem_of_app in Hg as [Hg|Hg]; apply input_groups_elem in Hg as (_ & Hs & _); apply elem_of_app; [left|right]; by apply Hs.
  - intros (f & Hf & He). assert (Hg : exists g, g ∈ groups /\ f ∈ g.2).
    { apply elem_of_app in Hf as [Hf|Hf]; [apply (input_groups_all L) in Hf|apply (input_groups_all (S L)) in Hf]; destruct Hf as (g & Hg & Hf); exists g; unfold groups; rewrite elem_of_app; tauto. }
    destruct Hg as (g & Hg & Hfg). exists g. split; [done|]. exists (contents f). rewrite <- !list_elem_of_In. split; [|done]. by apply (list_elem_of_fmap_2 contents).
Qed.

(** The merge exists and the iterator stands in it. *)
Lemma input_merge : exists l, sorted l /\ (forall e, e ∈ l <-> exists f, f ∈ S0 ++ S1 /\ e ∈ contents f) /\
  forall fuel, (length S0 + length S1 < fuel)%nat -> exists i,
    @at_pos (Merged (J + LevelIterator J)) (Inputs_iterator user fuel) icmp (Merged_ok (IteratorOk0 := Input_ok fuel))
      (NewMergingIterator (Iterator0 := Input_iterator user fuel) (map (group_child fuel) groups)) l i.
Proof.
  destruct (merges_exists (cmp := icmp) (cmp_ok := InternalKeyComparator_ok user) (map group_entries groups)) as [l Hl].
  - apply Forall_forall. intros lj Hj. apply (list_elem_of_fmap_1 group_entries) in Hj as (g & -> & Hg). by apply group_sorted.
  - intros j k lj lk a b Hj Hk Hne Ha Hb. change (map group_entries groups) with (group_entries <$> groups) in Hj, Hk.
    apply list_lookup_fmap_Some in Hj as (p & -> & Hp), Hk as (q & -> & Hq). apply (group_apart p q); [by apply list_elem_of_lookup_2 with j|by apply list_elem_of_lookup_2 with k| |done|done].
    intros ->. apply Hne. by apply (NoDup_lookup groups j k q groups_nodup).
  - intros lj e Hj He. apply (list_elem_of_fmap_1 group_entries) in Hj as (g & -> & Hg).
    destruct (proj1 (groups_entry e)) as (f & Hf & Hc); [by exists g|]. apply elem_of_app in Hf as [Hf|Hf]; [by apply (to_sizes _ _ Htab L f); [apply Hsub0|]|by apply (to_sizes _ _ Htab (S L) f); [apply Hsub1|]].
  - exists l. split; [exact (merges_sorted _ _ Hl)|]. split.
    + intros e. rewrite (merges_elem _ _ Hl e), <- groups_entry. split.
      * intros (j & lj & Hj & He). change (map group_entries groups) with (group_entries <$> groups) in Hj. apply list_lookup_fmap_Some in Hj as (g & -> & Hg).
        exists g. split; [by apply list_elem_of_lookup_2 with j|done].
      * intros (g & Hg & He). apply list_elem_of_lookup in Hg as [j Hg]. exists j, (group_entries g). split; [|done].
        change (map group_entries groups) with (group_entries <$> groups). by rewrite list_lookup_fmap, Hg.
    + intros fuel Hf. eexists. apply (NewMergingIterator_at (Iterator0 := Input_iterator user fuel) (IteratorOk0 := Input_ok fuel) _ (map group_entries groups) l
        (fun j => match groups !! j with Some g => length (group_entries g) | None => 0%nat end)); [exact Hl|by rewrite !length_map|].
      intros j it lj Hit Hj. change (map ?f groups) with (f <$> groups) in Hit, Hj. apply list_lookup_fmap_Some in Hit as (g & -> & Hg).
      rewrite list_lookup_fmap, Hg in Hj. injection Hj as <-. rewrite Hg. apply list_elem_of_lookup_2 in Hg. apply group_at; [done|].
      destruct (groups_elem g Hg) as (_ & [[_ [f Ef]]|(_ & _ & [-> | ->])]); cbn [snd]; [|lia|lia].
      unfold groups in Hg. apply elem_of_app in Hg as [Hg|Hg]; apply input_groups_elem in Hg as (_ & Hs & _); rewrite Ef in Hs |- *; specialize (Hs f ltac:(by left)); cbn [length].
      * destruct S0; [by apply elem_of_nil in Hs|cbn [length] in Hf; lia].
      * destruct S1; [by apply elem_of_nil in Hs|cbn [length] in Hf; lia].
Qed.
End Merge.

(** * Properties *)

Lemma chosen_inputs_safe (user : Comparator) `{Huser : !@ComparatorOk user} v msize ps c : levels_ok user v -> pick_ready v ->
  picked user v msize ps c -> compaction_safe user v c.
Proof.
  intros Hv Hr [[ps' E]|(level & b & e & ps' & E)].
  - destruct (PickCompaction_spec user msize v ps Hv Hr) as [[E' _]|(c' & s & l & E' & Hs & _)]; rewrite E in E'; [done|]. by injection E' as -> _.
  - destruct (compact_range_safe user msize v ps level b e Hv) as [[E' _]|(c' & s & l & E' & _ & Hs & _)]; rewrite E in E'; [done|]. by injection E' as -> _.
Qed.

(** C11: a compaction reads the merge of its inputs.  For the inputs that
    [PickCompaction] or [CompactRange] chooses from a tree in order, the files of a
    level above 0 are handed over in the order of their keys (boundary files that are
    added later included), and the iterator of [MakeInputIterator] walks the sorted
    list of exactly the entries of the input files, in both directions. *)
Theorem input_iterator_correct {J : Type} (user : Comparator) (Huser : @ComparatorOk user) {HR : TableReader} {HT : TableReaderOk user}
    {HJ : Iterator J} {HTI : TableIterators J} {OJ : IteratorOk J (InternalKeyComparator user)}
    (v : Version) (msize : Z) (ps : list bytes) (c : Compaction)
    (Hv : lsm user v) (Htables : tables_ok user v) (Hready : pick_ready v) (Hpicked : picked user v msize ps c) :
  exists l, StronglySorted (key_lt user) l /\
    (forall e, e ∈ l <-> exists f, f ∈ (inputs_ c).1 ++ (inputs_ c).2 /\ e ∈ VersionGetProofs.contents user f) /\
    forall fuel, (length (inputs_ c).1 + length (inputs_ c).2 < fuel)%nat -> exists i, forall ops t,
      list_trace (InternalKeyComparator user) l i ops = Some t ->
      iter_trace (H := Inputs_iterator user fuel) (MakeInputIterator user fuel c) ops = Some t.
Proof.
  pose proof (lsm_levels_ok user v Hv) as Hlv. pose proof (cs_inputs _ _ _ (chosen_inputs_safe user v msize ps c Hlv Hready Hpicked)) as Hs.
  assert (Hnd : forall level, NoDup (level_files v level)) by (intros level; exact (NoDup_fmap_1 number _ (to_numbers _ _ Htables level))).
  destruct (picked_order user v Hlv Hnd msize ps c Hpicked) as [Ho0 Ho1].
  destruct (input_merge user v Hv Htables (level_ c) _ _ (is_sub _ _ _ _ _ Hs) (nl_sub _ _ _ _ (is_next _ _ _ _ _ Hs)) Ho0 Ho1) as (l & Hsort & Hin & Hat).
  exists l. split; [exact Hsort|]. split; [exact Hin|]. intros fuel Hf. destruct (Hat fuel Hf) as [i Ha]. exists i. intros ops t Ht.
  unfold MakeInputIterator. rewrite !(input_iterators_groups user fuel), <- map_app. by apply (iter_trace_ok (IteratorOk0 := Merged_ok (IteratorOk0 := Input_ok user fuel)) ops _ l i).
Qed.

(** A manual compaction of level 0 of [get_version]. *)
Definition manual_compaction : Compaction :=
  match CompactRange BytewiseComparator 1000 get_version [] 0 None None with Some (inr (c, _)) => c | _ => newCompaction 1000 0 end.

Lemma input_iterator_correct_witness : (length (inputs_ manual_compaction).1 = 1 /\ length (inputs_ manual_compaction).2 = 1)%nat /\
  exists l, StronglySorted (key_lt BytewiseComparator) l /\
    (forall e, e ∈ l <-> exists f, f ∈ (inputs_ manual_compaction).1 ++ (inputs_ manual_compaction).2 /\ e ∈ get_contents f) /\
    forall fuel, (length (inputs_ manual_compaction).1 + length (inputs_ manual_compaction).2 < fuel)%nat -> exists i, forall ops t,
      list_trace (InternalKeyComparator BytewiseComparator) l i ops = Some t ->
      iter_trace (H := Inputs_iterator (Iterator0 := scan_iterator) (TableIterators0 := scan_tables) BytewiseComparator fuel)
        (MakeInputIterator (Iterator0 := scan_iterator) (TableIterators0 := scan_tables) BytewiseComparator fuel manual_compaction) ops = Some t.
Proof.
  split; [split; vm_compute; reflexivity|].
  apply (@input_iterator_correct ListIter BytewiseComparator BytewiseComparator_ok (list_reader BytewiseComparator get_contents)
    (list_reader_ok BytewiseComparator get_contents) scan_iterator scan_tables (ListIter_ok (InternalKeyComparator BytewiseComparator))
    get_version 1000 [] manual_compaction).
  - exact get_version_lsm.
  - exact scan_tables_ok.
  - split; [intros E; vm_compute in E; discriminate|intros f E; discriminate].
  - right. exists 0%nat, None, None. eexists. vm_compute. reflexivity.
Defined.
