(* ===== verification/Background.v ===== *)
(** db/db_impl.cc, the background work: scheduling ([MaybeScheduleCompaction],
    [BackgroundCall]), what a call does ([BackgroundCompaction]: the immutable
    memtable first, then a manual compaction, then one that the versions ask for),
    manual compactions ([CompactRange], [TEST_CompactRange]) and closing.

    The mutex is released inside [DoCompactionWork]: a background call is two steps
    with the steps of other threads between them.  (It is also released while a
    memtable or the MANIFEST is written; those writes are single steps here.)  The
    work itself (CompactionWork)
    ends with any status and any outputs for the inputs it was given.  The records
    on the stacks of the callers of [TEST_CompactRange] are kept in [manuals] under
    their addresses; [manual_compaction_] points to one of them.  [None] as a result
    is a failed assertion or the use of a pointer that is null or points to a record
    that is gone. *)

From stdpp Require Import base list option gmap strings.
From S2P Require Import Prelude Status Coding Crc32c Env Log Comparator DbFormat WriteBatch SkipList MemTable VersionEdit Version VersionBuilder Filename FilterBlock Iterator Format Block TableBuilder Compaction CompactionWork VersionSet VersionGc DbWrite Builder DbOpen.

#[local] Open Scope Z_scope.

(** [struct ManualCompaction]; the keys are internal keys. *)
Record ManualCompaction := mkManual { mc_level : nat; mc_done : bool; mc_begin : option bytes; mc_end : option bytes }.

Definition with_done (b : bool) (m : ManualCompaction) : ManualCompaction := mkManual (mc_level m) b (mc_begin m) (mc_end m).

(** A background call inside [DoCompactionWork]: its compaction, the version that
    the compaction holds, [is_manual] and [manual_end]. *)
Record Running := mkRunning { run_compaction : Compaction; run_input : nat; run_is_manual : bool; run_manual_end : bytes }.

(** [TEST_CompactRange] and [CompactRange]: the internal keys of a range of user
    keys, and the levels that are compacted, one after the other. *)
Definition newManual (level : nat) (begin_ end_ : option bytes) : ManualCompaction :=
  mkManual level false ((fun k => mkInternalKey k kMaxSequenceNumber kValueTypeForSeek) <$> begin_)
    ((fun k => mkInternalKey k 0 kTypeDeletion) <$> end_).

Definition max_level_with_files (user : Comparator) (base : Version) (begin_ end_ : option bytes) : nat :=
  fold_left (fun m level => if OverlapInLevel user base level begin_ end_ then level else m)
    (seq 1 (Z.to_nat kNumLevels - 1)) 1%nat.

Definition levels_to_compact (user : Comparator) (base : Version) (begin_ end_ : option bytes) : list nat :=
  seq 0 (max_level_with_files user base begin_ end_).

(** The edit of a trivial move. *)
Definition move_edit (c : Compaction) (f : FileMetaData) : VersionEdit :=
  AddFile (VersionEdit.DeleteFile (edit_ c) (Z.of_nat (level_ c)) (number f)) (Z.of_nat (level_ c) + 1) (number f)
    (file_size f) (smallest f) (largest f).

(** [manual_end]: the largest key of the last input of the level. *)
Definition last_input_key (c : Compaction) : bytes := default [] (largest <$> last (inputs_ c).1).

Section Background.
Context {E F : Type} `{!FileSystem E} `{!WritableFile F} `{!Checksum} `{!Snappy}.
Context (user : Comparator) (comparator_name dbname_ : bytes) (options : TableOptions) (max_file_size write_buffer_size MOD : Z).
Context (NewWritableFile : E -> bytes -> Status * F * E) (Close : F -> Status * F) (table_status : Z -> Z -> Status).
Context (GetChildren : E -> bytes -> Status * list bytes) (ApproximateMemoryUsage : option MemTable -> Z).

(** The members of [DBImpl] that the background work uses, and of the environment
    [compaction_awaiting] and the calls of [BGWork] that [Schedule] has taken. *)
Record BgState := mkBg {
  bg_db : DB F;
  bg_env : E;
  bg_pending : gset Z;                     (* pending_outputs_ *)
  bg_tables : list (Z * F);
  background_compaction_scheduled_ : bool;
  shutting_down_ : bool;
  manual_compaction_ : option nat;
  manuals : gmap nat ManualCompaction;
  compaction_awaiting : Z;
  queued : nat;
  running : list Running;
}.

Definition with_db (db : DB F) (env : E) (pending : gset Z) (tables : list (Z * F)) (st : BgState) : BgState :=
  mkBg db env pending tables (background_compaction_scheduled_ st) (shutting_down_ st) (manual_compaction_ st)
    (manuals st) (compaction_awaiting st) (queued st) (running st).
Definition on_db (db : DB F) (st : BgState) : BgState := with_db db (bg_env st) (bg_pending st) (bg_tables st) st.
Definition with_manual (p : option nat) (ms : gmap nat ManualCompaction) (st : BgState) : BgState :=
  mkBg (bg_db st) (bg_env st) (bg_pending st) (bg_tables st) (background_compaction_scheduled_ st) (shutting_down_ st) p
    ms (compaction_awaiting st) (queued st) (running st).
Definition with_schedule (scheduled : bool) (awaiting : Z) (q : nat) (st : BgState) : BgState :=
  mkBg (bg_db st) (bg_env st) (bg_pending st) (bg_tables st) scheduled (shutting_down_ st) (manual_compaction_ st)
    (manuals st) awaiting q (running st).
Definition with_running (l : list Running) (st : BgState) : BgState :=
  mkBg (bg_db st) (bg_env st) (bg_pending st) (bg_tables st) (background_compaction_scheduled_ st) (shutting_down_ st)
    (manual_compaction_ st) (manuals st) (compaction_awaiting st) (queued st) l.

Definition bg_versions (st : BgState) : VersionSet F := db_versions (bg_db st).

(** * Scheduling *)

Definition MaybeScheduleCompaction (st : BgState) : BgState :=
  if background_compaction_scheduled_ st then st
  else if shutting_down_ st then st
  else if negb (ok (db_bg_error (bg_db st))) then st
  else if bool_decide (db_imm (bg_db st) = None) && bool_decide (manual_compaction_ st = None) &&
          negb (NeedsCompaction (current (bg_versions st))) then st
  else with_schedule true (i32 (compaction_awaiting st + 1)) (S (queued st)) st.

(** The end of [BackgroundCall]. *)
Definition end_call (st : BgState) : BgState :=
  let st := with_schedule false (compaction_awaiting st) (queued st) st in
  let st := MaybeScheduleCompaction st in
  with_schedule (background_compaction_scheduled_ st) (i32 (compaction_awaiting st - 1)) (queued st) st.

(** * [BackgroundCompaction] *)

(** [Compaction] takes a reference on the current version, its destructor and
    [ReleaseInputs] give it back. *)
Definition hold_current (vs : VersionSet F) : VersionSet F := with_versions vs (Ref (current_ vs).1 (dummy_versions_ vs)).
Definition release_version (id : nat) (vs : VersionSet F) : VersionSet F := with_versions vs (Unref id (dummy_versions_ vs)).

(** What to compact: for the manual compaction, or what [PickCompaction] says. *)
Definition choose_compaction (st : BgState) : option (option Compaction * BgState) :=
  let vs := bg_versions st in
  let pick r (ms : gmap nat ManualCompaction) :=
    match r with
    | inl _ => (None, with_manual (manual_compaction_ st) ms st)
    | inr (c, ps) =>
        (Some c, with_manual (manual_compaction_ st) ms
                   (on_db (with_db_versions (hold_current (with_pointers vs ps)) (bg_db st)) st))
    end in
  match manual_compaction_ st with
  | Some i =>
      m ← manuals st !! i;
      r ← CompactRange user max_file_size (current vs) (vs_compact_pointer vs) (mc_level m) (mc_begin m) (mc_end m);
      Some (pick r (<[i := with_done (match r with inl _ => true | inr _ => false end) m]> (manuals st)))
  | None =>
      r ← PickCompaction user max_file_size (current vs) (vs_compact_pointer vs);
      Some (pick r (manuals st))
  end.

(** The end of [BackgroundCompaction]: what is left of the range, or done. *)
Definition finish_manual (is_manual : bool) (status : Status) (manual_end : bytes) (st : BgState) : option BgState :=
  if is_manual then
    i ← manual_compaction_ st;
    m ← manuals st !! i;
    let m := if ok status then m else with_done true m in
    let m := if mc_done m then m else mkManual (mc_level m) false (Some manual_end) (mc_end m) in
    Some (with_manual None (<[i := m]> (manuals st)) st)
  else Some st.

(** The file moves to the next level. *)
Definition trivial_move (c : Compaction) (st : BgState) : option (Status * BgState) :=
  match (inputs_ c).1 with
  | [f] =>
      let input := (current_ (bg_versions st)).1 in
      '(s, vs, env) ← LogAndApply user comparator_name dbname_ NewWritableFile (bg_versions st) (bg_env st) (move_edit c f);
      let db := with_db_versions vs (bg_db st) in
      let db := if ok s then db else RecordBackgroundError db s in
      let db := with_db_versions (release_version input (db_versions db)) db in
      Some (s, with_db db env (bg_pending st) (bg_tables st) st)
  | _ => None
  end.

(** The immutable memtable is written. *)
Definition compact_imm (wfuel : nat) (st : BgState) : option BgState :=
  '(db, _, pending, tables, env) ←
    CompactMemTable user comparator_name dbname_ options max_file_size NewWritableFile Close table_status GetChildren
      wfuel (shutting_down_ st) (bg_db st) (bg_pending st) (bg_tables st) (bg_env st);
  Some (with_db db env pending tables st).

(** [BackgroundCall], up to its end or to the release of the mutex in
    [DoCompactionWork]. *)
Definition BackgroundCall (wfuel : nat) (st : BgState) : option BgState :=
  if negb (background_compaction_scheduled_ st) then None
  else if shutting_down_ st || negb (ok (db_bg_error (bg_db st))) then Some (end_call st)
  else
    match db_imm (bg_db st) with
    | Some _ => st ← compact_imm wfuel st; Some (end_call st)
    | None =>
        let is_manual := bool_decide (is_Some (manual_compaction_ st)) in
        '(c, st) ← choose_compaction st;
        match c with
        | None => st ← finish_manual is_manual OK [] st; Some (end_call st)
        | Some c =>
            if negb is_manual && IsTrivialMove max_file_size c then
              '(_, st) ← trivial_move c st; Some (end_call st)
            else
              Some (with_running (mkRunning c (current_ (bg_versions st)).1 is_manual (last_input_key c) :: running st) st)
        end
    end.

(** The number of a new output ([OpenCompactionOutputFile]). *)
Definition new_output (st : BgState) : BgState :=
  let '(n, vs) := NewFileNumber (bg_versions st) in
  with_db (with_db_versions vs (bg_db st)) (bg_env st) ({[n]} ∪ bg_pending st) (bg_tables st) st.

(** The outputs are no longer pending. *)
Definition CleanupCompaction (cs : CompactionState F) (pending : gset Z) : gset Z := pending ∖ list_to_set (map out_number (outputs cs)).

(** From the end of the work in [DoCompactionWork] to the end of the call: the
    results are installed, [CleanupCompaction], [ReleaseInputs],
    [DeleteObsoleteFiles], and the manual compaction is told. *)
Definition finish_compaction (r : Running) (status : Status) (cs : CompactionState F) (st : BgState) : option BgState :=
  '(s, vs, env) ←
    (if ok status then
       LogAndApply user comparator_name dbname_ NewWritableFile (bg_versions st) (bg_env st) (InstallCompactionResults cs)
     else Some (status, bg_versions st, bg_env st));
  let db := with_db_versions vs (bg_db st) in
  let db := if ok s then db else RecordBackgroundError db s in
  let pending := CleanupCompaction cs (bg_pending st) in
  let db := with_db_versions (release_version (run_input r) (db_versions db)) db in
  let env := delete_files dbname_ GetChildren (db_versions db) (db_bg_error db) pending env in
  st ← finish_manual (run_is_manual r) s (run_manual_end r) (with_db db env pending (bg_tables st) st);
  Some (end_call st).

(** * The other threads *)

(** The loop of [TEST_CompactRange] goes on. *)
Definition manual_waits (i : nat) (st : BgState) : bool :=
  match manuals st !! i with
  | Some m => negb (mc_done m) && negb (shutting_down_ st) && ok (db_bg_error (bg_db st))
  | None => false
  end.

(** A turn of it, when no manual compaction is under way. *)
Definition manual_turn (i : nat) (st : BgState) : BgState := MaybeScheduleCompaction (with_manual (Some i) (manuals st) st).

(** The end of [TEST_CompactRange]: the record goes with the stack frame. *)
Definition manual_leave (i : nat) (st : BgState) : BgState :=
  with_manual (if bool_decide (manual_compaction_ st = Some i) then None else manual_compaction_ st) (delete i (manuals st)) st.

(** [TEST_CompactMemTable] after the write: waiting ([None]), or its status. *)
Definition TEST_CompactMemTable_wait (st : BgState) : option Status :=
  if bool_decide (db_imm (bg_db st) = None) then Some OK
  else if ok (db_bg_error (bg_db st)) then None else Some (db_bg_error (bg_db st)).

(** [DBImpl::RecordReadSample]: the current version is changed in place. *)
Definition DB_RecordReadSample (key : bytes) (st : BgState) : BgState :=
  let vs := bg_versions st in
  let v := (RecordReadSample user (current vs) key).2 in
  let id := (current_ vs).1 in
  let live := map (fun x => if (lv_id x =? id)%nat then mkLive id (lv_refs x) v else x) (dummy_versions_ vs) in
  on_db (with_db_versions
    (mkVersionSet (vs_next_file_number vs) (vs_manifest_file_number vs) (vs_last_sequence vs) (vs_log_number vs)
       (vs_prev_log_number vs) (descriptor_log_ vs) live (id, v) (next_id vs) (vs_compact_pointer vs)) (bg_db st)) st.

Definition shut_down (st : BgState) : BgState :=
  mkBg (bg_db st) (bg_env st) (bg_pending st) (bg_tables st) (background_compaction_scheduled_ st) true
    (manual_compaction_ st) (manuals st) (compaction_awaiting st) (queued st) (running st).

(** [CompactMemTable] of a given memtable, used in the destructor after the wait for
    the background work. *)
Definition CompactMemTable_at_close (wfuel : nat) (fresh_write : bool) (table : option (option MemTable)) (st : BgState) : option BgState :=
  match table with
  | None => Some st
  | Some table =>
      if negb fresh_write then Some st
      else
        m ← table;
        '(s, fl, env) ← WriteLevel0Table user options max_file_size dbname_ NewWritableFile Close table_status wfuel m
          (Some (current (bg_versions st))) (mkFlush (bg_versions st) newVersionEdit (bg_pending st) (bg_tables st)) (bg_env st);
        '(vs, env) ←
          (if ok s then
             '(_, vs, env) ← LogAndApply user comparator_name dbname_ NewWritableFile (fl_versions fl) env
               (SetLogNumber (SetPrevLogNumber (fl_edit fl) 0) (db_logfile_number (bg_db st)));
             Some (vs, env)
           else Some (fl_versions fl, env));
        Some (with_db (with_db_versions vs (bg_db st)) env (fl_pending fl) (fl_tables fl) st)
  end.

(** The destructor: [None] also while it waits. *)
Definition close_db (wfuel : nat) (fresh_write : bool) (st : BgState) : option BgState :=
  let st := shut_down st in
  if background_compaction_scheduled_ st then None
  else if 7 <=? MOD then
    st ← CompactMemTable_at_close wfuel fresh_write (db_imm (bg_db st)) st;
    CompactMemTable_at_close wfuel fresh_write (Some (db_mem (bg_db st))) st
  else Some st.

(** * The steps *)

Inductive bg_step : BgState -> BgState -> Prop :=
  (** a writer switches to a new memtable *)
  | step_switch force delay st db env :
      room_turn dbname_ write_buffer_size ApproximateMemoryUsage NewWritableFile force delay (bg_db st) (bg_env st) =
        Some (RoomSwitched db env) ->
      bg_step st (MaybeScheduleCompaction (with_db db env (bg_pending st) (bg_tables st) st))
  (** a group of writes is committed *)
  | step_commit sync updates switched st s db :
      commit user MOD (fun db => db) (bg_db st) sync updates switched = Some (s, db) -> bg_step st (on_db db st)
  (** an iterator samples a key *)
  | step_sample key st : bg_step st (DB_RecordReadSample key st)
  (** [TEST_CompactRange]: entered, a turn of its loop, left *)
  | step_manual_enter i level b e st : manuals st !! i = None ->
      bg_step st (with_manual (manual_compaction_ st) (<[i := newManual level b e]> (manuals st)) st)
  | step_manual_turn i st : manual_waits i st = true -> manual_compaction_ st = None -> bg_step st (manual_turn i st)
  | step_manual_leave i st : is_Some (manuals st !! i) -> manual_waits i st = false -> bg_step st (manual_leave i st)
  (** the environment starts a call that was scheduled *)
  | step_call wfuel n st st' : queued st = S n ->
      BackgroundCall wfuel (with_schedule (background_compaction_scheduled_ st) (compaction_awaiting st) n st) = Some st' ->
      bg_step st st'
  (** inside [DoCompactionWork]: the memtable is written, an output is opened *)
  | step_imm r wfuel st st' : r ∈ running st -> is_Some (db_imm (bg_db st)) -> compact_imm wfuel st = Some st' -> bg_step st st'
  | step_output r st : r ∈ running st -> bg_step st (new_output st)
  (** the work is done *)
  | step_finish l1 r l2 status cs st st' : running st = l1 ++ r :: l2 ->
      finish_compaction r status cs (with_running (l1 ++ l2) st) = Some st' -> bg_step st st'
  (** the destructor is called *)
  | step_shut_down st : bg_step st (shut_down st).

(** After [DB::Open], which does not schedule anything (its call of
    [MaybeScheduleCompaction] is commented out). *)
Definition opened (db : DB F) (env : E) (pending : gset Z) (tables : list (Z * F)) : BgState :=
  mkBg db env pending tables false false None ∅ 0 0 [].

(** The states that are reached from opening with the version [first]. *)
Inductive bg_reachable (first : nat) : BgState -> Prop :=
  | bg_start db env pending tables : db_imm db = None -> (current_ (db_versions db)).1 = first ->
      bg_reachable first (opened db env pending tables)
  | bg_next st st' : bg_reachable first st -> bg_step st st' -> bg_reachable first st'.
End Background.
