(* ===== verification/BackgroundProofs.v ===== *)
(** The background work (Background) as a transition system: at most one background
    call at a time, no work that is asked for is forgotten, and the record of a
    manual compaction is not used after it is gone; but a manual compaction that is
    given up while it is carried out makes the background call use a null pointer. *)

From stdpp Require Import base list option gmap sets strings.
From S2P Require Import Prelude Status Coding Crc32c Env Log Comparator DbFormat WriteBatch SkipList MemTable VersionEdit Version VersionBuilder Filename FilterBlock Iterator Format Block TableBuilder Compaction CompactionWork VersionSet VersionGc DbWrite Builder DbOpen Background.

#[local] Open Scope Z_scope.

Section Background.
Context {E F : Type} `{!FileSystem E} `{!WritableFile F} `{!Checksum} `{!Snappy}.
Context (user : Comparator) (comparator_name dbname_ : bytes) (options : TableOptions) (max_file_size write_buffer_size MOD : Z).
Context (NewWritableFile : E -> bytes -> Status * F * E) (Close : F -> Status * F) (table_status : Z -> Z -> Status).
Context (GetChildren : E -> bytes -> Status * list bytes) (ApproximateMemoryUsage : option MemTable -> Z).
(** The version that the database was opened with. *)
Context (first : nat).
#[local] Abbreviation BgState := (BgState (E := E) (F := F)).
#[local] Abbreviation step :=
  (bg_step user comparator_name dbname_ options max_file_size write_buffer_size MOD NewWritableFile Close table_status GetChildren ApproximateMemoryUsage).
#[local] Abbreviation reachable :=
  (bg_reachable user comparator_name dbname_ options max_file_size write_buffer_size MOD NewWritableFile Close table_status GetChildren ApproximateMemoryUsage first).
#[local] Abbreviation call := (BackgroundCall user comparator_name dbname_ options max_file_size NewWritableFile Close table_status GetChildren).
#[local] Abbreviation write_imm := (compact_imm user comparator_name dbname_ options max_file_size NewWritableFile Close table_status GetChildren).
#[local] Abbreviation finish := (finish_compaction user comparator_name dbname_ NewWritableFile GetChildren).

(** * The invariant *)

Definition healthy (st : BgState) : Prop := shutting_down_ st = false /\ ok (db_bg_error (bg_db st)) = true.

(** The work that the code schedules: a full memtable, a manual compaction, or a
    level that is too large in a version installed since the database was opened.
    [NeedsCompaction] asks for more, which may wait: a compaction that only reads
    have asked for is not scheduled when they do (the calls in [Get] and
    [RecordReadSample] are commented out), nor one that the version needs which the
    database was opened with (the call in [DB::Open] is commented out). *)
Definition has_work (st : BgState) : Prop :=
  db_imm (bg_db st) <> None \/ manual_compaction_ st <> None \/
  (score_reached (current (bg_versions st)) = true /\ (current_ (bg_versions st)).1 <> first).

Record bg_core (st : BgState) : Prop := {
  bc_one : (queued st + length (running st))%nat = if background_compaction_scheduled_ st then 1%nat else 0%nat;
  bc_awaiting : compaction_awaiting st = if background_compaction_scheduled_ st then 1 else 0;
  bc_pointer i : manual_compaction_ st = Some i -> is_Some (manuals st !! i);
  bc_manual r : r ∈ running st -> run_is_manual r = true -> healthy st ->
    exists i m, manual_compaction_ st = Some i /\ manuals st !! i = Some m /\ mc_done m = false;
}.

Record bg_inv (st : BgState) : Prop := {
  bi_core : bg_core st;
  bi_work : healthy st -> has_work st -> background_compaction_scheduled_ st = true;
}.

(** ** Scheduling *)

Lemma schedule_idle (st : BgState) : background_compaction_scheduled_ (MaybeScheduleCompaction st) = false ->
  MaybeScheduleCompaction st = st /\ (healthy st -> ~ has_work st).
Proof.
  unfold MaybeScheduleCompaction, healthy, has_work. destruct (background_compaction_scheduled_ st) eqn:E1; [congruence|].
  destruct (shutting_down_ st) eqn:E2; [intros _; split; [done|by intros [] ]|]. destruct (ok _) eqn:E3; cbn [negb]; [|intros _; split; [done|by intros [] ]].
  destruct (bool_decide (db_imm (bg_db st) = None)) eqn:E4; cbn [andb]; [|intros Ex; by cbn in Ex].
  destruct (bool_decide (manual_compaction_ st = None)) eqn:E5; cbn [andb]; [|intros Ex; by cbn in Ex].
  apply bool_decide_eq_true in E4, E5. unfold NeedsCompaction, score_reached.
  destruct (_ <=? _); cbn [orb negb]; [intros Ex; by cbn in Ex|]. destruct (file_to_compact_ _); cbn [negb]; [intros Ex; by cbn in Ex|].
  intros _. split; [done|]. intros _ [?|[?|[? _]]]; congruence.
Qed.

Lemma schedule_fields (st : BgState) : let st' := MaybeScheduleCompaction st in
  bg_db st' = bg_db st /\ shutting_down_ st' = shutting_down_ st /\ manual_compaction_ st' = manual_compaction_ st /\
  manuals st' = manuals st /\ running st' = running st.
Proof. unfold MaybeScheduleCompaction. repeat case_match; done. Qed.

Lemma schedule_counts (st : BgState) : let st' := MaybeScheduleCompaction st in
  (queued st' = queued st /\ compaction_awaiting st' = compaction_awaiting st /\
   background_compaction_scheduled_ st' = background_compaction_scheduled_ st) \/
  (background_compaction_scheduled_ st = false /\ background_compaction_scheduled_ st' = true /\
   queued st' = S (queued st) /\ compaction_awaiting st' = i32 (compaction_awaiting st + 1)).
Proof. unfold MaybeScheduleCompaction. destruct (background_compaction_scheduled_ st) eqn:Es0; [by left|]. repeat case_match; auto. Qed.

(** The invariant after a call of [MaybeScheduleCompaction]. *)
Lemma schedule_inv st : bg_core st -> bg_inv (MaybeScheduleCompaction st).
Proof.
  intros [H1 H2 H3 H4]. pose proof (schedule_fields st) as (F1 & F2 & F3 & F4 & F5). split.
  - destruct (schedule_counts st) as [(C1 & C2 & C3)|(C0 & C3 & C1 & C2)];
      (split; [rewrite C1, C3, F5|rewrite C2, C3|rewrite F3, F4|rewrite F3, F4, F5; unfold healthy; rewrite F1, F2]); try done.
    + rewrite C0 in H1. lia.
    + by rewrite H2, C0.
  - intros Hh Hw. destruct (background_compaction_scheduled_ (MaybeScheduleCompaction st)) eqn:Es0; [done|].
    destruct (schedule_idle st Es0) as [Es Hn]. rewrite Es in Hh, Hw. by destruct (Hn Hh).
Qed.

(** The invariant at the end of a call: the state when nothing else runs. *)
Definition alone (st : BgState) : Prop :=
  queued st = 0%nat /\ running st = [] /\ compaction_awaiting st = 1 /\ forall i, manual_compaction_ st = Some i -> is_Some (manuals st !! i).

Lemma end_call_inv st : alone st -> bg_inv (end_call st).
Proof.
  intros (Hq & Hr & Ha & Hp). set (st1 := with_schedule false (compaction_awaiting st) (queued st) st).
  assert (Hc : bg_core (with_schedule false 0 (queued st) st)).
  { split; cbn [with_schedule queued running background_compaction_scheduled_ compaction_awaiting manual_compaction_ manuals];
      [by rewrite Hq, Hr|done|done|]. intros r Hin. rewrite Hr in Hin. by apply elem_of_nil in Hin. }
  pose proof (schedule_inv _ Hc) as Hi.
  assert (Heq : end_call st = MaybeScheduleCompaction (with_schedule false 0 (queued st) st)); [|by rewrite Heq].
  unfold end_call, MaybeScheduleCompaction, with_schedule, bg_versions. cbn [background_compaction_scheduled_ shutting_down_ bg_db db_bg_error manual_compaction_ compaction_awaiting queued].
  rewrite Ha. repeat case_match; done.
Qed.
(** ** The database under the steps *)

Lemma record_error_bad (db : DB F) s : ok s = false -> ok (db_bg_error (RecordBackgroundError db s)) = false.
Proof. intros Hs. unfold RecordBackgroundError. by destruct (ok (db_bg_error db)) eqn:Ee. Qed.

(** Writing the memtable does not repair an error. *)
Lemma compact_imm_fields wfuel st st' : write_imm wfuel st = Some st' ->
  queued st' = queued st /\ running st' = running st /\ compaction_awaiting st' = compaction_awaiting st /\
  background_compaction_scheduled_ st' = background_compaction_scheduled_ st /\ manual_compaction_ st' = manual_compaction_ st /\
  manuals st' = manuals st /\ (healthy st' -> healthy st).
Proof.
  unfold compact_imm. destruct (CompactMemTable _ _ _ _ _ _ _ _ _ _ _ _ _ _ _) as [[[[[db lv] pd] tb] env]|] eqn:Ec; [|done].
  cbn [mbind option_bind]. intros [= <-]. do 6 (split; [done|]). unfold healthy. cbn [with_db shutting_down_ bg_db]. intros [Hs Ho]. split; [done|].
  revert Ec. unfold CompactMemTable. destruct (db_imm (bg_db st)) as [[m|]|]; [|done..]. cbn [mbind option_bind].
  destruct (WriteLevel0Table _ _ _ _ _ _ _ _ _ _ _) as [[[s fl] env1]|]; [|done]. cbn [mbind option_bind].
  set (s1 := if ok s && shutting_down_ st then _ else _). destruct (if ok s1 then LogAndApply _ _ _ _ _ _ _ else _) as [[[s2 vs] env2]|]; [|done]. cbn [mbind option_bind].
  destruct (ok s2) eqn:E2; cbn [fst snd]; (destruct (head _) as [[lv' f]|]; [|done]); cbn [mbind option_bind]; intros [= <- _ _ _ _]; [done|].
  by rewrite (record_error_bad _ _ E2) in Ho.
Qed.

Lemma commit_fields db sync updates switched s db' : commit user MOD (fun db => db) db sync updates switched = Some (s, db') ->
  db_imm db' = db_imm db /\ db_bg_error db' = db_bg_error db /\ current_ (db_versions db') = current_ (db_versions db).
Proof.
  unfold commit. destruct (log_updates _ _ _ _) as [s1 log]. destruct (if ok s1 then InsertInto _ _ else _) as [s2 mem].
  unfold vs_SetLastSequence. cbn [db_versions]. destruct (_ <=? _); [|done]. cbn [mbind option_bind]. by intros [= _ <-].
Qed.

Lemma room_switch_fields force delay (db db' : DB F) (env env' : E) :
  room_turn dbname_ write_buffer_size ApproximateMemoryUsage NewWritableFile force delay db env = Some (RoomSwitched db' env') ->
  db_bg_error db' = db_bg_error db.
Proof.
  unfold room_turn. destruct (negb (ok _)); [done|]. destruct (_ && _); [done|]. destruct (_ && _); [done|]. destruct (db_imm db); [done|].
  destruct (_ <=? _); [done|]. unfold switch_memtable. destruct (negb _); [done|]. destruct (NewFileNumber _) as [n vs].
  destruct (NewWritableFile _ _) as [[s f] env1]. destruct (negb (ok s)); [done|]. by intros [= <- _].
Qed.

Lemma sample_score v key : score_reached (RecordReadSample user v key).2 = score_reached v.
Proof.
  unfold RecordReadSample. destruct (ParseInternalKey key); [|done]. destruct (ForEachOverlapping _ _ _ _ _ _) as [stats n]. destruct (2 <=? n); [|done].
  unfold UpdateStats. destruct stats as [[f level]|]; [|done]. destruct (file_to_compact_ v); [done|]. by destruct (_ <=? 0).
Qed.

(** ** The steps *)

(** A change of the database that asks for no work. *)
Lemma quiet_inv st db : bg_inv st -> db_bg_error db = db_bg_error (bg_db st) -> db_imm db = db_imm (bg_db st) ->
  score_reached (current (db_versions db)) = score_reached (current (bg_versions st)) -> (current_ (db_versions db)).1 = (current_ (bg_versions st)).1 ->
  forall env pending tables, bg_inv (with_db db env pending tables st).
Proof.
  intros [[H1 H2 H3 H4] Hw] He Hi Hs Hid env pending tables. split; [split; try done|];
    unfold healthy, has_work, bg_versions in *; cbn [with_db bg_db shutting_down_ manual_compaction_ background_compaction_scheduled_]; by rewrite He, ?Hi, ?Hs, ?Hid.
Qed.

Lemma switch_core st db : bg_core st -> db_bg_error db = db_bg_error (bg_db st) -> forall env pending tables, bg_core (with_db db env pending tables st).
Proof. intros [H1 H2 H3 H4] He env pending tables. split; try done. unfold healthy in *. cbn [with_db bg_db shutting_down_ manual_compaction_ running]. by rewrite He. Qed.

Lemma enter_inv st i level b e : bg_inv st -> manuals st !! i = None ->
  bg_inv (with_manual (manual_compaction_ st) (<[i := newManual level b e]> (manuals st)) st).
Proof.
  intros [[H1 H2 H3 H4] Hw] Hi. split; [split; try done|done]; cbn [with_manual manual_compaction_ manuals running].
  - intros j Hj. destruct (decide (i = j)) as [->|Hne]; [rewrite lookup_insert_eq; by eexists|]. rewrite lookup_insert_ne by done. by apply H3.
  - intros r Hr Hm Hh. destruct (H4 r Hr Hm Hh) as (j & m & Hj & Hmj & Hd). exists j, m. split; [done|]. split; [|done].
    rewrite lookup_insert_ne; [done|]. intros ->. congruence.
Qed.

Lemma turn_inv st i : bg_inv st -> manual_waits i st = true -> manual_compaction_ st = None -> bg_inv (manual_turn i st).
Proof.
  intros [[H1 H2 H3 H4] Hw] Hi Hn. apply schedule_inv. split; try done; cbn [with_manual manual_compaction_ manuals running].
  - intros j [= <-]. unfold manual_waits in Hi. destruct (manuals st !! i); [by eexists|done].
  - intros r Hr Hm Hh. destruct (H4 r Hr Hm Hh) as (j & m & Hj & _). congruence.
Qed.

Lemma leave_inv st i : bg_inv st -> manual_waits i st = false -> bg_inv (manual_leave i st).
Proof.
  intros [[H1 H2 H3 H4] Hw] Hi. unfold manual_leave. split; [split; try done|]; cbn [with_manual manual_compaction_ manuals running].
  - intros j Hj. destruct (decide (manual_compaction_ st = Some i)) as [E1|E1]; [by rewrite bool_decide_true in Hj|]. rewrite bool_decide_false in Hj by done.
    rewrite lookup_delete_ne by congruence. by apply H3.
  - intros r Hr Hm Hh. destruct (H4 r Hr Hm Hh) as (j & m & Hj & Hmj & Hd). destruct (decide (i = j)) as [->|Hne].
    + exfalso. destruct Hh as [Hs Ho]. unfold manual_waits in Hi. rewrite Hmj, Hd in Hi. cbn [with_manual shutting_down_ bg_db] in Hs, Ho. by rewrite Hs, Ho in Hi.
    + exists j, m. rewrite bool_decide_false by congruence. by rewrite lookup_delete_ne.
  - unfold healthy, has_work, bg_versions in *. cbn [with_manual shutting_down_ bg_db manual_compaction_ background_compaction_scheduled_].
    intros Hh [?|[Hm|?]]; [apply Hw; auto| |apply Hw; auto]. apply Hw; [done|]. right. left. by destruct (bool_decide _).
Qed.

(** The state with which a scheduled call begins. *)
Lemma queued_alone st n : bg_inv st -> queued st = S n ->
  let st0 := with_schedule (background_compaction_scheduled_ st) (compaction_awaiting st) n st in
  alone st0 /\ background_compaction_scheduled_ st0 = true.
Proof.
  intros [[H1 H2 H3 H4] _] Hq. rewrite Hq in H1. destruct (background_compaction_scheduled_ st); [|lia].
  unfold alone. cbn [with_schedule queued running compaction_awaiting manual_compaction_ manuals background_compaction_scheduled_].
  split; [|done]. split; [lia|]. split; [destruct (running st); [done|simpl in H1; lia]|]. done.
Qed.

Lemma finish_manual_alone is_manual s k st st' : alone st -> finish_manual is_manual s k st = Some st' -> alone st'.
Proof.
  intros (A1 & A2 & A3 & A4). unfold finish_manual. destruct is_manual; [|by intros [= <-]].
  destruct (manual_compaction_ st) as [i|]; [|done]. cbn [mbind option_bind]. destruct (manuals st !! i) as [m|]; [|done]. cbn [mbind option_bind].
  intros [= <-]. by split_and!.
Qed.

Lemma choose_alone st c st' : alone st -> choose_compaction user max_file_size st = Some (c, st') ->
  alone st' /\ manual_compaction_ st' = manual_compaction_ st /\ shutting_down_ st' = shutting_down_ st /\
  background_compaction_scheduled_ st' = background_compaction_scheduled_ st /\
  (forall i, is_Some c -> manual_compaction_ st = Some i -> exists m, manuals st' !! i = Some m /\ mc_done m = false).
Proof.
  intros (A1 & A2 & A3 & A4). unfold choose_compaction. destruct (manual_compaction_ st) as [i|] eqn:Ei.
  - destruct (manuals st !! i) as [m|] eqn:Em; [|done]. cbn [mbind option_bind]. destruct (CompactRange _ _ _ _ _ _ _) as [[[]|[c' ps]]|]; [| |done]; cbn [mbind option_bind]; intros [= <- <-];
      (split; [unfold alone; cbn [with_manual on_db with_db queued running compaction_awaiting manual_compaction_ manuals]; split_and!; try done; intros j [= <-]; rewrite lookup_insert_eq; by eexists|]);
      (split; [done|]); (split; [done|]); (split; [done|]); intros j Hc [= <-]; cbn [with_manual manuals on_db with_db].
    + by destruct Hc.
    + rewrite lookup_insert_eq. by eexists.
  - destruct (PickCompaction _ _ _ _) as [[[]|[c' ps]]|]; [| |done]; cbn [mbind option_bind]; intros [= <- <-]; (split; [by split_and!|]); done.
Qed.

Lemma call_inv st n wfuel st' : bg_inv st -> queued st = S n ->
  call wfuel (with_schedule (background_compaction_scheduled_ st) (compaction_awaiting st) n st) = Some st' -> bg_inv st'.
Proof.
  intros Hi Hq. destruct (queued_alone st n Hi Hq) as [Ha Hs]. set (st0 := with_schedule _ _ n st) in *. clearbody st0.
  unfold BackgroundCall. rewrite Hs. cbn [negb]. destruct (_ || _); [intros [= <-]; by apply end_call_inv|].
  destruct (db_imm (bg_db st0)) as [imm|] eqn:Em.
  - destruct (write_imm wfuel st0) as [st1|] eqn:Ec; [|done]. cbn [mbind option_bind]. intros [= <-]. apply end_call_inv.
    destruct (compact_imm_fields wfuel st0 st1 Ec) as (F1 & F2 & F3 & _ & F5 & F6 & _). unfold alone. rewrite F1, F2, F3, F5, F6. exact Ha.
  - destruct (choose_compaction user max_file_size st0) as [[c st1]|] eqn:Ec; [|done]. cbn [mbind option_bind].
    destruct (choose_alone st0 c st1 Ha Ec) as (Ha1 & Ep & _ & Es & Hd). destruct c as [c|].
    + destruct (negb _ && _).
      * destruct (trivial_move _ _ _ _ c st1) as [[s st2]|] eqn:Et; [|done]. cbn [mbind option_bind]. intros [= <-]. apply end_call_inv.
        revert Et. unfold trivial_move. destruct ((inputs_ c).1) as [|f [|]]; [done| |done]. destruct (LogAndApply _ _ _ _ _ _ _) as [[[s1 vs] env]|]; [|done].
        cbn [mbind option_bind]. intros [= _ <-]. exact Ha1.
      * intros [= <-]. destruct Ha1 as (A1 & A2 & A3 & A4). split; [split|]; cbn [with_running queued running background_compaction_scheduled_ compaction_awaiting manual_compaction_ manuals].
        -- by rewrite A1, A2, Es, Hs.
        -- by rewrite A3, Es, Hs.
        -- done.
        -- intros r Hr Hm _. rewrite A2 in Hr. apply list_elem_of_singleton in Hr as ->. cbn [run_is_manual] in Hm. apply bool_decide_eq_true in Hm as [i Hm].
           destruct (Hd i ltac:(by eexists) Hm) as (m & Hmi & Hdn). exists i, m. rewrite Ep. done.
        -- intros _ _. by rewrite Es.
    + destruct (finish_manual _ OK [] st1) as [st2|] eqn:Ef; [|done]. cbn [mbind option_bind]. intros [= <-]. apply end_call_inv. by eapply finish_manual_alone.
Qed.

Lemma running_alone st l1 r l2 : bg_inv st -> running st = l1 ++ r :: l2 -> alone (with_running (l1 ++ l2) st).
Proof.
  intros [[H1 H2 H3 H4] _] Hr. rewrite Hr, length_app in H1. cbn [length] in H1. destruct (background_compaction_scheduled_ st); [|lia].
  unfold alone. cbn [with_running queued running compaction_awaiting manual_compaction_ manuals]. split; [lia|]. split; [|done].
  destruct l1; [|simpl in H1; lia]. destruct l2; [done|simpl in H1; lia].
Qed.

Lemma finish_inv st l1 r l2 status cs st' : bg_inv st -> running st = l1 ++ r :: l2 ->
  finish r status cs (with_running (l1 ++ l2) st) = Some st' -> bg_inv st'.
Proof.
  intros Hi Hr. pose proof (running_alone st l1 r l2 Hi Hr) as Ha. set (st0 := with_running _ st) in *. clearbody st0.
  unfold finish_compaction. destruct (if ok status then _ else _) as [[[s vs] env]|]; [|done]. cbn [mbind option_bind].
  destruct (finish_manual _ _ _ _) as [st1|] eqn:Ef; [|done]. cbn [mbind option_bind]. intros [= <-]. apply end_call_inv.
  eapply finish_manual_alone; [|exact Ef]. exact Ha.
Qed.

Lemma imm_inv st r wfuel st' : bg_inv st -> r ∈ running st -> write_imm wfuel st = Some st' -> bg_inv st'.
Proof.
  intros [[H1 H2 H3 H4] Hw] Hr Hc. destruct (compact_imm_fields wfuel st st' Hc) as (F1 & F2 & F3 & F4 & F5 & F6 & F7).
  assert (Hs : background_compaction_scheduled_ st = true).
  { destruct (background_compaction_scheduled_ st); [done|]. destruct (running st); [by apply elem_of_nil in Hr|simpl in H1; lia]. }
  split; [split; rewrite ?F1, ?F2, ?F3, ?F4, ?F5, ?F6; try done|rewrite F4; done]. intros r' Hr' Hm Hh. apply (H4 r'); [done|done|by apply F7].
Qed.

Lemma bg_step_inv st st' : step st st' -> bg_inv st -> bg_inv st'.
Proof.
  intros Hst Hi. destruct Hst as [force delay st db env Er|sync updates switched st s db Ec|key st|i level b e st Hn|i st Hwt Hn|i st _ Hwt|wfuel n st st' Hq Ec|r wfuel st st' Hr _ Ec|r st Hr|l1 r l2 status cs st st' Hr Ef|st].
  - apply schedule_inv, switch_core; [apply Hi|by eapply room_switch_fields].
  - destruct (commit_fields _ _ _ _ _ _ Ec) as (E1 & E2 & E3). apply quiet_inv; [done|done|done|unfold current; by rewrite E3|by rewrite E3].
  - apply quiet_inv; [done|done|done| |done]. unfold current at 1. cbn [with_db_versions db_versions current_ snd]. apply sample_score.
  - by apply enter_inv.
  - by apply turn_inv.
  - by apply leave_inv.
  - by eapply call_inv.
  - by eapply imm_inv.
  - by apply quiet_inv.
  - by eapply finish_inv.
  - destruct Hi as [[H1 H2 H3 H4] Hw]. split; [split; try done|]; [intros r _ _ [? _]; done|by intros [? _]].
Qed.

Lemma bg_reachable_inv st : reachable st -> bg_inv st.
Proof.
  induction 1 as [db env pending tables Hi Hf|st st' _ IH Hst]; [|by eapply bg_step_inv]. split; [split; try done; intros r Hr; by apply elem_of_nil in Hr|].
  intros _ [Hw|[Hw|[_ Hw]]]; done.
Qed.

(** ** What the invariant gives *)

(** A call that carries out a manual compaction can end while nothing has failed. *)
Lemma finish_manual_some st r status k : bg_core st -> r ∈ running st -> healthy st ->
  forall l db env pending tables, is_Some (finish_manual (run_is_manual r) status k (with_db db env pending tables (with_running l st))).
Proof.
  intros Hc Hr Hh l db env pending tables. unfold finish_manual. destruct (run_is_manual r) eqn:Er; [|by eexists].
  destruct (bc_manual st Hc r Hr Er Hh) as (i & m & Hi & Hm & _). cbn [with_db with_running manual_compaction_ manuals].
  rewrite Hi. cbn [mbind option_bind]. rewrite Hm. by eexists.
Qed.

(** After the destructor has seen that no call is scheduled none is again. *)
Definition closed (st : BgState) : Prop := shutting_down_ st = true /\ background_compaction_scheduled_ st = false.

Lemma schedule_closed st : closed st -> closed (MaybeScheduleCompaction st).
Proof. intros [H1 H2]. unfold MaybeScheduleCompaction. rewrite H2, H1. by split. Qed.

Lemma step_closed st st' : bg_inv st -> closed st -> step st st' -> closed st'.
Proof.
  intros [Hc _] Hcl Hst. pose proof (bc_one st Hc) as H1. destruct Hcl as [Hs Hb]. rewrite Hb in H1.
  assert (Hrun : forall r, r ∈ running st -> False) by (intros r Hr; destruct (running st); [by apply elem_of_nil in Hr|simpl in H1; lia]).
  destruct Hst as [force delay st db env Er|sync updates switched st s db Ec|key st|i level b e st Hn|i st Hwt Hn|i st _ Hwt|wfuel n st st' Hq Ec|r wfuel st st' Hr _ Ec|r st Hr|l1 r l2 status cs st st' Hr Ef|st];
    try (by split); try (by apply schedule_closed); [lia|exfalso..].
  - by apply (Hrun r).
  - apply (Hrun r). rewrite Hr. apply elem_of_app. right. by left.
Qed.

(** C6: the schedule of the background work.  In every state that writers, readers,
    manual compactions, background calls and the destructor can reach, in any
    interleaving: at most one background call is queued or running, and the flag
    says whether there is one; the environment's counter of waiting compactions
    agrees; while no background error is recorded and the database is not being
    closed, a full memtable, a manual compaction, or a level that is too large in a
    version installed since the database was opened, never waits without a call (a
    compaction that only reads asked for, or that the version opened with needs, may
    wait: the code does not schedule it); [manual_compaction_] never points
    to a record that is gone, and while nothing has failed the call that carries it
    out finds it at its end; and when the destructor has waited for the flag, no
    step sets it again. *)
Theorem background_schedule_invariant st : reachable st ->
  (queued st + length (running st))%nat = (if background_compaction_scheduled_ st then 1%nat else 0%nat) /\
  compaction_awaiting st = (if background_compaction_scheduled_ st then 1 else 0) /\
  (healthy st -> has_work st -> background_compaction_scheduled_ st = true) /\
  (forall i, manual_compaction_ st = Some i -> is_Some (manuals st !! i)) /\
  (forall r status k db env pending tables, healthy st -> r ∈ running st ->
     is_Some (finish_manual (run_is_manual r) status k (with_db db env pending tables (with_running [] st)))) /\
  (closed st -> forall st', step st st' -> closed st').
Proof.
  intros Hre. pose proof (bg_reachable_inv st Hre) as Hi. pose proof Hi as [Hc Hw]. split; [apply Hc|]. split; [apply Hc|]. split; [exact Hw|]. split; [apply Hc|]. split.
  - intros r status k db env pending tables Hh Hr. by apply finish_manual_some.
  - intros Hcl st' Hst. by eapply step_closed.
Qed.

(** ** A manual compaction that is given up *)

(** The end of the call dereferences [manual_compaction_]. *)
Lemma finish_without_manual r status cs st : run_is_manual r = true -> manual_compaction_ st = None -> finish r status cs st = None.
Proof.
  intros Hm Hn. unfold finish_compaction. destruct (if ok status then _ else _) as [[[s vs] env]|]; [|done]. cbn [mbind option_bind].
  unfold finish_manual. rewrite Hm. cbn [with_db manual_compaction_]. by rewrite Hn.
Qed.

End Background.

(** * An execution *)

(** A file whose appends fail when its disk is full. *)
Record disk_file := mkDisk { disk_full : bool; disk_data : bytes }.
#[local] Instance disk_writable : WritableFile disk_file := {|
  wAppend f d := if disk_full f then (IOError (str "disk full") [], f) else (OK, mkDisk false (disk_data f ++ d));
  wFlush f := (OK, f);
  wSync f := (OK, f);
|}.
#[local] Existing Instance no_fs.
#[local] Existing Instance no_snappy.
#[local] Instance run_checksum : Checksum := crc32c_checksum 0.

Definition run_key (u : bytes) (s : Z) : bytes := mkInternalKey u s kTypeValue.

(** A file of level 1, a memtable with one entry, and the disk of the MANIFEST is
    full. *)
Definition run_version : Version :=
  mkVersion [[]; [newFileMetaData 4 1000 (run_key (str "a") 3) (run_key (str "c") 2)]; []; []; []; []; []] None (-1) (0, 1) 1.
Definition run_mem : option MemTable := MemTable.Ref <$> MemTable.add_all BytewiseComparator [mkUpdate 7 kTypeValue (str "k") (str "v")].
Definition run_db : DB disk_file :=
  mkDB run_mem None (newWriter (mkDisk false [])) 5
    (mkVersionSet 8 2 7 3 0 (Some (newWriter (mkDisk true []))) [mkLive 0 1 run_version] (0%nat, run_version) 1 (replicate 7 []))
    [] WriteBatch.Clear OK [].

Definition run_new (env : unit) (name : bytes) : Status * disk_file * unit := (OK, mkDisk false [], env).
#[local] Abbreviation run_step :=
  (bg_step BytewiseComparator (str "cmp") (str "db") flush_options 2000000 4000000 0 run_new (fun f => (OK, f)) (fun _ _ => OK) (fun _ _ => (OK, [])) (fun _ => 0)).
#[local] Abbreviation run_reachable :=
  (bg_reachable BytewiseComparator (str "cmp") (str "db") flush_options 2000000 4000000 0 run_new (fun f => (OK, f)) (fun _ _ => OK) (fun _ _ => (OK, [])) (fun _ => 0) 0%nat).
#[local] Abbreviation run_finish := (finish_compaction BytewiseComparator (str "cmp") (str "db") run_new (fun _ _ => (OK, []))).

(** A manual compaction begins, and its background call; a writer switches to a new
    memtable; the call writes the old one and cannot note it in the MANIFEST; the
    caller sees the error and leaves. *)
Definition run_0 : BgState := opened run_db tt ∅ [].
Definition run_1 : BgState := with_manual None (<[0%nat := newManual 1 None None]> (manuals run_0)) run_0.
Definition run_2 : BgState := manual_turn 0 run_1.
Definition run_3 : option BgState :=
  BackgroundCall BytewiseComparator (str "cmp") (str "db") flush_options 2000000 run_new (fun f => (OK, f)) (fun _ _ => OK) (fun _ _ => (OK, [])) 10
    (with_schedule (background_compaction_scheduled_ run_2) (compaction_awaiting run_2) 0 run_2).
Definition run_4 (st : BgState) : option BgState :=
  r ← room_turn (str "db") 4000000 (fun _ => 0) run_new true false (bg_db st) (bg_env st);
  match r with
  | RoomSwitched db env => Some (MaybeScheduleCompaction (with_db db env (bg_pending st) (bg_tables st) st))
  | _ => None
  end.
Definition run_5 (st : BgState) : option BgState :=
  compact_imm BytewiseComparator (str "cmp") (str "db") flush_options 2000000 run_new (fun f => (OK, f)) (fun _ _ => OK) (fun _ _ => (OK, [])) 10 st.

Lemma run_1_reachable : run_reachable run_1.
Proof. apply (bg_next _ _ _ _ _ _ _ _ _ _ _ _ _ run_0); [by apply bg_start|]. apply (step_manual_enter _ _ _ _ _ _ _ _ _ _ _ _ 0 1 None None run_0). reflexivity. Qed.

Lemma run_2_reachable : run_reachable run_2.
Proof. apply (bg_next _ _ _ _ _ _ _ _ _ _ _ _ _ run_1); [exact run_1_reachable|]. apply step_manual_turn; vm_compute; reflexivity. Qed.

Lemma run_3_reachable st : run_3 = Some st -> run_reachable st.
Proof. intros E3. apply (bg_next _ _ _ _ _ _ _ _ _ _ _ _ _ run_2); [exact run_2_reachable|]. apply (step_call _ _ _ _ _ _ _ _ _ _ _ _ 10 0); [vm_compute; reflexivity|exact E3]. Qed.

Lemma run_4_reachable st st' : run_reachable st -> run_4 st = Some st' -> run_reachable st'.
Proof.
  intros Hre. unfold run_4. destruct (room_turn _ _ _ _ _ _ _ _) as [r|] eqn:Er; [|done]. cbn [mbind option_bind]. destruct r as [| | |db env]; try done.
  intros [= <-]. apply (bg_next _ _ _ _ _ _ _ _ _ _ _ _ _ st); [exact Hre|]. by apply (step_switch _ _ _ _ _ _ _ _ _ _ _ _ true false).
Qed.

Lemma run_5_reachable st st' r : run_reachable st -> r ∈ running st -> is_Some (db_imm (bg_db st)) -> run_5 st = Some st' -> run_reachable st'.
Proof. intros Hre Hr Hi E5. apply (bg_next _ _ _ _ _ _ _ _ _ _ _ _ _ st); [exact Hre|]. by apply (step_imm _ _ _ _ _ _ _ _ _ _ _ _ r 10). Qed.

(** What the run shows of a state. *)
Definition run_view (st : BgState (E := unit) (F := disk_file)) : list bool * bool * bool * bool * option nat :=
  (map run_is_manual (running st), bool_decide (is_Some (db_imm (bg_db st))), manual_waits 0 st, bool_decide (is_Some (manuals st !! 0%nat)), manual_compaction_ st).

Lemma run_views :
  (st3 ← run_3; st4 ← run_4 st3; st5 ← run_5 st4; Some (run_view st3, run_view st4, run_view st5)) =
  Some (([true], false, true, true, Some 0%nat), ([true], true, true, true, Some 0%nat), ([true], true, false, true, Some 0%nat)).
Proof. vm_compute. reflexivity. Qed.

(** C7: a manual compaction that is given up takes the database with it.  While the
    background call of a manual compaction works with the mutex released, writing
    the immutable memtable inside [DoCompactionWork] can fail; the error ends the
    loop of [TEST_CompactRange], which sets [manual_compaction_] to null and returns.
    However the compaction itself ends, the background call then dereferences the
    null pointer. *)
Theorem abandoned_manual_crashes : exists st r, run_reachable st /\ running st = [r] /\ run_is_manual r = true /\
  manual_compaction_ st = None /\ forall status cs, run_finish r status cs (with_running [] st) = None.
Proof.
  pose proof run_views as Hrun. destruct run_3 as [st3|] eqn:E3; [|done]. cbn [mbind option_bind] in Hrun.
  destruct (run_4 st3) as [st4|] eqn:E4; [|done]. cbn [mbind option_bind] in Hrun. destruct (run_5 st4) as [st5|] eqn:E5; [|done]. cbn [mbind option_bind] in Hrun.
  unfold run_view in Hrun. injection Hrun as _ _ _ _ _ Hr4 Hi4 _ _ _ Hr5 _ Hw5 Hm5 Hp5.
  apply bool_decide_eq_true in Hi4, Hm5. destruct (running st5) as [|r [|]] eqn:Er; [done| |done]. injection Hr5 as Hr.
  pose proof (run_4_reachable st3 st4 (run_3_reachable st3 E3) E4) as R4.
  assert (R5 : run_reachable st5).
  { destruct (running st4) as [|r4 [|]] eqn:Er4; [done| |done]. apply (run_5_reachable st4 st5 r4 R4); [rewrite Er4; by left|exact Hi4|exact E5]. }
  assert (Hnull : manual_compaction_ (manual_leave 0 st5) = None) by (unfold manual_leave; cbn [with_manual manual_compaction_]; by rewrite Hp5).
  exists (manual_leave 0 st5), r. split.
  { apply (bg_next _ _ _ _ _ _ _ _ _ _ _ _ _ st5); [exact R5|]. by apply step_manual_leave. }
  split; [exact Er|]. split; [exact Hr|]. split; [exact Hnull|]. intros status cs. by apply finish_without_manual.
Qed.

Lemma background_schedule_invariant_witness : exists st r, run_3 = Some st /\ running st = [r] /\ run_is_manual r = true /\ healthy st /\
  background_compaction_scheduled_ st = true /\ is_Some (finish_manual (run_is_manual r) OK [] (with_db (bg_db st) tt ∅ [] (with_running [] st))).
Proof.
  pose proof run_views as Hrun. destruct run_3 as [st3|] eqn:E3; [|discriminate Hrun]. cbn [mbind option_bind] in Hrun.
  destruct (run_4 st3) as [st4|]; [|discriminate Hrun]. cbn [mbind option_bind] in Hrun. destruct (run_5 st4) as [st5|]; [|discriminate Hrun]. cbn [mbind option_bind] in Hrun.
  unfold run_view in Hrun. injection Hrun as Hr _ Hw Hm Hp _ _ _ _ _ _ _ _ _ _. destruct (running st3) as [|r [|]] eqn:Er; [discriminate Hr| |discriminate Hr]. injection Hr as Hr.
  assert (Hh : healthy st3).
  { unfold manual_waits in Hw. destruct (manuals st3 !! 0%nat) as [m|]; [|discriminate Hw]. apply andb_true_iff in Hw as [Hw H2]. apply andb_true_iff in Hw as [_ H1].
    split; [by apply negb_true_iff|exact H2]. }
  destruct (background_schedule_invariant BytewiseComparator (str "cmp") (str "db") flush_options 2000000 4000000 0 run_new (fun f => (OK, f)) (fun _ _ => OK) (fun _ _ => (OK, []))
    (fun _ => 0) 0 st3 (run_3_reachable st3 E3)) as (_ & _ & Hwork & _ & Hfin & _).
  exists st3, r. split; [reflexivity|]. split; [exact Er|]. split; [exact Hr|]. split; [exact Hh|]. split.
  - apply Hwork; [exact Hh|]. right. left. rewrite Hp. discriminate.
  - apply Hfin; [exact Hh|]. rewrite Er. left.
Defined.
