(* ===== verification/TrivialMove.v ===== *)
(** The trivial move of [BackgroundCompaction] (Background): a file goes down a level
    without being read, and the tree of files and all reads stay as they were,
    whatever the environment answers. *)

From stdpp Require Import base gmap list sorting strings.
From Stdlib Require Import QArith.
From S2P Require Import Prelude Status Coding Crc32c Env Log Comparator DbFormat VersionEdit Filename Plr LearnedIndex Version VersionGet VersionGetProofs VersionBuilder VersionBuilderProofs Iterator Format Block TableBuilder Compaction CompactionProofs CompactionWork CompactionDrop CompactionWorkProofs VersionSet VersionGc WriteBatch SkipList MemTable DbWrite Builder DbOpen CompactionInstall Background.

#[local] Open Scope Z_scope.

Section Move.
Context {E F : Type} `{!FileSystem E} `{!WritableFile F} `{!Checksum}.
Context (user : Comparator) {Huser : @ComparatorOk user} {Hr : TableReader} {Hro : TableReaderOk user}.
Context (comparator_name dbname_ : bytes) (max_file_size : Z) (NewWritableFile : E -> bytes -> Status * F * E).
#[local] Abbreviation contents := (@VersionGetProofs.contents user Hr Hro).

(** The file with its new life in the next level: the seeks it may take are counted
    afresh, the rest is kept. *)
Definition moved (f : FileMetaData) : FileMetaData := newFileMetaData (number f) (file_size f) (smallest f) (largest f).

Lemma move_edit_lists c f level n : deleted_files_ (edit_ c) = [] -> new_files_ (edit_ c) = [] ->
  (n ∈ on_level level (deleted_files_ (move_edit c f)) <-> level = level_ c /\ n = number f) /\
  on_level level (new_files_ (move_edit c f)) = (if decide (level = S (level_ c)) then [moved f] else []).
Proof.
  intros Hd Hn. unfold move_edit. cbn [AddFile VersionEdit.DeleteFile set_lists deleted_files_ new_files_]. rewrite Hd, Hn. cbn [set_insert app]. split.
  - rewrite on_level_elem. setoid_rewrite list_elem_of_singleton. split; [intros (z & [= -> ->] & <-); split; [lia|done]|].
    intros [-> ->]. exists (Z.of_nat (level_ c)). split; [done|lia].
  - unfold on_level. rewrite filter_cons, filter_nil. cbn [fst]. destruct (decide (Z.to_nat _ = level)), (decide (level = S (level_ c))); try done; lia.
Qed.

Lemma complete_edit_free (vs : VersionSet F) e : has_log_number_ e = false ->
  exists e', complete_edit vs e = Some e' /\ deleted_files_ e' = deleted_files_ e /\ new_files_ e' = new_files_ e.
Proof. intros Hl. unfold complete_edit. rewrite Hl. cbn [mbind option_bind]. eexists. split; [reflexivity|]. by destruct (has_prev_log_number_ _). Qed.

(** [LogAndApply] of an edit that can be applied installs its version or, with an
    error, none. *)
Lemma LogAndApply_outcome vs env e e' v' : complete_edit vs e = Some e' ->
  apply_batch user (vs_compact_pointer vs) (current vs) [e'] = Some v' ->
  exists s vs' env', LogAndApply user comparator_name dbname_ NewWritableFile vs env e = Some (s, vs', env') /\
    current vs' = if ok s then Finalize v'.2 else current vs.
Proof.
  intros Ec Ea. unfold LogAndApply. rewrite Ec. cbn [mbind option_bind]. unfold apply_batch in Ea. cbn [fold_left] in Ea.
  destruct (SaveTo user _ newVersion) as [v1|]; [|done]. cbn [mbind option_bind] in *. injection Ea as <-.
  destruct (open_manifest _ _ _ _ _) as [[[s1 w] env1] is_new]. destruct (match w with Some _ => _ | None => _ end) as [s2 w2].
  destruct (if ok s2 && is_new then _ else _) as [s3 env3].
  destruct (ok s3) eqn:Es; [|destruct is_new; [destruct (fs_delete _ _)|]]; do 3 eexists; (split; [reflexivity|]); by rewrite Es.
Qed.

End Move.

(** * An example: the file of level 1 is apart from the file of level 2. *)

#[local] Existing Instance no_fs.
#[local] Instance move_checksum : Checksum := crc32c_checksum 0.

Definition move_version : Version :=
  mkVersion [[]; [run_file 10 upper_run]; [run_file 6 other_run]; []; []; []; []] None (-1) (2, 1) 1.
Definition move_compaction : Compaction := picked move_version.
Definition move_state : BgState (E := unit) (F := flat_file) :=
  mkBg (mkDB None None (newWriter []) 5
      (mkVersionSet 12 2 9 3 0 (Some (newWriter [])) [mkLive 0 2 move_version] (0%nat, move_version) 1 (replicate 7 []))
      [] WriteBatch.Clear OK [])
    tt ∅ [] true false None ∅ 1 0 [].
Definition move_new (env : unit) (name : bytes) : Status * flat_file * unit := (OK, [], env).
#[local] Abbreviation move_reader := (list_reader BytewiseComparator (table_runs other_run)).
#[local] Abbreviation move_reader_ok := (list_reader_ok BytewiseComparator (table_runs other_run)).

Lemma move_version_level level f : f ∈ level_files move_version level ->
  (level = 1%nat /\ f = run_file 10 upper_run) \/ (level = 2%nat /\ f = run_file 6 other_run).
Proof. unfold level_files. do 7 (destruct level as [|level]; [simpl; set_solver|]). simpl. destruct level; set_solver. Qed.

Lemma move_version_sub level f : f ∈ level_files move_version level -> f ∈ level_files (two_levels other_run) level.
Proof. intros [[-> ->]|[-> ->]]%move_version_level; unfold level_files; simpl; set_solver. Qed.

Lemma move_version_lsm : @lsm BytewiseComparator move_reader move_reader_ok move_version.
Proof.
  pose proof (two_levels_lsm other_run ltac:(by right)) as [Hv Hlen Hc H0 Hn]. split.
  - intros level Hl. split; [split|].
    + destruct (Hv level Hl) as [[Hwf _] _]. rewrite Forall_forall in *. intros f Hf. by apply Hwf, move_version_sub.
    + unfold level_files. do 7 (destruct level as [|level]; [simpl; repeat constructor|]). simpl. destruct level; constructor.
    + destruct (Hv level Hl) as [_ Htag]. rewrite Forall_forall in *. intros f Hf. by apply Htag, move_version_sub.
  - exact Hlen.
  - intros level f Hf. by apply (Hc level), move_version_sub.
  - constructor.
  - intros p q e e' Hp Hq. apply Hn; by apply move_version_sub.
Qed.

Lemma move_version_sound : version_ok BytewiseComparator move_version.
Proof.
  unfold version_ok. do 7 (apply Forall_cons; split; [split; [repeat constructor|apply (bool_decide_unpack _); vm_compute; exact Logic.I|apply (bool_decide_unpack _); vm_compute; exact Logic.I]|]).
  apply Forall_nil_2.
Qed.

Lemma move_safe : compaction_safe BytewiseComparator move_version move_compaction.
Proof.
  destruct (PickCompaction_spec BytewiseComparator 1000000 move_version (replicate 7 [])) as [[_ [Hs _]]|(c & s & l & E & Hsafe & _)].
  - exact (lsm_levels_ok BytewiseComparator (Hro := move_reader_ok) _ move_version_lsm).
  - split; [intros _; vm_compute; discriminate|intros f; vm_compute; discriminate].
  - vm_compute in Hs. discriminate.
  - unfold move_compaction, picked. by rewrite E.
Qed.

