(* ===== verification/PosixFile.v ===== *)
(** util/env_posix.cc, the files: system calls as an interface ([Posix]) and what
    POSIX promises of them ([PosixOk]), [PosixError], [Limiter] and the classes
    [PosixSequentialFile], [PosixRandomAccessFile], [PosixMmapReadableFile] and
    [PosixWritableFile].

    A file is a record of the members of its class; the kernel's state is passed
    along.  A loop that retries an interrupted call has fuel, one unit for a call;
    [None] is the end of the fuel, or an access outside of a buffer. *)

From stdpp Require Import base list option strings.
From S2P Require Import Prelude Status Env.

#[local] Open Scope Z_scope.

(** The flags of [open]. *)
Inductive OpenMode := RdOnly | RdWrAppendCreat | TruncWrOnlyCreat | AppendWrOnlyCreat | RdWrCreat.

(** [errno] on the left of a sum, or as [Some]. *)
Class Posix (K : Type) := {
  sys_open : K -> bytes -> OpenMode -> (Z + Z) * K;      (* a descriptor, not negative *)
  sys_close : K -> Z -> option Z * K;
  sys_read : K -> Z -> Z -> (Z + bytes) * K;
  sys_lseek : K -> Z -> Z -> option Z * K;               (* SEEK_CUR *)
  sys_pread : K -> Z -> Z -> Z -> Z + bytes;             (* length, offset *)
  sys_write : K -> Z -> bytes -> (Z + Z) * K;
  sys_fsync : K -> Z -> option Z * K;
  sys_mmap : K -> Z -> Z -> Z + bytes;
  sys_stat : K -> bytes -> Z + Z;                        (* st_size *)
  sys_fcntl_lock : K -> Z -> bool -> option Z * K;       (* F_WRLCK or F_UNLCK of the whole file *)
  sys_access : K -> bytes -> bool;                       (* F_OK *)
  sys_readdir : K -> bytes -> Z + list bytes;            (* the entries of a directory *)
  sys_unlink : K -> bytes -> option Z * K;
  sys_mkdir : K -> bytes -> option Z * K;
  sys_rmdir : K -> bytes -> option Z * K;
  sys_rename : K -> bytes -> bytes -> option Z * K;
  strerror : Z -> bytes;
}.

Definition ENOENT : Z := 2.
Definition EINTR : Z := 4.
Definition EINVAL : Z := 22.

Definition kWritableFileBufferSize : Z := 65536.

(** * [Limiter] *)

(** [Acquire] is two atomic operations on the counter when the first one finds no
    resource: [fetch_sub] gives the old value, and the second takes the try back. *)
Definition Limiter := Z.
Definition acquire_try (l : Limiter) : bool * Limiter := (0 <? l, i32 (l - 1)).
Definition acquire_undo (l : Limiter) : Limiter := i32 (l + 1).
Definition Acquire (l : Limiter) : bool * Limiter :=
  let '(got, l) := acquire_try l in if got then (true, l) else (false, acquire_undo l).
Definition Release (l : Limiter) : Limiter := i32 (l + 1).

(** * Paths *)

Definition slash : byte := Byte.x2f.

(** [filename.rfind('/')] as a split: what is before the last separator and after
    it; [None] is [npos]. *)
Fixpoint rfind_slash (name : bytes) : option (bytes * bytes) :=
  match name with
  | [] => None
  | b :: rest =>
      match rfind_slash rest with
      | Some (d, n) => Some (b :: d, n)
      | None => if bool_decide (b = slash) then Some ([], rest) else None
      end
  end.

Definition Dirname (filename : bytes) : bytes := match rfind_slash filename with None => str "." | Some (d, _) => d end.
Definition Basename (filename : bytes) : bytes := match rfind_slash filename with None => filename | Some (_, n) => n end.
Definition IsManifest (filename : bytes) : bool := bool_decide (btake 8 (Basename filename) = str "MANIFEST").

Section Files.
Context {K : Type} `{!Posix K}.

Definition PosixError (context : bytes) (error_number : Z) : Status :=
  if error_number =? ENOENT then NotFound context (strerror error_number) else IOError context (strerror error_number).

(** The status of a call that only fails or succeeds. *)
Definition posix_status (context : bytes) (r : option Z) : Status :=
  match r with None => OK | Some e => PosixError context e end.

(** * [PosixSequentialFile] *)

Record PosixSequentialFile := mkSequential { seq_fd_ : Z; seq_filename_ : bytes }.

(** [PosixSequentialFile::Read]: the bytes in [*result], which an error leaves as
    they were. *)
Fixpoint SequentialRead (fuel : nat) (f : PosixSequentialFile) (n : Z) (result : bytes) (k : K) : option (Status * bytes * K) :=
  match fuel with
  | O => None
  | S fuel =>
      let '(r, k) := sys_read k (seq_fd_ f) n in
      match r with
      | inl e => if e =? EINTR then SequentialRead fuel f n result k else Some (PosixError (seq_filename_ f) e, result, k)
      | inr data => Some (OK, data, k)
      end
  end.

Definition SequentialSkip (f : PosixSequentialFile) (n : Z) (k : K) : Status * K :=
  let '(r, k) := sys_lseek k (seq_fd_ f) n in (posix_status (seq_filename_ f) r, k).

(** * [PosixRandomAccessFile] *)

Record PosixRandomAccessFile := mkRandomAccess { has_permanent_fd_ : bool; ra_fd_ : Z; ra_filename_ : bytes }.

Definition newPosixRandomAccessFile (filename : bytes) (fd : Z) (fd_limiter : Limiter) (k : K) : PosixRandomAccessFile * Limiter * K :=
  let '(got, l) := Acquire fd_limiter in
  if got then (mkRandomAccess true fd filename, l, k)
  else let '(_, k) := sys_close k fd in (mkRandomAccess false (-1) filename, l, k).

Definition deletePosixRandomAccessFile (f : PosixRandomAccessFile) (fd_limiter : Limiter) (k : K) : Limiter * K :=
  if has_permanent_fd_ f then let '(_, k) := sys_close k (ra_fd_ f) in (Release fd_limiter, k) else (fd_limiter, k).

Definition RandomAccessRead (f : PosixRandomAccessFile) (offset n : Z) (result : bytes) (k : K) : Status * bytes * K :=
  let pread fd k :=
    match sys_pread k fd n offset with
    | inl e => (PosixError (ra_filename_ f) e, [])
    | inr data => (OK, data)
    end in
  if has_permanent_fd_ f then (pread (ra_fd_ f) k, k)
  else
    let '(r, k) := sys_open k (ra_filename_ f) RdOnly in
    match r with
    | inl e => (PosixError (ra_filename_ f) e, result, k)
    | inr fd =>
        let '(s, data) := pread fd k in
        let '(_, k) := sys_close k fd in (s, data, k)
    end.

(** * [PosixMmapReadableFile] *)

(** [mmap_base_] with [length_] bytes. *)
Record PosixMmapReadableFile := mkMmap { mmap_base_ : bytes; mm_filename_ : bytes }.

(** The sum is computed in 64 bits; [None]: the slice is not inside of the mapping. *)
Definition MmapRead (f : PosixMmapReadableFile) (offset n : Z) : option (Status * bytes) :=
  if blen (mmap_base_ f) <? u64 (offset + n) then Some (PosixError (mm_filename_ f) EINVAL, [])
  else if offset + n <=? blen (mmap_base_ f) then Some (OK, btake n (bdrop offset (mmap_base_ f)))
  else None.

(** * [PosixWritableFile] *)

(** [buf_] holds the first [pos_] bytes of the buffer. *)
Record PosixWritableFile := mkWritable {
  buf_ : bytes;
  wr_fd_ : Z;
  is_manifest_ : bool;
  wr_filename_ : bytes;
  dirname_ : bytes;
}.

Definition with_buf (b : bytes) (f : PosixWritableFile) : PosixWritableFile :=
  mkWritable b (wr_fd_ f) (is_manifest_ f) (wr_filename_ f) (dirname_ f).

Definition newPosixWritableFile (filename : bytes) (fd : Z) : PosixWritableFile :=
  mkWritable [] fd (IsManifest filename) filename (Dirname filename).

Fixpoint WriteUnbuffered (fuel : nat) (f : PosixWritableFile) (data : bytes) (k : K) : option (Status * K) :=
  match data with
  | [] => Some (OK, k)
  | _ =>
      match fuel with
      | O => None
      | S fuel =>
          let '(r, k) := sys_write k (wr_fd_ f) data in
          match r with
          | inl e => if e =? EINTR then WriteUnbuffered fuel f data k else Some (PosixError (wr_filename_ f) e, k)
          | inr n => WriteUnbuffered fuel f (bdrop n data) k
          end
      end
  end.

Definition FlushBuffer (fuel : nat) (f : PosixWritableFile) (k : K) : option (Status * PosixWritableFile * K) :=
  '(s, k) ← WriteUnbuffered fuel f (buf_ f) k; Some (s, with_buf [] f, k).

Definition Append (fuel : nat) (f : PosixWritableFile) (data : bytes) (k : K) : option (Status * PosixWritableFile * K) :=
  let copy_size := Z.min (blen data) (kWritableFileBufferSize - blen (buf_ f)) in
  let f := with_buf (buf_ f ++ btake copy_size data) f in
  let write_data := bdrop copy_size data in
  if blen write_data =? 0 then Some (OK, f, k)
  else
    '(s, f, k) ← FlushBuffer fuel f k;
    if negb (ok s) then Some (s, f, k)
    else if blen write_data <? kWritableFileBufferSize then Some (OK, with_buf write_data f, k)
    else '(s, k) ← WriteUnbuffered fuel f write_data k; Some (s, f, k).

Definition Close (fuel : nat) (f : PosixWritableFile) (k : K) : option (Status * PosixWritableFile * K) :=
  '(s, f, k) ← FlushBuffer fuel f k;
  let '(r, k) := sys_close k (wr_fd_ f) in
  let s := if ok s then posix_status (wr_filename_ f) r else s in
  Some (s, mkWritable (buf_ f) (-1) (is_manifest_ f) (wr_filename_ f) (dirname_ f), k).

Definition Flush (fuel : nat) (f : PosixWritableFile) (k : K) : option (Status * PosixWritableFile * K) := FlushBuffer fuel f k.

Definition SyncFd (fd : Z) (fd_path : bytes) (k : K) : Status * K :=
  let '(r, k) := sys_fsync k fd in (posix_status fd_path r, k).

Definition SyncDirIfManifest (f : PosixWritableFile) (k : K) : Status * K :=
  if negb (is_manifest_ f) then (OK, k)
  else
    let '(r, k) := sys_open k (dirname_ f) RdOnly in
    match r with
    | inl e => (PosixError (dirname_ f) e, k)
    | inr fd => let '(s, k) := SyncFd fd (dirname_ f) k in let '(_, k) := sys_close k fd in (s, k)
    end.

Definition Sync (fuel : nat) (f : PosixWritableFile) (k : K) : option (Status * PosixWritableFile * K) :=
  let '(s, k) := SyncDirIfManifest f k in
  if negb (ok s) then Some (s, f, k)
  else
    '(s, f, k) ← FlushBuffer fuel f k;
    if negb (ok s) then Some (s, f, k)
    else let '(s, k) := SyncFd (wr_fd_ f) (wr_filename_ f) k in Some (s, f, k).

(** The destructor ignores errors. *)
Definition deletePosixWritableFile (fuel : nat) (f : PosixWritableFile) (k : K) : option K :=
  if 0 <=? wr_fd_ f then '(_, _, k) ← Close fuel f k; Some k else Some k.
End Files.
