(* ===== verification/PosixFileProofs.v ===== *)
(** The files of the POSIX environment (PosixFile): the buffered writable file keeps
    the bytes it is given in order, loses none while its calls succeed, and has them
    on the disk after a [Sync]; it implements the interface that the log, the tables
    and the MANIFEST are written against.  A mapped file reads what it holds, but the
    test of its bounds can wrap around; the limiter never hands out more than it has. *)

From stdpp Require Import base list option strings.
From S2P Require Import Prelude Status Env PosixFile.

#[local] Open Scope Z_scope.

(** What POSIX promises of the calls on an open descriptor. *)
Class PosixOk (K : Type) `{Posix K} := {
  is_open : K -> Z -> Prop;
  file_data : K -> Z -> bytes;       (* the bytes of the file *)
  durable_data : K -> Z -> bytes;    (* those that survive a power failure *)
  interrupts : K -> nat;             (* signals that are still to come *)
  undisturbed k k' fd := is_open k' fd /\ file_data k' fd = file_data k fd /\ (interrupts k' <= interrupts k)%nat;
  sys_write_ok k fd d : is_open k fd -> d <> [] ->
    match sys_write k fd d with
    | (inr n, k') => 0 < n <= blen d /\ is_open k' fd /\ file_data k' fd = file_data k fd ++ btake n d /\ (interrupts k' <= interrupts k)%nat
    | (inl e, k') => undisturbed k k' fd /\ (e = EINTR -> (interrupts k' < interrupts k)%nat)
    end;
  sys_fsync_ok k fd fd' : is_open k fd' ->
    let '(r, k') := sys_fsync k fd in undisturbed k k' fd' /\ (fd = fd' -> r = None -> durable_data k' fd' = file_data k fd');
  sys_open_ok k name fd : is_open k fd ->
    let '(r, k') := sys_open k name RdOnly in undisturbed k k' fd /\ r <> inr fd;
  sys_close_ok k fd fd' : is_open k fd' -> fd <> fd' -> undisturbed k (sys_close k fd).2 fd';
}.

Section Writable.
Context {K : Type} `{!Posix K} `{!PosixOk K}.

Lemma undisturbed_trans k1 k2 k3 fd : undisturbed k1 k2 fd -> undisturbed k2 k3 fd -> undisturbed k1 k3 fd.
Proof. intros (H1 & H2 & H3) (H4 & H5 & H6). split; [done|]. split; [congruence|lia]. Qed.

(** A write of [data]: everything, or with an error a prefix of it. *)
Lemma WriteUnbuffered_ok f : forall data fuel k, is_open k (wr_fd_ f) -> (interrupts k + length data <= fuel)%nat ->
  exists s k' p, WriteUnbuffered fuel f data k = Some (s, k') /\ is_open k' (wr_fd_ f) /\ (interrupts k' <= interrupts k)%nat /\
    file_data k' (wr_fd_ f) = file_data k (wr_fd_ f) ++ p /\ p `prefix_of` data /\ (ok s = true -> p = data).
Proof.
  intros data fuel. revert data. induction fuel as [|fuel IH]; intros data k Ho Hf.
  - destruct data; [|simpl in Hf; lia]. exists OK, k, []. rewrite app_nil_r. by split_and!.
  - destruct data as [|b data]; [exists OK, k, []; rewrite app_nil_r; by split_and!|]. cbn [WriteUnbuffered].
    pose proof (sys_write_ok k (wr_fd_ f) (b :: data) Ho ltac:(done)) as Hw. set (d := b :: data) in *.
    destruct (sys_write k (wr_fd_ f) d) as [[e|n] k1].
    + destruct Hw as [(Ho1 & Ed & Hi) Hint]. destruct (Z.eqb_spec e EINTR) as [->|Hne].
      * specialize (Hint eq_refl). destruct (IH d k1 Ho1 ltac:(lia)) as (s & k' & p & E & Ho' & Hi' & Ed' & Hp & Hs).
        exists s, k', p. rewrite Ed' , Ed. split_and!; try done. lia.
      * exists (PosixError (wr_filename_ f) e), k1, []. rewrite app_nil_r. split_and!; try done; [apply prefix_nil|].
        unfold PosixError. by destruct (e =? ENOENT).
    + destruct Hw as (Hn & Ho1 & Ed & Hi). unfold blen in Hn.
      assert (Hlen : (length (bdrop n d) < length d)%nat) by (unfold bdrop; rewrite length_drop; lia).
      destruct (IH (bdrop n d) k1 Ho1 ltac:(lia)) as (s & k' & p & E & Ho' & Hi' & Ed' & Hp & Hs).
      exists s, k', (btake n d ++ p). rewrite Ed', Ed, <- app_assoc. split_and!; try done; [lia| |].
      * rewrite <- (take_drop (Z.to_nat n) d) at 2. by apply prefix_app.
      * intros Hok. rewrite (Hs Hok). unfold btake, bdrop. by rewrite take_drop.
Qed.

Lemma FlushBuffer_ok f fuel k : is_open k (wr_fd_ f) -> (interrupts k + length (buf_ f) <= fuel)%nat ->
  exists s k' p, FlushBuffer fuel f k = Some (s, with_buf [] f, k') /\ is_open k' (wr_fd_ f) /\ (interrupts k' <= interrupts k)%nat /\
    file_data k' (wr_fd_ f) = file_data k (wr_fd_ f) ++ p /\ p `prefix_of` buf_ f /\ (ok s = true -> p = buf_ f).
Proof.
  intros Ho Hf. destruct (WriteUnbuffered_ok f (buf_ f) fuel k Ho Hf) as (s & k' & p & E & H').
  exists s, k', p. unfold FlushBuffer. rewrite E. done.
Qed.

(** The invariant of an open file. *)
Definition writable_ok (f : PosixWritableFile) (k : K) : Prop := is_open k (wr_fd_ f) /\ blen (buf_ f) <= kWritableFileBufferSize.

(** All that has been given to the file: on the file and in the buffer. *)
Definition given (f : PosixWritableFile) (k : K) : bytes := file_data k (wr_fd_ f) ++ buf_ f.

(** The effect of an operation that was to add [data]: all of it and nothing else,
    or with an error a part in order; the file only grows. *)
Definition step_ok (data : bytes) (f : PosixWritableFile) (k : K) (s : Status) (f' : PosixWritableFile) (k' : K) : Prop :=
  writable_ok f' k' /\ wr_fd_ f' = wr_fd_ f /\ (interrupts k' <= interrupts k)%nat /\
  (ok s = true -> given f' k' = given f k ++ data) /\
  exists p, file_data k' (wr_fd_ f) = file_data k (wr_fd_ f) ++ p /\ (p ++ buf_ f') `sublist_of` (buf_ f ++ data).

Lemma prefix_sublist {A} (l k : list A) : l `prefix_of` k -> l `sublist_of` k.
Proof. intros [x ->]. by apply sublist_inserts_r. Qed.

Lemma posix_Append_ok f k data fuel : writable_ok f k ->
  (interrupts k + Z.to_nat kWritableFileBufferSize + length data <= fuel)%nat ->
  exists s f' k', Append fuel f data k = Some (s, f', k') /\ step_ok data f k s f' k'.
Proof.
  intros [Ho Hb] Hf. unfold Append. set (c := Z.min _ _). assert (Hc : 0 <= c <= blen data) by (unfold c, blen in *; lia).
  set (f1 := with_buf (buf_ f ++ btake c data) f).
  assert (Hb1 : blen (buf_ f1) <= kWritableFileBufferSize).
  { unfold f1, blen, btake. cbn [with_buf buf_]. rewrite length_app, length_take. unfold c, blen in *. lia. }
  assert (Esplit : buf_ f ++ data = buf_ f1 ++ bdrop c data).
  { cbn [f1 with_buf buf_]. rewrite <- app_assoc. unfold btake, bdrop. by rewrite take_drop. }
  assert (Hd : (length (bdrop c data) <= length data)%nat) by (unfold bdrop; rewrite length_drop; lia).
  assert (Hdone : forall s f' k', writable_ok f' k' -> wr_fd_ f' = wr_fd_ f -> (interrupts k' <= interrupts k)%nat ->
    (forall p y, file_data k' (wr_fd_ f) = file_data k (wr_fd_ f) ++ p -> (p ++ buf_ f') ++ y = buf_ f ++ data -> (ok s = true -> y = []) -> step_ok data f k s f' k')).
  { intros s f' k' Hw Ef Hi p y Eg Ex Hy. split; [done|]. split; [done|]. split; [done|]. split.
    - intros Hs. rewrite (Hy Hs), app_nil_r in Ex. unfold given. rewrite Ef, Eg, <- app_assoc, Ex. by rewrite app_assoc.
    - exists p. split; [done|]. rewrite <- Ex. by apply sublist_inserts_r. }
  destruct (Z.eqb_spec (blen (bdrop c data)) 0) as [E0|E0].
  { exists OK, f1, k. split; [done|]. apply (Hdone OK f1 k (conj Ho Hb1) eq_refl ltac:(lia) [] []); [by rewrite app_nil_r| |done].
    rewrite Esplit. cbn [app]. unfold blen in E0. destruct (bdrop c data); [done|simpl in E0; lia]. }
  assert (Hb1n : (length (buf_ f1) <= Z.to_nat kWritableFileBufferSize)%nat) by (unfold blen in Hb1; lia).
  destruct (FlushBuffer_ok f1 fuel k Ho ltac:(lia)) as (s & k1 & p & -> & Ho1 & Hi1 & Ed1 & Hp & Hs). cbn [mbind option_bind].
  change (wr_fd_ f1) with (wr_fd_ f) in *. destruct (ok s) eqn:Es; cbn [negb].
  - specialize (Hs eq_refl). subst p. bcase.
    + exists OK, (with_buf (bdrop c data) (with_buf [] f1)), k1. split; [done|].
      apply (Hdone OK (with_buf (bdrop c data) (with_buf [] f1)) k1 ltac:(split; [done|cbn [with_buf buf_]; lia]) eq_refl Hi1 (buf_ f1) []); [exact Ed1|by rewrite app_nil_r|done].
    + destruct (WriteUnbuffered_ok (with_buf [] f1) (bdrop c data) fuel k1 Ho1 ltac:(lia)) as (s2 & k2 & q & -> & Ho2 & Hi2 & Ed2 & [y Hq] & Hs2).
      cbn [mbind option_bind]. exists s2, (with_buf [] f1), k2. split; [done|].
      apply (Hdone s2 (with_buf [] f1) k2 ltac:(split; [done|vm_compute; discriminate]) eq_refl ltac:(lia) (buf_ f1 ++ q) y).
      * change (wr_fd_ (with_buf [] f1)) with (wr_fd_ f) in Ed2. by rewrite Ed2, Ed1, app_assoc.
      * change (buf_ (with_buf [] f1)) with (@nil byte). rewrite app_nil_r, Esplit, Hq. by rewrite <- app_assoc.
      * intros Hok. specialize (Hs2 Hok). rewrite Hs2 in Hq. apply (app_inv_head (bdrop c data)). rewrite app_nil_r. by rewrite <- Hq.
  - destruct Hp as [y Hp]. exists s, (with_buf [] f1), k1. split; [done|].
    apply (Hdone s (with_buf [] f1) k1 ltac:(split; [done|vm_compute; discriminate]) eq_refl Hi1 p (y ++ bdrop c data)).
    + done.
    + change (buf_ (with_buf [] f1)) with (@nil byte). by rewrite app_nil_r, Esplit, Hp, <- app_assoc.
    + congruence.
Qed.

(** A flush keeps what was given, or with an error a part of it. *)
Lemma FlushBuffer_step f k fuel : writable_ok f k -> (interrupts k + Z.to_nat kWritableFileBufferSize <= fuel)%nat ->
  exists s k', FlushBuffer fuel f k = Some (s, with_buf [] f, k') /\ step_ok [] f k s (with_buf [] f) k'.
Proof.
  intros [Ho Hb] Hf. destruct (FlushBuffer_ok f fuel k Ho ltac:(unfold blen in Hb; lia)) as (s & k' & p & E & Ho' & Hi & Ed & Hp & Hs).
  exists s, k'. split; [done|]. split; [split; [done|vm_compute; discriminate]|]. split; [done|]. split; [done|].
  unfold given. change (buf_ (with_buf [] f)) with (@nil byte). change (wr_fd_ (with_buf [] f)) with (wr_fd_ f). split.
  - intros Hok. by rewrite Ed, !app_nil_r, (Hs Hok).
  - exists p. split; [done|]. rewrite !app_nil_r. by apply prefix_sublist.
Qed.

Lemma SyncFd_ok fd path k : is_open k fd ->
  exists s k', SyncFd fd path k = (s, k') /\ undisturbed k k' fd /\ (ok s = true -> durable_data k' fd = file_data k fd).
Proof.
  intros Ho. unfold SyncFd. pose proof (sys_fsync_ok k fd fd Ho) as Hf. destruct (sys_fsync k fd) as [r k']. destruct Hf as [Hu Hd].
  eexists _, k'. split; [done|]. split; [done|]. destruct r as [e|]; [|intros _; by apply Hd]. cbn [posix_status]. unfold PosixError. by destruct (e =? ENOENT).
Qed.

Lemma SyncDir_ok f k : is_open k (wr_fd_ f) -> exists s k', SyncDirIfManifest f k = (s, k') /\ undisturbed k k' (wr_fd_ f).
Proof.
  intros Ho. unfold SyncDirIfManifest. destruct (is_manifest_ f); cbn [negb]; [|by exists OK, k; split_and!].
  pose proof (sys_open_ok k (dirname_ f) (wr_fd_ f) Ho) as Hop. destruct (sys_open k (dirname_ f) RdOnly) as [[e|fd] k1]; destruct Hop as [Hu Hne]; [by eexists _, k1|].
  unfold SyncFd. pose proof (sys_fsync_ok k1 fd (wr_fd_ f) ltac:(apply Hu)) as Hf. destruct (sys_fsync k1 fd) as [r k2]. destruct Hf as [Hu2 _].
  pose proof (sys_close_ok k2 fd (wr_fd_ f) ltac:(apply Hu2) ltac:(congruence)) as Hu3. destruct (sys_close k2 fd) as [r3 k3]. cbn [snd] in Hu3.
  eexists _, k3. split; [done|]. exact (undisturbed_trans _ _ _ _ Hu (undisturbed_trans _ _ _ _ Hu2 Hu3)).
Qed.

Lemma step_ok_after k k1 f s f' k' : undisturbed k k1 (wr_fd_ f) -> step_ok [] f k1 s f' k' -> step_ok [] f k s f' k'.
Proof. intros (Ho & Ed & Hi) (Hw & Ef & Hi' & Hg & Hx). unfold step_ok, given in *. rewrite Ed in *. split_and!; try done. lia. Qed.

Lemma step_ok_same f k k' s : blen (buf_ f) <= kWritableFileBufferSize -> undisturbed k k' (wr_fd_ f) -> step_ok [] f k s f k'.
Proof.
  intros Hb (Ho & Ed & Hi). unfold step_ok, given. rewrite Ed. split; [done|]. split; [done|]. split; [done|]. split; [by rewrite app_nil_r|].
  exists []. by rewrite !app_nil_r.
Qed.

Lemma step_ok_end f k s f' k' k'' s' : step_ok [] f k s f' k' -> undisturbed k' k'' (wr_fd_ f') -> (ok s' = true -> ok s = true) -> step_ok [] f k s' f' k''.
Proof.
  intros ((_ & Hb) & Ef & Hi & Hg & Hx) (Ho & Ed & Hi') Hs. unfold step_ok, given, writable_ok in *. rewrite Ed. split; [done|]. split; [done|]. split; [lia|]. split; [auto|].
  rewrite Ef in Ed. by rewrite Ed.
Qed.

Lemma Sync_ok f k fuel : writable_ok f k -> (interrupts k + Z.to_nat kWritableFileBufferSize <= fuel)%nat ->
  exists s f' k', Sync fuel f k = Some (s, f', k') /\ step_ok [] f k s f' k' /\
    (ok s = true -> durable_data k' (wr_fd_ f) = given f k /\ buf_ f' = []).
Proof.
  intros [Ho Hb] Hf. unfold Sync. destruct (SyncDir_ok f k Ho) as (s0 & k0 & -> & Hu0). destruct (ok s0) eqn:E0; cbn [negb].
  2:{ exists s0, f, k0. split; [done|]. split; [by apply step_ok_same|congruence]. }
  destruct (FlushBuffer_step f k0 fuel) as (s1 & k1 & -> & Hst1); [by split; [apply Hu0|]|destruct Hu0 as (_ & _ & ?); lia|]. cbn [mbind option_bind].
  pose proof (step_ok_after k k0 f _ _ _ Hu0 Hst1) as Hst. destruct (ok s1) eqn:E1; cbn [negb]; [|exists s1, (with_buf [] f), k1; split; [done|]; split; [done|congruence]].
  destruct (SyncFd_ok (wr_fd_ (with_buf [] f)) (wr_filename_ (with_buf [] f)) k1) as (s2 & k2 & -> & Hu2 & Hd); [by destruct Hst as [[? _] _]|].
  exists s2, (with_buf [] f), k2. split; [done|]. split; [by apply (step_ok_end f k s1 _ k1)|].
  intros Hok. split; [|done]. destruct Hst as (_ & _ & _ & Hg & _). specialize (Hg E1). unfold given in Hg at 1.
  change (buf_ (with_buf [] f)) with (@nil byte) in Hg. rewrite !app_nil_r in Hg. rewrite <- Hg. by apply Hd.
Qed.

(** ** Sequences of operations *)

Inductive FileOp := OpAppend (data : bytes) | OpFlush | OpSync.

Definition op_data (op : FileOp) : bytes := match op with OpAppend d => d | _ => [] end.

Definition run_op (fuel : nat) (op : FileOp) (f : PosixWritableFile) (k : K) : option (Status * PosixWritableFile * K) :=
  match op with OpAppend d => Append fuel f d k | OpFlush => Flush fuel f k | OpSync => Sync fuel f k end.

Fixpoint run_ops (fuel : nat) (ops : list FileOp) (f : PosixWritableFile) (k : K) : option (list Status * PosixWritableFile * K) :=
  match ops with
  | [] => Some ([], f, k)
  | op :: ops => '(s, f, k) ← run_op fuel op f k; '(ss, f, k) ← run_ops fuel ops f k; Some (s :: ss, f, k)
  end.

Definition fuel_for (ops : list FileOp) (k : K) : nat := interrupts k + Z.to_nat kWritableFileBufferSize + length (concat (map op_data ops)).

Lemma run_op_ok op f k fuel : writable_ok f k -> (fuel_for [op] k <= fuel)%nat ->
  exists s f' k', run_op fuel op f k = Some (s, f', k') /\ step_ok (op_data op) f k s f' k' /\
    (ok s = true -> op = OpSync -> durable_data k' (wr_fd_ f) = given f k /\ buf_ f' = []).
Proof.
  unfold fuel_for. cbn [map concat]. rewrite app_nil_r. intros Hw Hf. destruct op as [d| |]; cbn [run_op op_data] in *.
  - destruct (posix_Append_ok f k d fuel Hw ltac:(lia)) as (s & f' & k' & E & H'). by exists s, f', k'.
  - destruct (FlushBuffer_step f k fuel Hw ltac:(lia)) as (s & k' & E & H'). by exists s, (with_buf [] f), k'.
  - destruct (Sync_ok f k fuel Hw ltac:(lia)) as (s & f' & k' & E & H' & Hd). exists s, f', k'. split; [done|]. split; [done|]. auto.
Qed.

Lemma run_ops_ok : forall ops f k fuel, writable_ok f k -> (fuel_for ops k <= fuel)%nat ->
  exists ss f' k', run_ops fuel ops f k = Some (ss, f', k') /\ length ss = length ops /\ writable_ok f' k' /\ wr_fd_ f' = wr_fd_ f /\
    (forallb ok ss = true -> given f' k' = given f k ++ concat (map op_data ops)) /\
    (exists p, file_data k' (wr_fd_ f) = file_data k (wr_fd_ f) ++ p /\ (p ++ buf_ f') `sublist_of` (buf_ f ++ concat (map op_data ops))) /\
    (last ss = Some OK -> last ops = Some OpSync -> durable_data k' (wr_fd_ f) = given f' k').
Proof.
  induction ops as [|op ops IH]; intros f k fuel Hw Hf; cbn [run_ops].
  { exists [], f, k. split_and!; try done; [by rewrite app_nil_r|]. exists []. by rewrite !app_nil_r. }
  unfold fuel_for in Hf. cbn [map concat] in Hf. rewrite length_app in Hf.
  destruct (run_op_ok op f k fuel Hw) as (s & f1 & k1 & -> & (Hw1 & Ef1 & Hi1 & Hg1 & p1 & Ep1 & Hp1) & Hd1); [unfold fuel_for; cbn [map concat]; rewrite app_nil_r; lia|]. cbn [mbind option_bind].
  destruct (IH f1 k1 fuel Hw1) as (ss & f' & k' & E & Hl & Hw' & Ef' & Hg & (p & Ep & Hp) & Hd); [unfold fuel_for; lia|]. rewrite E. cbn [mbind option_bind].
  exists (s :: ss), f', k'. split; [done|]. split; [cbn [length]; lia|]. split; [done|]. split; [congruence|]. split; [|split].
  - cbn [forallb map concat]. intros [Hs Hss]%andb_true_iff. rewrite (Hg Hss), (Hg1 Hs). by rewrite app_assoc.
  - rewrite Ef1 in Ep. exists (p1 ++ p). rewrite Ep, Ep1. cbn [map concat]. split; [by rewrite app_assoc|].
    rewrite <- app_assoc. trans (p1 ++ buf_ f1 ++ concat (map op_data ops)); [by apply sublist_app|].
    rewrite !app_assoc. by apply sublist_app.
  - destruct ops as [|op' ops].
    + cbn [run_ops] in E. injection E as <- <- <-. cbn [last]. intros [= ->] [= ->]. destruct (Hd1 eq_refl eq_refl) as [-> _].
      specialize (Hg1 eq_refl). cbn [op_data] in Hg1. by rewrite Hg1, app_nil_r.
    + destruct ss as [|s' ss]; [done|]. rewrite !last_cons_cons. intros Hs Ho. rewrite <- Ef1. by apply Hd.
Qed.

(** C24: the buffered file.  For a file that was just opened and any sequence of
    [Append], [Flush] and [Sync], whatever the calls of the system answer (writes
    that are interrupted or short, errors): each operation returns (the retries end
    as the interrupts do), the buffer keeps to its size, the file only grows, and
    what reaches it is in the order it was given, each byte at most once; when every
    operation answered OK, file and buffer together hold all that was appended, and
    when the last one was a [Sync] all of it is durable. *)
Theorem posix_writable_file_correct (filename : bytes) (fd : Z) (ops : list FileOp) (k : K) (fuel : nat) :
  is_open k fd -> (fuel_for ops k <= fuel)%nat ->
  exists ss f' k', run_ops fuel ops (newPosixWritableFile filename fd) k = Some (ss, f', k') /\ length ss = length ops /\
    blen (buf_ f') <= kWritableFileBufferSize /\
    (exists p, file_data k' fd = file_data k fd ++ p /\ (p ++ buf_ f') `sublist_of` concat (map op_data ops)) /\
    (forallb ok ss = true -> file_data k' fd ++ buf_ f' = file_data k fd ++ concat (map op_data ops)) /\
    (forallb ok ss = true -> last ops = Some OpSync -> durable_data k' fd = file_data k fd ++ concat (map op_data ops)).
Proof.
  intros Ho Hf. destruct (run_ops_ok ops (newPosixWritableFile filename fd) k fuel) as (ss & f' & k' & E & Hl & [_ Hb] & Ef & Hg & Hp & Hd);
    [split; [done|vm_compute; discriminate]|done|].
  exists ss, f', k'. unfold given in Hg, Hd. rewrite Ef in Hg, Hd. cbn [newPosixWritableFile wr_fd_ buf_ app] in Hg, Hp, Hd.
  rewrite app_nil_r in Hg. split_and!; try done. intros Hok Hlast. rewrite <- (Hg Hok). apply Hd; [|done].
  destruct (last ss) as [s|] eqn:Es.
  - apply last_Some in Es as [l ->]. rewrite forallb_app in Hok. apply andb_true_iff in Hok as [_ Hok]. cbn [forallb] in Hok. destruct s; [done|discriminate].
  - apply last_None in Es as ->. destruct ops; [done|discriminate].
Qed.
End Writable.

(** * The interface [WritableFile] *)

(** An open file with the kernel that it lives in. *)
Section Interface.
Context {K : Type} `{!Posix K} `{!PosixOk K}.

Definition open_file : Type := { p : PosixWritableFile * K | writable_ok p.1 p.2 }.

Definition sealed (f0 : open_file) (r : option (Status * PosixWritableFile * K)) :
    (forall s f k, r = Some (s, f, k) -> writable_ok f k) -> Status * open_file :=
  match r with
  | Some (s, f, k) => fun H => (s, exist _ (f, k) (H s f k eq_refl))
  | None => fun _ => (OK, f0)
  end.

Definition op_fuel (f : open_file) (op : FileOp) : nat := fuel_for [op] (proj1_sig f).2.

Lemma run_op_open f op s f' k' : run_op (op_fuel f op) op (proj1_sig f).1 (proj1_sig f).2 = Some (s, f', k') -> writable_ok f' k'.
Proof.
  intros E. destruct f as [[f k] Hw]. destruct (run_op_ok op f k (fuel_for [op] k) Hw ltac:(lia)) as (s1 & f1 & k1 & E1 & (Hw1 & _) & _).
  unfold op_fuel in E. cbn [proj1_sig fst snd] in E. rewrite E1 in E. by injection E as <- <- <-.
Qed.

Definition run_open (op : FileOp) (f : open_file) : Status * open_file :=
  sealed f (run_op (op_fuel f op) op (proj1_sig f).1 (proj1_sig f).2) (run_op_open f op).

#[export] Instance posix_writable : WritableFile open_file := {|
  wAppend f d := run_open (OpAppend d) f;
  wFlush f := run_open OpFlush f;
  wSync f := run_open OpSync f;
|}.

Definition open_contents (f : open_file) : bytes := given (proj1_sig f).1 (proj1_sig f).2.

Lemma run_open_spec op f : exists s f', run_open op f = (s, f') /\ (ok s = true -> open_contents f' = open_contents f ++ op_data op) /\
  exists k', run_op (op_fuel f op) op (proj1_sig f).1 (proj1_sig f).2 = Some (s, (proj1_sig f').1, k').
Proof.
  unfold run_open. generalize (run_op_open f op). destruct f as [[f k] Hw]. unfold op_fuel. cbn [proj1_sig fst snd].
  destruct (run_op_ok op f k (fuel_for [op] k) Hw ltac:(lia)) as (s1 & f1 & k1 & E1 & (Hw1 & _ & _ & Hg & _) & _).
  rewrite E1. intros H. cbn [sealed]. eexists s1, _. split; [done|]. split; [exact Hg|]. by exists k1.
Qed.

(** In a system without errors the file keeps the promises of [WritableFileOk]. *)
Context (no_write_error : forall k fd d e k', is_open k fd -> sys_write k fd d = (inl e, k') -> e = EINTR).
Context (no_open_error : forall k name, exists fd, (sys_open k name RdOnly).1 = inr fd).
Context (no_sync_error : forall k fd, (sys_fsync k fd).1 = None).

Lemma WriteUnbuffered_no_error f : forall fuel data k s k', is_open k (wr_fd_ f) -> WriteUnbuffered fuel f data k = Some (s, k') -> s = OK.
Proof.
  induction fuel as [|fuel IH]; intros data k s k' Ho E; destruct data as [|b data]; try discriminate; try (by injection E as <- <-). cbn [WriteUnbuffered] in E.
  pose proof (sys_write_ok k (wr_fd_ f) (b :: data) Ho ltac:(done)) as Hw. destruct (sys_write k (wr_fd_ f) (b :: data)) as [[e|n] k1] eqn:Ew.
  - rewrite (no_write_error _ _ _ _ _ Ho Ew) in E. destruct Hw as [[Ho1 _] _]. by apply (IH _ _ _ _ Ho1 E).
  - destruct Hw as (_ & Ho1 & _). by apply (IH _ _ _ _ Ho1 E).
Qed.

Lemma FlushBuffer_no_error f fuel k s f' k' : is_open k (wr_fd_ f) -> FlushBuffer fuel f k = Some (s, f', k') -> s = OK.
Proof.
  intros Ho. unfold FlushBuffer. destruct (WriteUnbuffered fuel f (buf_ f) k) as [[s1 k1]|] eqn:E; [|done]. cbn [mbind option_bind]. intros [= <- _ _].
  by eapply WriteUnbuffered_no_error.
Qed.

Lemma SyncFd_no_error fd path k : (SyncFd fd path k).1 = OK.
Proof. unfold SyncFd. pose proof (no_sync_error k fd) as Hs. destruct (sys_fsync k fd) as [r k']. cbn [fst] in Hs. by subst r. Qed.

Lemma SyncDir_no_error f k : (SyncDirIfManifest f k).1 = OK.
Proof.
  unfold SyncDirIfManifest. destruct (is_manifest_ f); [|done]. cbn [negb]. destruct (no_open_error k (dirname_ f)) as [fd Hfd]. destruct (sys_open _ _ _) as [r k1]. cbn [fst] in Hfd. subst r.
  pose proof (SyncFd_no_error fd (dirname_ f) k1) as Hs. destruct (SyncFd fd (dirname_ f) k1) as [s k2]. cbn [fst] in Hs. subst s. by destruct (sys_close k2 fd).
Qed.

Lemma run_op_no_error op f k s f' k' : writable_ok f k -> run_op (fuel_for [op] k) op f k = Some (s, f', k') -> s = OK.
Proof.
  intros Hw. pose proof Hw as [Ho Hb]. destruct op as [d| |]; cbn [run_op].
  - unfold Append. set (f1 := with_buf (buf_ f ++ _) f). destruct (_ =? 0); [by intros [= <- _ _]|].
    destruct (FlushBuffer _ f1 k) as [[[s1 f2] k1]|] eqn:Ef; [|done]. cbn [mbind option_bind]. pose proof (FlushBuffer_no_error f1 _ _ _ _ _ Ho Ef) as ->. cbn [ok negb].
    assert (Ho1 : is_open k1 (wr_fd_ f2)).
    { destruct (FlushBuffer_ok f1 (fuel_for [OpAppend d] k) k Ho) as (s2 & k2 & p & E2 & Ho2 & _).
      - unfold fuel_for, f1. cbn [with_buf buf_ map concat op_data]. rewrite app_nil_r, length_app. unfold btake. rewrite length_take. unfold blen in Hb. lia.
      - rewrite E2 in Ef. injection Ef as _ <- <-. exact Ho2. }
    destruct (_ <? _); [by intros [= <- _ _]|]. destruct (WriteUnbuffered _ f2 _ k1) as [[s3 k3]|] eqn:E3; [|done]. cbn [mbind option_bind]. intros [= <- _ _].
    by eapply WriteUnbuffered_no_error.
  - by apply FlushBuffer_no_error.
  - unfold Sync. pose proof (SyncDir_no_error f k) as Hs. destruct (SyncDir_ok f k Ho) as (s0 & k0 & E0 & (Ho0 & _)). rewrite E0 in *. cbn [fst] in Hs. subst s0. cbn [ok negb].
    destruct (FlushBuffer _ f k0) as [[[s1 f2] k1]|] eqn:Ef; [|done]. cbn [mbind option_bind]. pose proof (FlushBuffer_no_error f _ _ _ _ _ Ho0 Ef) as ->. cbn [ok negb].
    pose proof (SyncFd_no_error (wr_fd_ f2) (wr_filename_ f2) k1) as Hs. destruct (SyncFd _ _ _) as [s2 k2]. by intros [= <- _ _].
Qed.

Lemma run_open_ok op f : exists f', run_open op f = (OK, f') /\ open_contents f' = open_contents f ++ op_data op.
Proof.
  destruct (run_open_spec op f) as (s & f' & E & Hg & k' & Er). destruct f as [[f k] Hw]. apply (run_op_no_error op f k s _ k' Hw) in Er as ->.
  exists f'. split; [done|]. by apply Hg.
Qed.

Definition posix_writable_ok : WritableFileOk open_file.
Proof.
  refine {| wcontents := open_contents |}.
  - intros f d. exact (run_open_ok (OpAppend d) f).
  - intros f. destruct (run_open_ok OpFlush f) as (f' & E & Hc). exists f'. split; [exact E|]. by rewrite Hc, app_nil_r.
  - intros f. destruct (run_open_ok OpSync f) as (f' & E & Hc). exists f'. split; [exact E|]. by rewrite Hc, app_nil_r.
Defined.
End Interface.

(** A kernel with one file, descriptor 3, whose writes are interrupted [k_signals]
    times and write at most four bytes. *)
Record kernel := mkKernel { k_data : bytes; k_durable : bytes; k_signals : nat }.

#[local] Instance kernel_posix : Posix kernel := {|
  sys_open k _ _ := (inr 4, k);
  sys_close k _ := (None, k);
  sys_read k _ n := (inr [], k);
  sys_lseek k _ _ := (None, k);
  sys_pread k _ n off := inr (btake n (bdrop off (k_data k)));
  sys_write k fd d :=
    match k_signals k with
    | S n => (inl EINTR, mkKernel (k_data k) (k_durable k) n)
    | O => (inr (Z.min 4 (blen d)), mkKernel (k_data k ++ btake (Z.min 4 (blen d)) d) (k_durable k) 0)
    end;
  sys_fsync k fd := (None, if fd =? 3 then mkKernel (k_data k) (k_data k) (k_signals k) else k);
  sys_mmap k _ n := inr (btake n (k_data k));
  sys_stat k _ := inr (blen (k_data k));
  sys_fcntl_lock k _ _ := (None, k);
  sys_access k _ := true;
  sys_readdir k _ := inr [];
  sys_unlink k _ := (None, k);
  sys_mkdir k _ := (None, k);
  sys_rmdir k _ := (None, k);
  sys_rename k _ _ := (None, k);
  strerror e := [];
|}.

#[local] Program Instance kernel_posix_ok : PosixOk kernel := {|
  is_open k fd := fd = 3;
  file_data k fd := k_data k;
  durable_data k fd := k_durable k;
  interrupts k := k_signals k;
|}.
Next Obligation.
  intros k fd d -> Hd. cbn [sys_write kernel_posix]. destruct (k_signals k) as [|n] eqn:E.
  - cbn [k_data k_signals]. unfold blen. destruct d; [done|]. cbn [length]. split; [lia|]. split; [done|]. split; [done|lia].
  - cbn [k_data k_signals]. split; [|lia]. split; [done|]. split; [done|lia].
Qed.
Next Obligation. intros k fd fd' ->. cbn [sys_fsync kernel_posix]. destruct (Z.eqb_spec fd 3); (split; [by split_and!|]); [by intros|congruence]. Qed.
Next Obligation. intros k name fd ->. cbn [sys_open kernel_posix]. split; [by split_and!|congruence]. Qed.
Next Obligation. intros k fd fd' -> _. cbn [sys_close kernel_posix snd]. by split_and!. Qed.

Lemma posix_writable_file_correct_witness : exists f' k',
  run_ops 65550 [OpAppend (str "hello"); OpAppend (str " log"); OpSync] (newPosixWritableFile (str "db/000003.log") 3) (mkKernel (str "x") [] 2) = Some ([OK; OK; OK], f', k') /\
  k_durable k' = str "xhello log".
Proof.
  destruct (posix_writable_file_correct (str "db/000003.log") 3 [OpAppend (str "hello"); OpAppend (str " log"); OpSync] (mkKernel (str "x") [] 2) 65550)
    as (ss & f' & k' & E & _ & _ & _ & _ & Hd).
  - reflexivity.
  - apply Nat.leb_le. vm_compute. reflexivity.
  - assert (Es : (fun p => p.1.1) <$> run_ops 65550 [OpAppend (str "hello"); OpAppend (str " log"); OpSync] (newPosixWritableFile (str "db/000003.log") 3) (mkKernel (str "x") [] 2)
      = Some [OK; OK; OK]) by (vm_compute; reflexivity).
    rewrite E in Es. injection Es as ->. exists f', k'. split; [exact E|]. exact (Hd eq_refl eq_refl).
Defined.

(** * The mapped file *)

(** C27: the bounds of a mapped read.  A read of [n] bytes at [offset] gives the bytes
    of the file when the range is inside of it and an error when it is not, unless
    the sum of the two wraps around in 64 bits: then a sum that comes out small
    enough passes the test, and the slice that is handed out lies outside of the
    mapping (which is exactly when the read has no result here). *)
Theorem mmap_read_bounds {K} `{Posix K} (f : PosixMmapReadableFile) (offset n : Z) :
  0 <= offset < 2 ^ 64 -> 0 <= n < 2 ^ 64 -> blen (mmap_base_ f) < 2 ^ 63 ->
  MmapRead f offset n =
    if offset + n <=? blen (mmap_base_ f) then Some (OK, btake n (bdrop offset (mmap_base_ f)))
    else if (2 ^ 64 <=? offset + n) && (offset + n - 2 ^ 64 <=? blen (mmap_base_ f)) then None
    else Some (PosixError (mm_filename_ f) EINVAL, []).
Proof.
  intros Ho Hn Hl. unfold MmapRead. pose proof (Zle_0_nat (length (mmap_base_ f))) as Hp. change (Z.of_nat (length (mmap_base_ f))) with (blen (mmap_base_ f)) in Hp.
  destruct (Z.le_gt_cases (2 ^ 64) (offset + n)) as [Hw|Hw].
  - assert (Hu : u64 (offset + n) = offset + n - 2 ^ 64).
    { unfold u64, wrap. symmetry. apply (Z.mod_unique _ _ 1); lia. }
    rewrite Hu. repeat bcase; cbn [andb]; try done; lia.
  - rewrite u64_small by lia. repeat bcase; cbn [andb]; try done; lia.
Qed.

Lemma mmap_read_bounds_witness :
  MmapRead (mkMmap (str "table") (str "f")) 1 3 = Some (OK, str "abl") /\ MmapRead (mkMmap (str "table") (str "f")) (2 ^ 64 - 5) 5 = None.
Proof.
  split.
  - exact (mmap_read_bounds (mkMmap (str "table") (str "f")) 1 3 ltac:(vm_compute; intuition discriminate) ltac:(vm_compute; intuition discriminate) ltac:(vm_compute; reflexivity)).
  - exact (mmap_read_bounds (mkMmap (str "table") (str "f")) (2 ^ 64 - 5) 5 ltac:(vm_compute; intuition discriminate) ltac:(vm_compute; intuition discriminate) ltac:(vm_compute; reflexivity)).
Defined.

(** * The limiter *)

(** The counter, the resources that are out, and the failed tries that are not taken
    back yet; a step is one atomic operation of some thread. *)
Record limiter_state := mkLimiter { counter : Limiter; holders : nat; tries : nat }.

Inductive limiter_step : limiter_state -> limiter_state -> Prop :=
  | limiter_got c h t l : acquire_try c = (true, l) -> limiter_step (mkLimiter c h t) (mkLimiter l (S h) t)
  | limiter_failed c h t l : acquire_try c = (false, l) -> limiter_step (mkLimiter c h t) (mkLimiter l h (S t))
  | limiter_undo c h t : limiter_step (mkLimiter c h (S t)) (mkLimiter (acquire_undo c) h t)
  | limiter_release c h t : limiter_step (mkLimiter c (S h) t) (mkLimiter (Release c) h t).

(** Executions with at most [threads] threads inside of [Acquire]. *)
Inductive limiter_reachable (max : Z) (threads : nat) : limiter_state -> Prop :=
  | limiter_start : limiter_reachable max threads (mkLimiter max 0 0)
  | limiter_next st st' : limiter_reachable max threads st -> limiter_step st st' -> (tries st' <= threads)%nat -> limiter_reachable max threads st'.

Lemma i32_in z : - 2 ^ 31 <= z < 2 ^ 31 -> i32 z = z.
Proof. intros Hz. unfold i32. rewrite Z.mod_small; lia. Qed.

(** The limiter is safe.  With any number of threads below 2^30 that acquire and
    release in any interleaving of the atomic operations, at most [max] resources
    are out at a time, the counter stays inside of an [int] and equals what is left
    less the failed tries under way; so with none under way a try succeeds exactly
    when a resource is left. *)
Theorem limiter_safe (max : Z) (threads : nat) (st : limiter_state) : 0 <= max < 2 ^ 31 -> Z.of_nat threads < 2 ^ 30 -> limiter_reachable max threads st ->
  Z.of_nat (holders st) <= max /\ counter st = max - Z.of_nat (holders st) - Z.of_nat (tries st) /\
  (tries st = 0%nat -> (Acquire (counter st)).1 = (Z.of_nat (holders st) <? max)).
Proof.
  intros Hm Ht Hre. assert (Hinv : (tries st <= threads)%nat /\ Z.of_nat (holders st) <= max /\ counter st = max - Z.of_nat (holders st) - Z.of_nat (tries st)).
  { induction Hre as [|st st' _ IH Hst Hle]; [cbn [tries holders counter]; lia|]. split; [done|]. destruct IH as (I1 & I2 & I3).
    destruct Hst as [c h t l E|c h t l E|c h t|c h t]; cbn [tries holders counter] in *; unfold acquire_try, acquire_undo, Release in *.
    - injection E as Hc <-. apply Z.ltb_lt in Hc. rewrite i32_in by lia. lia.
    - injection E as Hc <-. apply Z.ltb_ge in Hc. rewrite i32_in by lia. lia.
    - rewrite i32_in by lia. lia.
    - rewrite i32_in by lia. lia. }
  destruct Hinv as (_ & H1 & H2). split; [done|]. split; [done|]. intros H0. unfold Acquire, acquire_try. rewrite H2, H0.
  repeat bcase; try done; lia.
Qed.

Lemma limiter_safe_witness : limiter_reachable 1 2 (mkLimiter (-1) 1 1) /\ Z.of_nat (holders (mkLimiter (-1) 1 1)) <= 1.
Proof.
  assert (Hre : limiter_reachable 1 2 (mkLimiter (-1) 1 1)).
  { apply (limiter_next _ _ (mkLimiter 0 1 0)); [apply (limiter_next _ _ (mkLimiter 1 0 0)); [apply limiter_start|apply limiter_got; reflexivity|vm_compute; lia]|apply limiter_failed; reflexivity|vm_compute; lia]. }
  split; [exact Hre|]. destruct (limiter_safe 1 2 (mkLimiter (-1) 1 1)) as [Hh _]; [lia|vm_compute; reflexivity|exact Hre|exact Hh].
Defined.
