(* ===== verification/PosixEnv.v ===== *)
(** util/env_posix.cc, [PosixEnv]: opening files with the two limiters, the
    operations on names, the lock table with [LockFile] and [UnlockFile], and the
    threads that run scheduled work ([Schedule] with [BackgroundThreadMain], and
    [ScheduleLearning] with [BackgroundLearningThreadMain]). *)

From stdpp Require Import base list option gmap strings.
From S2P Require Import Prelude Status PosixFile.

#[local] Open Scope Z_scope.

(** [name.find(pattern) != npos] *)
Fixpoint contains (pattern name : bytes) : bool :=
  bool_decide (pattern `prefix_of` name) ||
  match name with [] => false | _ :: rest => contains pattern rest end.

(** * The environment *)

Record PosixEnv := mkEnv { locks_ : gset bytes; mmap_limiter_ : Limiter; fd_limiter_ : Limiter }.

Definition with_locks (l : gset bytes) (e : PosixEnv) : PosixEnv := mkEnv l (mmap_limiter_ e) (fd_limiter_ e).
Definition with_limiters (mm fd : Limiter) (e : PosixEnv) : PosixEnv := mkEnv (locks_ e) mm fd.

(** The file behind a [RandomAccessFile] pointer. *)
Inductive RandomFile := RaPread (f : PosixRandomAccessFile) | RaMmap (f : PosixMmapReadableFile).

Record PosixFileLock := mkLock { lock_fd : Z; lock_filename : bytes }.

Section Env.
Context {K : Type} `{!Posix K}.

Definition NewSequentialFile (filename : bytes) (k : K) : Status * option PosixSequentialFile * K :=
  let '(r, k) := sys_open k filename RdOnly in
  match r with
  | inl e => (PosixError filename e, None, k)
  | inr fd => (OK, Some (mkSequential fd filename), k)
  end.

Definition GetFileSize (filename : bytes) (k : K) : Status * Z :=
  match sys_stat k filename with
  | inl e => (PosixError filename e, 0)
  | inr size => (OK, size)
  end.

(** The mapping of the whole file. *)
Definition map_file (filename : bytes) (fd : Z) (k : K) : Status * option RandomFile :=
  let '(s, file_size) := GetFileSize filename k in
  if ok s then
    match sys_mmap k fd file_size with
    | inr base => (OK, Some (RaMmap (mkMmap base filename)))
    | inl e => (PosixError filename e, None)
    end
  else (s, None).

Definition NewRandomAccessFile (filename : bytes) (env : PosixEnv) (k : K) : Status * option RandomFile * PosixEnv * K :=
  let '(r, k) := sys_open k filename RdOnly in
  match r with
  | inl e => (PosixError filename e, None, env, k)
  | inr fd =>
      let '(got, mm) := Acquire (mmap_limiter_ env) in
      if negb got || contains (str "vlog") filename then
        let '(f, fdl, k) := newPosixRandomAccessFile filename fd (fd_limiter_ env) k in
        (OK, Some (RaPread f), with_limiters mm fdl env, k)
      else
        let '(s, f) := map_file filename fd k in
        let '(_, k) := sys_close k fd in
        (s, f, with_limiters (if ok s then mm else Release mm) (fd_limiter_ env) env, k)
  end.

(** The destructors. *)
Definition deleteRandomFile (f : RandomFile) (env : PosixEnv) (k : K) : PosixEnv * K :=
  match f with
  | RaPread f => let '(fdl, k) := deletePosixRandomAccessFile f (fd_limiter_ env) k in (with_limiters (mmap_limiter_ env) fdl env, k)
  | RaMmap _ => (with_limiters (Release (mmap_limiter_ env)) (fd_limiter_ env) env, k)
  end.

Definition open_writable (mode : OpenMode) (filename : bytes) (k : K) : Status * option PosixWritableFile * K :=
  let '(r, k) := sys_open k filename mode in
  match r with
  | inl e => (PosixError filename e, None, k)
  | inr fd => (OK, Some (newPosixWritableFile filename fd), k)
  end.
Definition NewWritableFile (filename : bytes) (k : K) : Status * option PosixWritableFile * K :=
  open_writable (if contains (str "vlog") filename then RdWrAppendCreat else TruncWrOnlyCreat) filename k.
Definition NewAppendableFile (filename : bytes) (k : K) : Status * option PosixWritableFile * K :=
  open_writable AppendWrOnlyCreat filename k.

Definition FileExists (filename : bytes) (k : K) : bool := sys_access k filename.
Definition GetChildren (directory_path : bytes) (k : K) : Status * list bytes :=
  match sys_readdir k directory_path with
  | inl e => (PosixError directory_path e, [])
  | inr names => (OK, names)
  end.
Definition DeleteFile (filename : bytes) (k : K) : Status * K :=
  let '(r, k) := sys_unlink k filename in (posix_status filename r, k).
Definition CreateDir (dirname : bytes) (k : K) : Status * K :=
  let '(r, k) := sys_mkdir k dirname in (posix_status dirname r, k).
Definition DeleteDir (dirname : bytes) (k : K) : Status * K :=
  let '(r, k) := sys_rmdir k dirname in (posix_status dirname r, k).
Definition RenameFile (from to : bytes) (k : K) : Status * K :=
  let '(r, k) := sys_rename k from to in (posix_status from r, k).

(** * Locks *)

(** [PosixLockTable] *)
Definition lock_Insert (fname : bytes) (l : gset bytes) : bool * gset bytes := (bool_decide (fname ∉ l), {[fname]} ∪ l).
Definition lock_Remove (fname : bytes) (l : gset bytes) : gset bytes := l ∖ {[fname]}.

Definition LockFile (filename : bytes) (env : PosixEnv) (k : K) : Status * option PosixFileLock * PosixEnv * K :=
  let '(r, k) := sys_open k filename RdWrCreat in
  match r with
  | inl e => (PosixError filename e, None, env, k)
  | inr fd =>
      let '(inserted, l) := lock_Insert filename (locks_ env) in
      let env := with_locks l env in
      if negb inserted then
        let '(_, k) := sys_close k fd in
        (IOError (str "lock " ++ filename) (str "already held by process"), None, env, k)
      else
        let '(r, k) := sys_fcntl_lock k fd true in
        match r with
        | Some lock_errno =>
            let '(_, k) := sys_close k fd in
            (PosixError (str "lock " ++ filename) lock_errno, None, with_locks (lock_Remove filename l) env, k)
        | None => (OK, Some (mkLock fd filename), env, k)
        end
  end.

Definition UnlockFile (lock : PosixFileLock) (env : PosixEnv) (k : K) : Status * PosixEnv * K :=
  let '(r, k) := sys_fcntl_lock k (lock_fd lock) false in
  match r with
  | Some e => (PosixError (str "unlock " ++ lock_filename lock) e, env, k)
  | None =>
      let '(_, k) := sys_close k (lock_fd lock) in
      (OK, with_locks (lock_Remove (lock_filename lock) (locks_ env)) env, k)
  end.
End Env.

(** * Threads *)

(** The queue of a worker thread: [std::queue] takes the oldest item,
    [std::priority_queue] one of the highest priority. *)
Class WorkQueue (A : Type) := { qpop : list A -> option (A * list A) }.
Class WorkQueueOk (A : Type) `{WorkQueue A} := {
  qpop_none q : qpop q = None <-> q = [];
  qpop_some q x q' : qpop q = Some (x, q') -> q ≡ₚ x :: q';
}.

Definition fifo {A} : WorkQueue A := {| qpop q := match q with [] => None | x :: q => Some (x, q) end |}.

(** [BackgroundWorkItem] without its function. *)
Record BackgroundWorkItem := mkItem { item_arg : Z; priority : Z }.

Fixpoint pop_highest (q : list BackgroundWorkItem) : option (BackgroundWorkItem * list BackgroundWorkItem) :=
  match q with
  | [] => None
  | x :: q =>
      match pop_highest q with
      | Some (y, q') => if priority x <? priority y then Some (y, x :: q') else Some (x, q)
      | None => Some (x, [])
      end
  end.
Definition by_priority : WorkQueue BackgroundWorkItem := {| qpop := pop_highest |}.

Section Threads.
Context {A : Type} `{!WorkQueue A}.

(** Where the thread is: not started, about to take the mutex and look at the queue,
    asleep in [Wait], or running an item. *)
Inductive Thread := NotStarted | Ready | Asleep | Working (item : A).

(** The items that were scheduled and those that were run are history. *)
Record Pool := mkPool { pool_thread : Thread; pool_queue : list A; scheduled : list A; finished : list A }.

Definition newPool : Pool := mkPool NotStarted [] [] [].

(** [Schedule], [ScheduleLearning]: the thread is started by the first call; the
    signal, sent when the queue is empty, wakes the thread if it sleeps. *)
Definition Schedule (item : A) (p : Pool) : Pool :=
  let t := match pool_thread p with NotStarted => Ready | t => t end in
  let t := if bool_decide (pool_queue p = []) then match t with Asleep => Ready | t => t end else t in
  mkPool t (pool_queue p ++ [item]) (scheduled p ++ [item]) (finished p).

(** The turns of the thread's loop: it waits or takes an item, and runs it. *)
Definition thread_look (p : Pool) : Pool :=
  match qpop (pool_queue p) with
  | None => mkPool Asleep (pool_queue p) (scheduled p) (finished p)
  | Some (x, q) => mkPool (Working x) q (scheduled p) (finished p)
  end.
Definition thread_finish (x : A) (p : Pool) : Pool := mkPool Ready (pool_queue p) (scheduled p) (finished p ++ [x]).

Inductive pool_step : Pool -> Pool -> Prop :=
  | pool_schedule item p : pool_step p (Schedule item p)
  | pool_look p : pool_thread p = Ready -> pool_step p (thread_look p)
  | pool_finish x p : pool_thread p = Working x -> pool_step p (thread_finish x p)
  (** [Wait] may return without a signal *)
  | pool_spurious p : pool_thread p = Asleep -> pool_step p (mkPool Ready (pool_queue p) (scheduled p) (finished p)).
End Threads.
Arguments Thread A : clear implicits.
Arguments Pool A : clear implicits.
