(* ===== verification/PosixEnvProofs.v ===== *)
(** The POSIX environment (PosixEnv): how opening files counts against the limiters,
    the lock table, and the worker threads. *)

From stdpp Require Import base list option gmap strings.
From S2P Require Import Prelude Status PosixFile PosixFileProofs PosixEnv.

#[local] Open Scope Z_scope.

(** * Limiters *)

Definition in_int (l : Limiter) : Prop := 0 <= l < 2 ^ 31.

Lemma Acquire_cases l : in_int l -> Acquire l = if 0 <? l then (true, l - 1) else (false, l).
Proof.
  intros [H1 H2]. unfold Acquire, acquire_try, acquire_undo. rewrite (i32_in (l - 1)) by lia. bcase; [done|]. by rewrite i32_in, Z.sub_add by lia.
Qed.

Lemma Release_acquired l : in_int l -> 0 < l -> Release (l - 1) = l.
Proof. intros [H1 H2] H0. unfold Release. rewrite i32_in; lia. Qed.

Lemma pread_balanced {K} `{!Posix K} filename fd l (k : K) f l' k' : in_int l -> newPosixRandomAccessFile filename fd l k = (f, l', k') ->
  forall k1, (deletePosixRandomAccessFile f l' k1).1 = l.
Proof.
  intros Hl. unfold newPosixRandomAccessFile. rewrite Acquire_cases by done. bcase.
  - intros [= <- <- <-] k1. unfold deletePosixRandomAccessFile. cbn [has_permanent_fd_ ra_fd_]. destruct (sys_close k1 fd). by apply Release_acquired.
  - destruct (sys_close k fd) as [r k2]. by intros [= <- <- <-] k1.
Qed.

(** Opening and closing a file for random access.  After a file was opened and
    deleted again, both limiters are what they were, whether it was mapped, read
    through a descriptor of its own or one for each read, or could not be mapped;
    except that a name with [vlog] in it takes a mapping from the limiter whenever
    one is left, although the file is not mapped, and never gives it back. *)
Theorem random_access_limiters {K} `{!Posix K} (filename : bytes) (env env' : PosixEnv) (k k' : K) (s : Status) (f : option RandomFile) :
  in_int (mmap_limiter_ env) -> in_int (fd_limiter_ env) -> NewRandomAccessFile filename env k = (s, f, env', k') ->
  ok s = bool_decide (is_Some f) /\
  let closed := match f with Some f => (deleteRandomFile f env' k').1 | None => env' end in
  fd_limiter_ closed = fd_limiter_ env /\
  mmap_limiter_ closed = mmap_limiter_ env - (if contains (str "vlog") filename && (0 <? mmap_limiter_ env) && ok s then 1 else 0).
Proof.
  intros Hm Hf. unfold NewRandomAccessFile. assert (Herr : forall c e, ok (PosixError (K := K) c e) = false) by (intros c e; unfold PosixError; by destruct (e =? ENOENT)).
  destruct (sys_open k filename RdOnly) as [[e|fd] k1]; [intros [= <- <- <- <-]; rewrite Herr, andb_false_r; split; [done|]; split; [done|lia]|].
  rewrite Acquire_cases by done. destruct (Z.ltb_spec 0 (mmap_limiter_ env)) as [H0|H0]; cbn [negb orb].
  - destruct (contains (str "vlog") filename); cbn [andb].
    + destruct (newPosixRandomAccessFile filename fd (fd_limiter_ env) k1) as [[g fdl] k2] eqn:E. intros [= <- <- <- <-]. split; [done|].
      pose proof (pread_balanced _ _ _ _ _ _ _ Hf E k2) as Hb. cbn [deleteRandomFile with_limiters fd_limiter_ mmap_limiter_].
      destruct (deletePosixRandomAccessFile g fdl k2) as [l k3]. cbn [fst ok with_limiters fd_limiter_ mmap_limiter_] in *. split; [done|lia].
    + destruct (map_file filename fd k1) as [s1 f1] eqn:E. destruct (sys_close k1 fd) as [r k2]. intros [= <- <- <- <-].
      assert (Hs : ok s1 = bool_decide (is_Some f1) /\ forall g, f1 = Some g -> exists m, g = RaMmap m).
      { revert E. unfold map_file, GetFileSize. destruct (sys_stat k1 filename) as [e|n]; [rewrite Herr; intros [= <- <-]; by rewrite Herr|]. cbn [ok].
        destruct (sys_mmap k1 fd n) as [e|base]; intros [= <- <-]; [by rewrite Herr|]. split; [done|]. intros g [= <-]. by eexists. }
      destruct Hs as [Hs Hg]. split; [done|]. destruct f1 as [g|].
      * destruct (Hg g eq_refl) as [m ->]. rewrite Hs, bool_decide_true by (by eexists). cbn [deleteRandomFile fst with_limiters fd_limiter_ mmap_limiter_].
        split; [done|]. rewrite Release_acquired by done. lia.
      * rewrite Hs, bool_decide_false by (by intros []). cbn [with_limiters fd_limiter_ mmap_limiter_]. split; [done|]. rewrite Release_acquired by done. lia.
  - destruct (newPosixRandomAccessFile filename fd (fd_limiter_ env) k1) as [[g fdl] k2] eqn:E. intros [= <- <- <- <-]. split; [done|].
    pose proof (pread_balanced _ _ _ _ _ _ _ Hf E k2) as Hb. rewrite andb_false_r. cbn [andb deleteRandomFile with_limiters fd_limiter_ mmap_limiter_].
    destruct (deletePosixRandomAccessFile g fdl k2) as [l k3]. cbn [fst with_limiters fd_limiter_ mmap_limiter_] in *. split; [done|lia].
Qed.

(** * Locks *)

Section Locks.
Context {K : Type} `{!Posix K}.

(** The locks that the process holds with the environment and the kernel. *)
Definition LockState : Type := list PosixFileLock * PosixEnv * K.

Inductive lock_step : LockState -> LockState -> Prop :=
  | step_lock held env k filename s lock env' k' : LockFile filename env k = (s, lock, env', k') ->
      lock_step (held, env, k) (held ++ match lock with Some l => [l] | None => [] end, env', k')
  | step_unlock l1 lock l2 env k s env' k' : UnlockFile lock env k = (s, env', k') ->
      lock_step (l1 ++ lock :: l2, env, k) (if ok s then l1 ++ l2 else l1 ++ lock :: l2, env', k').

Definition locks_inv (st : LockState) : Prop :=
  NoDup (map lock_filename st.1.1) /\ locks_ st.1.2 = list_to_set (map lock_filename st.1.1).

Lemma error_not_ok c e : ok (PosixError (K := K) c e) = false.
Proof. unfold PosixError. by destruct (e =? ENOENT). Qed.

Lemma lock_step_inv st st' : lock_step st st' -> locks_inv st -> locks_inv st'.
Proof.
  intros Hst [Hnd Hl]. destruct Hst as [held env k filename s lock env' k' E|l1 lock l2 env k s env' k' E]; unfold locks_inv in *; cbn [fst snd] in *.
  - revert E. unfold LockFile. destruct (sys_open k filename RdWrCreat) as [[e|fd] k1]; [intros [= <- <- <- <-]; by rewrite app_nil_r|].
    unfold lock_Insert. case_bool_decide as Hin; cbn [negb].
    + destruct (sys_fcntl_lock k1 fd true) as [[e|] k2].
      * destruct (sys_close k2 fd) as [r k3]. intros [= <- <- <- <-]. rewrite app_nil_r. split; [done|]. cbn [with_locks locks_]. unfold lock_Remove. set_solver.
      * intros [= <- <- <- <-]. rewrite map_app. cbn [map lock_filename with_locks locks_]. rewrite Hl in *. split; [|rewrite list_to_set_app_L; set_solver].
        apply NoDup_app. split; [done|]. split; [|apply NoDup_singleton]. intros x Hx ->%list_elem_of_singleton. apply Hin. by apply elem_of_list_to_set.
    + destruct (sys_close k1 fd) as [r k2]. intros [= <- <- <- <-]. rewrite app_nil_r. split; [done|]. cbn [with_locks locks_]. set_solver.
  - revert E. unfold UnlockFile. destruct (sys_fcntl_lock k (lock_fd lock) false) as [[e|] k1].
    + intros [= <- <- <-]. by rewrite error_not_ok.
    + destruct (sys_close k1 (lock_fd lock)) as [r k2]. intros [= <- <- <-]. cbn [ok with_locks locks_]. rewrite !map_app in *. cbn [map] in Hnd, Hl.
      apply NoDup_app in Hnd as (N1 & N2 & N3). apply NoDup_cons in N3 as [N3 N4]. split.
      * apply NoDup_app. split; [done|]. split; [|done]. intros x Hx Hx2. apply (N2 x Hx). by right.
      * rewrite Hl. unfold lock_Remove. rewrite !list_to_set_app_L. cbn [list_to_set]. assert (lock_filename lock ∉ map lock_filename l1) by (intros Hx; apply (N2 _ Hx); by left). set_solver.
Qed.

(** Within a process a name is locked once: another [LockFile] fails, and the table
    keeps the name. *)
Lemma lock_exclusive k0 mm fdl st filename : rtc lock_step ([], mkEnv ∅ mm fdl, k0) st -> filename ∈ map lock_filename st.1.1 ->
  let '(s, lock, env', _) := LockFile filename st.1.2 st.2 in ok s = false /\ lock = None /\ filename ∈ locks_ env'.
Proof.
  intros Hre Hin. assert (Hi : locks_inv st).
  { assert (Hg : forall a b, rtc lock_step a b -> locks_inv a -> locks_inv b) by (induction 1; [done|intros; by eauto using lock_step_inv]).
    apply (Hg _ _ Hre). split; [constructor|done]. }
  destruct Hi as [_ Hl]. assert (Hf : filename ∈ locks_ st.1.2) by (rewrite Hl; by apply elem_of_list_to_set).
  unfold LockFile. destruct (sys_open st.2 filename RdWrCreat) as [[e|fd] k1]; [by rewrite error_not_ok|]. unfold lock_Insert. rewrite bool_decide_false by (intros Hn; by apply Hn).
  cbn [negb]. destruct (sys_close k1 fd) as [r k2]. cbn [with_locks locks_]. split; [done|]. split; [done|]. set_solver.
Qed.
End Locks.

(** What POSIX says of record locks: they belong to the process and the file, a lock
    that is granted is held, and closing any descriptor of the file drops it. *)
Class RecordLocks (K : Type) `{Posix K} := {
  fd_name : K -> Z -> option bytes;
  locked : K -> bytes -> bool;
  open_names k name mode fd k' : sys_open k name mode = (inr fd, k') -> fd_name k' fd = Some name /\ forall n, locked k' n = locked k n;
  lock_granted k fd name k' : fd_name k fd = Some name -> sys_fcntl_lock k fd true = (None, k') -> locked k' name = true;
  close_drops k fd name : fd_name k fd = Some name -> locked (sys_close k fd).2 name = false;
}.

(** A second [LockFile] unlocks the database.  A process that holds the lock of a
    file and calls [LockFile] for it again is told that it holds it already; but the
    descriptor that was opened for the second try is closed, and with it the lock
    that the system keeps for the process is gone, while the lock table still has
    the name: another process can now lock the file. *)
Theorem second_lock_unlocks {K} `{!Posix K} `{!RecordLocks K} (filename : bytes) (env env1 : PosixEnv) (k k1 : K) (s : Status) (lock : PosixFileLock) :
  LockFile filename env k = (s, Some lock, env1, k1) -> (forall e k', sys_open k1 filename RdWrCreat <> (inl e, k')) ->
  locked k1 filename = true /\
  exists env2 k2, LockFile filename env1 k1 = (IOError (str "lock " ++ filename) (str "already held by process"), None, env2, k2) /\
    filename ∈ locks_ env2 /\ locked k2 filename = false.
Proof.
  intros E1 Hopen. assert (H1 : locked k1 filename = true /\ filename ∈ locks_ env1).
  { revert E1. unfold LockFile. destruct (sys_open k filename RdWrCreat) as [[e|fd] ka] eqn:Eo; [done|]. destruct (open_names _ _ _ _ _ Eo) as [Hn _].
    unfold lock_Insert. case_bool_decide; cbn [negb]; [|by destruct (sys_close ka fd)]. destruct (sys_fcntl_lock ka fd true) as [[e|] kb] eqn:El; [by destruct (sys_close kb fd)|].
    intros [= _ _ <- <-]. split; [by eapply lock_granted|]. cbn [with_locks locks_]. set_solver. }
  destruct H1 as [Hl Hin]. split; [done|]. unfold LockFile. destruct (sys_open k1 filename RdWrCreat) as [[e|fd] ka] eqn:Eo; [by destruct (Hopen e ka)|].
  destruct (open_names _ _ _ _ _ Eo) as [Hn _]. unfold lock_Insert. rewrite bool_decide_false by (intros Hx; by apply Hx). cbn [negb].
  pose proof (close_drops ka fd filename Hn) as Hd. destruct (sys_close ka fd) as [r kb]. eexists _, kb. split; [done|]. split; [cbn [with_locks locks_]; set_solver|done].
Qed.

(** A kernel with files that are only opened, closed and locked. *)
Record lock_kernel := mkLockKernel { lk_fds : gmap Z bytes; lk_next : Z; lk_locked : gset bytes }.
#[local] Instance lock_posix : Posix lock_kernel := {|
  sys_open k name _ := (inr (lk_next k), mkLockKernel (<[lk_next k := name]> (lk_fds k)) (lk_next k + 1) (lk_locked k));
  sys_close k fd := (None, mkLockKernel (delete fd (lk_fds k)) (lk_next k)
    (match lk_fds k !! fd with Some name => lk_locked k ∖ {[name]} | None => lk_locked k end));
  sys_read k _ _ := (inr [], k);
  sys_lseek k _ _ := (None, k);
  sys_pread k _ _ _ := inr [];
  sys_write k _ d := (inr (blen d), k);
  sys_fsync k _ := (None, k);
  sys_mmap k _ _ := inr [];
  sys_stat k _ := inr 0;
  sys_fcntl_lock k fd lock := (None, mkLockKernel (lk_fds k) (lk_next k)
    (match lk_fds k !! fd with Some name => if lock then {[name]} ∪ lk_locked k else lk_locked k ∖ {[name]} | None => lk_locked k end));
  sys_access k _ := true;
  sys_readdir k _ := inr [];
  sys_unlink k _ := (None, k);
  sys_mkdir k _ := (None, k);
  sys_rmdir k _ := (None, k);
  sys_rename k _ _ := (None, k);
  strerror e := [];
|}.
#[local] Program Instance lock_kernel_locks : RecordLocks lock_kernel := {|
  fd_name k fd := lk_fds k !! fd;
  locked k name := bool_decide (name ∈ lk_locked k);
|}.
Next Obligation. intros k name mode fd k' [= <- <-]. cbn [lk_fds lk_locked]. by rewrite lookup_insert_eq. Qed.
Next Obligation. intros k fd name k' Hn. cbn [sys_fcntl_lock lock_posix]. rewrite Hn. intros [= <-]. cbn [lk_locked]. apply bool_decide_true. set_solver. Qed.
Next Obligation. intros k fd name Hn. cbn [sys_close lock_posix snd lk_locked]. rewrite Hn. apply bool_decide_false. set_solver. Qed.

Lemma second_lock_unlocks_witness : exists lock env1 k1 env2 k2,
  LockFile (str "db/LOCK") (mkEnv ∅ 0 0) (mkLockKernel ∅ 3 ∅) = (OK, Some lock, env1, k1) /\ locked k1 (str "db/LOCK") = true /\
  LockFile (str "db/LOCK") env1 k1 = (IOError (str "lock db/LOCK") (str "already held by process"), None, env2, k2) /\ locked k2 (str "db/LOCK") = false.
Proof.
  destruct (LockFile (str "db/LOCK") (mkEnv ∅ 0 0) (mkLockKernel ∅ 3 ∅)) as [[[s lock] env1] k1] eqn:E.
  assert (Hs : s = OK /\ exists l, lock = Some l) by (vm_compute in E; injection E as <- <- _ _; split; [reflexivity|eexists; reflexivity]).
  destruct Hs as [-> [l ->]]. destruct (second_lock_unlocks (str "db/LOCK") (mkEnv ∅ 0 0) env1 (mkLockKernel ∅ 3 ∅) k1 OK l) as (Hl & env2 & k2 & E2 & _ & Hu).
  - exact E.
  - intros e k'. discriminate.
  - exists l, env1, k1, env2, k2. split; [reflexivity|]. split; [exact Hl|]. split; [exact E2|exact Hu].
Defined.

Lemma random_access_limiters_witness : exists s f env' k',
  NewRandomAccessFile (str "db/vlog.txt") (mkEnv ∅ 10 10) (mkLockKernel ∅ 3 ∅) = (s, Some f, env', k') /\ mmap_limiter_ (deleteRandomFile f env' k').1 = 9.
Proof.
  destruct (NewRandomAccessFile (str "db/vlog.txt") (mkEnv ∅ 10 10) (mkLockKernel ∅ 3 ∅)) as [[[s f] env'] k'] eqn:E.
  destruct (random_access_limiters (str "db/vlog.txt") (mkEnv ∅ 10 10) env' (mkLockKernel ∅ 3 ∅) k' s f) as (_ & _ & Hm).
  - vm_compute. intuition discriminate.
  - vm_compute. intuition discriminate.
  - exact E.
  - assert (Hs : s = OK /\ exists g, f = Some g) by (vm_compute in E; injection E as <- <- _ _; split; [reflexivity|eexists; reflexivity]).
    destruct Hs as [-> [g ->]]. exists OK, g, env', k'. split; [reflexivity|]. exact Hm.
Defined.

(** * Threads *)

#[local] Program Instance fifo_ok {A} : @WorkQueueOk A fifo.
Next Obligation. intros A q. by destruct q. Qed.
Next Obligation. intros A q x q' E. destruct q; [done|]. cbn [qpop fifo] in E. by injection E as -> ->. Qed.

Lemma pop_highest_spec q : match pop_highest q with
  | None => q = []
  | Some (x, q') => q ≡ₚ x :: q' /\ Forall (fun y => priority y <= priority x) q
  end.
Proof.
  induction q as [|x q IH]; [done|]. cbn [pop_highest]. destruct (pop_highest q) as [[y q']|] eqn:E.
  - destruct IH as [Hp Hf]. bcase.
    + split; [rewrite Hp; constructor|]. constructor; [lia|done].
    + split; [done|]. constructor; [lia|]. eapply Forall_impl; [exact Hf|]. intros z Hz. cbn beta in Hz. lia.
  - subst q. split; [done|]. repeat constructor. lia.
Qed.

#[local] Program Instance by_priority_ok : @WorkQueueOk BackgroundWorkItem by_priority.
Next Obligation. intros q. cbn [qpop by_priority]. pose proof (pop_highest_spec q) as Hs. destruct (pop_highest q) as [[x q']|]; [|done]. destruct Hs as [Hp _]. split; [done|]. intros ->. by apply Permutation_nil_cons in Hp. Qed.
Next Obligation. intros q x q' E. cbn [qpop by_priority] in E. pose proof (pop_highest_spec q) as Hs. rewrite E in Hs. by destruct Hs. Qed.

Section Threads.
Context {A : Type} `{!WorkQueue A} `{!WorkQueueOk A}.

Definition working (p : Pool A) : list A := match pool_thread p with Working x => [x] | _ => [] end.

Record pool_inv (p : Pool A) : Prop := {
  pi_all : scheduled p ≡ₚ finished p ++ working p ++ pool_queue p;
  pi_wake : pool_thread p = Asleep \/ pool_thread p = NotStarted -> pool_queue p = [];
}.

Lemma pool_step_inv p p' : pool_step p p' -> pool_inv p -> pool_inv p'.
Proof.
  intros Hst [Ha Hw]. destruct Hst as [item p|p Ht|x p Ht|p Ht]; unfold working in *.
  - split; unfold Schedule; cbn [scheduled finished pool_thread pool_queue].
    + trans ((finished p ++ match pool_thread p with Working x => [x] | _ => [] end ++ pool_queue p) ++ [item]); [by rewrite <- Ha|].
      rewrite <- !app_assoc. f_equiv. f_equiv. unfold working. cbn [pool_thread]. destruct (pool_thread p); case_bool_decide; done.
    + intros [Hx|Hx]; exfalso; revert Hx; destruct (pool_thread p) eqn:Et; case_bool_decide as Hq; try done. by destruct Hq; apply Hw; left.
  - rewrite Ht in Ha. cbn [app] in Ha. unfold thread_look. destruct (qpop (pool_queue p)) as [[x q]|] eqn:Eq.
    + split; cbn [scheduled finished pool_thread pool_queue working]; [|by intros [?|?]]. rewrite Ha. f_equiv. by apply qpop_some in Eq as ->.
    + apply qpop_none in Eq. split; cbn [scheduled finished pool_thread pool_queue]; [done|]. by intros _.
  - rewrite Ht in Ha. split; cbn [thread_finish scheduled finished pool_thread pool_queue working app]; [|by intros [?|?]]. by rewrite Ha, <- app_assoc.
  - rewrite Ht in Ha. split; cbn [scheduled finished pool_thread pool_queue app]; [done|]. by intros [?|?].
Qed.

Lemma pool_reachable_inv p : rtc pool_step newPool p -> pool_inv p.
Proof.
  intros Hre. assert (Hg : forall a b, rtc pool_step a b -> pool_inv a -> pool_inv b) by (induction 1; [done|intros; by eauto using pool_step_inv]).
  apply (Hg _ _ Hre). split; done.
Qed.

(** The thread alone empties its queue. *)
Lemma pool_drains : forall n p, length (pool_queue p) = n -> pool_inv p -> pool_thread p <> NotStarted ->
  exists p', rtc pool_step p p' /\ scheduled p' = scheduled p /\ pool_thread p' = Asleep.
Proof.
  induction n as [|n IH]; intros p Hn Hi Hs.
  - assert (Hready : forall p, length (pool_queue p) = 0%nat -> pool_thread p = Ready -> exists p', rtc pool_step p p' /\ scheduled p' = scheduled p /\ pool_thread p' = Asleep).
    { intros q Hq Ht. exists (thread_look q). split; [apply rtc_once; by apply pool_look|]. unfold thread_look.
      destruct (pool_queue q) eqn:Eq; [|done]. by rewrite (proj2 (qpop_none []) eq_refl). }
    destruct (pool_thread p) as [| | |x] eqn:Et; [done|by apply Hready|exists p; split; [apply rtc_refl|done]|].
    destruct (Hready (thread_finish x p)) as (p' & H1 & H2 & H3); [done|done|]. exists p'. split; [|done]. apply (rtc_l _ _ (thread_finish x p)); [by apply pool_finish|done].
  - assert (Hready : forall p, length (pool_queue p) = S n -> pool_inv p -> pool_thread p = Ready -> exists p', rtc pool_step p p' /\ scheduled p' = scheduled p /\ pool_thread p' = Asleep).
    { intros q Hq Hiq Ht. pose proof (pool_look q Ht) as Hst. pose proof (pool_step_inv _ _ Hst Hiq) as Hi'. revert Hst Hi'. unfold thread_look.
      destruct (qpop (pool_queue q)) as [[x q']|] eqn:Eq; [|apply qpop_none in Eq; by rewrite Eq in Hq]. intros Hst Hi'.
      pose proof (qpop_some _ _ _ Eq) as Hp. apply Permutation_length in Hp. cbn [length] in Hp.
      destruct (IH _ (ltac:(cbn [pool_queue]; lia) : length (pool_queue (mkPool (Working x) q' (scheduled q) (finished q))) = n) Hi' ltac:(done)) as (p' & H1 & H2 & H3).
      exists p'. split; [by apply (rtc_l _ _ _ _ Hst)|done]. }
    destruct (pool_thread p) as [| | |x] eqn:Et; [done|by apply Hready| |].
    + rewrite (pi_wake p Hi) in Hn by (by left). done.
    + pose proof (pool_finish x p Et) as Hst. destruct (Hready (thread_finish x p) Hn (pool_step_inv _ _ Hst Hi) eq_refl) as (p' & H1 & H2 & H3).
      exists p'. split; [by apply (rtc_l _ _ _ _ Hst)|done].
Qed.
End Threads.

(** With the queue of [Schedule] the items run in the order they were scheduled. *)
Lemma pool_step_fifo {A} (p p' : Pool A) : @pool_step A fifo p p' ->
  finished p ++ working p ++ pool_queue p = scheduled p -> finished p' ++ working p' ++ pool_queue p' = scheduled p'.
Proof.
  intros Hst Ha. destruct Hst as [item p|p Ht|x p Ht|p Ht]; unfold working in *.
  - unfold Schedule. cbn [scheduled finished pool_thread pool_queue]. rewrite <- Ha, <- !app_assoc. f_equal. f_equal. destruct (pool_thread p); case_bool_decide; done.
  - rewrite Ht in Ha. cbn [app] in Ha. unfold thread_look. cbn [qpop fifo]. destruct (pool_queue p) as [|x q] eqn:Eq; cbn [scheduled finished pool_thread pool_queue app]; done.
  - rewrite Ht in Ha. cbn [thread_finish scheduled finished pool_thread pool_queue app] in *. by rewrite <- Ha, <- app_assoc.
  - by rewrite Ht in Ha.
Qed.

(** C25: scheduled work runs.  In every interleaving of [Schedule] calls with the
    turns of the background thread (and wake-ups without a signal): the thread never
    sleeps while the queue holds an item, each item is run once and in the order of
    scheduling, and from every state in which something was scheduled the thread
    alone comes to have run all of it. *)
Theorem scheduled_work_runs {A} (p : Pool A) : rtc (@pool_step A fifo) newPool p ->
  (pool_thread p = Asleep -> pool_queue p = []) /\
  finished p ++ working p ++ pool_queue p = scheduled p /\
  (scheduled p <> [] -> exists p', rtc (@pool_step A fifo) p p' /\ scheduled p' = scheduled p /\ finished p' = scheduled p).
Proof.
  intros Hre. pose proof (@pool_reachable_inv A fifo fifo_ok p Hre) as Hi.
  assert (Hall : forall a b, rtc (@pool_step A fifo) a b -> finished a ++ working a ++ pool_queue a = scheduled a -> finished b ++ working b ++ pool_queue b = scheduled b)
    by (induction 1; [done|intros; by eauto using pool_step_fifo]).
  pose proof (Hall _ _ Hre eq_refl) as Ha. split; [intros Ht; apply (pi_wake p Hi); by left|]. split; [done|]. intros Hne.
  assert (Hstart : pool_thread p <> NotStarted).
  { intros Ht. assert (Hn : forall a b, rtc (@pool_step A fifo) a b -> (pool_thread a = NotStarted -> scheduled a = []) -> pool_thread b = NotStarted -> scheduled b = []).
    { induction 1 as [|a b c Hab _ IH]; [auto|]. intros H0 Hc. apply IH; [|done]. intros Hb. destruct Hab as [item a|a Hat|x a Hat|a Hat]; [|by revert Hb; unfold thread_look; destruct (qpop _) as [[]|]|done..].
      exfalso. revert Hb. unfold Schedule. cbn [pool_thread]. by destruct (pool_thread a), (bool_decide _). }
    by apply Hne, (Hn newPool p Hre). }
  destruct (@pool_drains A fifo fifo_ok _ p eq_refl Hi Hstart) as (p' & H1 & H2 & H3). exists p'. split; [done|]. split; [done|].
  pose proof (Hall _ _ H1 Ha) as Hf. assert (Hi' : @pool_inv A p').
  { apply (@pool_reachable_inv A fifo fifo_ok). by etrans. }
  rewrite (pi_wake p' Hi') in Hf by (by left). unfold working in Hf. rewrite H3 in Hf. cbn [app] in Hf. rewrite app_nil_r in Hf. by rewrite Hf.
Qed.

Lemma scheduled_work_runs_witness : exists p', rtc (@pool_step Z fifo) (Schedule 2 (thread_look (WorkQueue0 := fifo) (Schedule 1 newPool))) p' /\ finished p' = [1; 2].
Proof.
  destruct (scheduled_work_runs (Schedule 2 (thread_look (WorkQueue0 := fifo) (Schedule 1 newPool)))) as (_ & _ & Hd).
  - apply (rtc_l _ _ (Schedule 1 newPool)); [apply pool_schedule|]. apply (rtc_l _ _ (thread_look (WorkQueue0 := fifo) (Schedule 1 newPool))); [apply pool_look; reflexivity|].
    apply rtc_once, pool_schedule.
  - destruct (Hd ltac:(discriminate)) as (p' & H1 & H2 & H3). exists p'. split; [exact H1|]. exact H3.
Defined.
