(* ===== verification/LearnScheduler.v ===== *)
(** The choice of the files to learn: mod/Counter.cpp (counters by level),
    mod/CBMode_Learn.cpp (the cost-benefit analyzer, [CBModel_Learn]) and, in
    util/env_posix.cc, the queue of new files with the thread that examines it
    ([PrepareLearning], [PrepareLearn]).

    Scores are computed in an arithmetic [T] (Plr): exact rationals for the
    theorems, binary64 as in the program. *)

From stdpp Require Import base list option sorting.
From Stdlib Require Import QArith Qfield.
From S2P Require Import Prelude DbFormat Plr.

#[local] Open Scope Z_scope.

(** * [Counter] *)

Record Counter := mkCounter { counts : list Z; nums : list Z }.

Definition newCounter : Counter :=
  mkCounter (replicate (Z.to_nat kNumLevels + 1) 0) (replicate (Z.to_nat kNumLevels + 1) 0).

(** [None]: the level is outside of the vectors. *)
Definition Increment (level : nat) (n : Z) (c : Counter) : option Counter :=
  if (level <? length (counts c))%nat
  then Some (mkCounter (alter (fun x => u64 (x + n)) level (counts c)) (alter (fun x => u64 (x + 1)) level (nums c)))
  else None.

Definition Counter_Reset (c : Counter) : Counter := mkCounter (map (fun _ => 0) (counts c)) (map (fun _ => 0) (nums c)).

Definition count_at (level : nat) (c : Counter) : Z := nth level (counts c) 0.
Definition num_at (level : nat) (c : Counter) : Z := nth level (nums c) 0.

(** * [CBModel_Learn] *)

(** The two counters of a vector: without a model, with one. *)
Record CBModel := mkCBModel {
  negative_lookups_time : Counter * Counter;
  positive_lookups_time : Counter * Counter;
  num_positive_lookups_file : Counter;
  num_negative_lookups_file : Counter;
  file_sizes : Counter;
  learn_costs : Counter;
  learn_sizes : Counter;
}.

Definition newCBModel : CBModel :=
  mkCBModel (newCounter, newCounter) (newCounter, newCounter) newCounter newCounter newCounter newCounter newCounter.

Definition const_size_to_cost : Z := 10.
Definition lookup_average_limit : Z := 10000.
Definition file_average_limit : list Z := [10; 20; 20; 20; 20; 500; 500].

Definition increment_at (model : bool) (level : nat) (n : Z) (cs : Counter * Counter) : option (Counter * Counter) :=
  if model then c ← Increment level n cs.2; Some (cs.1, c) else c ← Increment level n cs.1; Some (c, cs.2).

Definition AddLookupData (level : nat) (positive model : bool) (value : Z) (m : CBModel) : option CBModel :=
  if positive then
    p ← increment_at model level value (positive_lookups_time m);
    Some (mkCBModel (negative_lookups_time m) p (num_positive_lookups_file m) (num_negative_lookups_file m) (file_sizes m) (learn_costs m) (learn_sizes m))
  else
    n ← increment_at model level value (negative_lookups_time m);
    Some (mkCBModel n (positive_lookups_time m) (num_positive_lookups_file m) (num_negative_lookups_file m) (file_sizes m) (learn_costs m) (learn_sizes m)).

Definition AddFileData (level : nat) (num_negative num_positive size : Z) (m : CBModel) : option CBModel :=
  n ← Increment level num_negative (num_negative_lookups_file m);
  p ← Increment level num_positive (num_positive_lookups_file m);
  s ← Increment level size (file_sizes m);
  Some (mkCBModel (negative_lookups_time m) (positive_lookups_time m) p n s (learn_costs m) (learn_sizes m)).

Definition AddLearnCost (level : nat) (cost size : Z) (m : CBModel) : option CBModel :=
  c ← Increment level cost (learn_costs m);
  s ← Increment level size (learn_sizes m);
  Some (mkCBModel (negative_lookups_time m) (positive_lookups_time m) (num_positive_lookups_file m) (num_negative_lookups_file m) (file_sizes m) c s).

Section Score.
Context {T : Type} `{!Arith T}.

(** One sign of the loop over [i]: the time of a lookup without and with a model,
    and the lookups of a file, which are not counted when one of the two times has
    fewer than 500 samples. *)
Definition sampled (num time : Z) : T := if num <? 500 then ofZ 0 else adiv (ofZ time) (ofZ num).
Definition lookups_counted (num0 num1 : Z) (average : T) : T := if (num0 <? 500) || (num1 <? 500) then ofZ 0 else average.

Definition CalculateCB (policy : Z) (level : nat) (m : CBModel) : T :=
  if policy =? 2 then ofZ 0
  else
    let num_pos0 := i32 (num_at level (positive_lookups_time m).1) in
    let num_pos1 := i32 (num_at level (positive_lookups_time m).2) in
    let num_neg0 := i32 (num_at level (negative_lookups_time m).1) in
    let num_neg1 := i32 (num_at level (negative_lookups_time m).2) in
    let num_files := i32 (num_at level (num_negative_lookups_file m)) in
    if num_files <? nth level file_average_limit 0 then ofZ (const_size_to_cost + 1)
    else
      let average_pos_lookups := adiv (ofZ (count_at level (num_positive_lookups_file m))) (ofZ num_files) in
      let average_neg_lookups := adiv (ofZ (count_at level (num_negative_lookups_file m))) (ofZ num_files) in
      if (i32 (num_pos0 + num_neg0) <? lookup_average_limit) || (i32 (num_pos1 + num_neg1) <? lookup_average_limit) then ofZ 0
      else
        let pos_gain := amul (asub (sampled num_pos0 (count_at level (positive_lookups_time m).1)) (sampled num_pos1 (count_at level (positive_lookups_time m).2)))
                          (lookups_counted num_pos0 num_pos1 average_pos_lookups) in
        let neg_gain := amul (asub (sampled num_neg0 (count_at level (negative_lookups_time m).1)) (sampled num_neg1 (count_at level (negative_lookups_time m).2)))
                          (lookups_counted num_neg0 num_neg1 average_neg_lookups) in
        if policy =? 1 then ofZ (const_size_to_cost + 1)
        else amul (adiv (aadd pos_gain neg_gain) (ofZ (count_at level (file_sizes m)))) (ofZ num_files).

(** * The queue of new files *)

(** [LearnParam]; [lp_meta] is the address of the copy of the file's metadata. *)
Record LearnParam := mkParam { lp_time : Z; lp_level : nat; lp_meta : Z; lp_file_size : Z }.

(** [PrepareLearning]: only in the modes that learn, and not during loading. *)
Definition PrepareLearning (fresh_write : bool) (MOD : Z) (p : LearnParam) (learning_prepare : list LearnParam) : list LearnParam :=
  if fresh_write || (negb (MOD =? 6) && negb (MOD =? 7) && negb (MOD =? 9)) then learning_prepare
  else learning_prepare ++ [p].

(** The inner loop of [PrepareLearn]: files that have waited long enough leave the
    queue, with a score; the first that has not ends it.  The boolean says that it
    did ([wait_for_time]). *)
Fixpoint examine (learn_trigger_time time_start : Z) (score : LearnParam -> T) (queue : list LearnParam)
  : list (T * LearnParam) * list LearnParam * bool :=
  match queue with
  | [] => ([], [], false)
  | p :: rest =>
      if 0 <? i64 (u64 (lp_time p + learn_trigger_time - time_start)) then ([], queue, true)
      else
        let '(pq, later, wait) := examine learn_trigger_time time_start score rest in
        (if altb (ofZ const_size_to_cost) (score p) then (score p, p) :: pq else pq, later, wait)
  end.

(** [std::pair]'s order: the score, then the time, the level and the address. *)
Definition param_lt (p q : LearnParam) : bool :=
  (lp_time p <? lp_time q) ||
  ((lp_time p =? lp_time q) && ((lp_level p <? lp_level q)%nat || ((lp_level p =? lp_level q)%nat && (lp_meta p <? lp_meta q)))).
Definition pq_lt (a b : T * LearnParam) : bool := altb a.1 b.1 || (negb (altb b.1 a.1) && param_lt a.2 b.2).

(** [learn_pq]: the greatest element and the others. *)
Fixpoint pq_top (q : list (T * LearnParam)) : option ((T * LearnParam) * list (T * LearnParam)) :=
  match q with
  | [] => None
  | a :: q =>
      match pq_top q with
      | Some (b, q') => if pq_lt a b then Some (b, a :: q') else Some (a, q)
      | None => Some (a, [])
      end
  end.

(** The files in the order in which [FileLearn] is called; the fuel is the number
    of elements. *)
Fixpoint learn_all (fuel : nat) (q : list (T * LearnParam)) : list (T * LearnParam) :=
  match fuel with
  | O => []
  | S fuel => match pq_top q with Some (a, q) => a :: learn_all fuel q | None => [] end
  end.

(** A turn of the outer loop of [PrepareLearn] at [time_start]: the calls of
    [FileLearn], what is left of the queue, and whether the thread sleeps. *)
Definition prepare_turn (learn_trigger_time time_start : Z) (score : LearnParam -> T) (queue : list LearnParam)
  : list LearnParam * list LearnParam * bool :=
  let '(pq, later, wait) := examine learn_trigger_time time_start score queue in
  (map snd (learn_all (length pq) pq), later, wait).
End Score.

(** * The analyzer decides by cost and benefit *)

(** The counters of a level are those of a run with fewer than 2^30 events. *)
Definition nums_small (level : nat) (m : CBModel) : Prop :=
  Forall (fun c => 0 <= num_at level c < 2 ^ 30)
    [(positive_lookups_time m).1; (positive_lookups_time m).2; (negative_lookups_time m).1; (negative_lookups_time m).2; num_negative_lookups_file m].

(** The mean of the samples of a counter. *)
Definition mean (level : nat) (c : Counter) : Q := inject_Z (count_at level c) / inject_Z (num_at level c).

(** The time that a model saves on a lookup, 0 while there are not 500 samples of
    both kinds. *)
Definition saved (level : nat) (cs : Counter * Counter) : Q :=
  if (500 <=? num_at level cs.1) && (500 <=? num_at level cs.2) then (mean level cs.1 - mean level cs.2)%Q else 0%Q.

(** The files of the level that are gone, and the means over them. *)
Definition files_seen (level : nat) (m : CBModel) : Z := num_at level (num_negative_lookups_file m).
Definition per_file (level : nat) (m : CBModel) (c : Counter) : Q := inject_Z (count_at level c) / inject_Z (files_seen level m).

(** What a model of a file saves in the file's life. *)
Definition benefit (level : nat) (m : CBModel) : Q :=
  saved level (positive_lookups_time m) * per_file level m (num_positive_lookups_file m) +
  saved level (negative_lookups_time m) * per_file level m (num_negative_lookups_file m).

Definition enough_lookups (level : nat) (m : CBModel) : Prop :=
  lookup_average_limit <= num_at level (positive_lookups_time m).1 + num_at level (negative_lookups_time m).1 /\
  lookup_average_limit <= num_at level (positive_lookups_time m).2 + num_at level (negative_lookups_time m).2.

Lemma altb_Qlt a b : altb a b = true <-> (a < b)%Q.
Proof.
  cbn [altb exact]. rewrite negb_true_iff. split.
  - intros Hf. apply Qnot_le_lt. intros Hle. apply Qle_bool_iff in Hle. congruence.
  - intros Hlt. destruct (Qle_bool b a) eqn:E; [|done]. apply Qle_bool_iff in E. by apply Qlt_not_le in Hlt.
Qed.

Lemma gain_saved level cs (average : Q) : 0 <= num_at level cs.1 < 2 ^ 30 -> 0 <= num_at level cs.2 < 2 ^ 30 ->
  ((sampled (i32 (num_at level cs.1)) (count_at level cs.1) - sampled (i32 (num_at level cs.2)) (count_at level cs.2)) *
   lookups_counted (i32 (num_at level cs.1)) (i32 (num_at level cs.2)) average == saved level cs * average)%Q.
Proof.
  intros H1 H2. rewrite !i32_small by lia. unfold sampled, lookups_counted, saved, mean. cbn [ofZ adiv exact]. change (inject_Z 0) with 0%Q.
  repeat bcase; cbn [andb orb]; try lia; ring.
Qed.

(** C26: the cost-benefit analyzer.  With exact arithmetic, [CalculateCB] gives a file
    a score above the limit, so that it is learned, exactly when too few files of the
    level have been seen to know better, or when enough lookups with and without
    models have been timed and the time that a model saves over the life of a file
    of the level is more than [const_size_to_cost] for each byte of an average file. *)
Theorem cb_learns_iff_beneficial (level : nat) (m : CBModel) :
  (level < Z.to_nat kNumLevels)%nat -> nums_small level m -> 0 < count_at level (file_sizes m) ->
  altb (ofZ const_size_to_cost) (CalculateCB (T := Q) 0 level m) = true <->
  files_seen level m < nth level file_average_limit 0 \/
  (enough_lookups level m /\ (inject_Z const_size_to_cost * per_file level m (file_sizes m) < benefit level m)%Q).
Proof.
  intros Hl Hs Hsize. unfold nums_small in Hs. rewrite !Forall_cons in Hs. destruct Hs as (P0 & P1 & N0 & N1 & Nf & _). rewrite altb_Qlt.
  assert (Hlim : 10 <= nth level file_average_limit 0) by (do 7 (destruct level as [|level]; [vm_compute; discriminate|]); vm_compute in Hl; lia).
  unfold CalculateCB. cbn [Z.eqb]. change (0 =? 2) with false. change (0 =? 1) with false. cbv iota zeta.
  rewrite !(i32_small (num_at level _)) by lia. rewrite !(i32_small (_ + _)) by lia. fold (files_seen level m) in *.
  destruct (Z.ltb_spec (files_seen level m) (nth level file_average_limit 0)) as [Hf|Hf]; [split; [by left|done]|].
  unfold enough_lookups. destruct (Z.ltb_spec (num_at level (positive_lookups_time m).1 + num_at level (negative_lookups_time m).1) lookup_average_limit) as [Ha|Ha];
    cbn [orb]; [split; [done|intros [?|[[? ?] _]]; lia]|].
  destruct (Z.ltb_spec (num_at level (positive_lookups_time m).2 + num_at level (negative_lookups_time m).2) lookup_average_limit) as [Hb|Hb]; [split; [done|intros [?|[[? ?] _]]; lia]|].
  pose proof (gain_saved level (positive_lookups_time m) (adiv (ofZ (count_at level (num_positive_lookups_file m))) (ofZ (files_seen level m))) P0 P1) as Hp.
  pose proof (gain_saved level (negative_lookups_time m) (adiv (ofZ (count_at level (num_negative_lookups_file m))) (ofZ (files_seen level m))) N0 N1) as Hn.
  rewrite !(i32_small (num_at level _)) in Hp by lia. rewrite !(i32_small (num_at level _)) in Hn by lia. cbn [amul asub aadd adiv ofZ exact] in *. rewrite Hp, Hn.
  change (_ * (inject_Z (count_at level (num_positive_lookups_file m)) / _) + _)%Q with (benefit level m).
  set (N := inject_Z (files_seen level m)). set (S0 := inject_Z (count_at level (file_sizes m))).
  assert (HN : (0 < N)%Q) by (unfold N; change 0%Q with (inject_Z 0); rewrite <- Zlt_Qlt; lia).
  assert (HS : (0 < S0)%Q) by (unfold S0; change 0%Q with (inject_Z 0); rewrite <- Zlt_Qlt; lia).
  assert (Heq : (inject_Z const_size_to_cost < benefit level m / S0 * N)%Q <-> (inject_Z const_size_to_cost * per_file level m (file_sizes m) < benefit level m)%Q).
  { unfold per_file. fold N S0. rewrite <- (Qmult_lt_r (inject_Z const_size_to_cost * (S0 / N)) (benefit level m) (N / S0)).
    - assert (E1 : (inject_Z const_size_to_cost * (S0 / N) * (N / S0) == inject_Z const_size_to_cost)%Q) by (field; split; by apply Qnot_eq_sym, Qlt_not_eq).
      assert (E2 : (benefit level m * (N / S0) == benefit level m / S0 * N)%Q) by (field; by apply Qnot_eq_sym, Qlt_not_eq). by rewrite E1, E2.
    - unfold Qdiv. apply Qmult_lt_0_compat; [done|by apply Qinv_lt_0_compat]. }
  rewrite Heq. split; [intros Hx; right; by split|intros [?|[_ ?]]; [lia|done]].
Qed.

(** * A turn of the thread that examines the queue *)

(** The file has been in the queue for the time that it has to wait. *)
Definition ripe (learn_trigger_time time_start : Z) (p : LearnParam) : Prop := lp_time p + learn_trigger_time <= time_start.

#[export] Instance ripe_dec trigger now p : Decision (ripe trigger now p) := Z_le_dec _ _.

(** The clock is far from its end. *)
Definition time_ok (learn_trigger_time time_start : Z) (p : LearnParam) : Prop :=
  0 <= lp_time p < 2 ^ 62 /\ 0 <= learn_trigger_time < 2 ^ 62 /\ 0 <= time_start < 2 ^ 62.

Lemma waits_iff trigger now p : time_ok trigger now p -> 0 <? i64 (u64 (lp_time p + trigger - now)) = negb (bool_decide (ripe trigger now p)).
Proof.
  intros (H1 & H2 & H3). unfold i64, u64, wrap, ripe. assert (E : ((lp_time p + trigger - now) mod 2 ^ 64 + 2 ^ 63) mod 2 ^ 64 - 2 ^ 63 = lp_time p + trigger - now).
  { rewrite Z.add_mod_idemp_l by lia. rewrite Z.mod_small; lia. }
  rewrite E. case_bool_decide; bcase; cbn [negb]; try done; lia.
Qed.

Section Turn.
Context (trigger now : Z) (score : LearnParam -> Q).

Definition good (p : LearnParam) : bool := altb (ofZ const_size_to_cost) (score p).

Lemma examine_spec queue : Forall (time_ok trigger now) queue ->
  exists taken later, queue = taken ++ later /\ Forall (ripe trigger now) taken /\ (forall p, head later = Some p -> ~ ripe trigger now p) /\
    examine trigger now score queue = (map (fun p => (score p, p)) (List.filter good taken), later, bool_decide (later <> [])).
Proof.
  induction 1 as [|p queue Hp _ IH]; [by exists [], []|]. cbn [examine]. rewrite waits_iff by done. case_bool_decide as Hr; cbn [negb].
  - destruct IH as (taken & later & -> & Ht & Hl & E). rewrite E. exists (p :: taken), later. split; [done|]. split; [by constructor|]. split; [done|].
    cbn [List.filter]. fold (good p). by destruct (good p).
  - exists [], (p :: queue). split; [done|]. split; [constructor|]. split; [by intros q [= <-]|].
    by rewrite bool_decide_true.
Qed.

Lemma pq_top_spec (q : list (Q * LearnParam)) : match pq_top q with
  | None => q = []
  | Some (a, q') => q ≡ₚ a :: q' /\ Forall (fun b => (b.1 <= a.1)%Q) q
  end.
Proof.
  assert (Hlt : forall a b : Q * LearnParam, pq_lt a b = true -> (a.1 <= b.1)%Q).
  { intros a b. unfold pq_lt. intros [Hab|[Hba _]%andb_true_iff]%orb_true_iff; [apply altb_Qlt in Hab; by apply Qlt_le_weak|].
    apply negb_true_iff in Hba. apply Qnot_lt_le. intros Hx. apply altb_Qlt in Hx. congruence. }
  assert (Hge : forall a b : Q * LearnParam, pq_lt a b = false -> (b.1 <= a.1)%Q).
  { intros a b. unfold pq_lt. intros [Hab _]%orb_false_iff. apply Qnot_lt_le. intros Hx. apply altb_Qlt in Hx. congruence. }
  induction q as [|a q IH]; [done|]. cbn [pq_top]. destruct (pq_top q) as [[b q']|].
  - destruct IH as [Hp Hf]. destruct (pq_lt a b) eqn:E.
    + split; [rewrite Hp; constructor|]. constructor; [by apply Hlt|done].
    + split; [done|]. constructor; [apply Qle_refl|]. eapply Forall_impl; [exact Hf|]. intros c Hc. cbn beta in Hc. by eapply Qle_trans, Hge.
  - subst q. split; [done|]. repeat constructor. apply Qle_refl.
Qed.

Lemma learn_all_spec : forall n (q : list (Q * LearnParam)), length q = n ->
  learn_all n q ≡ₚ q /\ StronglySorted (fun a b => (b.1 <= a.1)%Q) (learn_all n q).
Proof.
  induction n as [|n IH]; intros q Hn; cbn [learn_all]; [destruct q; [split; [done|constructor]|done]|].
  pose proof (pq_top_spec q) as Ht. destruct (pq_top q) as [[a q']|]; [|by subst q]. destruct Ht as [Hp Hf].
  assert (Hl : length q' = n) by (apply Permutation_length in Hp; cbn [length] in Hp; lia). destruct (IH q' Hl) as [Hq Hs].
  split; [by rewrite Hp, Hq|]. constructor; [done|]. rewrite Hp, Hq in *. by apply Forall_cons in Hf as [_ Hf].
Qed.

(** A turn of the learning queue.  [PrepareLearn] takes from the front of the queue
    the files that have lived for [learn_trigger_time], up to the first that has
    not; of those it learns exactly the ones whose score is above the limit, each
    once, the higher scores first; the others are not looked at again, the rest of
    the queue stays as it is, and the thread sleeps when there is a rest. *)
Theorem prepare_turn_correct (queue : list LearnParam) : Forall (time_ok trigger now) queue ->
  exists taken later learn, queue = taken ++ later /\ prepare_turn trigger now score queue = (learn, later, bool_decide (later <> [])) /\
    Forall (ripe trigger now) taken /\ (forall p, head later = Some p -> ~ ripe trigger now p) /\
    learn ≡ₚ List.filter good taken /\ StronglySorted (fun p q => (score q <= score p)%Q) learn.
Proof.
  intros Hq. destruct (examine_spec queue Hq) as (taken & later & E1 & Ht & Hl & E). unfold prepare_turn. rewrite E.
  set (pq := map (fun p => (score p, p)) (List.filter good taken)). destruct (learn_all_spec (length pq) pq eq_refl) as [Hp Hs].
  eexists taken, later, _. split; [done|]. split; [reflexivity|]. split; [done|]. split; [done|]. split.
  - rewrite Hp. unfold pq. by rewrite map_map, map_id.
  - assert (Hall : Forall (fun a : Q * LearnParam => a.1 = score a.2) (learn_all (length pq) pq)).
    { rewrite Hp. unfold pq. apply Forall_forall. intros a Ha. apply list_elem_of_In, in_map_iff in Ha as (p & <- & _). done. }
    revert Hs Hall. generalize (learn_all (length pq) pq). intros r Hs Hall. induction Hs as [|a r Hs IH Hf]; cbn [map]; [constructor|].
    apply Forall_cons in Hall as [Ha Hall]. constructor; [by apply IH|]. apply Forall_forall. intros p Hp'. apply list_elem_of_In, in_map_iff in Hp' as (b & <- & Hb%list_elem_of_In).
    rewrite Forall_forall in Hf, Hall. specialize (Hf b Hb). specialize (Hall b Hb). by rewrite Ha, Hall in Hf.
Qed.
End Turn.

(** A level of which 10 files are gone, with lookups that a model makes faster. *)
Definition cb_example : CBModel :=
  let at0 c n := mkCounter (c :: replicate 7 0) (n :: replicate 7 0) in
  mkCBModel (at0 600000 6000, at0 300000 6000) (at0 900000 6000, at0 300000 6000) (at0 1000 10) (at0 1000 10) (at0 1000 10) newCounter newCounter.

Lemma cb_learns_iff_beneficial_witness : altb (ofZ const_size_to_cost) (CalculateCB (T := Q) 0 0 cb_example) = true.
Proof.
  apply (cb_learns_iff_beneficial 0 cb_example).
  - vm_compute. lia.
  - repeat constructor; vm_compute; intuition discriminate.
  - vm_compute. reflexivity.
  - right. split; [split; vm_compute; discriminate|vm_compute; reflexivity].
Defined.

Lemma prepare_turn_correct_witness :
  exists learn, prepare_turn 50 100 (fun p => inject_Z (lp_file_size p)) [mkParam 10 0 1 11; mkParam 20 0 2 5; mkParam 30 1 3 12; mkParam 90 1 4 20] = (learn, [mkParam 90 1 4 20], true) /\
    learn = [mkParam 30 1 3 12; mkParam 10 0 1 11].
Proof.
  destruct (prepare_turn_correct 50 100 (fun p => inject_Z (lp_file_size p)) [mkParam 10 0 1 11; mkParam 20 0 2 5; mkParam 30 1 3 12; mkParam 90 1 4 20])
    as (taken & later & learn & _ & E & _).
  - repeat constructor; vm_compute; intuition discriminate.
  - exists learn. vm_compute in E. injection E as <- <-. split; reflexivity.
Defined.
