(* ===== verification/ModelFile.v ===== *)
(** The text files of trained models: [WriteModel] and [ReadModel] of
    mod/learned_index.cpp, [WriteLevelModel] and [ReadLevelModel] of
    db/version_set.cc.  What is written when a database is closed is read back when
    it is opened, as far as the numbers of the models can be printed.

    Of the streams of the C++ library the operators that the source uses are
    modelled: [<<] for integers, strings and [double] with a precision of 15 digits,
    [>>] for the same.  The files of the directory are a map from names to contents. *)

From Stdlib Require Import QArith SpecFloat.
From stdpp Require Import base list gmap strings.
From S2P Require Import Prelude Logging ModUtil DbFormat VersionEdit Plr LearnedIndex.

#[local] Open Scope Z_scope.

(** * Output of [double] *)

(** The digits of a number, most significant first. *)
Fixpoint digits_loop (fuel : nat) (n : Z) (acc : bytes) : bytes :=
  match fuel with
  | O => acc
  | S fuel' => if n <? 10 then zb (48 + n) :: acc else digits_loop fuel' (n / 10) (zb (48 + n mod 10) :: acc)
  end.

(** The decimal exponent of [num / den]: the power of ten at or below it. *)
Fixpoint scale_up (fuel : nat) (num den k : Z) : Z :=
  match fuel with
  | O => k
  | S fuel' => if den * 10 <=? num then scale_up fuel' num (den * 10) (k + 1) else k
  end.
Fixpoint scale_down (fuel : nat) (num den k : Z) : Z :=
  match fuel with
  | O => k
  | S fuel' => if num <? den then scale_down fuel' (num * 10) den (k - 1) else k
  end.
(** No [double] is as large as 10^309 or as small as 10^-324. *)
Definition exponent10 (num den : Z) : Z :=
  if num <? den then scale_down 330 num den 0 else scale_up 330 num den 0.

(** The nearest integer, ties to even. *)
Definition div_nearest (a b : Z) : Z :=
  let q := a / b in
  let r := a mod b in
  if (2 * r <? b) || ((2 * r =? b) && Z.even q) then q else q + 1.

Definition strip_zeros (ds : bytes) : bytes :=
  fold_right (fun d l => match l with [] => if bz d =? 48 then [] else [d] | _ => d :: l end) [] ds.
Definition with_point (ds : bytes) : bytes := match ds with [] => [] | _ => str "." ++ ds end.
Definition zeros (n : Z) : bytes := replicate (Z.to_nat n) (zb 48).

(** The format ["%.15g"]. *)
Definition show_digits (d x : Z) : bytes :=
  let ds := digits_loop 20 d [] in
  if (-4 <=? x) && (x <? 15) then
    if 0 <=? x then btake (x + 1) ds ++ with_point (strip_zeros (bdrop (x + 1) ds))
    else str "0." ++ zeros (- x - 1) ++ strip_zeros ds
  else btake 1 ds ++ with_point (strip_zeros (bdrop 1 ds)) ++
    str "e" ++ (if x <? 0 then str "-" else str "+") ++ (if Z.abs x <? 10 then str "0" else []) ++ decimal (Z.abs x).

Definition show_double (v : double) : bytes :=
  match v with
  | S754_zero s => (if s then str "-" else []) ++ str "0"
  | S754_infinity s => (if s then str "-" else []) ++ str "inf"
  | S754_nan => str "nan"
  | S754_finite s m e =>
      let num := if 0 <=? e then Zpos m * 2 ^ e else Zpos m in
      let den := if 0 <=? e then 1 else 2 ^ (- e) in
      let x := exponent10 num den in
      let d := if x <=? 14 then div_nearest (num * 10 ^ (14 - x)) den else div_nearest num (den * 10 ^ (x - 14)) in
      (if s then str "-" else []) ++ if d =? 10 ^ 15 then show_digits (10 ^ 14) (x + 1) else show_digits d x
  end.

(** * Input *)

(** What is left of a file, and whether no operation has failed. *)
Record istream := mkStream { is_rest : bytes; is_good : bool }.

Fixpoint word_of (s : bytes) : bytes :=
  match s with
  | c :: s' => if isspace c then [] else c :: word_of s'
  | [] => []
  end.

(** [in >> x] for a new string: the word, empty when the stream fails. *)
Definition read_word (s : istream) : bytes * istream :=
  if is_good s then
    let rest := skip_space (is_rest s) in
    match word_of rest with
    | [] => ([], mkStream [] false)
    | w => (w, mkStream (drop (length w) rest) true)
    end
  else ([], s).

(** The sign and the digits of an integer, and what follows. *)
Definition take_integer (rest : bytes) : bool * bytes * bytes :=
  let '(neg, rest) :=
    match rest with
    | c :: rest' => if bz c =? 45 then (true, rest') else if bz c =? 43 then (false, rest') else (false, rest)
    | [] => (false, [])
    end in
  (neg, digits_of rest, drop (length (digits_of rest)) rest).

(** [in >> x] for [uint64_t x]: left alone when there is nothing to read, zero
    without digits, the largest number when it does not fit. *)
Definition read_u64 (x : Z) (s : istream) : Z * istream :=
  if is_good s then
    match skip_space (is_rest s) with
    | [] => (x, mkStream [] false)
    | rest =>
        let '(neg, ds, rest) := take_integer rest in
        if blen ds =? 0 then (0, mkStream rest false)
        else if 2 ^ 64 <=? digits_value ds then (2 ^ 64 - 1, mkStream rest false)
        else (if neg then u64 (- digits_value ds) else digits_value ds, mkStream rest true)
    end
  else (x, s).

(** [in >> x] for [int x]. *)
Definition read_int (x : Z) (s : istream) : Z * istream :=
  if is_good s then
    match skip_space (is_rest s) with
    | [] => (x, mkStream [] false)
    | rest =>
        let '(neg, ds, rest) := take_integer rest in
        let v := if neg then - digits_value ds else digits_value ds in
        if blen ds =? 0 then (0, mkStream rest false)
        else if v <? - 2 ^ 31 then (- 2 ^ 31, mkStream rest false)
        else if 2 ^ 31 <=? v then (2 ^ 31 - 1, mkStream rest false)
        else (v, mkStream rest true)
    end
  else (x, s).

(** The characters that are read for a [double]: digits, one point, one exponent. *)
Definition is_sign (c : byte) : bool := (bz c =? 45) || (bz c =? 43).
Definition is_exp (c : byte) : bool := (bz c =? 101) || (bz c =? 69).
Fixpoint float_chars (mantissa dec sci : bool) (s : bytes) : bytes :=
  match s with
  | [] => []
  | c :: s' =>
      if is_digit c then c :: float_chars true dec sci s'
      else if (bz c =? 46) && negb dec && negb sci then c :: float_chars mantissa true sci s'
      else if is_exp c && negb sci && mantissa then
        c :: match s' with
             | g :: s'' => if is_sign g then g :: float_chars mantissa dec true s'' else float_chars mantissa dec true s'
             | [] => []
             end
      else []
  end.
Definition float_prefix (s : bytes) : bytes :=
  match s with
  | c :: s' => if is_sign c then c :: float_chars false false false s' else float_chars false false false s
  | [] => []
  end.

(** [strtod] on such characters, rounded to the nearest [double]: [None] when they
    are not a number, or when it does not fit. *)
Definition double_of_ratio (s : bool) (num den : Z) : double :=
  match num, den with
  | Zpos _, Zpos _ =>
      let '(mz, ez, lz) := SFdiv_core_binary 53 1024 num 0 den 0 in
      binary_round_aux 53 1024 s mz ez lz
  | _, _ => S754_zero s
  end.

Definition scan_double (w : bytes) : option double :=
  let '(s, w) := match w with c :: w' => if is_sign c then (bz c =? 45, w') else (false, w) | [] => (false, []) end in
  let ip := digits_of w in
  let w := drop (length ip) w in
  let '(fp, w) := match w with c :: w' => if bz c =? 46 then (digits_of w', drop (length (digits_of w')) w') else ([], w) | [] => ([], []) end in
  let n := digits_value (ip ++ fp) in
  let e :=
    match w with
    | [] => Some 0
    | c :: w' =>
        let '(neg, ds, rest) := take_integer w' in
        if is_exp c && negb (blen ds =? 0) && (blen rest =? 0) then Some (if neg then - digits_value ds else digits_value ds) else None
    end in
  match e with
  | None => None
  | Some e =>
      if blen (ip ++ fp) =? 0 then None
      else
        let k := e - blen fp in
        let v := if 0 <=? k then double_of_ratio s (n * 10 ^ k) 1 else double_of_ratio s n (10 ^ (- k)) in
        match v with S754_infinity _ | S754_nan => None | _ => Some v end
  end.

(** * The file of a model *)

(** [adgMod::block_num_entries], [block_size] and [entry_size]. *)
Definition ModelLayout : Type := Z * Z * Z.

Section Model.
Context {T : Type} `{!Arith T} (show : T -> bytes) (scan : bytes -> option T).
#[local] Abbreviation sp := (str " ").
#[local] Abbreviation eol := [Byte.x0a].
#[local] Abbreviation Data := (LearnedIndexData T).

(** [out << i] for [int i]. *)
Definition show_int (i : Z) : bytes := if i <? 0 then str "-" ++ decimal (- i) else decimal i.

Definition segment_line (s : Segment T) : bytes := decimal (seg_x s) ++ sp ++ show (seg_k s) ++ sp ++ show (seg_b s) ++ eol.
Definition acc_line (p : Z * bytes) : bytes := decimal p.1 ++ sp ++ p.2 ++ eol.

(** The contents of the file; [None] when nothing is written. *)
Definition WriteModel (layout : ModelLayout) (d : Data) : option bytes :=
  if negb (learned d) then None
  else
    let '(block_num_entries, block_size, entry_size) := layout in
    Some (decimal block_num_entries ++ sp ++ decimal block_size ++ sp ++ decimal entry_size ++ eol ++
      concat (map segment_line (string_segments d)) ++
      str "StartAcc" ++ sp ++ decimal (min_key d) ++ sp ++ decimal (max_key d) ++ sp ++ decimal (size d) ++ sp ++
      show_int (level d) ++ sp ++ decimal (cost d) ++ eol ++
      concat (map acc_line (num_entries_accumulated d))).

(** [in >> x] for a [double x] that was not given a value: [None] when it gets none.
    A text that is not a number gives zero and fails. *)
Definition read_double (s : istream) : option (T * istream) :=
  if is_good s then
    match skip_space (is_rest s) with
    | [] => None
    | rest =>
        let w := float_prefix rest in
        let rest := drop (length w) rest in
        Some (match scan w with Some v => (v, mkStream rest true) | None => (ofZ 0, mkStream rest false) end)
    end
  else None.

(** The loop over the segments.  [None]: a [double] that was never given a value is
    used (the source loops on a stream that has failed, and never ends), a number
    is too large for [atoll], or the fuel. *)
Fixpoint read_segments (fuel : nat) (s : istream) (segs : list (Segment T)) : option (list (Segment T) * istream) :=
  match fuel with
  | O => None
  | S fuel' =>
      let '(x, s) := read_word s in
      if bool_decide (x = str "StartAcc") then Some (segs, s)
      else
        '(k, s) ← read_double s;
        '(b, s) ← read_double s;
        v ← atoll x;
        read_segments fuel' s (segs ++ [mkSegment T (u64 v) k b])
  end.

Fixpoint read_acc (fuel : nat) (s : istream) (acc : list (Z * bytes)) : option (list (Z * bytes)) :=
  match fuel with
  | O => None
  | S fuel' =>
      let '(first, s) := read_u64 0 s in
      let '(second, s) := read_word s in
      if negb (is_good s) then Some acc else read_acc fuel' s (Add acc first second)
  end.

Definition with_model (d : Data) (segs : list (Segment T)) (lo hi n lv c : Z) (acc : list (Z * bytes)) : Data :=
  mkLearnedIndexData T (error d) true (aborted d) (learned_not_atomic d) (learning d) (lid_allowed_seek d) (current_seek d) (filled d)
    (is_level d) segs lo hi n (string_keys d) acc lv (served d) c.

(** [file] is [None] when it cannot be opened. *)
Definition ReadModel (fuel : nat) (file : option bytes) (layout : ModelLayout) (d : Data) : option (ModelLayout * Data) :=
  match file with
  | None => Some (layout, d)
  | Some contents =>
      let '(block_num_entries, block_size, entry_size) := layout in
      let '(block_num_entries, s) := read_u64 block_num_entries (mkStream contents true) in
      let '(block_size, s) := read_u64 block_size s in
      let '(entry_size, s) := read_u64 entry_size s in
      '(segs, s) ← read_segments fuel s (string_segments d);
      let '(lo, s) := read_u64 (min_key d) s in
      let '(hi, s) := read_u64 (max_key d) s in
      let '(n, s) := read_u64 (size d) s in
      let '(lv, s) := read_int (level d) s in
      let '(c, s) := read_u64 (cost d) s in
      acc ← read_acc fuel s (num_entries_accumulated d);
      Some ((block_num_entries, block_size, entry_size), with_model d segs lo hi n lv c acc)
  end.

(** * The models of a version *)

Context (dbname : bytes) (file_model_error level_model_error file_allowed_seek : Z) (load_level_model load_file_model : bool).
#[local] Abbreviation FileData := (FileLearnedIndexData (T := T)).
#[local] Abbreviation get_model := (GetModel file_model_error level_model_error file_allowed_seek).
#[local] Abbreviation Files := (gmap bytes bytes).

Definition level_model_name (i : nat) : bytes := dbname ++ str "/" ++ decimal (Z.of_nat i) ++ str ".model".
Definition file_model_name (n : Z) : bytes := dbname ++ str "/" ++ decimal n ++ str ".fmodel".

Definition put_model (layout : ModelLayout) (name : bytes) (d : Data) (fs : Files) : Files :=
  match WriteModel layout d with Some contents => <[name := contents]> fs | None => fs end.

(** One file of the version; [GetModel] may extend the table of models. *)
Definition write_file_model (layout : ModelLayout) (st : FileData * Files) (f : FileMetaData) : FileData * Files :=
  let '(d, fd) := get_model st.1 (Z.to_nat (number f)) in
  (fd, put_model layout (file_model_name (number f)) d st.2).

(** [levels] are the models of the levels with the files of the levels. *)
Definition write_level (layout : ModelLayout) (st : FileData * Files) (lv : nat * (Data * list FileMetaData)) : FileData * Files :=
  let '(i, (d, files)) := lv in
  fold_left (write_file_model layout) files (st.1, put_model layout (level_model_name i) d st.2).

Definition WriteLevelModel (layout : ModelLayout) (models : list Data) (levels : list (list FileMetaData)) (fd : FileData) (fs : Files) : FileData * Files :=
  fold_left (write_level layout) (imap (fun i p => (i, p)) (zip models levels)) (fd, fs).

(** The layout, the table of the file models and the largest number so far. *)
Definition read_file_model (fuel : nat) (fs : Files) (st : option (ModelLayout * FileData * Z)) (f : FileMetaData) : option (ModelLayout * FileData * Z) :=
  '(layout, fd, file_max) ← st;
  '(layout, fd) ←
    (if load_file_model then
       let '(d, fd) := get_model fd (Z.to_nat (number f)) in
       '(layout, d) ← ReadModel fuel (fs !! file_model_name (number f)) layout d;
       Some (layout, update_model fd (Z.to_nat (number f)) d)
     else Some (layout, fd));
  Some (layout, fd, if number f <? file_max then file_max else number f).

Fixpoint read_levels (fuel : nat) (fs : Files) (i : nat) (lvs : list (Data * list FileMetaData)) (st : option (ModelLayout * FileData * Z))
    : option (list Data * (ModelLayout * FileData * Z)) :=
  match lvs with
  | [] => st ← st; Some ([], st)
  | (d, files) :: lvs' =>
      '(layout, fd, file_max) ← st;
      '(layout, d) ← (if load_level_model then ReadModel fuel (fs !! level_model_name i) layout d else Some (layout, d));
      '(ds, st) ← read_levels fuel fs (S i) lvs' (fold_left (read_file_model fuel fs) files (Some (layout, fd, file_max)));
      Some (d :: ds, st)
  end.

(** The models of the levels, the layout, the table of the file models and
    [file_data->watermark]. *)
Definition ReadLevelModel (fuel : nat) (fs : Files) (layout : ModelLayout) (models : list Data) (levels : list (list FileMetaData)) (fd : FileData)
    : option (list Data * (ModelLayout * FileData * Z)) :=
  read_levels fuel fs 0 (zip models levels) (Some (layout, fd, 0)).
End Model.

(** * Reading what was written *)

Definition spaces (ws : bytes) : Prop := Forall (fun c => isspace c = true) ws.
Definition is_word (w : bytes) : Prop := w <> [] /\ Forall (fun c => isspace c = false) w.

Lemma skip_spaces ws : spaces ws -> forall w rest, is_word w -> skip_space (ws ++ w ++ rest) = w ++ rest.
Proof.
  intros Hws. induction Hws as [|c ws Hc _ IH]; intros w rest Hw; cbn [app skip_space]; [|rewrite Hc; by apply IH].
  destruct Hw as [Hne Hw]. destruct w as [|c w]; [done|]. apply Forall_cons in Hw as [Hc _]. cbn [app skip_space]. by rewrite Hc.
Qed.

Lemma word_of_app w c rest : is_word w -> isspace c = true -> word_of (w ++ c :: rest) = w.
Proof.
  intros [_ Hw] Hc. induction Hw as [|x w Hx _ IH]; cbn [app word_of]; [by rewrite Hc|]. rewrite Hx. by f_equal.
Qed.

Lemma read_word_spec ws w c rest : spaces ws -> is_word w -> isspace c = true ->
  read_word (mkStream (ws ++ w ++ c :: rest) true) = (w, mkStream (c :: rest) true).
Proof.
  intros Hws Hw Hc. unfold read_word. cbn [is_good is_rest]. rewrite skip_spaces by done. rewrite word_of_app by done.
  destruct Hw as [Hne _]. destruct w as [|x w]; [done|]. do 2 f_equal. exact (drop_app_length (x :: w) (c :: rest)).
Qed.

Lemma blen_pos_nonempty {A} (l : list A) : 0 < blen l -> l <> [].
Proof. intros Hl ->. by vm_compute in Hl. Qed.

Lemma decimal_word n : u64_ok n -> is_word (decimal n).
Proof.
  intros Hn. destruct (decimal_spec n Hn) as (Hd & _ & Hl). split; [apply blen_pos_nonempty; lia|].
  eapply Forall_impl; [exact Hd|]. intros c. apply digit_not_space.
Qed.

Lemma take_decimal n c rest : u64_ok n -> isspace c = true -> take_integer (decimal n ++ c :: rest) = (false, decimal n, c :: rest).
Proof.
  intros Hn Hc. destruct (decimal_spec n Hn) as (Hd & Hv & Hl). unfold take_integer.
  assert (Hdig : digits_of (decimal n ++ c :: rest) = decimal n).
  { apply digits_of_app; [done|]. cbn [digits_of]. destruct (is_digit c) eqn:E; [|done]. apply digit_not_space in E. congruence. }
  destruct (decimal n) as [|x l] eqn:E; [by destruct (blen_pos_nonempty (A := byte) [] ltac:(lia))|]. apply Forall_cons in Hd as [Hx _]. apply is_digit_spec in Hx.
  cbn [app]. replace (bz x =? 45) with false by lia. replace (bz x =? 43) with false by lia.
  change (x :: l ++ c :: rest) with ((x :: l) ++ c :: rest). rewrite Hdig. by rewrite drop_app_length.
Qed.

Lemma read_u64_spec x ws n c rest : spaces ws -> u64_ok n -> isspace c = true ->
  read_u64 x (mkStream (ws ++ decimal n ++ c :: rest) true) = (n, mkStream (c :: rest) true).
Proof.
  intros Hws Hn Hc. pose proof (decimal_word n Hn) as Hw. unfold read_u64. cbn [is_good is_rest]. rewrite skip_spaces by done.
  pose proof (take_decimal n c rest Hn Hc) as Et. destruct (decimal_spec n Hn) as (_ & Hv & Hl).
  destruct (decimal n ++ c :: rest) as [|y l] eqn:E; [by apply app_eq_nil in E as [_ ?]|]. rewrite Et, Hv. unfold u64_ok in Hn.
  replace (blen (decimal n) =? 0) with false by lia. by replace (2 ^ 64 <=? n) with false by lia.
Qed.

Lemma read_int_spec x ws n c rest : spaces ws -> 0 <= n < 2 ^ 31 -> isspace c = true ->
  read_int x (mkStream (ws ++ show_int n ++ c :: rest) true) = (n, mkStream (c :: rest) true).
Proof.
  intros Hws Hn Hc. assert (Hu : u64_ok n) by (unfold u64_ok; lia). pose proof (decimal_word n Hu) as Hw. unfold show_int.
  replace (n <? 0) with false by lia. unfold read_int. cbn [is_good is_rest]. rewrite skip_spaces by done.
  pose proof (take_decimal n c rest Hu Hc) as Et. destruct (decimal_spec n Hu) as (_ & Hv & Hl).
  destruct (decimal n ++ c :: rest) as [|y l] eqn:E; [by apply app_eq_nil in E as [_ ?]|]. rewrite Et, Hv.
  replace (blen (decimal n) =? 0) with false by lia. replace (n <? - 2 ^ 31) with false by lia. by replace (2 ^ 31 <=? n) with false by lia.
Qed.

Lemma float_chars_stop w c rest : isspace c = true -> forall m d s, float_chars m d s w = w -> float_chars m d s (w ++ c :: rest) = w.
Proof.
  intros Hc. assert (Hstop : forall m d s, float_chars m d s (c :: rest) = []).
  { intros m d s. cbn [float_chars]. unfold isspace in Hc. unfold is_digit, is_exp.
    replace ((48 <=? bz c) && (bz c <=? 57)) with false by lia. replace (bz c =? 46) with false by lia.
    replace (bz c =? 101) with false by lia. by replace (bz c =? 69) with false by lia. }
  assert (Hsign : is_sign c = false) by (unfold isspace in Hc; unfold is_sign; lia).
  remember (length w) as n eqn:En. assert (Hn : (length w <= n)%nat) by lia. clear En. revert w Hn.
  induction n as [|n IH]; intros w Hn m d s Hw; (destruct w as [|x w]; [apply Hstop|]); simpl in Hn; [lia|].
  cbn [app float_chars] in *. destruct (is_digit x); [injection Hw as Hw; f_equal; apply IH; [lia|done]|].
  destruct ((bz x =? 46) && negb d && negb s); [injection Hw as Hw; f_equal; apply IH; [lia|done]|].
  destruct (is_exp x && negb s && m); [|done]. injection Hw as Hw. f_equal. destruct w as [|g w]; cbn [app].
  - rewrite Hsign. apply Hstop.
  - destruct (is_sign g); [injection Hw as Hw; f_equal; apply IH; [simpl in Hn; lia|done]|]. apply (IH (g :: w)); [lia|done].
Qed.

Lemma float_prefix_stop w c rest : isspace c = true -> w <> [] -> float_prefix w = w -> float_prefix (w ++ c :: rest) = w.
Proof.
  intros Hc Hne Hw. destruct w as [|x w]; [done|]. unfold float_prefix in *. cbn [app]. destruct (is_sign x).
  - injection Hw as Hw. f_equal. by apply float_chars_stop.
  - exact (float_chars_stop (x :: w) c rest Hc _ _ _ Hw).
Qed.

(** The same after one separator. *)
Lemma spaces_one a : isspace a = true -> spaces [a].
Proof. by repeat constructor. Qed.
Lemma read_word_sep a w c rest : isspace a = true -> is_word w -> isspace c = true ->
  read_word (mkStream (a :: w ++ c :: rest) true) = (w, mkStream (c :: rest) true).
Proof. intros Ha. apply (read_word_spec [a]), spaces_one, Ha. Qed.
Lemma read_u64_sep x a n c rest : isspace a = true -> u64_ok n -> isspace c = true ->
  read_u64 x (mkStream (a :: decimal n ++ c :: rest) true) = (n, mkStream (c :: rest) true).
Proof. intros Ha. apply (read_u64_spec x [a]), spaces_one, Ha. Qed.
Lemma read_u64_first x n c rest : u64_ok n -> isspace c = true ->
  read_u64 x (mkStream (decimal n ++ c :: rest) true) = (n, mkStream (c :: rest) true).
Proof. apply (read_u64_spec x []), Forall_nil_2. Qed.
Lemma read_int_sep x a n c rest : isspace a = true -> 0 <= n < 2 ^ 31 -> isspace c = true ->
  read_int x (mkStream (a :: show_int n ++ c :: rest) true) = (n, mkStream (c :: rest) true).
Proof. intros Ha. apply (read_int_spec x [a]), spaces_one, Ha. Qed.

Section Roundtrip.
Context {T : Type} `{!Arith T} (show : T -> bytes) (scan : bytes -> option T).
#[local] Abbreviation sp := Byte.x20.
#[local] Abbreviation eol := Byte.x0a.

(** The number is read back from its text. *)
Definition reads_back (v : T) : Prop :=
  is_word (show v) /\ float_prefix (show v) = show v /\ scan (show v) = Some v.

Lemma read_double_sep a v c rest : isspace a = true -> reads_back v -> isspace c = true ->
  read_double scan (mkStream (a :: show v ++ c :: rest) true) = Some (v, mkStream (c :: rest) true).
Proof.
  intros Ha (Hw & Hp & Hs) Hc. unfold read_double. cbn [is_good is_rest]. 
  change (a :: show v ++ c :: rest) with ([a] ++ show v ++ c :: rest). rewrite (skip_spaces [a] (spaces_one a Ha)) by done.
  pose proof (float_prefix_stop (show v) c rest Hc (proj1 Hw) Hp) as Ef.
  destruct (show v ++ c :: rest) as [|y l] eqn:E; [by apply app_eq_nil in E as [_ ?]|]. rewrite Ef, Hs, <- E. by rewrite drop_app_length.
Qed.

Definition segment_fits (s : Segment T) : Prop := 0 <= seg_x s < 2 ^ 63 /\ reads_back (seg_k s) /\ reads_back (seg_b s).
Definition acc_fits (p : Z * bytes) : Prop := u64_ok p.1 /\ is_word p.2.

Lemma decimal_not_start n : u64_ok n -> decimal n <> str "StartAcc".
Proof.
  intros Hn E. destruct (decimal_spec n Hn) as (Hd & _). rewrite E in Hd. apply Forall_cons in Hd as [Hd _]. by vm_compute in Hd.
Qed.

(** The text after the first line: each read leaves the stream at a separator. *)
Lemma read_segments_spec segs : Forall segment_fits segs -> forall fuel segs0 rest, (length segs < fuel)%nat ->
  read_segments scan fuel (mkStream (eol :: concat (map (segment_line show) segs) ++ str "StartAcc" ++ sp :: rest) true) segs0 =
    Some (segs0 ++ segs, mkStream (sp :: rest) true).
Proof.
  induction 1 as [|s segs (Hx & Hk & Hb) _ IH]; intros fuel segs0 rest Hf; (destruct fuel as [|fuel]; [simpl in Hf; lia|]); cbn [read_segments map concat app].
  - rewrite (read_word_sep eol (str "StartAcc") sp rest); [|done|split; [done|by repeat constructor]|done].
    rewrite bool_decide_true by done. by rewrite app_nil_r.
  - assert (Hu : u64_ok (seg_x s)) by (unfold u64_ok; lia). unfold segment_line at 1. change (str " ") with [sp]. rewrite <- !app_assoc. cbn [app].
    rewrite (read_word_sep eol (decimal (seg_x s)) sp) by (done || by apply decimal_word).
    rewrite bool_decide_false by by apply decimal_not_start.
    rewrite read_double_sep by done. cbn [mbind option_bind].
    rewrite read_double_sep by done. cbn [mbind option_bind].
    destruct (decimal_spec _ Hu) as (Hd & Hv & _). rewrite atoll_decimal, Hv by (done || lia). cbn [mbind option_bind].
    rewrite u64_small by (unfold u64_ok in Hu; lia). rewrite IH by (simpl in Hf; lia). rewrite <- app_assoc. by destruct s.
Qed.

Lemma read_acc_spec acc : Forall acc_fits acc -> forall fuel acc0, (length acc < fuel)%nat ->
  read_acc fuel (mkStream (eol :: concat (map acc_line acc)) true) acc0 = Some (acc0 ++ acc).
Proof.
  induction 1 as [|p acc (Hn & Hw) _ IH]; intros fuel acc0 Hf; (destruct fuel as [|fuel]; [simpl in Hf; lia|]); cbn [read_acc map concat].
  - cbn. by rewrite app_nil_r.
  - unfold acc_line at 1. change (str " ") with [sp]. rewrite <- !app_assoc. cbn [app]. rewrite read_u64_sep by done.
    rewrite read_word_sep by done. cbn [is_good negb].
    rewrite IH by (simpl in Hf; lia). unfold Add. rewrite <- app_assoc. by destruct p.
Qed.

(** A model whose fields can be written. *)
Record model_fits (d : LearnedIndexData T) : Prop := {
  mf_learned : learned d = true;
  mf_segments : Forall segment_fits (string_segments d);
  mf_acc : Forall acc_fits (num_entries_accumulated d);
  mf_numbers : u64_ok (min_key d) /\ u64_ok (max_key d) /\ u64_ok (size d) /\ u64_ok (cost d);
  mf_level : 0 <= level d < 2 ^ 31;
}.
Definition layout_fits (l : ModelLayout) : Prop := u64_ok l.1.1 /\ u64_ok l.1.2 /\ u64_ok l.2.

(** The model [d0] after the file of [d] was read into it. *)
Definition loaded (d0 d : LearnedIndexData T) : LearnedIndexData T :=
  with_model d0 (string_segments d0 ++ string_segments d) (min_key d) (max_key d) (size d) (level d) (cost d)
    (num_entries_accumulated d0 ++ num_entries_accumulated d).

Lemma ReadModel_WriteModel fuel layout layout0 d d0 : model_fits d -> layout_fits layout ->
  (length (string_segments d) < fuel)%nat -> (length (num_entries_accumulated d) < fuel)%nat ->
  exists contents, WriteModel show layout d = Some contents /\
    ReadModel scan fuel (Some contents) layout0 d0 = Some (layout, loaded d0 d).
Proof.
  intros [Hl Hs Ha (N1 & N2 & N3 & N4) Hv] (L1 & L2 & L3) Hf1 Hf2. unfold WriteModel. rewrite Hl. cbn [negb].
  destruct layout as [ [bn bs] es]. cbn [fst snd] in *. eexists. split; [reflexivity|]. unfold ReadModel. destruct layout0 as [ [bn0 bs0] es0].
  cbn [app]. change (str " ") with [sp]. cbn [app].
  rewrite read_u64_first by done. rewrite read_u64_sep by done.
  rewrite read_u64_sep by done.
  rewrite (read_segments_spec _ Hs) by done. cbn [mbind option_bind].
  rewrite read_u64_sep by done. rewrite read_u64_sep by done.
  rewrite read_u64_sep by done. rewrite read_int_sep by done.
  rewrite read_u64_sep by done. rewrite (read_acc_spec _ Ha) by done. done.
Qed.
End Roundtrip.

(** * All models of a version *)

Section Versions.
Context {T : Type} `{!Arith T} (show : T -> bytes) (scan : bytes -> option T).
Context (dbname : bytes) (file_model_error level_model_error file_allowed_seek : Z).
#[local] Abbreviation Data := (LearnedIndexData T).
#[local] Abbreviation FileData := (list (option (LearnedIndexData T))).
#[local] Abbreviation Files := (gmap bytes bytes).
#[local] Abbreviation get_model := (GetModel file_model_error level_model_error file_allowed_seek).
#[local] Abbreviation new_model := (newLearnedIndexData (T := T) file_model_error level_model_error file_allowed_seek).
#[local] Abbreviation level_name := (level_model_name dbname).
#[local] Abbreviation file_name := (file_model_name dbname).

(** The model that the table gives for a file. *)
Definition model_of (fd : FileData) (n : nat) : Data := (get_model fd n).1.

Lemma model_of_lookup (fd : FileData) n : model_of fd n = match fd !! n with Some (Some d) => d | _ => new_model false end.
Proof.
  unfold model_of, GetModel, FileLearnedIndexData. destruct (Nat.leb_spec (length fd) n) as [Hle|Hlt].
  - rewrite (lookup_ge_None_2 fd n) by done. rewrite lookup_app_r by done. rewrite lookup_replicate_2 by lia. done.
  - by destruct (fd !! n) as [ [d|]|].
Qed.

Lemma get_model_lookup (fd : FileData) m n : match (get_model fd m).2 !! n with Some (Some d) => d | _ => new_model false end =
  match fd !! n with Some (Some d) => d | _ => new_model false end.
Proof.
  unfold GetModel, FileLearnedIndexData. set (fd' := if (length fd <=? m)%nat then _ else fd).
  assert (Hl : forall k, match fd' !! k with Some (Some d) => Some d | _ => None end = match fd !! k with Some (Some d) => Some d | _ => None end).
  { intros k. unfold fd'. destruct (Nat.leb_spec (length fd) m) as [Hle|Hlt]; [|done].
    destruct (Nat.lt_ge_cases k (length fd)) as [Hk|Hk]; [by rewrite lookup_app_l|]. rewrite lookup_app_r by done.
    rewrite (lookup_ge_None_2 fd k) by done. destruct (replicate _ _ !! _) as [o|] eqn:E; [|done]. by apply lookup_replicate in E as [-> _]. }
  assert (Hm : (m < length fd')%nat).
  { unfold fd'. destruct (Nat.leb_spec (length fd) m); [rewrite length_app, length_replicate; lia|done]. }
  pose proof (Hl n) as Hn. destruct (fd' !! m) as [ [d|]|] eqn:E; cbn [snd].
  - destruct (fd' !! n) as [ [?|]|], (fd !! n) as [ [?|]|]; congruence.
  - destruct (decide (n = m)) as [-> |Hne]; [rewrite list_lookup_insert_eq by done; rewrite E in Hn; destruct (fd !! m) as [ [?|]|]; congruence|].
    rewrite list_lookup_insert_ne by done. destruct (fd' !! n) as [ [?|]|], (fd !! n) as [ [?|]|]; congruence.
  - apply lookup_ge_None_1 in E. lia.
Qed.

Lemma model_of_get (fd : FileData) m n : model_of (get_model fd m).2 n = model_of fd n.
Proof. by rewrite !model_of_lookup, get_model_lookup. Qed.

Lemma get_model_length (fd : FileData) m : (m < length (get_model fd m).2)%nat.
Proof.
  unfold GetModel, FileLearnedIndexData. set (fd' := if (length fd <=? m)%nat then _ else fd).
  assert (Hm : (m < length fd')%nat).
  { unfold fd'. destruct (Nat.leb_spec (length fd) m); [rewrite length_app, length_replicate; lia|done]. }
  destruct (fd' !! m) as [ [d|]|]; cbn [snd]; rewrite ?length_insert; done.
Qed.

Lemma model_of_update (fd : FileData) m d n : model_of (update_model (get_model fd m).2 m d) n = if decide (n = m) then d else model_of fd n.
Proof.
  unfold update_model, FileLearnedIndexData. rewrite model_of_lookup. pose proof (get_model_length fd m) as Hl. destruct (decide (n = m)) as [-> |Hne].
  - by rewrite list_lookup_insert_eq.
  - rewrite list_lookup_insert_ne by done. by rewrite get_model_lookup, <- model_of_lookup.
Qed.

(** What is written under a name. *)
Definition model_text (layout : ModelLayout) (d : Data) (old : option bytes) : option bytes :=
  match WriteModel show layout d with Some contents => Some contents | None => old end.

Lemma put_model_lookup (layout : ModelLayout) (name : bytes) (d : Data) (fs : Files) (name' : bytes) :
  put_model show layout name d fs !! name' = if decide (name' = name) then model_text layout d (fs !! name') else fs !! name'.
Proof.
  unfold put_model, model_text. destruct (WriteModel show layout d) as [c|].
  - destruct (decide (name' = name)) as [-> |Hne]; [by rewrite lookup_insert_eq|by rewrite lookup_insert_ne].
  - by destruct (decide _).
Qed.

Lemma decimal_inj n m : u64_ok n -> u64_ok m -> decimal n = decimal m -> n = m.
Proof. intros Hn Hm E. destruct (decimal_spec n Hn) as (_ & <- & _), (decimal_spec m Hm) as (_ & <- & _). by rewrite E. Qed.

Lemma model_suffix n a b : u64_ok n -> forall m, u64_ok m -> (a = str ".model" \/ a = str ".fmodel") -> (b = str ".model" \/ b = str ".fmodel") ->
  decimal n ++ a = decimal m ++ b -> n = m /\ a = b.
Proof.
  intros Hn m Hm Ha Hb E.
  assert (Hd : forall k c, u64_ok k -> (c = str ".model" \/ c = str ".fmodel") -> digits_of (decimal k ++ c) = decimal k).
  { intros k c Hk Hc. apply digits_of_app; [by apply decimal_spec|]. by destruct Hc as [-> | ->]. }
  assert (En : decimal n = decimal m) by (rewrite <- (Hd n a), <- (Hd m b), E; done). rewrite En in E. apply app_inv_head in E.
  split; [by apply decimal_inj|done].
Qed.

Lemma names_differ i n : (i < 100)%nat -> u64_ok n -> level_name i <> file_name n.
Proof.
  intros Hi Hn E. unfold level_model_name, file_model_name in E. do 2 apply app_inv_head in E.
  apply model_suffix in E as [_ E]; [done|unfold u64_ok; lia|done|by left|by right].
Qed.
Lemma level_name_inj i j : (i < 100)%nat -> (j < 100)%nat -> level_name i = level_name j -> i = j.
Proof.
  intros Hi Hj E. unfold level_model_name in E. do 2 apply app_inv_head in E.
  apply model_suffix in E as [E _]; [lia|unfold u64_ok; lia|unfold u64_ok; lia|by left|by left].
Qed.
Lemma file_name_inj n m : u64_ok n -> u64_ok m -> file_name n = file_name m -> n = m.
Proof.
  intros Hn Hm E. unfold file_model_name in E. do 2 apply app_inv_head in E. by apply model_suffix in E as [E _]; [..|by right|by right].
Qed.

#[local] Abbreviation model_at fd f := (model_of fd (Z.to_nat (number f))).
#[local] Abbreviation write_file := (write_file_model show dbname file_model_error level_model_error file_allowed_seek).
#[local] Abbreviation Level := (nat * (Data * list FileMetaData))%type.
Definition file_numbers (files : list FileMetaData) : list Z := number <$> files.
Definition numbers_fit (files : list FileMetaData) : Prop := NoDup (file_numbers files) /\ Forall (fun f => u64_ok (number f)) files.

Lemma numbers_fit_cons f files : numbers_fit (f :: files) -> u64_ok (number f) /\ numbers_fit files /\ forall g, g ∈ files -> u64_ok (number g) /\ number g <> number f.
Proof.
  intros [Hd Hu]. unfold file_numbers in Hd. rewrite fmap_cons in Hd. apply NoDup_cons in Hd as [Hf Hd]. apply Forall_cons in Hu as [Hn Hu].
  split; [done|]. split; [by split|]. intros g Hg. rewrite Forall_forall in Hu. split; [by apply Hu|]. intros E. apply Hf. rewrite <- E. by apply list_elem_of_fmap_2.
Qed.

Lemma write_files_spec layout files : numbers_fit files -> forall (fd : FileData) (fs : Files),
  let st := fold_left (write_file layout) files (fd, fs) in
  (forall n, model_of st.1 n = model_of fd n) /\
  (forall name, (forall f, f ∈ files -> name <> file_name (number f)) -> st.2 !! name = fs !! name) /\
  (forall f, f ∈ files -> st.2 !! file_name (number f) = model_text layout (model_at fd f) (fs !! file_name (number f))).
Proof.
  induction files as [|f files IH]; intros Hn fd fs; cbn [fold_left].
  { split; [done|]. split; [done|]. intros f Hf. by apply elem_of_nil in Hf. }
  apply numbers_fit_cons in Hn as (Hu & Hn & Hother). unfold write_file_model at 2 4 6. cbn [fst snd].
  rewrite (surjective_pairing (get_model fd (Z.to_nat (number f)))). fold (model_at fd f).
  destruct (IH Hn (get_model fd (Z.to_nat (number f))).2 (put_model show layout (file_name (number f)) (model_at fd f) fs)) as (I1 & I2 & I3).
  split; [|split].
  - intros n. by rewrite I1, model_of_get.
  - intros name Hname. rewrite I2 by (intros g Hg; apply Hname; by right). rewrite put_model_lookup, decide_False; [done|apply Hname; by left].
  - intros g Hg. apply elem_of_cons in Hg as [-> |Hg].
    + rewrite I2; [by rewrite put_model_lookup, decide_True|]. intros g Hg E. destruct (Hother g Hg) as [Hug Hne]. apply Hne. symmetry. by apply file_name_inj.
    + destruct (Hother g Hg) as [Hug Hne]. rewrite I3 by done. rewrite model_of_get, put_model_lookup, decide_False; [done|].
      intros E. by apply Hne, file_name_inj.
Qed.

Definition level_files_of (lvs : list Level) : list FileMetaData := concat (map (fun lv => lv.2.2) lvs).

(** Under every name is the text of its model. *)
Lemma write_levels_spec layout (lvs : list Level) : numbers_fit (level_files_of lvs) -> NoDup (map fst lvs) -> Forall (fun lv => (lv.1 < 100)%nat) lvs ->
  forall (fd : FileData) (fs : Files),
  let st := fold_left (write_level show dbname file_model_error level_model_error file_allowed_seek layout) lvs (fd, fs) in
  (forall n, model_of st.1 n = model_of fd n) /\
  (forall name, (forall lv, lv ∈ lvs -> name <> level_name lv.1) -> (forall f, f ∈ level_files_of lvs -> name <> file_name (number f)) -> st.2 !! name = fs !! name) /\
  (forall lv, lv ∈ lvs -> st.2 !! level_name lv.1 = model_text layout lv.2.1 (fs !! level_name lv.1)) /\
  (forall f, f ∈ level_files_of lvs -> st.2 !! file_name (number f) = model_text layout (model_at fd f) (fs !! file_name (number f))).
Proof.
  induction lvs as [|[i [d files] ] lvs IH]; intros [Hd Hu] Hi Hlt fd fs; cbn [fold_left].
  { split; [done|]. split; [done|]. split; intros x Hx; by apply elem_of_nil in Hx. }
  unfold level_files_of in *. cbn [map concat fst snd] in *. apply NoDup_cons in Hi as [Hi Hi']. apply Forall_cons in Hlt as [Hlt Hlt']. cbn [fst] in Hlt.
  unfold file_numbers in Hd. rewrite fmap_app in Hd. apply NoDup_app in Hd as (Hd1 & Hd2 & Hd3). apply Forall_app in Hu as [Hu1 Hu2].
  set (fs1 := put_model show layout (level_name i) d fs).
  destruct (write_files_spec layout files (conj Hd1 Hu1) fd fs1) as (W1 & W2 & W3).
  set (st1 := fold_left (write_file layout) files (fd, fs1)) in *.
  change (write_level show dbname file_model_error level_model_error file_allowed_seek layout (fd, fs) (i, (d, files))) with st1. rewrite (surjective_pairing st1).
  destruct (IH (conj Hd3 Hu2) Hi' Hlt' st1.1 st1.2) as (I1 & I2 & I3 & I4). set (st := fold_left _ lvs _) in *. rewrite Forall_forall in Hu1. rewrite Forall_forall in Hu2. rewrite Forall_forall in Hlt'.
  assert (Hfs1 : forall name, name <> level_name i -> fs1 !! name = fs !! name) by (intros name Hne; unfold fs1; rewrite put_model_lookup; by rewrite decide_False).
  split; [intros n; by rewrite I1, W1|]. split; [|split].
  - intros name Hl Hf. rewrite I2; [|intros lv Hlv; apply Hl; by right|intros f Hff; apply Hf, elem_of_app; by right].
    rewrite W2 by (intros f Hff; apply Hf, elem_of_app; by left). apply Hfs1. exact (Hl _ (list_elem_of_here _ _)).
  - intros lv Hlv. apply elem_of_cons in Hlv as [-> |Hlv]; cbn [fst snd].
    + rewrite I2, W2; [unfold fs1; by rewrite put_model_lookup, decide_True|intros f Hf; apply names_differ; [done|by apply Hu1]| |intros f Hf; apply names_differ; [done|by apply Hu2] ].
      intros lv Hlv E. apply level_name_inj in E; [|done|by apply Hlt']. apply Hi. rewrite E. by apply (list_elem_of_fmap_2 fst).
    + rewrite I3 by done. rewrite W2, Hfs1; [done| |intros f Hf; apply names_differ; [by apply Hlt'|by apply Hu1] ].
      intros E. apply level_name_inj in E; [|by apply Hlt'|done]. apply Hi. rewrite <- E. by apply (list_elem_of_fmap_2 fst).
  - intros f Hf. apply elem_of_app in Hf as [Hf|Hf].
    + assert (Hne : file_name (number f) <> level_name i) by (intros E; symmetry in E; revert E; apply names_differ; [done|by apply Hu1]).
      rewrite I2, W3, Hfs1; [done|done|done| |].
      * intros lv Hlv E. symmetry in E. revert E. apply names_differ; [by apply Hlt'|by apply Hu1].
      * intros g Hg E. apply file_name_inj in E; [|by apply Hu1|by apply Hu2]. apply (Hd2 (number f)); [by apply list_elem_of_fmap_2|]. rewrite E. by apply list_elem_of_fmap_2.
    + rewrite I4, W1, W2, Hfs1; [done|intros E; symmetry in E; revert E; apply names_differ; [done|by apply Hu2]| |done].
      intros g Hg E. apply file_name_inj in E; [|by apply Hu2|by apply Hu1]. apply (Hd2 (number g)); [by apply list_elem_of_fmap_2|]. rewrite <- E. by apply list_elem_of_fmap_2.
Qed.

(** What reading the text of [d] into [d0] gives. *)
Definition reloaded (d0 d : Data) : Data := if learned d then loaded d0 d else d0.
Definition can_reload (fuel : nat) (d : Data) : Prop := learned d = true ->
  model_fits show scan d /\ (length (string_segments d) < fuel)%nat /\ (length (num_entries_accumulated d) < fuel)%nat.

Lemma ReadModel_text fuel layout layout0 d d0 : layout_fits layout -> can_reload fuel d ->
  exists layout', ReadModel scan fuel (model_text layout d None) layout0 d0 = Some (layout', reloaded d0 d).
Proof.
  intros Hl Hd. unfold model_text, reloaded. destruct (learned d) eqn:E.
  - destruct (Hd E) as (Hf & H1 & H2). destruct (ReadModel_WriteModel show scan fuel layout layout0 d d0 Hf Hl H1 H2) as (c & -> & ->). by eexists.
  - unfold WriteModel. rewrite E. cbn [negb]. by eexists.
Qed.

Context (fuel : nat) (layout : ModelLayout) (Hlayout : layout_fits layout).
#[local] Abbreviation read_file := (read_file_model scan dbname file_model_error level_model_error file_allowed_seek true fuel).
Definition largest_number (m : Z) (files : list FileMetaData) : Z := fold_left (fun m f => Z.max m (number f)) files m.

Lemma read_files_spec (fs : Files) (src : Z -> Data) files : numbers_fit files ->
  (forall f, f ∈ files -> fs !! file_name (number f) = model_text layout (src (number f)) None /\ can_reload fuel (src (number f))) ->
  forall layout0 (fd : FileLearnedIndexData (T := T)) m, exists layout' (fd' : FileLearnedIndexData (T := T)),
    fold_left (read_file fs) files (Some (layout0, fd, m)) = Some (layout', fd', largest_number m files) /\
    (forall n, (forall f, f ∈ files -> n <> Z.to_nat (number f)) -> model_of fd' n = model_of fd n) /\
    (forall f, f ∈ files -> model_at fd' f = reloaded (model_at fd f) (src (number f))).
Proof.
  induction files as [|f files IH]; intros Hn Hfs layout0 fd m; cbn [fold_left].
  { exists layout0, fd. split; [done|]. split; [done|]. intros f Hf. by apply elem_of_nil in Hf. }
  apply numbers_fit_cons in Hn as (Hu & Hn & Hother). destruct (Hfs f (list_elem_of_here _ _)) as [Ef Hf].
  destruct (ReadModel_text fuel layout layout0 _ (model_at fd f) Hlayout Hf) as (l1 & E1).
  set (fd1 := update_model (get_model fd (Z.to_nat (number f))).2 (Z.to_nat (number f)) (reloaded (model_at fd f) (src (number f)))).
  assert (Estep : read_file fs (Some (layout0, fd, m)) f = Some (l1, fd1, Z.max m (number f))).
  { unfold read_file_model. cbn [mbind option_bind]. rewrite (surjective_pairing (get_model fd (Z.to_nat (number f)))). fold (model_at fd f).
    rewrite Ef, E1. cbn [mbind option_bind]. do 2 f_equal. bcase; lia. }
  rewrite Estep. destruct (IH Hn ltac:(intros g Hg; apply Hfs; by right) l1 fd1 (Z.max m (number f))) as (l2 & fd2 & E2 & J1 & J2).
  assert (Hne : forall g, g ∈ files -> Z.to_nat (number g) <> Z.to_nat (number f)) by (intros g Hg; destruct (Hother g Hg) as [Hug Hg']; unfold u64_ok in *; lia).
  exists l2, fd2. split; [done|]. split.
  - intros n Hnn. rewrite J1 by (intros g Hg; apply Hnn; by right). unfold fd1. rewrite model_of_update, decide_False; [done|]. apply Hnn. by left.
  - intros g Hg. apply elem_of_cons in Hg as [-> |Hg].
    + rewrite J1 by (intros g Hg E; symmetry in E; by apply (Hne g)). unfold fd1. by rewrite model_of_update, decide_True.
    + rewrite J2 by done. unfold fd1. rewrite model_of_update, decide_False by by apply Hne. done.
Qed.

#[local] Abbreviation read_lvs := (read_levels scan dbname file_model_error level_model_error file_allowed_seek true true fuel).

Lemma read_levels_spec (fs : Files) (src : Z -> Data) (lvs : list (Data * list FileMetaData)) : forall i (ds : list Data), length ds = length lvs ->
  numbers_fit (concat (map snd lvs)) ->
  (forall j d, ds !! j = Some d -> fs !! level_name (i + j) = model_text layout d None /\ can_reload fuel d) ->
  (forall f, f ∈ concat (map snd lvs) -> fs !! file_name (number f) = model_text layout (src (number f)) None /\ can_reload fuel (src (number f))) ->
  forall layout0 (fd : FileLearnedIndexData (T := T)) m, exists layout' (fd' : FileLearnedIndexData (T := T)),
    read_lvs fs i lvs (Some (layout0, fd, m)) = Some (zip_with reloaded (map fst lvs) ds, (layout', fd', largest_number m (concat (map snd lvs)))) /\
    (forall n, (forall f, f ∈ concat (map snd lvs) -> n <> Z.to_nat (number f)) -> model_of fd' n = model_of fd n) /\
    (forall f, f ∈ concat (map snd lvs) -> model_at fd' f = reloaded (model_at fd f) (src (number f))).
Proof.
  induction lvs as [|[d0 files] lvs IH]; intros i ds Hlen Hn Hlv Hfs layout0 fd m; cbn [map concat fst snd read_levels] in *.
  { destruct ds; [|done]. exists layout0, fd. split; [done|]. split; [done|]. intros f Hf. by apply elem_of_nil in Hf. }
  destruct ds as [|d ds]; [done|]. simpl in Hlen. destruct Hn as [Hd Hu]. unfold file_numbers in Hd. rewrite fmap_app in Hd.
  apply NoDup_app in Hd as (Hd1 & Hd2 & Hd3). apply Forall_app in Hu as [Hu1 Hu2]. cbn [mbind option_bind].
  destruct (Hlv 0%nat d eq_refl) as [El Hl]. rewrite Nat.add_0_r in El. rewrite El.
  destruct (ReadModel_text fuel layout layout0 d d0 Hlayout Hl) as (l1 & ->). cbn [mbind option_bind].
  destruct (read_files_spec fs src files (conj Hd1 Hu1) ltac:(intros f Hf; apply Hfs, elem_of_app; by left) l1 fd m) as (l2 & fd2 & -> & J1 & J2).
  destruct (IH (S i) ds ltac:(lia) (conj Hd3 Hu2) ltac:(intros j d' Hj; replace (S i + j)%nat with (i + S j)%nat by lia; by apply (Hlv (S j))) ltac:(intros f Hf; apply Hfs, elem_of_app; by right)
    l2 fd2 (largest_number m files)) as (l3 & fd3 & -> & K1 & K2). cbn [mbind option_bind].
  rewrite Forall_forall in Hu1. rewrite Forall_forall in Hu2.
  assert (Hne : forall f g, f ∈ files -> g ∈ concat (map snd lvs) -> Z.to_nat (number f) <> Z.to_nat (number g)).
  { intros f g Hf Hg E. pose proof (Hu1 f Hf). pose proof (Hu2 g Hg). unfold u64_ok in *. assert (Eq : number f = number g) by lia.
    apply (Hd2 (number f)); [by apply list_elem_of_fmap_2|]. rewrite Eq. by apply list_elem_of_fmap_2. }
  exists l3, fd3. split; [cbn [zip_with]; do 3 f_equal; unfold largest_number; by rewrite fold_left_app|]. split.
  - intros n Hnn. rewrite K1, J1; [done|intros f Hf; apply Hnn, elem_of_app; by left|intros f Hf; apply Hnn, elem_of_app; by right].
  - intros f Hf. apply elem_of_app in Hf as [Hf|Hf].
    + rewrite K1 by (intros g Hg; by apply Hne). by apply J2.
    + rewrite K2 by done. rewrite J1; [done|]. intros g Hg E. by apply (Hne g f Hg Hf).
Qed.

Definition numbered_levels (models : list Data) (levels : list (list FileMetaData)) : list Level := imap (fun i p => (i, p)) (zip models levels).

Lemma numbered_levels_lookup models levels j : length models = length levels ->
  numbered_levels models levels !! j = match models !! j, levels !! j with Some d, Some fs => Some (j, (d, fs)) | _, _ => None end.
Proof.
  intros Hlen. unfold numbered_levels. rewrite list_lookup_imap, lookup_zip_with. by destruct (models !! j), (levels !! j).
Qed.

Lemma numbered_levels_fst models levels : length models = length levels -> map fst (numbered_levels models levels) = seq 0 (length levels).
Proof.
  intros Hlen. apply list_eq. intros j. change (map fst (numbered_levels models levels)) with (fst <$> numbered_levels models levels).
  rewrite list_lookup_fmap, numbered_levels_lookup by done. destruct (Nat.lt_ge_cases j (length levels)) as [Hj|Hj].
  - rewrite lookup_seq_lt by done. destruct (lookup_lt_is_Some_2 models j ltac:(lia)) as [d ->]. by destruct (lookup_lt_is_Some_2 levels j Hj) as [l ->].
  - rewrite lookup_seq_ge, (lookup_ge_None_2 models) by lia. done.
Qed.

Lemma numbered_levels_files models levels : length models = length levels -> level_files_of (numbered_levels models levels) = concat levels.
Proof.
  intros Hlen. unfold level_files_of. f_equal. apply list_eq. intros j.
  change (map (fun lv : Level => lv.2.2) (numbered_levels models levels)) with ((fun lv : Level => lv.2.2) <$> numbered_levels models levels).
  rewrite list_lookup_fmap, numbered_levels_lookup by done. destruct (levels !! j) as [l|] eqn:El; [|by destruct (models !! j)].
  apply lookup_lt_Some in El as Hj. by destruct (lookup_lt_is_Some_2 models j ltac:(lia)) as [d ->].
Qed.

(** C30: trained models survive closing and opening a database.  Write the models of
    a version to files, where none were before, and read them into new ones: the
    model of every level, and of every file of the version, gets the segments, the
    bounds, the size, the cost and the accumulated numbers of the one that was
    written if it was learned, and stays new otherwise; files above the largest
    number of the version count as new.  The numbers of the models must be those
    that 15 digits give back. *)
Theorem models_survive_reopening (models models0 : list Data) (levels : list (list FileMetaData)) (fd : FileData) (layout0 : ModelLayout)
    (Hlevels : length models = length levels /\ length models0 = length levels /\ (length levels <= 100)%nat)
    (Hnumbers : numbers_fit (concat levels)) (Hmodels : Forall (can_reload fuel) models)
    (Hfiles : Forall (fun f => can_reload fuel (model_at fd f)) (concat levels)) :
  let fs := (WriteLevelModel show dbname file_model_error level_model_error file_allowed_seek layout models levels fd ∅).2 in
  exists layout' fd',
    ReadLevelModel scan dbname file_model_error level_model_error file_allowed_seek true true fuel fs layout0 models0 levels [] =
      Some (zip_with reloaded models0 models, (layout', fd', largest_number 0 (concat levels))) /\
    forall f, f ∈ concat levels -> model_at fd' f = reloaded (new_model false) (model_at fd f).
Proof.
  destruct Hlevels as (Hl1 & Hl2 & Hl3). pose proof (numbered_levels_files models levels Hl1) as Efiles. pose proof (numbered_levels_fst models levels Hl1) as Efst.
  destruct (write_levels_spec layout (numbered_levels models levels)) with (fd := fd) (fs := ∅ : Files) as (_ & _ & W1 & W2).
  { by rewrite Efiles. }
  { rewrite Efst. apply NoDup_seq. }
  { apply Forall_forall. intros lv Hlv. apply (list_elem_of_fmap_2 fst) in Hlv. change (fst <$> numbered_levels models levels) with (map fst (numbered_levels models levels)) in Hlv.
    rewrite Efst in Hlv. apply elem_of_seq in Hlv. lia. }
  rewrite Efiles in W2. intros fs. change (fold_left _ (numbered_levels models levels) (fd, ∅)) with (WriteLevelModel show dbname file_model_error level_model_error file_allowed_seek layout models levels fd ∅) in W1, W2.
  unfold ReadLevelModel. rewrite Forall_forall in Hmodels. rewrite Forall_forall in Hfiles.
  assert (Esnd : map snd (zip models0 levels) = levels) by (apply snd_zip; lia). assert (Efst0 : map fst (zip models0 levels) = models0) by (apply fst_zip; lia).
  destruct (read_levels_spec fs (fun n => model_of fd (Z.to_nat n)) (zip models0 levels) 0 models) with (layout0 := layout0) (fd := @nil (option Data)) (m := 0) as (layout' & fd' & E & _ & Hmod).
  - rewrite length_zip_with. lia.
  - by rewrite Esnd.
  - intros j d Hj. split; [|apply Hmodels; by eapply list_elem_of_lookup_2]. apply lookup_lt_Some in Hj as Hlt. destruct (lookup_lt_is_Some_2 levels j ltac:(lia)) as [l El].
    apply (W1 (j, (d, l))). apply list_elem_of_lookup_2 with j. by rewrite numbered_levels_lookup, Hj, El.
  - rewrite Esnd. intros f Hf. split; [by apply W2|by apply Hfiles].
  - rewrite Esnd, Efst0 in *. exists layout', fd'. split; [exact E|]. intros f Hf. rewrite Hmod by done. by rewrite (model_of_lookup []).
Qed.
End Versions.

(** * What cannot be written *)

(** A model of four keys, in the arithmetic of the machine: every key is in the
    interval of its position.  The offset of the segment has 17 digits, of which 15 are
    written; when the file is read back, the position predicted for each key is below
    zero, and its conversion to an unsigned number undefined. *)
Definition far_keys : list bytes := map (fun i => decimal (912345678912345678 + 256 * i)) [0; 1; 2; 3].
Definition far_model : option (LearnedIndexData double) :=
  snd <$> Learn (fun _ => false) (with_keys (newLearnedIndexData (T := double) 10 1 10 false) far_keys).
Definition predicted (d : LearnedIndexData double) : list (option (Z * Z)) := map (fun k => fst <$> GetPosition d k) far_keys.
Definition reread (d : LearnedIndexData double) : option (LearnedIndexData double) :=
  contents ← WriteModel show_double (0, 0, 0) d;
  snd <$> ReadModel scan_double 10 (Some contents) (0, 0, 0) (newLearnedIndexData 10 1 10 false).

Theorem saved_model_loses_keys : exists d d', far_model = Some d /\ reread d = Some d' /\
  Forall2 (fun (i : Z) r => exists lo hi, r = Some (lo, hi) /\ lo <= i <= hi) [0; 1; 2; 3] (predicted d) /\
  predicted d' = replicate 4 None.
Proof.
  eexists _, _. split; [vm_compute; reflexivity|]. split; [vm_compute; reflexivity|]. split; [|vm_compute; reflexivity].
  repeat (apply List.Forall2_cons; [vm_compute; do 2 eexists; split; [reflexivity|split; discriminate]|]). apply List.Forall2_nil.
Qed.

(** Two keys that are the same [double] give a segment without a slope, which is
    written as [nan]; its file cannot be read. *)
Definition close_model : option (LearnedIndexData double) :=
  snd <$> Learn (fun _ => false) (with_keys (newLearnedIndexData (T := double) 10 1 10 false) [str "9007199254740992"; str "9007199254740993"]).

Theorem nan_model_unreadable : exists d contents, close_model = Some d /\ WriteModel show_double (0, 0, 0) d = Some contents /\
  forall fuel d0, ReadModel scan_double fuel (Some contents) (0, 0, 0) d0 = None.
Proof.
  eexists _, _. split; [vm_compute; reflexivity|]. split; [vm_compute; reflexivity|]. intros fuel d0. destruct fuel; vm_compute; reflexivity.
Qed.

(** * A model that is read back *)

Definition near_keys : list bytes := map (fun i => decimal (1000 + 16 * i)) [0; 1; 2; 3].
Definition near_model : LearnedIndexData double :=
  default (newLearnedIndexData 10 1 10 false) (snd <$> Learn (fun _ => false) (with_keys (newLearnedIndexData (T := double) 10 1 10 false) near_keys)).
Definition near_file : FileMetaData := newFileMetaData 3 1000 (str "1000") (str "1048").

Lemma near_fits : can_reload show_double scan_double 10 near_model.
Proof.
  assert (E : near_model = ltac:(let v := eval vm_compute in near_model in exact v)) by (vm_compute; reflexivity). rewrite E. clear E.
  intros _. split; [|split; vm_compute; lia]. split; cbn [learned string_segments num_entries_accumulated min_key max_key size cost level].
  - reflexivity.
  - repeat (apply Forall_cons; split; [split; [vm_compute; split; [discriminate|reflexivity]|split; (split; [split; [vm_compute; discriminate|vm_compute; repeat constructor]|split; vm_compute; reflexivity])]|]). apply Forall_nil_2.
  - apply Forall_nil_2.
  - vm_compute. repeat split; discriminate || reflexivity.
  - vm_compute. split; [discriminate|reflexivity].
Qed.

Lemma near_learned : learned near_model = true.
Proof. vm_compute. reflexivity. Qed.

#[local] Opaque near_model.

Lemma models_survive_reopening_witness :
  let fs := (WriteLevelModel show_double (str "db") 10 1 10 (4, 4096, 20) [near_model] [[near_file]] [None; None; None; Some near_model] ∅).2 in
  exists layout' fd',
    ReadLevelModel scan_double (str "db") 10 1 10 true true 10 fs (0, 0, 0) [newLearnedIndexData 10 1 10 true] [[near_file]] [] =
      Some ([loaded (newLearnedIndexData 10 1 10 true) near_model], (layout', fd', 3)) /\
    model_of 10 1 10 fd' 3 = loaded (newLearnedIndexData 10 1 10 false) near_model.
Proof.
  destruct (models_survive_reopening show_double scan_double (str "db") 10 1 10 10 (4, 4096, 20)
    ltac:(vm_compute; repeat split; discriminate || reflexivity) [near_model] [newLearnedIndexData 10 1 10 true] [[near_file]] [None; None; None; Some near_model] (0, 0, 0))
    as (layout' & fd' & E & Hf).
  - split; [reflexivity|]. split; [reflexivity|]. simpl. lia.
  - split; [repeat constructor; set_solver|]. repeat constructor; vm_compute; discriminate || reflexivity.
  - apply Forall_cons. split; [exact near_fits|apply Forall_nil_2].
  - apply Forall_cons. split; [exact near_fits|apply Forall_nil_2].
  - pose proof (Hf near_file (list_elem_of_here _ _)) as Hm. cbn [zip_with] in E. unfold reloaded in E, Hm. rewrite near_learned in E.
    change (model_of 10 1 10 [None; None; None; Some near_model] (Z.to_nat (number near_file))) with near_model in Hm. rewrite near_learned in Hm.
    exists layout', fd'. split; [exact E|exact Hm].
Defined.
