(* ===== verification/Repair.v ===== *)
(** db/repair.cc: a database whose MANIFEST is lost is rebuilt from its files.  Logs
    become tables, every table is scanned for its bounds and its largest sequence
    number, and a new MANIFEST puts all tables into level 0.

    The services of the environment are parameters, like in DbOpen; the iterator
    of the table cache over a table of the directory is [table_iterator].  The
    messages for the log are not modelled.  [fuel] bounds the records of a log and
    the entries of a table. *)

From stdpp Require Import base list gmap sorting strings.
From Stdlib Require Import QArith.
From S2P Require Import Prelude Status Coding Crc32c Env Logging Log LogProofs Comparator DbFormat WriteBatch SkipList MemTable VersionEdit Version VersionBuilder VersionBuilderProofs VersionGet Filename FilterBlock Iterator Format Block BlockProofs TableBuilder Table TableProofs TableGet VersionSet DbWriteProofs MemIter Builder ManifestProofs DbOpenProofs LearnedIndex Plr VersionGetProofs CompactionInstall.

#[local] Open Scope Z_scope.

(** * State *)

Record TableInfo := mkTableInfo { ti_meta : FileMetaData; ti_max_sequence : Z }.

(** [rp_tables] keeps, with their numbers, the table files that were written. *)
Record Repairer (F : Type) := mkRepairer {
  rp_edit : VersionEdit;
  manifests_ : list bytes;
  table_numbers_ : list Z;
  logs_ : list Z;
  tables_ : list TableInfo;
  next_file_number_ : Z;
  rp_tables : list (Z * F);
}.
Arguments mkRepairer {F} _ _ _ _ _ _ _.
Arguments rp_edit {F} _.
Arguments manifests_ {F} _.
Arguments table_numbers_ {F} _.
Arguments logs_ {F} _.
Arguments tables_ {F} _.
Arguments next_file_number_ {F} _.
Arguments rp_tables {F} _.

Definition newRepairer {F} : Repairer F := mkRepairer newVersionEdit [] [] [] [] 1 [].

Section Repair.
Context {E F R J : Type} `{!FileSystem E} `{!WritableFile F} `{!SequentialFile R} `{!Checksum} `{!Snappy} `{!Iterator J}.
Context (user : Comparator) (comparator_name dbname_ : bytes) (options : TableOptions).
Context (NewWritableFile : E -> bytes -> Status * F * E) (NewSequentialFile : E -> bytes -> Status * R).
Context (GetFileSize : E -> bytes -> Status * Z) (GetChildren : E -> bytes -> Status * list bytes).
Context (CreateDir : E -> bytes -> E) (Close : F -> Status * F) (table_status : Z -> Z -> Status).
Context (table_iterator : E -> Z -> Z -> J).
#[local] Abbreviation RP := (Repairer F).

Definition with_number (n : Z) (r : RP) : RP :=
  mkRepairer (rp_edit r) (manifests_ r) (table_numbers_ r) (logs_ r) (tables_ r) n (rp_tables r).
Definition add_table_number (n : Z) (r : RP) : RP :=
  mkRepairer (rp_edit r) (manifests_ r) (table_numbers_ r ++ [n]) (logs_ r) (tables_ r) (next_file_number_ r) (rp_tables r).
Definition add_table_info (t : TableInfo) (r : RP) : RP :=
  mkRepairer (rp_edit r) (manifests_ r) (table_numbers_ r) (logs_ r) (tables_ r ++ [t]) (next_file_number_ r) (rp_tables r).
Definition add_written (n : Z) (f : F) (r : RP) : RP :=
  mkRepairer (rp_edit r) (manifests_ r) (table_numbers_ r) (logs_ r) (tables_ r) (next_file_number_ r) (rp_tables r ++ [(n, f)]).

(** * [FindFiles] *)

(** One name of the directory. *)
Definition find_file (r : RP) (name : bytes) : RP :=
  match ParseFileName name with
  | None => r
  | Some (number, type) =>
      match type with
      | kDescriptorFile =>
          mkRepairer (rp_edit r) (manifests_ r ++ [name]) (table_numbers_ r) (logs_ r) (tables_ r) (next_file_number_ r) (rp_tables r)
      | _ =>
          let next := if next_file_number_ r <? u64 (number + 1) then u64 (number + 1) else next_file_number_ r in
          mkRepairer (rp_edit r) (manifests_ r)
            (match type with kTableFile => table_numbers_ r ++ [number] | _ => table_numbers_ r end)
            (match type with kLogFile => logs_ r ++ [number] | _ => logs_ r end)
            (tables_ r) next (rp_tables r)
      end
  end.

Definition FindFiles (r : RP) (env : E) : Status * RP :=
  let '(s, filenames) := GetChildren env dbname_ in
  if negb (ok s) then (s, r)
  else
    match filenames with
    | [] => (IOError dbname_ (str "repair found no files"), r)
    | _ => (s, fold_left find_file filenames r)
    end.

(** * [ArchiveFile] *)

(** The parts of a name around its last slash ([strrchr]). *)
Fixpoint last_slash (fname : bytes) : option (bytes * bytes) :=
  match fname with
  | [] => None
  | c :: rest =>
      match last_slash rest with
      | Some (dir, base) => Some (c :: dir, base)
      | None => if Byte.eqb c Byte.x2f then Some ([], rest) else None
      end
  end.

Definition archived_name (fname : bytes) : bytes * bytes :=
  match last_slash fname with
  | Some (dir, base) => (dir ++ str "/lost", dir ++ str "/lost/" ++ base)
  | None => (str "/lost", str "/lost/" ++ fname)
  end.

Definition ArchiveFile (fname : bytes) (env : E) : E :=
  let '(new_dir, new_file) := archived_name fname in
  (fs_rename (CreateDir env new_dir) fname new_file).2.

(** * Logs *)

(** The loop over the records of a log; errors of a batch are ignored, what it
    inserted before stays. *)
Fixpoint convert_loop (fuel : nat) (r : Reader R) (mem : option MemTable) : option (option MemTable) :=
  match fuel with
  | O => None
  | S fuel' =>
      '(res, r) ← ReadRecord fuel r;
      match res with
      | None => Some mem
      | Some record =>
          if blen record <? 12 then convert_loop fuel' r mem
          else convert_loop fuel' r (InsertInto (H := memtable_add user) (SetContents record) mem).2
      end
  end.

(** The reader does not check the checksums. *)
Definition ConvertLogToTable (fuel : nat) (log : Z) (r : RP) (env : E) : option (Status * RP * E) :=
  let '(s, lfile) := NewSequentialFile env (LogFileName dbname_ log) in
  if negb (ok s) then Some (s, r, env)
  else
    mem ← convert_loop fuel (newReader lfile true false 0) (Some (MemTable.Ref newMemTable));
    let n := next_file_number_ r in
    let r := with_number (u64 (n + 1)) r in
    m ← mem;
    '(s, meta, f, env) ← BuildTable (Iterator0 := MemTableIterator_iterator user) options dbname_
      NewWritableFile Close table_status fuel (MemTable_NewIterator m) n env;
    let r := match f with Some f => add_written n f r | None => r end in
    Some (s, (if ok s && (0 <? file_size meta) then add_table_number n r else r), env).

Fixpoint ConvertLogFilesToTables (fuel : nat) (logs : list Z) (r : RP) (env : E) : option (RP * E) :=
  match logs with
  | [] => Some (r, env)
  | log :: logs' =>
      '(_, r, env) ← ConvertLogToTable fuel log r env;
      ConvertLogFilesToTables fuel logs' r (ArchiveFile (LogFileName dbname_ log) env)
  end.

(** * Tables *)

(** The bounds that a scan has found so far: none, or smallest and largest. *)
Definition scan_key (k : bytes) (bounds : option (bytes * bytes)) (max_sequence : Z) : option (bytes * bytes) * Z :=
  match ParseInternalKey k with
  | None => (bounds, max_sequence)
  | Some parsed =>
      (Some (match bounds with None => (k, k) | Some (s, _) => (s, k) end),
       if max_sequence <? sequence parsed then sequence parsed else max_sequence)
  end.

Fixpoint scan_loop (fuel : nat) (iter : J) (bounds : option (bytes * bytes)) (max_sequence : Z)
    : option (J * option (bytes * bytes) * Z) :=
  if Valid iter then
    match fuel with
    | O => None
    | S fuel' =>
        let '(bounds, max_sequence) := scan_key (key iter) bounds max_sequence in
        iter ← Next iter;
        scan_loop fuel' iter bounds max_sequence
    end
  else Some (iter, bounds, max_sequence).

Fixpoint copy_loop (fuel : nat) (iter : J) (builder : Rep F) (counter : Z) : option (Rep F * Z) :=
  if Valid iter then
    match fuel with
    | O => None
    | S fuel' =>
        let builder := TableBuilder_Add builder (key iter) (value iter) in
        iter ← Next iter;
        copy_loop fuel' iter builder (counter + 1)
    end
  else Some (builder, counter).

(** What can be read of a damaged table is copied to a new one, which takes its
    place. *)
Definition RepairTable (fuel : nat) (src : bytes) (t : TableInfo) (r : RP) (env : E) : option (RP * E) :=
  let n := next_file_number_ r in
  let copy := TableFileName dbname_ n in
  let r := with_number (u64 (n + 1)) r in
  let '(s, f, env) := NewWritableFile env copy in
  if negb (ok s) then Some (r, env)
  else
    let number := number (ti_meta t) in
    iter ← SeekToFirst (table_iterator env number (file_size (ti_meta t)));
    '(builder, counter) ← copy_loop fuel iter (newTableBuilder options f) 0;
    let env := ArchiveFile src env in
    let '(s, builder, size) :=
      if counter =? 0 then (s, Abandon builder, file_size (ti_meta t))
      else
        let '(s, builder) := TableBuilder_Finish builder in
        (s, builder, if ok s then FileSize builder else file_size (ti_meta t)) in
    let '(s, f) := if ok s then Close (file builder) else (s, file builder) in
    let '(s, r, env) :=
      if (0 <? counter) && ok s then
        let '(s, env) := fs_rename env copy (TableFileName dbname_ number) in
        (s, (if ok s then add_written number f (add_table_info
               (mkTableInfo (newFileMetaData number size (smallest (ti_meta t)) (largest (ti_meta t))) (ti_max_sequence t)) r)
             else r), env)
      else (s, r, env) in
    Some (r, if ok s then env else (fs_delete env copy).2).

(** A table that cannot be sized is archived; one that is read to its end
    without an error is kept; another is repaired. *)
Definition ScanTable (fuel : nat) (number : Z) (r : RP) (env : E) : option (RP * E) :=
  let name := TableFileName dbname_ number in
  let sst := SSTTableFileName dbname_ number in
  let '(s, size) := GetFileSize env name in
  let '(s, size, fname) :=
    if ok s then (s, size, name)
    else let '(s2, size2) := GetFileSize env sst in (if ok s2 then (OK, size2, sst) else (s, size2, sst)) in
  if negb (ok s) then Some (r, ArchiveFile sst (ArchiveFile name env))
  else
    iter ← SeekToFirst (table_iterator env number size);
    '(iter, bounds, max_sequence) ← scan_loop fuel iter None 0;
    let '(lo, hi) := default ([], []) bounds in
    let t := mkTableInfo (newFileMetaData number size lo hi) max_sequence in
    if ok (status iter) then Some (add_table_info t r, env) else RepairTable fuel fname t r env.

Fixpoint ExtractMetaData (fuel : nat) (numbers : list Z) (r : RP) (env : E) : option (RP * E) :=
  match numbers with
  | [] => Some (r, env)
  | n :: numbers' => '(r, env) ← ScanTable fuel n r env; ExtractMetaData fuel numbers' r env
  end.

(** * The new MANIFEST *)

Definition max_sequence_of (ts : list TableInfo) : Z :=
  fold_left (fun m t => if m <? ti_max_sequence t then ti_max_sequence t else m) ts 0.

Definition descriptor_edit (r : RP) : VersionEdit :=
  let e := SetComparatorName (rp_edit r) comparator_name in
  let e := SetLastSequence (SetNextFile (SetLogNumber e 0) (next_file_number_ r)) (max_sequence_of (tables_ r)) in
  fold_left (fun e t => AddFile e 0 (number (ti_meta t)) (file_size (ti_meta t)) (smallest (ti_meta t)) (largest (ti_meta t)))
    (tables_ r) e.

(** The status, and the file of the new MANIFEST when it was installed. *)
Definition WriteDescriptor (r : RP) (env : E) : Status * option F * E :=
  let tmp := TempFileName dbname_ 1 in
  let '(s, f, env) := NewWritableFile env tmp in
  if negb (ok s) then (s, None, env)
  else
    let '(s, log) := AddRecord (newWriter f) (EncodeTo (descriptor_edit r) []) in
    let '(s, f) := if ok s then Close (dest_ log) else (s, dest_ log) in
    if negb (ok s) then (s, None, (fs_delete env tmp).2)
    else
      let env := fold_left (fun env m => ArchiveFile (dbname_ ++ str "/" ++ m) env) (manifests_ r) env in
      let '(s, env) := fs_rename env tmp (DescriptorFileName dbname_ 1) in
      if ok s then let '(s, env) := SetCurrentFile env dbname_ 1 in (s, Some f, env)
      else (s, None, (fs_delete env tmp).2).

(** The status, the MANIFEST, the state and the environment after. *)
Definition Run (fuel : nat) (env : E) : option (Status * option F * RP * E) :=
  let '(s, r) := FindFiles newRepairer env in
  if ok s then
    '(r, env) ← ConvertLogFilesToTables fuel (logs_ r) r env;
    '(r, env) ← ExtractMetaData fuel (table_numbers_ r) r env;
    let '(s, f, env) := WriteDescriptor r env in
    Some (s, f, r, env)
  else Some (s, None, r, env).
End Repair.

(** * What is found *)

Section Found.
Context {F : Type}.
#[local] Abbreviation RP := (Repairer F).

(** The number of a file that is not a MANIFEST. *)
Definition file_number (name : bytes) : option Z :=
  match ParseFileName name with Some (_, kDescriptorFile) | None => None | Some (n, _) => Some n end.
Definition table_number (name : bytes) : option Z :=
  match ParseFileName name with Some (n, kTableFile) => Some n | _ => None end.
Definition log_number (name : bytes) : option Z :=
  match ParseFileName name with Some (n, kLogFile) => Some n | _ => None end.
Definition is_manifest (name : bytes) : bool :=
  match ParseFileName name with Some (_, kDescriptorFile) => true | _ => false end.

Lemma find_file_fields (r : RP) name :
  find_file r name = mkRepairer (rp_edit r) (if is_manifest name then manifests_ r ++ [name] else manifests_ r)
    (table_numbers_ r ++ match table_number name with Some n => [n] | None => [] end) (logs_ r ++ match log_number name with Some n => [n] | None => [] end) (tables_ r)
    (match file_number name with Some n => Z.max (next_file_number_ r) (u64 (n + 1)) | None => next_file_number_ r end) (rp_tables r).
Proof.
  unfold find_file, file_number, table_number, log_number, is_manifest. destruct (ParseFileName name) as [ [n t]|].
  - destruct t; simpl; rewrite ?app_nil_r; try (bcase; f_equal; lia). done.
  - simpl. rewrite !app_nil_r. by destruct r.
Qed.

Lemma find_files_fields names : forall r : RP,
  let r' := fold_left find_file names r in
  rp_edit r' = rp_edit r /\ tables_ r' = tables_ r /\ rp_tables r' = rp_tables r /\
  manifests_ r' = manifests_ r ++ List.filter is_manifest names /\
  table_numbers_ r' = table_numbers_ r ++ omap table_number names /\
  logs_ r' = logs_ r ++ omap log_number names /\
  next_file_number_ r <= next_file_number_ r' /\
  Forall (fun name => forall n, file_number name = Some n -> u64 (n + 1) <= next_file_number_ r') names.
Proof.
  induction names as [|name names IH]; intros r; cbn [fold_left List.filter].
  { cbn. rewrite !app_nil_r. split_and!; (done || lia || constructor). }
  destruct (IH (find_file r name)) as (I1 & I2 & I3 & I4 & I5 & I6 & I7 & I8). set (r' := fold_left _ _ _) in *.
  rewrite I1, I2, I3, I4, I5, I6. rewrite find_file_fields in I7 |- *.
  cbn [rp_edit manifests_ table_numbers_ logs_ tables_ next_file_number_ rp_tables] in *.
  split_and!; try done.
  - destruct (is_manifest name); [by rewrite <- app_assoc|done].
  - cbn [omap list_omap]. destruct (table_number name); by rewrite <- app_assoc.
  - cbn [omap list_omap]. destruct (log_number name); by rewrite <- app_assoc.
  - destruct (file_number name); lia.
  - constructor; [|done]. intros n E. rewrite E in I7. lia.
Qed.
End Found.

(** * Scanning a table *)

Definition parses (k : bytes) : Prop := is_Some (ParseInternalKey k).
Definition key_sequence (k : bytes) : Z := match ParseInternalKey k with Some p => sequence p | None => 0 end.
Definition largest_sequence (m : Z) (ks : list bytes) : Z := fold_left (fun m k => Z.max m (key_sequence k)) ks m.

Lemma largest_sequence_spec ks : forall m,
  m <= largest_sequence m ks /\ Forall (fun k => key_sequence k <= largest_sequence m ks) ks /\
  (largest_sequence m ks = m \/ exists k, k ∈ ks /\ largest_sequence m ks = key_sequence k).
Proof.
  induction ks as [|k ks IH]; intros m; simpl; [by split_and!; [lia|constructor|left]|].
  destruct (IH (Z.max m (key_sequence k))) as (H1 & H2 & H3). unfold largest_sequence in *. split; [lia|]. split; [constructor; [lia|done]|].
  destruct H3 as [-> |(k' & Hk & ->)]; [|right; exists k'; set_solver].
  destruct (Z.max_spec m (key_sequence k)) as [ [_ ->]|[_ ->] ]; [right; exists k; set_solver|by left].
Qed.

Section Scan.
Context {J : Type} `{!Iterator J}.

(** The iterator shows the entries [l] and ends with the status [s]. *)
Inductive shows (s : Status) : J -> list (bytes * bytes) -> Prop :=
  | shows_nil it : Valid it = false -> status it = s -> shows s it []
  | shows_cons it it' e l : Valid it = true -> key it = e.1 -> value it = e.2 -> Next it = Some it' ->
      shows s it' l -> shows s it (e :: l).

Lemma walks_shows it l : walks it l -> shows OK it l.
Proof. induction 1; [by constructor|by econstructor]. Qed.

Definition scan_keys (ks : list bytes) (st : option (bytes * bytes) * Z) : option (bytes * bytes) * Z :=
  fold_left (fun st k => scan_key k st.1 st.2) ks st.

Lemma scan_loop_spec s it l : shows s it l -> forall fuel bounds m, (length l <= fuel)%nat ->
  exists it', let st := scan_keys (map fst l) (bounds, m) in
    scan_loop fuel it bounds m = Some (it', st.1, st.2) /\ status it' = s.
Proof.
  induction 1 as [it Hv Hs|it it' e l Hv Hk Hva Hn _ IH]; intros fuel bounds m Hf; cbn [scan_loop map].
  - exists it. destruct fuel; cbn [scan_loop]; by rewrite Hv.
  - destruct fuel as [|fuel]; simpl in Hf; [lia|]. cbn [scan_loop]. rewrite Hv, Hk, Hn.
    unfold scan_keys. cbn [fold_left fst snd]. destruct (scan_key e.1 bounds m) as [b' m']. cbn [mbind option_bind]. apply IH. lia.
Qed.

Lemma scan_key_parses k bounds m : parses k ->
  scan_key k bounds m = (Some (default k (fst <$> bounds), k), Z.max m (key_sequence k)).
Proof. unfold scan_key, key_sequence. intros [p ->]. f_equal; [by destruct bounds as [ [? ?]|]|bcase; lia]. Qed.

Lemma scan_keys_some ks : Forall parses ks -> forall lo hi m,
  scan_keys ks (Some (lo, hi), m) = (Some (lo, default hi (last ks)), largest_sequence m ks).
Proof.
  induction 1 as [|k ks Hk Hks IH]; intros lo hi m; [done|]. unfold scan_keys. cbn [fold_left fst snd].
  rewrite scan_key_parses by done. rewrite last_cons. fold (scan_keys ks (Some (lo, k), Z.max m (key_sequence k))). rewrite IH. by destruct (last ks).
Qed.

Lemma scan_keys_none k ks : Forall parses (k :: ks) ->
  scan_keys (k :: ks) (None, 0) = (Some (k, default k (last ks)), largest_sequence 0 (k :: ks)).
Proof.
  intros [Hk Hks]%Forall_cons. unfold scan_keys. cbn [fold_left fst snd]. rewrite scan_key_parses by done. exact (scan_keys_some ks Hks _ _ _).
Qed.

Lemma copy_loop_spec {F} `{!WritableFile F} `{!Checksum} `{!Snappy} s it l : shows s it l -> forall fuel (b : Rep F) c, (length l <= fuel)%nat ->
  copy_loop fuel it b c = Some (TableProofs.add_all l b, c + blen l).
Proof.
  induction 1 as [it Hv Hs|it it' e l Hv Hk Hva Hn _ IH]; intros fuel b c Hf.
  - rewrite blen_nil, Z.add_0_r. destruct fuel; cbn [copy_loop]; by rewrite Hv.
  - destruct fuel as [|fuel]; simpl in Hf; [lia|]. cbn [copy_loop]. rewrite Hv, Hk, Hva, Hn. cbn [mbind option_bind].
    rewrite IH by lia. rewrite blen_cons. simpl. do 2 f_equal. lia.
Qed.
End Scan.

(** * One table *)

Section Tables.
Context {E F R J : Type} `{!FileSystem E} `{HF : WritableFileOk F} `{!SequentialFile R} `{!Checksum} `{!Snappy} `{!Iterator J}.
Context (user : Comparator) (comparator_name dbname_ : bytes) (options : TableOptions).
Context (NewWritableFile : E -> bytes -> Status * F * E) (NewSequentialFile : E -> bytes -> Status * R).
Context (GetFileSize : E -> bytes -> Status * Z) (GetChildren : E -> bytes -> Status * list bytes).
Context (CreateDir : E -> bytes -> E) (Close : F -> Status * F) (table_status : Z -> Z -> Status).
Context (table_iterator : E -> Z -> Z -> J).

(** What a scan records of the table [n] with the entries [l]. *)
Definition table_info (n size : Z) (l : list (bytes * bytes)) : TableInfo :=
  mkTableInfo (newFileMetaData n size (default [] (fst <$> head l)) (default [] (fst <$> last l))) (largest_sequence 0 (map fst l)).

(** The table [n] has a size, under one of its two names. *)
Definition sized (env : E) (n size : Z) (fname : bytes) : Prop :=
  (GetFileSize env (TableFileName dbname_ n) = (OK, size) /\ fname = TableFileName dbname_ n) \/
  (ok (GetFileSize env (TableFileName dbname_ n)).1 = false /\ GetFileSize env (SSTTableFileName dbname_ n) = (OK, size) /\
   fname = SSTTableFileName dbname_ n).

(** The table [n] can be read from the first to the last of the entries [l], where
    reading ends with [s]. *)
Definition table_shows (s : Status) (fuel : nat) (env : E) (n size : Z) (l : list (bytes * bytes)) : Prop :=
  exists it, SeekToFirst (table_iterator env n size) = Some it /\ shows s it l /\ (length l <= fuel)%nat.

#[local] Abbreviation scan := (ScanTable (F := F) dbname_ options NewWritableFile GetFileSize CreateDir Close table_iterator).
#[local] Abbreviation archive := (ArchiveFile CreateDir).

Lemma scan_entries (l : list (bytes * bytes)) : l <> [] -> Forall parses (map fst l) ->
  scan_keys (map fst l) (None, 0) =
    (Some (default [] (fst <$> head l), default [] (fst <$> last l)), largest_sequence 0 (map fst l)).
Proof.
  destruct l as [|e l]; [done|]. intros _ Hp. cbn [map] in *. rewrite scan_keys_none by done. do 3 f_equal.
  change (map fst l) with (fst <$> l). rewrite fmap_last, last_cons. by destruct (last l).
Qed.

Lemma ScanTable_shows s fuel n size fname l r env : sized env n size fname -> table_shows s fuel env n size l -> l <> [] ->
  Forall parses (map fst l) ->
  scan fuel n r env = if ok s then Some (add_table_info (table_info n size l) r, env)
    else RepairTable dbname_ options NewWritableFile CreateDir Close table_iterator fuel fname (table_info n size l) r env.
Proof.
  intros Hsz (it & Es & Hsh & Hf) Hne Hp. unfold ScanTable.
  assert (Hname : (let '(s0, size0) := GetFileSize env (TableFileName dbname_ n) in
    if ok s0 then (s0, size0, TableFileName dbname_ n)
    else let '(s2, size2) := GetFileSize env (SSTTableFileName dbname_ n) in
      if ok s2 then (OK, size2, SSTTableFileName dbname_ n) else (s0, size2, SSTTableFileName dbname_ n)) = (OK, size, fname)).
  { destruct Hsz as [ [-> ->]|(Hs1 & -> & ->)]; [done|]. destruct (GetFileSize _ _) as [s1 n1]. cbn [fst] in Hs1. by rewrite Hs1. }
  destruct (GetFileSize env (TableFileName dbname_ n)) as [s1 n1]. rewrite Hname. cbn [ok negb]. rewrite Es. cbn [mbind option_bind].
  destruct (scan_loop_spec s it l Hsh fuel None 0 Hf) as (it' & El & Hst). rewrite El. cbn [mbind option_bind].
  rewrite scan_entries by done. cbn [fst snd default]. rewrite Hst. done.
Qed.

(** A table that has no size is put away. *)
Lemma ScanTable_missing fuel n r env : ok (GetFileSize env (TableFileName dbname_ n)).1 = false ->
  ok (GetFileSize env (SSTTableFileName dbname_ n)).1 = false ->
  scan fuel n r env = Some (r, archive (SSTTableFileName dbname_ n) (archive (TableFileName dbname_ n) env)).
Proof.
  intros Hs1 Hs2. unfold ScanTable. destruct (GetFileSize env (TableFileName dbname_ n)) as [s1 n1]. cbn [fst] in Hs1. rewrite Hs1.
  destruct (GetFileSize env (SSTTableFileName dbname_ n)) as [s2 n2]. cbn [fst] in Hs2. rewrite Hs2. by rewrite Hs1.
Qed.

(** All tables of a list can be read to their ends. *)
Lemma ExtractMetaData_spec fuel env ts : forall ns r,
  Forall2 (fun n t => exists size fname l, t = table_info n size l /\ sized env n size fname /\
    table_shows OK fuel env n size l /\ l <> [] /\ Forall parses (map fst l)) ns ts ->
  ExtractMetaData dbname_ options NewWritableFile GetFileSize CreateDir Close table_iterator fuel ns r env =
    Some (mkRepairer (rp_edit r) (manifests_ r) (table_numbers_ r) (logs_ r) (tables_ r ++ ts) (next_file_number_ r) (rp_tables r), env).
Proof.
  induction ts as [|t ts IH]; intros ns r Hts.
  { apply Forall2_nil_inv_r in Hts as ->. simpl. rewrite app_nil_r. by destruct r. }
  apply Forall2_cons_inv_r in Hts as (n & ns' & (size & fname & l & -> & Hsz & Hsh & Hne & Hp) & Hts & ->).
  cbn [ExtractMetaData]. rewrite (ScanTable_shows OK fuel n size fname l r env Hsz Hsh Hne Hp). cbn [ok mbind option_bind].
  rewrite IH by done. by destruct r; cbn; rewrite <- app_assoc.
Qed.
Context (Henv : files_ok NewWritableFile Close table_status) (Hrename : forall env a b, exists env', fs_rename env a b = (OK, env')).

(** What can be read of a damaged table becomes a table of its number. *)
Lemma RepairTable_salvages s fuel n size fname l r env :
  (forall f env1, NewWritableFile env (TableFileName dbname_ (next_file_number_ r)) = (OK, f, env1) -> table_shows s fuel env1 n size l) ->
  l <> [] -> flushable (F := F) (InternalKeyComparator user) options l ->
  exists f size' env',
    RepairTable dbname_ options NewWritableFile CreateDir Close table_iterator fuel fname (table_info n size l) r env =
      Some (mkRepairer (rp_edit r) (manifests_ r) (table_numbers_ r) (logs_ r) (tables_ r ++ [table_info n size' l])
              (u64 (next_file_number_ r + 1)) (rp_tables r ++ [(n, f)]), env') /\
    0 < size' /\ holds_table (InternalKeyComparator user) options f size' l.
Proof.
  intros Hsh Hne Hfl. unfold RepairTable. destruct (fo_new _ _ _ Henv env (TableFileName dbname_ (next_file_number_ r))) as (f0 & env1 & E0 & Hc).
  destruct (Hsh f0 env1 E0) as (it & Es & Hit & Hf). rewrite E0. cbn [ok negb].
  cbn [table_info ti_meta newFileMetaData number file_size smallest largest ti_max_sequence]. rewrite Es. cbn [mbind option_bind].
  rewrite (copy_loop_spec s it l Hit fuel _ 0 Hf). cbn [mbind option_bind].
  assert (Hlen : 0 < blen l) by (destruct l as [|e l']; [done|]; rewrite blen_cons; pose proof (blen_nonneg l'); lia).
  pose proof (Hfl f0 Hc) as Hb. destruct (build_ok _ _ _ _ Hb) as (b & Eb & Hsz). pose proof Eb as Eb'. unfold build in Eb'.
  replace (0 + blen l =? 0) with false by lia. rewrite Eb'. cbn [ok].
  destruct (fo_close _ _ _ Henv (file b)) as (f2 & -> & C2). cbn [ok]. replace (0 <? 0 + blen l) with true by lia. cbn [andb].
  destruct (Hrename (archive fname env1) (TableFileName dbname_ (next_file_number_ r)) (TableFileName dbname_ n)) as [env2 ->]. cbn [ok].
  exists f2, (FileSize b), env2. split; [done|]. split; [done|]. exists f0, b. by rewrite C2.
Qed.
End Tables.

(** * One log *)

Section Convert.
Context {E F R : Type} `{!FileSystem E} `{HF : WritableFileOk F} `{HR : SequentialFileOk R} `{!Checksum} `{!Snappy}.
Context (user : Comparator) `{Huser : !@ComparatorOk user} (dbname_ : bytes) (options : TableOptions).
Context (NewWritableFile : E -> bytes -> Status * F * E) (NewSequentialFile : E -> bytes -> Status * R).
Context (Close : F -> Status * F) (table_status : Z -> Z -> Status) (Henv : files_ok NewWritableFile Close table_status).
Context (all : list (Z * list BatchOp)) (wfuel : nat) (Hall : log_ok (F := F) user options all wfuel).

Lemma convert_loop_spec recs fuel (r r' : Reader R) : ReadSteps fuel r recs r' ->
  forall bs1 bs2 rest om, recs = map logged_record bs2 -> all = bs1 ++ bs2 ++ rest -> mem_is user om (logged_updates bs1) ->
  exists om', convert_loop user fuel r om = Some om' /\ mem_is user om' (logged_updates (bs1 ++ bs2)).
Proof.
  induction 1 as [fuel r r' Er Hrep|fuel r rec r1 recs r' Er Hrep _ IH]; intros bs1 bs2 rest om Hrecs Ea Hm;
    cbn [convert_loop]; rewrite Er; cbn [mbind option_bind].
  - symmetry in Hrecs. apply map_eq_nil in Hrecs as ->. exists om. by rewrite app_nil_r.
  - destruct bs2 as [|b bs2]; [done|]. injection Hrecs as -> Hrecs. simpl in Ea.
    assert (Hb : logged_ok b).
    { pose proof (lo_logged _ _ _ _ Hall) as Hlog. rewrite Ea in Hlog. apply Forall_app in Hlog as [_ Hlog]. by apply Forall_cons in Hlog as [? _]. }
    destruct Hb as (Hf & Hl & Hs & Hmx). unfold logged_record at 1. rewrite layout_length. pose proof (blen_nonneg (concat (map op_bytes b.2))).
    unfold kHeader at 1. replace (_ <? 12) with false by lia. unfold SetContents, logged_record.
    rewrite InsertInto_batch by done. cbn [snd]. rewrite cons_middle, app_assoc. apply (IH (bs1 ++ [b]) bs2 rest); [done|by rewrite <- app_assoc|].
    pose proof (logged_small user options all wfuel Hall) as Hsm. pose proof (lo_sorted _ _ _ _ Hall) as Hso.
    rewrite Ea, logged_updates_app in Hsm, Hso. change (b :: bs2 ++ rest) with ([b] ++ (bs2 ++ rest)) in Hsm, Hso.
    rewrite (logged_updates_app [b]), logged_updates_one, app_assoc in Hsm, Hso.
    rewrite logged_updates_app, logged_updates_one. apply mem_is_insert; [done|done|by apply Forall_app in Hsm as [Hsm _]|].
    apply seq_sorted_distinct. by apply (seq_sorted_segment [] _ (logged_updates (bs2 ++ rest))) in Hso.
Qed.

(** The state after the updates [ups] of a log have gone to a table. *)
Definition converted (r r' : Repairer F) (ups : list Update) : Prop :=
  let n := next_file_number_ r in
  (ups = [] /\ r' = with_number (u64 (n + 1)) r) \/
  exists xs f size, xs ≡ₚ ups /\ holds_table (InternalKeyComparator user) options f size (map up_kv xs) /\
    r' = add_table_number n (add_written n f (with_number (u64 (n + 1)) r)).

Lemma ConvertLogToTable_spec fuel log r env bs rest (g : R) r' :
  NewSequentialFile env (LogFileName dbname_ log) = (OK, g) ->
  ReadSteps fuel (newReader g true false 0) (map logged_record bs) r' -> all = bs ++ rest -> (wfuel <= fuel)%nat ->
  exists st' env', ConvertLogToTable user dbname_ options NewWritableFile NewSequentialFile Close table_status fuel log r env =
    Some (OK, st', env') /\ converted r st' (logged_updates bs).
Proof.
  intros Eg Hsteps Ea Hfuel. unfold ConvertLogToTable. rewrite Eg. cbn [ok negb].
  destruct (convert_loop_spec _ _ _ _ Hsteps [] bs rest (Some (MemTable.Ref newMemTable)) eq_refl Ea) as (om & -> & Hm).
  { by exists (MemTable.Ref newMemTable), newMemTable. }
  simpl in Hm. destruct Hm as (m & t & -> & Et & Htab). cbn [mbind option_bind].
  pose proof (logged_small user options all wfuel Hall) as Hsm. pose proof (lo_sorted _ _ _ _ Hall) as Hso. pose proof (lo_fuel _ _ _ _ Hall) as Hlf.
  rewrite Ea, logged_updates_app in Hsm, Hso, Hlf. apply Forall_app in Hsm as [Hsm _].
  apply (seq_sorted_segment [] _ (logged_updates rest)) in Hso. rewrite length_app in Hlf.
  destruct (memtable_walk user _ t Hsm (seq_sorted_distinct user _ Hso) Et) as (xs & it & Hp & Hsort & Hw). destruct (Hw m Htab) as [Es Hwalk].
  pose proof (Permutation_length Hp) as Hlen. destruct xs as [|x xs].
  - destruct (BuildTable_empty (HI := MemTableIterator_iterator user) options dbname_ NewWritableFile Close table_status
      (MemTable_NewIterator m) (it m) (next_file_number_ r) env fuel Es Hwalk) as [env' ->]. cbn [mbind option_bind ok andb file_size newFileMetaData Z.ltb Z.compare].
    eexists _, env'. split; [done|]. left. split; [|done]. by apply Permutation_nil_l in Hp.
  - destruct (BuildTable_spec (HI := MemTableIterator_iterator user) (InternalKeyComparator user) options dbname_ NewWritableFile Close table_status Henv
      (MemTable_NewIterator m) (it m) (up_kv x) (map up_kv xs) (next_file_number_ r) env fuel Es Hwalk) as (f & size & env' & -> & Hsz & Hh).
    { refine (lo_fit _ _ _ _ Hall [] (logged_updates bs) (logged_updates rest) _ (x :: xs) Hp Hsort). by rewrite Ea, logged_updates_app. }
    { simpl in *. rewrite length_map. lia. }
    cbn [mbind option_bind ok andb file_size newFileMetaData]. replace (0 <? size) with true by lia.
    eexists _, env'. split; [done|]. right. by exists (x :: xs), f, size.
Qed.
End Convert.

(** * The new MANIFEST *)

Lemma max_sequence_of_spec ts : 0 <= max_sequence_of ts /\ Forall (fun t => ti_max_sequence t <= max_sequence_of ts) ts /\
  (max_sequence_of ts = 0 \/ exists t, t ∈ ts /\ max_sequence_of ts = ti_max_sequence t).
Proof.
  unfold max_sequence_of. generalize 0 as m. induction ts as [|t ts IH]; intros m; cbn [fold_left]; [by split_and!; [lia|constructor|left]|].
  set (m' := if m <? ti_max_sequence t then ti_max_sequence t else m).
  assert (Hm : m <= m' /\ ti_max_sequence t <= m' /\ (m' = m \/ m' = ti_max_sequence t)) by (unfold m'; bcase; split_and!; lia || auto).
  destruct (IH m') as (H1 & H2 & H3). split; [lia|]. split; [constructor; [lia|done]|].
  destruct H3 as [-> |(t' & Ht & ->)]; [|right; exists t'; set_solver]. destruct Hm as (_ & _ & [-> | ->]); [by left|right; exists t; set_solver].
Qed.

Section Descriptor.
Context {E F R J : Type} `{!FileSystem E} `{HF : WritableFileOk F} `{HR : SequentialFileOk R} `{!Checksum} `{!Snappy} `{!Iterator J}.
Context (user : Comparator) `{Huser : !@ComparatorOk user} (comparator_name dbname_ : bytes) (options : TableOptions).
Context (NewWritableFile : E -> bytes -> Status * F * E) (NewSequentialFile : E -> bytes -> Status * R).
Context (CreateDir : E -> bytes -> E) (Close : F -> Status * F) (table_status : Z -> Z -> Status).
Context (Henv : files_ok NewWritableFile Close table_status) (Hrename : forall env a b, exists env', fs_rename env a b = (OK, env')).
Context (Hswitch : forall env n, exists env', SetCurrentFile env dbname_ n = (OK, env')).

Lemma descriptor_edit_fields (r : Repairer F) : rp_edit r = newVersionEdit -> Forall (fun t => ti_meta t = strip (ti_meta t)) (tables_ r) ->
  descriptor_edit comparator_name r = mkVersionEdit comparator_name 0 0 (next_file_number_ r) (max_sequence_of (tables_ r))
    true true false true true [] [] (map (fun t => (0, ti_meta t)) (tables_ r)).
Proof.
  intros E0 Hm. unfold descriptor_edit. rewrite E0. generalize (max_sequence_of (tables_ r)) as m. intros m.
  assert (Hfold : forall e, fold_left (fun e t => AddFile e 0 (number (ti_meta t)) (file_size (ti_meta t)) (smallest (ti_meta t)) (largest (ti_meta t))) (tables_ r) e =
    set_lists e (compact_pointers_ e) (deleted_files_ e) (new_files_ e ++ map (fun t => (0, ti_meta t)) (tables_ r))).
  { induction Hm as [|t ts Ht _ IH]; intros e; cbn [fold_left map]; [rewrite app_nil_r; by destruct e|].
    rewrite IH. unfold AddFile. fold (strip (ti_meta t)). rewrite <- Ht. cbn [set_lists compact_pointers_ deleted_files_ new_files_]. by rewrite <- app_assoc. }
  by rewrite Hfold.
Qed.

Lemma WriteDescriptor_spec (r : Repairer F) env : exists f env',
  WriteDescriptor comparator_name dbname_ NewWritableFile CreateDir Close r env = (OK, Some f, env') /\
  forall (g : R) fuel, scontents g = wcontents f -> blen (scontents g) + 1 < Z.of_nat fuel ->
    exists rd, ReadSteps fuel (newReader g true true 0) [EncodeTo (descriptor_edit comparator_name r) []] rd.
Proof.
  unfold WriteDescriptor. destruct (fo_new _ _ _ Henv env (TempFileName dbname_ 1)) as (f0 & env1 & -> & Hc). cbn [ok negb].
  set (rec := EncodeTo _ _). destruct (log_holds_add (newWriter f0) [] [] rec (log_holds_new f0 Hc)) as (frs & w & -> & Hw). cbn [ok].
  destruct (fo_close _ _ _ Henv (dest_ w)) as (f1 & -> & C1). cbn [ok negb]. set (env2 := fold_left _ _ _).
  destruct (Hrename env2 (TempFileName dbname_ 1) (DescriptorFileName dbname_ 1)) as [env3 ->]. cbn [ok].
  destruct (Hswitch env3 1) as [env4 ->]. exists f1, env4. split; [done|]. intros g fuel Hg Hfuel.
  destruct (log_holds_read w [frs] [] [rec] [] (blen (wcontents (dest_ w))) g fuel) as (k & rd & Hk & Hs); [done|done| | |done|].
  - rewrite (lh_contents _ _ _ Hw). reflexivity.
  - rewrite Hg, C1. symmetry. by apply btake_all.
  - exists rd. by rewrite take_nil in Hs.
Qed.
End Descriptor.

(** * File numbers *)

Section Numbers.
Context {E F R : Type} `{!FileSystem E} `{!WritableFile F} `{!SequentialFile R} `{!Checksum} `{!Snappy}.
Context (user : Comparator) (dbname_ : bytes) (options : TableOptions).
Context (NewWritableFile : E -> bytes -> Status * F * E) (NewSequentialFile : E -> bytes -> Status * R).
Context (CreateDir : E -> bytes -> E) (Close : F -> Status * F) (table_status : Z -> Z -> Status).

(** The numbers of all tables are below the next file number, which is at most [b]. *)
Definition numbered (b : Z) (r : Repairer F) : Prop :=
  0 <= next_file_number_ r <= b /\ Forall (fun n => 0 <= n < next_file_number_ r) (table_numbers_ r).

(** What converting logs leaves as it is. *)
Definition same_rest (r r' : Repairer F) : Prop :=
  rp_edit r' = rp_edit r /\ manifests_ r' = manifests_ r /\ tables_ r' = tables_ r.

Lemma ConvertLogToTable_numbers fuel log r env s r' env' b :
  ConvertLogToTable user dbname_ options NewWritableFile NewSequentialFile Close table_status fuel log r env = Some (s, r', env') ->
  numbered b r -> b + 1 < 2 ^ 64 -> numbered (b + 1) r' /\ same_rest r r'.
Proof.
  intros E1 [Hn Ht] Hb.
  assert (Hu : u64 (next_file_number_ r + 1) = next_file_number_ r + 1) by (apply u64_small; lia).
  assert (Hup : Forall (fun n => 0 <= n < next_file_number_ r + 1) (table_numbers_ r)) by (eapply Forall_impl; [exact Ht|]; simpl; lia).
  unfold ConvertLogToTable in E1. destruct (NewSequentialFile _ _) as [s0 lfile]. destruct (ok s0); cbn [negb] in E1.
  2:{ injection E1 as <- <- <-. split; [|done]. split; [lia|done]. }
  destruct (convert_loop _ _ _ _) as [mem|]; [|done]. cbn [mbind option_bind] in E1. destruct mem as [m|]; [|done]. cbn [mbind option_bind] in E1.
  destruct (BuildTable _ _ _ _ _ _ _ _ _) as [ [ [ [s1 meta] f] env1]|]; [|done]. cbn [mbind option_bind] in E1. injection E1 as <- <- <-.
  destruct (ok s1 && _), f as [f|]; (split; [|done]); (split; cbn [add_table_number add_written with_number next_file_number_ table_numbers_]; rewrite Hu; [lia|]);
    try done; (apply Forall_app; split; [done|]); constructor; lia || done.
Qed.

Lemma ConvertLogFilesToTables_numbers fuel logs : forall r env r' env' b,
  ConvertLogFilesToTables user dbname_ options NewWritableFile NewSequentialFile CreateDir Close table_status fuel logs r env = Some (r', env') ->
  numbered b r -> b + blen logs < 2 ^ 64 -> numbered (b + blen logs) r' /\ same_rest r r'.
Proof.
  induction logs as [|log logs IH]; intros r env r' env' b E1 Hn Hb; cbn [ConvertLogFilesToTables] in E1.
  { injection E1 as <- <-. rewrite blen_nil, Z.add_0_r. done. }
  rewrite blen_cons in Hb |- *. pose proof (blen_nonneg logs) as Hl. destruct (ConvertLogToTable _ _ _ _ _ _ _ _ _ _ _) as [ [ [s r1] env1]|] eqn:Ec; [|done].
  cbn [mbind option_bind] in E1. destruct (ConvertLogToTable_numbers _ _ _ _ _ _ _ b Ec Hn ltac:(lia)) as [Hn1 (S1 & S2 & S3)].
  destruct (IH _ _ _ _ (b + 1) E1 Hn1 ltac:(lia)) as [Hn2 (T1 & T2 & T3)]. split; [by replace (b + (1 + blen logs)) with (b + 1 + blen logs) by lia|].
  split_and!; congruence.
Qed.

(** The numbers found in the directory. *)
Lemma find_files_numbered names b : 1 <= b -> b < 2 ^ 64 -> (forall name n, name ∈ names -> file_number name = Some n -> 0 <= n < b) ->
  numbered b (fold_left find_file names (newRepairer (F := F))).
Proof.
  intros Hb1 Hb Hn. clear -F Hb1 Hb Hn. destruct (find_files_fields names (newRepairer (F := F))) as (_ & _ & _ & _ & Et & _ & Hge & Hup).
  assert (Hle : next_file_number_ (fold_left find_file names (newRepairer (F := F))) <= b).
  { assert (Hgen : forall r : Repairer F, next_file_number_ r <= b -> next_file_number_ (fold_left find_file names r) <= b); [|by apply Hgen].
    clear Et Hge Hup. induction names as [|name names IH]; intros r Hr; [done|]. cbn [fold_left]. apply IH; [set_solver|].
    rewrite find_file_fields. cbn [next_file_number_]. destruct (file_number name) as [n|] eqn:Ef; [|done].
    destruct (Hn name n ltac:(set_solver) Ef). rewrite u64_small by lia. lia. }
  cbn [newRepairer next_file_number_ table_numbers_ app] in Hge, Et. split; [lia|]. rewrite Et. apply Forall_forall. intros n Hin.
  apply list_elem_of_omap in Hin as (name & Hin & Ef).
  assert (Hfn : file_number name = Some n).
  { unfold table_number, file_number in *. destruct (ParseFileName name) as [ [n' t]|]; [|done]. by destruct t. }
  pose proof (Hn name n Hin Hfn). rewrite Forall_forall in Hup. pose proof (Hup name Hin n Hfn) as Hx. rewrite u64_small in Hx by lia. lia.
Qed.
End Numbers.

(** * Properties *)

Lemma key_sequence_range k : u64_ok (key_sequence k).
Proof.
  unfold key_sequence, u64_ok, ParseInternalKey. destruct (_ <? 8); [lia|]. set (p := bdrop _ _). pose proof (DecodeFixed64_range p) as Hr.
  destruct (vt_of _); [|lia]. cbn [sequence]. rewrite Z.shiftr_div_pow2 by lia.
  split; [apply Z.div_pos; lia|]. apply Z.div_lt_upper_bound; lia.
Qed.

Section Properties.
Context {E F R J : Type} `{!FileSystem E} `{HF : WritableFileOk F} `{HR : SequentialFileOk R} `{!Checksum} `{!Snappy} `{!Iterator J}.
Context (user : Comparator) `{Huser : !@ComparatorOk user} (comparator_name dbname_ : bytes) (options : TableOptions).
Context (NewWritableFile : E -> bytes -> Status * F * E) (NewSequentialFile : E -> bytes -> Status * R).
Context (GetFileSize : E -> bytes -> Status * Z) (GetChildren : E -> bytes -> Status * list bytes).
Context (CreateDir : E -> bytes -> E) (Close : F -> Status * F) (table_status : Z -> Z -> Status).
Context (table_iterator : E -> Z -> Z -> J).
Context (Henv : files_ok NewWritableFile Close table_status) (Hrename : forall env a b, exists env', fs_rename env a b = (OK, env')).
Context (Hswitch : forall env n, exists env', SetCurrentFile env dbname_ n = (OK, env')).
#[local] Abbreviation icmp := (InternalKeyComparator user).
#[local] Instance icmp_total : TotalCompare (InternalKey_Compare user).
Proof. split; [apply icmp_antisym; exact _|apply icmp_le_trans; exact _]. Qed.

(** The table [n] of the directory is whole: it has a size, and reading it shows the
    sorted entries [l] without an error. *)
Record whole_table (fuel : nat) (env : E) (n size : Z) (l : list (bytes * bytes)) : Prop := {
  wt_sized : exists fname, sized dbname_ GetFileSize env n size fname;
  wt_shows : table_shows table_iterator OK fuel env n size l;
  wt_nonempty : l <> [];
  wt_sorted : StronglySorted (entry_lt (cmp := icmp)) l;
  wt_keys : Forall (fun e => parses e.1 /\ blen e.1 < 2 ^ 32) l;
  wt_numbers : u64_ok n /\ u64_ok size;
}.

Lemma whole_table_parses fuel env n size l : whole_table fuel env n size l -> Forall parses (map fst l).
Proof. intros Hw. apply Forall_map. eapply Forall_impl; [exact (wt_keys _ _ _ _ _ Hw)|]. simpl. tauto. Qed.

(** The bounds of a whole table are a range, and fit into an edit. *)
Lemma whole_table_file fuel env n size l : whole_table fuel env n size l ->
  file_wf user (ti_meta (table_info n size l)) /\ file_ok (ti_meta (table_info n size l)).
Proof.
  intros [_ _ Hne Hs Hk [Hn Hz] ]. destruct l as [|e l]; [done|]. cbn [table_info ti_meta head]. unfold file_wf, file_ok.
  cbn [newFileMetaData smallest largest number file_size fmap option_fmap option_map default].
  destruct (last (e :: l)) as [e'|] eqn:El; [|by apply last_None in El]. cbn [fmap option_fmap option_map default].
  assert (Hin : e' ∈ e :: l) by (apply last_Some in El as (l' & ->); set_solver). rewrite Forall_forall in Hk.
  split; [|split; [done|]; split_and!; [exact Hn|exact Hz|apply (Hk e); set_solver|by apply Hk] ].
  apply StronglySorted_inv in Hs as [_ Hlt]. rewrite Forall_forall in Hlt. apply elem_of_cons in Hin as [-> |Hin].
  - rewrite (tc_refl (InternalKey_Compare user)). lia.
  - apply Hlt in Hin. exact (Z.lt_le_incl _ _ Hin).
Qed.

Lemma on_level_zero (fs : list FileMetaData) level : on_level level (map (pair 0) fs) = if decide (level = 0%nat) then fs else [].
Proof.
  unfold on_level. induction fs as [|f fs IH]; cbn [map]; [by destruct (decide _)|]. rewrite filter_cons. cbn [fst]. change (Z.to_nat 0) with 0%nat.
  destruct (decide (0%nat = level)) as [<-|Hne].
  - rewrite decide_True in IH by done. rewrite (decide_True (P := 0%nat = 0%nat)) by done. rewrite fmap_cons. by f_equal.
  - rewrite decide_False in IH by done. by rewrite (decide_False (P := level = 0%nat)) by done.
Qed.

(** The tables with the numbers [ns], of the sizes [size_of] and with the entries
    [entries_of]. *)
Context (size_of : Z -> Z) (entries_of : Z -> list (bytes * bytes)).
Definition scanned (n : Z) : TableInfo := table_info n (size_of n) (entries_of n).
Definition scanned_files (ns : list Z) : list FileMetaData := map (fun n => ti_meta (scanned n)) ns.
Definition scanned_edit (next : Z) (ns : list Z) : VersionEdit :=
  mkVersionEdit comparator_name 0 0 next (max_sequence_of (map scanned ns)) true true false true true [] [] (map (pair 0) (scanned_files ns)).
Definition all_whole (fuel : nat) (env : E) (ns : list Z) : Prop := Forall (fun n => whole_table fuel env n (size_of n) (entries_of n)) ns.

Lemma scanned_numbers ns : numbers (scanned_files ns) = ns.
Proof. unfold numbers, scanned_files. induction ns as [|n ns IH]; [done|]. cbn [map]. rewrite fmap_cons. by f_equal. Qed.

Lemma scanned_spec next ns level : NoDup ns ->
  spec_edit level ∅ (scanned_edit next ns) = if decide (level = 0%nat) then files_map (scanned_files ns) else ∅.
Proof.
  intros Hd. unfold spec_edit. cbn [scanned_edit new_files_ deleted_files_]. rewrite on_level_zero. change (on_level level []) with (@nil Z). cbn [fold_left].
  destruct (decide _); [|done]. rewrite fold_spec_add by (by rewrite scanned_numbers). apply (right_id_L ∅ (∪)).
Qed.

Lemma scanned_history fuel env next ns : NoDup ns -> all_whole fuel env ns -> history user newVersion [scanned_edit next ns].
Proof.
  intros Hd Hw. apply Forall_forall. intros level [_ Hl]%elem_of_seq. rewrite newVersion_level by (cbn in Hl; lia). cbn [level_history].
  change (files_map []) with (∅ : gmap Z FileMetaData). rewrite scanned_spec by done. cbn [scanned_edit new_files_]. rewrite on_level_zero.
  destruct (decide _) as [-> |Hne].
  - rewrite scanned_numbers. split; [done|]. split; [apply Forall_forall; intros n _; set_solver|]. split; [|done].
    intros n f Hf. split; [|by left]. apply files_map_lookup in Hf as (g & Hg & _ & ->); [|by rewrite scanned_numbers].
    apply (list_elem_of_fmap_1 (fun n => ti_meta (scanned n))) in Hg as (n' & -> & Hn'). unfold all_whole in Hw. rewrite Forall_forall in Hw.
    exact (proj1 (whole_table_file _ _ _ _ _ (Hw n' Hn'))).
  - split; [constructor|]. split; [constructor|]. split; [apply map_Forall_empty|done].
Qed.

Lemma scanned_edit_wf fuel env next ns : blen comparator_name < 2 ^ 32 -> u64_ok next -> all_whole fuel env ns -> edit_wf (scanned_edit next ns).
Proof.
  intros Hc Hn Hw. unfold all_whole in Hw. rewrite Forall_forall in Hw. split; cbn [scanned_edit comparator_ has_comparator_ log_number_ has_log_number_ prev_log_number_ has_prev_log_number_ VersionEdit.next_file_number_ has_next_file_number_ last_sequence_ has_last_sequence_ compact_pointers_ deleted_files_ new_files_];
    try (split; [|done]; done || (unfold u64_ok; lia)); try constructor; try done.
  - unfold u64_ok. destruct (max_sequence_of_spec (map scanned ns)) as (_ & _ & [-> |(t & Ht & ->)]); [lia|].
    apply (list_elem_of_fmap_1 scanned) in Ht as (n & -> & _). cbn [scanned table_info ti_max_sequence].
    destruct (largest_sequence_spec (map fst (entries_of n)) 0) as (_ & _ & [-> |(k & _ & ->)]); [lia|apply key_sequence_range].
  - unfold scanned_files. rewrite map_map. apply Forall_map, Forall_forall. intros n Hin. cbn [fst snd]. split; [unfold VersionEdit.level_ok, kNumLevels; lia|].
    exact (proj2 (whole_table_file _ _ _ _ _ (Hw n Hin))).
Qed.

#[local] Abbreviation convert_logs := (ConvertLogFilesToTables user dbname_ options NewWritableFile NewSequentialFile CreateDir Close table_status).
#[local] Abbreviation run := (Run user comparator_name dbname_ options NewWritableFile NewSequentialFile GetFileSize GetChildren CreateDir Close table_status table_iterator).

Lemma Run_spec fuel env env1 names r1 (b : Z) :
  GetChildren env dbname_ = (OK, names) -> names <> [] -> 1 <= b -> b + blen (omap log_number names) < 2 ^ 64 ->
  (forall name n, name ∈ names -> file_number name = Some n -> 0 <= n < b) ->
  convert_logs fuel (omap log_number names) (fold_left find_file names newRepairer) env = Some (r1, env1) ->
  all_whole fuel env1 (table_numbers_ r1) ->
  exists f r env', run fuel env = Some (OK, Some f, r, env') /\ tables_ r = map scanned (table_numbers_ r1) /\
    numbered (b + blen (omap log_number names)) r1 /\
    forall (g : R) rfuel, scontents g = wcontents f -> blen (scontents g) + 1 < Z.of_nat rfuel ->
      exists rd, ReadSteps rfuel (newReader g true true 0) [EncodeTo (scanned_edit (next_file_number_ r1) (table_numbers_ r1)) []] rd.
Proof.
  intros Hch Hne Hb1 Hb Hnum Hconv Hw. assert (Hb2 : b < 2 ^ 64) by (pose proof (blen_nonneg (omap log_number names)); lia).
  unfold Run, FindFiles. rewrite Hch. cbn [ok negb]. destruct names as [|name names]; [done|]. cbn [ok].
  destruct (find_files_fields (name :: names) (newRepairer (F := F))) as (Ee & Et & _ & _ & _ & El & _). cbn [newRepairer logs_ rp_edit tables_ app] in Ee, Et, El.
  rewrite El. rewrite Hconv. cbn [mbind option_bind].
  destruct (ConvertLogFilesToTables_numbers _ _ _ _ _ _ _ _ _ _ _ _ _ _ b Hconv) as [Hn1 (S1 & S2 & S3)]; [apply find_files_numbered; [exact Hb1|exact Hb2|exact Hnum]|exact Hb|].
  rewrite (ExtractMetaData_spec dbname_ options NewWritableFile GetFileSize CreateDir Close table_iterator fuel env1 (map scanned (table_numbers_ r1)) (table_numbers_ r1) r1).
  2:{ unfold all_whole in Hw. revert Hw. generalize (table_numbers_ r1) as ns. induction 1 as [|n ns Hn _ IH]; cbn [map]; [done|]. constructor; [|done].
      destruct (wt_sized _ _ _ _ _ Hn) as [fname Hsz]. exists (size_of n), fname, (entries_of n). split; [done|]. split; [done|]. split; [exact (wt_shows _ _ _ _ _ Hn)|].
      split; [exact (wt_nonempty _ _ _ _ _ Hn)|exact (whole_table_parses _ _ _ _ _ Hn)]. }
  cbn [mbind option_bind]. rewrite S3, Et. cbn [app]. set (r2 := mkRepairer _ _ _ _ _ _ _).
  destruct (WriteDescriptor_spec (R := R) comparator_name dbname_ NewWritableFile CreateDir Close table_status Henv Hrename Hswitch r2 env1) as (f & env' & -> & Hread).
  exists f, r2, env'. split; [done|]. split; [done|]. split; [done|]. intros g rfuel Hg Hf. destruct (Hread g rfuel Hg Hf) as [rd Hrd]. exists rd.
  rewrite descriptor_edit_fields in Hrd; [|cbn [r2 rp_edit]; congruence|].
  - cbn [r2 next_file_number_ tables_] in Hrd. rewrite map_map in Hrd. unfold scanned_edit, scanned_files. rewrite map_map. exact Hrd.
  - cbn [r2 tables_]. apply Forall_map, Forall_forall. intros n _. done.
Qed.

#[local] Abbreviation recover OpenFile reuse_logs max_file_size NewAppendableFile :=
  (Recover user comparator_name dbname_ OpenFile reuse_logs max_file_size GetFileSize NewAppendableFile).

(** C13: a repaired database opens with all its tables.  Let the directory hold
    tables that are whole, those made of its logs included.  [Run] succeeds, and
    when the file it wrote is the MANIFEST that CURRENT names, [Recover] succeeds:
    level 0 of the version holds exactly these tables, with their sizes and with
    the first and the last of their keys as bounds, the other levels are empty; no entry
    of a table has a sequence number above the last one of the database, and new
    files get numbers above those of all tables. *)
Theorem repair_then_recover (fuel : nat) (env env1 : E) (names : list bytes) (r1 : Repairer F) (b : Z)
    (Hchildren : GetChildren env dbname_ = (OK, names)) (Hfound : names <> [])
    (Hroom : 1 <= b /\ b + blen (omap log_number names) + 1 < 2 ^ 64)
    (Hnumbers : forall name n, name ∈ names -> file_number name = Some n -> 0 <= n < b)
    (Hname : blen comparator_name < 2 ^ 32)
    (Hlogs : convert_logs fuel (omap log_number names) (fold_left find_file names newRepairer) env = Some (r1, env1))
    (Hdistinct : NoDup (table_numbers_ r1)) (Hwhole : all_whole fuel env1 (table_numbers_ r1)) :
  exists f r env', run fuel env = Some (OK, Some f, r, env') /\
    forall (OpenFile : E -> bytes -> Status * R) reuse_logs max_file_size (NewAppendableFile : E -> bytes -> Status * F * E) env2 (cur g : R) name rfuel,
      OpenFile env2 (CurrentFileName dbname_) = (OK, cur) -> scontents cur = name ++ [Byte.x0a] -> (length (scontents cur) < rfuel)%nat ->
      OpenFile env2 (dbname_ ++ str "/" ++ name) = (OK, g) -> scontents g = wcontents f -> blen (scontents g) + 1 < Z.of_nat rfuel ->
      exists vs' env3 save, recover OpenFile reuse_logs max_file_size NewAppendableFile rfuel newVersionSet env2 = Some (OK, vs', env3, save) /\
        files_map (level_files (current vs') 0) = files_map (scanned_files (table_numbers_ r1)) /\
        (forall level, (0 < level < Z.to_nat kNumLevels)%nat -> level_files (current vs') level = []) /\
        Forall (fun n => Forall (fun e => key_sequence e.1 <= vs_last_sequence vs') (entries_of n) /\ n < vs_next_file_number vs') (table_numbers_ r1).
Proof.
  destruct (Run_spec fuel env env1 names r1 b) as (f & r & env' & Erun & _ & [Hn Hbelow] & Hread); [done|done|lia|lia|done|done|done|].
  exists f, r, env'. split; [done|]. intros OpenFile reuse_logs max_file_size NewAppendableFile env2 cur g name rfuel Ecur Ccur Hcur Eg Hg Hfuel.
  pose proof (blen_nonneg (omap log_number names)) as Hl. set (ns := table_numbers_ r1) in *. set (next := next_file_number_ r1) in *.
  destruct (Hread g rfuel Hg Hfuel) as [rd Hrd].
  assert (Hok : readable comparator_name (scanned_edit next ns)).
  { split; [|done]. apply (scanned_edit_wf fuel env1); [done|unfold u64_ok; lia|done]. }
  destruct (recover_edits user comparator_name dbname_ OpenFile reuse_logs max_file_size GetFileSize NewAppendableFile [scanned_edit next ns] env2 cur g name rfuel rd)
    as (vs' & env3 & save & E1 & Hlv & _ & _ & _ & Hseq & Hnext); [by constructor|by apply (scanned_history fuel env1)|done..|].
  exists vs', env3, save. split; [done|]. cbn [fold_left] in Hlv. split_and!.
  - destruct (Hlv 0%nat ltac:(vm_compute; lia)) as [_ ->]. rewrite scanned_spec by done. by rewrite decide_True.
  - intros level Hlevel. destruct (Hlv level ltac:(lia)) as [ [_ Hnd _] Hmap]. rewrite scanned_spec, decide_False in Hmap by (done || lia).
    destruct (level_files (current vs') level) as [|x l]; [done|]. exfalso.
    assert (files_map (x :: l) !! number x = Some (norm x)) as Hx by (apply files_map_lookup; [done|exists x; set_solver]). rewrite Hmap in Hx. done.
  - cbn in Hseq, Hnext. apply Forall_forall. intros n Hin. rewrite Forall_forall in Hbelow. pose proof (Hbelow n Hin) as Hnn.
    split; [|rewrite Hnext, u64_small by lia; lia]. rewrite Hseq.
    destruct (max_sequence_of_spec (map scanned ns)) as (_ & Hmax & _). rewrite Forall_forall in Hmax.
    pose proof (Hmax (scanned n) (list_elem_of_fmap_2 scanned ns n Hin)) as Hm. cbn [scanned table_info ti_max_sequence] in Hm.
    destruct (largest_sequence_spec (map fst (entries_of n)) 0) as (_ & Hk & _). rewrite Forall_forall in Hk.
    apply Forall_forall. intros e He. pose proof (Hk e.1 (list_elem_of_fmap_2 fst _ e He)). lia.
Qed.
End Properties.

(** C15: a damaged table keeps what can be read.  Let reading the table [n] show the
    entries [l] and then fail.  The scan succeeds: it records [n] with the bounds
    and the largest sequence number of [l] and the size of a new file that takes the
    place of the table, and this file opens as a table of exactly [l]. *)
Theorem repair_salvages_table {E F J G : Type} `{!FileSystem E} `{HF : WritableFileOk F} `{HG : RandomAccessFileOk G} `{!Checksum} `{HSn : SnappyOk} `{!Iterator J}
    (user : Comparator) (Huser : @ComparatorOk user) (dbname_ : bytes) (options : TableOptions)
    (NewWritableFile : E -> bytes -> Status * F * E) (GetFileSize : E -> bytes -> Status * Z) (CreateDir : E -> bytes -> E)
    (Close : F -> Status * F) (table_status : Z -> Z -> Status) (table_iterator : E -> Z -> Z -> J)
    (s : Status) (fuel : nat) (n size : Z) (fname : bytes) (l : list (bytes * bytes)) (r : Repairer F) (env : E)
    (Henv : files_ok NewWritableFile Close table_status) (Hrename : forall env a b, exists env', fs_rename env a b = (OK, env'))
    (Hsized : sized dbname_ GetFileSize env n size fname) (Hshows : table_shows table_iterator s fuel env n size l) (Hdamaged : ok s = false)
    (Hstill : forall f env1, NewWritableFile env (TableFileName dbname_ (next_file_number_ r)) = (OK, f, env1) -> table_shows table_iterator s fuel env1 n size l)
    (Hsome : l <> []) (Hkeys : Forall parses (map fst l)) (Hfit : flushable (F := F) (InternalKeyComparator user) options l) :
  exists f size' env',
    ScanTable dbname_ options NewWritableFile GetFileSize CreateDir Close table_iterator fuel n r env =
      Some (mkRepairer (rp_edit r) (manifests_ r) (table_numbers_ r) (logs_ r) (tables_ r ++ [table_info n size' l])
              (u64 (next_file_number_ r + 1)) (rp_tables r ++ [(n, f)]), env') /\
    forall (g : G) mapped id, rcontents g = wcontents f ->
      exists t done, Open mapped options g size' id = Some (OK, Some t) /\ opened options t done /\ entries done = l.
Proof.
  rewrite (ScanTable_shows dbname_ options NewWritableFile GetFileSize CreateDir Close table_iterator s fuel n size fname l r env Hsized Hshows Hsome Hkeys). rewrite Hdamaged.
  destruct (RepairTable_salvages user dbname_ options NewWritableFile CreateDir Close table_status table_iterator Henv Hrename s fuel n size fname l r env Hstill Hsome Hfit)
    as (f & size' & env' & E1 & _ & (f0 & b & Hb & Eb & -> & Hc)).
  exists f, (FileSize b), env'. split; [done|]. intros g mapped id Hg.
  destruct (build_opens mapped options _ f0 g id Hb) as (b' & Eb' & Hopen). rewrite Eb in Eb'. injection Eb' as <-. apply Hopen. by rewrite Hg.
Qed.

(** A log becomes a table.  For a log that a crash has cut, with the batches
    [bs1] complete in what is left, the conversion succeeds: the updates of [bs1]
    and of the first [k] batches after them, never a part of a batch, are the table
    with the next file number, sorted (no table if there are none); the number is
    added to those to be scanned. *)
Theorem repair_converts_log {E F R : Type} `{!FileSystem E} `{HF : WritableFileOk F} `{HR : SequentialFileOk R} `{!Checksum} `{!Snappy}
    (user : Comparator) (Huser : @ComparatorOk user) (dbname_ : bytes) (options : TableOptions)
    (NewWritableFile : E -> bytes -> Status * F * E) (NewSequentialFile : E -> bytes -> Status * R)
    (Close : F -> Status * F) (table_status : Z -> Z -> Status)
    (w : Writer F) (frss1 frss2 : list (list (Z * bytes))) (bs1 bs2 : list (Z * list BatchOp))
    (n : Z) (g : R) (fuel wfuel : nat) (log : Z) (r : Repairer F) (env : E)
    (Henv : files_ok NewWritableFile Close table_status)
    (Hlog : log_holds w (frss1 ++ frss2) (map logged_record (bs1 ++ bs2)))
    (Hlen : length bs1 = length frss1) (Hsynced : blen (stream 0 (concat frss1)) <= n)
    (Hcrash : scontents g = btake n (wcontents (dest_ w)))
    (Hopen : NewSequentialFile env (LogFileName dbname_ log) = (OK, g))
    (Hok : log_ok (F := F) user options (bs1 ++ bs2) wfuel)
    (Hfuel : blen (scontents g) + 1 < Z.of_nat fuel /\ (wfuel <= fuel)%nat) :
  exists k r' env', (k <= length bs2)%nat /\
    ConvertLogToTable user dbname_ options NewWritableFile NewSequentialFile Close table_status fuel log r env = Some (OK, r', env') /\
    converted user options r r' (logged_updates (bs1 ++ take k bs2)).
Proof.
  rewrite map_app in Hlog. destruct Hfuel as [Hf1 Hf2].
  destruct (log_holds_read_with true false w frss1 frss2 _ _ n g fuel Hlog ltac:(by rewrite length_map) Hsynced Hcrash Hf1)
    as (k & rd & Hk & Hs). rewrite length_map in Hk. rewrite firstn_map, <- map_app in Hs.
  destruct (ConvertLogToTable_spec user dbname_ options NewWritableFile NewSequentialFile Close table_status Henv (bs1 ++ bs2) wfuel Hok
    fuel log r env (bs1 ++ take k bs2) (drop k bs2) g rd Hopen Hs) as (r' & env' & E1 & Hc); [by rewrite <- app_assoc, take_drop|done|].
  by exists k, r', env'.
Qed.

(** * Examples *)

(** A flush wrote the table 5 while a compaction ran, whose output got the number 7:
    the table with the larger number holds the older value, and lies in level 1. *)
Definition flushed_run : list (bytes * bytes) := [kv (str "b") 9 kTypeValue (str "new")].
Definition compacted_run : list (bytes * bytes) := [kv (str "b") 4 kTypeValue (str "old")].
Definition repair_runs (n : Z) : list (bytes * bytes) := if n =? 5 then flushed_run else compacted_run.
Definition before_repair : Version :=
  mkVersion [[run_file 5 flushed_run]; [run_file 7 compacted_run]; []; []; []; []; []] None (-1) (0, 1) 0.

Definition repair_names : list bytes := [str "CURRENT"; str "MANIFEST-000002"; str "000005.ldb"; str "000007.ldb"].
Definition repair_children (env : unit) (dir : bytes) : Status * list bytes := (OK, repair_names).
Definition repair_size (env : unit) (name : bytes) : Status * Z := (OK, 1000).
Definition repair_mkdir (env : unit) (dir : bytes) : unit := env.
Definition repair_iterator (env : unit) (n size : Z) : ListIter := mkListIter (repair_runs n) 0.
Definition no_log (env : unit) (name : bytes) : Status * flat_file := (NotFound name [], []).
(** The directory after the repair, as far as [Recover] reads it. *)
Definition repaired_open (f : flat_file) (env : unit) (name : bytes) : Status * flat_file :=
  if bool_decide (name = CurrentFileName (str "db")) then (OK, str "MANIFEST-000001" ++ [Byte.x0a]) else (OK, f).

#[local] Existing Instance no_snappy.
#[local] Instance repair_checksum : Checksum := crc32c_checksum 0.
#[local] Instance repair_iter : Iterator ListIter := ListIter_iterator (InternalKeyComparator BytewiseComparator).

#[local] Abbreviation repair_run := (Run BytewiseComparator (str "cmp") (str "db") flush_options flush_new no_log repair_size repair_children
  repair_mkdir flush_close flush_table repair_iterator 5 tt).
#[local] Abbreviation repair_recover f := (Recover (F := flat_file) BytewiseComparator (str "cmp") (str "db") (repaired_open f) false 2000000
  repair_size flush_new 200 newVersionSet tt).

Definition repair_get (v : Version) (u : bytes) : option (Status * bytes) :=
  '(s, x, _, _) ← @Get BytewiseComparator (list_reader BytewiseComparator (fun f => repair_runs (number f))) Q exact 5 [] v (newLookupKey u 20) [];
  Some (s, x).

(** The read of the key in the database that is opened after the repair. *)
Definition read_repaired (u : bytes) : option (Status * bytes) :=
  '(_, f, _, _) ← repair_run;
  f ← f;
  '(_, vs, _, _) ← repair_recover f;
  repair_get (current vs) u.

#[local] Abbreviation repair_reader := (list_reader BytewiseComparator (fun f => repair_runs (number f))).
#[local] Abbreviation repair_reader_ok := (list_reader_ok BytewiseComparator (fun f => repair_runs (number f))).

Lemma before_level level f : f ∈ level_files before_repair level ->
  (level = 0%nat /\ f = run_file 5 flushed_run) \/ (level = 1%nat /\ f = run_file 7 compacted_run).
Proof. unfold level_files. do 7 (destruct level as [|level]; [simpl; set_solver|]). simpl. destruct level; set_solver. Qed.

Lemma before_lsm : @lsm BytewiseComparator repair_reader repair_reader_ok before_repair.
Proof.
  split.
  - intros level Hl. split; [split|].
    + apply Forall_forall. intros f Hf. apply before_level in Hf as [ [_ ->]|[_ ->] ]; vm_compute; discriminate.
    + unfold level_files. do 7 (destruct level as [|level]; [simpl; repeat constructor|]). simpl. destruct level; constructor.
    + apply Forall_forall. intros f Hf. apply before_level in Hf as [ [_ ->]|[_ ->] ]; vm_compute; discriminate.
  - vm_compute. lia.
  - intros level f Hf. unfold file_contents_ok, exact_bounds.
    change (@contents BytewiseComparator repair_reader repair_reader_ok f) with (repair_runs (number f)).
    apply before_level in Hf as [ [_ ->]|[_ ->] ];
      (split; [repeat constructor|]; split; [|split; reflexivity]);
      (apply Forall_cons; split; [split; [do 3 eexists; split; [reflexivity|vm_compute; intuition discriminate]|split; vm_compute; intuition discriminate]|]); apply Forall_nil_2.
  - repeat constructor. set_solver.
  - intros [l1 f1] [l2 f2] e e' Hf1 Hf2 Hn He He' Hu. cbn [fst snd] in *.
    apply before_level in Hf1 as [ [-> ->]|[-> ->] ]; apply before_level in Hf2 as [ [-> ->]|[-> ->] ]; destruct Hn as [Hn|(Hn & Hn1 & Hn2)]; simpl in *; try lia.
    change (e ∈ flushed_run) in He. change (e' ∈ compacted_run) in He'. apply list_elem_of_singleton in He as ->. apply list_elem_of_singleton in He' as ->. vm_compute. reflexivity.
Qed.

(** C14: a repair brings an old value back.  The tree is in order, and a read of the
    key gives its newest value.  [WriteDescriptor] puts all tables into level 0, where
    the table with the largest number is searched first; after the repair and
    reopening the same read gives the value that had been overwritten. *)
Theorem repair_returns_old_value :
  @lsm BytewiseComparator repair_reader repair_reader_ok before_repair /\
  repair_get before_repair (str "b") = Some (OK, str "new") /\ read_repaired (str "b") = Some (OK, str "old").
Proof. split; [exact before_lsm|]. split; vm_compute; reflexivity. Qed.

Lemma repair_rename (env : unit) (a b : bytes) : exists env', fs_rename env a b = (OK, env').
Proof. by exists env. Qed.

Lemma repair_switch (env : unit) (n : Z) : exists env', SetCurrentFile env (str "db") n = (OK, env').
Proof. exists env. unfold SetCurrentFile, WriteStringToFileSync, DoWriteStringToFile. by cbn. Qed.

Lemma repair_shows n : table_shows repair_iterator OK 5 tt n 1000 (repair_runs n).
Proof.
  unfold table_shows, repair_iterator, repair_runs. destruct (n =? 5); (eexists; split; [reflexivity|]; split; [|vm_compute; lia]);
    (eapply shows_cons; [reflexivity..|]); by constructor.
Qed.

Lemma repair_whole : all_whole BytewiseComparator (str "db") repair_size repair_iterator (fun _ => 1000) repair_runs 5 tt [5; 7].
Proof.
  assert (Hw : forall n, u64_ok n -> whole_table BytewiseComparator (str "db") repair_size repair_iterator 5 tt n 1000 (repair_runs n)).
  { intros n Hn. split.
    - eexists. left. split; reflexivity.
    - apply repair_shows.
    - unfold repair_runs. by destruct (n =? 5).
    - unfold repair_runs. destruct (n =? 5); repeat constructor.
    - unfold repair_runs. destruct (n =? 5); (apply Forall_cons; split; [|apply Forall_nil_2]); (split; [by eexists|by vm_compute]).
    - split; [done|unfold u64_ok; lia]. }
  apply Forall_cons. split; [apply Hw; unfold u64_ok; lia|]. apply Forall_cons. split; [apply Hw; unfold u64_ok; lia|apply Forall_nil_2].
Qed.

Lemma repair_then_recover_witness : exists f r env' vs' env3 save, repair_run = Some (OK, Some f, r, env') /\
  repair_recover f = Some (OK, vs', env3, save) /\
  files_map (level_files (current vs') 0) = files_map (scanned_files (fun _ => 1000) repair_runs [5; 7]).
Proof.
  destruct (repair_then_recover BytewiseComparator (str "cmp") (str "db") flush_options flush_new no_log repair_size repair_children
    repair_mkdir flush_close flush_table repair_iterator flush_env repair_rename repair_switch (fun _ => 1000) repair_runs
    5 tt tt repair_names (fold_left find_file repair_names newRepairer) 8) as (f & r & env' & E1 & Hrec).
  - reflexivity.
  - discriminate.
  - vm_compute. split; [discriminate|reflexivity].
  - intros name n Hin E0. repeat (apply elem_of_cons in Hin as [-> |Hin]; [vm_compute in E0; try discriminate; injection E0 as <-; lia|]). by apply elem_of_nil in Hin.
  - by vm_compute.
  - reflexivity.
  - apply (bool_decide_unpack _). vm_compute. exact Logic.I.
  - exact repair_whole.
  - destruct (Hrec (repaired_open f) false 2000000 flush_new tt (str "MANIFEST-000001" ++ [Byte.x0a]) f (str "MANIFEST-000001") 200%nat)
      as (vs' & env3 & save & E2 & Hfiles & _); [reflexivity|reflexivity|vm_compute; lia|reflexivity|reflexivity| |].
    + vm_compute in E1. injection E1 as <- _ _. by vm_compute.
    + exists f, r, env', vs', env3, save. split; [exact E1|]. split; [exact E2|exact Hfiles].
Defined.

(** The iterator over a table whose next block cannot be read. *)
Definition damaged_iter : Iterator ListIter :=
  let cmp := InternalKeyComparator BytewiseComparator in {|
  Valid it := Valid (Iterator := ListIter_iterator cmp) it;
  Seek it target := Seek (Iterator := ListIter_iterator cmp) it target;
  SeekToFirst it := SeekToFirst (Iterator := ListIter_iterator cmp) it;
  SeekToLast it := SeekToLast (Iterator := ListIter_iterator cmp) it;
  Next it := Next (Iterator := ListIter_iterator cmp) it;
  Prev it := Prev (Iterator := ListIter_iterator cmp) it;
  key it := key (Iterator := ListIter_iterator cmp) it;
  value it := value (Iterator := ListIter_iterator cmp) it;
  status it := if Valid (Iterator := ListIter_iterator cmp) it then OK else Corruption (str "bad block") [] |}.

Lemma damaged_shows : table_shows (Iterator0 := damaged_iter) repair_iterator (Corruption (str "bad block") []) 5 tt 5 1000 flushed_run.
Proof.
  eexists. split; [reflexivity|]. split; [|vm_compute; lia]. eapply (shows_cons (Iterator0 := damaged_iter)); [reflexivity..|]. by constructor.
Qed.

Lemma flushed_fits : flushable (F := flat_file) (InternalKeyComparator BytewiseComparator) flush_options flushed_run.
Proof.
  intros f Hf. change (wcontents f) with f in Hf. subst f. split; [simpl; lia|]. split; [reflexivity|]. split; [repeat constructor|].
  split; [by vm_compute|]. split; [exact Logic.I|]. vm_compute. exact Logic.I.
Qed.

Lemma repair_salvages_table_witness : exists f size' env',
  ScanTable (Iterator0 := damaged_iter) (str "db") flush_options flush_new repair_size repair_mkdir flush_close repair_iterator 5 5 newRepairer tt =
    Some (mkRepairer newVersionEdit [] [] [] [table_info 5 size' flushed_run] 2 [(5, f)], env') /\
  exists t done, Open (fun _ => false) flush_options f size' 1 = Some (OK, Some t) /\ opened flush_options t done /\ entries done = flushed_run.
Proof.
  destruct (repair_salvages_table (G := flat_file) (HSn := no_snappy_ok) (Iterator0 := damaged_iter) BytewiseComparator BytewiseComparator_ok (str "db") flush_options
    flush_new repair_size repair_mkdir flush_close flush_table repair_iterator (Corruption (str "bad block") []) 5 5 1000 (TableFileName (str "db") 5) flushed_run newRepairer tt)
    as (f & size' & env' & E1 & Hopen).
  - exact flush_env.
  - exact repair_rename.
  - left. split; reflexivity.
  - exact damaged_shows.
  - reflexivity.
  - intros f env1 _. destruct env1. exact damaged_shows.
  - discriminate.
  - apply Forall_cons. split; [by eexists|apply Forall_nil_2].
  - exact flushed_fits.
  - exists f, size', env'. split; [exact E1|]. apply (Hopen f (fun _ => false) 1). reflexivity.
Defined.

Lemma repair_converts_log_witness : exists k r' env', (k <= 1)%nat /\
  ConvertLogToTable BytewiseComparator (str "db") flush_options flush_new open_seq flush_close flush_table 1000 3 newRepairer tt = Some (OK, r', env') /\
  converted BytewiseComparator flush_options newRepairer r' (logged_updates (take 1 open_batches ++ take k (drop 1 open_batches))).
Proof.
  destruct open_log_holds as (frss1 & frss2 & Hl & Hh & Hn).
  apply (repair_converts_log BytewiseComparator BytewiseComparator_ok (str "db") flush_options flush_new open_seq flush_close flush_table
    open_writer frss1 frss2 (take 1 open_batches) (drop 1 open_batches) open_cut open_file 1000 2 3 newRepairer tt).
  - exact flush_env.
  - exact Hh.
  - rewrite Hl. reflexivity.
  - exact Hn.
  - reflexivity.
  - reflexivity.
  - exact open_log_ok.
  - split; [vm_compute; reflexivity|lia].
Defined.
